(* ===== verification/_CoqProject ===== *)
-Q . S2P
Prelude.v
RustStr.v
SqlText.v
Boundary.v
EngineText.v
SplitState.v
Engine.v
SplitFrame.v
EngineTurn.v
EngineLoop.v
EngineInvariant.v
EngineLines.v
LexicalScan.v
EngineLiterals.v
PlainSplit.v
EndResolution.v
EngineSpec.v
Utf8.v
Rope.v
RopeLaws.v
TextRope.v
TextLaws.v
TextSpec.v
ValueSpec.v
UndoHistory.v
UndoLaws.v
UndoSpec.v
TtcWire.v
TtcSpec.v
OracleNumber.v
OracleNumberSpec.v
OracleDate.v
OracleDateSpec.v
OracleFixed.v
Delimiter.v
LockOrder.v
RetainedSession.v
SessionPolicy.v
SessionCancel.v
TotalOrder.v
FindText.v
GridSort.v
GridSortSpec.v
GridState.v
GridSpec.v
ResultFilter.v
RustParse.v
SqlScan.v
ResultEdit.v
EditStatements.v
EditValid.v
EditCompare.v
MysqlEdit.v
MysqlEditSpec.v
MysqlSelect.v
ResultExport.v
ImportDelimited.v
ImportMarkup.v
ResultImport.v
MarkdownLaws.v
MarkupLaws.v
XmlHtmlLaws.v
ImportSpec.v
ThinPool.v
SelectionSummary.v
SelectionText.v
FsAtomic.v
Hangul.v
HangulSpec.v
HangulRepair.v
SqlLiteral.v
SqlImport.v
GridSqlExport.v
SqlTokens.v
SqlAtoms.v
SqlLiteralSpec.v
SqlFile.v
SqlFileSpec.v
