(* ===== verification/Prelude.v ===== *)
(** * SPACE Query: scripts, editor text, sessions, result grids, and what is written of them

    SPACE Query is a desktop SQL client for Oracle, MySQL and MariaDB.  Its main
    crate ([src/src]) is a user interface over drivers; what decides whether the
    user's text, data and transactions survive is a smaller core, and that core is
    what this development models and proves:

    - how a script is cut into statements ([sql_parser_engine/*], with the
      classifiers of [sql_text.rs] it calls), and which delimiter frames a line
      opens and closes ([sql_delimiter.rs]);
    - what holds the text while it is edited ([ui/sql_editor/chunked_text.rs]),
      how edits are grouped, undone and redone ([undo_history.rs]) and how a
      stranded Hangul jamo is repaired ([hangul_repair.rs]);
    - what the application knows about a database session it keeps
      ([db/transaction.rs]), what it does with that session after a cancel, a
      timeout or a lost connection ([db/session_policy.rs], with the applier of
      the Oracle batch cleanup in [ui/sql_editor/execution.rs]), and how it
      reads the errors of its drivers;
    - how values cross the wire of the Oracle thin driver
      ([tns-thin/src/session.rs]): packets, TTC fields, and the formats of numbers,
      dates, intervals and floats; and how threads share its sessions
      ([tns-thin/src/pool.rs]);
    - what the result grid does with the rows of an answer: sorting
      ([ui/grid_sort.rs]), filtering by value ([ui/grid_value_filter.rs]), moving
      and hiding columns ([ui/column_layout.rs]), searching ([ui/grid_search.rs],
      [ui/find_replace.rs]), the operations of [ui/result_table.rs] that compose
      them, the summary of a selection ([ui/selection_summary.rs]); and whether a
      statement may be run again with a filter around it ([ui/result_filter.rs]);
    - how edits of the grid are saved ([db/result_edit.rs]);
    - how a grid leaves the program and comes back: delimited text, JSON, XML,
      HTML and Markdown ([ui/result_export.rs], [ui/result_import.rs]), generated
      SQL ([ui/grid_sql_export.rs]) and the reader of SQL files, and the atomic
      write of a file ([utils/fs_atomic.rs]);
    - the debug tracker of lock acquisition order ([db/lock_order.rs]).

    ** The files

    Shared vocabulary.
    - [Prelude]: record update in the form of Rust's field assignment, decidable
      [==], vectors as lists (push and pop at the end), slices, string literals,
      the hint databases and tactics.
    - [RustStr]: the part of Rust's [char] and [str] the code uses.  Text is a
      list of Unicode scalar values; byte offsets are explicit where the code
      returns them.  The Unicode tables behind [char::is_alphabetic] and
      [char::is_numeric] are a parameter (class [UnicodeTables]).
    - [Utf8]: the same for code that works on bytes: UTF-8 encoding and
      decoding, character boundaries, [str::get], [partition_point].
    - [RustParse]: [str::parse] of numbers, [str::replace], [strip_prefix].
    - [TotalOrder]: Rust's [Ordering]; [TotalCmp], what [sort_by] asks of its
      closure; [StableSort], what it promises, with insertion sort as an instance.

    The splitter, one definition per function or per arm of a long function.
    - [SqlText]: the keyword tables and classifiers of [sql_text.rs] the engine
      uses.
    - [Boundary]: [boundary.rs]: the enums, routine frames and the automaton for
      external call specifications.
    - [EngineText]: the text helpers of [engine.rs]: lexical spans, q-quote and
      dollar-quote openers, slash terminators, line markers.
    - [SplitState]: [state.rs]: the record [SplitState] and its methods, each
      [&mut self] method a function from state to state.  [flush_token],
      [handle_block_openers] and [track_create_plsql] are compositions of their
      stages in source order.
    - [Engine]: [engine.rs]: [SqlParserEngine], the character loop with one
      [turn_*] definition per lexer mode and per opener, the line drivers and the
      observers.  An observer callback is modelled by the list of events it would
      receive; [None] is a Rust panic.
    - [SplitFrame]: which fields each operation may touch ([framed], [flushed])
      and that routine frames stay well-formed.
    - [EngineTurn]: [TurnShape], the abstract turn of the character loop, and
      that every concrete turn refines it.
    - [EngineLoop]: the loop as a whole: it returns, what it keeps and produces.
    - [EngineInvariant]: [engine_ok], preserved by every operation.
    - [EngineLines]: what a line does, scripts of lines, reachable engines.
    - [LexicalScan]: the lexical scan of a whole text and its spans.
    - [EngineLiterals]: literals and comments read as units.
    - [PlainSplit]: the reference splitter for plain text and its equivalence.
    - [EndResolution]: END resolution, semicolon decisions, slash tests, forced
      termination.
    - [EngineSpec]: the theorems on the splitter.
    - [Delimiter]: delimiter frames, with their theorems.

    The editor's text, bottom up.  The code's [trait SequenceLeaf] is a class of
    operations; its laws are the classes [LeafLaws] and [BreakLaws], against which
    the tree is proved and which each kind of leaf discharges.
    - [Rope]: [SequenceNode] and [PersistentSequence], with a function of the
      source per definition ([node_*], [seq_*]).  A visitor callback is a fold.
    - [RopeLaws]: the laws of leaves, the content of a tree, its balance, and
      that splitting, joining, replacing and searching respect both.
    - [TextRope]: [TextChunk], [ChunkedTextSlice] and [ChunkedText]: a chunk is
      a window on a storage string and on the break positions of that storage.
      [Arc::ptr_eq] is the class [ArcPtrEq]: a test that answers true only on
      equal contents, and may answer false on them.
    - [TextLaws], [TextSpec]: text chunks are lawful leaves; the theorems on
      [ChunkedText] against the flat string, its lines and its encoding.
    - [ValueSpec]: [ChunkedValues] and [RunValues] and that they are vectors, the
      latter in canonical run-length form.

    The undo history and the Hangul repair.
    - [UndoHistory]: [WordUndoRedoState] and its operations, and the widget's
      [undo], [redo], resets and history navigation as functions of the state and
      of the bytes of the buffer.  The toolkit's replacement of a
      range of its buffer is a parameter, [buffer_replace].
    - [UndoLaws]: the invariant [history_ok]: deltas replay between anchor and
      current text, forwards and backwards.
    - [UndoSpec]: the one edit that stands for the deltas of a group; the theorems
      on the history.
    - [Hangul]: the jamo tables, the automaton and the repair state of
      [hangul_repair.rs]; [None] is an index out of a table.
    - [HangulSpec], [HangulRepair]: the automaton against the syllables that were
      spelled; repairs of repairs, and what a key event may change.

    The thin driver, on bytes as [N] below 256.
    - [TtcWire]: big-endian integers of a width, data packets, the packet cursor
      over a payload that is complete or still arriving, every field reader of it,
      and the writers.  The reader that follows a marker into the reset handshake is
      a parameter with the law [marker_reads_stream].
    - [TtcSpec]: what each reader reads and leaves; the theorems.
    - [OracleNumber], [OracleNumberSpec]: NUMBER from text to bytes and back, with
      the 16-bit arithmetic of the decimal point.
    - [OracleDate], [OracleDateSpec]: DATE, TIMESTAMP and TIMESTAMP WITH TIME ZONE,
      the calendar and the offsets.  What is known of a region is the parameter
      [zone_info].
    - [OracleFixed]: intervals, binary floats by their bits, unsigned integers.
    - [ThinPool]: the pool as a step relation, a step being one critical section.
      What sessions answer and what the clock says comes with the steps; the mutex
      is never poisoned, and a wait that was notified is not reported as timed out.

    Sessions.
    - [RetainedSession]: transaction, residue and lock state of a session; the
      caution order and the class [ConservativeJoin] of merges.
    - [SessionPolicy]: preflight gates, the decision after an interrupt, the
      class [SessionDecisionApplier] (the source's trait) and the Oracle cleanup
      as its instance.
    - [SessionCancel]: error-message classifiers and the rule that asks a session
      a second time past the application's own cancel.
    - [LockOrder]: the lock tracker.

    The result grid.
    - [FindText]: the search in a text, with and without case.  [to_lowercase] is a
      parameter.
    - [GridSort], [GridSortSpec]: the order of cells by kind of column and the sort
      of rows with their edit state.
    - [GridState]: the column dialog's plan and the permutation it asks for, value
      filters, the search session, and the grid with the rows a filter took away
      and the operations of [result_table.rs] on them.
    - [GridSpec]: what they keep; the theorems.
    - [ResultFilter]: the byte walks of the re-query gate over the lexical spans of
      [EngineText], against what they look for.  [is_select_statement] and
      [to_uppercase] are parameters.
    - [SelectionSummary], [SelectionText]: the accumulator of the status bar with
      its checked 128-bit arithmetic (the exact operation, then the check), and its
      texts.

    Saving edits of the grid.
    - [SqlScan]: [TopLevelScanner] of [db/query/script.rs].
    - [ResultEdit]: the data of an edit, the comparison of what was shown with what
      is stored, the choice of the key.
    - [EditStatements]: quoting, the validation of a request, every statement with
      its parameters.
    - [EditValid], [EditCompare]: validation against its specification, names, the
      least key; stored values and their texts.
    - [MysqlEdit]: the transaction of an edit against the class [MysqlDriver], whose
      calls and answers are logged.
    - [MysqlEditSpec]: the conversation that a request is, and, with the class
      [Transactions] of what a server does with it, that an edit is all or nothing.
    - [MysqlSelect]: the reader of a single-table SELECT and the rewriting that
      makes it editable, with their theorems.

    Grids as files.
    - [ResultExport]: the writers of CSV, TSV, JSON, XML, HTML and Markdown.  The
      string writer of serde_json and the Parquet writer are parameters.
    - [ImportDelimited], [ImportMarkup], [ResultImport]: the readers; the reader of
      JSON is a parameter.
    - [MarkdownLaws], [MarkupLaws], [XmlHtmlLaws]: each document as its reader sees
      it; unique column names.
    - [ImportSpec]: the round trips.
    - [SqlLiteral]: the literal of a value for a backend, a session's rule of the
      backslash and a kind of column.
    - [SqlImport]: the reader of INSERT files.
    - [GridSqlExport]: names, and the builders of INSERT, UPDATE and WHERE.  The
      parser that finds a statement's table is a parameter.
    - [SqlTokens], [SqlAtoms]: a text as characters and quoted parts; every loop of
      the reader is a function of these, and passes balanced text; literals,
      numbers, chains and TO_CLOB calls as such text.
    - [SqlLiteralSpec], [SqlFile], [SqlFileSpec]: each value survives its literal,
      each statement its reader, and a file the way out and back.
    - [FsAtomic]: the write of a file as a program over a directory, with the
      outcome of every call and what a crash may leave.

    ** What the theorems show

    Scripts ([EngineSpec]).  For every script the splitter returns and cuts the
    script's own text, losing nothing but terminators
    ([script_splits_into_pieces], [process_chars_partitions_text],
    [line_contract], [process_chars_returns]); each turn refines an abstract shape
    ([turn_refines_shape]); observers hear events in order and at the right bytes;
    lexical spans are sound and the search over them exact; literals and comments
    are opaque; on a script of plain lines the line driver equals a reference that
    knows neither lines nor words ([plain_script_reference]; [plain_line] says
    what is left out).  Reachable engines are well-formed and never
    panic, and block scopes, END and semicolons act as counted.

    Text ([TextSpec], [ValueSpec]).  A rope after any edits is the string a flat
    buffer would hold ([rope_edits_refine_string]), valid UTF-8 in every chunk
    ([rope_text_is_utf8]), of logarithmic depth counted on the tree itself
    ([rope_depth_is_logarithmic]),
    with line queries that follow the line breaks as long as no edit cuts a CRLF
    pair ([rope_lines_follow_breaks]; [crlf_cut_leaves_stale_line_count] shows
    what happens otherwise); the value sequences are vectors, runs canonical.

    Undo ([UndoSpec]).  Every reachable history replays from its anchor to its
    current text ([undo_history_replays]); undo and redo are inverse
    ([undo_redo_round_trip]) and keep the editor's buffer equal to the history's
    text ([undo_redo_keep_buffer_in_step]); recording applies the edit whatever is
    merged or trimmed; a walk through the query history gives the buffer back.

    Hangul.  Syllables come back however they were put in
    ([spelled_syllables_recompose]); repairing at every key is repairing once
    ([repeated_repair_is_one_repair]); a key event panics nowhere and changes only
    the run behind the stranded jamo ([key_event_repairs_its_run]).

    Wire values.  Fields read back as written wherever packet boundaries fall
    ([fields_read_back], [packet_boundaries_are_invisible]).  A numeral of at most
    32000 digits is refused exactly when its exponent or its digits are out of range
    ([number_accepted_iff_in_range]) and otherwise comes back as the same number
    ([number_round_trip]; [long_numeral_is_sent_as_one] is where 16 bits wrap).
    Moving a date is addition of days ([shift_is_day_arithmetic]); dates come back
    as sent ([date_round_trip], [region_round_trip] with its exception); intervals
    are shown as sent; the bytes of floats sort as the floats do.

    The pool ([ThinPool]).  However threads interleave, sessions are counted
    exactly and stay below the maximum ([pool_keeps_its_size]), have one owner
    ([sessions_have_one_owner]), no wakeup is lost ([no_wakeup_is_lost]) and closing
    is final ([closing_is_final]; [closed_pool_connects] is its exception).

    Result grid.  The order of cells is exact on decimals of any length and total
    ([number_order_is_exact]), except on dates ([date_order_is_not_total]); sorting
    is stable and carries edit state ([column_sort_is_stable_and_sorted]); the
    column dialog asks for a permutation that leaves what it does not show
    ([column_plan_arranges_columns]); filters keep exactly the rows that look like
    the selection; through any history of these no cell is lost or renamed
    ([grid_keeps_every_cell]); search
    finds the cells that show the needle, starts at or after its origin and goes
    through them in reading order ([next_visits_every_match],
    [find_returns_the_first]).  The gate of re-querying
    finds exactly what it looks for ([filter_gate_is_exact]).  The status bar's
    numbers are exact ([summary_is_exact], [cell_is_the_number_it_spells]) and are
    reported whenever they fit ([summary_reports_what_fits]).

    Edits ([MysqlEditSpec], [EditValid], [EditCompare], [MysqlSelect]).  Saving
    holds exactly the planned conversation ([edit_conversation]) and leaves all of
    an edit or nothing ([edit_is_all_or_nothing]); a request is accepted exactly if
    it is valid ([request_validation_is_exact]); quoted names read back
    ([quoted_path_reads_back]); the key is the primary one, else one of the
    fewest columns, else the first by name ([locator_is_the_least_key]); a stored value is recognised by its text
    ([stored_text_is_recognised]); an editable query gains only its key
    ([rewriting_adds_only_the_key]), and its rows can be edited
    ([read_rows_can_be_edited]).

    Files.  A grid comes back of its CSV, XML, HTML or Markdown file
    ([delimited_round_trip], [xml_round_trip], [html_round_trip],
    [markdown_round_trip]) with what each format cannot say stated; names are made
    unique ([unique_names_are_unique]); imported tables are rectangular
    ([accepted_tables_are_rectangular]).  A grid comes back of its INSERT file,
    read without being told its backend, with every text character for character
    ([inserts_file_round_trip]); for Oracle no text is too long
    ([long_text_is_written]).  A write leaves the old file or the whole new one
    ([write_is_all_or_nothing]), under a name that fits ([temporary_name_fits]).

    Delimiters: boundaries detect exactly their close.  Locks: the tracker reports
    exactly the pairs taken in both orders.  Sessions: merging is a join that
    neither loses nor invents obligations, probes, errors and successful
    statements change exactly what they may, reuse happens exactly under the
    documented conditions, retained work is filed and not lost, the gates agree,
    and a call is repeated only past the application's own cancel.

    ** Bounds and fuel

    Loops over text take fuel: the length of the text they read, plus one where
    a loop also inspects its end.  Each turn of the character loop moves forward,
    so [process_chars_with_observer] runs with the text's length and
    [process_chars_returns] shows it always returns; [None] is kept for Rust's
    panics on an index out of range and [reachable_never_panics] shows it does not
    occur on reachable engines.  The chunk, run and word loops of the editor take
    at least one byte, value or character per turn, so the length of what they
    read is enough: that all of it is read is part of the theorems on contents.
    The recursions on trees and on the list of deltas are structural.  A wire
    reader takes as fuel the packets that can still arrive or the bytes that are
    left; moving a date, the number of days; a byte walk of the re-query gate, the
    length of the statement, which [filter_gate_is_exact] shows is never short.
    The loops of the markup reader ([markup_loop], [decode_loop],
    [attribute_loop]) take the length of the text, each turn at least a character
    of it; the search for a free name ([free_name]) one more than the names taken;
    the loops over comments, value groups and INSERT ALL targets the length of the
    text and one, each turn at least the mark it looks for.  Loops that read ahead
    (a quoted part, a comment) are structural and count what was read.

    [usize] counters are [nat]: they count characters, blocks, frames or bytes of
    a text in memory.  The [u64] generation of delimiter frames wraps and is kept
    modulo 2^64, with the bound under which it is exact in
    [boundary_detects_exactly_its_close]; the [u64] group id of the undo history
    saturates, as in the code; sums of a selection are checked at 128 bits.

    ** What is not modelled

    User interface, configuration and logging; the formatter, highlighting and
    completion; the drivers but for the values and the pool of the thin driver (its
    login, its messages, zoneinfo files, VECTOR, OSON, LOBs, the printing of
    floats); the statement analyser that derives session effects from SQL text, so
    its results (effects, hints, claims) are inputs of the session model; health
    checks against a server, whose answer is an input of the interrupt decision, as
    in the code.  Of the undo history, the reading of the inserted text from the
    toolkit's buffer and its matching with a pending paste; of the rope, the
    counters of shared chunks that only tests read; of the grid, edit sessions,
    streaming and painting; of result editing, the JSON form of a snapshot; of
    export and import, JSON strings and the JSON reader (serde_json), Parquet, and
    the run of an import against a connection.

    ** Plan

    What is left, in order: the statement analysis of [transaction.rs] and the
    script items of [db/query/script.rs] on top of the engine; the edit sessions of
    the grid; the JSON reader over a model of serde_json; the snippets and tab
    strips of the editor; the activity registry of [db/runtime.rs]; the result of an
    undo right after an unmerged edit, which needs that group ids stay fresh;
    balanced BEGIN/END bodies against a reference splitter. *)
From Stdlib Require Export Ascii String Lia.
From stdpp Require Export strings numbers option sets base list.

#[global] Open Scope nat_scope.

(** ** Record update

    [r <| field := v |>] is Rust's field assignment.  A record type declares
    how it is rebuilt from its projections ([Eta]) and the update function of
    each projection is derived from that. *)
Class Eta (R : Type) := eta : R -> R.
Arguments eta {R _} _ /.

Class Updater {R T : Type} (proj : R -> T) := upd : (T -> T) -> R -> R.
Arguments upd {R T} proj {_} _ _.

Ltac build_updater proj :=
  match type of proj with
  | ?R -> ?T =>
    let e := constr:(fun (f : T -> T) (r : R) =>
      ltac:(let body := eval cbv [eta] in (eta r) in
            let body := eval hnf in body in
            let p := eval pattern (proj r) in body in
            match p with ?g _ => exact (g (f (proj r))) end)) in
    let e := eval cbv beta in e in exact e
  end.

#[export] Hint Extern 1 (Updater ?p) => build_updater p : typeclass_instances.

Declare Scope rust_scope.
Delimit Scope rust_scope with rust.
#[global] Open Scope rust_scope.

#[warnings="-postfix-notation-not-level-1"]
Notation "x <| p := v |>" := (upd p (fun _ => v) x)
  (at level 12, left associativity, p at level 9, v at level 200) : rust_scope.
#[warnings="-postfix-notation-not-level-1"]
Notation "x <| p ::= f |>" := (upd p f x)
  (at level 12, left associativity, p at level 9, f at level 200) : rust_scope.

(** Rust's [==] and [!=] on types with decidable equality. *)
Notation "x == y" := (bool_decide (x = y)) (at level 70, no associativity) : rust_scope.
Notation "x != y" := (negb (bool_decide (x = y))) (at level 70, no associativity) : rust_scope.

(** [opt.is_some_and(f)] and [opt.is_none_or(f)]. *)
Definition is_some_and {A} (o : option A) (f : A -> bool) : bool :=
  match o with Some x => f x | None => false end.

Definition is_none_or {A} (o : option A) (f : A -> bool) : bool :=
  match o with Some x => f x | None => true end.

(** A [Vec] is a list in index order: [push] and [pop] work at its end. *)
Definition vec_push {A} (x : A) (v : list A) : list A := v ++ [x].
Definition vec_pop {A} (v : list A) : list A := removelast v.

(** A [char] is a Unicode scalar value, a [&str] or [String] the list of its
    characters. *)
Abbreviation char := N (only parsing).
Abbreviation str := (list N) (only parsing).

Declare Scope ch_scope.
Delimit Scope ch_scope with ch.

Definition ch_parse (l : list Byte.byte) : option N :=
  match l with [b] => Some (Byte.to_N b) | _ => None end.

Definition ch_print (n : N) : option (list Byte.byte) :=
  match Byte.of_N n with Some b => Some [b] | None => None end.

String Notation N ch_parse ch_print : ch_scope.

(** A source literal as a list of characters. *)
Definition u (s : string) : str := N_of_ascii <$> list_ascii_of_string s.
Arguments u : simpl never.

(** [matches!(word, "A" | "B" | ..)]. *)
Definition is_word (s : str) (w : string) : bool := bool_decide (s = u w).
Definition is_one_of (s : str) (ws : list string) : bool := existsb (is_word s) ws.
Arguments is_word : simpl never.
Arguments is_one_of : simpl never.

(** The character of [s] at [i] is [c]. *)
Definition at_is (s : str) (i : nat) (c : char) : bool :=
  match s !! i with Some d => N.eqb d c | None => false end.

(** [matches!(c, 'a' | 'b' | ..)], the alternatives written as one literal. *)
Definition is_char_of (c : char) (alts : string) : bool := existsb (N.eqb c) (u alts).
Arguments is_char_of : simpl never.

(** ** Automation *)
Create HintDb engine discriminated.
Create HintDb frame discriminated.

(** Splits every conditional of the goal. *)
Ltac split_ifs :=
  repeat (match goal with
          | |- context [if ?b then _ else _] => destruct b eqn:?
          | |- context [match ?x with _ => _ end] => destruct x eqn:?
          end; cbn -[u]; try done).

(** ** Slices *)

(** [c[i..j]]. *)
Definition slice {A} (i j : nat) (c : list A) : list A := drop i (take j c).

Lemma slice_nil {A} i j (c : list A) : j <= i \/ length c <= i -> slice i j c = [].
Proof. intros. unfold slice. apply drop_ge. rewrite length_take. lia. Qed.

Lemma slice_min {A} i j (c : list A) :
  slice (Nat.min i (length c)) (Nat.min j (length c)) c = slice i j c.
Proof.
  unfold slice. rewrite <- take_take, take_ge with (n := length c) by done.
  destruct (Nat.le_ge_cases i (length c)); [by rewrite Nat.min_l|].
  rewrite Nat.min_r, !drop_ge by (rewrite ?length_take; lia). done.
Qed.

Lemma slice_app {A} i j (c1 c2 : list A) :
  slice i j (c1 ++ c2) = slice i j c1 ++ slice (i - length c1) (j - length c1) c2.
Proof.
  unfold slice. rewrite take_app, drop_app, length_take.
  destruct (Nat.le_ge_cases j (length c1)).
  - replace (j - length c1) with 0 by lia. by rewrite take_0, !drop_nil.
  - by rewrite Nat.min_r.
Qed.

Lemma slice_full {A} (c : list A) : slice 0 (length c) c = c.
Proof. unfold slice. by rewrite drop_0, take_ge. Qed.

Lemma length_slice {A} i j (c : list A) : length (slice i j c) = Nat.min j (length c) - i.
Proof. unfold slice. by rewrite length_drop, length_take. Qed.

Lemma slice_take {A} i j (c : list A) : i <= j -> take i c ++ slice i j c = take j c.
Proof.
  intros Hij. unfold slice. rewrite <- (take_drop i (take j c)) at 2.
  by rewrite take_take, Nat.min_l by lia.
Qed.

Lemma slice_drop {A} i j (c : list A) : i <= j -> slice i j c ++ drop j c = drop i c.
Proof. intros Hij. by apply drop_take_drop. Qed.

Lemma slice_slice {A} i j p q (c : list A) :
  i <= j <= length c -> q <= j - i -> slice p q (slice i j c) = slice (i + p) (i + q) c.
Proof.
  intros Hj Hq. unfold slice. rewrite take_drop_commute, drop_drop, take_take.
  by rewrite Nat.min_l by lia.
Qed.

Lemma slice_join {A} i j k (c : list A) :
  i <= j <= k -> slice i k c = slice i j c ++ slice j k c.
Proof.
  intros Hij. unfold slice. rewrite <- (take_drop j (take k c)) at 1.
  rewrite take_take, Nat.min_l, drop_app, length_take by lia.
  destruct (Nat.le_gt_cases j (length c)).
  - by replace (i - Nat.min j (length c)) with 0 by lia.
  - rewrite (drop_ge (take k c) j), drop_nil by (rewrite length_take; lia). done.
Qed.
