(* ===== verification/RustStr.v ===== *)
(** * The part of Rust's [char] and [str] the SQL text code uses

    Strings are lists of Unicode scalar values, and a byte offset that Rust
    takes on a character boundary is the number of characters before it; the
    two functions whose result is a byte offset ([utf8_len], [byte_offset])
    are given explicitly.  The Unicode tables behind [char::is_alphabetic] and
    [char::is_numeric] are a parameter ([UnicodeTables]): the definitions fix
    the ASCII half, which is all the library promises there. *)
From S2P Require Import Prelude.

(** ** Characters *)

(** The non-ASCII halves of [char::is_alphabetic] and [char::is_numeric]. *)
Class UnicodeTables := {
  alphabetic_table : char -> bool;
  numeric_table : char -> bool
}.

Definition in_range (lo hi c : char) : bool := N.leb lo c && N.leb c hi.

Definition is_ascii (c : char) : bool := N.ltb c 128.
Definition is_ascii_uppercase (c : char) : bool := in_range "A"%ch "Z"%ch c.
Definition is_ascii_lowercase (c : char) : bool := in_range "a"%ch "z"%ch c.
Definition is_ascii_alphabetic (c : char) : bool := is_ascii_uppercase c || is_ascii_lowercase c.
Definition is_ascii_digit (c : char) : bool := in_range "0"%ch "9"%ch c.
Definition is_ascii_alphanumeric (c : char) : bool := is_ascii_alphabetic c || is_ascii_digit c.

(** [char::is_whitespace]: the Unicode [White_Space] property. *)
Definition is_whitespace (c : char) : bool :=
  in_range 9 13 c || N.eqb c 32 || N.eqb c 133 || N.eqb c 160 || N.eqb c 5760
  || in_range 8192 8202 c || N.eqb c 8232 || N.eqb c 8233 || N.eqb c 8239
  || N.eqb c 8287 || N.eqb c 12288.

(** [char::is_control]: general category [Cc]. *)
Definition is_control (c : char) : bool := in_range 0 31 c || in_range 127 159 c.

Definition to_ascii_uppercase (c : char) : char :=
  if is_ascii_lowercase c then (c - 32)%N else c.

Definition is_alphabetic `{UnicodeTables} (c : char) : bool :=
  if is_ascii c then is_ascii_alphabetic c else alphabetic_table c.

Definition is_alphanumeric `{UnicodeTables} (c : char) : bool :=
  if is_ascii c then is_ascii_alphanumeric c
  else alphabetic_table c || numeric_table c.

(** [char::len_utf8]. *)
Definition len_utf8 (c : char) : nat :=
  if N.ltb c 128 then 1 else if N.ltb c 2048 then 2 else if N.ltb c 65536 then 3 else 4.

(** ** Strings *)

Definition ascii_upper (s : str) : str := to_ascii_uppercase <$> s.

(** [str::eq_ignore_ascii_case]. *)
Definition eq_ignore_ascii_case (s t : str) : bool := ascii_upper s == ascii_upper t.

Definition str_is_empty (s : str) : bool := match s with [] => true | _ => false end.

(** [str::len]: the length in bytes. *)
Definition utf8_len (s : str) : nat := sum_list_with len_utf8 s.

(** The byte offset of the character at index [i]. *)
Definition byte_offset (s : str) (i : nat) : nat := utf8_len (take i s).

(** [str::get(n..)]: the suffix from byte [n], if [n] is a character boundary. *)
Fixpoint str_get_from (s : str) (n : nat) : option str :=
  match n with
  | 0 => Some s
  | _ => match s with
         | [] => None
         | c :: s' => if len_utf8 c <=? n then str_get_from s' (n - len_utf8 c) else None
         end
  end.

Fixpoint trim_start (s : str) : str :=
  match s with
  | [] => []
  | c :: s' => if is_whitespace c then trim_start s' else s
  end.

Definition trim_end (s : str) : str := reverse (trim_start (reverse s)).

Definition trim (s : str) : str := trim_end (trim_start s).

Fixpoint starts_with (s pat : str) : bool :=
  match pat, s with
  | [], _ => true
  | p :: pat', c :: s' => N.eqb p c && starts_with s' pat'
  | _ :: _, [] => false
  end.

Definition strip_prefix (s pat : str) : option str :=
  if starts_with s pat then Some (drop (length pat) s) else None.

Definition ends_with (s pat : str) : bool := starts_with (reverse s) (reverse pat).

(** [str::find]: the index of the first occurrence of [pat]. *)
Fixpoint str_find (s pat : str) : option nat :=
  if starts_with s pat then Some 0
  else match s with
       | [] => None
       | _ :: s' => S <$> str_find s' pat
       end.

(** [str::rfind]: the index of the last occurrence of [pat]. *)
Fixpoint str_rfind (s pat : str) : option nat :=
  match s with
  | [] => if starts_with s pat then Some 0 else None
  | _ :: s' => match str_rfind s' pat with
               | Some i => Some (S i)
               | None => if starts_with s pat then Some 0 else None
               end
  end.

Definition str_contains (s pat : str) : bool := is_some_and (str_find s pat) (fun _ => true).

(** The longest prefix free of whitespace. *)
Fixpoint take_word (s : str) : str :=
  match s with
  | [] => []
  | c :: s' => if is_whitespace c then [] else c :: take_word s'
  end.

(** [str::split_whitespace().next()]. *)
Definition split_whitespace_next (s : str) : option str :=
  match take_word (trim_start s) with [] => None | w => Some w end.

(** ** Facts *)

(** The characters that are not whitespace, in order. *)
Definition ink (s : str) : str := List.filter (fun c => negb (is_whitespace c)) s.

Lemma ink_app s t : ink (s ++ t) = ink s ++ ink t.
Proof. apply List.filter_app. Qed.

Lemma ink_trim_start s : ink (trim_start s) = ink s.
Proof. induction s as [|c s IH]; simpl; [done|]. destruct (is_whitespace c) eqn:E; simpl; rewrite ?E; done. Qed.

Lemma ink_reverse s : ink (reverse s) = reverse (ink s).
Proof.
  induction s as [|c s IH]; simpl; [done|].
  rewrite reverse_cons, ink_app, IH. simpl.
  destruct (is_whitespace c); simpl; rewrite ?reverse_cons, ?app_nil_r; done.
Qed.

Lemma ink_trim s : ink (trim s) = ink s.
Proof. unfold trim, trim_end. by rewrite ink_reverse, ink_trim_start, ink_reverse, reverse_involutive, ink_trim_start. Qed.

Lemma ink_nil s : ink s = [] <-> Forall (fun c => is_whitespace c = true) s.
Proof.
  induction s as [|c s IH]; simpl; [by split|].
  destruct (is_whitespace c) eqn:E; simpl.
  - rewrite IH. split; [by constructor | by inversion 1].
  - split; [done | inversion 1; congruence].
Qed.

Lemma trim_start_nil s : trim_start s = [] <-> ink s = [].
Proof. induction s as [|c s IH]; simpl; [done|]. destruct (is_whitespace c); simpl; [done | by split]. Qed.

Lemma trim_nil s : trim s = [] <-> ink s = [].
Proof.
  unfold trim, trim_end. rewrite <- (reverse_nil (A:=N)) at 1.
  split; intros H.
  - apply (inj reverse) in H. apply trim_start_nil in H.
    rewrite ink_reverse, ink_trim_start in H. rewrite <- (reverse_nil (A:=N)) in H.
    by apply (inj reverse) in H.
  - f_equal. apply trim_start_nil. by rewrite ink_reverse, ink_trim_start, H.
Qed.

Lemma trim_start_idemp s : trim_start (trim_start s) = trim_start s.
Proof. induction s as [|c s IH]; simpl; [done|]. destruct (is_whitespace c) eqn:E; simpl; rewrite ?E; done. Qed.

Lemma trim_start_suffix s : exists p, s = p ++ trim_start s /\ ink p = [].
Proof.
  induction s as [|c s [p [Hs Hp]]]; simpl; [by exists []|].
  destruct (is_whitespace c) eqn:E; [|by exists []].
  exists (c :: p). simpl. rewrite E, <- Hs. done.
Qed.

Lemma trim_end_prefix s : exists p, s = trim_end s ++ p /\ ink p = [].
Proof.
  destruct (trim_start_suffix (reverse s)) as [p [Hs Hp]]. exists (reverse p).
  split; [|by rewrite ink_reverse, Hp]. unfold trim_end.
  rewrite <- reverse_app, <- Hs. by rewrite reverse_involutive.
Qed.

(** [s] is [trim s] between two runs of whitespace. *)
Lemma trim_spec s : exists p q, s = p ++ trim s ++ q /\ ink p = [] /\ ink q = [].
Proof.
  destruct (trim_start_suffix s) as [p [Hs Hp]].
  destruct (trim_end_prefix (trim_start s)) as [q [Ht Hq]].
  exists p, q. split_and!; [|done|done]. unfold trim. by rewrite <- Ht, <- Hs.
Qed.

Lemma trim_end_idemp s : trim_end (trim_end s) = trim_end s.
Proof. unfold trim_end. by rewrite reverse_involutive, trim_start_idemp. Qed.

Lemma trim_idemp s : trim (trim s) = trim s.
Proof.
  unfold trim at 1. cut (trim_start (trim s) = trim s).
  { intros ->. unfold trim. by rewrite trim_end_idemp. }
  unfold trim. destruct (trim_end_prefix (trim_start s)) as [q [Ht _]].
  pose proof (trim_start_idemp s) as Hi. revert Ht Hi. generalize (trim_start s).
  intros t Ht Hi. destruct (trim_end t) as [|c r]; [done|].
  subst t. simpl in *. destruct (is_whitespace c); [|done].
  exfalso. assert (Hl : length (trim_start (r ++ q)) <= length (r ++ q)).
  { destruct (trim_start_suffix (r ++ q)) as [p [Hp _]].
    rewrite Hp at 2. rewrite length_app. lia. }
  rewrite Hi in Hl. simpl in Hl. lia.
Qed.

(** Text without white space is not trimmed. *)
Lemma trim_start_plain s : Forall (fun c => is_whitespace c = false) s -> trim_start s = s.
Proof. destruct 1 as [|c s Hc Hs]; [done|]. cbn. by rewrite Hc. Qed.

Lemma trim_plain s : Forall (fun c => is_whitespace c = false) s -> trim s = s.
Proof.
  intros Hs. unfold trim, trim_end. rewrite (trim_start_plain s) by done.
  rewrite trim_start_plain by (by apply Forall_reverse). apply reverse_involutive.
Qed.

(** ** Lengths in bytes *)

Lemma len_utf8_pos c : 0 < len_utf8 c.
Proof. unfold len_utf8. repeat case_match; lia. Qed.

Lemma utf8_len_app a b : utf8_len (a ++ b) = utf8_len a + utf8_len b.
Proof. unfold utf8_len. by rewrite sum_list_with_app. Qed.
