(* ===== verification/SqlText.v ===== *)
(** * [src/sql_text.rs]: the word and comment tests the statement splitter uses

    Keyword tables, identifier characters, q-quote delimiters, comment prefixes,
    the first word of a line and the recogniser of SQL*Plus commands that end
    at the end of their line. *)
From S2P Require Import Prelude RustStr.

(** ** Keyword tables *)

Definition WITH_MAIN_QUERY_KEYWORDS : list string :=
  ["WITH"; "SELECT"; "INSERT"; "UPDATE"; "DELETE"; "MERGE"; "CALL"; "VALUES"; "TABLE";
   "SEARCH"; "CYCLE"]%string.

Definition WITH_PLSQL_DECLARATION_KEYWORDS : list string :=
  ["FUNCTION"; "PROCEDURE"; "PACKAGE"; "TYPE"]%string.

Definition WITH_NON_PLSQL_CLAUSE_KEYWORDS : list string :=
  ["READ"; "CHECK"; "NO"; "DATA"; "TIES"; "CONSTRAINT"; "ROWID"; "SEQUENCE"; "COMMIT";
   "SCN"; "OBJECT"; "PRIMARY"; "REDUCED"; "OIDS"; "LOCAL"; "CASCADED"; "GRANT";
   "ADMIN"; "DELEGATE"; "HIERARCHY"]%string.

Definition EXTERNAL_LANGUAGE_TARGET_KEYWORDS : list string :=
  ["C"; "JAVA"; "JAVASCRIPT"; "PYTHON"; "R"; "RUST"; "WASM"; "MLE"]%string.

Definition EXTERNAL_LANGUAGE_CLAUSE_KEYWORDS : list string :=
  ["EXTERNAL"; "LANGUAGE"; "NAME"; "LIBRARY"; "MODULE"; "SIGNATURE"; "ENV";
   "ENVIRONMENT"; "AGENT"; "CREDENTIAL"; "PARAMETERS"; "CALLING"; "WITH"; "IMPORT";
   "IMPORTS"; "EXPORT"; "EXPORTS"]%string.

Definition SQLPLUS_SET_OPTION_KEYWORDS : list string :=
  ["APPINFO"; "ARRAYSIZE"; "AUTOCOMMIT"; "AUTOPRINT"; "AUTORECOVERY"; "AUTOTRACE";
   "BLOCKTERMINATOR"; "CMDSEP"; "COLINVISIBLE"; "COLSEP"; "CONCAT"; "COPYCOMMIT";
   "COPYTYPECHECK"; "DEFINE"; "DESCRIBE"; "ECHO"; "EDITFILE"; "EMBEDDED"; "ESCAPE";
   "FEEDBACK"; "FLAGGER"; "FLUSH"; "HEADING"; "HEADSEP"; "INSTANCE"; "LINESIZE";
   "LOBOFFSET"; "LONG"; "LONGCHUNKSIZE"; "MARKUP"; "NEWPAGE"; "NULL"; "NUMFORMAT";
   "NUMWIDTH"; "PAGESIZE"; "PAUSE"; "RECSEP"; "RECSEPCHAR"; "ROWLIMIT";
   "SERVEROUTPUT"; "SHIFTINOUT"; "SHOWMODE"; "SQLBLANKLINES"; "SQLCASE";
   "SQLCONTINUE"; "SQLFORMAT"; "SQLNUMBER"; "SQLPLUSCOMPATIBILITY"; "SQLPREFIX";
   "SQLPROMPT"; "SQLTERMINATOR"; "SUFFIX"; "TAB"; "TERMOUT"; "TIMING"; "TRIMOUT";
   "TRIMSPOOL"; "UNDERLINE"; "VERIFY"; "WRAP"]%string.

Definition STATEMENT_HEAD_KEYWORDS : list string :=
  ["DECLARE"; "BEGIN"; "WITH"; "SELECT"; "INSERT"; "UPDATE"; "DELETE"; "MERGE";
   "CALL"; "CREATE"; "ALTER"; "DROP"; "TRUNCATE"; "RENAME"; "PURGE"; "FLASHBACK";
   "RECOVER"; "SAVEPOINT"; "LOCK"; "COMMIT"; "ROLLBACK"; "GRANT"; "REVOKE"; "VALUES";
   "TABLE"; "EXPLAIN"; "ANALYZE"; "ADMINISTER"; "ARCHIVE"; "COMMENT"; "SET"; "SHOW";
   "USE"; "DESCRIBE"; "DESC"; "EXEC"; "EXECUTE"; "VARIABLE"; "VAR"; "PRINT"; "START";
   "STARTUP"; "SPOOL"; "DEFINE"; "UNDEFINE"; "CONNECT"; "CONN"; "DISCONNECT"; "DISC";
   "WHENEVER"; "STORE"; "GET"; "SAVE"; "PROMPT"; "RUN"; "R"; "REM"; "REMARK";
   "ACCEPT"; "PAUSE"; "COLUMN"; "BREAK"; "CLEAR"; "COMPUTE"; "EXIT"; "QUIT";
   "SHUTDOWN"; "HOST"; "TIMING"; "TTITLE"; "BTITLE"; "REPHEADER"; "REPFOOTER";
   "PASSWORD"; "PASSW"; "PASSWO"; "PASSWOR"; "AUDIT"; "NOAUDIT"; "ASSOCIATE";
   "DISASSOCIATE"]%string.

Definition matches_keyword (keyword : str) (candidates : list string) : bool :=
  existsb (fun candidate => eq_ignore_ascii_case keyword (u candidate)) candidates.

Definition is_password_command_keyword_upper (word_upper : str) : bool :=
  is_one_of word_upper ["PASSW"; "PASSWO"; "PASSWOR"; "PASSWORD"]%string.

Definition is_with_main_query_keyword (word : str) : bool :=
  matches_keyword word WITH_MAIN_QUERY_KEYWORDS.

Definition is_with_plsql_declaration_keyword (word : str) : bool :=
  matches_keyword word WITH_PLSQL_DECLARATION_KEYWORDS.

Definition with_plsql_declaration_starts_routine_body (word : str) : bool :=
  is_one_of (ascii_upper word) ["FUNCTION"; "PROCEDURE"; "PACKAGE"]%string.

Definition is_with_non_plsql_clause_keyword (word : str) : bool :=
  matches_keyword word WITH_NON_PLSQL_CLAUSE_KEYWORDS.

(** The [HashSet] of the table is a membership test. *)
Definition is_statement_head_keyword_upper (word_upper : str) : bool :=
  is_one_of word_upper STATEMENT_HEAD_KEYWORDS
  || is_password_command_keyword_upper word_upper.

Definition is_statement_head_keyword (word : str) : bool :=
  is_statement_head_keyword_upper (ascii_upper word).

Definition is_external_language_target_keyword (word : str) : bool :=
  matches_keyword word EXTERNAL_LANGUAGE_TARGET_KEYWORDS.

Definition is_external_language_clause_keyword (word : str) : bool :=
  matches_keyword word EXTERNAL_LANGUAGE_CLAUSE_KEYWORDS.

Definition is_sqlplus_set_option_keyword (word : str) : bool :=
  matches_keyword word SQLPLUS_SET_OPTION_KEYWORDS.

(** ** Identifier characters *)

Definition is_identifier_char `{UnicodeTables} (ch : char) : bool :=
  is_alphanumeric ch || N.eqb ch "_"%ch || N.eqb ch "$"%ch || N.eqb ch "#"%ch.

Definition is_identifier_start_char `{UnicodeTables} (ch : char) : bool :=
  is_alphabetic ch || N.eqb ch "_"%ch || N.eqb ch "$"%ch || N.eqb ch "#"%ch.

(** On a string's characters rather than its bytes: every byte of a non-ASCII
    character is at least 128, hence no identifier byte. *)
Definition is_identifier_byte (byte : char) : bool :=
  is_ascii_alphanumeric byte || N.eqb byte "_"%ch || N.eqb byte "$"%ch || N.eqb byte "#"%ch.

(** ** Q-quote delimiters *)

Definition is_valid_q_quote_delimiter (delimiter : char) : bool :=
  negb (is_whitespace delimiter) && negb (N.eqb delimiter "'"%ch).

Definition q_quote_closing (delimiter : char) : char :=
  if N.eqb delimiter "["%ch then "]"%ch
  else if N.eqb delimiter "("%ch then ")"%ch
  else if N.eqb delimiter "{"%ch then "}"%ch
  else if N.eqb delimiter "<"%ch then ">"%ch
  else delimiter.

(** ** Comments *)

Definition is_sqlplus_remark_comment_line (line : str) : bool :=
  is_some_and (split_whitespace_next (trim_start line)) (fun first =>
    eq_ignore_ascii_case first (u "REM") || eq_ignore_ascii_case first (u "REMARK")).

Definition is_mysql_hash_comment_start (bytes : str) (idx : nat) : bool :=
  at_is bytes idx "#"%ch
  && match idx with
     | 0 => true
     | S prev_idx => is_none_or (bytes !! prev_idx) (fun prev => negb (is_identifier_byte prev))
     end.

Definition sql_line_comment_prefix_len (bytes : str) (idx : nat) : option nat :=
  if at_is bytes idx "-"%ch && at_is bytes (idx + 1) "-"%ch then Some 2
  else if is_mysql_hash_comment_start bytes idx then Some 1
  else None.

(** ** The words of a line *)

(** The end of the word that starts at [end_]: the next whitespace, [/*] or
    line-comment prefix, or the end of the line. *)
Fixpoint word_end (fuel : nat) (line : str) (end_ : nat) : nat :=
  match fuel, line !! end_ with
  | S fuel, Some word_ch =>
      if is_whitespace word_ch || starts_with (drop end_ line) (u "/*") then end_
      else if is_some_and (sql_line_comment_prefix_len line end_) (fun _ => true) then end_
      else word_end fuel line (end_ + 1)
  | _, _ => end_
  end.

(** The [while] loop of [next_meaningful_word]; each turn moves [idx] forward, so
    [length line + 1] turns are enough. *)
Fixpoint next_meaningful_word_loop (fuel : nat) (line : str) (skip_words idx seen_words : nat)
    : option (str * nat) :=
  match fuel, line !! idx with
  | S fuel, Some ch =>
      if is_some_and (sql_line_comment_prefix_len line idx) (fun _ => true) then None
      else if starts_with (drop idx line) (u "/*") then
        let block_start := idx + 2 in
        match str_find (drop block_start line) (u "*/") with
        | None => None
        | Some block_end =>
            next_meaningful_word_loop fuel line skip_words (block_start + block_end + 2) seen_words
        end
      else if is_whitespace ch then
        next_meaningful_word_loop fuel line skip_words (idx + 1) seen_words
      else
        let end_ := word_end (length line) line idx in
        if seen_words =? skip_words then Some (take (end_ - idx) (drop idx line), idx)
        else next_meaningful_word_loop fuel line skip_words end_ (seen_words + 1)
  | _, _ => None
  end.

Definition next_meaningful_word (line : str) (skip_words : nat) : option (str * nat) :=
  next_meaningful_word_loop (length line + 1) line skip_words 0 0.

Definition first_meaningful_word (line : str) : option str :=
  fst <$> next_meaningful_word line 0.

(** ** Tool commands that end with their line *)

(** The commands of the one-word arm of the match. *)
Definition simple_tool_commands : list string :=
  ["DISC"; "DISCONNECT"; "CONN"; "RUN"; "EXIT"; "QUIT"; "STARTUP"; "SHUTDOWN";
   "RECOVER"; "ARCHIVE"; "HOST"; "TIMING"; "TTITLE"; "BTITLE"; "REPHEADER";
   "REPFOOTER"; "PROMPT"; "REM"; "REMARK"; "SPOOL"; "STORE"; "GET"; "SAVE";
   "DESCRIBE"; "DESC"; "DEFINE"; "UNDEFINE"; "VARIABLE"; "VAR"; "PRINT"; "ACCEPT";
   "PAUSE"; "WHENEVER"; "COLUMN"; "BREAK"; "CLEAR"; "COMPUTE"]%string.

(** [EXEC :name] names a bind variable and is not a command of its own. *)
Definition exec_tail_is_bind (trimmed first : str) : bool :=
  let tail := trim (default [] (str_get_from trimmed (utf8_len first))) in
  is_some_and (strip_prefix tail (u ":")) (fun bind_name =>
    negb (str_is_empty bind_name) && forallb is_identifier_byte bind_name).

Definition is_auto_terminated_tool_command (line : str) : bool :=
  let trimmed := trim line in
  if str_is_empty trimmed then false
  else if starts_with trimmed (u "@@") || starts_with trimmed (u "@") then true
  else if starts_with trimmed (u "!") then true
  else
    match fst <$> next_meaningful_word trimmed 0 with
    | None => false
    | Some first =>
        let first_upper := ascii_upper first in
        let second := fst <$> next_meaningful_word trimmed 1 in
        if is_word first_upper "START" then
          is_some_and second (fun word => negb (eq_ignore_ascii_case word (u "WITH")))
        else if is_word first_upper "R" then second == None
        else if is_word first_upper "CONNECT" then
          is_some_and second (fun word => negb (eq_ignore_ascii_case word (u "BY")))
        else if is_word first_upper "SET" then
          is_some_and second is_sqlplus_set_option_keyword
        else if is_word first_upper "SHOW" then is_some_and second (fun _ => true)
        else if is_password_command_keyword_upper first_upper then true
        else if is_one_of first_upper simple_tool_commands then true
        else if is_one_of first_upper ["EXEC"; "EXECUTE"]%string then
          negb (exec_tail_is_bind trimmed first)
        else false
    end.
