(* ===== verification/Boundary.v ===== *)
(** * [src/sql_parser_engine/boundary.rs]: the splitter's vocabulary

    The enumerations the parser state is made of, and the small machines that
    need no more than their own data: the END-suffix parser, the [WHILE]/[FOR]
    ... [DO] arming, the symbol classifiers and [RoutineFrame], which follows
    the EXTERNAL / LANGUAGE / MLE clause of one routine header and decides what
    the next [;] does to it. *)
From S2P Require Import Prelude RustStr SqlText.

(** ** Lexer modes and block kinds *)

Inductive LexMode :=
| LexMode_Idle
| LexMode_SingleQuote
| LexMode_DoubleQuote
| LexMode_BacktickQuote
| LexMode_BracketQuote
| LexMode_LineComment
| LexMode_BlockComment
| LexMode_QQuote (end_char : char) (depth : nat)
| LexMode_DollarQuote (tag : str)
| LexMode_ForeignModuleSource
| LexMode_ForeignInlineSource (brace_depth : nat).

#[export] Instance LexMode_eq_dec : EqDecision LexMode.
Proof. solve_decision. Defined.

Inductive BlockKind :=
| BlockKind_Begin | BlockKind_Declare | BlockKind_AsIs | BlockKind_Case | BlockKind_If
| BlockKind_Loop | BlockKind_While | BlockKind_For | BlockKind_Repeat | BlockKind_Compound
| BlockKind_TimingPoint.

#[export] Instance BlockKind_eq_dec : EqDecision BlockKind.
Proof. solve_decision. Defined.

(** ** END resolution *)

Inductive PendingEnd := PendingEnd_None | PendingEnd_End.

#[export] Instance PendingEnd_eq_dec : EqDecision PendingEnd.
Proof. solve_decision. Defined.

Inductive PendingEndSuffix :=
| PendingEndSuffix_Case | PendingEndSuffix_If | PendingEndSuffix_Loop | PendingEndSuffix_While
| PendingEndSuffix_Repeat | PendingEndSuffix_For | PendingEndSuffix_TimingPoint.

#[export] Instance PendingEndSuffix_eq_dec : EqDecision PendingEndSuffix.
Proof. solve_decision. Defined.

Inductive EndTokenRole := EndTokenRole_None | EndTokenRole_Suffix (s : PendingEndSuffix).

#[export] Instance EndTokenRole_eq_dec : EqDecision EndTokenRole.
Proof. solve_decision. Defined.

Definition PendingEndSuffix_parse (token_upper : str) (allow_timing_point_suffix : bool)
    : option PendingEndSuffix :=
  if is_word token_upper "CASE" then Some PendingEndSuffix_Case
  else if is_word token_upper "IF" then Some PendingEndSuffix_If
  else if is_word token_upper "LOOP" then Some PendingEndSuffix_Loop
  else if is_word token_upper "WHILE" then Some PendingEndSuffix_While
  else if is_word token_upper "REPEAT" then Some PendingEndSuffix_Repeat
  else if is_word token_upper "FOR" then Some PendingEndSuffix_For
  else if is_one_of token_upper ["BEFORE"; "AFTER"; "INSTEAD"]%string
          && allow_timing_point_suffix then Some PendingEndSuffix_TimingPoint
  else None.

Definition EndTokenRole_from_token (token_upper : str) (pending_end : PendingEnd)
    (allow_timing_point_suffix : bool) : EndTokenRole :=
  if pending_end != PendingEnd_End then EndTokenRole_None
  else match PendingEndSuffix_parse token_upper allow_timing_point_suffix with
       | Some s => EndTokenRole_Suffix s
       | None => EndTokenRole_None
       end.

Definition EndTokenRole_suffix (r : EndTokenRole) : option PendingEndSuffix :=
  match r with EndTokenRole_Suffix s => Some s | EndTokenRole_None => None end.

Definition EndTokenRole_is_suffix (r : EndTokenRole) (s : PendingEndSuffix) : bool :=
  EndTokenRole_suffix r == Some s.

(** ** IF and WHILE/FOR ... DO *)

Inductive IfState :=
| IfState_None
| IfState_ExpectConditionStart
| IfState_InConditionParen (depth : nat)
| IfState_AwaitingThen.

#[export] Instance IfState_eq_dec : EqDecision IfState.
Proof. solve_decision. Defined.

Inductive PendingDo :=
| PendingDo_None
| PendingDo_While (armed_at_block_depth : nat)
| PendingDo_For (armed_at_block_depth : nat).

#[export] Instance PendingDo_eq_dec : EqDecision PendingDo.
Proof. solve_decision. Defined.

Definition PendingDo_arm_for_token (p : PendingDo) (token_upper : str)
    (armed_at_block_depth : nat) : PendingDo :=
  if p != PendingDo_None then p
  else if is_word token_upper "WHILE" then PendingDo_While armed_at_block_depth
  else if is_word token_upper "FOR" then PendingDo_For armed_at_block_depth
  else PendingDo_None.

Definition PendingDo_resolve_do (p : PendingDo) (current_block_depth : nat) : option BlockKind :=
  match p with
  | PendingDo_While d => if d =? current_block_depth then Some BlockKind_While else None
  | PendingDo_For d => if d =? current_block_depth then Some BlockKind_For else None
  | PendingDo_None => None
  end.

(** ** Routine frames *)

Inductive SemicolonPolicy :=
| SemicolonPolicy_Default
| SemicolonPolicy_ForceSplit
| SemicolonPolicy_CloseRoutineBlock
| SemicolonPolicy_AwaitingImplicitTopLevelDecision.

#[export] Instance SemicolonPolicy_eq_dec : EqDecision SemicolonPolicy.
Proof. solve_decision. Defined.

Inductive ExternalClauseState :=
| ExternalClauseState_None
| ExternalClauseState_SawExternalKeyword
| ExternalClauseState_SawUsingClauseSubject
| ExternalClauseState_SawMleKeyword
| ExternalClauseState_AwaitingLanguageTargetFromExternal
| ExternalClauseState_AwaitingLanguageTargetImplicit
| ExternalClauseState_SawImplicitQuotedLanguageTarget
| ExternalClauseState_SawImplicitLanguageTarget
| ExternalClauseState_Confirmed.

#[export] Instance ExternalClauseState_eq_dec : EqDecision ExternalClauseState.
Proof. solve_decision. Defined.

Record RoutineFrame := mkRoutineFrame {
  frame_block_depth : nat;
  semicolon_policy : SemicolonPolicy;
  external_clause_state : ExternalClauseState;
  implicit_language_target_is_quoted : bool
}.

#[export] Instance RoutineFrame_eta : Eta RoutineFrame := fun r =>
  mkRoutineFrame (frame_block_depth r) (semicolon_policy r) (external_clause_state r)
    (implicit_language_target_is_quoted r).

#[export] Instance RoutineFrame_eq_dec : EqDecision RoutineFrame.
Proof. solve_decision. Defined.

Definition RoutineFrame_new (block_depth : nat) : RoutineFrame :=
  mkRoutineFrame block_depth SemicolonPolicy_Default ExternalClauseState_None false.

Definition frame_should_split_on_semicolon (f : RoutineFrame) (current_block_depth : nat) : bool :=
  (frame_block_depth f =? current_block_depth)
  && (semicolon_policy f == SemicolonPolicy_ForceSplit).

Definition frame_should_close_routine_block_on_semicolon
    (f : RoutineFrame) (current_block_depth : nat) : bool :=
  (frame_block_depth f =? current_block_depth)
  && (semicolon_policy f == SemicolonPolicy_CloseRoutineBlock).

Definition has_pending_external_clause (f : RoutineFrame) : bool :=
  match external_clause_state f with
  | ExternalClauseState_SawExternalKeyword
  | ExternalClauseState_SawUsingClauseSubject
  | ExternalClauseState_SawMleKeyword
  | ExternalClauseState_AwaitingLanguageTargetFromExternal
  | ExternalClauseState_AwaitingLanguageTargetImplicit
  | ExternalClauseState_SawImplicitQuotedLanguageTarget
  | ExternalClauseState_SawImplicitLanguageTarget => true
  | _ => false
  end.

Definition pending_external_clause_requires_top_level_split (f : RoutineFrame) : bool :=
  match external_clause_state f with
  | ExternalClauseState_SawImplicitQuotedLanguageTarget
  | ExternalClauseState_SawImplicitLanguageTarget
  | ExternalClauseState_AwaitingLanguageTargetImplicit => true
  | _ => false
  end.

Definition should_defer_begin_split_after_implicit_semicolon (f : RoutineFrame) : bool :=
  implicit_language_target_is_quoted f.

Definition mark_external_clause (f : RoutineFrame) : RoutineFrame :=
  f <| semicolon_policy :=
         (if frame_block_depth f =? 1 then SemicolonPolicy_ForceSplit
          else SemicolonPolicy_CloseRoutineBlock) |>
    <| external_clause_state := ExternalClauseState_Confirmed |>
    <| implicit_language_target_is_quoted := false |>.

Definition mark_implicit_language_target_on_semicolon (f : RoutineFrame) : RoutineFrame :=
  f <| semicolon_policy :=
         (if frame_block_depth f =? 1 then SemicolonPolicy_AwaitingImplicitTopLevelDecision
          else SemicolonPolicy_CloseRoutineBlock) |>
    <| external_clause_state := ExternalClauseState_Confirmed |>.

(** Sets the clause state and clears the quoted-target flag, the pair of
    assignments most branches below end with. *)
Definition set_clause (e : ExternalClauseState) (f : RoutineFrame) : RoutineFrame :=
  f <| external_clause_state := e |> <| implicit_language_target_is_quoted := false |>.

Definition is_external_language_target (token_upper : str) : bool :=
  is_external_language_target_keyword token_upper.

(** The arm for a token that may be the awaited language target.  [inl] is an
    early return, [inr] falls through to the keyword arms. *)
Definition observe_language_target_token (token_upper : str) (allow_implicit_language : bool)
    (f : RoutineFrame) : RoutineFrame + RoutineFrame :=
  match external_clause_state f with
  | ExternalClauseState_AwaitingLanguageTargetFromExternal
  | ExternalClauseState_AwaitingLanguageTargetImplicit =>
      let from_external :=
        external_clause_state f == ExternalClauseState_AwaitingLanguageTargetFromExternal in
      let f := f <| external_clause_state := ExternalClauseState_None |> in
      if is_external_language_target token_upper then
        inl (if from_external then mark_external_clause f
             else set_clause ExternalClauseState_SawImplicitLanguageTarget f)
      else if from_external && forallb is_identifier_byte token_upper then
        inl (mark_external_clause f)
      else if is_external_language_clause_keyword token_upper then
        inl (if from_external then mark_external_clause f
             else if allow_implicit_language
             then set_clause ExternalClauseState_SawImplicitLanguageTarget f
             else f)
      else inr f
  | _ => inr f
  end.

Definition mle_clause_keywords : list string :=
  ["MODULE"; "SIGNATURE"; "ENV"; "ENVIRONMENT"; "IMPORT"; "IMPORTS"; "EXPORT"; "EXPORTS"]%string.

(** The keyword arms. *)
Definition observe_clause_keyword_token (token_upper : str) (allow_implicit_language : bool)
    (f : RoutineFrame) : RoutineFrame :=
  let st := external_clause_state f in
  if is_word token_upper "EXTERNAL" then set_clause ExternalClauseState_SawExternalKeyword f
  else if is_one_of token_upper ["AGGREGATE"; "PIPELINED"]%string then
    set_clause ExternalClauseState_SawUsingClauseSubject f
  else if is_word token_upper "MLE" then
    match st with
    | ExternalClauseState_SawImplicitLanguageTarget
    | ExternalClauseState_Confirmed => mark_external_clause f
    | _ => set_clause ExternalClauseState_SawMleKeyword f
    end
  else if is_one_of token_upper mle_clause_keywords then
    match st with
    | ExternalClauseState_SawMleKeyword
    | ExternalClauseState_SawImplicitQuotedLanguageTarget
    | ExternalClauseState_SawImplicitLanguageTarget
    | ExternalClauseState_Confirmed => mark_external_clause f
    | _ => f
    end
  else if is_word token_upper "USING" then
    if st == ExternalClauseState_SawUsingClauseSubject then mark_external_clause f else f
  else if (st == ExternalClauseState_SawUsingClauseSubject)
          && is_one_of token_upper ["ROW"; "SCALAR"; "TABLE"; "POLYMORPHIC"]%string then f
  else if is_word token_upper "LANGUAGE" then
    if st == ExternalClauseState_SawExternalKeyword then
      set_clause ExternalClauseState_AwaitingLanguageTargetFromExternal f
    else if st == ExternalClauseState_SawMleKeyword then mark_external_clause f
    else if allow_implicit_language then
      set_clause ExternalClauseState_AwaitingLanguageTargetImplicit f
    else set_clause ExternalClauseState_None f
  else if is_external_language_clause_keyword token_upper then
    match st with
    | ExternalClauseState_SawExternalKeyword
    | ExternalClauseState_SawImplicitQuotedLanguageTarget
    | ExternalClauseState_SawImplicitLanguageTarget
    | ExternalClauseState_Confirmed => mark_external_clause f
    | _ => f
    end
  else
    match st with
    | ExternalClauseState_SawExternalKeyword
    | ExternalClauseState_SawUsingClauseSubject
    | ExternalClauseState_SawMleKeyword
    | ExternalClauseState_SawImplicitQuotedLanguageTarget =>
        set_clause ExternalClauseState_None f
    | _ => f
    end.

Definition frame_observe_external_clause_token (token_upper : str)
    (allow_implicit_language : bool) (f : RoutineFrame) : RoutineFrame :=
  match observe_language_target_token token_upper allow_implicit_language f with
  | inl f => f
  | inr f => observe_clause_keyword_token token_upper allow_implicit_language f
  end.

Definition frame_observe_external_clause_quoted_identifier_target (f : RoutineFrame)
    : RoutineFrame :=
  match external_clause_state f with
  | ExternalClauseState_AwaitingLanguageTargetFromExternal => mark_external_clause f
  | ExternalClauseState_AwaitingLanguageTargetImplicit =>
      f <| external_clause_state := ExternalClauseState_SawImplicitQuotedLanguageTarget |>
        <| implicit_language_target_is_quoted := true |>
  | _ => f
  end.

Definition frame_observe_external_clause_literal_target (allow_implicit_target : bool)
    (f : RoutineFrame) : RoutineFrame :=
  match external_clause_state f with
  | ExternalClauseState_AwaitingLanguageTargetFromExternal =>
      mark_external_clause (f <| external_clause_state := ExternalClauseState_None |>)
  | ExternalClauseState_AwaitingLanguageTargetImplicit =>
      let f := f <| external_clause_state := ExternalClauseState_None |> in
      if allow_implicit_target
      then set_clause ExternalClauseState_SawImplicitLanguageTarget f else f
  | _ => f
  end.

Definition is_canceling_symbol (ch : char) (next : option char) : bool :=
  is_char_of ch ":=+*%<>|,.()[]{}"
  || (N.eqb ch "-"%ch && (next != Some "-"%ch))
  || (N.eqb ch "/"%ch && (next != Some "*"%ch)).

(** The code point of a double quote is 34 and of a backquote 96. *)
Definition frame_observe_external_clause_symbol (ch : char) (next : option char)
    (f : RoutineFrame) : RoutineFrame :=
  match external_clause_state f with
  | ExternalClauseState_AwaitingLanguageTargetFromExternal
  | ExternalClauseState_AwaitingLanguageTargetImplicit =>
      if is_whitespace ch then f
      else if (external_clause_state f == ExternalClauseState_AwaitingLanguageTargetImplicit)
              && (N.eqb ch 34 || N.eqb ch 96)
      then f <| external_clause_state := ExternalClauseState_None |>
      else if is_canceling_symbol ch next then set_clause ExternalClauseState_None f
      else f
  | _ => f
  end.

Definition frame_finalize_external_clause_on_semicolon (allow_implicit_target_split : bool)
    (f : RoutineFrame) : RoutineFrame :=
  match external_clause_state f with
  | ExternalClauseState_SawExternalKeyword
  | ExternalClauseState_AwaitingLanguageTargetFromExternal
  | ExternalClauseState_SawUsingClauseSubject
  | ExternalClauseState_SawMleKeyword => mark_external_clause f
  | ExternalClauseState_SawImplicitQuotedLanguageTarget =>
      if allow_implicit_target_split then
        mark_implicit_language_target_on_semicolon f
          <| implicit_language_target_is_quoted := true |>
      else set_clause ExternalClauseState_None f
  | ExternalClauseState_SawImplicitLanguageTarget
  | ExternalClauseState_AwaitingLanguageTargetImplicit =>
      if allow_implicit_target_split then mark_implicit_language_target_on_semicolon f
      else f <| external_clause_state := ExternalClauseState_None |>
  | _ => f
  end.

(** ** The remaining enumerations *)

Inductive WithDeclarationState :=
| WithDeclarationState_CollectingDeclaration | WithDeclarationState_AwaitingMainQuery.

#[export] Instance WithDeclarationState_eq_dec : EqDecision WithDeclarationState.
Proof. solve_decision. Defined.

Inductive WithClauseState :=
| WithClauseState_None
| WithClauseState_PendingClause
| WithClauseState_InPlsqlDeclaration (d : WithDeclarationState).

#[export] Instance WithClauseState_eq_dec : EqDecision WithClauseState.
Proof. solve_decision. Defined.

Inductive TopLevelTokenState := TopLevelTokenState_NoneSeen | TopLevelTokenState_Seen.

#[export] Instance TopLevelTokenState_eq_dec : EqDecision TopLevelTokenState.
Proof. solve_decision. Defined.

Inductive TimingPointState := TimingPointState_None | TimingPointState_AwaitingAsOrIs.

#[export] Instance TimingPointState_eq_dec : EqDecision TimingPointState.
Proof. solve_decision. Defined.

Inductive BeginState := BeginState_None | BeginState_AfterDeclare.

#[export] Instance BeginState_eq_dec : EqDecision BeginState.
Proof. solve_decision. Defined.

Inductive AsIsState := AsIsState_None | AsIsState_AwaitingNestedSubprogram.

#[export] Instance AsIsState_eq_dec : EqDecision AsIsState.
Proof. solve_decision. Defined.

Inductive AsIsFollowState := AsIsFollowState_None | AsIsFollowState_AwaitingTypeDeclarativeKind.

#[export] Instance AsIsFollowState_eq_dec : EqDecision AsIsFollowState.
Proof. solve_decision. Defined.

Inductive IfSymbolEvent :=
| IfSymbolEvent_Whitespace | IfSymbolEvent_OpenParen | IfSymbolEvent_Dot | IfSymbolEvent_Other.

Definition IfSymbolEvent_from_char (ch : char) : IfSymbolEvent :=
  if is_whitespace ch then IfSymbolEvent_Whitespace
  else if N.eqb ch "("%ch then IfSymbolEvent_OpenParen
  else if N.eqb ch "."%ch then IfSymbolEvent_Dot
  else IfSymbolEvent_Other.

Inductive SymbolRole :=
| SymbolRole_Semicolon | SymbolRole_PendingEndSeparator | SymbolRole_OpenParen
| SymbolRole_CloseParen | SymbolRole_Other.

#[export] Instance SymbolRole_eq_dec : EqDecision SymbolRole.
Proof. solve_decision. Defined.

Definition SymbolRole_from_char (ch : char) (next : option char) : SymbolRole :=
  if N.eqb ch ";"%ch then SymbolRole_Semicolon
  else if N.eqb ch "("%ch then SymbolRole_OpenParen
  else if N.eqb ch ")"%ch then SymbolRole_CloseParen
  else if is_char_of ch ",]}+*%=<>|"
          || (N.eqb ch "-"%ch && (next != Some "-"%ch))
          || (N.eqb ch "/"%ch && (next != Some "*"%ch))
  then SymbolRole_PendingEndSeparator
  else SymbolRole_Other.

Definition SymbolRole_resolves_pending_end (r : SymbolRole) : bool :=
  match r with SymbolRole_PendingEndSeparator | SymbolRole_CloseParen => true | _ => false end.

Inductive SlashLineKind :=
| SlashLineKind_PureTerminator | SlashLineKind_BlockComment | SlashLineKind_LineComment
| SlashLineKind_SqlPlusRemark.

#[export] Instance SlashLineKind_eq_dec : EqDecision SlashLineKind.
Proof. solve_decision. Defined.

Definition consumes_as_terminator (k : SlashLineKind) : bool :=
  match k with
  | SlashLineKind_PureTerminator | SlashLineKind_BlockComment | SlashLineKind_SqlPlusRemark => true
  | SlashLineKind_LineComment => false
  end.

Inductive LineLeadingMarker :=
| LineLeadingMarker_None | LineLeadingMarker_RunScriptAt | LineLeadingMarker_BangHost
| LineLeadingMarker_OpenParen | LineLeadingMarker_Slash (kind : SlashLineKind).

#[export] Instance LineLeadingMarker_eq_dec : EqDecision LineLeadingMarker.
Proof. solve_decision. Defined.

Inductive LineBoundaryAction :=
| LineBoundaryAction_None | LineBoundaryAction_SplitBeforeLine
| LineBoundaryAction_SplitAndConsumeLine | LineBoundaryAction_ConsumeLine.

#[export] Instance LineBoundaryAction_eq_dec : EqDecision LineBoundaryAction.
Proof. solve_decision. Defined.

Inductive EndResolutionPolicy :=
| EndResolutionPolicy_KeepCreateState | EndResolutionPolicy_ResetCreateStateWhenTopLevel.

#[export] Instance EndResolutionPolicy_eq_dec : EqDecision EndResolutionPolicy.
Proof. solve_decision. Defined.

Inductive AsIsBlockStart :=
| AsIsBlockStart_None | AsIsBlockStart_Regular | AsIsBlockStart_TimingPoint.

#[export] Instance AsIsBlockStart_eq_dec : EqDecision AsIsBlockStart.
Proof. solve_decision. Defined.

Inductive SemicolonAction :=
| SemicolonAction_AppendToCurrent | SemicolonAction_SplitTopLevel
| SemicolonAction_SplitForcedRoutine | SemicolonAction_CloseRoutineBlock.

#[export] Instance SemicolonAction_eq_dec : EqDecision SemicolonAction.
Proof. solve_decision. Defined.

Inductive CreateState :=
| CreateState_None | CreateState_AwaitingObjectType | CreateState_AwaitingJavaTarget
| CreateState_AwaitingMleTarget.

#[export] Instance CreateState_eq_dec : EqDecision CreateState.
Proof. solve_decision. Defined.

Inductive TriggerKind := TriggerKind_Simple | TriggerKind_Compound.

#[export] Instance TriggerKind_eq_dec : EqDecision TriggerKind.
Proof. solve_decision. Defined.

Inductive CreatePlsqlKind :=
| CreatePlsqlKind_None | CreatePlsqlKind_Procedure | CreatePlsqlKind_Function
| CreatePlsqlKind_Package | CreatePlsqlKind_PackageBody | CreatePlsqlKind_TypeSpecAwaitingBody
| CreatePlsqlKind_TypeSpec | CreatePlsqlKind_TypeBody
| CreatePlsqlKind_Trigger (k : TriggerKind) | CreatePlsqlKind_JavaSource
| CreatePlsqlKind_MleModule | CreatePlsqlKind_Wrapped.

#[export] Instance CreatePlsqlKind_eq_dec : EqDecision CreatePlsqlKind.
Proof. solve_decision. Defined.
