(* ===== verification/EngineText.v ===== *)
(** * [src/sql_parser_engine/engine.rs]: the free functions

    Lexical spans and their lookup, dollar-quote and q-quote openers, the word
    scanner of the statement buffer, and the classification of a line by its
    leading marker (a lone slash, an at sign, a bang, an open paren), which
    [boundary.rs] builds on. *)
From S2P Require Import Prelude RustStr SqlText Boundary.

(** ** Lexical spans *)

Inductive LexicalKind :=
| LexicalKind_String | LexicalKind_QuotedIdentifier | LexicalKind_LineComment
| LexicalKind_BlockComment.

#[export] Instance LexicalKind_eq_dec : EqDecision LexicalKind.
Proof. solve_decision. Defined.

Record LexicalSpan := mkLexicalSpan {
  span_start : nat;
  span_end : nat;
  span_kind : LexicalKind
}.

#[export] Instance LexicalSpan_eta : Eta LexicalSpan := fun s =>
  mkLexicalSpan (span_start s) (span_end s) (span_kind s).

#[export] Instance LexicalSpan_eq_dec : EqDecision LexicalSpan.
Proof. solve_decision. Defined.

Definition span_contains (s : LexicalSpan) (byte_offset : nat) : bool :=
  (span_start s <=? byte_offset) && (byte_offset <? span_end s).

(** Extends the last span when the new one continues it with the same kind. *)
Definition push_lexical_span (spans : list LexicalSpan) (start end_ : nat) (kind : LexicalKind)
    : list LexicalSpan :=
  if end_ <=? start then spans
  else match last spans with
       | Some l =>
           if (span_end l =? start) && (span_kind l == kind)
           then vec_pop spans ++ [l <| span_end := end_ |>]
           else spans ++ [mkLexicalSpan start end_ kind]
       | None => spans ++ [mkLexicalSpan start end_ kind]
       end.

(** [slice::partition_point]: binary search for the first element on which [p]
    is false, for [lo] to [hi].  [hi - lo] halves at each turn, so [hi] turns
    are enough. *)
Fixpoint partition_point_loop {A} (fuel : nat) (p : A -> bool) (l : list A) (lo hi : nat) : nat :=
  match fuel with
  | 0 => lo
  | S fuel =>
      if hi <=? lo then lo
      else
        let mid := lo + (hi - lo) / 2 in
        match l !! mid with
        | Some x => if p x then partition_point_loop fuel p l (mid + 1) hi
                    else partition_point_loop fuel p l lo mid
        | None => lo
        end
  end.

Definition partition_point {A} (p : A -> bool) (l : list A) : nat :=
  partition_point_loop (length l) p l 0 (length l).

Definition lexical_kind_at (spans : list LexicalSpan) (byte_offset : nat) : option LexicalKind :=
  let idx := partition_point (fun span => span_end span <=? byte_offset) spans in
  match spans !! idx with
  | Some span => if span_contains span byte_offset then Some (span_kind span) else None
  | None => None
  end.

(** ** Dollar quotes *)

Definition is_dollar_quote_tag_char (ch : char) : bool :=
  is_ascii_alphanumeric ch || N.eqb ch "_"%ch.

(** The [while let] loop: [i] moves forward, so [length chars] turns are enough. *)
Fixpoint parse_dollar_quote_tag_loop (fuel : nat) (chars : str) (start i : nat) : option str :=
  match fuel, chars !! i with
  | S fuel, Some ch =>
      if N.eqb ch "$"%ch then Some (take (i + 1 - start) (drop start chars))
      else if negb (is_dollar_quote_tag_char ch) then None
      else parse_dollar_quote_tag_loop fuel chars start (i + 1)
  | _, _ => None
  end.

Definition parse_dollar_quote_tag (chars : str) (start : nat) : option str :=
  if negb (at_is chars start "$"%ch) then None
  else parse_dollar_quote_tag_loop (length chars) chars start (start + 1).

Definition looks_like_oracle_conditional_compilation_flag `{UnicodeTables}
    (chars : str) (start : nat) : bool :=
  if negb (at_is chars start "$"%ch) || negb (at_is chars (start + 1) "$"%ch) then false
  else is_some_and (chars !! (start + 2)) is_identifier_start_char.

Definition chars_starts_with (chars : str) (start : nat) (pattern : str) : bool :=
  starts_with (drop start chars) pattern.

(** ** Q-quotes *)

Definition q_quote_prefix_has_boundary `{UnicodeTables} (chars : str) (start : nat) : bool :=
  match start with
  | 0 => true
  | S prev => is_none_or (chars !! prev) (fun ch => negb (is_identifier_char ch))
  end.

Definition is_q (c : option char) : bool := is_some_and c (fun c => is_char_of c "qQ").

(** The length of a q-quote opener at [start] and the index of its delimiter. *)
Definition q_quote_prefix_shape (chars : str) (start : nat) : option (nat * nat) :=
  match chars !! start with
  | None => None
  | Some first =>
      if is_char_of first "nNuU" && is_q (chars !! (start + 1)) && at_is chars (start + 2) "'"%ch
      then Some (4, start + 3)
      else if is_char_of first "qQ" && at_is chars (start + 1) "'"%ch
      then Some (3, start + 2)
      else None
  end.

Definition detect_q_quote_start (chars : str) (start : nat) : option (nat * char) :=
  match q_quote_prefix_shape chars start with
  | None => None
  | Some (prefix_len, delimiter_idx) =>
      match chars !! delimiter_idx with
      | None => None
      | Some delimiter =>
          if negb (is_valid_q_quote_delimiter delimiter) then None
          else Some (prefix_len, q_quote_closing delimiter)
      end
  end.

(** ** The words of the statement buffer *)

(** Unlike the function of the same name in [sql_text.rs] this one crosses line
    comments, and returns where the word ends. *)
Fixpoint next_meaningful_word_from_loop (fuel : nat) (line : str) (idx : nat) : option (str * nat) :=
  match fuel, line !! idx with
  | S fuel, Some ch =>
      match sql_line_comment_prefix_len line idx with
      | Some prefix_len =>
          match str_find (drop (idx + prefix_len) line) [10%N] with
          | None => None
          | Some line_comment_end =>
              next_meaningful_word_from_loop fuel line (idx + (prefix_len + line_comment_end + 1))
          end
      | None =>
          if starts_with (drop idx line) (u "/*") then
            let block_start := idx + 2 in
            match str_find (drop block_start line) (u "*/") with
            | None => None
            | Some block_end =>
                next_meaningful_word_from_loop fuel line (block_start + block_end + 2)
            end
          else if is_whitespace ch then next_meaningful_word_from_loop fuel line (idx + 1)
          else
            let end_ := word_end (length line) line idx in
            Some (take (end_ - idx) (drop idx line), end_)
      end
  | _, _ => None
  end.

Definition next_meaningful_word_from (line : str) (idx : nat) : option (str * nat) :=
  next_meaningful_word_from_loop (length line + 1) line idx.

(** ** Line-leading markers *)

(** The loop over the block comments after the slash. *)
Fixpoint slash_block_comments (fuel : nat) (rest : str) : option SlashLineKind :=
  match fuel, strip_prefix rest (u "/*") with
  | S fuel, Some after_block_comment =>
      match str_find after_block_comment (u "*/") with
      | None => None
      | Some comment_end =>
          let rest := trim_start (drop (comment_end + 2) after_block_comment) in
          if str_is_empty rest then Some SlashLineKind_BlockComment
          else if starts_with rest (u "--") || is_sqlplus_remark_comment_line rest
          then Some SlashLineKind_PureTerminator
          else slash_block_comments fuel rest
      end
  | _, _ => None
  end.

Definition classify_line_leading_slash_marker (line : str) : option SlashLineKind :=
  match strip_prefix (trim_start line) (u "/") with
  | None => None
  | Some rest =>
      let rest := trim_start rest in
      if str_is_empty rest then Some SlashLineKind_PureTerminator
      else if starts_with rest (u "--") then Some SlashLineKind_LineComment
      else if is_sqlplus_remark_comment_line rest then Some SlashLineKind_SqlPlusRemark
      else slash_block_comments (length rest) rest
  end.

Definition line_starts_with_consumed_slash_terminator (line : str) : bool :=
  is_some_and (classify_line_leading_slash_marker line) consumes_as_terminator.

Definition is_bare_slash_terminator_line (line : str) : bool := trim line == u "/".

(** The [for] loop over the characters of the line that starts at [start]. *)
Fixpoint bare_slash_scan (l : str) (saw_slash : bool) : bool :=
  match l with
  | [] => saw_slash
  | ch :: l' =>
      if N.eqb ch 10 then saw_slash
      else if N.eqb ch "/"%ch && negb saw_slash then bare_slash_scan l' true
      else if is_whitespace ch then bare_slash_scan l' saw_slash
      else false
  end.

Definition line_at_is_bare_slash_terminator (chars : str) (start : nat) : bool :=
  bare_slash_scan (drop start chars) false.

(** [LineLeadingMarker::from_line], the loop that skips leading block comments. *)
Fixpoint skip_leading_block_comments (fuel : nat) (trimmed : str) : option str :=
  match fuel, strip_prefix trimmed (u "/*") with
  | S fuel, Some block_body =>
      match str_find block_body (u "*/") with
      | None => None
      | Some block_end =>
          skip_leading_block_comments fuel (trim_start (drop (block_end + 2) block_body))
      end
  | _, _ => Some trimmed
  end.

Definition classify_line_leading_marker (line : str) : LineLeadingMarker :=
  let trimmed := trim_start line in
  match skip_leading_block_comments (length trimmed) trimmed with
  | None => LineLeadingMarker_None
  | Some trimmed =>
      match trimmed with
      | [] => LineLeadingMarker_None
      | c :: _ =>
          if N.eqb c "@"%ch then LineLeadingMarker_RunScriptAt
          else if N.eqb c "!"%ch then LineLeadingMarker_BangHost
          else if N.eqb c "("%ch then LineLeadingMarker_OpenParen
          else if N.eqb c "/"%ch then
            match classify_line_leading_slash_marker trimmed with
            | Some kind => LineLeadingMarker_Slash kind
            | None => LineLeadingMarker_None
            end
          else LineLeadingMarker_None
      end
  end.

(** The bare slash test on a character slice agrees with the one on a line:
    both accept exactly the lines that trim to a single slash. *)
Lemma bare_slash_scan_true l : ~ (10%N ∈ l) -> bare_slash_scan l true = (ink l == []).
Proof.
  induction l as [|c l IH]; intros Hn; simpl; [done|].
  assert (c <> 10%N) by set_solver.
  destruct (N.eqb_spec c 10); [done|].
  rewrite andb_false_r. destruct (is_whitespace c) eqn:E; simpl; [|done].
  apply IH. set_solver.
Qed.
