(* ===== verification/SplitState.v ===== *)
(** * [src/sql_parser_engine/state.rs]: the parser state

    [SplitState] with every operation on it.  A Rust [Vec] is a list in index
    order, so its top is the last element; [&mut self] methods are functions
    from state to state.  The reusable upper-case buffer of the source is local
    to [flush_token] and is not a field here. *)
From S2P Require Import Prelude RustStr SqlText Boundary EngineText.

Record SplitState := mkSplitState {
  mysql_mode : bool;
  lex_mode : LexMode;
  block_stack : list BlockKind;
  pending_end : PendingEnd;
  if_state : IfState;
  pending_do : PendingDo;
  token : str;
  token_prefixed_with_dollar : bool;
  create_plsql_kind : CreatePlsqlKind;
  create_state : CreateState;
  begin_state : BeginState;
  as_is_follow_state : AsIsFollowState;
  as_is_state : AsIsState;
  pending_subprogram_begins : nat;
  routine_body_block_just_opened : bool;
  sql_macro_call_spec_armed : bool;
  routine_is_stack : list RoutineFrame;
  timing_point_state : TimingPointState;
  saw_compound_keyword : bool;
  saw_trigger_alias_subject : bool;
  package_body_name_segments : list str;
  awaiting_package_body_name : bool;
  awaiting_package_body_name_dot : bool;
  saw_mle_language_marker : bool;
  foreign_source_at_line_start : bool;
  paren_stack : list char;
  paren_depth : nat;
  with_clause_state : WithClauseState;
  with_plsql_declaration_starts_routine_body_flag : bool;
  top_level_token_state : TopLevelTokenState;
  quoted_identifier_buf : str;
  pending_implicit_external_top_level_split : bool;
  pending_end_label_segments : list str;
  skip_next_end_label_token : bool
}.

#[export] Instance SplitState_eta : Eta SplitState := fun s =>
  mkSplitState (mysql_mode s) (lex_mode s) (block_stack s) (pending_end s) (if_state s)
    (pending_do s) (token s) (token_prefixed_with_dollar s) (create_plsql_kind s)
    (create_state s) (begin_state s) (as_is_follow_state s) (as_is_state s)
    (pending_subprogram_begins s) (routine_body_block_just_opened s)
    (sql_macro_call_spec_armed s) (routine_is_stack s) (timing_point_state s)
    (saw_compound_keyword s) (saw_trigger_alias_subject s) (package_body_name_segments s)
    (awaiting_package_body_name s) (awaiting_package_body_name_dot s)
    (saw_mle_language_marker s) (foreign_source_at_line_start s) (paren_stack s)
    (paren_depth s) (with_clause_state s) (with_plsql_declaration_starts_routine_body_flag s)
    (top_level_token_state s) (quoted_identifier_buf s)
    (pending_implicit_external_top_level_split s) (pending_end_label_segments s)
    (skip_next_end_label_token s).

(** [SplitState::default()]. *)
Definition SplitState_default : SplitState :=
  mkSplitState false LexMode_Idle [] PendingEnd_None IfState_None PendingDo_None [] false
    CreatePlsqlKind_None CreateState_None BeginState_None AsIsFollowState_None AsIsState_None
    0 false false [] TimingPointState_None false false [] false false false false [] 0
    WithClauseState_None false TopLevelTokenState_NoneSeen [] false [] false.

(** ** Parentheses *)

Definition push_open_paren (ch : char) (s : SplitState) : SplitState :=
  let s := s <| paren_stack ::= vec_push ch |> in
  s <| paren_depth := length (paren_stack s) |>.

Definition expected_open_paren (close_ch : char) : option char :=
  if N.eqb close_ch ")"%ch then Some "("%ch
  else if N.eqb close_ch "]"%ch then Some "["%ch
  else if N.eqb close_ch "}"%ch then Some "{"%ch
  else None.

Definition pop_close_paren (close_ch : char) (s : SplitState) : SplitState :=
  match expected_open_paren close_ch with
  | None => s
  | Some expected_open =>
      if last (paren_stack s) == Some expected_open then
        let s := s <| paren_stack ::= vec_pop |> in
        s <| paren_depth := length (paren_stack s) |>
      else s
  end.

Definition clear_paren_stack (s : SplitState) : SplitState :=
  s <| paren_stack := [] |> <| paren_depth := 0 |>.

(** ** Accessors *)

Definition is_idle (s : SplitState) : bool := lex_mode s == LexMode_Idle.

Definition block_depth (s : SplitState) : nat := length (block_stack s).

Definition in_with_plsql_declaration (s : SplitState) : bool :=
  match with_clause_state s with WithClauseState_InPlsqlDeclaration _ => true | _ => false end.

Definition has_pending_standard_cte_header (s : SplitState) : bool :=
  with_clause_state s == WithClauseState_PendingClause.

Definition with_clause_waiting_main_query (s : SplitState) : bool :=
  with_clause_state s
    == WithClauseState_InPlsqlDeclaration WithDeclarationState_AwaitingMainQuery.

Definition collecting_with_plsql_routine_declaration (s : SplitState) : bool :=
  with_plsql_declaration_starts_routine_body_flag s
  && (with_clause_state s
        == WithClauseState_InPlsqlDeclaration WithDeclarationState_CollectingDeclaration).

Definition has_pending_declare_begin (s : SplitState) : bool :=
  begin_state s == BeginState_AfterDeclare.

Definition is_package_body_initializer_begin_context (s : SplitState) : bool :=
  (create_plsql_kind s == CreatePlsqlKind_PackageBody)
  && (block_depth s =? 1)
  && (last (block_stack s) == Some BlockKind_AsIs)
  && (pending_subprogram_begins s =? 0)
  && (begin_state s != BeginState_AfterDeclare).

Definition in_package_body_initializer_body (s : SplitState) : bool :=
  (create_plsql_kind s == CreatePlsqlKind_PackageBody)
  && (pending_subprogram_begins s =? 0)
  && (head (block_stack s) == Some BlockKind_AsIs)
  && (block_stack s !! 1 == Some BlockKind_Begin).

Definition in_create_plsql (s : SplitState) : bool :=
  create_plsql_kind s != CreatePlsqlKind_None.

Definition is_trigger (s : SplitState) : bool :=
  match create_plsql_kind s with CreatePlsqlKind_Trigger _ => true | _ => false end.

Definition in_java_source_create (s : SplitState) : bool :=
  create_plsql_kind s == CreatePlsqlKind_JavaSource.

Definition in_mle_module_create (s : SplitState) : bool :=
  create_plsql_kind s == CreatePlsqlKind_MleModule.

Definition allows_inline_foreign_source (s : SplitState) : bool := saw_mle_language_marker s.

Definition in_wrapped_create (s : SplitState) : bool :=
  create_plsql_kind s == CreatePlsqlKind_Wrapped.

Definition keep_semicolons_inside_create_body (s : SplitState) : bool :=
  in_java_source_create s || in_wrapped_create s || in_mle_module_create s.

Definition in_compound_trigger (s : SplitState) : bool :=
  create_plsql_kind s == CreatePlsqlKind_Trigger TriggerKind_Compound.

(** The innermost block that is neither BEGIN nor DECLARE is a timing point. *)
Definition allow_timing_point_end_suffix (s : SplitState) : bool :=
  if negb (in_compound_trigger s) then false
  else
    is_some_and
      (List.find (fun k => negb ((k == BlockKind_Begin) || (k == BlockKind_Declare)))
         (reverse (block_stack s)))
      (fun k => k == BlockKind_TimingPoint).

Definition mark_compound_trigger (s : SplitState) : SplitState :=
  if is_trigger s
  then s <| create_plsql_kind := CreatePlsqlKind_Trigger TriggerKind_Compound |> else s.

Definition type_as_is_awaits_declarative_kind (s : SplitState) : bool :=
  match create_plsql_kind s with
  | CreatePlsqlKind_TypeSpecAwaitingBody | CreatePlsqlKind_TypeSpec => true
  | _ => false
  end.

Definition needs_nested_begin_tracking (s : SplitState) : bool :=
  match create_plsql_kind s with
  | CreatePlsqlKind_PackageBody | CreatePlsqlKind_TypeBody => true
  | _ => false
  end.

(** The number of open CASE blocks, and the index of the innermost one. *)
Definition case_count (s : SplitState) : nat :=
  length (List.filter (fun k => k == BlockKind_Case) (block_stack s)).

(** [iter().rposition(p)]. *)
Fixpoint rposition {A} (p : A -> bool) (l : list A) : option nat :=
  match l with
  | [] => None
  | x :: l' => match rposition p l' with
               | Some i => Some (S i)
               | None => if p x then Some 0 else None
               end
  end.

Definition innermost_case_depth (s : SplitState) : option nat :=
  rposition (fun k => k == BlockKind_Case) (block_stack s).

Definition top_is_case (s : SplitState) : bool := last (block_stack s) == Some BlockKind_Case.

(** The block below the top: [iter().rev().nth(1)]. *)
Definition below_top (s : SplitState) : option BlockKind := reverse (block_stack s) !! 1.

(** ** Routine frames *)

Definition active_routine_frame (s : SplitState) : option RoutineFrame :=
  match last (routine_is_stack s) with
  | Some frame => if frame_block_depth frame =? block_depth s then Some frame else None
  | None => None
  end.

(** An update through [active_routine_frame_mut]. *)
Definition update_active_routine_frame (f : RoutineFrame -> RoutineFrame) (s : SplitState)
    : SplitState :=
  match active_routine_frame s with
  | Some frame => s <| routine_is_stack ::= fun v => vec_pop v ++ [f frame] |>
  | None => s
  end.

Definition should_split_on_semicolon (s : SplitState) : bool :=
  is_some_and (last (routine_is_stack s)) (fun frame =>
    frame_should_split_on_semicolon frame (block_depth s)).

Definition should_close_routine_block_on_semicolon (s : SplitState) : bool :=
  is_some_and (last (routine_is_stack s)) (fun frame =>
    frame_should_close_routine_block_on_semicolon frame (block_depth s)).

Definition can_terminate_on_slash (s : SplitState) : bool :=
  (block_depth s =? 0)
  || pending_implicit_external_top_level_split s
  || ((paren_depth s =? 0) && should_split_on_semicolon s).

Definition should_split_before_external_begin_block (token_upper : str) (s : SplitState) : bool :=
  if negb (is_word token_upper "BEGIN") then false
  else if negb (block_depth s =? 1) || negb (paren_depth s =? 0) then false
  else if should_split_on_semicolon s then true
  else is_some_and (active_routine_frame s) pending_external_clause_requires_top_level_split.

Definition should_split_before_external_statement_head (token_upper : str) (s : SplitState)
    : bool :=
  if negb (block_depth s =? 1) || negb (paren_depth s =? 0) then false
  else if negb (is_statement_head_keyword token_upper)
          || is_external_language_clause_keyword token_upper
          || is_external_language_target_keyword token_upper then false
  else if should_split_on_semicolon s then true
  else is_some_and (active_routine_frame s) pending_external_clause_requires_top_level_split.

Definition should_split_begin_after_implicit_external_semicolon
    (token_upper : str) (s : SplitState) : bool :=
  if negb (is_word token_upper "BEGIN") || negb (block_depth s =? 1)
     || negb (paren_depth s =? 0) || negb (pending_implicit_external_top_level_split s)
  then false
  else if create_plsql_kind s != CreatePlsqlKind_Function then false
  else is_some_and (active_routine_frame s) (fun frame =>
         (semicolon_policy frame == SemicolonPolicy_AwaitingImplicitTopLevelDecision)
         && negb (should_defer_begin_split_after_implicit_semicolon frame)).

Definition should_split_before_new_statement_head (s : SplitState) : bool :=
  if negb (block_depth s =? 1) || negb (paren_depth s =? 0) then false
  else is_some_and (active_routine_frame s) (fun frame =>
         has_pending_external_clause frame
         || frame_should_split_on_semicolon frame (block_depth s)).

(** ** Line boundaries *)

Definition slash_split_action (kind : SlashLineKind) : LineBoundaryAction :=
  if consumes_as_terminator kind then LineBoundaryAction_SplitAndConsumeLine
  else LineBoundaryAction_SplitBeforeLine.

Definition line_boundary_action (marker : LineLeadingMarker) (current_is_empty : bool)
    (s : SplitState) : LineBoundaryAction :=
  if (marker == LineLeadingMarker_None) || negb (str_is_empty (token s))
  then LineBoundaryAction_None
  else if in_with_plsql_declaration s && with_clause_waiting_main_query s
          && (block_depth s =? 0) && (paren_depth s =? 0) then
    match marker with
    | LineLeadingMarker_RunScriptAt | LineLeadingMarker_BangHost | LineLeadingMarker_Slash _ =>
        LineBoundaryAction_SplitBeforeLine
    | LineLeadingMarker_None | LineLeadingMarker_OpenParen => LineBoundaryAction_None
    end
  else if pending_implicit_external_top_level_split s
          && (block_depth s =? 1) && (paren_depth s =? 0) then
    match marker with
    | LineLeadingMarker_RunScriptAt | LineLeadingMarker_BangHost | LineLeadingMarker_OpenParen =>
        LineBoundaryAction_SplitBeforeLine
    | LineLeadingMarker_Slash kind => slash_split_action kind
    | LineLeadingMarker_None => LineBoundaryAction_None
    end
  else
    match marker with
    | LineLeadingMarker_Slash kind =>
        if (block_depth s =? 1) && (paren_depth s =? 0) && should_split_on_semicolon s
        then slash_split_action kind
        else if in_create_plsql s && (block_depth s =? 0) && (paren_depth s =? 0)
        then slash_split_action kind
        else if current_is_empty && is_idle s && (block_depth s =? 0) && (paren_depth s =? 0)
                && consumes_as_terminator kind
        then LineBoundaryAction_ConsumeLine
        else LineBoundaryAction_None
    | _ => LineBoundaryAction_None
    end.

Definition first_word_is_statement_head_not_begin (line : str) : bool :=
  let first_word := first_meaningful_word line in
  is_some_and first_word is_statement_head_keyword
  && negb (is_some_and first_word (fun word => eq_ignore_ascii_case word (u "BEGIN"))).

Definition line_boundary_action_for_line (line : str) (current_is_empty : bool) (s : SplitState)
    : LineBoundaryAction :=
  let action := line_boundary_action (classify_line_leading_marker line) current_is_empty s in
  if action != LineBoundaryAction_None then action
  else if is_idle s && in_wrapped_create s && negb current_is_empty
          && (block_depth s =? 0) && (paren_depth s =? 0)
          && first_word_is_statement_head_not_begin line
  then LineBoundaryAction_SplitBeforeLine
  else LineBoundaryAction_None.

Definition splitter_statement_head_action_for_line (line : str) (current_is_empty : bool)
    (s : SplitState) : LineBoundaryAction :=
  if negb (is_idle s) || negb (in_create_plsql s) || current_is_empty || is_trigger s
  then LineBoundaryAction_None
  else if negb (can_terminate_on_slash s || (pending_end s == PendingEnd_End))
  then LineBoundaryAction_None
  else
    let first_word := first_meaningful_word line in
    if is_some_and first_word (fun word => eq_ignore_ascii_case word (u "BEGIN"))
    then LineBoundaryAction_None
    else if is_some_and first_word is_statement_head_keyword
    then LineBoundaryAction_SplitBeforeLine
    else LineBoundaryAction_None.

Definition splitter_line_boundary_action_for_line (line : str) (current_is_empty : bool)
    (s : SplitState) : LineBoundaryAction :=
  let action := line_boundary_action_for_line line current_is_empty s in
  if action != LineBoundaryAction_None then action
  else
    let statement_head_action :=
      splitter_statement_head_action_for_line line current_is_empty s in
    if statement_head_action != LineBoundaryAction_None then statement_head_action
    else
      match classify_line_leading_marker line with
      | LineLeadingMarker_Slash kind =>
          if is_idle s && (paren_depth s =? 0) && can_terminate_on_slash s
             && consumes_as_terminator kind
          then if current_is_empty then LineBoundaryAction_ConsumeLine
               else LineBoundaryAction_SplitAndConsumeLine
          else LineBoundaryAction_None
      | _ => LineBoundaryAction_None
      end.

(** ** Resets *)

Definition reset_statement_boundary_state (s : SplitState) : SplitState :=
  clear_paren_stack
    (s <| pending_end := PendingEnd_None |>
       <| pending_end_label_segments := [] |>
       <| skip_next_end_label_token := false |>
       <| pending_do := PendingDo_None |>
       <| if_state := IfState_None |>)
    <| with_clause_state := WithClauseState_None |>
    <| with_plsql_declaration_starts_routine_body_flag := false |>
    <| top_level_token_state := TopLevelTokenState_NoneSeen |>
    <| pending_implicit_external_top_level_split := false |>.

Definition reset_create_tracking_state (s : SplitState) : SplitState :=
  s <| create_plsql_kind := CreatePlsqlKind_None |>
    <| create_state := CreateState_None |>
    <| package_body_name_segments := [] |>
    <| awaiting_package_body_name := false |>
    <| awaiting_package_body_name_dot := false |>
    <| as_is_follow_state := AsIsFollowState_None |>
    <| begin_state := BeginState_None |>
    <| as_is_state := AsIsState_None |>
    <| pending_subprogram_begins := 0 |>
    <| routine_body_block_just_opened := false |>
    <| sql_macro_call_spec_armed := false |>
    <| routine_is_stack := [] |>
    <| timing_point_state := TimingPointState_None |>
    <| saw_compound_keyword := false |>
    <| saw_trigger_alias_subject := false |>
    <| saw_mle_language_marker := false |>
    <| foreign_source_at_line_start := false |>.

Definition reset_after_statement_boundary (s : SplitState) : SplitState :=
  reset_create_tracking_state (reset_statement_boundary_state s).

Definition clear_skip_next_end_label_token (s : SplitState) : SplitState :=
  s <| skip_next_end_label_token := false |>.

Definition close_foreign_module_source (s : SplitState) : SplitState :=
  reset_create_tracking_state
    (s <| lex_mode := LexMode_Idle |> <| foreign_source_at_line_start := false |>).

Definition close_foreign_module_source_on_terminator_line (line : str) (s : SplitState)
    : SplitState :=
  if (lex_mode s == LexMode_ForeignModuleSource) && is_bare_slash_terminator_line line
  then close_foreign_module_source s else s.

(** ** END resolution *)

Definition package_body_init_end_context (s : SplitState) : bool :=
  if (create_plsql_kind s != CreatePlsqlKind_PackageBody)
     || negb (pending_subprogram_begins s =? 0) then false
  else if (block_depth s =? 1) && (last (block_stack s) == Some BlockKind_AsIs) then true
  else (block_depth s =? 2)
       && (last (block_stack s) == Some BlockKind_Begin)
       && (block_stack s !! (length (block_stack s) - 2) == Some BlockKind_AsIs).

Definition package_body_end_label_matches (token_upper : str) (s : SplitState) : bool :=
  match package_body_name_segments s with
  | [] => false
  | [only] => token_upper == only
  | segments => is_some_and (last segments) (fun last_segment => token_upper == last_segment)
  end.

Definition push_pending_end_label_segment (token_upper : str) (s : SplitState) : SplitState :=
  if str_is_empty token_upper then s
  else s <| pending_end_label_segments ::= vec_push token_upper |>.

Definition package_body_end_label_segments_match (s : SplitState) : bool :=
  let expected := package_body_name_segments s in
  let actual := pending_end_label_segments s in
  match expected with
  | [] => false
  | _ =>
    match actual with
    | [] => true
    | [only] => is_some_and (last expected) (fun last_expected => only == last_expected)
    | _ =>
      if (length actual =? length expected) && (actual == expected) then true
      else match last actual, last expected with
           | Some actual_last, Some expected_last => actual_last == expected_last
           | _, _ => false
           end
    end
  end.

Inductive PlainEndParentClosure :=
| PlainEndParentClosure_None
| PlainEndParentClosure_NestedSubprogramDeclaration
| PlainEndParentClosure_AdjacentAsIsParent.

#[export] Instance PlainEndParentClosure_eq_dec : EqDecision PlainEndParentClosure.
Proof. solve_decision. Defined.

Definition outer_initializer_end_closes_as_is (token_upper : str) (s : SplitState) : bool :=
  if negb (block_depth s =? 2) then false
  else match create_plsql_kind s with
       | CreatePlsqlKind_PackageBody =>
           package_body_end_label_matches token_upper s || str_is_empty token_upper
       | _ => false
       end.

Definition closes_active_routine_declare (s : SplitState) : bool :=
  is_some_and (active_routine_frame s) (fun frame => frame_block_depth frame =? block_depth s).

Definition plain_end_parent_closure (token_upper : str) (s : SplitState) : PlainEndParentClosure :=
  let top := last (block_stack s) in
  if (top == Some BlockKind_Declare) && (below_top s == Some BlockKind_AsIs)
     && closes_active_routine_declare s
  then PlainEndParentClosure_NestedSubprogramDeclaration
  else if (top == Some BlockKind_Begin) && (below_top s == Some BlockKind_AsIs)
          && match create_plsql_kind s with
             | CreatePlsqlKind_PackageBody => outer_initializer_end_closes_as_is token_upper s
             | _ => true
             end
  then PlainEndParentClosure_AdjacentAsIsParent
  else PlainEndParentClosure_None.

Definition resolve_plain_end (token_upper : str) (s : SplitState) : SplitState :=
  let parent_closure := plain_end_parent_closure token_upper s in
  let s := s <| block_stack ::= vec_pop |> in
  let s :=
    match parent_closure with
    | PlainEndParentClosure_NestedSubprogramDeclaration
    | PlainEndParentClosure_AdjacentAsIsParent => s <| block_stack ::= vec_pop |>
    | PlainEndParentClosure_None => s
    end in
  if parent_closure == PlainEndParentClosure_NestedSubprogramDeclaration
  then s <| pending_subprogram_begins ::= fun n => n - 1 |> else s.

Definition plain_end_closes_parent_scope (token_upper : str) (s : SplitState) : bool :=
  let top := last (block_stack s) in
  if (top == Some BlockKind_Declare) && (below_top s == Some BlockKind_AsIs)
     && closes_active_routine_declare s then true
  else (top == Some BlockKind_Begin) && (below_top s == Some BlockKind_AsIs)
       && (create_plsql_kind s == CreatePlsqlKind_PackageBody)
       && outer_initializer_end_closes_as_is token_upper s.

Definition plain_end_scope_pop_count (token_upper : str) (s : SplitState) : nat :=
  match block_stack s with
  | [] => 0
  | _ => 1 + (if plain_end_parent_closure token_upper s != PlainEndParentClosure_None
              then 1 else 0)
  end.

Definition pending_end_label (s : SplitState) : str :=
  if package_body_init_end_context s && negb (package_body_end_label_segments_match s)
  then default [] (head (pending_end_label_segments s))
  else default [] (last (pending_end_label_segments s)).

Definition resolve_pending_end_with_policy (policy : EndResolutionPolicy) (s : SplitState)
    : SplitState :=
  if pending_end s != PendingEnd_End then s
  else
    let s := resolve_plain_end (pending_end_label s) s in
    let s :=
      if (policy == EndResolutionPolicy_ResetCreateStateWhenTopLevel)
         && (block_depth s =? 0) && negb (in_with_plsql_declaration s)
      then reset_create_tracking_state s else s in
    s <| pending_end := PendingEnd_None |> <| pending_end_label_segments := [] |>.

Definition resolve_pending_end_on_separator (s : SplitState) : SplitState :=
  if package_body_init_end_context s
     && match pending_end_label_segments s with [] => false | _ => true end then s
  else resolve_pending_end_with_policy EndResolutionPolicy_KeepCreateState s.

Definition resolve_pending_end_on_separator_with_token (token_upper : str) (s : SplitState)
    : SplitState :=
  if pending_end s != PendingEnd_End then s
  else if package_body_init_end_context s then push_pending_end_label_segment token_upper s
  else resolve_plain_end token_upper s
         <| pending_end := PendingEnd_None |> <| pending_end_label_segments := [] |>.

Definition resolve_pending_end_on_terminator (s : SplitState) : SplitState :=
  resolve_pending_end_with_policy EndResolutionPolicy_ResetCreateStateWhenTopLevel s.

Definition resolve_pending_end_on_eof (s : SplitState) : SplitState :=
  resolve_pending_end_with_policy EndResolutionPolicy_ResetCreateStateWhenTopLevel s.

(** Pops report whether they popped. *)
Definition pop_block_of_kind (kind : BlockKind) (s : SplitState) : SplitState * bool :=
  if last (block_stack s) == Some kind
  then (s <| block_stack ::= vec_pop |>, true) else (s, false).

Definition pop_case_block (s : SplitState) : SplitState * bool :=
  if top_is_case s then (s <| block_stack ::= vec_pop |>, true) else (s, false).

Fixpoint pop_top_matching_block (kinds : list BlockKind) (s : SplitState) : SplitState * bool :=
  match kinds with
  | [] => (s, false)
  | kind :: kinds =>
      let '(s', popped) := pop_block_of_kind kind s in
      if popped then (s', true) else pop_top_matching_block kinds s'
  end.

Definition pop_timing_point_block (s : SplitState) : SplitState * bool :=
  match rposition (fun k => k == BlockKind_TimingPoint) (block_stack s) with
  | Some pos => (s <| block_stack ::= take pos |>, true)
  | None => (s, false)
  end.

Definition apply_suffix_to_state (suffix : PendingEndSuffix) (s : SplitState)
    : SplitState * bool :=
  let '(s, popped) :=
    match suffix with
    | PendingEndSuffix_Case => pop_case_block s
    | PendingEndSuffix_If => pop_top_matching_block [BlockKind_If] s
    | PendingEndSuffix_Loop => pop_top_matching_block [BlockKind_Loop] s
    | PendingEndSuffix_While => pop_top_matching_block [BlockKind_While; BlockKind_Loop] s
    | PendingEndSuffix_Repeat => pop_top_matching_block [BlockKind_Repeat] s
    | PendingEndSuffix_For => pop_top_matching_block [BlockKind_For; BlockKind_Loop] s
    | PendingEndSuffix_TimingPoint => pop_timing_point_block s
    end in
  if suffix == PendingEndSuffix_TimingPoint
  then (s <| timing_point_state := TimingPointState_None |>, popped)
  else (s, popped).

Definition pending_end_suffix_token_should_be_treated_as_label (token_upper : str)
    (s : SplitState) : bool :=
  if str_is_empty token_upper then false
  else
    let top := last (block_stack s) in
    if (top == Some BlockKind_Begin) && (below_top s == Some BlockKind_AsIs)
       && (block_depth s <=? 2) then true
    else if (top == Some BlockKind_AsIs)
            && (create_plsql_kind s == CreatePlsqlKind_PackageBody)
            && (block_depth s <=? 2) then package_body_end_label_matches token_upper s
    else (top == Some BlockKind_Declare) && (below_top s == Some BlockKind_AsIs)
         && (0 <? pending_subprogram_begins s).

(** The three assignments that end an END. *)
Definition finish_pending_end (skip : bool) (s : SplitState) : SplitState :=
  s <| pending_end := PendingEnd_None |>
    <| pending_end_label_segments := [] |>
    <| skip_next_end_label_token := skip |>.

(** Returns whether the token was consumed as part of the END. *)
Definition handle_pending_end_on_token (token_upper : str) (suffix : option PendingEndSuffix)
    (s : SplitState) : SplitState * bool :=
  if pending_end s != PendingEnd_End then (s, false)
  else if package_body_init_end_context s then
    (push_pending_end_label_segment token_upper s, true)
  else if is_word token_upper "END" && (suffix == None) then
    (resolve_plain_end [] s
       <| pending_end := PendingEnd_End |>
       <| pending_end_label_segments := [] |>
       <| skip_next_end_label_token := false |>, true)
  else
    match suffix with
    | Some suffix =>
        let top_is_case_before_suffix := top_is_case s in
        let '(s, parsed_suffix_closed_block) := apply_suffix_to_state suffix s in
        if top_is_case_before_suffix && (suffix != PendingEndSuffix_Case) then
          (finish_pending_end false (resolve_plain_end [] s), false)
        else
          let treat_suffix_as_label :=
            negb parsed_suffix_closed_block
            && pending_end_suffix_token_should_be_treated_as_label token_upper s in
          let s := if treat_suffix_as_label && negb (top_is_case s)
                   then resolve_plain_end token_upper s else s in
          (finish_pending_end true s, true)
    | None =>
        let closed_case_expression := top_is_case s in
        let s := resolve_plain_end token_upper s in
        if closed_case_expression then (finish_pending_end false s, false)
        else (finish_pending_end true s, true)
    end.

(** ** Block openers *)

Definition has_non_case_block_context (s : SplitState) : bool :=
  existsb (fun kind => kind != BlockKind_Case) (block_stack s).

Definition should_arm_if_block (end_token_role : EndTokenRole) (s : SplitState) : bool :=
  if EndTokenRole_is_suffix end_token_role PendingEndSuffix_If then false
  else if top_level_token_state s == TopLevelTokenState_NoneSeen then true
  else has_non_case_block_context s.

Definition should_arm_loop_block (end_token_role : EndTokenRole) (s : SplitState) : bool :=
  if EndTokenRole_is_suffix end_token_role PendingEndSuffix_Loop then false
  else if top_level_token_state s == TopLevelTokenState_NoneSeen then true
  else if pending_do s != PendingDo_None then true
  else has_non_case_block_context s.

Definition should_arm_repeat_block (end_token_role : EndTokenRole) (s : SplitState) : bool :=
  if EndTokenRole_is_suffix end_token_role PendingEndSuffix_Repeat then false
  else if top_level_token_state s == TopLevelTokenState_NoneSeen then true
  else has_non_case_block_context s.

(** [AsIsBlockStart::from_token]. *)
Definition AsIsBlockStart_from_token (upper : str) (s : SplitState) : AsIsBlockStart :=
  if negb (is_one_of upper ["AS"; "IS"]%string) then AsIsBlockStart_None
  else if negb (paren_depth s =? 0) then AsIsBlockStart_None
  else if timing_point_state s == TimingPointState_AwaitingAsOrIs then AsIsBlockStart_TimingPoint
  else if is_trigger s && negb (in_compound_trigger s) && (block_depth s =? 0)
          && saw_trigger_alias_subject s then AsIsBlockStart_None
  else if (as_is_state s == AsIsState_AwaitingNestedSubprogram)
          || (collecting_with_plsql_routine_declaration s && (block_depth s =? 0))
          || (in_create_plsql s && negb (in_java_source_create s)
              && negb (in_mle_module_create s) && (block_depth s =? 0))
  then AsIsBlockStart_Regular
  else AsIsBlockStart_None.

Definition track_trigger_alias (upper : str) (s : SplitState) : SplitState :=
  if is_trigger s && negb (in_compound_trigger s) && (block_depth s =? 0) then
    if is_one_of upper ["NEW"; "OLD"; "PARENT"]%string
    then s <| saw_trigger_alias_subject := true |>
    else if negb (is_one_of upper ["AS"; "IS"]%string)
    then s <| saw_trigger_alias_subject := false |>
    else s
  else s <| saw_trigger_alias_subject := false |>.

Definition drop_stale_compound_keyword (upper : str) (s : SplitState) : SplitState :=
  if saw_compound_keyword s && negb (is_word upper "TRIGGER")
  then s <| saw_compound_keyword := false |> else s.

Definition push_block (kind : BlockKind) (s : SplitState) : SplitState :=
  s <| block_stack ::= vec_push kind |>.

Definition open_case (upper : str) (role : EndTokenRole) (s : SplitState) : SplitState :=
  if is_word upper "CASE" && negb (EndTokenRole_is_suffix role PendingEndSuffix_Case)
  then push_block BlockKind_Case s else s.

Definition arm_if (upper : str) (role : EndTokenRole) (s : SplitState) : SplitState :=
  let parenthesized_if_expression := is_word upper "IF" && (0 <? paren_depth s) in
  if is_word upper "IF" && negb parenthesized_if_expression && should_arm_if_block role s
  then s <| if_state := IfState_ExpectConditionStart |> else s.

Definition open_then (upper : str) (s : SplitState) : SplitState :=
  if is_word upper "THEN" && (if_state s == IfState_AwaitingThen)
  then push_block BlockKind_If s <| if_state := IfState_None |> else s.

Definition open_loop (upper : str) (role : EndTokenRole) (s : SplitState) : SplitState :=
  if is_word upper "LOOP" && should_arm_loop_block role s
  then push_block BlockKind_Loop s <| pending_do := PendingDo_None |> else s.

Definition open_repeat (upper : str) (role : EndTokenRole) (s : SplitState) : SplitState :=
  if is_word upper "REPEAT" && should_arm_repeat_block role s
  then push_block BlockKind_Repeat s else s.

Definition arm_while_for (upper : str) (role : EndTokenRole) (s : SplitState) : SplitState :=
  if is_one_of upper ["WHILE"; "FOR"]%string && (pending_end s == PendingEnd_None)
     && negb (EndTokenRole_is_suffix role PendingEndSuffix_While
              || EndTokenRole_is_suffix role PendingEndSuffix_For)
  then
    let is_trigger_header_for :=
      is_word upper "FOR" && in_create_plsql s && is_trigger s && (block_depth s =? 0) in
    if negb is_trigger_header_for
    then s <| pending_do := PendingDo_arm_for_token (pending_do s) upper (block_depth s) |>
    else s
  else s.

Definition open_do (upper : str) (s : SplitState) : SplitState :=
  if is_word upper "DO" then
    let s :=
      match PendingDo_resolve_do (pending_do s) (block_depth s) with
      | Some block_kind => push_block block_kind s
      | None => s
      end in
    s <| pending_do := PendingDo_None |>
  else s.

Definition trigger_call_body (upper : str) (s : SplitState) : SplitState :=
  if is_word upper "CALL" && is_trigger s && negb (in_compound_trigger s)
     && (block_depth s =? 1) && (last (block_stack s) == Some BlockKind_AsIs)
     && (0 <? pending_subprogram_begins s)
  then
    update_active_routine_frame
      (fun frame => frame <| semicolon_policy := SemicolonPolicy_ForceSplit |>) s
      <| pending_subprogram_begins := 0 |>
  else s.

Definition push_routine_frame (s : SplitState) : SplitState :=
  s <| routine_is_stack ::= vec_push (RoutineFrame_new (block_depth s)) |>.

Definition timing_point_begin (upper : str) (s : SplitState) : SplitState :=
  if is_word upper "BEGIN" && (timing_point_state s == TimingPointState_AwaitingAsOrIs)
     && in_compound_trigger s
  then
    push_routine_frame
      (push_block BlockKind_TimingPoint s
         <| as_is_state := AsIsState_None |>
         <| timing_point_state := TimingPointState_None |>)
      <| pending_subprogram_begins ::= S |>
  else s.

Definition known_type_declarative_kinds : list string :=
  ["OBJECT"; "VARRAY"; "TABLE"; "REF"; "RECORD"; "OPAQUE"; "JSON"; "VARYING"; "ENUM";
   "RANGE"]%string.

Definition undo_type_as_is (upper : str) (s : SplitState) : SplitState :=
  if as_is_follow_state s == AsIsFollowState_AwaitingTypeDeclarativeKind then
    if is_one_of upper known_type_declarative_kinds || negb (is_word upper "BODY")
    then s <| block_stack ::= vec_pop |> <| as_is_follow_state := AsIsFollowState_None |>
    else s
  else s.

Definition await_nested_subprogram (upper : str) (s : SplitState) : SplitState :=
  if (0 <? block_depth s) && is_one_of upper ["PROCEDURE"; "FUNCTION"]%string
  then s <| as_is_state := AsIsState_AwaitingNestedSubprogram |> else s.

Definition open_as_is (start : AsIsBlockStart) (s : SplitState) : SplitState :=
  let s := push_block (if start == AsIsBlockStart_TimingPoint then BlockKind_TimingPoint
                       else BlockKind_AsIs) s in
  let s :=
    if type_as_is_awaits_declarative_kind s
       && (as_is_state s != AsIsState_AwaitingNestedSubprogram)
       && (start != AsIsBlockStart_TimingPoint)
    then s <| as_is_follow_state := AsIsFollowState_AwaitingTypeDeclarativeKind |> else s in
  let s := s <| as_is_state := AsIsState_None |>
             <| timing_point_state := TimingPointState_None |> in
  let needs_begin_tracking :=
    if needs_nested_begin_tracking s then 1 <? block_depth s else true in
  if needs_begin_tracking then
    push_routine_frame s
      <| routine_body_block_just_opened := true |>
      <| pending_subprogram_begins ::= S |>
  else s.

Definition open_begin (s : SplitState) : SplitState :=
  let begins_pending_routine_body :=
    is_some_and (last (routine_is_stack s)) (fun frame =>
      frame_block_depth frame =? block_depth s) in
  if begins_pending_routine_body then
    s <| routine_is_stack ::= vec_pop |>
      <| pending_subprogram_begins ::= fun n => n - 1 |>
  else if begin_state s == BeginState_AfterDeclare then
    s <| begin_state := BeginState_None |>
  else push_block BlockKind_Begin s.

(** The final [if ... else if] chain. *)
Definition open_scope (upper : str) (role : EndTokenRole) (s : SplitState) : SplitState :=
  let as_is_block_start := AsIsBlockStart_from_token upper s in
  if as_is_block_start != AsIsBlockStart_None then open_as_is as_is_block_start s
  else if is_word upper "DECLARE" then
    if mysql_mode s && (0 <? block_depth s) then s
    else push_block BlockKind_Declare s <| begin_state := BeginState_AfterDeclare |>
  else if is_word upper "BEGIN" then open_begin s
  else if is_word upper "END" then s <| pending_end := PendingEnd_End |>
  else if is_word upper "COMPOUND" && is_trigger s && (block_depth s =? 0) then
    s <| saw_compound_keyword := true |>
  else if is_word upper "TRIGGER" && saw_compound_keyword s && is_trigger s
          && (block_depth s =? 0) then
    push_block BlockKind_Compound (mark_compound_trigger s) <| saw_compound_keyword := false |>
  else if is_one_of upper ["BEFORE"; "AFTER"; "INSTEAD"]%string && in_compound_trigger s
          && (last (block_stack s) == Some BlockKind_Compound)
          && negb (EndTokenRole_is_suffix role PendingEndSuffix_TimingPoint) then
    s <| timing_point_state := TimingPointState_AwaitingAsOrIs |>
  else s.

Definition handle_block_openers (upper : str) (role : EndTokenRole) (s : SplitState)
    : SplitState :=
  let s := track_trigger_alias upper s in
  let s := drop_stale_compound_keyword upper s in
  let s := open_case upper role s in
  let s := arm_if upper role s in
  let s := open_then upper s in
  let s := open_loop upper role s in
  let s := open_repeat upper role s in
  let s := arm_while_for upper role s in
  let s := open_do upper s in
  let s := trigger_call_body upper s in
  let s := timing_point_begin upper s in
  let s := undo_type_as_is upper s in
  let s := await_nested_subprogram upper s in
  open_scope upper role s.

(** ** CREATE tracking *)

Definition create_modifier_keywords : list string :=
  ["OR"; "NO"; "FORCE"; "NOFORCE"; "REPLACE"; "AND"; "COMPILE"; "RESOLVE";
   "NORESOLVE"; "DEBUG"; "NODEBUG";
   "IF"; "NOT"; "EXISTS"; "EDITIONABLE"; "NONEDITIONABLE"; "EDITIONING";
   "NONEDITIONING"; "FORWARD"; "REVERSE"; "CROSSEDITION"; "SHARING";
   "METADATA"; "DATA"; "EXTENDED"; "NONE"; "IMMUTABLE"]%string.

Definition type_body_member_keywords : list string :=
  ["MEMBER"; "STATIC"; "CONSTRUCTOR"; "MAP"; "ORDER"; "FINAL"; "INSTANTIABLE";
   "OVERRIDING"]%string.

(** The part reached when a CREATE PL/SQL unit is already known. *)
Definition track_known_create (upper : str) (s : SplitState) : SplitState :=
  if (block_depth s =? 0) && (create_plsql_kind s == CreatePlsqlKind_Package)
     && is_word upper "BODY" then
    s <| create_plsql_kind := CreatePlsqlKind_PackageBody |>
      <| package_body_name_segments := [] |>
      <| awaiting_package_body_name := true |>
      <| awaiting_package_body_name_dot := false |>
  else
    let s :=
      if (block_depth s =? 0) && (create_plsql_kind s == CreatePlsqlKind_PackageBody)
         && awaiting_package_body_name s then
        if is_one_of upper ["AS"; "IS"]%string then
          s <| awaiting_package_body_name := false |> <| awaiting_package_body_name_dot := false |>
        else if (package_body_name_segments s == []) || awaiting_package_body_name_dot s then
          s <| package_body_name_segments ::= vec_push upper |>
            <| awaiting_package_body_name_dot := false |>
        else s
      else s in
    if (block_depth s =? 0) && is_word upper "WRAPPED" then
      s <| create_plsql_kind := CreatePlsqlKind_Wrapped |> <| create_state := CreateState_None |>
    else s.

(** [AwaitingObjectType]: the match on the word after CREATE and its modifiers.
    [inl] is an early return. *)
Definition track_object_type (upper : str) (s : SplitState) : SplitState + SplitState :=
  if create_state s == CreateState_AwaitingObjectType then
    if is_one_of upper create_modifier_keywords then inl s
    else if is_one_of upper type_body_member_keywords
            && (create_plsql_kind s == CreatePlsqlKind_TypeBody) then inl s
    else if is_word upper "JAVA" then inl (s <| create_state := CreateState_AwaitingJavaTarget |>)
    else if is_word upper "MLE" then inl (s <| create_state := CreateState_AwaitingMleTarget |>)
    else
      let s :=
        if is_word upper "PROCEDURE" then s <| create_plsql_kind := CreatePlsqlKind_Procedure |>
        else if is_word upper "FUNCTION" then s <| create_plsql_kind := CreatePlsqlKind_Function |>
        else if is_word upper "PACKAGE" then s <| create_plsql_kind := CreatePlsqlKind_Package |>
        else if is_word upper "TYPE"
        then s <| create_plsql_kind := CreatePlsqlKind_TypeSpecAwaitingBody |>
        else if is_word upper "TRIGGER"
        then s <| create_plsql_kind := CreatePlsqlKind_Trigger TriggerKind_Simple |>
        else s in
      inr (s <| create_state := CreateState_None |>)
  else inr s.

(** The part reached while no CREATE PL/SQL unit is known. *)
Definition track_new_create (upper : str) (s : SplitState) : SplitState :=
  if create_state s == CreateState_AwaitingMleTarget then
    let s := s <| create_state := CreateState_None |> in
    if is_word upper "MODULE" then s <| create_plsql_kind := CreatePlsqlKind_MleModule |> else s
  else if (create_state s == CreateState_AwaitingJavaTarget) && is_word upper "SOURCE" then
    s <| create_plsql_kind := CreatePlsqlKind_JavaSource |> <| create_state := CreateState_None |>
  else if (create_state s == CreateState_AwaitingJavaTarget)
          && is_one_of upper ["CLASS"; "RESOURCE"]%string then
    s <| create_state := CreateState_None |>
  else
    let s := if create_state s == CreateState_AwaitingJavaTarget
             then s <| create_state := CreateState_None |> else s in
    match track_object_type upper s with
    | inl s => s
    | inr s => if is_word upper "CREATE"
               then s <| create_state := CreateState_AwaitingObjectType |> else s
    end.

Definition track_create_plsql (upper : str) (s : SplitState) : SplitState :=
  if (0 <? block_depth s) && negb (in_create_plsql s) && (create_state s == CreateState_None)
  then s
  else if (create_plsql_kind s == CreatePlsqlKind_TypeSpecAwaitingBody) && is_word upper "BODY"
  then s <| create_plsql_kind := CreatePlsqlKind_TypeBody |>
  else
    let s :=
      if (create_plsql_kind s == CreatePlsqlKind_TypeSpecAwaitingBody)
         && negb (is_word upper "BODY")
      then s <| create_plsql_kind := CreatePlsqlKind_TypeSpec |> else s in
    if in_create_plsql s then track_known_create upper s else track_new_create upper s.

Definition track_create_plsql_symbol (ch : char) (s : SplitState) : SplitState :=
  if (block_depth s =? 0) && (create_plsql_kind s == CreatePlsqlKind_PackageBody)
     && awaiting_package_body_name s then
    let keeps_awaiting_segment_after_dot :=
      awaiting_package_body_name_dot s && is_char_of ch "/*-" in
    if N.eqb ch "."%ch && (package_body_name_segments s != [])
    then s <| awaiting_package_body_name_dot := true |>
    else if negb (is_whitespace ch) && negb keeps_awaiting_segment_after_dot
    then s <| awaiting_package_body_name_dot := false |>
    else s
  else s.

Definition track_sql_macro_call_spec (upper : str) (follows_routine_body_block_open : bool)
    (s : SplitState) : SplitState :=
  s <| sql_macro_call_spec_armed :=
         is_word upper "SQL_MACRO" && follows_routine_body_block_open |>.

Definition confirm_sql_macro_call_spec_on_terminator (s : SplitState) : SplitState :=
  if negb (sql_macro_call_spec_armed s) then s
  else update_active_routine_frame mark_external_clause (s <| sql_macro_call_spec_armed := false |>).

(** ** WITH tracking *)

Definition leave_with_clause (s : SplitState) : SplitState :=
  s <| with_clause_state := WithClauseState_None |>
    <| with_plsql_declaration_starts_routine_body_flag := false |>.

Definition track_top_level_with_plsql (upper : str) (at_statement_start : bool) (s : SplitState)
    : SplitState :=
  if negb (block_depth s =? 0) || negb (paren_depth s =? 0) then s
  else
    let can_start_with_clause :=
      at_statement_start || (with_clause_state s == WithClauseState_None) in
    if is_word upper "WITH" && can_start_with_clause then
      s <| with_clause_state := WithClauseState_PendingClause |>
        <| with_plsql_declaration_starts_routine_body_flag := false |>
    else if with_clause_state s == WithClauseState_None then
      s <| with_plsql_declaration_starts_routine_body_flag := false |>
    else if is_with_plsql_declaration_keyword upper then
      s <| with_plsql_declaration_starts_routine_body_flag :=
             with_plsql_declaration_starts_routine_body upper |>
        <| with_clause_state :=
             WithClauseState_InPlsqlDeclaration WithDeclarationState_CollectingDeclaration |>
    else if (with_clause_state s == WithClauseState_PendingClause)
            && is_with_non_plsql_clause_keyword upper then leave_with_clause s
    else if is_word upper "AS" && (with_clause_state s == WithClauseState_PendingClause) then
      leave_with_clause s
    else if is_with_main_query_keyword upper then
      if with_clause_state s
           == WithClauseState_InPlsqlDeclaration WithDeclarationState_CollectingDeclaration
      then s else leave_with_clause s
    else s.

Definition track_with_main_query_symbol (ch : char) (s : SplitState) : SplitState :=
  if negb (with_clause_waiting_main_query s) || negb (block_depth s =? 0)
     || negb (paren_depth s =? 0) then s
  else if N.eqb ch "("%ch then leave_with_clause s
  else s.

Definition advance_with_clause_after_comma (s : SplitState) : SplitState :=
  if in_with_plsql_declaration s && (block_depth s =? 0) && (paren_depth s =? 0) then
    s <| with_clause_state :=
           WithClauseState_InPlsqlDeclaration WithDeclarationState_AwaitingMainQuery |>
      <| with_plsql_declaration_starts_routine_body_flag := false |>
  else s.

Definition advance_with_clause_after_semicolon (s : SplitState) : SplitState :=
  if in_with_plsql_declaration s && (block_depth s =? 0) && (paren_depth s =? 0) then
    s <| with_clause_state :=
           WithClauseState_InPlsqlDeclaration WithDeclarationState_AwaitingMainQuery |>
  else if (with_clause_state s == WithClauseState_PendingClause)
          && (block_depth s =? 0) && (paren_depth s =? 0) then
    s <| with_clause_state := WithClauseState_None |>
  else s.

(** ** External clauses, dispatched to the active frame *)

Definition in_procedure_or_function (s : SplitState) : bool :=
  match create_plsql_kind s with
  | CreatePlsqlKind_Procedure | CreatePlsqlKind_Function => true
  | _ => false
  end.

Definition tracks_external_clause (s : SplitState) : bool :=
  (1 <? block_depth s) || in_procedure_or_function s.

Definition handle_routine_is_external (upper : str) (s : SplitState) : SplitState :=
  if negb (tracks_external_clause s) then s
  else
    let allow_implicit_language :=
      (1 <? block_depth s) || ((block_depth s =? 1) && in_procedure_or_function s) in
    update_active_routine_frame
      (frame_observe_external_clause_token upper allow_implicit_language) s.

Definition observe_external_clause_literal_target (allow_implicit_target : bool) (s : SplitState)
    : SplitState :=
  if negb (tracks_external_clause s) then s
  else update_active_routine_frame
         (frame_observe_external_clause_literal_target allow_implicit_target) s.

Definition observe_external_clause_quoted_identifier_target (s : SplitState) : SplitState :=
  if negb (tracks_external_clause s) then s
  else update_active_routine_frame frame_observe_external_clause_quoted_identifier_target s.

Definition allow_implicit_external_literal_target (s : SplitState) : bool :=
  is_some_and (active_routine_frame s) (fun frame =>
    external_clause_state frame == ExternalClauseState_AwaitingLanguageTargetImplicit).

Definition allow_external_dollar_quote_literal_start (s : SplitState) : bool :=
  is_some_and (active_routine_frame s) (fun frame =>
    match external_clause_state frame with
    | ExternalClauseState_AwaitingLanguageTargetFromExternal
    | ExternalClauseState_AwaitingLanguageTargetImplicit
    | ExternalClauseState_SawImplicitQuotedLanguageTarget
    | ExternalClauseState_SawImplicitLanguageTarget
    | ExternalClauseState_Confirmed => true
    | _ => false
    end).

Definition observe_external_clause_symbol (ch : char) (next : option char) (s : SplitState)
    : SplitState :=
  update_active_routine_frame (frame_observe_external_clause_symbol ch next) s.

Definition finalize_external_clause_on_semicolon (s : SplitState) : SplitState :=
  let allow_implicit_target_split :=
    (block_depth s =? 1) || (create_plsql_kind s != CreatePlsqlKind_PackageBody) in
  match active_routine_frame s with
  | None => s
  | Some frame =>
      let frame := frame_finalize_external_clause_on_semicolon allow_implicit_target_split frame in
      let s := s <| routine_is_stack ::= fun v => vec_pop v ++ [frame] |> in
      if (semicolon_policy frame == SemicolonPolicy_AwaitingImplicitTopLevelDecision)
         && (frame_block_depth frame =? 1)
      then s <| pending_implicit_external_top_level_split := true |> else s
  end.

Definition consume_trigger_alias_subject_on_quoted_identifier (s : SplitState) : SplitState :=
  if is_trigger s && negb (in_compound_trigger s) && (block_depth s =? 0)
  then s <| saw_trigger_alias_subject := false |> else s.

(** [Vec::remove(pos)] of an index in range. *)
Definition vec_remove {A} (pos : nat) (v : list A) : list A := take pos v ++ drop (S pos) v.

Definition close_external_routine_on_semicolon (s : SplitState) : SplitState :=
  if negb (should_close_routine_block_on_semicolon s) then s
  else
    let s := s <| routine_is_stack ::= vec_pop |>
               <| pending_subprogram_begins ::= fun n => n - 1 |> in
    if last (block_stack s) == Some BlockKind_AsIs then s <| block_stack ::= vec_pop |>
    else match rposition (fun kind => kind == BlockKind_AsIs) (block_stack s) with
         | Some pos => s <| block_stack ::= vec_remove pos |>
         | None => s
         end.

Definition clear_forward_subprogram_declaration_state_on_semicolon (s : SplitState) : SplitState :=
  if as_is_state s == AsIsState_AwaitingNestedSubprogram
  then s <| as_is_state := AsIsState_None |> else s.

(** ** Semicolons *)

(** [SemicolonAction::from_state]. *)
Definition SemicolonAction_from_state (s : SplitState) : SemicolonAction :=
  if keep_semicolons_inside_create_body s then SemicolonAction_AppendToCurrent
  else if (block_depth s =? 0) && (paren_depth s =? 0) && negb (in_with_plsql_declaration s)
  then SemicolonAction_SplitTopLevel
  else if (paren_depth s =? 0) && should_split_on_semicolon s
  then SemicolonAction_SplitForcedRoutine
  else if (paren_depth s =? 0) && should_close_routine_block_on_semicolon s
  then SemicolonAction_CloseRoutineBlock
  else SemicolonAction_AppendToCurrent.

Definition prepare_semicolon (s : SplitState) : SplitState :=
  let s := confirm_sql_macro_call_spec_on_terminator s in
  let s := s <| pending_do := PendingDo_None |> in
  let s := finalize_external_clause_on_semicolon s in
  let s := resolve_pending_end_on_terminator s in
  let s := clear_forward_subprogram_declaration_state_on_semicolon s in
  advance_with_clause_after_semicolon s.

Definition prepare_semicolon_action (s : SplitState) : SplitState * SemicolonAction :=
  let s := prepare_semicolon s in (s, SemicolonAction_from_state s).

(** ** Tokens *)

Definition handle_if_state_on_token (upper : str) (s : SplitState) : SplitState :=
  if (if_state s == IfState_ExpectConditionStart) && negb (is_word upper "IF")
  then s <| if_state := IfState_AwaitingThen |> else s.

Definition track_foreign_source_body (upper : str) (s : SplitState) : SplitState :=
  if is_word upper "MLE" then s <| saw_mle_language_marker := true |>
  else if in_mle_module_create s && is_word upper "AS" && (block_depth s =? 0)
          && (paren_depth s =? 0)
  then s <| lex_mode := LexMode_ForeignModuleSource |>
         <| foreign_source_at_line_start := false |>
  else s.

(** The trackers that run before the block handlers. *)
Definition flush_trackers (upper : str) (at_statement_start : bool) (s : SplitState)
    : SplitState :=
  let follows_routine_body_block_open := routine_body_block_just_opened s in
  let s := s <| routine_body_block_just_opened := false |> in
  let s := handle_routine_is_external upper s in
  let s := track_create_plsql upper s in
  let s := track_sql_macro_call_spec upper follows_routine_body_block_open s in
  track_top_level_with_plsql upper at_statement_start s.

(** END resolution and block openers, skipped for [$]-prefixed words and for the
    label after an END suffix. *)
Definition flush_blocks (upper : str) (s : SplitState) : SplitState :=
  let end_token_role :=
    if token_prefixed_with_dollar s then EndTokenRole_None
    else EndTokenRole_from_token upper (pending_end s) (allow_timing_point_end_suffix s) in
  if token_prefixed_with_dollar s then s
  else if skip_next_end_label_token s && (pending_end s == PendingEnd_None) then s
  else
    let s := handle_if_state_on_token upper s in
    let '(s, consume_as_end_label) :=
      handle_pending_end_on_token upper (EndTokenRole_suffix end_token_role) s in
    if negb consume_as_end_label then
      handle_block_openers upper
        (EndTokenRole_from_token upper (pending_end s) (allow_timing_point_end_suffix s)) s
    else s.

Definition flush_token (s : SplitState) : SplitState :=
  if str_is_empty (token s) then s
  else
    let at_top_level := (block_depth s =? 0) && (paren_depth s =? 0) in
    let at_statement_start :=
      at_top_level && (top_level_token_state s == TopLevelTokenState_NoneSeen) in
    let upper := ascii_upper (token s) in
    let s := flush_trackers upper at_statement_start s in
    let s := flush_blocks upper s in
    let s := track_foreign_source_body upper s in
    let s := s <| token := [] |> <| token_prefixed_with_dollar := false |> in
    if at_top_level then s <| top_level_token_state := TopLevelTokenState_Seen |> else s.

(** ** Quoted identifiers and q-quotes *)

Definition begin_quoted_identifier (s : SplitState) : SplitState :=
  s <| quoted_identifier_buf := [] |>.

Definition push_quoted_identifier_char (ch : char) (s : SplitState) : SplitState :=
  s <| quoted_identifier_buf ::= vec_push ch |>.

Definition observe_quoted_identifier (upper : str) (s : SplitState) : SplitState :=
  if (block_depth s =? 0) && (create_plsql_kind s == CreatePlsqlKind_PackageBody)
     && awaiting_package_body_name s
     && ((package_body_name_segments s == []) || awaiting_package_body_name_dot s)
  then s <| package_body_name_segments ::= vec_push upper |>
         <| awaiting_package_body_name_dot := false |>
  else s.

Definition finish_quoted_identifier (s : SplitState) : SplitState * option str :=
  match quoted_identifier_buf s with
  | [] => (s, None)
  | buf =>
      let upper := ascii_upper buf in
      (observe_quoted_identifier upper (s <| quoted_identifier_buf := [] |>), Some upper)
  end.

Definition start_q_quote (delimiter : char) (s : SplitState) : SplitState :=
  s <| lex_mode := LexMode_QQuote (q_quote_closing delimiter) 1 |>.

Definition q_quote_end (s : SplitState) : option char :=
  match lex_mode s with LexMode_QQuote end_char _ => Some end_char | _ => None end.

(** ** Line preparation and the forced reset *)

Definition prepare_splitter_line_boundary (line : str) (s : SplitState) : SplitState :=
  let s := close_foreign_module_source_on_terminator_line line s in
  match classify_line_leading_marker line with
  | LineLeadingMarker_Slash kind =>
      if negb (consumes_as_terminator kind) || negb (is_idle s) then s
      else
        let s := finalize_external_clause_on_semicolon s in
        if pending_end s == PendingEnd_End then resolve_pending_end_on_terminator s else s
  | _ => s
  end.

Definition force_reset_all (s : SplitState) : SplitState :=
  let s := flush_token s in
  let s := resolve_pending_end_on_eof s in
  let s := reset_after_statement_boundary s in
  s <| lex_mode := LexMode_Idle |> <| token := [] |>
    <| quoted_identifier_buf := [] |> <| block_stack := [] |>.
