(* ===== verification/Engine.v ===== *)
(** * [src/sql_parser_engine/engine.rs]: the parser engine

    [SqlParserEngine] with its character loop and line drivers.  The three
    observer callbacks only listen, so the loop returns what it tells them as a
    list of [Event]s in order.  [None] is a panic: an index out of range or a
    [usize] below zero.  The scratch character and preview buffers of the source
    are local to the calls that fill them. *)
From S2P Require Import Prelude RustStr SqlText Boundary EngineText SplitState.

Record SqlParserEngine := mkEngine {
  state : SplitState;
  current : str;
  current_has_non_whitespace : bool;
  statements : list str
}.

#[export] Instance SqlParserEngine_eta : Eta SqlParserEngine := fun e =>
  mkEngine (state e) (current e) (current_has_non_whitespace e) (statements e).

(** What the observers see. *)
Inductive Event :=
| Ev_Symbol (char_idx : nat) (ch : char) (next : option char)
| Ev_Boundary (char_idx : nat)
| Ev_Span (start end_ : nat) (kind : LexicalKind).

#[export] Instance Event_eq_dec : EqDecision Event.
Proof. solve_decision. Defined.

Section Engine.
Context `{UnicodeTables}.

Definition SqlParserEngine_new : SqlParserEngine := mkEngine SplitState_default [] false [].

Definition set_mysql_mode (enabled : bool) (e : SqlParserEngine) : SqlParserEngine :=
  e <| state ::= fun s => s <| mysql_mode := enabled |> |>.

(** A state method called through the engine. *)
Definition on_state (f : SplitState -> SplitState) (e : SqlParserEngine) : SqlParserEngine :=
  e <| state ::= f |>.

Definition current_is_empty (e : SqlParserEngine) : bool := negb (current_has_non_whitespace e).

(** ** The statement buffer *)

Definition append_current_char (ch : char) (e : SqlParserEngine) : SqlParserEngine :=
  let e := if negb (is_whitespace ch) then e <| current_has_non_whitespace := true |> else e in
  e <| current ::= vec_push ch |>.

Definition append_current_str (text : str) (e : SqlParserEngine) : SqlParserEngine :=
  let e :=
    if negb (current_has_non_whitespace e) && existsb (fun ch => negb (is_whitespace ch)) text
    then e <| current_has_non_whitespace := true |> else e in
  e <| current ::= fun cur => cur ++ text |>.

Definition clear_current (e : SqlParserEngine) : SqlParserEngine :=
  e <| current := [] |> <| current_has_non_whitespace := false |>.

Definition push_current_statement (e : SqlParserEngine) : SqlParserEngine :=
  let trimmed := trim (current e) in
  let e := if negb (str_is_empty trimmed) then e <| statements ::= vec_push trimmed |> else e in
  clear_current e.

Definition finish_current_statement (e : SqlParserEngine) : SqlParserEngine :=
  on_state reset_after_statement_boundary (push_current_statement e).

Definition split_current_statement (e : SqlParserEngine) : SqlParserEngine :=
  finish_current_statement e.

Definition clear_block_stack (s : SplitState) : SplitState := s <| block_stack := [] |>.

Definition split_current_and_reset_external_boundary (e : SqlParserEngine) : SqlParserEngine :=
  on_state clear_block_stack (split_current_statement e).

Definition apply_semicolon_action (action : SemicolonAction) (semicolon : char)
    (e : SqlParserEngine) : SqlParserEngine :=
  match action with
  | SemicolonAction_AppendToCurrent => append_current_char semicolon e
  | SemicolonAction_SplitTopLevel => finish_current_statement e
  | SemicolonAction_SplitForcedRoutine => on_state clear_block_stack (finish_current_statement e)
  | SemicolonAction_CloseRoutineBlock =>
      on_state close_external_routine_on_semicolon (append_current_char semicolon e)
  end.

(** Returns whether the line is consumed. *)
Definition apply_line_boundary_action (action : LineBoundaryAction) (e : SqlParserEngine)
    : SqlParserEngine * bool :=
  match action with
  | LineBoundaryAction_None => (e, false)
  | LineBoundaryAction_SplitBeforeLine => (split_current_statement e, false)
  | LineBoundaryAction_SplitAndConsumeLine => (split_current_statement e, true)
  | LineBoundaryAction_ConsumeLine => (e, true)
  end.

Definition append_all (l : str) (e : SqlParserEngine) : SqlParserEngine :=
  fold_left (fun e ch => append_current_char ch e) l e.

(** [for k in 0..n { append(chars[i + k]) }]. *)
Definition append_slice (chars : str) (i n : nat) (e : SqlParserEngine) : option SqlParserEngine :=
  if i + n <=? length chars then Some (append_all (take n (drop i chars)) e) else None.

(** ** Identifiers that may start a statement *)

(** The identifier that starts at [start], upper-cased. *)
Definition preview_identifier_upper (chars : str) (start : nat) : option str :=
  match chars !! start with
  | None => None
  | Some first =>
      if negb (is_identifier_char first) then None
      else
        let fix collect (l : str) : str :=
          match l with
          | ch :: l' => if is_identifier_char ch then ch :: collect l' else []
          | [] => []
          end in
        Some (ascii_upper (collect (drop start chars)))
  end.

Definition identifier_splits_external (candidate_upper : str) (s : SplitState) : bool :=
  let should_split_before_new_statement :=
    should_split_before_new_statement_head s
    && is_statement_head_keyword candidate_upper
    && negb (is_external_language_clause_keyword candidate_upper)
    && negb (is_external_language_target candidate_upper)
    && negb (is_word candidate_upper "BEGIN") in
  let should_split_pending_top_level :=
    pending_implicit_external_top_level_split s
    && negb (is_word candidate_upper "BEGIN")
    && (is_with_main_query_keyword candidate_upper
        || is_statement_head_keyword candidate_upper) in
  should_split_begin_after_implicit_external_semicolon candidate_upper s
  || should_split_before_new_statement
  || should_split_pending_top_level
  || should_split_before_external_begin_block candidate_upper s
  || should_split_before_external_statement_head candidate_upper s.

Definition identifier_external_boundary (candidate_upper : str) (e : SqlParserEngine)
    : SqlParserEngine :=
  let s := state e in
  if (block_depth s =? 1) && (paren_depth s =? 0) then
    if identifier_splits_external candidate_upper s
    then split_current_and_reset_external_boundary e
    else if pending_implicit_external_top_level_split s
    then on_state (fun s => s <| pending_implicit_external_top_level_split := false |>) e
    else e
  else e.

Definition identifier_recovers_with_clause (candidate_upper : str) (s : SplitState) : bool :=
  if with_clause_waiting_main_query s then negb (is_with_main_query_keyword candidate_upper)
  else if with_clause_state s
            == WithClauseState_InPlsqlDeclaration WithDeclarationState_CollectingDeclaration
  then negb (is_with_main_query_keyword candidate_upper)
       && negb (is_with_plsql_declaration_keyword candidate_upper)
       && negb (is_one_of candidate_upper ["BEGIN"; "DECLARE"]%string)
  else false.

Definition identifier_with_boundary (candidate_upper : str) (e : SqlParserEngine)
    : SqlParserEngine :=
  let s := state e in
  if in_with_plsql_declaration s && (paren_depth s =? 0)
     && is_statement_head_keyword candidate_upper
     && identifier_recovers_with_clause candidate_upper s
  then
    let e := if pending_end s == PendingEnd_End
             then on_state resolve_pending_end_on_separator e else e in
    if block_depth (state e) =? 0 then split_current_statement e else e
  else e.

Definition handle_identifier_start_candidate (chars : str) (i : nat) (e : SqlParserEngine)
    : SqlParserEngine :=
  let s := state e in
  let should_preview :=
    str_is_empty (token s)
    && (((block_depth s =? 1) && (paren_depth s =? 0))
        || (in_with_plsql_declaration s && (block_depth s =? 0) && (paren_depth s =? 0))) in
  if negb should_preview then e
  else match preview_identifier_upper chars i with
       | None => e
       | Some candidate_upper =>
           identifier_with_boundary candidate_upper
             (identifier_external_boundary candidate_upper e)
       end.

(** ** One turn of the character loop

    A turn at index [i] on character [c] returns the engine, the next index and
    the events. *)
Definition Turn : Type := option (SqlParserEngine * nat * list Event).

Definition set_lex_mode (m : LexMode) (s : SplitState) : SplitState := s <| lex_mode := m |>.

Definition turn_line_comment (i : nat) (c : char) (e : SqlParserEngine) : Turn :=
  let e := append_current_char c e in
  let e := if N.eqb c 10 then on_state (set_lex_mode LexMode_Idle) e else e in
  Some (e, i + 1, [Ev_Span i (i + 1) LexicalKind_LineComment]).

Definition turn_block_comment (i : nat) (c : char) (next : option char) (e : SqlParserEngine)
    : Turn :=
  if N.eqb c "*"%ch && (next == Some "/"%ch) then
    Some (on_state (set_lex_mode LexMode_Idle)
            (append_current_char "/"%ch (append_current_char c e)),
          i + 2, [Ev_Span i (i + 2) LexicalKind_BlockComment])
  else Some (append_current_char c e, i + 1, [Ev_Span i (i + 1) LexicalKind_BlockComment]).

(** Closing a q-quote level: [depth - 1] on a [usize]. *)
Definition q_quote_close_mode (end_char : char) (depth : nat) : option LexMode :=
  match depth with
  | 0 => None
  | 1 => Some LexMode_Idle
  | S d => Some (LexMode_QQuote end_char d)
  end.

Definition turn_q_quote_body (end_char : char) (depth i : nat) (c : char) (next : option char)
    (e : SqlParserEngine) : Turn :=
  if N.eqb c end_char && (next == Some "'"%ch) then
    match q_quote_close_mode end_char depth with
    | None => None
    | Some m =>
        Some (on_state (set_lex_mode m) (append_current_char "'"%ch (append_current_char c e)),
              i + 2, [Ev_Span i (i + 2) LexicalKind_String])
    end
  else Some (append_current_char c e, i + 1, [Ev_Span i (i + 1) LexicalKind_String]).

Definition turn_q_quote (chars : str) (end_char : char) (depth i : nat) (c : char)
    (next : option char) (e : SqlParserEngine) : Turn :=
  if q_quote_prefix_has_boundary chars i then
    match detect_q_quote_start chars i with
    | Some (prefix_len, nested_end_char) =>
        if N.eqb nested_end_char end_char then
          match append_slice chars i prefix_len e with
          | None => None
          | Some e =>
              Some (on_state (set_lex_mode (LexMode_QQuote end_char (depth + 1))) e,
                    i + prefix_len, [Ev_Span i (i + prefix_len) LexicalKind_String])
          end
        else turn_q_quote_body end_char depth i c next e
    | None => turn_q_quote_body end_char depth i c next e
    end
  else turn_q_quote_body end_char depth i c next e.

Definition turn_foreign_module (chars : str) (i : nat) (c : char) (e : SqlParserEngine) : Turn :=
  if foreign_source_at_line_start (state e) && line_at_is_bare_slash_terminator chars i
  then Some (on_state close_foreign_module_source e, i, [])
  else
    Some (on_state (fun s => s <| foreign_source_at_line_start := N.eqb c 10 |>)
            (append_current_char c e),
          i + 1, [Ev_Span i (i + 1) LexicalKind_String]).

Definition turn_foreign_inline (brace_depth i : nat) (c : char) (e : SqlParserEngine) : Turn :=
  let e := append_current_char c e in
  let brace_depth :=
    if N.eqb c "{"%ch then brace_depth + 1
    else if N.eqb c "}"%ch then brace_depth - 1
    else brace_depth in
  let m := if brace_depth =? 0 then LexMode_Idle else LexMode_ForeignInlineSource brace_depth in
  Some (on_state (set_lex_mode m) e, i + 1, [Ev_Span i (i + 1) LexicalKind_String]).

Definition turn_dollar_quote (chars tag : str) (i : nat) (c : char) (e : SqlParserEngine) : Turn :=
  if N.eqb c "$"%ch && chars_starts_with chars i tag then
    let tag_len := utf8_len tag in
    match append_slice chars i tag_len e with
    | None => None
    | Some e =>
        Some (on_state (set_lex_mode LexMode_Idle) e, i + tag_len,
              [Ev_Span i (i + tag_len) LexicalKind_String])
    end
  else Some (append_current_char c e, i + 1, [Ev_Span i (i + 1) LexicalKind_String]).

(** MySQL's backslash escape inside single and double quotes. *)
Definition mysql_escape (c : char) (next : option char) (s : SplitState) : option char :=
  if mysql_mode s && N.eqb c 92 then next else None.

Definition turn_single_quote (i : nat) (c : char) (next : option char) (e : SqlParserEngine)
    : Turn :=
  let wide := [Ev_Span i (i + 2) LexicalKind_String] in
  match mysql_escape c next (state e) with
  | Some escaped =>
      Some (append_current_char escaped (append_current_char c e), i + 2, wide)
  | None =>
      if N.eqb c "'"%ch then
        if next == Some "'"%ch then
          Some (append_current_char "'"%ch (append_current_char c e), i + 2, wide)
        else Some (on_state (set_lex_mode LexMode_Idle) (append_current_char c e), i + 1,
                   [Ev_Span i (i + 1) LexicalKind_String])
      else Some (append_current_char c e, i + 1, [Ev_Span i (i + 1) LexicalKind_String])
  end.

(** The state work when a double-quoted identifier ends. *)
Definition finish_double_quote (s : SplitState) : SplitState :=
  let '(s, identifier) := finish_quoted_identifier (set_lex_mode LexMode_Idle s) in
  match identifier with
  | Some identifier_upper =>
      resolve_pending_end_on_separator_with_token identifier_upper
        (observe_external_clause_quoted_identifier_target s)
  | None =>
      if pending_end s == PendingEnd_End then resolve_pending_end_on_separator s else s
  end.

(** The code point of a double quote is 34, of a backquote 96. *)
Definition turn_double_quote (i : nat) (c : char) (next : option char) (e : SqlParserEngine)
    : Turn :=
  let wide := [Ev_Span i (i + 2) LexicalKind_QuotedIdentifier] in
  let narrow := [Ev_Span i (i + 1) LexicalKind_QuotedIdentifier] in
  match mysql_escape c next (state e) with
  | Some escaped =>
      Some (append_current_char escaped (append_current_char c e), i + 2, wide)
  | None =>
      if N.eqb c 34 then
        if next == Some 34%N then
          Some (on_state (push_quoted_identifier_char 34%N)
                  (append_current_char 34%N (append_current_char c e)), i + 2, wide)
        else Some (on_state finish_double_quote (append_current_char c e), i + 1, narrow)
      else Some (on_state (push_quoted_identifier_char c) (append_current_char c e), i + 1, narrow)
  end.

(** The state work when a backquoted or bracketed identifier ends. *)
Definition finish_plain_quote (s : SplitState) : SplitState :=
  let s := set_lex_mode LexMode_Idle s in
  if pending_end s == PendingEnd_End then resolve_pending_end_on_separator s else s.

(** Backquotes and brackets share their arm up to the closing character. *)
Definition turn_plain_quote (close : char) (i : nat) (c : char) (next : option char)
    (e : SqlParserEngine) : Turn :=
  let narrow := [Ev_Span i (i + 1) LexicalKind_QuotedIdentifier] in
  if N.eqb c close then
    if next == Some close then
      Some (append_current_char close (append_current_char c e), i + 2,
            [Ev_Span i (i + 2) LexicalKind_QuotedIdentifier])
    else Some (on_state finish_plain_quote (append_current_char c e), i + 1, narrow)
  else Some (append_current_char c e, i + 1, narrow).

(** ** Idle turns *)

(** A comment right after a call spec whose end is still undecided splits first. *)
Definition split_pending_external (e : SqlParserEngine) : SqlParserEngine :=
  let s := state e in
  if pending_implicit_external_top_level_split s && (block_depth s =? 1)
     && (paren_depth s =? 0) && str_is_empty (token s)
  then split_current_statement e else e.

Definition turn_open_dash_comment (i : nat) (e : SqlParserEngine) : Turn :=
  let e := split_pending_external (on_state flush_token e) in
  let e := on_state (set_lex_mode LexMode_LineComment) e in
  Some (append_current_char "-"%ch (append_current_char "-"%ch e), i + 2,
        [Ev_Span i (i + 2) LexicalKind_LineComment]).

Definition turn_open_hash_comment (i : nat) (e : SqlParserEngine) : Turn :=
  let e := on_state (set_lex_mode LexMode_LineComment) (on_state flush_token e) in
  Some (append_current_char "#"%ch e, i + 1, [Ev_Span i (i + 1) LexicalKind_LineComment]).

Definition turn_open_block_comment (i : nat) (e : SqlParserEngine) : Turn :=
  let e := split_pending_external (on_state flush_token e) in
  let e := on_state (set_lex_mode LexMode_BlockComment) e in
  Some (append_current_char "*"%ch (append_current_char "/"%ch e), i + 2,
        [Ev_Span i (i + 2) LexicalKind_BlockComment]).

(** A string literal ends the token before it and may be an awaited target. *)
Definition literal_start (s : SplitState) : SplitState :=
  let s := flush_token s in
  observe_external_clause_literal_target (allow_implicit_external_literal_target s) s.

Definition turn_open_q_quote (chars : str) (i q_prefix_len : nat) (delimiter : char)
    (e : SqlParserEngine) : Turn :=
  let e := on_state (start_q_quote delimiter) (on_state literal_start e) in
  match append_slice chars i q_prefix_len e with
  | None => None
  | Some e => Some (e, i + q_prefix_len, [Ev_Span i (i + q_prefix_len) LexicalKind_String])
  end.

(** The q-quote opener at [i] and its delimiter. *)
Definition q_quote_opener (chars : str) (i : nat) : option (nat * char) :=
  if q_quote_prefix_has_boundary chars i then
    match detect_q_quote_start chars i with
    | Some (q_prefix_len, _) =>
        match chars !! (i + q_prefix_len - 1) with
        | Some delimiter => Some (q_prefix_len, delimiter)
        | None => None
        end
    | None => None
    end
  else None.

(** [n'..'], [b'..'], [x'..'], [u'..'] and [u&'..']. *)
Definition prefixed_quote_len (c : char) (next next2 : option char) : option nat :=
  if is_char_of c "nNbBxXuU" then
    if is_char_of c "uU" && (next == Some "&"%ch) && (next2 == Some "'"%ch) then Some 3
    else if next == Some "'"%ch then Some 2
    else None
  else None.

Definition turn_open_prefixed_quote (chars : str) (i prefix_len : nat) (e : SqlParserEngine)
    : Turn :=
  let e := on_state (set_lex_mode LexMode_SingleQuote) (on_state literal_start e) in
  match append_slice chars i prefix_len e with
  | None => None
  | Some e => Some (e, i + prefix_len, [Ev_Span i (i + prefix_len) LexicalKind_String])
  end.

(** The dollar-quote tag at [i], unless it reads as a conditional-compilation flag. *)
Definition dollar_quote_opener (chars : str) (i : nat) (c : char) (s : SplitState) : option str :=
  if N.eqb c "$"%ch
     && (negb (looks_like_oracle_conditional_compilation_flag chars i)
         || allow_external_dollar_quote_literal_start s)
  then parse_dollar_quote_tag chars i else None.

Definition turn_open_dollar_quote (chars tag : str) (i : nat) (e : SqlParserEngine) : Turn :=
  let tag_len := utf8_len tag in
  match append_slice chars i tag_len (on_state literal_start e) with
  | None => None
  | Some e =>
      Some (on_state (set_lex_mode (LexMode_DollarQuote tag)) e, i + tag_len,
            [Ev_Span i (i + tag_len) LexicalKind_String])
  end.

Definition turn_open_foreign_inline (i : nat) (c : char) (e : SqlParserEngine) : Turn :=
  let e := append_current_char "{"%ch (append_current_char c e) in
  Some (on_state (set_lex_mode (LexMode_ForeignInlineSource 2)) e, i + 2,
        [Ev_Span i (i + 2) LexicalKind_String]).

Definition turn_open_single_quote (i : nat) (c : char) (e : SqlParserEngine) : Turn :=
  let e := on_state (set_lex_mode LexMode_SingleQuote) (on_state literal_start e) in
  Some (append_current_char c e, i + 1, [Ev_Span i (i + 1) LexicalKind_String]).

Definition turn_open_double_quote (i : nat) (c : char) (e : SqlParserEngine) : Turn :=
  let e := on_state (fun s =>
    set_lex_mode LexMode_DoubleQuote
      (begin_quoted_identifier
         (consume_trigger_alias_subject_on_quoted_identifier (flush_token s)))) e in
  Some (append_current_char c e, i + 1, [Ev_Span i (i + 1) LexicalKind_QuotedIdentifier]).

Definition turn_open_plain_quote (m : LexMode) (i : nat) (c : char) (e : SqlParserEngine) : Turn :=
  let e := on_state (set_lex_mode m) (on_state flush_token e) in
  Some (append_current_char c e, i + 1, [Ev_Span i (i + 1) LexicalKind_QuotedIdentifier]).

(** [i > 0 && chars[i - 1] == '$']. *)
Definition follows_dollar (chars : str) (i : nat) : bool :=
  match i with 0 => false | S prev => at_is chars prev "$"%ch end.

Definition push_token_char (chars : str) (i : nat) (c : char) (s : SplitState) : SplitState :=
  let s := if str_is_empty (token s)
           then s <| token_prefixed_with_dollar := follows_dollar chars i |> else s in
  s <| token ::= vec_push c |>.

Definition turn_identifier (chars : str) (i : nat) (c : char) (e : SqlParserEngine) : Turn :=
  let e := handle_identifier_start_candidate chars i e in
  let e := on_state (push_token_char chars i c) e in
  Some (append_current_char c e, i + 1, []).

(** [END BEFORE;] and the like close a timing point by label. *)
Definition has_timing_point_label_end (c : char) (s : SplitState) : bool :=
  N.eqb c ";"%ch && (pending_end s == PendingEnd_End) && allow_timing_point_end_suffix s
  && (eq_ignore_ascii_case (token s) (u "BEFORE") || eq_ignore_ascii_case (token s) (u "AFTER")
      || eq_ignore_ascii_case (token s) (u "INSTEAD")).

Definition flush_before_symbol (c : char) (s : SplitState) : SplitState :=
  if has_timing_point_label_end c s then
    s <| pending_end := PendingEnd_None |> <| token := [] |>
      <| token_prefixed_with_dollar := false |>
  else flush_token s.

Definition if_state_on_symbol (c : char) (s : SplitState) : SplitState :=
  if if_state s == IfState_ExpectConditionStart then
    match IfSymbolEvent_from_char c with
    | IfSymbolEvent_Whitespace => s
    | IfSymbolEvent_OpenParen => s <| if_state := IfState_InConditionParen (paren_depth s + 1) |>
    | IfSymbolEvent_Dot => s <| if_state := IfState_None |>
    | IfSymbolEvent_Other => s <| if_state := IfState_AwaitingThen |>
    end
  else s.

Definition if_state_on_close_paren (role : SymbolRole) (s : SplitState) : SplitState :=
  if role == SymbolRole_CloseParen then
    match if_state s with
    | IfState_InConditionParen depth =>
        if depth =? paren_depth s then s <| if_state := IfState_AwaitingThen |> else s
    | _ => s
    end
  else s.

Definition track_parens (role : SymbolRole) (c : char) (s : SplitState) : SplitState :=
  match role with
  | SymbolRole_OpenParen => push_open_paren c s
  | SymbolRole_CloseParen => pop_close_paren c s
  | _ => s
  end.

Definition pending_end_on_symbol (role : SymbolRole) (s : SplitState) : SplitState :=
  if (pending_end s == PendingEnd_End) && SymbolRole_resolves_pending_end role
  then resolve_pending_end_on_separator s else s.

(** The state work of a symbol, up to the semicolon. *)
Definition symbol_state (c : char) (next : option char) (s : SplitState) : SplitState :=
  let s := flush_before_symbol c s in
  let s := track_with_main_query_symbol c s in
  let s := track_create_plsql_symbol c s in
  let s := observe_external_clause_symbol c next s in
  let role := SymbolRole_from_char c next in
  let s := if_state_on_symbol c s in
  let s := if_state_on_close_paren role s in
  let s := track_parens role c s in
  let s := pending_end_on_symbol role s in
  if N.eqb c ","%ch then advance_with_clause_after_comma s else s.

Definition action_splits (action : SemicolonAction) : bool :=
  match action with
  | SemicolonAction_SplitTopLevel | SemicolonAction_SplitForcedRoutine => true
  | _ => false
  end.

Definition turn_symbol (i : nat) (c : char) (next : option char) (e : SqlParserEngine) : Turn :=
  let e := on_state (symbol_state c next) e in
  if SymbolRole_from_char c next == SymbolRole_Semicolon then
    let e := on_state clear_skip_next_end_label_token e in
    let '(s, semicolon_action) := prepare_semicolon_action (state e) in
    let e := e <| state := s |> in
    Some (apply_semicolon_action semicolon_action c e, i + 1,
          Ev_Symbol i c next
            :: (if action_splits semicolon_action then [Ev_Boundary i] else []))
  else Some (append_current_char c e, i + 1, [Ev_Symbol i c next]).

Definition dash_comment_start (chars : str) (i : nat) (s : SplitState) : bool :=
  if mysql_mode s
  then is_none_or (chars !! (i + 2)) (fun ch => is_whitespace ch || is_control ch)
  else true.

(** The code from an opening delimiter on, and finally identifiers and symbols. *)
Definition turn_idle_quotes (chars : str) (i : nat) (c : char) (next : option char)
    (e : SqlParserEngine) : Turn :=
  let s := state e in
  if N.eqb c "{"%ch && (next == Some "{"%ch) && allows_inline_foreign_source s
     && str_is_empty (token s) then turn_open_foreign_inline i c e
  else if N.eqb c "'"%ch then turn_open_single_quote i c e
  else if N.eqb c 34 then turn_open_double_quote i c e
  else if N.eqb c 96 then turn_open_plain_quote LexMode_BacktickQuote i c e
  else if mysql_mode s && N.eqb c "["%ch then turn_open_plain_quote LexMode_BracketQuote i c e
  else if is_identifier_char c then turn_identifier chars i c e
  else turn_symbol i c next e.

Definition turn_idle_literals (chars : str) (i : nat) (c : char) (next next2 : option char)
    (e : SqlParserEngine) : Turn :=
  if str_is_empty (token (state e)) then
    match q_quote_opener chars i with
    | Some (q_prefix_len, delimiter) => turn_open_q_quote chars i q_prefix_len delimiter e
    | None =>
        match prefixed_quote_len c next next2 with
        | Some prefix_len => turn_open_prefixed_quote chars i prefix_len e
        | None =>
            match dollar_quote_opener chars i c (state e) with
            | Some tag => turn_open_dollar_quote chars tag i e
            | None => turn_idle_quotes chars i c next e
            end
        end
    end
  else turn_idle_quotes chars i c next e.

Definition turn_idle (chars : str) (i : nat) (c : char) (next next2 : option char)
    (e : SqlParserEngine) : Turn :=
  if N.eqb c "-"%ch && (next == Some "-"%ch) && dash_comment_start chars i (state e)
  then turn_open_dash_comment i e
  else if N.eqb c "#"%ch && mysql_mode (state e) then turn_open_hash_comment i e
  else if N.eqb c "/"%ch && (next == Some "*"%ch) then turn_open_block_comment i e
  else turn_idle_literals chars i c next next2 e.

(** ** The loop *)

Definition turn (chars : str) (i : nat) (c : char) (e : SqlParserEngine) : Turn :=
  let next := chars !! (i + 1) in
  let next2 := chars !! (i + 2) in
  match lex_mode (state e) with
  | LexMode_LineComment => turn_line_comment i c e
  | LexMode_BlockComment => turn_block_comment i c next e
  | LexMode_QQuote end_char depth => turn_q_quote chars end_char depth i c next e
  | LexMode_ForeignModuleSource => turn_foreign_module chars i c e
  | LexMode_ForeignInlineSource brace_depth => turn_foreign_inline brace_depth i c e
  | LexMode_DollarQuote tag => turn_dollar_quote chars tag i c e
  | LexMode_SingleQuote => turn_single_quote i c next e
  | LexMode_DoubleQuote => turn_double_quote i c next e
  | LexMode_BacktickQuote => turn_plain_quote 96%N i c next e
  | LexMode_BracketQuote => turn_plain_quote "]"%ch i c next e
  | LexMode_Idle => turn_idle chars i c next next2 e
  end.

(** [while i < len]; [None] also when the fuel runs out. *)
Fixpoint process_chars_loop (fuel : nat) (chars : str) (i : nat) (e : SqlParserEngine)
    : option (SqlParserEngine * list Event) :=
  match chars !! i with
  | None => Some (e, [])
  | Some c =>
      match fuel with
      | 0 => None
      | S fuel =>
          match turn chars i c e with
          | None => None
          | Some (e, i, evs) =>
              match process_chars_loop fuel chars i e with
              | None => None
              | Some (e, evs') => Some (e, evs ++ evs')
              end
          end
      end
  end.

(** Every turn but one moves [i] forward, and the one that leaves foreign source
    is followed by one that does: twice the length is enough. *)
Definition process_chars_with_observer (chars : str) (e : SqlParserEngine)
    : option (SqlParserEngine * list Event) :=
  process_chars_loop (2 * length chars + 1) chars 0 e.

(** ** Questions about the statement buffer *)

Definition current_has_order_by_context (e : SqlParserEngine) : bool :=
  let upper := ascii_upper (current e) in
  str_contains upper (u "ORDER BY") || str_contains upper (u "ORDER SIBLINGS BY").

(** The start of the last line of [tail]. *)
Definition last_line_start (tail : str) : option nat := S <$> str_rfind tail [10%N].

(** The loop that strips trailing block comments and comment-only lines; each
    turn shortens [tail]. *)
Fixpoint strip_trailing_comments (fuel : nat) (tail : str) : str :=
  match fuel with
  | 0 => tail
  | S fuel =>
      if ends_with tail (u "*/") then
        match str_rfind tail (u "/*") with
        | Some open_idx => strip_trailing_comments fuel (trim_end (take open_idx tail))
        | None => tail
        end
      else match last_line_start tail with
           | Some start =>
               if starts_with (trim_start (drop start tail)) (u "--")
               then strip_trailing_comments fuel (trim_end (take start tail))
               else tail
           | None => tail
           end
  end.

Definition current_ends_with_list_continuation_comma (e : SqlParserEngine) : bool :=
  let tail := strip_trailing_comments (length (current e) + 1) (trim_end (current e)) in
  let start := default 0 (last_line_start tail) in
  let last_line := drop start tail in
  let code_part :=
    match str_find last_line (u "--") with Some idx => take idx last_line | None => last_line end in
  let code_trimmed := trim_end code_part in
  if str_is_empty code_trimmed then ends_with (trim_end (take start tail)) (u ",")
  else ends_with code_trimmed (u ",").

Definition starts_with_keyword_pair (first_keyword second_keyword : string) (e : SqlParserEngine)
    : bool :=
  match next_meaningful_word_from (current e) 0 with
  | None => false
  | Some (first, first_end) =>
      if negb (eq_ignore_ascii_case first (u first_keyword)) then false
      else match next_meaningful_word_from (current e) first_end with
           | None => false
           | Some (second, _) => eq_ignore_ascii_case second (u second_keyword)
           end
  end.

Definition starts_with_keyword (keyword : string) (e : SqlParserEngine) : bool :=
  is_some_and (next_meaningful_word_from (current e) 0) (fun w =>
    eq_ignore_ascii_case (fst w) (u keyword)).

Definition starts_with_alter_keyword (keyword : string) (e : SqlParserEngine) : bool :=
  starts_with_keyword_pair "ALTER" keyword e.

Definition starts_with_alter_set_context (e : SqlParserEngine) : bool :=
  starts_with_alter_keyword "SESSION" e || starts_with_alter_keyword "SYSTEM" e.

Definition starts_with_user_account_ddl_context (e : SqlParserEngine) : bool :=
  starts_with_keyword_pair "CREATE" "USER" e || starts_with_keyword_pair "ALTER" "USER" e.

Definition starts_with_analyze_context (e : SqlParserEngine) : bool :=
  starts_with_keyword "ANALYZE" e.

Definition starts_with_table_element_ddl_context (e : SqlParserEngine) : bool :=
  starts_with_keyword "CREATE" e || starts_with_keyword "ALTER" e.

Definition starts_with_mysql_get_diagnostics_context (e : SqlParserEngine) : bool :=
  mysql_mode (state e)
  && (starts_with_keyword_pair "GET" "CURRENT" e || starts_with_keyword_pair "GET" "DIAGNOSTICS" e
      || starts_with_keyword_pair "GET" "STACKED" e).

Definition line_is_mysql_server_statement (line : str) (s : SplitState) : bool :=
  if negb (mysql_mode s) then false
  else match next_meaningful_word_from line 0 with
       | None => false
       | Some (first, first_end) =>
           if is_one_of (ascii_upper first) ["EXECUTE"; "SHOW"; "START"]%string then true
           else eq_ignore_ascii_case first (u "GET")
                && is_some_and (next_meaningful_word_from line first_end) (fun w =>
                     is_one_of (ascii_upper (fst w)) ["CURRENT"; "DIAGNOSTICS"; "STACKED"]%string)
       end.

(** ** Line drivers *)

Definition line_waits_main_query (s : SplitState) : bool :=
  in_with_plsql_declaration s && with_clause_waiting_main_query s
  && (block_depth s =? 0) && (paren_depth s =? 0).

Definition at_idle_top_level (s : SplitState) : bool :=
  is_idle s && (block_depth s =? 0) && (paren_depth s =? 0).

Definition is_line_tool_command (line : str) (s : SplitState) : bool :=
  is_auto_terminated_tool_command line && negb (line_is_mysql_server_statement line s).

(** What both drivers do after the character loop. *)
Definition finish_line (started_empty waited_main_query : bool) (tool_command : SplitState -> bool)
    (e : SqlParserEngine) : SqlParserEngine :=
  let e := on_state clear_skip_next_end_label_token e in
  if (started_empty || waited_main_query) && at_idle_top_level (state e)
     && tool_command (state e)
  then finish_current_statement e else e.

Definition process_line_with_observers_after_boundary (line : str) (e : SqlParserEngine)
    : option (SqlParserEngine * list Event) :=
  let line_started_with_empty_current := current_is_empty e in
  let line_started_in_with_waiting_main_query := line_waits_main_query (state e) in
  match process_chars_with_observer (line ++ [10%N]) e with
  | None => None
  | Some (e, evs) =>
      Some (finish_line line_started_with_empty_current line_started_in_with_waiting_main_query
              (is_line_tool_command line) e, evs)
  end.

(** The boundary a tool command reports: its trailing [;], or the line end. *)
Definition tool_command_boundary (chars : str) : nat :=
  match rposition (fun ch => negb (is_whitespace ch)) chars with
  | Some idx => if at_is chars idx ";"%ch then idx else length chars - 1
  | None => length chars - 1
  end.

Definition process_line_with_observers (line : str) (e : SqlParserEngine)
    : option (SqlParserEngine * list Event) :=
  let line_started_with_empty_current := current_is_empty e in
  let line_started_in_with_waiting_main_query := line_waits_main_query (state e) in
  let chars := line ++ [10%N] in
  let e := on_state (close_foreign_module_source_on_terminator_line line) e in
  let action := line_boundary_action_for_line line line_started_with_empty_current (state e) in
  let '(e, consumed) := apply_line_boundary_action action e in
  if consumed then Some (e, [])
  else if at_idle_top_level (state e) && negb (in_with_plsql_declaration (state e))
          && current_is_empty e && is_line_tool_command line (state e) then
    let e := append_current_char 10%N (append_current_str line e) in
    Some (finish_current_statement e, [Ev_Boundary (tool_command_boundary chars)])
  else
    match process_chars_with_observer chars e with
    | None => None
    | Some (e, evs) =>
        Some (finish_line line_started_with_empty_current line_started_in_with_waiting_main_query
                (is_line_tool_command line) e, evs)
    end.

(** The indices reported as statement boundaries. *)
Definition boundaries (evs : list Event) : list nat :=
  omap (fun ev => match ev with Ev_Boundary i => Some i | _ => None end) evs.

(** With the indices the boundary observer hears. *)
Definition process_line_with_boundary_observer (line : str) (e : SqlParserEngine)
    : option (SqlParserEngine * list nat) :=
  match process_line_with_observers line e with
  | None => None
  | Some (e, evs) => Some (e, boundaries evs)
  end.

(** The byte offset of each character of [line] and of the newline after it. *)
Definition char_to_byte (line : str) : list nat :=
  (byte_offset line <$> seq 0 (length line)) ++ [utf8_len line].

(** The closure that turns a symbol into a byte of [line]. *)
Definition symbol_byte (line : str) (ev : Event) : option (nat * char) :=
  match ev with
  | Ev_Symbol char_idx ch _ =>
      if negb (is_ascii ch) then None
      else
        let byte_idx := default (utf8_len line) (char_to_byte line !! char_idx) in
        if byte_idx <? utf8_len line then Some (byte_idx, ch) else None
  | _ => None
  end.

(** With the byte offsets and ASCII symbols the byte observer hears. *)
Definition process_line_with_byte_observer (line : str) (e : SqlParserEngine)
    : option (SqlParserEngine * list (nat * char)) :=
  match process_line_with_observers line e with
  | None => None
  | Some (e, evs) => Some (e, omap (symbol_byte line) evs)
  end.

Definition process_line (line : str) (e : SqlParserEngine) : option SqlParserEngine :=
  fst <$> process_line_with_observers line e.

Definition process_splitter_line (line : str) (e : SqlParserEngine) : option SqlParserEngine :=
  fst <$> process_line_with_observers_after_boundary line e.

Definition engine_prepare_splitter_line_boundary (line : str) (e : SqlParserEngine)
    : SqlParserEngine :=
  let e := if is_idle (state e) && line_starts_with_consumed_slash_terminator line
           then on_state flush_token e else e in
  on_state (prepare_splitter_line_boundary line) e.

(** ** Ending a script *)

Definition take_statements (e : SqlParserEngine) : SqlParserEngine * list str :=
  (e <| statements := [] |>, statements e).

Definition force_terminate (e : SqlParserEngine) : SqlParserEngine :=
  finish_current_statement (on_state force_reset_all e).

Definition finalize (e : SqlParserEngine) : SqlParserEngine :=
  finish_current_statement (on_state resolve_pending_end_on_eof (on_state flush_token e)).

Definition process_line_and_take_statements (line : str) (e : SqlParserEngine)
    : option (SqlParserEngine * list str) :=
  take_statements <$> process_line line e.

Definition process_line_and_take_statements_with_boundary_observer (line : str)
    (e : SqlParserEngine) : option (SqlParserEngine * list str * list nat) :=
  match process_line_with_boundary_observer line e with
  | None => None
  | Some (e, bs) => Some (take_statements e, bs)
  end.

Definition process_splitter_line_and_take_statements (line : str) (e : SqlParserEngine)
    : option (SqlParserEngine * list str) :=
  take_statements <$> process_splitter_line line e.

Definition force_terminate_and_take_statements (e : SqlParserEngine)
    : SqlParserEngine * list str := take_statements (force_terminate e).

Definition finalize_and_take_statements (e : SqlParserEngine) : SqlParserEngine * list str :=
  take_statements (finalize e).

(** ** The lexical scan of a whole text *)

Definition shift_event (k : nat) (ev : Event) : Event :=
  match ev with
  | Ev_Symbol i c next => Ev_Symbol (k + i) c next
  | Ev_Boundary i => Ev_Boundary (k + i)
  | Ev_Span a b kind => Ev_Span (k + a) (k + b) kind
  end.

Definition only_spans (evs : list Event) : list Event :=
  List.filter (fun ev => match ev with Ev_Span _ _ _ => true | _ => false end) evs.

(** One turn of the line loop: [line] without its newline, [chunk] with it. *)
Definition scan_text_line (line chunk : str) (e : SqlParserEngine)
    : option (SqlParserEngine * list Event) :=
  let line_started_with_empty_current := current_is_empty e in
  let current_has_only_sql_comments := next_meaningful_word_from (current e) 0 == None in
  let current_is_effectively_empty :=
    line_started_with_empty_current || current_has_only_sql_comments in
  let line_started_in_with_waiting_main_query := line_waits_main_query (state e) in
  let e := on_state (close_foreign_module_source_on_terminator_line line) e in
  let action := line_boundary_action_for_line line current_is_effectively_empty (state e) in
  let '(e, consumed) := apply_line_boundary_action action e in
  if consumed then Some (e, [])
  else
    let line_starts_at_statement_boundary :=
      at_idle_top_level (state e) && negb (in_with_plsql_declaration (state e))
      && current_is_effectively_empty in
    let auto_terminated_tool_command :=
      is_sqlplus_remark_comment_line line || is_line_tool_command line (state e) in
    if (line_starts_at_statement_boundary
        || (line_started_in_with_waiting_main_query && is_idle (state e)))
       && auto_terminated_tool_command
    then
      let is_comment_like_tool_line :=
        is_some_and (first_meaningful_word line) (fun word =>
          eq_ignore_ascii_case word (u "PROMPT")) in
      let e := append_current_str line e in
      let e := if length line <? length chunk then append_current_char 10%N e else e in
      Some (finish_current_statement e,
            if is_comment_like_tool_line
            then [Ev_Span 0 (length line) LexicalKind_LineComment] else [])
    else
      match process_chars_with_observer chunk e with
      | None => None
      | Some (e, evs) =>
          Some (finish_line line_started_with_empty_current
                  line_started_in_with_waiting_main_query
                  (fun _ => auto_terminated_tool_command) e, only_spans evs)
      end.

(** The [while line_start < len] loop; each turn consumes at least a newline. *)
Fixpoint scan_text_loop (fuel line_start : nat) (rest : str) (e : SqlParserEngine)
    : option (SqlParserEngine * list Event) :=
  match rest with
  | [] => Some (e, [])
  | _ =>
      match fuel with
      | 0 => None
      | S fuel =>
          let line_len := default (length rest) (str_find rest [10%N]) in
          let chunk_len := Nat.min (line_len + 1) (length rest) in
          match scan_text_line (take line_len rest) (take chunk_len rest) e with
          | None => None
          | Some (e, evs) =>
              match scan_text_loop fuel (line_start + chunk_len) (drop chunk_len rest) e with
              | None => None
              | Some (e, evs') => Some (e, (shift_event line_start <$> evs) ++ evs')
              end
          end
      end
  end.

Definition process_text_with_lexical_observer (text : str) (e : SqlParserEngine)
    : option (SqlParserEngine * list Event) :=
  scan_text_loop (length text) 0 text e.

(** The closure that turns an observed character range into a byte span. *)
Definition observe_span (text : str) (spans : list LexicalSpan) (ev : Event) : list LexicalSpan :=
  match ev with
  | Ev_Span char_start char_end kind =>
      if (char_start <=? length text) && (char_end <=? length text)
      then push_lexical_span spans (byte_offset text char_start) (byte_offset text char_end) kind
      else spans
  | _ => spans
  end.

Definition lexical_spans_with_initial_mode (text : str) (mysql : bool) (initial_mode : LexMode)
    : option (list LexicalSpan * LexMode) :=
  let e := set_mysql_mode mysql SqlParserEngine_new in
  let e := on_state (set_lex_mode initial_mode) e in
  match process_text_with_lexical_observer text e with
  | None => None
  | Some (e, evs) => Some (fold_left (observe_span text) evs [], lex_mode (state e))
  end.

Definition lexical_spans (text : str) (mysql : bool) : option (list LexicalSpan) :=
  fst <$> lexical_spans_with_initial_mode text mysql LexMode_Idle.

End Engine.

(** Tables for evaluation: no letters or digits outside ASCII but Latin-1
    letters and Hangul syllables. *)
Definition sample_tables : UnicodeTables := {|
  alphabetic_table c := in_range 192 255 c || in_range 44032 55203 c;
  numeric_table c := false
|}.
