(* ===== verification/SplitFrame.v ===== *)
(** * What the parser-state operations leave alone

    [framed s s'] says that a step from [s] to [s'] did not touch the lexer
    fields: the dialect, the lexer mode, the parentheses, the pending token and
    the quoted-identifier buffer; and that it kept every routine frame coherent
    ([frame_ok]).  Every operation of [SplitState] that reads a
    word or resolves a block is framed; the few that are not are stated with
    what they do.  The relation is a preorder, so a composition of framed steps
    is framed, and the hint database [frame] holds one lemma per operation. *)
From S2P Require Import Prelude RustStr SqlText Boundary EngineText SplitState.

(** A routine frame belongs to an open block, a top-level policy only to the
    outermost one, and the policy that closes a nested routine to the others. *)
Definition frame_ok (f : RoutineFrame) : Prop :=
  1 <= frame_block_depth f /\
  match semicolon_policy f with
  | SemicolonPolicy_Default => True
  | SemicolonPolicy_ForceSplit
  | SemicolonPolicy_AwaitingImplicitTopLevelDecision => frame_block_depth f = 1
  | SemicolonPolicy_CloseRoutineBlock => frame_block_depth f <> 1
  end.

Definition frames_ok (s : SplitState) : Prop := Forall frame_ok (routine_is_stack s).

Record framed (s s' : SplitState) : Prop := mkFramed {
  framed_mysql : mysql_mode s' = mysql_mode s;
  framed_lex : lex_mode s' = lex_mode s;
  framed_parens : paren_stack s' = paren_stack s;
  framed_depth : paren_depth s' = paren_depth s;
  framed_token : token s' = token s;
  framed_dollar : token_prefixed_with_dollar s' = token_prefixed_with_dollar s;
  framed_quoted : quoted_identifier_buf s' = quoted_identifier_buf s;
  framed_frames : frames_ok s -> frames_ok s'
}.

#[export] Instance framed_preorder : PreOrder framed.
Proof.
  split; [by intros s; constructor|].
  intros s1 s2 s3 [] []. constructor; try congruence; auto.
Qed.

(** Splits the conditionals of a step and peels field updates and framed calls
    off its result, innermost last. *)
Ltac framed_tac :=
  repeat first
    [ match goal with
      | |- framed ?s ?s => exact (reflexivity (R := framed) s)
      | |- framed _ (if ?b then _ else _) => destruct b eqn:?
      | |- framed _ (match ?x with _ => _ end) => destruct x eqn:?
      | |- framed _ (upd _ _ ?t) => transitivity t; [|by constructor]
      | |- framed ?s _ => eapply (transitivity (R := framed) (x := s));
                          [|solve [eauto with frame nocore]]
      end ].

Ltac framed_unfold op := intros; unfold op; cbv zeta; framed_tac.

(** ** Routine frames *)

Lemma mark_external_clause_ok f : frame_ok f -> frame_ok (mark_external_clause f).
Proof.
  intros [Hd _]. split; [done|]. unfold mark_external_clause. simpl.
  by destruct (Nat.eqb_spec (frame_block_depth f) 1).
Qed.

Lemma mark_implicit_ok f : frame_ok f -> frame_ok (mark_implicit_language_target_on_semicolon f).
Proof.
  intros [Hd _]. split; [done|]. unfold mark_implicit_language_target_on_semicolon. simpl.
  by destruct (Nat.eqb_spec (frame_block_depth f) 1).
Qed.

(** The frame machine keeps a frame coherent: only the two marks above touch its
    policy. *)
Ltac frame_ok_tac :=
  repeat first
    [ assumption
    | match goal with
      | |- frame_ok (if ?b then _ else _) => destruct b eqn:?
      | |- frame_ok (match ?x with _ => _ end) => destruct x eqn:?
      | |- frame_ok (mark_external_clause _) => apply mark_external_clause_ok
      | |- frame_ok (upd _ _ (mark_implicit_language_target_on_semicolon ?g)) =>
          change (frame_ok (mark_implicit_language_target_on_semicolon g))
      | |- frame_ok (mark_implicit_language_target_on_semicolon _) => apply mark_implicit_ok
      | |- frame_ok (set_clause _ ?f) => change (frame_ok f)
      | |- frame_ok (upd _ _ ?f) => change (frame_ok f)
      end ].

Lemma observe_token_ok w b f : frame_ok f -> frame_ok (frame_observe_external_clause_token w b f).
Proof.
  intros Hf. unfold frame_observe_external_clause_token.
  assert (Ht : match observe_language_target_token w b f with
               | inl g | inr g => frame_ok g end).
  { unfold observe_language_target_token. cbv zeta. repeat case_match; simplify_eq; frame_ok_tac. }
  destruct (observe_language_target_token w b f) as [g|g]; [done|].
  unfold observe_clause_keyword_token. cbv zeta. frame_ok_tac.
Qed.

Lemma observe_quoted_target_ok f :
  frame_ok f -> frame_ok (frame_observe_external_clause_quoted_identifier_target f).
Proof.
  intros Hf. unfold frame_observe_external_clause_quoted_identifier_target. frame_ok_tac.
Qed.

Lemma observe_literal_target_ok b f :
  frame_ok f -> frame_ok (frame_observe_external_clause_literal_target b f).
Proof.
  intros Hf. unfold frame_observe_external_clause_literal_target. cbv zeta. frame_ok_tac.
Qed.

Lemma observe_symbol_ok c n f : frame_ok f -> frame_ok (frame_observe_external_clause_symbol c n f).
Proof. intros Hf. unfold frame_observe_external_clause_symbol. frame_ok_tac. Qed.

Lemma finalize_clause_ok b f :
  frame_ok f -> frame_ok (frame_finalize_external_clause_on_semicolon b f).
Proof. intros Hf. unfold frame_finalize_external_clause_on_semicolon. frame_ok_tac. Qed.

Lemma active_routine_frame_last s f :
  active_routine_frame s = Some f ->
  last (routine_is_stack s) = Some f /\ frame_block_depth f = block_depth s.
Proof.
  unfold active_routine_frame. intros Ha. repeat case_match; simplify_eq.
  split; [done|]. by apply Nat.eqb_eq.
Qed.

Lemma frames_ok_last s f : frames_ok s -> last (routine_is_stack s) = Some f -> frame_ok f.
Proof.
  intros Hs Hl. apply last_Some in Hl as [l Hl]. unfold frames_ok in Hs.
  rewrite Hl, Forall_app, Forall_singleton in Hs. tauto.
Qed.

Lemma Forall_vec_pop {A} (P : A -> Prop) (l : list A) : Forall P l -> Forall P (vec_pop l).
Proof.
  unfold vec_pop. induction 1 as [|x l Hx Hl IH]; simpl; [constructor|].
  destruct l; [constructor|by constructor].
Qed.

Lemma pop_frame_framed s : framed s (s <| routine_is_stack ::= vec_pop |>).
Proof. constructor; try done. apply Forall_vec_pop. Qed.

(** Replacing the active frame by a coherent one. *)
Lemma replace_frame_framed s f g :
  active_routine_frame s = Some f -> (frames_ok s -> frame_ok f -> frame_ok g) ->
  framed s (s <| routine_is_stack ::= fun v => vec_pop v ++ [g] |>).
Proof.
  intros [Hl _]%active_routine_frame_last Hg. constructor; try done. intros Hs.
  unfold frames_ok. simpl. apply Forall_app. split; [by apply Forall_vec_pop|].
  constructor; [|done]. apply Hg; [done|]. by eapply frames_ok_last.
Qed.

Lemma push_routine_frame_framed s : 0 < block_depth s -> framed s (push_routine_frame s).
Proof.
  intros Hd. constructor; try done. intros Hs. unfold frames_ok, push_routine_frame, vec_push.
  simpl. apply Forall_app. split; [done|]. constructor; [|done]. by split.
Qed.

#[export] Hint Resolve pop_frame_framed : frame.

(** ** Blocks and END *)

Lemma push_block_framed k s : framed s (push_block k s).
Proof. by constructor. Qed.

#[export] Hint Resolve push_block_framed : frame.

Lemma reset_create_tracking_state_framed s : framed s (reset_create_tracking_state s).
Proof. constructor; try done. intros _. by constructor. Qed.

#[export] Hint Resolve reset_create_tracking_state_framed : frame.

Lemma resolve_plain_end_framed w s : framed s (resolve_plain_end w s).
Proof. framed_unfold resolve_plain_end. Qed.

#[export] Hint Resolve resolve_plain_end_framed : frame.

Lemma resolve_pending_end_with_policy_framed p s : framed s (resolve_pending_end_with_policy p s).
Proof. framed_unfold resolve_pending_end_with_policy. Qed.

#[export] Hint Resolve resolve_pending_end_with_policy_framed : frame.

Lemma resolve_pending_end_on_separator_framed s : framed s (resolve_pending_end_on_separator s).
Proof. framed_unfold resolve_pending_end_on_separator. Qed.

Lemma push_pending_end_label_segment_framed w s : framed s (push_pending_end_label_segment w s).
Proof. framed_unfold push_pending_end_label_segment. Qed.

#[export] Hint Resolve resolve_pending_end_on_separator_framed
  push_pending_end_label_segment_framed : frame.

Lemma resolve_pending_end_on_separator_with_token_framed w s :
  framed s (resolve_pending_end_on_separator_with_token w s).
Proof. framed_unfold resolve_pending_end_on_separator_with_token. Qed.

Lemma resolve_pending_end_on_terminator_framed s : framed s (resolve_pending_end_on_terminator s).
Proof. framed_unfold resolve_pending_end_on_terminator. Qed.

Lemma resolve_pending_end_on_eof_framed s : framed s (resolve_pending_end_on_eof s).
Proof. framed_unfold resolve_pending_end_on_eof. Qed.

#[export] Hint Resolve resolve_pending_end_on_separator_with_token_framed
  resolve_pending_end_on_terminator_framed resolve_pending_end_on_eof_framed : frame.

Lemma pop_block_of_kind_framed k s : framed s (fst (pop_block_of_kind k s)).
Proof. unfold pop_block_of_kind. by case_match. Qed.

Lemma pop_top_matching_block_framed ks s : framed s (fst (pop_top_matching_block ks s)).
Proof.
  revert s. induction ks as [|k ks IH]; intros s; simpl; [done|].
  pose proof (pop_block_of_kind_framed k s) as Hk.
  destruct (pop_block_of_kind k s) as [s' []]; simpl in *; [done|]. by transitivity s'.
Qed.

Lemma apply_suffix_to_state_framed x s : framed s (fst (apply_suffix_to_state x s)).
Proof.
  unfold apply_suffix_to_state.
  match goal with |- context [let '(s, popped) := ?p in _] =>
    set (q := p); assert (Hp : framed s (fst q)); subst q end.
  { destruct x; try apply pop_top_matching_block_framed.
    - unfold pop_case_block. by case_match.
    - unfold pop_timing_point_block. by case_match. }
  match goal with |- context [let '(s, popped) := ?p in _] => destruct p as [s' popped] end.
  simpl in Hp. case_match; simpl; [|done].
  etransitivity; [exact Hp | by constructor].
Qed.

Lemma handle_pending_end_on_token_framed w x s :
  framed s (fst (handle_pending_end_on_token w x s)).
Proof.
  unfold handle_pending_end_on_token, finish_pending_end.
  destruct (pending_end s != PendingEnd_End); [done|].
  case_match; cbn [fst]; [framed_tac|].
  case_match; cbn [fst]; [framed_tac|].
  destruct x as [x|].
  - pose proof (apply_suffix_to_state_framed x s) as Hx.
    destruct (apply_suffix_to_state x s) as [s' closed]; cbn [fst] in *.
    transitivity s'; [done|]. cbv zeta. case_match; cbn [fst]; framed_tac.
  - cbv zeta. case_match; cbn [fst]; framed_tac.
Qed.

(** ** External clauses *)

Lemma update_active_routine_frame_framed f s :
  (forall g, frame_ok g -> frame_ok (f g)) -> framed s (update_active_routine_frame f s).
Proof.
  intros Hf. unfold update_active_routine_frame. destruct (active_routine_frame s) eqn:Ha; [|done].
  eapply replace_frame_framed; [done|]. auto.
Qed.

#[export] Hint Resolve update_active_routine_frame_framed mark_external_clause_ok observe_token_ok
  observe_quoted_target_ok observe_literal_target_ok observe_symbol_ok : frame.

Lemma handle_routine_is_external_framed w s : framed s (handle_routine_is_external w s).
Proof. framed_unfold handle_routine_is_external. Qed.

Lemma observe_external_clause_literal_target_framed b s :
  framed s (observe_external_clause_literal_target b s).
Proof. framed_unfold observe_external_clause_literal_target. Qed.

Lemma observe_external_clause_quoted_identifier_target_framed s :
  framed s (observe_external_clause_quoted_identifier_target s).
Proof. framed_unfold observe_external_clause_quoted_identifier_target. Qed.

Lemma observe_external_clause_symbol_framed c n s :
  framed s (observe_external_clause_symbol c n s).
Proof. framed_unfold observe_external_clause_symbol. Qed.

Lemma finalize_external_clause_on_semicolon_framed s :
  framed s (finalize_external_clause_on_semicolon s).
Proof.
  unfold finalize_external_clause_on_semicolon. cbv zeta.
  destruct (active_routine_frame s) as [f|] eqn:Ha; [|done].
  match goal with |- framed _ (if _ then upd _ _ ?t else _) =>
    transitivity t; [|by case_match; constructor] end.
  eapply replace_frame_framed; [done|]. intros _. apply finalize_clause_ok.
Qed.

Lemma close_external_routine_on_semicolon_framed s :
  framed s (close_external_routine_on_semicolon s).
Proof. framed_unfold close_external_routine_on_semicolon. Qed.

Lemma consume_trigger_alias_framed s :
  framed s (consume_trigger_alias_subject_on_quoted_identifier s).
Proof. framed_unfold consume_trigger_alias_subject_on_quoted_identifier. Qed.

#[export] Hint Resolve handle_routine_is_external_framed
  observe_external_clause_literal_target_framed
  observe_external_clause_quoted_identifier_target_framed observe_external_clause_symbol_framed
  finalize_external_clause_on_semicolon_framed close_external_routine_on_semicolon_framed
  consume_trigger_alias_framed : frame.

(** ** CREATE and WITH tracking *)

Lemma track_known_create_framed w s : framed s (track_known_create w s).
Proof. framed_unfold track_known_create. Qed.

Lemma track_object_type_framed w s s' :
  track_object_type w s = inl s' \/ track_object_type w s = inr s' -> framed s s'.
Proof.
  unfold track_object_type. cbv zeta.
  intros [Hs|Hs]; repeat case_match; simplify_eq; framed_tac.
Qed.

Lemma track_new_create_framed w s : framed s (track_new_create w s).
Proof.
  unfold track_new_create. cbv zeta.
  do 3 (case_match; [framed_tac|]).
  match goal with |- framed _ (match track_object_type w ?t with _ => _ end) =>
    assert (Ht : framed s t) by framed_tac; revert Ht; generalize t end.
  intros t Ht. destruct (track_object_type w t) as [t'|t'] eqn:E;
    (assert (framed t t') by (apply (track_object_type_framed w); auto));
    (transitivity t; [done|]); [done|].
  transitivity t'; [done|]. framed_tac.
Qed.

#[export] Hint Resolve track_known_create_framed track_new_create_framed : frame.

Lemma track_create_plsql_framed w s : framed s (track_create_plsql w s).
Proof. framed_unfold track_create_plsql. Qed.

Lemma track_create_plsql_symbol_framed c s : framed s (track_create_plsql_symbol c s).
Proof. framed_unfold track_create_plsql_symbol. Qed.

Lemma track_sql_macro_call_spec_framed w b s : framed s (track_sql_macro_call_spec w b s).
Proof. by constructor. Qed.

Lemma confirm_sql_macro_framed s : framed s (confirm_sql_macro_call_spec_on_terminator s).
Proof. framed_unfold confirm_sql_macro_call_spec_on_terminator. Qed.

Lemma leave_with_clause_framed s : framed s (leave_with_clause s).
Proof. by constructor. Qed.

#[export] Hint Resolve track_create_plsql_framed track_create_plsql_symbol_framed
  track_sql_macro_call_spec_framed confirm_sql_macro_framed leave_with_clause_framed : frame.

Lemma track_top_level_with_plsql_framed w b s : framed s (track_top_level_with_plsql w b s).
Proof. framed_unfold track_top_level_with_plsql. Qed.

Lemma track_with_main_query_symbol_framed c s : framed s (track_with_main_query_symbol c s).
Proof. framed_unfold track_with_main_query_symbol. Qed.

Lemma advance_with_clause_after_comma_framed s : framed s (advance_with_clause_after_comma s).
Proof. framed_unfold advance_with_clause_after_comma. Qed.

Lemma advance_with_clause_after_semicolon_framed s :
  framed s (advance_with_clause_after_semicolon s).
Proof. framed_unfold advance_with_clause_after_semicolon. Qed.

#[export] Hint Resolve track_top_level_with_plsql_framed track_with_main_query_symbol_framed
  advance_with_clause_after_comma_framed advance_with_clause_after_semicolon_framed : frame.

(** ** Block openers *)

Lemma track_trigger_alias_framed w s : framed s (track_trigger_alias w s).
Proof. framed_unfold track_trigger_alias. Qed.

Lemma drop_stale_compound_keyword_framed w s : framed s (drop_stale_compound_keyword w s).
Proof. framed_unfold drop_stale_compound_keyword. Qed.

Lemma open_case_framed w r s : framed s (open_case w r s).
Proof. framed_unfold open_case. Qed.

Lemma arm_if_framed w r s : framed s (arm_if w r s).
Proof. framed_unfold arm_if. Qed.

Lemma open_then_framed w s : framed s (open_then w s).
Proof. framed_unfold open_then. Qed.

Lemma open_loop_framed w r s : framed s (open_loop w r s).
Proof. framed_unfold open_loop. Qed.

Lemma open_repeat_framed w r s : framed s (open_repeat w r s).
Proof. framed_unfold open_repeat. Qed.

Lemma arm_while_for_framed w r s : framed s (arm_while_for w r s).
Proof. framed_unfold arm_while_for. Qed.

Lemma open_do_framed w s : framed s (open_do w s).
Proof. framed_unfold open_do. Qed.

Lemma trigger_call_body_framed w s : framed s (trigger_call_body w s).
Proof.
  unfold trigger_call_body. case_match eqn:Hg; [|done].
  match goal with |- framed _ (upd _ _ ?t) => transitivity t; [|by constructor] end.
  unfold update_active_routine_frame. destruct (active_routine_frame s) as [f|] eqn:Ha; [|done].
  eapply replace_frame_framed; [done|]. intros _ [Hd _]. split; [done|]. simpl.
  apply active_routine_frame_last in Ha as [_ ->].
  rewrite !andb_true_iff in Hg. by destruct Hg as [[[_ ->%Nat.eqb_eq] _] _].
Qed.

#[export] Hint Resolve track_trigger_alias_framed drop_stale_compound_keyword_framed
  open_case_framed arm_if_framed open_then_framed open_loop_framed open_repeat_framed
  arm_while_for_framed open_do_framed trigger_call_body_framed : frame.

Lemma timing_point_begin_framed w s : framed s (timing_point_begin w s).
Proof.
  unfold timing_point_begin. case_match; [|done].
  match goal with |- framed _ (upd _ _ (push_routine_frame ?t)) =>
    transitivity t; [framed_tac|transitivity (push_routine_frame t); [|by constructor]] end.
  apply push_routine_frame_framed. unfold block_depth, push_block, vec_push. simpl.
  rewrite length_app. simpl. lia.
Qed.

Lemma undo_type_as_is_framed w s : framed s (undo_type_as_is w s).
Proof. framed_unfold undo_type_as_is. Qed.

Lemma await_nested_subprogram_framed w s : framed s (await_nested_subprogram w s).
Proof. framed_unfold await_nested_subprogram. Qed.

Lemma open_as_is_framed b s : framed s (open_as_is b s).
Proof.
  unfold open_as_is. cbv zeta.
  set (k := if b == AsIsBlockStart_TimingPoint then BlockKind_TimingPoint else BlockKind_AsIs).
  match goal with |- framed _ (if _ then upd _ _ (upd _ _ (push_routine_frame ?t)) else _) =>
    assert (Ht : framed s t); [framed_tac|];
    assert (Hd : 0 < block_depth t) end.
  { unfold block_depth. destruct (_ && _); cbn [block_stack upd push_block]; unfold vec_push;
      rewrite length_app; simpl; lia. }
  revert Ht Hd. match goal with |- framed _ ?t -> _ => generalize t end.
  intros t Ht Hd. transitivity t; [done|]. case_match; [|done].
  transitivity (push_routine_frame t); [by apply push_routine_frame_framed|]. framed_tac.
Qed.

Lemma open_begin_framed s : framed s (open_begin s).
Proof. framed_unfold open_begin. Qed.

Lemma mark_compound_trigger_framed s : framed s (mark_compound_trigger s).
Proof. framed_unfold mark_compound_trigger. Qed.

#[export] Hint Resolve timing_point_begin_framed undo_type_as_is_framed
  await_nested_subprogram_framed open_as_is_framed open_begin_framed
  mark_compound_trigger_framed : frame.

Lemma open_scope_framed w r s : framed s (open_scope w r s).
Proof. framed_unfold open_scope. Qed.

#[export] Hint Resolve open_scope_framed : frame.

Lemma handle_block_openers_framed w r s : framed s (handle_block_openers w r s).
Proof. framed_unfold handle_block_openers. Qed.

Lemma handle_if_state_on_token_framed w s : framed s (handle_if_state_on_token w s).
Proof. framed_unfold handle_if_state_on_token. Qed.

#[export] Hint Resolve handle_block_openers_framed handle_if_state_on_token_framed : frame.

(** ** Tokens *)

Lemma flush_trackers_framed w b s : framed s (flush_trackers w b s).
Proof. framed_unfold flush_trackers. Qed.

Lemma flush_blocks_framed w s : framed s (flush_blocks w s).
Proof.
  unfold flush_blocks. cbv zeta. do 2 (case_match; [done|]).
  match goal with |- context [handle_pending_end_on_token w ?x ?t] =>
    pose proof (handle_pending_end_on_token_framed w x t) as Hp;
    assert (framed s t) by framed_tac;
    destruct (handle_pending_end_on_token w x t) as [s' consumed]
  end.
  transitivity (handle_if_state_on_token w s); [done|].
  transitivity s'; [exact Hp|]. framed_tac.
Qed.

#[export] Hint Resolve flush_trackers_framed flush_blocks_framed : frame.

(** [flush_token] consumes the pending token and may enter the foreign source of
    an MLE module; it changes no other lexer field. *)
Record flushed (s s' : SplitState) : Prop := mkFlushed {
  flushed_mysql : mysql_mode s' = mysql_mode s;
  flushed_lex : lex_mode s' = lex_mode s \/ lex_mode s' = LexMode_ForeignModuleSource;
  flushed_parens : paren_stack s' = paren_stack s;
  flushed_depth : paren_depth s' = paren_depth s;
  flushed_token : token s' = [];
  flushed_quoted : quoted_identifier_buf s' = quoted_identifier_buf s;
  flushed_frames : frames_ok s -> frames_ok s'
}.

Lemma flush_token_flushed s : flushed s (flush_token s).
Proof.
  unfold flush_token, track_foreign_source_body. cbv zeta.
  destruct (str_is_empty (token s)) eqn:Ht.
  { constructor; auto. by destruct (token s). }
  match goal with |- context [flush_blocks ?w ?t] =>
    assert (Hf : framed s (flush_blocks w t)) by framed_tac;
    revert Hf; generalize (flush_blocks w t) end.
  intros t [].
  repeat match goal with |- context [if ?b then _ else _] => destruct b end;
    constructor; simpl; auto.
Qed.

Lemma flush_token_dollar s :
  (token s = [] -> token_prefixed_with_dollar s = false) ->
  token_prefixed_with_dollar (flush_token s) = false.
Proof.
  intros Hd. unfold flush_token. cbv zeta.
  destruct (str_is_empty (token s)) eqn:Ht; [apply Hd; by destruct (token s)|].
  by case_match.
Qed.
