(* ===== verification/EngineTurn.v ===== *)
(** * The abstract step of the character loop

    [TurnShape] says all that a turn may do to the text the engine holds: copy a
    run of input verbatim into the statement buffer (a lexical run, reported as
    a span, or one character of code), finish the statement at a semicolon and
    drop that semicolon, or stay in place when foreign source ends.  The turn of
    [Engine] refines it on every branch and never panics as long as the lexer
    mode is well-formed. *)
From S2P Require Import Prelude RustStr SqlText Boundary EngineText SplitState Engine SplitFrame.

(** A q-quote is at least one level deep and a dollar-quote tag is a non-empty
    ASCII string: what the openers establish, and what the closers rely on. *)
Definition mode_ok (m : LexMode) : Prop :=
  match m with
  | LexMode_QQuote _ depth => 1 <= depth
  | LexMode_DollarQuote tag => tag <> [] /\ Forall (fun c => is_ascii c = true) tag
  | _ => True
  end.

(** The text an engine holds. *)
Definition text_of (e : SqlParserEngine) : list str * str * bool :=
  (statements e, current e, current_has_non_whitespace e).

(** [settles e e']: [e'] holds the text of [e], the open statement possibly
    pushed to the finished ones. *)
Inductive settles (e : SqlParserEngine) : SqlParserEngine -> Prop :=
| settles_same e' : text_of e' = text_of e -> settles e e'
| settles_split e1 e' :
    settles e e1 -> text_of e' = text_of (push_current_statement e1) -> settles e e'.

Inductive TurnShape (chars : str) (i : nat) (e : SqlParserEngine)
    : SqlParserEngine -> nat -> list Event -> Prop :=
| Shape_Lexical kind n e0 e' :
    0 < n -> i + n <= length chars -> settles e e0 ->
    text_of e' = text_of (append_all (take n (drop i chars)) e0) ->
    TurnShape chars i e e' (i + n) [Ev_Span i (i + n) kind]
| Shape_Code c evs e0 e' :
    chars !! i = Some c -> settles e e0 ->
    text_of e' = text_of (append_all [c] e0) ->
    evs = [] \/ evs = [Ev_Symbol i c (chars !! (i + 1))] ->
    TurnShape chars i e e' (i + 1) evs
| Shape_Split e' :
    chars !! i = Some ";"%ch ->
    text_of e' = text_of (push_current_statement e) ->
    TurnShape chars i e e' (i + 1) [Ev_Symbol i ";"%ch (chars !! (i + 1)); Ev_Boundary i]
| Shape_Stay e' :
    i < length chars ->
    text_of e' = text_of e -> lex_mode (state e) = LexMode_ForeignModuleSource ->
    lex_mode (state e') = LexMode_Idle ->
    TurnShape chars i e e' i [].

(** A turn that returns, does what the shape allows and keeps the mode
    well-formed. *)
Definition good_turn (chars : str) (i : nat) (e : SqlParserEngine) (t : Turn) : Prop :=
  exists e' i' evs,
    t = Some (e', i', evs) /\ TurnShape chars i e e' i' evs /\ mode_ok (lex_mode (state e')).

Section Turn.
Context `{UnicodeTables}.
Implicit Types (chars : str) (e : SqlParserEngine) (i : nat) (c : char).

(** ** Slices of the input *)

Lemma slice_one chars i c : chars !! i = Some c -> take 1 (drop i chars) = [c].
Proof. intros Hc. rewrite (drop_S _ _ _ Hc). done. Qed.

Lemma slice_two chars i c d :
  chars !! i = Some c -> chars !! (i + 1) = Some d -> take 2 (drop i chars) = [c; d].
Proof.
  intros Hc Hd. rewrite (drop_S _ _ _ Hc). simpl. f_equal.
  replace (S i) with (i + 1) by lia. by apply slice_one.
Qed.

Lemma starts_with_length s pat : starts_with s pat = true -> length pat <= length s.
Proof.
  revert s. induction pat as [|p pat IH]; intros s Hs; [simpl; lia|].
  destruct s as [|c s]; [done|]. cbn [starts_with] in Hs.
  apply andb_true_iff in Hs as [_ Hs]. specialize (IH s Hs). simpl. lia.
Qed.

Lemma utf8_len_ascii s : Forall (fun c => is_ascii c = true) s -> utf8_len s = length s.
Proof.
  induction 1 as [|c s Hc _ IH]; simpl; [done|].
  unfold utf8_len in *. simpl. unfold len_utf8, is_ascii in *. rewrite Hc, IH. done.
Qed.

Lemma append_all_text l e e' :
  text_of e = text_of e' -> text_of (append_all l e) = text_of (append_all l e').
Proof.
  revert e e'. induction l as [|c l IH]; intros e e' He; simpl; [done|].
  apply IH. unfold append_current_char, text_of in *. simplify_eq.
  by case_match; simpl; f_equal; try congruence; f_equal; congruence.
Qed.

Lemma push_current_statement_text e e' :
  text_of e = text_of e' ->
  text_of (push_current_statement e) = text_of (push_current_statement e').
Proof.
  unfold push_current_statement, text_of. cbv zeta. intros [= Hs Hc Hf]. rewrite Hc.
  destruct (negb _); cbn [clear_current upd statements current current_has_non_whitespace];
    by rewrite ?Hs.
Qed.

(** ** Building good turns *)

Lemma settles_refl e : settles e e.
Proof. by apply settles_same. Qed.

Lemma good_lexical chars i e e0 e' n kind :
  0 < n -> i + n <= length chars -> settles e e0 ->
  text_of e' = text_of (append_all (take n (drop i chars)) e0) ->
  mode_ok (lex_mode (state e')) ->
  good_turn chars i e (Some (e', i + n, [Ev_Span i (i + n) kind])).
Proof. intros. do 3 eexists. split; [done|]. split; [|done]. by econstructor. Qed.

Lemma good_lexical_one chars i e e0 e' c kind :
  chars !! i = Some c -> settles e e0 ->
  text_of e' = text_of (append_all [c] e0) -> mode_ok (lex_mode (state e')) ->
  good_turn chars i e (Some (e', i + 1, [Ev_Span i (i + 1) kind])).
Proof.
  intros Hc Hs Ht Hm. apply lookup_lt_Some in Hc as Hlt.
  eapply good_lexical; [lia|lia|done| |done]. by erewrite slice_one.
Qed.

Lemma good_lexical_two chars i e e0 e' c d kind :
  chars !! i = Some c -> chars !! (i + 1) = Some d -> settles e e0 ->
  text_of e' = text_of (append_all [c; d] e0) -> mode_ok (lex_mode (state e')) ->
  good_turn chars i e (Some (e', i + 2, [Ev_Span i (i + 2) kind])).
Proof.
  intros Hc Hd Hs Ht Hm. apply lookup_lt_Some in Hd as Hlt.
  eapply good_lexical; [lia|lia|done| |done]. by erewrite slice_two.
Qed.

(** A run of [n] characters copied by index. *)
Lemma good_slice chars i e e0 n kind f :
  0 < n -> i + n <= length chars -> settles e e0 ->
  mode_ok (lex_mode (state (on_state f (append_all (take n (drop i chars)) e0)))) ->
  good_turn chars i e
    match append_slice chars i n e0 with
    | None => None
    | Some e1 => Some (on_state f e1, i + n, [Ev_Span i (i + n) kind])
    end.
Proof.
  intros. unfold append_slice. rewrite (proj2 (Nat.leb_le _ _)) by lia.
  by eapply good_lexical.
Qed.

Lemma state_append_all l e : state (append_all l e) = state e.
Proof.
  revert e. induction l as [|c l IH]; intros e; simpl; [done|].
  rewrite IH. unfold append_current_char. by case_match.
Qed.

Lemma state_append_current_char c e : state (append_current_char c e) = state e.
Proof. apply (state_append_all [c]). Qed.

(** ** Turns inside a literal or comment *)

Ltac peel_state := rewrite ?state_append_current_char, ?state_append_all; cbn [on_state upd state].

Lemma turn_line_comment_good chars i c e :
  chars !! i = Some c -> mode_ok (lex_mode (state e)) ->
  good_turn chars i e (turn_line_comment i c e).
Proof.
  intros Hc Hm. unfold turn_line_comment. cbv zeta.
  case_match; (eapply good_lexical_one; [done|apply settles_refl|done|]);
    [done | by rewrite state_append_current_char].
Qed.

Lemma turn_block_comment_good chars i c e :
  chars !! i = Some c -> mode_ok (lex_mode (state e)) ->
  good_turn chars i e (turn_block_comment i c (chars !! (i + 1)) e).
Proof.
  intros Hc Hm. unfold turn_block_comment. case_match eqn:Hg.
  - apply andb_true_iff in Hg as [_ Hn%bool_decide_eq_true].
    eapply good_lexical_two; [done|done|apply settles_refl|done|done].
  - eapply good_lexical_one; [done|apply settles_refl|done|]. by rewrite state_append_current_char.
Qed.

Lemma turn_foreign_module_good chars i c e :
  lex_mode (state e) = LexMode_ForeignModuleSource -> chars !! i = Some c ->
  good_turn chars i e (turn_foreign_module chars i c e).
Proof.
  intros Hl Hc. unfold turn_foreign_module. case_match.
  - do 3 eexists. split; [done|]. split; [|done]. apply Shape_Stay; try done.
    by apply lookup_lt_Some in Hc.
  - eapply good_lexical_one; [done|apply settles_refl|done|].
    cbn [on_state upd state lex_mode]. by rewrite state_append_current_char, Hl.
Qed.

Lemma turn_foreign_inline_good chars b i c e :
  chars !! i = Some c -> good_turn chars i e (turn_foreign_inline b i c e).
Proof.
  intros Hc. unfold turn_foreign_inline. cbv zeta.
  eapply good_lexical_one; [done|apply settles_refl|done|].
  cbn [on_state upd state set_lex_mode lex_mode]. by repeat case_match.
Qed.

Lemma turn_q_quote_body_good chars q d i c e :
  chars !! i = Some c -> 1 <= d -> mode_ok (lex_mode (state e)) ->
  good_turn chars i e (turn_q_quote_body q d i c (chars !! (i + 1)) e).
Proof.
  intros Hc Hd Hm. unfold turn_q_quote_body. case_match eqn:Hg.
  - apply andb_true_iff in Hg as [_ Hn%bool_decide_eq_true].
    destruct d as [|[|d]]; simpl q_quote_close_mode; [lia| |].
    + eapply good_lexical_two; [done|done|apply settles_refl|done|done].
    + eapply good_lexical_two; [done|done|apply settles_refl|done|simpl; lia].
  - eapply good_lexical_one; [done|apply settles_refl|done|]. by rewrite state_append_current_char.
Qed.

Lemma detect_q_quote_start_bound chars i n q :
  detect_q_quote_start chars i = Some (n, q) -> 0 < n /\ i + n <= length chars.
Proof.
  unfold detect_q_quote_start, q_quote_prefix_shape. intros Hd.
  repeat case_match; simplify_eq;
    match goal with H : chars !! (i + _) = Some _ |- _ => apply lookup_lt_Some in H end; lia.
Qed.

Lemma turn_q_quote_good chars q d i c e :
  chars !! i = Some c -> 1 <= d -> mode_ok (lex_mode (state e)) ->
  good_turn chars i e (turn_q_quote chars q d i c (chars !! (i + 1)) e).
Proof.
  intros Hc Hd Hm. unfold turn_q_quote.
  case_match; [|by apply turn_q_quote_body_good].
  destruct (detect_q_quote_start chars i) as [[n q']|] eqn:Hq;
    [|by apply turn_q_quote_body_good].
  case_match; [|by apply turn_q_quote_body_good].
  apply detect_q_quote_start_bound in Hq as [? ?].
  apply good_slice; [done|done|apply settles_refl|simpl; lia].
Qed.

Lemma turn_dollar_quote_good chars tag i c e :
  chars !! i = Some c -> lex_mode (state e) = LexMode_DollarQuote tag ->
  mode_ok (LexMode_DollarQuote tag) ->
  good_turn chars i e (turn_dollar_quote chars tag i c e).
Proof.
  intros Hc Hl [Hne Ha]. unfold turn_dollar_quote. case_match eqn:Hg.
  - apply andb_true_iff in Hg as [_ Hs%starts_with_length].
    rewrite length_drop in Hs. cbv zeta. rewrite utf8_len_ascii by done.
    assert (length tag <> 0) by (by destruct tag).
    apply lookup_lt_Some in Hc.
    apply good_slice; [lia|lia|apply settles_refl|done].
  - eapply good_lexical_one; [done|apply settles_refl|done|].
    rewrite state_append_current_char, Hl. done.
Qed.

Lemma turn_single_quote_good chars i c e :
  chars !! i = Some c -> mode_ok (lex_mode (state e)) ->
  good_turn chars i e (turn_single_quote i c (chars !! (i + 1)) e).
Proof.
  intros Hc Hm. unfold turn_single_quote. cbv zeta.
  destruct (mysql_escape c (chars !! (i + 1)) (state e)) as [d|] eqn:Hx.
  - unfold mysql_escape in Hx. case_match; [|done].
    eapply good_lexical_two; [done|done|apply settles_refl|done|].
    by rewrite !state_append_current_char.
  - case_match; [case_match eqn:Hn|].
    + apply bool_decide_eq_true in Hn.
      eapply good_lexical_two; [done|done|apply settles_refl|done|].
      by rewrite !state_append_current_char.
    + eapply good_lexical_one; [done|apply settles_refl|done|done].
    + eapply good_lexical_one; [done|apply settles_refl|done|]. by rewrite state_append_current_char.
Qed.

Lemma observe_quoted_identifier_framed w s : framed s (observe_quoted_identifier w s).
Proof. framed_unfold observe_quoted_identifier. Qed.

Lemma finish_double_quote_idle s : lex_mode (finish_double_quote s) = LexMode_Idle.
Proof.
  unfold finish_double_quote.
  assert (Hf : lex_mode (fst (finish_quoted_identifier (set_lex_mode LexMode_Idle s)))
               = LexMode_Idle).
  { unfold finish_quoted_identifier. case_match; [done|].
    simpl fst. by rewrite (framed_lex _ _ (observe_quoted_identifier_framed _ _)). }
  destruct (finish_quoted_identifier _) as [t [w|]]; simpl fst in Hf.
  - rewrite (framed_lex _ _ (resolve_pending_end_on_separator_with_token_framed _ _)).
    by rewrite (framed_lex _ _ (observe_external_clause_quoted_identifier_target_framed _)).
  - case_match; [|done]. by rewrite (framed_lex _ _ (resolve_pending_end_on_separator_framed _)).
Qed.

Lemma turn_double_quote_good chars i c e :
  chars !! i = Some c -> mode_ok (lex_mode (state e)) ->
  good_turn chars i e (turn_double_quote i c (chars !! (i + 1)) e).
Proof.
  intros Hc Hm. unfold turn_double_quote. cbv zeta.
  destruct (mysql_escape c (chars !! (i + 1)) (state e)) as [d|] eqn:Hx.
  - unfold mysql_escape in Hx. case_match; [|done].
    eapply good_lexical_two; [done|done|apply settles_refl|done|].
    by rewrite !state_append_current_char.
  - case_match; [case_match eqn:Hn|].
    + apply bool_decide_eq_true in Hn.
      eapply good_lexical_two; [done|done|apply settles_refl|done|].
      cbn [on_state upd state lex_mode push_quoted_identifier_char].
      by rewrite !state_append_current_char.
    + eapply good_lexical_one; [done|apply settles_refl|done|].
      cbn [on_state upd state]. by rewrite finish_double_quote_idle.
    + eapply good_lexical_one; [done|apply settles_refl|done|].
      cbn [on_state upd state lex_mode push_quoted_identifier_char].
      by rewrite state_append_current_char.
Qed.

Lemma finish_plain_quote_idle s : lex_mode (finish_plain_quote s) = LexMode_Idle.
Proof.
  unfold finish_plain_quote. cbv zeta. case_match; [|done].
  by rewrite (framed_lex _ _ (resolve_pending_end_on_separator_framed _)).
Qed.

Lemma turn_plain_quote_good chars q i c e :
  chars !! i = Some c -> mode_ok (lex_mode (state e)) ->
  good_turn chars i e (turn_plain_quote q i c (chars !! (i + 1)) e).
Proof.
  intros Hc Hm. unfold turn_plain_quote. cbv zeta. case_match; [case_match eqn:Hn|].
  - apply bool_decide_eq_true in Hn.
    eapply good_lexical_two; [done|done|apply settles_refl|done|].
    by rewrite !state_append_current_char.
  - eapply good_lexical_one; [done|apply settles_refl|done|].
    cbn [on_state upd state]. by rewrite finish_plain_quote_idle.
  - eapply good_lexical_one; [done|apply settles_refl|done|]. by rewrite state_append_current_char.
Qed.

(** ** Turns in code *)

Lemma settles_on_state e e' f : settles e e' -> settles e (on_state f e').
Proof. inversion 1; [by apply settles_same | by eapply settles_split]. Qed.

Lemma settles_finish e e' : settles e e' -> settles e (finish_current_statement e').
Proof. intros He. by apply (settles_split _ e'). Qed.

Lemma split_pending_external_settles e e' :
  settles e e' -> settles e (split_pending_external e').
Proof. intros He. unfold split_pending_external. cbv zeta. case_match; [by apply settles_finish|done]. Qed.

Lemma handle_identifier_settles chars i e :
  settles e (handle_identifier_start_candidate chars i e).
Proof.
  unfold handle_identifier_start_candidate, identifier_with_boundary,
    identifier_external_boundary, split_current_and_reset_external_boundary. cbv zeta.
  repeat match goal with
         | |- settles _ (if ?b then _ else _) => destruct b
         | |- settles _ (match ?x with _ => _ end) => destruct x
         | |- settles _ (on_state _ _) => apply settles_on_state
         | |- settles _ (split_current_statement _) => apply settles_finish
         | |- settles ?e ?e => apply settles_refl
         end.
Qed.

Lemma literal_start_mode s :
  lex_mode s = LexMode_Idle ->
  lex_mode (literal_start s) = LexMode_Idle
  \/ lex_mode (literal_start s) = LexMode_ForeignModuleSource.
Proof.
  intros Hl. unfold literal_start. cbv zeta.
  rewrite (framed_lex _ _ (observe_external_clause_literal_target_framed _ _)).
  destruct (flushed_lex _ _ (flush_token_flushed s)); [left; congruence | by right].
Qed.

Lemma turn_open_dash_comment_good chars i e :
  chars !! i = Some "-"%ch -> chars !! (i + 1) = Some "-"%ch ->
  good_turn chars i e (turn_open_dash_comment i e).
Proof.
  intros Hc Hn. unfold turn_open_dash_comment. cbv zeta.
  eapply good_lexical_two; [done|done| |done|].
  - apply settles_on_state, split_pending_external_settles, settles_on_state, settles_refl.
  - by rewrite !state_append_current_char.
Qed.

Lemma turn_open_hash_comment_good chars i e :
  chars !! i = Some "#"%ch -> good_turn chars i e (turn_open_hash_comment i e).
Proof.
  intros Hc. unfold turn_open_hash_comment. cbv zeta.
  eapply good_lexical_one; [done| |done|by rewrite state_append_current_char].
  apply settles_on_state, settles_on_state, settles_refl.
Qed.

Lemma turn_open_block_comment_good chars i e :
  chars !! i = Some "/"%ch -> chars !! (i + 1) = Some "*"%ch ->
  good_turn chars i e (turn_open_block_comment i e).
Proof.
  intros Hc Hn. unfold turn_open_block_comment. cbv zeta.
  eapply good_lexical_two; [done|done| |done|].
  - apply settles_on_state, split_pending_external_settles, settles_on_state, settles_refl.
  - by rewrite !state_append_current_char.
Qed.

Lemma good_slice_id chars i e e0 n kind :
  0 < n -> i + n <= length chars -> settles e e0 -> mode_ok (lex_mode (state e0)) ->
  good_turn chars i e
    match append_slice chars i n e0 with
    | None => None
    | Some e1 => Some (e1, i + n, [Ev_Span i (i + n) kind])
    end.
Proof.
  intros Hn Hi Hs Hm. unfold append_slice. rewrite (proj2 (Nat.leb_le _ _)) by lia.
  eapply good_lexical; [done|done|done|done|]. by rewrite state_append_all.
Qed.

Lemma q_quote_opener_bound chars i n d :
  q_quote_opener chars i = Some (n, d) -> 0 < n /\ i + n <= length chars.
Proof.
  unfold q_quote_opener. intros Hq. repeat case_match; simplify_eq.
  by eapply detect_q_quote_start_bound.
Qed.

Lemma turn_open_q_quote_good chars i n d e :
  q_quote_opener chars i = Some (n, d) -> good_turn chars i e (turn_open_q_quote chars i n d e).
Proof.
  intros [? ?]%q_quote_opener_bound. unfold turn_open_q_quote. cbv zeta.
  apply good_slice_id; [done|done| |simpl; lia].
  apply settles_on_state, settles_on_state, settles_refl.
Qed.

Lemma prefixed_quote_len_bound chars i c n :
  chars !! i = Some c ->
  prefixed_quote_len c (chars !! (i + 1)) (chars !! (i + 2)) = Some n ->
  0 < n /\ i + n <= length chars.
Proof.
  intros Hc Hp. unfold prefixed_quote_len in Hp. repeat case_match; simplify_eq.
  - match goal with Hb : _ && _ = true |- _ =>
      apply andb_true_iff in Hb as [_ Hb%bool_decide_eq_true%lookup_lt_Some] end. lia.
  - match goal with Hb : (_ == _) = true |- _ =>
      apply bool_decide_eq_true in Hb; apply lookup_lt_Some in Hb end. lia.
Qed.

Lemma turn_open_prefixed_quote_good chars i c n e :
  chars !! i = Some c ->
  prefixed_quote_len c (chars !! (i + 1)) (chars !! (i + 2)) = Some n ->
  good_turn chars i e (turn_open_prefixed_quote chars i n e).
Proof.
  intros Hc [? ?]%prefixed_quote_len_bound; [|done].
  unfold turn_open_prefixed_quote. cbv zeta. apply good_slice_id; [done|done| |done].
  apply settles_on_state, settles_on_state, settles_refl.
Qed.

(** A tag is a slice of the input that starts and ends in a dollar sign, with
    ASCII letters, digits and underscores between. *)
Lemma parse_dollar_quote_tag_loop_spec fuel chars start i tag :
  start < i -> Forall (fun c => is_ascii c = true) (take (i - start) (drop start chars)) ->
  parse_dollar_quote_tag_loop fuel chars start i = Some tag ->
  Forall (fun c => is_ascii c = true) tag /\ 0 < length tag /\
  start + length tag <= length chars.
Proof.
  revert i. induction fuel as [|fuel IH]; intros i Hi Ha; simpl; [done|].
  destruct (chars !! i) as [c|] eqn:Hc; [|done].
  assert (Hext : take (i + 1 - start) (drop start chars)
                 = take (i - start) (drop start chars) ++ [c]).
  { replace (i + 1 - start) with (S (i - start)) by lia.
    apply take_S_r. rewrite lookup_drop. by replace (start + (i - start)) with i by lia. }
  apply lookup_lt_Some in Hc as Hlt.
  destruct (N.eqb_spec c "$"%ch) as [->|Hne].
  - intros [= <-]. rewrite Hext, Forall_app. repeat split; [done|by constructor| |];
      rewrite ?length_app, ?length_take, ?length_drop; simpl; lia.
  - destruct (is_dollar_quote_tag_char c) eqn:Htc; simpl; [|done].
    apply IH; [lia|]. rewrite Hext, Forall_app. split; [done|]. constructor; [|done].
    unfold is_dollar_quote_tag_char, is_ascii_alphanumeric, is_ascii_alphabetic,
      is_ascii_uppercase, is_ascii_lowercase, is_ascii_digit, in_range, is_ascii in *.
    apply N.ltb_lt.
    repeat match goal with
           | H : _ || _ = true |- _ => apply orb_true_iff in H as [H|H]
           | H : _ && _ = true |- _ => apply andb_true_iff in H as [_ H]
           | H : N.leb _ _ = true |- _ => apply N.leb_le in H
           | H : N.eqb _ _ = true |- _ => apply N.eqb_eq in H
           end; lia.
Qed.

Lemma parse_dollar_quote_tag_spec chars start tag :
  parse_dollar_quote_tag chars start = Some tag ->
  Forall (fun c => is_ascii c = true) tag /\ 0 < length tag /\
  start + length tag <= length chars.
Proof.
  unfold parse_dollar_quote_tag, at_is. destruct (chars !! start) as [c|] eqn:Hc; simpl; [|done].
  destruct (N.eqb_spec c "$"%ch) as [->|]; simpl; [|done].
  apply parse_dollar_quote_tag_loop_spec; [lia|].
  replace (start + 1 - start) with 1 by lia. rewrite (slice_one _ _ _ Hc). by constructor.
Qed.

Lemma turn_open_dollar_quote_good chars tag i c e :
  dollar_quote_opener chars i c (state e) = Some tag ->
  good_turn chars i e (turn_open_dollar_quote chars tag i e).
Proof.
  unfold dollar_quote_opener. case_match; [|done].
  intros (Ha & ? & ?)%parse_dollar_quote_tag_spec.
  unfold turn_open_dollar_quote. cbv zeta. rewrite utf8_len_ascii by done.
  apply good_slice; [done|done| |].
  - apply settles_on_state, settles_refl.
  - cbn [on_state upd state set_lex_mode lex_mode mode_ok].
    split; [|done]. intros ->. simpl in *. lia.
Qed.

Lemma turn_open_foreign_inline_good chars i c e :
  chars !! i = Some c -> chars !! (i + 1) = Some "{"%ch ->
  good_turn chars i e (turn_open_foreign_inline i c e).
Proof.
  intros Hc Hn. unfold turn_open_foreign_inline. cbv zeta.
  eapply good_lexical_two; [done|done|apply settles_refl|done|done].
Qed.

Lemma turn_open_single_quote_good chars i c e :
  chars !! i = Some c -> good_turn chars i e (turn_open_single_quote i c e).
Proof.
  intros Hc. unfold turn_open_single_quote. cbv zeta.
  eapply good_lexical_one; [done| |done|by rewrite state_append_current_char].
  apply settles_on_state, settles_on_state, settles_refl.
Qed.

Lemma turn_open_double_quote_good chars i c e :
  chars !! i = Some c -> good_turn chars i e (turn_open_double_quote i c e).
Proof.
  intros Hc. unfold turn_open_double_quote. cbv zeta.
  eapply good_lexical_one; [done| |done|by rewrite state_append_current_char].
  apply settles_on_state, settles_refl.
Qed.

Lemma turn_open_plain_quote_good chars m i c e :
  chars !! i = Some c -> mode_ok m -> good_turn chars i e (turn_open_plain_quote m i c e).
Proof.
  intros Hc Hm. unfold turn_open_plain_quote. cbv zeta.
  eapply good_lexical_one; [done| |done|by rewrite state_append_current_char].
  apply settles_on_state, settles_on_state, settles_refl.
Qed.

(** ** Identifiers and symbols *)

(** The lexer mode of code is idle, or foreign source once a word opened it. *)
Definition code_mode (m : LexMode) : Prop :=
  m = LexMode_Idle \/ m = LexMode_ForeignModuleSource.

Lemma code_mode_ok m : code_mode m -> mode_ok m.
Proof. by intros [->| ->]. Qed.

Lemma code_mode_framed s s' : framed s s' -> code_mode (lex_mode s) -> code_mode (lex_mode s').
Proof. intros [_ -> _ _ _ _ _]. done. Qed.

Lemma state_on_state f e : state (on_state f e) = f (state e).
Proof. done. Qed.

Lemma clear_block_stack_lex s : lex_mode (clear_block_stack s) = lex_mode s.
Proof. done. Qed.

Lemma finish_current_statement_lex e :
  lex_mode (state (finish_current_statement e)) = lex_mode (state e).
Proof. unfold finish_current_statement, push_current_statement. cbv zeta. by case_match. Qed.

Lemma identifier_external_boundary_lex w e :
  lex_mode (state (identifier_external_boundary w e)) = lex_mode (state e).
Proof.
  unfold identifier_external_boundary, split_current_and_reset_external_boundary,
    split_current_statement. cbv zeta.
  destruct (_ && _); [|done]. destruct (identifier_splits_external _ _).
  - rewrite state_on_state, clear_block_stack_lex. apply finish_current_statement_lex.
  - by destruct (pending_implicit_external_top_level_split _).
Qed.

Lemma identifier_with_boundary_lex w e :
  lex_mode (state (identifier_with_boundary w e)) = lex_mode (state e).
Proof.
  unfold identifier_with_boundary, split_current_statement. cbv zeta.
  destruct (_ && _); [|done].
  set (e1 := if pending_end (state e) == PendingEnd_End then _ else e).
  assert (H1 : lex_mode (state e1) = lex_mode (state e)).
  { unfold e1. destruct (_ == _); [|done].
    apply (framed_lex _ _ (resolve_pending_end_on_separator_framed (state e))). }
  destruct (_ =? _); [|done]. by rewrite finish_current_statement_lex.
Qed.

Lemma handle_identifier_lex chars i e :
  lex_mode (state (handle_identifier_start_candidate chars i e)) = lex_mode (state e).
Proof.
  unfold handle_identifier_start_candidate. cbv zeta. destruct (negb _); [done|].
  destruct (preview_identifier_upper chars i) as [w|]; [|done].
  by rewrite identifier_with_boundary_lex, identifier_external_boundary_lex.
Qed.

Lemma turn_identifier_good chars i c e :
  chars !! i = Some c -> lex_mode (state e) = LexMode_Idle ->
  good_turn chars i e (turn_identifier chars i c e).
Proof.
  intros Hc Hl. unfold turn_identifier. cbv zeta. do 3 eexists. split; [done|]. split.
  - eapply (Shape_Code _ _ _ c _ (on_state (push_token_char chars i c)
              (handle_identifier_start_candidate chars i e))); [done| |done|by left].
    apply settles_on_state, handle_identifier_settles.
  - rewrite state_append_current_char. apply code_mode_ok.
    assert (Hm : code_mode (lex_mode (state (handle_identifier_start_candidate chars i e)))).
    { rewrite handle_identifier_lex. by left. }
    unfold push_token_char. cbn [on_state upd state]. cbv zeta. by case_match.
Qed.

Lemma flush_before_symbol_mode c s :
  code_mode (lex_mode s) -> code_mode (lex_mode (flush_before_symbol c s)).
Proof.
  intros Hm. unfold flush_before_symbol. case_match; [done|].
  destruct (flushed_lex _ _ (flush_token_flushed s)) as [->| ->]; [done|by right].
Qed.

Lemma if_state_on_symbol_framed c s : framed s (if_state_on_symbol c s).
Proof. framed_unfold if_state_on_symbol. Qed.

Lemma if_state_on_close_paren_framed r s : framed s (if_state_on_close_paren r s).
Proof. framed_unfold if_state_on_close_paren. Qed.

Lemma pending_end_on_symbol_framed r s : framed s (pending_end_on_symbol r s).
Proof. framed_unfold pending_end_on_symbol. Qed.

Lemma track_parens_lex r c s : lex_mode (track_parens r c s) = lex_mode s.
Proof. unfold track_parens, push_open_paren, pop_close_paren. cbv zeta. by repeat case_match. Qed.

Lemma comma_framed c s :
  framed s (if N.eqb c ","%ch then advance_with_clause_after_comma s else s).
Proof. framed_tac. Qed.

#[local] Hint Resolve if_state_on_symbol_framed if_state_on_close_paren_framed
  pending_end_on_symbol_framed : frame.

Lemma symbol_state_mode c n s :
  code_mode (lex_mode s) -> code_mode (lex_mode (symbol_state c n s)).
Proof.
  intros Hm. unfold symbol_state. cbv zeta.
  eapply code_mode_framed; [apply comma_framed|].
  eapply code_mode_framed; [apply pending_end_on_symbol_framed|].
  rewrite track_parens_lex.
  eapply code_mode_framed; [|by apply (flush_before_symbol_mode c)].
  framed_tac.
Qed.

Lemma prepare_semicolon_framed s : framed s (prepare_semicolon s).
Proof.
  unfold prepare_semicolon, clear_forward_subprogram_declaration_state_on_semicolon.
  cbv zeta. framed_tac.
Qed.

Lemma apply_semicolon_action_mode a c e :
  code_mode (lex_mode (state e)) -> code_mode (lex_mode (state (apply_semicolon_action a c e))).
Proof.
  intros Hm. destruct a; cbn [apply_semicolon_action]; rewrite ?state_on_state.
  - by rewrite state_append_current_char.
  - by rewrite finish_current_statement_lex.
  - by rewrite clear_block_stack_lex, finish_current_statement_lex.
  - eapply code_mode_framed; [apply close_external_routine_on_semicolon_framed|].
    by rewrite state_append_current_char.
Qed.

Lemma symbol_role_semicolon c n :
  SymbolRole_from_char c n = SymbolRole_Semicolon <-> c = ";"%ch.
Proof.
  unfold SymbolRole_from_char. split.
  - destruct (N.eqb_spec c ";"%ch); [done|]. by repeat case_match.
  - by intros ->.
Qed.

Lemma turn_symbol_good chars i c e :
  chars !! i = Some c -> lex_mode (state e) = LexMode_Idle ->
  good_turn chars i e (turn_symbol i c (chars !! (i + 1)) e).
Proof.
  intros Hc Hl. unfold turn_symbol, prepare_semicolon_action. cbv zeta.
  assert (Hm : code_mode (lex_mode (symbol_state c (chars !! (i + 1)) (state e)))).
  { apply symbol_state_mode. by left. }
  case_match eqn:Hr.
  - apply bool_decide_eq_true, symbol_role_semicolon in Hr as ->.
    set (s2 := prepare_semicolon _).
    assert (Hm2 : code_mode (lex_mode s2)).
    { eapply code_mode_framed; [apply prepare_semicolon_framed|]. done. }
    do 3 eexists. split; [done|]. split; [|by apply code_mode_ok, apply_semicolon_action_mode].
    destruct (SemicolonAction_from_state s2); cbn [apply_semicolon_action action_splits].
    + eapply Shape_Code; [done|apply settles_refl|by apply (append_all_text [_])|by right].
    + apply Shape_Split; [done|]. by apply push_current_statement_text.
    + apply Shape_Split; [done|]. by apply push_current_statement_text.
    + eapply Shape_Code; [done|apply settles_refl|by apply (append_all_text [_])|by right].
  - do 3 eexists. split; [done|]. split.
    + eapply Shape_Code; [done|apply settles_refl|by apply (append_all_text [_])|by right].
    + rewrite state_append_current_char. by apply code_mode_ok.
Qed.

(** ** Every turn *)

Lemma turn_idle_quotes_good chars i c e :
  chars !! i = Some c -> lex_mode (state e) = LexMode_Idle ->
  good_turn chars i e (turn_idle_quotes chars i c (chars !! (i + 1)) e).
Proof.
  intros Hc Hl. unfold turn_idle_quotes. cbv zeta. repeat case_match.
  - match goal with Hb : _ && _ = true |- _ =>
      apply andb_true_iff in Hb as [[[_ Hn%bool_decide_eq_true]%andb_true_iff _]%andb_true_iff _]
    end. by apply turn_open_foreign_inline_good.
  - by apply turn_open_single_quote_good.
  - by apply turn_open_double_quote_good.
  - by apply turn_open_plain_quote_good.
  - by apply turn_open_plain_quote_good.
  - by apply turn_identifier_good.
  - by apply turn_symbol_good.
Qed.

Lemma turn_idle_literals_good chars i c e :
  chars !! i = Some c -> lex_mode (state e) = LexMode_Idle ->
  good_turn chars i e (turn_idle_literals chars i c (chars !! (i + 1)) (chars !! (i + 2)) e).
Proof.
  intros Hc Hl. unfold turn_idle_literals.
  case_match; [|by apply turn_idle_quotes_good].
  destruct (q_quote_opener chars i) as [[n d]|] eqn:Hq; [by apply turn_open_q_quote_good|].
  destruct (prefixed_quote_len _ _ _) as [n|] eqn:Hp;
    [by eapply turn_open_prefixed_quote_good|].
  destruct (dollar_quote_opener _ _ _ _) as [tag|] eqn:Hd;
    [by eapply turn_open_dollar_quote_good|].
  by apply turn_idle_quotes_good.
Qed.

Lemma turn_idle_good chars i c e :
  chars !! i = Some c -> lex_mode (state e) = LexMode_Idle ->
  good_turn chars i e (turn_idle chars i c (chars !! (i + 1)) (chars !! (i + 2)) e).
Proof.
  intros Hc Hl. unfold turn_idle. repeat case_match.
  - match goal with Hb : _ && _ = true |- _ =>
      apply andb_true_iff in Hb as [[->%N.eqb_eq Hn%bool_decide_eq_true]%andb_true_iff _] end.
    by apply turn_open_dash_comment_good.
  - match goal with Hb : _ && _ = true |- _ =>
      apply andb_true_iff in Hb as [->%N.eqb_eq _] end.
    by apply turn_open_hash_comment_good.
  - match goal with Hb : _ && _ = true |- _ =>
      apply andb_true_iff in Hb as [->%N.eqb_eq Hn%bool_decide_eq_true] end.
    by apply turn_open_block_comment_good.
  - by apply turn_idle_literals_good.
Qed.

Lemma turn_good chars i c e :
  chars !! i = Some c -> mode_ok (lex_mode (state e)) -> good_turn chars i e (turn chars i c e).
Proof.
  intros Hc Hm. unfold turn. cbv zeta. destruct (lex_mode (state e)) eqn:Hl.
  - by apply turn_idle_good.
  - apply turn_single_quote_good; [done|by rewrite Hl].
  - apply turn_double_quote_good; [done|by rewrite Hl].
  - apply turn_plain_quote_good; [done|by rewrite Hl].
  - apply turn_plain_quote_good; [done|by rewrite Hl].
  - apply turn_line_comment_good; [done|by rewrite Hl].
  - apply turn_block_comment_good; [done|by rewrite Hl].
  - apply turn_q_quote_good; [done|done|by rewrite Hl].
  - by apply turn_dollar_quote_good.
  - by apply turn_foreign_module_good.
  - by apply turn_foreign_inline_good.
Qed.

End Turn.
