(* ===== verification/EngineLoop.v ===== *)
(** * The character loop of the engine

    What [process_chars_with_observer] does to the text, whatever the parser
    state decides: it always returns, the statements it finishes are the trimmed
    consecutive pieces of the input less the semicolons reported as boundaries,
    and the observed events come in source order with the lexical spans disjoint
    and never around a boundary. *)
From Stdlib Require Import Sorted.
From S2P Require Import Prelude RustStr SqlText Boundary EngineText SplitState Engine SplitFrame EngineTurn.

(** ** The specification *)

(** The text [l], whose first character has index [i], less the characters at
    the [dropped] indices. *)
Fixpoint kept (dropped : list nat) (i : nat) (l : str) : str :=
  match l with
  | [] => []
  | c :: l => (if decide (i ∈ dropped) then [] else [c]) ++ kept dropped (S i) l
  end.

(** The statements that a sequence of raw pieces yields. *)
Definition nonblank (pieces : list str) : list str :=
  List.filter (fun s => negb (str_is_empty s)) (trim <$> pieces).

(** From [e] to [e'] the engine read [text]: cut behind the open statement into
    pieces, of which the last is still open. *)
Definition produced (e e' : SqlParserEngine) (text : str) : Prop :=
  exists pieces,
    statements e' = statements e ++ nonblank pieces /\
    concat pieces ++ current e' = current e ++ text.

(** The buffer flag caches whether the open statement has any ink. *)
Definition flag_ok (e : SqlParserEngine) : Prop :=
  current_has_non_whitespace e = negb (str_is_empty (ink (current e))).

(** Finished statements are trimmed and not blank. *)
Definition statements_ok (e : SqlParserEngine) : Prop :=
  Forall (fun s => s <> [] /\ trim s = s) (statements e).

(** Where an event starts and ends, and when two events may follow each other:
    only a boundary shares its index with the symbol before it. *)
Definition ev_start (ev : Event) : nat :=
  match ev with Ev_Symbol i _ _ | Ev_Boundary i | Ev_Span i _ _ => i end.

Definition ev_end (ev : Event) : nat :=
  match ev with Ev_Symbol i _ _ | Ev_Boundary i => i + 1 | Ev_Span _ j _ => j end.

Definition ev_before (x y : Event) : Prop :=
  match x, y with
  | Ev_Symbol i _ _, Ev_Boundary j => i <= j
  | _, _ => ev_end x <= ev_start y
  end.

(** An event that describes [chars]: a non-empty range of it, and for a symbol
    the character there and the next one. *)
Definition ev_true (chars : str) (ev : Event) : Prop :=
  match ev with
  | Ev_Symbol i c next => chars !! i = Some c /\ next = chars !! (i + 1)
  | Ev_Boundary i => chars !! i = Some ";"%ch
  | Ev_Span i j _ => i < j <= length chars
  end.

(** The events lie in the range [lo, hi), hold of the text and are ordered. *)
Definition events_in (chars : str) (lo hi : nat) (evs : list Event) : Prop :=
  Forall (fun ev => lo <= ev_start ev /\ ev_end ev <= hi /\ ev_true chars ev) evs /\
  StronglySorted ev_before evs.

(** What a run of the loop from index [i] establishes. *)
Record run_ok (chars : str) (i : nat) (e e' : SqlParserEngine) (evs : list Event) : Prop := {
  run_text : produced e e' (kept (boundaries evs) i (drop i chars));
  run_events : events_in chars i (length chars) evs;
  run_mode : mode_ok (lex_mode (state e'));
  run_flag : flag_ok e -> flag_ok e'
}.

(** Turns left at [i]: two for each character, and one to leave foreign source. *)
Definition turns_left (chars : str) (i : nat) (e : SqlParserEngine) : nat :=
  2 * (length chars - i)
  + (if lex_mode (state e) == LexMode_ForeignModuleSource then 1 else 0).

Section Loop.
Context `{UnicodeTables}.
Implicit Types (chars : str) (e : SqlParserEngine) (i : nat).

(** ** Pieces of text *)

Lemma nonblank_app ps qs : nonblank (ps ++ qs) = nonblank ps ++ nonblank qs.
Proof. unfold nonblank. by rewrite fmap_app, List.filter_app. Qed.

Lemma produced_refl e e' : text_of e' = text_of e -> produced e e' [].
Proof. intros [= Hs Hc _]. exists []. by rewrite Hs, Hc, !app_nil_r. Qed.

Lemma produced_trans e1 e2 e3 t1 t2 :
  produced e1 e2 t1 -> produced e2 e3 t2 -> produced e1 e3 (t1 ++ t2).
Proof.
  intros (p1 & Hs1 & Hc1) (p2 & Hs2 & Hc2). exists (p1 ++ p2).
  rewrite nonblank_app, Hs2, Hs1, concat_app. split; [by rewrite app_assoc|].
  by rewrite <- app_assoc, Hc2, app_assoc, Hc1, app_assoc.
Qed.

Lemma produced_text e e1 e2 t : text_of e1 = text_of e2 -> produced e e1 t -> produced e e2 t.
Proof. intros [= Hs Hc _] (p & Hps & Hpc). exists p. by rewrite <- Hs, <- Hc. Qed.

Lemma produced_push e : produced e (push_current_statement e) [].
Proof.
  exists [current e]. unfold push_current_statement, nonblank. cbv zeta. simpl.
  rewrite !app_nil_r. destruct (str_is_empty (trim (current e))); simpl; [|done].
  by rewrite app_nil_r.
Qed.

Lemma produced_settles e e' : settles e e' -> produced e e' [].
Proof.
  induction 1 as [e' He|e1 e' He IH Ht]; [by apply produced_refl|].
  apply (produced_text _ (push_current_statement e1)); [done|].
  apply (produced_trans _ _ _ [] [] IH), produced_push.
Qed.

Lemma append_all_parts l e :
  statements (append_all l e) = statements e /\ current (append_all l e) = current e ++ l.
Proof.
  revert e. induction l as [|c l IH]; intros e; simpl; [by rewrite app_nil_r|].
  destruct (IH (append_current_char c e)) as [-> ->].
  unfold append_current_char, vec_push. by case_match; simpl; rewrite <- app_assoc.
Qed.

Lemma produced_append l e : produced e (append_all l e) l.
Proof. exists []. destruct (append_all_parts l e) as [-> ->]. by rewrite app_nil_r. Qed.

(** ** The text kept *)

Lemma kept_nil l i : kept [] i l = l.
Proof. revert i. induction l as [|c l IH]; intros i; simpl; [done|]. by rewrite IH. Qed.

Lemma kept_app d i l1 l2 : kept d i (l1 ++ l2) = kept d i l1 ++ kept d (i + length l1) l2.
Proof.
  revert i. induction l1 as [|c l1 IH]; intros i; simpl; [by rewrite Nat.add_0_r|].
  rewrite IH, app_assoc. do 2 f_equal. lia.
Qed.

(** Only the indices inside the text matter. *)
Lemma kept_ext d1 d2 i l :
  (forall j, i <= j < i + length l -> j ∈ d1 <-> j ∈ d2) -> kept d1 i l = kept d2 i l.
Proof.
  revert i. induction l as [|c l IH]; intros i Hd; simpl; [done|].
  rewrite (IH (S i)) by (intros j Hj; apply Hd; simpl; lia). f_equal.
  assert (i ∈ d1 <-> i ∈ d2) by (apply Hd; simpl; lia). by repeat case_decide; try tauto.
Qed.

Lemma boundaries_app a b : boundaries (a ++ b) = boundaries a ++ boundaries b.
Proof. apply omap_app. Qed.

Lemma boundaries_in i evs : i ∈ boundaries evs <-> Ev_Boundary i ∈ evs.
Proof.
  unfold boundaries. rewrite list_elem_of_omap. split.
  - intros (ev & Hev & Hi). by destruct ev; simplify_eq.
  - intros Hev. by exists (Ev_Boundary i).
Qed.

(** ** One turn *)

Lemma shape_advance chars i e e' i' evs :
  TurnShape chars i e e' i' evs ->
  i <= i' <= length chars /\
  (i < i' \/ lex_mode (state e) = LexMode_ForeignModuleSource /\
              lex_mode (state e') = LexMode_Idle).
Proof.
  intros Hs. inversion Hs; subst;
    repeat match goal with Hc : chars !! i = Some _ |- _ => apply lookup_lt_Some in Hc end;
    (split; [lia|]); first [left; lia | by right].
Qed.

Lemma shape_produced chars i e e' i' evs :
  TurnShape chars i e e' i' evs ->
  produced e e' (kept (boundaries evs) i (take (i' - i) (drop i chars))).
Proof.
  assert (Happ : forall e0 e1 e2 l, settles e0 e1 -> text_of e2 = text_of (append_all l e1) ->
                                    produced e0 e2 l).
  { intros e0 e1 e2 l Hs Ht. apply (produced_text _ (append_all l e1)); [done|].
    apply (produced_trans _ e1 _ [] l); [by apply produced_settles | apply produced_append]. }
  intros Hs. inversion Hs as [kind n e0 ? Hn Hi Hse Ht|c ? e0 ? Hc Hse Ht Hev|? Hc Ht|? Hi Ht]; subst.
  - replace (i + n - i) with n by lia. simpl. rewrite kept_nil. by eapply Happ.
  - replace (i + 1 - i) with 1 by lia. erewrite slice_one by done.
    destruct Hev as [->| ->]; simpl boundaries; rewrite kept_nil; by eapply Happ.
  - replace (i + 1 - i) with 1 by lia. erewrite slice_one by done. simpl.
    rewrite decide_True by set_solver. simpl.
    apply (produced_text _ (push_current_statement e)); [done|apply produced_push].
  - rewrite Nat.sub_diag. simpl. by apply produced_refl.
Qed.

Lemma events_in_nil chars lo hi : events_in chars lo hi [].
Proof. split; constructor. Qed.

Lemma ev_before_apart lo mid hi x y :
  lo <= ev_start x /\ ev_end x <= mid -> mid <= ev_start y /\ ev_end y <= hi -> ev_before x y.
Proof. intros [_ Hx] [Hy _]. destruct x, y; simpl in *; lia. Qed.

Lemma events_in_app chars lo mid hi a b :
  lo <= mid <= hi -> events_in chars lo mid a -> events_in chars mid hi b ->
  events_in chars lo hi (a ++ b).
Proof.
  intros Hm [Ha Sa] [Hb Sb]. split.
  - apply Forall_app. split.
    + eapply Forall_impl; [exact Ha|]. simpl. intros ev (? & ? & ?). split_and!; [lia|lia|done].
    + eapply Forall_impl; [exact Hb|]. simpl. intros ev (? & ? & ?). split_and!; [lia|lia|done].
  - induction Sa as [|x a Sa IH Hx]; simpl; [done|]. inversion Ha as [|? ? Hxl Ha']; subst.
    constructor; [by apply IH|]. apply Forall_app. split; [done|].
    eapply Forall_impl; [exact Hb|]. intros y (? & ? & ?).
    apply (ev_before_apart lo mid hi); tauto.
Qed.

Lemma shape_events chars i e e' i' evs :
  TurnShape chars i e e' i' evs -> events_in chars i i' evs.
Proof.
  intros Hs. inversion Hs as [kind n e0 ? Hn Hi Hse Ht|c ? e0 ? Hc Hse Ht Hev|? Hc Ht|? Hi Ht]; subst.
  - split; [|by repeat constructor]. constructor; [simpl; lia|done].
  - destruct Hev as [->| ->]; [apply events_in_nil|].
    split; [|by repeat constructor]. constructor; [simpl; split_and!; [lia|lia|done|done]|done].
  - split.
    + repeat constructor; simpl; try lia; done.
    + repeat constructor; simpl; lia.
  - apply events_in_nil.
Qed.

(** ** Flags and finished statements *)

Lemma text_flag_ok e e' : text_of e' = text_of e -> flag_ok e -> flag_ok e'.
Proof. intros [= _ Hc Hf]. unfold flag_ok. by rewrite Hc, Hf. Qed.

Lemma push_flag_ok e : flag_ok (push_current_statement e).
Proof. unfold push_current_statement. cbv zeta. by case_match. Qed.

Lemma append_flag_ok l e : flag_ok e -> flag_ok (append_all l e).
Proof.
  revert e. induction l as [|c l IH]; intros e He; simpl; [done|]. apply IH.
  unfold flag_ok, append_current_char, vec_push in *. cbv zeta.
  destruct (is_whitespace c) eqn:Hw; simpl; rewrite ink_app; simpl; rewrite Hw; simpl.
  - by rewrite app_nil_r.
  - by destruct (ink (current e)).
Qed.

Lemma settles_flag_ok e e' : settles e e' -> flag_ok e -> flag_ok e'.
Proof.
  intros Hs He. induction Hs as [e' Ht|e1 e' Hs IH Ht]; [by eapply text_flag_ok|].
  eapply text_flag_ok; [exact Ht|]. apply push_flag_ok.
Qed.

Lemma shape_flag_ok chars i e e' i' evs :
  TurnShape chars i e e' i' evs -> flag_ok e -> flag_ok e'.
Proof.
  intros Hs He. inversion Hs; subst; (eapply text_flag_ok; [eassumption|]);
    [apply append_flag_ok; by eapply settles_flag_ok
    |apply append_flag_ok; by eapply settles_flag_ok | apply push_flag_ok | done].
Qed.

Lemma nonblank_ok ps : Forall (fun s => s <> [] /\ trim s = s) (nonblank ps).
Proof.
  unfold nonblank. induction ps as [|p ps IH]; simpl; [constructor|].
  destruct (trim p) as [|c t] eqn:Hp; simpl; [done|]. constructor; [|done].
  split; [done|]. rewrite <- Hp. apply trim_idemp.
Qed.

Lemma produced_statements_ok e e' t : produced e e' t -> statements_ok e -> statements_ok e'.
Proof.
  intros (ps & Hs & _) He. unfold statements_ok. rewrite Hs.
  apply Forall_app. split; [done|apply nonblank_ok].
Qed.

(** ** The loop *)

Lemma run_ok_end chars i e :
  chars !! i = None -> mode_ok (lex_mode (state e)) -> run_ok chars i e e [].
Proof.
  intros Hi%lookup_ge_None Hm. split; [|apply events_in_nil|done|done].
  rewrite drop_ge by lia. by apply produced_refl.
Qed.

Lemma run_ok_step chars i e e1 i1 evs1 e' evs :
  TurnShape chars i e e1 i1 evs1 -> run_ok chars i1 e1 e' evs ->
  run_ok chars i e e' (evs1 ++ evs).
Proof.
  intros Hs [Ht He Hm Hf].
  pose proof (shape_advance _ _ _ _ _ _ Hs) as [Hi _].
  pose proof (shape_events _ _ _ _ _ _ Hs) as He1.
  split; [|by eapply events_in_app|done|intros; by eapply Hf, shape_flag_ok].
  assert (Hd : drop i chars = take (i1 - i) (drop i chars) ++ drop i1 chars).
  { rewrite <- (take_drop (i1 - i) (drop i chars)) at 1. rewrite drop_drop.
    by replace (i + (i1 - i)) with i1 by lia. }
  assert (Hl : length (take (i1 - i) (drop i chars)) = i1 - i).
  { rewrite length_take, length_drop. lia. }
  rewrite Hd, kept_app, Hl. replace (i + (i1 - i)) with i1 by lia.
  destruct He1 as [He1 _], He as [He _]. rewrite Forall_forall in He1, He.
  apply (produced_trans _ e1).
  - rewrite (kept_ext _ (boundaries evs1)); [by apply shape_produced|].
    intros j Hj. rewrite boundaries_app, elem_of_app, !boundaries_in.
    split; [|by left]. intros [?|Hb]; [done|]. apply He in Hb. simpl in Hb. lia.
  - rewrite (kept_ext _ (boundaries evs)); [done|].
    intros j Hj. rewrite boundaries_app, elem_of_app, !boundaries_in.
    split; [|by right]. intros [Hb|?]; [|done]. apply He1 in Hb. simpl in Hb. lia.
Qed.

Lemma turns_left_decrease chars i e e1 i1 evs :
  i < length chars -> TurnShape chars i e e1 i1 evs ->
  turns_left chars i1 e1 < turns_left chars i e.
Proof.
  intros Hi Hs. apply shape_advance in Hs as [Hr [Hlt|[Hf Hd]]].
  - unfold turns_left. repeat case_match; lia.
  - unfold turns_left. rewrite Hf, Hd. simpl. lia.
Qed.

Lemma process_chars_loop_ok fuel chars i e :
  mode_ok (lex_mode (state e)) -> turns_left chars i e <= fuel ->
  exists e' evs, process_chars_loop fuel chars i e = Some (e', evs) /\ run_ok chars i e e' evs.
Proof.
  revert i e. induction fuel as [|fuel IH]; intros i e Hm Hf;
    simpl; destruct (chars !! i) as [c|] eqn:Hc.
  - apply lookup_lt_Some in Hc. unfold turns_left in Hf. lia.
  - do 2 eexists. split; [done|]. by apply run_ok_end.
  - destruct (turn_good chars i c e Hc Hm) as (e1 & i1 & evs1 & -> & Hs & Hm1).
    apply lookup_lt_Some in Hc.
    destruct (IH i1 e1 Hm1) as (e' & evs & -> & Hr).
    { pose proof (turns_left_decrease _ _ _ _ _ _ Hc Hs). lia. }
    do 2 eexists. split; [done|]. by eapply run_ok_step.
  - do 2 eexists. split; [done|]. by apply run_ok_end.
Qed.

Lemma process_chars_ok chars e :
  mode_ok (lex_mode (state e)) ->
  exists e' evs,
    process_chars_with_observer chars e = Some (e', evs) /\ run_ok chars 0 e e' evs.
Proof.
  intros Hm. apply process_chars_loop_ok; [done|]. unfold turns_left. case_match; lia.
Qed.

(** A property of engines that every turn keeps is kept by the loop. *)
Lemma process_chars_loop_preserves (P : SqlParserEngine -> Prop) chars :
  (forall i c e e' i' evs, chars !! i = Some c -> turn chars i c e = Some (e', i', evs) ->
                           P e -> P e') ->
  forall fuel i e e' evs,
    process_chars_loop fuel chars i e = Some (e', evs) -> P e -> P e'.
Proof.
  intros Hstep. induction fuel as [|fuel IH]; intros i e e' evs Hl He; simpl in Hl;
    destruct (chars !! i) as [c|] eqn:Hc; simplify_eq; [done| |done].
  destruct (turn chars i c e) as [[[e1 i1] evs1]|] eqn:Ht; [|done].
  destruct (process_chars_loop fuel chars i1 e1) as [[e2 evs2]|] eqn:Hr; [|done].
  simplify_eq. eapply IH; [exact Hr|]. by eapply Hstep.
Qed.

End Loop.
