(* ===== verification/EngineInvariant.v ===== *)
(** * Invariants of the engine

    [engine_ok] holds of a new engine and is kept by every turn of the character
    loop and by every line driver: the lexer mode is well-formed, the routine
    frames are coherent, the cached parenthesis depth is the height of the
    stack and the stack holds open parentheses only, the dollar mark belongs to
    a pending token, the buffer flag reflects the buffer and the finished
    statements are trimmed and not blank. *)
From S2P Require Import Prelude RustStr SqlText Boundary EngineText SplitState Engine SplitFrame EngineTurn EngineLoop.

(** ** The parser state *)

Definition paren_ok (s : SplitState) : Prop :=
  paren_depth s = length (paren_stack s) /\ Forall (fun c => c = "("%ch) (paren_stack s).

Definition dollar_ok (s : SplitState) : Prop :=
  token s = [] -> token_prefixed_with_dollar s = false.

Record state_ok (s : SplitState) : Prop := mkStateOk {
  ok_frames : frames_ok s;
  ok_parens : paren_ok s;
  ok_dollar : dollar_ok s
}.

Record engine_ok (e : SqlParserEngine) : Prop := mkEngineOk {
  ok_state : state_ok (state e);
  ok_mode : mode_ok (lex_mode (state e));
  ok_flag : flag_ok e;
  ok_statements : statements_ok e
}.

Create HintDb state_ok discriminated.

Section Invariant.
Context `{UnicodeTables}.
Implicit Types (s : SplitState) (e : SqlParserEngine) (chars : str) (i : nat) (c : char).

Lemma state_ok_default : state_ok SplitState_default.
Proof. by repeat constructor. Qed.

(** ** Operations that keep the state well-formed *)

Lemma state_ok_framed s s' : framed s s' -> state_ok s -> state_ok s'.
Proof.
  intros [_ _ Hps Hpd Ht Htd _ Hfr] [Hf Hp Hd]. constructor; [auto| |].
  - unfold paren_ok. by rewrite Hpd, Hps.
  - unfold dollar_ok. by rewrite Ht, Htd.
Qed.

Lemma flush_token_ok s : state_ok s -> state_ok (flush_token s).
Proof.
  intros [Hf Hp Hd]. destruct (flush_token_flushed s) as [_ _ Hps Hpd _ _ Hfr].
  constructor; [auto| |].
  - unfold paren_ok. by rewrite Hpd, Hps.
  - intros _. by apply flush_token_dollar.
Qed.

Lemma set_lex_mode_ok m s : state_ok s -> state_ok (set_lex_mode m s).
Proof. intros []. by constructor. Qed.

Lemma start_q_quote_ok d s : state_ok s -> state_ok (start_q_quote d s).
Proof. intros []. by constructor. Qed.

Lemma clear_block_stack_ok s : state_ok s -> state_ok (clear_block_stack s).
Proof. intros []. by constructor. Qed.

Lemma push_quoted_identifier_char_ok c s : state_ok s -> state_ok (push_quoted_identifier_char c s).
Proof. intros []. by constructor. Qed.

Lemma begin_quoted_identifier_ok s : state_ok s -> state_ok (begin_quoted_identifier s).
Proof. intros []. by constructor. Qed.

Lemma clear_skip_next_end_label_token_ok s :
  state_ok s -> state_ok (clear_skip_next_end_label_token s).
Proof. intros []. by constructor. Qed.

Lemma reset_after_statement_boundary_ok s :
  state_ok s -> state_ok (reset_after_statement_boundary s).
Proof. intros [_ _ Hd]. by repeat constructor. Qed.

Lemma close_foreign_module_source_ok s : state_ok s -> state_ok (close_foreign_module_source s).
Proof. intros [_ Hp Hd]. constructor; [by constructor|done|done]. Qed.

Lemma push_token_char_ok chars i c s : state_ok s -> state_ok (push_token_char chars i c s).
Proof.
  intros [Hf Hp Hd]. unfold push_token_char. cbv zeta.
  destruct (str_is_empty (token s)); constructor; try done;
    intros Ht; cbn [token upd] in Ht; unfold vec_push in Ht; by destruct (token s).
Qed.

Lemma track_parens_ok c n s :
  state_ok s -> state_ok (track_parens (SymbolRole_from_char c n) c s).
Proof.
  intros [Hf [Hd Hp] Hx]. unfold track_parens.
  destruct (SymbolRole_from_char c n) eqn:Hr; try by constructor.
  - unfold push_open_paren. constructor; [done| |done]. split; [done|].
    cbn [paren_stack upd]. unfold vec_push. apply Forall_app. split; [done|].
    constructor; [|done]. unfold SymbolRole_from_char in Hr.
    repeat case_match; simplify_eq. by apply N.eqb_eq.
  - unfold pop_close_paren. destruct (expected_open_paren c); [|by constructor].
    case_match; [|by constructor]. constructor; [done| |done]. split; [done|].
    cbn [paren_stack upd]. by apply Forall_vec_pop.
Qed.

Lemma flush_before_symbol_ok c s : state_ok s -> state_ok (flush_before_symbol c s).
Proof.
  intros Hs. unfold flush_before_symbol. case_match; [|by apply flush_token_ok].
  destruct Hs. by constructor.
Qed.

Lemma symbol_state_ok c n s : state_ok s -> state_ok (symbol_state c n s).
Proof.
  intros Hs. unfold symbol_state. cbv zeta.
  eapply state_ok_framed; [apply comma_framed|].
  eapply state_ok_framed; [apply pending_end_on_symbol_framed|].
  apply track_parens_ok. eapply state_ok_framed; [|by apply (flush_before_symbol_ok c)].
  etransitivity; [|apply if_state_on_close_paren_framed].
  etransitivity; [|apply if_state_on_symbol_framed].
  framed_tac.
Qed.

Lemma literal_start_ok s : state_ok s -> state_ok (literal_start s).
Proof.
  intros Hs. unfold literal_start. cbv zeta.
  eapply state_ok_framed; [apply observe_external_clause_literal_target_framed|].
  by apply flush_token_ok.
Qed.

Lemma finish_double_quote_ok s : state_ok s -> state_ok (finish_double_quote s).
Proof.
  intros Hs. unfold finish_double_quote, finish_quoted_identifier. cbv zeta.
  apply (set_lex_mode_ok LexMode_Idle) in Hs. revert Hs. generalize (set_lex_mode LexMode_Idle s).
  intros t Ht. destruct (quoted_identifier_buf t).
  - destruct (_ == _); [|done].
    by eapply state_ok_framed; [apply resolve_pending_end_on_separator_framed|].
  - eapply state_ok_framed; [apply resolve_pending_end_on_separator_with_token_framed|].
    eapply state_ok_framed; [apply observe_external_clause_quoted_identifier_target_framed|].
    eapply state_ok_framed; [apply observe_quoted_identifier_framed|]. destruct Ht. by constructor.
Qed.

Lemma finish_plain_quote_ok s : state_ok s -> state_ok (finish_plain_quote s).
Proof.
  intros Hs. unfold finish_plain_quote. cbv zeta. apply (set_lex_mode_ok LexMode_Idle) in Hs.
  destruct (_ == _); [|done].
  by eapply state_ok_framed; [apply resolve_pending_end_on_separator_framed|].
Qed.

Lemma prepare_semicolon_ok s : state_ok s -> state_ok (prepare_semicolon s).
Proof. apply state_ok_framed, prepare_semicolon_framed. Qed.

Lemma close_external_routine_ok s :
  state_ok s -> state_ok (close_external_routine_on_semicolon s).
Proof. apply state_ok_framed, close_external_routine_on_semicolon_framed. Qed.

Lemma consume_trigger_alias_ok s :
  state_ok s -> state_ok (consume_trigger_alias_subject_on_quoted_identifier s).
Proof. apply state_ok_framed, consume_trigger_alias_framed. Qed.

End Invariant.

#[export] Hint Resolve flush_token_ok set_lex_mode_ok start_q_quote_ok clear_block_stack_ok
  push_quoted_identifier_char_ok begin_quoted_identifier_ok clear_skip_next_end_label_token_ok
  reset_after_statement_boundary_ok close_foreign_module_source_ok push_token_char_ok
  symbol_state_ok literal_start_ok finish_double_quote_ok finish_plain_quote_ok
  prepare_semicolon_ok close_external_routine_ok consume_trigger_alias_ok : state_ok.

(** ** Turns *)

Section Turns.
Context `{UnicodeTables}.
Implicit Types (e : SqlParserEngine) (chars : str) (i : nat) (c : char).

Lemma state_finish e :
  state (finish_current_statement e) = reset_after_statement_boundary (state e).
Proof. unfold finish_current_statement, push_current_statement. cbv zeta. by case_match. Qed.

Lemma append_slice_state chars i n e e' : append_slice chars i n e = Some e' -> state e' = state e.
Proof. unfold append_slice. intros ?. case_match; simplify_eq. by rewrite state_append_all. Qed.

(** What a turn's result is held to. *)
Definition turn_ok (t : Turn) : Prop :=
  match t with Some (e', _, _) => state_ok (state e') | None => True end.

Lemma turn_ok_slice chars i n e k ev :
  (forall e', state e' = state e -> state_ok (state (k e'))) ->
  turn_ok match append_slice chars i n e with
          | None => None
          | Some e' => Some (k e', i + n, ev)
          end.
Proof.
  intros Hk. destruct (append_slice chars i n e) as [e'|] eqn:Ha; [|done].
  apply Hk. by eapply append_slice_state.
Qed.

Ltac turn_ok_tac :=
  repeat first
    [ match goal with
      | |- turn_ok (if ?b then _ else _) => destruct b
      | |- turn_ok (match append_slice _ _ _ _ with _ => _ end) =>
          apply (turn_ok_slice _ _ _ _ (fun e => e))
          || apply (turn_ok_slice _ _ _ _ (on_state _)); intros ? Hslice
      | |- turn_ok (match ?x with _ => _ end) => destruct x
      | |- turn_ok None => exact I
      end ];
  try (cbn [turn_ok];
       rewrite ?state_on_state, ?state_append_current_char, ?state_append_all;
       repeat match goal with
              | |- context [if ?b then _ else _] => destruct b
              end;
       rewrite ?state_on_state, ?state_append_current_char;
       repeat match goal with Hslice : state _ = state _ |- _ => rewrite Hslice; clear Hslice end;
       rewrite ?state_on_state;
       auto 8 with state_ok).

Ltac turn_ok_unfold op := intros; unfold op; cbv zeta; turn_ok_tac.

Lemma turn_line_comment_ok i c e : state_ok (state e) -> turn_ok (turn_line_comment i c e).
Proof. turn_ok_unfold turn_line_comment. Qed.

Lemma turn_block_comment_ok i c n e : state_ok (state e) -> turn_ok (turn_block_comment i c n e).
Proof. turn_ok_unfold turn_block_comment. Qed.

Lemma turn_q_quote_body_ok q d i c n e :
  state_ok (state e) -> turn_ok (turn_q_quote_body q d i c n e).
Proof. turn_ok_unfold turn_q_quote_body. Qed.

Lemma turn_q_quote_ok chars q d i c n e :
  state_ok (state e) -> turn_ok (turn_q_quote chars q d i c n e).
Proof.
  intros. unfold turn_q_quote. destruct (q_quote_prefix_has_boundary chars i);
    [|by apply turn_q_quote_body_ok].
  destruct (detect_q_quote_start chars i) as [[m q']|]; [|by apply turn_q_quote_body_ok].
  destruct (N.eqb q' q); [|by apply turn_q_quote_body_ok]. turn_ok_tac.
Qed.

Lemma turn_foreign_module_ok chars i c e :
  state_ok (state e) -> turn_ok (turn_foreign_module chars i c e).
Proof.
  intros Hs. unfold turn_foreign_module. destruct (_ && _); cbn [turn_ok];
    rewrite state_on_state; [auto with state_ok|].
  rewrite state_append_current_char. destruct Hs. by constructor.
Qed.

Lemma turn_foreign_inline_ok b i c e : state_ok (state e) -> turn_ok (turn_foreign_inline b i c e).
Proof.
  intros. unfold turn_foreign_inline. cbv zeta. cbn [turn_ok].
  rewrite state_on_state, state_append_current_char. auto with state_ok.
Qed.

Lemma turn_dollar_quote_ok chars tag i c e :
  state_ok (state e) -> turn_ok (turn_dollar_quote chars tag i c e).
Proof. turn_ok_unfold turn_dollar_quote. Qed.

Lemma turn_single_quote_ok i c n e : state_ok (state e) -> turn_ok (turn_single_quote i c n e).
Proof. turn_ok_unfold turn_single_quote. Qed.

Lemma turn_double_quote_ok i c n e : state_ok (state e) -> turn_ok (turn_double_quote i c n e).
Proof. turn_ok_unfold turn_double_quote. Qed.

Lemma turn_plain_quote_ok q i c n e : state_ok (state e) -> turn_ok (turn_plain_quote q i c n e).
Proof. turn_ok_unfold turn_plain_quote. Qed.

Lemma finish_state_ok e : state_ok (state e) -> state_ok (state (finish_current_statement e)).
Proof. rewrite state_finish. auto with state_ok. Qed.

Lemma split_pending_external_ok e : state_ok (state e) -> state_ok (state (split_pending_external e)).
Proof.
  intros. unfold split_pending_external, split_current_statement. cbv zeta.
  destruct (_ && _); [by apply finish_state_ok|done].
Qed.

Lemma on_state_ok f e : state_ok (f (state e)) -> state_ok (state (on_state f e)).
Proof. done. Qed.

#[local] Hint Resolve finish_state_ok split_pending_external_ok on_state_ok : state_ok.

Lemma turn_open_dash_comment_ok i e : state_ok (state e) -> turn_ok (turn_open_dash_comment i e).
Proof. turn_ok_unfold turn_open_dash_comment. Qed.

Lemma turn_open_hash_comment_ok i e : state_ok (state e) -> turn_ok (turn_open_hash_comment i e).
Proof. turn_ok_unfold turn_open_hash_comment. Qed.

Lemma turn_open_block_comment_ok i e : state_ok (state e) -> turn_ok (turn_open_block_comment i e).
Proof. turn_ok_unfold turn_open_block_comment. Qed.

Lemma turn_open_q_quote_ok chars i n d e :
  state_ok (state e) -> turn_ok (turn_open_q_quote chars i n d e).
Proof. turn_ok_unfold turn_open_q_quote. Qed.

Lemma turn_open_prefixed_quote_ok chars i n e :
  state_ok (state e) -> turn_ok (turn_open_prefixed_quote chars i n e).
Proof. turn_ok_unfold turn_open_prefixed_quote. Qed.

Lemma turn_open_dollar_quote_ok chars tag i e :
  state_ok (state e) -> turn_ok (turn_open_dollar_quote chars tag i e).
Proof. turn_ok_unfold turn_open_dollar_quote. Qed.

Lemma turn_open_foreign_inline_ok i c e :
  state_ok (state e) -> turn_ok (turn_open_foreign_inline i c e).
Proof. turn_ok_unfold turn_open_foreign_inline. Qed.

Lemma turn_open_single_quote_ok i c e :
  state_ok (state e) -> turn_ok (turn_open_single_quote i c e).
Proof. turn_ok_unfold turn_open_single_quote. Qed.

Lemma turn_open_double_quote_ok i c e :
  state_ok (state e) -> turn_ok (turn_open_double_quote i c e).
Proof. turn_ok_unfold turn_open_double_quote. Qed.

Lemma turn_open_plain_quote_ok m i c e :
  state_ok (state e) -> turn_ok (turn_open_plain_quote m i c e).
Proof. turn_ok_unfold turn_open_plain_quote. Qed.

Lemma handle_identifier_ok chars i e :
  state_ok (state e) -> state_ok (state (handle_identifier_start_candidate chars i e)).
Proof.
  intros Hs. unfold handle_identifier_start_candidate. cbv zeta. destruct (negb _); [done|].
  destruct (preview_identifier_upper chars i) as [w|]; [|done].
  assert (Hx : state_ok (state (identifier_external_boundary w e))).
  { unfold identifier_external_boundary, split_current_and_reset_external_boundary,
      split_current_statement. cbv zeta. destruct (_ && _); [|done].
    destruct (identifier_splits_external _ _); [auto with state_ok|].
    destruct (pending_implicit_external_top_level_split _); [|done]. destruct Hs. by constructor. }
  revert Hx. generalize (identifier_external_boundary w e). clear. intros e Hs.
  unfold identifier_with_boundary, split_current_statement. cbv zeta. destruct (_ && _); [|done].
  set (e1 := if pending_end (state e) == PendingEnd_End then _ else e).
  assert (H1 : state_ok (state e1)).
  { unfold e1. destruct (_ == _); [|done]. rewrite state_on_state.
    by eapply state_ok_framed; [apply resolve_pending_end_on_separator_framed|]. }
  destruct (_ =? _); auto with state_ok.
Qed.

Lemma turn_identifier_ok chars i c e :
  state_ok (state e) -> turn_ok (turn_identifier chars i c e).
Proof.
  intros Hs. unfold turn_identifier. cbv zeta. cbn [turn_ok].
  rewrite state_append_current_char, state_on_state.
  apply push_token_char_ok. by apply handle_identifier_ok.
Qed.

Lemma apply_semicolon_action_ok a c e :
  state_ok (state e) -> state_ok (state (apply_semicolon_action a c e)).
Proof.
  intros Hs. destruct a; cbn [apply_semicolon_action];
    rewrite ?state_on_state, ?state_append_current_char; auto with state_ok.
Qed.

Lemma turn_symbol_ok i c n e : state_ok (state e) -> turn_ok (turn_symbol i c n e).
Proof.
  intros Hs. unfold turn_symbol, prepare_semicolon_action. cbv zeta.
  destruct (_ == _); cbn [turn_ok].
  - apply apply_semicolon_action_ok. cbn [state upd].
    apply prepare_semicolon_ok. rewrite !state_on_state. auto with state_ok.
  - rewrite state_append_current_char, state_on_state. auto with state_ok.
Qed.

Lemma turn_state_ok chars i c e : state_ok (state e) -> turn_ok (turn chars i c e).
Proof.
  intros Hs. unfold turn. cbv zeta. destruct (lex_mode (state e)).
  - unfold turn_idle, turn_idle_literals, turn_idle_quotes. cbv zeta.
    repeat match goal with
           | |- turn_ok (if ?b then _ else _) => destruct b
           | |- turn_ok (match ?x with _ => _ end) => destruct x
           end;
    auto using turn_open_dash_comment_ok, turn_open_hash_comment_ok, turn_open_block_comment_ok,
      turn_open_q_quote_ok, turn_open_prefixed_quote_ok, turn_open_dollar_quote_ok,
      turn_open_foreign_inline_ok, turn_open_single_quote_ok, turn_open_double_quote_ok,
      turn_open_plain_quote_ok, turn_identifier_ok, turn_symbol_ok.
  - by apply turn_single_quote_ok.
  - by apply turn_double_quote_ok.
  - by apply turn_plain_quote_ok.
  - by apply turn_plain_quote_ok.
  - by apply turn_line_comment_ok.
  - by apply turn_block_comment_ok.
  - by apply turn_q_quote_ok.
  - by apply turn_dollar_quote_ok.
  - by apply turn_foreign_module_ok.
  - by apply turn_foreign_inline_ok.
Qed.

(** ** The loop keeps the engine well-formed *)

Lemma process_chars_engine_ok chars e :
  engine_ok e ->
  exists e' evs,
    process_chars_with_observer chars e = Some (e', evs) /\ run_ok chars 0 e e' evs /\
    engine_ok e'.
Proof.
  intros [Hs Hm Hf Hst]. destruct (process_chars_ok chars e Hm) as (e' & evs & Hp & Hr).
  exists e', evs. split; [done|]. split; [done|]. destruct Hr as [Ht _ Hm' Hf'].
  split; [|done|by apply Hf'|by eapply produced_statements_ok].
  unfold process_chars_with_observer in Hp. revert Hp Hs.
  apply (process_chars_loop_preserves (fun e => state_ok (state e))).
  intros i c e1 e2 i' evs' _ Ht1 H1. pose proof (turn_state_ok chars i c e1 H1) as Hok.
  by rewrite Ht1 in Hok.
Qed.

End Turns.
