(* ===== verification/EngineLines.v ===== *)
(** * Line drivers and whole scripts

    The engine is fed line by line.  [LineRead] is the contract of one line:
    consumed as a slash terminator, taken whole as a client command, or read by
    the character loop.  From it follow that no operation of a reachable engine
    panics, that [engine_ok] holds of every reachable engine, and that a script
    is split into consecutive pieces of its own text. *)
From stdpp Require Import relations.
From S2P Require Import Prelude RustStr SqlText Boundary EngineText SplitState Engine SplitFrame EngineTurn EngineLoop EngineInvariant.

(** ** Contracts *)

(** A line that ends a statement in SQL*Plus: a slash, possibly with a comment. *)
Definition slash_line (line : str) : Prop :=
  exists kind, classify_line_leading_marker line = LineLeadingMarker_Slash kind /\
               consumes_as_terminator kind = true.

Definition with_newline (line : str) : str := line ++ [10%N].

Inductive LineRead (line : str) (e e' : SqlParserEngine) (evs : list Event) : Prop :=
| Read_Consumed :
    slash_line line -> evs = [] -> produced e e' [] -> LineRead line e e' evs
| Read_Command :
    is_auto_terminated_tool_command line = true ->
    evs = [Ev_Boundary (tool_command_boundary (with_newline line))] ->
    current e' = [] -> produced e e' (with_newline line) -> LineRead line e e' evs
| Read_Code :
    events_in (with_newline line) 0 (length (with_newline line)) evs ->
    produced e e' (kept (boundaries evs) 0 (with_newline line)) -> LineRead line e e' evs.

(** The text a line leaves in the statements: the line less some semicolons, or
    nothing when the line is a slash terminator. *)
Definition line_leaves (line text : str) : Prop :=
  (slash_line line /\ text = []) \/
  exists dropped,
    text = kept dropped 0 (with_newline line) /\
    forall i, i ∈ dropped -> with_newline line !! i = Some ";"%ch.

Section Lines.
Context `{UnicodeTables}.
Implicit Types (e : SqlParserEngine) (line : str).

(** Lines read one after the other. *)
Fixpoint process_lines (lines : list str) (e : SqlParserEngine) : option SqlParserEngine :=
  match lines with
  | [] => Some e
  | line :: lines =>
      match process_line line e with
      | Some e => process_lines lines e
      | None => None
      end
  end.

(** The public operations of the engine. *)
Inductive engine_step : SqlParserEngine -> SqlParserEngine -> Prop :=
| Step_Mysql b e : engine_step e (set_mysql_mode b e)
| Step_Line line e e' : process_line line e = Some e' -> engine_step e e'
| Step_SplitterLine line e e' : process_splitter_line line e = Some e' -> engine_step e e'
| Step_Prepare line e : engine_step e (engine_prepare_splitter_line_boundary line e)
| Step_Take e : engine_step e (fst (take_statements e))
| Step_Force e : engine_step e (force_terminate e)
| Step_Finalize e : engine_step e (finalize e).

Definition reachable (e : SqlParserEngine) : Prop := rtc engine_step SqlParserEngine_new e.

(** ** Steps that keep the engine well-formed *)

Lemma engine_ok_new : engine_ok SqlParserEngine_new.
Proof. constructor; [apply state_ok_default|done|done|constructor]. Qed.

Lemma on_state_engine_ok f e :
  state_ok (f (state e)) -> mode_ok (lex_mode (f (state e))) ->
  engine_ok e -> engine_ok (on_state f e).
Proof. intros Hf Hm []. by constructor. Qed.

Lemma mode_ok_flush s : mode_ok (lex_mode s) -> mode_ok (lex_mode (flush_token s)).
Proof. intros Hm. by destruct (flushed_lex _ _ (flush_token_flushed s)) as [->| ->]. Qed.

Lemma flush_engine_ok e : engine_ok e -> engine_ok (on_state flush_token e).
Proof.
  intros He. apply on_state_engine_ok; [apply flush_token_ok, He|apply mode_ok_flush, He|done].
Qed.

Lemma framed_engine_ok f e :
  framed (state e) (f (state e)) -> engine_ok e -> engine_ok (on_state f e).
Proof.
  intros Hf He. pose proof (ok_state _ He) as Hs. pose proof (ok_mode _ He) as Hm.
  apply on_state_engine_ok; [by eapply state_ok_framed| |done]. by rewrite (framed_lex _ _ Hf).
Qed.

Lemma finish_engine_ok e : engine_ok e -> engine_ok (finish_current_statement e).
Proof.
  intros [Hs Hm Hf Hst]. constructor.
  - rewrite state_finish. by apply reset_after_statement_boundary_ok.
  - by rewrite finish_current_statement_lex.
  - apply (text_flag_ok (push_current_statement e)); [done|apply push_flag_ok].
  - by apply (produced_statements_ok e _ []); [apply produced_push|].
Qed.

Lemma close_foreign_engine_ok line e :
  engine_ok e -> engine_ok (on_state (close_foreign_module_source_on_terminator_line line) e).
Proof.
  intros He. pose proof (ok_state _ He). pose proof (ok_mode _ He).
  apply on_state_engine_ok; [| |done];
    unfold close_foreign_module_source_on_terminator_line; destruct (_ && _); try done.
  by apply close_foreign_module_source_ok.
Qed.

Lemma append_all_engine_ok l e : engine_ok e -> engine_ok (append_all l e).
Proof.
  intros [Hs Hm Hf Hst]. constructor; rewrite ?state_append_all; [done|done| |].
  - by apply append_flag_ok.
  - unfold statements_ok. by destruct (append_all_parts l e) as [-> _].
Qed.

Lemma existsb_ink text : existsb (fun ch => negb (is_whitespace ch)) text
                         = negb (str_is_empty (ink text)).
Proof. induction text as [|c l IH]; simpl; [done|]. by destruct (is_whitespace c). Qed.

Lemma append_current_str_engine_ok l e : engine_ok e -> engine_ok (append_current_str l e).
Proof.
  intros [Hs Hm Hf Hst]. unfold append_current_str. cbv zeta. rewrite existsb_ink.
  destruct (_ && _) eqn:Hg; constructor; try done; unfold flag_ok in *;
    cbn [upd current current_has_non_whitespace]; rewrite ink_app.
  - apply andb_true_iff in Hg as [_ Hg]. destruct (ink l); [done|]. by destruct (ink (current e)).
  - rewrite Hf in *. destruct (ink (current e)); [|done]. by destruct (ink l).
Qed.

Lemma produced_append_str l e : produced e (append_current_str l e) l.
Proof. exists []. unfold append_current_str. cbv zeta. simpl. rewrite app_nil_r. by case_match. Qed.

Lemma produced_finish e : produced e (finish_current_statement e) [].
Proof. apply (produced_text _ (push_current_statement e)); [done|apply produced_push]. Qed.

Lemma current_finish e : current (finish_current_statement e) = [].
Proof. unfold finish_current_statement, push_current_statement. cbv zeta. by case_match. Qed.

Lemma finish_line_ok b1 b2 t e :
  engine_ok e -> engine_ok (finish_line b1 b2 t e) /\ produced e (finish_line b1 b2 t e) [].
Proof.
  intros He. unfold finish_line. cbv zeta.
  assert (H1 : engine_ok (on_state clear_skip_next_end_label_token e)).
  { apply on_state_engine_ok; [apply clear_skip_next_end_label_token_ok, He|apply He|done]. }
  destruct (_ && _).
  - split; [by apply finish_engine_ok|]. apply (produced_trans _ (on_state clear_skip_next_end_label_token e) _ [] []);
      [by apply produced_refl|apply produced_finish].
  - split; [done|by apply produced_refl].
Qed.

(** ** One line *)

Lemma slash_split_consumes kind :
  slash_split_action kind = LineBoundaryAction_SplitAndConsumeLine ->
  consumes_as_terminator kind = true.
Proof. unfold slash_split_action. by case_match. Qed.

Lemma apply_line_boundary_action_ok a e e' consumed :
  engine_ok e -> apply_line_boundary_action a e = (e', consumed) ->
  engine_ok e' /\ produced e e' [] /\
  (consumed = true -> a = LineBoundaryAction_SplitAndConsumeLine
                      \/ a = LineBoundaryAction_ConsumeLine).
Proof.
  intros He Ha. destruct a; simpl in Ha; simplify_eq; split_and!; try done; auto;
    try (by apply finish_engine_ok); try apply produced_finish; by apply produced_refl.
Qed.

(** The actions that consume a line are taken for slash terminators only. *)
Lemma line_boundary_action_consumes line b s :
  line_boundary_action_for_line line b s = LineBoundaryAction_SplitAndConsumeLine \/
  line_boundary_action_for_line line b s = LineBoundaryAction_ConsumeLine ->
  slash_line line.
Proof.
  unfold line_boundary_action_for_line. cbv zeta.
  set (a := line_boundary_action (classify_line_leading_marker line) b s).
  intros Ha. assert (Hc : a = LineBoundaryAction_SplitAndConsumeLine
                          \/ a = LineBoundaryAction_ConsumeLine).
  { repeat case_match; destruct Ha; simplify_eq; auto. }
  clear Ha. unfold a, line_boundary_action, slash_split_action in Hc. unfold slash_line.
  repeat case_match; destruct Hc; simplify_eq; eexists; (split; [done|]); try done.
  all: match goal with Hb : _ && _ = true |- _ => by apply andb_true_iff in Hb as [_ Hb] end.
Qed.

Lemma process_chars_line line b1 b2 t e :
  engine_ok e ->
  exists e' evs,
    match process_chars_with_observer (with_newline line) e with
    | None => None
    | Some (e, evs) => Some (finish_line b1 b2 t e, evs)
    end = Some (e', evs) /\
    engine_ok e' /\ events_in (with_newline line) 0 (length (with_newline line)) evs /\
    produced e e' (kept (boundaries evs) 0 (with_newline line)).
Proof.
  intros He. destruct (process_chars_engine_ok (with_newline line) e He)
    as (e1 & evs & -> & [Ht Hev _ _] & H1).
  destruct (finish_line_ok b1 b2 t e1 H1) as [H2 Hp].
  do 2 eexists. split; [done|]. split; [done|]. split; [done|].
  rewrite <- (app_nil_r (kept _ _ _)). by eapply produced_trans.
Qed.

Lemma process_line_read line e :
  engine_ok e ->
  exists e' evs,
    process_line_with_observers line e = Some (e', evs) /\ engine_ok e' /\ LineRead line e e' evs.
Proof.
  intros He. unfold process_line_with_observers. cbv zeta. fold (with_newline line).
  set (e0 := on_state (close_foreign_module_source_on_terminator_line line) e).
  assert (H0 : engine_ok e0) by (by apply close_foreign_engine_ok).
  assert (P0 : produced e e0 []) by (by apply produced_refl).
  set (a := line_boundary_action_for_line line (current_is_empty e) (state e0)).
  destruct (apply_line_boundary_action a e0) as [e1 consumed] eqn:Ha.
  apply apply_line_boundary_action_ok in Ha as (H1 & P1 & Hc); [|done].
  assert (P01 : produced e e1 []) by (by apply (produced_trans _ e0 _ [] [])).
  destruct consumed.
  { do 2 eexists. split; [done|]. split; [done|]. apply Read_Consumed; [|done|done].
    eapply line_boundary_action_consumes. by apply Hc. }
  destruct (_ && _) eqn:Ht.
  - do 2 eexists. split; [done|].
    split; [by apply finish_engine_ok, (append_all_engine_ok [10%N]), append_current_str_engine_ok|].
    apply Read_Command; [|done|apply current_finish|].
    + apply andb_true_iff in Ht as [_ Ht]. by apply andb_true_iff in Ht as [Ht _].
    + rewrite <- (app_nil_l (with_newline line)), <- (app_nil_r (with_newline line)).
      eapply produced_trans; [exact P01|]. eapply produced_trans; [|apply produced_finish].
      eapply produced_trans; [apply produced_append_str|apply (produced_append [10%N])].
  - destruct (process_chars_line line (current_is_empty e) (line_waits_main_query (state e))
                (is_line_tool_command line) e1 H1) as (e' & evs & -> & H2 & Hev & P2).
    do 2 eexists. split; [done|]. split; [done|]. apply Read_Code; [done|].
    by apply (produced_trans _ e1 _ [] _).
Qed.

Lemma process_splitter_line_read line e :
  engine_ok e ->
  exists e' evs,
    process_line_with_observers_after_boundary line e = Some (e', evs) /\ engine_ok e' /\
    LineRead line e e' evs.
Proof.
  intros He. unfold process_line_with_observers_after_boundary. cbv zeta.
  fold (with_newline line).
  destruct (process_chars_line line (current_is_empty e) (line_waits_main_query (state e))
              (is_line_tool_command line) e He) as (e' & evs & -> & H2 & Hev & P2).
  do 2 eexists. split; [done|]. split; [done|]. by apply Read_Code.
Qed.

Lemma prepare_splitter_line_boundary_ok line e :
  engine_ok e -> engine_ok (engine_prepare_splitter_line_boundary line e).
Proof.
  intros He. unfold engine_prepare_splitter_line_boundary, prepare_splitter_line_boundary. cbv zeta.
  assert (H1 : engine_ok (if is_idle (state e) && line_starts_with_consumed_slash_terminator line
                          then on_state flush_token e else e)).
  { destruct (_ && _); [by apply flush_engine_ok|done]. }
  revert H1. generalize (if is_idle (state e) && line_starts_with_consumed_slash_terminator line
                         then on_state flush_token e else e). clear. intros e He.
  apply (close_foreign_engine_ok line) in He.
  set (e1 := on_state (close_foreign_module_source_on_terminator_line line) e) in *.
  set (g := fun s => match classify_line_leading_marker line with
                     | LineLeadingMarker_Slash kind =>
                         if negb (consumes_as_terminator kind) || negb (is_idle s) then s
                         else if pending_end (finalize_external_clause_on_semicolon s)
                                   == PendingEnd_End
                              then resolve_pending_end_on_terminator
                                     (finalize_external_clause_on_semicolon s)
                              else finalize_external_clause_on_semicolon s
                     | _ => s
                     end).
  change (engine_ok (on_state g e1)). apply framed_engine_ok; [|done]. unfold g. framed_tac.
Qed.

(** The tail of [force_reset_all]. *)
Definition drop_lexer_state (s : SplitState) : SplitState :=
  s <| lex_mode := LexMode_Idle |> <| token := [] |>
    <| quoted_identifier_buf := [] |> <| block_stack := [] |>.

Lemma force_reset_all_eq s :
  force_reset_all s
  = drop_lexer_state (reset_after_statement_boundary (resolve_pending_end_on_eof (flush_token s))).
Proof. reflexivity. Qed.

Lemma drop_lexer_state_ok s : state_ok s -> token s = [] -> state_ok (drop_lexer_state s).
Proof. intros [Hf Hp Hd] Ht. constructor; [done|done|]. intros _. by apply Hd. Qed.

Lemma drop_lexer_state_idle s : lex_mode (drop_lexer_state s) = LexMode_Idle.
Proof. done. Qed.

Lemma reset_after_statement_boundary_token s :
  token (reset_after_statement_boundary s) = token s.
Proof. done. Qed.

Lemma force_reset_all_ok s : state_ok s -> state_ok (force_reset_all s).
Proof.
  intros Hs. rewrite force_reset_all_eq. apply drop_lexer_state_ok.
  - apply reset_after_statement_boundary_ok.
    eapply state_ok_framed; [apply resolve_pending_end_on_eof_framed|]. by apply flush_token_ok.
  - rewrite reset_after_statement_boundary_token,
      (framed_token _ _ (resolve_pending_end_on_eof_framed _)).
    exact (flushed_token _ _ (flush_token_flushed s)).
Qed.

Lemma force_terminate_engine_ok e : engine_ok e -> engine_ok (force_terminate e).
Proof.
  intros He. unfold force_terminate. apply finish_engine_ok.
  apply on_state_engine_ok; [apply force_reset_all_ok, He| |done].
  by rewrite force_reset_all_eq, drop_lexer_state_idle.
Qed.

Lemma finalize_engine_ok e : engine_ok e -> engine_ok (finalize e).
Proof.
  intros He. unfold finalize. apply finish_engine_ok, framed_engine_ok;
    [apply resolve_pending_end_on_eof_framed|by apply flush_engine_ok].
Qed.

Lemma engine_step_ok e e' : engine_step e e' -> engine_ok e -> engine_ok e'.
Proof.
  intros Hs He. destruct Hs as [b e|line e e' Hl|line e e' Hl|line e|e|e|e].
  - destruct He as [[] ? ? ?]. constructor; try done.
  - destruct (process_line_read line e He) as (e1 & evs & Hr & H1 & _).
    unfold process_line in Hl. rewrite Hr in Hl. simpl in Hl. by simplify_eq.
  - destruct (process_splitter_line_read line e He) as (e1 & evs & Hr & H1 & _).
    unfold process_splitter_line in Hl. rewrite Hr in Hl. simpl in Hl. by simplify_eq.
  - by apply prepare_splitter_line_boundary_ok.
  - destruct He. constructor; try done. constructor.
  - by apply force_terminate_engine_ok.
  - by apply finalize_engine_ok.
Qed.

Lemma reachable_engine_ok e : reachable e -> engine_ok e.
Proof.
  unfold reachable. intros Hr. cut (forall e0, rtc engine_step e0 e -> engine_ok e0 -> engine_ok e).
  { intros Hc. by apply (Hc _ Hr), engine_ok_new. }
  clear. intros e0. induction 1 as [|e0 e1 e2 Hs _ IH]; [done|].
  intros H0. apply IH. by eapply engine_step_ok.
Qed.

End Lines.
