(* ===== verification/LexicalScan.v ===== *)
(** * Lexical spans of a text

    The scan of a whole text ([lexical_spans]) always succeeds; the spans it
    returns are sorted, disjoint and not empty, cover exactly the bytes of the
    character ranges the scan observed, and [lexical_kind_at], a binary search,
    finds the span around an offset whenever there is one. *)
From Stdlib Require Import Sorted.
From S2P Require Import Prelude RustStr SqlText Boundary EngineText SplitState Engine SplitFrame EngineTurn EngineLoop EngineInvariant EngineLines.

Implicit Types (spans : list LexicalSpan) (k : LexicalKind).

(** ** Sorted spans *)

Definition span_before (a b : LexicalSpan) : Prop := span_end a <= span_start b.

Definition spans_ok (spans : list LexicalSpan) : Prop :=
  StronglySorted span_before spans /\ Forall (fun s => span_start s < span_end s) spans.

(** All spans end at or before [bound]. *)
Definition spans_below (bound : nat) (spans : list LexicalSpan) : Prop :=
  Forall (fun s => span_end s <= bound) spans.

Lemma spans_ok_snoc spans s :
  spans_ok spans -> spans_below (span_start s) spans -> span_start s < span_end s ->
  spans_ok (spans ++ [s]).
Proof.
  intros [Hs Hn] Hb Hlt. split; [|apply Forall_app; by repeat constructor].
  clear Hn. induction Hs as [|x l Hl IH Hx]; simpl; [by repeat constructor|].
  inversion Hb; subst. constructor; [by apply IH|]. apply Forall_app. by repeat constructor.
Qed.

Lemma spans_ok_pop spans s :
  spans_ok (spans ++ [s]) -> spans_ok spans /\ spans_below (span_start s) spans /\
                             span_start s < span_end s.
Proof.
  intros [Hs Hn]. rewrite Forall_app, Forall_singleton in Hn. destruct Hn as [Hn Hlt].
  split; [split; [|done]|split; [|done]]; clear Hn Hlt.
  - induction spans as [|x l IH]; [constructor|]. inversion Hs as [|? ? Hl Hx]; subst.
    constructor; [by apply IH|]. rewrite Forall_app in Hx. tauto.
  - induction spans as [|x l IH]; [constructor|]. inversion Hs as [|? ? Hl Hx]; subst.
    constructor; [|by apply IH]. rewrite Forall_app, Forall_singleton in Hx. apply Hx.
Qed.

(** The offset [x] is covered with kind [k]. *)
Definition covered (spans : list LexicalSpan) (x : nat) (k : LexicalKind) : Prop :=
  exists s, s ∈ spans /\ span_start s <= x < span_end s /\ span_kind s = k.

Lemma covered_app a b x k : covered (a ++ b) x k <-> covered a x k \/ covered b x k.
Proof. unfold covered. setoid_rewrite elem_of_app. naive_solver. Qed.

Lemma covered_one s x k : covered [s] x k <-> span_start s <= x < span_end s /\ span_kind s = k.
Proof. unfold covered. setoid_rewrite list_elem_of_singleton. naive_solver. Qed.

(** ** Pushing a span *)

(** Pushing at or after the end of the last span keeps the list sorted and adds
    exactly the new range. *)
Lemma push_lexical_span_ok spans a b k :
  spans_ok spans -> spans_below a spans -> a < b ->
  spans_ok (push_lexical_span spans a b k) /\
  spans_below b (push_lexical_span spans a b k) /\
  (forall x j, covered (push_lexical_span spans a b k) x j <->
               covered spans x j \/ (a <= x < b /\ j = k)).
Proof.
  intros Hs Hb Hlt. unfold push_lexical_span. rewrite (proj2 (Nat.leb_gt _ _)) by done.
  assert (Hsnoc : let l := spans ++ [mkLexicalSpan a b k] in
    spans_ok l /\ spans_below b l /\
    (forall x j, covered l x j <-> covered spans x j \/ (a <= x < b /\ j = k))).
  { cbv zeta. split_and!; [by apply spans_ok_snoc| |].
    - apply Forall_app. split; [|by repeat constructor].
      eapply Forall_impl; [exact Hb|]. simpl. intros. lia.
    - intros x j. rewrite covered_app, covered_one. simpl. naive_solver. }
  destruct (last spans) as [l|] eqn:Hl; [|done].
  destruct (_ && _) eqn:Hm; [|done]. clear Hsnoc.
  apply andb_true_iff in Hm as [He%Nat.eqb_eq Hk%bool_decide_eq_true].
  apply last_Some in Hl as [spans' ->]. unfold vec_pop. rewrite removelast_last.
  apply spans_ok_pop in Hs as (Hs & Hb' & Hlt').
  split_and!.
  - apply spans_ok_snoc; simpl; [done|done|lia].
  - apply Forall_app. split; [|by repeat constructor].
    eapply Forall_impl; [exact Hb'|]. simpl. intros. lia.
  - intros x j. rewrite !covered_app, !covered_one. simpl. split.
    + intros [?|[Hx ?]]; [by left; left|]. destruct (decide (x < a)); [|right; split; [lia|congruence]].
      left; right. split; [lia|done].
    + intros [[?|[? ?]]|[? ->]]; [by left|right..]; (split; [lia|done]).
Qed.

(** ** Binary search *)

Section PartitionPoint.
Context {A : Type} (p : A -> bool) (l : list A).

(** [p] holds of a prefix of [l] only. *)
Definition partitioned : Prop :=
  forall i j x y, i <= j -> l !! i = Some x -> l !! j = Some y -> p y = true -> p x = true.

Lemma partition_point_loop_spec fuel lo hi :
  partitioned -> hi - lo <= fuel -> lo <= hi <= length l ->
  (forall i x, i < lo -> l !! i = Some x -> p x = true) ->
  (forall i x, hi <= i -> l !! i = Some x -> p x = false) ->
  let n := partition_point_loop fuel p l lo hi in
  (forall i x, i < n -> l !! i = Some x -> p x = true) /\
  (forall i x, n <= i -> l !! i = Some x -> p x = false).
Proof.
  intros Hp. revert lo hi. induction fuel as [|fuel IH]; intros lo hi Hf Hr Hlo Hhi;
    cbn [partition_point_loop].
  { assert (lo = hi) by lia. subst. done. }
  destruct (Nat.leb_spec hi lo).
  { assert (lo = hi) by lia. subst. done. }
  assert (Hmid : lo <= lo + (hi - lo) / 2 < hi).
  { pose proof (Nat.div_lt (hi - lo) 2 ltac:(lia) ltac:(lia)). lia. }
  set (mid := lo + (hi - lo) / 2) in *. clearbody mid.
  destruct (lookup_lt_is_Some_2 l mid ltac:(lia)) as [m Hm]. rewrite Hm.
  destruct (p m) eqn:Hpm; apply IH; try lia; try done.
  - intros i x Hi Hx. destruct (decide (i < lo)); [by eapply Hlo|].
    eapply (Hp i mid x m); [lia|done|done|done].
  - intros i x Hi Hx. destruct (p x) eqn:Hpx; [|done].
    rewrite (Hp mid i m x) in Hpm; done.
Qed.

Lemma partition_point_spec :
  partitioned ->
  (forall i x, i < partition_point p l -> l !! i = Some x -> p x = true) /\
  (forall i x, partition_point p l <= i -> l !! i = Some x -> p x = false).
Proof.
  intros Hp. apply partition_point_loop_spec; [done|lia|lia|lia|].
  intros i x Hi Hx. apply lookup_lt_Some in Hx. lia.
Qed.

End PartitionPoint.

Lemma StronglySorted_lookup {A} (R : A -> A -> Prop) (l : list A) i j x y :
  StronglySorted R l -> i < j -> l !! i = Some x -> l !! j = Some y -> R x y.
Proof.
  intros Hs. revert i j. induction Hs as [|z l Hl IH Hz]; intros i j Hij Hx Hy; [done|].
  destruct j as [|j]; [lia|]. destruct i as [|i]; simpl in *.
  - simplify_eq. rewrite Forall_forall in Hz. apply Hz. by eapply list_elem_of_lookup_2.
  - eapply IH; [|done|done]. lia.
Qed.

Lemma spans_partitioned spans x :
  spans_ok spans -> partitioned (fun s => span_end s <=? x) spans.
Proof.
  intros [Hs Hn] i j a b Hij Ha Hb Hp. apply Nat.leb_le in Hp. apply Nat.leb_le.
  destruct (decide (i = j)) as [->|]; [by simplify_eq|].
  assert (Hab : span_before a b) by (eapply StronglySorted_lookup; [exact Hs| |done|done]; lia).
  rewrite Forall_forall in Hn. apply list_elem_of_lookup_2, Hn in Hb.
  unfold span_before in Hab. lia.
Qed.

Lemma lexical_kind_at_spec spans x k :
  spans_ok spans -> lexical_kind_at spans x = Some k <-> covered spans x k.
Proof.
  intros Hs. unfold lexical_kind_at. cbv zeta.
  destruct (partition_point_spec _ spans (spans_partitioned spans x Hs)) as [Hlo Hhi].
  set (n := partition_point _ spans) in *. clearbody n. split.
  - intros Hk. destruct (spans !! n) as [s|] eqn:Hn; [|done].
    unfold span_contains in Hk. case_match eqn:Hc; simplify_eq.
    apply andb_true_iff in Hc as [?%Nat.leb_le ?%Nat.ltb_lt].
    exists s. split; [by eapply list_elem_of_lookup_2|done].
  - intros (s & [i Hi]%list_elem_of_lookup & Hx & Hk).
    assert (Hin : i = n).
    { destruct (decide (i < n)) as [Hl|Hl].
      { apply (Hlo i s Hl) in Hi. apply Nat.leb_le in Hi. lia. }
      destruct (decide (i = n)); [done|].
      destruct (lookup_lt_is_Some_2 spans n) as [t Ht].
      { apply lookup_lt_Some in Hi. lia. }
      assert (span_before t s) by (eapply StronglySorted_lookup; [apply Hs| |done|done]; lia).
      pose proof (Hhi n t ltac:(lia) Ht) as He. apply Nat.leb_gt in He.
      unfold span_before in *. lia. }
    subst i. rewrite Hi. unfold span_contains.
    rewrite (proj2 (Nat.leb_le _ _)), (proj2 (Nat.ltb_lt _ _)) by lia. simpl. by rewrite Hk.
Qed.

(** ** Observed character ranges *)

Definition span_events (lo hi : nat) (evs : list Event) : Prop :=
  Forall (fun ev => exists a b k, ev = Ev_Span a b k /\ lo <= a /\ a < b /\ b <= hi) evs /\
  StronglySorted ev_before evs.

Lemma span_events_nil lo hi : span_events lo hi [].
Proof. split; constructor. Qed.

Lemma span_events_app lo mid hi a b :
  lo <= mid <= hi -> span_events lo mid a -> span_events mid hi b -> span_events lo hi (a ++ b).
Proof.
  intros Hm [Ha Sa] [Hb Sb]. split.
  - apply Forall_app. split; (eapply Forall_impl; [eassumption|]); simpl;
      intros ev (x & y & k & -> & ? & ? & ?); exists x, y, k; (split; [done|lia]).
  - induction Sa as [|x a Sa IH Hx]; simpl; [done|]. inversion Ha as [|? ? Hxl Ha']; subst.
    constructor; [by apply IH|]. apply Forall_app. split; [done|].
    eapply Forall_impl; [exact Hb|]. simpl.
    intros ev (y1 & y2 & k & -> & ? & ? & ?).
    destruct Hxl as (x1 & x2 & k' & -> & ? & ? & ?). simpl. lia.
Qed.

Lemma only_spans_events chars hi evs : events_in chars 0 hi evs -> span_events 0 hi (only_spans evs).
Proof.
  intros [He Hs]. unfold only_spans. split.
  - induction He as [|ev evs (Hlo & Hhi & Ht) He IH]; simpl; [constructor|].
    inversion Hs; subst. destruct ev as [| |a b k]; simpl in *; [by apply IH|by apply IH|].
    constructor; [|by apply IH]. exists a, b, k. split; [done|lia].
  - clear He. induction Hs as [|ev evs Hs IH Hx]; simpl; [constructor|].
    destruct ev as [| |a b k]; [done|done|]. constructor; [done|]. clear IH Hs.
    induction Hx as [|y evs Hy Hx IH]; simpl; [constructor|]. by destruct y; [| |constructor].
Qed.

Lemma shift_span_events off hi evs :
  span_events 0 hi evs -> span_events off (off + hi) (shift_event off <$> evs).
Proof.
  intros [He Hs]. split.
  - apply Forall_fmap. eapply Forall_impl; [exact He|].
    intros ev (a & b & j & -> & ? & ? & ?). exists (off + a), (off + b), j. split; [done|lia].
  - clear He. induction Hs as [|ev evs Hs IH Hx]; simpl; constructor; [done|].
    apply Forall_fmap. eapply Forall_impl; [exact Hx|].
    intros y Hy. destruct ev, y; simpl in *; lia.
Qed.

(** ** Bytes *)

Lemma byte_offset_lt text i j : i < j -> j <= length text -> byte_offset text i < byte_offset text j.
Proof.
  intros Hij Hj. unfold byte_offset.
  rewrite <- (take_drop i (take j text)), utf8_len_app, take_take, Nat.min_l by lia.
  destruct (drop i (take j text)) as [|c l] eqn:Hd.
  - apply (f_equal length) in Hd. rewrite length_drop, length_take in Hd. simpl in Hd. lia.
  - unfold utf8_len at 3. simpl. pose proof (len_utf8_pos c). lia.
Qed.

Lemma byte_offset_le text i j : i <= j -> j <= length text -> byte_offset text i <= byte_offset text j.
Proof.
  intros Hij Hj. destruct (decide (i = j)) as [->|]; [done|].
  pose proof (byte_offset_lt text i j ltac:(lia) Hj). lia.
Qed.

(** The byte spans made of observed ranges. *)
Lemma observe_spans_ok text lo hi evs spans :
  span_events lo hi evs -> lo <= hi <= length text -> spans_ok spans ->
  spans_below (byte_offset text lo) spans ->
  let spans' := fold_left (observe_span text) evs spans in
  spans_ok spans' /\ spans_below (byte_offset text hi) spans' /\
  (forall x k, covered spans' x k <->
     covered spans x k \/
     exists a b, Ev_Span a b k ∈ evs /\ byte_offset text a <= x < byte_offset text b).
Proof.
  intros [He Hs] Hr. cbv zeta. revert lo spans He Hr.
  induction evs as [|ev evs IH]; intros lo spans He Hr Hok Hb; simpl.
  - split; [done|]. split.
    + eapply Forall_impl; [exact Hb|]. simpl. intros s Hse.
      pose proof (byte_offset_le text lo hi ltac:(lia) ltac:(lia)). lia.
    + intros x k. split; [by left|]. intros [?|(a & b & Hin & _)]; [done|]. by apply not_elem_of_nil in Hin.
  - inversion He as [|? ? (a & b & k & -> & Ha & Hab & Hbh) He']; subst.
    inversion Hs as [|? ? Hs' Hx]; subst. simpl.
    rewrite (proj2 (Nat.leb_le a _)), (proj2 (Nat.leb_le b _)) by lia. simpl.
    pose proof (byte_offset_le text lo a Ha ltac:(lia)) as Hla.
    destruct (push_lexical_span_ok spans (byte_offset text a) (byte_offset text b) k)
      as (Hok' & Hb' & Hc'); [done| |apply byte_offset_lt; lia|].
    { eapply Forall_impl; [exact Hb|]. simpl. intros. lia. }
    destruct (IH Hs' b (push_lexical_span spans (byte_offset text a) (byte_offset text b) k))
      as (Hok2 & Hb2 & Hc2); [|lia|done|done|].
    { rewrite Forall_forall in He', Hx |- *. intros ev Hev.
      destruct (He' ev Hev) as (a' & b' & k' & -> & ? & ? & ?).
      apply Hx in Hev. simpl in Hev. exists a', b', k'. split; [done|lia]. }
    split; [done|]. split; [done|]. intros x j. rewrite Hc2, Hc'. split.
    + intros [[?|[? ->]]|(a' & b' & Hin & Hx')]; [by left|right; exists a, b|right; exists a', b'];
        (split; [|done]); [by left|by right].
    + intros [?|(a' & b' & Hin & Hx')]; [by left; left|].
      apply elem_of_cons in Hin as [?|Hin]; [simplify_eq; by left; right|].
      right. by exists a', b'.
Qed.

(** ** The scan *)

Section Scan.
Context `{UnicodeTables}.

Lemma append_newline_if (b : bool) e :
  engine_ok e -> engine_ok (if b then append_current_char 10%N e else e).
Proof. destruct b; [apply (append_all_engine_ok [10%N])|done]. Qed.

Lemma scan_text_line_ok line chunk e :
  engine_ok e -> length line <= length chunk ->
  exists e' evs,
    scan_text_line line chunk e = Some (e', evs) /\ engine_ok e' /\
    span_events 0 (length chunk) evs.
Proof.
  intros He Hl. unfold scan_text_line. cbv zeta.
  set (e0 := on_state (close_foreign_module_source_on_terminator_line line) e).
  assert (H0 : engine_ok e0) by (by apply close_foreign_engine_ok).
  destruct (apply_line_boundary_action _ e0) as [e1 consumed] eqn:Ha.
  apply apply_line_boundary_action_ok in Ha as (H1 & _ & _); [|done]. clearbody e0.
  destruct consumed.
  { do 2 eexists. split; [done|]. split; [done|apply span_events_nil]. }
  destruct (_ && _).
  - do 2 eexists. split; [done|].
    split; [by apply finish_engine_ok, append_newline_if, append_current_str_engine_ok|].
    destruct line as [|c line]; [apply span_events_nil|].
    case_match; [|apply span_events_nil]. split; [|by repeat constructor].
    constructor; [|done]. do 3 eexists. split; [done|]. simpl in *. lia.
  - destruct (process_chars_engine_ok chunk e1 H1) as (e' & evs & -> & [_ Hev _ _] & H2).
    do 2 eexists. split; [done|]. split; [by apply finish_line_ok|].
    by eapply only_spans_events.
Qed.

Lemma str_find_newline_le l n : str_find l [10%N] = Some n -> n < length l.
Proof.
  revert n. induction l as [|c l IH]; intros n; simpl; [done|].
  destruct (_ && _); [intros; simplify_eq; lia|].
  destruct (str_find l [10%N]) as [m|]; simpl; [|done].
  intros; simplify_eq. specialize (IH m eq_refl). lia.
Qed.

Lemma scan_text_loop_ok fuel off rest e :
  engine_ok e -> length rest <= fuel ->
  exists e' evs,
    scan_text_loop fuel off rest e = Some (e', evs) /\ engine_ok e' /\
    span_events off (off + length rest) evs.
Proof.
  revert off rest e. induction fuel as [|fuel IH]; intros off rest e He Hf.
  { destruct rest; [|simpl in Hf; lia]. do 2 eexists. split; [done|]. split; [done|apply span_events_nil]. }
  destruct rest as [|c rest].
  { do 2 eexists. split; [done|]. split; [done|apply span_events_nil]. }
  remember (c :: rest) as l eqn:Hc.
  assert (Hl : 0 < length l) by (subst; simpl; lia).
  replace (scan_text_loop (S fuel) off l e) with
    (let line_len := default (length l) (str_find l [10%N]) in
     let chunk_len := Nat.min (line_len + 1) (length l) in
     match scan_text_line (take line_len l) (take chunk_len l) e with
     | None => None
     | Some (e, evs) =>
         match scan_text_loop fuel (off + chunk_len) (drop chunk_len l) e with
         | None => None
         | Some (e, evs') => Some (e, (shift_event off <$> evs) ++ evs')
         end
     end) by (by subst).
  clear Hc. cbv zeta. set (n := default (length l) (str_find l [10%N])).
  set (m := Nat.min (n + 1) (length l)).
  assert (Hn : n <= length l).
  { unfold n. destruct (str_find l [10%N]) eqn:Hfd; simpl; [|lia].
    apply str_find_newline_le in Hfd. lia. }
  assert (Hm : 1 <= m <= length l) by lia.
  destruct (scan_text_line_ok (take n l) (take m l) e He) as (e1 & evs & -> & H1 & Hev).
  { rewrite !length_take. lia. }
  destruct (IH (off + m) (drop m l) e1 H1) as (e2 & evs2 & -> & H2 & Hev2).
  { rewrite length_drop. lia. }
  do 2 eexists. split; [done|]. split; [done|].
  rewrite length_drop in Hev2. rewrite length_take, Nat.min_l in Hev by lia.
  eapply (span_events_app _ (off + m)); [lia|by apply shift_span_events|].
  by replace (off + length l) with (off + m + (length l - m)) by lia.
Qed.

(** The events a scan of [text] observes from [initial_mode]. *)
Definition scan_events (text : str) (mysql : bool) (initial_mode : LexMode)
    : option (list Event) :=
  snd <$> process_text_with_lexical_observer text
            (on_state (set_lex_mode initial_mode) (set_mysql_mode mysql SqlParserEngine_new)).

Lemma lexical_spans_ok text mysql m :
  mode_ok m ->
  exists spans m' evs,
    lexical_spans_with_initial_mode text mysql m = Some (spans, m') /\
    scan_events text mysql m = Some evs /\ mode_ok m' /\
    spans_ok spans /\ spans_below (utf8_len text) spans /\
    (forall x k, covered spans x k <->
       exists a b, Ev_Span a b k ∈ evs /\ byte_offset text a <= x < byte_offset text b).
Proof.
  intros Hm. unfold lexical_spans_with_initial_mode, scan_events,
    process_text_with_lexical_observer. cbv zeta.
  set (e := on_state _ _).
  assert (He : engine_ok e).
  { destruct engine_ok_new as [[] ? ? ?]. constructor; try done. }
  destruct (scan_text_loop_ok (length text) 0 text e He) as (e' & evs & -> & H' & Hev); [done|].
  destruct (observe_spans_ok text 0 (length text) evs []) as (Hok & Hb & Hc);
    [done|lia|split; constructor|constructor|].
  do 3 eexists. split; [done|]. split; [done|]. split; [apply H'|]. split; [done|].
  split; [by unfold byte_offset in Hb; rewrite firstn_all in Hb|].
  intros x k. rewrite Hc. split; [|by right]. intros [(s & Hin & _)|?]; [|done].
  by apply not_elem_of_nil in Hin.
Qed.

End Scan.
