(* ===== verification/EngineLiterals.v ===== *)
(** * Literals and comments are opaque

    Whatever stands inside a quoted literal or a comment, semicolons included,
    is copied verbatim and reported as one kind of span; the parser state after
    it is the state before it, up to the literal's role as an external-clause
    target. *)
From S2P Require Import Prelude RustStr SqlText Boundary EngineText SplitState Engine SplitFrame EngineTurn EngineLoop.

(** ** Printing literals *)

(** The body of a quoted literal: the quote is doubled, and in MySQL the
    backslash too. *)
Definition escape_char (mysql : bool) (q c : char) : str :=
  if N.eqb c q || (mysql && N.eqb c 92) then [c; c] else [c].

Definition escape (mysql : bool) (q : char) (s : str) : str := s ≫= escape_char mysql q.

Definition quote (mysql : bool) (q : char) (s : str) : str := q :: escape mysql q s ++ [q].

(** [s] closes its block comment only at its end. *)
Definition comment_body (s : str) : Prop := str_find (s ++ u "*/") (u "*/") = Some (length s).

Definition all_spans (k : LexicalKind) (evs : list Event) : Prop :=
  Forall (fun ev => exists a b, ev = Ev_Span a b k) evs.

Section Literals.
Context `{UnicodeTables}.
Implicit Types (chars rest : str) (e : SqlParserEngine) (i : nat).

(** ** Runs of the loop *)

Definition runs chars i e e' evs : Prop :=
  exists fuel, process_chars_loop fuel chars i e = Some (e', evs).

Lemma process_chars_loop_mono fuel fuel' chars i e r :
  process_chars_loop fuel chars i e = Some r -> fuel <= fuel' ->
  process_chars_loop fuel' chars i e = Some r.
Proof.
  revert fuel' i e r. induction fuel as [|fuel IH]; intros fuel' i e r Hl Hf.
  - destruct fuel'; simpl in *; by destruct (chars !! i).
  - destruct fuel' as [|fuel']; [lia|]. simpl in *. destruct (chars !! i); [|done].
    destruct (turn chars i _ e) as [[[e1 i1] evs1]|]; [|done].
    destruct (process_chars_loop fuel chars i1 e1) as [[e2 evs2]|] eqn:Hr; [|done].
    by rewrite (IH fuel' i1 e1 _ Hr ltac:(lia)).
Qed.

Lemma runs_process chars e e' evs :
  mode_ok (lex_mode (state e)) -> runs chars 0 e e' evs ->
  process_chars_with_observer chars e = Some (e', evs).
Proof.
  intros Hm [fuel Hr]. destruct (process_chars_ok chars e Hm) as (e1 & evs1 & Hp & _).
  rewrite Hp. unfold process_chars_with_observer in Hp.
  apply (process_chars_loop_mono _ (Nat.max fuel (2 * length chars + 1))) in Hr; [|lia].
  apply (process_chars_loop_mono _ (Nat.max fuel (2 * length chars + 1))) in Hp; [|lia].
  congruence.
Qed.

Lemma runs_end chars i e : i = length chars -> runs chars i e e [].
Proof. intros ->. exists 0. simpl. by rewrite lookup_ge_None_2 by lia. Qed.

Lemma runs_step chars i c e e1 i1 evs1 e' evs :
  chars !! i = Some c -> turn chars i c e = Some (e1, i1, evs1) -> runs chars i1 e1 e' evs ->
  runs chars i e e' (evs1 ++ evs).
Proof.
  intros Hc Ht [fuel Hr]. exists (S fuel). simpl. by rewrite Hc, Ht, Hr.
Qed.

Lemma drop_cons_lookup chars i c rest :
  drop i chars = c :: rest -> chars !! i = Some c /\ drop (i + 1) chars = rest.
Proof.
  intros Hd. split.
  - by rewrite <- (Nat.add_0_r i), <- lookup_drop, Hd.
  - rewrite <- drop_drop. by rewrite Hd.
Qed.

Lemma drop_nil_length chars i : drop i chars = [] -> i <= length chars -> i = length chars.
Proof. intros Hd%(f_equal length) Hl. rewrite length_drop in Hd. simpl in Hd. lia. Qed.

(** What a run over an opaque region ends with. *)
Definition opaque_run (k : LexicalKind) (text : str) e e' evs (s' : SplitState) : Prop :=
  statements e' = statements e /\ current e' = current e ++ text /\ state e' = s' /\
  all_spans k evs.

Lemma all_spans_cons k a b evs :
  all_spans k evs -> all_spans k ([Ev_Span a b k] ++ evs).
Proof. intros He. constructor; [by do 2 eexists|done]. Qed.

Lemma opaque_run_append k l l' e e' a b evs s' :
  opaque_run k l' (append_all l e) e' evs s' ->
  opaque_run k (l ++ l') e e' ([Ev_Span a b k] ++ evs) s'.
Proof.
  intros (Hs & Hc & Hst & He). destruct (append_all_parts l e) as [Hs0 Hc0].
  split_and!; [congruence| |done|by apply all_spans_cons].
  by rewrite Hc, Hc0, app_assoc.
Qed.

(** ** Inside a single-quoted literal *)

Lemma mysql_escape_spec c n (s : SplitState) :
  mysql_escape c n s = if mysql_mode s && N.eqb c 92 then n else None.
Proof. done. Qed.

Lemma single_quote_run (s : str) chars i e :
  lex_mode (state e) = LexMode_SingleQuote ->
  drop i chars = escape (mysql_mode (state e)) "'"%ch s ++ ["'"%ch] -> i <= length chars ->
  exists e' evs,
    runs chars i e e' evs /\
    opaque_run LexicalKind_String (escape (mysql_mode (state e)) "'"%ch s ++ ["'"%ch]) e e' evs
      (set_lex_mode LexMode_Idle (state e)).
Proof.
  remember (mysql_mode (state e)) as mysql eqn:Hmy.
  revert i e Hmy. induction s as [|c s IH]; intros i e Hmy Hl Hd Hi.
  - simpl in Hd. apply drop_cons_lookup in Hd as [Hc Hd].
    assert (Hn : chars !! (i + 1) = None).
    { apply lookup_ge_None. apply (f_equal length) in Hd. rewrite length_drop in Hd. simpl in Hd. lia. }
    exists (on_state (set_lex_mode LexMode_Idle) (append_current_char "'"%ch e)),
           [Ev_Span i (i + 1) LexicalKind_String].
    split.
    + apply lookup_lt_Some in Hc as Hlt. apply lookup_ge_None in Hn as Hge.
      rewrite <- (app_nil_r [Ev_Span _ _ _]).
      eapply (runs_step _ _ _ _ _ (i + 1)); [exact Hc| |apply runs_end; lia].
      unfold turn. cbv zeta. rewrite Hl, Hn. unfold turn_single_quote. cbv zeta.
      rewrite mysql_escape_spec, andb_false_r. done.
    + destruct (append_all_parts ["'"%ch] e) as [Hs0 Hc0].
      split_and!; [done|done| |by constructor; [do 2 eexists|]].
      by rewrite state_on_state, state_append_current_char.
  - assert (Hstep : forall e1 i1, turn chars i c e
              = Some (e1, i1, [Ev_Span i i1 LexicalKind_String]) ->
            chars !! i = Some c -> i1 <= length chars ->
            drop i1 chars = escape mysql "'"%ch s ++ ["'"%ch] ->
            e1 = append_all (escape_char mysql "'"%ch c) e ->
            exists e' evs, runs chars i e e' evs /\
              opaque_run LexicalKind_String (escape mysql "'"%ch (c :: s) ++ ["'"%ch]) e e' evs
                (set_lex_mode LexMode_Idle (state e))).
    { intros e1 i1 Ht Hc Hi1 Hd1 ->.
      destruct (IH i1 (append_all (escape_char mysql "'"%ch c) e)) as (e' & evs & Hr & Ho);
        rewrite ?state_append_all; try done.
      rewrite state_append_all in Ho.
      do 2 eexists. split; [by eapply runs_step|].
      replace (escape mysql "'"%ch (c :: s) ++ ["'"%ch])
        with (escape_char mysql "'"%ch c ++ (escape mysql "'"%ch s ++ ["'"%ch]))
        by (unfold escape; simpl; by rewrite app_assoc).
      by apply opaque_run_append. }
    unfold escape in Hd. simpl in Hd. unfold escape_char in Hd, Hstep.
    destruct (N.eqb c "'"%ch || (mysql && N.eqb c 92)) eqn:Hq; simpl in Hd.
    + apply drop_cons_lookup in Hd as [Hc Hd]. apply drop_cons_lookup in Hd as [Hc1 Hd].
      apply lookup_lt_Some in Hc1 as Hlt.
      replace (i + 1 + 1) with (i + 2) in Hd by lia.
      apply (Hstep (append_all [c; c] e) (i + 2)); try done; [|lia].
      unfold turn. cbv zeta. rewrite Hl. unfold turn_single_quote. cbv zeta.
      rewrite mysql_escape_spec, <- Hmy, Hc1. destruct (mysql && N.eqb c 92); [done|].
      rewrite orb_false_r in Hq. rewrite Hq. apply N.eqb_eq in Hq as ->. done.
    + apply drop_cons_lookup in Hd as [Hc Hd]. apply lookup_lt_Some in Hc as Hlt.
      apply orb_false_iff in Hq as [Hq1 Hq2].
      apply (Hstep (append_all [c] e) (i + 1)); try done; [|lia].
      unfold turn. cbv zeta. rewrite Hl. unfold turn_single_quote. cbv zeta.
      by rewrite mysql_escape_spec, <- Hmy, Hq2, Hq1.
Qed.

Lemma turn_open_single_quote_idle chars e :
  lex_mode (state e) = LexMode_Idle -> token (state e) = [] -> chars !! 0 = Some "'"%ch ->
  turn chars 0 "'"%ch e = turn_open_single_quote 0 "'"%ch e.
Proof.
  intros Hl Ht Hc. unfold turn. cbv zeta. rewrite Hl. unfold turn_idle.
  simpl N.eqb. cbn [andb]. unfold turn_idle_literals. rewrite Ht. cbn [str_is_empty].
  unfold q_quote_opener, detect_q_quote_start, q_quote_prefix_shape. rewrite Hc. done.
Qed.

Lemma quoted_literal_run (s : str) e :
  lex_mode (state e) = LexMode_Idle -> token (state e) = [] ->
  exists e' evs,
    process_chars_with_observer (quote (mysql_mode (state e)) "'"%ch s) e = Some (e', evs) /\
    opaque_run LexicalKind_String (quote (mysql_mode (state e)) "'"%ch s) e e' evs
      (set_lex_mode LexMode_Idle (literal_start (state e))).
Proof.
  intros Hl Ht. set (text := quote (mysql_mode (state e)) "'"%ch s).
  set (e1 := append_current_char "'"%ch
               (on_state (set_lex_mode LexMode_SingleQuote) (on_state literal_start e))).
  assert (H1 : state e1 = set_lex_mode LexMode_SingleQuote (literal_start (state e)))
    by (unfold e1; by rewrite state_append_current_char).
  assert (Hmy : mysql_mode (state e1) = mysql_mode (state e)).
  { rewrite H1. change (mysql_mode (literal_start (state e)) = mysql_mode (state e)).
    unfold literal_start. cbv zeta.
    rewrite (framed_mysql _ _ (observe_external_clause_literal_target_framed _ _)).
    apply (flushed_mysql _ _ (flush_token_flushed _)). }
  destruct (single_quote_run s text 1 e1) as (e' & evs & Hr & Ho).
  { by rewrite H1. }
  { by rewrite Hmy. }
  { unfold text, quote. simpl. lia. }
  exists e', ([Ev_Span 0 1 LexicalKind_String] ++ evs). split.
  - apply runs_process; [by rewrite Hl|]. eapply runs_step; [done| |exact Hr].
    by rewrite turn_open_single_quote_idle.
  - rewrite Hmy, H1 in Ho. unfold text, quote.
    destruct Ho as (Hs & Hc & Hst & He).
    destruct (append_all_parts ["'"%ch] (on_state (set_lex_mode LexMode_SingleQuote)
                (on_state literal_start e))) as [Hs0 Hc0].
    split_and!; [by rewrite Hs| |done|by apply all_spans_cons].
    rewrite Hc. change (current e1) with (current (append_all ["'"%ch] (on_state
      (set_lex_mode LexMode_SingleQuote) (on_state literal_start e)))).
    rewrite Hc0. by rewrite <- app_assoc.
Qed.

(** ** Inside comments *)

Lemma comment_body_cons c s :
  comment_body (c :: s) ->
  (N.eqb c "*"%ch && ((s ++ u "*/") !! 0 == Some "/"%ch)) = false /\ comment_body s.
Proof.
  unfold comment_body. simpl. destruct (_ && _) eqn:Hg; [done|].
  destruct (str_find (s ++ u "*/") (u "*/")) as [n|] eqn:Hf; [|done].
  simpl. intros [= ->]. split; [|done].
  destruct (N.eqb_spec c "*"%ch) as [->|]; [|done]. simpl in *.
  destruct (s ++ u "*/") as [|d l]; [done|]. simpl in *.
  apply bool_decide_eq_false. intros [= ->]. by destruct l.
Qed.

Lemma block_comment_run (s : str) chars i e :
  lex_mode (state e) = LexMode_BlockComment -> comment_body s ->
  drop i chars = s ++ u "*/" -> i <= length chars ->
  exists e' evs,
    runs chars i e e' evs /\
    opaque_run LexicalKind_BlockComment (s ++ u "*/") e e' evs
      (set_lex_mode LexMode_Idle (state e)).
Proof.
  revert i e. induction s as [|c s IH]; intros i e Hl Hb Hd Hi.
  - apply drop_cons_lookup in Hd as [Hc Hd]. apply drop_cons_lookup in Hd as [Hc1 Hd].
    apply lookup_lt_Some in Hc1 as Hlt. apply drop_nil_length in Hd; [|lia].
    exists (on_state (set_lex_mode LexMode_Idle) (append_all (u "*/") e)),
           ([Ev_Span i (i + 2) LexicalKind_BlockComment] ++ []). split.
    + eapply (runs_step _ _ _ _ _ (i + 2)); [exact Hc| |apply runs_end; lia].
      unfold turn. cbv zeta. rewrite Hl, Hc1. done.
    + destruct (append_all_parts (u "*/") e) as [Hs0 Hc0].
      split_and!; [done|done| |by constructor; [do 2 eexists|]].
      by rewrite state_on_state, state_append_all.
  - apply comment_body_cons in Hb as [Hg Hb].
    simpl in Hd. apply drop_cons_lookup in Hd as [Hc Hd]. apply lookup_lt_Some in Hc as Hlt.
    assert (Hn : chars !! (i + 1) = (s ++ u "*/") !! 0).
    { by rewrite <- Hd, lookup_drop, Nat.add_0_r. }
    destruct (IH (i + 1) (append_all [c] e)) as (e' & evs & Hr & Ho); try done;
      rewrite ?state_append_all; try done; [lia|].
    rewrite state_append_all in Ho.
    exists e', ([Ev_Span i (i + 1) LexicalKind_BlockComment] ++ evs). split.
    + eapply runs_step; [done| |exact Hr]. unfold turn. cbv zeta. rewrite Hl.
      unfold turn_block_comment. by rewrite Hn, Hg.
    + by apply (opaque_run_append _ [c]).
Qed.

Lemma line_comment_run (s : str) chars i e :
  lex_mode (state e) = LexMode_LineComment -> ~ (10%N ∈ s) ->
  drop i chars = s ++ [10%N] -> i <= length chars ->
  exists e' evs,
    runs chars i e e' evs /\
    opaque_run LexicalKind_LineComment (s ++ [10%N]) e e' evs
      (set_lex_mode LexMode_Idle (state e)).
Proof.
  revert i e. induction s as [|c s IH]; intros i e Hl Hb Hd Hi.
  - apply drop_cons_lookup in Hd as [Hc Hd].
    apply lookup_lt_Some in Hc as Hlt. apply drop_nil_length in Hd; [|lia].
    exists (on_state (set_lex_mode LexMode_Idle) (append_all [10%N] e)),
           ([Ev_Span i (i + 1) LexicalKind_LineComment] ++ []). split.
    + eapply (runs_step _ _ _ _ _ (i + 1)); [exact Hc| |apply runs_end; lia].
      unfold turn. cbv zeta. by rewrite Hl.
    + destruct (append_all_parts [10%N] e) as [Hs0 Hc0].
      split_and!; [done|done| |by constructor; [do 2 eexists|]].
      by rewrite state_on_state, state_append_all.
  - simpl in Hd. apply drop_cons_lookup in Hd as [Hc Hd]. apply lookup_lt_Some in Hc as Hlt.
    destruct (IH (i + 1) (append_all [c] e)) as (e' & evs & Hr & Ho);
      rewrite ?state_append_all; try done; [set_solver|lia|].
    rewrite state_append_all in Ho.
    exists e', ([Ev_Span i (i + 1) LexicalKind_LineComment] ++ evs). split.
    + eapply runs_step; [done| |exact Hr]. unfold turn. cbv zeta. rewrite Hl.
      unfold turn_line_comment. cbv zeta. destruct (N.eqb_spec c 10); [set_solver|done].
    + by apply (opaque_run_append _ [c]).
Qed.

(** An engine that has read an opener [l] and entered [m]. *)
Lemma opened_run k l m e e' evs (text : str) a b :
  opaque_run k text (append_all l (on_state (set_lex_mode m) (on_state flush_token e))) e' evs
    (set_lex_mode LexMode_Idle
       (state (append_all l (on_state (set_lex_mode m) (on_state flush_token e))))) ->
  opaque_run k (l ++ text) e e' ([Ev_Span a b k] ++ evs)
    (set_lex_mode LexMode_Idle (flush_token (state e))).
Proof.
  intros Ho. apply opaque_run_append. rewrite state_append_all in Ho.
  destruct Ho as (Hs & Hc & Hst & He). split_and!; [|  |done|done].
  - rewrite Hs, (proj1 (append_all_parts l e)). exact (proj1 (append_all_parts l (on_state
      (set_lex_mode m) (on_state flush_token e)))).
  - rewrite Hc, (proj2 (append_all_parts l e)). f_equal. exact (proj2 (append_all_parts l (on_state
      (set_lex_mode m) (on_state flush_token e)))).
Qed.

Lemma split_pending_external_none e :
  pending_implicit_external_top_level_split (state e) = false -> split_pending_external e = e.
Proof. intros Hp. unfold split_pending_external. cbv zeta. by rewrite Hp. Qed.

Lemma block_comment_idle (s : str) e :
  lex_mode (state e) = LexMode_Idle -> comment_body s ->
  pending_implicit_external_top_level_split (flush_token (state e)) = false ->
  exists e' evs,
    process_chars_with_observer (u "/*" ++ s ++ u "*/") e = Some (e', evs) /\
    opaque_run LexicalKind_BlockComment (u "/*" ++ s ++ u "*/") e e' evs
      (set_lex_mode LexMode_Idle (flush_token (state e))).
Proof.
  intros Hl Hb Hp. set (text := u "/*" ++ s ++ u "*/").
  destruct (block_comment_run s text 2 (append_all (u "/*") (on_state
    (set_lex_mode LexMode_BlockComment) (on_state flush_token e)))) as (e' & evs & Hr & Ho).
  { by rewrite state_append_all. }
  { done. }
  { done. }
  { unfold text. rewrite length_app. simpl. lia. }
  eexists e', _. split; [|by eapply (opened_run _ (u "/*"))].
  apply runs_process; [by rewrite Hl|]. eapply runs_step; [done| |exact Hr].
  unfold turn. cbv zeta. rewrite Hl. change (text !! (0 + 1)) with (Some "*"%ch).
  unfold turn_idle. simpl N.eqb. cbn [andb]. rewrite bool_decide_eq_true_2 by done.
  unfold turn_open_block_comment. cbv zeta. by rewrite split_pending_external_none.
Qed.

Lemma line_comment_idle (s : str) e :
  lex_mode (state e) = LexMode_Idle -> ~ (10%N ∈ s) ->
  dash_comment_start (u "--" ++ s ++ [10%N]) 0 (state e) = true ->
  pending_implicit_external_top_level_split (flush_token (state e)) = false ->
  exists e' evs,
    process_chars_with_observer (u "--" ++ s ++ [10%N]) e = Some (e', evs) /\
    opaque_run LexicalKind_LineComment (u "--" ++ s ++ [10%N]) e e' evs
      (set_lex_mode LexMode_Idle (flush_token (state e))).
Proof.
  intros Hl Hb Hds Hp. set (text := u "--" ++ s ++ [10%N]) in *.
  destruct (line_comment_run s text 2 (append_all (u "--") (on_state
    (set_lex_mode LexMode_LineComment) (on_state flush_token e)))) as (e' & evs & Hr & Ho).
  { by rewrite state_append_all. }
  { done. }
  { done. }
  { unfold text. rewrite length_app. simpl. lia. }
  eexists e', _. split; [|by eapply (opened_run _ (u "--"))].
  apply runs_process; [by rewrite Hl|]. eapply runs_step; [done| |exact Hr].
  unfold turn. cbv zeta. rewrite Hl. change (text !! (0 + 1)) with (Some "-"%ch).
  unfold turn_idle. rewrite Hds. simpl N.eqb. rewrite bool_decide_eq_true_2 by done. cbn [andb].
  unfold turn_open_dash_comment. cbv zeta. by rewrite split_pending_external_none.
Qed.

End Literals.
