(* ===== verification/PlainSplit.v ===== *)
(** * Scripts without procedural keywords

    On text without quotes, dollar and number signs, comments or words that open a
    block, the splitter is the obvious one: cut at every semicolon outside
    parentheses.  [plain_split] is that reference; the character loop agrees with
    it, and the line driver does on lines that are in addition no tool command and
    no slash that ends a statement. *)
From S2P Require Import Prelude RustStr SqlText Boundary EngineText SplitState Engine SplitFrame EngineTurn EngineLoop EngineInvariant EngineLines EngineLiterals.

(** ** The reference *)

(** How deep in parentheses the reference is behind a character. *)
Definition depth_step (depth : nat) (c : char) : nat :=
  if N.eqb c "("%ch then S depth else if N.eqb c ")"%ch then pred depth else depth.

(** The pieces cut off, and the open one. *)
Fixpoint plain_split (depth : nat) (cur text : str) : list str * str :=
  match text with
  | [] => ([], cur)
  | c :: text =>
      if N.eqb c ";"%ch && (depth =? 0) then
        let '(pieces, open) := plain_split 0 [] text in (cur :: pieces, open)
      else
        plain_split (depth_step depth c) (cur ++ [c]) text
  end.

(** A text may be cut in two: the second part goes on where the first one ends. *)
Definition depth_after (depth : nat) (text : str) : nat := fold_left depth_step text depth.

Lemma plain_split_app a : forall depth cur b,
  plain_split depth cur (a ++ b)
  = let after := plain_split (depth_after depth a) (snd (plain_split depth cur a)) b in
    (fst (plain_split depth cur a) ++ fst after, snd after).
Proof.
  induction a as [|c a IH]; intros depth cur b; cbn [app plain_split depth_after fold_left fst snd].
  { by destruct (plain_split depth cur b). }
  destruct (N.eqb c ";"%ch && (depth =? 0)) eqn:Hcut; rewrite IH; [|done].
  apply andb_true_iff in Hcut as [->%N.eqb_eq ->%Nat.eqb_eq]. change (depth_step 0 ";"%ch) with 0.
  unfold depth_after. by destruct (plain_split 0 [] a) as [p o].
Qed.

(** Words that mean something to the splitter at the top level. *)
Definition procedural_words : list string :=
  ["CREATE"; "WITH"; "MLE"; "CASE"; "IF"; "LOOP"; "REPEAT"; "WHILE"; "FOR"; "DECLARE"; "BEGIN";
   "END"]%string.

Definition ordinary (word : str) : bool := negb (is_one_of (ascii_upper word) procedural_words).

(** A top-level state outside any statement form the splitter follows. *)
Definition plain_state (mysql : bool) (tok : str) (parens : list char) (top : TopLevelTokenState)
    : SplitState :=
  Eval cbv -[length] in
  SplitState_default <| mysql_mode := mysql |> <| token := tok |> <| paren_stack := parens |>
    <| paren_depth := length parens |> <| top_level_token_state := top |>.

Section Plain.
Context `{UnicodeTables}.

Lemma ordinary_words w k :
  ordinary w = true -> k ∈ procedural_words -> is_word (ascii_upper w) k = false.
Proof.
  unfold ordinary, is_one_of. intros Hw Hk. apply negb_true_iff in Hw.
  destruct (is_word (ascii_upper w) k) eqn:Hi; [|done].
  rewrite <- Hw. symmetry. apply List.existsb_exists. exists k.
  split; [by apply list_elem_of_In|done].
Qed.

(** ** Ordinary words leave a plain state plain *)

Context (mysql : bool) (tok : str) (parens : list char) (top : TopLevelTokenState) (w : str).
Context (Hw : forall k, k ∈ procedural_words -> is_word w k = false).
Abbreviation P := (plain_state mysql tok parens top).

(** Decides the guards of an operation on a plain state: field tests by
    conversion, words by [Hw]. *)
Ltac plain_guards :=
  repeat (match goal with
          | |- context [bool_decide (?x = ?y)] =>
              first [ rewrite (bool_decide_eq_true_2 (x = y)) by reflexivity
                    | rewrite (bool_decide_eq_false_2 (x = y)) by discriminate ]
          | |- context [is_word w ?k] => rewrite (Hw k) by (unfold procedural_words; set_solver)
          end; cbn [andb orb negb]).

Ltac plain_op op := unfold op; cbv zeta; plain_guards; try reflexivity.

Lemma plain_handle_routine_is_external : handle_routine_is_external w P = P.
Proof. plain_op handle_routine_is_external. Qed.

Lemma plain_track_new_create : track_new_create w P = P.
Proof. plain_op track_new_create. Qed.

Lemma plain_track_create_plsql : track_create_plsql w P = P.
Proof. plain_op track_create_plsql. apply plain_track_new_create. Qed.

Lemma plain_track_top_level_with b : track_top_level_with_plsql w b P = P.
Proof. plain_op track_top_level_with_plsql. by destruct (_ || _). Qed.

Lemma plain_open_case r : open_case w r P = P.
Proof. plain_op open_case. Qed.

Lemma plain_arm_if r : arm_if w r P = P.
Proof. plain_op arm_if. Qed.

Lemma plain_open_then : open_then w P = P.
Proof. plain_op open_then. by rewrite andb_false_r. Qed.

Lemma plain_open_loop r : open_loop w r P = P.
Proof. plain_op open_loop. Qed.

Lemma plain_open_repeat r : open_repeat w r P = P.
Proof. plain_op open_repeat. Qed.

Lemma plain_arm_while_for r : arm_while_for w r P = P.
Proof. plain_op arm_while_for. unfold is_one_of, existsb. by plain_guards. Qed.

Lemma plain_open_do : open_do w P = P.
Proof. plain_op open_do. by destruct (is_word w _). Qed.

Lemma plain_trigger_call_body : trigger_call_body w P = P.
Proof. plain_op trigger_call_body. by destruct (is_word w _). Qed.

Lemma plain_timing_point_begin : timing_point_begin w P = P.
Proof. plain_op timing_point_begin. Qed.

Lemma plain_undo_type_as_is : undo_type_as_is w P = P.
Proof. plain_op undo_type_as_is. Qed.

Lemma plain_await_nested_subprogram : await_nested_subprogram w P = P.
Proof. plain_op await_nested_subprogram. Qed.

Lemma plain_AsIsBlockStart : AsIsBlockStart_from_token w P = AsIsBlockStart_None.
Proof.
  plain_op AsIsBlockStart_from_token. destruct (is_one_of _ _); [|done].
  cbn [negb]. by destruct (negb _).
Qed.

Lemma plain_open_scope r : open_scope w r P = P.
Proof.
  unfold open_scope. cbv zeta. rewrite plain_AsIsBlockStart. plain_guards.
  change (is_trigger P) with false. change (in_compound_trigger P) with false.
  rewrite !andb_false_r. cbn [andb]. done.
Qed.

Lemma plain_handle_block_openers r : handle_block_openers w r P = P.
Proof.
  unfold handle_block_openers. cbv zeta.
  change (track_trigger_alias w P) with P. change (drop_stale_compound_keyword w P) with P.
  by rewrite plain_open_case, plain_arm_if, plain_open_then, plain_open_loop, plain_open_repeat,
    plain_arm_while_for, plain_open_do, plain_trigger_call_body, plain_timing_point_begin,
    plain_undo_type_as_is, plain_await_nested_subprogram, plain_open_scope.
Qed.

Lemma plain_flush_trackers b : flush_trackers w b P = P.
Proof.
  unfold flush_trackers. cbv zeta.
  change (upd routine_body_block_just_opened (fun _ => false) P) with P.
  rewrite plain_handle_routine_is_external, plain_track_create_plsql.
  change (track_sql_macro_call_spec w (routine_body_block_just_opened P) P)
    with (P <| sql_macro_call_spec_armed := is_word w "SQL_MACRO" && false |>).
  rewrite andb_false_r. change (P <| sql_macro_call_spec_armed := false |>) with P.
  apply plain_track_top_level_with.
Qed.

Lemma plain_flush_blocks : flush_blocks w P = P.
Proof.
  unfold flush_blocks. cbv zeta. change (token_prefixed_with_dollar P) with false.
  change (skip_next_end_label_token P) with false. cbn [andb].
  change (handle_if_state_on_token w P) with P.
  unfold handle_pending_end_on_token. plain_guards. apply plain_handle_block_openers.
Qed.

Lemma plain_track_foreign : track_foreign_source_body w P = P.
Proof. plain_op track_foreign_source_body. Qed.

End Plain.

(** ** Plain text *)

(** Characters that open no literal, and in MySQL no comment. *)
Definition plain_char (c : char) : bool :=
  negb (is_char_of c "'`[$#") && negb (N.eqb c 34).

Fixpoint no_comment (text : str) : bool :=
  match text with
  | c :: text' =>
      negb (N.eqb c "-"%ch && (head text' == Some "-"%ch))
      && negb (N.eqb c "/"%ch && (head text' == Some "*"%ch)) && no_comment text'
  | [] => true
  end.

(** The words of [text] that a symbol ends, the first of which starts with [tok]. *)
Fixpoint words_ordinary `{UnicodeTables} (tok text : str) : bool :=
  match text with
  | [] => true
  | c :: text =>
      if is_identifier_char c then words_ordinary (tok ++ [c]) text
      else ordinary tok && words_ordinary [] text
  end.

Definition plain_text `{UnicodeTables} (text : str) : bool :=
  forallb plain_char text && no_comment text && words_ordinary [] text.

Section PlainLoop.
Context `{UnicodeTables}.
Implicit Types (chars text : str) (e : SqlParserEngine) (i d : nat) (c : char).

Abbreviation open_parens d := (replicate d "("%ch).

(** What [flush_token] leaves behind of the token. *)
Definition token_taken (at_top_level : bool) (s : SplitState) : SplitState :=
  let s := s <| token := [] |> <| token_prefixed_with_dollar := false |> in
  if at_top_level then s <| top_level_token_state := TopLevelTokenState_Seen |> else s.

Lemma flush_token_stages s :
  str_is_empty (token s) = false ->
  exists b b', flush_token s
    = token_taken b (track_foreign_source_body (ascii_upper (token s))
        (flush_blocks (ascii_upper (token s)) (flush_trackers (ascii_upper (token s)) b' s))).
Proof. intros He. unfold flush_token. rewrite He. by do 2 eexists. Qed.

Lemma plain_token_taken b mysql tok parens top :
  token_taken b (plain_state mysql tok parens top)
  = plain_state mysql [] parens (if b then TopLevelTokenState_Seen else top).
Proof. by destruct b. Qed.

Lemma plain_token mysql tok parens top : token (plain_state mysql tok parens top) = tok.
Proof. reflexivity. Qed.

Lemma plain_flush_token mysql tok parens top :
  ordinary tok = true ->
  exists top', flush_token (plain_state mysql tok parens top) = plain_state mysql [] parens top'.
Proof.
  intros Ho. destruct (str_is_empty tok) eqn:He.
  { destruct tok; [|done]. by exists top. }
  assert (Hw : forall k, k ∈ procedural_words -> is_word (ascii_upper tok) k = false)
    by (intros; by apply ordinary_words).
  destruct (flush_token_stages (plain_state mysql tok parens top) He) as (b & b' & ->).
  rewrite plain_token, plain_flush_trackers, plain_flush_blocks, plain_track_foreign by done.
  rewrite plain_token_taken. by eexists.
Qed.

(** Each step on a symbol, on a plain state. *)
Section Symbol.
Context (mysql : bool) (tok : str) (parens : list char) (top : TopLevelTokenState).
Abbreviation P := (plain_state mysql tok parens top).
Abbreviation Q := (plain_state mysql [] parens top).

Lemma plain_flush_before_symbol c : flush_before_symbol c P = flush_token P.
Proof.
  unfold flush_before_symbol.
  assert (Hl : has_timing_point_label_end c P = false); [|by rewrite Hl].
  unfold has_timing_point_label_end. by rewrite andb_false_r.
Qed.

Lemma plain_main_query_symbol c : track_with_main_query_symbol c Q = Q.
Proof. reflexivity. Qed.

Lemma plain_create_symbol c : track_create_plsql_symbol c Q = Q.
Proof. reflexivity. Qed.

Lemma plain_external_symbol c n : observe_external_clause_symbol c n Q = Q.
Proof. reflexivity. Qed.

Lemma plain_if_on_symbol c : if_state_on_symbol c Q = Q.
Proof. reflexivity. Qed.

Lemma plain_if_on_close_paren r : if_state_on_close_paren r Q = Q.
Proof. unfold if_state_on_close_paren. by destruct (_ == _). Qed.

Lemma plain_pending_end r : pending_end_on_symbol r Q = Q.
Proof. reflexivity. Qed.

Lemma plain_with_comma : advance_with_clause_after_comma Q = Q.
Proof. reflexivity. Qed.
End Symbol.

Lemma plain_track_parens mysql d top c n :
  track_parens (SymbolRole_from_char c n) c (plain_state mysql [] (open_parens d) top)
  = plain_state mysql []
      (open_parens (if N.eqb c "("%ch then S d else if N.eqb c ")"%ch then pred d else d)) top.
Proof.
  unfold track_parens, SymbolRole_from_char.
  destruct (N.eqb_spec c ";"%ch) as [->|]; [done|].
  destruct (N.eqb_spec c "("%ch) as [->|].
  { by rewrite replicate_S_end. }
  destruct (N.eqb_spec c ")"%ch) as [->|]; [|by destruct (_ || _)].
  unfold pop_close_paren. change (expected_open_paren ")"%ch) with (Some "("%ch).
  cbn iota. destruct d as [|d]; [done|]. rewrite replicate_S_end.
  change (paren_stack (plain_state mysql [] (open_parens d ++ ["("%ch]) top))
    with (open_parens d ++ ["("%ch]).
  rewrite last_snoc, bool_decide_eq_true_2 by done.
  transitivity (plain_state mysql [] (vec_pop (open_parens d ++ ["("%ch])) top); [done|].
  unfold vec_pop. by rewrite removelast_last.
Qed.

(** The state after a symbol, by what the symbol does to the parentheses. *)
Lemma plain_symbol_state mysql tok d top c n :
  ordinary tok = true ->
  exists top',
    symbol_state c n (plain_state mysql tok (open_parens d) top)
    = plain_state mysql []
        (open_parens (if N.eqb c "("%ch then S d else if N.eqb c ")"%ch then pred d else d)) top'.
Proof.
  intros Ho. destruct (plain_flush_token mysql tok (open_parens d) top Ho) as [top' Hf].
  exists top'. unfold symbol_state. rewrite plain_flush_before_symbol, Hf.
  rewrite plain_main_query_symbol, plain_create_symbol, plain_external_symbol,
    plain_if_on_symbol, plain_if_on_close_paren, plain_track_parens, plain_pending_end,
    plain_with_comma.
  by destruct (N.eqb c ","%ch).
Qed.

Lemma plain_semicolon mysql d top :
  exists top',
    prepare_semicolon_action
      (clear_skip_next_end_label_token (plain_state mysql [] (open_parens d) top))
    = (plain_state mysql [] (open_parens d) top',
       if d =? 0 then SemicolonAction_SplitTopLevel else SemicolonAction_AppendToCurrent).
Proof. exists top. by destruct d. Qed.

Lemma plain_reset mysql top :
  reset_after_statement_boundary (plain_state mysql [] [] top)
  = plain_state mysql [] [] TopLevelTokenState_NoneSeen.
Proof. done. Qed.

(** ** Turns on plain text *)

Definition all_plain chars : Prop := forall j x, chars !! j = Some x -> plain_char x = true.

Lemma plain_not_at chars j c : all_plain chars -> plain_char c = false -> at_is chars j c = false.
Proof.
  intros Ha Hc. unfold at_is. destruct (chars !! j) as [x|] eqn:Hx; [|done].
  destruct (N.eqb_spec x c) as [->|]; [|done]. apply Ha in Hx. congruence.
Qed.

Lemma plain_next_not_quote chars j : all_plain chars -> (chars !! j == Some "'"%ch) = false.
Proof. intros Ha. apply bool_decide_eq_false. intros Hj%Ha. done. Qed.

Lemma plain_char_not c x : plain_char c = true -> plain_char x = false -> N.eqb c x = false.
Proof. intros Hc Hx. apply N.eqb_neq. congruence. Qed.

Lemma plain_openers chars i c s :
  all_plain chars -> chars !! i = Some c ->
  q_quote_opener chars i = None /\
  prefixed_quote_len c (chars !! (i + 1)) (chars !! (i + 2)) = None /\
  dollar_quote_opener chars i c s = None.
Proof.
  intros Ha Hc. pose proof (Ha i c Hc) as Hp. split_and!.
  - unfold q_quote_opener. case_match; [|done].
    unfold detect_q_quote_start, q_quote_prefix_shape. rewrite Hc.
    by rewrite !plain_not_at, !andb_false_r.
  - unfold prefixed_quote_len. rewrite !plain_next_not_quote by done.
    rewrite andb_false_r. by case_match.
  - unfold dollar_quote_opener. by rewrite (plain_char_not c "$"%ch).
Qed.

Lemma plain_turn mysql tok d top chars i c text e :
  state e = plain_state mysql tok (open_parens d) top -> all_plain chars ->
  drop i chars = c :: text -> no_comment (c :: text) = true ->
  turn chars i c e
  = if is_identifier_char c then turn_identifier chars i c e
    else turn_symbol i c (chars !! (i + 1)) e.
Proof.
  intros Hs Ha Hd Hn. apply drop_cons_lookup in Hd as [Hc Hd].
  pose proof (Ha i c Hc) as Hp.
  assert (Hnext : chars !! (i + 1) = head text).
  { rewrite <- (Nat.add_0_r (i + 1)), <- lookup_drop, Hd. by destruct text. }
  simpl in Hn. apply andb_true_iff in Hn as [Hn _].
  apply andb_true_iff in Hn as [Hn1%negb_true_iff Hn2%negb_true_iff].
  unfold turn. cbv zeta. rewrite Hs. change (lex_mode (plain_state _ _ _ _)) with LexMode_Idle.
  cbn iota. unfold turn_idle. rewrite Hnext, Hn1, Hn2. cbn [andb].
  rewrite (plain_char_not c "#"%ch) by done. cbn [andb]. rewrite <- Hnext.
  assert (Hq : turn_idle_quotes chars i c (chars !! (i + 1)) e
               = if is_identifier_char c then turn_identifier chars i c e
                 else turn_symbol i c (chars !! (i + 1)) e).
  { unfold turn_idle_quotes. cbv zeta. rewrite Hs.
    change (allows_inline_foreign_source (plain_state _ _ _ _)) with false.
    rewrite andb_false_r. cbn [andb].
    rewrite (plain_char_not c "'"%ch), (plain_char_not c 34), (plain_char_not c 96),
      (plain_char_not c "["%ch) by done. by rewrite andb_false_r. }
  unfold turn_idle_literals.
  destruct (plain_openers chars i c (state e) Ha Hc) as (-> & -> & ->).
  by destruct (str_is_empty _).
Qed.

Lemma plain_turn_identifier mysql tok d top chars i c e :
  state e = plain_state mysql tok (open_parens d) top -> all_plain chars ->
  exists e1, turn_identifier chars i c e = Some (e1, i + 1, []) /\
    statements e1 = statements e /\ current e1 = current e ++ [c] /\
    state e1 = plain_state mysql (tok ++ [c]) (open_parens d) top.
Proof.
  intros Hs Ha. unfold turn_identifier. cbv zeta. eexists. split; [done|].
  assert (Hh : handle_identifier_start_candidate chars i e = e).
  { unfold handle_identifier_start_candidate. cbv zeta. rewrite Hs. cbn [negb].
    change (block_depth (plain_state _ _ _ _)) with 0.
    change (in_with_plsql_declaration (plain_state _ _ _ _)) with false.
    cbn. by rewrite andb_false_r. }
  rewrite Hh. destruct (append_all_parts [c] (on_state (push_token_char chars i c) e)) as [H1 H2].
  split; [exact H1|]. split; [exact H2|].
  rewrite state_append_current_char, state_on_state, Hs. unfold push_token_char. cbv zeta.
  assert (Hf : follows_dollar chars i = false).
  { destruct i; [done|]. by apply plain_not_at. }
  rewrite Hf. change (token (plain_state mysql tok (open_parens d) top)) with tok.
  by destruct (str_is_empty tok).
Qed.

(** A semicolon at depth zero finishes the statement; any other symbol is kept. *)
Lemma plain_turn_symbol mysql tok d top i c n e :
  state e = plain_state mysql tok (open_parens d) top -> ordinary tok = true ->
  exists e1 evs top', turn_symbol i c n e = Some (e1, i + 1, evs) /\
    if N.eqb c ";"%ch && (d =? 0)
    then text_of e1 = text_of (push_current_statement e) /\
         state e1 = plain_state mysql [] [] top'
    else text_of e1 = text_of (append_all [c] e) /\
         state e1 = plain_state mysql []
           (open_parens (depth_step d c)) top'.
Proof.
  intros Hs Ho. unfold turn_symbol. cbv zeta.
  destruct (plain_symbol_state mysql tok d top c n Ho) as [top1 Hsym].
  destruct (SymbolRole_from_char c n == SymbolRole_Semicolon) eqn:Hr.
  - apply bool_decide_eq_true, symbol_role_semicolon in Hr as ->. rewrite N.eqb_refl. cbn [andb].
    rewrite !state_on_state, Hs, Hsym. simpl N.eqb. cbn iota.
    destruct (plain_semicolon mysql d top1) as [top2 ->].
    destruct d as [|d]; cbn [Nat.eqb]; do 3 eexists; (split; [done|]).
    + split; [by apply push_current_statement_text|].
      cbn [apply_semicolon_action]. rewrite state_finish. cbn [state upd].
      apply plain_reset.
    + split; [by apply (append_all_text [_])|].
      cbn [apply_semicolon_action]. by rewrite state_append_current_char.
  - assert (Hne : N.eqb c ";"%ch = false).
    { apply N.eqb_neq. intros ->. by rewrite (proj2 (symbol_role_semicolon _ n)) in Hr. }
    rewrite Hne. cbn [andb]. do 3 eexists. split; [done|].
    split; [by apply (append_all_text [_])|].
    by rewrite state_append_current_char, state_on_state, Hs, Hsym.
Qed.

(** ** The engine agrees with the reference *)

(** The token the engine holds behind [text]. *)
Definition token_step (tok : str) (c : char) : str := if is_identifier_char c then tok ++ [c] else [].
Definition token_after (tok text : str) : str := fold_left token_step text tok.

(** What the reference says of a run over [text]. *)
Definition plain_result (d : nat) (text : str) (e e' : SqlParserEngine) : Prop :=
  statements e' = statements e ++ nonblank (fst (plain_split d (current e) text)) /\
  current e' = snd (plain_split d (current e) text).

Lemma text_of_append l e e1 :
  text_of e1 = text_of (append_all l e) ->
  statements e1 = statements e /\ current e1 = current e ++ l.
Proof. destruct (append_all_parts l e) as [<- <-]. by intros [= -> -> _]. Qed.

Lemma text_of_push e e1 :
  text_of e1 = text_of (push_current_statement e) ->
  statements e1 = statements e ++ nonblank [current e] /\ current e1 = [].
Proof.
  intros [= -> -> _]. unfold push_current_statement, nonblank, vec_push. cbv zeta. simpl.
  destruct (str_is_empty (trim (current e))); simpl; [|done]. by rewrite app_nil_r.
Qed.

Lemma plain_run mysql text : forall chars i e tok d top,
  all_plain chars -> drop i chars = text -> i <= length chars ->
  no_comment text = true -> words_ordinary tok text = true ->
  state e = plain_state mysql tok (open_parens d) top ->
  exists e' evs top', runs chars i e e' evs /\ plain_result d text e e'
    /\ state e' = plain_state mysql (token_after tok text) (open_parens (depth_after d text)) top'.
Proof.
  induction text as [|c text IH]; intros chars i e tok d top Ha Hd Hi Hn Hwo Hs.
  { exists e, [], top. split; [by apply runs_end, drop_nil_length|]. split; [|done].
    split; [by rewrite app_nil_r|done]. }
  pose proof (plain_turn mysql tok d top chars i c text e Hs Ha Hd Hn) as Ht.
  apply drop_cons_lookup in Hd as [Hc Hd]. apply lookup_lt_Some in Hc as Hlt.
  assert (Hn' : no_comment text = true) by (simpl in Hn; by apply andb_true_iff in Hn as [_ Hn]).
  unfold plain_result. cbn [plain_split token_after depth_after fold_left]. simpl in Hwo.
  unfold token_step at 2. destruct (is_identifier_char c) eqn:Hid.
  - destruct (plain_turn_identifier mysql tok d top chars i c e Hs Ha)
      as (e1 & Ht1 & Hs1 & Hc1 & Hst1). rewrite Ht1 in Ht.
    assert (Hx : forall x, is_identifier_char x = false -> N.eqb c x = false).
    { intros x Hx. apply N.eqb_neq. congruence. }
    unfold depth_step. rewrite !Hx by done. cbn [andb].
    destruct (IH chars (i + 1) e1 (tok ++ [c]) d top) as (e' & evs & top' & Hr & [Hp1 Hp2] & Hs'); try done; [lia|].
    exists e', ([] ++ evs), top'. split; [by eapply runs_step|]. split; [by rewrite <- Hc1, <- Hs1|done].
  - apply andb_true_iff in Hwo as [Ho Hwo].
    destruct (plain_turn_symbol mysql tok d top i c (chars !! (i + 1)) e Hs Ho)
      as (e1 & evs1 & top1 & Ht1 & Hres). rewrite Ht1 in Ht.
    destruct (N.eqb c ";"%ch && (d =? 0)) eqn:Hcut; destruct Hres as [Hx Hst].
    + apply text_of_push in Hx as [Hs1 Hc1]. apply andb_true_iff in Hcut as [->%N.eqb_eq ->%Nat.eqb_eq].
      change (depth_step 0 ";"%ch) with 0.
      destruct (IH chars (i + 1) e1 [] 0 top1) as (e' & evs & top' & Hr & [Hp1 Hp2] & Hs'); try done; [lia|].
      exists e', (evs1 ++ evs), top'. split; [by eapply runs_step|]. split; [|done].
      rewrite Hc1 in Hp1, Hp2. rewrite Hp1, Hp2, Hs1.
      destruct (plain_split 0 [] text) as [ps open]. simpl.
      split; [|done]. by rewrite <- app_assoc, <- nonblank_app.
    + apply text_of_append in Hx as [Hs1 Hc1].
      destruct (IH chars (i + 1) e1 [] (depth_step d c) top1)
        as (e' & evs & top' & Hr & [Hp1 Hp2] & Hs'); try done; [lia|].
      exists e', (evs1 ++ evs), top'. split; [by eapply runs_step|]. split; [by rewrite <- Hc1, <- Hs1|done].
Qed.

Lemma plain_text_parts text :
  plain_text text = true -> all_plain text /\ no_comment text = true /\ words_ordinary [] text = true.
Proof.
  intros Hp. apply andb_true_iff in Hp as [Hp Hwo]. apply andb_true_iff in Hp as [Hpc Hn].
  split; [|done]. intros j x Hj. rewrite List.forallb_forall in Hpc. apply Hpc, list_elem_of_In.
  by eapply list_elem_of_lookup_2.
Qed.

Lemma statements_finalize e : statements (finalize e) = statements e ++ nonblank [current e].
Proof.
  unfold finalize, finish_current_statement.
  change (statements (on_state reset_after_statement_boundary ?x)) with (statements x).
  set (e2 := on_state resolve_pending_end_on_eof _).
  by destruct (text_of_push e2 (push_current_statement e2)) as [H1 _].
Qed.

(** ** Lines *)

Definition slash_terminates (line : str) : bool :=
  match classify_line_leading_marker line with
  | LineLeadingMarker_Slash kind => consumes_as_terminator kind
  | _ => false
  end.

(** A line that is plain and neither a tool command nor a slash that ends a
    statement. *)
Definition plain_line (line : str) : bool :=
  plain_text (with_newline line) && negb (is_auto_terminated_tool_command line)
  && negb (slash_terminates line).

Lemma plain_boundary_action mysql d top line b :
  slash_terminates line = false ->
  line_boundary_action_for_line line b (plain_state mysql [] (open_parens d) top) = LineBoundaryAction_None.
Proof.
  unfold slash_terminates, line_boundary_action_for_line, line_boundary_action. intros Hc.
  destruct (classify_line_leading_marker line) as [| | | |kind]; [done|done|done|done|].
  rewrite Hc. by destruct b, d.
Qed.

Lemma plain_line_read mysql d top line e :
  plain_line line = true -> state e = plain_state mysql [] (open_parens d) top ->
  exists e' top', process_line line e = Some e' /\ plain_result d (with_newline line) e e'
    /\ state e' = plain_state mysql [] (open_parens (depth_after d (with_newline line))) top'.
Proof.
  intros Hl Hs. apply andb_true_iff in Hl as [Hl Hslash%negb_true_iff].
  apply andb_true_iff in Hl as [(Ha & Hn & Hwo)%plain_text_parts Htool%negb_true_iff].
  unfold process_line, process_line_with_observers. cbv zeta. fold (with_newline line).
  set (e0 := on_state (close_foreign_module_source_on_terminator_line line) e).
  assert (state e0 = plain_state mysql [] (open_parens d) top) as Hs0 by (unfold e0; by rewrite state_on_state, Hs).
  rewrite Hs0, plain_boundary_action by done. cbn [apply_line_boundary_action].
  unfold is_line_tool_command. rewrite Htool, !andb_false_r.
  destruct (plain_run mysql (with_newline line) (with_newline line) 0 e0 [] d top)
    as (e' & evs & top' & Hr & Hp & Hs'); try done; [lia|].
  rewrite (runs_process _ _ _ _ (ltac:(by rewrite Hs0)) Hr). exists (on_state clear_skip_next_end_label_token e'), top'. split.
  - cbn. unfold finish_line. by rewrite andb_false_r.
  - split; [exact Hp|]. rewrite state_on_state, Hs'. unfold token_after, with_newline. by rewrite fold_left_app.
Qed.

End PlainLoop.
