(* ===== verification/EndResolution.v ===== *)
(** * END, terminators and resets

    What END takes off the block stack, when a semicolon may split, which lines
    count as a lone slash, and what a forced reset leaves behind. *)
From S2P Require Import Prelude RustStr SqlText Boundary EngineText SplitState Engine SplitFrame EngineTurn EngineLoop EngineInvariant EngineLines.

(** ** A plain END *)

Lemma vec_pop_take {A} (l : list A) : vec_pop l = take (length l - 1) l.
Proof. unfold vec_pop. rewrite removelast_firstn_len. by rewrite <- Nat.sub_1_r. Qed.

Lemma below_top_depth s k : below_top s = Some k -> 2 <= block_depth s.
Proof.
  unfold below_top, block_depth. intros Hb%lookup_lt_Some. rewrite length_reverse in Hb. lia.
Qed.

Lemma plain_end_parent_closure_depth w s :
  plain_end_parent_closure w s <> PlainEndParentClosure_None -> 2 <= block_depth s.
Proof.
  unfold plain_end_parent_closure. cbv zeta. intros Hc.
  apply (below_top_depth s BlockKind_AsIs).
  destruct (_ && _) eqn:H1.
  - rewrite !andb_true_iff in H1. destruct H1 as [[_ H1] _]. by apply bool_decide_eq_true in H1.
  - destruct (last (block_stack s) == Some BlockKind_Begin); [|done]. cbn [andb] in Hc.
    destruct (below_top s == Some BlockKind_AsIs) eqn:H2; [|done].
    by apply bool_decide_eq_true in H2.
Qed.

(** The blocks left after a plain END. *)
Lemma resolve_plain_end_stack w s :
  block_stack (resolve_plain_end w s)
  = take (block_depth s - plain_end_scope_pop_count w s) (block_stack s).
Proof.
  unfold resolve_plain_end, plain_end_scope_pop_count. cbv zeta.
  pose proof (plain_end_parent_closure_depth w s) as Hd. unfold block_depth in *.
  assert (H1 : block_stack (s <| block_stack ::= vec_pop |>)
               = take (length (block_stack s) - 1) (block_stack s)) by apply vec_pop_take.
  assert (H2 : 2 <= length (block_stack s) ->
               vec_pop (vec_pop (block_stack s)) = take (length (block_stack s) - 2) (block_stack s)).
  { intros Hl. rewrite !vec_pop_take, take_take, length_take. f_equal. lia. }
  destruct (plain_end_parent_closure w s).
  - rewrite !bool_decide_eq_false_2 by done. rewrite bool_decide_eq_true_2 by done.
    cbn [negb]. cbn iota. destruct (block_stack s) eqn:Hs; [|exact H1].
    rewrite H1. done.
  - specialize (Hd ltac:(done)). rewrite bool_decide_eq_true_2 by done.
    rewrite bool_decide_eq_false_2 by done. cbn [negb].
    change (vec_pop (vec_pop (block_stack s))
            = take (length (block_stack s) - match block_stack s with [] => 0 | _ :: _ => 1 + 1 end)
                (block_stack s)).
    rewrite H2 by lia. by destruct (block_stack s).
  - specialize (Hd ltac:(done)). rewrite !bool_decide_eq_false_2 by done. cbn [negb].
    change (vec_pop (vec_pop (block_stack s))
            = take (length (block_stack s) - match block_stack s with [] => 0 | _ :: _ => 1 + 1 end)
                (block_stack s)).
    rewrite H2 by lia. by destruct (block_stack s).
Qed.

Lemma plain_end_closes_parent_scope_closure w s :
  plain_end_closes_parent_scope w s = true -> plain_end_scope_pop_count w s = 2.
Proof.
  unfold plain_end_closes_parent_scope, plain_end_scope_pop_count. cbv zeta. intros Hc.
  assert (Hp : plain_end_parent_closure w s <> PlainEndParentClosure_None).
  { unfold plain_end_parent_closure. cbv zeta. destruct (_ && _) eqn:H1; [done|].
    rewrite !andb_true_iff in Hc. destruct Hc as [[[-> ->] Hk%bool_decide_eq_true] ->].
    by rewrite Hk. }
  pose proof (plain_end_parent_closure_depth w s Hp) as Hd. unfold block_depth in Hd.
  rewrite bool_decide_eq_false_2 by done. destruct (block_stack s); [simpl in Hd; lia|done].
Qed.

(** ** END with a suffix *)

(** The block that a suffix closes. *)
Definition suffix_block (x : PendingEndSuffix) : BlockKind :=
  match x with
  | PendingEndSuffix_Case => BlockKind_Case
  | PendingEndSuffix_If => BlockKind_If
  | PendingEndSuffix_Loop => BlockKind_Loop
  | PendingEndSuffix_While => BlockKind_While
  | PendingEndSuffix_Repeat => BlockKind_Repeat
  | PendingEndSuffix_For => BlockKind_For
  | PendingEndSuffix_TimingPoint => BlockKind_TimingPoint
  end.

Lemma last_push_block k s : last (block_stack (push_block k s)) = Some k.
Proof. unfold push_block, vec_push. simpl. apply last_snoc. Qed.

Lemma pop_push_block k s : block_stack (push_block k s <| block_stack ::= vec_pop |>) = block_stack s.
Proof. exact (removelast_last (block_stack s) k). Qed.

Lemma rposition_snoc {A} (p : A -> bool) l x :
  p x = true -> rposition p (l ++ [x]) = Some (length l).
Proof. intros Hp. induction l as [|y l IH]; simpl; [by rewrite Hp|by rewrite IH]. Qed.

Lemma suffix_closes_opener x s :
  block_stack (fst (apply_suffix_to_state x (push_block (suffix_block x) s))) = block_stack s /\
  snd (apply_suffix_to_state x (push_block (suffix_block x) s)) = true.
Proof.
  destruct x; unfold apply_suffix_to_state, pop_case_block, top_is_case, pop_timing_point_block;
    cbn [suffix_block pop_top_matching_block]; unfold pop_block_of_kind;
    rewrite ?last_push_block; try (rewrite bool_decide_eq_true_2 by done);
    cbn iota; try (by split; [apply pop_push_block|]).
  assert (Hr : rposition (fun k => k == BlockKind_TimingPoint)
            (block_stack (push_block BlockKind_TimingPoint s)) = Some (length (block_stack s))).
  { by apply rposition_snoc. }
  rewrite Hr. split; [|done]. exact (take_app_length (block_stack s) [_]).
Qed.

(** ** Semicolons *)

Lemma semicolon_split_depth s :
  frames_ok s -> action_splits (SemicolonAction_from_state s) = true ->
  paren_depth s = 0 /\
  (block_depth s = 0 \/
   block_depth s = 1 /\ exists f, active_routine_frame s = Some f /\
                                  semicolon_policy f = SemicolonPolicy_ForceSplit).
Proof.
  intros Hf. unfold SemicolonAction_from_state.
  destruct (keep_semicolons_inside_create_body s); [done|].
  destruct (_ && _) eqn:H1.
  { rewrite !andb_true_iff, !Nat.eqb_eq in H1. destruct H1 as [[? ?] _]. auto. }
  destruct (_ && should_split_on_semicolon s) eqn:H2; [|by case_match].
  apply andb_true_iff in H2 as [Hp%Nat.eqb_eq Hs]. intros _. split; [done|].
  unfold should_split_on_semicolon in Hs. destruct (last (routine_is_stack s)) as [f|] eqn:Hl; [|done].
  apply andb_true_iff in Hs as [Hd%Nat.eqb_eq Hpol%bool_decide_eq_true].
  destruct (frames_ok_last s f Hf Hl) as [_ Hok]. rewrite Hpol in Hok.
  right. split; [congruence|]. exists f. split; [|done].
  unfold active_routine_frame. by rewrite Hl, Hd, Nat.eqb_refl.
Qed.

Lemma semicolon_close_depth s :
  frames_ok s -> SemicolonAction_from_state s = SemicolonAction_CloseRoutineBlock ->
  paren_depth s = 0 /\ 2 <= block_depth s.
Proof.
  intros Hf. unfold SemicolonAction_from_state.
  destruct (keep_semicolons_inside_create_body s); [done|].
  destruct (_ && _); [done|]. destruct (_ && should_split_on_semicolon s); [done|].
  destruct (_ && should_close_routine_block_on_semicolon s) eqn:H2; [|done].
  apply andb_true_iff in H2 as [Hp%Nat.eqb_eq Hs]. intros _. split; [done|].
  unfold should_close_routine_block_on_semicolon in Hs.
  destruct (last (routine_is_stack s)) as [f|] eqn:Hl; [|done].
  apply andb_true_iff in Hs as [Hd%Nat.eqb_eq Hpol%bool_decide_eq_true].
  destruct (frames_ok_last s f Hf Hl) as [Hge Hok]. rewrite Hpol in Hok. lia.
Qed.

(** ** Lone slashes *)

Lemma ink_bracket c l d :
  is_whitespace c = false -> is_whitespace d = false -> 2 <= length (ink (c :: l ++ [d])).
Proof.
  intros Hc Hd. simpl. rewrite Hc. simpl. rewrite ink_app. simpl. rewrite Hd. simpl.
  rewrite length_app. simpl. lia.
Qed.

Lemma trim_start_head s c l : trim_start s = c :: l -> is_whitespace c = false.
Proof.
  induction s as [|d s IH]; simpl; [done|]. destruct (is_whitespace d) eqn:Hd; [done|].
  by intros [= <- _].
Qed.

(** Text trims to one character exactly when that is its only ink. *)
Lemma trim_one s c : is_whitespace c = false -> trim s = [c] <-> ink s = [c].
Proof.
  intros Hc. split; [intros Ht; rewrite <- ink_trim, Ht; simpl; by rewrite Hc|].
  rewrite <- ink_trim. intros Hi. destruct (trim s) as [|a t] eqn:Ht; [done|].
  assert (Ha : is_whitespace a = false).
  { pose proof (trim_idemp s) as Hid. rewrite Ht in Hid. unfold trim in Hid.
    destruct (is_whitespace a) eqn:Ha; [|done]. exfalso.
    destruct (trim_end_prefix (trim_start (a :: t))) as [q [Hq _]]. rewrite Hid in Hq.
    simpl in Hq. rewrite Ha in Hq. apply (trim_start_head t) in Hq. congruence. }
  destruct (exists_last (l := a :: t) ltac:(done)) as [m [b Hb]].
  assert (Hbw : is_whitespace b = false).
  { unfold trim, trim_end in Ht. apply (f_equal reverse) in Ht. rewrite reverse_involutive in Ht.
    rewrite Hb, reverse_snoc in Ht. by eapply trim_start_head. }
  destruct t as [|a' t]; [simpl in Hi; rewrite Ha in Hi; by simplify_eq|].
  exfalso. destruct m as [|a2 m]; [by destruct t|].
  simpl in Hb. injection Hb as <- Hb. rewrite Hb in Hi.
  pose proof (ink_bracket a m b Ha Hbw) as Hl. simpl app in Hl. rewrite Hi in Hl. simpl in Hl. lia.
Qed.

Lemma bare_slash_scan_app line post b :
  ~ (10%N ∈ line) -> bare_slash_scan (line ++ 10%N :: post) b = bare_slash_scan line b.
Proof.
  revert b. induction line as [|c line IH]; intros b Hn; simpl; [done|].
  assert (Hn' : ~ (10%N ∈ line)) by set_solver. rewrite !IH by done. done.
Qed.

Lemma bare_slash_scan_false line :
  ~ (10%N ∈ line) -> bare_slash_scan line false = (ink line == u "/").
Proof.
  induction line as [|c line IH]; intros Hn; simpl; [done|].
  assert (Hn' : ~ (10%N ∈ line)) by set_solver.
  destruct (N.eqb_spec c 10); [set_solver|].
  destruct (N.eqb_spec c "/"%ch) as [->|Hc]; simpl.
  - rewrite bare_slash_scan_true by done. apply bool_decide_ext. change (u "/") with ["/"%ch].
    split; [by intros ->|by intros [= ->]].
  - destruct (is_whitespace c) eqn:Hw; simpl; [by apply IH|]. symmetry.
    apply bool_decide_eq_false. intros [= ->]. done.
Qed.

(** The index scan inside a text agrees with the test on the extracted line. *)
Lemma bare_slash_agrees pre line post :
  ~ (10%N ∈ line) ->
  line_at_is_bare_slash_terminator (pre ++ line ++ 10%N :: post) (length pre)
  = is_bare_slash_terminator_line line.
Proof.
  intros Hn. unfold line_at_is_bare_slash_terminator, is_bare_slash_terminator_line.
  rewrite drop_app_length, bare_slash_scan_app, bare_slash_scan_false by done.
  apply bool_decide_ext. symmetry. by apply trim_one.
Qed.

(** ** The forced reset *)

Section Reset.
Context `{UnicodeTables}.

Lemma double_reset_default s :
  token_prefixed_with_dollar s = false ->
  reset_after_statement_boundary (drop_lexer_state (reset_after_statement_boundary s))
  = SplitState_default <| mysql_mode := mysql_mode s |>.
Proof. intros Hd. destruct s. simpl in Hd. by subst. Qed.

Lemma force_terminate_state e :
  engine_ok e ->
  state (force_terminate e) = SplitState_default <| mysql_mode := mysql_mode (state e) |>.
Proof.
  intros He. unfold force_terminate. rewrite state_finish, state_on_state, force_reset_all_eq.
  rewrite double_reset_default.
  - by rewrite (framed_mysql _ _ (resolve_pending_end_on_eof_framed _)),
      (flushed_mysql _ _ (flush_token_flushed _)).
  - rewrite (framed_dollar _ _ (resolve_pending_end_on_eof_framed _)).
    apply flush_token_dollar, He.
Qed.

Lemma push_current_statement_text_eq e :
  text_of (push_current_statement e) = (statements e ++ nonblank [current e], [], false).
Proof.
  unfold push_current_statement, nonblank, text_of, vec_push. cbv zeta. simpl.
  destruct (str_is_empty (trim (current e))); simpl; [|done]. by rewrite app_nil_r.
Qed.

End Reset.
