(* ===== verification/EngineSpec.v ===== *)
(** * What the statement splitter guarantees

    The properties of [src/sql_parser_engine] as a client sees them, each with an
    instance at a concrete input where it has hypotheses. *)
From stdpp Require Import relations.
From S2P Require Import Prelude RustStr SqlText Boundary EngineText SplitState Engine SplitFrame EngineTurn EngineLoop EngineInvariant EngineLines LexicalScan EngineLiterals PlainSplit EndResolution.

Section Spec.
Context `{UnicodeTables}.
Implicit Types (e : SqlParserEngine) (line text chars : str).

(** ** Byte offsets *)

Lemma char_to_byte_lookup line i :
  i < length line -> char_to_byte line !! i = Some (byte_offset line i).
Proof.
  intros Hi. unfold char_to_byte. rewrite lookup_app_l by (by rewrite length_fmap, length_seq).
  rewrite list_lookup_fmap, lookup_seq_lt by done. done.
Qed.

Lemma symbol_byte_spec line ev off ch :
  ev_true (with_newline line) ev -> symbol_byte line ev = Some (off, ch) ->
  exists i, line !! i = Some ch /\ off = byte_offset line i /\ is_ascii ch = true.
Proof.
  intros Ht Hb. destruct ev as [i c n| |]; simpl in Hb; [|done|done].
  destruct (is_ascii c) eqn:Ha; simpl in Hb; [|done]. destruct Ht as [Hc _].
  destruct (decide (i < length line)) as [Hi|Hi].
  - rewrite char_to_byte_lookup in Hb by done. simpl in Hb. case_match; simplify_eq.
    exists i. split_and!; [|done|done]. unfold with_newline in Hc. by rewrite lookup_app_l in Hc.
  - exfalso. assert (Hx : utf8_len line <= default (utf8_len line) (char_to_byte line !! i)).
    { unfold char_to_byte. rewrite lookup_app_r by (rewrite length_fmap, length_seq; lia).
      by destruct (i - _) as [|[]]. }
    case_match eqn:Hlt; [|done]. apply Nat.ltb_lt in Hlt. lia.
Qed.

(** ** Scripts *)

Lemma line_read_leaves line e e' evs :
  LineRead line e e' evs -> exists text, line_leaves line text /\ produced e e' text.
Proof.
  intros [Hs _ Hp|_ _ _ Hp|[Hev _] Hp].
  - exists []. split; [by left|done].
  - exists (with_newline line). split; [|done]. right. exists [].
    split; [by rewrite kept_nil|]. intros i Hi. by apply not_elem_of_nil in Hi.
  - eexists. split; [|exact Hp]. right. eexists. split; [done|].
    intros i Hi%boundaries_in. rewrite Forall_forall in Hev. by apply Hev in Hi as (_ & _ & ?).
Qed.

Lemma process_lines_leaves lines e :
  engine_ok e ->
  exists e' texts, process_lines lines e = Some e' /\ engine_ok e' /\
    Forall2 line_leaves lines texts /\ produced e e' (concat texts).
Proof.
  revert e. induction lines as [|line lines IH]; intros e He; simpl.
  { exists e, []. split_and!; [done|done|constructor|by apply produced_refl]. }
  destruct (process_line_read line e He) as (e1 & evs & Hr & H1 & Hl).
  unfold process_line. rewrite Hr. simpl.
  apply line_read_leaves in Hl as (text & Hleaves & Hp).
  destruct (IH e1 H1) as (e' & texts & -> & H' & Hf & Hp').
  exists e', (text :: texts). split_and!; [done|done|by constructor|].
  simpl. by eapply produced_trans.
Qed.

Lemma produced_finalize e :
  produced e (finalize e) [] /\ current (finalize e) = [].
Proof.
  unfold finalize. split; [|apply current_finish].
  apply (produced_trans _ (on_state resolve_pending_end_on_eof (on_state flush_token e)) _ [] []);
    [by apply produced_refl|apply produced_finish].
Qed.

(** C1. Whatever the lines of a script are and whatever the dialect, the
    splitter returns, and the statements it has after [finalize] are the
    non-blank trimmed pieces of one partition of the script's own text: nothing
    is lost, invented, reordered or duplicated except that lines that are a
    slash terminator are dropped whole and some semicolons are dropped from the
    other lines. *)
Theorem script_splits_into_pieces mysql (lines : list str) :
  exists e' texts pieces,
    process_lines lines (set_mysql_mode mysql SqlParserEngine_new) = Some e' /\
    Forall2 line_leaves lines texts /\
    concat pieces = concat texts /\
    statements (finalize e') = nonblank pieces.
Proof.
  destruct (process_lines_leaves lines (set_mysql_mode mysql SqlParserEngine_new))
    as (e' & texts & Hr & He & Hf & Hp).
  { apply (engine_step_ok SqlParserEngine_new); [apply Step_Mysql|apply engine_ok_new]. }
  destruct (produced_finalize e') as [Hfin Hcur].
  destruct (produced_trans _ _ _ _ _ Hp Hfin) as (pieces & Hs & Hc).
  exists e', texts, pieces. split_and!; [done|done| |done].
  rewrite Hcur, !app_nil_r in Hc. done.
Qed.

Lemma plain_lines_read mysql lines : forall d top e,
  forallb plain_line lines = true -> state e = plain_state mysql [] (replicate d "("%ch) top ->
  exists e', process_lines lines e = Some e' /\ plain_result d (concat (with_newline <$> lines)) e e'.
Proof.
  induction lines as [|line lines IH]; intros d top e Hl Hs; cbn [process_lines].
  { exists e. split; [done|]. split; [by rewrite app_nil_r|done]. }
  apply andb_true_iff in Hl as [Hl Hls].
  destruct (plain_line_read mysql d top line e Hl Hs) as (e1 & top1 & -> & [H1 H2] & Hs1).
  destruct (IH _ top1 e1 Hls Hs1) as (e' & -> & H1' & H2'). exists e'. split; [done|].
  unfold plain_result. cbn [fmap list_fmap concat]. rewrite plain_split_app, <- H2. cbn [fst snd].
  by rewrite H1', H1, nonblank_app, app_assoc.
Qed.

(** C9. On a script of plain lines the line driver is the reference that cuts at
    every semicolon outside parentheses and knows nothing of lines, words or
    modes.  A line is plain ([plain_line]) if it has no quote of any kind
    (single, double, backtick, opening square bracket), no dollar and no number
    sign, opens no comment, has none of the words that can open a block
    ([procedural_words]), and is neither a tool command nor a slash that ends a
    statement. *)
Theorem plain_script_reference mysql lines :
  forallb plain_line lines = true ->
  exists e', process_lines lines (set_mysql_mode mysql SqlParserEngine_new) = Some e'
    /\ let '(pieces, open) := plain_split 0 [] (concat (with_newline <$> lines)) in
       statements (finalize e') = nonblank (pieces ++ [open]).
Proof.
  intros Hl.
  destruct (plain_lines_read mysql lines 0 TopLevelTokenState_NoneSeen
              (set_mysql_mode mysql SqlParserEngine_new) Hl) as (e' & Hr & H1 & H2); [done|].
  exists e'. split; [done|]. rewrite statements_finalize, H1, H2.
  change (current (set_mysql_mode mysql SqlParserEngine_new)) with ([] : str).
  destruct (plain_split 0 [] _) as [pieces open]. cbn [fst snd]. by rewrite nonblank_app.
Qed.

(** C10. The character loop terminates without a panic on every input from every
    engine whose lexer mode is well-formed, and leaves such an engine. *)
Theorem process_chars_returns chars e :
  mode_ok (lex_mode (state e)) ->
  exists e' evs, process_chars_with_observer chars e = Some (e', evs) /\
                 mode_ok (lex_mode (state e')).
Proof.
  intros Hm. destruct (process_chars_ok chars e Hm) as (e' & evs & Hp & Hr).
  exists e', evs. split; [done|apply Hr].
Qed.

(** C11. Every engine the public operations can produce is well-formed: lexer
    mode, routine frames, parenthesis cache, dollar mark, buffer flag and
    finished statements. *)
Theorem reachable_well_formed e : reachable e -> engine_ok e.
Proof. apply reachable_engine_ok. Qed.

(** C21. No line makes a reachable engine panic, through either line driver. *)
Theorem reachable_never_panics e line :
  reachable e ->
  (exists e', process_line line e = Some e') /\
  (exists e', process_splitter_line line e = Some e').
Proof.
  intros He%reachable_engine_ok. unfold process_line, process_splitter_line. split.
  - destruct (process_line_read line e He) as (e' & evs & -> & _). by eexists.
  - destruct (process_splitter_line_read line e He) as (e' & evs & -> & _). by eexists.
Qed.

(** C20. The character loop cuts the text it reads, behind the open statement,
    into consecutive pieces; the finished ones are pushed trimmed unless blank,
    and exactly the characters reported as boundaries are dropped. *)
Theorem process_chars_partitions_text chars e e' evs :
  mode_ok (lex_mode (state e)) ->
  process_chars_with_observer chars e = Some (e', evs) ->
  produced e e' (kept (boundaries evs) 0 chars).
Proof.
  intros Hm Hp. destruct (process_chars_ok chars e Hm) as (e1 & evs1 & Hp1 & [Ht _ _ _]).
  rewrite Hp in Hp1. by simplify_eq.
Qed.

(** Observers hear about the text in source order: every event describes
    the characters it names, spans are disjoint, and a statement boundary is a
    semicolon that lies in no span. *)
Theorem observed_events_are_ordered chars e e' evs :
  mode_ok (lex_mode (state e)) ->
  process_chars_with_observer chars e = Some (e', evs) ->
  events_in chars 0 (length chars) evs /\
  forall i a b k, Ev_Boundary i ∈ evs -> Ev_Span a b k ∈ evs ->
    chars !! i = Some ";"%ch /\ ~ (a <= i < b).
Proof.
  intros Hm Hp. destruct (process_chars_ok chars e Hm) as (e1 & evs1 & Hp1 & [_ Hev _ _]).
  rewrite Hp in Hp1. simplify_eq. split; [done|]. intros i a b k Hi Hs.
  destruct Hev as [Hall Hsort]. rewrite Forall_forall in Hall.
  apply Hall in Hi as Hit. split; [apply Hit|].
  apply list_elem_of_lookup in Hi as [m Hm1], Hs as [n Hn].
  destruct (Nat.lt_total m n) as [Hlt|[->|Hlt]].
  - pose proof (StronglySorted_lookup _ _ _ _ _ _ Hsort Hlt Hm1 Hn) as Hb. simpl in Hb. lia.
  - congruence.
  - pose proof (StronglySorted_lookup _ _ _ _ _ _ Hsort Hlt Hn Hm1) as Hb. simpl in Hb. lia.
Qed.

(** Each turn of the loop refines [TurnShape]: it copies a run of input
    verbatim, or drops one boundary semicolon, or leaves foreign source in
    place; it never panics and keeps the lexer mode well-formed. *)
Theorem turn_refines_shape chars i c e :
  chars !! i = Some c -> mode_ok (lex_mode (state e)) -> good_turn chars i e (turn chars i c e).
Proof. apply turn_good. Qed.

(** A line is consumed as a slash terminator, taken whole as a client
    command, or read by the character loop; nothing else happens to it. *)
Theorem line_contract e line :
  reachable e ->
  exists e' evs, process_line_with_observers line e = Some (e', evs) /\ LineRead line e e' evs.
Proof.
  intros He%reachable_engine_ok.
  destruct (process_line_read line e He) as (e' & evs & Hp & _ & Hl). eauto.
Qed.

(** The byte observer is told of ASCII symbols at the byte offsets where
    the line has them, and never of the newline the engine adds. *)
Theorem byte_observer_offsets e line :
  reachable e ->
  exists e' seen,
    process_line_with_byte_observer line e = Some (e', seen) /\
    forall off ch, (off, ch) ∈ seen ->
      exists i, line !! i = Some ch /\ off = byte_offset line i /\ is_ascii ch = true.
Proof.
  intros He%reachable_engine_ok.
  destruct (process_line_read line e He) as (e' & evs & Hp & _ & Hl).
  unfold process_line_with_byte_observer. rewrite Hp. do 2 eexists. split; [done|].
  intros off ch Hin. apply list_elem_of_omap in Hin as (ev & Hev & Hb).
  destruct Hl as [_ -> _|_ -> _ _|[Hall _] _].
  - by apply not_elem_of_nil in Hev.
  - by apply list_elem_of_singleton in Hev as ->.
  - rewrite Forall_forall in Hall. apply Hall in Hev as (_ & _ & Ht).
    by eapply symbol_byte_spec.
Qed.

(** ** Literals and comments *)

(** A single-quoted literal printed by doubling quotes (and backslashes in
    MySQL) is read back as one literal: its text goes verbatim into the open
    statement, only string spans are observed, no statement is finished, and
    the parser is back in code in the state of a literal's start. *)
Theorem quoted_literal_round_trip (s : str) e :
  lex_mode (state e) = LexMode_Idle -> token (state e) = [] ->
  exists e' evs,
    process_chars_with_observer (quote (mysql_mode (state e)) "'"%ch s) e = Some (e', evs) /\
    opaque_run LexicalKind_String (quote (mysql_mode (state e)) "'"%ch s) e e' evs
      (set_lex_mode LexMode_Idle (literal_start (state e))).
Proof. apply quoted_literal_run. Qed.

(** A block comment, whatever it contains, acts on the parser as the end of
    the word before it and nothing more. *)
Theorem block_comment_is_separator (s : str) e :
  lex_mode (state e) = LexMode_Idle -> comment_body s ->
  pending_implicit_external_top_level_split (flush_token (state e)) = false ->
  exists e' evs,
    process_chars_with_observer (u "/*" ++ s ++ u "*/") e = Some (e', evs) /\
    opaque_run LexicalKind_BlockComment (u "/*" ++ s ++ u "*/") e e' evs
      (set_lex_mode LexMode_Idle (flush_token (state e))).
Proof. apply block_comment_idle. Qed.

(** The same of a line comment up to its newline, where the dialect lets
    two dashes open one. *)
Theorem line_comment_is_separator (s : str) e :
  lex_mode (state e) = LexMode_Idle -> ~ (10%N ∈ s) ->
  dash_comment_start (u "--" ++ s ++ [10%N]) 0 (state e) = true ->
  pending_implicit_external_top_level_split (flush_token (state e)) = false ->
  exists e' evs,
    process_chars_with_observer (u "--" ++ s ++ [10%N]) e = Some (e', evs) /\
    opaque_run LexicalKind_LineComment (u "--" ++ s ++ [10%N]) e e' evs
      (set_lex_mode LexMode_Idle (flush_token (state e))).
Proof. apply line_comment_idle. Qed.

(** ** Lexical spans *)

(** The lexical scan of any text from any well-formed mode succeeds; its
    byte spans are sorted, disjoint, not empty and inside the text, and cover
    exactly the bytes of the character ranges observed, with their kinds. *)
Theorem lexical_spans_sound text mysql m :
  mode_ok m ->
  exists spans m' evs,
    lexical_spans_with_initial_mode text mysql m = Some (spans, m') /\
    scan_events text mysql m = Some evs /\ mode_ok m' /\
    spans_ok spans /\ spans_below (utf8_len text) spans /\
    (forall x k, covered spans x k <->
       exists a b, Ev_Span a b k ∈ evs /\ byte_offset text a <= x < byte_offset text b).
Proof. apply lexical_spans_ok. Qed.

(** The binary search of [lexical_kind_at] finds the kind of the span
    around an offset if and only if there is such a span. *)
Theorem lexical_kind_at_is_membership spans x k :
  spans_ok spans -> lexical_kind_at spans x = Some k <-> covered spans x k.
Proof. apply lexical_kind_at_spec. Qed.

(** ** Blocks and terminators *)

(** The state in which a semicolon is decided. *)
Definition at_semicolon (next : option char) (s : SplitState) : SplitState :=
  prepare_semicolon (clear_skip_next_end_label_token (symbol_state ";"%ch next s)).

Lemma at_semicolon_ok next s : state_ok s -> state_ok (at_semicolon next s).
Proof. intros Hs. unfold at_semicolon. auto with state_ok. Qed.

(** On a reachable engine a semicolon splits only outside parentheses, and
    only outside all blocks or in the outermost routine whose body turned out to
    be an external call; it closes a routine block only below the outermost. *)
Theorem semicolon_splits_outermost_only e next :
  reachable e ->
  let s := at_semicolon next (state e) in
  (action_splits (SemicolonAction_from_state s) = true ->
     paren_depth s = 0 /\
     (block_depth s = 0 \/
      block_depth s = 1 /\ exists f, active_routine_frame s = Some f /\
                                     semicolon_policy f = SemicolonPolicy_ForceSplit)) /\
  (SemicolonAction_from_state s = SemicolonAction_CloseRoutineBlock ->
     paren_depth s = 0 /\ 2 <= block_depth s).
Proof.
  intros He%reachable_engine_ok s.
  assert (Hf : frames_ok s) by apply ok_frames, at_semicolon_ok, He.
  split; [by apply semicolon_split_depth|by apply semicolon_close_depth].
Qed.

(** A plain END takes exactly [plain_end_scope_pop_count] blocks off the
    top of the stack and no other; two when it closes its parent scope. *)
Theorem plain_end_pops_counted_scopes w s :
  block_stack (resolve_plain_end w s)
  = take (block_depth s - plain_end_scope_pop_count w s) (block_stack s) /\
  (plain_end_closes_parent_scope w s = true -> plain_end_scope_pop_count w s = 2).
Proof. split; [apply resolve_plain_end_stack|apply plain_end_closes_parent_scope_closure]. Qed.

(** END with a suffix undoes the block its suffix names: opening the block
    and closing it leaves the stack as it was. *)
Theorem end_suffix_undoes_opener x s :
  block_stack (fst (apply_suffix_to_state x (push_block (suffix_block x) s))) = block_stack s /\
  snd (apply_suffix_to_state x (push_block (suffix_block x) s)) = true.
Proof. apply suffix_closes_opener. Qed.

(** The slash test on a character slice agrees with the test on the line
    cut out of it: both accept exactly the lines that trim to one slash. *)
Theorem slash_scan_agrees_with_line_test pre line post :
  ~ (10%N ∈ line) ->
  line_at_is_bare_slash_terminator (pre ++ line ++ 10%N :: post) (length pre)
  = is_bare_slash_terminator_line line.
Proof. apply bare_slash_agrees. Qed.

(** [force_terminate] finishes the open statement and returns the parser to
    its initial state, whatever it was in the middle of, except for the dialect. *)
Theorem force_terminate_restarts e :
  reachable e ->
  force_terminate e
  = mkEngine (SplitState_default <| mysql_mode := mysql_mode (state e) |>) [] false
      (statements e ++ nonblank [current e]).
Proof.
  intros He%reachable_engine_ok. pose proof (force_terminate_state e He) as Hs.
  assert (Ht : text_of (force_terminate e) = (statements e ++ nonblank [current e], [], false)).
  { exact (push_current_statement_text_eq (on_state force_reset_all e)). }
  destruct (force_terminate e) as [st cur flag sts]. simpl in Hs. subst st.
  unfold text_of in Ht. simpl in Ht. by simplify_eq.
Qed.

End Spec.

(** ** Instances *)

(** A new engine that has read one line. *)
Definition sample_engine : SqlParserEngine :=
  default SqlParserEngine_new
    (@process_line sample_tables (u "SELECT 'a;b', (1") (SqlParserEngine_new)).

Lemma sample_engine_reachable : @reachable sample_tables sample_engine.
Proof.
  eapply rtc_once, (@Step_Line sample_tables (u "SELECT 'a;b', (1")). vm_compute. reflexivity.
Qed.

Lemma plain_script_reference_witness :
  exists e',
    @process_lines sample_tables [u "SELECT f(1;"; u "  2); DELETE FROM t"; u " ;; "; u "COMMIT"]
      (set_mysql_mode false SqlParserEngine_new) = Some e' /\
    statements (finalize e') = [u "SELECT f(1;" ++ [10%N] ++ u "  2)"; u "DELETE FROM t"; u "COMMIT"].
Proof.
  destruct (@plain_script_reference sample_tables false
    [u "SELECT f(1;"; u "  2); DELETE FROM t"; u " ;; "; u "COMMIT"]) as (e' & Hp & Hs); [vm_compute; reflexivity|].
  exists e'. split; [exact Hp|]. etransitivity; [exact Hs|]. vm_compute. reflexivity.
Defined.

Lemma process_chars_returns_witness :
  exists e' evs,
    @process_chars_with_observer sample_tables (u "q'[x]' $t$ y") SqlParserEngine_new
    = Some (e', evs) /\ mode_ok (lex_mode (state e')).
Proof. apply (@process_chars_returns sample_tables). exact I. Defined.

Lemma reachable_well_formed_witness : engine_ok sample_engine.
Proof. exact (@reachable_well_formed sample_tables _ sample_engine_reachable). Defined.

Lemma reachable_never_panics_witness :
  (exists e', @process_line sample_tables (u ");") sample_engine = Some e') /\
  (exists e', @process_splitter_line sample_tables (u ");") sample_engine = Some e').
Proof. exact (@reachable_never_panics sample_tables _ _ sample_engine_reachable). Defined.

(** The run the next two instances look at. *)
Definition sample_result : SqlParserEngine * list Event :=
  Eval vm_compute in
    default (SqlParserEngine_new, [])
      (@process_chars_with_observer sample_tables (u "A ';' ; B") SqlParserEngine_new).

Lemma sample_run :
  @process_chars_with_observer sample_tables (u "A ';' ; B") SqlParserEngine_new
  = Some (fst sample_result, snd sample_result).
Proof. vm_compute. reflexivity. Qed.

Lemma process_chars_partitions_text_witness :
  boundaries (snd sample_result) = [6] /\
  produced SqlParserEngine_new (fst sample_result) (u "A ';'  B").
Proof.
  split; [reflexivity|].
  exact (@process_chars_partitions_text sample_tables (u "A ';' ; B") SqlParserEngine_new
           _ _ I sample_run).
Defined.

Lemma observed_events_are_ordered_witness :
  events_in (u "A ';' ; B") 0 9 (snd sample_result).
Proof.
  exact (proj1 (@observed_events_are_ordered sample_tables (u "A ';' ; B") SqlParserEngine_new
                  _ _ I sample_run)).
Defined.

Lemma turn_refines_shape_witness :
  good_turn (u "x;y") 1 SqlParserEngine_new
    (@turn sample_tables (u "x;y") 1 ";"%ch SqlParserEngine_new).
Proof. apply (@turn_refines_shape sample_tables); [reflexivity|exact I]. Defined.

Lemma line_contract_witness :
  exists e' evs, @process_line_with_observers sample_tables (u "/") sample_engine = Some (e', evs) /\
                 LineRead (u "/") sample_engine e' evs.
Proof. exact (@line_contract sample_tables _ _ sample_engine_reachable). Defined.

Lemma byte_observer_offsets_witness :
  exists e' seen,
    @process_line_with_byte_observer sample_tables (u "a, b;") sample_engine = Some (e', seen) /\
    forall off ch, (off, ch) ∈ seen ->
      exists i, u "a, b;" !! i = Some ch /\ off = byte_offset (u "a, b;") i /\ is_ascii ch = true.
Proof. exact (@byte_observer_offsets sample_tables _ _ sample_engine_reachable). Defined.

Lemma quoted_literal_round_trip_witness :
  exists e' evs,
    @process_chars_with_observer sample_tables (u "'it''s; ok'") SqlParserEngine_new
    = Some (e', evs) /\
    opaque_run LexicalKind_String (u "'it''s; ok'") SqlParserEngine_new e' evs
      (set_lex_mode LexMode_Idle (literal_start SplitState_default)).
Proof.
  exact (@quoted_literal_round_trip sample_tables (u "it's; ok") SqlParserEngine_new
           eq_refl eq_refl).
Defined.

Lemma block_comment_is_separator_witness :
  exists e' evs,
    @process_chars_with_observer sample_tables (u "/*" ++ u " a;* / b " ++ u "*/")
      SqlParserEngine_new = Some (e', evs) /\
    opaque_run LexicalKind_BlockComment (u "/*" ++ u " a;* / b " ++ u "*/")
      SqlParserEngine_new e' evs (set_lex_mode LexMode_Idle (flush_token SplitState_default)).
Proof.
  apply (@block_comment_is_separator sample_tables (u " a;* / b ") SqlParserEngine_new);
    vm_compute; reflexivity.
Defined.

Lemma line_comment_is_separator_witness :
  exists e' evs,
    @process_chars_with_observer sample_tables (u "--" ++ u " a; 'b" ++ [10%N])
      SqlParserEngine_new = Some (e', evs) /\
    opaque_run LexicalKind_LineComment (u "--" ++ u " a; 'b" ++ [10%N])
      SqlParserEngine_new e' evs (set_lex_mode LexMode_Idle (flush_token SplitState_default)).
Proof.
  apply (@line_comment_is_separator sample_tables (u " a; 'b") SqlParserEngine_new);
    [reflexivity| |reflexivity|reflexivity].
  apply (bool_decide_unpack _). vm_compute. exact I.
Defined.

Lemma lexical_spans_sound_witness :
  exists spans m' evs,
    @lexical_spans_with_initial_mode sample_tables (u "a 'b' --c") false LexMode_Idle
    = Some (spans, m') /\
    @scan_events sample_tables (u "a 'b' --c") false LexMode_Idle = Some evs /\ mode_ok m' /\
    spans_ok spans /\ spans_below (utf8_len (u "a 'b' --c")) spans /\
    (forall x k, covered spans x k <->
       exists a b, Ev_Span a b k ∈ evs /\
                   byte_offset (u "a 'b' --c") a <= x < byte_offset (u "a 'b' --c") b).
Proof. apply (@lexical_spans_sound sample_tables). exact I. Defined.

Lemma lexical_kind_at_is_membership_witness :
  lexical_kind_at [mkLexicalSpan 2 5 LexicalKind_String] 3 = Some LexicalKind_String <->
  covered [mkLexicalSpan 2 5 LexicalKind_String] 3 LexicalKind_String.
Proof.
  apply lexical_kind_at_is_membership. split; repeat constructor.
Defined.

Lemma semicolon_splits_outermost_only_witness :
  let s := at_semicolon None (state sample_engine) in
  (action_splits (SemicolonAction_from_state s) = true ->
     paren_depth s = 0 /\
     (block_depth s = 0 \/
      block_depth s = 1 /\ exists f, active_routine_frame s = Some f /\
                                     semicolon_policy f = SemicolonPolicy_ForceSplit)) /\
  (SemicolonAction_from_state s = SemicolonAction_CloseRoutineBlock ->
     paren_depth s = 0 /\ 2 <= block_depth s).
Proof. exact (@semicolon_splits_outermost_only sample_tables _ None sample_engine_reachable). Defined.

Lemma plain_end_pops_counted_scopes_witness :
  plain_end_scope_pop_count []
    (SplitState_default <| block_stack := [BlockKind_AsIs; BlockKind_Begin] |>
       <| create_plsql_kind := CreatePlsqlKind_PackageBody |>) = 2.
Proof.
  apply (proj2 (plain_end_pops_counted_scopes [] (SplitState_default
    <| block_stack := [BlockKind_AsIs; BlockKind_Begin] |>
    <| create_plsql_kind := CreatePlsqlKind_PackageBody |>))).
  vm_compute. reflexivity.
Defined.

Lemma slash_scan_agrees_with_line_test_witness :
  line_at_is_bare_slash_terminator (u "ab" ++ u " / " ++ 10%N :: u "c") 2
  = is_bare_slash_terminator_line (u " / ").
Proof.
  apply (slash_scan_agrees_with_line_test (u "ab") (u " / ") (u "c")).
  apply (bool_decide_unpack _). vm_compute. exact I.
Defined.

Lemma force_terminate_restarts_witness :
  force_terminate sample_engine
  = mkEngine SplitState_default [] false [u "SELECT 'a;b', (1"].
Proof.
  rewrite (@force_terminate_restarts sample_tables _ sample_engine_reachable).
  vm_compute. reflexivity.
Defined.

(** After an implicit call specification the block stack is cleared when the next
    statement starts with a word, but not when it starts with a comment: the two
    statements that follow the comment stay one. *)
Example comment_after_call_spec_merges_statements :
  let run := fun lines =>
    match @process_lines sample_tables lines SqlParserEngine_new with
    | Some e => length (statements (finalize e))
    | None => 0
    end in
  let spec := u "CREATE FUNCTION f RETURN NUMBER AS LANGUAGE C;" in
  run [spec; u "SELECT 1 FROM t;"; u "SELECT 2 FROM t;"] = 3 /\
  run [spec; u "-- next"; u "SELECT 1 FROM t;"; u "SELECT 2 FROM t;"] = 2.
Proof. split; vm_compute; reflexivity. Qed.
