(* ===== verification/Utf8.v ===== *)
(** * Strings as UTF-8 bytes

    The editor's rope addresses a [String] by byte offset, so here a string is
    the list of its bytes.  [valid_utf8] is what the type [String] guarantees:
    the bytes are the concatenation of encoded scalar values.  The boundary
    test and [str::get] are the standard library's. *)
From S2P Require Import Prelude RustStr.

Abbreviation byte := N (only parsing).
Abbreviation bytes := (list N) (only parsing).

(** [char::encode_utf8]. *)
Definition utf8_encode (c : char) : bytes :=
  if N.ltb c 128 then [c]
  else if N.ltb c 2048 then
    [N.lor 192 (N.shiftr c 6); N.lor 128 (N.land c 63)]
  else if N.ltb c 65536 then
    [N.lor 224 (N.shiftr c 12); N.lor 128 (N.land (N.shiftr c 6) 63); N.lor 128 (N.land c 63)]
  else
    [N.lor 240 (N.shiftr c 18); N.lor 128 (N.land (N.shiftr c 12) 63);
     N.lor 128 (N.land (N.shiftr c 6) 63); N.lor 128 (N.land c 63)].

(** A Unicode scalar value: not a surrogate, at most [0x10FFFF]. *)
Definition is_scalar (c : char) : bool := N.ltb c 55296 || in_range 57344 1114111 c.

Definition encode_str (s : str) : bytes := concat (utf8_encode <$> s).

Definition valid_utf8 (s : bytes) : Prop :=
  exists chars, Forall (fun c => is_scalar c = true) chars /\ s = encode_str chars.

(** [byte & 0b1100_0000 == 0b1000_0000]. *)
Definition is_continuation (b : byte) : bool := N.eqb (N.land b 192) 128.

(** [str::is_char_boundary]. *)
Definition str_is_char_boundary (s : bytes) (index : nat) : bool :=
  (index =? 0)
  || match s !! index with
     | Some b => negb (is_continuation b)
     | None => index =? length s
     end.

(** [str::get(start..end)]. *)
Definition str_get (s : bytes) (start end_ : nat) : option bytes :=
  if (start <=? end_) && str_is_char_boundary s start && str_is_char_boundary s end_
  then Some (slice start end_ s) else None.

(** [<[T]>::get(start..end)]. *)
Definition slice_get {A} (v : list A) (start end_ : nat) : option (list A) :=
  if (start <=? end_) && (end_ <=? length v) then Some (slice start end_ v) else None.

(** [<[T]>::partition_point]: on a partitioned slice, the length of the part
    that satisfies the predicate. *)
Fixpoint partition_point {A} (pred : A -> bool) (v : list A) : nat :=
  match v with
  | [] => 0
  | x :: v => if pred x then S (partition_point pred v) else 0
  end.

(** ** Encoded characters *)

Lemma continuation_byte x : is_continuation (N.lor 128 (N.land x 63)) = true.
Proof.
  unfold is_continuation. rewrite N.land_lor_distr_l, <- N.land_assoc.
  change (N.land 63 192) with 0%N. by rewrite N.land_0_r.
Qed.

Lemma lead_byte k x : N.testbit k 6 = true -> is_continuation (N.lor k x) = false.
Proof.
  intros Hk. unfold is_continuation. apply N.eqb_neq. intros E.
  assert (N.testbit (N.land (N.lor k x) 192) 6 = N.testbit 128 6) as E' by (by rewrite E).
  rewrite N.land_spec, N.lor_spec, Hk in E'. discriminate.
Qed.

Lemma ascii_testbit b : (b < 128)%N -> N.testbit b 7 = false.
Proof.
  intros Hb. apply N.bits_above_log2. destruct (decide (b = 0%N)) as [->|]; [reflexivity|].
  apply (N.log2_lt_pow2 b 7); lia.
Qed.

Lemma ascii_byte b : (b < 128)%N -> is_continuation b = false.
Proof.
  intros Hb. unfold is_continuation. apply N.eqb_neq. intros E.
  assert (N.testbit (N.land b 192) 7 = true) as E' by (by rewrite E).
  by rewrite N.land_spec, (ascii_testbit b Hb) in E'.
Qed.

(** An encoded character is a lead byte and continuation bytes. *)
Lemma utf8_encode_shape c :
  exists lead rest, utf8_encode c = lead :: rest /\ is_continuation lead = false
    /\ Forall (fun b => is_continuation b = true) rest /\ length rest <= 3
    /\ ((lead < 128)%N -> rest = []).
Proof.
  unfold utf8_encode.
  destruct (N.ltb_spec c 128); [|destruct (N.ltb_spec c 2048); [|destruct (N.ltb_spec c 65536)]];
    eexists _, _; (split; [reflexivity|]); split_and!;
    try (cbn; lia); try (apply lead_byte; reflexivity); try (by apply ascii_byte);
    try (repeat constructor; apply continuation_byte); try done;
    intros Hlt; apply ascii_testbit in Hlt; by rewrite N.lor_spec in Hlt.
Qed.

Lemma encode_str_app s1 s2 : encode_str (s1 ++ s2) = encode_str s1 ++ encode_str s2.
Proof. unfold encode_str. by rewrite fmap_app, concat_app. Qed.

Lemma valid_utf8_nil : valid_utf8 [].
Proof. by exists []. Qed.

Lemma valid_utf8_app s1 s2 : valid_utf8 s1 -> valid_utf8 s2 -> valid_utf8 (s1 ++ s2).
Proof.
  intros (c1 & H1 & ->) (c2 & H2 & ->). exists (c1 ++ c2). rewrite encode_str_app.
  split; [by apply Forall_app|done].
Qed.

Lemma valid_utf8_ascii s : Forall (fun b => (b < 128)%N) s -> valid_utf8 s.
Proof.
  intros Hs. exists s. induction Hs as [|b s Hb _ [IHs IHe]]; [done|]. split.
  - constructor; [|done]. unfold is_scalar. apply orb_true_iff. left. apply N.ltb_lt. lia.
  - unfold encode_str in *. cbn. rewrite <- IHe. unfold utf8_encode.
    apply N.ltb_lt in Hb. by rewrite Hb.
Qed.

(** ** Boundaries *)

(** Where a cut between characters may fall. *)
Definition starts_char (b : byte) : bool := negb (is_continuation b).

Lemma boundary_cases s i :
  str_is_char_boundary s i = true ->
  i <= length s /\ (i = 0 \/ forall b, s !! i = Some b -> starts_char b = true).
Proof.
  unfold str_is_char_boundary, starts_char. destruct (Nat.eqb_spec i 0); [intros; lia|]. cbn.
  destruct (s !! i) as [b|] eqn:E.
  - intros Hb. apply lookup_lt_Some in E. split; [lia|]. right. by intros ? [= <-].
  - intros Hb%Nat.eqb_eq. split; [lia|]. by right.
Qed.

Lemma boundary_0 s : str_is_char_boundary s 0 = true.
Proof. done. Qed.

Lemma boundary_end s : str_is_char_boundary s (length s) = true.
Proof.
  unfold str_is_char_boundary. rewrite lookup_ge_None_2, Nat.eqb_refl by done. apply orb_true_r.
Qed.

Lemma boundary_intro s i :
  i <= length s -> (forall b, s !! i = Some b -> starts_char b = true) ->
  str_is_char_boundary s i = true.
Proof.
  intros Hi Hb. unfold str_is_char_boundary. apply orb_true_iff. right.
  destruct (s !! i) eqn:E; [by apply Hb|]. apply lookup_ge_None in E. apply Nat.eqb_eq. lia.
Qed.

(** A valid string starts with a character. *)
Lemma valid_utf8_head s b : valid_utf8 s -> s !! 0 = Some b -> starts_char b = true.
Proof.
  intros ([|c cs] & _ & ->); [done|]. unfold encode_str. cbn.
  destruct (utf8_encode_shape c) as (lead & rest & -> & Hl & _). cbn. intros [= <-].
  unfold starts_char. by rewrite Hl.
Qed.

Lemma boundary_iff s i :
  valid_utf8 s -> i <= length s ->
  (str_is_char_boundary s i = true <-> forall b, s !! i = Some b -> starts_char b = true).
Proof.
  intros Hv Hi. split; [|by apply boundary_intro].
  intros [_ [->|Hb]]%boundary_cases; [|done]. intros b. by apply valid_utf8_head.
Qed.

(** Cutting a valid string at a boundary gives two valid strings. *)
Lemma valid_utf8_split s i :
  valid_utf8 s -> str_is_char_boundary s i = true -> valid_utf8 (take i s) /\ valid_utf8 (drop i s).
Proof.
  intros (chars & Hch & ->). revert i. induction Hch as [|c cs Hc Hcs IH]; intros i Hb.
  - change (encode_str []) with (@nil N). rewrite take_nil, drop_nil. split; apply valid_utf8_nil.
  - assert (Hone : valid_utf8 (utf8_encode c)).
    { exists [c]. split; [by constructor|]. unfold encode_str. cbn. by rewrite app_nil_r. }
    change (encode_str (c :: cs)) with (utf8_encode c ++ encode_str cs) in *.
    destruct (utf8_encode_shape c) as (lead & rest & E & Hl & Hr & _).
    destruct (decide (i = 0)) as [->|Hi].
    { rewrite take_0, drop_0. split; [apply valid_utf8_nil|]. apply valid_utf8_app; [done|].
      by exists cs. }
    apply boundary_cases in Hb as [Hlen [?|Hb]]; [done|].
    destruct (Nat.lt_ge_cases i (length (utf8_encode c))) as [Hlt|Hge].
    + exfalso. destruct (lookup_lt_is_Some_2 (utf8_encode c) i Hlt) as [b Eb].
      specialize (Hb b). rewrite lookup_app_l in Hb by done. specialize (Hb Eb).
      rewrite E in Eb. destruct i as [|i]; [done|]. cbn in Eb.
      eapply Forall_lookup_1 in Hr; [|done]. unfold starts_char in Hb. by rewrite Hr in Hb.
    + rewrite take_app_ge, drop_app_ge by done.
      rewrite length_app in Hlen. destruct (IH (i - length (utf8_encode c))) as [H1 H2].
      { apply boundary_intro; [lia|]. intros b. rewrite <- lookup_app_r by done. apply Hb. }
      split; [by apply valid_utf8_app|done].
Qed.

Lemma valid_utf8_slice s i j :
  valid_utf8 s -> i <= j -> str_is_char_boundary s i = true -> str_is_char_boundary s j = true ->
  valid_utf8 (slice i j s).
Proof.
  intros Hv Hij Hi Hj. unfold slice. destruct (valid_utf8_split s j Hv Hj) as [Ht _].
  apply valid_utf8_split; [done|]. apply boundary_cases in Hi as [Hle Hb], Hj as [Hlj _].
  destruct (decide (i = 0)) as [->|]; [done|].
  apply boundary_intro; [rewrite length_take; lia|]. intros b [Hk ?]%lookup_take_Some.
  destruct Hb; [done|auto].
Qed.

Lemma str_get_boundaries s i j :
  i <= j -> str_is_char_boundary s i = true -> str_is_char_boundary s j = true ->
  str_get s i j = Some (slice i j s).
Proof. intros Hij Hi Hj. unfold str_get. apply Nat.leb_le in Hij. by rewrite Hij, Hi, Hj. Qed.

(** No character is longer than four bytes. *)
Lemma boundary_within s i :
  valid_utf8 s -> i < length s -> str_is_char_boundary s i = true ->
  exists j, i < j <= i + 4 /\ str_is_char_boundary s j = true.
Proof.
  intros Hv Hi Hb. destruct (valid_utf8_split s i Hv Hb) as [_ (cs & Hcs & E)].
  destruct cs as [|c cs].
  { assert (length (drop i s) = 0) by (by rewrite E). rewrite length_drop in *. lia. }
  change (encode_str (c :: cs)) with (utf8_encode c ++ encode_str cs) in E.
  destruct (utf8_encode_shape c) as (lead & rest & Ec & _ & _ & Hlen & _).
  exists (i + length (utf8_encode c)). assert (Hl : length (utf8_encode c) = S (length rest)) by (by rewrite Ec).
  split; [lia|]. apply boundary_intro.
  - assert (length (drop i s) = length (utf8_encode c) + length (encode_str cs)) as Hd
      by (by rewrite E, length_app). rewrite length_drop in Hd. lia.
  - intros b Hlb. rewrite <- lookup_drop, E, lookup_app_r, Nat.sub_diag in Hlb by done.
    apply (valid_utf8_head (encode_str cs)); [|done]. exists cs. by inversion Hcs.
Qed.

(** The byte after an ASCII byte starts a character. *)
Lemma boundary_after_ascii s i b :
  valid_utf8 s -> s !! i = Some b -> (b < 128)%N -> str_is_char_boundary s (S i) = true.
Proof.
  intros Hv Hb Hlt.
  assert (Hi : str_is_char_boundary s i = true).
  { apply boundary_intro; [apply lookup_lt_Some in Hb; lia|]. intros b'. rewrite Hb. intros [= <-].
    unfold starts_char. by rewrite ascii_byte. }
  destruct (valid_utf8_split s i Hv Hi) as [_ (cs & Hcs & E)].
  assert (Hd : drop i s !! 0 = Some b) by (by rewrite lookup_drop, Nat.add_0_r).
  rewrite E in Hd. destruct cs as [|c cs]; [done|].
  change (encode_str (c :: cs)) with (utf8_encode c ++ encode_str cs) in *.
  destruct (utf8_encode_shape c) as (lead & rest & Ec & _ & _ & _ & Hr).
  rewrite Ec in *. cbn in Hd. injection Hd as ->. rewrite Hr in E by done.
  apply boundary_intro; [apply lookup_lt_Some in Hb; lia|]. intros b' Hb'.
  apply (valid_utf8_head (encode_str cs)); [by exists cs; inversion Hcs|].
  assert (Hd : drop i s !! 1 = Some b') by (by rewrite lookup_drop, Nat.add_1_r).
  by rewrite E in Hd.
Qed.

(** ** Decoding *)

(** [utf8_acc_cont_byte]. *)
Definition acc_cont (ch : char) (b : byte) : char := N.lor (N.shiftl ch 6) (N.land b 63).

(** The first character and its length in bytes. *)
Definition next_char (s : bytes) : option (char * nat) :=
  match s with
  | [] => None
  | x :: rest =>
      if N.ltb x 128 then Some (x, 1)
      else if N.ltb x 224 then
        match rest with y :: _ => Some (acc_cont (N.land x 31) y, 2) | _ => None end
      else if N.ltb x 240 then
        match rest with
        | y :: z :: _ => Some (acc_cont (acc_cont (N.land x 15) y) z, 3)
        | _ => None
        end
      else
        match rest with
        | y :: z :: w :: _ => Some (acc_cont (acc_cont (acc_cont (N.land x 7) y) z) w, 4)
        | _ => None
        end
  end.

(** [str::chars]; a character has at least one byte, so the length is enough
    fuel. *)
Fixpoint chars_loop (fuel : nat) (s : bytes) : list char :=
  match fuel with
  | 0 => []
  | S fuel =>
      match next_char s with
      | Some (c, n) => c :: chars_loop fuel (drop n s)
      | None => []
      end
  end.

Definition str_chars (s : bytes) : list char := chars_loop (length s) s.

(** [s.char_indices().next_back()]: the last character and where it starts. *)
Fixpoint last_start (s : bytes) (p : nat) : nat :=
  match p with
  | 0 => 0
  | S before => if str_is_char_boundary s p then p else last_start s before
  end.

Definition last_char (s : bytes) : option (nat * char) :=
  match s with
  | [] => None
  | _ =>
      let start := last_start s (length s - 1) in
      match next_char (drop start s) with Some (c, _) => Some (start, c) | None => None end
  end.

Lemma acc_cont_encode c : acc_cont (N.shiftr c 6) (N.lor 128 (N.land c 63)) = c.
Proof.
  unfold acc_cont. rewrite N.land_lor_distr_l, <- N.land_assoc. change (N.land 63 63) with 63%N.
  change (N.land 128 63) with 0%N. rewrite N.lor_0_l. apply N.bits_inj. intros n.
  rewrite N.lor_spec. change 63%N with (N.ones 6). destruct (N.lt_ge_cases n 6) as [Hn|Hn].
  - rewrite N.shiftl_spec_low, N.land_spec, N.ones_spec_low by done. cbn. apply andb_true_r.
  - rewrite N.shiftl_spec_high', N.shiftr_spec', N.land_spec, N.ones_spec_high by done.
    rewrite andb_false_r, orb_false_r. f_equal. lia.
Qed.

Lemma lead_payload k w x :
  (x < 2 ^ w)%N -> N.land k (N.ones w) = 0%N -> N.land (N.lor k x) (N.ones w) = x.
Proof.
  intros Hx Hk. rewrite N.land_lor_distr_l, Hk, N.lor_0_l, N.land_ones. by apply N.mod_small.
Qed.

Lemma lor_lead_bounds x :
  ((x < 32)%N -> (128 <= N.lor 192 x < 224)%N)
  /\ ((x < 16)%N -> (224 <= N.lor 224 x < 240)%N)
  /\ ((x < 8)%N -> (240 <= N.lor 240 x)%N).
Proof.
  split_and!; intros Hx; destruct x as [|p]; try (vm_compute; split; congruence);
    try (vm_compute; congruence);
    do 5 (destruct p as [p|p|]; try lia; try (vm_compute; split; congruence);
          try (vm_compute; congruence)).
Qed.

(** Decoding gives back the character that was encoded. *)
Lemma next_char_encode c s :
  is_scalar c = true -> next_char (utf8_encode c ++ s) = Some (c, length (utf8_encode c)).
Proof.
  intros Hc. unfold utf8_encode.
  assert (Hmax : (c < 2097152)%N).
  { unfold is_scalar, in_range in Hc. apply orb_true_iff in Hc as [Hc%N.ltb_lt|Hc]; [lia|].
    apply andb_true_iff in Hc as [_ Hc%N.leb_le]. lia. }
  destruct (N.ltb_spec c 128) as [H1|H1]; [cbn; by rewrite (proj2 (N.ltb_lt _ _) H1)|].
  assert (Hs : forall k m, (c < 2 ^ (k + m) -> N.shiftr c k < 2 ^ m)%N).
  { intros k m Hk. rewrite N.shiftr_div_pow2. apply N.Div0.div_lt_upper_bound.
    by rewrite <- N.pow_add_r. }
  assert (S6 : forall k, N.shiftr (N.shiftr c k) 6 = N.shiftr c (k + 6)) by (intros; apply N.shiftr_shiftr).
  destruct (N.ltb_spec c 2048) as [H2|H2]; [|destruct (N.ltb_spec c 65536) as [H3|H3]]; cbn [app next_char length].
  - specialize (Hs 6 5 H2)%N. destruct (lor_lead_bounds (N.shiftr c 6)) as [Hb _]. specialize (Hb Hs).
    rewrite (proj2 (N.ltb_ge _ _)), (proj2 (N.ltb_lt _ _)) by lia.
    change 31%N with (N.ones 5). rewrite lead_payload by done. by rewrite acc_cont_encode.
  - specialize (Hs 12 4 H3)%N. destruct (lor_lead_bounds (N.shiftr c 12)) as (_ & Hb & _).
    specialize (Hb Hs). rewrite !(proj2 (N.ltb_ge _ _)), (proj2 (N.ltb_lt _ _)) by lia.
    change 15%N with (N.ones 4). rewrite lead_payload by done.
    change 12%N with (6 + 6)%N. rewrite <- S6. by rewrite !acc_cont_encode.
  - specialize (Hs 18 3 Hmax)%N. destruct (lor_lead_bounds (N.shiftr c 18)) as (_ & _ & Hb).
    specialize (Hb Hs). rewrite !(proj2 (N.ltb_ge _ _)) by lia.
    change 7%N with (N.ones 3). rewrite lead_payload by done.
    change 18%N with (12 + 6)%N. rewrite <- S6, acc_cont_encode.
    change 12%N with (6 + 6)%N. rewrite <- S6. by rewrite !acc_cont_encode.
Qed.

Lemma length_utf8_encode c : length (utf8_encode c) = len_utf8 c.
Proof. unfold utf8_encode, len_utf8. by repeat case_match. Qed.

Lemma chars_loop_encode fuel cs :
  Forall (fun c => is_scalar c = true) cs -> length (encode_str cs) <= fuel ->
  chars_loop fuel (encode_str cs) = cs.
Proof.
  intros Hcs. revert fuel. induction Hcs as [|c cs Hc _ IH]; intros fuel Hf.
  - by destruct fuel.
  - change (encode_str (c :: cs)) with (utf8_encode c ++ encode_str cs) in *.
    rewrite length_app, length_utf8_encode in Hf.
    assert (0 < len_utf8 c) by (unfold len_utf8; repeat case_match; lia).
    destruct fuel as [|fuel]; [lia|]. cbn [chars_loop]. rewrite next_char_encode by done.
    rewrite drop_app_length. f_equal. apply IH. lia.
Qed.

(** Decoding is the inverse of encoding. *)
Lemma str_chars_encode cs :
  Forall (fun c => is_scalar c = true) cs -> str_chars (encode_str cs) = cs.
Proof. intros Hcs. by apply chars_loop_encode. Qed.

Lemma str_chars_valid s :
  valid_utf8 s -> Forall (fun c => is_scalar c = true) (str_chars s) /\ encode_str (str_chars s) = s.
Proof. intros (cs & Hcs & ->). by rewrite str_chars_encode. Qed.

(** Characters may be cut between, at the length of any prefix. *)
Lemma boundary_app s1 s2 : valid_utf8 s2 -> str_is_char_boundary (s1 ++ s2) (length s1) = true.
Proof.
  intros Hv. apply boundary_intro; [rewrite length_app; lia|]. intros b.
  rewrite lookup_app_r, Nat.sub_diag by done. by apply valid_utf8_head.
Qed.

(** What follows a valid prefix of a valid string is valid. *)
Lemma valid_utf8_app_inv s1 s2 : valid_utf8 s1 -> valid_utf8 (s1 ++ s2) -> valid_utf8 s2.
Proof.
  intros (cs & Hcs & ->). induction Hcs as [|c cs Hc _ IH]; [done|].
  change (encode_str (c :: cs)) with (utf8_encode c ++ encode_str cs). rewrite <- app_assoc.
  intros ([|c' cs'] & Hcs' & E).
  { destruct (utf8_encode_shape c) as (lead & rest & Ec & _). by rewrite Ec in E. }
  change (encode_str (c' :: cs')) with (utf8_encode c' ++ encode_str cs') in E.
  inversion Hcs' as [|? ? Hc' Hcs'']; subst.
  pose proof (f_equal next_char E) as En. rewrite !next_char_encode in En by done. injection En as <- _.
  apply app_inv_head in E. apply IH. by exists cs'.
Qed.
