(* ===== verification/Rope.v ===== *)
(** * [src/ui/sql_editor/chunked_text.rs]: the persistent sequence

    [SequenceNode] and [PersistentSequence]: a height-balanced tree of leaves
    that caches its length, a secondary count (line breaks, for text), its number
    of leaves and its height.  The leaf operations are the source's trait
    [SequenceLeaf], here a class; what the tree promises about its contents is
    proved from the laws of class [LeafLaws], which each kind of leaf discharges.
    [Arc]s of nodes are their contents: node identity is observed by tests only.
    A visitor callback is modelled by the list of its calls. *)
From S2P Require Import Prelude.

(** ** Leaves and nodes *)

Class SequenceLeaf (L : Type) := {
  leaf_len : L -> nat;
  leaf_secondary_len : L -> nat;
  leaf_secondary_count_before : L -> nat -> nat;
  leaf_secondary_position : L -> nat -> option nat;
  leaf_split_at : L -> nat -> option L * option L;
  rechunk_pair : L -> L -> list L
}.

Inductive SequenceNode (L : Type) :=
| Leaf (leaf : L)
| Branch (left right : SequenceNode L) (len secondary_len leaf_count height : nat).
Arguments Leaf {L} leaf.
Arguments Branch {L} left right len secondary_len leaf_count height.

Section Tree.
Context {L : Type} `{SequenceLeaf L}.
Implicit Types (t lhs rhs : SequenceNode L) (o : option (SequenceNode L)).

Definition node_len t : nat :=
  match t with Leaf leaf => leaf_len leaf | Branch _ _ len _ _ _ => len end.

Definition node_secondary_len t : nat :=
  match t with Leaf leaf => leaf_secondary_len leaf | Branch _ _ _ n _ _ => n end.

Definition node_leaf_count t : nat :=
  match t with Leaf _ => 1 | Branch _ _ _ _ n _ => n end.

Definition node_height t : nat :=
  match t with Leaf _ => 1 | Branch _ _ _ _ _ h => h end.

Definition make_branch lhs rhs : SequenceNode L :=
  Branch lhs rhs (node_len lhs + node_len rhs)
    (node_secondary_len lhs + node_secondary_len rhs)
    (node_leaf_count lhs + node_leaf_count rhs)
    (Nat.max (node_height lhs) (node_height rhs) + 1).

(** The recursion halves the slice, so its length is enough fuel. *)
Fixpoint build_balanced_loop (fuel : nat) (leaves : list L) : option (SequenceNode L) :=
  match fuel with
  | 0 => None
  | S fuel =>
      match leaves with
      | [] => None
      | [leaf] => Some (Leaf leaf)
      | _ =>
          let middle := Nat.div (length leaves) 2 in
          match build_balanced_loop fuel (take middle leaves) with
          | None => None
          | Some lhs =>
              match build_balanced_loop fuel (drop middle leaves) with
              | None => None
              | Some rhs => Some (make_branch lhs rhs)
              end
          end
      end
  end.

Definition build_balanced_nodes (leaves : list L) : option (SequenceNode L) :=
  build_balanced_loop (length leaves) leaves.

Definition balance_nodes lhs rhs : SequenceNode L :=
  if node_height rhs + 1 <? node_height lhs then
    match lhs with
    | Branch left_left left_right _ _ _ _ =>
        if node_height left_right <=? node_height left_left
        then make_branch left_left (make_branch left_right rhs)
        else match left_right with
             | Branch middle_left middle_right _ _ _ _ =>
                 make_branch (make_branch left_left middle_left) (make_branch middle_right rhs)
             | Leaf _ => make_branch lhs rhs
             end
    | Leaf _ => make_branch lhs rhs
    end
  else if node_height lhs + 1 <? node_height rhs then
    match rhs with
    | Branch right_left right_right _ _ _ _ =>
        if node_height right_left <=? node_height right_right
        then make_branch (make_branch lhs right_left) right_right
        else match right_left with
             | Branch middle_left middle_right _ _ _ _ =>
                 make_branch (make_branch lhs middle_left) (make_branch middle_right right_right)
             | Leaf _ => make_branch lhs rhs
             end
    | Leaf _ => make_branch lhs rhs
    end
  else make_branch lhs rhs.

(** [concat_raw] on two nodes; the recursion goes down the taller side. *)
Fixpoint concat_nodes lhs : SequenceNode L -> SequenceNode L :=
  fix go rhs :=
    if node_height rhs + 1 <? node_height lhs then
      match lhs with
      | Branch left_left left_right _ _ _ _ =>
          balance_nodes left_left (concat_nodes left_right rhs)
      | Leaf _ => make_branch lhs rhs
      end
    else if node_height lhs + 1 <? node_height rhs then
      match rhs with
      | Branch right_left right_right _ _ _ _ => balance_nodes (go right_left) right_right
      | Leaf _ => make_branch lhs rhs
      end
    else make_branch lhs rhs.

Definition concat_raw (lhs rhs : option (SequenceNode L)) : option (SequenceNode L) :=
  match lhs, rhs with
  | None, rhs => rhs
  | lhs, None => lhs
  | Some lhs, Some rhs => Some (concat_nodes lhs rhs)
  end.

Fixpoint pop_first t : option (SequenceNode L) * L :=
  match t with
  | Leaf leaf => (None, leaf)
  | Branch lhs rhs _ _ _ _ =>
      let '(left_rest, first) := pop_first lhs in (concat_raw left_rest (Some rhs), first)
  end.

Fixpoint pop_last t : option (SequenceNode L) * L :=
  match t with
  | Leaf leaf => (None, leaf)
  | Branch lhs rhs _ _ _ _ =>
      let '(right_rest, last) := pop_last rhs in (concat_raw (Some lhs) right_rest, last)
  end.

Definition concat_normalized (lhs rhs : option (SequenceNode L)) : option (SequenceNode L) :=
  match lhs, rhs with
  | None, rhs => rhs
  | lhs, None => lhs
  | Some lhs, Some rhs =>
      let '(left_rest, left_leaf) := pop_last lhs in
      let '(right_rest, right_leaf) := pop_first rhs in
      let middle := build_balanced_nodes (rechunk_pair left_leaf right_leaf) in
      concat_raw (concat_raw left_rest middle) right_rest
  end.

(** [split_node] on a node. *)
Fixpoint split_some t (position : nat) : option (SequenceNode L) * option (SequenceNode L) :=
  if position =? 0 then (None, Some t)
  else if node_len t <=? position then (Some t, None)
  else
    match t with
    | Leaf leaf =>
        let '(lhs, rhs) := leaf_split_at leaf position in (Leaf <$> lhs, Leaf <$> rhs)
    | Branch lhs rhs _ _ _ _ =>
        let left_len := node_len lhs in
        if position =? left_len then (Some lhs, Some rhs)
        else if position <? left_len then
          let '(before, after) := split_some lhs position in
          (before, concat_raw after (Some rhs))
        else
          let '(before, after) := split_some rhs (position - left_len) in
          (concat_raw (Some lhs) before, after)
    end.

Definition split_node (node : option (SequenceNode L)) (position : nat)
    : option (SequenceNode L) * option (SequenceNode L) :=
  match node with None => (None, None) | Some node => split_some node position end.

Fixpoint locate_node t (position : nat) : option (L * nat) :=
  match t with
  | Leaf leaf => Some (leaf, Nat.min position (leaf_len leaf))
  | Branch lhs rhs _ _ _ _ =>
      if position <? node_len lhs then locate_node lhs position
      else locate_node rhs (position - node_len lhs)
  end.

(** The calls of the visitor: a leaf with the local range asked of it. *)
Fixpoint visit_node_range t (node_start start end_ : nat) : list (L * nat * nat) :=
  let node_end := node_start + node_len t in
  if (node_end <=? start) || (end_ <=? node_start) then []
  else
    match t with
    | Leaf leaf =>
        let local_start := Nat.min (start - node_start) (leaf_len leaf) in
        let local_end := Nat.min (end_ - node_start) (leaf_len leaf) in
        if local_start <? local_end then [(leaf, local_start, local_end)] else []
    | Branch lhs rhs _ _ _ _ =>
        visit_node_range lhs node_start start end_
        ++ visit_node_range rhs (node_start + node_len lhs) start end_
    end.

Fixpoint visit_each_leaf t : list L :=
  match t with
  | Leaf leaf => [leaf]
  | Branch lhs rhs _ _ _ _ => visit_each_leaf lhs ++ visit_each_leaf rhs
  end.

Fixpoint secondary_count_before_node t (position : nat) : nat :=
  match t with
  | Leaf leaf => leaf_secondary_count_before leaf (Nat.min position (leaf_len leaf))
  | Branch lhs rhs _ _ _ _ =>
      if position <=? node_len lhs then secondary_count_before_node lhs position
      else node_secondary_len lhs
           + secondary_count_before_node rhs (position - node_len lhs)
  end.

Fixpoint nth_secondary_in_node t (ordinal node_start : nat) : option nat :=
  match t with
  | Leaf leaf => (fun position => node_start + position) <$> leaf_secondary_position leaf ordinal
  | Branch lhs rhs _ _ _ _ =>
      if ordinal <? node_secondary_len lhs then nth_secondary_in_node lhs ordinal node_start
      else nth_secondary_in_node rhs (ordinal - node_secondary_len lhs)
             (node_start + node_len lhs)
  end.

(** ** [PersistentSequence]: an optional root *)

Definition PersistentSequence : Type := option (SequenceNode L).

Definition seq_from_leaves (leaves : list L) : PersistentSequence := build_balanced_nodes leaves.

Definition seq_len (s : PersistentSequence) : nat :=
  match s with None => 0 | Some root => node_len root end.

Definition seq_secondary_len (s : PersistentSequence) : nat :=
  match s with None => 0 | Some root => node_secondary_len root end.

Definition seq_leaf_count (s : PersistentSequence) : nat :=
  match s with None => 0 | Some root => node_leaf_count root end.

Definition seq_height (s : PersistentSequence) : nat :=
  match s with None => 0 | Some root => node_height root end.

Definition seq_locate (s : PersistentSequence) (position : nat) : option (L * nat) :=
  if seq_len s <=? position then None
  else match s with None => None | Some root => locate_node root position end.

Definition seq_replace_range (start end_ : nat) (replacement s : PersistentSequence)
    : PersistentSequence :=
  let start := Nat.min start (seq_len s) in
  let end_ := Nat.max (Nat.min end_ (seq_len s)) start in
  let '(lhs, tail) := split_node s start in
  let '(_, rhs) := split_node tail (end_ - start) in
  concat_normalized (concat_normalized lhs replacement) rhs.

Definition seq_visit_range (s : PersistentSequence) (start end_ : nat) : list (L * nat * nat) :=
  let start := Nat.min start (seq_len s) in
  let end_ := Nat.max (Nat.min end_ (seq_len s)) start in
  match s with None => [] | Some root => visit_node_range root 0 start end_ end.

Definition seq_for_each_leaf (s : PersistentSequence) : list L :=
  match s with None => [] | Some root => visit_each_leaf root end.

Definition seq_secondary_count_before (s : PersistentSequence) (position : nat) : nat :=
  match s with
  | None => 0
  | Some root => secondary_count_before_node root (Nat.min position (node_len root))
  end.

Definition seq_nth_secondary (s : PersistentSequence) (ordinal : nat) : option nat :=
  match s with
  | None => None
  | Some root =>
      if node_secondary_len root <=? ordinal then None else nth_secondary_in_node root ordinal 0
  end.
End Tree.

Arguments PersistentSequence : clear implicits.
