(* ===== verification/RopeLaws.v ===== *)
(** * The persistent sequence, proved against the interface of its leaves

    [LeafLaws] is what a kind of leaf promises: its elements, its break
    positions, and that cutting and rechunking leaves neither loses elements
    nor yields an empty leaf.  From it alone: every tree operation keeps the
    tree valid (cached metadata right, children within one level of each other)
    and acts on the list of elements as its flat counterpart. *)
From S2P Require Import Prelude Rope.

#[local] Arguments Nat.ltb : simpl never.
#[local] Arguments Nat.leb : simpl never.

(** Positions of a list of break offsets, relative to a cut. *)
Definition breaks_before (p : nat) (bs : list nat) : list nat := filter (fun b => b < p) bs.
Definition breaks_from (p : nat) (bs : list nat) : list nat :=
  (fun b => b - p) <$> filter (fun b => p <= b) bs.
Definition shift_breaks (n : nat) (bs : list nat) : list nat := Nat.add n <$> bs.

(** The interface: [content] and [breaks] are the abstract value of a leaf,
    [starts x] says a leaf may be cut in front of the element [x]. *)
Class LeafLaws {L A : Type} `{SequenceLeaf L} (content : L -> list A)
    (breaks : L -> list nat) (starts : A -> bool) (leaf_ok : L -> Prop) : Prop := {
  leaf_len_content l : leaf_ok l -> leaf_len l = length (content l);
  leaf_content_nonempty l : leaf_ok l -> 0 < length (content l);
  leaf_secondary_breaks l : leaf_ok l -> leaf_secondary_len l = length (breaks l);
  leaf_breaks_bounded l : leaf_ok l -> Forall (fun b => b < length (content l)) (breaks l);
  leaf_count_breaks l p : leaf_ok l -> p <= length (content l) ->
    leaf_secondary_count_before l p = length (breaks_before p (breaks l));
  leaf_position_break l k : leaf_ok l -> leaf_secondary_position l k = breaks l !! k;
  leaf_split_parts l p :
    leaf_ok l -> 0 < p < length (content l) ->
    (forall x, content l !! p = Some x -> starts x = true) ->
    exists a b, leaf_split_at l p = (Some a, Some b) /\ leaf_ok a /\ leaf_ok b
      /\ content a = take p (content l) /\ content b = drop p (content l)
      /\ breaks a = breaks_before p (breaks l) /\ breaks b = breaks_from p (breaks l);
  rechunk_pair_content a b : leaf_ok a -> leaf_ok b ->
    Forall leaf_ok (rechunk_pair a b)
    /\ concat (content <$> rechunk_pair a b) = content a ++ content b
}.

Section Laws.
Context {L A : Type} `{SequenceLeaf L} {content : L -> list A} {breaks : L -> list nat}
  {starts : A -> bool} {leaf_ok : L -> Prop} `{!LeafLaws content breaks starts leaf_ok}.
Implicit Types (t lhs rhs : SequenceNode L) (s : PersistentSequence L).

(** ** The abstract value of a tree *)

Definition leaves_content (ls : list L) : list A := concat (content <$> ls).

Fixpoint leaves_breaks (ls : list L) : list nat :=
  match ls with
  | [] => []
  | l :: ls => breaks l ++ shift_breaks (length (content l)) (leaves_breaks ls)
  end.

Definition node_content t : list A := leaves_content (visit_each_leaf t).
Definition node_breaks t : list nat := leaves_breaks (visit_each_leaf t).
Definition seq_content s : list A := leaves_content (seq_for_each_leaf s).
Definition seq_breaks s : list nat := leaves_breaks (seq_for_each_leaf s).

Arguments leaves_content : simpl never.

(** A cut position: an end of the list or in front of a starting element. *)
Definition cut_ok (p : nat) (c : list A) : Prop := forall x, c !! p = Some x -> starts x = true.

(** ** The invariant *)

Fixpoint node_ok t : Prop :=
  match t with
  | Leaf leaf => leaf_ok leaf
  | Branch lhs rhs len secondary_len leaf_count height =>
      node_ok lhs /\ node_ok rhs
      /\ len = node_len lhs + node_len rhs
      /\ secondary_len = node_secondary_len lhs + node_secondary_len rhs
      /\ leaf_count = node_leaf_count lhs + node_leaf_count rhs
      /\ height = Nat.max (node_height lhs) (node_height rhs) + 1
      /\ node_height lhs <= node_height rhs + 1
      /\ node_height rhs <= node_height lhs + 1
  end.

Definition seq_ok s : Prop := match s with None => True | Some root => node_ok root end.

(** ** Lists of leaves *)

Lemma leaves_content_app ls1 ls2 :
  leaves_content (ls1 ++ ls2) = leaves_content ls1 ++ leaves_content ls2.
Proof. unfold leaves_content. rewrite fmap_app. apply concat_app. Qed.

Lemma leaves_content_cons l ls : leaves_content (l :: ls) = content l ++ leaves_content ls.
Proof. reflexivity. Qed.

Lemma shift_breaks_add m n bs : shift_breaks m (shift_breaks n bs) = shift_breaks (m + n) bs.
Proof.
  unfold shift_breaks. rewrite <- list_fmap_compose. apply list_fmap_ext. intros; cbn; lia.
Qed.

Lemma shift_breaks_0 bs : shift_breaks 0 bs = bs.
Proof. unfold shift_breaks. rewrite <- (list_fmap_id bs) at 2. apply list_fmap_ext. done. Qed.

Lemma shift_breaks_cons n b bs : shift_breaks n (b :: bs) = n + b :: shift_breaks n bs.
Proof. reflexivity. Qed.

Lemma shift_breaks_app n bs1 bs2 :
  shift_breaks n (bs1 ++ bs2) = shift_breaks n bs1 ++ shift_breaks n bs2.
Proof. apply fmap_app. Qed.

Lemma leaves_breaks_app ls1 ls2 :
  leaves_breaks (ls1 ++ ls2)
  = leaves_breaks ls1 ++ shift_breaks (length (leaves_content ls1)) (leaves_breaks ls2).
Proof.
  induction ls1 as [|l ls1 IH]; cbn -[leaves_content].
  - by rewrite shift_breaks_0.
  - rewrite IH, shift_breaks_app, shift_breaks_add, <- app_assoc.
    unfold leaves_content. cbn. by rewrite length_app.
Qed.

(** ** Cached metadata *)

Lemma node_ok_leaves t : node_ok t -> Forall leaf_ok (visit_each_leaf t).
Proof.
  induction t as [l|lhs IHl rhs IHr]; cbn; [by constructor|].
  intros (? & ? & _). apply Forall_app; auto.
Qed.

Lemma node_ok_metadata t : node_ok t ->
  node_len t = length (node_content t)
  /\ node_secondary_len t = length (node_breaks t)
  /\ node_leaf_count t = length (visit_each_leaf t).
Proof.
  unfold node_content, node_breaks.
  induction t as [l|lhs IHl rhs IHr]; cbn.
  - intros Hl. unfold leaves_content. cbn. rewrite !app_nil_r.
    split_and!; [by apply leaf_len_content|by apply leaf_secondary_breaks|done].
  - intros (Hl & Hr & -> & -> & -> & _).
    destruct (IHl Hl) as (-> & -> & ->), (IHr Hr) as (-> & -> & ->).
    rewrite leaves_content_app, leaves_breaks_app, !length_app.
    unfold shift_breaks. by rewrite length_fmap.
Qed.

Lemma node_len_content t : node_ok t -> node_len t = length (node_content t).
Proof. apply node_ok_metadata. Qed.

Lemma node_secondary_breaks t : node_ok t -> node_secondary_len t = length (node_breaks t).
Proof. apply node_ok_metadata. Qed.

Lemma node_content_branch lhs rhs len n c h :
  node_content (Branch lhs rhs len n c h) = node_content lhs ++ node_content rhs.
Proof. apply leaves_content_app. Qed.

Lemma node_breaks_branch lhs rhs len n c h :
  node_breaks (Branch lhs rhs len n c h)
  = node_breaks lhs ++ shift_breaks (length (node_content lhs)) (node_breaks rhs).
Proof. apply leaves_breaks_app. Qed.

Lemma node_content_leaf l : node_content (Leaf l) = content l.
Proof. apply app_nil_r. Qed.

Lemma node_breaks_leaf l : node_breaks (Leaf l) = breaks l.
Proof. apply app_nil_r. Qed.

Lemma node_content_nonempty t : node_ok t -> 0 < length (node_content t).
Proof.
  induction t as [l|lhs IHl rhs IHr].
  - intros Hl. rewrite node_content_leaf. by apply leaf_content_nonempty.
  - intros (Hl & _). rewrite node_content_branch, length_app. specialize (IHl Hl). lia.
Qed.

Lemma node_height_pos t : node_ok t -> 1 <= node_height t.
Proof. destruct t; cbn; [lia|]. intros (_ & _ & _ & _ & _ & -> & _). lia. Qed.

(** ** Joining *)

(** [joins t lhs rhs]: the valid tree [t] holds the leaves of both. *)
Definition joins t lhs rhs : Prop :=
  node_ok t /\ visit_each_leaf t = visit_each_leaf lhs ++ visit_each_leaf rhs
  /\ Nat.max (node_height lhs) (node_height rhs) <= node_height t
  /\ node_height t <= Nat.max (node_height lhs) (node_height rhs) + 1.

Lemma make_branch_ok lhs rhs :
  node_ok lhs -> node_ok rhs ->
  node_height lhs <= node_height rhs + 1 -> node_height rhs <= node_height lhs + 1 ->
  joins (make_branch lhs rhs) lhs rhs.
Proof. intros. unfold joins. cbn. split_and!; [done..|lia|lia]. Qed.

Ltac break_node_ok :=
  repeat match goal with
  | H : node_ok (Branch _ _ _ _ _ _) |- _ => destruct H as (? & ? & -> & -> & -> & -> & ? & ?)
  end.

Lemma balance_nodes_ok lhs rhs :
  node_ok lhs -> node_ok rhs ->
  node_height lhs <= node_height rhs + 2 -> node_height rhs <= node_height lhs + 2 ->
  joins (balance_nodes lhs rhs) lhs rhs
  /\ (node_height lhs <= node_height rhs + 1 -> node_height rhs <= node_height lhs + 1 ->
      node_height (balance_nodes lhs rhs) = Nat.max (node_height lhs) (node_height rhs) + 1).
Proof.
  intros Hl Hr H1 H2. unfold balance_nodes.
  pose proof (node_height_pos _ Hl). pose proof (node_height_pos _ Hr).
  destruct (Nat.ltb_spec (node_height rhs + 1) (node_height lhs)).
  - split; [|lia]. destruct lhs as [l|a b]; [cbn in *; lia|]. break_node_ok. cbn in *.
    destruct (Nat.leb_spec (node_height b) (node_height a)).
    + unfold joins. cbn. rewrite app_assoc. split_and!; auto; lia.
    + destruct b as [l|m n]; [pose proof (node_height_pos a); cbn in *; intuition lia|].
      break_node_ok. unfold joins. cbn in *. rewrite <- !app_assoc. split_and!; auto; lia.
  - destruct (Nat.ltb_spec (node_height lhs + 1) (node_height rhs)).
    + split; [|lia]. destruct rhs as [l|a b]; [cbn in *; lia|]. break_node_ok. cbn in *.
      destruct (Nat.leb_spec (node_height a) (node_height b)).
      * unfold joins. cbn. rewrite <- app_assoc. split_and!; auto; lia.
      * destruct a as [l|m n]; [pose proof (node_height_pos b); cbn in *; intuition lia|].
        break_node_ok. unfold joins. cbn in *. rewrite <- !app_assoc. split_and!; auto; lia.
    + split; [apply make_branch_ok; auto; lia|done].
Qed.

Lemma concat_nodes_equation lhs rhs :
  concat_nodes lhs rhs =
    if node_height rhs + 1 <? node_height lhs then
      match lhs with
      | Branch lhs_lhs lhs_rhs _ _ _ _ => balance_nodes lhs_lhs (concat_nodes lhs_rhs rhs)
      | Leaf _ => make_branch lhs rhs
      end
    else if node_height lhs + 1 <? node_height rhs then
      match rhs with
      | Branch rhs_lhs rhs_rhs _ _ _ _ => balance_nodes (concat_nodes lhs rhs_lhs) rhs_rhs
      | Leaf _ => make_branch lhs rhs
      end
    else make_branch lhs rhs.
Proof. destruct lhs, rhs; reflexivity. Qed.

(** One level of [concat_raw], on either side. *)
Lemma concat_step_lhs a b len n c h rhs t :
  node_ok (Branch a b len n c h) -> joins t b rhs -> node_height rhs + 1 < h ->
  joins (balance_nodes a t) (Branch a b len n c h) rhs.
Proof.
  intros Hb (Ht & Hlv & Hlo & Hhi) Hlt. break_node_ok.
  destruct (balance_nodes_ok a t) as ((? & Hlv' & ? & ?) & Hh); auto; [lia..|].
  unfold joins. rewrite Hlv', Hlv. cbn. rewrite app_assoc. split_and!; auto; lia.
Qed.

Lemma concat_step_rhs lhs a b len n c h t :
  node_ok (Branch a b len n c h) -> joins t lhs a -> node_height lhs + 1 < h ->
  joins (balance_nodes t b) lhs (Branch a b len n c h).
Proof.
  intros Hb (Ht & Hlv & Hlo & Hhi) Hlt. break_node_ok.
  destruct (balance_nodes_ok t b) as ((? & Hlv' & ? & ?) & Hh); auto; [lia..|].
  unfold joins. rewrite Hlv', Hlv. cbn. rewrite <- app_assoc. split_and!; auto; lia.
Qed.

Lemma concat_nodes_ok lhs rhs :
  node_ok lhs -> node_ok rhs -> joins (concat_nodes lhs rhs) lhs rhs.
Proof.
  revert rhs. induction lhs as [l|a IHa b IHb]; intros rhs Hl Hr;
    induction rhs as [r|x IHx y IHy]; rewrite concat_nodes_equation;
    (case Nat.ltb_spec; intros Hlt; [|case Nat.ltb_spec; intros Hlt']);
    try (apply make_branch_ok; auto; lia);
    try (apply concat_step_lhs; [done| |done]; apply IHb; [apply Hl|done]);
    try (apply concat_step_rhs; [done| |done]; apply IHx; apply Hr);
    pose proof (node_height_pos _ Hl); pose proof (node_height_pos _ Hr); cbn in *; lia.
Qed.

Lemma concat_raw_ok s1 s2 :
  seq_ok s1 -> seq_ok s2 ->
  seq_ok (concat_raw s1 s2)
  /\ seq_for_each_leaf (concat_raw s1 s2) = seq_for_each_leaf s1 ++ seq_for_each_leaf s2.
Proof.
  destruct s1 as [t1|], s2 as [t2|]; cbn; try (by rewrite ?app_nil_r).
  intros H1 H2. destruct (concat_nodes_ok t1 t2 H1 H2) as (? & ? & _). done.
Qed.

Lemma pop_first_ok t : node_ok t ->
  let '(rest, first) := pop_first t in
  seq_ok rest /\ leaf_ok first /\ visit_each_leaf t = first :: seq_for_each_leaf rest.
Proof.
  induction t as [l|a IHa b IHb]; [by cbn|]. intros (Ha & Hb & _). cbn [pop_first visit_each_leaf].
  destruct (pop_first a) as [rest first]. destruct (IHa Ha) as (Hr & Hf & ->).
  destruct (concat_raw_ok rest (Some b) Hr Hb) as [? ->]. done.
Qed.

Lemma pop_last_ok t : node_ok t ->
  let '(rest, last) := pop_last t in
  seq_ok rest /\ leaf_ok last /\ visit_each_leaf t = seq_for_each_leaf rest ++ [last].
Proof.
  induction t as [l|a IHa b IHb]; [by cbn|]. intros (Ha & Hb & _). cbn [pop_last visit_each_leaf].
  destruct (pop_last b) as [rest last]. destruct (IHb Hb) as (Hr & Hf & ->).
  destruct (concat_raw_ok (Some a) rest Ha Hr) as [? ->]. by rewrite app_assoc.
Qed.

(** ** Building *)

Lemma log2_up_half n : 2 <= n -> Nat.log2_up n = S (Nat.log2_up (n - n / 2)).
Proof.
  intros Hn. pose proof (Nat.div_mod_eq n 2). pose proof (Nat.mod_upper_bound n 2 ltac:(lia)).
  assert (Nat.log2_up (2 * (n - n / 2)) = S (Nat.log2_up (n - n / 2))) as <-.
  { apply Nat.log2_up_double. lia. }
  destruct (decide (n mod 2 = 0)) as [E|E]; [f_equal; lia|].
  apply Nat.le_antisymm; [apply Nat.log2_up_le_mono; lia|].
  assert (2 * (n - n / 2) = S n) as -> by lia.
  destruct (Nat.log2_up_succ_or n) as [Hs|Hs]; [|lia].
  apply Nat.eq_le_incl. symmetry.
  destruct (Nat.log2_up_spec (S n)) as [Hlo _]; [lia|].
  destruct (Nat.log2_up_spec n) as [_ Hup]; [lia|].
  rewrite Hs in Hlo. cbn [Nat.pred] in Hlo.
  assert (2 ^ Nat.log2_up n <= n) by lia. assert (Heq : n = 2 ^ Nat.log2_up n) by lia.
  exfalso. apply E. rewrite Heq. destruct (Nat.log2_up n) as [|k] eqn:Ek.
  - cbn in Heq. lia.
  - rewrite Nat.pow_succ_r', Nat.mul_comm. apply Nat.Div0.mod_mul.
Qed.

Lemma build_balanced_loop_ok fuel ls :
  Forall leaf_ok ls -> 0 < length ls <= fuel ->
  exists t, build_balanced_loop fuel ls = Some t /\ node_ok t /\ visit_each_leaf t = ls
    /\ node_height t = S (Nat.log2_up (length ls)).
Proof.
  revert ls. induction fuel as [|fuel IH]; intros ls Hok Hlen; [lia|].
  destruct ls as [|l [|l' ls']]; [cbn in *; lia| |].
  { inversion Hok. by exists (Leaf l). }
  remember (l :: l' :: ls') as ls eqn:Els.
  assert (Hge : 2 <= length ls) by (subst; cbn; lia).
  pose proof (Nat.div_mod_eq (length ls) 2) as Hdm.
  pose proof (Nat.mod_upper_bound (length ls) 2 ltac:(lia)) as Hmod.
  set (m := length ls / 2) in *.
  destruct (IH (take m ls)) as (t1 & E1 & Ht1 & Hl1 & Hh1);
    [by apply Forall_take|rewrite length_take; lia|].
  destruct (IH (drop m ls)) as (t2 & E2 & Ht2 & Hl2 & Hh2);
    [by apply Forall_drop|rewrite length_drop; lia|].
  rewrite length_take_le in Hh1 by lia. rewrite length_drop in Hh2.
  assert (Hlog : Nat.log2_up m <= Nat.log2_up (length ls - m) <= S (Nat.log2_up m)).
  { split; [apply Nat.log2_up_le_mono; lia|].
    transitivity (Nat.log2_up (S m)); [apply Nat.log2_up_le_mono; lia|].
    destruct (Nat.log2_up_succ_or m); lia. }
  exists (make_branch t1 t2). split_and!.
  - cbn [build_balanced_loop]. fold m. rewrite E1, E2. by rewrite Els.
  - apply make_branch_ok; auto; lia.
  - cbn. rewrite Hl1, Hl2. apply take_drop.
  - cbn. rewrite (log2_up_half (length ls)) by lia. fold m. lia.
Qed.

Lemma build_balanced_ok ls :
  Forall leaf_ok ls ->
  seq_ok (build_balanced_nodes ls) /\ seq_for_each_leaf (build_balanced_nodes ls) = ls
  /\ seq_height (build_balanced_nodes ls) = match ls with [] => 0 | _ => S (Nat.log2_up (length ls)) end.
Proof.
  intros Hok. destruct ls as [|l ls']; [done|]. unfold build_balanced_nodes.
  destruct (build_balanced_loop_ok (length (l :: ls')) (l :: ls')) as (t & -> & ? & ? & ?);
    [done|cbn; lia|]. done.
Qed.

(** ** Break positions around a cut *)

Lemma breaks_before_shift p n bs :
  breaks_before p (shift_breaks n bs) = shift_breaks n (breaks_before (p - n) bs).
Proof.
  unfold breaks_before, shift_breaks. induction bs as [|b bs IH]; [done|].
  rewrite fmap_cons, !filter_cons, IH.
  destruct (decide (n + b < p)), (decide (b < p - n)); try lia; done.
Qed.

Lemma breaks_from_shift p n bs : p <= n -> breaks_from p (shift_breaks n bs) = shift_breaks (n - p) bs.
Proof.
  intros Hp. unfold breaks_from, shift_breaks. induction bs as [|b bs IH]; [done|].
  rewrite !fmap_cons, filter_cons, decide_True by lia. rewrite fmap_cons, IH. f_equal. lia.
Qed.

Lemma breaks_from_shift_ge p n bs : n <= p -> breaks_from p (shift_breaks n bs) = breaks_from (p - n) bs.
Proof.
  intros Hp. unfold breaks_from, shift_breaks. induction bs as [|b bs IH]; [done|].
  rewrite fmap_cons, !filter_cons.
  destruct (decide (p <= n + b)), (decide (p - n <= b)); try lia; [|done].
  rewrite !fmap_cons, IH. f_equal. lia.
Qed.

Lemma breaks_before_app p bs1 bs2 :
  breaks_before p (bs1 ++ bs2) = breaks_before p bs1 ++ breaks_before p bs2.
Proof. apply filter_app. Qed.

Lemma breaks_from_app p bs1 bs2 :
  breaks_from p (bs1 ++ bs2) = breaks_from p bs1 ++ breaks_from p bs2.
Proof. unfold breaks_from. by rewrite filter_app, fmap_app. Qed.

Lemma breaks_before_0 bs : breaks_before 0 bs = [].
Proof. induction bs as [|b bs IH]; [done|]. unfold breaks_before. rewrite filter_cons_False; [done|lia]. Qed.

Lemma breaks_from_0 bs : breaks_from 0 bs = bs.
Proof. rewrite <- (shift_breaks_0 bs) at 1. rewrite breaks_from_shift by lia. apply shift_breaks_0. Qed.

Lemma breaks_before_all p bs : Forall (fun b => b < p) bs -> breaks_before p bs = bs.
Proof.
  induction 1 as [|b bs Hb _ IH]; [done|].
  unfold breaks_before in *. rewrite filter_cons_True by done. by rewrite IH.
Qed.

Lemma breaks_from_all p bs : Forall (fun b => b < p) bs -> breaks_from p bs = [].
Proof.
  induction 1 as [|b bs Hb _ IH]; [done|].
  unfold breaks_from in *. rewrite filter_cons_False by lia. by rewrite IH.
Qed.

Lemma breaks_bounded_weaken m n bs :
  m <= n -> Forall (fun b => b < m) bs -> Forall (fun b => b < n) bs.
Proof. intros. eapply Forall_impl; [done|]. cbn. lia. Qed.

Lemma breaks_before_bounded m p bs :
  Forall (fun b => b < m) bs -> Forall (fun b => b < m) (breaks_before p bs).
Proof.
  rewrite !Forall_forall. intros Hb x [_ Hx]%list_elem_of_filter. auto.
Qed.

Lemma leaves_breaks_bounded ls :
  Forall leaf_ok ls -> Forall (fun b => b < length (leaves_content ls)) (leaves_breaks ls).
Proof.
  induction 1 as [|l ls Hl _ IH]; [constructor|]. cbn. unfold leaves_content. cbn.
  rewrite length_app. apply Forall_app. split.
  - eapply breaks_bounded_weaken, leaf_breaks_bounded; [lia|done].
  - unfold shift_breaks. rewrite Forall_fmap. eapply Forall_impl; [exact IH|].
    unfold leaves_content. cbn. lia.
Qed.

Lemma node_breaks_bounded t :
  node_ok t -> Forall (fun b => b < length (node_content t)) (node_breaks t).
Proof. intros Ht. apply leaves_breaks_bounded. by apply node_ok_leaves. Qed.

Lemma seq_ok_leaves s : seq_ok s -> Forall leaf_ok (seq_for_each_leaf s).
Proof. destruct s; cbn; [apply node_ok_leaves|constructor]. Qed.

(** ** Concatenation *)

Lemma concat_raw_content s1 s2 :
  seq_ok s1 -> seq_ok s2 ->
  seq_content (concat_raw s1 s2) = seq_content s1 ++ seq_content s2
  /\ seq_breaks (concat_raw s1 s2)
     = seq_breaks s1 ++ shift_breaks (length (seq_content s1)) (seq_breaks s2).
Proof.
  intros H1 H2. unfold seq_content, seq_breaks.
  destruct (concat_raw_ok s1 s2 H1 H2) as [_ ->].
  split; [apply leaves_content_app|apply leaves_breaks_app].
Qed.

Lemma concat_normalized_ok s1 s2 :
  seq_ok s1 -> seq_ok s2 ->
  seq_ok (concat_normalized s1 s2)
  /\ seq_content (concat_normalized s1 s2) = seq_content s1 ++ seq_content s2.
Proof.
  destruct s1 as [t1|], s2 as [t2|]; cbn [concat_normalized]; try (by rewrite ?app_nil_r).
  intros H1 H2. pose proof (pop_last_ok t1 H1) as P1. pose proof (pop_first_ok t2 H2) as P2.
  destruct (pop_last t1) as [rest1 l1], (pop_first t2) as [rest2 l2].
  destruct P1 as (Hr1 & Hl1 & E1), P2 as (Hr2 & Hl2 & E2).
  destruct (rechunk_pair_content l1 l2 Hl1 Hl2) as [Hmid Ec].
  destruct (build_balanced_ok _ Hmid) as (Hm & Em & _).
  destruct (concat_raw_ok rest1 _ Hr1 Hm) as [Hc1 Ec1].
  destruct (concat_raw_ok _ rest2 Hc1 Hr2) as [Hc2 Ec2].
  split; [done|]. unfold seq_content. rewrite Ec2, Ec1, Em. cbn [seq_for_each_leaf].
  rewrite E1, E2, !leaves_content_app, !leaves_content_cons.
  change (leaves_content (rechunk_pair l1 l2)) with (concat (content <$> rechunk_pair l1 l2)).
  rewrite Ec. change (leaves_content []) with (@nil A). by rewrite app_nil_r, <- !app_assoc.
Qed.

(** ** Splitting *)

(** [splits a b p c bs]: [a] and [b] are the parts of [c] around [p]. *)
Definition splits (p : nat) (c : list A) (bs : list nat) (ab : option (SequenceNode L) * option (SequenceNode L))
    : Prop :=
  seq_ok ab.1 /\ seq_ok ab.2
  /\ seq_content ab.1 = take p c /\ seq_content ab.2 = drop p c
  /\ seq_breaks ab.1 = breaks_before p bs /\ seq_breaks ab.2 = breaks_from p bs.

Lemma split_branch_lhs a b p before after :
  node_ok a -> node_ok b -> p <= node_len a ->
  splits p (node_content a) (node_breaks a) (before, after) ->
  splits p (node_content a ++ node_content b)
    (node_breaks a ++ shift_breaks (length (node_content a)) (node_breaks b))
    (before, concat_raw after (Some b)).
Proof.
  intros Ha Hb Hp (H1 & H2 & C1 & C2 & B1 & B2). cbn [fst snd] in *.
  pose proof (node_len_content _ Ha) as Hla.
  destruct (concat_raw_ok after (Some b) H2 Hb) as [H3 _].
  destruct (concat_raw_content after (Some b) H2 Hb) as [C3 B3].
  unfold splits. cbn [fst snd]. rewrite C1, B1, C3, B3, C2, B2.
  rewrite take_app_le, drop_app_le, breaks_before_app, breaks_from_app by lia.
  rewrite breaks_before_shift, breaks_from_shift, length_drop by lia.
  replace (p - length (node_content a)) with 0 by lia.
  rewrite breaks_before_0, app_nil_r. done.
Qed.

Lemma split_branch_rhs a b p before after :
  node_ok a -> node_ok b -> node_len a <= p ->
  splits (p - node_len a) (node_content b) (node_breaks b) (before, after) ->
  splits p (node_content a ++ node_content b)
    (node_breaks a ++ shift_breaks (length (node_content a)) (node_breaks b))
    (concat_raw (Some a) before, after).
Proof.
  intros Ha Hb Hp (H1 & H2 & C1 & C2 & B1 & B2). cbn [fst snd] in *.
  pose proof (node_len_content _ Ha) as Hla. pose proof (node_breaks_bounded _ Ha) as Hba.
  destruct (concat_raw_ok (Some a) before Ha H1) as [H3 _].
  destruct (concat_raw_content (Some a) before Ha H1) as [C3 B3].
  unfold splits. cbn [fst snd]. rewrite C2, B2, C3, B3, C1, B1, Hla.
  rewrite take_app_ge, drop_app_ge, breaks_before_app, breaks_from_app by lia.
  rewrite breaks_before_shift, breaks_from_shift_ge by lia.
  rewrite (breaks_before_all p (node_breaks a)), (breaks_from_all p (node_breaks a))
    by (eapply breaks_bounded_weaken; [|done]; lia).
  done.
Qed.

Lemma splits_at_start t : node_ok t -> splits 0 (node_content t) (node_breaks t) (None, Some t).
Proof. intros. unfold splits. by rewrite breaks_before_0, breaks_from_0. Qed.

Lemma splits_at_end t p :
  node_ok t -> node_len t <= p -> splits p (node_content t) (node_breaks t) (Some t, None).
Proof.
  intros Ht Hp. pose proof (node_breaks_bounded _ Ht). rewrite (node_len_content _ Ht) in Hp.
  unfold splits. rewrite take_ge, drop_ge by done.
  by rewrite breaks_before_all, breaks_from_all by (by eapply breaks_bounded_weaken).
Qed.

Lemma splits_leaf l p :
  leaf_ok l -> 0 < p < leaf_len l -> cut_ok p (content l) ->
  splits p (content l) (breaks l) (prod_map (fmap Leaf) (fmap Leaf) (leaf_split_at l p)).
Proof.
  intros Hl Hp Hcut. rewrite (leaf_len_content _ Hl) in Hp.
  destruct (leaf_split_parts l p Hl Hp Hcut) as (x & y & -> & Hx & Hy & C1 & C2 & B1 & B2).
  unfold splits. rewrite <- C1, <- C2, <- B1, <- B2.
  split_and!; [done|done|apply node_content_leaf|apply node_content_leaf
    |apply node_breaks_leaf|apply node_breaks_leaf].
Qed.

Lemma cut_ok_app p c1 c2 :
  cut_ok p (c1 ++ c2) -> cut_ok p c1 /\ (length c1 <= p -> cut_ok (p - length c1) c2).
Proof.
  intros Hcut. split.
  - intros x Hx. apply Hcut. by apply lookup_app_l_Some.
  - intros Hle x Hx. apply Hcut. by rewrite lookup_app_r by done.
Qed.

Lemma split_some_ok t p :
  node_ok t -> cut_ok p (node_content t) ->
  splits p (node_content t) (node_breaks t) (split_some t p).
Proof.
  revert p. induction t as [l|a IHa b IHb len n c h]; intros p Ht Hcut;
    cbn [split_some]; (case Nat.eqb_spec; intros Hp0; [|case Nat.leb_spec; intros Hple]).
  1,4: subst p; by apply splits_at_start.
  1,3: by apply splits_at_end.
  - rewrite node_content_leaf, node_breaks_leaf in *. cbn in Hple.
    pose proof (splits_leaf l p Ht ltac:(lia) Hcut) as Hs.
    destruct (leaf_split_at l p). exact Hs.
  - rewrite node_content_branch, node_breaks_branch in *. destruct Ht as (Ha & Hb & _).
    apply cut_ok_app in Hcut as [Hca Hcb]. pose proof (node_len_content _ Ha) as Hla.
    rewrite <- Hla in Hcb. case Nat.eqb_spec; intros Heq; [|case Nat.ltb_spec; intros Hlt].
    + apply (split_branch_lhs a b p (Some a) None); [done|done|lia|].
      apply splits_at_end; [done|lia].
    + specialize (IHa p Ha Hca). destruct (split_some a p). apply split_branch_lhs; auto; lia.
    + specialize (IHb _ Hb (Hcb ltac:(lia))). destruct (split_some b _).
      apply split_branch_rhs; auto; lia.
Qed.

Lemma split_node_ok s p :
  seq_ok s -> cut_ok p (seq_content s) ->
  splits p (seq_content s) (seq_breaks s) (split_node s p).
Proof.
  destruct s as [t|]; [apply split_some_ok|]. intros _ _. unfold splits.
  change (seq_content None) with (@nil A). by rewrite take_nil, drop_nil.
Qed.

(** ** Queries *)

Lemma seq_len_content s : seq_ok s -> seq_len s = length (seq_content s).
Proof. destruct s; [apply node_len_content|done]. Qed.

Lemma seq_secondary_breaks s : seq_ok s -> seq_secondary_len s = length (seq_breaks s).
Proof. destruct s; [apply node_secondary_breaks|done]. Qed.

Lemma locate_node_ok t p :
  node_ok t -> p < node_len t ->
  exists l k, locate_node t p = Some (l, k) /\ leaf_ok l /\ k < length (content l)
    /\ node_content t !! p = content l !! k.
Proof.
  revert p. induction t as [l|a IHa b IHb]; intros p Ht Hp.
  - exists l, p. rewrite node_content_leaf. cbn in *.
    rewrite <- (leaf_len_content l Ht). by rewrite Nat.min_l by lia.
  - rewrite node_content_branch. destruct Ht as (Ha & Hb & -> & _). cbn in *.
    pose proof (node_len_content _ Ha) as Hla.
    destruct (Nat.ltb_spec p (node_len a)) as [Hlt|Hlt].
    + rewrite lookup_app_l by lia. by apply IHa.
    + rewrite lookup_app_r, <- Hla by lia. apply IHb; [done|lia].
Qed.

Lemma seq_locate_ok s p :
  seq_ok s ->
  match seq_locate s p with
  | Some (l, k) => leaf_ok l /\ k < length (content l) /\ seq_content s !! p = content l !! k
  | None => length (seq_content s) <= p
  end.
Proof.
  intros Hs. unfold seq_locate. rewrite (seq_len_content _ Hs). case Nat.leb_spec; intros Hp; [done|].
  destruct s as [t|]; [|change (seq_content None) with (@nil A) in Hp; cbn in Hp; lia].
  destruct (locate_node_ok t p Hs) as (l & k & -> & ?); [|done].
  by rewrite (node_len_content _ Hs).
Qed.

(** What the visits of a range see. *)
Definition visited_content (vs : list (L * nat * nat)) : list A :=
  concat ((fun '(l, i, j) => slice i j (content l)) <$> vs).

Lemma visited_content_app vs1 vs2 :
  visited_content (vs1 ++ vs2) = visited_content vs1 ++ visited_content vs2.
Proof. unfold visited_content. rewrite fmap_app. apply concat_app. Qed.

Definition visit_ok (v : L * nat * nat) : Prop :=
  let '(l, i, j) := v in leaf_ok l /\ i < j <= length (content l).

Lemma visit_node_range_ok t base start end_ :
  node_ok t -> Forall visit_ok (visit_node_range t base start end_)
  /\ visited_content (visit_node_range t base start end_)
     = slice (start - base) (end_ - base) (node_content t).
Proof.
  revert base. induction t as [l|a IHa b IHb]; intros base Ht;
    pose proof (node_len_content _ Ht) as Hlen; cbn [visit_node_range];
    (destruct ((base + node_len _ <=? start) || (end_ <=? base)) eqn:Eout;
     [split; [constructor|]; apply orb_true_iff in Eout as [Eout|Eout]; apply Nat.leb_le in Eout;
      symmetry; apply slice_nil; lia|]).
  - rewrite node_content_leaf in *. cbn in Hlen. clear Eout. case Nat.ltb_spec; intros Hlt.
    + split; [constructor; [|constructor]; split; [done|lia]|].
      unfold visited_content. cbn. rewrite app_nil_r, Hlen. apply slice_min.
    + split; [constructor|]. symmetry. rewrite <- slice_min. apply slice_nil. lia.
  - clear Eout. rewrite node_content_branch in *. destruct Ht as (Ha & Hb & -> & _).
    destruct (IHa base Ha) as [Fa Ea], (IHb (base + node_len a) Hb) as [Fb Eb].
    split; [by apply Forall_app|].
    rewrite visited_content_app, Ea, Eb, slice_app, (node_len_content _ Ha). f_equal. f_equal; lia.
Qed.

Lemma seq_visit_range_ok s start end_ :
  seq_ok s -> Forall visit_ok (seq_visit_range s start end_)
  /\ visited_content (seq_visit_range s start end_) = slice start end_ (seq_content s).
Proof.
  destruct s as [t|]; intros Hs; unfold seq_visit_range.
  - pose proof (node_len_content _ Hs) as Hl. cbn [seq_len].
    destruct (visit_node_range_ok t 0 (Nat.min start (node_len t))
      (Nat.max (Nat.min end_ (node_len t)) (Nat.min start (node_len t))) Hs) as [? ->].
    split; [done|]. change (seq_content (Some t)) with (node_content t).
    rewrite !Nat.sub_0_r, <- (slice_min start end_), <- Hl.
    destruct (Nat.le_ge_cases start end_); [f_equal; lia|].
    rewrite !slice_nil by lia. done.
  - split; [constructor|]. symmetry. apply slice_nil. change (seq_content None) with (@nil A). cbn. lia.
Qed.

(** The breaks the visits of a range see, from the start of the range. *)
Fixpoint visited_breaks (vs : list (L * nat * nat)) : list nat :=
  match vs with
  | [] => []
  | (l, i, j) :: vs =>
      breaks_from i (breaks_before j (breaks l)) ++ shift_breaks (j - i) (visited_breaks vs)
  end.

Lemma visited_breaks_app vs1 vs2 :
  Forall visit_ok vs1 ->
  visited_breaks (vs1 ++ vs2)
  = visited_breaks vs1 ++ shift_breaks (length (visited_content vs1)) (visited_breaks vs2).
Proof.
  induction 1 as [|[[l i] j] vs1 [Hl Hij] _ IH]; [cbn; by rewrite shift_breaks_0|].
  cbn [app visited_breaks]. rewrite IH, shift_breaks_app, shift_breaks_add, <- app_assoc.
  unfold visited_content at 2. cbn. rewrite length_app, length_slice, Nat.min_l by lia. done.
Qed.

Lemma breaks_window_branch (n s e : nat) bs1 bs2 :
  Forall (fun b => b < n) bs1 ->
  breaks_from s (breaks_before e (bs1 ++ shift_breaks n bs2))
  = breaks_from s (breaks_before e bs1)
    ++ shift_breaks (Nat.min e n - s) (breaks_from (s - n) (breaks_before (e - n) bs2)).
Proof.
  intros Hb. rewrite breaks_before_app, breaks_from_app, breaks_before_shift. f_equal.
  destruct (Nat.le_ge_cases s n) as [Hs|Hs].
  - rewrite breaks_from_shift by done. replace (s - n) with 0 by lia. rewrite breaks_from_0.
    destruct (Nat.le_ge_cases n e); [by rewrite Nat.min_r|].
    replace (e - n) with 0 by lia. by rewrite breaks_before_0.
  - rewrite breaks_from_shift_ge by done. replace (Nat.min e n - s) with 0 by lia.
    by rewrite shift_breaks_0.
Qed.

Lemma visit_node_range_breaks t base start end_ :
  node_ok t ->
  visited_breaks (visit_node_range t base start end_)
  = breaks_from (start - base) (breaks_before (end_ - base) (node_breaks t)).
Proof.
  revert base. induction t as [l|a IHa b IHb]; intros base Ht;
    pose proof (node_len_content _ Ht) as Hlen; pose proof (node_breaks_bounded _ Ht) as Hbd;
    cbn [visit_node_range];
    (destruct ((base + node_len _ <=? start) || (end_ <=? base)) eqn:Eout;
     [apply orb_true_iff in Eout as [Eout|Eout]; apply Nat.leb_le in Eout; symmetry;
      [apply breaks_from_all, breaks_before_bounded;
       eapply breaks_bounded_weaken; [|done]; lia
      |replace (end_ - base) with 0 by lia; by rewrite breaks_before_0]|]).
  - rewrite node_content_leaf, node_breaks_leaf in *. cbn in Hlen. rewrite Hlen.
    case Nat.ltb_spec; intros Hlt.
    + cbn. rewrite app_nil_r, (Nat.min_l (start - base)) by lia. f_equal.
      destruct (Nat.le_ge_cases (end_ - base) (length (content l))); [by rewrite Nat.min_l|].
      rewrite Nat.min_r, !breaks_before_all by first [done|by eapply breaks_bounded_weaken]. done.
    + symmetry. apply breaks_from_all. apply Forall_forall. intros x Hx.
      apply list_elem_of_filter in Hx as [? Hx]. rewrite Forall_forall in Hbd.
      specialize (Hbd _ Hx). cbn in Hbd. lia.
  - clear Eout. rewrite node_breaks_branch in *. destruct Ht as (Ha & Hb & -> & _).
    destruct (visit_node_range_ok a base start end_ Ha) as [Fa Ea].
    rewrite visited_breaks_app, Ea, length_slice, IHa, IHb, breaks_window_branch
      by (done || by apply node_breaks_bounded).
    rewrite (node_len_content _ Ha). by rewrite <- !Nat.sub_add_distr.
Qed.

Lemma seq_visit_range_breaks s start end_ :
  seq_ok s -> start <= end_ <= seq_len s ->
  visited_breaks (seq_visit_range s start end_) = breaks_from start (breaks_before end_ (seq_breaks s)).
Proof.
  destruct s as [t|]; intros Hs Hle; unfold seq_visit_range; [|done].
  rewrite (Nat.min_l start), (Nat.min_l end_), Nat.max_l by lia.
  rewrite visit_node_range_breaks by done. by rewrite !Nat.sub_0_r.
Qed.

(** Visits of a range between cut positions are cut where leaves may be. *)
Definition visit_cut (v : L * nat * nat) : Prop :=
  let '(l, i, j) := v in (i = 0 \/ cut_ok i (content l)) /\ cut_ok j (content l).

Lemma visit_node_range_cuts t base start end_ :
  node_ok t ->
  (base < start -> cut_ok (start - base) (node_content t)) ->
  (base < end_ -> cut_ok (end_ - base) (node_content t)) ->
  Forall visit_cut (visit_node_range t base start end_).
Proof.
  revert base. induction t as [l|a IHa b IHb]; intros base Ht Hs He; cbn [visit_node_range];
    (destruct (_ || _) eqn:Eout; [constructor|]; clear Eout).
  - case Nat.ltb_spec; intros Hlt; [|constructor]. constructor; [|constructor].
    rewrite node_content_leaf in *. rewrite (leaf_len_content l Ht) in *. split.
    + destruct (Nat.le_gt_cases start base); [left; lia|]. right. rewrite Nat.min_l by lia. auto.
    + destruct (Nat.le_ge_cases (end_ - base) (length (content l))).
      * rewrite Nat.min_l by done. apply He. lia.
      * rewrite Nat.min_r by done. intros x Hx. apply lookup_lt_Some in Hx. lia.
  - rewrite node_content_branch in *. destruct Ht as (Ha & Hb & _).
    apply Forall_app. split; [apply IHa|apply IHb]; try done;
      rewrite ?(node_len_content a Ha), ?Nat.sub_add_distr; intros Hlt.
    + eapply cut_ok_app, Hs; lia.
    + eapply cut_ok_app, He; lia.
    + eapply cut_ok_app; [apply Hs|]; lia.
    + eapply cut_ok_app; [apply He|]; lia.
Qed.

Lemma seq_visit_range_cuts s start end_ :
  seq_ok s -> start <= end_ <= seq_len s ->
  cut_ok start (seq_content s) -> cut_ok end_ (seq_content s) ->
  Forall visit_cut (seq_visit_range s start end_).
Proof.
  destruct s as [t|]; intros Hs Hle Hc1 Hc2; unfold seq_visit_range; [|constructor].
  rewrite (Nat.min_l start), (Nat.min_l end_), Nat.max_l by lia.
  apply visit_node_range_cuts; rewrite ?Nat.sub_0_r; auto.
Qed.

Lemma secondary_count_before_node_ok t p :
  node_ok t -> secondary_count_before_node t p = length (breaks_before p (node_breaks t)).
Proof.
  revert p. induction t as [l|a IHa b IHb]; intros p Ht; cbn [secondary_count_before_node].
  - rewrite node_breaks_leaf, (leaf_len_content l Ht), leaf_count_breaks by (done || lia).
    f_equal. destruct (Nat.le_ge_cases p (length (content l))); [by rewrite Nat.min_l|].
    pose proof (leaf_breaks_bounded l Ht).
    rewrite Nat.min_r, !breaks_before_all by first [done|by eapply breaks_bounded_weaken]. done.
  - rewrite node_breaks_branch. destruct Ht as (Ha & Hb & _).
    rewrite breaks_before_app, breaks_before_shift, (node_len_content _ Ha), length_app.
    unfold shift_breaks. rewrite length_fmap. case Nat.leb_spec; intros Hle.
    + rewrite (IHa _ Ha). replace (p - length (node_content a)) with 0 by lia.
      rewrite breaks_before_0. cbn. lia.
    + rewrite (IHb _ Hb), (node_secondary_breaks _ Ha). f_equal. f_equal.
      rewrite breaks_before_all; [done|]. eapply breaks_bounded_weaken, node_breaks_bounded; [lia|done].
Qed.

Lemma nth_secondary_in_node_ok t k base :
  node_ok t -> nth_secondary_in_node t k base = Nat.add base <$> node_breaks t !! k.
Proof.
  revert k base. induction t as [l|a IHa b IHb]; intros k base Ht; cbn [nth_secondary_in_node].
  - by rewrite node_breaks_leaf, (leaf_position_break l k Ht).
  - rewrite node_breaks_branch. destruct Ht as (Ha & Hb & _).
    rewrite (node_secondary_breaks _ Ha). case Nat.ltb_spec; intros Hlt.
    + rewrite lookup_app_l by done. auto.
    + rewrite (IHb _ _ Hb), lookup_app_r by done. unfold shift_breaks.
      rewrite list_lookup_fmap, (node_len_content _ Ha).
      destruct (node_breaks b !! _); cbn; [|done]. f_equal. lia.
Qed.

Lemma seq_secondary_count_before_ok s p :
  seq_ok s -> seq_secondary_count_before s p = length (breaks_before p (seq_breaks s)).
Proof.
  destruct s as [t|]; [|done]. intros Hs. cbn [seq_secondary_count_before].
  rewrite (secondary_count_before_node_ok _ _ Hs), (node_len_content _ Hs).
  change (seq_breaks (Some t)) with (node_breaks t). pose proof (node_breaks_bounded _ Hs).
  f_equal. destruct (Nat.le_ge_cases p (length (node_content t))); [by rewrite Nat.min_l|].
  rewrite Nat.min_r, !breaks_before_all by first [done|by eapply breaks_bounded_weaken]. done.
Qed.

Lemma seq_nth_secondary_ok s k : seq_ok s -> seq_nth_secondary s k = seq_breaks s !! k.
Proof.
  destruct s as [t|]; [|done]. intros Hs. cbn [seq_nth_secondary].
  change (seq_breaks (Some t)) with (node_breaks t).
  rewrite (node_secondary_breaks _ Hs). case Nat.leb_spec; intros Hle.
  - by rewrite lookup_ge_None_2.
  - rewrite (nth_secondary_in_node_ok _ _ _ Hs). by destruct (node_breaks t !! k).
Qed.

(** ** Replacement and depth *)

Lemma seq_from_leaves_ok ls :
  Forall leaf_ok ls ->
  seq_ok (seq_from_leaves ls) /\ seq_content (seq_from_leaves ls) = leaves_content ls
  /\ seq_breaks (seq_from_leaves ls) = leaves_breaks ls.
Proof.
  intros Hls. destruct (build_balanced_ok ls Hls) as (? & E & _).
  unfold seq_content, seq_breaks, seq_from_leaves. by rewrite E.
Qed.

Lemma cut_ok_drop p q c : p <= q -> cut_ok q c -> cut_ok (q - p) (drop p c).
Proof.
  intros Hpq Hq x Hx. apply Hq. rewrite lookup_drop in Hx. by replace q with (p + (q - p)) by lia.
Qed.

Lemma seq_replace_range_ok start end_ replacement s :
  seq_ok s -> seq_ok replacement ->
  start <= end_ <= length (seq_content s) ->
  cut_ok start (seq_content s) -> cut_ok end_ (seq_content s) ->
  seq_ok (seq_replace_range start end_ replacement s)
  /\ seq_content (seq_replace_range start end_ replacement s)
     = take start (seq_content s) ++ seq_content replacement ++ drop end_ (seq_content s).
Proof.
  intros Hs Hr Hle Hcs Hce. unfold seq_replace_range. rewrite (seq_len_content _ Hs).
  rewrite !Nat.min_l, Nat.max_l by lia.
  destruct (split_node s start) as [lhs tail] eqn:E1.
  pose proof (split_node_ok s start Hs Hcs) as (H1 & H2 & C1 & C2 & _). rewrite E1 in *. cbn in *.
  destruct (split_node tail (end_ - start)) as [mid rhs] eqn:E2.
  pose proof (split_node_ok tail (end_ - start) H2) as (H3 & H4 & C3 & C4 & _).
  { rewrite C2. apply cut_ok_drop; [lia|done]. }
  rewrite E2 in *. cbn [fst snd] in *.
  destruct (concat_normalized_ok lhs replacement H1 Hr) as [H5 C5].
  destruct (concat_normalized_ok _ rhs H5 H4) as [H6 C6].
  split; [done|]. rewrite C6, C5, C1, C4, C2, drop_drop, <- app_assoc.
  by replace (start + (end_ - start)) with end_ by lia.
Qed.

(** Ends out of range are clamped. *)
Lemma seq_replace_range_clamp start end_ replacement s :
  seq_replace_range start end_ replacement s
  = seq_replace_range (Nat.min start (seq_len s))
      (Nat.max (Nat.min end_ (seq_len s)) (Nat.min start (seq_len s))) replacement s.
Proof.
  unfold seq_replace_range.
  replace (Nat.min (Nat.min start (seq_len s)) (seq_len s)) with (Nat.min start (seq_len s)) by lia.
  set (a := Nat.min start (seq_len s)). set (b := Nat.max (Nat.min end_ (seq_len s)) a).
  by replace (Nat.max (Nat.min b (seq_len s)) a) with b by lia.
Qed.

(** The depth of a tree as it is built, whatever its cached height says. *)
Fixpoint node_depth t : nat :=
  match t with
  | Leaf _ => 1
  | Branch lhs rhs _ _ _ _ => S (Nat.max (node_depth lhs) (node_depth rhs))
  end.

Definition seq_depth s : nat := match s with None => 0 | Some root => node_depth root end.

Lemma node_height_depth t : node_ok t -> node_height t = node_depth t.
Proof.
  induction t as [l|a IHa b IHb len m c h]; [done|]. intros (Ha & Hb & _ & _ & _ & -> & _).
  cbn [node_height node_depth]. rewrite IHa, IHb by done. lia.
Qed.

Lemma node_height_log t : node_ok t -> 2 ^ (node_height t / 2) <= length (visit_each_leaf t).
Proof.
  enough (forall n, node_height t <= n -> node_ok t -> 2 ^ (node_height t / 2) <= length (visit_each_leaf t))
    by eauto.
  intros n. revert t. induction n as [|n IH]; intros t Hn Ht.
  - pose proof (node_height_pos _ Ht). lia.
  - destruct t as [l|a b len m c h]; [cbn; lia|].
    destruct Ht as (Ha & Hb & -> & -> & -> & -> & H1 & H2).
    cbn [visit_each_leaf node_height] in Hn |- *. rewrite length_app. pose proof (IH a ltac:(lia) Ha). pose proof (IH b ltac:(lia) Hb).
    set (k := Nat.max (node_height a) (node_height b) - 1).
    assert (2 ^ (k / 2) <= 2 ^ (node_height a / 2)).
    { apply Nat.pow_le_mono_r; [lia|]. apply Nat.Div0.div_le_mono. lia. }
    assert (2 ^ (k / 2) <= 2 ^ (node_height b / 2)).
    { apply Nat.pow_le_mono_r; [lia|]. apply Nat.Div0.div_le_mono. lia. }
    pose proof (node_height_pos _ Ha).
    replace (Nat.max (node_height a) (node_height b) + 1) with (k + 1 * 2) by lia.
    rewrite Nat.div_add, Nat.add_1_r, Nat.pow_succ_r' by lia. lia.
Qed.

Lemma seq_depth_log s : seq_ok s -> seq_depth s <= 2 * Nat.log2 (length (seq_for_each_leaf s)) + 1.
Proof.
  destruct s as [root|]; cbn [seq_ok seq_depth seq_for_each_leaf]; [|lia]. intros Ht.
  rewrite <- node_height_depth by done. pose proof (node_height_log root Ht) as Hlog.
  apply Nat.log2_le_mono in Hlog. rewrite Nat.log2_pow2 in Hlog by lia.
  pose proof (Nat.div_mod_eq (node_height root) 2). pose proof (Nat.mod_upper_bound (node_height root) 2). lia.
Qed.

Lemma seq_cached_shape s :
  seq_ok s -> seq_height s = seq_depth s /\ seq_leaf_count s = length (seq_for_each_leaf s).
Proof.
  destruct s as [root|]; [|done]. intros Ht. split; [by apply node_height_depth|by apply node_ok_metadata].
Qed.

(** No leaf is empty. *)
Lemma seq_leaves_length s : seq_ok s -> length (seq_for_each_leaf s) <= length (seq_content s).
Proof.
  intros Hs%seq_ok_leaves. unfold seq_content, leaves_content.
  induction Hs as [|c cs Hc _ IH]; [done|]. cbn. rewrite length_app.
  pose proof (leaf_content_nonempty c Hc). lia.
Qed.

(** The leaves of the two parts: either the leaves of the tree, dealt out, or
    one leaf was cut. *)
Definition splits_leaves (ls : list L) (ab : option (SequenceNode L) * option (SequenceNode L))
    : Prop :=
  ls = seq_for_each_leaf ab.1 ++ seq_for_each_leaf ab.2
  \/ exists ls1 l ls2 x y q,
       ls = ls1 ++ l :: ls2 /\ 0 < q < length (content l) /\ cut_ok q (content l)
       /\ leaf_split_at l q = (Some x, Some y)
       /\ seq_for_each_leaf ab.1 = ls1 ++ [x] /\ seq_for_each_leaf ab.2 = y :: ls2.

Lemma split_some_leaves t p :
  node_ok t -> cut_ok p (node_content t) -> splits_leaves (visit_each_leaf t) (split_some t p).
Proof.
  revert p. induction t as [l|a IHa b IHb len n c h]; intros p Ht Hcut;
    cbn [split_some]; (case Nat.eqb_spec; intros Hp0; [|case Nat.leb_spec; intros Hple]).
  1,4: by left. 1,3: left; by rewrite app_nil_r.
  - rewrite node_content_leaf in Hcut. cbn in Hple. rewrite (leaf_len_content l Ht) in Hple.
    destruct (leaf_split_parts l p Ht ltac:(lia) Hcut) as (x & y & E & _). rewrite E.
    right. exists [], l, [], x, y, p. split_and!; try done. lia.
  - rewrite node_content_branch in Hcut. destruct Ht as (Ha & Hb & _).
    apply cut_ok_app in Hcut as [Hca Hcb]. pose proof (node_len_content _ Ha) as Hla.
    rewrite <- Hla in Hcb. cbn [visit_each_leaf].
    case Nat.eqb_spec; intros Heq; [by left|case Nat.ltb_spec; intros Hlt].
    + pose proof (split_some_ok a p Ha Hca) as (_ & Hk & _). specialize (IHa p Ha Hca).
      destruct (split_some a p) as [x y]. destruct (concat_raw_ok y (Some b) Hk Hb) as [_ E].
      unfold splits_leaves in *. cbn [fst snd] in *. rewrite E.
      destruct IHa as [->|(ls1 & l & ls2 & u & v & q & -> & ? & ? & ? & -> & ->)];
        [left; by rewrite app_assoc|]. right. exists ls1, l, (ls2 ++ visit_each_leaf b), u, v, q.
      by rewrite <- app_assoc.
    + pose proof (split_some_ok b _ Hb (Hcb ltac:(lia))) as (Hk & _).
      specialize (IHb _ Hb (Hcb ltac:(lia))). destruct (split_some b _) as [x y].
      destruct (concat_raw_ok (Some a) x Ha Hk) as [_ E].
      unfold splits_leaves in *. cbn [fst snd] in *. rewrite E.
      destruct IHb as [->|(ls1 & l & ls2 & u & v & q & -> & ? & ? & ? & -> & ->)];
        [left; by rewrite app_assoc|]. right. exists (visit_each_leaf a ++ ls1), l, ls2, u, v, q.
      by rewrite <- !app_assoc.
Qed.
End Laws.

(** ** Break positions as a function of the elements

    [measure c] are the break positions of the elements [c]; they are additive
    when the two sides meet at a pair that [glue] allows. *)

Definition glue_lists {A} (glue : A -> A -> bool) (c1 c2 : list A) : Prop :=
  forall x y, last c1 = Some x -> head c2 = Some y -> glue x y = true.

Fixpoint glued {L A} (content : L -> list A) (glue : A -> A -> bool) (ls : list L) : Prop :=
  match ls with
  | [] => True
  | l :: ls => glue_lists glue (content l) (concat (content <$> ls)) /\ glued content glue ls
  end.

Class BreakLaws {L A} `{SequenceLeaf L} (content : L -> list A) (breaks : L -> list nat)
    (leaf_ok : L -> Prop) (measure : list A -> list nat) (glue : A -> A -> bool) : Prop := {
  measure_nil : measure [] = [];
  measure_bounded c : Forall (fun b => b < length c) (measure c);
  measure_app c1 c2 :
    glue_lists glue c1 c2 -> measure (c1 ++ c2) = measure c1 ++ shift_breaks (length c1) (measure c2);
  rechunk_exact a b :
    leaf_ok a -> leaf_ok b ->
    breaks a = measure (content a) -> breaks b = measure (content b) ->
    Forall (fun l => breaks l = measure (content l)) (rechunk_pair a b)
    /\ glued content glue (rechunk_pair a b)
}.

Section Breaks.
Context {L A : Type} `{SequenceLeaf L} {content : L -> list A} {breaks : L -> list nat}
  {starts : A -> bool} {leaf_ok : L -> Prop} `{!LeafLaws content breaks starts leaf_ok}
  {measure : list A -> list nat} {glue : A -> A -> bool}
  `{!BreakLaws content breaks leaf_ok measure glue}.
Implicit Types (s : PersistentSequence L) (ls : list L) (c : list A).

Abbreviation leaves_content := (leaves_content (content := content)).
Abbreviation leaves_breaks := (leaves_breaks (content := content) (breaks := breaks)).
Abbreviation seq_content := (seq_content (content := content)).
Abbreviation seq_breaks := (seq_breaks (content := content) (breaks := breaks)).
Abbreviation seq_ok := (seq_ok (leaf_ok := leaf_ok)).
Abbreviation node_ok := (node_ok (leaf_ok := leaf_ok)).
Abbreviation cut_ok := (cut_ok (starts := starts)).

Definition leaf_exact (l : L) : Prop := breaks l = measure (content l).
Definition leaves_exact ls : Prop := Forall leaf_exact ls /\ glued content glue ls.

(** The cached breaks of a sequence are those of its elements. *)
Definition seq_exact s : Prop := leaves_exact (seq_for_each_leaf s).

Lemma leaves_exact_breaks ls : leaves_exact ls -> leaves_breaks ls = measure (leaves_content ls).
Proof.
  intros [Hex Hg]. induction ls as [|l ls IH]; [symmetry; apply measure_nil|].
  inversion Hex as [|? ? Hl Hls]; subst. destruct Hg as [Hg1 Hg2].
  cbn [RopeLaws.leaves_breaks]. rewrite leaves_content_cons, measure_app by done.
  by rewrite IH, Hl.
Qed.

Lemma seq_exact_breaks s : seq_exact s -> seq_breaks s = measure (seq_content s).
Proof. apply leaves_exact_breaks. Qed.

Lemma glue_lists_nil_l c : glue_lists glue [] c.
Proof. by intros x y ?. Qed.

Lemma glue_lists_nil_r c : glue_lists glue c [].
Proof. by intros x y ? ?. Qed.

Lemma glue_lists_app_r c c1 c2 : 0 < length c1 -> glue_lists glue c (c1 ++ c2) <-> glue_lists glue c c1.
Proof. destruct c1; [cbn; lia|]. done. Qed.

Lemma glue_lists_app_l c c1 c2 : 0 < length c2 -> glue_lists glue (c1 ++ c2) c <-> glue_lists glue c2 c.
Proof.
  intros Hl. unfold glue_lists. rewrite last_app. destruct (last c2) eqn:E; [done|].
  apply last_None in E. subst. cbn in Hl. lia.
Qed.

Lemma leaves_content_nonempty ls :
  Forall leaf_ok ls -> ls <> [] -> 0 < length (leaves_content ls).
Proof.
  destruct 1 as [|l ls Hl]; [done|]. intros _. rewrite leaves_content_cons, length_app.
  pose proof (leaf_content_nonempty l Hl). lia.
Qed.

Lemma glued_app ls1 ls2 :
  Forall leaf_ok ls1 -> Forall leaf_ok ls2 ->
  glued content glue (ls1 ++ ls2)
  <-> glued content glue ls1 /\ glued content glue ls2
      /\ glue_lists glue (leaves_content ls1) (leaves_content ls2).
Proof.
  intros H1 H2. induction H1 as [|l ls1 Hl Hls IH].
  - cbn. split; [|tauto]. intros. by split_and!.
  - cbn [app glued]. rewrite IH. fold (RopeLaws.leaves_content (content := content) (ls1 ++ ls2)).
    fold (RopeLaws.leaves_content (content := content) ls1).
    rewrite leaves_content_app, leaves_content_cons.
    destruct ls1 as [|l1 ls1].
    + change (leaves_content []) with (@nil A). cbn [app]. rewrite app_nil_r.
      pose proof (glue_lists_nil_l (leaves_content ls2)).
      pose proof (glue_lists_nil_r (content l)). cbn. tauto.
    + pose proof (leaves_content_nonempty (l1 :: ls1) Hls ltac:(done)).
      rewrite glue_lists_app_r, glue_lists_app_l by done. tauto.
Qed.

Lemma leaves_exact_app ls1 ls2 :
  Forall leaf_ok ls1 -> Forall leaf_ok ls2 ->
  leaves_exact (ls1 ++ ls2)
  <-> leaves_exact ls1 /\ leaves_exact ls2
      /\ glue_lists glue (leaves_content ls1) (leaves_content ls2).
Proof.
  intros H1 H2. unfold leaves_exact. rewrite Forall_app, glued_app by done. tauto.
Qed.

Lemma glue_lists_outer c1 c1' c2 c2' :
  0 < length c1' -> 0 < length c2 ->
  glue_lists glue (c1 ++ c1') (c2 ++ c2') <-> glue_lists glue c1' c2.
Proof. intros. by rewrite glue_lists_app_r, glue_lists_app_l by done. Qed.

Lemma concat_raw_exact s1 s2 :
  seq_ok s1 -> seq_ok s2 -> seq_exact s1 -> seq_exact s2 ->
  glue_lists glue (seq_content s1) (seq_content s2) -> seq_exact (concat_raw s1 s2).
Proof.
  intros H1 H2 E1 E2 Hg. unfold seq_exact. destruct (concat_raw_ok s1 s2 H1 H2) as [_ ->].
  apply leaves_exact_app; [by apply seq_ok_leaves..|done].
Qed.

Lemma leaves_content_single l : leaves_content [l] = content l.
Proof. apply app_nil_r. Qed.

(** Joining re-reads the pair of leaves that meet, so no condition is left on
    the seam. *)
Lemma concat_normalized_exact s1 s2 :
  seq_ok s1 -> seq_ok s2 -> seq_exact s1 -> seq_exact s2 -> seq_exact (concat_normalized s1 s2).
Proof.
  destruct s1 as [t1|], s2 as [t2|]; cbn [concat_normalized]; try done.
  intros H1 H2 E1 E2. pose proof (pop_last_ok t1 H1) as P1. pose proof (pop_first_ok t2 H2) as P2.
  destruct (pop_last t1) as [rest1 l1], (pop_first t2) as [rest2 l2].
  destruct P1 as (Hr1 & Hl1 & L1), P2 as (Hr2 & Hl2 & L2).
  unfold seq_exact in *. cbn [seq_for_each_leaf] in E1, E2. rewrite L1 in E1. rewrite L2 in E2.
  pose proof (seq_ok_leaves _ Hr1) as F1. pose proof (seq_ok_leaves _ Hr2) as F2.
  apply leaves_exact_app in E1 as (X1 & Y1 & G1); [|done|by constructor].
  change (l2 :: ?ls) with ([l2] ++ ls) in E2.
  apply leaves_exact_app in E2 as (Y2 & X2 & G2); [|by constructor|done].
  rewrite leaves_content_single in G1, G2.
  destruct (rechunk_pair_content l1 l2 Hl1 Hl2) as [Hmid Ec].
  destruct (rechunk_exact l1 l2 Hl1 Hl2) as [Xm Gm];
    [by destruct Y1 as [Y1 _]; inversion Y1|by destruct Y2 as [Y2 _]; inversion Y2|].
  destruct (build_balanced_ok _ Hmid) as (Hm & Em & _).
  destruct (concat_raw_ok rest1 _ Hr1 Hm) as [Hc1 Ec1].
  destruct (concat_raw_ok _ rest2 Hc1 Hr2) as [Hc2 Ec2].
  rewrite Ec2, Ec1, Em. fold (leaves_content (rechunk_pair l1 l2)) in Ec.
  pose proof (leaf_content_nonempty l1 Hl1). pose proof (leaf_content_nonempty l2 Hl2).
  apply leaves_exact_app; [by apply Forall_app|done|]. split_and!; [|done|].
  - apply leaves_exact_app; [done|done|]. split_and!; [done|done|].
    rewrite Ec. by apply glue_lists_app_r.
  - rewrite leaves_content_app, Ec, app_assoc. by apply glue_lists_app_l.
Qed.

(** A cut in [c] at [p] where breaks stay as they are: between elements that
    [glue] allows, or anywhere if there are no breaks at all. *)
Definition exact_cut (p : nat) c : Prop :=
  (forall c', measure c' = []) \/ glue_lists glue (take p c) (drop p c).

Lemma split_leaf_exact l x y q :
  leaf_exact l -> 0 < q < length (content l) -> exact_cut q (content l) ->
  content x = take q (content l) -> content y = drop q (content l) ->
  breaks x = breaks_before q (breaks l) -> breaks y = breaks_from q (breaks l) ->
  leaf_exact x /\ leaf_exact y.
Proof.
  intros Hex Hq [Hz|Hg] Cx Cy Bx By; unfold leaf_exact in *.
  { rewrite Bx, By, Hex, !Hz. done. }
  assert (Hlen : length (take q (content l)) = q) by (rewrite length_take; lia).
  assert (Hm : measure (content l) = measure (content x) ++ shift_breaks q (measure (content y))).
  { rewrite <- (take_drop q (content l)), measure_app, Hlen by done. by rewrite Cx, Cy. }
  assert (Hb : Forall (fun b => b < q) (measure (content x))).
  { eapply breaks_bounded_weaken, measure_bounded. rewrite Cx, Hlen. done. }
  rewrite Bx, By, Hex, Hm, breaks_before_app, breaks_from_app.
  rewrite breaks_before_shift, breaks_from_shift, Nat.sub_diag by done.
  by rewrite breaks_before_0, shift_breaks_0, breaks_before_all, breaks_from_all, app_nil_r.
Qed.

(** Cutting a leaf off a list of leaves keeps both ends exact. *)
Lemma leaves_exact_cut ls1 l ls2 x y q :
  Forall leaf_ok (ls1 ++ l :: ls2) -> leaf_ok x -> leaf_ok y -> leaf_exact x -> leaf_exact y ->
  0 < q < length (content l) ->
  content x = take q (content l) -> content y = drop q (content l) ->
  leaves_exact (ls1 ++ l :: ls2) -> leaves_exact (ls1 ++ [x]) /\ leaves_exact (y :: ls2).
Proof.
  intros Hok Hx Hy Ex Ey Hq Cx Cy Hex.
  assert (0 < length (content x) /\ 0 < length (content y)) as [Px Py]
    by (rewrite Cx, Cy, length_take, length_drop; lia).
  assert (Cl : content l = content x ++ content y) by (by rewrite Cx, Cy, take_drop).
  apply Forall_app in Hok as [Ho1 Ho2]. inversion Ho2 as [|? ? Hol Ho3]; subst.
  apply leaves_exact_app in Hex as (X1 & [X2 [Gl X3]] & G1); [|done|done].
  rewrite leaves_content_cons, Cl, <- app_assoc, glue_lists_app_r in G1 by done.
  rewrite Cl, glue_lists_app_l in Gl by done. inversion X2; subst. split.
  - apply leaves_exact_app; [done|by constructor|]. rewrite leaves_content_single.
    split_and!; [done| |done]. split; [by constructor|]. split; [apply glue_lists_nil_r|done].
  - split; [by constructor|]. by split.
Qed.

Lemma split_node_exact s p :
  seq_ok s -> cut_ok p (seq_content s) -> seq_exact s -> exact_cut p (seq_content s) ->
  seq_exact (split_node s p).1 /\ seq_exact (split_node s p).2.
Proof.
  destruct s as [t|]; [|done]. intros Hs Hcut Hex Hg. cbn [split_node].
  pose proof (split_some_ok t p Hs Hcut) as (_ & _ & C1 & C2 & _).
  pose proof (split_some_leaves t p Hs Hcut) as Hl. pose proof (node_ok_leaves _ Hs) as Hok.
  destruct (split_some t p) as [a b]. unfold seq_exact, splits_leaves in *.
  cbn [fst snd seq_for_each_leaf] in *.
  destruct Hl as [E|(ls1 & l & ls2 & x & y & q & E & Hq & Hc & Es & Ea & Eb)]; rewrite E in *.
  - apply Forall_app in Hok as [? ?]. by apply leaves_exact_app in Hex as (? & ? & _).
  - assert (Hol : leaf_ok l) by (apply Forall_app in Hok as [_ Hok]; by inversion Hok).
    destruct (leaf_split_parts l q Hol Hq Hc) as (x' & y' & E' & Hx & Hy & Cx & Cy & Bx & By).
    rewrite Es in E'. injection E' as <- <-.
    unfold RopeLaws.seq_content in C1, C2. cbn [seq_for_each_leaf] in C1, C2.
    rewrite Ea, leaves_content_app, leaves_content_single in C1. rewrite Eb, leaves_content_cons in C2.
    change (RopeLaws.seq_content (Some t)) with (node_content (content := content) t) in Hg.
    assert (Hcl : exact_cut q (content l)).
    { destruct Hg as [Hz|Hg]; [by left|]. right. rewrite <- C1, <- C2, glue_lists_outer in Hg
        by (rewrite ?Cx, ?Cy, ?length_take, ?length_drop; lia). by rewrite Cx, Cy in Hg. }
    destruct (split_leaf_exact l x y q) as [Ex Ey]; auto.
    { destruct Hex as [Hex _]. apply Forall_app in Hex as [_ Hex]. by inversion Hex. }
    rewrite Ea, Eb. by eapply leaves_exact_cut.
Qed.

Lemma glue_lists_drop p q c :
  p <= q <= length c -> glue_lists glue (take q c) (drop q c) ->
  glue_lists glue (take (q - p) (drop p c)) (drop (q - p) (drop p c)).
Proof.
  intros Hpq Hg. rewrite drop_drop, take_drop_commute.
  replace (p + (q - p)) with q by lia.
  destruct (decide (p = q)) as [->|Hne].
  { rewrite drop_ge by (rewrite length_take; lia). apply glue_lists_nil_l. }
  rewrite <- (take_drop p (take q c)) in Hg. apply glue_lists_app_l in Hg; [done|].
  rewrite length_drop, length_take. lia.
Qed.

Lemma seq_replace_range_exact start end_ replacement s :
  seq_ok s -> seq_ok replacement ->
  start <= end_ <= length (seq_content s) ->
  cut_ok start (seq_content s) -> cut_ok end_ (seq_content s) ->
  seq_exact s -> seq_exact replacement ->
  exact_cut start (seq_content s) -> exact_cut end_ (seq_content s) ->
  seq_exact (seq_replace_range start end_ replacement s).
Proof.
  intros Hs Hr Hle Hcs Hce Es Er Gs Ge. unfold seq_replace_range. rewrite (seq_len_content _ Hs).
  rewrite !Nat.min_l, Nat.max_l by lia.
  destruct (split_node s start) as [lhs tail] eqn:E1.
  pose proof (split_node_ok s start Hs Hcs) as (H1 & H2 & C1 & C2 & _).
  pose proof (split_node_exact s start Hs Hcs Es Gs) as [X1 X2]. rewrite E1 in *. cbn in *.
  destruct (split_node tail (end_ - start)) as [mid rhs] eqn:E2.
  assert (Hct : cut_ok (end_ - start) (seq_content tail)).
  { rewrite C2. apply cut_ok_drop; [lia|done]. }
  pose proof (split_node_ok tail (end_ - start) H2 Hct) as (H3 & H4 & _).
  pose proof (split_node_exact tail (end_ - start) H2 Hct X2) as [X3 X4].
  { rewrite C2. destruct Ge as [Hz|Ge]; [by left|right]. by apply glue_lists_drop. }
  rewrite E2 in *. cbn [fst snd] in *.
  destruct (concat_normalized_ok lhs replacement H1 Hr) as [H5 C5].
  apply concat_normalized_exact; auto. by apply concat_normalized_exact.
Qed.
End Breaks.
