(* ===== verification/TextRope.v ===== *)
(** * [src/ui/sql_editor/chunked_text.rs]: the text rope

    [TextChunk] (a window of a shared string with the window of its line-break
    table), [ChunkedTextSlice] and [ChunkedText], the persistent text behind the
    editor's mirrors and undo snapshots.  Offsets are byte offsets.

    An [Arc] is its contents.  Whether two [Arc]s are one allocation is not a
    function of the contents, so [Arc::ptr_eq] is a parameter ([ArcPtrEq]) of
    which only its guarantee is used: one allocation has one value.  Line-break
    tables, counts and offsets are natural numbers (they index memory, so the
    source's saturating arithmetic does not saturate). *)
From S2P Require Import Prelude RustStr Utf8 Rope.

Class ArcPtrEq (T : Type) := {
  ptr_eq : T -> T -> bool;
  ptr_eq_sound x y : ptr_eq x y = true -> x = y
}.

Definition TEXT_CHUNK_TARGET_BYTES : nat := 32 * 1024.
Definition TEXT_CHUNK_RECHUNK_MIN_BYTES : nat := 16 * 1024.
Arguments TEXT_CHUNK_TARGET_BYTES : simpl never.
Arguments TEXT_CHUNK_RECHUNK_MIN_BYTES : simpl never.

Definition LF : byte := 10%N.
Definition CR : byte := 13%N.

(** ** Chunks *)

Record TextChunk := mkTextChunk {
  storage : bytes;
  storage_line_breaks : list nat;
  storage_is_ascii : bool;
  chunk_start : nat;
  chunk_end : nat;
  line_break_start : nat;
  line_break_end : nat
}.

(** [TextChunk::from_storage]. *)
Definition chunk_from_storage (storage : bytes) (storage_line_breaks : list nat)
    (storage_is_ascii : bool) (start end_ : nat) : TextChunk :=
  let start := Nat.min start (length storage) in
  let end_ := Nat.max (Nat.min end_ (length storage)) start in
  let line_break_start := partition_point (fun position => position <? start) storage_line_breaks in
  let line_break_end := partition_point (fun position => position <? end_) storage_line_breaks in
  mkTextChunk storage storage_line_breaks storage_is_ascii start end_ line_break_start line_break_end.

Definition chunk_as_str (c : TextChunk) : bytes :=
  default [] (str_get (storage c) (chunk_start c) (chunk_end c)).

Definition chunk_line_breaks (c : TextChunk) : list nat :=
  default [] (slice_get (storage_line_breaks c) (line_break_start c) (line_break_end c)).

Definition chunk_len (c : TextChunk) : nat := chunk_end c - chunk_start c.

Definition chunk_secondary_len (c : TextChunk) : nat := line_break_end c - line_break_start c.

Definition chunk_secondary_count_before (c : TextChunk) (position : nat) : nat :=
  let absolute := chunk_start c + Nat.min position (chunk_len c) in
  partition_point (fun line_break => line_break <? absolute) (chunk_line_breaks c).

Definition chunk_secondary_position (c : TextChunk) (ordinal : nat) : option nat :=
  (fun position => position - chunk_start c) <$> chunk_line_breaks c !! ordinal.

Definition chunk_split_at (c : TextChunk) (position : nat) : option TextChunk * option TextChunk :=
  let position := Nat.min position (chunk_len c) in
  let absolute := Nat.min (chunk_start c + position) (chunk_end c) in
  let lhs :=
    if chunk_start c <? absolute
    then Some (chunk_from_storage (storage c) (storage_line_breaks c) (storage_is_ascii c)
                 (chunk_start c) absolute)
    else None in
  let rhs :=
    if absolute <? chunk_end c
    then Some (chunk_from_storage (storage c) (storage_line_breaks c) (storage_is_ascii c)
                 absolute (chunk_end c))
    else None in
  (lhs, rhs).

(** ** Cutting a string into chunks *)

(** The break positions, that of a CRLF pair being its line feed, and whether
    all bytes are ASCII. *)
Fixpoint metadata_loop (bytes : list N) (idx : nat) : list nat * bool :=
  match bytes with
  | [] => ([], true)
  | b :: rest =>
      let is_ascii := N.ltb b 128 in
      if N.eqb b LF then
        let '(positions, ascii) := metadata_loop rest (idx + 1) in (idx :: positions, is_ascii && ascii)
      else if N.eqb b CR then
        match rest with
        | b' :: rest' =>
            if N.eqb b' LF then
              let '(positions, ascii) := metadata_loop rest' (idx + 2) in
              (idx + 1 :: positions, is_ascii && ascii)
            else
              let '(positions, ascii) := metadata_loop rest (idx + 1) in
              (idx :: positions, is_ascii && ascii)
        | [] => ([idx], is_ascii)
        end
      else
        let '(positions, ascii) := metadata_loop rest (idx + 1) in (positions, is_ascii && ascii)
  end.

Definition text_storage_metadata (bytes : list N) : list nat * bool := metadata_loop bytes 0.

(** [while end > start && !storage.is_char_boundary(end) { end -= 1 }]. *)
Fixpoint step_back (s : bytes) (start end_ : nat) : nat :=
  match end_ with
  | 0 => 0
  | S before =>
      if (start <? end_) && negb (str_is_char_boundary s end_) then step_back s start before else end_
  end.

(** [s.char_indices().nth(1)]: where the second character starts. *)
Fixpoint next_start (s : bytes) : option nat :=
  match s with
  | [] => None
  | b :: s => if starts_char b then Some 0 else S <$> next_start s
  end.

Definition second_char_index (s : bytes) : option nat :=
  match s with [] => None | _ :: rest => S <$> next_start rest end.

(** The end of the chunk that starts at [start]. *)
Definition next_chunk_end (s : bytes) (start : nat) : nat :=
  let end_ := Nat.min (start + TEXT_CHUNK_TARGET_BYTES) (length s) in
  let end_ := step_back s start end_ in
  let end_ :=
    if end_ =? start
    then match second_char_index (drop start s) with Some idx => start + idx | None => length s end
    else end_ in
  if (end_ <? length s) && bool_decide (s !! (end_ - 1) = Some CR) && bool_decide (s !! end_ = Some LF)
  then end_ + 1 else end_.

(** A chunk has at least one byte, so the length is enough fuel. *)
Fixpoint split_chunks_loop (fuel : nat) (s : bytes) (line_breaks : list nat) (ascii : bool)
    (start : nat) : list TextChunk :=
  match fuel with
  | 0 => []
  | S fuel =>
      if start <? length s then
        let end_ := next_chunk_end s start in
        chunk_from_storage s line_breaks ascii start end_
        :: split_chunks_loop fuel s line_breaks ascii end_
      else []
  end.

Definition split_text_chunks_from_storage (s : bytes) : list TextChunk :=
  match s with
  | [] => []
  | _ =>
      let '(line_breaks, storage_is_ascii) := text_storage_metadata s in
      split_chunks_loop (length s) s line_breaks storage_is_ascii 0
  end.

Definition split_text_chunks_from_string (text : bytes) : list TextChunk :=
  split_text_chunks_from_storage text.

(** ** The leaves of the text rope *)

Section Rechunk.
Context `{!ArcPtrEq bytes} `{!ArcPtrEq (list nat)}.

Definition chunk_rechunk_pair (lhs rhs : TextChunk) : list TextChunk :=
  if ptr_eq (storage lhs) (storage rhs)
     && ptr_eq (storage_line_breaks lhs) (storage_line_breaks rhs)
     && (chunk_end lhs =? chunk_start rhs)
  then [chunk_from_storage (storage lhs) (storage_line_breaks lhs) (storage_is_ascii lhs)
          (chunk_start lhs) (chunk_end rhs)]
  else
    let combined_len := chunk_len lhs + chunk_len rhs in
    let joins_crlf := bool_decide (last (chunk_as_str lhs) = Some CR)
                      && bool_decide (head (chunk_as_str rhs) = Some LF) in
    if negb joins_crlf && (TEXT_CHUNK_TARGET_BYTES <? combined_len)
       && (TEXT_CHUNK_RECHUNK_MIN_BYTES <=? chunk_len lhs)
       && (TEXT_CHUNK_RECHUNK_MIN_BYTES <=? chunk_len rhs)
    then [lhs; rhs]
    else if negb joins_crlf && (TEXT_CHUNK_TARGET_BYTES <? combined_len)
         && ((TEXT_CHUNK_TARGET_BYTES <=? chunk_len lhs)
             || (TEXT_CHUNK_TARGET_BYTES <=? chunk_len rhs))
    then [lhs; rhs]
    else split_text_chunks_from_string (chunk_as_str lhs ++ chunk_as_str rhs).

#[export] Instance TextChunk_leaf : SequenceLeaf TextChunk := {
  leaf_len := chunk_len;
  leaf_secondary_len := chunk_secondary_len;
  leaf_secondary_count_before := chunk_secondary_count_before;
  leaf_secondary_position := chunk_secondary_position;
  leaf_split_at := chunk_split_at;
  rechunk_pair := chunk_rechunk_pair
}.

(** ** [ChunkedTextSlice] *)

Record ChunkedTextSlice := mkSlice {
  slice_storage : bytes;
  slice_start : nat;
  slice_end : nat;
  known_ascii : bool
}.

Definition slice_new (storage : bytes) (start end_ : nat) : ChunkedTextSlice :=
  let start := Nat.min start (length storage) in
  let end_ := Nat.max (Nat.min end_ (length storage)) start in
  mkSlice storage start end_ false.

Definition slice_new_with_ascii (storage : bytes) (start end_ : nat) (known_ascii : bool)
    : ChunkedTextSlice :=
  let value := slice_new storage start end_ in
  mkSlice (slice_storage value) (slice_start value) (slice_end value) known_ascii.

Definition bytes_is_ascii (s : bytes) : bool := forallb (fun b => N.ltb b 128) s.

Definition slice_whole (storage : bytes) : ChunkedTextSlice :=
  slice_new_with_ascii storage 0 (length storage) (bytes_is_ascii storage).

Definition slice_as_str (s : ChunkedTextSlice) : bytes :=
  default [] (str_get (slice_storage s) (slice_start s) (slice_end s)).

Definition subslice (s : ChunkedTextSlice) (start end_ : nat) : ChunkedTextSlice :=
  let len := slice_end s - slice_start s in
  let start := Nat.min start len in
  let end_ := Nat.max (Nat.min end_ len) start in
  slice_new_with_ascii (slice_storage s) (slice_start s + start) (slice_start s + end_) (known_ascii s).

(** ** [ChunkedText] *)

Definition ChunkedText : Type := PersistentSequence TextChunk.

Definition text_from_shared_string (text : bytes) : ChunkedText :=
  seq_from_leaves (split_text_chunks_from_storage text).

Definition text_from_string (text : bytes) : ChunkedText :=
  seq_from_leaves (split_text_chunks_from_string text).

Definition text_len (t : ChunkedText) : nat := seq_len t.
Definition text_is_empty (t : ChunkedText) : bool := text_len t =? 0.

Definition text_byte_at (t : ChunkedText) (position : nat) : option byte :=
  match seq_locate t position with
  | Some (chunk, offset) => chunk_as_str chunk !! offset
  | None => None
  end.

Definition text_is_char_boundary (t : ChunkedText) (position : nat) : bool :=
  if (position =? 0) || (position =? text_len t) then true
  else match text_byte_at t position with
       | Some byte => negb (N.eqb (N.land byte 192) 128)
       | None => false
       end.

Fixpoint clamp_loop (t : ChunkedText) (position : nat) : nat :=
  match position with
  | 0 => 0
  | S before => if negb (text_is_char_boundary t position) then clamp_loop t before else position
  end.

Definition clamp_boundary (t : ChunkedText) (position : nat) : nat :=
  clamp_loop t (Nat.min position (text_len t)).

(** The visitor of [range_string]: the text so far and whether it is valid. *)
Definition push_visited (acc : bytes * bool) (v : TextChunk * nat * nat) : bytes * bool :=
  let '(chunk, local_start, local_end) := v in
  match str_get (chunk_as_str chunk) local_start local_end with
  | Some text => (acc.1 ++ text, acc.2)
  | None => (acc.1, false)
  end.

Definition range_string (t : ChunkedText) (start end_ : nat) : option bytes :=
  let start := clamp_boundary t (Nat.min start (text_len t)) in
  let end_ := clamp_boundary t (Nat.min end_ (text_len t)) in
  if end_ <? start then Some []
  else
    let '(result, valid) := foldl push_visited ([], true) (seq_visit_range t start end_) in
    if valid && (length result =? end_ - start) then Some result else None.

Definition to_flat_string (t : ChunkedText) : bytes := default [] (range_string t 0 (text_len t)).

Definition match_leaf (other : bytes) (acc : bool * nat) (chunk : TextChunk) : bool * nat :=
  let '(matches, offset) := acc in
  if matches then
    let end_ := offset + chunk_len chunk in
    (bool_decide (str_get other offset end_ = Some (chunk_as_str chunk)), end_)
  else (matches, offset).

Definition matches_str (t : ChunkedText) (other : bytes) : bool :=
  if negb (text_len t =? length other) then false
  else
    let '(matches, offset) := foldl (match_leaf other) (true, 0) (seq_for_each_leaf t) in
    matches && (offset =? length other).

(** The state of the visitor of [shared_range]. *)
Record SharedRange := mkShared {
  sh_storage : option bytes;
  sh_start : nat;
  sh_end : nat;
  sh_ascii : bool;
  sh_valid : bool
}.

Definition share_visit (st : SharedRange) (v : TextChunk * nat * nat) : SharedRange :=
  let '(chunk, local_start, local_end) := v in
  if negb (sh_valid st) then st
  else
    let absolute_start := chunk_start chunk + local_start in
    let absolute_end := Nat.min (chunk_start chunk + local_end) (chunk_end chunk) in
    match sh_storage st with
    | None => mkShared (Some (storage chunk)) absolute_start absolute_end (storage_is_ascii chunk) true
    | Some current =>
        if ptr_eq current (storage chunk) && (absolute_start =? sh_end st)
        then mkShared (sh_storage st) (sh_start st) absolute_end (sh_ascii st) (sh_valid st)
        else mkShared (sh_storage st) (sh_start st) (sh_end st) (sh_ascii st) false
    end.

Definition shared_range (t : ChunkedText) (start end_ : nat) : option ChunkedTextSlice :=
  let start := clamp_boundary t (Nat.min start (text_len t)) in
  let end_ := clamp_boundary t (Nat.min end_ (text_len t)) in
  if end_ <? start then None
  else if start =? end_ then Some (slice_whole [])
  else
    let st := foldl share_visit (mkShared None 0 0 false true) (seq_visit_range t start end_) in
    match sh_storage st with
    | Some storage =>
        if sh_valid st
        then Some (slice_new_with_ascii storage (sh_start st) (sh_end st) (sh_ascii st))
        else None
    | None => None
    end.

(** The visitor of [shared_or_owned_range]: text, validity, ASCII. *)
Definition own_visit (acc : bytes * bool * bool) (v : TextChunk * nat * nat) : bytes * bool * bool :=
  let '(result, valid, ascii) := acc in
  let '(chunk, local_start, local_end) := v in
  match str_get (chunk_as_str chunk) local_start local_end with
  | Some text => (result ++ text, valid, ascii && (storage_is_ascii chunk || bytes_is_ascii text))
  | None => (result, false, ascii)
  end.

Definition shared_or_owned_range (t : ChunkedText) (start end_ : nat) : option ChunkedTextSlice :=
  match shared_range t start end_ with
  | Some slice => Some slice
  | None =>
      let start := clamp_boundary t (Nat.min start (text_len t)) in
      let end_ := clamp_boundary t (Nat.min end_ (text_len t)) in
      if end_ <? start then None
      else
        let '(result, valid, ascii) := foldl own_visit ([], true, true) (seq_visit_range t start end_) in
        if negb valid || negb (length result =? end_ - start) then None
        else Some (slice_new_with_ascii result 0 (length result) ascii)
  end.

Definition text_slice (t : ChunkedText) (start end_ : nat) : option ChunkedText :=
  let start := clamp_boundary t (Nat.min start (text_len t)) in
  let end_ := clamp_boundary t (Nat.min end_ (text_len t)) in
  if end_ <? start then None
  else
    let '(_, tail) := split_node t start in
    let '(root, _) := split_node tail (end_ - start) in
    Some root.

(** The editing methods return the new text and the method's result. *)
Definition replace_range_chunked (t : ChunkedText) (start end_ : nat) (inserted : ChunkedText)
    : ChunkedText * bool :=
  let start := clamp_boundary t (Nat.min start (text_len t)) in
  let end_ := clamp_boundary t (Nat.min end_ (text_len t)) in
  if end_ <? start then (t, false) else (seq_replace_range start end_ inserted t, true).

Definition replace_range (t : ChunkedText) (start end_ : nat) (inserted : bytes) : ChunkedText * bool :=
  let start := clamp_boundary t (Nat.min start (text_len t)) in
  let end_ := clamp_boundary t (Nat.min end_ (text_len t)) in
  if end_ <? start then (t, false)
  else (seq_replace_range start end_ (seq_from_leaves (split_text_chunks_from_string inserted)) t, true).

Definition replace_range_shared (t : ChunkedText) (start end_ : nat) (inserted : bytes)
    : ChunkedText * bool :=
  let start := clamp_boundary t (Nat.min start (text_len t)) in
  let end_ := clamp_boundary t (Nat.min end_ (text_len t)) in
  if end_ <? start then (t, false)
  else (seq_replace_range start end_ (seq_from_leaves (split_text_chunks_from_storage inserted)) t, true).

(** ** Lines *)

Definition line_count (t : ChunkedText) : nat :=
  if text_is_empty t then 0 else seq_secondary_len t + 1.

Definition line_index_for_position (t : ChunkedText) (position : nat) : nat :=
  seq_secondary_count_before t (Nat.min position (text_len t)).

Definition nth_line_break (t : ChunkedText) (ordinal : nat) : option nat := seq_nth_secondary t ordinal.

Definition line_start_for_index (t : ChunkedText) (line_index : nat) : nat :=
  if line_index =? 0 then 0
  else match nth_line_break t (line_index - 1) with
       | Some position => position + 1
       | None => text_len t
       end.

Definition line_start (t : ChunkedText) (position : nat) : nat :=
  line_start_for_index t (line_index_for_position t position).

Definition line_end (t : ChunkedText) (position : nat) : nat :=
  default (text_len t) (nth_line_break t (line_index_for_position t position)).

Definition inclusive_line_end_for_index (t : ChunkedText) (line_index : nat) : nat :=
  match nth_line_break t line_index with
  | Some position => Nat.min (position + 1) (text_len t)
  | None => text_len t
  end.

(** The visitor of [collect_line_ends_in_range]: the output and the cursor. *)
Definition collect_visit (acc : list nat * nat) (v : TextChunk * nat * nat) : list nat * nat :=
  let '(output, logical_cursor) := acc in
  let '(chunk, local_start, local_end) := v in
  let absolute_start := chunk_start chunk + local_start in
  let absolute_end := Nat.min (chunk_start chunk + local_end) (chunk_end chunk) in
  let first := partition_point (fun position => position <? absolute_start) (chunk_line_breaks chunk) in
  let last := partition_point (fun position => position <? absolute_end) (chunk_line_breaks chunk) in
  let output :=
    match slice_get (chunk_line_breaks chunk) first last with
    | Some line_breaks =>
        output ++ ((fun position => logical_cursor + (position - absolute_start) + 1) <$> line_breaks)
    | None => output
    end in
  (output, logical_cursor + (local_end - local_start)).

Definition collect_line_ends_in_range (t : ChunkedText) (start end_ : nat) : list nat :=
  let start := Nat.min start (text_len t) in
  let end_ := Nat.max (Nat.min end_ (text_len t)) start in
  let '(output, _) := foldl collect_visit ([], start) (seq_visit_range t start end_) in
  if default start (last output) <? end_ then output ++ [end_] else output.
End Rechunk.
