(* ===== verification/TextLaws.v ===== *)
(** * The text rope: line breaks, chunks, and the laws of its leaves

    [text_breaks] is the specification of line breaks: a line feed, or a
    carriage return not followed by one.  A chunk is valid when it is a
    non-empty window of a valid string between character boundaries, with the
    line-break table of that string.  Valid chunks satisfy [LeafLaws], and
    [BreakLaws] with carriage return and line feed as the pair that must not be
    parted. *)
From Stdlib Require Import Sorted.
From S2P Require Import Prelude RustStr Utf8 Rope RopeLaws TextRope.

#[local] Arguments Nat.ltb : simpl never.
#[local] Arguments Nat.leb : simpl never.

(** ** Line breaks *)

Definition is_break (b : byte) (next : option byte) : bool :=
  N.eqb b LF || N.eqb b CR && negb (bool_decide (next = Some LF)).

(** The breaks of [s], which [next] follows. *)
Fixpoint breaks_in (next : option byte) (s : bytes) : list nat :=
  match s with
  | [] => []
  | b :: rest =>
      let tail := shift_breaks 1 (breaks_in next rest) in
      if is_break b (match rest with [] => next | b' :: _ => Some b' end) then 0 :: tail else tail
  end.

Definition text_breaks (s : bytes) : list nat := breaks_in None s.

(** Not inside a CRLF pair. *)
Definition crlf_glue (x y : byte) : bool := negb (N.eqb x CR && N.eqb y LF).

Lemma metadata_loop_eq s idx :
  metadata_loop s idx = (shift_breaks idx (text_breaks s), bytes_is_ascii s).
Proof.
  remember (length s) as n eqn:Hn. revert s idx Hn.
  induction (lt_wf n) as [n _ IH]. intros s idx ->. unfold text_breaks.
  destruct s as [|b rest]; [done|]. cbn [metadata_loop breaks_in bytes_is_ascii forallb].
  assert (Hrest : metadata_loop rest (idx + 1)
    = (shift_breaks idx (shift_breaks 1 (breaks_in None rest)), bytes_is_ascii rest)).
  { rewrite (IH (length rest)) by (cbn; lia). by rewrite shift_breaks_add. }
  unfold is_break. destruct (N.eqb_spec b LF) as [->|HLF]; cbn [orb].
  { by rewrite Hrest, shift_breaks_cons, Nat.add_0_r. }
  destruct (N.eqb_spec b CR) as [->|HCR]; cbn [andb]; [|by rewrite Hrest].
  destruct rest as [|b' rest']; [by rewrite bool_decide_false; [cbn [negb]; rewrite shift_breaks_cons, Nat.add_0_r|]|].
  destruct (N.eqb_spec b' LF) as [->|HLF'].
  - rewrite bool_decide_true by done. cbn [negb].
    rewrite (IH (length rest')) by (cbn; lia).
    cbn [breaks_in]. unfold is_break. rewrite N.eqb_refl. cbn [orb].
    by rewrite !shift_breaks_cons, !shift_breaks_add, <- !Nat.add_assoc.
  - rewrite bool_decide_false by (by intros [= ->]). cbn [negb].
    by rewrite Hrest, shift_breaks_cons, Nat.add_0_r.
Qed.

Lemma metadata_eq s : text_storage_metadata s = (text_breaks s, bytes_is_ascii s).
Proof. unfold text_storage_metadata. by rewrite metadata_loop_eq, shift_breaks_0. Qed.

Lemma breaks_in_bounded next s : Forall (fun b => b < length s) (breaks_in next s).
Proof.
  induction s as [|b s IH]; [constructor|]. cbn.
  assert (Forall (fun b => b < S (length s)) (shift_breaks 1 (breaks_in next s))).
  { unfold shift_breaks. rewrite Forall_fmap. eapply Forall_impl; [exact IH|]. cbn. lia. }
  destruct (is_break _ _); [constructor; [lia|done]|done].
Qed.

Lemma shift_breaks_sorted n bs : StronglySorted lt bs -> StronglySorted lt (shift_breaks n bs).
Proof.
  unfold shift_breaks. induction 1 as [|x xs _ IHx Hx]; [constructor|]. cbn. constructor; [done|].
  rewrite Forall_fmap. eapply Forall_impl; [exact Hx|]. cbn. lia.
Qed.

Lemma breaks_in_sorted next s : StronglySorted lt (breaks_in next s).
Proof.
  induction s as [|b s IH]; [constructor|]. cbn. apply (shift_breaks_sorted 1) in IH.
  destruct (is_break _ _); [|done]. constructor; [done|].
  unfold shift_breaks. rewrite Forall_fmap. apply Forall_true. cbn. lia.
Qed.

Definition head_or (next : option byte) (s : bytes) : option byte :=
  match s with [] => next | b :: _ => Some b end.

Lemma breaks_in_app next s1 s2 :
  breaks_in next (s1 ++ s2)
  = breaks_in (head_or next s2) s1 ++ shift_breaks (length s1) (breaks_in next s2).
Proof.
  induction s1 as [|b s1 IH]; [cbn; by rewrite shift_breaks_0|]. cbn [app breaks_in length].
  rewrite IH, shift_breaks_app, shift_breaks_add. cbn [Nat.add].
  assert (match s1 ++ s2 with [] => next | b' :: _ => Some b' end
          = match s1 with [] => head_or next s2 | b' :: _ => Some b' end) as ->
    by (destruct s1, s2; done).
  by destruct (is_break _ _).
Qed.

(** What follows matters only after a carriage return. *)
Lemma breaks_in_next next s :
  breaks_in next s = text_breaks s <-> ~ (last s = Some CR /\ next = Some LF).
Proof.
  unfold text_breaks. destruct (list_eq_nil_dec s) as [->|Hs]; [naive_solver|].
  destruct (exists_last Hs) as (s' & b & ->). rewrite !breaks_in_app, last_snoc.
  cbn. unfold is_break. rewrite (bool_decide_false (None = Some LF)) by done. cbn [negb].
  destruct (N.eqb_spec b LF) as [->|HLF]; cbn [orb]; [unfold LF, CR; naive_solver|].
  destruct (N.eqb_spec b CR) as [->|HCR]; cbn [andb]; [|naive_solver].
  case_bool_decide as Hn; cbn [negb]; [|naive_solver]. split; [|naive_solver].
  intros E%app_inv_head. done.
Qed.

Lemma breaks_in_glue s1 s2 :
  glue_lists crlf_glue s1 s2 -> breaks_in (head_or None s2) s1 = text_breaks s1.
Proof.
  intros Hg. apply breaks_in_next. intros [H1 H2]. destruct s2 as [|y s2]; [done|].
  injection H2 as ->. by specialize (Hg _ _ H1 eq_refl).
Qed.

Lemma text_breaks_app s1 s2 :
  glue_lists crlf_glue s1 s2 ->
  text_breaks (s1 ++ s2) = text_breaks s1 ++ shift_breaks (length s1) (text_breaks s2).
Proof. intros Hg. unfold text_breaks at 1. by rewrite breaks_in_app, breaks_in_glue. Qed.

(** ** Windows of a line-break table *)

Lemma breaks_before_nil p bs : Forall (fun b => p <= b) bs -> breaks_before p bs = [].
Proof.
  unfold breaks_before. induction 1 as [|b bs Hb _ IH]; [done|].
  by rewrite filter_cons_False by lia.
Qed.

Lemma breaks_before_before p q bs :
  breaks_before p (breaks_before q bs) = breaks_before (Nat.min p q) bs.
Proof.
  unfold breaks_before. induction bs as [|b bs IH]; [done|]. rewrite !filter_cons.
  destruct (decide (b < q)), (decide (b < Nat.min p q)); try lia;
    rewrite ?filter_cons; try destruct (decide (b < p)); try lia; by rewrite ?IH.
Qed.

Lemma breaks_before_from p q bs :
  breaks_before p (breaks_from q bs) = breaks_from q (breaks_before (q + p) bs).
Proof.
  unfold breaks_before, breaks_from. induction bs as [|b bs IH]; [done|]. rewrite !filter_cons.
  destruct (decide (q <= b)), (decide (b < q + p));
    rewrite ?filter_cons, ?fmap_cons, ?filter_cons; cbn;
    repeat case_decide; try lia; rewrite ?fmap_cons; by rewrite ?IH.
Qed.

Lemma breaks_from_from p q bs : breaks_from p (breaks_from q bs) = breaks_from (q + p) bs.
Proof.
  unfold breaks_from. induction bs as [|b bs IH]; [done|]. rewrite !filter_cons.
  repeat case_decide; rewrite ?fmap_cons, ?filter_cons; repeat case_decide; try lia;
    rewrite ?fmap_cons; [f_equal; [lia|done]|done|done].
Qed.

Lemma partition_point_sorted p bs :
  StronglySorted lt bs ->
  partition_point (fun b => b <? p) bs = length (breaks_before p bs)
  /\ take (length (breaks_before p bs)) bs = breaks_before p bs
  /\ shift_breaks p (breaks_from p bs) = drop (length (breaks_before p bs)) bs.
Proof.
  induction 1 as [|b bs _ (IH1 & IH2 & IH3) Hb]; [done|]. cbn [partition_point].
  unfold breaks_before in *. rewrite filter_cons. case Nat.ltb_spec; intros Hlt.
  - rewrite decide_True by done. cbn [length take drop]. rewrite IH1, IH2. split_and!; [done|done|].
    rewrite <- IH3. unfold breaks_from. by rewrite filter_cons_False by lia.
  - rewrite decide_False by lia.
    assert (Hnil : filter (fun b => b < p) bs = []).
    { apply (breaks_before_nil p bs). eapply Forall_impl; [exact Hb|]. cbn. lia. }
    rewrite Hnil. split_and!; [done|done|]. rewrite Hnil in IH3. cbn [length drop] in *.
    unfold breaks_from in *. rewrite filter_cons_True by lia.
    rewrite fmap_cons, shift_breaks_cons, IH3. f_equal. lia.
Qed.

Lemma breaks_before_sorted p bs : StronglySorted lt bs -> StronglySorted lt (breaks_before p bs).
Proof.
  induction 1 as [|b bs _ IH Hb]; [constructor|]. unfold breaks_before in *. rewrite filter_cons.
  case_decide; [|done]. constructor; [done|]. rewrite Forall_forall in *.
  intros x Hx. apply list_elem_of_filter in Hx as [_ Hx]. auto.
Qed.

Lemma breaks_window bs i j :
  StronglySorted lt bs -> i <= j ->
  slice_get bs (partition_point (fun b => b <? i) bs) (partition_point (fun b => b <? j) bs)
  = Some (shift_breaks i (breaks_from i (breaks_before j bs))).
Proof.
  intros Hs Hij. destruct (partition_point_sorted i bs Hs) as (-> & _ & _).
  destruct (partition_point_sorted j bs Hs) as (-> & Ht & _).
  destruct (partition_point_sorted i (breaks_before j bs)) as (_ & Hti & Hd);
    [by apply breaks_before_sorted|].
  rewrite breaks_before_before, Nat.min_l in Hti, Hd by done.
  assert (length (breaks_before i bs) <= length (breaks_before j bs)).
  { rewrite <- Hti, length_take. lia. }
  assert (length (breaks_before j bs) <= length bs) by (rewrite <- Ht, length_take; lia).
  unfold slice_get, slice. rewrite Ht, Hd.
  by rewrite (proj2 (Nat.leb_le _ _)), (proj2 (Nat.leb_le _ _)).
Qed.

(** ** Valid chunks *)

Definition chunk_of (s : bytes) (i j : nat) : TextChunk :=
  chunk_from_storage s (text_breaks s) (bytes_is_ascii s) i j.

Definition window_ok (s : bytes) (i j : nat) : Prop :=
  valid_utf8 s /\ i < j <= length s
  /\ str_is_char_boundary s i = true /\ str_is_char_boundary s j = true.

Definition chunk_ok (c : TextChunk) : Prop :=
  c = chunk_of (storage c) (chunk_start c) (chunk_end c)
  /\ window_ok (storage c) (chunk_start c) (chunk_end c).

Definition chunk_content (c : TextChunk) : bytes := slice (chunk_start c) (chunk_end c) (storage c).

Definition chunk_breaks (c : TextChunk) : list nat :=
  (fun b => b - chunk_start c) <$> chunk_line_breaks c.

Lemma chunk_of_fields s i j :
  window_ok s i j ->
  storage (chunk_of s i j) = s /\ chunk_start (chunk_of s i j) = i /\ chunk_end (chunk_of s i j) = j.
Proof. intros (_ & Hij & _). cbn. split_and!; [done|lia|lia]. Qed.

Lemma chunk_of_ok s i j : window_ok s i j -> chunk_ok (chunk_of s i j).
Proof.
  intros Hw. destruct (chunk_of_fields s i j Hw) as (E1 & E2 & E3).
  unfold chunk_ok. by rewrite E1, E2, E3.
Qed.

(** The break list of a window, from the break list of the whole string. *)
Lemma breaks_in_window s i j :
  i <= j <= length s ->
  breaks_from i (breaks_before j (text_breaks s)) = breaks_in (s !! j) (slice i j s).
Proof.
  intros Hij. unfold text_breaks. rewrite <- (take_drop j s) at 1.
  rewrite breaks_in_app, breaks_before_app, breaks_before_shift, length_take_le by lia.
  rewrite Nat.sub_diag, breaks_before_0. cbn [shift_breaks fmap list_fmap]. rewrite app_nil_r.
  assert (head_or None (drop j s) = s !! j) as ->.
  { rewrite <- (Nat.add_0_r j) at 2. rewrite <- lookup_drop. by destruct (drop j s). }
  rewrite breaks_before_all
    by (eapply breaks_bounded_weaken, breaks_in_bounded; rewrite length_take; lia).
  unfold slice. rewrite <- (take_drop i (take j s)) at 1.
  rewrite breaks_in_app, breaks_from_app, breaks_from_shift, length_take_le
    by (rewrite ?length_take; lia).
  rewrite Nat.sub_diag, shift_breaks_0, breaks_from_all; [done|].
  eapply breaks_bounded_weaken, breaks_in_bounded. rewrite !length_take. lia.
Qed.

Lemma chunk_line_breaks_eq s i j :
  window_ok s i j ->
  chunk_line_breaks (chunk_of s i j) = shift_breaks i (breaks_in (s !! j) (slice i j s)).
Proof.
  intros Hw. destruct Hw as (_ & Hij & _). unfold chunk_line_breaks, chunk_of, chunk_from_storage. cbn.
  rewrite (Nat.min_l i), (Nat.min_l j), (Nat.max_l j) by lia.
  rewrite breaks_window by (apply breaks_in_sorted || lia). cbn. by rewrite breaks_in_window by lia.
Qed.

Lemma unshift_breaks i bs : (fun b => b - i) <$> shift_breaks i bs = bs.
Proof.
  unfold shift_breaks. rewrite <- list_fmap_compose. rewrite <- (list_fmap_id bs) at 2.
  apply list_fmap_ext. intros; cbn; lia.
Qed.

Lemma chunk_breaks_eq s i j :
  window_ok s i j -> chunk_breaks (chunk_of s i j) = breaks_in (s !! j) (slice i j s).
Proof.
  intros Hw. unfold chunk_breaks. rewrite chunk_line_breaks_eq by done.
  destruct (chunk_of_fields s i j Hw) as (_ & -> & _). apply unshift_breaks.
Qed.

Lemma chunk_content_eq s i j : window_ok s i j -> chunk_content (chunk_of s i j) = slice i j s.
Proof.
  intros Hw. unfold chunk_content. by destruct (chunk_of_fields s i j Hw) as (-> & -> & ->).
Qed.

Lemma chunk_str_get c :
  chunk_ok c -> str_get (storage c) (chunk_start c) (chunk_end c) = Some (chunk_content c).
Proof. intros (_ & _ & Hij & Hi & Hj). by rewrite str_get_boundaries by (done || lia). Qed.

Lemma chunk_as_str_eq c : chunk_ok c -> chunk_as_str c = chunk_content c.
Proof. intros Hc. unfold chunk_as_str. by rewrite chunk_str_get. Qed.

Lemma chunks_as_str cs : Forall chunk_ok cs -> chunk_as_str <$> cs = chunk_content <$> cs.
Proof. intros Hcs. induction Hcs as [|c cs Hc _ IH]; [done|]. cbn. f_equal; [by apply chunk_as_str_eq|done]. Qed.

Lemma chunk_content_valid c : chunk_ok c -> valid_utf8 (chunk_content c).
Proof. intros (_ & Hv & Hij & Hi & Hj). apply valid_utf8_slice; auto; lia. Qed.

Lemma chunk_len_eq c : chunk_ok c -> chunk_len c = length (chunk_content c).
Proof.
  intros (_ & _ & Hij & _). unfold chunk_len, chunk_content. rewrite length_slice. lia.
Qed.

(** Every valid chunk is given by its window. *)
Lemma chunk_ok_inv c :
  chunk_ok c -> exists s i j, window_ok s i j /\ c = chunk_of s i j.
Proof. intros [E Hw]. by eexists _, _, _. Qed.

(** ** Cutting a string into chunks *)

Lemma step_back_ok s start end_ :
  start <= end_ -> end_ <= length s -> str_is_char_boundary s start = true ->
  start <= step_back s start end_ <= end_
  /\ str_is_char_boundary s (step_back s start end_) = true
  /\ (forall j, start < j <= end_ -> str_is_char_boundary s j = true -> j <= step_back s start end_).
Proof.
  intros Hle Hlen Hb. induction end_ as [|e IH]; cbn [step_back].
  - split_and!; [lia|lia|done|lia].
  - case Nat.ltb_spec; intros Hlt; cbn [andb].
    + destruct (str_is_char_boundary s (S e)) eqn:E; cbn [negb].
      * split_and!; [lia|lia|done|lia].
      * destruct IH as ([? ?] & ? & IH); [lia|lia|]. split_and!; [lia|lia|done|].
        intros j Hj Hbj. apply IH; [|done]. destruct (decide (j = S e)) as [->|]; [congruence|lia].
    + assert (start = S e) as -> by lia. split_and!; [lia|lia|done|lia].
Qed.

Lemma text_chunk_target_ge : 4 <= TEXT_CHUNK_TARGET_BYTES.
Proof. unfold TEXT_CHUNK_TARGET_BYTES. lia. Qed.

(** A cut at [i] of [s] does not part a carriage return from its line feed. *)
Definition crlf_cut (s : bytes) (i : nat) : Prop :=
  glue_lists crlf_glue (take i s) (drop i s).

Lemma crlf_cut_iff s i :
  0 < i <= length s -> crlf_cut s i <-> ~ (s !! (i - 1) = Some CR /\ s !! i = Some LF).
Proof.
  intros Hi. unfold crlf_cut, glue_lists, crlf_glue.
  assert (Hl : last (take i s) = s !! (i - 1)).
  { rewrite last_lookup, length_take_le, lookup_take_lt by lia. f_equal. lia. }
  assert (Hh : head (drop i s) = s !! i).
  { rewrite <- (Nat.add_0_r i) at 2. rewrite <- lookup_drop. by destruct (drop i s). }
  rewrite Hl, Hh. split.
  - intros Hg [E1 E2]. by specialize (Hg _ _ E1 E2).
  - intros Hn x y E1 E2. destruct (N.eqb_spec x CR) as [->|]; [|done].
    destruct (N.eqb_spec y LF) as [->|]; [|done]. by destruct Hn.
Qed.

Lemma next_chunk_end_ok s start :
  valid_utf8 s -> start < length s -> str_is_char_boundary s start = true ->
  let end_ := next_chunk_end s start in
  window_ok s start end_ /\ crlf_cut s end_ /\ end_ <= start + TEXT_CHUNK_TARGET_BYTES + 1.
Proof.
  intros Hv Hs Hb. unfold next_chunk_end. pose proof text_chunk_target_ge as HT.
  set (e0 := Nat.min _ _). destruct (step_back_ok s start e0) as ([Hlo Hhi] & Hbe & Hmax);
    [subst e0; lia|subst e0; lia|done|].
  set (e := step_back s start e0) in *.
  assert (Hgt : start < e).
  { destruct (boundary_within s start Hv Hs Hb) as (j & Hj & Hbj).
    destruct (boundary_cases s j Hbj) as [Hjl _]. pose proof (Hmax j ltac:(lia) Hbj). lia. }
  destruct (Nat.eqb_spec e start); [lia|]. assert (Hel : e <= length s) by (subst e0; lia).
  case Nat.ltb_spec; intros Hlt; cbn [andb].
  - case_bool_decide as E1; cbn [andb]; [case_bool_decide as E2|].
    + split_and!; [split_and!; auto; try lia| |subst e0; lia].
      * rewrite Nat.add_1_r. by eapply boundary_after_ascii.
      * apply crlf_cut_iff; [lia|]. rewrite Nat.add_sub, E2. by intros [? _].
    + split_and!; [split_and!; auto; lia|apply crlf_cut_iff; [lia|tauto]|subst e0; lia].
    + split_and!; [split_and!; auto; lia|apply crlf_cut_iff; [lia|tauto]|subst e0; lia].
  - split_and!; [split_and!; auto; lia| |subst e0; lia].
    apply crlf_cut_iff; [lia|]. rewrite (lookup_ge_None_2 s e) by lia. by intros [_ ?].
Qed.

Definition chunk_exact (c : TextChunk) : Prop := chunk_breaks c = text_breaks (chunk_content c).

Lemma chunk_of_exact s i j :
  window_ok s i j -> chunk_exact (chunk_of s i j) <-> crlf_cut s j.
Proof.
  intros Hw. destruct (Hw) as (_ & Hij & _). unfold chunk_exact.
  rewrite chunk_breaks_eq, chunk_content_eq, breaks_in_next, crlf_cut_iff by (done || lia).
  unfold slice. rewrite last_lookup, lookup_drop, length_drop, length_take.
  replace (i + Nat.pred (Nat.min j (length s) - i)) with (j - 1) by lia.
  by rewrite lookup_take_lt by lia.
Qed.

Lemma split_chunks_loop_ok fuel s start :
  valid_utf8 s -> start <= length s -> str_is_char_boundary s start = true ->
  length s - start <= fuel ->
  let cs := split_chunks_loop fuel s (text_breaks s) (bytes_is_ascii s) start in
  Forall chunk_ok cs /\ concat (chunk_content <$> cs) = drop start s
  /\ Forall chunk_exact cs /\ glued chunk_content crlf_glue cs
  /\ Forall (fun c => chunk_len c <= TEXT_CHUNK_TARGET_BYTES + 1) cs.
Proof.
  intros Hv. revert start. induction fuel as [|fuel IH]; intros start Hs Hb Hf cs; subst cs;
    cbn [split_chunks_loop].
  { split_and!; try constructor. by rewrite drop_ge by lia. }
  case Nat.ltb_spec; intros Hlt; [|split_and!; try constructor; by rewrite drop_ge by lia].
  destruct (next_chunk_end_ok s start Hv Hlt Hb) as (Hw & Hcut & Hlen).
  set (e := next_chunk_end s start) in *. destruct (Hw) as (_ & He & _ & Hbe).
  destruct (IH e) as (F & C & X & G & B); [lia|done|lia|]. clear IH.
  change (chunk_from_storage s _ _ start e) with (chunk_of s start e).
  split_and!; try constructor; auto.
  - by apply chunk_of_ok.
  - rewrite fmap_cons. cbn [concat]. rewrite C, chunk_content_eq by done. apply slice_drop. lia.
  - by apply chunk_of_exact.
  - rewrite C, chunk_content_eq by done. intros x y Hx Hy. apply (Hcut x y); [|done].
    unfold slice in Hx. rewrite <- (take_drop start (take e s)), last_app. by rewrite Hx.
  - unfold chunk_len. destruct (chunk_of_fields s start e Hw) as (_ & -> & ->). lia.
Qed.

Lemma split_text_chunks_ok s :
  valid_utf8 s ->
  let cs := split_text_chunks_from_storage s in
  Forall chunk_ok cs /\ concat (chunk_content <$> cs) = s
  /\ Forall chunk_exact cs /\ glued chunk_content crlf_glue cs
  /\ Forall (fun c => chunk_len c <= TEXT_CHUNK_TARGET_BYTES + 1) cs.
Proof.
  intros Hv. destruct s as [|b s]; [split_and!; constructor|].
  unfold split_text_chunks_from_storage. rewrite metadata_eq.
  apply (split_chunks_loop_ok (length (b :: s)) (b :: s) 0); [done|lia|done|lia].
Qed.

(** ** The laws of the leaves *)

Section ChunkLaws.
Context `{!ArcPtrEq bytes} `{!ArcPtrEq (list nat)}.

Lemma chunk_secondary_len_eq c : chunk_ok c -> chunk_secondary_len c = length (chunk_breaks c).
Proof.
  intros (s & i & j & Hw & ->)%chunk_ok_inv. unfold chunk_breaks. rewrite length_fmap.
  destruct Hw as (_ & Hij & _).
  unfold chunk_line_breaks, chunk_secondary_len, chunk_of, chunk_from_storage. cbn.
  rewrite (Nat.min_l i), (Nat.min_l j), (Nat.max_l j) by lia.
  pose proof (breaks_in_sorted None s) as Hs. unfold slice_get.
  destruct (partition_point_sorted j (text_breaks s) Hs) as (Hpj & Htj & _).
  assert (partition_point (fun b => b <? j) (text_breaks s) <= length (text_breaks s)).
  { rewrite Hpj, <- Htj, length_take. lia. }
  pose proof (breaks_window (text_breaks s) i j Hs ltac:(lia)) as Hwin. unfold slice_get in Hwin.
  destruct (_ && _); [|done]. cbn. rewrite length_slice. lia.
Qed.

Lemma chunk_count_before_eq c p :
  chunk_ok c -> p <= length (chunk_content c) ->
  chunk_secondary_count_before c p = length (breaks_before p (chunk_breaks c)).
Proof.
  intros Hok Hp. unfold chunk_secondary_count_before. rewrite (chunk_len_eq c Hok), Nat.min_l by done.
  destruct (chunk_ok_inv c Hok) as (s & i & j & Hw & ->).
  rewrite chunk_line_breaks_eq, chunk_breaks_eq by done.
  destruct (chunk_of_fields s i j Hw) as (_ & -> & _).
  destruct (partition_point_sorted (i + p) (shift_breaks i (breaks_in (s !! j) (slice i j s))))
    as (-> & _); [apply shift_breaks_sorted, breaks_in_sorted|].
  rewrite breaks_before_shift. unfold shift_breaks. rewrite length_fmap. f_equal. f_equal. lia.
Qed.

Lemma window_split s i j p :
  window_ok s i j -> 0 < p < j - i ->
  (forall b, slice i j s !! p = Some b -> starts_char b = true) ->
  window_ok s i (i + p) /\ window_ok s (i + p) j.
Proof.
  intros (Hv & Hij & Hi & Hj) Hp Hcut.
  assert (str_is_char_boundary s (i + p) = true).
  { apply boundary_intro; [lia|]. intros b Hb. apply Hcut. unfold slice.
    by rewrite lookup_drop, lookup_take_lt by lia. }
  split; unfold window_ok; split_and!; auto; lia.
Qed.

Lemma chunk_split_parts c p :
  chunk_ok c -> 0 < p < length (chunk_content c) ->
  (forall b, chunk_content c !! p = Some b -> starts_char b = true) ->
  exists x y, chunk_split_at c p = (Some x, Some y) /\ chunk_ok x /\ chunk_ok y
    /\ chunk_content x = take p (chunk_content c) /\ chunk_content y = drop p (chunk_content c)
    /\ chunk_breaks x = breaks_before p (chunk_breaks c)
    /\ chunk_breaks y = breaks_from p (chunk_breaks c).
Proof.
  intros Hok Hp Hcut. rewrite <- (chunk_len_eq c Hok) in Hp. unfold chunk_split_at, chunk_len in *.
  destruct (chunk_ok_inv c Hok) as (s & i & j & Hw & ->). rewrite chunk_content_eq in Hcut by done.
  destruct (chunk_of_fields s i j Hw) as (-> & E2 & E3). rewrite E2, E3 in *.
  destruct (window_split s i j p Hw Hp Hcut) as [W1 W2]. destruct (Hw) as (_ & Hij & _).
  rewrite !(Nat.min_l p), !(Nat.min_l (i + p)) by lia.
  rewrite (proj2 (Nat.ltb_lt i (i + p))), (proj2 (Nat.ltb_lt (i + p) j)) by lia.
  exists (chunk_of s i (i + p)), (chunk_of s (i + p) j).
  rewrite !chunk_content_eq, !chunk_breaks_eq by done. split_and!; [done|by apply chunk_of_ok..| | | |].
  - rewrite <- (drop_0 (take p _)). change (drop 0 (take p ?l)) with (slice 0 p l).
    rewrite slice_slice by lia. by rewrite Nat.add_0_r.
  - unfold slice. by rewrite drop_drop.
  - rewrite <- !breaks_in_window, breaks_before_from, breaks_before_before by lia.
    by rewrite Nat.min_l by lia.
  - by rewrite <- !breaks_in_window, breaks_from_from by lia.
Qed.

Lemma window_merge s i j k :
  window_ok s i j -> window_ok s j k ->
  window_ok s i k /\ slice i k s = slice i j s ++ slice j k s.
Proof.
  intros (Hv & Hij & Hi & _) (_ & Hjk & _ & Hk). split; [split_and!; auto; lia|].
  apply slice_join. lia.
Qed.

(** What [rechunk_pair] returns. *)
Lemma chunk_rechunk_cases a b :
  chunk_ok a -> chunk_ok b ->
  (exists s i j k, window_ok s i j /\ window_ok s j k /\ a = chunk_of s i j /\ b = chunk_of s j k
     /\ chunk_rechunk_pair a b = [chunk_of s i k])
  \/ (chunk_rechunk_pair a b = [a; b]
      /\ glue_lists crlf_glue (chunk_content a) (chunk_content b))
  \/ chunk_rechunk_pair a b
     = split_text_chunks_from_storage (chunk_content a ++ chunk_content b).
Proof.
  intros Ha Hb. unfold chunk_rechunk_pair. destruct (ptr_eq _ _ && _ && _) eqn:E.
  - left. apply andb_true_iff in E as [E E3%Nat.eqb_eq]. apply andb_true_iff in E as [E1 _].
    apply ptr_eq_sound in E1. destruct Ha as [Ea Wa], Hb as [Eb Wb]. rewrite <- E1, <- E3 in Eb, Wb.
    eexists _, _, _, _. split_and!; [exact Wa|exact Wb|exact Ea|exact Eb|]. f_equal.
    rewrite Ea at 2 3. done.
  - right. rewrite !chunk_as_str_eq by done.
    destruct (bool_decide (last _ = _) && _) eqn:Ej; cbn [negb andb]; [by right|].
    assert (Hg : glue_lists crlf_glue (chunk_content a) (chunk_content b)).
    { intros x y Hx Hy. unfold crlf_glue. destruct (N.eqb_spec x CR) as [->|]; [|done].
      destruct (N.eqb_spec y LF) as [->|]; [|done].
      by rewrite Hx, Hy, !bool_decide_true in Ej by done. }
    case_match; [by left|]. case_match; [by left|by right].
Qed.

#[export] Instance TextChunk_laws : LeafLaws chunk_content chunk_breaks starts_char chunk_ok.
Proof.
  split.
  - apply chunk_len_eq.
  - intros c (_ & _ & Hij & _). unfold chunk_content. rewrite length_slice. lia.
  - apply chunk_secondary_len_eq.
  - intros c Hok. destruct (chunk_ok_inv c Hok) as (s & i & j & Hw & ->).
    rewrite chunk_breaks_eq, chunk_content_eq by done. apply breaks_in_bounded.
  - apply chunk_count_before_eq.
  - intros c k _. cbn. unfold chunk_secondary_position, chunk_breaks. by rewrite list_lookup_fmap.
  - apply chunk_split_parts.
  - intros a b Ha Hb. cbn.
    destruct (chunk_rechunk_cases a b Ha Hb) as
      [(s & i & j & k & W1 & W2 & -> & -> & ->)| [[-> _]| -> ]].
    + destruct (window_merge s i j k W1 W2) as [W E]. split; [constructor; [by apply chunk_of_ok|done]|].
      cbn [fmap list_fmap concat]. by rewrite app_nil_r, !chunk_content_eq.
    + split; [by rewrite Forall_cons, Forall_singleton|]. cbn. by rewrite app_nil_r.
    + destruct (split_text_chunks_ok (chunk_content a ++ chunk_content b)) as (? & ? & _); [|done].
      by apply valid_utf8_app; apply chunk_content_valid.
Qed.

#[export] Instance TextChunk_breaks :
  BreakLaws chunk_content chunk_breaks chunk_ok text_breaks crlf_glue.
Proof.
  split.
  - done.
  - apply breaks_in_bounded.
  - apply text_breaks_app.
  - intros a b Ha Hb Xa Xb. cbn.
    destruct (chunk_rechunk_cases a b Ha Hb) as
      [(s & i & j & k & W1 & W2 & -> & -> & ->)| [[-> Hg]| -> ]].
    + destruct (window_merge s i j k W1 W2) as [W _]. split.
      * constructor; [|done]. apply chunk_of_exact; [done|]. by apply (chunk_of_exact s j k).
      * split; [by intros ? ? ? ?|done].
    + split; [by rewrite Forall_cons, Forall_singleton|]. split; [cbn; by rewrite app_nil_r|].
      split; [by intros ? ? ? ?|done].
    + destruct (split_text_chunks_ok (chunk_content a ++ chunk_content b)) as (_ & _ & ? & ? & _); [|done].
      by apply valid_utf8_app; apply chunk_content_valid.
Qed.
End ChunkLaws.
