(* ===== verification/TextSpec.v ===== *)
(** * The text rope implements a string

    [text_content] is the abstract value of a rope, [text_ok] its invariant.
    Against the flat string: lookups, slices, comparisons and edits; the line
    queries against the line breaks of the flat string; and the same through
    any history of edits. *)
From Stdlib Require Import Sorted.
From S2P Require Import Prelude RustStr Utf8 Rope RopeLaws TextRope TextLaws.

#[local] Arguments Nat.ltb : simpl never.
#[local] Arguments Nat.leb : simpl never.

(** [str::floor_char_boundary]: the last character boundary up to [p]. *)
Fixpoint floor_loop (s : bytes) (p : nat) : nat :=
  match p with
  | 0 => 0
  | S before => if str_is_char_boundary s p then p else floor_loop s before
  end.

Definition floor_boundary (s : bytes) (p : nat) : nat := floor_loop s (Nat.min p (length s)).

(** The edit on a flat string. *)
Definition spec_replace (s : bytes) (start end_ : nat) (inserted : bytes) : bytes * bool :=
  let start := floor_boundary s start in
  let end_ := floor_boundary s end_ in
  if end_ <? start then (s, false) else (take start s ++ inserted ++ drop end_ s, true).

Lemma floor_loop_ok s p :
  p <= length s ->
  floor_loop s p <= p /\ str_is_char_boundary s (floor_loop s p) = true
  /\ forall q, q <= p -> str_is_char_boundary s q = true -> q <= floor_loop s p.
Proof.
  induction p as [|p IH]; intros Hp; cbn [floor_loop]; [by split_and!; auto|].
  destruct (str_is_char_boundary s (S p)) eqn:E; [by split_and!; auto|].
  destruct IH as (? & ? & IH); [lia|]. split_and!; [lia|done|].
  intros q Hq Hb. apply IH; [|done]. destruct (decide (q = S p)) as [->|]; [congruence|lia].
Qed.

Lemma floor_boundary_ok s p :
  floor_boundary s p <= Nat.min p (length s) /\ str_is_char_boundary s (floor_boundary s p) = true
  /\ forall q, q <= p -> str_is_char_boundary s q = true -> q <= floor_boundary s p.
Proof.
  destruct (floor_loop_ok s (Nat.min p (length s))) as (? & ? & Hm); [lia|].
  split_and!; [done|done|]. intros q Hq Hb. apply Hm; [|done]. apply boundary_cases in Hb. lia.
Qed.

Lemma floor_boundary_id s p : str_is_char_boundary s p = true -> floor_boundary s p = p.
Proof.
  intros Hb. destruct (floor_boundary_ok s p) as (? & _ & Hm). specialize (Hm p (le_n p) Hb). lia.
Qed.

Lemma floor_boundary_mono s p q : p <= q -> floor_boundary s p <= floor_boundary s q.
Proof.
  intros Hpq. destruct (floor_boundary_ok s p) as (? & ? & _), (floor_boundary_ok s q) as (_ & _ & Hm).
  apply Hm; [lia|done].
Qed.

Lemma floor_boundary_min s p : floor_boundary s (Nat.min p (length s)) = floor_boundary s p.
Proof. unfold floor_boundary. f_equal. lia. Qed.

(** The arguments of [replace_range]. *)
Abbreviation edit := (nat * nat * bytes)%type (only parsing).

Section Text.
Context `{!ArcPtrEq bytes} `{!ArcPtrEq (list nat)}.
Implicit Types (t : ChunkedText) (s : bytes).

Definition text_content t : bytes := seq_content (content := chunk_content) t.
Definition text_ok t : Prop := seq_ok (leaf_ok := chunk_ok) t.
Definition cached_breaks t : list nat :=
  seq_breaks (content := chunk_content) (breaks := chunk_breaks) t.

(** The cached line breaks are those of the text. *)
Definition text_exact t : Prop :=
  seq_exact (content := chunk_content) (breaks := chunk_breaks)
    (measure := text_breaks) (glue := crlf_glue) t.

Lemma text_len_eq t : text_ok t -> text_len t = length (text_content t).
Proof. apply seq_len_content. Qed.

Lemma text_content_valid t : text_ok t -> valid_utf8 (text_content t).
Proof.
  intros Ht. apply seq_ok_leaves in Ht. unfold text_content, seq_content, leaves_content.
  induction Ht as [|c cs Hc _ IH]; [apply valid_utf8_nil|]. cbn.
  apply valid_utf8_app; [by apply chunk_content_valid|done].
Qed.

Lemma text_byte_at_eq t p : text_ok t -> text_byte_at t p = text_content t !! p.
Proof.
  intros Ht. unfold text_byte_at. pose proof (seq_locate_ok t p Ht) as Hl.
  destruct (seq_locate t p) as [[c k]|].
  - destruct Hl as (Hc & _ & E). unfold text_content. rewrite E. by rewrite chunk_as_str_eq.
  - symmetry. by apply lookup_ge_None_2.
Qed.

Lemma text_is_char_boundary_eq t p :
  text_ok t -> text_is_char_boundary t p = str_is_char_boundary (text_content t) p.
Proof.
  intros Ht. unfold text_is_char_boundary, str_is_char_boundary.
  rewrite (text_byte_at_eq t p Ht), (text_len_eq t Ht).
  destruct (Nat.eqb_spec p 0) as [->|Hp]; [done|]. cbn [orb].
  destruct (Nat.eqb_spec p (length (text_content t))) as [->|Hl].
  - by rewrite lookup_ge_None_2.
  - done.
Qed.

Lemma clamp_boundary_eq t p : text_ok t -> clamp_boundary t p = floor_boundary (text_content t) p.
Proof.
  intros Ht. unfold clamp_boundary, floor_boundary. rewrite (text_len_eq t Ht).
  induction (Nat.min p _) as [|q IH]; [done|]. cbn [clamp_loop floor_loop].
  rewrite (text_is_char_boundary_eq t _ Ht), IH. by destruct (str_is_char_boundary _ _).
Qed.

(** Both ends of a range, as every method clamps them. *)
Lemma clamp_min_eq t p :
  text_ok t -> clamp_boundary t (Nat.min p (text_len t)) = floor_boundary (text_content t) p.
Proof. intros Ht. rewrite clamp_boundary_eq, text_len_eq by done. apply floor_boundary_min. Qed.

Lemma cut_ok_boundary t p :
  text_ok t -> str_is_char_boundary (text_content t) p = true ->
  cut_ok (starts := starts_char) p (text_content t).
Proof.
  intros Ht Hb. destruct (boundary_cases _ _ Hb) as [Hle _].
  exact (proj1 (boundary_iff _ _ (text_content_valid t Ht) Hle) Hb).
Qed.

Lemma text_from_string_ok s :
  valid_utf8 s ->
  text_ok (text_from_string s) /\ text_content (text_from_string s) = s
  /\ text_exact (text_from_string s).
Proof.
  intros Hv. destruct (split_text_chunks_ok s Hv) as (F & C & X & G & _).
  destruct (build_balanced_ok _ F) as (Hok & Hl & _).
  unfold text_content, text_exact, seq_exact, seq_content, text_from_string, seq_from_leaves,
    split_text_chunks_from_string. rewrite Hl. done.
Qed.

(** ** Reading *)

(** The visits of a range between boundaries. *)
Definition visit_text_ok (v : TextChunk * nat * nat) : Prop :=
  let '(c, i, j) := v in
  chunk_ok c /\ i < j <= length (chunk_content c)
  /\ str_get (chunk_as_str c) i j = Some (slice i j (chunk_content c)).

Lemma visit_range_text_ok t i j :
  text_ok t -> i <= j ->
  str_is_char_boundary (text_content t) i = true -> str_is_char_boundary (text_content t) j = true ->
  Forall visit_text_ok (seq_visit_range t i j)
  /\ visited_content (content := chunk_content) (seq_visit_range t i j) = slice i j (text_content t).
Proof.
  intros Ht Hij Hi Hj. destruct (seq_visit_range_ok t i j Ht) as [Hv E]. split; [|done].
  pose proof (seq_visit_range_cuts t i j Ht) as Hc.
  destruct (boundary_cases _ _ Hj) as [Hle _]. rewrite <- (text_len_eq t Ht) in Hle.
  specialize (Hc (conj Hij Hle) (cut_ok_boundary t i Ht Hi) (cut_ok_boundary t j Ht Hj)).
  rewrite Forall_forall in *. intros [[c a] b] Hin.
  destruct (Hv _ Hin) as [Hok Hab], (Hc _ Hin) as [Ha Hb]. split_and!; [done|lia|lia|].
  rewrite chunk_as_str_eq by done. apply str_get_boundaries; [lia| |].
  - destruct Ha as [->|Ha]; [done|]. apply boundary_intro; [lia|done].
  - apply boundary_intro; [lia|done].
Qed.

Lemma push_visited_ok vs acc :
  Forall visit_text_ok vs ->
  foldl push_visited acc vs = (acc.1 ++ visited_content (content := chunk_content) vs, acc.2).
Proof.
  intros Hv. revert acc. induction Hv as [|[[c i] j] vs (_ & _ & E) _ IH]; intros [r v]; cbn [foldl].
  - cbn. by rewrite app_nil_r.
  - rewrite IH. cbn [push_visited]. rewrite E. unfold visited_content. cbn. by rewrite app_assoc.
Qed.

Lemma range_string_eq t i j :
  text_ok t ->
  range_string t i j
  = Some (slice (floor_boundary (text_content t) i) (floor_boundary (text_content t) j) (text_content t)).
Proof.
  intros Ht. unfold range_string. rewrite !(clamp_min_eq t _ Ht).
  destruct (floor_boundary_ok (text_content t) i) as (Hi & Bi & _).
  destruct (floor_boundary_ok (text_content t) j) as (Hj & Bj & _).
  case Nat.ltb_spec; intros Hlt; [by rewrite slice_nil by lia|].
  destruct (visit_range_text_ok t _ _ Ht Hlt Bi Bj) as [Hv E].
  rewrite push_visited_ok, E by done. cbn.
  by rewrite length_slice, Nat.min_l, Nat.eqb_refl by lia.
Qed.

Lemma to_flat_string_eq t : text_ok t -> to_flat_string t = text_content t.
Proof.
  intros Ht. unfold to_flat_string. rewrite range_string_eq, (text_len_eq t Ht) by done.
  rewrite !floor_boundary_id by (apply boundary_0 || apply boundary_end). apply slice_full.
Qed.

Lemma leaves_content_valid cs :
  Forall chunk_ok cs -> valid_utf8 (leaves_content (content := chunk_content) cs).
Proof.
  induction 1 as [|c cs Hc _ IH]; [apply valid_utf8_nil|]. rewrite leaves_content_cons.
  apply valid_utf8_app; [by apply chunk_content_valid|done].
Qed.

Lemma match_leaf_false other cs offset :
  foldl (match_leaf other) (false, offset) cs = (false, offset).
Proof. induction cs; done. Qed.

Lemma match_leaf_sound other cs offset end_ :
  Forall chunk_ok cs ->
  foldl (match_leaf other) (true, offset) cs = (true, end_) ->
  take offset other ++ leaves_content (content := chunk_content) cs = take end_ other.
Proof.
  intros Hcs. revert offset. induction Hcs as [|c cs Hc _ IH]; intros offset; cbn [foldl].
  - intros [= ->]. apply app_nil_r.
  - cbn [match_leaf]. case_bool_decide as E; [|by rewrite match_leaf_false].
    intros Hf. apply IH in Hf as <-. rewrite leaves_content_cons, app_assoc. f_equal.
    rewrite (chunk_as_str_eq c Hc) in E. unfold str_get in E. destruct (_ && _ && _); [|done].
    injection E as <-. apply slice_take. lia.
Qed.

Lemma match_leaf_complete other cs offset :
  Forall chunk_ok cs -> offset <= length other ->
  drop offset other = leaves_content (content := chunk_content) cs ->
  foldl (match_leaf other) (true, offset) cs = (true, length other).
Proof.
  intros Hcs. revert offset. induction Hcs as [|c cs Hc Hcs IH]; intros offset Ho E; cbn [foldl].
  - assert (length (drop offset other) = 0) as Hl by (by rewrite E).
    rewrite length_drop in Hl. f_equal. lia.
  - rewrite leaves_content_cons in E. pose proof (chunk_len_eq c Hc) as Hlen.
    assert (Hl : length other - offset = chunk_len c + length (leaves_content (content := chunk_content) cs)).
    { by rewrite Hlen, <- length_app, <- E, length_drop. }
    assert (Hnext : drop (offset + chunk_len c) other = leaves_content (content := chunk_content) cs).
    { by rewrite <- drop_drop, E, Hlen, drop_app_length. }
    assert (Hhead : forall b, other !! offset = Some b -> starts_char b = true).
    { intros b Hb. apply (valid_utf8_head (drop offset other)); [|by rewrite lookup_drop, Nat.add_0_r].
      rewrite E. apply valid_utf8_app; [by apply chunk_content_valid|by apply leaves_content_valid]. }
    cbn [match_leaf]. rewrite chunk_as_str_eq, str_get_boundaries by first
      [done|lia|by apply boundary_intro
      |apply boundary_intro; [lia|]; intros b Hb;
       apply (valid_utf8_head (drop (offset + chunk_len c) other));
       [rewrite Hnext; by apply leaves_content_valid|by rewrite lookup_drop, Nat.add_0_r]].
    rewrite bool_decide_true; [by apply IH; [lia|]|].
    f_equal. unfold slice. rewrite <- take_drop_commute, E, Hlen. by rewrite take_app_length.
Qed.

Lemma matches_str_eq t other :
  text_ok t -> matches_str t other = bool_decide (text_content t = other).
Proof.
  intros Ht. unfold matches_str. rewrite (text_len_eq t Ht). pose proof (seq_ok_leaves _ Ht) as Hcs.
  case_bool_decide as E.
  - subst other. rewrite Nat.eqb_refl. cbn [negb].
    rewrite (match_leaf_complete (text_content t)) by first [done|lia|by rewrite drop_0].
    by rewrite Nat.eqb_refl.
  - destruct (Nat.eqb_spec (length (text_content t)) (length other)) as [Hl|]; [|done]. cbn [negb].
    destruct (foldl _ _ _) as [m o] eqn:Ef. destruct m; [|done]. cbn [andb].
    destruct (Nat.eqb_spec o (length other)) as [->|]; [|done].
    apply match_leaf_sound in Ef; [|done]. destruct E. rewrite take_0, take_ge in Ef by done. done.
Qed.

(** ** Editing *)

Lemma replace_range_chunked_ok t i j ins :
  text_ok t -> text_ok ins ->
  text_ok (replace_range_chunked t i j ins).1
  /\ (text_content (replace_range_chunked t i j ins).1, (replace_range_chunked t i j ins).2)
     = spec_replace (text_content t) i j (text_content ins).
Proof.
  intros Ht Hi. unfold replace_range_chunked, spec_replace. rewrite !(clamp_min_eq t _ Ht).
  destruct (floor_boundary_ok (text_content t) i) as (Li & Bi & _).
  destruct (floor_boundary_ok (text_content t) j) as (Lj & Bj & _).
  case Nat.ltb_spec; intros Hlt; [done|]. cbn [fst snd].
  destruct (seq_replace_range_ok (floor_boundary (text_content t) i) (floor_boundary (text_content t) j)
    ins t Ht Hi) as [Hok E]; [fold (text_content t); lia|by apply cut_ok_boundary..|].
  split; [done|]. f_equal. exact E.
Qed.

(** The three editing methods build the inserted rope and splice it in. *)
Lemma replace_range_chunked_eq t i j ins :
  replace_range t i j ins = replace_range_chunked t i j (text_from_string ins)
  /\ replace_range_shared t i j ins = replace_range_chunked t i j (text_from_string ins).
Proof. done. Qed.

Lemma replace_range_ok t i j ins :
  text_ok t -> valid_utf8 ins ->
  text_ok (replace_range t i j ins).1
  /\ (text_content (replace_range t i j ins).1, (replace_range t i j ins).2)
     = spec_replace (text_content t) i j ins.
Proof.
  intros Ht Hv. destruct (text_from_string_ok ins Hv) as (Hi & E & _).
  pose proof (replace_range_chunked_ok t i j _ Ht Hi) as Hr. by rewrite E in Hr.
Qed.

(** An edit whose ends are not inside a CRLF pair keeps the line breaks exact. *)
Lemma replace_range_chunked_exact t i j ins :
  text_ok t -> text_ok ins -> text_exact t -> text_exact ins ->
  crlf_cut (text_content t) (floor_boundary (text_content t) i) ->
  crlf_cut (text_content t) (floor_boundary (text_content t) j) ->
  text_exact (replace_range_chunked t i j ins).1.
Proof.
  intros Ht Hi Et Ei Ci Cj. unfold replace_range_chunked. rewrite !(clamp_min_eq t _ Ht).
  destruct (floor_boundary_ok (text_content t) i) as (Li & Bi & _).
  destruct (floor_boundary_ok (text_content t) j) as (Lj & Bj & _).
  case Nat.ltb_spec; intros Hlt; [done|]. cbn [fst].
  apply (seq_replace_range_exact (starts := starts_char) (leaf_ok := chunk_ok));
    [done|done| |by apply cut_ok_boundary..|done|done|by right|by right]. fold (text_content t). lia.
Qed.

Lemma replace_range_exact t i j ins :
  text_ok t -> valid_utf8 ins -> text_exact t ->
  crlf_cut (text_content t) (floor_boundary (text_content t) i) ->
  crlf_cut (text_content t) (floor_boundary (text_content t) j) ->
  text_exact (replace_range t i j ins).1.
Proof.
  intros Ht Hv Et Ci Cj. destruct (text_from_string_ok ins Hv) as (Hi & _ & Ei).
  by apply replace_range_chunked_exact.
Qed.

Lemma text_slice_ok t i j :
  text_ok t ->
  match text_slice t i j with
  | Some u =>
      text_ok u /\ floor_boundary (text_content t) i <= floor_boundary (text_content t) j
      /\ text_content u
         = slice (floor_boundary (text_content t) i) (floor_boundary (text_content t) j) (text_content t)
  | None => floor_boundary (text_content t) j < floor_boundary (text_content t) i
  end.
Proof.
  intros Ht. unfold text_slice. rewrite !(clamp_min_eq t _ Ht).
  destruct (floor_boundary_ok (text_content t) i) as (Li & Bi & _).
  destruct (floor_boundary_ok (text_content t) j) as (Lj & Bj & _).
  set (a := floor_boundary (text_content t) i) in *. set (b := floor_boundary (text_content t) j) in *.
  case Nat.ltb_spec; intros Hlt; [done|].
  pose proof (split_node_ok t a Ht (cut_ok_boundary t a Ht Bi)) as (_ & H2 & _ & C2 & _).
  destruct (split_node t a) as [lhs tail]. cbn [fst snd] in *.
  pose proof (split_node_ok tail (b - a) H2) as (H3 & _ & C3 & _).
  { rewrite C2. apply cut_ok_drop; [done|]. by apply cut_ok_boundary. }
  destruct (split_node tail (b - a)) as [root rest]. cbn [fst snd] in *.
  split_and!; [done|done|]. unfold text_content, slice. rewrite C3, C2, take_drop_commute.
  by replace (a + (b - a)) with b by lia.
Qed.

(** ** Shared ranges *)

(** While the visitor of [shared_range] is valid, the window it has grown holds
    what was visited. *)
Definition share_ok (vs : list (TextChunk * nat * nat)) (st : SharedRange) : Prop :=
  sh_valid st = true ->
  match sh_storage st with
  | None => vs = []
  | Some s =>
      sh_start st <= sh_end st <= length s
      /\ str_is_char_boundary s (sh_start st) = true /\ str_is_char_boundary s (sh_end st) = true
      /\ slice (sh_start st) (sh_end st) s = visited_content (content := chunk_content) vs
      /\ (sh_ascii st = true -> bytes_is_ascii s = true)
  end.

Lemma visited_content_snoc vs c i j :
  visited_content (content := chunk_content) (vs ++ [(c, i, j)])
  = visited_content (content := chunk_content) vs ++ slice i j (chunk_content c).
Proof. rewrite visited_content_app. unfold visited_content at 2. cbn. by rewrite app_nil_r. Qed.

Lemma visit_window c i j :
  visit_text_ok (c, i, j) ->
  chunk_start c + i <= Nat.min (chunk_start c + j) (chunk_end c) <= length (storage c)
  /\ str_is_char_boundary (storage c) (chunk_start c + i) = true
  /\ str_is_char_boundary (storage c) (Nat.min (chunk_start c + j) (chunk_end c)) = true
  /\ slice (chunk_start c + i) (Nat.min (chunk_start c + j) (chunk_end c)) (storage c)
     = slice i j (chunk_content c)
  /\ storage_is_ascii c = bytes_is_ascii (storage c).
Proof.
  intros (Hc & Hij & E). destruct (Hc) as [Ec (Hv & Hse & Hs & He)].
  assert (Hlen : length (chunk_content c) = chunk_end c - chunk_start c)
    by (by rewrite <- chunk_len_eq).
  rewrite Nat.min_l by lia.
  assert (Hb : forall k, k <= length (chunk_content c) ->
    str_is_char_boundary (chunk_content c) k = true ->
    str_is_char_boundary (storage c) (chunk_start c + k) = true).
  { intros k Hk Hb. destruct (decide (k = length (chunk_content c))) as [->|].
    { rewrite Hlen. by replace (chunk_start c + (chunk_end c - chunk_start c)) with (chunk_end c) by lia. }
    destruct (boundary_cases _ _ Hb) as [_ [->|Hk']]; [by rewrite Nat.add_0_r|].
    apply boundary_intro; [lia|]. intros b Hlb. apply Hk'. unfold chunk_content, slice.
    by rewrite lookup_drop, lookup_take_lt by lia. }
  rewrite chunk_as_str_eq in E by done. unfold str_get in E.
  destruct (_ && _ && _) eqn:G; [|done]. apply andb_true_iff in G as [[_ G1]%andb_true_iff G2].
  split_and!; [lia|lia|apply Hb; [lia|done]|apply Hb; [lia|done]| |by rewrite Ec].
  unfold chunk_content. rewrite slice_slice by lia. done.
Qed.

Lemma share_visit_ok vs st v :
  visit_text_ok v -> share_ok vs st -> share_ok (vs ++ [v]) (share_visit st v).
Proof.
  destruct v as [[c i] j]. intros Hv Hst. pose proof (visit_window c i j Hv) as (Hle & Ba & Bb & E & A).
  unfold share_visit, share_ok in *. destruct (sh_valid st) eqn:Hval; cbn [negb];
    [|by rewrite Hval].
  specialize (Hst eq_refl). destruct (sh_storage st) as [s|] eqn:Es.
  - destruct (ptr_eq s (storage c)) eqn:Ep; cbn [andb]; [|done]. apply ptr_eq_sound in Ep as ->.
    case Nat.eqb_spec; intros Ha; [|done]. intros _. cbn -[slice]. rewrite ?Es.
    destruct Hst as (Hse & Bs & _ & Es' & Has). split_and!; try done; [lia|lia|].
    rewrite visited_content_snoc, <- Es', <- E, <- Ha. apply slice_join. lia.
  - intros _. cbn -[slice]. subst vs. rewrite visited_content_snoc. cbn [visited_content fmap list_fmap concat app].
    split_and!; try done; [lia|lia|]. by rewrite A.
Qed.

Lemma share_foldl_ok vs vs0 st :
  Forall visit_text_ok vs -> share_ok vs0 st -> share_ok (vs0 ++ vs) (foldl share_visit st vs).
Proof.
  intros Hv. revert vs0 st. induction Hv as [|v vs Hv _ IH]; intros vs0 st Hst; cbn [foldl].
  - by rewrite app_nil_r.
  - rewrite cons_middle, app_assoc. by apply IH, share_visit_ok.
Qed.

(** [sl] is a window that holds [s], and its ASCII mark can be trusted. *)
Definition slice_holds (sl : ChunkedTextSlice) s : Prop :=
  slice_as_str sl = s /\ (known_ascii sl = true -> bytes_is_ascii s = true).

Lemma bytes_is_ascii_slice i j s : bytes_is_ascii s = true -> bytes_is_ascii (slice i j s) = true.
Proof.
  unfold bytes_is_ascii, slice. rewrite <- (take_drop j s) at 1. rewrite forallb_app.
  intros [Hs _]%andb_true_iff. rewrite <- (take_drop i (take j s)), forallb_app in Hs.
  by apply andb_true_iff in Hs as [_ ?].
Qed.

Lemma slice_new_holds s i j ascii :
  i <= j <= length s -> str_is_char_boundary s i = true -> str_is_char_boundary s j = true ->
  (ascii = true -> bytes_is_ascii (slice i j s) = true) ->
  slice_holds (slice_new_with_ascii s i j ascii) (slice i j s).
Proof.
  intros Hij Bi Bj Ha. unfold slice_holds, slice_as_str. cbn.
  rewrite (Nat.min_l i), (Nat.min_l j), Nat.max_l by lia.
  by rewrite str_get_boundaries by (done || lia).
Qed.

Lemma shared_range_ok t i j sl :
  text_ok t -> shared_range t i j = Some sl ->
  slice_holds sl
    (slice (floor_boundary (text_content t) i) (floor_boundary (text_content t) j) (text_content t)).
Proof.
  intros Ht. unfold shared_range. rewrite !(clamp_min_eq t _ Ht).
  destruct (floor_boundary_ok (text_content t) i) as (Li & Bi & _).
  destruct (floor_boundary_ok (text_content t) j) as (Lj & Bj & _).
  case Nat.ltb_spec; intros Hlt; [done|]. case Nat.eqb_spec; intros Heq.
  { intros [= <-]. rewrite slice_nil by lia. by apply (slice_new_holds [] 0 0). }
  destruct (visit_range_text_ok t _ _ Ht Hlt Bi Bj) as [Hv E]. rewrite <- E.
  pose proof (share_foldl_ok _ [] (mkShared None 0 0 false true) Hv ltac:(done)) as Hst.
  set (st := foldl _ _ _) in *. cbn [app] in Hst. unfold share_ok in Hst.
  destruct (sh_storage st) as [s|]; [|done]. destruct (sh_valid st); [|done].
  destruct (Hst eq_refl) as (Hle & Bs & Be & Es & Ha). intros [= <-]. rewrite <- Es.
  apply slice_new_holds; [done|done|done|]. intros. by apply bytes_is_ascii_slice, Ha.
Qed.

Lemma bytes_is_ascii_app s1 s2 : bytes_is_ascii (s1 ++ s2) = bytes_is_ascii s1 && bytes_is_ascii s2.
Proof. apply forallb_app. Qed.

Lemma own_foldl_ok vs r a :
  Forall visit_text_ok vs -> (a = true -> bytes_is_ascii r = true) ->
  exists a', foldl own_visit (r, true, a) vs
             = (r ++ visited_content (content := chunk_content) vs, true, a')
    /\ (a' = true -> bytes_is_ascii (r ++ visited_content (content := chunk_content) vs) = true).
Proof.
  intros Hv. revert r a. induction Hv as [|[[c i] j] vs Hc _ IH]; intros r a Ha; cbn [foldl].
  - exists a. by rewrite app_nil_r.
  - destruct (visit_window c i j Hc) as (_ & _ & _ & Es & As). destruct Hc as (_ & _ & E).
    cbn [own_visit]. rewrite E.
    edestruct IH as (a' & Ef & Ha'); [|exists a'; rewrite Ef; split; [|intros Hf]].
    + intros [H1 H2]%andb_true_iff. rewrite bytes_is_ascii_app, Ha by done. cbn [andb].
      apply orb_true_iff in H2 as [H2|H2]; [|done].
      rewrite <- Es. by apply bytes_is_ascii_slice; rewrite <- As.
    + unfold visited_content. cbn. by rewrite app_assoc.
    + specialize (Ha' Hf). rewrite <- app_assoc in Ha'. exact Ha'.
Qed.

Lemma shared_or_owned_range_ok t i j :
  text_ok t ->
  let a := floor_boundary (text_content t) i in
  let b := floor_boundary (text_content t) j in
  match shared_or_owned_range t i j with
  | Some sl => a <= b /\ slice_holds sl (slice a b (text_content t))
  | None => b < a
  end.
Proof.
  intros Ht a b. unfold shared_or_owned_range.
  destruct (floor_boundary_ok (text_content t) i) as (Li & Bi & _).
  destruct (floor_boundary_ok (text_content t) j) as (Lj & Bj & _).
  destruct (shared_range t i j) as [sl|] eqn:Es.
  - split; [|by apply shared_range_ok]. unfold shared_range in Es.
    rewrite !(clamp_min_eq t _ Ht) in Es. fold a b in Es.
    destruct (Nat.ltb_spec b a); [done|lia].
  - rewrite !(clamp_min_eq t _ Ht). fold a b. case Nat.ltb_spec; intros Hlt; [done|].
    destruct (visit_range_text_ok t a b Ht Hlt Bi Bj) as [Hv E].
    destruct (own_foldl_ok _ [] true Hv ltac:(done)) as (asc & Ef & Ha). rewrite Ef. cbn [app negb orb].
    rewrite E in *. cbn [app] in Ha. set (x := slice a b (text_content t)) in *.
    assert (length x = b - a) as Hl by (unfold x; rewrite length_slice; lia).
    rewrite (proj2 (Nat.eqb_eq _ _) Hl). cbn [negb]. split; [done|].
    pose proof (slice_new_holds x 0 (length x) asc) as Hn. rewrite slice_full in Hn.
    apply Hn; [lia|done|apply boundary_end|done].
Qed.

(** ** Lines *)

Lemma cached_breaks_bounded t : text_ok t -> Forall (fun b => b < length (text_content t)) (cached_breaks t).
Proof. intros Ht. apply leaves_breaks_bounded. by apply seq_ok_leaves. Qed.

Lemma text_exact_breaks t : text_exact t -> cached_breaks t = text_breaks (text_content t).
Proof. apply seq_exact_breaks. Qed.

Lemma line_index_eq t p :
  text_ok t -> line_index_for_position t p = length (breaks_before p (cached_breaks t)).
Proof.
  intros Ht. unfold line_index_for_position.
  rewrite seq_secondary_count_before_ok, (text_len_eq t Ht) by done. f_equal.
  pose proof (cached_breaks_bounded t Ht).
  destruct (Nat.le_ge_cases p (length (text_content t))); [by rewrite Nat.min_l|].
  rewrite Nat.min_r, !breaks_before_all by first [done|by eapply breaks_bounded_weaken]. done.
Qed.

Lemma nth_line_break_eq t k : text_ok t -> nth_line_break t k = cached_breaks t !! k.
Proof. apply seq_nth_secondary_ok. Qed.

Lemma line_count_eq t :
  text_ok t -> text_exact t ->
  line_count t = match text_content t with [] => 0 | s => length (text_breaks s) + 1 end.
Proof.
  intros Ht Hx. unfold line_count, text_is_empty. rewrite (text_len_eq t Ht).
  rewrite (seq_secondary_breaks (leaf_ok := chunk_ok) t Ht). fold (cached_breaks t).
  rewrite text_exact_breaks by done. by destruct (text_content t).
Qed.

Lemma collect_foldl_ok vs out cursor :
  Forall visit_text_ok vs ->
  (foldl collect_visit (out, cursor) vs).1
  = out ++ ((fun b => cursor + b + 1)
              <$> visited_breaks (breaks := chunk_breaks) vs).
Proof.
  intros Hv. revert out cursor. induction Hv as [|[[c i] j] vs Hc _ IH]; intros out cursor; cbn [foldl].
  - cbn. by rewrite app_nil_r.
  - destruct Hc as (Hok & Hij & _). pose proof (chunk_len_eq c Hok) as Hlen.
    destruct (chunk_ok_inv c Hok) as (s & a & b & Hw & ->). unfold chunk_len in Hlen.
    cbn [collect_visit visited_breaks]. rewrite (chunk_line_breaks_eq s a b Hw), (chunk_breaks_eq s a b Hw).
    destruct (chunk_of_fields s a b Hw) as (_ & Ea & Eb). rewrite Ea, Eb in *.
    rewrite Nat.min_l, breaks_window by (apply shift_breaks_sorted, breaks_in_sorted || lia).
    rewrite IH, fmap_app, app_assoc, breaks_before_shift, breaks_from_shift_ge by lia.
    replace (a + j - a) with j by lia. replace (a + i - a) with i by lia.
    f_equal; [f_equal|]; unfold shift_breaks; rewrite <- list_fmap_compose;
      apply list_fmap_ext; intros; cbn; lia.
Qed.

(** The ends of the lines that meet a range, each past its break. *)
Definition spec_line_ends (bs : list nat) (start end_ : nat) : list nat :=
  let ends := S <$> filter (fun b => start <= b /\ b < end_) bs in
  if default start (last ends) <? end_ then ends ++ [end_] else ends.

Lemma breaks_window_filter i j bs :
  (fun b => i + b + 1) <$> breaks_from i (breaks_before j bs)
  = S <$> filter (fun b => i <= b /\ b < j) bs.
Proof.
  unfold breaks_from, breaks_before. rewrite list_filter_filter, <- list_fmap_compose.
  apply list_fmap_ext. intros k b Hb. apply list_elem_of_lookup_2 in Hb.
  apply list_elem_of_filter in Hb as [[? ?] _]. cbn. lia.
Qed.

Lemma collect_line_ends_eq t i j :
  text_ok t -> i <= j ->
  str_is_char_boundary (text_content t) i = true -> str_is_char_boundary (text_content t) j = true ->
  collect_line_ends_in_range t i j = spec_line_ends (cached_breaks t) i j.
Proof.
  intros Ht Hij Bi Bj. destruct (boundary_cases _ _ Bj) as [Hj _].
  unfold collect_line_ends_in_range, spec_line_ends. rewrite (text_len_eq t Ht).
  rewrite (Nat.min_l i), (Nat.min_l j), (Nat.max_l j) by lia.
  destruct (visit_range_text_ok t i j Ht Hij Bi Bj) as [Hv _].
  pose proof (collect_foldl_ok _ [] i Hv) as Hf.
  rewrite (seq_visit_range_breaks t i j Ht) in Hf
    by (fold (text_len t); rewrite (text_len_eq t Ht); lia).
  destruct (foldl _ _ _) as [out cur]. cbn [fst app] in Hf.
  rewrite breaks_window_filter in Hf. by subst out.
Qed.

(** ** The line around a position *)

Lemma sorted_lookup bs m n x y :
  StronglySorted lt bs -> bs !! m = Some x -> bs !! n = Some y -> m < n -> x < y.
Proof.
  intros Hs. revert m n. induction Hs as [|b bs _ IH Hb]; intros m n Hm Hn Hlt; [done|].
  destruct n as [|n]; [lia|]. destruct m as [|m]; cbn in *.
  - injection Hm as ->. by eapply Forall_lookup_1 in Hb.
  - eapply IH; [done|done|lia].
Qed.

Lemma breaks_before_lookup p bs m x :
  StronglySorted lt bs -> bs !! m = Some x -> (m < length (breaks_before p bs) <-> x < p).
Proof.
  intros Hs Hx. destruct (partition_point_sorted p bs Hs) as (_ & Ht & Hd). split; intros Hlt.
  - rewrite <- (lookup_take_lt _ (length (breaks_before p bs))) in Hx by done.
    rewrite Ht in Hx. apply list_elem_of_lookup_2, list_elem_of_filter in Hx. tauto.
  - apply Nat.nle_gt. intros Hge. assert (Hx' : drop (length (breaks_before p bs)) bs
      !! (m - length (breaks_before p bs)) = Some x) by (rewrite lookup_drop; rewrite <- Hx; f_equal; lia).
    rewrite <- Hd in Hx'. unfold shift_breaks in Hx'. rewrite list_lookup_fmap in Hx'.
    apply fmap_Some in Hx' as (n & _ & ->). lia.
Qed.

Lemma breaks_before_length p bs : StronglySorted lt bs -> length (breaks_before p bs) <= length bs.
Proof.
  intros Hs. destruct (partition_point_sorted p bs Hs) as (_ & Hk & _).
  apply (f_equal length) in Hk. rewrite length_take in Hk. lia.
Qed.

(** The last break before [p], and the first break from [p]. *)
Lemma break_before_cases p bs n :
  StronglySorted lt bs ->
  let k := length (breaks_before p bs) in
  let a := if k =? 0 then 0 else match bs !! (k - 1) with Some q => q + 1 | None => n end in
  a = 0 /\ k = 0 \/ exists q, a = S q /\ bs !! (k - 1) = Some q /\ q < p /\ 0 < k.
Proof.
  intros Hs k a. subst a. destruct (Nat.eqb_spec k 0) as [|Hk]; [by left|]. right.
  pose proof (breaks_before_length p bs Hs) as Hl. fold k in Hl.
  destruct (lookup_lt_is_Some_2 bs (k - 1)) as [q E]; [lia|]. rewrite E.
  exists q. split_and!; [lia|done| |lia]. apply (breaks_before_lookup p bs (k - 1) q Hs E). lia.
Qed.

Lemma break_from_cases p bs n :
  StronglySorted lt bs ->
  let k := length (breaks_before p bs) in
  let b := default n (bs !! k) in b = n /\ length bs <= k \/ bs !! k = Some b /\ p <= b.
Proof.
  intros Hs k b. subst b. destruct (bs !! k) as [q|] eqn:E; cbn.
  - right. split; [done|]. apply Nat.nlt_ge. intros Hq.
    apply (breaks_before_lookup p bs k q Hs E) in Hq. lia.
  - left. split; [done|]. by apply lookup_ge_None.
Qed.

(** No break lies between them. *)
Lemma no_break_between bs k a b :
  StronglySorted lt bs ->
  (k = 0 \/ exists q, a = S q /\ bs !! (k - 1) = Some q) -> (length bs <= k \/ bs !! k = Some b) ->
  forall q, a <= q < b -> q ∉ bs.
Proof.
  intros Hs Ha Hb q Hq [m Hm]%list_elem_of_lookup_1. destruct (Nat.lt_ge_cases m k).
  - destruct Ha as [?|(q' & -> & Eq)]; [lia|].
    destruct (decide (m = k - 1)) as [->|]; [rewrite Eq in Hm; injection Hm; lia|].
    pose proof (sorted_lookup bs m (k - 1) q q' Hs Hm Eq ltac:(lia)). lia.
  - destruct Hb as [?|E]; [apply lookup_lt_Some in Hm; lia|].
    destruct (decide (m = k)) as [->|]; [rewrite E in Hm; injection Hm; lia|].
    pose proof (sorted_lookup bs k m b q Hs E Hm ltac:(lia)). lia.
Qed.

(** [a..b] is the line of [s] around [p], its break excluded. *)
Definition line_around s (p a b : nat) : Prop :=
  a <= p <= b /\ b <= length s
  /\ (forall q, a <= q < b -> q ∉ text_breaks s)
  /\ (a = 0 \/ exists q, a = S q /\ q ∈ text_breaks s)
  /\ (b = length s \/ b ∈ text_breaks s).

Lemma line_bounds_ok t p :
  text_ok t -> text_exact t -> p <= length (text_content t) ->
  line_around (text_content t) p (line_start t p) (line_end t p).
Proof.
  intros Ht Hx Hp. unfold line_around, line_start, line_end, line_start_for_index.
  rewrite line_index_eq, !nth_line_break_eq, (text_len_eq t Ht), text_exact_breaks by done.
  pose proof (breaks_in_sorted None (text_content t)) as Hs.
  pose proof (breaks_in_bounded None (text_content t)) as Hbd.
  change (breaks_in None (text_content t)) with (text_breaks (text_content t)) in *.
  pose proof (break_before_cases p _ (length (text_content t)) Hs) as Ha.
  pose proof (break_from_cases p _ (length (text_content t)) Hs) as Hb. cbn zeta in Ha, Hb.
  set (bs := text_breaks (text_content t)) in *. set (k := length (breaks_before p bs)) in *.
  set (a := if k =? 0 then 0 else _) in *. set (b := default _ _) in *. clearbody a b k.
  split_and!.
  - destruct Ha as [[-> _]|(q & -> & _ & ? & _)]; lia.
  - destruct Hb as [[-> _]|[_ ?]]; lia.
  - destruct Hb as [[-> _]|[E _]]; [done|]. eapply Forall_lookup_1 in Hbd; [|exact E]. cbn in Hbd. lia.
  - apply (no_break_between bs k); [done|naive_solver|naive_solver].
  - destruct Ha as [[-> _]|(q & -> & E & _)]; [by left|]. right. exists q.
    split; [done|]. by eapply list_elem_of_lookup_2.
  - destruct Hb as [[-> _]|[E _]]; [by left|]. right. by eapply list_elem_of_lookup_2.
Qed.

Lemma line_index_round_trip t k :
  text_ok t -> text_exact t -> k <= length (text_breaks (text_content t)) ->
  line_index_for_position t (line_start_for_index t k) = k.
Proof.
  intros Ht Hx Hk. unfold line_start_for_index.
  rewrite line_index_eq, nth_line_break_eq, text_exact_breaks by done.
  pose proof (breaks_in_sorted None (text_content t)) as Hs. fold (text_breaks (text_content t)) in Hs.
  set (bs := text_breaks (text_content t)) in *.
  destruct (Nat.eqb_spec k 0) as [->|Hk0]; [by rewrite breaks_before_0|].
  destruct (lookup_lt_is_Some_2 bs (k - 1)) as [x Ex]; [lia|]. rewrite Ex.
  pose proof (breaks_before_lookup (x + 1) bs (k - 1) x Hs Ex) as H1.
  apply Nat.le_antisymm; [|lia]. apply Nat.nlt_ge. intros Hgt.
  destruct (lookup_lt_is_Some_2 bs k) as [y Ey].
  { pose proof (breaks_before_length (x + 1) bs Hs). lia. }
  pose proof (sorted_lookup bs (k - 1) k x y Hs Ex Ey ltac:(lia)).
  apply (breaks_before_lookup (x + 1) bs k y Hs Ey) in Hgt. lia.
Qed.

(** ** Histories of edits *)

Definition apply_edits t (edits : list edit) : ChunkedText :=
  foldl (fun t '(i, j, ins) => (replace_range t i j ins).1) t edits.

Definition spec_edits s (edits : list edit) : bytes :=
  foldl (fun s '(i, j, ins) => (spec_replace s i j ins).1) s edits.

(** No end of an edit is inside a CRLF pair of the text it edits. *)
Fixpoint safe_edits s (edits : list edit) : Prop :=
  match edits with
  | [] => True
  | (i, j, ins) :: edits =>
      crlf_cut s (floor_boundary s i) /\ crlf_cut s (floor_boundary s j)
      /\ safe_edits (spec_replace s i j ins).1 edits
  end.

Definition edits_valid (edits : list edit) : Prop := Forall (fun e => valid_utf8 e.2) edits.

Lemma apply_edits_ok t edits :
  text_ok t -> edits_valid edits ->
  text_ok (apply_edits t edits) /\ text_content (apply_edits t edits) = spec_edits (text_content t) edits.
Proof.
  intros Ht Hv. revert t Ht. induction Hv as [|[[i j] ins] edits Hi _ IH]; intros t Ht; [done|].
  cbn [apply_edits spec_edits foldl]. destruct (replace_range_ok t i j ins Ht Hi) as [Hok E].
  destruct (IH _ Hok) as [Hok' E']. split; [exact Hok'|]. unfold apply_edits in E'. rewrite E'.
  unfold spec_edits. by rewrite <- E.
Qed.

Lemma apply_edits_exact t edits :
  text_ok t -> text_exact t -> edits_valid edits -> safe_edits (text_content t) edits ->
  text_exact (apply_edits t edits).
Proof.
  intros Ht Hx Hv Hs. revert t Ht Hx Hs.
  induction Hv as [|[[i j] ins] edits Hi _ IH]; intros t Ht Hx Hs; [done|].
  destruct Hs as (C1 & C2 & Hs). destruct (replace_range_ok t i j ins Ht Hi) as [Hok E].
  apply IH; [done|by apply replace_range_exact|]. by rewrite <- E in Hs.
Qed.

(** Every text the program can build. *)
Inductive reachable_text : ChunkedText -> Prop :=
| reach_from_string s : valid_utf8 s -> reachable_text (text_from_string s)
| reach_replace_range t i j ins :
    reachable_text t -> valid_utf8 ins -> reachable_text (replace_range t i j ins).1
| reach_replace_range_shared t i j ins :
    reachable_text t -> valid_utf8 ins -> reachable_text (replace_range_shared t i j ins).1
| reach_replace_range_chunked t t' i j :
    reachable_text t -> reachable_text t' -> reachable_text (replace_range_chunked t i j t').1
| reach_slice t t' i j : reachable_text t -> text_slice t i j = Some t' -> reachable_text t'.

Lemma reachable_text_ok t : reachable_text t -> text_ok t.
Proof.
  induction 1 as [s Hv|t i j ins _ IH Hv|t i j ins _ IH Hv|t t' i j _ IH1 _ IH2|t t' i j _ IH E].
  - by apply text_from_string_ok.
  - by apply replace_range_ok.
  - by apply (replace_range_ok t i j ins).
  - by apply replace_range_chunked_ok.
  - pose proof (text_slice_ok t i j IH) as Hs. rewrite E in Hs. tauto.
Qed.
End Text.

(** ** Theorems *)

(** C2. A text rope is a string: after any history of edits the rope holds
    exactly what the same edits make of the flat string, and every range read
    from it succeeds and is that range of the string, cut at character
    boundaries. *)
Theorem rope_edits_refine_string `{!ArcPtrEq bytes} `{!ArcPtrEq (list nat)} s edits :
  valid_utf8 s -> edits_valid edits ->
  let t := apply_edits (text_from_string s) edits in
  let flat := spec_edits s edits in
  to_flat_string t = flat
  /\ (forall i j, range_string t i j
        = Some (slice (floor_boundary flat i) (floor_boundary flat j) flat))
  /\ (forall p, text_byte_at t p = flat !! p)
  /\ (forall other, matches_str t other = bool_decide (flat = other)).
Proof.
  intros Hv He t flat. destruct (text_from_string_ok s Hv) as (Hok & E & _).
  destruct (apply_edits_ok _ edits Hok He) as [Ht Ec]. rewrite E in Ec. fold t flat in Ht, Ec.
  rewrite <- Ec. split_and!; intros.
  - by apply to_flat_string_eq.
  - by apply range_string_eq.
  - by apply text_byte_at_eq.
  - by apply matches_str_eq.
Qed.

(** C25. Every text the program can build, by reading strings, editing and
    slicing, is valid UTF-8, and so is every range read from it: reads never
    fail and never cut a character.  Every chunk is a part of valid UTF-8 that
    begins and ends between characters, is itself valid and not empty, and the
    chunks in order are the text. *)
Theorem rope_text_is_utf8 `{!ArcPtrEq bytes} `{!ArcPtrEq (list nat)} t :
  reachable_text t ->
  valid_utf8 (to_flat_string t)
  /\ (forall i j, exists r, range_string t i j = Some r /\ valid_utf8 r)
  /\ Forall (fun c => valid_utf8 (storage c)
        /\ exists s, str_get (storage c) (chunk_start c) (chunk_end c) = Some s /\ valid_utf8 s /\ s <> [])
       (seq_for_each_leaf t)
  /\ concat (chunk_as_str <$> seq_for_each_leaf t) = to_flat_string t.
Proof.
  intros Ht%reachable_text_ok. pose proof (text_content_valid t Ht) as Hv.
  pose proof (seq_ok_leaves t Ht) as Hleaves.
  split; [by rewrite to_flat_string_eq|]. split; [|split].
  2: { eapply Forall_impl; [exact Hleaves|]. intros c Hc. split; [apply Hc|]. exists (chunk_content c).
       split_and!; [by apply chunk_str_get|by apply chunk_content_valid|].
       intros E. pose proof (leaf_content_nonempty c Hc) as Hl. rewrite E in Hl. cbn in Hl. lia. }
  2: { rewrite to_flat_string_eq by done. unfold text_content, seq_content, leaves_content.
       by rewrite chunks_as_str. }
  intros i j. eexists. split; [by apply range_string_eq|].
  destruct (floor_boundary_ok (text_content t) i) as (_ & Bi & _).
  destruct (floor_boundary_ok (text_content t) j) as (_ & Bj & _).
  destruct (Nat.le_gt_cases (floor_boundary (text_content t) i) (floor_boundary (text_content t) j)).
  - by apply valid_utf8_slice.
  - rewrite slice_nil by lia. apply valid_utf8_nil.
Qed.

(** C22. As long as no edit starts or ends inside a CRLF pair, the cached line
    index stays exact: the rope counts the line breaks of its text, the line it
    reports around a position is delimited by breaks and contains none, and line
    numbers and line starts are inverse. *)
Theorem rope_lines_follow_breaks `{!ArcPtrEq bytes} `{!ArcPtrEq (list nat)} s edits :
  valid_utf8 s -> edits_valid edits -> safe_edits s edits ->
  let t := apply_edits (text_from_string s) edits in
  let flat := spec_edits s edits in
  line_count t = match flat with [] => 0 | _ => length (text_breaks flat) + 1 end
  /\ (forall p, p <= length flat -> line_around flat p (line_start t p) (line_end t p))
  /\ (forall k, k <= length (text_breaks flat) ->
        line_index_for_position t (line_start_for_index t k) = k)
  /\ (forall i j, i <= j -> str_is_char_boundary flat i = true -> str_is_char_boundary flat j = true ->
        collect_line_ends_in_range t i j = spec_line_ends (text_breaks flat) i j).
Proof.
  intros Hv He Hs t flat. destruct (text_from_string_ok s Hv) as (Hok & E & Hx).
  destruct (apply_edits_ok _ edits Hok He) as [Ht Ec]. rewrite <- E in Hs.
  pose proof (apply_edits_exact _ edits Hok Hx He Hs) as Hxt.
  rewrite E in Ec. fold t flat in Ht, Ec, Hxt. rewrite <- Ec. split_and!; intros.
  - rewrite line_count_eq by done. by destruct (text_content t).
  - by apply line_bounds_ok.
  - by apply line_index_round_trip.
  - rewrite <- text_exact_breaks by done. by apply collect_line_ends_eq.
Qed.

(** C26. Edits keep the rope balanced: a rope of [n] chunks is never more than
    [2 log2 n + 1] levels deep, counted on the tree itself, and it has no more
    chunks than bytes; the height and the number of chunks it keeps in its nodes
    are the real ones. *)
Theorem rope_depth_is_logarithmic `{!ArcPtrEq bytes} `{!ArcPtrEq (list nat)} t :
  reachable_text t ->
  seq_depth t <= 2 * Nat.log2 (length (seq_for_each_leaf t)) + 1
  /\ length (seq_for_each_leaf t) <= length (to_flat_string t)
  /\ seq_height t = seq_depth t
  /\ seq_leaf_count t = length (seq_for_each_leaf t).
Proof.
  intros Ht%reachable_text_ok. rewrite to_flat_string_eq by done.
  split_and!; [by apply (seq_depth_log (leaf_ok := chunk_ok))|by apply (seq_leaves_length (leaf_ok := chunk_ok))
    |by apply (seq_cached_shape (leaf_ok := chunk_ok))..].
Qed.

(** A range handed out without copying is the range that would be copied:
    whichever chunks share an allocation, [shared_or_owned_range] fails only on
    ends out of order, and otherwise its text is that of [range_string], marked
    ASCII only if it is. *)
Theorem shared_range_reads_the_text `{!ArcPtrEq bytes} `{!ArcPtrEq (list nat)} t i j :
  reachable_text t ->
  match shared_or_owned_range t i j with
  | Some sl =>
      range_string t i j = Some (slice_as_str sl)
      /\ (known_ascii sl = true -> bytes_is_ascii (slice_as_str sl) = true)
  | None => clamp_boundary t j < clamp_boundary t i
  end.
Proof.
  intros Ht%reachable_text_ok. pose proof (shared_or_owned_range_ok t i j Ht) as Hr.
  rewrite !(clamp_boundary_eq t) by done. rewrite range_string_eq by done.
  destruct (shared_or_owned_range t i j) as [sl|]; [|done].
  destruct Hr as (_ & E & Ha). by rewrite E.
Qed.

(** ** Instances and witnesses *)

(** One allocation per value: the most sharing there can be. *)
#[local] Instance shared_arcs {T} `{EqDecision T} : ArcPtrEq T := {
  ptr_eq x y := bool_decide (x = y);
  ptr_eq_sound x y := bool_decide_eq_true_1 (x = y)
}.

Definition sample : bytes := u "select 1;" ++ [CR; LF] ++ u "from t" ++ [LF].
Definition sample_edits : list edit := [(7, 8, u "count(*)"); (0, 0, u "-- q" ++ [LF]); (3, 40, [])].

Lemma ascii_valid s : bytes_is_ascii s = true -> valid_utf8 s.
Proof.
  intros Hs. apply valid_utf8_ascii, Forall_forall. intros b Hb.
  apply forallb_forall with (x := b) in Hs; [by apply N.ltb_lt|by apply list_elem_of_In].
Qed.

Lemma sample_edits_valid : edits_valid sample_edits.
Proof. repeat constructor; by apply ascii_valid. Qed.

Definition crlf_cutb (s : bytes) (i : nat) : bool :=
  match last (take i s), head (drop i s) with Some x, Some y => crlf_glue x y | _, _ => true end.

Lemma crlf_cutb_ok s i : crlf_cutb s i = true -> crlf_cut s i.
Proof. unfold crlf_cutb. intros Hb x y E1 E2. by rewrite E1, E2 in Hb. Qed.

Lemma sample_edits_safe : safe_edits sample sample_edits.
Proof. repeat (split; [by apply crlf_cutb_ok|]). exact I. Qed.

Lemma rope_edits_refine_string_witness :
  to_flat_string (apply_edits (text_from_string sample) sample_edits) = spec_edits sample sample_edits.
Proof.
  exact (proj1 (rope_edits_refine_string sample sample_edits (ascii_valid sample eq_refl)
                  sample_edits_valid)).
Defined.

Lemma rope_lines_follow_breaks_witness :
  line_count (apply_edits (text_from_string sample) sample_edits)
  = match spec_edits sample sample_edits with
    | [] => 0
    | _ => length (text_breaks (spec_edits sample sample_edits)) + 1
    end.
Proof.
  exact (proj1 (rope_lines_follow_breaks sample sample_edits (ascii_valid sample eq_refl)
                  sample_edits_valid sample_edits_safe)).
Defined.

(** A text after an edit that writes a character of two bytes. *)
Definition sample_rope : ChunkedText := (replace_range (text_from_string sample) 2 5 [195; 169]%N).1.

Lemma sample_rope_reachable : reachable_text sample_rope.
Proof.
  apply reach_replace_range; [apply reach_from_string; by apply ascii_valid|].
  exists [233%N]. split; [by apply Forall_singleton|reflexivity].
Qed.

Lemma rope_text_is_utf8_witness :
  valid_utf8 (to_flat_string sample_rope).
Proof. apply (rope_text_is_utf8 sample_rope sample_rope_reachable). Defined.

Lemma rope_depth_is_logarithmic_witness :
  seq_depth sample_rope <= 2 * Nat.log2 (length (seq_for_each_leaf sample_rope)) + 1
  /\ length (seq_for_each_leaf sample_rope) <= length (to_flat_string sample_rope)
  /\ seq_height sample_rope = seq_depth sample_rope
  /\ seq_leaf_count sample_rope = length (seq_for_each_leaf sample_rope).
Proof. apply rope_depth_is_logarithmic, sample_rope_reachable. Defined.

Lemma shared_range_reads_the_text_witness :
  match shared_or_owned_range (text_from_string sample) 2 9 with
  | Some sl =>
      range_string (text_from_string sample) 2 9 = Some (slice_as_str sl)
      /\ (known_ascii sl = true -> bytes_is_ascii (slice_as_str sl) = true)
  | None => clamp_boundary (text_from_string sample) 9 < clamp_boundary (text_from_string sample) 2
  end.
Proof. apply shared_range_reads_the_text, reach_from_string. by apply ascii_valid. Defined.

(** The condition on CRLF pairs is needed: deleting the line feed of
    ["a\r\n"] leaves the text ["a\r"], which has two lines, with a cached count
    of one. *)
Theorem crlf_cut_leaves_stale_line_count :
  let t := (replace_range (text_from_string [97; 13; 10]%N) 2 3 []).1 in
  to_flat_string t = [97; 13]%N /\ line_count t = 1
  /\ line_count (text_from_string (to_flat_string t)) = 2.
Proof. vm_compute. done. Qed.
