(* ===== verification/ValueSpec.v ===== *)
(** * Chunked and run-length values

    The values of [chunked_text.rs] that are no text, and that each operation is
    that of a list. *)
From S2P Require Import Prelude RustStr Utf8 Rope RopeLaws TextRope.

(** * [src/ui/sql_editor/chunked_text.rs]: sequences of values

    The two other kinds of leaf of the persistent sequence: [ValueChunk], a
    window of a shared vector ([ChunkedValues], per-line data of the editor), and
    [ValueRun], a run of equal values ([RunValues], run-length encoded styles).
    Both discharge the laws of [RopeLaws]; the theorems say the containers are
    vectors. *)

#[local] Arguments Nat.ltb : simpl never.
#[local] Arguments Nat.leb : simpl never.

Definition VALUE_CHUNK_TARGET_LEN : nat := 4 * 1024.
Definition VALUE_CHUNK_RECHUNK_MIN_LEN : nat := 2 * 1024.
Arguments VALUE_CHUNK_TARGET_LEN : simpl never.
Arguments VALUE_CHUNK_RECHUNK_MIN_LEN : simpl never.

(** ** Chunks of values *)

Record ValueChunk (T : Type) := mkValueChunk {
  vc_storage : list T;
  vc_start : nat;
  vc_end : nat
}.
Arguments mkValueChunk {T}.
Arguments vc_storage {T}.
Arguments vc_start {T}.
Arguments vc_end {T}.

Section Values.
Context {T : Type} `{!ArcPtrEq (list T)}.
Implicit Types (c lhs rhs : ValueChunk T).

Definition value_chunk_from_storage (storage : list T) (start end_ : nat) : ValueChunk T :=
  let start := Nat.min start (length storage) in
  let end_ := Nat.max (Nat.min end_ (length storage)) start in
  mkValueChunk storage start end_.

Definition vc_as_slice c : list T := default [] (slice_get (vc_storage c) (vc_start c) (vc_end c)).

Definition vc_len c : nat := vc_end c - vc_start c.

Definition vc_split_at c (position : nat) : option (ValueChunk T) * option (ValueChunk T) :=
  let position := Nat.min position (vc_len c) in
  let absolute := Nat.min (vc_start c + position) (vc_end c) in
  (if vc_start c <? absolute
   then Some (value_chunk_from_storage (vc_storage c) (vc_start c) absolute) else None,
   if absolute <? vc_end c
   then Some (value_chunk_from_storage (vc_storage c) absolute (vc_end c)) else None).

(** A chunk holds at least one value, so the length is enough fuel. *)
Fixpoint value_chunks_loop (fuel : nat) (storage : list T) (start : nat) : list (ValueChunk T) :=
  match fuel with
  | 0 => []
  | S fuel =>
      if start <? length storage then
        let end_ := Nat.min (start + VALUE_CHUNK_TARGET_LEN) (length storage) in
        value_chunk_from_storage storage start end_ :: value_chunks_loop fuel storage end_
      else []
  end.

Definition value_chunks (values : list T) : list (ValueChunk T) :=
  match values with [] => [] | _ => value_chunks_loop (length values) values 0 end.

Definition vc_rechunk_pair lhs rhs : list (ValueChunk T) :=
  if ptr_eq (vc_storage lhs) (vc_storage rhs) && (vc_end lhs =? vc_start rhs)
  then [value_chunk_from_storage (vc_storage lhs) (vc_start lhs) (vc_end rhs)]
  else
    let combined_len := vc_len lhs + vc_len rhs in
    if (VALUE_CHUNK_TARGET_LEN <? combined_len)
       && (VALUE_CHUNK_RECHUNK_MIN_LEN <=? vc_len lhs)
       && (VALUE_CHUNK_RECHUNK_MIN_LEN <=? vc_len rhs)
    then [lhs; rhs]
    else if (VALUE_CHUNK_TARGET_LEN <? combined_len)
         && ((VALUE_CHUNK_TARGET_LEN <=? vc_len lhs) || (VALUE_CHUNK_TARGET_LEN <=? vc_len rhs))
    then [lhs; rhs]
    else value_chunks (vc_as_slice lhs ++ vc_as_slice rhs).

#[export] Instance ValueChunk_leaf : SequenceLeaf (ValueChunk T) := {
  leaf_len := vc_len;
  leaf_secondary_len _ := 0;
  leaf_secondary_count_before _ _ := 0;
  leaf_secondary_position _ _ := None;
  leaf_split_at := vc_split_at;
  rechunk_pair := vc_rechunk_pair
}.

Definition ChunkedValues : Type := PersistentSequence (ValueChunk T).
Implicit Types (v : ChunkedValues).

Definition values_from_vec (values : list T) : ChunkedValues := seq_from_leaves (value_chunks values).

Definition values_len v : nat := seq_len v.

Definition values_get v (position : nat) : option T :=
  match seq_locate v position with
  | Some (chunk, offset) => vc_as_slice chunk !! offset
  | None => None
  end.

Definition values_push_visited (acc : list T * bool) (visit : ValueChunk T * nat * nat) : list T * bool :=
  let '(chunk, local_start, local_end) := visit in
  match slice_get (vc_as_slice chunk) local_start local_end with
  | Some values => (acc.1 ++ values, acc.2)
  | None => (acc.1, false)
  end.

Definition range_vec v (start end_ : nat) : option (list T) :=
  let start := Nat.min start (values_len v) in
  let end_ := Nat.min end_ (values_len v) in
  if end_ <? start then None
  else
    let '(result, valid) := foldl values_push_visited ([], true) (seq_visit_range v start end_) in
    if valid && (length result =? end_ - start) then Some result else None.

Definition values_to_vec v : list T := default [] (range_vec v 0 (values_len v)).

(** The visitor of [first_matching_position]: what was found, the cursor. *)
Definition find_visit (predicate : T -> bool) (acc : option nat * nat) (visit : ValueChunk T * nat * nat)
    : option nat * nat :=
  let '(found, absolute) := acc in
  let '(chunk, local_start, local_end) := visit in
  if bool_decide (is_Some found) then acc
  else match slice_get (vc_as_slice chunk) local_start local_end with
       | None => acc
       | Some values =>
           let found :=
             match list_find (fun x => predicate x = true) values with
             | Some (relative, _) => Some (absolute + relative)
             | None => found
             end in
           (found, absolute + length values)
       end.

Definition first_matching_position v (start end_ : nat) (predicate : T -> bool) : option nat :=
  let start := Nat.min start (values_len v) in
  let end_ := Nat.min end_ (values_len v) in
  if end_ <=? start then None
  else (foldl (find_visit predicate) (None, start) (seq_visit_range v start end_)).1.

Definition values_replace_range v (start end_ : nat) (replacement : list T) : ChunkedValues :=
  seq_replace_range start end_ (seq_from_leaves (value_chunks replacement)) v.

(** The visitor of [range_matches_slice]: whether all matched, the cursor. *)
Definition match_visit `{EqDecision T} (expected : list T) (acc : bool * nat)
    (visit : ValueChunk T * nat * nat) : bool * nat :=
  let '(matches, expected_start) := acc in
  let '(chunk, local_start, local_end) := visit in
  if negb matches then acc
  else match slice_get (vc_as_slice chunk) local_start local_end with
       | None => (false, expected_start)
       | Some values =>
           let expected_end := expected_start + length values in
           (bool_decide (slice_get expected expected_start expected_end = Some values), expected_end)
       end.

Definition range_matches_slice `{EqDecision T} v (start end_ : nat) (expected : list T) : bool :=
  let start := Nat.min start (values_len v) in
  let end_ := Nat.min end_ (values_len v) in
  if (end_ <? start) || negb (end_ - start =? length expected) then false
  else
    let '(matches, expected_start) :=
      foldl (match_visit expected) (true, 0) (seq_visit_range v start end_) in
    matches && (expected_start =? length expected).
End Values.
Arguments ChunkedValues : clear implicits.

(** ** Runs of equal values *)

Record ValueRun (T : Type) := mkValueRun {
  run_value : T;
  run_len : nat
}.
Arguments mkValueRun {T}.
Arguments run_value {T}.
Arguments run_len {T}.

Section Runs.
Context {T : Type} `{EqDecision T}.
Implicit Types (r lhs rhs : ValueRun T).

Definition run_split_at r (position : nat) : option (ValueRun T) * option (ValueRun T) :=
  let position := Nat.min position (run_len r) in
  let right_len := run_len r - position in
  (if 0 <? position then Some (mkValueRun (run_value r) position) else None,
   if 0 <? right_len then Some (mkValueRun (run_value r) right_len) else None).

Definition run_rechunk_pair lhs rhs : list (ValueRun T) :=
  if run_value lhs == run_value rhs then [mkValueRun (run_value lhs) (run_len lhs + run_len rhs)]
  else [lhs; rhs].

#[export] Instance ValueRun_leaf : SequenceLeaf (ValueRun T) := {
  leaf_len := run_len;
  leaf_secondary_len _ := 0;
  leaf_secondary_count_before _ _ := 0;
  leaf_secondary_position _ _ := None;
  leaf_split_at := run_split_at;
  rechunk_pair := run_rechunk_pair
}.

Definition RunValues : Type := PersistentSequence (ValueRun T).
Implicit Types (v : RunValues).

(** One step of the loop of [from_runs], which extends the last run or opens one. *)
Definition push_run (normalized : list (ValueRun T)) (run : T * nat) : list (ValueRun T) :=
  let '(value, len) := run in
  if len =? 0 then normalized
  else match last normalized with
       | Some r =>
           if run_value r == value
           then removelast normalized ++ [mkValueRun (run_value r) (run_len r + len)]
           else normalized ++ [mkValueRun value len]
       | None => normalized ++ [mkValueRun value len]
       end.

Definition runs_from_runs (runs : list (T * nat)) : RunValues := seq_from_leaves (foldl push_run [] runs).

Definition runs_len v : nat := seq_len v.

Definition runs_get v (position : nat) : option T :=
  match seq_locate v position with Some (run, _) => Some (run_value run) | None => None end.

Definition runs_last v : option T :=
  if runs_len v =? 0 then None else runs_get v (runs_len v - 1).

Definition replace_range_runs v (start end_ : nat) (replacement : list (T * nat)) : RunValues :=
  seq_replace_range start end_ (runs_from_runs replacement) v.
End Runs.
Arguments RunValues : clear implicits.

(** * The sequences of values are vectors

    The laws of [ValueChunk] and [ValueRun], and through them: a [ChunkedValues]
    is the vector of its values, and a [RunValues] is the run-length encoding of
    one, always in canonical form. *)

#[local] Arguments Nat.ltb : simpl never.
#[local] Arguments Nat.leb : simpl never.

(** The splice of a vector, ends clamped as [replace_range] clamps them. *)
Definition splice {A} (start end_ : nat) (replacement v : list A) : list A :=
  let start := Nat.min start (length v) in
  let end_ := Nat.max (Nat.min end_ (length v)) start in
  take start v ++ replacement ++ drop end_ v.

Definition no_breaks {L : Type} (_ : L) : list nat := [].
Definition cut_anywhere {A : Type} (_ : A) : bool := true.

Section Generic.
Context {L A : Type} `{SequenceLeaf L} {content : L -> list A} {leaf_ok : L -> Prop}
  `{!LeafLaws content no_breaks cut_anywhere leaf_ok}.

Lemma seq_splice_ok start end_ (replacement s : PersistentSequence L) :
  seq_ok (leaf_ok := leaf_ok) s -> seq_ok (leaf_ok := leaf_ok) replacement ->
  seq_ok (leaf_ok := leaf_ok) (seq_replace_range start end_ replacement s)
  /\ seq_content (content := content) (seq_replace_range start end_ replacement s)
     = splice start end_ (seq_content (content := content) replacement) (seq_content (content := content) s).
Proof.
  intros Hs Hr. rewrite seq_replace_range_clamp. unfold splice. rewrite (seq_len_content s Hs).
  apply seq_replace_range_ok; [done|done|lia|by intros ? ?|by intros ? ?].
Qed.
End Generic.

(** ** Chunks of values *)

Section Values.
Context {T : Type} `{!ArcPtrEq (list T)}.
Implicit Types (c : ValueChunk T) (v : ChunkedValues T).

Definition vc_ok c : Prop := vc_start c < vc_end c <= length (vc_storage c).
Definition vc_content c : list T := slice (vc_start c) (vc_end c) (vc_storage c).

Lemma vc_as_slice_eq c : vc_ok c -> vc_as_slice c = vc_content c.
Proof.
  intros Hc. unfold vc_ok in Hc. unfold vc_as_slice, slice_get, vc_content.
  by rewrite (proj2 (Nat.leb_le _ _)), (proj2 (Nat.leb_le _ _)) by lia.
Qed.

Lemma vc_from_storage_eq (s : list T) i j :
  i <= j <= length s -> value_chunk_from_storage s i j = mkValueChunk s i j.
Proof.
  intros. unfold value_chunk_from_storage. by rewrite (Nat.min_l i), (Nat.min_l j), Nat.max_l by lia.
Qed.

Lemma value_chunk_target_pos : 0 < VALUE_CHUNK_TARGET_LEN.
Proof. unfold VALUE_CHUNK_TARGET_LEN. lia. Qed.

Lemma value_chunks_loop_ok fuel (s : list T) start :
  start <= length s -> length s - start <= fuel ->
  Forall vc_ok (value_chunks_loop fuel s start)
  /\ concat (vc_content <$> value_chunks_loop fuel s start) = drop start s.
Proof.
  revert start. induction fuel as [|fuel IH]; intros start Hs Hf; cbn [value_chunks_loop].
  { split; [constructor|]. by rewrite drop_ge by lia. }
  case Nat.ltb_spec; intros Hlt; [|split; [constructor|]; by rewrite drop_ge by lia].
  pose proof value_chunk_target_pos. set (e := Nat.min _ _).
  destruct (IH e) as [F C]; [lia|lia|]. rewrite vc_from_storage_eq by lia. split.
  - constructor; [|done]. unfold vc_ok. cbn. lia.
  - rewrite fmap_cons. cbn [concat]. rewrite C. unfold vc_content. cbn [vc_start vc_end vc_storage].
    apply slice_drop. lia.
Qed.

Lemma value_chunks_ok (s : list T) : Forall vc_ok (value_chunks s) /\ concat (vc_content <$> value_chunks s) = s.
Proof.
  destruct s as [|x s]; [split; constructor|]. by apply (value_chunks_loop_ok _ (x :: s) 0); [lia|].
Qed.

#[export] Instance ValueChunk_laws : LeafLaws vc_content no_breaks cut_anywhere vc_ok.
Proof.
  split; unfold vc_ok, no_breaks; try done.
  - intros c Hc. cbn. unfold vc_len, vc_content. rewrite length_slice. lia.
  - intros c Hc. unfold vc_content. rewrite length_slice. lia.
  - intros [s i j] p. unfold vc_content. cbn -[slice]. intros Hc. rewrite length_slice.
    intros Hp _. exists (mkValueChunk s i (i + p)), (mkValueChunk s (i + p) j).
    unfold vc_split_at, vc_len. cbn [vc_storage vc_start vc_end].
    rewrite !(Nat.min_l p), !(Nat.min_l (i + p)) by lia.
    rewrite (proj2 (Nat.ltb_lt i (i + p))), (proj2 (Nat.ltb_lt (i + p) j)) by lia.
    rewrite !vc_from_storage_eq by lia. split_and!; try done; try lia.
    + unfold slice. rewrite take_drop_commute, take_take. by rewrite Nat.min_l by lia.
    + unfold slice. by rewrite drop_drop.
  - intros a b Ha Hb. cbn. unfold vc_rechunk_pair. destruct (_ && _) eqn:E.
    + apply andb_true_iff in E as [E1%ptr_eq_sound E2%Nat.eqb_eq]. destruct a as [s i j], b as [s' j' k].
      cbn [vc_storage vc_start vc_end] in *. subst s' j'. rewrite vc_from_storage_eq by lia. split.
      * constructor; [cbn; lia|done].
      * unfold vc_content. cbn -[slice]. rewrite app_nil_r. apply slice_join. lia.
    + assert (Hpair : Forall vc_ok [a; b] /\ concat (vc_content <$> [a; b]) = vc_content a ++ vc_content b).
      { split; [by rewrite Forall_cons, Forall_singleton|]. cbn. by rewrite app_nil_r. }
      case_match; [exact Hpair|]. case_match; [exact Hpair|].
      rewrite !vc_as_slice_eq by done. apply value_chunks_ok.
Qed.

Definition values_content v : list T := seq_content (content := vc_content) v.
Definition values_ok v : Prop := seq_ok (leaf_ok := vc_ok) v.

Lemma values_from_vec_ok (xs : list T) :
  values_ok (values_from_vec xs) /\ values_content (values_from_vec xs) = xs.
Proof.
  destruct (value_chunks_ok xs) as [F C].
  destruct (seq_from_leaves_ok (content := vc_content) (breaks := no_breaks) (value_chunks xs) F)
    as (? & E & _).
  split; [done|]. unfold values_content, values_from_vec. rewrite E. exact C.
Qed.

Lemma values_replace_range_ok v i j xs :
  values_ok v ->
  values_ok (values_replace_range v i j xs)
  /\ values_content (values_replace_range v i j xs) = splice i j xs (values_content v).
Proof.
  intros Hv. destruct (values_from_vec_ok xs) as [Hx E].
  destruct (seq_splice_ok i j (values_from_vec xs) v Hv Hx) as [Hok Ec].
  split; [done|]. rewrite <- E at 2. exact Ec.
Qed.

Lemma values_history_ok v (edits : list (nat * nat * list T)) :
  values_ok v ->
  let w := foldl (fun v '(i, j, ys) => values_replace_range v i j ys) v edits in
  values_ok w /\ values_content w = foldl (fun l '(i, j, ys) => splice i j ys l) (values_content v) edits.
Proof.
  revert v. induction edits as [|[[i j] ys] edits IH]; intros v Hv; [done|]. cbn [foldl].
  destruct (values_replace_range_ok v i j ys Hv) as [Hv' <-]. by apply IH.
Qed.

Lemma values_get_eq v p : values_ok v -> values_get v p = values_content v !! p.
Proof.
  intros Hv. unfold values_get. pose proof (seq_locate_ok v p Hv) as Hl.
  destruct (seq_locate v p) as [[c k]|].
  - destruct Hl as (Hc & _ & E). unfold values_content. rewrite E. by rewrite vc_as_slice_eq.
  - symmetry. by apply lookup_ge_None_2.
Qed.

(** What a visitor reads from its leaf. *)
Definition visit_value_ok (visit : ValueChunk T * nat * nat) : Prop :=
  let '(c, i, j) := visit in slice_get (vc_as_slice c) i j = Some (slice i j (vc_content c)).

Lemma values_visit_ok v i j :
  values_ok v ->
  Forall visit_value_ok (seq_visit_range v i j)
  /\ visited_content (content := vc_content) (seq_visit_range v i j) = slice i j (values_content v).
Proof.
  intros Hv. destruct (seq_visit_range_ok v i j Hv) as [Hf E]. split; [|done].
  eapply Forall_impl; [exact Hf|]. intros [[c a] b] [Hc Hab]. unfold visit_value_ok.
  rewrite vc_as_slice_eq by done. unfold slice_get.
  by rewrite (proj2 (Nat.leb_le _ _)), (proj2 (Nat.leb_le _ _)) by lia.
Qed.

Lemma values_push_visited_ok vs acc :
  Forall visit_value_ok vs ->
  foldl values_push_visited acc vs = (acc.1 ++ visited_content (content := vc_content) vs, acc.2).
Proof.
  intros Hv. revert acc. induction Hv as [|[[c i] j] vs E _ IH]; intros [r b]; cbn [foldl].
  - cbn. by rewrite app_nil_r.
  - rewrite IH. cbn [values_push_visited]. unfold visit_value_ok in E. rewrite E.
    unfold visited_content. cbn. by rewrite app_assoc.
Qed.

Lemma range_vec_eq v i j :
  values_ok v ->
  range_vec v i j
  = if Nat.min j (values_len v) <? Nat.min i (values_len v) then None
    else Some (slice i j (values_content v)).
Proof.
  intros Hv. unfold range_vec, values_len. rewrite (seq_len_content v Hv).
  change (seq_content v) with (values_content v). case Nat.ltb_spec; intros Hlt; [done|].
  destruct (values_visit_ok v (Nat.min i (length (values_content v)))
    (Nat.min j (length (values_content v))) Hv) as [Hf E].
  rewrite values_push_visited_ok, E by done. cbn. rewrite slice_min, length_slice.
  destruct (Nat.le_ge_cases i (length (values_content v))).
  - by rewrite (Nat.min_l i), Nat.eqb_refl by lia.
  - rewrite !(proj2 (Nat.eqb_eq _ _)); [done|lia].
Qed.

Lemma find_visit_found (p : T -> bool) vs x cur : foldl (find_visit p) (Some x, cur) vs = (Some x, cur).
Proof. induction vs as [|[[c i] j] vs IH]; [done|]. exact IH. Qed.

Lemma find_visit_ok (p : T -> bool) vs cur :
  Forall visit_value_ok vs ->
  (foldl (find_visit p) (None, cur) vs).1
  = (fun x => cur + x.1) <$> list_find (fun x => p x = true) (visited_content (content := vc_content) vs).
Proof.
  intros Hv. revert cur. induction Hv as [|[[c i] j] vs E _ IH]; intros cur; [done|].
  cbn [foldl find_visit]. rewrite bool_decide_false by (by intros [? ?]).
  unfold visit_value_ok in E. rewrite E. unfold visited_content. cbn [fmap list_fmap concat].
  destruct (list_find _ (slice i j (vc_content c))) as [[k x]|] eqn:Ef.
  - rewrite find_visit_found. cbn. by erewrite list_find_app_l.
  - rewrite IH. rewrite list_find_app_r by done. fold (visited_content (content := vc_content) vs).
    destruct (list_find _ (visited_content vs)) as [[k x]|]; [|done]. cbn. f_equal. lia.
Qed.

Lemma first_matching_position_eq v i j (p : T -> bool) :
  values_ok v ->
  first_matching_position v i j p
  = (fun x => i + x.1) <$> list_find (fun x => p x = true) (slice i j (values_content v)).
Proof.
  intros Hv. unfold first_matching_position, values_len. rewrite (seq_len_content v Hv).
  change (seq_content v) with (values_content v). case Nat.leb_spec; intros Hle.
  - by rewrite slice_nil by lia.
  - destruct (values_visit_ok v (Nat.min i (length (values_content v)))
      (Nat.min j (length (values_content v))) Hv) as [Hf E].
    rewrite find_visit_ok, E, slice_min by done. by rewrite (Nat.min_l i) by lia.
Qed.

Section Matches.
Context `{EqDecision T}.

Lemma match_visit_false (expected : list T) vs cur :
  foldl (match_visit expected) (false, cur) vs = (false, cur).
Proof. induction vs as [|[[c i] j] vs IH]; [done|]. exact IH. Qed.

Lemma match_visit_sound (expected : list T) vs cur end_ :
  Forall visit_value_ok vs ->
  foldl (match_visit expected) (true, cur) vs = (true, end_) ->
  take cur expected ++ visited_content (content := vc_content) vs = take end_ expected.
Proof.
  intros Hv. revert cur. induction Hv as [|[[c i] j] vs E _ IH]; intros cur; cbn [foldl].
  - intros [= ->]. apply app_nil_r.
  - unfold visit_value_ok in E. cbn [match_visit negb]. rewrite E.
    case_bool_decide as Em; [|by rewrite match_visit_false]. intros Hf%IH. rewrite <- Hf.
    unfold visited_content. cbn [fmap list_fmap concat]. rewrite app_assoc. f_equal.
    unfold slice_get in Em. destruct (_ && _); [|done]. injection Em as Em.
    rewrite <- Em at 1. apply slice_take. lia.
Qed.

Lemma match_visit_complete (expected : list T) vs cur :
  Forall visit_value_ok vs -> cur <= length expected ->
  drop cur expected = visited_content (content := vc_content) vs ->
  foldl (match_visit expected) (true, cur) vs = (true, length expected).
Proof.
  intros Hv. revert cur. induction Hv as [|[[c i] j] vs E _ IH]; intros cur Hc Hd; cbn [foldl].
  - apply (f_equal length) in Hd. rewrite length_drop in Hd. cbn in Hd. f_equal. lia.
  - unfold visit_value_ok in E. cbn [match_visit negb]. rewrite E.
    unfold visited_content in Hd. cbn [fmap list_fmap concat] in Hd.
    fold (visited_content (content := vc_content) vs) in Hd.
    set (x := slice i j (vc_content c)) in *.
    assert (Hl : length expected - cur = length x + length (visited_content (content := vc_content) vs))
      by (by rewrite <- length_drop, Hd, length_app).
    rewrite bool_decide_true.
    + apply IH; [lia|]. by rewrite <- drop_drop, Hd, drop_app_length.
    + unfold slice_get. rewrite (proj2 (Nat.leb_le _ _)), (proj2 (Nat.leb_le _ _)) by lia.
      unfold slice. cbn [andb]. by rewrite <- take_drop_commute, Hd, take_app_length.
Qed.

Lemma range_matches_slice_eq v i j (expected : list T) :
  values_ok v -> i <= j ->
  range_matches_slice v i j expected = bool_decide (slice i j (values_content v) = expected).
Proof.
  intros Hv Hij. unfold range_matches_slice, values_len. rewrite (seq_len_content v Hv).
  change (seq_content v) with (values_content v).
  destruct (values_visit_ok v (Nat.min i (length (values_content v)))
    (Nat.min j (length (values_content v))) Hv) as [Hf E]. rewrite slice_min in E.
  set (n := length (values_content v)) in *.
  rewrite (proj2 (Nat.ltb_ge _ _)) by lia. cbn [orb].
  pose proof (length_slice i j (values_content v)) as Hl. fold n in Hl. case_bool_decide as Ee.
  - subst expected. rewrite Hl, (proj2 (Nat.eqb_eq _ _)) by lia. cbn [negb].
    rewrite match_visit_complete by first [done|lia|by rewrite drop_0].
    by rewrite (proj2 (Nat.eqb_eq _ _)).
  - destruct (Nat.eqb_spec (Nat.min j n - Nat.min i n) (length expected)) as [Hn|]; [|done]. cbn [negb].
    destruct (foldl _ _ _) as [m o] eqn:Em. destruct m; [|done]. cbn [andb].
    destruct (Nat.eqb_spec o (length expected)) as [->|]; [|done].
    apply match_visit_sound in Em; [|done]. destruct Ee. rewrite E, take_0, take_ge in Em by done. done.
Qed.
End Matches.
End Values.

(** ** Runs *)

Section Runs.
Context {T : Type} `{EqDecision T}.
Implicit Types (r : ValueRun T) (v : RunValues T).

Definition run_ok r : Prop := 0 < run_len r.
Definition run_content r : list T := replicate (run_len r) (run_value r).

(** Two values that may meet at the seam of two runs. *)
Definition values_differ (x y : T) : bool := bool_decide (x <> y).

#[export] Instance ValueRun_laws : LeafLaws run_content no_breaks cut_anywhere run_ok.
Proof.
  split; unfold run_ok, run_content, no_breaks; try done.
  - intros r _. by rewrite length_replicate.
  - intros r Hr. by rewrite length_replicate.
  - intros [x n] p. cbn. intros Hn. rewrite length_replicate. intros Hp _.
    exists (mkValueRun x p), (mkValueRun x (n - p)). unfold run_split_at. cbn.
    rewrite (Nat.min_l p), (proj2 (Nat.ltb_lt 0 p)), (proj2 (Nat.ltb_lt 0 (n - p))) by lia.
    split_and!; try done; try lia.
    + by rewrite take_replicate, Nat.min_l by lia.
    + by rewrite drop_replicate.
  - intros a b Ha Hb. cbn. unfold run_rechunk_pair. case_bool_decide as E.
    + split; [constructor; [cbn; lia|done]|]. cbn. rewrite app_nil_r, replicate_add. by rewrite E.
    + split; [by rewrite Forall_cons, Forall_singleton|]. cbn. by rewrite app_nil_r.
Qed.

Lemma last_replicate_pos n (x : T) : 0 < n -> last (replicate n x) = Some x.
Proof.
  destruct n as [|n]; [lia|]. intros _. rewrite last_lookup, length_replicate. cbn [Nat.pred].
  apply lookup_replicate_2. lia.
Qed.

Lemma head_replicate_pos n (x : T) : 0 < n -> head (replicate n x) = Some x.
Proof. destruct n as [|n]; [lia|done]. Qed.

#[export] Instance ValueRun_canonical :
  BreakLaws run_content no_breaks run_ok (fun _ => []) values_differ.
Proof.
  split; unfold no_breaks; try done.
  intros a b Ha Hb _ _. split; [apply Forall_true; done|]. cbn. unfold run_rechunk_pair.
  case_bool_decide as E; cbn; [split; [by intros ? ? _|done]|]. rewrite app_nil_r.
  split_and!; [|by intros ? ? _|done]. unfold run_content.
  intros x y. rewrite last_replicate_pos, head_replicate_pos by done. intros [= <-] [= <-].
  by apply bool_decide_eq_true.
Qed.

Definition runs_content v : list T := seq_content (content := run_content) v.
Definition runs_ok v : Prop := seq_ok (leaf_ok := run_ok) v.

(** Adjacent runs hold different values. *)
Definition runs_canonical v : Prop := glued run_content values_differ (seq_for_each_leaf v).

Definition expand_runs (runs : list (T * nat)) : list T := concat ((fun '(x, n) => replicate n x) <$> runs).

Lemma runs_canonical_exact v :
  runs_canonical v
  <-> seq_exact (content := run_content) (breaks := no_breaks) (measure := fun _ => [])
        (glue := values_differ) v.
Proof.
  unfold runs_canonical, seq_exact, leaves_exact, leaf_exact, no_breaks. split; [|tauto].
  intros Hg. split; [by apply Forall_true|done].
Qed.

Abbreviation runs_leaves := (leaves_content (content := run_content)).

(** A list of runs as [from_runs] keeps it. *)
Definition runs_normal (rs : list (ValueRun T)) : Prop :=
  Forall run_ok rs /\ glued run_content values_differ rs.

Lemma runs_normal_snoc rs r :
  runs_normal (rs ++ [r])
  <-> runs_normal rs /\ run_ok r /\ glue_lists values_differ (runs_leaves rs) (run_content r).
Proof.
  unfold runs_normal. rewrite Forall_app, Forall_singleton.
  split.
  - intros [[Hrs Hr] Hg]. apply (glued_app (leaf_ok := run_ok)) in Hg as (? & _ & Hg); [|done|by constructor].
    rewrite (leaves_content_single (content := run_content)) in Hg. done.
  - intros ([Hrs Hg] & Hr & Hl). split; [done|]. apply (glued_app (leaf_ok := run_ok)); [done|by constructor|].
    rewrite (leaves_content_single (content := run_content)).
    split_and!; [done|split; [by intros ? ? _ ?|done]|done].
Qed.

Lemma runs_leaves_snoc rs r : runs_leaves (rs ++ [r]) = runs_leaves rs ++ run_content r.
Proof. by rewrite leaves_content_app, (leaves_content_single (content := run_content)). Qed.

Lemma push_run_ok rs x n :
  runs_normal rs ->
  runs_normal (push_run rs (x, n)) /\ runs_leaves (push_run rs (x, n)) = runs_leaves rs ++ replicate n x.
Proof.
  intros Hrs. cbn [push_run]. destruct (Nat.eqb_spec n 0) as [->|Hn]; [cbn; by rewrite app_nil_r|].
  destruct (last rs) as [r|] eqn:El.
  - apply last_Some in El as [rs' ->]. rewrite removelast_last.
    apply runs_normal_snoc in Hrs as (Hrs & Hr & Hg). unfold run_ok in *. case_bool_decide as E.
    + rewrite runs_normal_snoc, !runs_leaves_snoc. unfold run_content, run_ok in *. cbn.
      split; [|by rewrite replicate_add, app_assoc, E]. split_and!; [done|lia|].
      intros a b Ha. rewrite head_replicate_pos by lia. intros Hb. apply (Hg a b Ha).
      by rewrite head_replicate_pos by lia.
    + split; [|apply (runs_leaves_snoc (rs' ++ [r]) (mkValueRun x n))].
      apply runs_normal_snoc. split_and!.
      * by apply runs_normal_snoc.
      * unfold run_ok. cbn. lia.
      * intros a b. unfold run_content. cbn [run_value run_len]. rewrite runs_leaves_snoc, last_app.
        unfold run_content. rewrite last_replicate_pos, head_replicate_pos by lia.
        intros [= <-] [= <-]. by apply bool_decide_eq_true.
  - apply last_None in El. subst rs. cbn [app]. split.
    + split; [by constructor; [unfold run_ok; cbn; lia|]|]. cbn. split; [by intros ? ? _ ?|done].
    + by rewrite (leaves_content_single (content := run_content)).
Qed.

Lemma foldl_push_run_ok runs rs :
  runs_normal rs ->
  runs_normal (foldl push_run rs runs)
  /\ runs_leaves (foldl push_run rs runs) = runs_leaves rs ++ expand_runs runs.
Proof.
  revert rs. induction runs as [|[x n] runs IH]; intros rs Hrs; cbn [foldl].
  - split; [done|]. cbn. by rewrite app_nil_r.
  - destruct (push_run_ok rs x n Hrs) as [Hp Ep]. destruct (IH _ Hp) as [Hf Ef].
    split; [done|]. rewrite Ef, Ep. unfold expand_runs. cbn. by rewrite app_assoc.
Qed.

Lemma runs_from_runs_ok (runs : list (T * nat)) :
  runs_ok (runs_from_runs runs) /\ runs_canonical (runs_from_runs runs)
  /\ runs_content (runs_from_runs runs) = expand_runs runs.
Proof.
  destruct (foldl_push_run_ok runs [] ltac:(done)) as [[F G] E].
  destruct (build_balanced_ok (leaf_ok := run_ok) _ F) as (Hok & El & _).
  unfold runs_canonical, runs_content, seq_content, runs_from_runs, seq_from_leaves. rewrite El. done.
Qed.

Lemma replace_range_runs_ok v i j runs :
  runs_ok v -> runs_canonical v ->
  runs_ok (replace_range_runs v i j runs) /\ runs_canonical (replace_range_runs v i j runs)
  /\ runs_content (replace_range_runs v i j runs) = splice i j (expand_runs runs) (runs_content v).
Proof.
  intros Hv Hc. destruct (runs_from_runs_ok runs) as (Hr & Hcr & E).
  destruct (seq_splice_ok i j (runs_from_runs runs) v Hv Hr) as [Hok Ec].
  split_and!; [done| |by rewrite <- E].
  unfold replace_range_runs. rewrite seq_replace_range_clamp.
  apply runs_canonical_exact, (seq_replace_range_exact (starts := cut_anywhere) (leaf_ok := run_ok));
    [done|done| |by intros ? ?|by intros ? ?|by apply runs_canonical_exact..|by left|by left].
  rewrite (seq_len_content v Hv). lia.
Qed.

Lemma runs_history_ok v (edits : list (nat * nat * list (T * nat))) :
  runs_ok v -> runs_canonical v ->
  let w := foldl (fun v '(i, j, rs) => replace_range_runs v i j rs) v edits in
  runs_ok w /\ runs_canonical w
  /\ runs_content w = foldl (fun l '(i, j, rs) => splice i j (expand_runs rs) l) (runs_content v) edits.
Proof.
  revert v. induction edits as [|[[i j] rs] edits IH]; intros v Hv Hc; [done|]. cbn [foldl].
  destruct (replace_range_runs_ok v i j rs Hv Hc) as (Hv' & Hc' & <-). by apply IH.
Qed.

Lemma runs_get_eq v p : runs_ok v -> runs_get v p = runs_content v !! p.
Proof.
  intros Hv. unfold runs_get. pose proof (seq_locate_ok (content := run_content) v p Hv) as Hl.
  destruct (seq_locate v p) as [[r k]|].
  - destruct Hl as (Hr & Hk & E). unfold runs_content. rewrite E. unfold run_content in *.
    rewrite length_replicate in Hk. symmetry. by apply lookup_replicate_2.
  - symmetry. by apply lookup_ge_None_2.
Qed.

Lemma runs_last_eq v : runs_ok v -> runs_last v = last (runs_content v).
Proof.
  intros Hv. unfold runs_last, runs_len. rewrite (seq_len_content (content := run_content) v Hv).
  rewrite (runs_get_eq v _ Hv), last_lookup. change (seq_content v) with (runs_content v).
  destruct (runs_content v); [done|]. cbn. by rewrite Nat.sub_0_r.
Qed.
End Runs.

(** ** Theorems *)

(** A chunked sequence of values is a vector: after any history of
    replacements it holds what the splices make of the vector, and lookup, range
    reads, range comparison and search are those of the vector. *)
Theorem chunked_values_are_a_vector {T} `{!ArcPtrEq (list T)} `{EqDecision T}
    (xs : list T) (edits : list (nat * nat * list T)) :
  let v := foldl (fun v '(i, j, ys) => values_replace_range v i j ys) (values_from_vec xs) edits in
  let flat := foldl (fun l '(i, j, ys) => splice i j ys l) xs edits in
  values_len v = length flat /\ values_to_vec v = flat
  /\ (forall p, values_get v p = flat !! p)
  /\ (forall i j ys, i <= j -> range_matches_slice v i j ys = bool_decide (slice i j flat = ys))
  /\ (forall i j p, first_matching_position v i j p
        = (fun x => i + x.1) <$> list_find (fun x => p x = true) (slice i j flat)).
Proof.
  intros v flat. destruct (values_from_vec_ok xs) as [Hok E].
  assert (values_ok v /\ values_content v = flat) as [Hv Ev].
  { pose proof (values_history_ok (values_from_vec xs) edits Hok) as Hh. by rewrite E in Hh. }
  clearbody v flat. rewrite <- Ev. pose proof (seq_len_content v Hv) as Hl.
  split_and!; intros; [done| |by apply values_get_eq|by apply range_matches_slice_eq
    |by apply first_matching_position_eq].
  unfold values_to_vec. rewrite range_vec_eq by done. rewrite (proj2 (Nat.ltb_ge _ _)) by lia.
  unfold values_len. rewrite Hl. apply slice_full.
Qed.

(** A run-length encoded sequence is canonical: after any history of
    replacements no run is empty, adjacent runs hold different values, and the
    expansion is what the splices make of the expanded vector. *)
Theorem run_values_stay_canonical {T} `{EqDecision T} (runs : list (T * nat))
    (edits : list (nat * nat * list (T * nat))) :
  let v := foldl (fun v '(i, j, rs) => replace_range_runs v i j rs) (runs_from_runs runs) edits in
  let flat := foldl (fun l '(i, j, rs) => splice i j (expand_runs rs) l) (expand_runs runs) edits in
  runs_canonical v /\ Forall (fun r => 0 < run_len r) (seq_for_each_leaf v)
  /\ runs_len v = length flat /\ (forall p, runs_get v p = flat !! p) /\ runs_last v = last flat.
Proof.
  intros v flat. destruct (runs_from_runs_ok runs) as (Hok & Hc & E).
  assert (runs_ok v /\ runs_canonical v /\ runs_content v = flat) as (Hv & Hvc & Ev).
  { pose proof (runs_history_ok (runs_from_runs runs) edits Hok Hc) as Hh. by rewrite E in Hh. }
  clearbody v flat. rewrite <- Ev. split_and!; [done| | | |].
  - exact (seq_ok_leaves v Hv).
  - apply (seq_len_content v Hv).
  - intros. by apply runs_get_eq.
  - by apply runs_last_eq.
Qed.
