(* ===== verification/UndoHistory.v ===== *)
(** * [src/ui/sql_editor/undo_history.rs]: the undo history

    [WordUndoRedoState]: an anchor text, the list of recorded deltas, how many of
    them are applied, and the text that results.  Texts are the ropes of
    [TextRope]; a method that takes [&mut self] returns the new state.  Byte
    totals are [N] because the limit is 64 MiB.  The locks around the state and
    the toolkit's buffer are outside: what [undo] and [redo] tell the buffer is
    the composite edit, and how the buffer replaces a range is a parameter. *)
From S2P Require Import Prelude RustStr Utf8 Rope TextRope.

(** ** Edits *)

Inductive EditGranularity := Gran_Word | Gran_Other.
Inductive EditOperation := Op_Insert | Op_Delete | Op_Replace | Op_Other.

#[export] Instance EditGranularity_eq_dec : EqDecision EditGranularity.
Proof. solve_decision. Defined.
#[export] Instance EditOperation_eq_dec : EqDecision EditOperation.
Proof. solve_decision. Defined.

Record EditGroup := mkEditGroup {
  granularity : EditGranularity;
  operation : EditOperation
}.

Record BufferEdit := mkBufferEdit {
  edit_start : nat;
  edit_deleted_len : nat;
  edit_inserted_text : bytes
}.

Record CompositeBufferEdit := mkComposite {
  comp_start : nat;
  comp_deleted_len : nat;
  comp_inserted_text : bytes
}.

Definition REMOTE_EDIT_CURSOR_DISTANCE : nat := 5.
Definition COMPOSITE_HISTORY_CONTEXT_BYTES : nat := 64.
Definition MAX_WORD_UNDO_HISTORY : nat := 500.
Definition MAX_WORD_UNDO_HISTORY_BYTES : N := 64 * 1024 * 1024.
Definition U64_MAX : N := 18446744073709551615.

Record UndoSnapshot := mkSnapshot {
  snap_text : ChunkedText;
  cursor_pos : nat
}.

Record UndoDelta := mkDelta {
  d_start : nat;
  deleted_text : ChunkedText;
  inserted_text : bytes;
  before_cursor : nat;
  after_cursor : nat;
  group_id : N
}.

Record WordUndoRedoState := mkUndoState {
  anchor : UndoSnapshot;
  current : UndoSnapshot;
  deltas : list UndoDelta;
  history_total_bytes : N;
  index : nat;
  active_group : option (EditGroup * N);
  next_group_id : N;
  applying_history : bool;
  suppress_next_remote_cursor_move : bool;
  finish_group_after_next_edit : bool;
  completion_edit_group_id : option N;
  pending_history_text_snapshots : list ChunkedText
}.

#[export] Instance UndoSnapshot_eta : Eta UndoSnapshot := fun s => mkSnapshot (snap_text s) (cursor_pos s).
#[export] Instance UndoDelta_eta : Eta UndoDelta := fun d =>
  mkDelta (d_start d) (deleted_text d) (inserted_text d) (before_cursor d) (after_cursor d) (group_id d).
#[export] Instance WordUndoRedoState_eta : Eta WordUndoRedoState := fun s =>
  mkUndoState (anchor s) (current s) (deltas s) (history_total_bytes s) (index s) (active_group s)
    (next_group_id s) (applying_history s) (suppress_next_remote_cursor_move s)
    (finish_group_after_next_edit s) (completion_edit_group_id s) (pending_history_text_snapshots s).

Section Undo.
Context `{!ArcPtrEq bytes} `{!ArcPtrEq (list nat)} `{UnicodeTables}.
Implicit Types (st : WordUndoRedoState) (t : ChunkedText).

Definition snapshot_new (text : bytes) (cursor_pos : nat) : UndoSnapshot :=
  mkSnapshot (text_from_string text) cursor_pos.

Definition undo_state_new (initial_text : bytes) : WordUndoRedoState :=
  let initial_snapshot := snapshot_new initial_text (length initial_text) in
  mkUndoState initial_snapshot initial_snapshot [] 0 0 None 1 false false false None [].

Definition normalize_index st : WordUndoRedoState :=
  let st := if length (deltas st) <? index st
            then st <| index := length (deltas st) |> <| active_group := None |> else st in
  st <| current ::= fun c => c <| cursor_pos := clamp_boundary (snap_text c) (cursor_pos c) |> |>.

Fixpoint clamp_str_loop (text : bytes) (idx : nat) : nat :=
  match idx with
  | 0 => 0
  | S before => if negb (str_is_char_boundary text idx) then clamp_str_loop text before else idx
  end.

Definition clamp_to_char_boundary (text : bytes) (idx : nat) : nat :=
  clamp_str_loop text (Nat.min idx (length text)).

Definition normalized_replace_range t (edit : BufferEdit) : nat * nat :=
  let replace_start := clamp_boundary t (edit_start edit) in
  let delete_end := Nat.min (replace_start + edit_deleted_len edit) (text_len t) in
  let replace_end := Nat.max (clamp_boundary t delete_end) replace_start in
  (replace_start, replace_end).

Definition apply_edit_to_snapshot (snapshot : UndoSnapshot) (edit : BufferEdit) : UndoSnapshot :=
  let '(replace_start, replace_end) := normalized_replace_range (snap_text snapshot) edit in
  let text := (replace_range_shared (snap_text snapshot) replace_start replace_end
                 (edit_inserted_text edit)).1 in
  let cursor := Nat.min (replace_start + length (edit_inserted_text edit)) (text_len text) in
  mkSnapshot text (clamp_boundary text cursor).

Definition apply_delta_to_snapshot (snapshot : UndoSnapshot) (delta : UndoDelta) (reverse : bool)
    : UndoSnapshot :=
  let text := snap_text snapshot in
  let start := clamp_boundary text (d_start delta) in
  let delete_len := if reverse then length (inserted_text delta) else text_len (deleted_text delta) in
  let end_ := Nat.max (clamp_boundary text (Nat.min (start + delete_len) (text_len text))) start in
  let text :=
    if reverse then (replace_range_chunked text start end_ (deleted_text delta)).1
    else (replace_range_shared text start end_ (inserted_text delta)).1 in
  let cursor := if reverse then before_cursor delta else after_cursor delta in
  mkSnapshot text (clamp_boundary text cursor).

(** ** Grouping *)

Definition is_word_edit_char (ch : char) : bool := is_alphanumeric ch || N.eqb ch "_"%ch.

Definition ordered (x y : nat) : nat * nat := if x <=? y then (x, y) else (y, x).

Definition is_same_line_chunked t (lhs rhs : nat) : bool :=
  let lhs := clamp_boundary t (Nat.min lhs (text_len t)) in
  let rhs := clamp_boundary t (Nat.min rhs (text_len t)) in
  let '(start, end_) := ordered lhs rhs in
  negb (existsb (N.eqb LF) (default [] (range_string t start end_))).

Definition cursor_distance_chars_chunked t (lhs rhs : nat) : nat :=
  let lhs := clamp_boundary t (Nat.min lhs (text_len t)) in
  let rhs := clamp_boundary t (Nat.min rhs (text_len t)) in
  let '(start, end_) := ordered lhs rhs in
  if REMOTE_EDIT_CURSOR_DISTANCE * 4 <=? end_ - start then REMOTE_EDIT_CURSOR_DISTANCE
  else match range_string t start end_ with
       | Some range => length (str_chars range)
       | None => end_ - start
       end.

(** The loops that widen a word, down from [start] and up from [end_]; each
    step moves by a character, so the length is enough fuel. *)
Fixpoint word_start_loop (fuel : nat) (text : bytes) (start : nat) : nat :=
  match fuel with
  | 0 => start
  | S fuel =>
      if 0 <? start then
        match str_get text 0 start with
        | Some prefix =>
            match last_char prefix with
            | Some (prev_start, ch) =>
                if is_word_edit_char ch then word_start_loop fuel text prev_start else start
            | None => start
            end
        | None => start
        end
      else start
  end.

Fixpoint word_end_loop (fuel : nat) (text : bytes) (end_ : nat) : nat :=
  match fuel with
  | 0 => end_
  | S fuel =>
      if end_ <? length text then
        match str_get text end_ (length text) with
        | Some suffix =>
            match next_char suffix with
            | Some (ch, _) =>
                if is_word_edit_char ch then word_end_loop fuel text (end_ + len_utf8 ch) else end_
            | None => end_
            end
        | None => end_
        end
      else end_
  end.

Definition word_span_touching_offset (text : bytes) (pos : nat) : option (nat * nat) :=
  match text with
  | [] => None
  | _ =>
      let pos := clamp_to_char_boundary text (Nat.min pos (length text)) in
      let before :=
        if pos =? 0 then None
        else match str_get text 0 pos with
             | Some prefix =>
                 match last_char prefix with
                 | Some (start, ch) => if is_word_edit_char ch then Some start else None
                 | None => None
                 end
             | None => None
             end in
      let anchor :=
        if pos <? length text then
          match str_get text pos (length text) with
          | None => None
          | Some suffix =>
              match next_char suffix with
              | None => None
              | Some (ch, _) => if is_word_edit_char ch then Some pos else before
              end
          end
        else before in
      match anchor with
      | None => None
      | Some anchor =>
          Some (word_start_loop (length text) text anchor, word_end_loop (length text) text anchor)
      end
  end.

Definition edit_touches_word_span (edit_start edit_end word_start word_end : nat) : bool :=
  if edit_start =? edit_end then (word_start <=? edit_start) && (edit_start <=? word_end)
  else (edit_start <? word_end) && (word_start <? edit_end).

Definition should_merge_into_active_group st (edit_group : EditGroup) (edit : BufferEdit) : bool :=
  match active_group st with
  | None => false
  | Some (active, _) =>
      if (granularity active != Gran_Word) || (granularity edit_group != Gran_Word)
         || (operation active == Op_Other) || (operation edit_group == Op_Other)
      then false
      else if existsb (N.eqb LF) (edit_inserted_text edit) then false
      else
        let text := snap_text (current st) in
        let current_cursor := cursor_pos (current st) in
        let '(edit_start, edit_end) := normalized_replace_range text edit in
        if REMOTE_EDIT_CURSOR_DISTANCE <=? cursor_distance_chars_chunked text current_cursor edit_start
        then false
        else
          let near_current_cursor := (edit_start <=? current_cursor + 12)
                                     && (current_cursor <=? edit_end + 12) in
          let small_edit := (edit_deleted_len edit <=? 24) && (length (edit_inserted_text edit) <=? 48) in
          if negb near_current_cursor || negb small_edit then false
          else if negb (is_same_line_chunked text current_cursor edit_start)
                  || negb (is_same_line_chunked text current_cursor edit_end)
          then false
          else
            let window_start := clamp_boundary text (current_cursor - 256) in
            let window_end := Nat.min (current_cursor + 256) (text_len text) in
            let current_text := default [] (range_string text window_start window_end) in
            let local_cursor := current_cursor - window_start in
            match word_span_touching_offset current_text local_cursor with
            | None => edit_start =? current_cursor
            | Some (word_start, word_end) =>
                edit_touches_word_span edit_start edit_end
                  (window_start + word_start) (window_start + word_end)
            end
  end.

(** ** The delta list *)

Definition delta_bytes (delta : UndoDelta) : nat :=
  text_len (deleted_text delta) + length (inserted_text delta).

Definition delta_changes_text (delta : UndoDelta) : bool :=
  negb (text_is_empty (deleted_text delta)) || negb (length (inserted_text delta) =? 0).

(** The method [next_group_id]: the id and the state that has handed it out. *)
Definition take_group_id st : N * WordUndoRedoState :=
  let id := next_group_id st in (id, st <| next_group_id := N.min (id + 1) U64_MAX |>).

Definition total_bytes (ds : list UndoDelta) : N := N.of_nat (sum_list_with delta_bytes ds).

Definition truncate_redo_history st : WordUndoRedoState :=
  if length (deltas st) <=? index st then st
  else
    let removed_bytes := total_bytes (drop (index st) (deltas st)) in
    st <| deltas := take (index st) (deltas st) |>
       <| history_total_bytes := (history_total_bytes st - removed_bytes)%N |>
       <| active_group := None |>.

Definition effective_history_byte_limit st : N :=
  N.max MAX_WORD_UNDO_HISTORY_BYTES (2 * N.of_nat (text_len (snap_text (current st)))).

(** The loop removes the oldest delta, which the list of deltas gives. *)
Fixpoint trim_loop (byte_limit : N) (ds : list UndoDelta) (total : N) (idx : nat) (anchor : UndoSnapshot)
    : list UndoDelta * N * nat * UndoSnapshot :=
  match ds with
  | removed :: rest =>
      if (1 <? length ds) && ((MAX_WORD_UNDO_HISTORY <? length ds) || N.ltb byte_limit total)
      then
        let total := (total - N.of_nat (delta_bytes removed))%N in
        if 0 <? idx
        then trim_loop byte_limit rest total (idx - 1) (apply_delta_to_snapshot anchor removed false)
        else trim_loop byte_limit rest total idx anchor
      else (ds, total, idx, anchor)
  | [] => (ds, total, idx, anchor)
  end.

Definition trim_history_if_needed st : WordUndoRedoState :=
  let '(ds, total, idx, anc) :=
    trim_loop (effective_history_byte_limit st) (deltas st) (history_total_bytes st) (index st)
      (anchor st) in
  let idx := if length ds <? idx then length ds else idx in
  let st := st <| deltas := ds |> <| history_total_bytes := total |> <| index := idx |>
               <| anchor := anc |> in
  if idx =? 0 then st <| active_group := None |> else st.

(** [push], with the index at the end. *)
Definition push_delta (delta : UndoDelta) st : WordUndoRedoState :=
  let ds := deltas st ++ [delta] in st <| deltas := ds |> <| index := length ds |>.

(** The delta of a cursor move, applied and pushed. *)
Definition push_cursor_move (current_cursor next_cursor : nat) st : WordUndoRedoState :=
  let '(group_id, st) := take_group_id st in
  let delta := mkDelta next_cursor None [] current_cursor next_cursor group_id in
  let st := st <| current := apply_delta_to_snapshot (current st) delta false |> in
  trim_history_if_needed (push_delta delta st <| active_group := None |>).

Definition record_cursor_move_if_remote (replace_start : nat) (merge_group : bool)
    (edit_group : EditGroup) st : WordUndoRedoState :=
  let suppress_remote_cursor_move := suppress_next_remote_cursor_move st in
  let st := st <| suppress_next_remote_cursor_move := false |> in
  if suppress_remote_cursor_move then st
  else if merge_group || (operation edit_group == Op_Other) then st
  else
    let text := snap_text (current st) in
    let current_cursor := clamp_boundary text (Nat.min (cursor_pos (current st)) (text_len text)) in
    let next_cursor := clamp_boundary text (Nat.min replace_start (text_len text)) in
    if (current_cursor =? next_cursor)
       || (cursor_distance_chars_chunked text current_cursor next_cursor <? REMOTE_EDIT_CURSOR_DISTANCE)
    then st
    else push_cursor_move current_cursor next_cursor st.

Definition finish_active_group st : WordUndoRedoState :=
  st <| active_group := None |> <| suppress_next_remote_cursor_move := false |>
     <| finish_group_after_next_edit := false |> <| completion_edit_group_id := None |>.

Definition sync_current_cursor (pos : nat) st : WordUndoRedoState :=
  st <| current ::= fun c =>
    c <| cursor_pos := clamp_boundary (snap_text c) (Nat.min pos (text_len (snap_text c))) |> |>.

Definition record_cursor_move_to_if_remote (pos : nat) st : WordUndoRedoState :=
  let st := normalize_index st in
  let text := snap_text (current st) in
  let current_cursor := clamp_boundary text (Nat.min (cursor_pos (current st)) (text_len text)) in
  let next_cursor := clamp_boundary text (Nat.min pos (text_len text)) in
  if (current_cursor =? next_cursor)
     || (cursor_distance_chars_chunked text current_cursor next_cursor <? REMOTE_EDIT_CURSOR_DISTANCE)
  then st
  else push_cursor_move current_cursor next_cursor (truncate_redo_history st).

Definition prepare_completion_edit st : WordUndoRedoState :=
  st <| active_group := None |> <| suppress_next_remote_cursor_move := true |>
     <| finish_group_after_next_edit := true |> <| completion_edit_group_id := None |>.

Definition set_last_after_cursor (cursor : nat) (id : option N) (ds : list UndoDelta) : list UndoDelta :=
  match last ds with
  | Some delta =>
      if Some (group_id delta) == id then removelast ds ++ [delta <| after_cursor := cursor |>] else ds
  | None => ds
  end.

Definition finish_completion_edit_cursor (pos : nat) (changed_text : bool) st : WordUndoRedoState :=
  let text := snap_text (current st) in
  let cursor := clamp_boundary text (Nat.min pos (text_len text)) in
  let completion_group_id := completion_edit_group_id st in
  let st := st <| current ::= fun c => c <| cursor_pos := cursor |> |>
               <| completion_edit_group_id := None |>
               <| suppress_next_remote_cursor_move := false |>
               <| finish_group_after_next_edit := false |> in
  if changed_text && bool_decide (is_Some completion_group_id) && (index st =? length (deltas st))
  then st <| deltas := set_last_after_cursor cursor completion_group_id (deltas st) |>
  else st.

(** ** Recording *)

(** [self.history_total_bytes += ..; self.deltas.push(delta); self.index = ..]. *)
Definition push_text_delta (delta : UndoDelta) st : WordUndoRedoState :=
  push_delta delta (st <| history_total_bytes ::= fun n => (n + N.of_nat (delta_bytes delta))%N |>).

Definition record_edit (edit : BufferEdit) (edit_group : EditGroup) st : ChunkedText * WordUndoRedoState :=
  let st := normalize_index st <| pending_history_text_snapshots := [] |> in
  let '(replace_start, replace_end) := normalized_replace_range (snap_text (current st)) edit in
  let deleted := default None (text_slice (snap_text (current st)) replace_start replace_end) in
  let normalized_edit := mkBufferEdit replace_start (replace_end - replace_start) (edit_inserted_text edit) in
  if matches_str deleted (edit_inserted_text normalized_edit) then
    let st := st <| suppress_next_remote_cursor_move := false |>
                 <| finish_group_after_next_edit := false |> <| completion_edit_group_id := None |> in
    (snap_text (current st), st)
  else
    let st := truncate_redo_history st in
    let finish_group_after_edit := finish_group_after_next_edit st in
    let st := st <| finish_group_after_next_edit := false |> in
    let merge_group := should_merge_into_active_group st edit_group normalized_edit in
    let st := record_cursor_move_if_remote replace_start merge_group edit_group st in
    let before_cursor := cursor_pos (current st) in
    let '(group_id, st) :=
      if merge_group then
        match active_group st with Some (_, id) => (id, st) | None => take_group_id st end
      else take_group_id st in
    let st := if finish_group_after_edit then st <| completion_edit_group_id := Some group_id |> else st in
    let st := st <| current := apply_edit_to_snapshot (current st) normalized_edit |> in
    let after_cursor := cursor_pos (current st) in
    let delta := mkDelta replace_start deleted (edit_inserted_text normalized_edit)
                   before_cursor after_cursor group_id in
    let st := push_text_delta delta st in
    let st := st <| active_group := if finish_group_after_edit then None
                                    else Some (edit_group, group_id) |> in
    let st := trim_history_if_needed st in
    (snap_text (current st), st).

Definition programmatic_group : EditGroup := mkEditGroup Gran_Other Op_Replace.

Definition record_programmatic_edit (edit : BufferEdit) (before_cursor after_cursor : nat) st
    : ChunkedText * WordUndoRedoState :=
  let st := normalize_index st <| pending_history_text_snapshots := [] |> in
  let st := truncate_redo_history st in
  let text := snap_text (current st) in
  let '(replace_start, replace_end) := normalized_replace_range text edit in
  let deleted := default None (text_slice text replace_start replace_end) in
  let normalized_edit := mkBufferEdit replace_start (replace_end - replace_start) (edit_inserted_text edit) in
  let before_cursor := clamp_boundary text (Nat.min before_cursor (text_len text)) in
  let '(group_id, st) := take_group_id st in
  let st := st <| current := apply_edit_to_snapshot (current st) normalized_edit |> in
  let text := snap_text (current st) in
  let after_cursor := clamp_boundary text (Nat.min after_cursor (text_len text)) in
  let st := st <| current ::= fun c => c <| cursor_pos := after_cursor |> |> in
  let delta := mkDelta replace_start deleted (edit_inserted_text normalized_edit)
                 before_cursor after_cursor group_id in
  let st := push_text_delta delta st <| active_group := Some (programmatic_group, group_id) |> in
  let st := trim_history_if_needed st in
  (snap_text (current st), st).

Definition record_full_buffer_programmatic_replace (inserted : bytes) (before_cursor after_cursor : nat) st
    : ChunkedText * WordUndoRedoState :=
  let st := normalize_index st <| pending_history_text_snapshots := [] |> in
  let st := truncate_redo_history st in
  let text := snap_text (current st) in
  let before_cursor := clamp_boundary text (Nat.min before_cursor (text_len text)) in
  let deleted := text in
  let '(group_id, st) := take_group_id st in
  let text := text_from_shared_string inserted in
  let after_cursor := clamp_boundary text (Nat.min after_cursor (text_len text)) in
  let st := st <| current := mkSnapshot text after_cursor |> in
  let delta := mkDelta 0 deleted inserted before_cursor after_cursor group_id in
  let st := push_text_delta delta st <| active_group := Some (programmatic_group, group_id) |> in
  let st := trim_history_if_needed st in
  (snap_text (current st), st).

(** [reset_word_undo_state], and [reset_undo_redo_history] on the state. *)
Definition reset_history (snapshot : UndoSnapshot) : WordUndoRedoState :=
  mkUndoState snapshot snapshot [] 0 0 None 1 false false false None [].

Definition reset_word_undo_state : WordUndoRedoState := reset_history (snapshot_new [] 0).

Definition reset_undo_redo_history (current_text : bytes) (cursor_pos : nat) : WordUndoRedoState :=
  reset_history (snapshot_new current_text
    (clamp_to_char_boundary current_text (Nat.min cursor_pos (length current_text)))).

(** ** Undo and redo *)

(** The loop of [take_undo_group], on the index.  The index is normalized, so the
    lookup succeeds; the branch where it does not only moves the index. *)
Fixpoint undo_loop (ds : list UndoDelta) (target : N) (idx : nat) (cur : UndoSnapshot)
    : list UndoDelta * nat * UndoSnapshot :=
  match idx with
  | 0 => ([], 0, cur)
  | S before =>
      match ds !! before with
      | None => ([], length ds, cur)
      | Some delta =>
          if negb (N.eqb (group_id delta) target) then ([], idx, cur)
          else
            let '(group, idx, cur) := undo_loop ds target before (apply_delta_to_snapshot cur delta true) in
            (delta :: group, idx, cur)
      end
  end.

(** What both directions do when something was taken. *)
Definition note_history_group (group : list UndoDelta) st : WordUndoRedoState :=
  match group with
  | [] => st
  | _ =>
      let st := if existsb delta_changes_text group
                then st <| pending_history_text_snapshots ::= vec_push (snap_text (current st)) |> else st in
      st <| active_group := None |> <| applying_history := true |>
  end.

Definition take_undo_group st : list UndoDelta * WordUndoRedoState :=
  let st := normalize_index st <| pending_history_text_snapshots := [] |> in
  if index st =? 0 then ([], st)
  else match deltas st !! (index st - 1) with
       | None => ([], st)
       | Some delta =>
           let '(group, idx, cur) := undo_loop (deltas st) (group_id delta) (index st) (current st) in
           (group, note_history_group group (st <| index := idx |> <| current := cur |>))
       end.

(** The loop of [take_redo_group], on the deltas from the index. *)
Fixpoint redo_loop (target : N) (rest : list UndoDelta) (idx : nat) (cur : UndoSnapshot)
    : list UndoDelta * nat * UndoSnapshot :=
  match rest with
  | [] => ([], idx, cur)
  | delta :: rest =>
      if negb (N.eqb (group_id delta) target) then ([], idx, cur)
      else
        let '(group, idx, cur) := redo_loop target rest (idx + 1) (apply_delta_to_snapshot cur delta false) in
        (delta :: group, idx, cur)
  end.

Definition take_redo_group st : list UndoDelta * WordUndoRedoState :=
  let st := normalize_index st <| pending_history_text_snapshots := [] |> in
  if length (deltas st) <=? index st then ([], st)
  else match deltas st !! index st with
       | None => ([], st)
       | Some delta =>
           let '(group, idx, cur) :=
             redo_loop (group_id delta) (drop (index st) (deltas st)) (index st) (current st) in
           (group, note_history_group group (st <| index := idx |> <| current := cur |>))
       end.

Definition undo_cursor_after_group (group : list UndoDelta) st : nat :=
  match group with
  | [] => cursor_pos (current st)
  | latest_delta :: _ =>
      let earliest_delta := default latest_delta (last group) in
      let all_deletions := forallb (fun delta => (length (inserted_text delta) =? 0)
                                                 && negb (text_is_empty (deleted_text delta))) group in
      let cursor :=
        if all_deletions
        then foldr Nat.min (d_start latest_delta) (d_start <$> group)
             + sum_list_with (fun delta => text_len (deleted_text delta)) group
        else before_cursor earliest_delta in
      clamp_boundary (snap_text (current st)) (Nat.min cursor (text_len (snap_text (current st))))
  end.

(** ** The composite edit of a group *)

Fixpoint common_prefix_loop (lhs rhs : list char) (prefix : nat) : nat :=
  match lhs, rhs with
  | l :: lhs, r :: rhs => if N.eqb l r then common_prefix_loop lhs rhs (prefix + len_utf8 l) else prefix
  | _, _ => prefix
  end.

Definition common_prefix_bytes (lhs rhs : bytes) : nat :=
  common_prefix_loop (str_chars lhs) (str_chars rhs) 0.

Fixpoint common_suffix_loop (left_available right_available : nat) (lhs rhs : list char) (suffix : nat) : nat :=
  match lhs, rhs with
  | l :: lhs, r :: rhs =>
      if negb (N.eqb l r) then suffix
      else if (left_available <? suffix + len_utf8 l) || (right_available <? suffix + len_utf8 l) then suffix
      else common_suffix_loop left_available right_available lhs rhs (suffix + len_utf8 l)
  | _, _ => suffix
  end.

Definition common_suffix_bytes (lhs rhs : bytes) (common_prefix : nat) : nat :=
  common_suffix_loop (length lhs - common_prefix) (length rhs - common_prefix)
    (rev (str_chars lhs)) (rev (str_chars rhs)) 0.

Definition composite_buffer_edit (before after : ChunkedText) (group : list UndoDelta) (reverse : bool)
    : option CompositeBufferEdit :=
  let text_deltas := filter (fun d => delta_changes_text d = true) group in
  match text_deltas with
  | [] => None
  | [first] =>
      Some (mkComposite (d_start first)
        (if reverse then length (inserted_text first) else text_len (deleted_text first))
        (if reverse then to_flat_string (deleted_text first) else inserted_text first))
  | first :: rest =>
      let start := foldr Nat.min (d_start first) (d_start <$> rest) in
      let max_start := foldr Nat.max (d_start first) (d_start <$> rest) in
      let payload_bytes := sum_list_with delta_bytes text_deltas in
      let coverage := max_start - start + payload_bytes + COMPOSITE_HISTORY_CONTEXT_BYTES in
      let before_end := clamp_boundary before (Nat.min (start + coverage) (text_len before)) in
      let unchanged_tail := text_len before - before_end in
      let after_end := clamp_boundary after
        (Nat.min (Nat.max (text_len after - unchanged_tail) start) (text_len after)) in
      match range_string before start before_end, range_string after start after_end with
      | Some before_fragment, Some after_fragment =>
          let common_prefix := common_prefix_bytes before_fragment after_fragment in
          let common_suffix := common_suffix_bytes before_fragment after_fragment common_prefix in
          let replacement_end := length after_fragment - common_suffix in
          match str_get after_fragment common_prefix replacement_end with
          | Some inserted =>
              Some (mkComposite (start + common_prefix)
                (length before_fragment - common_prefix - common_suffix) inserted)
          | None => None
          end
      | _, _ => None
      end
  end.

(** ** The widget's undo and redo

    The toolkit's buffer is its text; [buffer_replace] is its [replace], whose
    positions are 32-bit integers.  The callbacks it fires see
    [applying_history] set and are not part of this file of the program. *)

Definition I32_MAX : Z := 2147483647.

Definition composite_range (buffer_len : nat) (edit : CompositeBufferEdit) : Z * Z :=
  let start := Nat.min (comp_start edit) buffer_len in
  let end_ := Nat.min (start + comp_deleted_len edit) buffer_len in
  (Z.min (Z.of_nat start) I32_MAX, Z.min (Z.of_nat end_) I32_MAX).

Section Widget.
Variable buffer_replace : bytes -> Z -> Z -> bytes -> bytes.

Definition apply_composite_buffer_edit (buffer : bytes) (edit : CompositeBufferEdit) : bytes :=
  let '(start_i32, end_i32) := composite_range (length buffer) edit in
  buffer_replace buffer start_i32 end_i32 (comp_inserted_text edit).

Definition finish_history_step st : WordUndoRedoState :=
  st <| applying_history := false |> <| pending_history_text_snapshots := [] |>.

(** The state, the buffer and where the editor puts its cursor, if anywhere. *)
Definition undo st (buffer : bytes) : WordUndoRedoState * bytes * option nat :=
  let before := snap_text (current st) in
  let '(group, st) := take_undo_group st in
  match group with
  | [] => (st, buffer, None)
  | _ =>
      let buffer :=
        match composite_buffer_edit before (snap_text (current st)) group true with
        | Some edit => apply_composite_buffer_edit buffer edit
        | None => buffer
        end in
      (finish_history_step st, buffer, Some (undo_cursor_after_group group st))
  end.

Definition redo st (buffer : bytes) : WordUndoRedoState * bytes * option nat :=
  let before := snap_text (current st) in
  let '(group, st) := take_redo_group st in
  match group with
  | [] => (st, buffer, None)
  | _ =>
      let buffer :=
        match composite_buffer_edit before (snap_text (current st)) group false with
        | Some edit => apply_composite_buffer_edit buffer edit
        | None => buffer
        end in
      (finish_history_step st, buffer, Some (cursor_pos (current st)))
  end.
End Widget.
End Undo.

(** ** Classification of an edit *)

Definition classify_edit_granularity `{UnicodeTables} (ins del : Z) (inserted deleted : bytes)
    : EditGranularity :=
  if (Z.leb ins 0) && (Z.leb del 0) then Gran_Other
  else if (128 <? length inserted) || (128 <? length deleted) then Gran_Other
  else if (Z.ltb 0 ins && forallb is_word_edit_char (str_chars inserted))
          || (Z.ltb 0 del && forallb is_word_edit_char (str_chars deleted))
  then Gran_Word else Gran_Other.

Definition classify_edit_group `{UnicodeTables} (ins del : Z) (inserted deleted : bytes) : EditGroup :=
  let operation :=
    match Z.ltb 0 ins, Z.ltb 0 del with
    | true, false => Op_Insert
    | false, true => Op_Delete
    | true, true => Op_Replace
    | _, _ => Op_Other
    end in
  mkEditGroup (classify_edit_granularity ins del inserted deleted) operation.

(** ** Walking the query history *)

Record NavigationState := mkNavigation {
  history_cursor : option nat;
  history_original : option bytes;
  history_navigation_entries : option (list bytes)
}.

#[export] Instance NavigationState_eta : Eta NavigationState := fun s =>
  mkNavigation (history_cursor s) (history_original s) (history_navigation_entries s).

(** [navigate_history], on the SQL of the entries.  [snapshot] is what
    [history_snapshot] returns; the result is the new state and the text to show,
    if any. *)
Definition navigate_history (snapshot : option (list bytes)) (direction : Z) (buffer : bytes)
    (st : NavigationState) : NavigationState * option bytes :=
  let entered :=
    match history_cursor st with
    | Some _ => Some st
    | None =>
        match snapshot with
        | None => None
        | Some [] => None
        | Some entries =>
            Some (st <| history_navigation_entries := Some entries |>
                     <| history_original := Some buffer |>)
        end
    end in
  match entered with
  | None => (st, None)
  | Some st =>
      match history_navigation_entries st with
      | None => (st, None)
      | Some entries =>
          match history_cursor st with
          | None =>
              if Z.ltb 0 direction then
                match head entries with
                | Some first => (st <| history_cursor := Some 0 |>, Some first)
                | None => (st, None)
                end
              else (st, None)
          | Some index =>
              if Z.ltb 0 direction then
                match entries !! (index + 1) with
                | Some sql => (st <| history_cursor := Some (index + 1) |>, Some sql)
                | None => (st, None)
                end
              else if index =? 0 then
                (st <| history_cursor := None |> <| history_navigation_entries := None |>
                    <| history_original := None |>, history_original st)
              else
                (st <| history_cursor := Some (index - 1) |>, entries !! (index - 1))
          end
      end
  end.
