(* ===== verification/UndoLaws.v ===== *)
(** * The undo history replays

    A delta takes a text [p ++ X ++ q] to [p ++ Y ++ q], where [X] and [Y] are
    its deleted and inserted texts, in either direction.  [history_ok] says that
    the applied deltas lead from the anchor to the current text and that the
    others lead on from there; every method keeps it. *)
From S2P Require Import Prelude RustStr Utf8 Rope RopeLaws TextRope TextLaws TextSpec UndoHistory.

#[local] Arguments Nat.ltb : simpl never.
#[local] Arguments Nat.leb : simpl never.

Section Laws.
Context `{!ArcPtrEq bytes} `{!ArcPtrEq (list nat)} `{UnicodeTables}.
Implicit Types (st : WordUndoRedoState) (t : ChunkedText) (s : bytes) (d : UndoDelta)
  (snap : UndoSnapshot).

(** ** Steps *)

Definition delta_ok d : Prop := text_ok (deleted_text d) /\ valid_utf8 (inserted_text d).

(** What a delta removes and what it puts, in either direction. *)
Definition removes (reverse : bool) d : bytes :=
  if reverse then inserted_text d else text_content (deleted_text d).
Definition puts (reverse : bool) d : bytes := removes (negb reverse) d.

Definition dstep (reverse : bool) d (s s' : bytes) : Prop :=
  exists p q, length p = d_start d /\ valid_utf8 p /\ valid_utf8 q
    /\ s = p ++ removes reverse d ++ q /\ s' = p ++ puts reverse d ++ q.

Inductive dsteps (reverse : bool) : list UndoDelta -> bytes -> bytes -> Prop :=
| dsteps_nil s : dsteps reverse [] s s
| dsteps_cons d ds s1 s2 s3 :
    delta_ok d -> dstep reverse d s1 s2 -> dsteps reverse ds s2 s3 -> dsteps reverse (d :: ds) s1 s3.

#[local] Hint Constructors dsteps : core.

Lemma removes_valid r d : delta_ok d -> valid_utf8 (removes r d).
Proof. intros [Hd Hi]. destruct r; [done|]. by apply text_content_valid. Qed.

Lemma dstep_reverse r d s s' : dstep r d s s' -> dstep (negb r) d s' s.
Proof.
  intros (p & q & Hp & Vp & Vq & -> & ->). exists p, q. unfold puts. by rewrite negb_involutive.
Qed.

Lemma dstep_valid r d s s' : delta_ok d -> dstep r d s s' -> valid_utf8 s /\ valid_utf8 s'.
Proof.
  intros Hd (p & q & _ & Vp & Vq & -> & ->). unfold puts.
  split; repeat apply valid_utf8_app; auto using removes_valid.
Qed.

Lemma dsteps_app r ds1 ds2 s s' :
  dsteps r (ds1 ++ ds2) s s' <-> exists m, dsteps r ds1 s m /\ dsteps r ds2 m s'.
Proof.
  split.
  - revert s. induction ds1 as [|d ds1 IH]; intros s Hs; [by exists s|].
    cbn in Hs. inversion Hs as [|? ? ? s2 ? Hd H1 H2]; subst.
    destruct (IH _ H2) as (m & Ha & Hb). eauto.
  - intros (m & Ha & Hb). induction Ha; cbn; eauto.
Qed.

Lemma dsteps_reverse r ds s s' : dsteps r ds s s' -> dsteps (negb r) (rev ds) s' s.
Proof.
  induction 1 as [|d ds s1 s2 s3 Hd H1 _ IH]; cbn; [constructor|].
  apply dsteps_app. exists s2. split; [done|]. eauto using dstep_reverse.
Qed.

Lemma dsteps_ok r ds s s' : dsteps r ds s s' -> Forall delta_ok ds.
Proof. induction 1; auto. Qed.

Lemma dsteps_valid r ds s s' : dsteps r ds s s' -> valid_utf8 s -> valid_utf8 s'.
Proof.
  induction 1 as [|d ds s1 s2 s3 Hd H1 _ IH]; [done|]. intros _. apply IH.
  by eapply dstep_valid.
Qed.

Lemma dsteps_snoc r ds d s s' :
  dsteps r (ds ++ [d]) s s' <-> exists m, dsteps r ds s m /\ delta_ok d /\ dstep r d m s'.
Proof.
  rewrite dsteps_app. split; intros (m & Ha & Hb); exists m.
  - inversion Hb as [|? ? ? s2 ? Hd H1 H2]; subst. by inversion H2; subst.
  - destruct Hb. eauto.
Qed.

(** ** Applying a delta to a rope *)

Lemma replace_parts t ins p x q :
  text_ok t -> text_ok ins -> text_content t = p ++ x ++ q ->
  valid_utf8 p -> valid_utf8 x -> valid_utf8 q ->
  let r := (replace_range_chunked t (length p) (length p + length x) ins).1 in
  text_ok r /\ text_content r = p ++ text_content ins ++ q.
Proof.
  intros Ht Hi E Vp Vx Vq r.
  destruct (replace_range_chunked_ok t (length p) (length p + length x) ins Ht Hi) as [Hok Es].
  split; [done|]. subst r. rewrite E in Es. unfold spec_replace in Es.
  rewrite (floor_boundary_id _ (length p)) in Es
    by (apply boundary_app; by apply valid_utf8_app).
  rewrite (floor_boundary_id _ (length p + length x)) in Es.
  - destruct (Nat.ltb_spec (length p + length x) (length p)); [lia|].
    injection Es as -> _. rewrite take_app_length. do 2 f_equal.
    by rewrite app_assoc, <- length_app, drop_app_length.
  - rewrite app_assoc, <- length_app. by apply boundary_app.
Qed.

Lemma clamp_at t p q :
  text_ok t -> text_content t = p ++ q -> valid_utf8 q -> clamp_boundary t (length p) = length p.
Proof.
  intros Ht E Vq. rewrite clamp_boundary_eq, E by done. apply floor_boundary_id. by apply boundary_app.
Qed.

Lemma apply_delta_ok snap d r s s' :
  text_ok (snap_text snap) -> delta_ok d -> dstep r d s s' -> text_content (snap_text snap) = s ->
  text_ok (snap_text (apply_delta_to_snapshot snap d r))
  /\ text_content (snap_text (apply_delta_to_snapshot snap d r)) = s'.
Proof.
  intros Ht Hd (p & q & Hp & Vp & Vq & -> & ->) E. pose proof (removes_valid r d Hd) as Vx.
  unfold apply_delta_to_snapshot. cbn [snap_text]. rewrite <- Hp.
  rewrite (clamp_at _ p (removes r d ++ q)) by (done || by apply valid_utf8_app).
  assert (Hlen : (if r then length (inserted_text d) else text_len (deleted_text d)) = length (removes r d)).
  { destruct r; [done|]. by apply text_len_eq, Hd. }
  rewrite Hlen. rewrite (text_len_eq _ Ht), E, !length_app.
  rewrite Nat.min_l, <- length_app, (clamp_at _ (p ++ removes r d) q), Nat.max_l, length_app
    by first [done|by rewrite <- app_assoc|rewrite length_app; lia|lia].
  destruct r.
  - exact (replace_parts _ (deleted_text d) p _ q Ht (proj1 Hd) E Vp Vx Vq).
  - destruct (text_from_string_ok (inserted_text d) (proj2 Hd)) as (Hi & Ei & _).
    pose proof (replace_parts _ _ p _ q Ht Hi E Vp Vx Vq) as Hr. by rewrite Ei in Hr.
Qed.

(** ** The invariant *)

(** The boundary between applied and undone deltas is one between groups. *)
Definition at_group_end (ds : list UndoDelta) (i : nat) : Prop :=
  forall d d', ds !! (i - 1) = Some d -> ds !! i = Some d' -> 0 < i -> group_id d <> group_id d'.

Record history_ok st : Prop := {
  ok_anchor : text_ok (snap_text (anchor st));
  ok_current : text_ok (snap_text (current st));
  ok_index : index st <= length (deltas st);
  ok_done : dsteps false (take (index st) (deltas st))
              (text_content (snap_text (anchor st))) (text_content (snap_text (current st)));
  ok_undone : exists s, dsteps false (drop (index st) (deltas st))
              (text_content (snap_text (current st))) s;
  ok_total : history_total_bytes st = total_bytes (deltas st);
  ok_group : at_group_end (deltas st) (index st);
  ok_count : length (deltas st) <= MAX_WORD_UNDO_HISTORY
}.

(** Two states with the same history: texts, deltas, index and total. *)
Definition same_history st st' : Prop :=
  anchor st' = anchor st /\ snap_text (current st') = snap_text (current st)
  /\ deltas st' = deltas st /\ history_total_bytes st' = history_total_bytes st /\ index st' = index st.

Lemma same_history_ok st st' : same_history st st' -> history_ok st -> history_ok st'.
Proof.
  intros (Ea & Ec & Ed & Et & Ei) []. split; by rewrite ?Ea, ?Ec, ?Ed, ?Et, ?Ei.
Qed.

Lemma normalize_index_same st : history_ok st -> same_history st (normalize_index st).
Proof.
  intros [_ _ Hi _ _ _ _ _]. unfold normalize_index. rewrite (proj2 (Nat.ltb_ge _ _)) by done. done.
Qed.

Lemma reset_history_ok snap : text_ok (snap_text snap) -> history_ok (reset_history snap).
Proof.
  intros Ht. split; [done|done|done|constructor|eexists; constructor|done|by intros ? ? ?|].
  unfold MAX_WORD_UNDO_HISTORY. cbn. lia.
Qed.

Lemma undo_state_new_ok s : valid_utf8 s -> history_ok (undo_state_new s).
Proof. intros Hv. apply (reset_history_ok (snapshot_new s (length s))). by apply text_from_string_ok. Qed.

(** ** At the tip: no undone deltas *)

Record tip_ok st : Prop := {
  tip_anchor : text_ok (snap_text (anchor st));
  tip_current : text_ok (snap_text (current st));
  tip_index : index st = length (deltas st);
  tip_done : dsteps false (deltas st)
               (text_content (snap_text (anchor st))) (text_content (snap_text (current st)));
  tip_total : history_total_bytes st = total_bytes (deltas st)
}.

Lemma same_history_tip st st' : same_history st st' -> tip_ok st -> tip_ok st'.
Proof. intros (Ea & Ec & Ed & Et & Ei) []. split; by rewrite ?Ea, ?Ec, ?Ed, ?Et, ?Ei. Qed.

Lemma total_bytes_app ds1 ds2 : total_bytes (ds1 ++ ds2) = (total_bytes ds1 + total_bytes ds2)%N.
Proof.
  unfold total_bytes. rewrite <- Nat2N.inj_add. f_equal. induction ds1; cbn; lia.
Qed.

Lemma truncate_redo_ok st :
  history_ok st ->
  tip_ok (truncate_redo_history st)
  /\ anchor (truncate_redo_history st) = anchor st /\ current (truncate_redo_history st) = current st
  /\ deltas (truncate_redo_history st) = take (index st) (deltas st).
Proof.
  intros [Ha Hc Hi Hd _ Ht _ _]. unfold truncate_redo_history.
  destruct (Nat.leb_spec (length (deltas st)) (index st)) as [Hle|Hlt].
  - rewrite take_ge in Hd |- * by lia. split_and!; try done. split; auto. lia.
  - split_and!; try done. split; cbn; auto.
    + rewrite length_take. lia.
    + rewrite Ht, <- (take_drop (index st) (deltas st)) at 1. rewrite total_bytes_app. lia.
Qed.

Lemma trim_loop_ok limit ds anc s :
  text_ok (snap_text anc) -> dsteps false ds (text_content (snap_text anc)) s ->
  let '(ds', total', idx', anc') := trim_loop limit ds (total_bytes ds) (length ds) anc in
  text_ok (snap_text anc') /\ dsteps false ds' (text_content (snap_text anc')) s
  /\ total' = total_bytes ds' /\ idx' = length ds' /\ (exists k, ds' = drop k ds)
  /\ (length ds' <= 1 \/ length ds' <= MAX_WORD_UNDO_HISTORY /\ (total' <= limit)%N).
Proof.
  revert anc. induction ds as [|d ds IH]; intros anc Ht Hd; cbn [trim_loop].
  { split_and!; try done; [by exists 0|left; cbn; lia]. }
  destruct ((1 <? _) && _) eqn:E.
  - inversion Hd as [|? ? ? s2 ? Hok H1 H2]; subst.
    destruct (apply_delta_ok anc d false _ s2 Ht Hok H1 eq_refl) as [Ht' E'].
    specialize (IH (apply_delta_to_snapshot anc d false) Ht'). rewrite E' in IH. specialize (IH H2).
    assert (Etot : (total_bytes (d :: ds) - N.of_nat (delta_bytes d))%N = total_bytes ds).
    { change (d :: ds) with ([d] ++ ds). rewrite total_bytes_app. unfold total_bytes at 1. cbn. lia. }
    rewrite Etot. cbn [length Nat.ltb]. rewrite (proj2 (Nat.ltb_lt 0 (S (length ds)))) by lia.
    replace (S (length ds) - 1) with (length ds) by lia.
    destruct (trim_loop _ _ _ _ _) as [[[ds' total'] idx'] anc'].
    destruct IH as (? & ? & ? & ? & (k & Hk) & ?). split_and!; try done. by exists (S k).
  - split_and!; try done; [by exists 0|]. apply andb_false_iff in E as [E|E].
    + apply Nat.ltb_ge in E. by left.
    + apply orb_false_iff in E as [E1%Nat.ltb_ge E2%N.ltb_ge]. by right.
Qed.

(** Trimming moves the anchor along and keeps the current text. *)
Lemma trim_ok st :
  tip_ok st ->
  let st' := trim_history_if_needed st in
  tip_ok st' /\ history_ok st' /\ current st' = current st
  /\ (exists k, deltas st' = drop k (deltas st))
  /\ (length (deltas st') <= 1
      \/ length (deltas st') <= MAX_WORD_UNDO_HISTORY
         /\ (history_total_bytes st' <= effective_history_byte_limit st')%N).
Proof.
  intros [Ha Hc Hi Hd Ht] st'. subst st'. unfold trim_history_if_needed.
  pose proof (trim_loop_ok (effective_history_byte_limit st) (deltas st) (anchor st) _ Ha Hd) as Htrim.
  rewrite <- Ht, <- Hi in Htrim.
  destruct (trim_loop _ _ _ _ _) as [[[ds' total'] idx'] anc'].
  destruct Htrim as (Ha' & Hd' & Ht' & Hi' & Hk & Hb).
  rewrite (proj2 (Nat.ltb_ge _ _)) by lia. subst idx' total'.
  assert (Hmax : length ds' <= MAX_WORD_UNDO_HISTORY).
  { destruct Hb as [Hb|[Hb _]]; [unfold MAX_WORD_UNDO_HISTORY; lia|done]. }
  destruct (length ds' =? 0); cbn; (split_and!; [split; cbn; auto| |done|done|exact Hb]).
  all: split; cbn; auto; [by rewrite take_ge|rewrite drop_ge by done; eexists; constructor|].
  all: intros d d' _ Hd'' _; apply lookup_lt_Some in Hd''; lia.
Qed.

(** Pushing a delta that leads to the new current text. *)
Lemma push_delta_tip st d cur total :
  tip_ok st -> delta_ok d -> text_ok (snap_text cur) ->
  dstep false d (text_content (snap_text (current st))) (text_content (snap_text cur)) ->
  total = (history_total_bytes st + N.of_nat (delta_bytes d))%N ->
  tip_ok (push_delta d (st <| current := cur |> <| history_total_bytes := total |>)).
Proof.
  intros [Ha Hc Hi Hd Ht] Hok Htc Hstep ->. split; cbn; auto.
  - apply dsteps_snoc. eauto.
  - rewrite total_bytes_app, Ht. unfold total_bytes at 3. cbn. lia.
Qed.

(** A delta that only moves the cursor. *)
Lemma cursor_delta_step t p c1 c2 id :
  text_ok t ->
  let d := mkDelta (clamp_boundary t p) None [] c1 c2 id in
  delta_ok d /\ delta_bytes d = 0 /\ dstep false d (text_content t) (text_content t).
Proof.
  intros Ht d. split; [split; [done|apply valid_utf8_nil]|]. split; [done|].
  unfold dstep, puts, removes. cbn [d_start deleted_text inserted_text negb d].
  rewrite clamp_boundary_eq by done.
  destruct (floor_boundary_ok (text_content t) p) as (Hle & Hb & _).
  destruct (valid_utf8_split _ _ (text_content_valid t Ht) Hb) as [V1 V2].
  exists (take (floor_boundary (text_content t) p) (text_content t)),
    (drop (floor_boundary (text_content t) p) (text_content t)).
  change (text_content None) with (@nil N). cbn [app]. rewrite take_drop, length_take.
  split_and!; try done. lia.
Qed.

Lemma push_cursor_move_ok st c p :
  tip_ok st ->
  let st' := push_cursor_move c (clamp_boundary (snap_text (current st)) p) st in
  tip_ok st' /\ history_ok st'
  /\ text_content (snap_text (current st')) = text_content (snap_text (current st)).
Proof.
  intros Hst st'. subst st'. unfold push_cursor_move. cbn [take_group_id].
  set (d := mkDelta _ _ _ _ _ _). set (st1 := st <| next_group_id := _ |>).
  assert (Htip : tip_ok st1) by (by apply (same_history_tip st)).
  destruct (cursor_delta_step (snap_text (current st)) p c
    (clamp_boundary (snap_text (current st)) p) (next_group_id st) (tip_current _ Hst)) as (Hd & Hz & Hs).
  destruct (apply_delta_ok (current st1) d false _ _ (tip_current _ Htip) Hd Hs eq_refl) as [Ht Ec].
  assert (Hpush : tip_ok (push_delta d (st1 <| current := apply_delta_to_snapshot (current st1) d false |>
            <| history_total_bytes := history_total_bytes st1 |>))).
  { apply push_delta_tip; auto; [by rewrite Ec|]. fold d in Hz. rewrite Hz. lia. }
  destruct (trim_ok (push_delta d (st1 <| current := apply_delta_to_snapshot (current st1) d false |>)
    <| active_group := None |>)) as (H1 & H2 & H3 & _).
  { eapply same_history_tip; [|exact Hpush]. by repeat split. }
  split_and!; [done|done|]. rewrite H3. exact Ec.
Qed.

(** ** Recording *)

(** The range an edit replaces, and the flat edit. *)
Definition edit_range s (start deleted_len : nat) : nat * nat :=
  let a := floor_boundary s start in
  (a, Nat.max (floor_boundary s (Nat.min (a + deleted_len) (length s))) a).

Definition spec_edit s (edit : BufferEdit) : bytes :=
  let '(a, b) := edit_range s (edit_start edit) (edit_deleted_len edit) in
  take a s ++ edit_inserted_text edit ++ drop b s.

Definition range_ok s (a b : nat) : Prop :=
  a <= b <= length s /\ str_is_char_boundary s a = true /\ str_is_char_boundary s b = true.

Lemma edit_range_ok s start len : range_ok s (edit_range s start len).1 (edit_range s start len).2.
Proof.
  unfold range_ok, edit_range. cbn [fst snd].
  destruct (floor_boundary_ok s start) as (L1 & B1 & _).
  set (a := floor_boundary s start) in *.
  destruct (floor_boundary_ok s (Nat.min (a + len) (length s))) as (L2 & B2 & _).
  set (b := floor_boundary s (Nat.min (a + len) (length s))) in *. split_and!; [lia|lia|done|].
  destruct (Nat.le_ge_cases a b); [by rewrite Nat.max_l|by rewrite Nat.max_r].
Qed.

Lemma normalized_range_eq t edit :
  text_ok t ->
  normalized_replace_range t edit = edit_range (text_content t) (edit_start edit) (edit_deleted_len edit).
Proof.
  intros Ht. unfold normalized_replace_range, edit_range.
  by rewrite !(clamp_boundary_eq t), (text_len_eq t Ht) by done.
Qed.

Lemma range_delta t a b ins c1 c2 id :
  text_ok t -> range_ok (text_content t) a b -> valid_utf8 ins ->
  let deleted := default None (text_slice t a b) in
  let d := mkDelta a deleted ins c1 c2 id in
  text_content deleted = slice a b (text_content t) /\ delta_ok d
  /\ dstep false d (text_content t) (take a (text_content t) ++ ins ++ drop b (text_content t)).
Proof.
  intros Ht (Hab & Ba & Bb) Hv deleted d. pose proof (text_content_valid t Ht) as Vt.
  pose proof (text_slice_ok t a b Ht) as Hs. rewrite !floor_boundary_id in Hs by done.
  assert (text_ok deleted /\ text_content deleted = slice a b (text_content t)) as [Hd Ed].
  { subst deleted. destruct (text_slice t a b); [by destruct Hs as (? & _ & ?)|lia]. }
  split_and!; [done|split; done|]. exists (take a (text_content t)), (drop b (text_content t)).
  unfold puts, removes. cbn [negb d_start deleted_text inserted_text d]. rewrite Ed.
  destruct (valid_utf8_split _ _ Vt Ba), (valid_utf8_split _ _ Vt Bb).
  split_and!; try done; [rewrite length_take; lia|].
  rewrite slice_drop, take_drop by lia. done.
Qed.

Lemma apply_range_ok snap a b ins :
  text_ok (snap_text snap) -> range_ok (text_content (snap_text snap)) a b -> valid_utf8 ins ->
  let snap' := apply_edit_to_snapshot snap (mkBufferEdit a (b - a) ins) in
  text_ok (snap_text snap')
  /\ text_content (snap_text snap')
     = take a (text_content (snap_text snap)) ++ ins ++ drop b (text_content (snap_text snap)).
Proof.
  intros Ht (Hab & Ba & Bb) Hv snap'. subst snap'. unfold apply_edit_to_snapshot.
  rewrite normalized_range_eq by done. unfold edit_range. cbn [edit_start edit_deleted_len edit_inserted_text].
  rewrite (floor_boundary_id _ a Ba). replace (a + (b - a)) with b by lia.
  rewrite Nat.min_l, (floor_boundary_id _ b Bb), Nat.max_l by lia. cbn [snap_text].
  destruct (replace_range_ok (snap_text snap) a b ins Ht Hv) as [Hok E]. unfold spec_replace in E.
  rewrite !floor_boundary_id in E by done. destruct (Nat.ltb_spec b a); [lia|].
  injection E as E _. split; [exact Hok|exact E].
Qed.

Lemma record_cursor_move_ok rs merge g st :
  tip_ok st ->
  let st' := record_cursor_move_if_remote rs merge g st in
  tip_ok st' /\ text_content (snap_text (current st')) = text_content (snap_text (current st)).
Proof.
  intros Hst st'. subst st'. unfold record_cursor_move_if_remote.
  set (st1 := st <| suppress_next_remote_cursor_move := false |>).
  assert (Htip : tip_ok st1) by (by apply (same_history_tip st)).
  destruct (suppress_next_remote_cursor_move st); [done|]. destruct (_ || _); [done|].
  destruct (_ || _); [done|]. edestruct (push_cursor_move_ok st1) as (? & _ & ?); [done|]. by split.
Qed.

(** What every recording method does last. *)
Lemma push_text_delta_ok st d cur g :
  tip_ok st -> delta_ok d -> text_ok (snap_text cur) ->
  dstep false d (text_content (snap_text (current st))) (text_content (snap_text cur)) ->
  let st' := trim_history_if_needed
               (push_text_delta d (st <| current := cur |>) <| active_group := g |>) in
  history_ok st' /\ tip_ok st' /\ current st' = cur
  /\ (length (deltas st') <= 1 \/ (history_total_bytes st' <= effective_history_byte_limit st')%N).
Proof.
  intros Hst Hd Hc Hs st'. subst st'.
  pose proof (push_delta_tip st d cur _ Hst Hd Hc Hs eq_refl) as Hp.
  destruct (trim_ok (push_text_delta d (st <| current := cur |>) <| active_group := g |>))
    as (H1 & H2 & H3 & _ & H4).
  { eapply same_history_tip; [|exact Hp]. by repeat split. }
  split_and!; [done|done|exact H3|]. destruct H4 as [?|[_ ?]]; auto.
Qed.

(** A recording method: the history stays consistent, ends at the recorded
    edit, and is within its bounds. *)
Definition recorded st (flat : bytes) (r : ChunkedText * WordUndoRedoState) : Prop :=
  history_ok r.2 /\ r.1 = snap_text (current r.2) /\ text_content r.1 = flat
  /\ (length (deltas r.2) <= 1 \/ (history_total_bytes r.2 <= effective_history_byte_limit r.2)%N
      \/ same_history st r.2).

Lemma clear_pending_same st : same_history st (st <| pending_history_text_snapshots := [] |>).
Proof. by repeat split. Qed.

Lemma same_history_trans st1 st2 st3 :
  same_history st1 st2 -> same_history st2 st3 -> same_history st1 st3.
Proof. intros (? & ? & ? & ? & ?) (? & ? & ? & ? & ?). split_and!; congruence. Qed.

Lemma record_start st :
  history_ok st -> let st' := normalize_index st <| pending_history_text_snapshots := [] |> in
  same_history st st' /\ history_ok st'.
Proof.
  intros Hst st'. assert (same_history st st').
  { eapply same_history_trans; [by apply normalize_index_same|apply clear_pending_same]. }
  split; [done|]. by eapply same_history_ok.
Qed.

(** Recording the replacement of a range of [t], on a tip state whose text is
    that of [t]. *)
Lemma record_range_ok st t st1 a b ins c1 c2 id g cur :
  text_ok t -> tip_ok st1 -> text_content (snap_text (current st1)) = text_content t ->
  range_ok (text_content t) a b -> valid_utf8 ins ->
  snap_text cur = snap_text (apply_edit_to_snapshot (current st1) (mkBufferEdit a (b - a) ins)) ->
  let d := mkDelta a (default None (text_slice t a b)) ins c1 c2 id in
  let st' := trim_history_if_needed
               (push_text_delta d (st1 <| current := cur |>) <| active_group := g |>) in
  recorded st (take a (text_content t) ++ ins ++ drop b (text_content t)) (snap_text (current st'), st').
Proof.
  intros Ht Htip Et Hr Hv Ecur d st'. subst st'.
  destruct (range_delta t a b ins c1 c2 id Ht Hr Hv) as (_ & Hd & Hs). rewrite <- Et in Hr.
  destruct (apply_range_ok (current st1) a b ins (tip_current _ Htip) Hr Hv) as [Hok E].
  rewrite <- Ecur, Et in *.
  destruct (push_text_delta_ok st1 d cur g Htip Hd Hok) as (H1 & _ & H3 & H4); [by rewrite Et, E|].
  split_and!; cbn [fst snd]; [exact H1|done|by rewrite H3|].
  destruct H4 as [?|?]; [left|right; left]; done.
Qed.

Lemma take_group_id_same st : same_history st (take_group_id st).2.
Proof. by repeat split. Qed.

Lemma record_edit_ok st edit g :
  history_ok st -> valid_utf8 (edit_inserted_text edit) ->
  recorded st (spec_edit (text_content (snap_text (current st))) edit) (record_edit edit g st).
Proof.
  intros Hst Hv. destruct (record_start st Hst) as [Hsame Hst0]. unfold record_edit.
  set (st0 := normalize_index st <| _ := _ |>) in *. pose proof (ok_current _ Hst0) as Ht.
  assert (Et : snap_text (current st0) = snap_text (current st)) by apply Hsame.
  rewrite <- Et. unfold spec_edit. rewrite normalized_range_eq by done.
  pose proof (edit_range_ok (text_content (snap_text (current st0))) (edit_start edit)
    (edit_deleted_len edit)) as Hr.
  destruct (edit_range _ _ _) as [a b]. cbn [fst snd] in Hr.
  cbn [edit_inserted_text]. set (flat := take a _ ++ _).
  destruct (range_delta (snap_text (current st0)) a b (edit_inserted_text edit) 0 0 0 Ht Hr Hv)
    as (Ed & Hdel & _).
  rewrite matches_str_eq by apply Hdel. case_bool_decide as Em.
  { split_and!; cbn [fst snd].
    - eapply same_history_ok; [|exact Hst0]. by repeat split.
    - done.
    - subst flat. rewrite <- Em, Ed, slice_drop by apply Hr. by rewrite take_drop.
    - right. right. eapply same_history_trans; [exact Hsame|]. by repeat split. }
  destruct (truncate_redo_ok st0 Hst0) as (Htip & _ & Ec & _).
  set (st1 := truncate_redo_history st0 <| finish_group_after_next_edit := false |>).
  set (merge := should_merge_into_active_group _ _ _).
  assert (Htip1 : tip_ok st1) by (eapply same_history_tip; [|exact Htip]; by repeat split).
  destruct (record_cursor_move_ok a merge g st1 Htip1) as [Htip2 Ec2].
  set (st2 := record_cursor_move_if_remote a merge g st1) in *.
  assert (Ec2' : text_content (snap_text (current st2)) = text_content (snap_text (current st0))).
  { rewrite Ec2. subst st1. cbn. by rewrite Ec. }
  set (idst := if merge then _ else _).
  assert (Hid : same_history st2 idst.2).
  { subst idst. destruct merge; [destruct (active_group st2) as [[? ?]|]|]; by repeat split. }
  destruct idst as [id st3]. cbn [snd] in Hid.
  set (st4 := if finish_group_after_next_edit _ then _ else st3).
  assert (Hst4 : same_history st2 st4).
  { eapply same_history_trans; [exact Hid|]. subst st4. case_match; by repeat split. }
  assert (Ht4 : snap_text (current st4) = snap_text (current st2)) by apply Hst4.
  pose proof (same_history_tip _ _ Hst4 Htip2) as Htip4.
  apply (record_range_ok st (snap_text (current st0))); auto. by rewrite Ht4.
Qed.

Lemma record_programmatic_edit_ok st edit c1 c2 :
  history_ok st -> valid_utf8 (edit_inserted_text edit) ->
  recorded st (spec_edit (text_content (snap_text (current st))) edit)
    (record_programmatic_edit edit c1 c2 st).
Proof.
  intros Hst Hv. destruct (record_start st Hst) as [Hsame Hst0]. unfold record_programmatic_edit.
  set (st0 := normalize_index st <| _ := _ |>) in *.
  destruct (truncate_redo_ok st0 Hst0) as (Htip & _ & Ec & _). set (st1 := truncate_redo_history st0) in *.
  assert (Et : snap_text (current st1) = snap_text (current st)) by (rewrite Ec; apply Hsame).
  rewrite <- Et. unfold spec_edit. rewrite normalized_range_eq by apply Htip.
  pose proof (edit_range_ok (text_content (snap_text (current st1))) (edit_start edit)
    (edit_deleted_len edit)) as Hr.
  destruct (edit_range _ _ _) as [a b]. cbn [fst snd take_group_id edit_inserted_text] in *.
  apply (record_range_ok st (snap_text (current st1)) (take_group_id st1).2); auto; try apply Htip.
  eapply same_history_tip; [apply take_group_id_same|done].
Qed.

Lemma record_full_buffer_ok st ins c1 c2 :
  history_ok st -> valid_utf8 ins ->
  recorded st ins (record_full_buffer_programmatic_replace ins c1 c2 st).
Proof.
  intros Hst Hv. destruct (record_start st Hst) as [Hsame Hst0].
  unfold record_full_buffer_programmatic_replace.
  set (st0 := normalize_index st <| _ := _ |>) in *.
  destruct (truncate_redo_ok st0 Hst0) as (Htip & _ & Ec & _). set (st1 := truncate_redo_history st0) in *.
  cbn [take_group_id]. destruct (text_from_string_ok ins Hv) as (Hi & Ei & _).
  pose proof (tip_current _ Htip) as Ht.
  edestruct (push_text_delta_ok (take_group_id st1).2) as (H1 & _ & H3 & H4);
    [eapply same_history_tip; [apply take_group_id_same|done]| | | |].
  4: split_and!; cbn [fst snd]; [exact H1|done| |].
  4: etransitivity; [exact (f_equal (fun c => text_content (snap_text c)) H3)|exact Ei].
  4: destruct H4 as [?|?]; [left|right; left]; done.
  - split; [exact Ht|exact Hv].
  - exact Hi.
  - exists [], []. unfold puts, removes. cbn. rewrite !app_nil_r.
    split_and!; [done|apply valid_utf8_nil|apply valid_utf8_nil|done|]. exact Ei.
Qed.

(** ** Undo and redo *)

Lemma dstep_det r d s s1 s2 : dstep r d s s1 -> dstep r d s s2 -> s1 = s2.
Proof.
  intros (p & q & Hp & _ & _ & E & ->) (p' & q' & Hp' & _ & _ & E' & ->). rewrite E in E'.
  apply app_inj_1 in E' as [<- E']; [|lia]. by apply app_inv_head in E' as <-.
Qed.

Lemma dsteps_det r ds s s1 s2 : dsteps r ds s s1 -> dsteps r ds s s2 -> s1 = s2.
Proof.
  intros H1. revert s2. induction H1 as [|d ds s m s1 Hd Hs _ IH]; intros s2 H2.
  - by inversion H2.
  - inversion H2 as [|? ? ? m' ? _ Hs' H2']; subst. rewrite <- (dstep_det _ _ _ _ _ Hs Hs') in H2'. auto.
Qed.

Lemma slice_single {A} i (l : list A) x : l !! i = Some x -> slice i (S i) l = [x].
Proof.
  intros Hx. unfold slice. rewrite (take_S_r _ _ _ Hx), drop_app_ge by (rewrite length_take; lia).
  rewrite length_take. apply lookup_lt_Some in Hx. by replace (i - Nat.min i (length l)) with 0 by lia.
Qed.

Lemma undo_loop_ok ds target i cur a :
  text_ok (snap_text cur) -> i <= length ds ->
  dsteps false (take i ds) a (text_content (snap_text cur)) ->
  let '(group, i', cur') := undo_loop ds target i cur in
  i' <= i /\ text_ok (snap_text cur') /\ group = rev (slice i' i ds)
  /\ dsteps false (take i' ds) a (text_content (snap_text cur'))
  /\ dsteps false (slice i' i ds) (text_content (snap_text cur')) (text_content (snap_text cur))
  /\ Forall (fun d => group_id d = target) (slice i' i ds)
  /\ (forall d, 0 < i' -> ds !! (i' - 1) = Some d -> group_id d <> target).
Proof.
  revert cur. induction i as [|n IH]; intros cur Ht Hi Hd; cbn [undo_loop].
  { rewrite slice_nil by lia. split_and!; try done; try constructor. lia. }
  destruct (lookup_lt_is_Some_2 ds n) as [d Ed]; [lia|]. rewrite Ed.
  destruct (N.eqb_spec (group_id d) target) as [Hid|Hid]; cbn [negb].
  - rewrite (take_S_r _ _ _ Ed) in Hd. apply dsteps_snoc in Hd as (m & Hm & Hok & Hs).
    destruct (apply_delta_ok cur d true _ m Ht Hok (dstep_reverse _ _ _ _ Hs) eq_refl) as [Ht' Em].
    specialize (IH (apply_delta_to_snapshot cur d true) Ht' ltac:(lia)). rewrite Em in IH.
    specialize (IH Hm). destruct (undo_loop _ _ _ _) as [[group i'] cur'].
    destruct IH as (Hle & Ht'' & -> & H1 & H2 & H3 & H4).
    rewrite (slice_join i' n (S n)) by lia. rewrite (slice_single n ds d Ed).
    split_and!; [lia|done|by rewrite rev_app_distr|done| | |done].
    + apply dsteps_snoc. eauto.
    + apply Forall_app. split; [done|by constructor].
  - rewrite slice_nil by lia. split_and!; try done; try constructor.
    intros d' _. cbn. rewrite Nat.sub_0_r, Ed. by intros [= <-].
Qed.

Lemma redo_loop_ok target rest i cur final :
  text_ok (snap_text cur) -> dsteps false rest (text_content (snap_text cur)) final ->
  let '(group, i', cur') := redo_loop target rest i cur in
  exists k, k <= length rest /\ i' = i + k /\ group = take k rest /\ text_ok (snap_text cur')
    /\ dsteps false (take k rest) (text_content (snap_text cur)) (text_content (snap_text cur'))
    /\ dsteps false (drop k rest) (text_content (snap_text cur')) final
    /\ Forall (fun d => group_id d = target) (take k rest)
    /\ (forall d, rest !! k = Some d -> group_id d <> target).
Proof.
  revert i cur. induction rest as [|d rest IH]; intros i cur Ht Hd; cbn [redo_loop].
  { inversion Hd; subst. exists 0. cbn. split_and!; try done; try constructor; lia. }
  destruct (N.eqb_spec (group_id d) target) as [Hid|Hid]; cbn [negb].
  - inversion Hd as [|? ? ? m ? Hok Hs Hd']; subst.
    destruct (apply_delta_ok cur d false _ m Ht Hok Hs eq_refl) as [Ht' Em].
    specialize (IH (i + 1) (apply_delta_to_snapshot cur d false) Ht'). rewrite Em in IH.
    specialize (IH Hd'). destruct (redo_loop _ _ _ _) as [[group i'] cur'].
    destruct IH as (k & Hk & -> & -> & Ht'' & H1 & H2 & H3 & H4). exists (S k). cbn.
    split_and!; try done; try lia; [eauto|by constructor].
  - exists 0. cbn. split_and!; try done; try lia; try constructor. by intros d' [= <-].
Qed.

Lemma note_history_group_same g st : same_history st (note_history_group g st).
Proof. destruct g; [done|]. cbn. by destruct (_ || _). Qed.

(** What moving the index within an otherwise unchanged history needs. *)
Lemma move_index_ok st i cur :
  history_ok st -> text_ok (snap_text cur) -> i <= length (deltas st) ->
  dsteps false (take i (deltas st)) (text_content (snap_text (anchor st))) (text_content (snap_text cur)) ->
  (exists s, dsteps false (drop i (deltas st)) (text_content (snap_text cur)) s) ->
  at_group_end (deltas st) i ->
  history_ok (st <| index := i |> <| current := cur |>).
Proof. intros [] Ht Hi H1 H2 H3. split; cbn; auto. Qed.

Lemma drop_slice {A} i j (l : list A) : i <= j -> drop i l = slice i j l ++ drop j l.
Proof. intros. by rewrite slice_drop. Qed.

(** [st'] has the deltas of [st] applied up to an earlier index, and the deltas
    between are one whole group. *)
Record undone st st' : Prop := {
  und_history : history_ok st';
  und_anchor : anchor st' = anchor st;
  und_deltas : deltas st' = deltas st;
  und_index : index st' < index st;
  und_steps : dsteps false (slice (index st') (index st) (deltas st))
                (text_content (snap_text (current st'))) (text_content (snap_text (current st)));
  und_group : exists target,
    Forall (fun d => group_id d = target) (slice (index st') (index st) (deltas st))
    /\ forall d, deltas st !! index st = Some d -> group_id d <> target
}.

Lemma Forall_slice_lookup {A} (P : A -> Prop) i j k (l : list A) x :
  Forall P (slice i j l) -> i <= k < j -> l !! k = Some x -> P x.
Proof.
  intros Hf Hk Hx. eapply Forall_lookup_1 with (i := k - i); [done|].
  unfold slice. rewrite lookup_drop, lookup_take_lt by lia. rewrite <- Hx. f_equal. lia.
Qed.

Lemma take_undo_group_ok st :
  history_ok st ->
  let '(group, st') := take_undo_group st in
  index st = 0 /\ group = [] /\ same_history st st'
  \/ undone st st' /\ group = rev (slice (index st') (index st) (deltas st)).
Proof.
  intros Hst. destruct (record_start st Hst) as [Hsame Hst0]. unfold take_undo_group.
  set (st0 := normalize_index st <| _ := _ |>) in *. clearbody st0.
  destruct (Hsame) as (Ea & Ec & Ed & Et & Ei). destruct (Nat.eqb_spec (index st0) 0) as [Hz|Hz].
  { left. split_and!; [lia|done|done]. }
  pose proof Hst0 as [Ha Hc Hi Hdone [fin Hfin] Htot Hgrp Hcnt].
  destruct (lookup_lt_is_Some_2 (deltas st0) (index st0 - 1)) as [d Hd]; [lia|]. rewrite Hd.
  pose proof (undo_loop_ok (deltas st0) (group_id d) (index st0) (current st0) _ Hc Hi Hdone) as Hl.
  destruct (undo_loop _ _ _ _) as [[group i'] cur']. destruct Hl as (Hle & Ht' & -> & H1 & H2 & H3 & H4).
  assert (Hlt : i' < index st0).
  { destruct (decide (i' = index st0)) as [->|]; [|lia]. by destruct (H4 d ltac:(lia) Hd). }
  set (st1 := st0 <| index := i' |> <| current := cur' |>).
  assert (Hok : history_ok st1).
  { apply move_index_ok; auto; [lia| |].
    - exists fin. rewrite (drop_slice i' (index st0)) by lia. apply dsteps_app. eauto.
    - intros x y Hx Hy Hpos E. destruct (H4 x Hpos Hx). rewrite E.
      exact (Forall_slice_lookup _ _ _ i' _ y H3 ltac:(lia) Hy). }
  pose proof (note_history_group_same (rev (slice i' (index st0) (deltas st0))) st1) as Hn.
  destruct (Hn) as (Na & Nc & Nd & Nt & Ni). right.
  set (st2 := note_history_group _ _) in *. clearbody st2. subst st1. cbn in Na, Nc, Nd, Ni.
  split; [|by rewrite Ni, <- Ei, <- Ed]. split.
  - by eapply same_history_ok.
  - congruence.
  - congruence.
  - lia.
  - rewrite Ni, Nc, <- Ei, <- Ed, <- Ec. exact H2.
  - exists (group_id d). rewrite Ni, <- Ei, <- Ed. split; [done|].
    intros x Hx E. by apply (Hgrp d x Hd Hx); [lia|].
Qed.

Lemma take_redo_group_ok st :
  history_ok st ->
  let '(group, st') := take_redo_group st in
  index st = length (deltas st) /\ group = [] /\ same_history st st'
  \/ undone st' st /\ history_ok st' /\ group = slice (index st) (index st') (deltas st).
Proof.
  intros Hst. destruct (record_start st Hst) as [Hsame Hst0]. unfold take_redo_group.
  set (st0 := normalize_index st <| _ := _ |>) in *. clearbody st0.
  destruct (Hsame) as (Ea & Ec & Ed & Et & Ei).
  pose proof Hst0 as [Ha Hc Hi Hdone [fin Hfin] Htot Hgrp Hcnt].
  destruct (Nat.leb_spec (length (deltas st0)) (index st0)) as [Hz|Hz].
  { left. split_and!; [rewrite <- Ei, <- Ed; lia|done|done]. }
  destruct (lookup_lt_is_Some_2 (deltas st0) (index st0)) as [d Hd]; [lia|]. rewrite Hd.
  pose proof (redo_loop_ok (group_id d) (drop (index st0) (deltas st0)) (index st0) (current st0) fin Hc Hfin)
    as Hl.
  destruct (redo_loop _ _ _ _) as [[group i'] cur'].
  destruct Hl as (k & Hk & -> & -> & Ht' & H1 & H2 & H3 & H4). rewrite length_drop in Hk.
  assert (Hs : take k (drop (index st0) (deltas st0)) = slice (index st0) (index st0 + k) (deltas st0)).
  { unfold slice. by rewrite take_drop_commute. }
  rewrite Hs, drop_drop in *. rewrite lookup_drop in H4.
  assert (Hpos : 0 < k).
  { destruct k; [|lia]. destruct (H4 d); [|done]. by rewrite Nat.add_0_r. }
  set (st1 := st0 <| index := index st0 + k |> <| current := cur' |>).
  assert (Hok : history_ok st1).
  { apply move_index_ok; auto; [lia| |eauto|].
    - rewrite <- (slice_take (index st0) (index st0 + k)) by lia. apply dsteps_app. eauto.
    - intros x y Hx Hy _ E. destruct (H4 y Hy). rewrite <- E.
      refine (Forall_slice_lookup _ _ _ _ _ x H3 _ Hx). lia. }
  pose proof (note_history_group_same (slice (index st0) (index st0 + k) (deltas st0)) st1) as Hn.
  destruct (Hn) as (Na & Nc & Nd & Nt & Ni). right.
  set (st2 := note_history_group _ _) in *. clearbody st2. subst st1. cbn in Na, Nc, Nd, Ni.
  split_and!; [|by eapply same_history_ok|by rewrite Ni, <- Ei, <- Ed]. split.
  - done.
  - congruence.
  - congruence.
  - lia.
  - rewrite Ni, Nc, Nd, <- Ei, <- Ec. exact H1.
  - exists (group_id d). rewrite Ni, Nd, <- Ei. split; done.
Qed.

(** Redoing what was undone, and undoing what was redone. *)
Lemma undone_end_unique st1 st2 st' :
  history_ok st2 -> undone st1 st' -> undone st2 st' -> index st2 <= index st1.
Proof.
  intros H2 [_ _ Ed Hi _ (g & Hf & Hn)] [_ _ Ed' Hi' _ (g' & Hf' & _)].
  apply Nat.nlt_ge. intros Hlt. pose proof (ok_index _ H2) as Hlen. rewrite <- Ed in *. rewrite <- Ed' in *.
  destruct (lookup_lt_is_Some_2 (deltas st') (index st')) as [x Hx]; [lia|].
  destruct (lookup_lt_is_Some_2 (deltas st') (index st1)) as [y Hy]; [lia|].
  destruct (Hn y Hy). transitivity g'.
  - exact (Forall_slice_lookup _ _ _ (index st1) _ y Hf' ltac:(lia) Hy).
  - symmetry. rewrite <- (Forall_slice_lookup _ _ _ (index st') _ x Hf ltac:(lia) Hx).
    exact (Forall_slice_lookup _ _ _ (index st') _ x Hf' ltac:(lia) Hx).
Qed.

Lemma undone_inverse st1 st2 st' :
  history_ok st1 -> history_ok st2 -> undone st1 st' -> undone st2 st' ->
  index st2 = index st1 /\ deltas st2 = deltas st1
  /\ text_content (snap_text (current st2)) = text_content (snap_text (current st1)).
Proof.
  intros H1 H2 U1 U2.
  assert (Hi : index st2 = index st1).
  { apply Nat.le_antisymm; eapply undone_end_unique; eauto. }
  assert (Hd : deltas st2 = deltas st1) by (rewrite <- (und_deltas _ _ U1); by rewrite (und_deltas _ _ U2)).
  split_and!; [done|done|]. pose proof (und_steps _ _ U1) as S1. pose proof (und_steps _ _ U2) as S2.
  rewrite Hi, Hd in S2. by eapply dsteps_det.
Qed.

(** The start of the group before an index is determined as well. *)
Lemma undone_start_le st st1 st2 :
  history_ok st -> undone st st1 -> undone st st2 -> index st2 <= index st1.
Proof.
  intros Hst U1 U2. apply Nat.nlt_ge. intros Hlt. pose proof (ok_index _ Hst) as Hlen.
  pose proof (und_index _ _ U2) as Hi. destruct U1 as [_ _ _ _ _ (g & Hf & _)].
  pose proof (ok_group _ (und_history _ _ U2)) as Hend. rewrite (und_deltas _ _ U2) in Hend.
  destruct (lookup_lt_is_Some_2 (deltas st) (index st2 - 1)) as [x Hx]; [lia|].
  destruct (lookup_lt_is_Some_2 (deltas st) (index st2)) as [y Hy]; [lia|].
  apply (Hend x y Hx Hy ltac:(lia)). transitivity g.
  - exact (Forall_slice_lookup _ _ _ (index st2 - 1) _ x Hf ltac:(lia) Hx).
  - symmetry. exact (Forall_slice_lookup _ _ _ (index st2) _ y Hf ltac:(lia) Hy).
Qed.

Lemma undone_start_unique st st1 st2 :
  history_ok st -> undone st st1 -> undone st st2 ->
  index st2 = index st1
  /\ text_content (snap_text (current st2)) = text_content (snap_text (current st1)).
Proof.
  intros Hst U1 U2. assert (Hi : index st2 = index st1).
  { apply Nat.le_antisymm; eapply undone_start_le; eauto. }
  split; [done|]. pose proof (und_steps _ _ U1) as S1. pose proof (und_steps _ _ U2) as S2.
  rewrite Hi in S2. apply dsteps_reverse in S1, S2. by eapply dsteps_det.
Qed.

(** ** The other methods *)

(** The cursor of the last delta does not matter to the history. *)
Lemma set_last_after_cursor_ok c id st :
  history_ok st -> index st = length (deltas st) ->
  history_ok (st <| deltas := set_last_after_cursor c id (deltas st) |>).
Proof.
  intros Hst Hi. unfold set_last_after_cursor. destruct (last (deltas st)) as [d|] eqn:El; [|by destruct Hst].
  case_bool_decide; [|by destruct Hst]. apply last_Some in El as [ds El].
  destruct Hst as [Ha Hc _ Hd _ Ht _ Hn]. rewrite El in *. rewrite removelast_last.
  rewrite length_app in Hi, Hn. cbn in Hi, Hn. rewrite take_ge in Hd by (rewrite length_app; cbn; lia).
  apply dsteps_snoc in Hd as (m & Hm & Hok & Hs). rewrite total_bytes_app in Ht.
  split; cbn; auto.
  - rewrite length_app. cbn. lia.
  - rewrite take_ge by (rewrite length_app; cbn; lia). apply dsteps_snoc. exists m. split_and!; done.
  - rewrite drop_ge by (rewrite length_app; cbn; lia). eexists. constructor.
  - by rewrite total_bytes_app.
  - intros x y _ Hy _. apply lookup_lt_Some in Hy. rewrite length_app in Hy. cbn in Hy. lia.
  - by rewrite length_app.
Qed.

Lemma finish_completion_ok st p changed :
  history_ok st -> history_ok (finish_completion_edit_cursor p changed st).
Proof.
  intros Hst. unfold finish_completion_edit_cursor. cbn zeta.
  set (st1 := _ <| finish_group_after_next_edit := false |>).
  assert (history_ok st1) by (eapply same_history_ok; [|exact Hst]; by repeat split).
  destruct (_ && _) eqn:E; [|done]. apply andb_true_iff in E as [_ E%Nat.eqb_eq].
  by apply set_last_after_cursor_ok.
Qed.

Lemma record_cursor_move_to_ok st p :
  history_ok st ->
  history_ok (record_cursor_move_to_if_remote p st)
  /\ text_content (snap_text (current (record_cursor_move_to_if_remote p st)))
     = text_content (snap_text (current st)).
Proof.
  intros Hst. unfold record_cursor_move_to_if_remote.
  pose proof (normalize_index_same st Hst) as Hsame. pose proof (same_history_ok _ _ Hsame Hst) as Hst0.
  destruct (_ || _); [by destruct Hsame as (_ & -> & _)|].
  destruct (truncate_redo_ok _ Hst0) as (Htip & _ & Ec & _). rewrite <- Ec.
  edestruct (push_cursor_move_ok (truncate_redo_history (normalize_index st))) as (_ & H1 & H2); [done|].
  split; [exact H1|]. rewrite H2, Ec. by destruct Hsame as (_ & -> & _).
Qed.

(** ** Reachable states *)

Inductive undo_step : WordUndoRedoState -> WordUndoRedoState -> Prop :=
| step_record_edit st edit g :
    valid_utf8 (edit_inserted_text edit) -> undo_step st (record_edit edit g st).2
| step_record_programmatic_edit st edit c1 c2 :
    valid_utf8 (edit_inserted_text edit) -> undo_step st (record_programmatic_edit edit c1 c2 st).2
| step_record_full_buffer st ins c1 c2 :
    valid_utf8 ins -> undo_step st (record_full_buffer_programmatic_replace ins c1 c2 st).2
| step_cursor_move st p : undo_step st (record_cursor_move_to_if_remote p st)
| step_sync_cursor st p : undo_step st (sync_current_cursor p st)
| step_finish_group st : undo_step st (finish_active_group st)
| step_prepare_completion st : undo_step st (prepare_completion_edit st)
| step_finish_completion st p changed : undo_step st (finish_completion_edit_cursor p changed st)
| step_undo st : undo_step st (take_undo_group st).2
| step_redo st : undo_step st (take_redo_group st).2
| step_finish_history st : undo_step st (finish_history_step st)
| step_reset st s p : valid_utf8 s -> undo_step st (reset_undo_redo_history s p).

Inductive reachable_history : WordUndoRedoState -> Prop :=
| reach_new s : valid_utf8 s -> reachable_history (undo_state_new s)
| reach_step st st' : reachable_history st -> undo_step st st' -> reachable_history st'.

Lemma undo_step_ok st st' : undo_step st st' -> history_ok st -> history_ok st'.
Proof.
  intros Hs Hst. destruct Hs.
  - by apply record_edit_ok.
  - by apply record_programmatic_edit_ok.
  - by apply record_full_buffer_ok.
  - by apply record_cursor_move_to_ok.
  - eapply same_history_ok; [|exact Hst]. by repeat split.
  - eapply same_history_ok; [|exact Hst]. by repeat split.
  - eapply same_history_ok; [|exact Hst]. by repeat split.
  - by apply finish_completion_ok.
  - pose proof (take_undo_group_ok st Hst) as Hu. destruct (take_undo_group st) as [g st'].
    destruct Hu as [(_ & _ & Hu)|[[] _]]; [by eapply same_history_ok|done].
  - pose proof (take_redo_group_ok st Hst) as Hu. destruct (take_redo_group st) as [g st'].
    destruct Hu as [(_ & _ & Hu)|(_ & ? & _)]; [by eapply same_history_ok|done].
  - eapply same_history_ok; [|exact Hst]. by repeat split.
  - apply reset_history_ok. by apply text_from_string_ok.
Qed.

Lemma reachable_history_ok st : reachable_history st -> history_ok st.
Proof. induction 1; [by apply undo_state_new_ok|by eapply undo_step_ok]. Qed.
End Laws.
