(* ===== verification/UndoSpec.v ===== *)
(** * Undo and redo

    Composite edits, and that the history replays and its round trips hold. *)
From S2P Require Import Prelude RustStr Utf8 Rope RopeLaws TextRope TextLaws TextSpec UndoHistory UndoLaws.

(** * The composite edit of an undo group

    [composite_buffer_edit] summarises a group of deltas by one replacement,
    reading only a window of the two texts: from the first position a delta
    touches to a bound past the last.  The bound is enough: the text beyond it is
    the same before and after, whatever the order of the deltas. *)

#[local] Arguments Nat.ltb : simpl never.
#[local] Arguments Nat.leb : simpl never.

(** ** Common ends of two lists of characters *)

Lemma length_encode_app cs1 cs2 :
  length (encode_str (cs1 ++ cs2)) = length (encode_str cs1) + length (encode_str cs2).
Proof. by rewrite encode_str_app, length_app. Qed.

Lemma length_encode_cons c cs : length (encode_str (c :: cs)) = len_utf8 c + length (encode_str cs).
Proof. unfold encode_str. cbn. by rewrite length_app, length_utf8_encode. Qed.

Lemma encode_str_nil cs : length (encode_str cs) = 0 -> cs = [].
Proof.
  destruct cs as [|c cs]; [done|]. rewrite length_encode_cons. unfold len_utf8. repeat case_match; lia.
Qed.

(** [lhs] and [rhs] share a prefix of [n] bytes. *)
Definition share_prefix (lhs rhs : list char) (n : nat) : Prop :=
  exists cs lhs' rhs', lhs = cs ++ lhs' /\ rhs = cs ++ rhs' /\ n = length (encode_str cs).

Lemma share_prefix_0 lhs rhs : share_prefix lhs rhs 0.
Proof. by exists [], lhs, rhs. Qed.

Lemma share_prefix_cons c lhs rhs n :
  share_prefix lhs rhs n -> share_prefix (c :: lhs) (c :: rhs) (len_utf8 c + n).
Proof.
  intros (cs & l & r & -> & -> & ->). exists (c :: cs), l, r. by rewrite length_encode_cons.
Qed.

Lemma common_prefix_loop_ok lhs rhs k :
  exists n, common_prefix_loop lhs rhs k = k + n /\ share_prefix lhs rhs n.
Proof.
  revert rhs k. induction lhs as [|l lhs IH]; intros [|r rhs] k; cbn [common_prefix_loop];
    try (exists 0; split; [lia|apply share_prefix_0]).
  destruct (N.eqb_spec l r) as [<-|]; [|exists 0; split; [lia|apply share_prefix_0]].
  destruct (IH rhs (k + len_utf8 l)) as (n & -> & Hn).
  exists (len_utf8 l + n). split; [lia|by apply share_prefix_cons].
Qed.

Lemma common_suffix_loop_ok la ra lhs rhs k :
  k <= la -> k <= ra ->
  exists n, common_suffix_loop la ra lhs rhs k = k + n /\ share_prefix lhs rhs n
    /\ k + n <= la /\ k + n <= ra.
Proof.
  revert rhs k. induction lhs as [|l lhs IH]; intros [|r rhs] k Hl Hr; cbn [common_suffix_loop];
    try (exists 0; split_and!; [lia|apply share_prefix_0|lia|lia]).
  destruct (N.eqb_spec l r) as [<-|]; cbn [negb];
    [|exists 0; split_and!; [lia|apply share_prefix_0|lia|lia]].
  destruct (_ || _) eqn:E; [exists 0; split_and!; [lia|apply share_prefix_0|lia|lia]|].
  apply orb_false_iff in E as [E1%Nat.ltb_ge E2%Nat.ltb_ge].
  destruct (IH rhs (k + len_utf8 l) E1 E2) as (n & -> & Hn & H1 & H2).
  exists (len_utf8 l + n). split_and!; [lia|by apply share_prefix_cons|lia|lia].
Qed.

Lemma length_encode_rev cs : length (encode_str (rev cs)) = length (encode_str cs).
Proof.
  induction cs as [|c cs IH]; [done|]. cbn [rev]. rewrite length_encode_app, IH, !length_encode_cons. cbn. lia.
Qed.

(** A suffix that is no longer than what follows the prefix [x] lies in it. *)
Lemma suffix_after_prefix (x l r y : list char) :
  x ++ l = r ++ y -> length (encode_str y) <= length (encode_str l) -> exists m, l = m ++ y.
Proof.
  intros [(k & -> & E)|(k & -> & ->)]%app_eq_inv Hle; [|by exists k].
  exists []. rewrite E, length_encode_app in Hle. by rewrite E, (encode_str_nil k) by lia.
Qed.

(** The common ends of two fragments: both are [x ++ _ ++ y]. *)
Lemma common_ends_ok s1 s2 :
  valid_utf8 s1 -> valid_utf8 s2 ->
  let cp := common_prefix_bytes s1 s2 in
  let cs := common_suffix_bytes s1 s2 cp in
  exists x m1 m2 y, s1 = x ++ m1 ++ y /\ s2 = x ++ m2 ++ y /\ length x = cp /\ length y = cs
    /\ valid_utf8 x /\ valid_utf8 m2 /\ valid_utf8 y.
Proof.
  intros (c1 & F1 & ->) (c2 & F2 & ->). cbn zeta. unfold common_prefix_bytes, common_suffix_bytes.
  rewrite !str_chars_encode by done.
  destruct (common_prefix_loop_ok c1 c2 0) as (cp & -> & (x & l1 & l2 & -> & -> & ->)).
  rewrite !length_encode_app. cbn [Nat.add]. set (n := length (encode_str x)).
  replace (n + length (encode_str l1) - n) with (length (encode_str l1)) by lia.
  replace (n + length (encode_str l2) - n) with (length (encode_str l2)) by lia.
  destruct (common_suffix_loop_ok (length (encode_str l1)) (length (encode_str l2))
    (rev (x ++ l1)) (rev (x ++ l2)) 0) as (cs & -> & (y & r1 & r2 & S1 & S2 & ->) & B1 & B2); [lia|lia|].
  cbn [Nat.add] in *. rewrite <- length_encode_rev in B1, B2 |- *.
  apply (f_equal (@rev _)) in S1, S2. rewrite rev_involutive, rev_app_distr in S1, S2.
  destruct (suffix_after_prefix _ _ _ _ S1 B1) as [m1 ->], (suffix_after_prefix _ _ _ _ S2 B2) as [m2 ->].
  rewrite !Forall_app in F1, F2. exists (encode_str x), (encode_str m1), (encode_str m2), (encode_str (rev y)).
  rewrite !encode_str_app. split_and!; try done; eexists; (split; [|reflexivity]); tauto.
Qed.

Lemma floor_boundary_slack s p : valid_utf8 s -> p <= length s -> p <= floor_boundary s p + 3.
Proof.
  intros Hv Hp. destruct (floor_boundary_ok s p) as (Hle & Hb & Hm).
  set (f := floor_boundary s p) in *. destruct (Nat.le_gt_cases (length s) f); [lia|].
  destruct (boundary_within s f Hv ltac:(lia) Hb) as (j & Hj & Hbj).
  destruct (Nat.le_gt_cases j p) as [Hjp|]; [|lia]. specialize (Hm j Hjp Hbj). lia.
Qed.

Section Composite.
Context `{!ArcPtrEq bytes} `{!ArcPtrEq (list nat)} `{UnicodeTables}.
Implicit Types (d : UndoDelta) (ds : list UndoDelta) (s : bytes).

(** ** Deltas that change nothing *)

Lemma noop_delta r d : delta_ok d -> delta_changes_text d = false -> removes r d = [] /\ puts r d = [].
Proof.
  intros [Hd _] E. unfold delta_changes_text in E. apply orb_false_iff in E as [E1 E2].
  apply negb_false_iff in E1, E2. apply Nat.eqb_eq, length_zero_iff_nil in E2.
  unfold text_is_empty in E1. rewrite (text_len_eq _ Hd) in E1. apply Nat.eqb_eq, length_zero_iff_nil in E1.
  unfold puts, removes. destruct r; done.
Qed.

Lemma dsteps_filter r ds s s' :
  dsteps r ds s s' -> dsteps r (filter (fun d => delta_changes_text d = true) ds) s s'.
Proof.
  induction 1 as [|d ds s1 s2 s3 Hd Hs _ IH]; [constructor|]. rewrite filter_cons.
  case_decide as E; [by econstructor|]. apply not_true_is_false in E.
  destruct (noop_delta r d Hd E) as [Er Ep]. destruct Hs as (p & q & _ & _ & _ & -> & ->).
  rewrite Er, Ep in *. done.
Qed.

(** ** Before the first touched position *)

Lemma dsteps_prefix r ds s s' lo :
  dsteps r ds s s' -> Forall (fun d => lo <= d_start d) ds -> take lo s' = take lo s.
Proof.
  induction 1 as [|d ds s1 s2 s3 Hd Hs _ IH]; [done|]. intros Hlo. inversion Hlo; subst.
  rewrite IH by done. destruct Hs as (p & q & Hp & _ & _ & -> & ->).
  by rewrite !take_app_le by lia.
Qed.

Lemma dsteps_first r ds s s' d :
  dsteps r ds s s' -> d ∈ ds -> Forall (fun d' => d_start d <= d_start d') ds ->
  valid_utf8 (take (d_start d) s) /\ d_start d <= length s.
Proof.
  intros Hs [ds1 [ds2 ->]]%list_elem_of_split Hlo. apply dsteps_app in Hs as (m & H1 & H2).
  apply Forall_app in Hlo as [Hlo1 _]. pose proof (dsteps_prefix _ _ _ _ _ H1 Hlo1) as Em.
  inversion H2 as [|? ? ? m' ? Hd Hs _]; subst. destruct Hs as (p & q & Hp & Vp & _ & -> & _).
  rewrite <- Hp, take_app_length in Em. rewrite <- Hp, <- Em. split; [done|].
  apply (f_equal length) in Em. rewrite length_take in Em. lia.
Qed.

(** ** Beyond the last touched position *)

Definition payload ds : nat := sum_list_with delta_bytes ds.

Lemma payload_cons d ds : payload (d :: ds) = delta_bytes d + payload ds.
Proof. done. Qed.

Lemma app_split_ge {A} (a z p x q : list A) :
  a ++ z = p ++ x ++ q -> length p + length x <= length a -> exists q', q = q' ++ z /\ a = p ++ x ++ q'.
Proof.
  rewrite app_assoc. intros E Hle. exists (drop (length (p ++ x)) a).
  assert (Ea : a = (p ++ x) ++ drop (length (p ++ x)) a).
  { rewrite <- (take_drop (length (p ++ x)) a) at 1. f_equal.
    apply (f_equal (take (length (p ++ x)))) in E. rewrite take_app_length in E.
    by rewrite take_app_le in E by (rewrite length_app; lia). }
  split; [|by rewrite app_assoc]. rewrite Ea, <- app_assoc in E at 1. by apply app_inv_head in E.
Qed.

Lemma delta_bytes_eq r d : delta_ok d -> delta_bytes d = length (removes r d) + length (puts r d).
Proof.
  intros [Hd _]. unfold delta_bytes, puts, removes. rewrite (text_len_eq _ Hd). destruct r; cbn; lia.
Qed.

Lemma dsteps_tail r ds s s' a z lo :
  dsteps r ds s s' -> s = a ++ z -> Forall (fun d => d_start d + payload ds <= length a) ds ->
  Forall (fun d => lo <= d_start d) ds -> lo <= length a ->
  exists a', s' = a' ++ z /\ lo <= length a'.
Proof.
  intros Hs. revert a. induction Hs as [|d ds s1 s2 s3 Hd Hs _ IH]; intros a -> Hb Hlo Ha; [by exists a|].
  inversion Hb as [|? ? Hb1 Hb2]; inversion Hlo as [|? ? Hlo1 Hlo2]; subst.
  destruct Hs as (p & q & Hp & _ & _ & E & ->).
  pose proof (delta_bytes_eq r d Hd) as Hpay. rewrite payload_cons in *.
  assert (exists q', q = q' ++ z /\ a = p ++ removes r d ++ q') as (q' & -> & ->).
  { apply app_split_ge; [done|]. lia. }
  apply (IH (p ++ puts r d ++ q')); [by rewrite <- !app_assoc| |done|rewrite !length_app in *; lia].
  eapply Forall_impl; [exact Hb2|]. cbn. intros d'. rewrite !length_app. lia.
Qed.

(** ** The composite edit *)

(** The edit takes [before] to [after]. *)
Definition composite_takes (before after : bytes) (e : CompositeBufferEdit) : Prop :=
  comp_start e + comp_deleted_len e <= length before
  /\ take (comp_start e) before ++ comp_inserted_text e
     ++ drop (comp_start e + comp_deleted_len e) before = after.

Lemma composite_takes_intro p x m q start len :
  start = length p -> len = length x ->
  composite_takes (p ++ x ++ q) (p ++ m ++ q) (mkComposite start len m).
Proof.
  intros -> ->. unfold composite_takes. cbn [comp_start comp_deleted_len comp_inserted_text].
  rewrite !length_app. split; [lia|]. rewrite take_app_length.
  by rewrite (app_assoc p x), <- length_app, drop_app_length.
Qed.

Lemma single_composite_ok r d s s' :
  delta_ok d -> dstep r d s s' ->
  composite_takes s s'
    (mkComposite (d_start d) (if r then length (inserted_text d) else text_len (deleted_text d))
       (if r then to_flat_string (deleted_text d) else inserted_text d)).
Proof.
  intros Hd (p & q & Hp & _ & _ & -> & ->).
  assert ((if r then to_flat_string (deleted_text d) else inserted_text d) = puts r d) as ->.
  { unfold puts, removes. destruct r; [|done]. cbn. by apply to_flat_string_eq, Hd. }
  apply composite_takes_intro; [done|]. unfold removes. destruct r; [done|]. by apply text_len_eq, Hd.
Qed.

Lemma foldr_min_ok x xs :
  foldr Nat.min x xs ∈ x :: xs /\ Forall (fun y => foldr Nat.min x xs <= y) (x :: xs).
Proof.
  induction xs as [|y xs [IH1 IH2]]; cbn; [split; [by left|by repeat constructor]|].
  inversion IH2 as [|? ? Hx Hxs]; subst. split.
  - destruct (Nat.min_dec y (foldr Nat.min x xs)) as [-> | ->]; [set_solver|set_solver].
  - repeat constructor; [lia|lia|]. eapply Forall_impl; [exact Hxs|]. cbn. lia.
Qed.

Lemma foldr_max_ok x xs : Forall (fun y => y <= foldr Nat.max x xs) (x :: xs).
Proof.
  induction xs as [|y xs IH]; cbn; [by repeat constructor|].
  inversion IH as [|? ? Hx Hxs]; subst. repeat constructor; [lia|lia|].
  eapply Forall_impl; [exact Hxs|]. cbn. lia.
Qed.

(** The window between a common head of length [n] and a common tail. *)
Lemma window_parts n a a' z :
  valid_utf8 (take n (a ++ z)) -> take n (a' ++ z) = take n (a ++ z) ->
  valid_utf8 a -> valid_utf8 a' -> n <= length a -> n <= length a' ->
  exists p f f', a = p ++ f /\ a' = p ++ f' /\ valid_utf8 p /\ valid_utf8 f /\ valid_utf8 f'
    /\ length p = n.
Proof.
  intros Vp Ep Va Va' Hn Hn'. rewrite !take_app_le in Ep by done. rewrite take_app_le in Vp by done.
  exists (take n a), (drop n a), (drop n a'). rewrite take_drop, <- Ep, take_drop, Ep.
  split_and!; try done.
  - eapply valid_utf8_app_inv; [exact Vp|]. by rewrite take_drop.
  - eapply valid_utf8_app_inv; [exact Vp|]. by rewrite <- Ep, take_drop.
  - rewrite length_take. lia.
Qed.

(** Where the window ends: the texts agree from there on. *)
Lemma composite_tail r ds s s' start max_start :
  dsteps r ds s s' -> valid_utf8 s -> start <= max_start -> start <= length s -> start <= length s' ->
  Forall (fun d => start <= d_start d) ds -> Forall (fun d => d_start d <= max_start) ds ->
  let before_end := floor_boundary s
    (Nat.min (start + (max_start - start + payload ds + COMPOSITE_HISTORY_CONTEXT_BYTES)) (length s)) in
  let after_end := floor_boundary s'
    (Nat.min (Nat.max (length s' - (length s - before_end)) start) (length s')) in
  exists a a' z, s = a ++ z /\ s' = a' ++ z /\ valid_utf8 a /\ valid_utf8 a' /\ valid_utf8 z
    /\ length a = before_end /\ length a' = after_end /\ start <= length a /\ start <= length a'.
Proof.
  intros Hd Vs Hm Hs Hs' Hlo Hhi. cbn zeta. pose proof (dsteps_valid _ _ _ _ Hd Vs) as Vs'.
  unfold COMPOSITE_HISTORY_CONTEXT_BYTES. set (e0 := start + _).
  destruct (Nat.le_gt_cases (length s) e0) as [Hle|Hlt].
  - rewrite Nat.min_r, (floor_boundary_id s (length s) (boundary_end s)) by done.
    exists s, s', []. rewrite !app_nil_r, Nat.sub_diag, Nat.sub_0_r, Nat.max_l, Nat.min_l by lia.
    rewrite (floor_boundary_id s' (length s') (boundary_end s')).
    split_and!; auto using valid_utf8_nil.
  - rewrite (Nat.min_l e0) by lia. pose proof (floor_boundary_slack s e0 Vs ltac:(lia)) as Hsl.
    destruct (floor_boundary_ok s e0) as (He & Be & _). set (e := floor_boundary s e0) in *.
    destruct (valid_utf8_split s e Vs Be) as [Va Vz].
    assert (Hla : length (take e s) = e) by (rewrite length_take; lia).
    destruct (dsteps_tail r ds s s' (take e s) (drop e s) start Hd) as (a' & -> & Ha');
      [by rewrite take_drop| |done|rewrite Hla; subst e0; lia|].
    { eapply Forall_impl; [exact Hhi|]. cbn. intros d Hdm. rewrite Hla. subst e0. lia. }
    exists (take e s), a', (drop e s). rewrite take_drop, Hla.
    rewrite length_app, length_drop, Nat.max_l, Nat.min_l by lia.
    replace (length a' + (length s - e) - (length s - e)) with (length a') by lia.
    rewrite (floor_boundary_id _ (length a') (boundary_app _ _ Vz)).
    split_and!; auto; [|subst e0; lia].
    destruct (valid_utf8_split _ _ Vs' (boundary_app a' _ Vz)) as [Va' _]. by rewrite take_app_length in Va'.
Qed.

Lemma slice_middle {A} (p f z : list A) : slice (length p) (length (p ++ f)) (p ++ f ++ z) = f.
Proof. unfold slice. by rewrite app_assoc, take_app_length, drop_app_length. Qed.

Lemma fragment_eq t p f z :
  text_ok t -> text_content t = p ++ f ++ z -> valid_utf8 f -> valid_utf8 z ->
  range_string t (length p) (length (p ++ f)) = Some f.
Proof.
  intros Ht E Vf Vz. rewrite range_string_eq, E by done.
  rewrite (floor_boundary_id _ (length p)) by (apply boundary_app; by apply valid_utf8_app).
  rewrite (floor_boundary_id _ (length (p ++ f))) by (rewrite app_assoc; by apply boundary_app).
  by rewrite slice_middle.
Qed.

(** Narrowing the window by its common ends. *)
Lemma narrowed_composite_ok p f f' z :
  valid_utf8 f -> valid_utf8 f' ->
  let cp := common_prefix_bytes f f' in
  let cs := common_suffix_bytes f f' cp in
  exists inserted, str_get f' cp (length f' - cs) = Some inserted
    /\ composite_takes (p ++ f ++ z) (p ++ f' ++ z)
         (mkComposite (length p + cp) (length f - cp - cs) inserted).
Proof.
  intros Vf Vf' cp cs. destruct (common_ends_ok f f' Vf Vf') as (x & m & m' & y & Ef & Ef' & Hx & Hy & Vx & Vm & Vy).
  fold cp in Hx, Hy. fold cs in Hy. clearbody cs cp. subst f f' cp cs. exists m'. split.
  - assert (Hl : length (x ++ m' ++ y) - length y = length (x ++ m')) by (rewrite !length_app; lia).
    rewrite Hl, str_get_boundaries.
    + f_equal. apply slice_middle.
    + rewrite length_app. lia.
    + apply boundary_app. by apply valid_utf8_app.
    + rewrite app_assoc. by apply boundary_app.
  - pose proof (composite_takes_intro (p ++ x) m m' (y ++ z)) as Hc.
    rewrite <- !app_assoc in *. apply Hc; rewrite !length_app; lia.
Qed.

Lemma composite_buffer_edit_ok before after group r :
  text_ok before -> text_ok after ->
  dsteps r group (text_content before) (text_content after) ->
  match composite_buffer_edit before after group r with
  | Some e => composite_takes (text_content before) (text_content after) e
  | None => text_content after = text_content before
  end.
Proof.
  intros Hb Ha Hd. apply dsteps_filter in Hd. unfold composite_buffer_edit.
  set (ds := filter _ group) in *. clearbody ds. destruct ds as [|first [|second rest]].
  - by inversion Hd.
  - inversion Hd as [|? ? ? m ? Hok Hs Hd']; subst. inversion Hd'; subst. by apply single_composite_ok.
  - remember (second :: rest) as rest' eqn:Er. clear Er second rest.
    destruct (foldr_min_ok (d_start first) (d_start <$> rest')) as [Hmin Hlo].
    pose proof (foldr_max_ok (d_start first) (d_start <$> rest')) as Hhi.
    rewrite <- (fmap_cons d_start first rest') in Hmin, Hlo, Hhi. rewrite Forall_fmap in Hlo, Hhi.
    apply list_elem_of_fmap in Hmin as (d & Ed & Hin).
    set (start := foldr Nat.min _ _) in *. set (max_start := foldr Nat.max _ _) in *.
    pose proof (text_content_valid _ Hb) as Vb.
    assert (Hlo' : Forall (fun d' => d_start d <= d_start d') (first :: rest')) by (by rewrite <- Ed).
    destruct (dsteps_first r _ _ _ d Hd Hin Hlo') as [Vp Hlen]. rewrite <- Ed in Vp, Hlen.
    pose proof (dsteps_prefix r _ _ _ start Hd Hlo) as Epre.
    assert (Hlen' : start <= length (text_content after)).
    { apply (f_equal length) in Epre. rewrite !length_take in Epre. lia. }
    assert (Hmm : start <= max_start).
    { pose proof (proj1 (Forall_cons_1 _ _ _ Hlo)) as Hl. pose proof (proj1 (Forall_cons_1 _ _ _ Hhi)) as Hh.
      cbn in Hl, Hh. lia. }
    destruct (composite_tail r _ _ _ start max_start Hd Vb Hmm Hlen Hlen' Hlo Hhi)
      as (a & a' & z & Es & Es' & Va & Va' & Vz & La & La' & Ha1 & Ha2).
    rewrite Es in Vp. rewrite Es, Es' in Epre.
    destruct (window_parts start a a' z Vp Epre Va Va' Ha1 Ha2)
      as (p & f & f' & -> & -> & _ & Vf & Vf' & Hp).
    rewrite !(clamp_boundary_eq before), !(clamp_boundary_eq after) by done.
    rewrite !(text_len_eq before Hb), !(text_len_eq after Ha).
    change (sum_list_with delta_bytes (first :: rest')) with (payload (first :: rest')).
    cbn zeta in La, La'. rewrite <- La'. rewrite <- La. rewrite <- Hp, <- !app_assoc in *.
    rewrite (fragment_eq before p f z), (fragment_eq after p f' z) by done.
    destruct (narrowed_composite_ok p f f' z Vf Vf') as (ins & -> & Hc). by rewrite Es, Es'.
Qed.
End Composite.

(** * Theorems on the undo history *)

#[local] Arguments Nat.ltb : simpl never.
#[local] Arguments Nat.leb : simpl never.

(** C14. The undo history never lies: in every reachable state the applied
    deltas lead from the anchor text to the current text, the undone ones lead on
    from there, the byte total is that of the deltas, and there are at most
    [MAX_WORD_UNDO_HISTORY] of them. *)
Theorem undo_history_replays `{!ArcPtrEq bytes} `{!ArcPtrEq (list nat)} `{UnicodeTables} st :
  reachable_history st ->
  index st <= length (deltas st) <= MAX_WORD_UNDO_HISTORY
  /\ dsteps false (take (index st) (deltas st))
       (to_flat_string (snap_text (anchor st))) (to_flat_string (snap_text (current st)))
  /\ (exists s, dsteps false (drop (index st) (deltas st)) (to_flat_string (snap_text (current st))) s)
  /\ history_total_bytes st = total_bytes (deltas st).
Proof.
  intros [Ha Hc Hi Hd Hu Ht _ Hn]%reachable_history_ok. rewrite !to_flat_string_eq by done.
  by split_and!.
Qed.

(** C3. Undo and redo are inverse: redoing the group an undo took back, or
    undoing the group a redo put, leads to the text and the position in the
    history one started from. *)
Theorem undo_redo_round_trip `{!ArcPtrEq bytes} `{!ArcPtrEq (list nat)} `{UnicodeTables} st :
  reachable_history st ->
  (0 < index st ->
   let st' := (take_redo_group (take_undo_group st).2).2 in
   index st' = index st
   /\ to_flat_string (snap_text (current st')) = to_flat_string (snap_text (current st)))
  /\ (index st < length (deltas st) ->
      let st' := (take_undo_group (take_redo_group st).2).2 in
      index st' = index st
      /\ to_flat_string (snap_text (current st')) = to_flat_string (snap_text (current st))).
Proof.
  intros Hst%reachable_history_ok. split; intros Hi; cbn zeta.
  - pose proof (take_undo_group_ok st Hst) as Hu. destruct (take_undo_group st) as [g st1]. cbn [snd].
    destruct Hu as [(? & _)|[U1 _]]; [lia|]. pose proof (und_history _ _ U1) as H1.
    pose proof (take_redo_group_ok st1 H1) as Hr. destruct (take_redo_group st1) as [g' st2]. cbn [snd].
    destruct Hr as [(E & _)|(U2 & H2 & _)].
    + pose proof (ok_index _ Hst). rewrite (und_deltas _ _ U1) in E. pose proof (und_index _ _ U1). lia.
    + destruct (undone_inverse st st2 st1 Hst H2 U1 U2) as (? & _ & E).
      split; [done|]. by rewrite !to_flat_string_eq by (apply ok_current; done).
  - pose proof (take_redo_group_ok st Hst) as Hr. destruct (take_redo_group st) as [g st1]. cbn [snd].
    destruct Hr as [(? & _)|(U1 & H1 & _)]; [lia|].
    pose proof (take_undo_group_ok st1 H1) as Hu. destruct (take_undo_group st1) as [g' st2]. cbn [snd].
    destruct Hu as [(E & _)|[U2 _]]; [pose proof (und_index _ _ U1); lia|].
    destruct (undone_start_unique st1 st st2 H1 U1 U2) as [Ei E].
    split; [done|]. rewrite !to_flat_string_eq; [exact E|apply (ok_current _ Hst)|].
    apply (ok_current _ (und_history _ _ U2)).
Qed.

(** Recording applies the edit: whatever group it joins and whatever is
    trimmed, the new text is the old one with the edit's range replaced, ends
    cut to character boundaries, and the history has at most one delta or fits
    the byte limit. *)
Theorem record_edit_applies_the_edit `{!ArcPtrEq bytes} `{!ArcPtrEq (list nat)} `{UnicodeTables}
    st edit g :
  reachable_history st -> valid_utf8 (edit_inserted_text edit) ->
  let '(text, st') := record_edit edit g st in
  text = snap_text (current st')
  /\ to_flat_string text = spec_edit (to_flat_string (snap_text (current st))) edit
  /\ (length (deltas st') <= 1
      \/ (history_total_bytes st' <= effective_history_byte_limit st')%N
      \/ deltas st' = deltas st /\ index st' = index st).
Proof.
  intros Hst%reachable_history_ok Hv. pose proof (record_edit_ok st edit g Hst Hv) as (H1 & H2 & H3 & H4).
  destruct (record_edit edit g st) as [text st']. cbn [fst snd] in *.
  rewrite !to_flat_string_eq by first [apply (ok_current _ Hst)|rewrite H2; apply (ok_current _ H1)].
  split_and!; [done|done|].
  destruct H4 as [?|[?|(_ & _ & Ed & _ & Ei)]]; auto.
Qed.

(** What the documentation of the toolkit's buffer promises of [replace]. *)
Definition replace_in_range (buffer_replace : bytes -> Z -> Z -> bytes -> bytes) : Prop :=
  forall (buffer : bytes) (i j : nat) (text : bytes), i <= j <= length buffer ->
    buffer_replace buffer (Z.of_nat i) (Z.of_nat j) text = take i buffer ++ text ++ drop j buffer.

Lemma apply_composite_ok buffer_replace before after e :
  replace_in_range buffer_replace -> (Z.of_nat (length before) <= I32_MAX)%Z ->
  composite_takes before after e ->
  apply_composite_buffer_edit buffer_replace before e = after.
Proof.
  intros Hr Hlen [Hle <-]. unfold apply_composite_buffer_edit, composite_range.
  rewrite !Z.min_l, Hr by lia. rewrite (Nat.min_l (comp_start e)) by lia. by rewrite Nat.min_l by lia.
Qed.

(** Undo and redo keep the buffer in step with the history: a buffer that
    shows the current text before shows the current text after, although the
    history tells it of a whole group by one replacement computed from a window
    of the two texts. *)
Theorem undo_redo_keep_buffer_in_step `{!ArcPtrEq bytes} `{!ArcPtrEq (list nat)} `{UnicodeTables}
    (buffer_replace : bytes -> Z -> Z -> bytes -> bytes) st :
  replace_in_range buffer_replace -> reachable_history st ->
  (Z.of_nat (text_len (snap_text (current st))) <= I32_MAX)%Z ->
  let buffer := to_flat_string (snap_text (current st)) in
  (let '(st', buffer', _) := undo buffer_replace st buffer in
   buffer' = to_flat_string (snap_text (current st')))
  /\ (let '(st', buffer', _) := redo buffer_replace st buffer in
      buffer' = to_flat_string (snap_text (current st'))).
Proof.
  intros Hr Hst%reachable_history_ok Hlen. pose proof (ok_current _ Hst) as Hc.
  rewrite (text_len_eq _ Hc) in Hlen. split; cbn zeta.
  - unfold undo. pose proof (take_undo_group_ok st Hst) as Hu.
    destruct (take_undo_group st) as [g st1].
    destruct Hu as [(_ & -> & (_ & E & _))|[U Eg]]; [by rewrite E|].
    pose proof (ok_current _ (und_history _ _ U)) as Hc1.
    pose proof (dsteps_reverse _ _ _ _ (und_steps _ _ U)) as Hs. rewrite <- Eg in Hs.
    pose proof (composite_buffer_edit_ok _ _ g true Hc Hc1 Hs) as Hcomp.
    destruct g as [|d g]; [by inversion Hs as [E|]; rewrite !to_flat_string_eq|].
    rewrite !to_flat_string_eq by done. cbn [finish_history_step].
    destruct (composite_buffer_edit _ _ _ _); [by apply apply_composite_ok|done].
  - unfold redo. pose proof (take_redo_group_ok st Hst) as Hu.
    destruct (take_redo_group st) as [g st1].
    destruct Hu as [(_ & -> & (_ & E & _))|(U & H1 & Eg)]; [by rewrite E|].
    pose proof (ok_current _ H1) as Hc1. pose proof (und_steps _ _ U) as Hs.
    rewrite <- (und_deltas _ _ U), <- Eg in Hs.
    pose proof (composite_buffer_edit_ok _ _ g false Hc Hc1 Hs) as Hcomp.
    destruct g as [|d g]; [by inversion Hs as [E|]; rewrite !to_flat_string_eq|].
    rewrite !to_flat_string_eq by done. cbn [finish_history_step].
    destruct (composite_buffer_edit _ _ _ _); [by apply apply_composite_ok|done].
Qed.

(** ** Walking the query history *)

Definition nav_fresh : NavigationState := mkNavigation None None None.

(** At entry [i], with the buffer the walk started from. *)
Definition nav_at (entries : list bytes) (original : bytes) (i : nat) : NavigationState :=
  mkNavigation (Some i) (Some original) (Some entries).

Lemma navigate_up_first entries first original :
  head entries = Some first ->
  navigate_history (Some entries) 1 original nav_fresh = (nav_at entries original 0, Some first).
Proof. destruct entries; [done|]. by intros [= ->]. Qed.

Lemma navigate_up snapshot entries original buffer i :
  navigate_history snapshot 1 buffer (nav_at entries original i)
  = match entries !! (i + 1) with
    | Some sql => (nav_at entries original (i + 1), Some sql)
    | None => (nav_at entries original i, None)
    end.
Proof. unfold navigate_history. cbn. by destruct (entries !! (i + 1)). Qed.

Lemma navigate_down snapshot entries original buffer i :
  navigate_history snapshot (-1) buffer (nav_at entries original i)
  = if i =? 0 then (nav_fresh, Some original)
    else (nav_at entries original (i - 1), entries !! (i - 1)).
Proof. unfold navigate_history. cbn. by destruct (i =? 0). Qed.

(** A walk: each key press with what the buffer shows then; the history may
    have changed in between. *)
Fixpoint walk (keys : list (option (list bytes) * Z)) (buffer : bytes) (st : NavigationState)
    : NavigationState * bytes :=
  match keys with
  | [] => (st, buffer)
  | (snapshot, direction) :: keys =>
      let '(st, shown) := navigate_history snapshot direction buffer st in
      walk keys (default buffer shown) st
  end.

Lemma walk_app keys1 keys2 buffer st :
  walk (keys1 ++ keys2) buffer st = let '(st', buffer') := walk keys1 buffer st in walk keys2 buffer' st'.
Proof.
  revert buffer st. induction keys1 as [|[sn dir] keys1 IH]; intros buffer st; [done|].
  cbn. destruct (navigate_history _ _ _ _). apply IH.
Qed.

Lemma walk_up entries original ups i buffer :
  i < length entries -> Forall (fun key => key.2 = 1%Z) ups ->
  let j := Nat.min (i + length ups) (length entries - 1) in
  (walk ups buffer (nav_at entries original i)).1 = nav_at entries original j
  /\ (entries !! i = Some buffer -> entries !! j = Some (walk ups buffer (nav_at entries original i)).2).
Proof.
  intros Hi Hup. revert i buffer Hi. induction Hup as [|[sn dir] ups E _ IH]; intros i buffer Hi j.
  - subst j. cbn. rewrite Nat.min_l by lia. by rewrite Nat.add_0_r.
  - cbn in E. subst dir. cbn [walk]. rewrite navigate_up.
    destruct (entries !! (i + 1)) as [sql|] eqn:Es; cbn [default].
    + pose proof (lookup_lt_Some _ _ _ Es). destruct (IH (i + 1) sql ltac:(lia)) as [H1 H2].
      replace (Nat.min (i + 1 + length ups) (length entries - 1)) with j in H1, H2 by (subst j; cbn; lia).
      split; [done|]. intros _. by apply H2.
    + apply lookup_ge_None in Es. destruct (IH i buffer Hi) as [H1 H2].
      replace (Nat.min (i + length ups) (length entries - 1)) with j in H1, H2 by (subst j; cbn; lia).
      by split.
Qed.

Lemma walk_down entries original downs i buffer :
  i < length entries -> length downs = S i -> Forall (fun key => key.2 = (-1)%Z) downs ->
  walk downs buffer (nav_at entries original i) = (nav_fresh, original).
Proof.
  revert downs buffer. induction i as [|i IH]; intros [|[sn dir] downs] buffer Hi Hl Hd; try done;
    inversion Hd as [|? ? E Hd']; subst; cbn in E; subst dir; cbn [walk]; rewrite navigate_down.
  - by destruct downs.
  - cbn [Nat.eqb]. rewrite Nat.sub_1_r. cbn [Nat.pred]. apply IH; [lia| |done]. cbn in Hl. lia.
Qed.

(** Walking through the query history gives the buffer back: any number of
    steps up shows the entry that many steps away, stopping at the oldest, and
    the same number of steps down ends with the text that was in the buffer when
    the walk began, whatever happens to the history meanwhile. *)
Theorem history_walk_restores_the_buffer entries first ups downs buffer :
  head entries = Some first ->
  Forall (fun key => key.2 = 1%Z) ups -> Forall (fun key => key.2 = (-1)%Z) downs ->
  let k := Nat.min (length ups) (length entries - 1) in
  let keys := (Some entries, 1%Z) :: ups in
  entries !! k = Some (walk keys buffer nav_fresh).2
  /\ (length downs = S k -> walk (keys ++ downs) buffer nav_fresh = (nav_fresh, buffer)).
Proof.
  intros Hf Hu Hd k keys. assert (Hpos : 0 < length entries) by (destruct entries; [done|cbn; lia]).
  destruct (walk_up entries buffer ups 0 first Hpos Hu) as [H1 H2]. cbn [Nat.add] in H1, H2.
  fold k in H1, H2.
  assert (E : walk keys buffer nav_fresh = walk ups first (nav_at entries buffer 0)).
  { subst keys. cbn [walk]. by rewrite (navigate_up_first entries first buffer Hf). }
  rewrite walk_app, E. destruct (walk ups first _) as [st shown]. cbn [fst snd] in *. subst st. split.
  - apply H2. by destruct entries.
  - intros Hl. apply walk_down; [lia|done|done].
Qed.

(** ** Witnesses *)

#[local] Instance no_tables : UnicodeTables :=
  {| alphabetic_table := fun _ => false; numeric_table := fun _ => false |}.

#[local] Instance shared_arcs {T} `{EqDecision T} : ArcPtrEq T := {
  ptr_eq x y := bool_decide (x = y);
  ptr_eq_sound x y := bool_decide_eq_true_1 (x = y)
}.

Definition typed (start : nat) (text : bytes) : BufferEdit := mkBufferEdit start 0 text.
Definition word_insert : EditGroup := mkEditGroup Gran_Word Op_Insert.

(** Two keystrokes that make one group, then another line. *)
Definition sample_history : WordUndoRedoState :=
  let st := undo_state_new (u "select ") in
  let st := (record_edit (typed 7 (u "a")) word_insert st).2 in
  let st := (record_edit (typed 8 (u "b")) word_insert st).2 in
  (record_edit (typed 9 (LF :: u "x")) (mkEditGroup Gran_Other Op_Insert) st).2.

Lemma sample_history_reachable : reachable_history sample_history.
Proof.
  unfold sample_history. do 3 (eapply reach_step; [|apply step_record_edit; by apply ascii_valid]).
  apply reach_new. by apply ascii_valid.
Qed.

(** The two keystrokes were grouped: two undo steps lead back to the start. *)
Example sample_history_groups :
  index sample_history = 3 /\ index (take_undo_group sample_history).2 = 2
  /\ index (take_undo_group (take_undo_group sample_history).2).2 = 0.
Proof. vm_compute. done. Qed.

Lemma undo_history_replays_witness :
  history_total_bytes sample_history = total_bytes (deltas sample_history).
Proof. apply undo_history_replays, sample_history_reachable. Defined.

Lemma undo_redo_round_trip_witness :
  index (take_redo_group (take_undo_group sample_history).2).2 = index sample_history.
Proof.
  apply (undo_redo_round_trip sample_history sample_history_reachable).
  vm_compute. lia.
Defined.

Lemma record_edit_applies_the_edit_witness :
  (record_edit (typed 3 (u "zz")) word_insert sample_history).1
  = snap_text (current (record_edit (typed 3 (u "zz")) word_insert sample_history).2).
Proof.
  pose proof (record_edit_applies_the_edit sample_history (typed 3 (u "zz")) word_insert
    sample_history_reachable (ascii_valid (u "zz") eq_refl)) as H.
  destruct (record_edit _ _ _). exact (proj1 H).
Defined.

(** The buffer as the documentation has it. *)
Definition splice_buffer (buffer : bytes) (i j : Z) (text : bytes) : bytes :=
  take (Z.to_nat i) buffer ++ text ++ drop (Z.to_nat j) buffer.

Lemma splice_buffer_in_range : replace_in_range splice_buffer.
Proof. intros buffer i j text _. unfold splice_buffer. by rewrite !Nat2Z.id. Qed.

Lemma undo_redo_keep_buffer_in_step_witness :
  let '(st', buffer', _) :=
    undo splice_buffer sample_history (to_flat_string (snap_text (current sample_history))) in
  buffer' = to_flat_string (snap_text (current st')).
Proof.
  assert (Hlen : (Z.of_nat (text_len (snap_text (current sample_history))) <= I32_MAX)%Z)
    by (vm_compute; discriminate).
  pose proof (undo_redo_keep_buffer_in_step splice_buffer sample_history
    splice_buffer_in_range sample_history_reachable Hlen) as H.
  cbn zeta in H. destruct H as [H _]. exact H.
Defined.

Lemma history_walk_restores_the_buffer_witness :
  walk [(Some [u "a"; u "b"], 1%Z); (None, 1%Z); (None, (-1)%Z); (None, (-1)%Z)] (u "draft") nav_fresh
  = (nav_fresh, u "draft").
Proof.
  apply (history_walk_restores_the_buffer [u "a"; u "b"] (u "a") [(None, 1%Z)]
    [(None, (-1)%Z); (None, (-1)%Z)] (u "draft")); [reflexivity|by repeat constructor|by repeat constructor|].
  reflexivity.
Defined.
