(* ===== verification/TtcWire.v ===== *)
(** * Wire integers and TTC fields

    The integers of the wire, and the readers and writers of a TTC message over a
    buffer with a position. *)
From S2P Require Import Prelude RustStr Utf8.

(** * Machine integers on the wire

    Big-endian bytes of machine words ([to_be_bytes], [from_be_bytes]), the
    accumulation loop the thin driver uses instead, and the signed words it
    accumulates into.  Arithmetic is that of a release build, which wraps. *)

#[local] Open Scope N_scope.

Definition is_byte (b : byte) : Prop := b < 256.
Definition are_bytes (l : bytes) : Prop := Forall is_byte l.

(** [value.to_be_bytes()] of a word of [k] bytes. *)
Fixpoint to_be_bytes (k : nat) (value : N) : bytes :=
  match k with
  | O => []
  | S k => N.land (N.shiftr value (8 * N.of_nat k)) 255 :: to_be_bytes k value
  end.

(** [value = (value << 8) | byte]. *)
Definition be_step (value : N) (b : byte) : N := N.lor (N.shiftl value 8) b.
Definition from_be_bytes (l : bytes) : N := fold_left be_step l 0.

(** [value as uN], [value as iN]. *)
Definition wrap_unsigned (w : N) (v : N) : N := v mod 2 ^ w.
Definition wrap_signed (w : Z) (v : Z) : Z := ((v + 2 ^ (w - 1)) mod 2 ^ w - 2 ^ (w - 1))%Z.

(** The same loop on an [iN]. *)
Definition be_step_signed (w : Z) (value : Z) (b : byte) : Z :=
  Z.lor (wrap_signed w (Z.shiftl value 8)) (Z.of_N b).
Definition from_be_signed (w : Z) (l : bytes) : Z := fold_left (be_step_signed w) l 0%Z.

(** ** Facts *)

Lemma byte_bit b n : is_byte b -> 8 <= n -> N.testbit b n = false.
Proof.
  intros Hb Hn. destruct (decide (b = 0)) as [->|Hz]; [apply N.bits_0|].
  apply N.bits_above_log2. assert (N.log2 b < 8); [|lia].
  apply N.log2_lt_pow2; unfold is_byte in Hb; lia.
Qed.

Lemma lor_byte v b : is_byte b -> N.lor (N.shiftl v 8) b = v * 256 + b.
Proof.
  intros Hb. assert (Hd : N.land (N.shiftl v 8) b = 0).
  { apply N.bits_inj. intros n. rewrite N.land_spec, N.bits_0.
    destruct (N.lt_ge_cases n 8) as [Hn|Hn].
    - by rewrite N.shiftl_spec_low.
    - by rewrite (byte_bit b n), andb_false_r. }
  rewrite <- N.lxor_lor, <- N.add_nocarry_lxor by done. by rewrite N.shiftl_mul_pow2.
Qed.

Lemma be_step_eq v b : is_byte b -> be_step v b = v * 256 + b.
Proof. apply lor_byte. Qed.

Lemma land_255 v : N.land v 255 = v mod 256.
Proof. change 255 with (N.ones 8). by rewrite N.land_ones. Qed.

Lemma to_be_bytes_S k v :
  to_be_bytes (S k) v = (v / 256 ^ N.of_nat k) mod 256 :: to_be_bytes k v.
Proof.
  cbn [to_be_bytes]. rewrite land_255, N.shiftr_div_pow2. do 3 f_equal.
  rewrite N.pow_mul_r. done.
Qed.

Lemma length_to_be_bytes k v : length (to_be_bytes k v) = k.
Proof. induction k; cbn; congruence. Qed.

Lemma to_be_bytes_are_bytes k v : are_bytes (to_be_bytes k v).
Proof.
  induction k as [|k IH]; [constructor|]. rewrite to_be_bytes_S. constructor; [|done].
  unfold is_byte. by apply N.mod_lt.
Qed.

Lemma from_be_acc l acc :
  are_bytes l -> fold_left be_step l acc = acc * 256 ^ N.of_nat (length l) + from_be_bytes l.
Proof.
  unfold from_be_bytes. intros Hl. revert acc. induction Hl as [|b l Hb Hl IH]; intros acc.
  - cbn. lia.
  - cbn [fold_left length]. rewrite IH, (IH (be_step 0 b)), !be_step_eq by done.
    rewrite Nat2N.inj_succ, N.pow_succ_r'. lia.
Qed.

Lemma from_be_cons b l :
  is_byte b -> are_bytes l -> from_be_bytes (b :: l) = b * 256 ^ N.of_nat (length l) + from_be_bytes l.
Proof.
  intros Hb Hl. unfold from_be_bytes at 1. cbn [fold_left].
  rewrite from_be_acc, be_step_eq by done. lia.
Qed.

Lemma from_be_bound l : are_bytes l -> from_be_bytes l < 256 ^ N.of_nat (length l).
Proof.
  induction 1 as [|b l Hb Hl IH]; [done|]. rewrite from_be_cons by done.
  cbn [length]. rewrite Nat2N.inj_succ, N.pow_succ_r'. unfold is_byte in Hb. nia.
Qed.

(** [uN::from_be_bytes(v.to_be_bytes())]. *)
Lemma from_to_be_bytes k v : v < 256 ^ N.of_nat k -> from_be_bytes (to_be_bytes k v) = v.
Proof.
  revert v. induction k as [|k IH]; intros v Hv; [cbn in *; lia|].
  assert (Hm : to_be_bytes k v = to_be_bytes k (v mod 256 ^ N.of_nat k)).
  { clear. set (m := 256 ^ N.of_nat k). assert (Hk : (N.of_nat k <= N.of_nat k)) by lia.
    revert Hk. generalize k at 1 3 4. intros j. induction j as [|j IH]; [done|]. intros Hj.
    rewrite !to_be_bytes_S. f_equal; [|apply IH; lia].
    assert (Hp : m = 256 ^ N.of_nat j * (256 * 256 ^ (N.of_nat k - N.of_nat (S j)))).
    { unfold m. rewrite <- N.pow_succ_r', <- N.pow_add_r. f_equal. lia. }
    rewrite Hp. set (a := 256 ^ N.of_nat j). set (c := 256 ^ (N.of_nat k - N.of_nat (S j))).
    assert (a <> 0) by (by apply N.pow_nonzero). assert (c <> 0) by (by apply N.pow_nonzero).
    rewrite N.Div0.mod_mul_r, N.mul_comm, N.div_add by lia.
    rewrite (N.div_small (v mod a)) by (by apply N.mod_lt). rewrite N.add_0_l.
    rewrite N.Div0.mod_mul_r, N.mul_comm, N.Div0.mod_add. by rewrite N.Div0.mod_mod. }
  rewrite to_be_bytes_S, from_be_cons, length_to_be_bytes; [| |apply to_be_bytes_are_bytes].
  2: { by apply N.mod_lt. }
  rewrite Nat2N.inj_succ, N.pow_succ_r' in Hv.
  assert (256 ^ N.of_nat k <> 0) by (by apply N.pow_nonzero).
  rewrite (N.mod_small (v / _)) by (apply N.Div0.div_lt_upper_bound; lia).
  rewrite Hm, IH by (by apply N.mod_lt). pose proof (N.div_mod v (256 ^ N.of_nat k)). lia.
Qed.

#[local] Close Scope N_scope.

(** * The thin driver's wire: packets, the cursor over them, TTC fields

    [write_data_packet] and [read_tns_packet] frame payloads as TNS packets;
    [PacketCursor] reads TTC fields out of one packet or out of a response that
    is still arriving; the writers produce such fields.  A stream is the bytes the
    peer will send before the connection ends, so a read beyond them fails.  The
    handshake after a marker packet ([read_data_after_marker_reset], which also
    writes to the peer) is a parameter. *)

(** ** Results

    The messages of [OracleThinError::new] that this code builds. *)
Inductive WireError :=
  | ShortPacket (context : string)
  | IncompleteResponse
  | InvalidUniversalLength (len offset : nat) (context : bytes)
  | OutOfRange (field : string) (value : N)
  | InvalidSignedLength (field : string) (len : nat)
  | ShortField
  | InvalidUtf8
  | ReadHeader
  | ReadBody (packet_type : byte) (size : nat)
  | InvalidPacketLength (size : nat)
  | InvalidDataPacketLength (size : nat)
  | UnexpectedPacketType (packet_type : byte)
  | InvalidControlLength (size : nat)
  | InvalidNotificationLength (size : nat)
  | ExceededIdleTime
  | UnsupportedNotification (error : N)
  | FieldTooLarge (len : nat)
  | PacketTooLarge (size : nat).

Inductive Result (A : Type) :=
  | Ok (value : A)
  | Err (error : WireError).
Arguments Ok {A} value.
Arguments Err {A} error.

(** ** Packets *)

Definition TNS_PACKET_TYPE_DATA : byte := 6.
Definition TNS_PACKET_TYPE_MARKER : byte := 12.
Definition TNS_PACKET_TYPE_CONTROL : byte := 14.
Definition TNS_CONTROL_TYPE_INBAND_NOTIFICATION : N := 8.
Definition TNS_CONTROL_TYPE_RESET_OOB : N := 9.
Definition TNS_ERR_EXCEEDED_IDLE_TIME : N := 2396.
Definition TNS_ERR_SESSION_SHUTDOWN : N := 12572.
Definition TNS_ERR_INBAND_MESSAGE : N := 12573.
Definition TNS_DATA_FLAGS_EOF : N := 64.
Definition TNS_DATA_FLAGS_END_OF_RESPONSE : N := 8192.
Definition TNS_LONG_LENGTH_INDICATOR : byte := 254.
Definition TNS_LEGACY_NULL_LENGTH_INDICATOR : byte := 253.
Definition TNS_LEGACY_CLR_CHUNK_SIZE : nat := 64.
Definition TNS_BIG_CLR_CHUNK_SIZE : nat := Z.to_nat 32767.
Definition PACKET_CURSOR_COMPACT_THRESHOLD : nat := Z.to_nat 16384.

Definition byte_at (l : bytes) (i : nat) : byte := default 0%N (l !! i).

(** [put_u16], [put_u32] at offset 0 and the packet type at 4, over a packet of
    zeros that ends in the payload. *)
Definition packet_bytes (protocol_version : N) (size : nat) (data_flags : bytes) (payload : bytes)
    : bytes :=
  (if N.leb 315 protocol_version then to_be_bytes 4 (N.of_nat size)
   else to_be_bytes 2 (N.of_nat size) ++ [0; 0]%N)
  ++ [TNS_PACKET_TYPE_DATA; 0; 0; 0]%N ++ data_flags ++ payload.

(** What [write_all] puts on the stream. *)
Definition write_single_data_packet (protocol_version : N) (payload : bytes) : Result bytes :=
  let size := 10 + length payload in
  if N.ltb (N.of_nat size) (if N.leb 315 protocol_version then 2 ^ 32 else 2 ^ 16)
  then Ok (packet_bytes protocol_version size [0; 0]%N payload)
  else Err (PacketTooLarge size).

Definition write_eof_data_packet (protocol_version : N) : bytes :=
  packet_bytes protocol_version 10 (to_be_bytes 2 TNS_DATA_FLAGS_EOF) [].

(** [slice.chunks(n)], [n > 0]; a chunk takes at least one element. *)
Fixpoint chunks_loop {A} (fuel n : nat) (l : list A) : list (list A) :=
  match fuel, l with
  | S fuel, _ :: _ => take n l :: chunks_loop fuel n (drop n l)
  | _, _ => []
  end.

Definition chunks {A} (n : nat) (l : list A) : list (list A) := chunks_loop (length l) n l.

Fixpoint write_packets (protocol_version : N) (payloads : list bytes) : Result bytes :=
  match payloads with
  | [] => Ok []
  | payload :: payloads =>
      match write_single_data_packet protocol_version payload with
      | Err e => Err e
      | Ok packet =>
          match write_packets protocol_version payloads with
          | Err e => Err e
          | Ok packets => Ok (packet ++ packets)
          end
      end
  end.

Definition write_data_packet (protocol_version : N) (chunk_size : nat) (payload : bytes)
    : Result bytes :=
  if chunk_size <? length payload
  then write_packets protocol_version (chunks (Nat.max chunk_size 1) payload)
  else write_single_data_packet protocol_version payload.

(** Reading takes a stream and gives what is left of it. *)
Definition read_tns_packet (protocol_version : N) (stream : bytes) : Result (byte * bytes) * bytes :=
  if length stream <? 8 then (Err ReadHeader, [])
  else
    let header := take 8 stream in
    let stream := drop 8 stream in
    let size := N.to_nat (from_be_bytes (take (if N.leb 315 protocol_version then 4 else 2) header)) in
    if size <? 8 then (Err (InvalidPacketLength size), stream)
    else if length stream <? size - 8 then (Err (ReadBody (byte_at header 4) size), [])
    else (Ok (byte_at header 4, take (size - 8) stream), drop (size - 8) stream).

(** [process_control_packet]: whether the peer confirmed an out-of-band reset. *)
Definition process_control_packet (data : bytes) : Result bool :=
  if length data <? 2 then Err (InvalidControlLength (length data + 8))
  else
    let control_type := from_be_bytes (take 2 data) in
    if N.eqb control_type TNS_CONTROL_TYPE_RESET_OOB then Ok true
    else if N.eqb control_type TNS_CONTROL_TYPE_INBAND_NOTIFICATION then
      if length data <? 10 then Err (InvalidNotificationLength (length data + 8))
      else
        let pending_error_num := from_be_bytes (slice 6 10 data) in
        if N.eqb pending_error_num 0 || N.eqb pending_error_num TNS_ERR_SESSION_SHUTDOWN
           || N.eqb pending_error_num TNS_ERR_INBAND_MESSAGE then Ok false
        else if N.eqb pending_error_num TNS_ERR_EXCEEDED_IDLE_TIME then Err ExceededIdleTime
        else Err (UnsupportedNotification pending_error_num)
    else Ok false.

Section Packets.

(** The handshake after a marker: the marker's data and the stream to whether an
    out-of-band reset was seen, the data flags and the payload. *)
Variable read_data_after_marker_reset :
  N -> bytes -> bytes -> Result (bool * N * bytes) * bytes.

(** A packet is at least eight bytes, so the length of the stream is enough fuel. *)
Fixpoint read_data_loop (fuel : nat) (protocol_version : N) (oob_reset_received : bool)
    (stream : bytes) : Result (bool * N * bytes) * bytes :=
  match read_tns_packet protocol_version stream with
  | (Err e, stream) => (Err e, stream)
  | (Ok (packet_type, data), stream) =>
      if N.eqb packet_type TNS_PACKET_TYPE_DATA then
        if length data <? 2 then (Err (InvalidDataPacketLength (length data + 8)), stream)
        else (Ok (oob_reset_received, from_be_bytes (take 2 data), drop 2 data), stream)
      else if N.eqb packet_type TNS_PACKET_TYPE_MARKER then
        match read_data_after_marker_reset protocol_version data stream with
        | (Ok (marker_oob_reset, data_flags, payload), stream) =>
            (Ok (oob_reset_received || marker_oob_reset, data_flags, payload), stream)
        | (Err e, stream) => (Err e, stream)
        end
      else if N.eqb packet_type TNS_PACKET_TYPE_CONTROL then
        match process_control_packet data with
        | Err e => (Err e, stream)
        | Ok reset =>
            match fuel with
            | 0 => (Err ReadHeader, stream)
            | S fuel => read_data_loop fuel protocol_version (oob_reset_received || reset) stream
            end
        end
      else (Err (UnexpectedPacketType packet_type), stream)
  end.

Definition read_data_packet_with_flags (protocol_version : N) (stream : bytes)
    : Result (N * bytes) * bytes :=
  match read_data_loop (length stream) protocol_version false stream with
  | (Ok (_, data_flags, payload), stream) => (Ok (data_flags, payload), stream)
  | (Err e, stream) => (Err e, stream)
  end.

End Packets.

(** ** The cursor *)

Record StreamingPacketSource := mkStreamSource {
  buf : bytes;
  stream : bytes;
  protocol_version : N;
  end_flags_seen : bool
}.
#[export] Instance StreamingPacketSource_eta : Eta StreamingPacketSource := fun s =>
  mkStreamSource (buf s) (stream s) (protocol_version s) (end_flags_seen s).

Inductive PacketCursorSource :=
  | Source_Slice (data : bytes)
  | Source_Stream (source : StreamingPacketSource).

Record PacketCursor := mkCursor {
  source : PacketCursorSource;
  pos : nat;
  big_clr_chunks : bool;
  legacy_null_clr : bool
}.
#[export] Instance PacketCursor_eta : Eta PacketCursor := fun c =>
  mkCursor (source c) (pos c) (big_clr_chunks c) (legacy_null_clr c).

(** The two capabilities a cursor depends on. *)
Record OracleThinCapabilities := mkCapabilities {
  cap_protocol_version : option N;
  supports_big_clr_chunks : bool
}.

Definition TNS_VERSION_MIN_ACCEPTED : N := 315.

Definition with_capabilities (data : bytes) (capabilities : OracleThinCapabilities) : PacketCursor :=
  mkCursor (Source_Slice data) 0 (supports_big_clr_chunks capabilities)
    (is_some_and (cap_protocol_version capabilities)
       (fun version => N.ltb version TNS_VERSION_MIN_ACCEPTED)).

Definition ends_response (data_flags : N) : bool :=
  negb (N.eqb (N.land data_flags (N.lor TNS_DATA_FLAGS_END_OF_RESPONSE TNS_DATA_FLAGS_EOF)) 0).

Definition streaming (packet : bytes) (data_flags : N) (stream : bytes)
    (capabilities : OracleThinCapabilities) : PacketCursor :=
  mkCursor
    (Source_Stream (mkStreamSource packet stream
       (default 319%N (cap_protocol_version capabilities)) (ends_response data_flags)))
    0 (supports_big_clr_chunks capabilities)
    (is_some_and (cap_protocol_version capabilities)
       (fun version => N.ltb version TNS_VERSION_MIN_ACCEPTED)).

Definition data (c : PacketCursor) : bytes :=
  match source c with Source_Slice data => data | Source_Stream source => buf source end.

Definition end_of_response_seen (c : PacketCursor) : bool :=
  match source c with Source_Slice _ => false | Source_Stream source => end_flags_seen source end.

Definition remaining (c : PacketCursor) : nat := length (data c) - pos c.

(** A reader: the result and the cursor it leaves, also after an error. *)
Definition Reader (A : Type) : Type := PacketCursor -> Result A * PacketCursor.

#[export] Instance Reader_ret : MRet Reader := fun _ x c => (Ok x, c).
#[export] Instance Reader_bind : MBind Reader := fun _ _ k m c =>
  match m c with
  | (Ok x, c) => k x c
  | (Err e, c) => (Err e, c)
  end.

Definition fail {A} (e : WireError) : Reader A := fun c => (Err e, c).
Definition get {A} (f : PacketCursor -> A) : Reader A := fun c => (Ok (f c), c).

Section Cursor.
Variable read_data_after_marker_reset :
  N -> bytes -> bytes -> Result (bool * N * bytes) * bytes.

Definition fetch_next_packet (short_context : string) : Reader unit := fun c =>
  match source c with
  | Source_Slice _ => (Err (ShortPacket short_context), c)
  | Source_Stream src =>
      if end_flags_seen src then (Err IncompleteResponse, c)
      else
        let compact := (0 <? pos c) && (length (buf src) - pos c <=? PACKET_CURSOR_COMPACT_THRESHOLD) in
        let src := if compact then src <| buf := drop (pos c) (buf src) |> else src in
        let c := if compact then c <| pos := 0 |> else c in
        match read_data_packet_with_flags read_data_after_marker_reset
                (protocol_version src) (stream src) with
        | (Err e, rest) => (Err e, c <| source := Source_Stream (src <| stream := rest |>) |>)
        | (Ok (data_flags, packet), rest) =>
            let src := src <| stream := rest |>
                           <| end_flags_seen := end_flags_seen src || ends_response data_flags |>
                           <| buf := buf src ++ packet |> in
            (Ok tt, c <| source := Source_Stream src |>)
        end
  end.

(** Each packet fetched takes bytes off the stream, so its length is enough fuel. *)
Definition fetch_fuel (c : PacketCursor) : nat :=
  match source c with Source_Slice _ => 0 | Source_Stream src => length (stream src) end.

Fixpoint ensure_loop (fuel len : nat) (short_context : string) : Reader unit := fun c =>
  if remaining c <? len then
    match fetch_next_packet short_context c with
    | (Err e, c) => (Err e, c)
    | (Ok _, c) =>
        match fuel with
        | 0 => (Err (ShortPacket short_context), c)
        | S fuel => ensure_loop fuel len short_context c
        end
    end
  else (Ok tt, c).

Definition ensure_available (len : nat) (short_context : string) : Reader unit := fun c =>
  ensure_loop (fetch_fuel c) len short_context c.

Definition peek_u8 : Reader (option byte) := fun c =>
  let peek c : Result (option byte) * PacketCursor := (Ok (data c !! pos c), c) in
  if remaining c =? 0 then
    match source c with
    | Source_Slice _ => (Ok None, c)
    | Source_Stream src =>
        if end_flags_seen src then (Ok None, c)
        else match fetch_next_packet "short TTC packet while reading u8" c with
             | (Err e, c) => (Err e, c)
             | (Ok _, c) => peek c
             end
    end
  else peek c.

(** The bytes at the cursor, which must be there, and the cursor past them. *)
Definition advance (len : nat) : Reader bytes := fun c =>
  (Ok (slice (pos c) (pos c + len) (data c)), c <| pos ::= fun start => start + len |>).

Definition read_raw (len : nat) : Reader bytes :=
  _ ← ensure_available len "short TTC packet while reading bytes"; advance len.

Definition read_u8 : Reader byte :=
  _ ← ensure_available 1 "short TTC packet while reading u8";
  b ← advance 1; mret (byte_at b 0).

Definition skip (len : nat) : Reader unit := _ ← read_raw len; mret tt.

Definition read_i8 : Reader Z := b ← read_u8; mret (wrap_signed 8 (Z.of_N b)).
Definition read_u16_be : Reader N := b ← read_raw 2; mret (from_be_bytes b).
Definition read_u32_be : Reader N := b ← read_raw 4; mret (from_be_bytes b).
Definition read_u16_le : Reader N := b ← read_raw 2; mret (from_be_bytes (reverse b)).

(** [self.data()[self.pos + scanned..].iter().position(|byte| *byte == 0)]. *)
Fixpoint position_of_zero (l : bytes) : option nat :=
  match l with
  | [] => None
  | b :: l => if N.eqb b 0 then Some 0 else S <$> position_of_zero l
  end.

(** Where the terminator is, from the cursor on. *)
Fixpoint find_terminator (fuel scanned : nat) : Reader nat := fun c =>
  match position_of_zero (drop (pos c + scanned) (data c)) with
  | Some offset => (Ok (scanned + offset), c)
  | None =>
      let scanned := remaining c in
      match fetch_next_packet "unterminated TTC null-terminated byte field" c with
      | (Err e, c) => (Err e, c)
      | (Ok _, c) =>
          match fuel with
          | 0 => (Err (ShortPacket "unterminated TTC null-terminated byte field"), c)
          | S fuel => find_terminator fuel scanned c
          end
      end
  end.

Definition read_null_terminated_bytes : Reader bytes :=
  fuel ← get fetch_fuel;
  len ← find_terminator fuel 0;
  b ← advance (len + 1); mret (take len b).

Definition read_universal_uint (max_len : nat) : Reader N :=
  start ← get pos;
  len ← read_u8;
  let len := N.to_nat len in
  if len =? 0 then mret 0%N
  else if (max_len <? len) || (8 <? len) then
    c ← get id;
    let context_start := pos c - 1 in
    let context_end := Nat.min (length (data c)) (context_start + 16) in
    fail (InvalidUniversalLength len start (slice context_start context_end (data c)))
  else b ← read_raw len; mret (from_be_bytes b).

Definition read_ub2 : Reader N :=
  value ← read_universal_uint 2;
  if N.ltb value (2 ^ 16) then mret value else fail (OutOfRange "ub2" value).

Definition read_ub4 : Reader N :=
  value ← read_universal_uint 4;
  if N.ltb value (2 ^ 32) then mret value else fail (OutOfRange "ub4" value).

Definition read_ub8 : Reader N := read_universal_uint 8.

(** [read_sb2], [read_sb4] and [read_sb8], which differ in the width. *)
Definition read_signed (field : string) (width : nat) : Reader Z :=
  len_byte ← read_u8;
  let is_negative := negb (N.eqb (N.land len_byte 128) 0) in
  let len := N.to_nat (N.land len_byte 127) in
  if len =? 0 then mret 0%Z
  else if width <? len then fail (InvalidSignedLength field len)
  else
    b ← read_raw len;
    let w := Z.of_nat (8 * width) in
    let value := from_be_signed w b in
    mret (if is_negative then wrap_signed w (- value) else value).

Definition read_sb2 : Reader Z := read_signed "ub2" 2.
Definition read_sb4 : Reader Z := read_signed "ub4" 4.
Definition read_sb8 : Reader Z := read_signed "ub8" 8.

Definition read_chunk_len : Reader N := fun c =>
  if big_clr_chunks c then read_ub4 c else read_u8 c.

(** The chunks of a long field.  A chunk takes at least its length byte, so what
    is buffered and what is still on the stream bound their number. *)
Fixpoint read_chunks (fuel : nat) (out : bytes) : Reader (option bytes) :=
  chunk_len ← read_chunk_len;
  if N.eqb chunk_len 0 then mret (Some out)
  else
    chunk ← read_raw (N.to_nat chunk_len);
    match fuel with
    | 0 => fail (ShortPacket "short TTC packet while reading bytes")
    | S fuel => read_chunks fuel (out ++ chunk)
    end.

Definition read_bytes : Reader (option bytes) :=
  len ← read_u8;
  legacy ← get legacy_null_clr;
  if N.eqb len 0 || N.eqb len 255 then mret None
  else if N.eqb len TNS_LEGACY_NULL_LENGTH_INDICATOR && legacy then mret None
  else if N.eqb len TNS_LONG_LENGTH_INDICATOR then
    fuel ← get (fun c => length (data c) + fetch_fuel c : nat);
    read_chunks fuel []
  else b ← read_raw (N.to_nat len); mret (Some b).

Definition skip_bytes : Reader unit := _ ← read_bytes; mret tt.

Definition read_bytes_with_ub4_length : Reader (option bytes) :=
  expected_len ← read_ub4;
  if N.eqb expected_len 0 then mret None
  else
    r ← read_bytes;
    match r with
    | None => mret None
    | Some bytes =>
        if N.ltb (N.of_nat (length bytes)) expected_len then fail ShortField
        else mret (Some (take (N.to_nat expected_len) bytes))
    end.

Definition skip_bytes_with_ub4_length : Reader unit :=
  expected_len ← read_ub4;
  if N.eqb expected_len 0 then mret tt
  else
    r ← read_bytes;
    match r with
    | None => mret tt
    | Some bytes =>
        if N.ltb (N.of_nat (length bytes)) expected_len then fail ShortField else mret tt
    end.

(** [String::from_utf8]: the bytes decode to characters that encode to them. *)
Definition from_utf8 (b : bytes) : option bytes :=
  let chars := str_chars b in
  if forallb is_scalar chars && bool_decide (encode_str chars = b) then Some b else None.

Definition utf8_result (r : option bytes) : Reader (option bytes) :=
  match r with
  | None => mret None
  | Some b => match from_utf8 b with Some s => mret (Some s) | None => fail InvalidUtf8 end
  end.

Definition read_str_with_length : Reader (option bytes) :=
  expected_len ← read_ub4;
  if N.eqb expected_len 0 then mret None
  else r ← read_bytes; utf8_result (take (N.to_nat expected_len) <$> r).

Definition read_str : Reader (option bytes) := r ← read_bytes; utf8_result r.
End Cursor.

(** ** Writers *)

(** [payload.extend_from_slice]: the field a writer appends. *)
Definition write_ub8 (value : N) : bytes :=
  if N.eqb value 0 then [0%N]
  else if N.leb value 255 then [1%N; value]
  else if N.leb value 65535 then 2%N :: to_be_bytes 2 value
  else if N.leb value 4294967295 then 4%N :: to_be_bytes 4 value
  else 8%N :: to_be_bytes 8 value.

Definition write_ub4 (value : N) : bytes := write_ub8 value.
Definition write_ub2 (value : N) : bytes := write_ub8 value.

Definition write_len_bytes (value : bytes) : Result bytes :=
  if 252 <? length value then Err (FieldTooLarge (length value))
  else Ok (N.of_nat (length value) :: value).

Definition write_bytes_with_length_with_big_chunks (value : bytes) (big_clr_chunks : bool) : bytes :=
  if length value <=? 252 then N.of_nat (length value) :: value
  else
    254%N ::
    (if big_clr_chunks then
       concat ((fun chunk => write_ub4 (N.of_nat (length chunk)) ++ chunk)
                 <$> chunks TNS_BIG_CLR_CHUNK_SIZE value) ++ write_ub4 0
     else
       concat ((fun chunk => N.of_nat (length chunk) :: chunk)
                 <$> chunks TNS_LEGACY_CLR_CHUNK_SIZE value) ++ [0%N]).

Definition write_bytes_with_length (value : bytes) : bytes :=
  write_bytes_with_length_with_big_chunks value true.

Definition write_bytes_with_length_for_capabilities (value : bytes)
    (capabilities : OracleThinCapabilities) : bytes :=
  write_bytes_with_length_with_big_chunks value (supports_big_clr_chunks capabilities).

Definition write_bytes_with_two_lengths (value : bytes) : Result bytes :=
  match write_len_bytes value with
  | Ok field => Ok (write_ub4 (N.of_nat (length value)) ++ field)
  | Err e => Err e
  end.
