(* ===== verification/TtcSpec.v ===== *)
(** * TTC fields round-trip

    Each reader against its writer, and packets split and reassembled. *)
From S2P Require Import Prelude RustStr Utf8 TtcWire.

(** * What a cursor reads, without the packets

    [rest c] is the input a cursor still has to read, wherever the packet
    boundaries are.  [Reads m p] says that the reader [m] does to a cursor what
    the pure parser [p] does to [rest]; it is closed under sequencing, so every
    field reader is related to its parser by its structure. *)

#[local] Arguments Nat.ltb : simpl never.
#[local] Arguments Nat.leb : simpl never.
#[local] Arguments N.leb : simpl never.
#[local] Arguments N.ltb : simpl never.

Section Laws.
Context (marker : N -> bytes -> bytes -> Result (bool * N * bytes) * bytes).

(** The handshake takes what it returns off the stream. *)
Definition marker_reads_stream : Prop :=
  forall v d s r s', marker v d s = (r, s') ->
    length s' <= length s
    /\ forall b f payload, r = Ok (b, f, payload) -> length payload + length s' <= length s.

Context (Hmarker : marker_reads_stream).

(** ** Packets off a stream *)

Lemma read_tns_packet_length v s r s' :
  read_tns_packet v s = (r, s') ->
  length s' <= length s
  /\ forall t d, r = Ok (t, d) -> length d + length s' + 8 <= length s.
Proof.
  unfold read_tns_packet. destruct (Nat.ltb_spec (length s) 8).
  { intros [= <- <-]. cbn. split; [lia|done]. }
  set (size := N.to_nat (from_be_bytes _)). destruct (Nat.ltb_spec size 8).
  { intros [= <- <-]. rewrite length_drop. split; [lia|done]. }
  destruct (Nat.ltb_spec (length (drop 8 s)) (size - 8)) as [Hl|Hl].
  { intros [= <- <-]. cbn. split; [lia|done]. }
  intros [= <- <-]. rewrite !length_drop in *. split; [lia|].
  intros t d [= <- <-]. rewrite length_take, length_drop. lia.
Qed.

Lemma read_data_loop_length fuel v b s r s' :
  read_data_loop marker fuel v b s = (r, s') ->
  length s' <= length s
  /\ forall b f payload, r = Ok (b, f, payload) -> length payload + length s' + 8 <= length s.
Proof.
  revert b s. induction fuel as [|fuel IH]; intros b s; cbn [read_data_loop];
    destruct (read_tns_packet v s) as [[[t d]|e] s1] eqn:E;
    apply read_tns_packet_length in E as [Hl Hd]; try (by intros [= <- <-]; split);
    specialize (Hd t d eq_refl);
    (destruct (N.eqb _ _); [destruct (Nat.ltb_spec (length d) 2); intros [= <- <-];
       (split; [lia|]); intros ? ? ? [=]; subst; rewrite length_drop; lia|]);
    (destruct (N.eqb _ _);
       [destruct (marker v d s1) as [[[[b0 f0] p0]|e] s2] eqn:Em; apply Hmarker in Em as [Hm Hp];
        intros [= <- <-]; (split; [lia|]); intros ? ? ? [=]; subst; specialize (Hp _ _ _ eq_refl); lia|]);
    (destruct (N.eqb _ _); [|intros [= <- <-]; split; [lia|done]]);
    destruct (process_control_packet d) as [reset|e]; try (intros [= <- <-]; split; [lia|done]).
  intros Hr. apply IH in Hr as [H1 H2]. split; [lia|]. intros b0 f p ->.
  specialize (H2 _ _ _ eq_refl). lia.
Qed.

Lemma read_data_packet_length v s r s' :
  read_data_packet_with_flags marker v s = (r, s') ->
  length s' <= length s
  /\ forall f payload, r = Ok (f, payload) -> length payload + length s' + 8 <= length s.
Proof.
  unfold read_data_packet_with_flags.
  destruct (read_data_loop _ _ _ _ _) as [[[[b f] p]|e] s1] eqn:E; intros [= <- <-];
    apply read_data_loop_length in E as [Hl Hp]; (split; [done|]); intros ? ? [=]; subst.
  by apply (Hp _ _ _ eq_refl).
Qed.

(** The payload bytes that still arrive, up to the packet that ends the response. *)
Fixpoint arriving_loop (fuel : nat) (v : N) (s : bytes) : bytes :=
  match read_data_packet_with_flags marker v s with
  | (Ok (data_flags, payload), s') =>
      payload ++ if ends_response data_flags then []
                 else match fuel with 0 => [] | S fuel => arriving_loop fuel v s' end
  | (Err _, _) => []
  end.

Definition arriving (v : N) (s : bytes) : bytes := arriving_loop (length s) v s.

Lemma arriving_loop_fuel f1 f2 v s :
  length s <= f1 -> length s <= f2 -> arriving_loop f1 v s = arriving_loop f2 v s.
Proof.
  revert f2 s. induction f1 as [|f1 IH]; intros [|f2] s H1 H2; cbn [arriving_loop];
    destruct (read_data_packet_with_flags marker v s) as [[[f p]|e] s'] eqn:E; try done;
    apply read_data_packet_length in E as [_ Hp]; specialize (Hp _ _ eq_refl);
    destruct (ends_response f); try done; f_equal; try (apply IH; lia); lia.
Qed.

Lemma arriving_eq v s :
  arriving v s
  = match read_data_packet_with_flags marker v s with
    | (Ok (data_flags, payload), s') =>
        payload ++ if ends_response data_flags then [] else arriving v s'
    | (Err _, _) => []
    end.
Proof.
  unfold arriving at 1.
  destruct (read_data_packet_with_flags marker v s) as [[[f p]|e] s'] eqn:E.
  - pose proof (read_data_packet_length v s _ _ E) as [_ Hp]. specialize (Hp _ _ eq_refl).
    destruct (length s) as [|n] eqn:El; [lia|]. cbn [arriving_loop]. rewrite E.
    destruct (ends_response f); [done|]. f_equal. apply arriving_loop_fuel; lia.
  - destruct (length s); cbn [arriving_loop]; by rewrite E.
Qed.

Lemma arriving_length v s : length (arriving v s) <= length s.
Proof.
  remember (length s) as n eqn:En. revert s En. induction n as [n IH] using lt_wf_ind. intros s ->.
  rewrite arriving_eq. destruct (read_data_packet_with_flags marker v s) as [[[f p]|e] s'] eqn:E;
    [|cbn; lia].
  apply read_data_packet_length in E as [_ Hp]. specialize (Hp _ _ eq_refl).
  rewrite length_app. destruct (ends_response f); cbn; [lia|].
  assert (length s' < length s) as Hs by lia. specialize (IH _ Hs s' eq_refl). lia.
Qed.

(** ** The input of a cursor *)

Definition arrives (c : PacketCursor) : bytes :=
  match source c with
  | Source_Slice _ => []
  | Source_Stream src =>
      if end_flags_seen src then [] else arriving (protocol_version src) (stream src)
  end.

Definition rest (c : PacketCursor) : bytes := drop (pos c) (data c) ++ arrives c.

Definition cursor_ok (c : PacketCursor) : Prop := pos c <= length (data c).

Definition same_caps (c c' : PacketCursor) : Prop :=
  big_clr_chunks c' = big_clr_chunks c /\ legacy_null_clr c' = legacy_null_clr c.

(** Fetching moves bytes from the stream to the buffer. *)
Lemma fetch_next_packet_ok ctx c :
  cursor_ok c ->
  match fetch_next_packet marker ctx c with
  | (Ok _, c') =>
      cursor_ok c' /\ rest c' = rest c /\ same_caps c c' /\ fetch_fuel c' < fetch_fuel c
      /\ (exists more, drop (pos c') (data c') = drop (pos c) (data c) ++ more)
  | (Err _, _) => arrives c = []
  end.
Proof.
  intros Hc. unfold fetch_next_packet. destruct c as [[d|[b s v fl]] p big leg]; [done|].
  unfold cursor_ok, rest, arrives, data, fetch_fuel, same_caps in *.
  cbn [source pos buf stream protocol_version end_flags_seen] in *. destruct fl; [done|].
  set (compact := (0 <? p) && (length b - p <=? PACKET_CURSOR_COMPACT_THRESHOLD)). cbv zeta.
  assert (Hb : exists p' b',
    (drop p' b' = drop p b)
    /\ (p' <= length b')
    /\ ((if compact then upd buf (fun _ => drop p b) (mkStreamSource b s v false)
         else mkStreamSource b s v false) = mkStreamSource b' s v false)
    /\ ((if compact then upd pos (fun _ => 0) (mkCursor (Source_Stream (mkStreamSource b s v false)) p big leg)
         else mkCursor (Source_Stream (mkStreamSource b s v false)) p big leg)
        = mkCursor (Source_Stream (mkStreamSource b s v false)) p' big leg)).
  { destruct compact.
    - exists 0, (drop p b). rewrite drop_0. split_and!; try done. lia.
    - by exists p, b. }
  destruct Hb as (p' & b' & Hd & Hp' & -> & ->). rewrite (arriving_eq v s). cbn.
  destruct (read_data_packet_with_flags marker v s) as [[[f pl]|e] s'] eqn:E; [|done].
  apply read_data_packet_length in E as [_ Hl]. specialize (Hl _ _ eq_refl). cbn.
  rewrite drop_app_le, Hd, length_app by done. split_and!; try done; try lia.
  - rewrite <- app_assoc. by destruct (ends_response f).
  - by exists pl.
Qed.

Lemma ensure_loop_ok fuel len ctx c :
  cursor_ok c -> fetch_fuel c <= fuel ->
  match ensure_loop marker fuel len ctx c with
  | (Ok _, c') => cursor_ok c' /\ rest c' = rest c /\ same_caps c c' /\ len <= remaining c'
  | (Err _, _) => length (rest c) < len
  end.
Proof.
  revert c. induction fuel as [|fuel IH]; intros c Hc Hf; cbn [ensure_loop];
    (destruct (Nat.ltb_spec (remaining c) len) as [Hr|Hr]; [|by repeat split]);
    pose proof (fetch_next_packet_ok ctx c Hc) as H;
    destruct (fetch_next_packet marker ctx c) as [[[]|e] c1].
  - lia.
  - unfold rest. rewrite H, app_nil_r, length_drop. unfold remaining in Hr. lia.
  - destruct H as (H1 & H2 & [H3 H3'] & H4 & _). specialize (IH c1 H1).
    destruct (ensure_loop marker fuel len ctx c1) as [[[]|e] c2].
    + destruct IH as (? & E & [? ?] & ?); [lia|]. unfold same_caps. split_and!; congruence || done.
    + rewrite <- H2. apply IH. lia.
  - unfold rest. rewrite H, app_nil_r, length_drop. unfold remaining in Hr. lia.
Qed.

(** ** Readers and parsers *)

Definition Parser (A : Type) : Type := bytes -> option (A * bytes).

Definition p_bind {A B} (p : Parser A) (q : A -> Parser B) : Parser B := fun l =>
  match p l with Some (x, l) => q x l | None => None end.

Context (big legacy : bool).

Definition caps_are (c : PacketCursor) : Prop :=
  big_clr_chunks c = big /\ legacy_null_clr c = legacy.

Definition reads_at {A} (m : Reader A) (p : Parser A) (c : PacketCursor) : Prop :=
  match m c with
  | (Ok x, c') => cursor_ok c' /\ caps_are c' /\ p (rest c) = Some (x, rest c')
  | (Err _, _) => p (rest c) = None
  end.

Definition Reads {A} (m : Reader A) (p : Parser A) : Prop :=
  forall c, cursor_ok c -> caps_are c -> reads_at m p c.

Lemma reads_ret {A} (x : A) : Reads (mret x) (fun l => Some (x, l)).
Proof. by intros c Hc Hk. Qed.

Lemma reads_fail {A} e : Reads (@fail A e) (fun _ => None).
Proof. done. Qed.

Lemma reads_bind {A B} (m : Reader A) (k : A -> Reader B) p q :
  Reads m p -> (forall x, Reads (k x) (q x)) -> Reads (m ≫= k) (p_bind p q).
Proof.
  intros Hm Hk c Hc Hcap. specialize (Hm c Hc Hcap). unfold reads_at, mbind, Reader_bind, p_bind in *.
  destruct (m c) as [[x|e] c1]; [|by rewrite Hm].
  destruct Hm as (H1 & H2 & ->). exact (Hk x c1 H1 H2).
Qed.

(** Looking at the cursor itself must not matter. *)
Lemma reads_get {A B} (f : PacketCursor -> A) (k : A -> Reader B) q :
  (forall x, Reads (k x) q) -> Reads (get f ≫= k) q.
Proof. intros Hk c Hc Hcap. exact (Hk (f c) c Hc Hcap). Qed.

Lemma reads_ext {A} (m : Reader A) p q : (forall l, p l = q l) -> Reads m p -> Reads m q.
Proof.
  intros E Hm c Hc Hk. specialize (Hm c Hc Hk). unfold reads_at in *.
  destruct (m c) as [[x|e] c1]; by rewrite <- E.
Qed.

Definition p_raw (len : nat) : Parser bytes := fun l =>
  if length l <? len then None else Some (take len l, drop len l).

Lemma reads_available {B} len ctx (k : Reader B) q :
  (forall c, cursor_ok c -> caps_are c -> len <= remaining c -> reads_at k q c) ->
  (forall l, length l < len -> q l = None) ->
  Reads (ensure_available marker len ctx ≫= fun _ => k) q.
Proof.
  intros Hk Hq c Hc Hcap. unfold reads_at, mbind, Reader_bind, ensure_available.
  pose proof (ensure_loop_ok (fetch_fuel c) len ctx c Hc (le_n _)) as H.
  destruct (ensure_loop _ _ _ _ c) as [[[]|e] c1]; [|by apply Hq].
  destruct H as (H1 & <- & [H3 H3'] & H4). apply Hk; [done| |done].
  destruct Hcap. split; congruence.
Qed.

(** The bytes at the cursor are the first of the input. *)
Lemma reads_at_advance len c :
  cursor_ok c -> caps_are c -> len <= remaining c -> reads_at (advance len) (p_raw len) c.
Proof.
  intros Hc Hcap Hl. unfold reads_at, advance, p_raw, rest, remaining, cursor_ok in *.
  cbn. rewrite length_app, length_drop. destruct (Nat.ltb_spec (length (data c) - pos c + length (arrives c)) len); [lia|].
  change (data (c <| pos ::= fun start => start + len |>)) with (data c).
  change (arrives (c <| pos ::= fun start => start + len |>)) with (arrives c).
  split_and!; [lia|done|]. f_equal. f_equal.
  - rewrite take_app_le by (rewrite length_drop; lia). unfold slice.
    rewrite take_drop_commute. done.
  - rewrite drop_app_le by (rewrite length_drop; lia). by rewrite drop_drop.
Qed.

Lemma reads_raw len : Reads (read_raw marker len) (p_raw len).
Proof.
  apply reads_available; [intros; by apply reads_at_advance|].
  intros l Hl. unfold p_raw. by destruct (Nat.ltb_spec (length l) len); [|lia].
Qed.

Definition p_u8 : Parser byte := fun l => match l with [] => None | b :: l => Some (b, l) end.

Lemma reads_u8 : Reads (read_u8 marker) p_u8.
Proof.
  apply reads_available; [|by intros [|]; cbn; [|lia]].
  intros c Hc Hcap Hl. pose proof (reads_at_advance 1 c Hc Hcap Hl) as H.
  unfold reads_at, mbind, Reader_bind, mret, Reader_ret in *.
  destruct (advance 1 c) as [[b|e] c1]; destruct (rest c) as [|x l]; unfold p_raw in H; cbn in *;
    try done; destruct H as (H1 & H2 & [= <- <-]); by rewrite ?drop_0.
Qed.

(** ** Integers *)

Definition p_uint (max_len : nat) : Parser N :=
  p_bind p_u8 (fun len =>
    let len := N.to_nat len in
    if len =? 0 then fun l => Some (0%N, l)
    else if (max_len <? len) || (8 <? len) then fun _ => None
    else p_bind (p_raw len) (fun b l => Some (from_be_bytes b, l))).

Lemma reads_uint n : Reads (read_universal_uint marker n) (p_uint n).
Proof.
  apply reads_get. intros start. apply reads_bind; [apply reads_u8|]. intros len. cbv zeta.
  destruct (_ =? 0); [apply reads_ret|]. destruct (_ || _).
  - apply reads_get. intros c. apply reads_fail.
  - apply reads_bind; [apply reads_raw|]. intros b. apply reads_ret.
Qed.

Definition p_below (bound : N) (p : Parser N) : Parser N :=
  p_bind p (fun v => if N.ltb v bound then fun l => Some (v, l) else fun _ => None).

Lemma reads_ub2 : Reads (read_ub2 marker) (p_below (2 ^ 16) (p_uint 2)).
Proof.
  apply reads_bind; [apply reads_uint|]. intros v. destruct (N.ltb _ _); [apply reads_ret|apply reads_fail].
Qed.

Lemma reads_ub4 : Reads (read_ub4 marker) (p_below (2 ^ 32) (p_uint 4)).
Proof.
  apply reads_bind; [apply reads_uint|]. intros v. destruct (N.ltb _ _); [apply reads_ret|apply reads_fail].
Qed.

Lemma reads_ub8 : Reads (read_ub8 marker) (p_uint 8).
Proof. apply reads_uint. Qed.

Definition p_signed (width : nat) : Parser Z :=
  p_bind p_u8 (fun len_byte =>
    let len := N.to_nat (N.land len_byte 127) in
    if len =? 0 then fun l => Some (0%Z, l)
    else if width <? len then fun _ => None
    else p_bind (p_raw len) (fun b l =>
      let w := Z.of_nat (8 * width) in
      let value := from_be_signed w b in
      Some (if negb (N.eqb (N.land len_byte 128) 0) then wrap_signed w (- value) else value, l))).

Lemma reads_signed field width : Reads (read_signed marker field width) (p_signed width).
Proof.
  apply reads_bind; [apply reads_u8|]. intros len. cbv zeta.
  destruct (_ =? 0); [apply reads_ret|]. destruct (_ <? _); [apply reads_fail|].
  apply reads_bind; [apply reads_raw|]. intros b. apply reads_ret.
Qed.

(** ** Byte fields *)

Definition p_chunk_len : Parser N := if big then p_below (2 ^ 32) (p_uint 4) else p_u8.

Lemma reads_chunk_len : Reads (read_chunk_len marker) p_chunk_len.
Proof.
  intros c Hc Hcap. unfold reads_at, read_chunk_len, p_chunk_len. rewrite (proj1 Hcap).
  destruct big; [by apply reads_ub4|by apply reads_u8].
Qed.

Fixpoint p_chunks (fuel : nat) (out : bytes) : Parser (option bytes) :=
  p_bind p_chunk_len (fun chunk_len =>
    if N.eqb chunk_len 0 then fun l => Some (Some out, l)
    else p_bind (p_raw (N.to_nat chunk_len)) (fun chunk =>
      match fuel with 0 => fun _ => None | S fuel => p_chunks fuel (out ++ chunk) end)).

Lemma reads_chunks fuel out : Reads (read_chunks marker fuel out) (p_chunks fuel out).
Proof.
  revert out. induction fuel as [|fuel IH]; intros out; cbn [read_chunks p_chunks];
    (apply reads_bind; [apply reads_chunk_len|]); intros len;
    (destruct (N.eqb _ _); [apply reads_ret|]); (apply reads_bind; [apply reads_raw|]); intros b.
  - apply reads_fail.
  - apply IH.
Qed.

(** Parsers never lengthen their input; a chunk shortens it. *)
Definition shrinks {A} (p : Parser A) : Prop :=
  forall l x l', p l = Some (x, l') -> length l' <= length l.

Lemma shrinks_bind {A B} (p : Parser A) (q : A -> Parser B) :
  shrinks p -> (forall x, shrinks (q x)) -> shrinks (p_bind p q).
Proof.
  intros Hp Hq l x l'. unfold p_bind. destruct (p l) as [[y l1]|] eqn:E; [|done].
  intros H%Hq. apply Hp in E. lia.
Qed.

Lemma shrinks_ret {A} (x : A) : shrinks (fun l => Some (x, l)).
Proof. by intros l y l' [= <- <-]. Qed.

Lemma shrinks_fail {A} : shrinks (fun _ => @None (A * bytes)).
Proof. done. Qed.

Lemma shrinks_u8 : shrinks p_u8.
Proof. intros [|b l] x l'; [done|]. intros [= <- <-]. cbn. lia. Qed.

Lemma shrinks_raw n : shrinks (p_raw n).
Proof.
  intros l x l'. unfold p_raw. destruct (_ <? _); [done|]. intros [= <- <-].
  rewrite length_drop. lia.
Qed.

Lemma shrinks_uint n : shrinks (p_uint n).
Proof.
  apply shrinks_bind; [apply shrinks_u8|]. intros len. cbv zeta.
  destruct (_ =? 0); [apply shrinks_ret|]. destruct (_ || _); [apply shrinks_fail|].
  apply shrinks_bind; [apply shrinks_raw|]. intros b. apply shrinks_ret.
Qed.

Lemma shrinks_chunk_len : shrinks p_chunk_len.
Proof.
  unfold p_chunk_len. destruct big; [|apply shrinks_u8].
  apply shrinks_bind; [apply shrinks_uint|]. intros v.
  destruct (N.ltb _ _); [apply shrinks_ret|apply shrinks_fail].
Qed.

Lemma p_raw_shorter n l b l' :
  p_raw n l = Some (b, l') -> length l' + n = length l /\ length b = n.
Proof.
  unfold p_raw. destruct (Nat.ltb_spec (length l) n); [done|]. intros [= <- <-].
  rewrite length_drop, length_take. lia.
Qed.

(** More fuel than the input has bytes changes nothing. *)
Lemma p_chunks_fuel f1 f2 out l :
  length l <= f1 -> length l <= f2 -> p_chunks f1 out l = p_chunks f2 out l.
Proof.
  revert f2 out l. induction f1 as [|f1 IH]; intros [|f2] out l H1 H2; try done;
    cbn [p_chunks]; unfold p_bind; destruct (p_chunk_len l) as [[n l1]|] eqn:E; try done;
    apply shrinks_chunk_len in E; (destruct (N.eqb_spec n 0); [done|]);
    destruct (p_raw (N.to_nat n) l1) as [[b l2]|] eqn:Er; try done;
    apply p_raw_shorter in Er as [Er _]; [lia|lia|]. apply IH; lia.
Qed.

Definition p_bytes : Parser (option bytes) :=
  p_bind p_u8 (fun len =>
    if N.eqb len 0 || N.eqb len 255 then fun l => Some (None, l)
    else if N.eqb len TNS_LEGACY_NULL_LENGTH_INDICATOR && legacy then fun l => Some (None, l)
    else if N.eqb len TNS_LONG_LENGTH_INDICATOR then fun l => p_chunks (length l) [] l
    else p_bind (p_raw (N.to_nat len)) (fun b l => Some (Some b, l))).

Lemma rest_length c : cursor_ok c -> length (rest c) <= length (data c) + fetch_fuel c.
Proof.
  intros Hc. unfold rest, arrives, fetch_fuel, data, cursor_ok in *. rewrite length_app, length_drop.
  destruct (source c) as [d|src]; cbn; [lia|]. destruct (end_flags_seen src); cbn; [lia|].
  pose proof (arriving_length (protocol_version src) (stream src)). lia.
Qed.

Lemma reads_bytes : Reads (read_bytes marker) p_bytes.
Proof.
  apply reads_bind; [apply reads_u8|]. intros len c Hc Hcap.
  unfold reads_at, mbind, Reader_bind, get. destruct Hcap as [Hb Hl]. rewrite Hl.
  destruct (_ || _); [by apply reads_ret|]. destruct (_ && legacy); [by apply reads_ret|].
  destruct (N.eqb len TNS_LONG_LENGTH_INDICATOR).
  - pose proof (reads_chunks (length (data c) + fetch_fuel c) [] c Hc (conj Hb Hl)) as H.
    unfold reads_at in H. rewrite (p_chunks_fuel (length (rest c)) (length (data c) + fetch_fuel c));
      [exact H|done|by apply rest_length].
  - by apply (reads_bind _ _ _ _ (reads_raw (N.to_nat len)) (fun b => reads_ret (Some b))).
Qed.

Definition p_zero_terminated : Parser bytes := fun l =>
  match position_of_zero l with Some n => Some (take n l, drop (S n) l) | None => None end.

Lemma position_of_zero_app l1 l2 :
  position_of_zero (l1 ++ l2)
  = match position_of_zero l1 with Some n => Some n | None => Nat.add (length l1) <$> position_of_zero l2 end.
Proof.
  induction l1 as [|b l IH]; cbn [app position_of_zero length].
  - by destruct (position_of_zero l2).
  - destruct (N.eqb b 0); [done|]. rewrite IH.
    destruct (position_of_zero l); [done|]. by destruct (position_of_zero l2).
Qed.

Lemma position_of_zero_lt l n : position_of_zero l = Some n -> n < length l.
Proof.
  revert n. induction l as [|b l IH]; cbn; [done|]. intros n. destruct (N.eqb b 0).
  - intros [= <-]. lia.
  - destruct (position_of_zero l) as [m|]; [|done]. intros [= <-]. specialize (IH m eq_refl). lia.
Qed.

Definition finds_terminator (m : Reader nat) (c : PacketCursor) : Prop :=
  match m c with
  | (Ok n, c') =>
      cursor_ok c' /\ rest c' = rest c /\ same_caps c c' /\ n < remaining c'
      /\ position_of_zero (rest c) = Some n
  | (Err _, _) => position_of_zero (rest c) = None
  end.

Lemma find_terminator_ok fuel scanned c :
  cursor_ok c -> fetch_fuel c <= fuel ->
  position_of_zero (take scanned (drop (pos c) (data c))) = None -> scanned <= remaining c ->
  finds_terminator (find_terminator marker fuel scanned) c.
Proof.
  revert scanned c. induction fuel as [|fuel IH]; intros scanned c Hc Hf Hz Hs;
    unfold finds_terminator; cbn [find_terminator];
    set (l := drop (pos c) (data c)) in *;
    assert (Hl : length l = remaining c) by (unfold l, remaining; by rewrite length_drop);
    assert (Hp : position_of_zero l = Nat.add scanned <$> position_of_zero (drop (pos c + scanned) (data c)))
      by (rewrite <- (take_drop scanned l) at 1; rewrite position_of_zero_app, Hz, length_take, Hl;
          rewrite Nat.min_l by done; unfold l; by rewrite drop_drop);
    (destruct (position_of_zero (drop (pos c + scanned) (data c))) as [o|];
      [cbn in Hp; split_and!; try done;
         [apply position_of_zero_lt in Hp; lia | unfold rest; fold l; by rewrite position_of_zero_app, Hp]|]);
    cbn in Hp; pose proof (fetch_next_packet_ok "unterminated TTC null-terminated byte field" c Hc) as H;
    destruct (fetch_next_packet _ _ c) as [[[]|e] c1].
  - destruct H as (_ & _ & _ & H & _). lia.
  - unfold rest. fold l. by rewrite H, app_nil_r.
  - destruct H as (H1 & H2 & [H3 H3'] & H4 & more & H5). fold l in H5.
    specialize (IH (remaining c) c1 H1). unfold finds_terminator in IH.
    assert (remaining c1 = remaining c + length more) as Hr.
    { unfold remaining at 1. rewrite <- length_drop, H5, length_app, Hl. done. }
    destruct (find_terminator marker fuel (remaining c) c1) as [[n|e] c2].
    + destruct IH as (? & E & [? ?] & ? & ?); [lia| |lia|].
      { by rewrite H5, <- Hl, take_app_length. }
      unfold same_caps. split_and!; congruence || done.
    + rewrite <- H2. apply IH; [lia| |lia]. by rewrite H5, <- Hl, take_app_length.
  - unfold rest. fold l. by rewrite H, app_nil_r.
Qed.

Lemma reads_zero_terminated : Reads (read_null_terminated_bytes marker) p_zero_terminated.
Proof.
  intros c Hc Hcap.
  assert (H : finds_terminator (find_terminator marker (fetch_fuel c) 0) c)
    by (apply find_terminator_ok; [done|done|done|lia]).
  unfold reads_at, read_null_terminated_bytes, mbind, Reader_bind, get, p_zero_terminated.
  unfold finds_terminator in H. destruct (find_terminator marker (fetch_fuel c) 0 c) as [[n|e] c1].
  - destruct H as (H1 & <- & [H3 H3'] & H4 & ->).
    assert (Hcap1 : caps_are c1) by (destruct Hcap; split; congruence).
    pose proof (reads_at_advance (n + 1) c1 H1 Hcap1 ltac:(lia)) as H. unfold reads_at, mret, Reader_ret in *.
    destruct (advance (n + 1) c1) as [[b|e] c2].
    + destruct H as (? & ? & E). split_and!; [done|done|]. unfold p_raw in E.
      destruct (_ <? _); [done|]. injection E as <- <-. rewrite take_take.
      by rewrite Nat.min_l, Nat.add_1_r by lia.
    + exfalso. unfold p_raw in H. destruct (Nat.ltb_spec (length (rest c1)) (n + 1)); [|done].
      unfold rest in *. rewrite length_app, length_drop in *. unfold remaining in *. lia.
  - by rewrite H.
Qed.

Definition p_sized {A} (p : Parser (option bytes)) (none : A) (some : N -> bytes -> option A) : Parser A :=
  p_bind (p_below (2 ^ 32) (p_uint 4)) (fun n =>
    if N.eqb n 0 then fun l => Some (none, l)
    else p_bind p (fun r l =>
      match r with
      | None => Some (none, l)
      | Some b => match some n b with Some x => Some (x, l) | None => None end
      end)).

Definition long_enough (n : N) (b : bytes) : option bytes :=
  if N.ltb (N.of_nat (length b)) n then None else Some (take (N.to_nat n) b).

Definition p_bytes_with_ub4_length : Parser (option bytes) :=
  p_sized p_bytes None (fun n b => Some <$> long_enough n b).

Lemma reads_bytes_with_ub4_length : Reads (read_bytes_with_ub4_length marker) p_bytes_with_ub4_length.
Proof.
  apply reads_bind; [apply reads_ub4|]. intros n. destruct (N.eqb n 0); [apply reads_ret|].
  apply reads_bind; [apply reads_bytes|]. intros [b|]; [|apply reads_ret]. unfold long_enough.
  destruct (N.ltb _ _); [apply reads_fail|apply (reads_ret (Some _))].
Qed.

Definition p_str_with_length : Parser (option bytes) :=
  p_sized p_bytes None (fun n b => Some <$> from_utf8 (take (N.to_nat n) b)).

Lemma reads_str_with_length : Reads (read_str_with_length marker) p_str_with_length.
Proof.
  apply reads_bind; [apply reads_ub4|]. intros n. destruct (N.eqb n 0); [apply reads_ret|].
  apply reads_bind; [apply reads_bytes|]. intros [b|]; [|apply reads_ret]. cbn [utf8_result fmap option_fmap option_map].
  destruct (from_utf8 _); [apply (reads_ret (Some _))|apply reads_fail].
Qed.
End Laws.

(** * Theorems on the wire

    Fields read back as they were written; what a cursor reads does not depend on
    how the bytes were cut into packets; a payload written in packets of any size
    reads as the payload. *)

#[local] Arguments Nat.ltb : simpl never.
#[local] Arguments Nat.leb : simpl never.
#[local] Arguments N.leb : simpl never.
#[local] Arguments N.ltb : simpl never.
#[local] Arguments from_be_bytes : simpl never.
#[local] Arguments to_be_bytes : simpl never.

(** ** Integers as they are written *)

Lemma p_raw_app n b l : length b = n -> p_raw n (b ++ l) = Some (b, l).
Proof.
  intros <-. unfold p_raw. rewrite length_app. destruct (Nat.ltb_spec (length b + length l) (length b)); [lia|].
  by rewrite take_app_length, drop_app_length.
Qed.

Lemma p_uint_be n k v l :
  k <> 0 -> k <= n -> k <= 8 -> (v < 256 ^ N.of_nat k)%N ->
  p_uint n (N.of_nat k :: to_be_bytes k v ++ l) = Some (v, l).
Proof.
  intros Hk Hn H8 Hv. unfold p_uint, p_bind. cbn [p_u8]. rewrite Nat2N.id.
  destruct (Nat.eqb_spec k 0); [done|].
  destruct (Nat.ltb_spec n k); [lia|]. destruct (Nat.ltb_spec 8 k); [lia|]. cbn [orb].
  rewrite p_raw_app by apply length_to_be_bytes. by rewrite from_to_be_bytes.
Qed.

Lemma p_uint_write n v l :
  (n = 2 \/ n = 4 \/ n = 8) -> (v < 256 ^ N.of_nat n)%N -> p_uint n (write_ub8 v ++ l) = Some (v, l).
Proof.
  intros Hn Hv.
  assert (Hb : (n = 2 -> (v < 65536)%N) /\ (n = 4 -> (v < 4294967296)%N) /\ (v < 18446744073709551616)%N)
    by (destruct Hn as [->|[->| ->]]; cbn in Hv; lia).
  clear Hv. unfold write_ub8. destruct (N.eqb_spec v 0) as [->|Hz]; [done|].
  assert (H1 : forall b, to_be_bytes 1 b = [(b mod 256)%N])
    by (intros b; change (to_be_bytes 1 b) with [N.land (N.shiftr b 0) 255]; by rewrite land_255).
  destruct (N.leb_spec v 255).
  { rewrite <- (N.mod_small v 256) at 1 by lia. rewrite <- H1. apply (p_uint_be n 1); cbn; lia. }
  destruct (N.leb_spec v 65535); [apply (p_uint_be n 2); cbn; lia|].
  destruct (N.leb_spec v 4294967295).
  { apply (p_uint_be n 4); cbn; lia. }
  apply (p_uint_be n 8); cbn; lia.
Qed.

Lemma p_below_uint bound n v l :
  (n = 2 \/ n = 4 \/ n = 8) -> (v < 256 ^ N.of_nat n)%N -> (v < bound)%N ->
  p_below bound (p_uint n) (write_ub8 v ++ l) = Some (v, l).
Proof.
  intros Hn Hv Hb. unfold p_below, p_bind. rewrite p_uint_write by done.
  by destruct (N.ltb_spec v bound); [|lia].
Qed.

(** ** Byte fields as they are written *)

Lemma chunks_loop_ok {A} fuel n (l : list A) :
  0 < n -> length l <= fuel ->
  concat (chunks_loop fuel n l) = l
  /\ Forall (fun c => 0 < length c <= n) (chunks_loop fuel n l)
  /\ length (chunks_loop fuel n l) <= length l.
Proof.
  intros Hn. revert l. induction fuel as [|fuel IH]; intros l Hl.
  { destruct l; [repeat split; constructor|cbn in Hl; lia]. }
  destruct l as [|x l]; [repeat split; constructor|]. cbn [chunks_loop].
  assert (Hd : length (drop n (x :: l)) < length (x :: l)) by (rewrite length_drop; cbn; lia).
  destruct (IH (drop n (x :: l))) as (H1 & H2 & H3); [cbn in *; lia|].
  cbn [concat length] in *. rewrite H1, take_drop. split_and!; [done| |lia].
  constructor; [|done]. rewrite length_take. cbn. lia.
Qed.

Lemma chunks_ok {A} n (l : list A) :
  0 < n -> concat (chunks n l) = l /\ Forall (fun c => 0 < length c <= n) (chunks n l).
Proof. intros Hn. by destruct (chunks_loop_ok (length l) n l Hn (le_n _)) as (H1 & H2 & _). Qed.

Definition chunk_field (big : bool) (chunk : bytes) : bytes :=
  (if big then write_ub4 (N.of_nat (length chunk)) else [N.of_nat (length chunk)]) ++ chunk.

Definition chunk_limit (big : bool) : nat := if big then TNS_BIG_CLR_CHUNK_SIZE else TNS_LEGACY_CLR_CHUNK_SIZE.

Lemma chunk_limit_pos big : 0 < chunk_limit big.
Proof. unfold chunk_limit, TNS_BIG_CLR_CHUNK_SIZE, TNS_LEGACY_CLR_CHUNK_SIZE. destruct big; lia. Qed.

Lemma p_chunk_len_write (big : bool) n l :
  n <= chunk_limit big ->
  p_chunk_len big ((if big then write_ub4 (N.of_nat n) else [N.of_nat n]) ++ l) = Some (N.of_nat n, l).
Proof.
  intros Hn. destruct big; [|done]. unfold chunk_limit, TNS_BIG_CLR_CHUNK_SIZE in Hn.
  apply p_below_uint; [by right; left|cbn; lia|cbn; lia].
Qed.

Lemma p_chunks_write big fuel out cs l :
  Forall (fun c => 0 < length c <= chunk_limit big) cs ->
  length cs <= fuel ->
  p_chunks big fuel out (concat (chunk_field big <$> cs) ++ (if big then write_ub4 0 else [0%N]) ++ l)
  = Some (Some (out ++ concat cs), l).
Proof.
  intros Hcs. revert fuel out. induction Hcs as [|c cs Hc Hcs IH]; intros fuel out Hf.
  - cbn [fmap list_fmap concat app]. rewrite app_nil_r.
    assert (H0 : p_chunk_len big ((if big then write_ub4 0 else [0%N]) ++ l) = Some (0%N, l))
      by (apply (p_chunk_len_write big 0); lia).
    destruct fuel; cbn [p_chunks]; unfold p_bind; by rewrite H0.
  - destruct fuel as [|fuel]; [cbn in Hf; lia|]. cbn [fmap list_fmap concat p_chunks].
    unfold p_bind at 1, chunk_field at 1. rewrite <- !app_assoc.
    rewrite p_chunk_len_write by lia. destruct (N.eqb_spec (N.of_nat (length c)) 0); [lia|].
    unfold p_bind. rewrite Nat2N.id, p_raw_app by done. rewrite IH by (cbn in Hf; lia).
    by rewrite <- app_assoc.
Qed.

Lemma write_bytes_long value big :
  252 < length value ->
  write_bytes_with_length_with_big_chunks value big
  = 254%N :: concat (chunk_field big <$> chunks (chunk_limit big) value)
      ++ (if big then write_ub4 0 else [0%N]).
Proof.
  intros Hl. unfold write_bytes_with_length_with_big_chunks.
  destruct (Nat.leb_spec (length value) 252); [lia|]. by destruct big.
Qed.

(** A NULL and an empty field are the same on the wire. *)
Definition present (value : bytes) : option bytes := match value with [] => None | _ => Some value end.

Lemma p_bytes_write big legacy value l :
  p_bytes big legacy (write_bytes_with_length_with_big_chunks value big ++ l) = Some (present value, l).
Proof.
  destruct (Nat.le_gt_cases (length value) 252) as [Hs|Hs].
  - unfold write_bytes_with_length_with_big_chunks. destruct (Nat.leb_spec (length value) 252); [|lia].
    unfold p_bytes, p_bind. cbn [app p_u8].
    destruct value as [|x value]; [done|]. remember (x :: value) as v eqn:Ev.
    assert (0 < length v) by (subst; cbn; lia).
    destruct (N.eqb_spec (N.of_nat (length v)) 0); [lia|].
    destruct (N.eqb_spec (N.of_nat (length v)) 255); [lia|].
    destruct (N.eqb_spec (N.of_nat (length v)) TNS_LEGACY_NULL_LENGTH_INDICATOR);
      [unfold TNS_LEGACY_NULL_LENGTH_INDICATOR in *; lia|].
    destruct (N.eqb_spec (N.of_nat (length v)) TNS_LONG_LENGTH_INDICATOR);
      [unfold TNS_LONG_LENGTH_INDICATOR in *; lia|].
    cbn [orb andb]. rewrite Nat2N.id, p_raw_app by done. by subst v.
  - rewrite write_bytes_long by done. unfold p_bytes, p_bind. cbn [app p_u8].
    change (N.eqb 254 0 || N.eqb 254 255) with false.
    change (N.eqb 254 TNS_LEGACY_NULL_LENGTH_INDICATOR) with false.
    change (N.eqb 254 TNS_LONG_LENGTH_INDICATOR) with true. cbn [andb].
    pose proof (chunk_limit_pos big) as Hlim.
    destruct (chunks_ok (chunk_limit big) value Hlim) as [Hc Hf].
    destruct (chunks_loop_ok (length value) (chunk_limit big) value Hlim (le_n _)) as (_ & _ & Hn).
    rewrite <- app_assoc. rewrite p_chunks_write; [|done|].
    + rewrite Hc. destruct value; [cbn in Hs; lia|done].
    + rewrite length_app. etransitivity; [|apply Nat.le_add_r].
      clear -Hf. induction Hf as [|c cs Hc Hf IH]; [done|]. cbn [fmap list_fmap concat length].
      rewrite length_app. unfold chunk_field at 1. rewrite length_app. lia.
Qed.

(** ** Packets as they are written *)

Section Spec.
Context (marker : N -> bytes -> bytes -> Result (bool * N * bytes) * bytes).

Lemma packet_header v payload pk s :
  write_single_data_packet v payload = Ok pk ->
  read_tns_packet v (pk ++ s) = (Ok (TNS_PACKET_TYPE_DATA, [0; 0]%N ++ payload), s).
Proof.
  unfold write_single_data_packet. remember (10 + length payload) as size eqn:Hsize.
  destruct (N.ltb_spec (N.of_nat size) (if N.leb 315 v then 2 ^ 32 else 2 ^ 16)) as [Hs|]; [|done].
  intros [= <-].
  assert (Hl : length (packet_bytes v size [0; 0]%N payload) = size).
  { unfold packet_bytes. destruct (N.leb 315 v); rewrite ?length_app, !length_to_be_bytes; cbn; lia. }
  unfold read_tns_packet. rewrite length_app, Hl.
  destruct (Nat.ltb_spec (size + length s) 8); [lia|].
  assert (Hh : N.to_nat (from_be_bytes (take (if N.leb 315 v then 4 else 2) (take 8 (packet_bytes v size [0; 0]%N payload ++ s)))) = size).
  { unfold packet_bytes. destruct (N.leb 315 v); cbn in Hs.
    - rewrite take_take. change (Nat.min 4 8) with 4. rewrite <- !app_assoc.
      rewrite take_app_le, take_ge by (rewrite length_to_be_bytes; lia).
      rewrite from_to_be_bytes by (cbn; lia). lia.
    - rewrite take_take. change (Nat.min 2 8) with 2. rewrite <- !app_assoc.
      rewrite take_app_le, take_ge by (rewrite length_to_be_bytes; lia).
      rewrite from_to_be_bytes by (cbn; lia). lia. }
  rewrite Hh. destruct (Nat.ltb_spec size 8); [lia|].
  assert (Hd : exists h, packet_bytes v size [0; 0]%N payload = h ++ [0; 0]%N ++ payload
                 /\ length h = 8 /\ byte_at h 4 = TNS_PACKET_TYPE_DATA).
  { unfold packet_bytes. destruct (N.leb 315 v).
    - exists (to_be_bytes 4 (N.of_nat size) ++ [TNS_PACKET_TYPE_DATA; 0; 0; 0]%N).
      by rewrite <- app_assoc.
    - exists ((to_be_bytes 2 (N.of_nat size) ++ [0; 0]%N) ++ [TNS_PACKET_TYPE_DATA; 0; 0; 0]%N).
      by rewrite <- app_assoc. }
  destruct Hd as (h & Hd & Hlh & Ht). rewrite Hd in *. clear Hd Hh.
  rewrite length_app, Hlh in Hl. rewrite <- (app_assoc h), take_app_length', drop_app_length' by done.
  rewrite Ht, length_app. destruct (Nat.ltb_spec (length ([0; 0]%N ++ payload) + length s) (size - 8)); [lia|].
  rewrite take_app_length', drop_app_length' by lia. done.
Qed.

Lemma read_written_packet v payload pk s :
  write_single_data_packet v payload = Ok pk ->
  read_data_packet_with_flags marker v (pk ++ s) = (Ok (0%N, payload), s).
Proof.
  intros H. unfold read_data_packet_with_flags.
  destruct (length (pk ++ s)); cbn [read_data_loop]; rewrite (packet_header v payload pk s H);
    rewrite length_app; by destruct (Nat.ltb_spec (length [0; 0]%N + length payload) 2); [cbn in *; lia|].
Qed.

Lemma read_written_packets v payloads s :
  write_packets v payloads = Ok s ->
  match payloads with
  | [] => s = []
  | first :: more =>
      exists s', read_data_packet_with_flags marker v s = (Ok (0%N, first), s') /\ write_packets v more = Ok s'
  end.
Proof.
  destruct payloads as [|p ps]; cbn [write_packets]; [by intros [= <-]|].
  destruct (write_single_data_packet v p) as [pk|] eqn:E; [|done].
  destruct (write_packets v ps) as [s'|]; [|done]. intros [= <-].
  exists s'. split; [by apply read_written_packet|done].
Qed.

Lemma arriving_nil v : arriving marker v [] = [].
Proof. done. Qed.

Context (Hmarker : marker_reads_stream marker).

Lemma arriving_written v payloads s :
  write_packets v payloads = Ok s -> arriving marker v s = concat payloads.
Proof.
  revert s. induction payloads as [|p ps IH]; intros s H; pose proof (read_written_packets v _ s H) as Hr.
  - by rewrite Hr.
  - destruct Hr as (s' & Hr & Hs'). rewrite (arriving_eq marker Hmarker), Hr. cbn [concat].
    change (ends_response 0) with false. by rewrite (IH s' Hs').
Qed.

Lemma written_payload_arrives v size payload s :
  write_data_packet v size payload = Ok s ->
  exists first s', read_data_packet_with_flags marker v s = (Ok (0%N, first), s')
    /\ first ++ arriving marker v s' = payload.
Proof.
  unfold write_data_packet. destruct (Nat.ltb_spec size (length payload)) as [Hl|Hl]; intros H.
  - destruct (chunks_ok (Nat.max size 1) payload ltac:(lia)) as [Hc _].
    apply read_written_packets in H.
    destruct (chunks (Nat.max size 1) payload) as [|first more]; [cbn in Hc; subst; cbn in Hl; lia|].
    destruct H as (s' & Hr & Hs'). exists first, s'. split; [done|].
    rewrite (arriving_written v more s' Hs'). exact Hc.
  - exists payload, []. split; [|by rewrite arriving_nil, app_nil_r].
    rewrite <- (app_nil_r s). by apply read_written_packet.
Qed.

(** ** Messages: sequences of fields *)

Inductive Field :=
  | Field_U8 | Field_Raw (len : nat)
  | Field_Ub2 | Field_Ub4 | Field_Ub8
  | Field_Sb2 | Field_Sb4 | Field_Sb8
  | Field_Bytes | Field_SizedBytes | Field_SizedStr | Field_ZeroTerminated.

Inductive FieldValue :=
  | V_Word (n : N) | V_Signed (z : Z) | V_Raw (b : bytes) | V_Bytes (b : option bytes).

Definition read_field (f : Field) : Reader FieldValue :=
  match f with
  | Field_U8 => v ← read_u8 marker; mret (V_Word v)
  | Field_Raw len => v ← read_raw marker len; mret (V_Raw v)
  | Field_Ub2 => v ← read_ub2 marker; mret (V_Word v)
  | Field_Ub4 => v ← read_ub4 marker; mret (V_Word v)
  | Field_Ub8 => v ← read_ub8 marker; mret (V_Word v)
  | Field_Sb2 => v ← read_sb2 marker; mret (V_Signed v)
  | Field_Sb4 => v ← read_sb4 marker; mret (V_Signed v)
  | Field_Sb8 => v ← read_sb8 marker; mret (V_Signed v)
  | Field_Bytes => v ← read_bytes marker; mret (V_Bytes v)
  | Field_SizedBytes => v ← read_bytes_with_ub4_length marker; mret (V_Bytes v)
  | Field_SizedStr => v ← read_str_with_length marker; mret (V_Bytes v)
  | Field_ZeroTerminated => v ← read_null_terminated_bytes marker; mret (V_Raw v)
  end.

Fixpoint read_fields (fs : list Field) : Reader (list FieldValue) :=
  match fs with
  | [] => mret []
  | f :: fs => v ← read_field f; vs ← read_fields fs; mret (v :: vs)
  end.

Lemma reads_then {A B} big legacy (m : Reader A) (p : Parser A) (f : A -> B) :
  Reads marker big legacy m p ->
  Reads marker big legacy (m ≫= fun x => mret (f x)) (p_bind p (fun x l => Some (f x, l))).
Proof. intros Hm. apply reads_bind; [done|]. intros x. apply reads_ret. Qed.

Lemma read_field_parses big legacy f : exists p, Reads marker big legacy (read_field f) p.
Proof.
  destruct f; eexists; apply reads_then.
  all: first [by apply reads_u8 | by apply reads_raw | by apply reads_ub2 | by apply reads_ub4
    | by apply reads_ub8 | by apply reads_signed | by apply reads_bytes
    | by apply reads_bytes_with_ub4_length | by apply reads_str_with_length
    | by apply reads_zero_terminated].
Qed.

Lemma read_fields_parse big legacy fs : exists p, Reads marker big legacy (read_fields fs) p.
Proof.
  induction fs as [|f fs [q Hq]]; [eexists; apply reads_ret|].
  destruct (read_field_parses big legacy f) as [p Hp]. eexists. cbn [read_fields].
  apply reads_bind; [exact Hp|]. intros v. by apply reads_then.
Qed.

(** Two runs agree: the same values and the same input left, or both fail. *)
Definition agree {A} (r1 r2 : Result A * PacketCursor) : Prop :=
  match r1, r2 with
  | (Ok x1, c1), (Ok x2, c2) => x1 = x2 /\ rest marker c1 = rest marker c2
  | (Err _, _), (Err _, _) => True
  | _, _ => False
  end.

Lemma read_fields_agree fs c1 c2 :
  cursor_ok c1 -> cursor_ok c2 -> same_caps c1 c2 -> rest marker c1 = rest marker c2 ->
  agree (read_fields fs c1) (read_fields fs c2).
Proof.
  intros H1 H2 [Hb Hl] Hr. destruct (read_fields_parse (big_clr_chunks c1) (legacy_null_clr c1) fs) as [p Hp].
  pose proof (Hp c1 H1 (conj eq_refl eq_refl)) as E1. pose proof (Hp c2 H2 (conj Hb Hl)) as E2.
  unfold reads_at in *. rewrite <- Hr in E2. unfold agree.
  destruct (read_fields fs c1) as [[x1|e1] d1], (read_fields fs c2) as [[x2|e2] d2]; try done.
  - destruct E1 as (_ & _ & E1), E2 as (_ & _ & E2). by simplify_eq.
  - destruct E1 as (_ & _ & E1). congruence.
  - destruct E2 as (_ & _ & E2). congruence.
Qed.
End Spec.

(** ** Theorems *)

(** A field reads back as it was written, wherever packet boundaries fall, and
    reading stops right behind it. *)
Theorem fields_read_back marker c l :
  marker_reads_stream marker -> cursor_ok c ->
  (forall v, (v < 2 ^ 16)%N -> rest marker c = write_ub2 v ++ l ->
     exists c', read_ub2 marker c = (Ok v, c') /\ rest marker c' = l)
  /\ (forall v, (v < 2 ^ 32)%N -> rest marker c = write_ub4 v ++ l ->
     exists c', read_ub4 marker c = (Ok v, c') /\ rest marker c' = l)
  /\ (forall v, (v < 2 ^ 64)%N -> rest marker c = write_ub8 v ++ l ->
     exists c', read_ub8 marker c = (Ok v, c') /\ rest marker c' = l)
  /\ (forall value, rest marker c = write_bytes_with_length_with_big_chunks value (big_clr_chunks c) ++ l ->
     exists c', read_bytes marker c = (Ok (present value), c') /\ rest marker c' = l).
Proof.
  intros Hm Hc.
  assert (Hread : forall A (m : Reader A) (p : Parser A) x,
    Reads marker (big_clr_chunks c) (legacy_null_clr c) m p -> p (rest marker c) = Some (x, l) ->
    exists c', m c = (Ok x, c') /\ rest marker c' = l).
  { intros A m p x Hr Hp. specialize (Hr c Hc (conj eq_refl eq_refl)). unfold reads_at in Hr.
    destruct (m c) as [[y|e] c']; rewrite Hp in Hr; [|done]. destruct Hr as (_ & _ & E).
    injection E as -> ->. by exists c'. }
  split_and!; intros v; [intros Hv Hr|intros Hv Hr|intros Hv Hr|intros Hr]; eapply Hread.
  - by apply reads_ub2.
  - rewrite Hr. by apply p_below_uint; [left|cbn|].
  - by apply reads_ub4.
  - rewrite Hr. by apply p_below_uint; [right; left|cbn|].
  - by apply reads_ub8.
  - rewrite Hr. by apply p_uint_write; [right; right|cbn].
  - by apply reads_bytes.
  - rewrite Hr. apply p_bytes_write.
Qed.

(** A payload sent in packets of any size reads, field by field, as the payload
    itself: splitting it into packets, fetching them one by one and compacting
    the buffer are invisible to whoever reads the fields. *)
Theorem packet_boundaries_are_invisible marker v capabilities size payload s fs :
  marker_reads_stream marker ->
  cap_protocol_version capabilities = Some v ->
  write_data_packet v size payload = Ok s ->
  exists data_flags first s',
    read_data_packet_with_flags marker v s = (Ok (data_flags, first), s')
    /\ agree marker (read_fields marker fs (streaming first data_flags s' capabilities))
         (read_fields marker fs (with_capabilities payload capabilities)).
Proof.
  intros Hm Hv Hw. destruct (written_payload_arrives marker Hm v size payload s Hw) as (first & s' & Hr & Hp).
  exists 0%N, first, s'. split; [done|]. apply read_fields_agree; [done|apply Nat.le_0_l|apply Nat.le_0_l|done|].
  unfold rest, arrives, streaming, with_capabilities. cbn. rewrite Hv. cbn.
  by rewrite !drop_0, app_nil_r.
Qed.

(** ** Witnesses *)

Definition no_marker (v : N) (d s : bytes) : Result (bool * N * bytes) * bytes := (Err ReadHeader, s).

Lemma no_marker_reads_stream : marker_reads_stream no_marker.
Proof. intros v d s r s' [= <- <-]. by split. Qed.

(** A field of two bytes whose second byte is in the next packet. *)
Definition split_field : PacketCursor :=
  streaming [2; 1]%N 0 (packet_bytes 319 12 [0; 0]%N [5; 9]%N) (mkCapabilities (Some 319%N) true).

Lemma fields_read_back_witness :
  exists c', read_ub2 no_marker split_field = (Ok 261%N, c') /\ rest no_marker c' = [9]%N.
Proof.
  apply (fields_read_back no_marker split_field [9]%N no_marker_reads_stream).
  - vm_compute. lia.
  - by vm_compute.
  - by vm_compute.
Defined.

(** A word and a string, sent three bytes at a time. *)
Definition a_message : bytes := write_ub2 261 ++ write_bytes_with_length [65; 66; 67; 68]%N.

Definition a_stream : bytes :=
  match write_data_packet 319 3 a_message with Ok s => s | Err _ => [] end.

Lemma packet_boundaries_are_invisible_witness :
  length a_stream = 38 /\
  exists data_flags first s',
    read_data_packet_with_flags no_marker 319 a_stream = (Ok (data_flags, first), s')
    /\ agree no_marker
         (read_fields no_marker [Field_Ub2; Field_Bytes]
            (streaming first data_flags s' (mkCapabilities (Some 319%N) true)))
         (read_fields no_marker [Field_Ub2; Field_Bytes]
            (with_capabilities a_message (mkCapabilities (Some 319%N) true))).
Proof.
  split; [by vm_compute|].
  apply (packet_boundaries_are_invisible no_marker 319 _ 3 a_message a_stream);
    [apply no_marker_reads_stream|done|by vm_compute].
Defined.

Example a_message_reads :
  (read_fields no_marker [Field_Ub2; Field_Bytes]
     (with_capabilities a_message (mkCapabilities (Some 319%N) true))).1
  = Ok [V_Word 261; V_Bytes (Some [65; 66; 67; 68]%N)].
Proof. by vm_compute. Qed.
