(* ===== verification/OracleNumber.v ===== *)
(** * Oracle NUMBER

    [encode_oracle_number] turns the text of a bind value into the wire form of
    a NUMBER, [decode_oracle_number] turns a wire value into text.  A NUMBER is a
    sign, an exponent to base 100 and digits to base 100.  Indices into the bytes
    of the text are the rest of the text; [i16] arithmetic wraps as in a release
    build. *)
From S2P Require Import Prelude RustStr Utf8 TtcWire.

Inductive NumberError :=
  | EmptyBindValue
  | InvalidBindValue
  | InvalidExponent
  | ExponentTooLarge
  | BindValueOutOfRange
  | EmptyNumberValue
  | InvalidNumberValue.

Abbreviation NumberResult A := (A + NumberError)%type.

Definition is_exponent_mark (b : byte) : bool := N.eqb b "e"%ch || N.eqb b "E"%ch.
Definition i16 (z : Z) : Z := wrap_signed 16 z.

(** ** Encoding *)

(** The digits before the point, leading zeros left out. *)
Fixpoint integer_digits (digits : list N) (text : bytes) : option (list N * bytes) :=
  match text with
  | [] => Some (digits, [])
  | b :: rest =>
      if is_ascii_digit b then
        let digit := (b - "0"%ch)%N in
        if N.eqb digit 0 && (length digits =? 0) then integer_digits digits rest
        else integer_digits (vec_push digit digits) rest
      else if N.eqb b "."%ch || is_exponent_mark b then Some (digits, text)
      else None
  end.

(** The digits after the point; a leading zero moves the point instead. *)
Fixpoint fraction_digits (digits : list N) (decimal_point_index : Z) (text : bytes)
    : option (list N * Z * bytes) :=
  match text with
  | [] => Some (digits, decimal_point_index, [])
  | b :: rest =>
      if is_ascii_digit b then
        let digit := (b - "0"%ch)%N in
        if N.eqb digit 0 && (length digits =? 0)
        then fraction_digits digits (i16 (decimal_point_index - 1)) rest
        else fraction_digits (vec_push digit digits) decimal_point_index rest
      else if is_exponent_mark b then Some (digits, decimal_point_index, text)
      else None
  end.

(** [text.parse::<i16>()] of ASCII digits. *)
Definition digits_value (ds : list N) : Z := fold_left (fun v d => v * 10 + Z.of_N d)%Z ds 0%Z.

Definition parse_i16 (text : bytes) : option Z :=
  let value := digits_value ((fun b => b - "0"%ch)%N <$> text) in
  if Z.leb value 32767 then Some value else None.

Definition parse_exponent (text : bytes) : NumberResult Z :=
  let '(exponent_negative, text) :=
    match text with
    | b :: rest => if N.eqb b "-"%ch then (true, rest)
                   else if N.eqb b "+"%ch then (false, rest) else (false, text)
    | [] => (false, [])
    end in
  if (length text =? 0) || negb (forallb is_ascii_digit text) then inr InvalidExponent
  else match parse_i16 text with
       | None => inr ExponentTooLarge
       | Some exponent => inl (if exponent_negative then (- exponent)%Z else exponent)
       end.

(** The digits before and after the point, and the position of the point. *)
Definition scan_digits (text : bytes) : option (list N * Z * bytes) :=
  match integer_digits [] text with
  | None => None
  | Some (digits, text) =>
      let decimal_point_index := i16 (Z.of_nat (length digits)) in
      match text with
      | b :: rest => if N.eqb b "."%ch then fraction_digits digits decimal_point_index rest
                     else Some (digits, decimal_point_index, text)
      | [] => Some (digits, decimal_point_index, text)
      end
  end.

(** Sign, digits and the position of the decimal point among them. *)
Definition scan_number (text : bytes) : NumberResult (bool * list N * Z) :=
  let '(is_negative, text) :=
    match text with
    | b :: rest => if N.eqb b "-"%ch then (true, rest)
                   else if N.eqb b "+"%ch then (false, rest) else (false, text)
    | [] => (false, [])
    end in
  if length text =? 0 then inr InvalidBindValue
  else match scan_digits text with
  | None => inr InvalidBindValue
  | Some (digits, decimal_point_index, text) =>
      match text with
      | b :: rest =>
          if is_exponent_mark b then
            match parse_exponent rest with
            | inr e => inr e
            | inl exponent => inl (is_negative, digits, i16 (decimal_point_index + exponent))
            end
          else inr InvalidBindValue
      | [] => inl (is_negative, digits, decimal_point_index)
      end
  end.

(** [while digits.last() == Some(&0) { digits.pop(); }]. *)
Fixpoint drop_zeros (ds : list N) : list N :=
  match ds with d :: ds' => if N.eqb d 0 then drop_zeros ds' else ds | [] => [] end.
Definition pop_zeros (ds : list N) : list N := reverse (drop_zeros (reverse ds)).

(** The base-100 digits; of the first pair only the second digit is there when a
    zero is prepended. *)
Fixpoint digit_pairs (num_pairs : nat) (prepend_zero : bool) (digits : list N) : list N :=
  match num_pairs with
  | 0 => []
  | S num_pairs =>
      if prepend_zero
      then byte_at digits 0 :: digit_pairs num_pairs false (drop 1 digits)
      else (byte_at digits 0 * 10 + byte_at digits 1)%N :: digit_pairs num_pairs false (drop 2 digits)
  end.

Definition wire_digit (is_negative : bool) (digit : N) : byte :=
  if is_negative then (101 - digit)%N else (digit + 1)%N.

(** The bytes of a number whose digits and point position are in range. *)
Definition number_bytes (is_negative : bool) (digits : list N) (decimal_point_index : Z) : bytes :=
  let prepend_zero := negb (Z.eqb (Z.rem decimal_point_index 2) 0) in
  let digits := if prepend_zero then vec_push 0%N digits else digits in
  let decimal_point_index := if prepend_zero then (decimal_point_index + 1)%Z else decimal_point_index in
  let digits := if Nat.odd (length digits) then vec_push 0%N digits else digits in
  let num_pairs := length digits / 2 in
  let exponent_on_wire := Z.to_N ((Z.quot decimal_point_index 2 + 192) mod 256) in
  (if is_negative then N.lxor exponent_on_wire 255 else exponent_on_wire)
  :: (wire_digit is_negative <$> digit_pairs num_pairs prepend_zero digits)
  ++ (if is_negative && (length digits <? 38) then [102%N] else []).

Definition encode_oracle_number (value : str) : NumberResult bytes :=
  let text := encode_str (trim value) in
  if length text =? 0 then inr EmptyBindValue
  else
    match scan_number text with
    | inr e => inr e
    | inl (is_negative, digits, decimal_point_index) =>
        let digits := pop_zeros digits in
        if length digits =? 0 then inl [128%N]
        else if (38 <? length digits)
                || negb (Z.leb (-129) decimal_point_index && Z.leb decimal_point_index 126)
        then inr BindValueOutOfRange
        else inl (number_bytes is_negative digits decimal_point_index)
    end.

(** ** Decoding *)

Definition digit_char (digit : N) : char := ("0"%ch + digit)%N.

Definition mantissa_digit (negative : bool) (b : byte) : N :=
  let digit := (b - 1)%N in if negative then (100 - digit)%N else digit.

Fixpoint trim_zeros (s : str) : str :=
  match s with c :: s' => if N.eqb c "0"%ch then trim_zeros s' else s | [] => [] end.

(** [insert(i, c)]. *)
Definition str_insert (i : nat) (c : char) (s : str) : str := take i s ++ c :: drop i s.

(** [while s.ends_with(c) { s.pop(); }]. *)
Definition pop_trailing_zeros (s : str) : str := reverse (trim_zeros (reverse s)).

Definition zeros (n : nat) : str := replicate n "0"%ch.

(** The digits with the decimal point in place. *)
Definition place_point (digits : str) (scale : Z) : str :=
  if Z.ltb 0 scale then digits ++ zeros (Z.to_nat scale)
  else if Z.ltb scale 0 then
    let point_pos := (Z.of_nat (length digits) + scale)%Z in
    if Z.leb point_pos 0 then u "0." ++ zeros (Z.abs_nat point_pos) ++ digits
    else str_insert (Z.to_nat point_pos) "."%ch digits
  else digits.

Definition tidy_fraction (digits : str) : str :=
  if existsb (N.eqb "."%ch) digits then
    let digits := pop_trailing_zeros digits in
    if bool_decide (last digits = Some "."%ch) then vec_pop digits else digits
  else digits.

Definition decode_oracle_number (bytes : list N) : NumberResult str :=
  match bytes with
  | [] => inr EmptyNumberValue
  | first :: mantissa =>
      if bytes == [128%N] then inl (u "0")
      else if bytes == [0%N] then inl (u "-Infinity")
      else if bytes == [255; 101]%N then inl (u "Infinity")
      else
        let negative := N.eqb (N.land first 128) 0 in
        let exponent :=
          (Z.of_N (if negative then N.lxor first 127 else N.land first 127) - 64)%Z in
        if length mantissa =? 0 then inr InvalidNumberValue
        else
          let mantissa :=
            if negative && bool_decide (last mantissa = Some 102%N) then vec_pop mantissa else mantissa in
          let digits :=
            concat ((fun b => let digit := mantissa_digit negative b in
                              [digit_char (digit / 10); digit_char (digit mod 10)])%N <$> mantissa) in
          let scale := (exponent * 2 - Z.of_nat (length digits))%Z in
          let digits :=
            if 1 <? length digits
            then match trim_zeros digits with [] => u "0" | trimmed => trimmed end
            else digits in
          let digits := tidy_fraction (place_point digits scale) in
          let digits := if bool_decide (head digits = Some "."%ch) then "0"%ch :: digits else digits in
          inl (if negative && (digits != u "0") then "-"%ch :: digits else digits)
  end.

(** ** Concrete values, from the tests of the driver *)

Example encodes_zero : encode_oracle_number (u "0.000") = inl [128%N]. Proof. reflexivity. Qed.
Example number_123 :
  encode_oracle_number (u "123.45e1") = inl [194; 13; 35; 51]%N
  /\ decode_oracle_number [194; 13; 35; 51]%N = inl (u "1234.5").
Proof. split; reflexivity. Qed.
Example negative_small :
  encode_oracle_number (u "-0.0010") = inl [64; 91; 102]%N
  /\ decode_oracle_number [64; 91; 102]%N = inl (u "-0.001").
Proof. split; vm_compute; reflexivity. Qed.
