(* ===== verification/OracleNumberSpec.v ===== *)
(** * Oracle numbers round-trip

    Digits, base-100 pairs and exponents, and the theorem that an encoded NUMBER
    decodes to the decimal text it came from. *)
From S2P Require Import Prelude RustStr Utf8 TtcWire OracleNumber.

(** * Numerals and Oracle NUMBER

    A [Numeral] is a numeric literal by its parts, [print] its text and [value]
    the decimal number it denotes.  What the scanner reads from the text of a
    numeral, what the encoder makes of it, and what decoding gives back. *)

#[local] Arguments Nat.ltb : simpl never.
#[local] Arguments Nat.leb : simpl never.
#[local] Arguments N.sub : simpl never.
#[local] Arguments N.add : simpl never.
#[local] Arguments i16 : simpl never.

(** ** Numerals *)

Inductive Sign := NoSign | Plus | Minus.

Record Numeral := mkNumeral {
  num_sign : Sign;
  num_ints : list N;
  num_frac : option (list N);
  num_exp : option (bool * Sign * list N)
}.

Definition sign_text (s : Sign) : str := match s with NoSign => [] | Plus => u "+" | Minus => u "-" end.
Definition digits_text (ds : list N) : str := digit_char <$> ds.
Definition is_minus (s : Sign) : bool := match s with Minus => true | _ => false end.

Definition frac_text (f : option (list N)) : str :=
  match f with Some ds => "."%ch :: digits_text ds | None => [] end.

Definition exp_text (e : option (bool * Sign * list N)) : str :=
  match e with
  | Some (upper, s, ds) => (if upper : bool then "E"%ch else "e"%ch) :: sign_text s ++ digits_text ds
  | None => []
  end.

Definition print (n : Numeral) : str :=
  sign_text (num_sign n) ++ digits_text (num_ints n) ++ frac_text (num_frac n) ++ exp_text (num_exp n).

Definition digits_ok (ds : list N) : Prop := Forall (fun d => (d < 10)%N) ds.

Definition significant (n : Numeral) : list N := num_ints n ++ default [] (num_frac n).

Definition numeral_shape (n : Numeral) : Prop :=
  digits_ok (significant n)
  /\ (forall upper s ds, num_exp n = Some (upper, s, ds) -> digits_ok ds /\ ds <> [])
  /\ (num_ints n <> [] \/ num_frac n <> None \/ num_exp n <> None).

(** The size bound keeps the [i16] index of the decimal point exact. *)
Definition numeral_ok (n : Numeral) : Prop :=
  numeral_shape n /\ (Z.of_nat (length (significant n)) <= 32000)%Z.

Definition exponent_size (n : Numeral) : Z :=
  match num_exp n with Some (_, _, ds) => digits_value ds | None => 0 end.

Definition exponent (n : Numeral) : Z :=
  match num_exp n with
  | Some (_, s, ds) => if is_minus s then - digits_value ds else digits_value ds
  | None => 0
  end%Z.

(** Where the point is, counted from the first significant digit. *)
Definition point (n : Numeral) : Z :=
  (Z.of_nat (length (num_ints n))
   - (Z.of_nat (length (significant n)) - Z.of_nat (length (drop_zeros (significant n)))) + exponent n)%Z.

Definition normal_digits (n : Numeral) : list N := pop_zeros (drop_zeros (significant n)).

(** A decimal number is a mantissa and an exponent. *)
Definition signed (neg : bool) (m : Z) : Z := if neg then (- m)%Z else m.

Definition value (n : Numeral) : Z * Z :=
  (signed (is_minus (num_sign n)) (digits_value (significant n)),
   exponent n - Z.of_nat (length (default [] (num_frac n))))%Z.

Definition same_decimal (x y : Z * Z) : Prop :=
  let low := Z.min x.2 y.2 in
  (x.1 * 10 ^ (x.2 - low) = y.1 * 10 ^ (y.2 - low))%Z.

(** ** Zeros *)

Lemma drop_zeros_app l1 l2 :
  drop_zeros (l1 ++ l2) = match drop_zeros l1 with [] => drop_zeros l2 | r => r ++ l2 end.
Proof. induction l1 as [|d l IH]; cbn; [done|]. by destruct (N.eqb d 0). Qed.

Lemma drop_zeros_split l : exists k, l = replicate k 0%N ++ drop_zeros l.
Proof.
  induction l as [|d l [k IH]]; [by exists 0|]. cbn. destruct (N.eqb_spec d 0) as [->|Hd].
  - exists (S k). cbn. by rewrite <- IH.
  - by exists 0.
Qed.

Lemma drop_zeros_head l d r : drop_zeros l = d :: r -> d <> 0%N.
Proof.
  induction l as [|x l IH]; cbn; [done|]. destruct (N.eqb_spec x 0); [done|]. by intros [= <- <-].
Qed.

Lemma drop_zeros_id l : head l <> Some 0%N -> drop_zeros l = l.
Proof. destruct l as [|d l]; cbn; [done|]. intros H. destruct (N.eqb_spec d 0); congruence. Qed.

Lemma drop_zeros_zeros k l : drop_zeros (replicate k 0%N ++ l) = drop_zeros l.
Proof. by induction k. Qed.

Lemma drop_zeros_idemp l : drop_zeros (drop_zeros l) = drop_zeros l.
Proof.
  apply drop_zeros_id. destruct (drop_zeros l) eqn:E; [done|]. apply drop_zeros_head in E.
  cbn. congruence.
Qed.

Lemma pop_zeros_split l : exists k, l = pop_zeros l ++ replicate k 0%N.
Proof.
  unfold pop_zeros. destruct (drop_zeros_split (reverse l)) as [k Hk]. exists k.
  apply (f_equal reverse) in Hk. rewrite reverse_involutive, reverse_app, reverse_replicate in Hk. done.
Qed.

Lemma pop_zeros_last l : last (pop_zeros l) <> Some 0%N.
Proof.
  unfold pop_zeros. rewrite last_reverse. destruct (drop_zeros (reverse l)) eqn:E; [done|].
  apply drop_zeros_head in E. cbn. congruence.
Qed.

Lemma pop_zeros_app_zeros l k : pop_zeros (l ++ replicate k 0%N) = pop_zeros l.
Proof. unfold pop_zeros. by rewrite reverse_app, reverse_replicate, drop_zeros_zeros. Qed.

Lemma pop_zeros_id l : last l <> Some 0%N -> pop_zeros l = l.
Proof.
  intros H. unfold pop_zeros. rewrite drop_zeros_id, reverse_involutive; [done|].
  by rewrite head_reverse.
Qed.

Lemma digits_value_acc ds v :
  fold_left (fun v d => v * 10 + Z.of_N d)%Z ds v = (v * 10 ^ Z.of_nat (length ds) + digits_value ds)%Z.
Proof.
  unfold digits_value. revert v. induction ds as [|d ds IH]; intros v; cbn [fold_left length].
  - rewrite Z.mul_1_r. lia.
  - rewrite IH, (IH (0 * 10 + _)%Z). rewrite Nat2Z.inj_succ, Z.pow_succ_r by lia. lia.
Qed.

Lemma digits_value_app l1 l2 :
  digits_value (l1 ++ l2) = (digits_value l1 * 10 ^ Z.of_nat (length l2) + digits_value l2)%Z.
Proof. unfold digits_value at 1. rewrite fold_left_app. by rewrite digits_value_acc. Qed.

Lemma digits_value_zeros k : digits_value (replicate k 0%N) = 0%Z.
Proof.
  induction k as [|k IH]; [done|]. change (replicate (S k) 0%N) with ([0%N] ++ replicate k 0%N).
  rewrite digits_value_app, IH. change (digits_value [0%N]) with 0%Z. lia.
Qed.

Lemma digits_value_nonneg ds : (0 <= digits_value ds)%Z.
Proof.
  induction ds as [|d ds IH] using rev_ind; [done|]. rewrite digits_value_app.
  change (digits_value [d]) with (0 * 10 + Z.of_N d)%Z. lia.
Qed.

(** The significant digits are zeros, the normal digits, zeros. *)
Lemma significant_split n :
  exists j k, significant n = replicate j 0%N ++ normal_digits n ++ replicate k 0%N
    /\ Z.of_nat j = (Z.of_nat (length (significant n)) - Z.of_nat (length (drop_zeros (significant n))))%Z.
Proof.
  unfold normal_digits. destruct (drop_zeros_split (significant n)) as [j Hj].
  destruct (pop_zeros_split (drop_zeros (significant n))) as [k Hk].
  exists j, k. split; [by rewrite <- Hk|].
  rewrite Hj at 1. rewrite length_app, length_replicate. lia.
Qed.

(** The number a numeral denotes, by its normal digits. *)
Lemma value_normal n :
  exists k, value n =
    (signed (is_minus (num_sign n)) (digits_value (normal_digits n) * 10 ^ Z.of_nat k),
     point n - Z.of_nat (length (normal_digits n)) - Z.of_nat k)%Z.
Proof.
  destruct (significant_split n) as (j & k & Hs & Hj). exists k. unfold value, point.
  rewrite <- Hj. rewrite Hs at 1. rewrite digits_value_app, digits_value_zeros, digits_value_app, digits_value_zeros.
  rewrite length_replicate. f_equal; [f_equal; lia|].
  assert (Hl : Z.of_nat (length (significant n)) = (Z.of_nat j + Z.of_nat (length (normal_digits n)) + Z.of_nat k)%Z)
    by (rewrite Hs, !length_app, !length_replicate; lia).
  unfold significant in Hl. rewrite length_app in Hl. lia.
Qed.

Lemma same_decimal_scaled neg m e j k :
  same_decimal (signed neg (m * 10 ^ Z.of_nat j), (e - Z.of_nat j)%Z)
    (signed neg (m * 10 ^ Z.of_nat k), (e - Z.of_nat k)%Z).
Proof.
  unfold same_decimal. cbn [fst snd]. set (low := Z.min _ _).
  assert (H : forall i, (low <= e - Z.of_nat i)%Z ->
    (signed neg (m * 10 ^ Z.of_nat i) * 10 ^ (e - Z.of_nat i - low))%Z = signed neg (m * 10 ^ (e - low))).
  { intros i Hi. replace (e - low)%Z with (Z.of_nat i + (e - Z.of_nat i - low))%Z by lia.
    rewrite Z.pow_add_r by lia. unfold signed. destruct neg; lia. }
  rewrite !H by lia. done.
Qed.

(** Numerals of one sign with the same normal digits and the same point denote
    the same number. *)
Lemma same_normal_same_decimal n m :
  is_minus (num_sign n) = is_minus (num_sign m) ->
  normal_digits n = normal_digits m -> point n = point m -> same_decimal (value n) (value m).
Proof.
  intros Hs Hd Hp. destruct (value_normal n) as [j ->], (value_normal m) as [k ->].
  rewrite Hs, Hd, Hp. apply same_decimal_scaled.
Qed.

Lemma zero_value n : normal_digits n = [] -> exists e, value n = (0%Z, e).
Proof.
  intros H. destruct (value_normal n) as [k ->]. rewrite H. eexists. f_equal.
  change (digits_value []) with 0%Z. by destruct (is_minus (num_sign n)).
Qed.

(** ** Reading a numeral *)

Lemma digit_char_digit d :
  (d < 10)%N -> is_ascii_digit (digit_char d) = true /\ (digit_char d - "0"%ch)%N = d.
Proof.
  intros Hd. unfold is_ascii_digit, in_range, digit_char. split; [|lia].
  apply andb_true_iff. split; apply N.leb_le; lia.
Qed.

Lemma i16_range z : (-32768 <= z <= 32767)%Z -> i16 z = z.
Proof. intros Hz. unfold i16, wrap_signed. cbn. rewrite Z.mod_small; lia. Qed.

Lemma i16_congr z : exists k, i16 z = (z + k * 65536)%Z.
Proof.
  unfold i16, wrap_signed. exists (- ((z + 2 ^ (16 - 1)) / 2 ^ 16))%Z.
  rewrite Z.mod_eq by done. change (2 ^ 16)%Z with 65536%Z. lia.
Qed.

Lemma i16_add x y : i16 (i16 x + y) = i16 (x + y).
Proof.
  destruct (i16_congr x) as [k ->]. unfold i16, wrap_signed.
  replace (x + k * 65536 + y + 2 ^ (16 - 1))%Z with (x + y + 2 ^ (16 - 1) + k * 2 ^ 16)%Z by (cbn; lia).
  by rewrite Z.mod_add.
Qed.

Lemma drop_zeros_snoc acc d :
  drop_zeros acc = acc ->
  drop_zeros (acc ++ [d]) = if N.eqb d 0 && (length acc =? 0) then acc else vec_push d acc.
Proof.
  intros Ha. rewrite drop_zeros_app, Ha. destruct acc as [|a acc]; cbn [drop_zeros length].
  - destruct (N.eqb d 0); done.
  - by rewrite andb_false_r.
Qed.

Definition ends_integer (r : str) : Prop :=
  match r with [] => True | b :: _ => is_ascii_digit b = false /\ (N.eqb b "."%ch || is_exponent_mark b) = true end.

Definition ends_fraction (r : str) : Prop :=
  match r with [] => True | b :: _ => is_ascii_digit b = false /\ is_exponent_mark b = true end.

Lemma integer_digits_read acc ds r :
  digits_ok ds -> drop_zeros acc = acc -> ends_integer r ->
  integer_digits acc (digits_text ds ++ r) = Some (drop_zeros (acc ++ ds), r).
Proof.
  intros Hds. revert acc. induction Hds as [|d ds Hd Hds IH]; intros acc Ha Hr.
  - cbn [digits_text fmap list_fmap app]. rewrite app_nil_r, Ha.
    destruct r as [|b r]; [done|]. destruct Hr as [H1 H2]. cbn [integer_digits]. by rewrite H1, H2.
  - destruct (digit_char_digit d Hd) as [H1 H2].
    cbn [digits_text fmap list_fmap app integer_digits]. rewrite H1, H2.
    pose proof (drop_zeros_snoc acc d Ha) as Hs.
    replace (acc ++ d :: ds) with ((acc ++ [d]) ++ ds) by (by rewrite <- app_assoc).
    destruct (N.eqb d 0 && (length acc =? 0)).
    + change (digit_char <$> ds) with (digits_text ds). rewrite (IH acc Ha Hr).
      rewrite (drop_zeros_app (acc ++ [d])), Hs, drop_zeros_app, Ha. done.
    + change (digit_char <$> ds) with (digits_text ds). rewrite IH; [done| |done].
      unfold vec_push in *. rewrite <- Hs at 2. by rewrite Hs.
Qed.

Lemma fraction_digits_read acc q ds r :
  digits_ok ds -> drop_zeros acc = acc -> ends_fraction r ->
  fraction_digits acc (i16 q) (digits_text ds ++ r)
  = Some (drop_zeros (acc ++ ds),
          i16 (q - (Z.of_nat (length (acc ++ ds)) - Z.of_nat (length (drop_zeros (acc ++ ds))))), r).
Proof.
  intros Hds. revert acc q. induction Hds as [|d ds Hd Hds IH]; intros acc q Ha Hr.
  - cbn [digits_text fmap list_fmap app]. rewrite app_nil_r, Ha.
    replace (q - _)%Z with q by lia.
    destruct r as [|b r]; [done|]. destruct Hr as [H1 H2]. cbn [fraction_digits]. by rewrite H1, H2.
  - destruct (digit_char_digit d Hd) as [H1 H2].
    cbn [digits_text fmap list_fmap app fraction_digits]. rewrite H1, H2.
    pose proof (drop_zeros_snoc acc d Ha) as Hs. change (digit_char <$> ds) with (digits_text ds).
    replace (acc ++ d :: ds) with ((acc ++ [d]) ++ ds) by (by rewrite <- app_assoc).
    destruct (N.eqb d 0 && (length acc =? 0)) eqn:E.
    + apply andb_true_iff in E as [->%N.eqb_eq He%Nat.eqb_eq]. destruct acc; [|done].
      replace (i16 (i16 q - 1)) with (i16 (q - 1)) by (symmetry; apply (i16_add q (-1))).
      rewrite (IH [] (q - 1)%Z eq_refl Hr). cbn [app drop_zeros length].
      change (N.eqb 0 0) with true. cbn iota. do 2 f_equal. f_equal. f_equal. lia.
    + rewrite IH; [done| |done]. unfold vec_push in *. rewrite <- Hs at 2. by rewrite Hs.
Qed.

(** Digits are read into a value; [parse::<i16>] refuses what does not fit. *)
Lemma digits_text_forall ds : digits_ok ds -> forallb is_ascii_digit (digits_text ds) = true.
Proof.
  induction 1 as [|d ds Hd Hds IH]; [done|]. cbn. by rewrite (proj1 (digit_char_digit d Hd)).
Qed.

Lemma parse_i16_read ds :
  digits_ok ds ->
  parse_i16 (digits_text ds) = if Z.leb (digits_value ds) 32767 then Some (digits_value ds) else None.
Proof.
  intros Hds. unfold parse_i16.
  replace ((fun b => b - "0"%ch)%N <$> digits_text ds) with ds; [done|].
  induction Hds as [|d ds Hd Hds IH]; [done|]. cbn [digits_text fmap list_fmap]. 
  rewrite (proj2 (digit_char_digit d Hd)). by f_equal.
Qed.

Lemma parse_exponent_read s ds :
  digits_ok ds -> ds <> [] ->
  parse_exponent (sign_text s ++ digits_text ds)
  = if Z.leb (digits_value ds) 32767
    then inl (if is_minus s then - digits_value ds else digits_value ds)%Z else inr ExponentTooLarge.
Proof.
  intros Hds Hne.
  assert (Hplain : forall neg,
    (if (length (digits_text ds) =? 0) || negb (forallb is_ascii_digit (digits_text ds)) then inr InvalidExponent
     else match parse_i16 (digits_text ds) with
          | None => inr ExponentTooLarge
          | Some e => inl (if neg : bool then (- e)%Z else e) end)
    = if Z.leb (digits_value ds) 32767
      then inl (if neg then - digits_value ds else digits_value ds)%Z else inr ExponentTooLarge :> NumberResult Z).
  { intros neg. rewrite digits_text_forall, parse_i16_read by done.
    destruct ds; [done|]. cbn [digits_text fmap list_fmap length]. cbn [Nat.eqb orb negb].
    by destruct (Z.leb _ _). }
  unfold parse_exponent. destruct s; [|exact (Hplain false)|exact (Hplain true)].
  cbn [sign_text app]. destruct Hds as [|d ds Hd Hds]; [done|]. cbn [digits_text fmap list_fmap].
  replace (N.eqb (digit_char d) "-"%ch) with false by (symmetry; apply N.eqb_neq; unfold digit_char; lia).
  replace (N.eqb (digit_char d) "+"%ch) with false by (symmetry; apply N.eqb_neq; unfold digit_char; lia).
  exact (Hplain false).
Qed.

Lemma exp_text_ends n : ends_fraction (exp_text (num_exp n)).
Proof. unfold exp_text. destruct (num_exp n) as [[[[] s] ds]|]; [done..|done]. Qed.

Lemma fraction_ends_integer r : ends_fraction r -> ends_integer r.
Proof.
  destruct r as [|b r]; [done|]. intros [H1 H2]. split; [done|]. by rewrite H2, orb_true_r.
Qed.

(** What follows the sign of a numeral. *)
Definition body (n : Numeral) : str :=
  digits_text (num_ints n) ++ frac_text (num_frac n) ++ exp_text (num_exp n).

(** The digits of a numeral and the index of its point before the exponent. *)
Definition unscaled_point (n : Numeral) : Z :=
  (Z.of_nat (length (num_ints n))
   - (Z.of_nat (length (significant n)) - Z.of_nat (length (drop_zeros (significant n)))))%Z.

Lemma scan_digits_read n :
  numeral_shape n ->
  scan_digits (body n)
  = Some (drop_zeros (significant n), i16 (unscaled_point n), exp_text (num_exp n)).
Proof.
  intros (Hd & _). pose proof (exp_text_ends n) as He. unfold scan_digits, body, unscaled_point, significant in *.
  destruct (num_frac n) as [f|]; cbn [default frac_text] in *; unfold id, digits_ok in *.
  - apply Forall_app in Hd as [Hi Hf].
    rewrite integer_digits_read; [|done|done|by split].
    cbn [app]. change (N.eqb "."%ch "."%ch) with true. cbn iota.
    rewrite fraction_digits_read; [|done|by rewrite drop_zeros_idemp|done].
    assert (E : drop_zeros (drop_zeros (num_ints n) ++ f) = drop_zeros (num_ints n ++ f)).
    { rewrite !drop_zeros_app, drop_zeros_idemp. by destruct (drop_zeros (num_ints n)). }
    rewrite E, !length_app. do 4 f_equal. lia.
  - rewrite app_nil_r in *. cbn [app]. rewrite integer_digits_read; [|done|done|by apply fraction_ends_integer].
    cbn [app]. destruct (exp_text (num_exp n)) as [|b r] eqn:E.
    + do 4 f_equal. lia.
    + assert (Hb : N.eqb b "."%ch = false).
      { destruct (num_exp n) as [[[[] s] ds]|]; cbn in E; by simplify_eq. }
      rewrite Hb. do 4 f_equal. lia.
Qed.

Lemma body_not_empty n : numeral_shape n -> body n <> [].
Proof.
  intros (_ & He & Hne). unfold body. destruct (num_ints n); [|done].
  destruct (num_frac n); [done|]. destruct (num_exp n) as [[[up s] ds]|]; [done|].
  cbn in Hne. intuition.
Qed.

(** The sign is taken off: a body starts with a digit, a point or an exponent. *)
Lemma body_head n b r :
  numeral_shape n -> body n = b :: r -> N.eqb b "-"%ch = false /\ N.eqb b "+"%ch = false.
Proof.
  intros (Hd & _) E. unfold body, significant in *.
  destruct (num_ints n) as [|d ds]; cbn [digits_text fmap list_fmap app] in E.
  - destruct (num_frac n) as [f|]; cbn in E; [by simplify_eq|].
    destruct (num_exp n) as [[[[] s] ds]|]; cbn in E; by simplify_eq.
  - injection E as <- <-. unfold digit_char. split; apply N.eqb_neq; lia.
Qed.

Lemma scan_number_read n :
  numeral_shape n ->
  scan_number (print n)
  = if Z.leb (exponent_size n) 32767
    then inl (is_minus (num_sign n), drop_zeros (significant n), i16 (point n))
    else inr ExponentTooLarge.
Proof.
  intros Hn.
  assert (Hbody : forall neg,
    (if length (body n) =? 0 then inr InvalidBindValue
     else match scan_digits (body n) with
       | None => inr InvalidBindValue
       | Some (digits, decimal_point_index, text) =>
           match text with
           | b :: rest =>
               if is_exponent_mark b then
                 match parse_exponent rest with
                 | inr e => inr e
                 | inl exponent => inl (neg : bool, digits, i16 (decimal_point_index + exponent))
                 end
               else inr InvalidBindValue
           | [] => inl (neg, digits, decimal_point_index)
           end
       end)
    = if Z.leb (exponent_size n) 32767
      then inl (neg, drop_zeros (significant n), i16 (point n)) else inr ExponentTooLarge
    :> NumberResult (bool * list N * Z)).
  { intros neg. pose proof (body_not_empty n Hn) as Hne.
    destruct (Nat.eqb_spec (length (body n)) 0) as [Hz|_]; [by destruct (body n)|].
    rewrite scan_digits_read by done. destruct Hn as (_ & He & _).
    unfold exponent_size, point, exponent, unscaled_point.
    destruct (num_exp n) as [[[up s] ds]|] eqn:E; cbn [exp_text].
    - destruct (He _ _ _ eq_refl) as [Hds Hnil].
      assert (Hm : is_exponent_mark (if up then "E"%ch else "e"%ch) = true) by (destruct up; done).
      rewrite Hm, parse_exponent_read by done. destruct (Z.leb _ _); [|done]. by rewrite i16_add.
    - by rewrite Z.add_0_r. }
  unfold scan_number, print. fold (body n).
  destruct (num_sign n); [|exact (Hbody false)|exact (Hbody true)].
  cbn [sign_text app]. destruct (body n) as [|b r] eqn:E; [by destruct (body_not_empty n Hn)|].
  destruct (body_head n b r Hn E) as [-> ->]. exact (Hbody false).
Qed.

(** ** The text of a numeral as a bind value *)

Definition number_char (c : char) : Prop :=
  is_ascii_digit c = true \/ In c (u "+-.eE").

Lemma number_char_plain c : number_char c -> is_whitespace c = false /\ utf8_encode c = [c].
Proof.
  intros [Hc|Hc].
  - unfold is_ascii_digit, in_range in Hc. apply andb_true_iff in Hc as [H1%N.leb_le H2%N.leb_le].
    assert (Hb : (48 <= c <= 57)%N) by done. clear -Hb. unfold utf8_encode.
    destruct (N.ltb_spec c 128); [|lia]. split; [|done].
    assert (Hc : (c = 48 \/ c = 49 \/ c = 50 \/ c = 51 \/ c = 52 \/ c = 53 \/ c = 54 \/ c = 55 \/ c = 56 \/ c = 57)%N)
      by lia.
    destruct Hc as [->|[->|[->|[->|[->|[->|[->|[->|[->| ->]]]]]]]]]; reflexivity.
  - cbn in Hc. destruct Hc as [<-|[<-|[<-|[<-|[<-|[]]]]]]; by split.
Qed.

Lemma encode_str_number s : Forall number_char s -> encode_str s = s.
Proof.
  induction 1 as [|c s Hc Hs IH]; [done|]. change (encode_str (c :: s)) with (utf8_encode c ++ encode_str s).
  by rewrite (proj2 (number_char_plain c Hc)), IH.
Qed.

Lemma digits_text_chars ds : digits_ok ds -> Forall number_char (digits_text ds).
Proof.
  intros Hds. apply Forall_fmap. eapply Forall_impl; [exact Hds|]. intros d Hd. left. by apply digit_char_digit.
Qed.

Lemma sign_text_chars s : Forall number_char (sign_text s).
Proof. destruct s; repeat constructor; right; vm_compute; tauto. Qed.

Lemma print_chars n : numeral_shape n -> Forall number_char (print n).
Proof.
  intros (Hd & He & _). unfold print, significant, digits_ok in *. apply Forall_app in Hd as [Hi Hf].
  repeat (apply Forall_app; split); [apply sign_text_chars|by apply digits_text_chars| |].
  - destruct (num_frac n); [|constructor]. constructor; [right; vm_compute; tauto|by apply digits_text_chars].
  - destruct (num_exp n) as [[[up s] ds]|]; [|constructor]. destruct (He _ _ _ eq_refl) as [Hds _].
    constructor; [right; destruct up; vm_compute; tauto|].
    apply Forall_app. split; [apply sign_text_chars|by apply digits_text_chars].
Qed.

Definition in_range_number (ds : list N) (p : Z) : bool :=
  (length ds <=? 38) && Z.leb (-129) p && Z.leb p 126.

Lemma i16_point_range n :
  numeral_ok n -> (exponent_size n <= 32767)%Z ->
  (Z.leb (-129) (i16 (point n)) && Z.leb (i16 (point n)) 126) = (Z.leb (-129) (point n) && Z.leb (point n) 126)
  /\ ((-129 <= point n <= 126)%Z -> i16 (point n) = point n).
Proof.
  intros [_ Hl] He. split; [|intros; apply i16_range; lia].
  assert (Hp : (-64767 <= point n <= 64767)%Z).
  { unfold point, exponent, exponent_size in *. destruct (drop_zeros_split (significant n)) as [k Hk].
    apply (f_equal length) in Hk. rewrite length_app, length_replicate in Hk.
    unfold significant in Hl. rewrite length_app in Hl.
    assert (length (significant n) = length (num_ints n) + length (default [] (num_frac n)))
      by (unfold significant; by rewrite length_app).
    destruct (num_exp n) as [[[up s] ds]|]; [|lia].
    pose proof (digits_value_nonneg ds). destruct (is_minus s); lia. }
  destruct (decide (-32768 <= point n <= 32767)%Z) as [Hr|Hr]; [by rewrite i16_range|].
  destruct (i16_congr (point n)) as [k Hk].
  assert (Hi : (-32768 <= i16 (point n) <= 32767)%Z).
  { unfold i16, wrap_signed. change (2 ^ (16 - 1))%Z with 32768%Z. change (2 ^ 16)%Z with 65536%Z.
    pose proof (Z.mod_pos_bound (point n + 32768) 65536 eq_refl). lia. }
  destruct (Z.leb_spec (-129) (i16 (point n))), (Z.leb_spec (i16 (point n)) 126),
    (Z.leb_spec (-129) (point n)), (Z.leb_spec (point n) 126); try done; lia.
Qed.

Lemma print_is_text n :
  numeral_shape n -> encode_str (trim (print n)) = print n /\ (length (print n) =? 0) = false.
Proof.
  intros Hn. pose proof (print_chars n Hn) as Hc. split.
  - rewrite trim_plain, encode_str_number; [done|done|].
    eapply Forall_impl; [exact Hc|]. intros c H. by apply number_char_plain.
  - apply Nat.eqb_neq. intros Hz. unfold print in Hz. fold (body n) in Hz. rewrite length_app in Hz.
    pose proof (body_not_empty n Hn). destruct (body n); [done|cbn in Hz; lia].
Qed.

Lemma encode_shape n :
  numeral_shape n -> (exponent_size n <= 32767)%Z ->
  encode_oracle_number (print n)
  = if length (normal_digits n) =? 0 then inl [128%N]
    else if in_range_number (normal_digits n) (i16 (point n))
    then inl (number_bytes (is_minus (num_sign n)) (normal_digits n) (i16 (point n)))
    else inr BindValueOutOfRange.
Proof.
  intros Hn He. unfold encode_oracle_number. destruct (print_is_text n Hn) as [-> ->].
  rewrite scan_number_read by done. destruct (Z.leb_spec (exponent_size n) 32767); [|lia].
  fold (normal_digits n). destruct (length (normal_digits n) =? 0); [done|]. unfold in_range_number.
  destruct (Nat.ltb_spec 38 (length (normal_digits n))), (Nat.leb_spec (length (normal_digits n)) 38);
    try lia; cbn [orb andb]; [done|]. by destruct (Z.leb (-129) _), (Z.leb _ 126).
Qed.

Lemma encode_large_exponent n :
  numeral_shape n -> (32767 < exponent_size n)%Z -> encode_oracle_number (print n) = inr ExponentTooLarge.
Proof.
  intros Hn He. unfold encode_oracle_number. destruct (print_is_text n Hn) as [-> ->].
  rewrite scan_number_read by done. by destruct (Z.leb_spec (exponent_size n) 32767); [lia|].
Qed.

(** What the encoder makes of a numeral. *)
Lemma encode_read n :
  numeral_ok n ->
  encode_oracle_number (print n)
  = if Z.leb (exponent_size n) 32767 then
      if length (normal_digits n) =? 0 then inl [128%N]
      else if in_range_number (normal_digits n) (point n)
      then inl (number_bytes (is_minus (num_sign n)) (normal_digits n) (point n))
      else inr BindValueOutOfRange
    else inr ExponentTooLarge.
Proof.
  intros Hn. destruct (Z.leb_spec (exponent_size n) 32767) as [He|He]; [|apply encode_large_exponent; [apply Hn|done]].
  rewrite encode_shape by (apply Hn || done). destruct (length (normal_digits n) =? 0); [done|].
  destruct (i16_point_range n Hn He) as [Hr Hp]. unfold in_range_number.
  destruct (Nat.leb_spec (length (normal_digits n)) 38); cbn [andb]; [|done]. rewrite Hr.
  destruct (Z.leb_spec (-129) (point n)), (Z.leb_spec (point n) 126); cbn [andb]; try done.
  by rewrite Hp.
Qed.

(** ** Decoding what the encoder wrote *)

Lemma digit_pairs_prepend n l : digit_pairs (S n) true l = digit_pairs (S n) false (0%N :: l).
Proof. done. Qed.

Lemma digit_pairs_small n l : digits_ok l -> Forall (fun d => (d < 100)%N) (digit_pairs n false l).
Proof.
  revert l. induction n as [|n IH]; intros l Hl; [constructor|]. cbn [digit_pairs].
  assert (Hb : forall i, (byte_at l i < 10)%N).
  { intros i. unfold byte_at. destruct (l !! i) eqn:E; [|cbn; lia]. eapply Forall_lookup_1 in E; [|exact Hl]. done. }
  constructor; [pose proof (Hb 0); pose proof (Hb 1); lia|]. apply IH. by apply Forall_drop.
Qed.

Definition unpair (d : N) : list N := [(d / 10)%N; (d mod 10)%N].

Lemma unpair_pairs n l :
  digits_ok l -> 2 * n <= length l -> concat (unpair <$> digit_pairs n false l) = take (2 * n) l.
Proof.
  revert l. induction n as [|n IH]; intros l Hl Hn; [done|].
  destruct l as [|a [|b l]]; [cbn in Hn; lia|cbn in Hn; lia|].
  replace (2 * S n) with (S (S (2 * n))) by lia. cbn [digit_pairs fmap list_fmap concat take].
  inversion Hl as [|? ? Ha Hl']; subst. inversion Hl' as [|? ? Hb Hl'']; subst.
  change (drop 2 (a :: b :: l)) with l. rewrite (IH l Hl'') by (cbn in Hn; lia).
  unfold unpair, byte_at. cbn.
  rewrite <- (N.div_unique (a * 10 + b) 10 a b), <- (N.mod_unique (a * 10 + b) 10 a b) by lia. done.
Qed.

(** A byte that carries the exponent, by its sign. *)
Lemma exponent_byte w :
  (128 <= w < 256)%N ->
  N.eqb (N.land w 128) 0 = false /\ N.land w 127 = (w - 128)%N
  /\ N.eqb (N.land (N.lxor w 255) 128) 0 = true /\ N.lxor (N.lxor w 255) 127 = (w - 128)%N
  /\ N.lxor w 255 <> 255%N.
Proof.
  intros Hw.
  assert (H : forallb (fun i => let w := (128 + N.of_nat i)%N in
      negb (N.eqb (N.land w 128) 0) && N.eqb (N.land w 127) (w - 128)
      && N.eqb (N.land (N.lxor w 255) 128) 0 && N.eqb (N.lxor (N.lxor w 255) 127) (w - 128)
      && negb (N.eqb (N.lxor w 255) 255))%N (seq 0 128) = true) by by vm_compute.
  rewrite List.forallb_forall in H. specialize (H (N.to_nat (w - 128))).
  replace (128 + N.of_nat (N.to_nat (w - 128)))%N with w in H by lia.
  rewrite !andb_true_iff, !negb_true_iff, !N.eqb_eq, !N.eqb_neq in H.
  destruct H as [[[[H1 H2] H3] H4] H5]; [apply in_seq; lia|].
  split_and!; [by apply N.eqb_neq|done|by apply N.eqb_eq|done|done].
Qed.

Record normal (ds : list N) (p : Z) : Prop := mkNormal {
  normal_ok : digits_ok ds;
  normal_nonempty : ds <> [];
  normal_head : head ds <> Some 0%N;
  normal_last : last ds <> Some 0%N;
  normal_length : length ds <= 38;
  normal_point : (-129 <= p <= 126)%Z
}.

(** The digits of the mantissa: the significant ones between at most one zero on
    either side; the exponent is that of the point before them. *)
Lemma number_bytes_shape neg ds p :
  normal ds p ->
  exists w pairs o j term,
    number_bytes neg ds p
    = (if neg : bool then N.lxor w 255 else w) :: (wire_digit neg <$> pairs) ++ term
    /\ (128 <= w < 256)%N /\ (2 * (Z.of_N w - 192) = p + Z.of_nat o)%Z
    /\ Forall (fun d => (d < 100)%N) pairs /\ pairs <> []
    /\ concat (unpair <$> pairs) = replicate o 0%N ++ ds ++ replicate j 0%N
    /\ (term = [] \/ neg = true /\ term = [102%N]) /\ j <= 1.
Proof.
  intros [Hok Hne _ _ _ Hp]. unfold number_bytes.
  destruct (Z.eqb_spec (Z.rem p 2) 0) as [Hev|Hodd]; cbn [negb].
  - set (L := if Nat.odd (length ds) then vec_push 0%N ds else ds).
    assert (HL : exists j, L = ds ++ replicate j 0%N /\ j <= 1 /\ length L = 2 * (length L / 2) /\ 0 < length L / 2).
    { unfold L, vec_push. destruct (Nat.odd (length ds)) eqn:Ho.
      - exists 1. apply Nat.odd_spec in Ho as [m Hm]. split_and!; [done|done| |]; rewrite length_app; cbn [length];
          replace (length ds + 1) with ((m + 1) * 2) by lia; rewrite Nat.div_mul; lia.
      - exists 0. apply (f_equal negb) in Ho. rewrite Nat.negb_odd in Ho. apply Nat.even_spec in Ho as [m Hm].
        rewrite app_nil_r. assert (m <> 0) by (destruct ds; [done|cbn in Hm; lia]).
        split_and!; [done|lia| |]; replace (length ds) with (m * 2) by lia; rewrite Nat.div_mul; lia. }
    destruct HL as (j & EL & Hj & H2 & Hpos). clearbody L.
    assert (HLok : digits_ok L).
    { rewrite EL. apply Forall_app. split; [done|]. by apply Forall_replicate. }
    exists (Z.to_N ((Z.quot p 2 + 192) mod 256)), (digit_pairs (length L / 2) false L), 0, j.
    eexists. split; [reflexivity|].
    assert (Hq : p = (2 * Z.quot p 2)%Z) by (pose proof (Z.quot_rem' p 2); lia).
    rewrite Z.mod_small by lia. split_and!; [lia|lia|lia|by apply digit_pairs_small| | | |done].
    + destruct (length L / 2); [lia|done].
    + rewrite unpair_pairs by (done || lia). rewrite <- H2, take_ge by lia. by rewrite EL.
    + destruct neg; cbn [andb]; [|by left]. destruct (_ <? _); [by right|by left].
  - set (L := if Nat.odd (length (vec_push 0%N ds)) then vec_push 0%N (vec_push 0%N ds) else vec_push 0%N ds).
    assert (HL : exists j, L = (ds ++ replicate j 0%N) ++ [0%N] /\ j <= 1
      /\ length L = 2 * (length L / 2) /\ 0 < length L / 2).
    { unfold L, vec_push. destruct (Nat.odd (length (ds ++ [0%N]))) eqn:Ho.
      - exists 1. apply Nat.odd_spec in Ho as [m Hm]. rewrite length_app in Hm. cbn [length] in Hm.
        split_and!; [done|done| |]; rewrite !length_app; cbn [length];
          replace (length ds + 1 + 1) with ((m + 1) * 2) by lia; rewrite Nat.div_mul; lia.
      - exists 0. apply (f_equal negb) in Ho. rewrite Nat.negb_odd in Ho. apply Nat.even_spec in Ho as [m Hm].
        rewrite length_app in Hm. cbn [length] in Hm. rewrite app_nil_r.
        split_and!; [done|lia| |]; rewrite !length_app; cbn [length];
          replace (length ds + 1) with (m * 2) by lia; rewrite Nat.div_mul; lia. }
    destruct HL as (j & EL & Hj & H2 & Hpos). clearbody L.
    assert (HLok : digits_ok (0%N :: L)).
    { constructor; [lia|]. rewrite EL. repeat (apply Forall_app; split); [done|by apply Forall_replicate|].
      constructor; [lia|constructor]. }
    exists (Z.to_N ((Z.quot (p + 1) 2 + 192) mod 256)), (digit_pairs (length L / 2) false (0%N :: L)), 1, j.
    eexists. split.
    { destruct (length L / 2) as [|m]; [lia|]. by rewrite digit_pairs_prepend. }
    assert (Hq : (p + 1 = 2 * Z.quot (p + 1) 2)%Z).
    { pose proof (Z.quot_rem' p 2). pose proof (Z.quot_rem' (p + 1) 2).
      pose proof (Z.rem_bound_abs p 2). pose proof (Z.rem_bound_abs (p + 1) 2). lia. }
    rewrite Z.mod_small by lia. split_and!; [lia|lia|lia|by apply digit_pairs_small| | | |done].
    + destruct (length L / 2); [lia|done].
    + rewrite unpair_pairs by (done || (cbn [length]; lia)). rewrite <- H2, EL, length_app. cbn [length].
      rewrite Nat.add_1_r. cbn [take replicate app]. by rewrite take_app_length.
    + destruct neg; cbn [andb]; [|by left]. destruct (_ <? _); [by right|by left].
Qed.

Definition canonical (neg : bool) (ds : list N) (p : Z) : Numeral :=
  let sign := if neg then Minus else NoSign in
  if Z.leb p 0 then mkNumeral sign [0%N] (Some (replicate (Z.abs_nat p) 0%N ++ ds)) None
  else if Z.leb (Z.of_nat (length ds)) p
  then mkNumeral sign (ds ++ replicate (Z.to_nat p - length ds) 0%N) None None
  else mkNumeral sign (take (Z.to_nat p) ds) (Some (drop (Z.to_nat p) ds)) None.

Lemma digits_text_app a b : digits_text (a ++ b) = digits_text a ++ digits_text b.
Proof. apply fmap_app. Qed.

Lemma digits_text_zeros k : digits_text (replicate k 0%N) = zeros k.
Proof. unfold digits_text, zeros. by rewrite fmap_replicate. Qed.

Lemma length_digits_text ds : length (digits_text ds) = length ds.
Proof. apply length_fmap. Qed.

Lemma digit_char_zero d : digit_char d = "0"%ch <-> d = 0%N.
Proof. unfold digit_char. lia. Qed.

Lemma digits_text_no_point ds : existsb (N.eqb "."%ch) (digits_text ds) = false.
Proof.
  induction ds as [|d ds IH]; [done|].
  change (digits_text (d :: ds)) with (digit_char d :: digits_text ds). cbn [existsb].
  rewrite IH, orb_false_r.
  apply N.eqb_neq. unfold digit_char. lia.
Qed.

Lemma trim_zeros_text o l :
  head l <> Some 0%N -> trim_zeros (zeros o ++ digits_text l) = digits_text l.
Proof.
  intros Hl. unfold zeros. induction o as [|o IH]; cbn [replicate app]; [|exact IH].
  destruct l as [|d l]; [done|]. cbn. destruct (N.eqb_spec (digit_char d) "0"%ch) as [E|E]; [|done].
  apply digit_char_zero in E. subst. by destruct Hl.
Qed.

Lemma pop_trailing_zeros_app s k :
  last s <> Some "0"%ch -> pop_trailing_zeros (s ++ zeros k) = s.
Proof.
  intros Hs. unfold pop_trailing_zeros, zeros. rewrite reverse_app, reverse_replicate.
  assert (H : trim_zeros (replicate k "0"%ch ++ reverse s) = reverse s).
  { induction k as [|k IH]; cbn [replicate app]; [|exact IH].
    destruct (reverse s) as [|c r] eqn:E; [done|]. cbn.
    destruct (N.eqb_spec c "0"%ch) as [->|]; [|done].
    destruct Hs. by rewrite <- head_reverse, E. }
  by rewrite H, reverse_involutive.
Qed.

Lemma last_digits_text l ds :
  ds <> [] -> last ds <> Some 0%N ->
  last (l ++ digits_text ds) <> Some "0"%ch /\ last (l ++ digits_text ds) <> Some "."%ch.
Proof.
  intros Hne Hl. destruct ds as [|d ds _] using rev_ind; [done|]. rewrite last_snoc in Hl.
  rewrite digits_text_app, app_assoc. change (digits_text [d]) with [digit_char d]. rewrite last_snoc.
  split; intros [= E]; [apply Hl; f_equal; by apply digit_char_zero|unfold digit_char in E; lia].
Qed.

(** A fraction loses its trailing zeros. *)
Lemma tidy_fraction_text front ds k :
  ds <> [] -> last ds <> Some 0%N ->
  tidy_fraction ((front ++ ["."%ch]) ++ digits_text ds ++ zeros k) = front ++ "."%ch :: digits_text ds.
Proof.
  intros Hne Hl. unfold tidy_fraction. rewrite !existsb_app.
  replace (existsb (N.eqb "."%ch) ["."%ch]) with true by done. rewrite orb_true_r. cbn [orb].
  rewrite app_assoc, pop_trailing_zeros_app by (by apply last_digits_text).
  rewrite bool_decide_eq_false_2 by (by apply last_digits_text). by rewrite <- app_assoc.
Qed.

Lemma tidy_fraction_integer ds : tidy_fraction (digits_text ds) = digits_text ds.
Proof. unfold tidy_fraction. by rewrite digits_text_no_point. Qed.

(** A point behind the last digit goes too. *)
Lemma tidy_fraction_point ds k :
  tidy_fraction (digits_text ds ++ "."%ch :: zeros k) = digits_text ds.
Proof.
  unfold tidy_fraction. rewrite existsb_app. cbn [existsb]. rewrite N.eqb_refl, orb_true_r.
  change ("."%ch :: zeros k) with (["."%ch] ++ zeros k). rewrite app_assoc, pop_trailing_zeros_app;
    rewrite last_snoc; [|done]. rewrite bool_decide_eq_true_2 by done. unfold vec_pop. by rewrite removelast_last.
Qed.

Lemma last_of_drop {A} k (l : list A) : k < length l -> last (drop k l) = last l.
Proof.
  intros Hk. rewrite <- (take_drop k l) at 2. rewrite last_app.
  destruct (last (drop k l)) eqn:E; [done|]. apply last_None in E. apply (f_equal length) in E.
  rewrite length_drop in E. cbn in E. lia.
Qed.

(** The digits with the point in place are the text of the canonical numeral. *)
Lemma point_placed ds p j :
  normal ds p -> j <= 1 ->
  tidy_fraction (place_point (digits_text (ds ++ replicate j 0%N)) (p - Z.of_nat (length ds + j)))
  = print (canonical false ds p).
Proof.
  intros [_ Hne _ Hl _ _] Hj. unfold canonical, place_point.
  rewrite length_digits_text, length_app, length_replicate.
  destruct (Z.ltb_spec 0 (p - Z.of_nat (length ds + j))) as [Hs|Hs].
  - destruct (Z.leb_spec p 0); [lia|]. destruct (Z.leb_spec (Z.of_nat (length ds)) p); [|lia].
    rewrite <- digits_text_zeros, <- digits_text_app, tidy_fraction_integer. unfold print. cbn.
    rewrite app_nil_r, <- app_assoc, <- replicate_add. do 3 f_equal. lia.
  - destruct (Z.ltb_spec (p - Z.of_nat (length ds + j)) 0) as [Hn|Hn].
    + replace (Z.of_nat (length ds + j) + (p - Z.of_nat (length ds + j)))%Z with p by lia.
      destruct (Z.leb_spec p 0) as [Hp|Hp].
      * rewrite digits_text_app, digits_text_zeros.
        change (u "0." ++ zeros (Z.abs_nat p) ++ digits_text ds ++ zeros j)
          with (("0"%ch :: ["."%ch]) ++ zeros (Z.abs_nat p) ++ digits_text ds ++ zeros j).
        rewrite <- (digits_text_zeros (Z.abs_nat p)), (app_assoc (digits_text _)), <- digits_text_app.
        rewrite (tidy_fraction_text ["0"%ch]); [unfold print; cbn; by rewrite app_nil_r| |].
        -- by destruct (replicate _ _).
        -- rewrite last_app. by destruct (last ds) eqn:E; [|destruct ds; [|rewrite last_cons in E; by destruct (last ds)]].
      * unfold str_insert. rewrite digits_text_app, digits_text_zeros.
        destruct (Z.leb_spec (Z.of_nat (length ds)) p) as [Hb|Hb].
        -- assert (Hpl : Z.to_nat p = length ds) by lia. rewrite Hpl.
           rewrite take_app_length', drop_app_length' by (by rewrite length_digits_text).
           rewrite tidy_fraction_point. unfold print. cbn. rewrite Nat.sub_diag, !app_nil_r. done.
        -- rewrite take_app_le, drop_app_le by (rewrite length_digits_text; lia).
           rewrite <- (take_drop (Z.to_nat p) ds) at 1 2. rewrite digits_text_app.
           assert (Ht : length (digits_text (take (Z.to_nat p) ds)) = Z.to_nat p)
             by (rewrite length_digits_text, length_take; lia).
           rewrite take_app_length', drop_app_length' by done.
           change ("."%ch :: digits_text (drop (Z.to_nat p) ds) ++ zeros j)
             with (["."%ch] ++ digits_text (drop (Z.to_nat p) ds) ++ zeros j).
           rewrite app_assoc, tidy_fraction_text; [unfold print; cbn; by rewrite app_nil_r| |].
           ++ intros E. apply (f_equal length) in E. rewrite length_drop in E. cbn in E. lia.
           ++ by rewrite last_of_drop by lia.
    + assert (Hp : p = Z.of_nat (length ds + j)) by lia.
      destruct (Z.leb_spec p 0); [destruct ds; [done|cbn in *; lia]|].
      destruct (Z.leb_spec (Z.of_nat (length ds)) p); [|lia].
      rewrite tidy_fraction_integer. unfold print. cbn. rewrite app_nil_r. do 3 f_equal. lia.
Qed.

Lemma canonical_negative ds p : print (canonical true ds p) = "-"%ch :: print (canonical false ds p).
Proof. unfold canonical. by destruct (Z.leb p 0), (Z.leb (Z.of_nat (length ds)) p). Qed.

Lemma canonical_starts ds p :
  normal ds p ->
  bool_decide (head (print (canonical false ds p)) = Some "."%ch) = false
  /\ (print (canonical false ds p) != u "0") = true.
Proof.
  intros [_ Hne Hh _ _ _]. unfold canonical. split.
  - apply bool_decide_eq_false_2. destruct ds as [|d ds]; [done|]. 
    destruct (Z.leb_spec p 0); [cbn; intros [=]|].
    destruct (Z.leb_spec (Z.of_nat (length (d :: ds))) p); [cbn; intros [= E]; unfold digit_char in E; lia|].
    destruct (Z.to_nat p) eqn:E; [lia|]. cbn. intros [= E']. unfold digit_char in E'. lia.
  - apply negb_true_iff, bool_decide_eq_false_2. destruct ds as [|d ds]; [done|].
    destruct (Z.leb_spec p 0); [done|].
    assert (Hd : digit_char d <> "0"%ch).
    { intros E. apply digit_char_zero in E. subst. by destruct Hh. }
    destruct (Z.leb_spec (Z.of_nat (length (d :: ds))) p); [by intros [= ? _]|].
    destruct (Z.to_nat p) eqn:E; [lia|]. by intros [= ? _].
Qed.

Lemma mantissa_digit_wire neg d : (d < 100)%N -> mantissa_digit neg (wire_digit neg d) = d.
Proof. intros Hd. unfold mantissa_digit, wire_digit. destruct neg; lia. Qed.

Lemma mantissa_text neg pairs :
  Forall (fun d => (d < 100)%N) pairs ->
  concat ((fun b => let digit := mantissa_digit neg b in
     [digit_char (digit / 10); digit_char (digit mod 10)])%N <$> (wire_digit neg <$> pairs))
  = digits_text (concat (unpair <$> pairs)).
Proof.
  induction 1 as [|d ds Hd Hds IH]; [done|]. cbn [fmap list_fmap concat] in *.
  rewrite IH, mantissa_digit_wire, digits_text_app by done. done.
Qed.

Lemma decode_number_bytes neg ds p :
  normal ds p -> decode_oracle_number (number_bytes neg ds p) = inl (print (canonical neg ds p)).
Proof.
  intros Hn. destruct (number_bytes_shape neg ds p Hn)
    as (w & pairs & o & j & term & -> & Hw & He & Hp & Hne & Hc & Ht & Hj).
  destruct (exponent_byte w Hw) as (E1 & E2 & E3 & E4 & E5).
  unfold decode_oracle_number. set (first := if neg then N.lxor w 255 else w).
  assert (Hfirst : N.eqb (N.land first 128) 0 = neg) by (unfold first; by destruct neg).
  assert (Hm : (wire_digit neg <$> pairs) ++ term <> []) by (by destruct pairs).
  assert (Hone : forall x, bool_decide (first :: (wire_digit neg <$> pairs) ++ term = [x]) = false).
  { intros x. apply bool_decide_eq_false_2. intros E. injection E as _ E. done. }
  assert (Hinf : bool_decide (first :: (wire_digit neg <$> pairs) ++ term = [255; 101]%N) = false).
  { apply bool_decide_eq_false_2. intros E. injection E as Hf E. destruct pairs as [|d ds']; [done|].
    cbn in E. injection E as E _. unfold first, wire_digit in *. inversion Hp; subst. destruct neg; [done|lia]. }
  rewrite !Hone, Hinf.
  rewrite Hfirst.
  replace (if neg then N.lxor first 127 else N.land first 127) with (w - 128)%N by (unfold first; by destruct neg).
  destruct (Nat.eqb_spec (length ((wire_digit neg <$> pairs) ++ term)) 0) as [Hz|_].
  { destruct Hm. by apply nil_length_inv. }
  assert (Hpop : (if neg && bool_decide (last ((wire_digit neg <$> pairs) ++ term) = Some 102%N)
      then vec_pop ((wire_digit neg <$> pairs) ++ term) else (wire_digit neg <$> pairs) ++ term)
    = wire_digit neg <$> pairs).
  { destruct Ht as [-> | [-> ->]].
    - rewrite app_nil_r. destruct neg; [|done]. rewrite bool_decide_eq_false_2; [done|].
      destruct pairs as [|d ps _] using rev_ind; [done|]. rewrite fmap_app. change (wire_digit true <$> [d]) with [wire_digit true d].
      rewrite last_snoc. apply Forall_app in Hp as [_ Hd]. inversion Hd; subst. unfold wire_digit.
      intros [= E]. lia.
    - rewrite last_snoc, bool_decide_eq_true_2 by done. unfold vec_pop. by rewrite removelast_last. }
  rewrite Hpop, mantissa_text, Hc by done. rewrite length_digits_text, !length_app, !length_replicate.
  assert (Hlen : 0 < length ds) by (destruct Hn; destruct ds; [done|cbn; lia]).
  destruct (Nat.ltb_spec 1 (o + (length ds + j))) as [_|Hbad].
  2: { exfalso. apply (f_equal length) in Hc. rewrite !length_app, !length_replicate in Hc.
       destruct pairs as [|d ps]; [done|]. cbn [fmap list_fmap concat] in Hc. rewrite length_app in Hc. cbn in Hc. lia. }
  rewrite digits_text_app, digits_text_zeros, trim_zeros_text.
  2: { destruct Hn as [_ Hne' Hh _ _ _]. by destruct ds. }
  replace ((Z.of_N (w - 128) - 64) * 2 - Z.of_nat (o + (length ds + j)))%Z
    with (p - Z.of_nat (length ds + j))%Z by lia.
  assert (Hdt : digits_text (ds ++ replicate j 0%N) <> []).
  { intros E. apply (f_equal length) in E. rewrite length_digits_text, length_app in E. cbn in E. lia. }
  destruct (digits_text (ds ++ replicate j 0%N)) as [|c s] eqn:Ed; [done|]. rewrite <- Ed.
  rewrite point_placed by done. destruct (canonical_starts ds p Hn) as [-> ->]. rewrite andb_true_r.
  destruct neg; [by rewrite canonical_negative|done].
Qed.

(** ** Canonical numerals *)

Lemma canonical_sign neg ds p : is_minus (num_sign (canonical neg ds p)) = neg.
Proof. unfold canonical. by destruct (Z.leb p 0), (Z.leb (Z.of_nat (length ds)) p), neg. Qed.

Lemma canonical_exponent neg ds p :
  num_exp (canonical neg ds p) = None /\ exponent (canonical neg ds p) = 0%Z.
Proof. unfold canonical. by destruct (Z.leb p 0), (Z.leb (Z.of_nat (length ds)) p). Qed.

Lemma canonical_significant neg ds p :
  normal ds p ->
  exists o j, significant (canonical neg ds p) = replicate o 0%N ++ ds ++ replicate j 0%N
    /\ (Z.of_nat (length (num_ints (canonical neg ds p))) - Z.of_nat o = p)%Z /\ o + j <= 130.
Proof.
  intros [_ Hne _ _ _ Hp]. unfold canonical, significant.
  assert (0 < length ds) by (destruct ds; [done|cbn; lia]).
  destruct (Z.leb_spec p 0); [|destruct (Z.leb_spec (Z.of_nat (length ds)) p)]; cbn [num_ints num_frac default].
  - exists (S (Z.abs_nat p)), 0. rewrite app_nil_r. split_and!; [done|cbn [length]; lia|lia].
  - exists 0, (Z.to_nat p - length ds). rewrite app_nil_r. split_and!; [done| |lia].
    rewrite length_app, length_replicate. lia.
  - exists 0, 0. unfold id. rewrite take_drop, app_nil_r. split_and!; [done| |lia]. rewrite length_take. lia.
Qed.

Lemma canonical_normal neg ds p :
  normal ds p ->
  normal_digits (canonical neg ds p) = ds /\ point (canonical neg ds p) = p
  /\ numeral_ok (canonical neg ds p).
Proof.
  intros Hn. destruct (canonical_significant neg ds p Hn) as (o & j & Hs & Hi & Hoj).
  destruct (canonical_exponent neg ds p) as [Hx He].
  destruct Hn as [Hok Hne Hh Hl Hlen Hp].
  assert (Hdz : drop_zeros (significant (canonical neg ds p)) = ds ++ replicate j 0%N).
  { rewrite Hs, drop_zeros_zeros. apply drop_zeros_id. by destruct ds. }
  split_and!.
  - unfold normal_digits. rewrite Hdz, pop_zeros_app_zeros. by apply pop_zeros_id.
  - unfold point. rewrite Hdz, He, Hs, !length_app, !length_replicate. lia.
  - unfold numeral_ok, numeral_shape. rewrite Hs, Hx. split_and!; [|done| |].
    + repeat (apply Forall_app; split); [by apply Forall_replicate|done|by apply Forall_replicate].
    + unfold canonical. destruct (Z.leb p 0); [by left|]. destruct (Z.leb (Z.of_nat (length ds)) p) eqn:E; [|by right; left].
      left. destruct ds; [done|by cbn].
    + rewrite !length_app, !length_replicate. lia.
Qed.

Lemma normal_digits_normal n :
  numeral_ok n -> normal_digits n <> [] -> in_range_number (normal_digits n) (point n) = true ->
  normal (normal_digits n) (point n).
Proof.
  intros [[Hd _] _] Hne Hr. unfold in_range_number in Hr.
  rewrite !andb_true_iff, Nat.leb_le, !Z.leb_le in Hr. destruct Hr as [[H1 H2] H3].
  destruct (significant_split n) as (j & k & Hs & _).
  assert (Hok : digits_ok (normal_digits n)).
  { rewrite Hs in Hd. apply Forall_app in Hd as [_ Hd]. by apply Forall_app in Hd as [Hd _]. }
  constructor; [done|done| |apply pop_zeros_last|done|lia].
  unfold normal_digits in *. destruct (pop_zeros_split (drop_zeros (significant n))) as [i Hi].
  destruct (pop_zeros (drop_zeros (significant n))) as [|d r]; [done|]. cbn.
  intros [= ->]. apply drop_zeros_head in Hi. done.
Qed.

(** * Theorems on Oracle NUMBER

    Encoding the text of a numeral and decoding the bytes gives the plain decimal
    of the same number; which numerals are encoded at all is stated by their
    significant digits and the position of their point. *)

(** ** Theorems *)

(** A plain decimal: no exponent, no plus sign, no redundant zero, no minus on
    zero. *)
Definition plain_decimal (m : Numeral) : Prop :=
  num_exp m = None /\ num_sign m <> Plus
  /\ (num_ints m = [0%N] \/ num_ints m <> [] /\ head (num_ints m) <> Some 0%N)
  /\ match num_frac m with Some f => f <> [] /\ last f <> Some 0%N | None => True end
  /\ (num_sign m = Minus -> Exists (fun d => d <> 0%N) (significant m)).

Lemma canonical_plain neg ds p : normal ds p -> plain_decimal (canonical neg ds p).
Proof.
  intros Hn. pose proof (canonical_significant neg ds p Hn) as (o & j & Hs & _).
  destruct (canonical_exponent neg ds p) as [Hx _]. destruct Hn as [_ Hne Hh Hl _ _].
  assert (Hnz : Exists (fun d => d <> 0%N) (significant (canonical neg ds p))).
  { rewrite Hs. apply Exists_app. right. apply Exists_app. left. destruct ds as [|d ds]; [done|].
    constructor. intros ->. by destruct Hh. }
  unfold plain_decimal. split_and!; [done| | | |done]; clear Hs Hx Hnz; unfold canonical.
  - by destruct (Z.leb p 0), (Z.leb (Z.of_nat (length ds)) p), neg.
  - destruct (Z.leb_spec p 0); [by left|right]. destruct ds as [|d ds]; [done|].
    destruct (Z.leb_spec (Z.of_nat (length (d :: ds))) p); cbn; [done|].
    destruct (Z.to_nat p) eqn:E; [lia|]. done.
  - destruct (Z.leb_spec p 0); [|destruct (Z.leb_spec (Z.of_nat (length ds)) p); [done|]]; cbn.
    + split; [by destruct (replicate _ _), ds|]. rewrite last_app.
      destruct (last ds) eqn:E; [done|]. by apply last_None in E.
    + rewrite last_of_drop by lia. split; [|done]. intros E. apply (f_equal length) in E.
      rewrite length_drop in E. cbn in E. lia.
Qed.

(** C40. For a numeral of at most 32000 digits before its exponent ([numeral_ok]; a
    longer one may lose its point, see [long_numeral_is_sent_as_one]): if it is
    encoded, the bytes decode to a plain decimal that denotes the same number, and
    encoding that gives the same bytes, so the wire form depends on the number
    alone and loses nothing of it. *)
Theorem number_round_trip n b :
  numeral_ok n -> encode_oracle_number (print n) = inl b ->
  exists m, decode_oracle_number b = inl (print m) /\ plain_decimal m
    /\ same_decimal (value n) (value m) /\ encode_oracle_number (print m) = inl b.
Proof.
  intros Hn Hb. rewrite encode_read in Hb by done. destruct (Z.leb _ _); [|done].
  destruct (Nat.eqb_spec (length (normal_digits n)) 0) as [Hz|Hz].
  - injection Hb as <-. exists (mkNumeral NoSign [0%N] None None). split_and!; [done| |..|done].
    + split_and!; [done|done|by left|done|done].
    + apply nil_length_inv in Hz. destruct (zero_value n Hz) as [e ->]. unfold same_decimal. cbn. lia.
  - destruct (in_range_number (normal_digits n) (point n)) eqn:Hr; [|done]. injection Hb as <-.
    assert (Hnorm : normal (normal_digits n) (point n)).
    { apply normal_digits_normal; [done| |done]. intros E. by rewrite E in Hz. }
    destruct (canonical_normal (is_minus (num_sign n)) _ _ Hnorm) as (Hd & Hp & Hok).
    exists (canonical (is_minus (num_sign n)) (normal_digits n) (point n)). split_and!.
    + by apply decode_number_bytes.
    + by apply canonical_plain.
    + apply same_normal_same_decimal; [by rewrite canonical_sign|done|done].
    + rewrite encode_read, Hd, Hp, Hr, canonical_sign by done.
      unfold exponent_size. rewrite (proj1 (canonical_exponent _ _ _)).
      by destruct (Nat.eqb_spec (length (normal_digits n)) 0).
Qed.

(** A numeral is accepted exactly when its exponent fits an [i16] and it is zero
    or has at most 38 significant digits with the point at most 126 places
    behind and 129 places before the first. *)
Theorem number_accepted_iff_in_range n :
  numeral_ok n ->
  (exists b, encode_oracle_number (print n) = inl b) <->
  (exponent_size n <= 32767)%Z
  /\ (normal_digits n = [] \/ length (normal_digits n) <= 38 /\ (-129 <= point n <= 126)%Z).
Proof.
  intros Hn. rewrite encode_read by done. destruct (Z.leb_spec (exponent_size n) 32767) as [He|He].
  2: { split; [by intros [b ?]|lia]. }
  destruct (Nat.eqb_spec (length (normal_digits n)) 0) as [Hz|Hz].
  { apply nil_length_inv in Hz. split; [by split; [|left]|by eexists]. }
  unfold in_range_number.
  destruct (Nat.leb_spec (length (normal_digits n)) 38), (Z.leb_spec (-129) (point n)), (Z.leb_spec (point n) 126);
    cbn [andb]; (split; [intros [b Hb]; try done; (split; [done|right; lia])
                        |intros [_ [E|?]]; [by rewrite E in Hz|first [by eexists|lia]]]).
Qed.

(** The index of the point is cut to 16 bits: a one with 65536 zeros behind it is
    sent as one. *)
Theorem long_numeral_is_sent_as_one :
  encode_oracle_number (print (mkNumeral NoSign (1%N :: replicate (Z.to_nat 65536) 0%N) None None))
  = encode_oracle_number (u "1").
Proof.
  set (n := mkNumeral _ _ _ _).
  assert (Hd : drop_zeros (significant n) = 1%N :: replicate (Z.to_nat 65536) 0%N)
    by (unfold significant, n; cbn [num_ints num_frac default]; by rewrite app_nil_r).
  assert (Hnd : normal_digits n = [1%N]).
  { unfold normal_digits. rewrite Hd. apply (pop_zeros_app_zeros [1%N]). }
  assert (Hp : point n = 65537%Z).
  { unfold point. rewrite Hd. unfold significant, n. cbn [num_ints num_frac default exponent num_exp length].
    rewrite length_app. cbn [length]. rewrite length_replicate. lia. }
  rewrite encode_shape, Hnd, Hp; [by vm_compute| |done].
  unfold numeral_shape, significant, n. cbn [num_ints num_frac num_exp default]. rewrite app_nil_r.
  split_and!; [|done|by left]. constructor; [lia|]. apply Forall_replicate. lia.
Qed.

(** ** Witnesses *)

(** [-0012.500e1] *)
Definition a_numeral : Numeral :=
  mkNumeral Minus [0; 0; 1; 2]%N (Some [5; 0; 0]%N) (Some (false, NoSign, [1%N])).

Lemma a_numeral_ok : numeral_ok a_numeral.
Proof.
  split; [split_and!|cbn; lia].
  - repeat constructor; lia.
  - intros up s ds [= <- <- <-]. split; [repeat constructor; lia|done].
  - by left.
Qed.

Lemma number_round_trip_witness :
  exists m, decode_oracle_number [61; 100; 76; 102]%N = inl (print m) /\ plain_decimal m
    /\ same_decimal (value a_numeral) (value m)
    /\ encode_oracle_number (print m) = inl [61; 100; 76; 102]%N.
Proof. apply (number_round_trip a_numeral); [apply a_numeral_ok|by vm_compute]. Defined.

Lemma number_accepted_iff_in_range_witness :
  (exists b, encode_oracle_number (print a_numeral) = inl b) <->
  (exponent_size a_numeral <= 32767)%Z
  /\ (normal_digits a_numeral = [] \/ length (normal_digits a_numeral) <= 38 /\ (-129 <= point a_numeral <= 126)%Z).
Proof. apply number_accepted_iff_in_range, a_numeral_ok. Defined.

Example vendor_encodings :
  encode_oracle_number (u "1") = inl [193; 2]%N
  /\ encode_oracle_number (u "-123.4") = inl [61; 100; 78; 61; 102]%N
  /\ encode_oracle_number (u "0.0098765") = inl [191; 99; 77; 51]%N
  /\ encode_oracle_number (u "1E+30") = inl [208; 2]%N
  /\ encode_oracle_number (u "1E-125") = inl [130; 11]%N.
Proof. by vm_compute. Qed.
