(* ===== verification/OracleDate.v ===== *)
(** * Oracle DATE and TIMESTAMP values

    [OracleDateTime] and its wire form: the clock is sent in UTC when the value
    has a time zone, with the zone as an offset or as a region id.  Also the
    calendar the driver computes with.  What is known of a region (its name in
    [oracle_zones.rs] and the system's zoneinfo file) is a parameter; a [u8],
    [u16] or [i16] is a [Z], with the wrap-around of the casts. *)
From S2P Require Import Prelude RustStr Utf8 TtcWire.

#[local] Open Scope Z_scope.

Inductive DateError :=
  | ShortDateTime
  | YearOutOfRange (year : Z).

Abbreviation DateResult A := (A + DateError)%type.

Record OracleDateTime := mkDateTime {
  year : Z;
  month : Z;
  day : Z;
  hour : Z;
  minute : Z;
  second : Z;
  nanosecond : Z;
  timezone_offset_minutes : option Z;
  timezone_region_id : option Z
}.
#[export] Instance OracleDateTime_eta : Eta OracleDateTime := fun v =>
  mkDateTime (year v) (month v) (day v) (hour v) (minute v) (second v) (nanosecond v)
    (timezone_offset_minutes v) (timezone_region_id v).

Definition u8 (z : Z) : Z := z mod 256.
Definition u16 (z : Z) : Z := z mod 65536.
(** [-offset] on an [i16]. *)
Definition i16_neg (z : Z) : Z := if z =? -32768 then z else - z.
Definition i16_try_from (z : Z) : option Z :=
  if (-32768 <=? z) && (z <=? 32767) then Some z else None.

(** ** The calendar *)

Definition is_leap_year (year : Z) : bool :=
  (year mod 4 =? 0) && negb (year mod 100 =? 0) || (year mod 400 =? 0).

Definition days_in_month (year month : Z) : Z :=
  if existsb (Z.eqb month) [1; 3; 5; 7; 8; 10; 12] then 31
  else if existsb (Z.eqb month) [4; 6; 9; 11] then 30
  else if (month =? 2) && is_leap_year year then 29
  else if month =? 2 then 28
  else 31.

(** One turn of the loops of [shift_date_by_days]. *)
Definition day_after (v : OracleDateTime) : OracleDateTime :=
  if day v <? days_in_month (year v) (month v) then v <| day ::= Z.succ |>
  else
    let v := v <| day := 1 |> in
    if month v <? 12 then v <| month ::= Z.succ |>
    else v <| month := 1 |> <| year ::= fun y => u16 (y + 1) |>.

Definition day_before (v : OracleDateTime) : OracleDateTime :=
  if 1 <? day v then v <| day ::= Z.pred |>
  else if 1 <? month v then
    let v := v <| month ::= Z.pred |> in v <| day := days_in_month (year v) (month v) |>
  else
    let v := v <| year ::= fun y => Z.max 0 (y - 1) |> <| month := 12 |> in
    v <| day := days_in_month (year v) (month v) |>.

Definition shift_date_by_days (v : OracleDateTime) (day_delta : Z) : OracleDateTime :=
  if 0 <? day_delta then Nat.iter (Z.to_nat day_delta) day_after v
  else Nat.iter (Z.to_nat (- day_delta)) day_before v.

Definition apply_timezone_offset (v : OracleDateTime) (offset_minutes : Z) : OracleDateTime :=
  let total_minutes := hour v * 60 + minute v + offset_minutes in
  let day_delta := total_minutes / (24 * 60) in
  let minute_of_day := total_minutes mod (24 * 60) in
  shift_date_by_days (v <| hour := u8 (minute_of_day / 60) |> <| minute := u8 (minute_of_day mod 60) |>)
    day_delta.

Definition days_from_civil (year month day : Z) : option Z :=
  if negb ((1 <=? month) && (month <=? 12)) || negb ((1 <=? day) && (day <=? 31)) then None
  else
    let year := year - (if month <=? 2 then 1 else 0) in
    let era := year / 400 in
    let yoe := year - era * 400 in
    let doy := Z.quot (153 * (month + (if 2 <? month then -3 else 9)) + 2) 5 + day - 1 in
    let doe := yoe * 365 + Z.quot yoe 4 - Z.quot yoe 100 + doy in
    Some (era * 146097 + doe - 719468).

Definition oracle_datetime_to_unix_seconds (v : OracleDateTime) : option Z :=
  match days_from_civil (year v) (month v) (day v) with
  | None => None
  | Some days => Some (days * 86400 + hour v * 3600 + minute v * 60 + second v)
  end.

(** ** Time zones *)

Record ZoneInfo := mkZoneInfo {
  transitions : list (Z * nat);
  offsets : list Z
}.

Definition offset_at (zone : ZoneInfo) (unix_seconds : Z) : option Z :=
  let after := partition_point (fun t => t.1 <=? unix_seconds) (transitions zone) in
  let type_index :=
    match after with
    | O => Some 0%nat
    | S i => (fun t => t.2) <$> transitions zone !! i
    end in
  match type_index with Some i => offsets zone !! i | None => None end.

Section Zones.
Variable zone_info : Z -> option ZoneInfo.

Definition timezone_region_offset_minutes (region_id : Z) (v : OracleDateTime) : option Z :=
  match oracle_datetime_to_unix_seconds v, zone_info region_id with
  | Some unix_seconds, Some zone =>
      match offset_at zone unix_seconds with
      | Some offset_seconds => i16_try_from (Z.quot offset_seconds 60)
      | None => None
      end
  | _, _ => None
  end.

(** The offset under which the local time exists, the first if several do. *)
Fixpoint local_offset (zone : ZoneInfo) (local_seconds : Z) (candidates : list Z) : option Z :=
  match candidates with
  | [] => None
  | offset_seconds :: candidates =>
      if bool_decide (offset_at zone (local_seconds - offset_seconds) = Some offset_seconds)
      then Some offset_seconds else local_offset zone local_seconds candidates
  end.

Definition timezone_region_local_offset_minutes (region_id : Z) (v : OracleDateTime) : option Z :=
  match oracle_datetime_to_unix_seconds v, zone_info region_id with
  | Some local_seconds, Some zone =>
      match local_offset zone local_seconds (offsets zone) with
      | Some offset_seconds => i16_try_from (Z.quot offset_seconds 60)
      | None =>
          match offset_at zone local_seconds with
          | Some offset_seconds => i16_try_from (Z.quot offset_seconds 60)
          | None => None
          end
      end
  | _, _ => None
  end.

(** ** Wire form of dates *)

Definition oracle_datetime_has_timezone (v : OracleDateTime) : bool :=
  bool_decide (is_Some (timezone_offset_minutes v)) || bool_decide (is_Some (timezone_region_id v)).

Definition oracle_timestamp_timezone_bytes (v : OracleDateTime) : option (Z * Z) :=
  match timezone_offset_minutes v with
  | Some offset => Some (u8 (Z.quot offset 60 + 20), u8 (Z.rem offset 60 + 60))
  | None =>
      match timezone_region_id v with
      | Some region_id =>
          Some (Z.lor (u8 (Z.shiftr (Z.land region_id 8128) 6)) 128,
                u8 (Z.shiftl (Z.land region_id 63) 2))
      | None => None
      end
  end.

(** The value on the clock of UTC, as far as its zone is known. *)
Definition to_utc (v : OracleDateTime) : OracleDateTime :=
  match timezone_offset_minutes v with
  | Some offset => apply_timezone_offset v (i16_neg offset)
  | None =>
      match timezone_region_id v with
      | Some region_id =>
          match timezone_region_local_offset_minutes region_id v with
          | Some offset => apply_timezone_offset v (i16_neg offset)
          | None => v
          end
      | None => v
      end
  end.

Definition be_u32 (z : Z) : list Z := Z.of_N <$> to_be_bytes 4 (Z.to_N z).

Definition encode_oracle_date (v : OracleDateTime) (length : Z) : list Z :=
  let timezone_bytes := if 11 <? length then oracle_timestamp_timezone_bytes v else None in
  let encoded := match timezone_bytes with Some _ => to_utc v | None => v end in
  [u8 (u8 (year encoded / 100) + 100); u8 (u8 (year encoded mod 100) + 100); month encoded;
   day encoded; u8 (hour encoded + 1); u8 (minute encoded + 1); u8 (second encoded + 1)]
  ++ (if 7 <? length then be_u32 (nanosecond encoded) else [])
  ++ (match timezone_bytes with Some (zone_1, zone_2) => [zone_1; zone_2] | None => [] end).

Definition encode_oracle_timestamp_bind (v : OracleDateTime) : list Z :=
  if oracle_datetime_has_timezone v then encode_oracle_date v 13
  else if nanosecond v =? 0 then encode_oracle_date v 7
  else encode_oracle_date v 11.

Definition validate_oracle_datetime_year (year : Z) : DateResult Z :=
  if (1 <=? year) && (year <=? 9999) then inl year else inr (YearOutOfRange year).

Definition from_be_u32 (l : list Z) : Z := Z.of_N (from_be_bytes (Z.to_N <$> l)).

(** The zone of a value: offset, region, and whether the clock is the region's. *)
Definition decode_zone (bytes : list Z) : option Z * option Z * bool :=
  let b i := default 0 (bytes !! i) in
  if (12 <? length bytes)%nat && negb (b 11%nat =? 0) && negb (b 12%nat =? 0) then
    if negb (Z.land (b 11%nat) 128 =? 0)
    then (None, Some (Z.lor (Z.shiftl (Z.land (b 11%nat) 127) 6) (Z.shiftr (Z.land (b 12%nat) 252) 2)),
          negb (Z.land (b 12%nat) 1 =? 0))
    else (Some ((b 11%nat - 20) * 60 + (b 12%nat - 60)), None, false)
  else (None, None, false).

Definition decode_oracle_datetime (bytes : list Z) : DateResult OracleDateTime :=
  let b i := default 0 (bytes !! i) in
  if (length bytes <? 7)%nat then inr ShortDateTime
  else
    match validate_oracle_datetime_year ((b 0%nat - 100) * 100 + b 1%nat - 100) with
    | inr e => inr e
    | inl valid_year =>
        let nanoseconds := if (10 <? length bytes)%nat then from_be_u32 (slice 7 11 bytes) else 0 in
        let '(offset, region, time_in_zone) := decode_zone bytes in
        let value :=
          mkDateTime valid_year (b 2%nat) (b 3%nat) (Z.max 0 (b 4%nat - 1)) (Z.max 0 (b 5%nat - 1))
            (Z.max 0 (b 6%nat - 1)) nanoseconds offset region in
        let value :=
          match offset with
          | Some offset => apply_timezone_offset value offset
          | None =>
              match region with
              | Some region_id =>
                  if time_in_zone then value
                  else match timezone_region_offset_minutes region_id value with
                       | Some offset => apply_timezone_offset value offset
                       | None => value
                       end
              | None => value
              end
          end in
        let checked := match i16_try_from (year value) with Some y => y | None => 32767 end in
        match validate_oracle_datetime_year checked with
        | inr e => inr e
        | inl _ => inl value
        end
    end.
End Zones.
