(* ===== verification/OracleDateSpec.v ===== *)
(** * Oracle dates round-trip

    Day arithmetic against the calendar's day numbers, and the date, timestamp and
    interval codecs read back what they wrote. *)
From S2P Require Import Prelude RustStr Utf8 TtcWire OracleDate.

(** * The calendar and the zones

    The day-by-day calendar of [shift_date_by_days] and the closed form of
    [days_from_civil] agree, so moving a clock by an offset moves its instant by
    that offset; moving it back gives the same clock. *)

#[local] Open Scope Z_scope.

Definition valid_date (v : OracleDateTime) : Prop :=
  0 <= year v <= 65535 /\ 1 <= month v <= 12 /\ 1 <= day v <= days_in_month (year v) (month v).

Definition valid_clock (v : OracleDateTime) : Prop :=
  valid_date v /\ 0 <= hour v < 24 /\ 0 <= minute v < 60.

Lemma month_cases m :
  1 <= m <= 12 ->
  m = 1 \/ m = 2 \/ m = 3 \/ m = 4 \/ m = 5 \/ m = 6 \/ m = 7 \/ m = 8 \/ m = 9 \/ m = 10 \/ m = 11 \/ m = 12.
Proof. lia. Qed.

Ltac by_month H :=
  destruct (month_cases _ H) as [E|[E|[E|[E|[E|[E|[E|[E|[E|[E|[E|E]]]]]]]]]]]; rewrite ?E in *.

Lemma days_in_month_bounds y m : 28 <= days_in_month y m <= 31.
Proof.
  unfold days_in_month. destruct (existsb _ _); [lia|]. destruct (existsb _ _); [lia|].
  destruct (_ && _); [lia|]. destruct (_ =? _); lia.
Qed.

Ltac div_lia := Z.to_euclidean_division_equations; lia.

(** The day count without eras: the days of the years before, counted from March,
    the days of the months before, the day. *)
Definition year_days (y : Z) : Z := 365 * y + y / 4 - y / 100 + y / 400.
Definition month_days (m : Z) : Z := (153 * (m + (if 2 <? m then -3 else 9)) + 2) / 5.

Definition day_number (y m d : Z) : Z :=
  year_days (y - (if m <=? 2 then 1 else 0)) + month_days m + d - 719469.

Lemma days_from_civil_eq y m d :
  1 <= m <= 12 -> 1 <= d <= 31 -> days_from_civil y m d = Some (day_number y m d).
Proof.
  intros Hm Hd. unfold days_from_civil, day_number, month_days.
  destruct (Z.leb_spec 1 m), (Z.leb_spec m 12), (Z.leb_spec 1 d), (Z.leb_spec d 31); try lia. cbn [andb negb orb].
  set (y' := y - _). f_equal.
  assert (Hy : 0 <= y' - y' / 400 * 400 < 400) by div_lia.
  assert (Hmm : 0 <= m + (if 2 <? m then -3 else 9)) by (destruct (Z.ltb_spec 2 m); lia).
  rewrite !Z.quot_div_nonneg by lia. set (k := (_ + 2) / 5). clearbody k. unfold year_days.
  clear. div_lia.
Qed.

Lemma year_days_succ y :
  year_days y = year_days (y - 1) + (if is_leap_year y then 366 else 365).
Proof.
  unfold is_leap_year, year_days.
  destruct (Z.eqb_spec (y mod 4) 0), (Z.eqb_spec (y mod 100) 0), (Z.eqb_spec (y mod 400) 0); cbn [andb orb negb]; div_lia.
Qed.

Lemma day_number_month_end y m :
  1 <= m < 12 -> day_number y (m + 1) 1 = day_number y m (days_in_month y m) + 1.
Proof.
  intros Hm. assert (Hm' : 1 <= m <= 12) by lia.
  pose proof (year_days_succ y) as Hy. unfold day_number, days_in_month.
  by_month Hm'; try lia;
    match goal with |- context [?k + 1 <=? 2] =>
      let r := eval vm_compute in (k + 1) in change (k + 1) with r end;
    repeat match goal with |- context [month_days ?k] =>
      let r := eval vm_compute in (month_days k) in change (month_days k) with r end;
    cbn [existsb Z.eqb Pos.eqb orb andb Z.leb Z.compare Pos.compare Pos.compare_cont];
    rewrite ?Z.sub_0_r; try lia.
  destruct (is_leap_year y); lia.
Qed.

Lemma day_number_year_end y : day_number (y + 1) 1 1 = day_number y 12 31 + 1.
Proof. unfold day_number. cbn [Z.leb Z.compare Pos.compare Pos.compare_cont]. change (month_days 1) with 306.
  change (month_days 12) with 275. rewrite Z.sub_0_r. replace (y + 1 - 1) with y by lia. lia. Qed.

Lemma day_number_shift y m d k : day_number y m (d + k) = day_number y m d + k.
Proof. unfold day_number. generalize (year_days (y - if m <=? 2 then 1 else 0)) (month_days m). lia. Qed.

Definition same_clock (v w : OracleDateTime) : Prop :=
  hour w = hour v /\ minute w = minute v /\ second w = second v /\ nanosecond w = nanosecond v
  /\ timezone_offset_minutes w = timezone_offset_minutes v /\ timezone_region_id w = timezone_region_id v.

Definition civil (v : OracleDateTime) : Z := day_number (year v) (month v) (day v).

(** The first and last day a [u16] year can name. *)
Definition first_day : Z := day_number 0 1 1.
Definition last_day : Z := day_number 65535 12 31.

Lemma valid_after v :
  valid_date v -> civil v < last_day ->
  valid_date (day_after v) /\ civil (day_after v) = civil v + 1 /\ same_clock v (day_after v)
  /\ day_before (day_after v) = v.
Proof.
  intros (Hy & Hm & Hd) Hmax. destruct v as [y m d h mi s ns o r]. cbn in Hy, Hm, Hd. unfold civil in Hmax. cbn in Hmax.
  unfold day_after, day_before, valid_date, civil, same_clock. cbn.
  pose proof (days_in_month_bounds y (m + 1)). pose proof (days_in_month_bounds (y + 1) 1).
  destruct (Z.ltb_spec d (days_in_month y m)) as [Hin|Hend]; [|destruct (Z.ltb_spec m 12) as [Hm12|Hm12]]; cbn.
  - split_and!; try done; try lia; [apply (day_number_shift y m d 1)|].
    destruct (Z.ltb_spec 1 (Z.succ d)); [|lia]. unfold upd. cbn. by rewrite Z.pred_succ.
  - assert (d = days_in_month y m) as -> by lia.
    replace (Z.succ m) with (m + 1) by lia.
    split_and!; try done; try lia; [apply day_number_month_end; lia|].
    destruct (Z.ltb_spec 1 (m + 1)); [|lia]. unfold upd. cbn. by replace (Z.pred (Z.succ m)) with m by lia; replace (Z.pred (m+1)) with m by lia.
  - assert (m = 12) as -> by lia. change (days_in_month y 12) with 31 in *. assert (d = 31) as -> by lia.
    assert (Hy' : y < 65535) by (destruct (Z.eq_dec y 65535) as [->|]; [unfold last_day in Hmax; lia|lia]).
    assert (Hu : u16 (y + 1) = y + 1) by (unfold u16; rewrite Z.mod_small; lia). rewrite Hu.
    split_and!; try done; try lia; [apply day_number_year_end|].
    unfold upd. cbn. rewrite ?Hu, Z.max_r by lia. replace (y + 1 - 1) with y by lia. done.
Qed.

Lemma valid_before v :
  valid_date v -> first_day < civil v ->
  valid_date (day_before v) /\ civil (day_before v) = civil v - 1 /\ same_clock v (day_before v)
  /\ day_after (day_before v) = v.
Proof.
  intros (Hy & Hm & Hd) Hmin. destruct v as [y m d h mi s ns o r]. cbn in Hy, Hm, Hd. unfold civil in Hmin. cbn in Hmin.
  unfold day_after, day_before, valid_date, civil, same_clock. cbn.
  destruct (Z.ltb_spec 1 d) as [Hin|Hfirst]; [|destruct (Z.ltb_spec 1 m) as [Hm1|Hm1]]; cbn.
  - split_and!; try done; try lia; [apply (day_number_shift y m d (-1))|].
    destruct (Z.ltb_spec (Z.pred d) (days_in_month y m)); [|lia]. unfold upd. cbn. by rewrite Z.succ_pred.
  - assert (d = 1) as -> by lia. replace (Z.pred m) with (m - 1) by lia.
    pose proof (days_in_month_bounds y (m - 1)). split_and!; try done; try lia.
    + pose proof (day_number_month_end y (m - 1) ltac:(lia)) as E. replace (m - 1 + 1) with m in E by lia. lia.
    + destruct (Z.ltb_spec (days_in_month y (m - 1)) (days_in_month y (m - 1))); [lia|].
      destruct (Z.ltb_spec (m - 1) 12); [|lia]. unfold upd. cbn. by replace (Z.succ (Z.pred m)) with m by lia.
  - assert (m = 1) as -> by lia. assert (d = 1) as -> by lia.
    assert (Hy' : 1 <= y) by (destruct (Z.eq_dec y 0) as [->|]; [unfold first_day in Hmin; lia|lia]).
    rewrite Z.max_r by lia. change (days_in_month (y - 1) 12) with 31.
    split_and!; try done; try lia.
    + pose proof (day_number_year_end (y - 1)) as E. replace (y - 1 + 1) with y in E by lia. lia.
    + unfold upd. cbn. assert (Hu : u16 (y - 1 + 1) = y) by (unfold u16; rewrite Z.mod_small; lia). rewrite Z.max_r by lia. by rewrite Hu.
Qed.

Lemma same_clock_trans v w x : same_clock v w -> same_clock w x -> same_clock v x.
Proof. unfold same_clock. intros (?&?&?&?&?&?) (?&?&?&?&?&?). split_and!; congruence. Qed.

Lemma same_clock_refl v : same_clock v v.
Proof. by unfold same_clock. Qed.

(** Repeating a step of one day, in either direction. *)
Section Steps.
Context (step back : OracleDateTime -> OracleDateTime) (unit limit : Z).
Hypothesis unit_sign : unit = 1 \/ unit = -1.
Hypothesis one_step : forall v,
  valid_date v -> civil v * unit < limit * unit ->
  valid_date (step v) /\ civil (step v) = civil v + unit /\ same_clock v (step v) /\ back (step v) = v.

Lemma steps (n : nat) v :
  valid_date v -> (civil v + Z.of_nat n * unit) * unit <= limit * unit ->
  let w := Nat.iter n step v in
  valid_date w /\ civil w = civil v + Z.of_nat n * unit /\ same_clock v w /\ Nat.iter n back w = v.
Proof.
  intros Hv. induction n as [|n IH]; intros Hlim; cbn zeta in *.
  { cbn. split_and!; [done|lia|apply same_clock_refl|done]. }
  destruct IH as (Hw & Hc & Hs & Hb); [destruct unit_sign; nia|].
  rewrite Nat.iter_succ, Nat.iter_succ_r. set (w := Nat.iter n step v) in *.
  destruct (one_step w Hw) as (Hw' & Hc' & Hs' & Hb'); [destruct unit_sign; nia|].
  split_and!; [done|lia|by eapply same_clock_trans|by rewrite Hb'].
Qed.
End Steps.

Lemma shift_moves v n :
  valid_date v -> first_day <= civil v + n <= last_day ->
  let w := shift_date_by_days v n in
  valid_date w /\ civil w = civil v + n /\ same_clock v w /\ shift_date_by_days w (- n) = v.
Proof.
  intros Hv Hn. cbn zeta. unfold shift_date_by_days.
  destruct (Z.ltb_spec 0 n) as [Hpos|Hneg].
  - destruct (Z.ltb_spec 0 (- n)); [lia|]. replace (- - n) with n by lia.
    destruct (steps day_after day_before 1 last_day) with (n := Z.to_nat n) (v := v) as (?&?&?&?);
      [lia| |done|lia|split_and!; try done; lia].
    intros x Hx Hlim. apply valid_after; [done|lia].
  - destruct (decide (n = 0)) as [->|Hn0].
    { change (Z.to_nat (- 0)) with 0%nat. change (Nat.iter 0 day_before v) with v.
      split_and!; [done|lia|apply same_clock_refl|done]. }
    destruct (Z.ltb_spec 0 (- n)); [|lia].
    destruct (steps day_before day_after (-1) first_day) with (n := Z.to_nat (- n)) (v := v) as (?&?&?&?);
      [lia| |done|lia|split_and!; try done; lia].
    intros x Hx Hlim. replace (civil x + -1) with (civil x - 1) by lia. apply valid_before; [done|lia].
Qed.

Definition with_clock (h mi : Z) (v : OracleDateTime) : OracleDateTime :=
  v <| hour := h |> <| minute := mi |>.

Lemma shift_with_clock h mi v n :
  shift_date_by_days (with_clock h mi v) n = with_clock h mi (shift_date_by_days v n).
Proof.
  unfold shift_date_by_days. destruct (0 <? n); symmetry; apply Nat.iter_swap_gen; clear;
    intros v; unfold day_after, day_before, with_clock, upd; destruct v; cbn; repeat case_match; done.
Qed.

(** The minute of a value since the first day of the era. *)
Definition minute_number (v : OracleDateTime) : Z := civil v * 1440 + hour v * 60 + minute v.

Lemma apply_timezone_offset_moves v o :
  valid_clock v ->
  first_day * 1440 <= minute_number v + o < (last_day + 1) * 1440 ->
  let w := apply_timezone_offset v o in
  valid_clock w /\ minute_number w = minute_number v + o /\ second w = second v
  /\ nanosecond w = nanosecond v /\ timezone_offset_minutes w = timezone_offset_minutes v
  /\ timezone_region_id w = timezone_region_id v /\ apply_timezone_offset w (- o) = v.
Proof.
  intros (Hv & Hh & Hmi) Ho. cbn zeta. unfold minute_number in Ho. unfold apply_timezone_offset.
  change (24 * 60) with 1440. remember (hour v * 60 + minute v + o) as t eqn:Et.
  assert (Hr : 0 <= t mod 1440 < 1440) by (apply Z.mod_pos_bound; lia).
  assert (Hq : t = 1440 * (t / 1440) + t mod 1440) by (apply Z.div_mod; lia).
  set (q := t / 1440) in *. set (r := t mod 1440) in *. clearbody q r.
  assert (Hh' : 0 <= r / 60 < 24) by (clear - Hr; div_lia).
  assert (Hm' : 0 <= r mod 60 < 60) by (clear - Hr; div_lia).
  replace (u8 (r / 60)) with (r / 60) by (unfold u8; rewrite Z.mod_small; [done|lia]).
  replace (u8 (r mod 60)) with (r mod 60) by (unfold u8; rewrite (Z.mod_small _ 256); [done|lia]).
  fold (with_clock (r / 60) (r mod 60) v). set (v' := with_clock _ _ v).
  destruct (shift_moves v' q Hv) as (Hw & Hc & (S1 & S2 & S3 & S4 & S5 & S6) & Hback).
  { change (civil v') with (civil v). lia. }
  set (w := shift_date_by_days v' q) in *. clearbody w.
  change (hour v') with (r / 60) in S1. change (minute v') with (r mod 60) in S2.
  change (civil v') with (civil v) in Hc.
  assert (Ht : hour w * 60 + minute w = r) by (rewrite S1, S2; clear; div_lia).
  assert (Hback_min : hour w * 60 + minute w + - o = 1440 * - q + (hour v * 60 + minute v)) by lia.
  assert (Hm0 : 0 <= hour v * 60 + minute v < 1440) by lia.
  rewrite Hback_min, (Z.mul_comm 1440), Z.div_add_l, (Z.div_small (hour v * 60 + minute v) 1440), Z.add_0_r by lia.
  rewrite (Z.add_comm (- q * 1440)), Z_mod_plus_full, (Z.mod_small _ 1440) by lia.
  assert (Hclock : valid_clock w) by (unfold valid_clock; lia || (split; [done|lia])).
  split; [done|]. split; [unfold minute_number; lia|]. do 4 (split; [done|]).
  rewrite Z.div_add_l, Z.div_small, Z.add_0_r by lia.
  rewrite (Z.add_comm (hour v * 60)), Z_mod_plus_full, (Z.mod_small _ 60) by lia.
  unfold u8. rewrite !Z.mod_small by lia.
  fold (with_clock (hour v) (minute v) w). rewrite shift_with_clock, Hback. by destruct v.
Qed.

(** ** Years *)

Lemma year_days_mono y z : y <= z -> year_days y <= year_days z.
Proof. intros H. unfold year_days. div_lia. Qed.

Lemma civil_in_year v :
  valid_date v -> day_number (year v) 1 1 <= civil v <= day_number (year v) 12 31.
Proof.
  intros (Hy & Hm & Hd). unfold civil. pose proof (year_days_succ (year v)) as Hs.
  unfold day_number, days_in_month in *. destruct v as [y m d h mi s ns o r]. cbn in *.
  by_month Hm;
    repeat match goal with |- context [month_days ?k] =>
      let r := eval vm_compute in (month_days k) in change (month_days k) with r end;
    cbn in *; rewrite ?Z.sub_0_r in *; destruct (is_leap_year y); lia.
Qed.

Lemma day_number_years y z : y < z -> day_number y 12 31 < day_number z 1 1.
Proof.
  intros H. unfold day_number. cbn [Z.leb Z.compare Pos.compare Pos.compare_cont].
  change (month_days 1) with 306. change (month_days 12) with 275. rewrite Z.sub_0_r.
  pose proof (year_days_mono y (z - 1) ltac:(lia)). lia.
Qed.

Lemma year_span y : day_number y 1 1 < day_number y 12 31.
Proof.
  unfold day_number. cbn [Z.leb Z.compare Pos.compare Pos.compare_cont].
  change (month_days 1) with 306. change (month_days 12) with 275. rewrite Z.sub_0_r.
  rewrite (year_days_succ y). destruct (is_leap_year y); lia.
Qed.

Lemma year_of_civil v lo hi :
  valid_date v -> day_number lo 1 1 <= civil v <= day_number hi 12 31 -> lo <= year v <= hi.
Proof.
  intros Hv Hc. pose proof (civil_in_year v Hv).
  pose proof (day_number_years (year v) lo). pose proof (day_number_years hi (year v)). lia.
Qed.

Lemma civil_of_year v lo hi :
  valid_date v -> lo <= year v <= hi -> day_number lo 1 1 <= civil v <= day_number hi 12 31.
Proof.
  intros Hv Hy. pose proof (civil_in_year v Hv).
  pose proof (year_span lo). pose proof (year_span hi).
  destruct (Z.eq_dec lo (year v)) as [Elo|], (Z.eq_dec hi (year v)) as [Ehi|]; rewrite ?Elo, ?Ehi in *;
    pose proof (day_number_years lo (year v)); pose proof (day_number_years (year v) hi); lia.
Qed.

#[local] Close Scope Z_scope.

(** * What the date codec promises

    Moving a date by days is addition on the day count; a DATE, TIMESTAMP or
    TIMESTAMP WITH TIME ZONE value decodes from its wire form to itself, with the
    two exceptions the code has: a UTC year outside 1..9999, and the regions whose
    id is a multiple of 64. *)

#[local] Open Scope Z_scope.

(** ** Wire fields *)

Lemma be_u32_bytes z :
  0 <= z < 4294967296 -> exists a b c d, be_u32 z = [a; b; c; d] /\ from_be_u32 [a; b; c; d] = z.
Proof.
  intros Hz. unfold be_u32. set (l := to_be_bytes 4 (Z.to_N z)).
  assert (Hl : from_be_bytes l = Z.to_N z) by (apply from_to_be_bytes; change (256 ^ N.of_nat 4)%N with 4294967296%N; lia).
  assert (Hlen : length l = 4%nat) by apply length_to_be_bytes.
  destruct l as [|a [|b [|c [|d [|]]]]]; try done.
  exists (Z.of_N a), (Z.of_N b), (Z.of_N c), (Z.of_N d). split; [done|].
  unfold from_be_u32. cbn [fmap list_fmap]. rewrite !N2Z.id, Hl, Z2N.id; lia.
Qed.

Definition region_bytes (r : Z) : Z * Z :=
  (Z.lor (u8 (Z.shiftr (Z.land r 8128) 6)) 128, u8 (Z.shiftl (Z.land r 63) 2)).

Definition region_bytes_ok (r : Z) : bool :=
  let '(a, b) := region_bytes r in
  negb (a =? 0) && negb (Z.land a 128 =? 0)
  && (Z.lor (Z.shiftl (Z.land a 127) 6) (Z.shiftr (Z.land b 252) 2) =? r)
  && (Z.land b 1 =? 0) && Bool.eqb (b =? 0) (Z.land r 63 =? 0).

Lemma region_bytes_spec r :
  0 <= r < 8192 ->
  let '(a, b) := region_bytes r in
  a <> 0 /\ Z.land a 128 <> 0 /\ Z.lor (Z.shiftl (Z.land a 127) 6) (Z.shiftr (Z.land b 252) 2) = r
  /\ Z.land b 1 = 0 /\ (b = 0 <-> Z.land r 63 = 0).
Proof.
  intros Hr.
  assert (Hall : forallb region_bytes_ok (seqZ 0 8192) = true) by (vm_compute; reflexivity).
  rewrite forallb_forall in Hall. specialize (Hall r).
  rewrite <- list_elem_of_In, elem_of_seqZ in Hall. specialize (Hall ltac:(lia)).
  unfold region_bytes_ok in Hall. destruct (region_bytes r) as [a b].
  rewrite !andb_true_iff, !negb_true_iff, !Z.eqb_neq, !Z.eqb_eq, Bool.eqb_true_iff in Hall.
  destruct Hall as ((((? & ?) & ?) & ?) & Hb). split_and!; try done.
  rewrite <- !Z.eqb_eq, Hb. done.
Qed.

(** ** The bytes of a date *)

Definition clock_ok (e : OracleDateTime) : Prop :=
  0 <= year e <= 10000 /\ 0 <= hour e < 24 /\ 0 <= minute e < 60 /\ 0 <= second e < 60
  /\ 0 <= nanosecond e < 4294967296.

Definition date_bytes (e : OracleDateTime) : list Z :=
  [year e / 100 + 100; year e mod 100 + 100; month e; day e; hour e + 1; minute e + 1; second e + 1].

Lemma u8_small z : 0 <= z < 256 -> u8 z = z.
Proof. unfold u8. intros. apply Z.mod_small. lia. Qed.

Lemma date_bytes_eq e :
  clock_ok e ->
  [u8 (u8 (year e / 100) + 100); u8 (u8 (year e mod 100) + 100); month e; day e; u8 (hour e + 1);
   u8 (minute e + 1); u8 (second e + 1)] = date_bytes e.
Proof.
  intros (Hy & Hh & Hm & Hs & _). unfold date_bytes.
  assert (0 <= year e / 100 <= 100 /\ 0 <= year e mod 100 < 100) as [? ?] by (clear - Hy; div_lia).
  rewrite (u8_small (year e / 100)), (u8_small (year e mod 100)) by lia. rewrite !u8_small by lia. done.
Qed.

(** What decoding does once the zone is known. *)
Definition place_value (zone_info : Z -> option ZoneInfo) (v : OracleDateTime) (in_zone : bool) :=
  let value :=
    match timezone_offset_minutes v with
    | Some offset => apply_timezone_offset v offset
    | None =>
        match timezone_region_id v with
        | Some region_id =>
            if in_zone then v
            else match timezone_region_offset_minutes zone_info region_id v with
                 | Some offset => apply_timezone_offset v offset
                 | None => v
                 end
        | None => v
        end
    end in
  match validate_oracle_datetime_year (match i16_try_from (year value) with Some y => y | None => 32767 end) with
  | inr e => inr e
  | inl _ => inl value
  end.

Definition with_zone (e : OracleDateTime) (ns : Z) (o r : option Z) : OracleDateTime :=
  mkDateTime (year e) (month e) (day e) (hour e) (minute e) (second e) ns o r.

Lemma decode_date_bytes zone_info e tail ns :
  clock_ok e ->
  (if (3 <? length tail)%nat then from_be_u32 (take 4 tail) else 0) = ns ->
  decode_oracle_datetime zone_info (date_bytes e ++ tail) =
  if (1 <=? year e) && (year e <=? 9999) then
    let '(o, r, in_zone) := decode_zone (date_bytes e ++ tail) in
    place_value zone_info (with_zone e ns o r) in_zone
  else inr (YearOutOfRange (year e)).
Proof.
  intros (Hy & Hh & Hm & Hs & _) Hns. unfold decode_oracle_datetime.
  assert (Hyear : (year e / 100 + 100 - 100) * 100 + (year e mod 100 + 100) - 100 = year e)
    by (clear; div_lia).
  cbn [date_bytes app length Nat.ltb Nat.leb lookup list_lookup default from_option id].
  rewrite Hyear. unfold validate_oracle_datetime_year at 1.
  destruct ((1 <=? year e) && (year e <=? 9999)); [|done].
  destruct (decode_zone _) as [[o r] in_zone].
  match goal with |- context [slice 7 11 ?l] => change (slice 7 11 l) with (take 4 tail) end.
  cbn [Nat.ltb Nat.leb] in Hns. rewrite Hns. unfold place_value, with_zone.
  replace (0 `max` (hour e + 1 - 1)) with (hour e) by lia.
  replace (0 `max` (minute e + 1 - 1)) with (minute e) by lia.
  replace (0 `max` (second e + 1 - 1)) with (second e) by lia.
  done.
Qed.

(** ** Round trips *)

Definition sendable (v : OracleDateTime) : Prop :=
  valid_clock v /\ 1 <= year v <= 9999 /\ 0 <= second v < 60 /\ 0 <= nanosecond v < 4294967296.

Lemma sendable_clock v : sendable v -> clock_ok v.
Proof. intros (((Hv & _) & Hh & Hm) & Hy & Hs & Hn). unfold clock_ok. lia. Qed.

(** The clock moved by an offset some days wide at most. *)
Lemma moved v o :
  sendable v -> -10000 < o < 10000 ->
  let e := apply_timezone_offset v o in
  clock_ok e /\ valid_clock e /\ minute_number e = minute_number v + o
  /\ second e = second v /\ nanosecond e = nanosecond v
  /\ timezone_offset_minutes e = timezone_offset_minutes v
  /\ timezone_region_id e = timezone_region_id v /\ apply_timezone_offset e (- o) = v.
Proof.
  intros (Hc & Hy & Hs & Hn) Ho e. pose proof Hc as [Hv [Hh Hm]].
  pose proof (civil_of_year v 1 9999 Hv Hy) as Hciv.
  change (day_number 1 1 1) with (-719162) in Hciv. change (day_number 9999 12 31) with 2932896 in Hciv.
  assert (Hmin : minute_number v = civil v * 1440 + hour v * 60 + minute v) by done.
  destruct (apply_timezone_offset_moves v o Hc) as (Hc' & Hmn & E1 & E2 & E3 & E4 & E5).
  { change first_day with (-719528). change last_day with 23217003. lia. }
  fold e in Hc', Hmn, E1, E2, E3, E4, E5. pose proof Hc' as [Hv' [Hh' Hm']].
  assert (Hmin' : minute_number e = civil e * 1440 + hour e * 60 + minute e) by done.
  assert (Hye : 0 <= year e <= 10000).
  { apply year_of_civil; [done|]. change (day_number 0 1 1) with (-719528).
    change (day_number 10000 12 31) with 2933262. lia. }
  split; [unfold clock_ok; rewrite E1, E2; lia|]. split; [done|]. do 5 (split; [done|]). done.
Qed.

Lemma with_zone_self e : with_zone e (nanosecond e) (timezone_offset_minutes e) (timezone_region_id e) = e.
Proof. by destruct e. Qed.

Lemma land_128_small x : 0 <= x < 128 -> Z.land x 128 = 0.
Proof.
  intros Hx. assert (Hall : forallb (fun x => Z.land x 128 =? 0) (seqZ 0 128) = true) by (vm_compute; reflexivity).
  rewrite forallb_forall in Hall. apply Z.eqb_eq, Hall. rewrite <- list_elem_of_In, elem_of_seqZ. lia.
Qed.

(** The zone found behind the eleven bytes of a timestamp. *)
Definition zone_of_pair (z1 z2 : Z) : option Z * option Z * bool :=
  if negb (z1 =? 0) && negb (z2 =? 0) then
    if negb (Z.land z1 128 =? 0)
    then (None, Some (Z.lor (Z.shiftl (Z.land z1 127) 6) (Z.shiftr (Z.land z2 252) 2)),
          negb (Z.land z2 1 =? 0))
    else (Some ((z1 - 20) * 60 + (z2 - 60)), None, false)
  else (None, None, false).

(** A value with a zone, sent as [e] and the two zone bytes. *)
Lemma decode_zoned zone_info e z1 z2 :
  clock_ok e ->
  decode_oracle_datetime zone_info (date_bytes e ++ be_u32 (nanosecond e) ++ [z1; z2]) =
  if (1 <=? year e) && (year e <=? 9999) then
    let '(o, r, in_zone) := zone_of_pair z1 z2 in
    place_value zone_info (with_zone e (nanosecond e) o r) in_zone
  else inr (YearOutOfRange (year e)).
Proof.
  intros He. pose proof He as (_ & _ & _ & _ & Hn).
  destruct (be_u32_bytes _ Hn) as (a & b & c & d & E & Hv). rewrite E.
  rewrite (decode_date_bytes _ e ([a; b; c; d] ++ [z1; z2]) (nanosecond e) He) by done. done.
Qed.

Lemma place_here zone_info w (in_zone : bool) v :
  1 <= year v <= 9999 ->
  match timezone_offset_minutes w with
  | Some offset => apply_timezone_offset w offset
  | None =>
      match timezone_region_id w with
      | Some region_id =>
          if in_zone then w
          else match timezone_region_offset_minutes zone_info region_id w with
               | Some offset => apply_timezone_offset w offset
               | None => w
               end
      | None => w
      end
  end = v ->
  place_value zone_info w in_zone = inl v.
Proof.
  intros Hy E. unfold place_value. rewrite E. unfold i16_try_from.
  destruct (Z.leb_spec (-32768) (year v)), (Z.leb_spec (year v) 32767); try lia. cbn [andb].
  unfold validate_oracle_datetime_year.
  destruct (Z.leb_spec 1 (year v)), (Z.leb_spec (year v) 9999); try lia; done.
Qed.

Lemma in_years v : 1 <= year v <= 9999 -> (1 <=? year v) && (year v <=? 9999) = true.
Proof. intros ?. destruct (Z.leb_spec 1 (year v)), (Z.leb_spec (year v) 9999); try lia; done. Qed.

Lemma i16_neg_small o : -32768 < o -> i16_neg o = - o.
Proof. intros Ho. unfold i16_neg. by destruct (Z.eqb_spec o (-32768)); [lia|]. Qed.

Lemma encode_with_zone zone_info v z1 z2 :
  oracle_datetime_has_timezone v = true -> oracle_timestamp_timezone_bytes v = Some (z1, z2) ->
  let e := to_utc zone_info v in
  clock_ok e -> encode_oracle_timestamp_bind zone_info v = date_bytes e ++ be_u32 (nanosecond e) ++ [z1; z2].
Proof.
  intros Hz Hb e He. unfold encode_oracle_timestamp_bind, encode_oracle_date. rewrite Hz.
  change (11 <? 13) with true. change (7 <? 13) with true. rewrite Hb. fold e. by rewrite date_bytes_eq.
Qed.

(** A value without a zone or with an offset decodes from its wire form to itself,
    whatever its date and however the offset moves the UTC date, as long as the
    UTC year is one a DATE can have; otherwise decoding reports that year. *)
Theorem date_round_trip zone_info v :
  sendable v -> timezone_region_id v = None ->
  (forall o, timezone_offset_minutes v = Some o -> -1200 < o < 6480) ->
  decode_oracle_datetime zone_info (encode_oracle_timestamp_bind zone_info v) =
  if (1 <=? year (to_utc zone_info v)) && (year (to_utc zone_info v) <=? 9999)
  then inl v else inr (YearOutOfRange (year (to_utc zone_info v))).
Proof.
  intros Hv Hr Ho. pose proof Hv as (Hc & Hy & Hs & Hn).
  pose proof (sendable_clock v Hv) as Hok.
  destruct (timezone_offset_minutes v) as [o|] eqn:Eo.
  - specialize (Ho o eq_refl).
    set (z1 := Z.quot o 60 + 20). set (z2 := Z.rem o 60 + 60).
    assert (Hz1 : 1 <= z1 < 128) by (unfold z1; div_lia).
    assert (Hz2 : 1 <= z2 < 120) by (unfold z2; div_lia).
    destruct (moved v (- o) Hv ltac:(lia)) as (He & _ & _ & _ & _ & Eoff & Ereg & Eback).
    assert (Eutc : to_utc zone_info v = apply_timezone_offset v (- o)).
    { unfold to_utc. rewrite Eo, i16_neg_small by lia. done. }
    rewrite <- Eutc in He, Eoff, Ereg, Eback.
    rewrite (encode_with_zone zone_info v z1 z2), decode_zoned; try done.
    + destruct (_ && _); [|done]. unfold zone_of_pair.
      destruct (Z.eqb_spec z1 0), (Z.eqb_spec z2 0); try lia. cbn [negb andb].
      rewrite land_128_small by lia. cbn [negb Z.eqb].
      replace ((z1 - 20) * 60 + (z2 - 60)) with o by (unfold z1, z2; clear; div_lia).
      apply place_here; [done|]. cbn [with_zone timezone_offset_minutes].
      assert (Eself := with_zone_self (to_utc zone_info v)). rewrite Eoff, Eo, Ereg, Hr in Eself.
      rewrite Eself. by rewrite Z.opp_involutive in Eback.
    + unfold oracle_datetime_has_timezone. by rewrite Eo.
    + unfold oracle_timestamp_timezone_bytes. rewrite Eo. fold z1 z2. by rewrite !u8_small by lia.
  - assert (Eutc : to_utc zone_info v = v) by (unfold to_utc; by rewrite Eo, Hr). rewrite Eutc, in_years by done.
    unfold encode_oracle_timestamp_bind, oracle_datetime_has_timezone. rewrite Eo, Hr.
    assert (Eself := with_zone_self v). rewrite Eo, Hr in Eself.
    destruct (Z.eqb_spec (nanosecond v) 0) as [En|En]; unfold encode_oracle_date; cbn [orb Z.ltb Z.compare Pos.compare Pos.compare_cont];
      cbn [bool_decide decide_rel decide is_Some_dec orb Z.ltb Z.compare Pos.compare Pos.compare_cont];
      rewrite date_bytes_eq by done.
    + rewrite (decode_date_bytes zone_info v ([] ++ []) (nanosecond v)) by done.
      rewrite in_years by done. apply place_here; [done|]. cbn [with_zone timezone_offset_minutes timezone_region_id]. done.
    + destruct (be_u32_bytes _ Hn) as (a & b & c & d & E & Hval). rewrite E.
      rewrite (decode_date_bytes zone_info v ([a; b; c; d] ++ []) (nanosecond v)) by done.
      rewrite in_years by done. apply place_here; [done|]. cbn [with_zone timezone_offset_minutes timezone_region_id]. done.
Qed.

(** ** Values in a region *)

(** The reading of the clock, in seconds. *)
Definition wall_seconds (v : OracleDateTime) : Z := minute_number v * 60 + second v.

Lemma unix_seconds_eq v : valid_date v -> oracle_datetime_to_unix_seconds v = Some (wall_seconds v).
Proof.
  intros (Hy & Hm & Hd). unfold oracle_datetime_to_unix_seconds.
  pose proof (days_in_month_bounds (year v) (month v)).
  rewrite days_from_civil_eq by lia. f_equal. unfold wall_seconds, minute_number, civil. lia.
Qed.

(** The local time is shown by the region's clock at some instant. *)
Definition local_time_exists (zone : ZoneInfo) (v : OracleDateTime) : Prop :=
  exists s, In s (offsets zone) /\ offset_at zone (wall_seconds v - s) = Some s.

Lemma local_offset_found zone t candidates :
  (exists s, In s candidates /\ offset_at zone (t - s) = Some s) ->
  exists s, local_offset zone t candidates = Some s /\ In s candidates /\ offset_at zone (t - s) = Some s.
Proof.
  induction candidates as [|c candidates IH]; intros (s & Hin & Hs); [done|].
  cbn [local_offset]. destruct (bool_decide_reflect (offset_at zone (t - c) = Some c)) as [Hc|Hc].
  { exists c. split_and!; [done|by left|done]. }
  destruct Hin as [->|Hin]; [done|].
  destruct IH as (s' & ? & ? & ?); [by exists s|]. exists s'. split_and!; [done|by right|done].
Qed.

Definition whole_minutes (s : Z) : Prop := s mod 60 = 0 /\ -600000 < s < 600000.

Lemma whole_minutes_quot s :
  whole_minutes s -> s = 60 * Z.quot s 60 /\ -10000 < Z.quot s 60 < 10000
  /\ i16_try_from (Z.quot s 60) = Some (Z.quot s 60).
Proof.
  intros [Hm Hb]. assert (s = 60 * Z.quot s 60 /\ -10000 < Z.quot s 60 < 10000) as [E B] by div_lia.
  split_and!; try done; try lia. unfold i16_try_from.
  by destruct (Z.leb_spec (-32768) (Z.quot s 60)), (Z.leb_spec (Z.quot s 60) 32767); try lia.
Qed.

Lemma region_utc zone_info v r zone :
  sendable v -> timezone_offset_minutes v = None -> timezone_region_id v = Some r ->
  zone_info r = Some zone -> local_time_exists zone v -> Forall whole_minutes (offsets zone) ->
  exists o, -10000 < o < 10000 /\ to_utc zone_info v = apply_timezone_offset v (- o)
  /\ timezone_region_offset_minutes zone_info r (to_utc zone_info v) = Some o.
Proof.
  intros Hv Eo Er Hzone Hlocal Hoffs. pose proof Hv as ([Hd _] & _).
  destruct (local_offset_found zone (wall_seconds v) (offsets zone) Hlocal) as (s & Hs & Hin & Hat).
  rewrite Forall_forall in Hoffs.
  destruct (whole_minutes_quot s) as (Es & Hb & Hi); [apply Hoffs; by apply list_elem_of_In|].
  set (o := Z.quot s 60) in *. exists o.
  assert (Eutc : to_utc zone_info v = apply_timezone_offset v (- o)).
  { unfold to_utc, timezone_region_local_offset_minutes.
    rewrite Eo, Er, unix_seconds_eq, Hzone, Hs by done. fold o. rewrite Hi. by rewrite i16_neg_small by lia. }
  split_and!; try done; try lia. rewrite Eutc.
  destruct (moved v (- o) Hv ltac:(lia)) as (_ & [Hd' _] & Emin & Esec & _).
  unfold timezone_region_offset_minutes. rewrite unix_seconds_eq, Hzone by done.
  assert (Ew : wall_seconds (apply_timezone_offset v (- o)) = wall_seconds v - s)
    by (unfold wall_seconds; lia).
  rewrite Ew, Hat. fold o. by rewrite Hi.
Qed.

(** A value in a region, at a local time the region's clock shows, decodes from
    its wire form to itself, except that a region whose id is a multiple of 64 is
    read back as a UTC clock without zone. *)
Theorem region_round_trip zone_info v r zone :
  sendable v -> timezone_offset_minutes v = None -> timezone_region_id v = Some r -> 0 <= r < 8192 ->
  zone_info r = Some zone -> local_time_exists zone v -> Forall whole_minutes (offsets zone) ->
  1 <= year (to_utc zone_info v) <= 9999 ->
  decode_oracle_datetime zone_info (encode_oracle_timestamp_bind zone_info v) =
  inl (if Z.land r 63 =? 0 then to_utc zone_info v <| timezone_region_id := None |> else v).
Proof.
  intros Hv Eo Er Hr Hzone Hlocal Hoffs Hyear. pose proof Hv as (_ & Hy & _).
  destruct (region_utc zone_info v r zone) as (o & Ho & Eutc & Eregion); try done.
  destruct (moved v (- o) Hv ltac:(lia)) as (He & _ & _ & _ & _ & Eoff & Ereg & Eback).
  rewrite <- Eutc in He, Eoff, Ereg, Eback. rewrite Z.opp_involutive in Eback.
  pose proof (region_bytes_spec r Hr) as Hb. destruct (region_bytes r) as [z1 z2] eqn:Ez.
  destruct Hb as (Hz1 & Htop & Hid & Hin & Hz2).
  assert (Eself := with_zone_self (to_utc zone_info v)). rewrite Eoff, Eo, Ereg, Er in Eself.
  rewrite (encode_with_zone zone_info v z1 z2), decode_zoned; try done.
  - rewrite in_years by done. unfold zone_of_pair.
    destruct (Z.eqb_spec z1 0) as [|_]; [done|]. destruct (Z.eqb_spec (Z.land r 63) 0) as [E63|E63].
    + destruct (Z.eqb_spec z2 0) as [_|]; [|tauto]. cbn [negb andb].
      apply place_here; [done|]. cbn [with_zone timezone_offset_minutes timezone_region_id].
      revert Eself. destruct (to_utc zone_info v). unfold with_zone, upd. cbn. intros E. simplify_eq. done.
    + destruct (Z.eqb_spec z2 0) as [|_]; [tauto|]. destruct (Z.eqb_spec (Z.land z1 128) 0) as [|_]; [done|].
      cbn [negb andb]. rewrite Hid, Hin. cbn [negb Z.eqb]. rewrite Eself.
      apply place_here; [done|]. rewrite Eoff, Eo, Ereg, Er, Eregion. done.
  - unfold oracle_datetime_has_timezone. by rewrite Eo, Er.
  - unfold oracle_timestamp_timezone_bytes. rewrite Eo, Er. by rewrite <- Ez.
Qed.

(** ** The calendar *)

(** C37. Moving a valid date day by day is addition on the closed-form day count, for
    every day a 16-bit year can name: the result is a valid date, the clock is
    left alone and moving back gives the date one started from. *)
Theorem shift_is_day_arithmetic v n :
  valid_date v -> first_day <= civil v + n <= last_day ->
  let w := shift_date_by_days v n in
  valid_date w
  /\ days_from_civil (year w) (month w) (day w)
     = option_map (fun days => days + n) (days_from_civil (year v) (month v) (day v))
  /\ same_clock v w
  /\ shift_date_by_days w (- n) = v.
Proof.
  intros Hv Hn w. destruct (shift_moves v n Hv Hn) as (Hw & Hc & Hs & Hb). fold w in Hw, Hc, Hs, Hb.
  assert (Hdays : forall x, valid_date x -> days_from_civil (year x) (month x) (day x) = Some (civil x)).
  { intros x (? & ? & ?). pose proof (days_in_month_bounds (year x) (month x)).
    apply days_from_civil_eq; lia. }
  rewrite !Hdays by done. cbn [option_map]. rewrite Hc. done.
Qed.

(** ** Concrete values *)

Definition sample_zones (_ : Z) : option ZoneInfo :=
  Some (mkZoneInfo [(-1830414600, 1%nat); (-378691200, 0%nat)] [28800; 30600]).

Definition new_year (o r : option Z) : OracleDateTime := mkDateTime 2000 1 1 5 30 59 123456789 o r.

Ltac date_facts :=
  match goal with
  | |- sendable _ => unfold sendable, valid_clock, valid_date; cbn; rewrite ?Z.leb_le; lia
  | |- valid_date _ => unfold valid_date; cbn; lia
  end.

Lemma date_round_trip_witness :
  decode_oracle_datetime sample_zones (encode_oracle_timestamp_bind sample_zones (new_year (Some (-570)) None))
  = inl (new_year (Some (-570)) None).
Proof.
  refine (eq_trans (date_round_trip sample_zones (new_year (Some (-570)) None) _ _ _) _).
  - date_facts.
  - reflexivity.
  - intros o E. injection E as <-. lia.
  - reflexivity.
Defined.

Lemma region_round_trip_witness :
  decode_oracle_datetime sample_zones (encode_oracle_timestamp_bind sample_zones (new_year None (Some 273)))
  = inl (new_year None (Some 273)).
Proof.
  refine (eq_trans (region_round_trip sample_zones (new_year None (Some 273)) 273
    (mkZoneInfo [(-1830414600, 1%nat); (-378691200, 0%nat)] [28800; 30600]) _ _ _ _ _ _ _ _) _);
    try reflexivity.
  - date_facts.
  - lia.
  - exists 28800. split; [by left|]. vm_compute. reflexivity.
  - repeat constructor.
  - vm_compute. split; discriminate.
Defined.

Lemma shift_is_day_arithmetic_witness :
  shift_date_by_days (new_year None None) (-366) = mkDateTime 1998 12 31 5 30 59 123456789 None None
  /\ shift_date_by_days (shift_date_by_days (new_year None None) (-366)) 366 = new_year None None.
Proof.
  split; [vm_compute; reflexivity|].
  apply (shift_is_day_arithmetic (new_year None None) (-366)); [date_facts|vm_compute; split; discriminate].
Defined.

(** Asia/Macao is region 256: the value comes back in UTC and without a zone. *)
Example macao_loses_its_zone :
  decode_oracle_datetime sample_zones (encode_oracle_timestamp_bind sample_zones (new_year None (Some 256)))
  = inl (mkDateTime 1999 12 31 21 30 59 123456789 None None).
Proof. vm_compute. reflexivity. Qed.

Example year_before_the_first :
  let v := mkDateTime 1 1 1 0 0 0 0 (Some 540) None in
  decode_oracle_datetime sample_zones (encode_oracle_timestamp_bind sample_zones v) = inr (YearOutOfRange 0).
Proof. vm_compute. reflexivity. Qed.
