(* ===== verification/OracleFixed.v ===== *)
(** * Fixed-size Oracle values

    Binary floats, row identifiers and intervals of [tns-thin], and their round
    trips. *)
From stdpp Require Import pretty.
From S2P Require Import Prelude RustStr Utf8 TtcWire.

(** * Oracle intervals and binary floats

    The fixed-size values: INTERVAL YEAR TO MONTH and DAY TO SECOND with the text
    they are shown as, the bits of BINARY_FLOAT and BINARY_DOUBLE, and unsigned
    integers of up to eight bytes.  The bits of a float are what [to_bits] gives;
    the arithmetic of floats is not used. *)

#[local] Open Scope N_scope.

Inductive FixedError :=
  | InvalidLength (len : nat)
  | OutOfRange (part : string).

Abbreviation FixedResult A := (A + FixedError)%type.

Definition TNS_DURATION_MID : Z := 2147483648.
Definition TNS_DURATION_OFFSET : Z := 60.

Record OracleIntervalYearMonth := mkYearMonth { years : Z; months : Z }.

Record OracleIntervalDaySecond := mkDaySecond {
  days : Z;
  hours : Z;
  minutes : Z;
  seconds : Z;
  nanoseconds : Z
}.

(** ** Encoding *)

Definition encode_duration_u32 (value : Z) (label : string) : FixedResult N :=
  let encoded := (value + TNS_DURATION_MID)%Z in
  if ((0 <=? encoded) && (encoded <=? 4294967295))%Z then inl (Z.to_N encoded) else inr (OutOfRange label).

Definition encode_duration_u8 (value : Z) (label : string) : FixedResult byte :=
  let encoded := (value + TNS_DURATION_OFFSET)%Z in
  if ((0 <=? encoded) && (encoded <=? 255))%Z then inl (Z.to_N encoded) else inr (OutOfRange label).

Definition and_then {A B} (r : FixedResult A) (f : A -> FixedResult B) : FixedResult B :=
  match r with inl a => f a | inr e => inr e end.
#[local] Notation "x <- e ;; f" := (and_then e (fun x => f)) (at level 100, e at next level, right associativity).

Definition encode_oracle_interval_ym (value : OracleIntervalYearMonth) : FixedResult bytes :=
  years <- encode_duration_u32 (years value) "INTERVAL YEAR TO MONTH years" ;;
  months <- encode_duration_u8 (months value) "INTERVAL YEAR TO MONTH months" ;;
  inl (to_be_bytes 4 years ++ [months]).

Definition encode_oracle_interval_ds (value : OracleIntervalDaySecond) : FixedResult bytes :=
  days <- encode_duration_u32 (days value) "INTERVAL DAY TO SECOND days" ;;
  hours <- encode_duration_u8 (hours value) "INTERVAL DAY TO SECOND hours" ;;
  minutes <- encode_duration_u8 (minutes value) "INTERVAL DAY TO SECOND minutes" ;;
  seconds <- encode_duration_u8 (seconds value) "INTERVAL DAY TO SECOND seconds" ;;
  fseconds <- encode_duration_u32 (nanoseconds value) "INTERVAL DAY TO SECOND fractional seconds" ;;
  inl (to_be_bytes 4 days ++ [hours; minutes; seconds] ++ to_be_bytes 4 fseconds).

(** ** Decoding to text *)

(** [format!("{:0width$}", z.abs())]. *)
Definition zero_padded (width : nat) (z : Z) : str :=
  let digits := u (pretty (Z.to_N (Z.abs z))) in
  replicate (width - length digits) "0"%ch ++ digits.

(** [u8::try_from(precision).ok().filter(|value| *value <= 9).unwrap_or(default)]. *)
Definition precision_or (otherwise : nat) (precision : Z) : nat :=
  if ((0 <=? precision) && (precision <=? 9))%Z then Z.to_nat precision else otherwise.

Definition sign_of (parts : list Z) : char := if existsb (fun z => z <? 0)%Z parts then "-"%ch else "+"%ch.

Definition duration_u32 (bytes : bytes) : Z := (Z.of_N (from_be_bytes bytes) - TNS_DURATION_MID)%Z.
Definition duration_u8 (b : byte) : Z := (Z.of_N b - TNS_DURATION_OFFSET)%Z.

Definition decode_oracle_interval_ym_with_precision (bytes : bytes) (precision : Z) : FixedResult str :=
  match bytes with
  | [b0; b1; b2; b3; b4] =>
      let years := duration_u32 [b0; b1; b2; b3] in
      let months := duration_u8 b4 in
      let width := Nat.max (precision_or 2 precision) 1 in
      inl (sign_of [years; months] :: zero_padded width years ++ u "-" ++ zero_padded 2 months)
  | _ => inr (InvalidLength (length bytes))
  end.

Definition decode_oracle_interval_ds_with_precision (bytes : bytes) (precision scale : Z) : FixedResult str :=
  match bytes with
  | [b0; b1; b2; b3; b4; b5; b6; b7; b8; b9; b10] =>
      let days := duration_u32 [b0; b1; b2; b3] in
      let hours := duration_u8 b4 in
      let minutes := duration_u8 b5 in
      let seconds := duration_u8 b6 in
      let fseconds := duration_u32 [b7; b8; b9; b10] in
      let day_width := Nat.max (precision_or 2 precision) 1 in
      let fractional_width := precision_or 6 scale in
      let rendered :=
        sign_of [days; hours; minutes; seconds; fseconds] :: zero_padded day_width days ++ u " "
        ++ zero_padded 2 hours ++ u ":" ++ zero_padded 2 minutes ++ u ":" ++ zero_padded 2 seconds in
      inl (if (0 <? fractional_width)%nat
           then rendered ++ u "." ++ take fractional_width (zero_padded 9 fseconds) else rendered)
  | _ => inr (InvalidLength (length bytes))
  end.

Definition decode_oracle_interval_ym (bytes : bytes) : FixedResult str :=
  decode_oracle_interval_ym_with_precision bytes 2.
Definition decode_oracle_interval_ds (bytes : bytes) : FixedResult str :=
  decode_oracle_interval_ds_with_precision bytes 2 6.

(** ** Binary floats *)

Definition not_byte (b : byte) : byte := N.lxor b 255.

(** Both widths: [k] is 4 for BINARY_FLOAT and 8 for BINARY_DOUBLE. *)
Definition encode_float_bytes (bytes : bytes) : list byte :=
  match bytes with
  | [] => []
  | b :: rest => if negb (N.land b 128 =? 0) then map not_byte bytes else N.lor b 128 :: rest
  end.
Definition decode_float_bytes (bytes : bytes) : list byte :=
  match bytes with
  | [] => []
  | b :: rest => if negb (N.land b 128 =? 0) then N.land b 127 :: rest else map not_byte bytes
  end.

Definition encode_oracle_binary_float (bits : N) : bytes := encode_float_bytes (to_be_bytes 4 bits).
Definition encode_oracle_binary_double (bits : N) : bytes := encode_float_bytes (to_be_bytes 8 bits).
Definition decode_oracle_binary_float_bits (bytes : bytes) : N := from_be_bytes (decode_float_bytes bytes).
Definition decode_oracle_binary_double_bits (bytes : bytes) : N := from_be_bytes (decode_float_bytes bytes).

(** ** Unsigned integers *)

Definition decode_oracle_unsigned_integer (bytes : bytes) : FixedResult N :=
  if (8 <? length bytes)%nat then inr (InvalidLength (length bytes)) else inl (from_be_bytes bytes).

Example vendor_intervals :
  decode_oracle_interval_ym [128; 0; 7; 229; 70] = inl (u "+2021-10")
  /\ decode_oracle_interval_ym [127; 255; 255; 251; 57] = inl (u "-05-03")
  /\ (r <- encode_oracle_interval_ds (mkDaySecond 0 (-11) (-12) (-10) (-222220000)) ;; decode_oracle_interval_ds r)
     = inl (u "-00 11:12:10.222220").
Proof. vm_compute. done. Qed.

#[local] Close Scope N_scope.

(** * What the fixed-size codecs promise

    Encoded floats sort as [f32::total_cmp] does and decode to the same bits; an
    interval is shown as the fields it was encoded from, or refused. *)

#[local] Open Scope N_scope.

(** ** Bytes *)

Definition byte_facts (b : N) : bool :=
  (not_byte b =? 255 - b)
  && (if b <? 128 then (N.land b 128 =? 0) && (N.lor b 128 =? b + 128)
      else negb (N.land b 128 =? 0) && (N.land b 127 =? b - 128)).

Lemma byte_facts_hold b : is_byte b -> byte_facts b = true.
Proof.
  intros Hb. assert (Hall : forallb (fun z => byte_facts (Z.to_N z)) (seqZ 0 256) = true) by (vm_compute; reflexivity).
  rewrite forallb_forall in Hall. specialize (Hall (Z.of_N b)). rewrite N2Z.id in Hall.
  apply Hall. rewrite <- list_elem_of_In, elem_of_seqZ. unfold is_byte in Hb. lia.
Qed.

Lemma not_byte_eq b : is_byte b -> not_byte b = 255 - b.
Proof. intros Hb. pose proof (byte_facts_hold b Hb) as H. unfold byte_facts in H. rewrite andb_true_iff, !N.eqb_eq in H. tauto. Qed.

Lemma low_byte b :
  is_byte b -> b < 128 -> N.land b 128 = 0 /\ N.lor b 128 = b + 128.
Proof.
  intros Hb Hl. pose proof (byte_facts_hold b Hb) as H. unfold byte_facts in H.
  destruct (N.ltb_spec b 128); [|lia]. rewrite !andb_true_iff, !N.eqb_eq in H. tauto.
Qed.

Lemma high_byte b :
  is_byte b -> 128 <= b -> N.land b 128 <> 0 /\ N.land b 127 = b - 128.
Proof.
  intros Hb Hl. pose proof (byte_facts_hold b Hb) as H. unfold byte_facts in H.
  destruct (N.ltb_spec b 128); [lia|]. rewrite !andb_true_iff, negb_true_iff, !N.eqb_eq, N.eqb_neq in H. tauto.
Qed.

Lemma not_bytes l :
  are_bytes l ->
  are_bytes (map not_byte l) /\ from_be_bytes (map not_byte l) + from_be_bytes l + 1 = 256 ^ N.of_nat (length l).
Proof.
  induction 1 as [|b l Hb Hl [IHb IH]]; [by split; [constructor|]|].
  assert (Hn : is_byte (not_byte b)) by (rewrite not_byte_eq by done; unfold is_byte in *; lia).
  split; [by constructor|]. cbn [map length].
  rewrite !from_be_cons, length_map, not_byte_eq by done.
  rewrite Nat2N.inj_succ, N.pow_succ_r'. unfold is_byte in Hb. set (p := 256 ^ _) in *.
  assert (E : (255 - b) * p + b * p = 255 * p) by (rewrite <- N.mul_add_distr_r; f_equal; lia). lia.
Qed.

Lemma not_not_bytes l : are_bytes l -> map not_byte (map not_byte l) = l.
Proof.
  induction 1 as [|b l Hb Hl IH]; [done|]. cbn [map]. rewrite IH. f_equal.
  rewrite (not_byte_eq b Hb). unfold is_byte in Hb. rewrite not_byte_eq by (unfold is_byte; lia). lia.
Qed.

(** ** Floats *)

(** The order of [total_cmp] on the bits of a float of [w] bits: the sign and the
    magnitude, negative zero before zero. *)
Definition total_order_key (w : N) (bits : N) : Z :=
  if bits <? 2 ^ (w - 1) then Z.of_N bits else (- (Z.of_N bits - 2 ^ Z.of_N (w - 1)) - 1)%Z.

Lemma float_bytes_key k bits :
  bits < 256 ^ N.of_nat (S k) ->
  let e := encode_float_bytes (to_be_bytes (S k) bits) in
  Z.of_N (from_be_bytes e) = (total_order_key (8 * N.of_nat (S k)) bits + 2 ^ Z.of_N (8 * N.of_nat (S k) - 1))%Z
  /\ from_be_bytes (decode_float_bytes e) = bits.
Proof.
  intros Hbits. cbn zeta.
  pose proof (from_to_be_bytes (S k) bits Hbits) as Hval.
  pose proof (to_be_bytes_are_bytes (S k) bits) as Hb. pose proof (length_to_be_bytes (S k) bits) as Hlen.
  remember (to_be_bytes (S k) bits) as l eqn:El. clear El. destruct l as [|b rest]; [done|].
  inversion Hb as [|? ? Hb0 Hrest]; subst. injection Hlen as Hlen.
  rewrite from_be_cons in Hbits |- * by done. rewrite Hlen in *.
  pose proof (from_be_bound rest Hrest) as Hbound. rewrite Hlen in Hbound.
  set (p := 256 ^ N.of_nat k) in *. set (v := from_be_bytes rest) in *.
  assert (Hhalf : 2 ^ (8 * N.of_nat (S k) - 1) = 128 * p).
  { replace (8 * N.of_nat (S k) - 1) with (7 + 8 * N.of_nat k) by lia. rewrite N.pow_add_r, N.pow_mul_r. done. }
  assert (HhalfZ : (2 ^ Z.of_N (8 * N.of_nat (S k) - 1) = 128 * Z.of_N p)%Z).
  { change 2%Z with (Z.of_N 2). rewrite <- N2Z.inj_pow, Hhalf, N2Z.inj_mul. done. }
  unfold total_order_key. rewrite Hhalf, HhalfZ. cbn [encode_float_bytes].
  unfold is_byte in Hb0.
  destruct (N.lt_ge_cases b 128) as [Hlow|Hhigh].
  - destruct (low_byte b Hb0 Hlow) as [-> ->]. cbn [negb N.eqb].
    assert (Hb' : is_byte (b + 128)) by (unfold is_byte; lia).
    rewrite from_be_cons by done. rewrite Hlen. fold p v.
    destruct (N.ltb_spec (b * p + v) (128 * p)); [|nia].
    split; [lia|]. cbn [decode_float_bytes]. destruct (high_byte (b + 128) Hb' ltac:(lia)) as [Hh ->].
    apply N.eqb_neq in Hh. rewrite Hh. cbn [negb].
    replace (b + 128 - 128) with b by lia. rewrite from_be_cons by done. rewrite Hlen. done.
  - destruct (high_byte b Hb0 Hhigh) as [Hh _]. apply N.eqb_neq in Hh. rewrite Hh. cbn [negb].
    destruct (not_bytes (b :: rest) Hb) as [Hnb Hsum]. rewrite from_be_cons in Hsum by done.
    cbn [length] in Hsum. rewrite Hlen, Nat2N.inj_succ, N.pow_succ_r' in Hsum. fold p v in Hsum.
    destruct (N.ltb_spec (b * p + v) (128 * p)); [nia|].
    split; [lia|]. cbn [map decode_float_bytes].
    assert (Hnot : not_byte b < 128) by (rewrite not_byte_eq by done; lia).
    assert (Hn : is_byte (not_byte b)) by (unfold is_byte; lia).
    destruct (low_byte _ Hn Hnot) as [-> _]. cbn [negb N.eqb].
    change (from_be_bytes (map not_byte (map not_byte (b :: rest))) = b * p + v).
    rewrite not_not_bytes, from_be_cons by done. by rewrite Hlen.
Qed.

(** A BINARY_FLOAT decodes to the bits it was encoded from, and the encoded bytes
    compare as [f32::total_cmp] compares the floats. *)
Theorem float_bytes_sort x y :
  x < 2 ^ 32 -> y < 2 ^ 32 ->
  decode_oracle_binary_float_bits (encode_oracle_binary_float x) = x
  /\ (from_be_bytes (encode_oracle_binary_float x) < from_be_bytes (encode_oracle_binary_float y)
      <-> (total_order_key 32 x < total_order_key 32 y)%Z).
Proof.
  intros Hx Hy. destruct (float_bytes_key 3 x Hx) as [Ex Dx]. destruct (float_bytes_key 3 y Hy) as [Ey _].
  cbn zeta in *. fold (encode_oracle_binary_float x) in Ex, Dx. fold (encode_oracle_binary_float y) in Ey.
  split; [exact Dx|]. change (8 * N.of_nat 4) with 32 in *. lia.
Qed.

(** A BINARY_DOUBLE decodes to the bits it was encoded from, and the encoded bytes
    compare as [f64::total_cmp] compares the floats. *)
Theorem double_bytes_sort x y :
  x < 2 ^ 64 -> y < 2 ^ 64 ->
  decode_oracle_binary_double_bits (encode_oracle_binary_double x) = x
  /\ (from_be_bytes (encode_oracle_binary_double x) < from_be_bytes (encode_oracle_binary_double y)
      <-> (total_order_key 64 x < total_order_key 64 y)%Z).
Proof.
  intros Hx Hy. destruct (float_bytes_key 7 x Hx) as [Ex Dx]. destruct (float_bytes_key 7 y Hy) as [Ey _].
  cbn zeta in *. fold (encode_oracle_binary_double x) in Ex, Dx. fold (encode_oracle_binary_double y) in Ey.
  split; [exact Dx|]. change (8 * N.of_nat 8) with 64 in *. lia.
Qed.

(** ** Intervals *)

Definition i32_range (z : Z) : Prop := (-2147483648 <= z <= 2147483647)%Z.
Definition i8_range (z : Z) : Prop := (-128 <= z <= 127)%Z.

Lemma four_bytes v :
  v < 4294967296 -> exists a b c d, to_be_bytes 4 v = [a; b; c; d] /\ from_be_bytes [a; b; c; d] = v.
Proof.
  intros Hv. pose proof (from_to_be_bytes 4 v Hv) as H. pose proof (length_to_be_bytes 4 v) as Hlen.
  destruct (to_be_bytes 4 v) as [|a [|b [|c [|d [|]]]]]; try done. by exists a, b, c, d.
Qed.

(** A field sent as four bytes around the middle of the range is always sent. *)
Lemma wide_field z label :
  i32_range z ->
  exists v a b c d, encode_duration_u32 z label = inl v /\ to_be_bytes 4 v = [a; b; c; d]
  /\ duration_u32 [a; b; c; d] = z.
Proof.
  intros Hz. unfold i32_range in Hz. unfold encode_duration_u32, TNS_DURATION_MID.
  destruct (Z.leb_spec 0 (z + 2147483648)), (Z.leb_spec (z + 2147483648) 4294967295); try lia. cbn [andb].
  destruct (four_bytes (Z.to_N (z + 2147483648))) as (a & b & c & d & E & V); [lia|].
  exists (Z.to_N (z + 2147483648)), a, b, c, d. split; [done|]. split; [done|].
  unfold duration_u32. rewrite V. unfold TNS_DURATION_MID. lia.
Qed.

Lemma narrow_field z label :
  i8_range z ->
  if (z <? -60)%Z then encode_duration_u8 z label = inr (OutOfRange label)
  else exists b, encode_duration_u8 z label = inl b /\ duration_u8 b = z.
Proof.
  intros Hz. unfold i8_range in Hz. unfold encode_duration_u8, duration_u8, TNS_DURATION_OFFSET.
  destruct (Z.ltb_spec z (-60)), (Z.leb_spec 0 (z + 60)), (Z.leb_spec (z + 60) 255); try lia; cbn [andb].
  - done.
  - exists (Z.to_N (z + 60)). split; [done|lia].
Qed.

Definition year_month_text (v : OracleIntervalYearMonth) (precision : Z) : str :=
  sign_of [years v; months v]
  :: zero_padded (Nat.max (precision_or 2 precision) 1) (years v) ++ u "-" ++ zero_padded 2 (months v).

(** An INTERVAL YEAR TO MONTH is shown, at every precision, as the years and months
    it was encoded from; encoding refuses exactly the months below -60. *)
Theorem year_month_is_shown_as_sent v precision :
  i32_range (years v) -> i8_range (months v) ->
  and_then (encode_oracle_interval_ym v) (fun b => decode_oracle_interval_ym_with_precision b precision)
  = if (months v <? -60)%Z then inr (OutOfRange "INTERVAL YEAR TO MONTH months")
    else inl (year_month_text v precision).
Proof.
  intros Hy Hm. unfold encode_oracle_interval_ym.
  destruct (wide_field (years v) "INTERVAL YEAR TO MONTH years" Hy) as (n & a & b & c & d & -> & E & V).
  pose proof (narrow_field (months v) "INTERVAL YEAR TO MONTH months" Hm) as Hn.
  cbn [and_then]. destruct (months v <? -60)%Z; [by rewrite Hn|].
  destruct Hn as (m & -> & M). cbn [and_then]. rewrite E. cbn [app].
  unfold decode_oracle_interval_ym_with_precision, year_month_text. by rewrite V, M.
Qed.

(** The text of an interval: a fraction of [scale] digits, cut from nine. *)
Definition day_second_text (v : OracleIntervalDaySecond) (precision scale : Z) : str :=
  let fraction := take (precision_or 6 scale) (zero_padded 9 (nanoseconds v)) in
  sign_of [days v; hours v; minutes v; seconds v; nanoseconds v]
  :: zero_padded (Nat.max (precision_or 2 precision) 1) (days v) ++ u " " ++ zero_padded 2 (hours v) ++ u ":"
  ++ zero_padded 2 (minutes v) ++ u ":" ++ zero_padded 2 (seconds v)
  ++ (if (0 <? precision_or 6 scale)%nat then u "." ++ fraction else []).

(** An INTERVAL DAY TO SECOND is shown, at every precision and scale, as the fields
    it was encoded from; encoding refuses the first clock field below -60. *)
Theorem day_second_is_shown_as_sent v precision scale :
  i32_range (days v) -> i8_range (hours v) -> i8_range (minutes v) -> i8_range (seconds v) ->
  i32_range (nanoseconds v) ->
  and_then (encode_oracle_interval_ds v) (fun b => decode_oracle_interval_ds_with_precision b precision scale)
  = if (hours v <? -60)%Z then inr (OutOfRange "INTERVAL DAY TO SECOND hours")
    else if (minutes v <? -60)%Z then inr (OutOfRange "INTERVAL DAY TO SECOND minutes")
    else if (seconds v <? -60)%Z then inr (OutOfRange "INTERVAL DAY TO SECOND seconds")
    else inl (day_second_text v precision scale).
Proof.
  intros Hd Hh Hm Hs Hn. unfold encode_oracle_interval_ds.
  destruct (wide_field (days v) "INTERVAL DAY TO SECOND days" Hd) as (n & a & b & c & d & -> & E & V).
  destruct (wide_field (nanoseconds v) "INTERVAL DAY TO SECOND fractional seconds" Hn)
    as (n' & a' & b' & c' & d' & -> & E' & V').
  pose proof (narrow_field (hours v) "INTERVAL DAY TO SECOND hours" Hh) as H1.
  pose proof (narrow_field (minutes v) "INTERVAL DAY TO SECOND minutes" Hm) as H2.
  pose proof (narrow_field (seconds v) "INTERVAL DAY TO SECOND seconds" Hs) as H3.
  cbn [and_then]. destruct (hours v <? -60)%Z; [by rewrite H1|]. destruct H1 as (x & -> & X).
  cbn [and_then]. destruct (minutes v <? -60)%Z; [by rewrite H2|]. destruct H2 as (y & -> & Y).
  cbn [and_then]. destruct (seconds v <? -60)%Z; [by rewrite H3|]. destruct H3 as (z & -> & Z').
  cbn [and_then]. rewrite E, E'. cbn [app].
  unfold decode_oracle_interval_ds_with_precision, day_second_text. rewrite V, V', X, Y, Z'.
  f_equal. destruct (0 <? _)%nat; cbn [app]; f_equal; by rewrite ?app_nil_r, <- ?app_assoc.
Qed.

(** ** Concrete values *)

(** -5.0 and 2.5 *)
Lemma float_bytes_sort_witness :
  decode_oracle_binary_float_bits (encode_oracle_binary_float 3231711232) = 3231711232
  /\ from_be_bytes (encode_oracle_binary_float 3231711232) < from_be_bytes (encode_oracle_binary_float 1075838976).
Proof.
  destruct (float_bytes_sort 3231711232 1075838976) as [D S]; [reflexivity|reflexivity|].
  split; [exact D|]. apply S. vm_compute. reflexivity.
Defined.

Lemma double_bytes_sort_witness :
  decode_oracle_binary_double_bits (encode_oracle_binary_double 9223372036854775808) = 9223372036854775808
  /\ from_be_bytes (encode_oracle_binary_double 9223372036854775808) < from_be_bytes (encode_oracle_binary_double 0).
Proof.
  destruct (double_bytes_sort 9223372036854775808 0) as [D S]; [reflexivity|reflexivity|].
  split; [exact D|]. apply S. vm_compute. reflexivity.
Defined.

Lemma year_month_is_shown_as_sent_witness :
  and_then (encode_oracle_interval_ym (mkYearMonth (-5) (-3))) (fun b => decode_oracle_interval_ym_with_precision b 2)
  = inl (u "-05-03").
Proof.
  refine (eq_trans (year_month_is_shown_as_sent (mkYearMonth (-5) (-3)) 2 _ _) _);
    [unfold i32_range; cbn; lia|unfold i8_range; cbn; lia|vm_compute; reflexivity].
Defined.

Lemma day_second_is_shown_as_sent_witness :
  and_then (encode_oracle_interval_ds (mkDaySecond 2 12 23 34 456000000))
    (fun b => decode_oracle_interval_ds_with_precision b 2 6) = inl (u "+02 12:23:34.456000").
Proof.
  refine (eq_trans (day_second_is_shown_as_sent (mkDaySecond 2 12 23 34 456000000) 2 6 _ _ _ _ _) _);
    try (unfold i8_range, i32_range; cbn; lia). vm_compute. reflexivity.
Defined.
