(* ===== verification/Delimiter.v ===== *)
(** * [src/sql_delimiter.rs]: delimiter frames

    The formatter's stack of open parentheses, brackets and braces.  A state may
    count, for every depth, how many times a frame was closed down to it, so that
    a boundary taken inside a frame can tell later whether that frame has been
    closed, even when another one was opened at the same depth since.  The
    counters are [u64] and wrap. *)
From S2P Require Import Prelude.

(** [ui::sql_editor::SqlToken]. *)
Inductive SqlToken :=
| SqlToken_Word (s : str) | SqlToken_String (s : str) | SqlToken_Comment (s : str)
| SqlToken_Symbol (s : str).

Inductive DelimiterFrameKind :=
| DelimiterFrameKind_Unknown | DelimiterFrameKind_Paren | DelimiterFrameKind_Bracket
| DelimiterFrameKind_Brace.

#[export] Instance DelimiterFrameKind_eq_dec : EqDecision DelimiterFrameKind.
Proof. solve_decision. Defined.

Definition from_open_char (symbol : char) : option DelimiterFrameKind :=
  if N.eqb symbol "("%ch then Some DelimiterFrameKind_Paren
  else if N.eqb symbol "["%ch then Some DelimiterFrameKind_Bracket
  else if N.eqb symbol "{"%ch then Some DelimiterFrameKind_Brace
  else None.

Definition from_close_char (symbol : char) : option DelimiterFrameKind :=
  if N.eqb symbol ")"%ch then Some DelimiterFrameKind_Paren
  else if N.eqb symbol "]"%ch then Some DelimiterFrameKind_Bracket
  else if N.eqb symbol "}"%ch then Some DelimiterFrameKind_Brace
  else None.

Definition can_be_closed_by (kind close_kind : DelimiterFrameKind) : bool :=
  (kind == DelimiterFrameKind_Unknown) || (kind == close_kind).

(** [u64::wrapping_add]. *)
Definition u64_wrapping_add (a b : N) : N := ((a + b) mod 2 ^ 64)%N.

Record DelimiterFrameState := mkFrameState {
  stack : list DelimiterFrameKind;
  close_generations_by_resulting_depth : option (list N)
}.

#[export] Instance DelimiterFrameState_eta : Eta DelimiterFrameState := fun s =>
  mkFrameState (stack s) (close_generations_by_resulting_depth s).

Record DelimiterLineStartSnapshot := mkSnapshot {
  visible_frames : list DelimiterFrameKind;
  baseline_depth : nat
}.

Record DelimiterBoundary := mkBoundary {
  boundary_depth : nat;
  close_generation_below : N
}.

Definition frame_state (snap : DelimiterLineStartSnapshot) : DelimiterFrameState :=
  mkFrameState (visible_frames snap) None.

Definition DelimiterFrameState_default : DelimiterFrameState := mkFrameState [] None.

Definition with_boundary_tracking : DelimiterFrameState := mkFrameState [] (Some []).

Definition depth (s : DelimiterFrameState) : nat := length (stack s).

Definition is_inside_bracket (s : DelimiterFrameState) : bool :=
  existsb (fun k => k == DelimiterFrameKind_Bracket) (stack s).

Definition innermost_is_bracket (s : DelimiterFrameState) : bool :=
  last (stack s) == Some DelimiterFrameKind_Bracket.

(** The counter of closes down to [resulting_depth], zero where there is none. *)
Definition generation_at (s : DelimiterFrameState) (resulting_depth : nat) : N :=
  match close_generations_by_resulting_depth s with
  | Some generations => default 0%N (generations !! resulting_depth)
  | None => 0%N
  end.

Definition boundary (s : DelimiterFrameState) : DelimiterBoundary :=
  mkBoundary (depth s)
    (match depth s with 0 => 0%N | S resulting_depth => generation_at s resulting_depth end).

Definition has_closed_below (s : DelimiterFrameState) (b : DelimiterBoundary) : bool :=
  match boundary_depth b with
  | 0 => false
  | S resulting_depth => negb (N.eqb (generation_at s resulting_depth) (close_generation_below b))
  end.

(** [Vec::resize] to a length not below the current one. *)
Definition resize_to (n : nat) (x : N) (l : list N) : list N := l ++ replicate (n - length l) x.

Definition record_successful_close (s : DelimiterFrameState) : DelimiterFrameState :=
  match close_generations_by_resulting_depth s with
  | None => s
  | Some generations =>
      let resulting_depth := length (stack s) in
      let generations :=
        if length generations <=? resulting_depth
        then resize_to (resulting_depth + 1) 0%N generations else generations in
      s <| close_generations_by_resulting_depth :=
             Some (alter (fun g => u64_wrapping_add g 1) resulting_depth generations) |>
  end.

(** One character of [apply_symbol_strict]. *)
Definition apply_char_strict (sym_ch : char) (s : DelimiterFrameState) : DelimiterFrameState :=
  match from_open_char sym_ch with
  | Some open_kind => s <| stack ::= vec_push open_kind |>
  | None =>
      match from_close_char sym_ch with
      | None => s
      | Some close_kind =>
          if is_some_and (last (stack s)) (fun top => top == close_kind)
          then record_successful_close (s <| stack ::= vec_pop |>)
          else s
      end
  end.

Definition apply_symbol_strict (symbol : str) (s : DelimiterFrameState) : DelimiterFrameState :=
  fold_left (fun s ch => apply_char_strict ch s) symbol s.

(** The [for] loop returns as soon as a close goes below [baseline]. *)
Fixpoint apply_symbol_with_close_detection (symbol : str) (baseline : nat)
    (s : DelimiterFrameState) : DelimiterFrameState * bool :=
  match symbol with
  | [] => (s, false)
  | sym_ch :: rest =>
      match from_open_char sym_ch with
      | Some open_kind =>
          apply_symbol_with_close_detection rest baseline (s <| stack ::= vec_push open_kind |>)
      | None =>
          match from_close_char sym_ch with
          | None => apply_symbol_with_close_detection rest baseline s
          | Some close_kind =>
              if is_some_and (last (stack s)) (fun top => can_be_closed_by top close_kind)
              then
                let s := record_successful_close (s <| stack ::= vec_pop |>) in
                if length (stack s) <? baseline then (s, true)
                else apply_symbol_with_close_detection rest baseline s
              else apply_symbol_with_close_detection rest baseline s
          end
      end
  end.

Definition apply_token (token : SqlToken) (s : DelimiterFrameState) : DelimiterFrameState :=
  match token with
  | SqlToken_Symbol symbol => apply_symbol_strict symbol s
  | _ => s
  end.

Definition apply_token_with_close_detection (token : SqlToken) (baseline : nat)
    (s : DelimiterFrameState) : DelimiterFrameState * bool :=
  match token with
  | SqlToken_Symbol symbol => apply_symbol_with_close_detection symbol baseline s
  | _ => (s, false)
  end.

Definition line_start_snapshot (baseline : nat) (s : DelimiterFrameState)
    : DelimiterLineStartSnapshot :=
  let synthetic_missing_depth := baseline - length (stack s) in
  mkSnapshot (replicate synthetic_missing_depth DelimiterFrameKind_Unknown ++ stack s) baseline.

Definition line_start_snapshot_before_token (tokens : list SqlToken) (line_start_idx : nat)
    (baseline : nat) : DelimiterLineStartSnapshot :=
  line_start_snapshot baseline
    (fold_left (fun s token => apply_token token s) (take line_start_idx tokens)
       DelimiterFrameState_default).

(** The [for] loop with its early return. *)
Fixpoint any_token_closes (tokens : list SqlToken) (baseline : nat) (s : DelimiterFrameState)
    : bool :=
  match tokens with
  | [] => false
  | token :: tokens =>
      let '(s, closed) := apply_token_with_close_detection token baseline s in
      if closed then true else any_token_closes tokens baseline s
  end.

Definition line_closes_delimiter_frame_below_snapshot_before_token (tokens : list SqlToken)
    (line_start_idx token_idx : nat) (snap : DelimiterLineStartSnapshot) : bool :=
  if (token_idx <=? line_start_idx) || (baseline_depth snap =? 0) then false
  else any_token_closes (take (token_idx - line_start_idx) (drop line_start_idx tokens))
         (baseline_depth snap) (frame_state snap).

(** ** The characters that matter *)

(** The characters of the symbol tokens, in order. *)
Definition symbol_chars (tokens : list SqlToken) : str :=
  tokens ≫= fun token => match token with SqlToken_Symbol s => s | _ => [] end.

Lemma apply_tokens_chars tokens s :
  fold_left (fun s token => apply_token token s) tokens s
  = fold_left (fun s ch => apply_char_strict ch s) (symbol_chars tokens) s.
Proof.
  unfold symbol_chars. revert s. induction tokens as [|t tokens IH]; intros s; simpl; [done|].
  rewrite IH, fold_left_app. by destruct t.
Qed.

(** ** Boundaries *)

(** One character opens a frame, closes the innermost one or does nothing. *)
Inductive char_step (s : DelimiterFrameState) : DelimiterFrameState -> Prop :=
| Char_Open k : char_step s (s <| stack ::= vec_push k |>)
| Char_Close : 0 < depth s -> char_step s (record_successful_close (s <| stack ::= vec_pop |>))
| Char_Skip : char_step s s.

Lemma apply_char_strict_step c s : char_step s (apply_char_strict c s).
Proof.
  unfold apply_char_strict. destruct (from_open_char c); [apply Char_Open|].
  destruct (from_close_char c); [|apply Char_Skip].
  destruct (last (stack s)) as [top|] eqn:Hl; [|apply Char_Skip]. simpl.
  destruct (_ == _); [|apply Char_Skip]. apply Char_Close. unfold depth.
  destruct (stack s); [done|simpl; lia].
Qed.

Lemma record_successful_close_stack s : stack (record_successful_close s) = stack s.
Proof. unfold record_successful_close. by case_match. Qed.

Lemma depth_open k s : depth (s <| stack ::= vec_push k |>) = S (depth s).
Proof. unfold depth, vec_push. simpl. rewrite length_app. simpl. lia. Qed.

Lemma depth_close s :
  depth (record_successful_close (s <| stack ::= vec_pop |>)) = depth s - 1.
Proof.
  unfold depth. rewrite record_successful_close_stack. simpl. unfold vec_pop.
  rewrite removelast_firstn_len, length_take. lia.
Qed.

(** A close counts at the depth it leads to and nowhere else. *)
Lemma generation_after_close s d :
  close_generations_by_resulting_depth s <> None ->
  generation_at (record_successful_close s) d
  = if depth s =? d then u64_wrapping_add (generation_at s d) 1 else generation_at s d.
Proof.
  intros Ht. unfold record_successful_close, generation_at, depth.
  destruct (close_generations_by_resulting_depth s) as [g|] eqn:Hg; [|done].
  cbv zeta. simpl. set (n := length (stack s)).
  set (g' := if length g <=? n then resize_to (n + 1) 0%N g else g).
  assert (Hlen : n < length g').
  { unfold g', resize_to. destruct (Nat.leb_spec (length g) n); [|lia].
    rewrite length_app, length_replicate. lia. }
  assert (Hsame : default 0%N (g' !! d) = default 0%N (g !! d)).
  { unfold g', resize_to. destruct (Nat.leb_spec (length g) n); [|done].
    destruct (decide (d < length g)); [by rewrite lookup_app_l|].
    rewrite lookup_app_r, (lookup_ge_None_2 g) by lia. simpl.
    destruct (decide (d - length g < n + 1 - length g)).
    - by rewrite lookup_replicate_2 by lia.
    - by rewrite lookup_ge_None_2 by (rewrite length_replicate; lia). }
  rewrite <- Hsame. clearbody g'. destruct (Nat.eqb_spec n d) as [<-|Hne].
  - rewrite list_lookup_alter_eq. destruct (lookup_lt_is_Some_2 g' n Hlen) as [x ->]. done.
  - by rewrite list_lookup_alter_ne.
Qed.

Definition run_chars (cs : str) (s : DelimiterFrameState) : DelimiterFrameState :=
  fold_left (fun s ch => apply_char_strict ch s) cs s.

Definition tracked (s : DelimiterFrameState) : Prop :=
  close_generations_by_resulting_depth s <> None /\ forall d, (generation_at s d < 2 ^ 64)%N.

(** The step from [s] on [c] closes a frame down to depth [r]. *)
Definition closes_to (r : nat) (c : char) (s : DelimiterFrameState) : bool :=
  (depth s =? S r) && (depth (apply_char_strict c s) =? r).

(** How often that happens along [cs]. *)
Fixpoint closes (r : nat) (cs : str) (s : DelimiterFrameState) : nat :=
  match cs with
  | [] => 0
  | c :: cs => (if closes_to r c s then 1 else 0) + closes r cs (apply_char_strict c s)
  end.

Lemma apply_char_generation c s r :
  tracked s ->
  generation_at (apply_char_strict c s) r
  = if closes_to r c s then u64_wrapping_add (generation_at s r) 1 else generation_at s r.
Proof.
  intros [Ht _]. unfold closes_to. destruct (apply_char_strict_step c s) as [k|Hd|].
  - rewrite depth_open.
    destruct (Nat.eqb_spec (depth s) (S r)), (Nat.eqb_spec (S (depth s)) r); simpl; try done; lia.
  - rewrite generation_after_close, depth_close by done.
    replace (depth (s <| stack ::= vec_pop |>)) with (depth s - 1).
    2: { rewrite <- depth_close. unfold depth. by rewrite record_successful_close_stack. }
    destruct (Nat.eqb_spec (depth s - 1) r), (Nat.eqb_spec (depth s) (S r)); simpl; try done; lia.
  - destruct (Nat.eqb_spec (depth s) (S r)), (Nat.eqb_spec (depth s) r); simpl; try done; lia.
Qed.

Lemma apply_char_tracked c s : tracked s -> tracked (apply_char_strict c s).
Proof.
  intros Ht. split.
  - destruct Ht as [Ht _]. destruct (apply_char_strict_step c s); [done| |done].
    unfold record_successful_close. simpl.
    by destruct (close_generations_by_resulting_depth s).
  - intros d. rewrite apply_char_generation by done. destruct (closes_to d c s); [|apply Ht].
    unfold u64_wrapping_add. apply N.mod_lt. lia.
Qed.

Lemma run_chars_tracked cs s : tracked s -> tracked (run_chars cs s).
Proof.
  revert s. induction cs as [|c cs IH]; intros s Hs; simpl; [done|].
  by apply IH, apply_char_tracked.
Qed.

Lemma run_chars_generation cs s r :
  tracked s ->
  generation_at (run_chars cs s) r
  = ((generation_at s r + N.of_nat (closes r cs s)) mod 2 ^ 64)%N.
Proof.
  revert s. induction cs as [|c cs IH]; intros s Hs; simpl.
  { rewrite N.add_0_r. symmetry. apply N.mod_small, Hs. }
  fold (run_chars cs (apply_char_strict c s)).
  rewrite IH, apply_char_generation by (done || by apply apply_char_tracked).
  destruct (closes_to r c s); [|done].
  unfold u64_wrapping_add. rewrite N.Div0.add_mod_idemp_l. f_equal. lia.
Qed.

Lemma closes_bound r cs s : closes r cs s <= length cs.
Proof.
  revert s. induction cs as [|c cs IH]; intros s; simpl; [done|].
  specialize (IH (apply_char_strict c s)). case_match; lia.
Qed.

(** From above depth [r], a frame is closed down to [r] iff some prefix of the
    characters leads to a depth of at most [r]. *)
Lemma closes_iff r cs s :
  r < depth s ->
  0 < closes r cs s <-> exists n, depth (run_chars (take n cs) s) <= r.
Proof.
  revert s. induction cs as [|c cs IH]; intros s Hr; simpl.
  { split; [lia|]. intros [n Hn]. rewrite take_nil in Hn. simpl in Hn. lia. }
  unfold closes_to. destruct (decide (depth (apply_char_strict c s) <= r)) as [Hle|Hgt].
  - assert (Heq : depth s = S r /\ depth (apply_char_strict c s) = r).
    { destruct (apply_char_strict_step c s) as [k|Hd|];
        rewrite ?depth_open, ?depth_close in *; lia. }
    destruct Heq as [-> ->]. rewrite !Nat.eqb_refl. simpl. split; [|lia].
    intros _. exists 1. simpl. lia.
  - assert (Hf : (depth (apply_char_strict c s) =? r) = false) by (apply Nat.eqb_neq; lia).
    rewrite Hf, andb_false_r. simpl. rewrite IH by lia. split.
    + intros [n Hn]. by exists (S n).
    + intros [[|n] Hn]; [simpl in Hn; lia|]. by exists n.
Qed.

Lemma with_boundary_tracking_tracked : tracked with_boundary_tracking.
Proof. split; [done|]. intros d. unfold generation_at. simpl. lia. Qed.

(** A boundary reports a close iff the depth dropped below it since, as long as
    the counter cannot have gone full circle. *)
Lemma has_closed_below_iff cs s :
  tracked s -> (N.of_nat (length cs) < 2 ^ 64)%N ->
  has_closed_below (run_chars cs s) (boundary s) = true <->
  exists n, depth (run_chars (take n cs) s) < depth s.
Proof.
  intros Ht Hl. unfold has_closed_below, boundary. simpl boundary_depth. simpl close_generation_below.
  destruct (depth s) as [|r] eqn:Hd; [split; [done|intros [n Hn]; lia]|].
  rewrite run_chars_generation, negb_true_iff, N.eqb_neq by done.
  pose proof (closes_bound r cs s) as Hb. destruct Ht as [_ Hg]. specialize (Hg r).
  assert (Hiff : 0 < closes r cs s <-> exists n, depth (run_chars (take n cs) s) <= r)
    by (apply closes_iff; lia).
  assert (Hne : ((generation_at s r + N.of_nat (closes r cs s)) mod 2 ^ 64)%N <> generation_at s r
                <-> 0 < closes r cs s).
  { set (g := generation_at s r) in *. set (k := closes r cs s) in *. clearbody g k. split.
    - intros Hm. destruct k; [|lia]. exfalso. apply Hm. rewrite N.add_0_r. by apply N.mod_small.
    - intros Hk Heq. destruct (decide (g + N.of_nat k < 2 ^ 64)%N).
      + rewrite N.mod_small in Heq by done. lia.
      + assert (Hm : ((g + N.of_nat k) mod 2 ^ 64 = g + N.of_nat k - 2 ^ 64)%N).
        { symmetry. apply (N.mod_unique _ _ 1); lia. }
        rewrite Hm in Heq. lia. }
  rewrite Hne, Hiff. split; intros [n Hn]; exists n; lia.
Qed.

(** ** Balanced text *)

Inductive balanced : str -> Prop :=
| Balanced_nil : balanced []
| Balanced_other c w :
    from_open_char c = None -> from_close_char c = None -> balanced w -> balanced (c :: w)
| Balanced_frame o c k v w :
    from_open_char o = Some k -> from_close_char c = Some k -> balanced v -> balanced w ->
    balanced (o :: v ++ c :: w).

Lemma close_not_open c k : from_close_char c = Some k -> from_open_char c = None.
Proof.
  unfold from_close_char, from_open_char. intros Hc.
  repeat match type of Hc with
         | (if N.eqb c ?x then _ else _) = _ => destruct (N.eqb_spec c x) as [->|]; [done|]
         end. done.
Qed.

Lemma run_chars_app a b s : run_chars (a ++ b) s = run_chars b (run_chars a s).
Proof. apply fold_left_app. Qed.

Lemma balanced_stack w s : balanced w -> stack (run_chars w s) = stack s.
Proof.
  intros Hw. revert s. induction Hw as [|c w Ho Hc _ IH|o c k v w Ho Hc _ IHv _ IHw]; intros s.
  - done.
  - simpl. unfold apply_char_strict at 1. rewrite Ho, Hc. apply IH.
  - simpl. rewrite run_chars_app. simpl. fold (run_chars w). rewrite IHw.
    unfold apply_char_strict at 1. rewrite (close_not_open c k Hc), Hc.
    rewrite IHv. unfold apply_char_strict at 1. rewrite Ho. simpl. unfold vec_push.
    rewrite last_snoc. simpl. rewrite bool_decide_eq_true_2 by done.
    rewrite record_successful_close_stack. simpl. rewrite IHv. unfold apply_char_strict.
    rewrite Ho. simpl. unfold vec_push, vec_pop. apply removelast_last.
Qed.

(** ** Lines that close an outer frame *)

(** One character of the scan that accepts any close for an unknown frame. *)
Definition apply_char_lenient (c : char) (s : DelimiterFrameState) : DelimiterFrameState :=
  match from_open_char c with
  | Some k => s <| stack ::= vec_push k |>
  | None =>
      match from_close_char c with
      | None => s
      | Some k =>
          if is_some_and (last (stack s)) (fun top => can_be_closed_by top k)
          then record_successful_close (s <| stack ::= vec_pop |>)
          else s
      end
  end.

Definition run_lenient (cs : str) (s : DelimiterFrameState) : DelimiterFrameState :=
  fold_left (fun s ch => apply_char_lenient ch s) cs s.

(** Some prefix of [cs] leads below [base]. *)
Definition dips (base : nat) (cs : str) (s : DelimiterFrameState) : Prop :=
  exists n, depth (run_lenient (take n cs) s) < base.

Lemma dips_cons base c cs s :
  base <= depth s -> dips base (c :: cs) s <-> dips base cs (apply_char_lenient c s).
Proof.
  intros Hb. split.
  - intros [[|n] Hn]; [simpl in Hn; lia|]. by exists n.
  - intros [n Hn]. by exists (S n).
Qed.

Lemma dips_now base cs s : depth s < base -> dips base cs s.
Proof. intros Hd. by exists 0. Qed.

(** The scan of a symbol stops exactly where the depth first goes below the
    baseline, and otherwise ends in the state of the whole symbol. *)
Lemma symbol_detection_spec sym base s :
  base <= depth s ->
  let '(s', closed) := apply_symbol_with_close_detection sym base s in
  (closed = true -> dips base sym s) /\
  (closed = false -> s' = run_lenient sym s /\ base <= depth s' /\ ~ dips base sym s).
Proof.
  revert s. induction sym as [|c sym IH]; intros s Hb;
    cbn [apply_symbol_with_close_detection].
  { split; [done|]. intros _. split_and!; [done|done|].
    intros [n Hn]. rewrite take_nil in Hn. simpl in Hn. lia. }
  assert (Hgo : forall t, base <= depth t -> apply_char_lenient c s = t ->
    let '(s', closed) := apply_symbol_with_close_detection sym base t in
    (closed = true -> dips base (c :: sym) s) /\
    (closed = false -> s' = run_lenient (c :: sym) s /\
                       base <= depth s' /\ ~ dips base (c :: sym) s)).
  { intros t Ht Hc. specialize (IH t Ht).
    change (run_lenient (c :: sym) s) with (run_lenient sym (apply_char_lenient c s)). rewrite Hc.
    destruct (apply_symbol_with_close_detection sym base t) as [s' closed].
    rewrite dips_cons, Hc by done. done. }
  unfold apply_char_lenient in Hgo at 1. destruct (from_open_char c) as [k|].
  { apply Hgo; [|done]. rewrite depth_open. lia. }
  destruct (from_close_char c) as [k|] eqn:Hc; [|by apply Hgo].
  destruct (is_some_and _ _) eqn:Hl; [|by apply Hgo].
  cbv zeta. set (t := record_successful_close _) in *.
  change (length (stack t)) with (depth t). destruct (Nat.ltb_spec (depth t) base) as [Hlt|Hge].
  - split; [|done]. intros _. apply dips_cons; [done|].
    unfold apply_char_lenient. rewrite (close_not_open c k Hc), Hc, Hl. by apply dips_now.
  - apply Hgo; [lia|done].
Qed.

Lemma run_lenient_app a b s : run_lenient (a ++ b) s = run_lenient b (run_lenient a s).
Proof. apply fold_left_app. Qed.

Lemma dips_app base a b s :
  dips base (a ++ b) s <-> dips base a s \/ dips base b (run_lenient a s).
Proof.
  split.
  - intros [n Hn]. rewrite take_app in Hn.
    destruct (decide (n <= length a)).
    + left. exists n. replace (n - length a) with 0 in Hn by lia.
      by rewrite take_0, app_nil_r in Hn.
    + right. exists (n - length a). by rewrite take_ge, run_lenient_app in Hn by lia.
  - intros [[n Hn]|[n Hn]].
    + exists (Nat.min n (length a)). rewrite take_app_le by lia.
      destruct (decide (n <= length a)); [by rewrite Nat.min_l by lia|].
      rewrite take_ge in Hn by lia. by rewrite Nat.min_r, firstn_all by lia.
    + exists (length a + n). by rewrite take_app_add, run_lenient_app.
Qed.

Lemma any_token_closes_iff tokens base s :
  base <= depth s ->
  any_token_closes tokens base s = true <-> dips base (symbol_chars tokens) s.
Proof.
  revert s. induction tokens as [|token tokens IH]; intros s Hb.
  { split; [done|]. intros [n Hn]. change (symbol_chars []) with (@nil N) in Hn.
    rewrite take_nil in Hn. simpl in Hn. lia. }
  cbn [any_token_closes]. unfold symbol_chars. simpl mbind. fold (symbol_chars tokens).
  destruct token as [w|w|w|sym]; simpl; try by apply IH.
  pose proof (symbol_detection_spec sym base s Hb) as Hspec.
  destruct (apply_symbol_with_close_detection sym base s) as [s' []].
  - rewrite dips_app. split; [left; by apply Hspec|done].
  - destruct Hspec as [_ Hspec]. destruct (Hspec eq_refl) as (-> & Hb' & Hnd).
    rewrite (IH _ Hb'), dips_app. tauto.
Qed.

Lemma snapshot_depth base s : base <= depth (frame_state (line_start_snapshot base s)).
Proof.
  unfold depth, frame_state, line_start_snapshot. simpl.
  rewrite length_app, length_replicate. lia.
Qed.

(** ** Properties *)

(** A boundary taken at any point of a token stream reports, after any
    further tokens, that its frame was closed if and only if the depth went
    below the boundary's depth somewhere in between: a frame reopened at the
    same depth does not hide the close, inner and mismatched closes do not fake
    one.  The bound is that of the wrapping [u64] counter. *)
Theorem boundary_detects_exactly_its_close before after :
  (N.of_nat (length (symbol_chars after)) < 2 ^ 64)%N ->
  let apply tokens s := fold_left (fun s token => apply_token token s) tokens s in
  let s := apply before with_boundary_tracking in
  has_closed_below (apply after s) (boundary s) = true <->
  exists n, depth (run_chars (take n (symbol_chars after)) s) < depth s.
Proof.
  intros Hl. cbv zeta. rewrite !apply_tokens_chars. apply has_closed_below_iff; [|done].
  apply run_chars_tracked, with_boundary_tracking_tracked.
Qed.

Lemma boundary_detects_exactly_its_close_witness :
  let apply tokens s := fold_left (fun s token => apply_token token s) tokens s in
  let s := apply [SqlToken_Symbol (u "(")] with_boundary_tracking in
  has_closed_below (apply [SqlToken_Symbol (u ")"); SqlToken_Symbol (u "(")] s) (boundary s)
  = true.
Proof.
  apply (boundary_detects_exactly_its_close [SqlToken_Symbol (u "(")]
           [SqlToken_Symbol (u ")"); SqlToken_Symbol (u "(")]).
  - vm_compute. reflexivity.
  - exists 1. vm_compute. lia.
Defined.

(** Symbols in which every delimiter is matched leave the stack as it was,
    whatever the frames around them. *)
Theorem balanced_symbols_keep_frames w s :
  balanced w -> stack (apply_symbol_strict w s) = stack s.
Proof. apply balanced_stack. Qed.

Lemma balanced_symbols_keep_frames_witness :
  stack (apply_symbol_strict (u "([x]{})") (mkFrameState [DelimiterFrameKind_Brace] None))
  = [DelimiterFrameKind_Brace].
Proof.
  apply (balanced_symbols_keep_frames (u "([x]{})")).
  apply (Balanced_frame "("%ch ")"%ch DelimiterFrameKind_Paren (u "[x]{}") []);
    [reflexivity|reflexivity| |constructor].
  apply (Balanced_frame "["%ch "]"%ch DelimiterFrameKind_Bracket (u "x") (u "{}"));
    [reflexivity|reflexivity|repeat constructor|].
  apply (Balanced_frame "{"%ch "}"%ch DelimiterFrameKind_Brace [] []);
    [reflexivity|reflexivity|constructor|constructor].
Defined.

(** A line is said to close a frame below its start exactly when some prefix
    of its symbols, read from the frames visible at the line's start (unknown
    ones accepting any close), is less deep than the baseline. *)
Theorem line_close_detection_is_exact tokens start stop base :
  start < stop -> 0 < base ->
  let snap := line_start_snapshot_before_token tokens start base in
  line_closes_delimiter_frame_below_snapshot_before_token tokens start stop snap = true <->
  dips base (symbol_chars (take (stop - start) (drop start tokens))) (frame_state snap).
Proof.
  intros Hs Hb. cbv zeta. unfold line_closes_delimiter_frame_below_snapshot_before_token.
  change (baseline_depth (line_start_snapshot_before_token tokens start base)) with base.
  rewrite (proj2 (Nat.leb_gt _ _)), (proj2 (Nat.eqb_neq _ _)) by lia.
  apply any_token_closes_iff, snapshot_depth.
Qed.

Lemma line_close_detection_is_exact_witness :
  line_closes_delimiter_frame_below_snapshot_before_token
    [SqlToken_Symbol (u ")"); SqlToken_Symbol (u "+")] 0 2
    (line_start_snapshot_before_token [SqlToken_Symbol (u ")"); SqlToken_Symbol (u "+")] 0 1)
  = true.
Proof.
  apply (line_close_detection_is_exact [SqlToken_Symbol (u ")"); SqlToken_Symbol (u "+")] 0 2 1);
    [lia|lia|].
  exists 1. vm_compute. lia.
Defined.
