(* ===== verification/LockOrder.v ===== *)
(** * [src/db/lock_order.rs]: the lock-order tracker

    Every thread has the list of tracked locks it holds, outermost first; the
    process has the map of ordered pairs seen so far, with where each was first
    seen, and the set of inversion reports.  [enter] is [LockOrderScope::enter],
    [leave] the drop of a scope; interleavings of threads are sequences of
    [lock_op]s.  A panic in strict mode is part of the result.  Whether checks
    are strict is read from the environment once, so it is a parameter. *)
From stdpp Require Import gmap.
From S2P Require Import Prelude RustStr.

Abbreviation thread := nat (only parsing).

Record Tracker := mkTracker {
  held : gmap nat (list str);
  observed : gmap (str * str) str;
  inversions : gset str
}.

#[export] Instance Tracker_eta : Eta Tracker := fun t =>
  mkTracker (held t) (observed t) (inversions t).

Definition tracker_new : Tracker := mkTracker ∅ ∅ ∅.

(** What thread [t] holds. *)
Definition held_by (t : nat) (tr : Tracker) : list str := default [] (held tr !! t).

(** [names::ALL]. *)
Definition ALL : list str := u <$>
  ["ACTIVITY_REGISTRY"; "DB_CONNECTION"; "POOL_CONTEXT_CACHE"; "SESSION_LEASE";
   "CONNECTION_REGISTRY"; "SENDER_REGISTRATIONS"; "RETIRED_GENERATIONS"; "POOL_HANDOUT_HOLDS";
   "RUNTIME_STATE"; "RETAINED_LEASES"; "PENDING_CLEANUPS"; "CANCELLED_WORK"]%string.

(** The two report formats. *)
Definition reentrant_report (name location : str) : str :=
  u "re-entrant acquire of " ++ name ++ u " (already held) at " ++ location.

Definition inversion_report (outer name location first : str) : str :=
  outer ++ u " -> " ++ name ++ u " at " ++ location ++ u " inverts " ++ name ++ u " -> "
  ++ outer ++ u " first seen at " ++ first.

(** [observed.entry(k).or_insert_with(..)]. *)
Definition or_insert (k : str * str) (v : str) (m : gmap (str * str) str)
    : gmap (str * str) str :=
  match m !! k with Some _ => m | None => <[k := v]> m end.

(** The [for held in &outer] loop: the pairs seen and the reports pushed. *)
Fixpoint note_pairs (outer : list str) (name location : str) (seen : gmap (str * str) str)
    : gmap (str * str) str * list str :=
  match outer with
  | [] => (seen, [])
  | h :: outer =>
      let seen := or_insert (h, name) location seen in
      let report :=
        if h == name then [reentrant_report name location]
        else match seen !! (name, h) with
             | Some first => [inversion_report h name location first]
             | None => []
             end in
      let '(seen, reports) := note_pairs outer name location seen in
      (seen, report ++ reports)
  end.

(** A report that names one of the application's own locks. *)
Definition is_real (report : str) : bool := existsb (fun name => str_contains report name) ALL.

Definition push_held (t : nat) (name : str) (tr : Tracker) : Tracker :=
  tr <| held := <[t := held_by t tr ++ [name]]> (held tr) |>.

(** [LockOrderScope::enter] on thread [t]; [true] when it panics. *)
Definition enter (strict : bool) (t : nat) (name location : str) (tr : Tracker)
    : Tracker * bool :=
  let outer := held_by t tr in
  match outer with
  | [] => (push_held t name tr, false)
  | _ =>
      let '(seen, inverted) := note_pairs outer name location (observed tr) in
      let tr := tr <| observed := seen |> <| inversions ::= fun s => s ∪ list_to_set inverted |> in
      if existsb is_real inverted && strict then (tr, true)
      else (push_held t name tr, false)
  end.

(** The drop of a scope pops the innermost lock of its thread. *)
Definition leave (t : nat) (tr : Tracker) : Tracker :=
  tr <| held := <[t := vec_pop (held_by t tr)]> (held tr) |>.

Definition lock_order_inversions (tr : Tracker) : list str := elements (inversions tr).

Definition shared_lock_order_inversions (tr : Tracker) : list str :=
  List.filter is_real (lock_order_inversions tr).

Definition observed_lock_order (tr : Tracker) : list (str * str) := fst <$> map_to_list (observed tr).

Definition shared_observed_lock_order (tr : Tracker) : list (str * str) :=
  List.filter (fun p => existsb (fun n => n == fst p) ALL && existsb (fun n => n == snd p) ALL)
    (observed_lock_order tr).

(** ** Interleavings *)

Inductive lock_op := Op_Enter (t : nat) (name location : str) | Op_Leave (t : nat).

(** [None] when an operation panics. *)
Fixpoint run_ops (strict : bool) (ops : list lock_op) (tr : Tracker) : option Tracker :=
  match ops with
  | [] => Some tr
  | Op_Enter t name location :: ops =>
      let '(tr, panicked) := enter strict t name location tr in
      if panicked then None else run_ops strict ops tr
  | Op_Leave t :: ops => run_ops strict ops (leave t tr)
  end.

(** ** The pairs noted by one acquisition *)

Lemma or_insert_dom k v m p : is_Some (or_insert k v m !! p) <-> p = k \/ is_Some (m !! p).
Proof.
  unfold or_insert. destruct (m !! k) as [x|] eqn:Hk.
  - split; [by right|]. intros [->|?]; [by rewrite Hk|done].
  - rewrite lookup_insert_is_Some. destruct (decide (p = k)) as [->|]; naive_solver.
Qed.

Lemma note_pairs_dom outer name loc seen p :
  is_Some (fst (note_pairs outer name loc seen) !! p) <->
  is_Some (seen !! p) \/ exists h, h ∈ outer /\ p = (h, name).
Proof.
  revert seen. induction outer as [|h outer IH]; intros seen; simpl.
  { split; [by left|]. intros [?|(h & Hh & _)]; [done|]. by apply not_elem_of_nil in Hh. }
  specialize (IH (or_insert (h, name) loc seen)).
  destruct (note_pairs outer name loc _) as [seen' reports]. simpl in *.
  rewrite IH, or_insert_dom. setoid_rewrite elem_of_cons. naive_solver.
Qed.

(** A report is made for every held lock that is the same as the new one or was
    ever acquired under it, and only for those. *)
Lemma note_pairs_reports outer name loc seen r :
  r ∈ snd (note_pairs outer name loc seen) <->
  (name ∈ outer /\ r = reentrant_report name loc) \/
  exists h first, h ∈ outer /\ h <> name /\ seen !! (name, h) = Some first /\
                  r = inversion_report h name loc first.
Proof.
  revert seen. induction outer as [|h outer IH]; intros seen; simpl.
  { split; [intros Hr; by apply not_elem_of_nil in Hr|].
    intros [[Hn _]|(h & f & Hh & _)]; by apply not_elem_of_nil in Hn || by apply not_elem_of_nil in Hh. }
  specialize (IH (or_insert (h, name) loc seen)).
  destruct (note_pairs outer name loc _) as [seen' reports]. simpl in *.
  assert (Hother : forall k f, k <> name ->
            or_insert (h, name) loc seen !! (name, k) = Some f <-> seen !! (name, k) = Some f).
  { intros k f Hk. unfold or_insert. destruct (seen !! (h, name)); [done|].
    rewrite lookup_insert_ne; [done|]. intros [= -> ->]. done. }
  rewrite elem_of_app, IH. clear IH. setoid_rewrite elem_of_cons.
  destruct (decide (h = name)) as [->|Hne].
  - rewrite bool_decide_eq_true_2 by done. rewrite list_elem_of_singleton. split.
    + intros [->|[[? ->]|(k & f & Hk & Hkn & Hl & ->)]]; [naive_solver|naive_solver|].
      right. exists k, f. rewrite Hother in Hl by done. naive_solver.
    + intros [[_ ->]|(k & f & [->|Hk] & Hkn & Hl & ->)]; [by left|done|].
      right; right. exists k, f. rewrite Hother by done. done.
  - rewrite bool_decide_eq_false_2 by done. split.
    + intros [Hr|[[? ->]|(k & f & Hk & Hkn & Hl & ->)]].
      * destruct (or_insert (h, name) loc seen !! (name, h)) as [f|] eqn:Hl; [|by apply not_elem_of_nil in Hr].
        apply list_elem_of_singleton in Hr as ->. rewrite Hother in Hl by done.
        right. exists h, f. naive_solver.
      * naive_solver.
      * right. exists k, f. rewrite Hother in Hl by done. naive_solver.
    + intros [[[->|Hn] ->]|(k & f & [->|Hk] & Hkn & Hl & ->)]; [done|naive_solver| |].
      * left. rewrite (proj2 (Hother h f Hne) Hl). by apply list_elem_of_singleton.
      * right; right. exists k, f. rewrite Hother by done. done.
Qed.

(** ** Invariants of the tracker *)

Definition seen_in (a b : str) (tr : Tracker) : Prop := is_Some (observed tr !! (a, b)).

Record tracker_ok (tr : Tracker) : Prop := mkTrackerOk {
  (** a pair seen in both orders is reported *)
  ok_complete : forall a b, a <> b -> seen_in a b tr -> seen_in b a tr ->
    exists x y loc first, inversion_report x y loc first ∈ inversions tr /\
                          ((x = a /\ y = b) \/ (x = b /\ y = a));
  (** and so is a lock acquired under itself *)
  ok_reentrant : forall a, seen_in a a tr -> exists loc, reentrant_report a loc ∈ inversions tr;
  (** every report is one of the two *)
  ok_sound : forall r, r ∈ inversions tr ->
    (exists a loc, r = reentrant_report a loc /\ seen_in a a tr) \/
    (exists a b loc first, a <> b /\ r = inversion_report a b loc first /\
                           seen_in a b tr /\ seen_in b a tr)
}.

Lemma tracker_new_ok : tracker_ok tracker_new.
Proof.
  assert (Hn : forall a b, ~ seen_in a b tracker_new).
  { intros a b [x Hx]. unfold tracker_new in Hx. simpl in Hx. by rewrite lookup_empty in Hx. }
  split; [intros a b _ Ha; by apply Hn in Ha | intros a Ha; by apply Hn in Ha | set_solver].
Qed.

(** The state when an acquisition has noted its pairs. *)
Definition noted (outer : list str) (name loc : str) (tr : Tracker) : Tracker :=
  tr <| observed := fst (note_pairs outer name loc (observed tr)) |>
     <| inversions ::= fun s => s ∪ list_to_set (snd (note_pairs outer name loc (observed tr))) |>.

Lemma seen_in_noted outer name loc tr a b :
  seen_in a b (noted outer name loc tr) <-> seen_in a b tr \/ (a ∈ outer /\ b = name).
Proof.
  unfold seen_in, noted. simpl. rewrite note_pairs_dom. split.
  - intros [?|(h & Hh & [= -> ->])]; auto.
  - intros [?|[Ha ->]]; [by left|]. right. by exists a.
Qed.

Lemma inversions_noted outer name loc tr r :
  r ∈ inversions (noted outer name loc tr) <->
  r ∈ inversions tr \/ r ∈ snd (note_pairs outer name loc (observed tr)).
Proof. unfold noted. simpl. rewrite elem_of_union, elem_of_list_to_set. done. Qed.

Lemma noted_ok outer name loc tr : tracker_ok tr -> tracker_ok (noted outer name loc tr).
Proof.
  intros [Hc Hr Hs]. split.
  - intros a b Hab Ha Hb. apply seen_in_noted in Ha, Hb.
    assert (Hnew : forall h, h ∈ outer -> h <> name -> seen_in name h tr ->
      exists loc' first, inversion_report h name loc' first ∈ inversions (noted outer name loc tr)).
    { intros h Hh Hn [first Hf]. exists loc, first. apply inversions_noted. right.
      apply note_pairs_reports. right. by exists h, first. }
    destruct Ha as [Ha|[Ha ->]], Hb as [Hb|[Hb ->]]; [| | |done].
    + destruct (Hc a b Hab Ha Hb) as (x & y & l & f & Hin & Hxy).
      exists x, y, l, f. split; [apply inversions_noted; by left|done].
    + destruct (Hnew b Hb ltac:(done) Ha) as (l & f & Hin). exists b, name, l, f. auto.
    + destruct (Hnew a Ha Hab Hb) as (l & f & Hin). exists a, name, l, f. auto.
  - intros a Ha. apply seen_in_noted in Ha as [Ha|[Ha ->]].
    + destruct (Hr a Ha) as [l Hl]. exists l. apply inversions_noted. by left.
    + exists loc. apply inversions_noted. right. apply note_pairs_reports. by left.
  - intros r Hin. apply inversions_noted in Hin as [Hin|Hin].
    + destruct (Hs r Hin) as [(a & l & -> & Ha)|(a & b & l & f & Hab & -> & Ha & Hb)].
      * left. exists a, l. split; [done|]. apply seen_in_noted. by left.
      * right. exists a, b, l, f. split_and!; [done|done|apply seen_in_noted; by left..].
    + apply note_pairs_reports in Hin as [[Hn ->]|(h & f & Hh & Hne & Hf & ->)].
      * left. exists name, loc. split; [done|]. apply seen_in_noted. by right.
      * right. exists h, name, loc, f. split_and!; [done|done| |].
        -- apply seen_in_noted. by right.
        -- apply seen_in_noted. left. by exists f.
Qed.

Lemma noted_nil name loc tr : noted [] name loc tr = tr.
Proof.
  destruct tr as [h o s]. unfold noted.
  change (mkTracker h o (s ∪ list_to_set []) = mkTracker h o s). f_equal. set_solver.
Qed.

(** An acquisition notes its pairs and, unless it panics, pushes its lock. *)
Lemma enter_spec strict t name loc tr :
  let reports := snd (note_pairs (held_by t tr) name loc (observed tr)) in
  enter strict t name loc tr
  = if existsb is_real reports && strict
    then (noted (held_by t tr) name loc tr, true)
    else (push_held t name (noted (held_by t tr) name loc tr), false).
Proof.
  cbv zeta. unfold enter. destruct (held_by t tr) as [|h outer] eqn:Hh.
  - simpl. by rewrite noted_nil.
  - rewrite <- Hh. unfold noted.
    destruct (note_pairs (held_by t tr) name loc (observed tr)) as [seen reports]. done.
Qed.

Lemma push_held_ok t name tr : tracker_ok tr -> tracker_ok (push_held t name tr).
Proof. intros []. by constructor. Qed.

Lemma leave_ok t tr : tracker_ok tr -> tracker_ok (leave t tr).
Proof. intros []. by constructor. Qed.

Lemma enter_ok strict t name loc tr : tracker_ok tr -> tracker_ok (fst (enter strict t name loc tr)).
Proof.
  intros Htr. rewrite enter_spec. case_match; simpl; [by apply noted_ok|].
  by apply push_held_ok, noted_ok.
Qed.

Lemma run_ops_ok strict ops tr tr' :
  tracker_ok tr -> run_ops strict ops tr = Some tr' -> tracker_ok tr'.
Proof.
  revert tr. induction ops as [|[t name loc|t] ops IH]; intros tr Htr Hr; simpl in Hr.
  - by simplify_eq.
  - pose proof (enter_ok strict t name loc tr Htr) as He.
    destruct (enter strict t name loc tr) as [tr1 []]; [done|]. by eapply IH.
  - eapply IH; [|exact Hr]. by apply leave_ok.
Qed.

(** ** Strict mode *)

Lemma starts_with_app n q : starts_with (n ++ q) n = true.
Proof. induction n as [|c n IH]; simpl; [by destruct q|]. by rewrite N.eqb_refl, IH. Qed.

Lemma str_contains_middle p n q : str_contains (p ++ n ++ q) n = true.
Proof.
  unfold str_contains. enough (exists i, str_find (p ++ n ++ q) n = Some i) as [i ->] by done.
  induction p as [|c p [i IH]].
  - exists 0. cbn [app]. pose proof (starts_with_app n q) as Hs.
    destruct (n ++ q) as [|d l]; cbn [str_find]; by rewrite Hs.
  - cbn [app str_find]. destruct (starts_with _ n); [by exists 0|]. exists (S i). by rewrite IH.
Qed.

Lemma is_real_intro report name :
  name ∈ ALL -> str_contains report name = true -> is_real report = true.
Proof. intros Hn Hc. apply List.existsb_exists. exists name. split; [by apply list_elem_of_In|done]. Qed.

Lemma inversion_report_real a b loc first c :
  c ∈ ALL -> c = a \/ c = b -> is_real (inversion_report a b loc first) = true.
Proof.
  intros Hc [->| ->]; eapply is_real_intro; try exact Hc; unfold inversion_report.
  - apply (str_contains_middle []).
  - rewrite (app_assoc a). apply str_contains_middle.
Qed.

Lemma reentrant_report_real a loc : a ∈ ALL -> is_real (reentrant_report a loc) = true.
Proof. intros Ha. eapply is_real_intro; [done|]. apply str_contains_middle. Qed.

(** A strict run that does not panic has reported nothing about real locks. *)
Lemma strict_run_clean ops tr tr' :
  (forall r, r ∈ inversions tr -> is_real r = false) ->
  run_ops true ops tr = Some tr' -> forall r, r ∈ inversions tr' -> is_real r = false.
Proof.
  revert tr. induction ops as [|[t name loc|t] ops IH]; intros tr Htr Hr; simpl in Hr.
  - by simplify_eq.
  - rewrite enter_spec, andb_true_r in Hr.
    destruct (existsb is_real _) eqn:He; [done|]. eapply IH; [|exact Hr].
    intros r Hin. change (r ∈ inversions (noted (held_by t tr) name loc tr)) in Hin.
    apply inversions_noted in Hin as [Hin|Hin]; [by apply Htr|].
    destruct (is_real r) eqn:Hre; [|done]. rewrite <- He. symmetry.
    apply List.existsb_exists. exists r. split; [by apply list_elem_of_In|done].
  - eapply IH; [|exact Hr]. exact Htr.
Qed.

(** ** What is observed *)

(** [b] is acquired at some point of [ops] by a thread that is listed as holding [a]. *)
Definition acquired_under (strict : bool) (a b : str) (ops : list lock_op) (tr : Tracker) : Prop :=
  exists ops1 t loc ops2 tr1,
    ops = ops1 ++ Op_Enter t b loc :: ops2 /\ run_ops strict ops1 tr = Some tr1 /\
    a ∈ held_by t tr1.

Lemma acquired_under_cons strict a b op ops tr tr1 :
  run_ops strict [op] tr = Some tr1 ->
  acquired_under strict a b (op :: ops) tr <->
  (exists t loc, op = Op_Enter t b loc /\ a ∈ held_by t tr) \/ acquired_under strict a b ops tr1.
Proof.
  intros Hop. assert (Hcons : forall l, run_ops strict (op :: l) tr = run_ops strict l tr1).
  { intros l. destruct op as [t n loc|t]; simpl in Hop |- *; [|by simplify_eq].
    destruct (enter strict t n loc tr) as [tr2 []]; by simplify_eq. }
  split.
  - intros (ops1 & t & loc & ops2 & tr2 & Heq & Hr & Ha). destruct ops1 as [|op1 ops1].
    + simpl in *. simplify_eq. left. by exists t, loc.
    + simpl in Heq. simplify_eq. right. exists ops1, t, loc, ops2, tr2. by rewrite <- Hcons.
  - intros [(t & loc & -> & Ha)|(ops1 & t & loc & ops2 & tr2 & -> & Hr & Ha)].
    + exists [], t, loc, ops, tr. done.
    + exists (op :: ops1), t, loc, ops2, tr2. by rewrite Hcons.
Qed.

Lemma observed_iff strict ops tr tr' a b :
  run_ops strict ops tr = Some tr' ->
  seen_in a b tr' <-> seen_in a b tr \/ acquired_under strict a b ops tr.
Proof.
  revert tr. induction ops as [|op ops IH]; intros tr Hr.
  { simpl in Hr. simplify_eq. split; [by left|]. intros [?|(ops1 & ? & ? & ? & ? & Heq & _)]; [done|].
    by destruct ops1. }
  destruct (run_ops strict [op] tr) as [tr1|] eqn:H1.
  2: { destruct op as [t n loc|t]; simpl in Hr, H1; [|done].
       by destruct (enter strict t n loc tr) as [tr2 []]. }
  assert (Hr1 : run_ops strict ops tr1 = Some tr').
  { destruct op as [t n loc|t]; simpl in Hr, H1; [|by simplify_eq].
    destruct (enter strict t n loc tr) as [tr2 []]; by simplify_eq. }
  rewrite (IH _ Hr1), (acquired_under_cons _ _ _ _ _ _ _ H1).
  assert (Hs : seen_in a b tr1 <->
               seen_in a b tr \/ exists t loc, op = Op_Enter t b loc /\ a ∈ held_by t tr).
  { destruct op as [t n loc|t]; simpl in H1.
    - rewrite enter_spec in H1. destruct (_ && _); simplify_eq.
      transitivity (seen_in a b (noted (held_by t tr) n loc tr)); [done|]. rewrite seen_in_noted.
      split; [intros [?|[? ->]]; [by left|right; by exists t, loc]|].
      intros [?|(t' & loc' & [= -> -> ->] & ?)]; [by left|by right].
    - simplify_eq. transitivity (seen_in a b tr); [done|]. split; [by left|].
      intros [?|(t' & loc' & ? & _)]; done. }
  rewrite Hs. tauto.
Qed.

(** ** Properties *)

(** After any interleaving of acquisitions and releases by any number of
    threads, the tracker has a report if and only if some two locks were seen
    in both orders, or one lock under itself; every such pair has its own
    report and every report is about such a pair. *)
Theorem tracker_reports_exactly_inversions strict ops tr :
  run_ops strict ops tracker_new = Some tr ->
  tracker_ok tr /\
  (lock_order_inversions tr <> [] <-> exists a b, seen_in a b tr /\ seen_in b a tr).
Proof.
  intros Hr. assert (Hok : tracker_ok tr) by (eapply run_ops_ok; [apply tracker_new_ok|done]).
  split; [done|]. destruct Hok as [Hc Hre Hs]. unfold lock_order_inversions. split.
  - intros Hne. destruct (elements (inversions tr)) as [|r l] eqn:He; [done|].
    assert (Hin : r ∈ inversions tr) by (apply elem_of_elements; rewrite He; by left).
    destruct (Hs r Hin) as [(a & loc & -> & Ha)|(a & b & loc & f & _ & -> & Ha & Hb)]; eauto.
  - intros (a & b & Ha & Hb) He.
    assert (Hnone : forall r, r ∉ inversions tr).
    { intros r Hin. apply elem_of_elements in Hin. rewrite He in Hin. by apply not_elem_of_nil in Hin. }
    destruct (decide (a = b)) as [->|Hab].
    + destruct (Hre b Ha) as [loc Hl]. by apply Hnone in Hl.
    + destruct (Hc a b Hab Ha Hb) as (x & y & loc & f & Hin & _). by apply Hnone in Hin.
Qed.

(** The pairs the tracker lists are exactly those some thread produced: the
    second lock acquired while the first is in the thread's list. *)
Theorem observed_order_is_exact strict ops tr a b :
  run_ops strict ops tracker_new = Some tr ->
  (a, b) ∈ observed_lock_order tr <-> acquired_under strict a b ops tracker_new.
Proof.
  intros Hr. unfold observed_lock_order. rewrite list_elem_of_fmap.
  assert (Hs : seen_in a b tr <-> acquired_under strict a b ops tracker_new).
  { rewrite (observed_iff _ _ _ _ a b Hr). split; [|by right]. intros [Hn|?]; [|done].
    by destruct Hn as [x Hx]. }
  rewrite <- Hs. unfold seen_in. split.
  - intros ([p v] & [= <-] & Hin). apply elem_of_map_to_list in Hin. by exists v.
  - intros [v Hv]. exists ((a, b), v). split; [done|]. by apply elem_of_map_to_list.
Qed.

(** A strict run that ends without a panic has never taken one of the
    application's own locks in both orders with any other lock, nor under
    itself. *)
Theorem strict_run_has_no_real_inversion ops tr a b :
  run_ops true ops tracker_new = Some tr -> a ∈ ALL \/ b ∈ ALL ->
  ~ (seen_in a b tr /\ seen_in b a tr).
Proof.
  intros Hr Hall [Ha Hb].
  assert (Hok : tracker_ok tr) by (eapply run_ops_ok; [apply tracker_new_ok|done]).
  assert (Hclean : forall r, r ∈ inversions tr -> is_real r = false)
    by (eapply strict_run_clean; [|exact Hr]; set_solver).
  destruct (decide (a = b)) as [->|Hab].
  - destruct (ok_reentrant _ Hok b Ha) as [loc Hl]. apply Hclean in Hl.
    rewrite reentrant_report_real in Hl by tauto. done.
  - destruct (ok_complete _ Hok a b Hab Ha Hb) as (x & y & loc & f & Hin & Hxy).
    apply Hclean in Hin. destruct Hall as [Hall|Hall];
      (erewrite inversion_report_real in Hin; [done|exact Hall|]); naive_solver.
Qed.

(** Two threads, both orders of two locks. *)
Definition sample_ops : list lock_op :=
  [Op_Enter 0 (u "A") (u "x"); Op_Enter 0 (u "B") (u "x"); Op_Leave 0; Op_Leave 0;
   Op_Enter 1 (u "B") (u "y"); Op_Enter 1 (u "A") (u "y")].

Definition sample_tracker : Tracker := default tracker_new (run_ops false sample_ops tracker_new).

Lemma tracker_reports_exactly_inversions_witness :
  tracker_ok sample_tracker /\
  (lock_order_inversions sample_tracker <> [] <->
   exists a b, seen_in a b sample_tracker /\ seen_in b a sample_tracker).
Proof. apply (tracker_reports_exactly_inversions false sample_ops). vm_compute. reflexivity. Defined.

Lemma observed_order_is_exact_witness :
  (u "A", u "B") ∈ observed_lock_order sample_tracker <->
  acquired_under false (u "A") (u "B") sample_ops tracker_new.
Proof. apply (observed_order_is_exact false sample_ops). vm_compute. reflexivity. Defined.

Lemma strict_run_has_no_real_inversion_witness :
  let ops := [Op_Enter 0 (u "DB_CONNECTION") (u "x"); Op_Enter 0 (u "RUNTIME_STATE") (u "x")] in
  let tr := default tracker_new (run_ops true ops tracker_new) in
  ~ (seen_in (u "DB_CONNECTION") (u "RUNTIME_STATE") tr /\
     seen_in (u "RUNTIME_STATE") (u "DB_CONNECTION") tr).
Proof.
  intros ops tr. apply (strict_run_has_no_real_inversion ops).
  - vm_compute. reflexivity.
  - left. unfold ALL. set_solver.
Defined.

(** Three threads that take three locks in a cycle, each pair in one order only:
    a deadlock the tracker does not report. *)
Example cycle_of_three_is_not_reported :
  let ops :=
    [Op_Enter 0 (u "A") []; Op_Enter 0 (u "B") []; Op_Leave 0; Op_Leave 0;
     Op_Enter 1 (u "B") []; Op_Enter 1 (u "C") []; Op_Leave 1; Op_Leave 1;
     Op_Enter 2 (u "C") []; Op_Enter 2 (u "A") []] in
  let tr := default tracker_new (run_ops true ops tracker_new) in
  bool_decide (is_Some (observed tr !! (u "A", u "B"))
               /\ is_Some (observed tr !! (u "B", u "C"))
               /\ is_Some (observed tr !! (u "C", u "A"))) = true /\
  lock_order_inversions tr = [].
Proof. split; vm_compute; reflexivity. Qed.
