(* ===== verification/RetainedSession.v ===== *)
(** * [src/db/transaction.rs]: what a retained database session carries

    The state a query tab keeps about a physical session: how sure it is that a
    transaction is open, which session residue it may carry, which locks it may
    hold; how states are merged, settled by a server probe, summarised into
    capabilities, and what becomes of a session after an error.  The methods of
    the three state structs share names in the source; here they carry the
    prefixes [tx_], [residue_] and [lock_], and none for [RetainedSessionState].
    The statement analyser that produces effects and hints from SQL text is not
    part of this file. *)
From Stdlib Require Import Btauto.
From S2P Require Import Prelude.

(** ** Transaction state *)

Inductive TransactionSessionState :=
| TransactionSessionState_Clean | TransactionSessionState_MaybeDirty
| TransactionSessionState_BlockedDirty | TransactionSessionState_DecisionRequired
| TransactionSessionState_InvalidSession.

#[export] Instance TransactionSessionState_eq_dec : EqDecision TransactionSessionState.
Proof. solve_decision. Defined.

Definition conservative_rank (s : TransactionSessionState) : nat :=
  match s with
  | TransactionSessionState_Clean => 0
  | TransactionSessionState_MaybeDirty => 1
  | TransactionSessionState_BlockedDirty => 2
  | TransactionSessionState_DecisionRequired => 3
  | TransactionSessionState_InvalidSession => 4
  end.

Definition tx_conservative_merge (self other : TransactionSessionState)
    : TransactionSessionState :=
  if conservative_rank self <? conservative_rank other then other else self.

Definition tx_from_flags (may_have_uncommitted_work requires_decision : bool)
    : TransactionSessionState :=
  if requires_decision then TransactionSessionState_DecisionRequired
  else if may_have_uncommitted_work then TransactionSessionState_MaybeDirty
  else TransactionSessionState_Clean.

Definition tx_may_have_uncommitted_work (s : TransactionSessionState) : bool :=
  match s with
  | TransactionSessionState_MaybeDirty | TransactionSessionState_BlockedDirty
  | TransactionSessionState_DecisionRequired | TransactionSessionState_InvalidSession => true
  | _ => false
  end.

Definition tx_requires_transaction_decision (s : TransactionSessionState) : bool :=
  match s with
  | TransactionSessionState_BlockedDirty | TransactionSessionState_DecisionRequired => true
  | _ => false
  end.

Definition tx_requires_resolution (s : TransactionSessionState) : bool :=
  match s with TransactionSessionState_Clean => false | _ => true end.

Definition tx_blocks_execution (s : TransactionSessionState) : bool :=
  match s with
  | TransactionSessionState_BlockedDirty | TransactionSessionState_DecisionRequired
  | TransactionSessionState_InvalidSession => true
  | _ => false
  end.

Definition tx_allows_transaction_option_change (s : TransactionSessionState) : bool :=
  match s with TransactionSessionState_Clean => true | _ => false end.

Definition tx_label (s : TransactionSessionState) : string :=
  match s with
  | TransactionSessionState_Clean => "clean"
  | TransactionSessionState_MaybeDirty => "maybe dirty"
  | TransactionSessionState_BlockedDirty => "dirty session blocked"
  | TransactionSessionState_DecisionRequired => "decision required"
  | TransactionSessionState_InvalidSession => "invalid session"
  end.

(** ** Session residue *)

Record SessionResidueState := mkResidue {
  may_have_temporary_table : bool;
  may_have_prepared_statement : bool;
  may_have_user_variable : bool;
  may_have_session_setting : bool;
  may_have_statement_diagnostics : bool;
  may_have_next_transaction_mode_override : bool;
  may_have_transaction_mode_override : bool;
  may_have_unknown_session_state : bool
}.

#[export] Instance SessionResidueState_eta : Eta SessionResidueState := fun r =>
  mkResidue (may_have_temporary_table r) (may_have_prepared_statement r)
    (may_have_user_variable r) (may_have_session_setting r) (may_have_statement_diagnostics r)
    (may_have_next_transaction_mode_override r) (may_have_transaction_mode_override r)
    (may_have_unknown_session_state r).

#[export] Instance SessionResidueState_eq_dec : EqDecision SessionResidueState.
Proof. solve_decision. Defined.

Definition residue_default : SessionResidueState :=
  mkResidue false false false false false false false false.

(** What one statement does to the residue. *)
Record StatementSessionResidueEffects := mkResidueEffects {
  creates_temporary_table : bool;
  creates_prepared_statement : bool;
  sets_user_variable : bool;
  sets_session_setting : bool;
  sets_found_rows : bool;
  sets_statement_diagnostics : bool;
  clears_statement_diagnostics : bool;
  sets_next_transaction_mode_override : bool;
  sets_transaction_mode_override : bool;
  consumes_next_transaction_mode_override : bool;
  may_leave_unknown_state : bool;
  clears_all_session_residue : bool
}.

Definition may_leave_session_residue (e : StatementSessionResidueEffects) : bool :=
  creates_temporary_table e || creates_prepared_statement e || sets_user_variable e
  || sets_session_setting e || sets_statement_diagnostics e
  || sets_next_transaction_mode_override e || sets_transaction_mode_override e
  || may_leave_unknown_state e.

Definition residue_from_effects (e : StatementSessionResidueEffects) : SessionResidueState :=
  mkResidue (creates_temporary_table e) (creates_prepared_statement e) (sets_user_variable e)
    (sets_session_setting e) (sets_statement_diagnostics e)
    (sets_next_transaction_mode_override e) (sets_transaction_mode_override e)
    (may_leave_unknown_state e).

Definition residue_merged_with (self other : SessionResidueState) : SessionResidueState :=
  mkResidue
    (may_have_temporary_table self || may_have_temporary_table other)
    (may_have_prepared_statement self || may_have_prepared_statement other)
    (may_have_user_variable self || may_have_user_variable other)
    (may_have_session_setting self || may_have_session_setting other)
    (may_have_statement_diagnostics self || may_have_statement_diagnostics other)
    (may_have_next_transaction_mode_override self
       || may_have_next_transaction_mode_override other)
    (may_have_transaction_mode_override self || may_have_transaction_mode_override other)
    (may_have_unknown_session_state self || may_have_unknown_session_state other).

Definition residue_after_successful_effects (e : StatementSessionResidueEffects)
    (self : SessionResidueState) : SessionResidueState :=
  if clears_all_session_residue e then residue_default
  else
    let state := if clears_statement_diagnostics e
                 then self <| may_have_statement_diagnostics := false |> else self in
    let state := if consumes_next_transaction_mode_override e
                 then state <| may_have_next_transaction_mode_override := false |> else state in
    residue_merged_with state (residue_from_effects e).

Definition residue_may_have_untracked_session_state (r : SessionResidueState) : bool :=
  may_have_temporary_table r || may_have_prepared_statement r || may_have_user_variable r
  || may_have_session_setting r || may_have_statement_diagnostics r
  || may_have_unknown_session_state r.

Definition residue_may_have_transaction_mode_override (r : SessionResidueState) : bool :=
  may_have_next_transaction_mode_override r || may_have_transaction_mode_override r.

Definition residue_has_only_next_transaction_mode_override (r : SessionResidueState) : bool :=
  may_have_next_transaction_mode_override r && negb (may_have_transaction_mode_override r)
  && negb (residue_may_have_untracked_session_state r).

Definition residue_requires_resolution (r : SessionResidueState) : bool :=
  residue_may_have_untracked_session_state r.

Definition residue_with_untracked_session_state (r : SessionResidueState) : SessionResidueState :=
  r <| may_have_unknown_session_state := true |>.

Definition residue_requires_physical_session_preservation (r : SessionResidueState) : bool :=
  residue_requires_resolution r || may_have_next_transaction_mode_override r
  || may_have_transaction_mode_override r.

Definition residue_with_transaction_mode_override_cleared (r : SessionResidueState)
    : SessionResidueState :=
  r <| may_have_next_transaction_mode_override := false |>
    <| may_have_transaction_mode_override := false |>.

Definition residue_with_session_transaction_mode_override_adopted (r : SessionResidueState)
    : SessionResidueState := r <| may_have_transaction_mode_override := false |>.

(** ** Session locks *)

Record SessionLockState := mkLocks {
  may_hold_table_lock : bool;
  may_hold_flush_table_lock : bool;
  may_hold_backup_lock : bool;
  may_hold_named_lock : bool
}.

#[export] Instance SessionLockState_eq_dec : EqDecision SessionLockState.
Proof. solve_decision. Defined.

Definition locks_default : SessionLockState := mkLocks false false false false.

Definition lock_may_hold_session_lock (l : SessionLockState) : bool :=
  may_hold_table_lock l || may_hold_flush_table_lock l || may_hold_backup_lock l
  || may_hold_named_lock l.

Definition lock_may_hold_table_lock (l : SessionLockState) : bool :=
  may_hold_table_lock l || may_hold_flush_table_lock l.

Definition lock_requires_resolution (l : SessionLockState) : bool := lock_may_hold_session_lock l.

Definition lock_merged_with (self other : SessionLockState) : SessionLockState :=
  mkLocks (may_hold_table_lock self || may_hold_table_lock other)
    (may_hold_flush_table_lock self || may_hold_flush_table_lock other)
    (may_hold_backup_lock self || may_hold_backup_lock other)
    (may_hold_named_lock self || may_hold_named_lock other).

(** ** The retained state *)

Record RetainedSessionState := mkRetained {
  transaction_state : TransactionSessionState;
  session_residue_state : SessionResidueState;
  lock_state : SessionLockState
}.

#[export] Instance RetainedSessionState_eta : Eta RetainedSessionState := fun s =>
  mkRetained (transaction_state s) (session_residue_state s) (lock_state s).

#[export] Instance RetainedSessionState_eq_dec : EqDecision RetainedSessionState.
Proof. solve_decision. Defined.

Definition RetainedSessionState_default : RetainedSessionState :=
  mkRetained TransactionSessionState_Clean residue_default locks_default.

Definition from_transaction_state (t : TransactionSessionState) : RetainedSessionState :=
  RetainedSessionState_default <| transaction_state := t |>.

Definition from_transaction_flags (may_have_uncommitted_work requires_decision : bool)
    : RetainedSessionState :=
  from_transaction_state (tx_from_flags may_have_uncommitted_work requires_decision).

Definition with_transaction_state (t : TransactionSessionState) (s : RetainedSessionState)
    : RetainedSessionState := s <| transaction_state := t |>.

Definition may_have_uncommitted_work (s : RetainedSessionState) : bool :=
  tx_may_have_uncommitted_work (transaction_state s).

Definition may_have_untracked_session_state (s : RetainedSessionState) : bool :=
  residue_may_have_untracked_session_state (session_residue_state s).

Definition may_hold_session_lock (s : RetainedSessionState) : bool :=
  lock_may_hold_session_lock (lock_state s).

Definition requires_transaction_decision (s : RetainedSessionState) : bool :=
  tx_requires_transaction_decision (transaction_state s).

Definition requires_resolution (s : RetainedSessionState) : bool :=
  tx_requires_resolution (transaction_state s)
  || residue_requires_resolution (session_residue_state s)
  || lock_requires_resolution (lock_state s).

Definition has_session_residue_or_lock (s : RetainedSessionState) : bool :=
  may_have_untracked_session_state s || may_hold_session_lock s.

Definition state_may_have_transaction_mode_override (s : RetainedSessionState) : bool :=
  residue_may_have_transaction_mode_override (session_residue_state s).

Definition state_may_have_unknown_session_state (s : RetainedSessionState) : bool :=
  may_have_unknown_session_state (session_residue_state s).

Definition allows_transaction_mode_replacement (s : RetainedSessionState) : bool :=
  tx_allows_transaction_option_change (transaction_state s) && negb (may_hold_session_lock s)
  && negb (state_may_have_unknown_session_state s).

Definition has_only_next_transaction_mode_override (s : RetainedSessionState) : bool :=
  (transaction_state s == TransactionSessionState_Clean)
  && residue_has_only_next_transaction_mode_override (session_residue_state s)
  && negb (lock_may_hold_session_lock (lock_state s)).

Definition with_untracked_session_state (s : RetainedSessionState) : RetainedSessionState :=
  s <| session_residue_state ::= residue_with_untracked_session_state |>.

Definition requires_physical_session_preservation (s : RetainedSessionState) : bool :=
  requires_resolution s
  || residue_requires_physical_session_preservation (session_residue_state s).

Definition with_transaction_mode_override_cleared (s : RetainedSessionState)
    : RetainedSessionState :=
  s <| session_residue_state ::= residue_with_transaction_mode_override_cleared |>.

Definition with_session_transaction_mode_override_adopted (s : RetainedSessionState)
    : RetainedSessionState :=
  s <| session_residue_state ::= residue_with_session_transaction_mode_override_adopted |>.

(** ** Server probes *)

Record TransactionClaim := mkClaim {
  is_a_guess : bool;
  may_be_invisible_to_a_write_probe : bool
}.

Inductive ServerTransactionAnswer :=
| ServerTransactionAnswer_Unanswered | ServerTransactionAnswer_TransactionOpen
| ServerTransactionAnswer_NoTransaction | ServerTransactionAnswer_NoWriteTransaction.

Definition from_oracle_probe (transaction_open : bool) : ServerTransactionAnswer :=
  if transaction_open then ServerTransactionAnswer_TransactionOpen
  else ServerTransactionAnswer_NoWriteTransaction.

Definition proves_no_transaction_for (claim : TransactionClaim) (a : ServerTransactionAnswer)
    : bool :=
  match a with
  | ServerTransactionAnswer_Unanswered | ServerTransactionAnswer_TransactionOpen => false
  | ServerTransactionAnswer_NoTransaction => true
  | ServerTransactionAnswer_NoWriteTransaction => negb (may_be_invisible_to_a_write_probe claim)
  end.

Definition with_transaction_claim_settled_by_server (claim : TransactionClaim)
    (answer : ServerTransactionAnswer) (s : RetainedSessionState) : RetainedSessionState :=
  if negb (is_a_guess claim) || negb (proves_no_transaction_for claim answer) then s
  else if transaction_state s != TransactionSessionState_MaybeDirty then s
  else s <| transaction_state := TransactionSessionState_Clean |>.

(** ** Merging and summaries *)

Definition conservative_merge (self other : RetainedSessionState) : RetainedSessionState :=
  mkRetained (tx_conservative_merge (transaction_state self) (transaction_state other))
    (residue_merged_with (session_residue_state self) (session_residue_state other))
    (lock_merged_with (lock_state self) (lock_state other)).

Record RetainedSessionCapabilities := mkCapabilities {
  can_commit_or_rollback : bool;
  can_discard_physical : bool;
  discard_after_transaction_resolution : bool;
  can_change_transaction_options : bool;
  cap_blocks_execution : bool
}.

Definition capabilities (s : RetainedSessionState) : RetainedSessionCapabilities :=
  let can_commit_or_rollback :=
    match transaction_state s with
    | TransactionSessionState_MaybeDirty | TransactionSessionState_BlockedDirty
    | TransactionSessionState_DecisionRequired => true
    | _ => false
    end in
  mkCapabilities can_commit_or_rollback true
    (has_session_residue_or_lock s || state_may_have_transaction_mode_override s)
    (tx_allows_transaction_option_change (transaction_state s)
     && negb (may_hold_session_lock s)
     && negb (state_may_have_transaction_mode_override s)
     && negb (state_may_have_unknown_session_state s))
    (tx_blocks_execution (transaction_state s) || may_hold_session_lock s
     || state_may_have_transaction_mode_override s).

Definition blocks_execution (s : RetainedSessionState) : bool :=
  cap_blocks_execution (capabilities s).

Definition allows_transaction_option_change (s : RetainedSessionState) : bool :=
  can_change_transaction_options (capabilities s).

Definition transaction_resolution_action_allowed (s : RetainedSessionState) : bool :=
  can_commit_or_rollback (capabilities s).

Definition summary_transaction_state (s : RetainedSessionState) : TransactionSessionState :=
  if tx_requires_resolution (transaction_state s) then transaction_state s
  else if may_hold_session_lock s || may_have_untracked_session_state s
          || state_may_have_transaction_mode_override s
  then TransactionSessionState_MaybeDirty
  else TransactionSessionState_Clean.

Definition label (s : RetainedSessionState) : string :=
  if tx_requires_resolution (transaction_state s) then tx_label (transaction_state s)
  else if may_hold_session_lock s then "session lock"
  else if may_have_untracked_session_state s then "session state"
  else if state_may_have_transaction_mode_override s then "transaction mode"
  else tx_label (transaction_state s).

Definition blocked_option_change_remedy (s : RetainedSessionState) : string :=
  if transaction_resolution_action_allowed s then "Commit, rollback, or discard it first."
  else "A commit or rollback cannot clear it; discard the session (closing the tab does) first.".

(** ** Actions and outcomes *)

Inductive RetainedSessionResolutionAction :=
| RetainedSessionResolutionAction_Commit | RetainedSessionResolutionAction_Rollback
| RetainedSessionResolutionAction_DiscardPhysical.

Definition retained_session_resolution_action_allowed (s : RetainedSessionState)
    (action : RetainedSessionResolutionAction) : bool :=
  match action with
  | RetainedSessionResolutionAction_Commit | RetainedSessionResolutionAction_Rollback =>
      can_commit_or_rollback (capabilities s)
  | RetainedSessionResolutionAction_DiscardPhysical => can_discard_physical (capabilities s)
  end.

Definition retained_session_transaction_action_allowed (s : RetainedSessionState)
    (action : RetainedSessionResolutionAction) : bool :=
  match action with
  | RetainedSessionResolutionAction_Commit | RetainedSessionResolutionAction_Rollback =>
      transaction_state s != TransactionSessionState_InvalidSession
  | RetainedSessionResolutionAction_DiscardPhysical => can_discard_physical (capabilities s)
  end.

Definition retained_session_transaction_resolution_should_discard_after_success
    (s : RetainedSessionState) : bool := discard_after_transaction_resolution (capabilities s).

Inductive RetainedSessionOutcome :=
| RetainedSessionOutcome_Retain (s : RetainedSessionState)
| RetainedSessionOutcome_DiscardPhysical (s : RetainedSessionState).

Inductive RetainedSessionErrorPolicy :=
| RetainedSessionErrorPolicy_RestoreIfReusableAndRequiresResolution
| RetainedSessionErrorPolicy_DiscardPhysical.

Definition retained_session_should_restore_after_reusable_error (prior_state : RetainedSessionState)
    (error_allows_session_reuse : bool) : bool :=
  (transaction_state prior_state != TransactionSessionState_InvalidSession)
  && requires_physical_session_preservation prior_state && error_allows_session_reuse.

Definition retained_session_error_outcome (prior_state : RetainedSessionState)
    (error_allows_session_reuse : bool) (policy : RetainedSessionErrorPolicy)
    : RetainedSessionOutcome :=
  match policy with
  | RetainedSessionErrorPolicy_RestoreIfReusableAndRequiresResolution =>
      if retained_session_should_restore_after_reusable_error prior_state
           error_allows_session_reuse
      then RetainedSessionOutcome_Retain prior_state
      else RetainedSessionOutcome_DiscardPhysical prior_state
  | RetainedSessionErrorPolicy_DiscardPhysical =>
      RetainedSessionOutcome_DiscardPhysical prior_state
  end.

Definition retained_session_outcome_after_session_info_sync (retained_state : RetainedSessionState)
    (session_info_synced : bool) : RetainedSessionOutcome :=
  if session_info_synced then RetainedSessionOutcome_Retain retained_state
  else RetainedSessionOutcome_DiscardPhysical retained_state.

Inductive AppOperationTransactionScope :=
| AppOperationTransactionScope_OwnTransaction
| AppOperationTransactionScope_NestedInCallersTransaction.

Definition commits_its_own_work (s : AppOperationTransactionScope) : bool :=
  match s with AppOperationTransactionScope_OwnTransaction => true | _ => false end.

Definition app_operation_transaction_scope (auto_commit : bool)
    (prior_state : RetainedSessionState) : AppOperationTransactionScope :=
  if auto_commit && negb (may_have_uncommitted_work prior_state)
  then AppOperationTransactionScope_OwnTransaction
  else AppOperationTransactionScope_NestedInCallersTransaction.

(** ** Statement hints *)

Record TransactionStatementStateHint := mkHint {
  clears_session_state : bool;
  may_leave_session_bound_state : bool;
  may_leave_untracked_session_state : bool;
  hint_may_hold_session_lock : bool;
  requires_retention_when_autocommit_off : bool;
  requires_transaction_decision_after_success : bool;
  changes_auto_commit : bool
}.

Definition statement_cancel_can_reuse_session (h : TransactionStatementStateHint) : bool :=
  negb (clears_session_state h) && negb (may_leave_session_bound_state h)
  && negb (may_leave_untracked_session_state h) && negb (hint_may_hold_session_lock h)
  && negb (requires_retention_when_autocommit_off h)
  && negb (requires_transaction_decision_after_success h) && negb (changes_auto_commit h).

(** ** The caution order

    [a ⊑ b] when [b] claims at least everything [a] claims: a transaction state
    at least as severe, and every residue and lock flag of [a].  The source has
    no such order; it is what its merges are meant to be joins of. *)

Definition implies (a b : bool) : Prop := a = true -> b = true.

#[export] Instance tx_sqsubseteq : SqSubsetEq TransactionSessionState := fun a b =>
  conservative_rank a <= conservative_rank b.

#[export] Instance residue_sqsubseteq : SqSubsetEq SessionResidueState := fun a b =>
  implies (may_have_temporary_table a) (may_have_temporary_table b) /\
  implies (may_have_prepared_statement a) (may_have_prepared_statement b) /\
  implies (may_have_user_variable a) (may_have_user_variable b) /\
  implies (may_have_session_setting a) (may_have_session_setting b) /\
  implies (may_have_statement_diagnostics a) (may_have_statement_diagnostics b) /\
  implies (may_have_next_transaction_mode_override a)
    (may_have_next_transaction_mode_override b) /\
  implies (may_have_transaction_mode_override a) (may_have_transaction_mode_override b) /\
  implies (may_have_unknown_session_state a) (may_have_unknown_session_state b).

#[export] Instance lock_sqsubseteq : SqSubsetEq SessionLockState := fun a b =>
  implies (may_hold_table_lock a) (may_hold_table_lock b) /\
  implies (may_hold_flush_table_lock a) (may_hold_flush_table_lock b) /\
  implies (may_hold_backup_lock a) (may_hold_backup_lock b) /\
  implies (may_hold_named_lock a) (may_hold_named_lock b).

#[export] Instance state_sqsubseteq : SqSubsetEq RetainedSessionState := fun a b =>
  transaction_state a ⊑ transaction_state b /\
  session_residue_state a ⊑ session_residue_state b /\
  lock_state a ⊑ lock_state b.

#[export] Instance tx_join : Join TransactionSessionState := tx_conservative_merge.
#[export] Instance residue_join : Join SessionResidueState := residue_merged_with.
#[export] Instance lock_join : Join SessionLockState := lock_merged_with.
#[export] Instance state_join : Join RetainedSessionState := conservative_merge.

Lemma implies_or (a b c : bool) : implies (a || b) c <-> implies a c /\ implies b c.
Proof. unfold implies; destruct a, b; naive_solver. Qed.

Lemma implies_antisym (a b : bool) : implies a b -> implies b a -> a = b.
Proof. unfold implies; destruct a, b; naive_solver. Qed.

Lemma rank_inj (a b : TransactionSessionState) :
  conservative_rank a = conservative_rank b -> a = b.
Proof. by destruct a, b. Qed.

(** What the development asks of a merge: it is the join of a partial order. *)
Class ConservativeJoin (A : Type) `{SqSubsetEq A, Join A} := {
  caution_partial_order :: PartialOrder (⊑@{A});
  caution_lub (a b c : A) : a ⊔ b ⊑ c <-> a ⊑ c /\ b ⊑ c
}.

Lemma conservative_join_intro (A : Type) `{SqSubsetEq A, Join A} :
  (forall a : A, a ⊑ a) ->
  (forall a b c : A, a ⊑ b -> b ⊑ c -> a ⊑ c) ->
  (forall a b : A, a ⊑ b -> b ⊑ a -> a = b) ->
  (forall a b c : A, a ⊔ b ⊑ c <-> a ⊑ c /\ b ⊑ c) -> ConservativeJoin A.
Proof.
  intros Hr Ht Ha Hl. split; [|exact Hl].
  split; [split; [exact Hr|exact Ht]|intros a b; apply Ha].
Qed.

#[export] Instance tx_conservative : ConservativeJoin TransactionSessionState.
Proof.
  apply conservative_join_intro; unfold sqsubseteq, tx_sqsubseteq; [lia|lia| |].
  - intros. apply rank_inj. lia.
  - intros a b c. unfold join, tx_join, tx_conservative_merge.
    destruct (Nat.ltb_spec (conservative_rank a) (conservative_rank b)); lia.
Qed.

#[export] Instance residue_conservative : ConservativeJoin SessionResidueState.
Proof.
  apply conservative_join_intro; unfold sqsubseteq, residue_sqsubseteq.
  - unfold implies; tauto.
  - unfold implies; tauto.
  - intros [] []; cbn; intros; destruct_and?; f_equal; by apply implies_antisym.
  - intros. cbn. rewrite !implies_or. tauto.
Qed.

#[export] Instance lock_conservative : ConservativeJoin SessionLockState.
Proof.
  apply conservative_join_intro; unfold sqsubseteq, lock_sqsubseteq.
  - unfold implies; tauto.
  - unfold implies; tauto.
  - intros [] []; cbn; intros; destruct_and?; f_equal; by apply implies_antisym.
  - intros. cbn. rewrite !implies_or. tauto.
Qed.

#[export] Instance state_conservative : ConservativeJoin RetainedSessionState.
Proof.
  apply conservative_join_intro; unfold sqsubseteq at 1, state_sqsubseteq at 1.
  - done.
  - intros a b c (?&?&?) (?&?&?). split_and!; by etrans.
  - intros [] [] (?&?&?) (?&?&?). cbn in *. f_equal; by apply (anti_symm (⊑)).
  - intros a b c.
    transitivity ((transaction_state a ⊔ transaction_state b ⊑ transaction_state c) /\
      (session_residue_state a ⊔ session_residue_state b ⊑ session_residue_state c) /\
      (lock_state a ⊔ lock_state b ⊑ lock_state c)); [done|].
    rewrite !caution_lub. unfold sqsubseteq at 7 8, state_sqsubseteq. tauto.
Qed.

Section JoinFacts.
Context {A : Type} `{ConservativeJoin A}.
Implicit Types a b c : A.

Lemma join_ub a b : a ⊑ a ⊔ b /\ b ⊑ a ⊔ b.
Proof. by apply caution_lub. Qed.

Lemma join_comm a b : a ⊔ b = b ⊔ a.
Proof. apply (anti_symm (⊑)); apply caution_lub; split; apply join_ub. Qed.

Lemma join_idem a : a ⊔ a = a.
Proof. apply (anti_symm (⊑)); [by apply caution_lub|apply join_ub]. Qed.

Lemma join_assoc a b c : a ⊔ (b ⊔ c) = (a ⊔ b) ⊔ c.
Proof.
  pose proof (join_ub a b) as [??]. pose proof (join_ub b c) as [??].
  pose proof (join_ub a (b ⊔ c)) as [??]. pose proof (join_ub (a ⊔ b) c) as [??].
  apply (anti_symm (⊑)); repeat (apply caution_lub; split); try done.
  1, 2: by transitivity (a ⊔ b).
  1, 2: by transitivity (b ⊔ c).
Qed.

Lemma join_absorbs a b : a ⊑ b <-> a ⊔ b = b.
Proof.
  split; [|by intros <-; apply join_ub].
  intros ?. apply (anti_symm (⊑)); [by apply caution_lub|apply join_ub].
Qed.
End JoinFacts.

(** Predicates that hold of a merge exactly when they hold of one of its parts. *)
Definition join_hom {A} `{Join A} (p : A -> bool) : Prop :=
  forall a b : A, p (a ⊔ b) = p a || p b.

Ltac solve_or_hom :=
  intros [] []; cbn; apply eq_true_iff_eq; rewrite ?orb_true_iff; tauto.

Lemma tx_uncommitted_hom : join_hom tx_may_have_uncommitted_work.
Proof. by intros [] []. Qed.

Lemma tx_resolution_hom : join_hom tx_requires_resolution.
Proof. by intros [] []. Qed.

Lemma tx_blocks_hom : join_hom tx_blocks_execution.
Proof. by intros [] []. Qed.

Lemma residue_untracked_hom : join_hom residue_may_have_untracked_session_state.
Proof. unfold residue_may_have_untracked_session_state. solve_or_hom. Qed.

Lemma residue_override_hom : join_hom residue_may_have_transaction_mode_override.
Proof. unfold residue_may_have_transaction_mode_override. solve_or_hom. Qed.

Lemma residue_unknown_hom : join_hom may_have_unknown_session_state.
Proof. by intros [] []. Qed.

Lemma lock_hold_hom : join_hom lock_may_hold_session_lock.
Proof. unfold lock_may_hold_session_lock. solve_or_hom. Qed.

Lemma tx_allows_is_negb (t : TransactionSessionState) :
  tx_allows_transaction_option_change t = negb (tx_requires_resolution t).
Proof. by destruct t. Qed.

Lemma residue_preservation_views (r : SessionResidueState) :
  residue_requires_physical_session_preservation r
  = residue_may_have_untracked_session_state r || residue_may_have_transaction_mode_override r.
Proof. unfold residue_requires_physical_session_preservation. symmetry. apply orb_assoc. Qed.

(** The state-level predicates, opened up to the component ones. *)
Ltac open_state :=
  unfold requires_physical_session_preservation, requires_resolution, blocks_execution,
    allows_transaction_option_change, capabilities in *;
  cbn [cap_blocks_execution can_change_transaction_options] in *;
  unfold has_session_residue_or_lock, may_have_uncommitted_work,
    allows_transaction_mode_replacement, may_hold_session_lock,
    may_have_untracked_session_state, state_may_have_transaction_mode_override,
    state_may_have_unknown_session_state, residue_requires_resolution,
    lock_requires_resolution in *;
  rewrite ?residue_preservation_views, ?tx_allows_is_negb in *.

(** The parts of a merged state, to rewrite with. *)
Lemma merge_parts (a b : RetainedSessionState) :
  transaction_state (conservative_merge a b) = transaction_state a ⊔ transaction_state b /\
  session_residue_state (conservative_merge a b)
    = session_residue_state a ⊔ session_residue_state b /\
  lock_state (conservative_merge a b) = lock_state a ⊔ lock_state b.
Proof. done. Qed.

Ltac open_merge a b :=
  let Ht := fresh in let Hr := fresh in let Hl := fresh in
  destruct (merge_parts a b) as (Ht & Hr & Hl); open_state;
  rewrite ?Ht, ?Hr, ?Hl, ?tx_resolution_hom, ?tx_blocks_hom,
    ?residue_untracked_hom, ?residue_override_hom, ?residue_unknown_hom, ?lock_hold_hom;
  btauto.

Lemma uncommitted_hom : join_hom may_have_uncommitted_work.
Proof. intros a b. apply tx_uncommitted_hom. Qed.

Lemma resolution_hom : join_hom requires_resolution.
Proof. intros a b. unfold join, state_join. open_merge a b. Qed.

Lemma blocks_hom : join_hom blocks_execution.
Proof. intros a b. unfold join, state_join. open_merge a b. Qed.

Lemma preservation_hom : join_hom requires_physical_session_preservation.
Proof. intros a b. unfold join, state_join. open_merge a b. Qed.

Lemma option_change_meet (a b : RetainedSessionState) :
  allows_transaction_option_change (conservative_merge a b)
  = allows_transaction_option_change a && allows_transaction_option_change b.
Proof. open_merge a b. Qed.

Lemma mode_replacement_meet (a b : RetainedSessionState) :
  allows_transaction_mode_replacement (conservative_merge a b)
  = allows_transaction_mode_replacement a && allows_transaction_mode_replacement b.
Proof. open_merge a b. Qed.

(** ** Residue over a run of statements

    The residue flags by name, with the effects that set and clear each, and the
    state after a run of successful statements. *)

Inductive ResidueFlag :=
| TemporaryTable | PreparedStatement | UserVariable | SessionSetting | StatementDiagnostics
| NextTransactionModeOverride | TransactionModeOverride | UnknownSessionState.

Definition residue_flag (f : ResidueFlag) (r : SessionResidueState) : bool :=
  match f with
  | TemporaryTable => may_have_temporary_table r
  | PreparedStatement => may_have_prepared_statement r
  | UserVariable => may_have_user_variable r
  | SessionSetting => may_have_session_setting r
  | StatementDiagnostics => may_have_statement_diagnostics r
  | NextTransactionModeOverride => may_have_next_transaction_mode_override r
  | TransactionModeOverride => may_have_transaction_mode_override r
  | UnknownSessionState => may_have_unknown_session_state r
  end.

Definition effect_sets (f : ResidueFlag) (e : StatementSessionResidueEffects) : bool :=
  negb (clears_all_session_residue e) && residue_flag f (residue_from_effects e).

Definition effect_clears (f : ResidueFlag) (e : StatementSessionResidueEffects) : bool :=
  clears_all_session_residue e
  || match f with
     | StatementDiagnostics => clears_statement_diagnostics e
     | NextTransactionModeOverride => consumes_next_transaction_mode_override e
     | _ => false
     end.

Definition residue_after_run (r : SessionResidueState)
    (run : list StatementSessionResidueEffects) : SessionResidueState :=
  fold_left (fun r e => residue_after_successful_effects e r) run r.

Lemma residue_step (f : ResidueFlag) (e : StatementSessionResidueEffects)
    (r : SessionResidueState) :
  residue_flag f (residue_after_successful_effects e r)
  = effect_sets f e || (residue_flag f r && negb (effect_clears f e)).
Proof.
  unfold residue_after_successful_effects, effect_sets, effect_clears.
  destruct (clears_all_session_residue e); [destruct f; cbn; btauto|].
  destruct (clears_statement_diagnostics e), (consumes_next_transaction_mode_override e), f;
    cbn; btauto.
Qed.

(** The last statement of a run that touches the flag, if any, decides it. *)
Definition survives (f : ResidueFlag) (run : list StatementSessionResidueEffects) : Prop :=
  Forall (fun e => effect_clears f e = false) run.

(** After any run of successful statements a residue flag is set exactly
    when it was set before and no statement cleared it, or some statement set it
    and no later one cleared it (a reset clears every flag, and only the
    diagnostics and the one-shot transaction mode have statements that clear them
    alone).  Statements are applied in order by [after_successful_effects]. *)
Theorem residue_run_flag (f : ResidueFlag) (run : list StatementSessionResidueEffects)
    (r : SessionResidueState) :
  residue_flag f (residue_after_run r run) = true <->
  (residue_flag f r = true /\ survives f run) \/
  (exists before e after, run = before ++ e :: after /\ effect_sets f e = true
     /\ survives f after).
Proof.
  revert r; induction run as [|e run IH]; intros r; cbn.
  { split; [by left; split; [|constructor]|].
    intros [[]|(? & ? & ? & []%app_cons_not_nil & _)]; done. }
  unfold residue_after_run in IH. rewrite IH, residue_step, orb_true_iff, andb_true_iff,
    negb_true_iff. unfold survives. rewrite Forall_cons. split.
  - intros [[[Hs|[??]] ?]|(b & e' & a & -> & ? & ?)].
    + right. by exists [], e, run.
    + by left.
    + right. by exists (e :: b), e', a.
  - intros [(?&?&?)|([|e0 b] & e' & a & [= -> ->] & ? & ?)]; [by left; tauto|tauto|].
    right. by exists b, e', a.
Qed.

(** ** The summary state *)

Lemma preservation_is_summary (s : RetainedSessionState) :
  requires_physical_session_preservation s = true <->
  summary_transaction_state s <> TransactionSessionState_Clean.
Proof.
  unfold summary_transaction_state. open_state.
  destruct s as [[] r l]; cbn; try (split; done).
  destruct (lock_may_hold_session_lock l), (residue_may_have_untracked_session_state r),
    (residue_may_have_transaction_mode_override r); naive_solver.
Qed.

Lemma untracked_covers_unknown (r : SessionResidueState) :
  residue_may_have_untracked_session_state r = false ->
  may_have_unknown_session_state r = false.
Proof. by intros [_ ?]%orb_false_iff. Qed.

Lemma clean_summary_is_free (s : RetainedSessionState) :
  summary_transaction_state s = TransactionSessionState_Clean ->
  blocks_execution s = false /\ allows_transaction_option_change s = true /\
  retained_session_transaction_resolution_should_discard_after_success s = false.
Proof.
  unfold summary_transaction_state,
    retained_session_transaction_resolution_should_discard_after_success. open_state. cbn.
  destruct s as [[] r l]; cbn; open_state; cbn; try done.
  destruct (lock_may_hold_session_lock l), (residue_may_have_untracked_session_state r) eqn:E,
    (residue_may_have_transaction_mode_override r); cbn; try done.
  by rewrite (untracked_covers_unknown r E).
Qed.

Lemma option_change_is_free (s : RetainedSessionState) :
  allows_transaction_option_change s = true ->
  blocks_execution s = false /\ transaction_resolution_action_allowed s = false /\
  allows_transaction_mode_replacement s = true.
Proof.
  intros H. open_state. apply andb_prop in H as [[[?%negb_true_iff ?%negb_true_iff]%andb_prop
    ?%negb_true_iff]%andb_prop ?%negb_true_iff].
  unfold transaction_resolution_action_allowed, capabilities; cbn.
  destruct s as [[] r l]; cbn in *; try done. open_state. cbn in *.
  by rewrite H0, H1, H2.
Qed.

(** ** Properties of the retained state *)

(** [conservative_merge] is the join of the caution order: the merge of two
    states is below a state exactly when both are, so it is commutative,
    associative and idempotent, keeps the other state when one is clean, and
    never claims less than either side.  Merging observations in any order and
    any grouping gives the same retained state. *)
Theorem conservative_merge_is_join (a b c : RetainedSessionState) :
  (conservative_merge a b ⊑ c <-> a ⊑ c /\ b ⊑ c) /\
  conservative_merge a b = conservative_merge b a /\
  conservative_merge a (conservative_merge b c) = conservative_merge (conservative_merge a b) c /\
  conservative_merge a a = a /\
  (a ⊑ b <-> conservative_merge a b = b) /\
  conservative_merge RetainedSessionState_default a = a.
Proof.
  split_and!.
  - apply caution_lub.
  - apply (join_comm a b).
  - apply (join_assoc a b c).
  - apply (join_idem a).
  - apply (join_absorbs a b).
  - apply join_absorbs. split_and!; [apply Nat.le_0_l| |]; by repeat split.
Qed.

(** A merge owes exactly what its parts owe: it carries uncommitted work,
    requires resolution, blocks execution or must preserve its physical session
    exactly when one of the parts does, and it allows a transaction-option
    change or a transaction-mode replacement exactly when both parts do.  The
    offer to commit or roll back is the one thing a merge can take away: it
    stands exactly when a part offers it and neither part is an invalid
    session. *)
Theorem merge_owes_what_its_parts_owe (a b : RetainedSessionState) :
  let m := conservative_merge a b in
  may_have_uncommitted_work m = may_have_uncommitted_work a || may_have_uncommitted_work b /\
  requires_resolution m = requires_resolution a || requires_resolution b /\
  blocks_execution m = blocks_execution a || blocks_execution b /\
  requires_physical_session_preservation m
    = requires_physical_session_preservation a || requires_physical_session_preservation b /\
  allows_transaction_option_change m
    = allows_transaction_option_change a && allows_transaction_option_change b /\
  allows_transaction_mode_replacement m
    = allows_transaction_mode_replacement a && allows_transaction_mode_replacement b /\
  transaction_resolution_action_allowed m
    = (transaction_resolution_action_allowed a || transaction_resolution_action_allowed b)
      && (transaction_state a != TransactionSessionState_InvalidSession)
      && (transaction_state b != TransactionSessionState_InvalidSession).
Proof.
  split_and!; [apply uncommitted_hom|apply resolution_hom|apply blocks_hom
    |apply preservation_hom|apply option_change_meet|apply mode_replacement_meet|].
  destruct a as [[] ? ?], b as [[] ? ?]; reflexivity.
Qed.

(** A server probe only ever settles a guess: it changes the state exactly
    when the claim is a guess, the state says no more than "maybe dirty", and
    the server said there is no transaction (or no write transaction, for a
    claim a write probe would have seen).  It then leaves the transaction clean;
    residue and locks are never touched, the result never claims more than
    before, and asking again changes nothing. *)
Theorem server_probe_settles_only_a_guess (claim : TransactionClaim)
    (answer : ServerTransactionAnswer) (s : RetainedSessionState) :
  let s' := with_transaction_claim_settled_by_server claim answer s in
  session_residue_state s' = session_residue_state s /\
  lock_state s' = lock_state s /\
  s' ⊑ s /\
  with_transaction_claim_settled_by_server claim answer s' = s' /\
  (s' <> s <->
   is_a_guess claim = true /\ transaction_state s = TransactionSessionState_MaybeDirty /\
   (answer = ServerTransactionAnswer_NoTransaction \/
    answer = ServerTransactionAnswer_NoWriteTransaction
      /\ may_be_invisible_to_a_write_probe claim = false)) /\
  (s' <> s -> transaction_state s' = TransactionSessionState_Clean).
Proof.
  destruct s as [t r l], claim as [[] []], answer; cbn; destruct t; cbn;
    split_and!; try done; try naive_solver; split_and!; cbn; try done; apply Nat.le_0_l.
Qed.

(** After an error the outcome always carries the state the session had:
    the session is retained exactly when the policy allows it, the error leaves
    the session reusable, the session is not invalid and it carries something
    that only this physical session can resolve; otherwise it is discarded.
    Under the restoring policy a reusable error on a valid session therefore
    never discards uncommitted work, residue or locks. *)
Theorem error_outcome_carries_prior_state (prior : RetainedSessionState) (reuse : bool)
    (policy : RetainedSessionErrorPolicy) :
  let outcome := retained_session_error_outcome prior reuse policy in
  (outcome = RetainedSessionOutcome_Retain prior \/
   outcome = RetainedSessionOutcome_DiscardPhysical prior) /\
  (outcome = RetainedSessionOutcome_Retain prior <->
   policy = RetainedSessionErrorPolicy_RestoreIfReusableAndRequiresResolution /\
   reuse = true /\ transaction_state prior <> TransactionSessionState_InvalidSession /\
   summary_transaction_state prior <> TransactionSessionState_Clean).
Proof.
  cbn zeta. rewrite <- preservation_is_summary.
  unfold retained_session_error_outcome, retained_session_should_restore_after_reusable_error.
  destruct policy; [|naive_solver].
  destruct (requires_physical_session_preservation prior), reuse;
    rewrite ?andb_true_r, ?andb_false_r; try case_bool_decide; cbn; naive_solver.
Qed.

(** The views of a retained state agree: the summary state is clean exactly
    when nothing forces the physical session to be kept, and then execution is
    not blocked, transaction options may change, and a committed or rolled-back
    session need not be discarded; conversely a state that allows option changes
    never blocks execution, offers no commit or rollback, and a state that offers
    them is neither clean nor invalid.  Dropping a transaction-mode override
    never loses the transaction, and adopting it can only unblock. *)
Theorem retained_views_agree (s : RetainedSessionState) :
  (summary_transaction_state s = TransactionSessionState_Clean <->
   requires_physical_session_preservation s = false) /\
  (summary_transaction_state s = TransactionSessionState_Clean ->
   blocks_execution s = false /\ allows_transaction_option_change s = true /\
   retained_session_transaction_resolution_should_discard_after_success s = false) /\
  (allows_transaction_option_change s = true ->
   blocks_execution s = false /\ transaction_resolution_action_allowed s = false /\
   allows_transaction_mode_replacement s = true) /\
  (transaction_resolution_action_allowed s = true <->
   may_have_uncommitted_work s = true
   /\ transaction_state s <> TransactionSessionState_InvalidSession) /\
  transaction_state (with_transaction_mode_override_cleared s) = transaction_state s /\
  with_transaction_mode_override_cleared s ⊑ with_session_transaction_mode_override_adopted s /\
  with_session_transaction_mode_override_adopted s ⊑ s.
Proof.
  split_and!.
  - rewrite <- not_true_iff_false. rewrite preservation_is_summary.
    destruct (decide (summary_transaction_state s = TransactionSessionState_Clean)); tauto.
  - apply clean_summary_is_free.
  - apply option_change_is_free.
  - destruct s as [[] ? ?]; cbn; naive_solver.
  - done.
  - destruct s as [t r l]. repeat split; cbn; try done; unfold implies; done.
  - destruct s as [t r l]. repeat split; cbn; try done; unfold implies; done.
Qed.
