(* ===== verification/SessionPolicy.v ===== *)
(** * [src/db/session_policy.rs]: what becomes of a session

    The preflight rules for actions that meet a retained session, the decision
    tree for a physical session after a cancel, a timeout or a connection error,
    the pooled-session variant of it, and the application of a decision through
    the hooks its caller implements.  The functions that read SQL text
    ([retained_session_state_execute_preflight_decision_for_sql] and its two
    helpers) and the health check that talks to a server are not modelled: the
    health check's answer is a field of the decision context, as in the code. *)
From S2P Require Import Prelude RetainedSession.

(** ** Kinds and states *)

Inductive DatabaseType := DatabaseType_Oracle | DatabaseType_MySQL | DatabaseType_MariaDB.

Inductive SqlKind :=
| SqlKind_SelectLike | SqlKind_Dml | SqlKind_Ddl | SqlKind_SessionControl
| SqlKind_PlsqlOrProcedure | SqlKind_Script | SqlKind_TransactionControl | SqlKind_Unknown.

#[export] Instance SqlKind_eq_dec : EqDecision SqlKind.
Proof. solve_decision. Defined.

Definition is_select_like (k : SqlKind) : bool :=
  match k with SqlKind_SelectLike => true | _ => false end.

Definition is_dml_or_ddl_or_plsql_or_script (k : SqlKind) : bool :=
  match k with
  | SqlKind_Dml | SqlKind_Ddl | SqlKind_PlsqlOrProcedure | SqlKind_Script => true
  | _ => false
  end.

Inductive ExecutionState :=
| ExecutionState_Idle | ExecutionState_RunningStatement | ExecutionState_RunningScript
| ExecutionState_LazyFetchOnly | ExecutionState_CancelRequested | ExecutionState_ClosingCursor
| ExecutionState_Finished | ExecutionState_Unknown.

#[export] Instance ExecutionState_eq_dec : EqDecision ExecutionState.
Proof. solve_decision. Defined.

Inductive LazyFetchState :=
| LazyFetchState_None | LazyFetchState_Waiting | LazyFetchState_Fetching
| LazyFetchState_CloseRequested | LazyFetchState_CancelRequested | LazyFetchState_Closed
| LazyFetchState_Unknown.

Inductive SessionDecision :=
| SessionDecision_IgnoreStaleEvent
| SessionDecision_ReuseSamePhysicalSession
| SessionDecision_ReplacePhysicalSessionKeepUiConnected
| SessionDecision_RequireCommitOrRollback
| SessionDecision_RequirePhysicalSessionResolution
| SessionDecision_MarkDirtyAndBlockNextExecution.

#[export] Instance SessionDecision_eq_dec : EqDecision SessionDecision.
Proof. solve_decision. Defined.

(** ** Preflight *)

Inductive RetainedSessionPreflightAction :=
| PreflightAction_Execute | PreflightAction_TransactionOptionChange | PreflightAction_ScopeChange
| PreflightAction_ConnectionTransition | PreflightAction_PoolResize | PreflightAction_Close
| PreflightAction_ReleaseClean | PreflightAction_Discard.

Inductive RetainedSessionPreflightDecision :=
| PreflightDecision_Allow | PreflightDecision_RequireResolution.

Definition retained_session_state_preflight_decision (action : RetainedSessionPreflightAction)
    (state : RetainedSessionState) : RetainedSessionPreflightDecision :=
  match action with
  | PreflightAction_Execute =>
      if blocks_execution state then PreflightDecision_RequireResolution
      else PreflightDecision_Allow
  | PreflightAction_TransactionOptionChange =>
      if allows_transaction_option_change state then PreflightDecision_Allow
      else PreflightDecision_RequireResolution
  | PreflightAction_ScopeChange => PreflightDecision_Allow
  | PreflightAction_ConnectionTransition | PreflightAction_PoolResize
  | PreflightAction_ReleaseClean =>
      if requires_physical_session_preservation state then PreflightDecision_RequireResolution
      else PreflightDecision_Allow
  | PreflightAction_Close =>
      if transaction_resolution_action_allowed state then PreflightDecision_RequireResolution
      else PreflightDecision_Allow
  | PreflightAction_Discard => PreflightDecision_Allow
  end.

Definition retained_session_preflight_decision (action : RetainedSessionPreflightAction)
    (state : TransactionSessionState) : RetainedSessionPreflightDecision :=
  retained_session_state_preflight_decision action (from_transaction_state state).

(** [DatabaseType::can_replace_retained_transaction_mode], through the backends. *)
Definition can_replace_retained_transaction_mode (db_type : DatabaseType)
    (retained_state : RetainedSessionState) : bool :=
  match db_type with
  | DatabaseType_Oracle => false
  | DatabaseType_MySQL | DatabaseType_MariaDB => allows_transaction_mode_replacement retained_state
  end.

Definition retained_session_state_transaction_mode_change_preflight_decision
    (db_type : DatabaseType) (state : RetainedSessionState) : RetainedSessionPreflightDecision :=
  if can_replace_retained_transaction_mode db_type state then PreflightDecision_Allow
  else retained_session_state_preflight_decision PreflightAction_TransactionOptionChange state.

(** ** After an interrupt *)

Record InterruptDecisionContext := mkInterrupt {
  operation_matches : bool;
  connection_generation_matches : bool;
  execution_state : ExecutionState;
  worker_done : bool;
  has_connection_error : bool;
  sql_kind : SqlKind;
  prior_retained_state : RetainedSessionState;
  lazy_state : LazyFetchState;
  lazy_close_requested : bool;
  lazy_cancel_requested : bool;
  cursor_closed : bool;
  fetch_worker_done : bool;
  timed_out : bool;
  recoverable_timeout : bool;
  cancelled : bool;
  timeout_settings_restored : bool;
  health_check_ok : bool;
  autocommit : bool;
  state_hint : TransactionStatementStateHint
}.

Definition retained_state_interrupt_resolution (state : RetainedSessionState)
    : option SessionDecision :=
  if negb (requires_physical_session_preservation state) then None
  else Some (if transaction_resolution_action_allowed state
             then SessionDecision_RequireCommitOrRollback
             else SessionDecision_RequirePhysicalSessionResolution).

(** The decision tree's branches, one per group of SQL kinds.  [resolution_or]
    is [if let Some(decision) = retained_state_interrupt_resolution(..)
    { return decision; }]. *)
Definition resolution_or (ctx : InterruptDecisionContext) (otherwise : SessionDecision)
    : SessionDecision :=
  match retained_state_interrupt_resolution (prior_retained_state ctx) with
  | Some decision => decision
  | None => otherwise
  end.

Definition decide_unsafe_script (ctx : InterruptDecisionContext) : SessionDecision :=
  if negb (autocommit ctx) || may_have_uncommitted_work (prior_retained_state ctx)
     || requires_retention_when_autocommit_off (state_hint ctx)
  then SessionDecision_RequireCommitOrRollback
  else if requires_physical_session_preservation (prior_retained_state ctx)
  then SessionDecision_RequirePhysicalSessionResolution
  else SessionDecision_ReplacePhysicalSessionKeepUiConnected.

Definition decide_dml_plsql_or_script (ctx : InterruptDecisionContext) : SessionDecision :=
  resolution_or ctx
    (if (sql_kind ctx == SqlKind_PlsqlOrProcedure)
        && hint_may_hold_session_lock (state_hint ctx)
        && negb (may_leave_untracked_session_state (state_hint ctx))
        && negb (requires_transaction_decision_after_success (state_hint ctx))
        && negb (changes_auto_commit (state_hint ctx))
     then SessionDecision_ReplacePhysicalSessionKeepUiConnected
     else if negb (autocommit ctx) then SessionDecision_RequireCommitOrRollback
     else SessionDecision_ReplacePhysicalSessionKeepUiConnected).

Definition decide_transaction_control (ctx : InterruptDecisionContext) : SessionDecision :=
  resolution_or ctx
    (if negb (autocommit ctx) then SessionDecision_RequireCommitOrRollback
     else if clears_session_state (state_hint ctx)
             && negb (may_leave_session_bound_state (state_hint ctx))
             && negb (may_leave_untracked_session_state (state_hint ctx))
             && negb (hint_may_hold_session_lock (state_hint ctx))
             && negb (requires_retention_when_autocommit_off (state_hint ctx))
             && negb (requires_transaction_decision_after_success (state_hint ctx))
             && negb (changes_auto_commit (state_hint ctx))
     then SessionDecision_ReplacePhysicalSessionKeepUiConnected
     else SessionDecision_MarkDirtyAndBlockNextExecution).

Definition decide_not_select_like (ctx : InterruptDecisionContext) : SessionDecision :=
  resolution_or ctx
    (if (sql_kind ctx == SqlKind_Unknown)
        && (hint_may_hold_session_lock (state_hint ctx)
            || (may_leave_session_bound_state (state_hint ctx)
                && negb (requires_retention_when_autocommit_off (state_hint ctx))
                && negb (requires_transaction_decision_after_success (state_hint ctx))))
     then SessionDecision_ReplacePhysicalSessionKeepUiConnected
     else if (sql_kind ctx == SqlKind_Unknown) && negb (autocommit ctx)
     then SessionDecision_RequireCommitOrRollback
     else SessionDecision_ReplacePhysicalSessionKeepUiConnected).

Definition decide_unsafe_select (ctx : InterruptDecisionContext) : SessionDecision :=
  resolution_or ctx
    (if hint_may_hold_session_lock (state_hint ctx)
     then SessionDecision_ReplacePhysicalSessionKeepUiConnected
     else if negb (autocommit ctx) && requires_retention_when_autocommit_off (state_hint ctx)
     then SessionDecision_RequireCommitOrRollback
     else SessionDecision_ReplacePhysicalSessionKeepUiConnected).

(** The [match ctx.lazy_state]: [false] where it returns the replacement. *)
Definition lazy_fetch_settled (ctx : InterruptDecisionContext) : bool :=
  match lazy_state ctx with
  | LazyFetchState_None => true
  | LazyFetchState_Closed => negb (negb (cursor_closed ctx) || negb (fetch_worker_done ctx))
  | LazyFetchState_Waiting => negb (negb (lazy_close_requested ctx) || negb (cursor_closed ctx))
  | LazyFetchState_Fetching =>
      negb (negb (lazy_cancel_requested ctx) || negb (fetch_worker_done ctx)
            || negb (cursor_closed ctx))
  | LazyFetchState_CloseRequested | LazyFetchState_CancelRequested | LazyFetchState_Unknown =>
      false
  end.

Definition decide_reusable_select (ctx : InterruptDecisionContext) : SessionDecision :=
  if negb (lazy_fetch_settled ctx) then SessionDecision_ReplacePhysicalSessionKeepUiConnected
  else if timed_out ctx && negb (recoverable_timeout ctx)
  then SessionDecision_ReplacePhysicalSessionKeepUiConnected
  else if negb (cancelled ctx || timed_out ctx && recoverable_timeout ctx)
  then SessionDecision_ReplacePhysicalSessionKeepUiConnected
  else if negb (timeout_settings_restored ctx)
  then SessionDecision_ReplacePhysicalSessionKeepUiConnected
  else if health_check_ok ctx then SessionDecision_ReuseSamePhysicalSession
  else SessionDecision_ReplacePhysicalSessionKeepUiConnected.

Definition decide_session_after_interrupt (ctx : InterruptDecisionContext) : SessionDecision :=
  if negb (operation_matches ctx) || negb (connection_generation_matches ctx)
  then SessionDecision_IgnoreStaleEvent
  else if (execution_state ctx == ExecutionState_Unknown) || negb (worker_done ctx)
  then SessionDecision_ReplacePhysicalSessionKeepUiConnected
  else if has_connection_error ctx then SessionDecision_ReplacePhysicalSessionKeepUiConnected
  else if transaction_state (prior_retained_state ctx) == TransactionSessionState_InvalidSession
  then SessionDecision_RequirePhysicalSessionResolution
  else if (sql_kind ctx == SqlKind_Ddl) || (sql_kind ctx == SqlKind_SessionControl)
  then resolution_or ctx SessionDecision_ReplacePhysicalSessionKeepUiConnected
  else if (sql_kind ctx == SqlKind_Script)
          && negb (statement_cancel_can_reuse_session (state_hint ctx))
  then decide_unsafe_script ctx
  else if is_dml_or_ddl_or_plsql_or_script (sql_kind ctx)
  then decide_dml_plsql_or_script ctx
  else if sql_kind ctx == SqlKind_TransactionControl then decide_transaction_control ctx
  else if negb (is_select_like (sql_kind ctx)) then decide_not_select_like ctx
  else if negb (statement_cancel_can_reuse_session (state_hint ctx))
  then decide_unsafe_select ctx
  else decide_reusable_select ctx.

(** ** Pooled MySQL sessions *)

Inductive MySqlPooledSessionReuseDecision :=
| PooledReuse_RetainIfSessionInfoSynced | PooledReuse_DropPhysicalSession.

Record MySqlPooledActionDecisionContext := mkPooledAction {
  pooled_requires_transaction_decision : bool;
  action_released_physical_session : bool;
  was_cancelled : bool;
  pooled_recoverable_timeout : bool;
  lock_wait_timeout : bool;
  action_result_allows_reuse : bool;
  pooled_state_hint : TransactionStatementStateHint
}.

Definition decide_mysql_pooled_session_after_action (ctx : MySqlPooledActionDecisionContext)
    : MySqlPooledSessionReuseDecision :=
  if action_released_physical_session ctx then PooledReuse_DropPhysicalSession
  else if negb (action_result_allows_reuse ctx) && negb (was_cancelled ctx)
          && negb (pooled_recoverable_timeout ctx) && negb (lock_wait_timeout ctx)
  then PooledReuse_DropPhysicalSession
  else if pooled_requires_transaction_decision ctx then PooledReuse_RetainIfSessionInfoSynced
  else if was_cancelled ctx || pooled_recoverable_timeout ctx
  then if statement_cancel_can_reuse_session (pooled_state_hint ctx)
       then PooledReuse_RetainIfSessionInfoSynced else PooledReuse_DropPhysicalSession
  else if lock_wait_timeout ctx then PooledReuse_DropPhysicalSession
  else if action_result_allows_reuse ctx then PooledReuse_RetainIfSessionInfoSynced
  else PooledReuse_DropPhysicalSession.

(** ** Applying a decision *)

(** [trait SessionDecisionApplier]: the hooks a caller implements on its own
    session state. *)
Class SessionDecisionApplier (A : Type) := {
  discard_physical_session : A -> A;
  mark_connected : A -> A;
  mark_replace_pending : A -> A;
  clear_replace_pending : A -> A;
  mark_transaction_decision_required : A -> A;
  mark_physical_session_resolution_required : A -> A;
  mark_dirty_and_block_next_execution : A -> A
}.

Definition apply_session_decision {A} `{SessionDecisionApplier A} (decision : SessionDecision)
    (applier : A) : A :=
  match decision with
  | SessionDecision_IgnoreStaleEvent => applier
  | SessionDecision_ReuseSamePhysicalSession =>
      clear_replace_pending (mark_connected applier)
  | SessionDecision_ReplacePhysicalSessionKeepUiConnected =>
      mark_replace_pending (mark_connected (discard_physical_session applier))
  | SessionDecision_RequireCommitOrRollback =>
      mark_transaction_decision_required (mark_connected applier)
  | SessionDecision_RequirePhysicalSessionResolution =>
      mark_physical_session_resolution_required (mark_connected applier)
  | SessionDecision_MarkDirtyAndBlockNextExecution =>
      mark_dirty_and_block_next_execution (mark_connected applier)
  end.

(** *** The Oracle batch cleanup

    [OracleCleanupSessionDecisionApplier]: the applier the end of an Oracle batch
    uses.  Its session handles and its scope are left out; what each hook does
    with the session is recorded, in order: the state it hands back to the tab's
    slot, or the state it names as lost when it closes the session. *)
Inductive RetainedSessionDisposition :=
| RetainedSessionDisposition_Retain (s : RetainedSessionState)
| RetainedSessionDisposition_DiscardPhysical (s : RetainedSessionState).

Definition carried_work (d : RetainedSessionDisposition) : bool :=
  match d with
  | RetainedSessionDisposition_Retain s | RetainedSessionDisposition_DiscardPhysical s =>
      may_have_uncommitted_work s
  end.

Record OracleCleanupSessionDecisionApplier := mkCleanup {
  cleanup_prior_retained_state : RetainedSessionState;
  session_state_delta : RetainedSessionState;
  session_state_delta_recorded : bool;
  reuse_state : TransactionSessionState;
  force_discard_after_transaction_resolution : bool;
  handed_back : list RetainedSessionDisposition
}.

#[export] Instance cleanup_eta : Eta OracleCleanupSessionDecisionApplier := fun a =>
  mkCleanup (cleanup_prior_retained_state a) (session_state_delta a)
    (session_state_delta_recorded a) (reuse_state a)
    (force_discard_after_transaction_resolution a) (handed_back a).

Definition retained_state_after_cleanup_update
    (prior_retained_state : RetainedSessionState) (transaction_state_ : TransactionSessionState)
    (session_state_delta : RetainedSessionState) (session_state_delta_recorded : bool)
    : RetainedSessionState :=
  let transaction_state_ :=
    if (transaction_state prior_retained_state == TransactionSessionState_InvalidSession)
       || (session_state_delta_recorded
           && (transaction_state session_state_delta == TransactionSessionState_InvalidSession))
    then TransactionSessionState_InvalidSession else transaction_state_ in
  if session_state_delta_recorded then with_transaction_state transaction_state_ session_state_delta
  else with_transaction_state transaction_state_ prior_retained_state.

Definition retained_state_for_transaction_state (t : TransactionSessionState)
    (self : OracleCleanupSessionDecisionApplier) : RetainedSessionState :=
  let retained_state :=
    retained_state_after_cleanup_update (cleanup_prior_retained_state self) t
      (session_state_delta self) (session_state_delta_recorded self) in
  if force_discard_after_transaction_resolution self
  then with_untracked_session_state retained_state else retained_state.

Definition carrying (self : OracleCleanupSessionDecisionApplier) : RetainedSessionState :=
  if session_state_delta_recorded self then session_state_delta self
  else cleanup_prior_retained_state self.

Definition retained_state_a_discard_destroys (self : OracleCleanupSessionDecisionApplier)
    : RetainedSessionState :=
  retained_state_for_transaction_state (transaction_state (carrying self)) self.

Definition store_retained_state (s : RetainedSessionState)
    (self : OracleCleanupSessionDecisionApplier) : OracleCleanupSessionDecisionApplier :=
  self <| handed_back ::= vec_push (RetainedSessionDisposition_Retain s) |>.

Definition store_state (t : TransactionSessionState) (self : OracleCleanupSessionDecisionApplier)
    : OracleCleanupSessionDecisionApplier :=
  store_retained_state (retained_state_for_transaction_state t self) self.

#[export] Instance oracle_cleanup_applier
    : SessionDecisionApplier OracleCleanupSessionDecisionApplier := {|
  discard_physical_session self :=
    self <| handed_back ::= vec_push
              (RetainedSessionDisposition_DiscardPhysical
                 (retained_state_a_discard_destroys self)) |>;
  mark_connected self := self;
  mark_replace_pending self := self;
  clear_replace_pending self := store_state (reuse_state self) self;
  mark_transaction_decision_required self :=
    store_state TransactionSessionState_DecisionRequired self;
  mark_physical_session_resolution_required self :=
    let retained_state := retained_state_for_transaction_state (reuse_state self) self in
    if blocks_execution retained_state then store_retained_state retained_state self
    else store_retained_state (with_untracked_session_state retained_state) self;
  mark_dirty_and_block_next_execution self :=
    store_state TransactionSessionState_BlockedDirty self
|}.

(** ** Facts about the decision tree *)

(** Splits the conditionals of a hypothesis or the goal one at a time. *)
Ltac split_decision :=
  repeat match goal with
         | H : context [if ?b then _ else _] |- _ => destruct b eqn:?; try done
         | |- context [if ?b then _ else _] => destruct b eqn:?; try done
         end.

Lemma interrupt_resolution_spec (s : RetainedSessionState) (d : SessionDecision) :
  retained_state_interrupt_resolution s = Some d <->
  requires_physical_session_preservation s = true /\
  d = (if transaction_resolution_action_allowed s then SessionDecision_RequireCommitOrRollback
       else SessionDecision_RequirePhysicalSessionResolution).
Proof.
  unfold retained_state_interrupt_resolution.
  destruct (requires_physical_session_preservation s); cbn; naive_solver.
Qed.

(** With something to preserve, the retained state decides and the rest of the
    branch is never consulted. *)
Lemma resolution_or_preserved (ctx : InterruptDecisionContext) (d : SessionDecision) :
  requires_physical_session_preservation (prior_retained_state ctx) = true ->
  resolution_or ctx d <> SessionDecision_ReplacePhysicalSessionKeepUiConnected /\
  resolution_or ctx d <> SessionDecision_ReuseSamePhysicalSession.
Proof.
  intros H. unfold resolution_or, retained_state_interrupt_resolution. rewrite H. cbn [negb].
  by destruct (transaction_resolution_action_allowed (prior_retained_state ctx)).
Qed.

Lemma resolution_or_reuse (ctx : InterruptDecisionContext) (d : SessionDecision) :
  resolution_or ctx d = SessionDecision_ReuseSamePhysicalSession ->
  d = SessionDecision_ReuseSamePhysicalSession.
Proof.
  unfold resolution_or, retained_state_interrupt_resolution. intros. by split_decision.
Qed.

(** The branches that never reuse a session. *)
Definition never_reuses (f : InterruptDecisionContext -> SessionDecision) : Prop :=
  forall ctx, f ctx <> SessionDecision_ReuseSamePhysicalSession.

Lemma unsafe_script_never_reuses : never_reuses decide_unsafe_script.
Proof. intros ctx H. unfold decide_unsafe_script in H. split_decision. Qed.

Lemma dml_never_reuses : never_reuses decide_dml_plsql_or_script.
Proof. intros ctx H%resolution_or_reuse. split_decision. Qed.

Lemma transaction_control_never_reuses : never_reuses decide_transaction_control.
Proof. intros ctx H%resolution_or_reuse. split_decision. Qed.

Lemma not_select_never_reuses : never_reuses decide_not_select_like.
Proof. intros ctx H%resolution_or_reuse. split_decision. Qed.

Lemma unsafe_select_never_reuses : never_reuses decide_unsafe_select.
Proof. intros ctx H%resolution_or_reuse. split_decision. Qed.

Create HintDb policy discriminated.
#[export] Hint Resolve unsafe_script_never_reuses dml_never_reuses
  transaction_control_never_reuses not_select_never_reuses unsafe_select_never_reuses : policy.

Ltac refute_reuse :=
  match goal with
  | H : ?f ?ctx = SessionDecision_ReuseSamePhysicalSession |- _ =>
      exfalso; refine ((_ : never_reuses f) ctx H); solve [auto with policy]
  end.

(** What the code documents as confirmed lazy-fetch cleanup, per state. *)
Definition lazy_cleanup_confirmed (ctx : InterruptDecisionContext) : Prop :=
  match lazy_state ctx with
  | LazyFetchState_None => True
  | LazyFetchState_Closed => cursor_closed ctx = true /\ fetch_worker_done ctx = true
  | LazyFetchState_Waiting => lazy_close_requested ctx = true /\ cursor_closed ctx = true
  | LazyFetchState_Fetching =>
      lazy_cancel_requested ctx = true /\ fetch_worker_done ctx = true
      /\ cursor_closed ctx = true
  | LazyFetchState_CloseRequested | LazyFetchState_CancelRequested | LazyFetchState_Unknown =>
      False
  end.

Lemma lazy_fetch_settled_spec (ctx : InterruptDecisionContext) :
  lazy_fetch_settled ctx = true <-> lazy_cleanup_confirmed ctx.
Proof.
  unfold lazy_fetch_settled, lazy_cleanup_confirmed.
  destruct (lazy_state ctx), (cursor_closed ctx), (fetch_worker_done ctx),
    (lazy_close_requested ctx), (lazy_cancel_requested ctx); naive_solver.
Qed.

Lemma reusable_select_spec (ctx : InterruptDecisionContext) :
  decide_reusable_select ctx = SessionDecision_ReuseSamePhysicalSession <->
  lazy_cleanup_confirmed ctx /\
  (cancelled ctx = true \/ timed_out ctx = true) /\
  (timed_out ctx = true -> recoverable_timeout ctx = true) /\
  timeout_settings_restored ctx = true /\ health_check_ok ctx = true.
Proof.
  rewrite <- lazy_fetch_settled_spec. unfold decide_reusable_select.
  destruct (lazy_fetch_settled ctx), (timed_out ctx), (recoverable_timeout ctx),
    (cancelled ctx), (timeout_settings_restored ctx), (health_check_ok ctx); naive_solver.
Qed.

(** The tree's outer layers: the event is stale, the worker or the wire is lost,
    the session is known invalid, or the branch of the SQL kind decides. *)
Definition worker_or_wire_lost (ctx : InterruptDecisionContext) : Prop :=
  execution_state ctx = ExecutionState_Unknown \/ worker_done ctx = false
  \/ has_connection_error ctx = true.

Definition event_is_current (ctx : InterruptDecisionContext) : Prop :=
  operation_matches ctx = true /\ connection_generation_matches ctx = true.

Definition decide_by_kind (ctx : InterruptDecisionContext) : SessionDecision :=
  match sql_kind ctx with
  | SqlKind_Ddl | SqlKind_SessionControl =>
      resolution_or ctx SessionDecision_ReplacePhysicalSessionKeepUiConnected
  | SqlKind_Script =>
      if statement_cancel_can_reuse_session (state_hint ctx)
      then decide_dml_plsql_or_script ctx else decide_unsafe_script ctx
  | SqlKind_Dml | SqlKind_PlsqlOrProcedure => decide_dml_plsql_or_script ctx
  | SqlKind_TransactionControl => decide_transaction_control ctx
  | SqlKind_Unknown => decide_not_select_like ctx
  | SqlKind_SelectLike =>
      if statement_cancel_can_reuse_session (state_hint ctx)
      then decide_reusable_select ctx else decide_unsafe_select ctx
  end.

Inductive decided (ctx : InterruptDecisionContext) : SessionDecision -> Prop :=
| decided_stale : ~ event_is_current ctx -> decided ctx SessionDecision_IgnoreStaleEvent
| decided_lost : event_is_current ctx -> worker_or_wire_lost ctx ->
    decided ctx SessionDecision_ReplacePhysicalSessionKeepUiConnected
| decided_invalid : event_is_current ctx -> ~ worker_or_wire_lost ctx ->
    transaction_state (prior_retained_state ctx) = TransactionSessionState_InvalidSession ->
    decided ctx SessionDecision_RequirePhysicalSessionResolution
| decided_kind : event_is_current ctx -> ~ worker_or_wire_lost ctx ->
    transaction_state (prior_retained_state ctx) <> TransactionSessionState_InvalidSession ->
    decided ctx (decide_by_kind ctx).

Lemma decide_by_kind_is_tail (ctx : InterruptDecisionContext) :
  decide_by_kind ctx =
  (if (sql_kind ctx == SqlKind_Ddl) || (sql_kind ctx == SqlKind_SessionControl)
   then resolution_or ctx SessionDecision_ReplacePhysicalSessionKeepUiConnected
   else if (sql_kind ctx == SqlKind_Script)
           && negb (statement_cancel_can_reuse_session (state_hint ctx))
   then decide_unsafe_script ctx
   else if is_dml_or_ddl_or_plsql_or_script (sql_kind ctx)
   then decide_dml_plsql_or_script ctx
   else if sql_kind ctx == SqlKind_TransactionControl then decide_transaction_control ctx
   else if negb (is_select_like (sql_kind ctx)) then decide_not_select_like ctx
   else if negb (statement_cancel_can_reuse_session (state_hint ctx))
   then decide_unsafe_select ctx
   else decide_reusable_select ctx).
Proof.
  unfold decide_by_kind.
  by destruct (sql_kind ctx); cbn; try done;
    destruct (statement_cancel_can_reuse_session (state_hint ctx)).
Qed.

Lemma decision_cases (ctx : InterruptDecisionContext) :
  decided ctx (decide_session_after_interrupt ctx).
Proof.
  unfold decide_session_after_interrupt. rewrite <- decide_by_kind_is_tail.
  destruct (operation_matches ctx) eqn:?; cbn; [|by apply decided_stale; intros []; congruence].
  destruct (connection_generation_matches ctx) eqn:?; cbn;
    [|by apply decided_stale; intros []; congruence].
  case_bool_decide; cbn; [by apply decided_lost; [|left]|].
  destruct (worker_done ctx) eqn:?; cbn; [|by apply decided_lost; [|right; left]].
  destruct (has_connection_error ctx) eqn:?; [by apply decided_lost; [|right; right]|].
  assert (~ worker_or_wire_lost ctx) by (intros [?|[]]; congruence).
  case_bool_decide; [by apply decided_invalid|by apply decided_kind].
Qed.

Lemma decision_by_kind (ctx : InterruptDecisionContext) :
  event_is_current ctx -> ~ worker_or_wire_lost ctx ->
  transaction_state (prior_retained_state ctx) <> TransactionSessionState_InvalidSession ->
  decide_session_after_interrupt ctx = decide_by_kind ctx.
Proof. intros. by destruct (decision_cases ctx). Qed.

Lemma by_kind_reuse (ctx : InterruptDecisionContext) :
  decide_by_kind ctx = SessionDecision_ReuseSamePhysicalSession <->
  sql_kind ctx = SqlKind_SelectLike /\
  statement_cancel_can_reuse_session (state_hint ctx) = true /\
  decide_reusable_select ctx = SessionDecision_ReuseSamePhysicalSession.
Proof.
  unfold decide_by_kind. split.
  - destruct (sql_kind ctx); intros H; try (by apply resolution_or_reuse in H);
      try refute_reuse;
      destruct (statement_cancel_can_reuse_session (state_hint ctx)); try done; refute_reuse.
  - intros (-> & -> & ?). done.
Qed.

Lemma by_kind_never_ignores (ctx : InterruptDecisionContext) :
  decide_by_kind ctx <> SessionDecision_IgnoreStaleEvent.
Proof.
  unfold decide_by_kind, decide_dml_plsql_or_script, decide_transaction_control,
    decide_not_select_like, decide_unsafe_select, decide_unsafe_script, decide_reusable_select,
    resolution_or, retained_state_interrupt_resolution.
  destruct (sql_kind ctx); split_decision.
Qed.

Lemma unsafe_script_preserved (ctx : InterruptDecisionContext) :
  requires_physical_session_preservation (prior_retained_state ctx) = true ->
  decide_unsafe_script ctx <> SessionDecision_ReplacePhysicalSessionKeepUiConnected.
Proof. unfold decide_unsafe_script. intros ->. by split_decision. Qed.

Lemma by_kind_replace (ctx : InterruptDecisionContext) :
  requires_physical_session_preservation (prior_retained_state ctx) = true ->
  decide_by_kind ctx = SessionDecision_ReplacePhysicalSessionKeepUiConnected ->
  sql_kind ctx = SqlKind_SelectLike /\
  statement_cancel_can_reuse_session (state_hint ctx) = true.
Proof.
  intros Hp Hd. unfold decide_by_kind in Hd.
  destruct (sql_kind ctx); try (by apply resolution_or_preserved in Hd);
    destruct (statement_cancel_can_reuse_session (state_hint ctx));
    try (by apply resolution_or_preserved in Hd); try (by apply unsafe_script_preserved in Hd).
  done.
Qed.

(** ** Facts about preflight and cleanup *)

Lemma preflight_allow (action : RetainedSessionPreflightAction) (s : RetainedSessionState) :
  retained_session_state_preflight_decision action s = PreflightDecision_Allow <->
  match action with
  | PreflightAction_Execute => blocks_execution s = false
  | PreflightAction_TransactionOptionChange => allows_transaction_option_change s = true
  | PreflightAction_ScopeChange | PreflightAction_Discard => True
  | PreflightAction_ConnectionTransition | PreflightAction_PoolResize
  | PreflightAction_ReleaseClean => summary_transaction_state s = TransactionSessionState_Clean
  | PreflightAction_Close => transaction_resolution_action_allowed s = false
  end.
Proof.
  pose proof (preservation_is_summary s) as Hs.
  destruct action; cbn [retained_session_state_preflight_decision]; try done.
  - by destruct (blocks_execution s).
  - by destruct (allows_transaction_option_change s).
  - destruct (requires_physical_session_preservation s), (summary_transaction_state s);
      naive_solver.
  - destruct (requires_physical_session_preservation s), (summary_transaction_state s);
      naive_solver.
  - by destruct (transaction_resolution_action_allowed s).
  - destruct (requires_physical_session_preservation s), (summary_transaction_state s);
      naive_solver.
Qed.

Lemma clean_merge (a b : RetainedSessionState) :
  summary_transaction_state (conservative_merge a b) = TransactionSessionState_Clean <->
  summary_transaction_state a = TransactionSessionState_Clean /\
  summary_transaction_state b = TransactionSessionState_Clean.
Proof.
  pose proof (preservation_hom a b) as Hm. unfold join, state_join in Hm.
  pose proof (preservation_is_summary a) as Ha. pose proof (preservation_is_summary b) as Hb.
  pose proof (preservation_is_summary (conservative_merge a b)) as Hab. rewrite Hm in Hab.
  destruct (requires_physical_session_preservation a),
    (requires_physical_session_preservation b); cbn in Hab;
    destruct (summary_transaction_state a), (summary_transaction_state b),
      (summary_transaction_state (conservative_merge a b)); naive_solver.
Qed.

Definition disposition_state (d : RetainedSessionDisposition) : RetainedSessionState :=
  match d with
  | RetainedSessionDisposition_Retain s | RetainedSessionDisposition_DiscardPhysical s => s
  end.

Definition is_discard (d : RetainedSessionDisposition) : bool :=
  match d with RetainedSessionDisposition_DiscardPhysical _ => true | _ => false end.

(** The session a cleanup was given, or left behind, is invalid. *)
Definition cleanup_invalid (self : OracleCleanupSessionDecisionApplier) : bool :=
  (transaction_state (cleanup_prior_retained_state self)
     == TransactionSessionState_InvalidSession)
  || (session_state_delta_recorded self
      && (transaction_state (session_state_delta self)
            == TransactionSessionState_InvalidSession)).

Lemma untracked_adds (r : SessionResidueState) : r ⊑ residue_with_untracked_session_state r.
Proof. destruct r. unfold sqsubseteq, residue_sqsubseteq, implies. cbn. tauto. Qed.

Lemma cleanup_state_parts (t : TransactionSessionState)
    (self : OracleCleanupSessionDecisionApplier) :
  let s := retained_state_for_transaction_state t self in
  transaction_state s
    = (if cleanup_invalid self then TransactionSessionState_InvalidSession else t) /\
  lock_state s = lock_state (carrying self) /\
  session_residue_state (carrying self) ⊑ session_residue_state s.
Proof.
  cbn zeta. unfold retained_state_for_transaction_state, retained_state_after_cleanup_update,
    cleanup_invalid, carrying.
  set (i := if _ || _ then _ else t).
  destruct (session_state_delta_recorded self), (force_discard_after_transaction_resolution self);
    cbn; split_and!; try done; apply untracked_adds.
Qed.

(** A state that is at least blocked or decided blocks execution. *)
Lemma blocking_tx_blocks (s : RetainedSessionState) :
  tx_blocks_execution (transaction_state s) = true -> blocks_execution s = true.
Proof. intros H. unfold blocks_execution, capabilities. cbn. by rewrite H. Qed.

Lemma blocking_is_preserved (s : RetainedSessionState) :
  blocks_execution s = true -> requires_physical_session_preservation s = true.
Proof.
  intros H. apply preservation_is_summary. intros Hc.
  apply clean_summary_is_free in Hc as [? _]. congruence.
Qed.

Lemma untracked_is_preserved (s : RetainedSessionState) :
  requires_physical_session_preservation (with_untracked_session_state s) = true.
Proof.
  apply preservation_is_summary. destruct s as [[] [] ?]; cbn; try done.
  unfold summary_transaction_state, may_have_untracked_session_state,
    residue_may_have_untracked_session_state; cbn. by rewrite !orb_true_r.
Qed.

(** What each decision hands back, in one table. *)
Inductive handed (self : OracleCleanupSessionDecisionApplier)
    : SessionDecision -> RetainedSessionDisposition -> Prop :=
| handed_reuse :
    handed self SessionDecision_ReuseSamePhysicalSession
      (RetainedSessionDisposition_Retain
         (retained_state_for_transaction_state (reuse_state self) self))
| handed_replace :
    handed self SessionDecision_ReplacePhysicalSessionKeepUiConnected
      (RetainedSessionDisposition_DiscardPhysical (retained_state_a_discard_destroys self))
| handed_commit :
    handed self SessionDecision_RequireCommitOrRollback
      (RetainedSessionDisposition_Retain
         (retained_state_for_transaction_state TransactionSessionState_DecisionRequired self))
| handed_resolution_blocked :
    blocks_execution (retained_state_for_transaction_state (reuse_state self) self) = true ->
    handed self SessionDecision_RequirePhysicalSessionResolution
      (RetainedSessionDisposition_Retain
         (retained_state_for_transaction_state (reuse_state self) self))
| handed_resolution_marked :
    handed self SessionDecision_RequirePhysicalSessionResolution
      (RetainedSessionDisposition_Retain
         (with_untracked_session_state
            (retained_state_for_transaction_state (reuse_state self) self)))
| handed_dirty :
    handed self SessionDecision_MarkDirtyAndBlockNextExecution
      (RetainedSessionDisposition_Retain
         (retained_state_for_transaction_state TransactionSessionState_BlockedDirty self)).

Lemma cleanup_hands (decision : SessionDecision) (self : OracleCleanupSessionDecisionApplier) :
  decision <> SessionDecision_IgnoreStaleEvent ->
  exists d, handed self decision d /\
    handed_back (apply_session_decision decision self) = handed_back self ++ [d].
Proof.
  intros. destruct decision; try done;
    try (eexists; split; [by constructor|reflexivity]).
  set (s := retained_state_for_transaction_state (reuse_state self) self).
  change (apply_session_decision SessionDecision_RequirePhysicalSessionResolution self)
    with (if blocks_execution s then store_retained_state s self
          else store_retained_state (with_untracked_session_state s) self).
  destruct (blocks_execution s) eqn:E; eexists.
  - split; [by apply handed_resolution_blocked|done].
  - split; [by apply handed_resolution_marked|done].
Qed.

(** Locks and residue of what the session carries reach what is handed back. *)
Lemma handed_carries (self : OracleCleanupSessionDecisionApplier) (decision : SessionDecision)
    (d : RetainedSessionDisposition) :
  handed self decision d ->
  lock_state (disposition_state d) = lock_state (carrying self) /\
  session_residue_state (carrying self) ⊑ session_residue_state (disposition_state d) /\
  (cleanup_invalid self = true ->
   transaction_state (disposition_state d) = TransactionSessionState_InvalidSession).
Proof.
  assert (Hall : forall t, let s := retained_state_for_transaction_state t self in
    lock_state s = lock_state (carrying self) /\
    session_residue_state (carrying self) ⊑ session_residue_state s /\
    (cleanup_invalid self = true -> transaction_state s = TransactionSessionState_InvalidSession)).
  { intros t. destruct (cleanup_state_parts t self) as (Ht & ? & ?). cbn zeta.
    split_and!; try done. intros Hi. by rewrite Ht, Hi. }
  destruct 1; try apply Hall. destruct (Hall (reuse_state self)) as (? & ? & ?).
  split_and!; try done. etrans; [done|]. apply untracked_adds.
Qed.

(** Whatever asks for a decision is filed as something to preserve. *)
Lemma handed_preserved (self : OracleCleanupSessionDecisionApplier) (decision : SessionDecision)
    (d : RetainedSessionDisposition) :
  handed self decision d -> decision <> SessionDecision_ReuseSamePhysicalSession ->
  decision <> SessionDecision_ReplacePhysicalSessionKeepUiConnected ->
  is_discard d = false /\ requires_physical_session_preservation (disposition_state d) = true.
Proof.
  assert (Hb : forall t, tx_blocks_execution t = true ->
    blocks_execution (retained_state_for_transaction_state t self) = true).
  { intros t Ht. apply blocking_tx_blocks.
    destruct (cleanup_state_parts t self) as (-> & _). by destruct (cleanup_invalid self). }
  destruct 1; intros ??; try done; (split; [done|]);
    first [apply untracked_is_preserved|apply blocking_is_preserved]; try done; by apply Hb.
Qed.

(** With something to preserve and a statement that is not a plain read, the
    session is neither ignored, nor reused, nor replaced. *)
Lemma preserved_decision (ctx : InterruptDecisionContext) :
  event_is_current ctx -> ~ worker_or_wire_lost ctx ->
  requires_physical_session_preservation (prior_retained_state ctx) = true ->
  sql_kind ctx <> SqlKind_SelectLike
    \/ statement_cancel_can_reuse_session (state_hint ctx) = false ->
  decide_session_after_interrupt ctx <> SessionDecision_IgnoreStaleEvent /\
  decide_session_after_interrupt ctx <> SessionDecision_ReuseSamePhysicalSession /\
  decide_session_after_interrupt ctx <> SessionDecision_ReplacePhysicalSessionKeepUiConnected.
Proof.
  intros Hc Hl Hp Hk. destruct (decision_cases ctx); try done.
  split_and!; [apply by_kind_never_ignores| |].
  - intros (? & ? & ?)%by_kind_reuse. destruct Hk; congruence.
  - intros Hd. destruct (by_kind_replace ctx Hp Hd). destruct Hk; congruence.
Qed.

(** ** Properties of the session policy *)

(** C8. The session is reused after an interrupt exactly when every condition
    of the session contract holds: the event belongs to the current operation
    and connection generation, the worker ended in a known state with no
    connection error, the retained session is not invalid, the statement only
    reads and leaves nothing behind, the lazy cursor's cleanup is confirmed for
    its state, the statement was cancelled or timed out recoverably (a timeout
    that is not recoverable never qualifies), the temporary timeout settings were
    restored and the health check passed.  An event is ignored exactly when it
    belongs to another operation or generation. *)
Theorem session_reused_iff_contract_holds (ctx : InterruptDecisionContext) :
  (decide_session_after_interrupt ctx = SessionDecision_ReuseSamePhysicalSession <->
   event_is_current ctx /\ ~ worker_or_wire_lost ctx /\
   transaction_state (prior_retained_state ctx) <> TransactionSessionState_InvalidSession /\
   sql_kind ctx = SqlKind_SelectLike /\
   statement_cancel_can_reuse_session (state_hint ctx) = true /\
   lazy_cleanup_confirmed ctx /\
   (cancelled ctx = true \/ timed_out ctx = true) /\
   (timed_out ctx = true -> recoverable_timeout ctx = true) /\
   timeout_settings_restored ctx = true /\ health_check_ok ctx = true) /\
  (decide_session_after_interrupt ctx = SessionDecision_IgnoreStaleEvent <->
   ~ event_is_current ctx).
Proof.
  split.
  - rewrite <- reusable_select_spec. split.
    + destruct (decision_cases ctx); try done. intros ?%by_kind_reuse. tauto.
    + intros (? & ? & ? & ?). rewrite decision_by_kind by done. by apply by_kind_reuse.
  - split.
    + destruct (decision_cases ctx); try done. intros H2; exfalso; revert H2.
      apply by_kind_never_ignores.
    + by destruct (decision_cases ctx).
Qed.

(** A retained state with something to preserve takes precedence over
    replacing the session: when the event is current, a session that must be
    preserved is replaced only if the worker or the connection is lost, or the
    interrupted statement was a read that left nothing behind but whose
    conditions for reuse failed.  An invalid session is never reused and never
    offered for commit or rollback. *)
Theorem retained_work_precedes_replacement (ctx : InterruptDecisionContext) :
  requires_physical_session_preservation (prior_retained_state ctx) = true ->
  (decide_session_after_interrupt ctx
     = SessionDecision_ReplacePhysicalSessionKeepUiConnected ->
   worker_or_wire_lost ctx \/
   sql_kind ctx = SqlKind_SelectLike
     /\ statement_cancel_can_reuse_session (state_hint ctx) = true
     /\ decide_reusable_select ctx <> SessionDecision_ReuseSamePhysicalSession) /\
  (transaction_state (prior_retained_state ctx) = TransactionSessionState_InvalidSession ->
   decide_session_after_interrupt ctx = SessionDecision_IgnoreStaleEvent \/
   decide_session_after_interrupt ctx
     = SessionDecision_ReplacePhysicalSessionKeepUiConnected \/
   decide_session_after_interrupt ctx = SessionDecision_RequirePhysicalSessionResolution).
Proof.
  intros Hp. split; [|intros ?; destruct (decision_cases ctx); tauto].
  destruct (decision_cases ctx); try done; [tauto|]. intros Hd. right.
  destruct (by_kind_replace ctx Hp Hd) as (Hk & Hr). split_and!; try done.
  unfold decide_by_kind in Hd. rewrite Hk, Hr in Hd. by rewrite Hd.
Qed.

Definition interrupt_witness (kind : SqlKind) (prior : RetainedSessionState)
    : InterruptDecisionContext :=
  mkInterrupt true true ExecutionState_Finished true false kind prior LazyFetchState_None
    false false false false false false true true true false
    (mkHint false false false false false false false).

Lemma retained_work_precedes_replacement_witness :
  requires_physical_session_preservation
    (from_transaction_state TransactionSessionState_InvalidSession) = true /\
  let ctx := interrupt_witness SqlKind_Dml
               (from_transaction_state TransactionSessionState_InvalidSession) in
  decide_session_after_interrupt ctx = SessionDecision_IgnoreStaleEvent \/
  decide_session_after_interrupt ctx
    = SessionDecision_ReplacePhysicalSessionKeepUiConnected \/
  decide_session_after_interrupt ctx = SessionDecision_RequirePhysicalSessionResolution.
Proof.
  split; [reflexivity|]. cbn zeta.
  apply (retained_work_precedes_replacement (interrupt_witness SqlKind_Dml
           (from_transaction_state TransactionSessionState_InvalidSession))); reflexivity.
Defined.

(** A read interrupted with a failed health check replaces a session that holds
    an undecided transaction. *)
Example failed_health_check_replaces_undecided_session :
  let hint := mkHint false false false false false false false in
  decide_session_after_interrupt
    (mkInterrupt true true ExecutionState_Finished true false SqlKind_SelectLike
       (from_transaction_state TransactionSessionState_DecisionRequired) LazyFetchState_None
       false false false false false false true true false false hint)
  = SessionDecision_ReplacePhysicalSessionKeepUiConnected.
Proof. reflexivity. Qed.

(** Every gate but the one on closing a tab is a gate on the whole session:
    an action is allowed on a merged state exactly when it is allowed on both of
    its parts, so no order of merging observations can open a gate. *)
Theorem preflight_gate_of_merge (action : RetainedSessionPreflightAction)
    (a b : RetainedSessionState) :
  action <> PreflightAction_Close ->
  retained_session_state_preflight_decision action (conservative_merge a b)
    = PreflightDecision_Allow <->
  retained_session_state_preflight_decision action a = PreflightDecision_Allow /\
  retained_session_state_preflight_decision action b = PreflightDecision_Allow.
Proof.
  intros Hc. rewrite !preflight_allow. pose proof (blocks_hom a b) as Hb.
  unfold join, state_join in Hb.
  destruct action; try tauto; rewrite ?clean_merge, ?option_change_meet, ?Hb, ?andb_true_iff,
    ?orb_false_iff; tauto.
Qed.

Lemma preflight_gate_of_merge_witness :
  PreflightAction_Execute <> PreflightAction_Close /\
  retained_session_state_preflight_decision PreflightAction_Execute
    (conservative_merge (from_transaction_state TransactionSessionState_MaybeDirty)
       RetainedSessionState_default) = PreflightDecision_Allow.
Proof.
  split; [done|]. apply (preflight_gate_of_merge PreflightAction_Execute); [done|].
  split; vm_compute; reflexivity.
Defined.

(** The gates agree with one another on every state: switching connection,
    resizing the pool and releasing are allowed exactly on a clean summary, where
    every other action is allowed too; where transaction options may change,
    statements may run and a tab may close; where closing asks for a resolution,
    so does switching; and the transaction-mode gate is the option gate on
    Oracle, and on the MySQL family the replacement rule, which the option gate
    never exceeds. *)
Theorem preflight_gates_agree (s : RetainedSessionState) (db : DatabaseType) :
  let allowed action :=
    retained_session_state_preflight_decision action s = PreflightDecision_Allow in
  (forall action,
     action ∈ [PreflightAction_ConnectionTransition; PreflightAction_PoolResize;
               PreflightAction_ReleaseClean] ->
     allowed action <-> summary_transaction_state s = TransactionSessionState_Clean) /\
  (allowed PreflightAction_ConnectionTransition -> forall action, allowed action) /\
  (allowed PreflightAction_TransactionOptionChange ->
   allowed PreflightAction_Execute /\ allowed PreflightAction_Close) /\
  (~ allowed PreflightAction_Close -> ~ allowed PreflightAction_ConnectionTransition) /\
  (retained_session_state_transaction_mode_change_preflight_decision db s
     = PreflightDecision_Allow <->
   match db with
   | DatabaseType_Oracle => allowed PreflightAction_TransactionOptionChange
   | _ => allows_transaction_mode_replacement s = true
   end) /\
  (allowed PreflightAction_TransactionOptionChange ->
   retained_session_state_transaction_mode_change_preflight_decision db s
     = PreflightDecision_Allow).
Proof.
  cbn zeta. pose proof (option_change_is_free s) as Ho.
  assert (Hm : allows_transaction_mode_replacement s = false ->
               allows_transaction_option_change s = false)
    by (destruct (allows_transaction_option_change s); naive_solver).
  unfold retained_session_state_transaction_mode_change_preflight_decision,
    can_replace_retained_transaction_mode.
  split_and!; rewrite ?preflight_allow; try tauto.
  - intros action Ha. rewrite preflight_allow. set_unfold in Ha. naive_solver.
  - intros Hc action. apply preflight_allow. pose proof (clean_summary_is_free s Hc).
    destruct action; naive_solver.
  - pose proof (clean_summary_is_free s).
    destruct (transaction_resolution_action_allowed s); naive_solver.
  - destruct db; rewrite ?preflight_allow; try done;
      destruct (allows_transaction_mode_replacement s); rewrite ?preflight_allow; naive_solver.
  - intros H. destruct db; rewrite ?preflight_allow; try done;
      destruct (allows_transaction_mode_replacement s); rewrite ?preflight_allow; naive_solver.
Qed.

(** Applying a decision at the end of an Oracle batch gives the session up
    exactly once: a stale event touches nothing, and any other decision adds one
    hand-back, which closes the session exactly when the decision was to replace
    it.  What is handed back, or named as lost, has the locks the session
    carries, all of its residue, and stays invalid if it was; a session asked to
    be committed, rolled back or resolved is filed so that it must be preserved,
    and closing a session with uncommitted work reports that work as lost. *)
Theorem cleanup_hands_back_once (decision : SessionDecision)
    (self : OracleCleanupSessionDecisionApplier) :
  (decision = SessionDecision_IgnoreStaleEvent ->
   apply_session_decision decision self = self) /\
  (decision <> SessionDecision_IgnoreStaleEvent ->
   exists d, handed_back (apply_session_decision decision self) = handed_back self ++ [d] /\
     (is_discard d = true <->
      decision = SessionDecision_ReplacePhysicalSessionKeepUiConnected) /\
     lock_state (disposition_state d) = lock_state (carrying self) /\
     session_residue_state (carrying self) ⊑ session_residue_state (disposition_state d) /\
     (cleanup_invalid self = true ->
      transaction_state (disposition_state d) = TransactionSessionState_InvalidSession) /\
     (is_discard d = true -> may_have_uncommitted_work (carrying self) = true ->
      carried_work d = true) /\
     (is_discard d = false -> decision <> SessionDecision_ReuseSamePhysicalSession ->
      requires_physical_session_preservation (disposition_state d) = true)).
Proof.
  split; [by intros ->|]. intros Hd.
  destruct (cleanup_hands decision self Hd) as (d & Hh & Hb). exists d.
  destruct (handed_carries _ _ _ Hh) as (? & ? & ?).
  split_and!; try done.
  - destruct Hh; cbn; naive_solver.
  - destruct Hh; try done. intros _ Hw. cbn. unfold retained_state_a_discard_destroys.
    unfold may_have_uncommitted_work.
    destruct (cleanup_state_parts (transaction_state (carrying self)) self) as (-> & _).
    by destruct (cleanup_invalid self).
  - intros Hf Hr. eapply handed_preserved; try done. by destruct Hh.
Qed.

(** Interrupted work is filed, not lost: when the event is current, the
    worker ended, the connection is alive, and the session has something to
    preserve, then for any statement other than a read that leaves nothing
    behind the cleanup retains the session, in a state that still must be
    preserved, with the locks and residue it carries. *)
Theorem interrupted_work_is_filed (ctx : InterruptDecisionContext)
    (self : OracleCleanupSessionDecisionApplier) :
  event_is_current ctx -> ~ worker_or_wire_lost ctx ->
  requires_physical_session_preservation (prior_retained_state ctx) = true ->
  sql_kind ctx <> SqlKind_SelectLike
    \/ statement_cancel_can_reuse_session (state_hint ctx) = false ->
  exists s,
    handed_back (apply_session_decision (decide_session_after_interrupt ctx) self)
      = handed_back self ++ [RetainedSessionDisposition_Retain s] /\
    requires_physical_session_preservation s = true /\
    lock_state s = lock_state (carrying self) /\
    session_residue_state (carrying self) ⊑ session_residue_state s.
Proof.
  intros Hc Hl Hp Hk.
  assert (Hd : decide_session_after_interrupt ctx <> SessionDecision_IgnoreStaleEvent /\
    decide_session_after_interrupt ctx <> SessionDecision_ReuseSamePhysicalSession /\
    decide_session_after_interrupt ctx
      <> SessionDecision_ReplacePhysicalSessionKeepUiConnected)
    by (by apply preserved_decision).
  destruct Hd as (H1 & H2 & H3).
  destruct (cleanup_hands _ self H1) as (d & Hh & Hb).
  destruct (handed_carries _ _ _ Hh) as (? & ? & _).
  destruct (handed_preserved _ _ _ Hh) as [Hf ?]; try done.
  destruct d as [s|s]; [|done]. by exists s.
Qed.

Lemma interrupted_work_is_filed_witness :
  let ctx := interrupt_witness SqlKind_Dml
               (from_transaction_state TransactionSessionState_MaybeDirty) in
  let self := mkCleanup (from_transaction_state TransactionSessionState_MaybeDirty)
                RetainedSessionState_default false TransactionSessionState_Clean false [] in
  exists s,
    handed_back (apply_session_decision (decide_session_after_interrupt ctx) self)
      = handed_back self ++ [RetainedSessionDisposition_Retain s] /\
    requires_physical_session_preservation s = true /\
    lock_state s = lock_state (carrying self) /\
    session_residue_state (carrying self) ⊑ session_residue_state s.
Proof.
  apply interrupted_work_is_filed.
  - by split.
  - intros [?|[?|?]]; discriminate.
  - reflexivity.
  - left. discriminate.
Defined.
