(* ===== verification/SessionCancel.v ===== *)
(** * [src/db/session_policy.rs]: reading error messages, and asking past a cancel

    The string-level classifiers (cancel, timeout, connection loss, recoverable
    timeout) and the rule that a session is asked a second time, once, when its
    first answer was a cancel this application had sent.  Warnings written to the
    log are not modelled. *)
From S2P Require Import Prelude RustStr RetainedSession SessionPolicy.

(** ** Message classifiers *)

Definition to_ascii_lowercase (c : char) : char :=
  if is_ascii_uppercase c then (c + 32)%N else c.

Definition ascii_lower (s : str) : str := to_ascii_lowercase <$> s.

(** [lower.contains(needle)], and whether any needle of a list is contained. *)
Definition contains_text (s : str) (needle : string) : bool := str_contains s (u needle).
Definition contains_any (s : str) (needles : list string) : bool :=
  existsb (contains_text s) needles.

Definition QUERY_CANCELLED : string := "Query cancelled".

Definition ORACLE_THIN_CALL_TIMEOUT_MESSAGE : string := "Oracle thin call timeout exceeded".

Definition DatabaseType_ALL : list DatabaseType :=
  [DatabaseType_Oracle; DatabaseType_MySQL; DatabaseType_MariaDB].

Definition is_lock_wait_timeout_message (lower : str) : bool :=
  contains_text lower "error 1205" || contains_text lower "lock wait timeout exceeded".

Definition has_structured_mysql_recoverable_timeout_marker (lower : str) : bool :=
  contains_text lower "error 3024" || contains_text lower "error 1969".

Definition fatal_connection_markers : list string := [
    "bad handshake"; "communications link failure"; "can't connect to mysql server";
    "connection aborted"; "connection closed"; "ora-3114"; "ora-03113"; "ora-03114";
    "ora-03135"; "error 2006"; "error 2013"; "failed to read packet";
    "failed to read from socket"; "failed to receive packet"; "failed to write to socket";
    "not connected"; "closed connection"; "connection was killed"; "connection lost";
    "connection refused"; "server has gone away"; "server has closed the connection";
    "server closed the connection"; "server shutdown in progress"; "lost connection";
    "commands out of sync"; "connection reset"; "broken pipe"; "driver error"; "drivererror";
    "malformed packet"; "network is unreachable"; "no connection available";
    "operation timed out"; "packet out of order"; "packets out of order"; "pool disconnected";
    "socket timeout"; "network timeout"; "read timeout"; "write timeout"; "connection timeout";
    "unexpected eof" ].

Definition has_fatal_connection_marker (lower : str) : bool :=
  contains_any lower fatal_connection_markers.

Definition MYSQL_QUERY_CANCEL_MARKERS : list string := [
    "query execution was interrupted"; "query was killed" ].

Definition MYSQL_CONNECTION_LOSS_MARKERS : list string := [
    "lost connection"; "server has gone away"; "server has closed the connection";
    "server closed the connection"; "connection was killed"; "communications link failure";
    "error 2006"; "error 2013" ].

Definition query_cancel_markers_for_db_type (db_type : DatabaseType) : list string :=
  match db_type with
  | DatabaseType_Oracle => ["ora-01013"; "user requested cancel"]
  | DatabaseType_MySQL | DatabaseType_MariaDB => MYSQL_QUERY_CANCEL_MARKERS
  end.

Definition MYSQL_QUERY_TIMEOUT_MARKERS : list string := [
    "error 3024"; "maximum statement execution time exceeded"; "error 1969";
    "max_statement_time exceeded"; "execution time limit" ].

Definition query_timeout_markers_for_db_type (db_type : DatabaseType) : list string :=
  match db_type with
  | DatabaseType_Oracle => ["dpi-1067"; "oracle thin call timeout exceeded"]
  | DatabaseType_MySQL | DatabaseType_MariaDB => MYSQL_QUERY_TIMEOUT_MARKERS
  end.

Definition connection_loss_markers_for_db_type (db_type : DatabaseType) : list string :=
  match db_type with
  | DatabaseType_Oracle =>
      [ "not logged on"; "end-of-file on communication channel"; "ora-01012"; "ora-03113";
        "ora-03114"; "ora-03135"; "dpi-1002"; "dpi-1010"; "dpi-1080" ]
  | DatabaseType_MySQL | DatabaseType_MariaDB => MYSQL_CONNECTION_LOSS_MARKERS
  end.

Definition lower_matches_any_db_marker (lower : str) (markers_for : DatabaseType -> list string)
    : bool :=
  contains_any lower (List.flat_map markers_for DatabaseType_ALL).

Definition message_reports_query_timeout (lower : str) : bool :=
  contains_text lower "query timed out"
  || lower_matches_any_db_marker lower query_timeout_markers_for_db_type.

Definition message_indicates_query_cancel (message : str) : bool :=
  let lower := ascii_lower (trim message) in
  if str_contains lower (ascii_lower (u QUERY_CANCELLED)) || contains_text lower "query canceled"
  then true
  else if message_reports_query_timeout lower then false
  else lower_matches_any_db_marker lower query_cancel_markers_for_db_type.

Definition message_indicates_execution_abort (message : str) : bool :=
  if message_indicates_query_cancel message then true
  else
    let lower := ascii_lower (trim message) in
    message_reports_query_timeout lower || contains_text lower "timed out"
    || contains_text lower "timeout".

Definition message_indicates_connection_loss (message : str) : bool :=
  let lower := ascii_lower (trim message) in
  contains_text lower "not connected" || contains_text lower "connection was lost"
  || contains_text lower "connection lost"
  || lower_matches_any_db_marker lower connection_loss_markers_for_db_type.

Definition message_is_lock_wait_timeout (message : str) : bool :=
  is_lock_wait_timeout_message (ascii_lower (trim message)).

Definition message_has_fatal_connection_marker (message : str) : bool :=
  has_fatal_connection_marker (ascii_lower (trim message)).

(** [DatabaseType::is_recoverable_timeout_message], through the backends. *)
Definition backend_is_recoverable_timeout_message (db_type : DatabaseType)
    (trimmed lower : str) : bool :=
  match db_type with
  | DatabaseType_Oracle =>
      contains_text trimmed "DPI-1067" || contains_text lower "dpi-1067"
      || str_contains lower (ascii_lower (u ORACLE_THIN_CALL_TIMEOUT_MESSAGE))
  | DatabaseType_MySQL | DatabaseType_MariaDB =>
      contains_text lower "error 3024" || contains_text lower "er_query_timeout"
      || contains_text lower "max_execution_time" || contains_text lower "max_statement_time"
      || contains_text lower "max statement time exceeded"
      || contains_text lower "maximum statement execution time exceeded"
  end.

Definition is_recoverable_timeout_message (db_type : DatabaseType) (err_msg : str) : bool :=
  let trimmed := trim err_msg in
  let lower := ascii_lower trimmed in
  if is_lock_wait_timeout_message lower then false
  else if match db_type with
          | DatabaseType_MySQL | DatabaseType_MariaDB =>
              has_structured_mysql_recoverable_timeout_marker lower
          | DatabaseType_Oracle => false
          end
  then true
  else if has_fatal_connection_marker lower then false
  else backend_is_recoverable_timeout_message db_type trimmed lower.

Definition is_recoverable_timeout (db_type : DatabaseType) (err_msg : str) (kind : SqlKind)
    (lazy : LazyFetchState) : bool :=
  if negb (is_select_like kind) then false
  else if match lazy with LazyFetchState_Unknown => true | _ => false end then false
  else is_recoverable_timeout_message db_type err_msg.

Inductive FailedReadDisposition := FailedReadDisposition_FailOpen | FailedReadDisposition_Stop.

Definition FailedReadDisposition_of (message : str) : FailedReadDisposition :=
  match message_indicates_query_cancel message with
  | true => FailedReadDisposition_Stop
  | false => FailedReadDisposition_FailOpen
  end.

Definition stops_the_action (d : FailedReadDisposition) : bool :=
  match d with FailedReadDisposition_Stop => true | _ => false end.

(** ** Asking past our own cancel *)

Inductive SessionCancelResidue :=
| SessionCancelResidue_NothingLeftToLand | SessionCancelResidue_MayLandOnTheNextCall.

Definition after_a_cancel_this_app_sent (cancel_sent : bool) (driver : SessionCancelResidue)
    : SessionCancelResidue :=
  if cancel_sent then driver else SessionCancelResidue_NothingLeftToLand.

Definition may_land_on_the_next_call (r : SessionCancelResidue) : bool :=
  match r with SessionCancelResidue_MayLandOnTheNextCall => true | _ => false end.

(** [Result<T, E>]. *)
Inductive Result (T E : Type) := Ok (answer : T) | Err (error : E).
Arguments Ok {T E} answer.
Arguments Err {T E} error.

Section Asking.
(** [W] is everything the call can see and change; [ask] is the [FnMut]
    closure, the residue closure reads the world, and [to_string] is the
    error's [Display]. *)
Context {W T E : Type} (to_string : E -> str).

Definition answer_not_taken_from_our_own_cancel_when
    (residue_when_the_answer_came : W -> SessionCancelResidue)
    (ask : W -> Result T E * W) (w : W) : Result T E * W :=
  match ask w with
  | (Ok answer, w1) => (Ok answer, w1)
  | (Err first, w1) =>
      if negb (may_land_on_the_next_call (residue_when_the_answer_came w1))
         || negb (message_indicates_query_cancel (to_string first))
      then (Err first, w1)
      else ask w1
  end.

Definition answer_not_taken_from_our_own_cancel (residue : SessionCancelResidue)
    (ask : W -> Result T E * W) (w : W) : Result T E * W :=
  answer_not_taken_from_our_own_cancel_when (fun _ => residue) ask w.

Definition answer_a_call_a_cancel_could_be_aimed_at (driver : SessionCancelResidue)
    (a_cancel_is_aimed_at_this_call : W -> bool) (ask : W -> Result T E * W) (w : W)
    : Result T E * W :=
  answer_not_taken_from_our_own_cancel_when
    (fun w => if a_cancel_is_aimed_at_this_call w
              then SessionCancelResidue_NothingLeftToLand else driver) ask w.
End Asking.

(** ** Properties *)

(** The number of times the session was asked, kept beside the world. *)
Definition counted {W A : Type} (ask : W -> A * W) (wn : W * nat) : A * (W * nat) :=
  let '(w, n) := wn in let '(r, w') := ask w in (r, (w', S n)).

Definition app_says_cancelled (message : str) : bool :=
  let lower := ascii_lower (trim message) in
  str_contains lower (ascii_lower (u QUERY_CANCELLED)) || contains_text lower "query canceled".

(** A call is repeated at most once, and exactly when its first answer was a
    failure that reads as a query cancel while, at the moment that answer came, a
    cancel of this application could still land on the next call; the answer is
    then the second call's whatever it is, and the first call's otherwise.  For a
    call a cancel can be aimed at, a cancel aimed at it while it ran, read from
    the world the call left behind, means it is never repeated. *)
Theorem call_is_repeated_only_past_our_own_cancel {W T E : Type} (to_string : E -> str)
    (driver : SessionCancelResidue) (aimed : W -> bool) (ask : W -> Result T E * W) (w : W) :
  let '(first, w1) := ask w in
  let '(answer, (w', n)) :=
    answer_a_call_a_cancel_could_be_aimed_at to_string driver (fun '(w, _) => aimed w)
      (counted ask) (w, 0) in
  let repeated := exists e, first = Err e /\ aimed w1 = false
    /\ driver = SessionCancelResidue_MayLandOnTheNextCall
    /\ message_indicates_query_cancel (to_string e) = true in
  (n = 1 /\ ~ repeated /\ (answer, w') = (first, w1)) \/
  (n = 2 /\ repeated /\ (answer, w') = ask w1).
Proof.
  unfold answer_a_call_a_cancel_could_be_aimed_at, answer_not_taken_from_our_own_cancel_when.
  cbn. destruct (ask w) as [[a|e] w1]; [left; naive_solver|].
  destruct (aimed w1) eqn:Ha, driver, (message_indicates_query_cancel (to_string e)) eqn:Hm;
    cbn; try (left; split_and!; [done|intros (? & ? & ? & ? & ?); simplify_eq; congruence|done]).
  destruct (ask w1). right. split_and!; [done| |done]. by exists e.
Qed.

(** A timeout is not a cancel, however the server words it: a failure that
    reports a query timeout and does not carry the application's own cancel
    sentence is never classified as a cancel, is an abort, leaves a fail-open
    read its default, and makes no call be repeated. *)
Theorem timeout_report_is_not_a_cancel {W T E : Type} (to_string : E -> str)
    (residue : W -> SessionCancelResidue) (ask : W -> Result T E * W) (w w1 : W) (e : E) :
  ask w = (Err e, w1) ->
  message_reports_query_timeout (ascii_lower (trim (to_string e))) = true ->
  app_says_cancelled (to_string e) = false ->
  message_indicates_query_cancel (to_string e) = false /\
  message_indicates_execution_abort (to_string e) = true /\
  FailedReadDisposition_of (to_string e) = FailedReadDisposition_FailOpen /\
  answer_not_taken_from_our_own_cancel_when to_string residue ask w = (Err e, w1).
Proof.
  intros Ha Ht Hs.
  assert (Hc : message_indicates_query_cancel (to_string e) = false).
  { unfold message_indicates_query_cancel. cbn zeta. unfold app_says_cancelled in Hs.
    by rewrite Hs, Ht. }
  unfold message_indicates_execution_abort, FailedReadDisposition_of,
    answer_not_taken_from_our_own_cancel_when. rewrite Ha, Hc, Ht. cbn.
  by rewrite orb_true_r.
Qed.

(** The server's words for a MySQL statement timeout open with the sentence a
    [KILL QUERY] produces. *)
Definition mysql_timeout_text : str :=
  u "ERROR 3024 (HY000): Query execution was interrupted, maximum statement execution time exceeded".

Lemma timeout_report_is_not_a_cancel_witness :
  message_indicates_query_cancel (u "Query execution was interrupted") = true /\
  message_indicates_query_cancel mysql_timeout_text = false /\
  message_indicates_execution_abort mysql_timeout_text = true /\
  FailedReadDisposition_of mysql_timeout_text = FailedReadDisposition_FailOpen /\
  answer_not_taken_from_our_own_cancel_when (T := unit) id
    (fun _ : nat => SessionCancelResidue_MayLandOnTheNextCall)
    (fun n => (Err mysql_timeout_text, S n)) 0 = (Err mysql_timeout_text, 1).
Proof.
  split; [vm_compute; reflexivity|].
  apply (timeout_report_is_not_a_cancel (T := unit) id); [reflexivity| |];
    vm_compute; reflexivity.
Defined.

(** The two readers of one message still disagree where a timeout variable is
    only named: the recoverable-timeout reader takes the variable for a report. *)
Example named_timeout_variable_reads_as_both :
  let message := u "Failed to apply SET SESSION max_execution_time = 5000: Query execution was interrupted" in
  message_indicates_query_cancel message = true /\
  is_recoverable_timeout_message DatabaseType_MySQL message = true.
Proof. vm_compute. done. Qed.
