(* ===== verification/TotalOrder.v ===== *)
(** * Orderings and stable sorting

    Rust's [Ordering] is [comparison].  [TotalCmp] is what [sort_by] asks of the
    closure it is given; [StableSort] is what [sort_by] promises in return. *)
From Stdlib Require Import QArith.
From stdpp Require Import sorting.
From S2P Require Import Prelude.

(** ** Total preorders as comparisons *)

Class TotalCmp {A} (cmp : A -> A -> comparison) : Prop := {
  cmp_refl x : cmp x x = Eq;
  cmp_sym x y : cmp y x = CompOpp (cmp x y);
  cmp_trans x y z : cmp x y <> Gt -> cmp y z <> Gt -> cmp x z <> Gt
}.

#[global] Arguments cmp_refl {A} cmp {_}.
#[global] Arguments cmp_sym {A} cmp {_}.
#[global] Arguments cmp_trans {A} cmp {_}.

(** [a.cmp(b).then(...)]. *)
Definition then_cmp (c d : comparison) : comparison := match c with Eq => d | _ => c end.

Fixpoint lex_cmp {A} (cmp : A -> A -> comparison) (l r : list A) : comparison :=
  match l, r with
  | [], [] => Eq
  | [], _ :: _ => Lt
  | _ :: _, [] => Gt
  | x :: l, y :: r => then_cmp (cmp x y) (lex_cmp cmp l r)
  end.

Definition pair_cmp {A B} (cmpA : A -> A -> comparison) (cmpB : B -> B -> comparison) (p q : A * B) :=
  then_cmp (cmpA p.1 q.1) (cmpB p.2 q.2).

(** What is on the left comes first. *)
Definition sum_cmp {A B} (cmpA : A -> A -> comparison) (cmpB : B -> B -> comparison) (p q : A + B) :=
  match p, q with
  | inl a, inl a' => cmpA a a'
  | inl _, inr _ => Lt
  | inr _, inl _ => Gt
  | inr b, inr b' => cmpB b b'
  end.

Section Facts.
Context {A} (cmp : A -> A -> comparison) {T : TotalCmp cmp}.

Lemma cmp_eq_sym x y : cmp x y = Eq -> cmp y x = Eq.
Proof. intros E. by rewrite (cmp_sym cmp x y), E. Qed.

Lemma cmp_lt_gt x y : cmp x y = Lt <-> cmp y x = Gt.
Proof. rewrite (cmp_sym cmp x y). by destruct (cmp x y). Qed.

Lemma cmp_eq_trans x y z : cmp x y = Eq -> cmp x z = cmp y z.
Proof.
  intros E. pose proof (cmp_eq_sym _ _ E) as E'. pose proof (cmp_sym cmp x z). pose proof (cmp_sym cmp y z).
  pose proof (cmp_trans cmp x y z). pose proof (cmp_trans cmp y x z).
  pose proof (cmp_trans cmp z x y). pose proof (cmp_trans cmp z y x).
  destruct (cmp x z) eqn:?, (cmp y z) eqn:?; cbn in *; try congruence; exfalso; intuition congruence.
Qed.

Lemma cmp_eq_trans_r x y z : cmp x y = Eq -> cmp z x = cmp z y.
Proof. intros E. rewrite (cmp_sym cmp x z), (cmp_sym cmp y z). by rewrite (cmp_eq_trans x y z E). Qed.

Lemma cmp_lt_trans x y z : cmp x y = Lt -> cmp y z <> Gt -> cmp x z = Lt.
Proof.
  intros E H. pose proof (cmp_trans cmp x y z ltac:(congruence) H).
  destruct (cmp x z) eqn:Exz; [|done|done]. exfalso.
  rewrite (cmp_eq_trans x z y Exz) in E. apply cmp_lt_gt in E. congruence.
Qed.
End Facts.

Lemma then_cmp_not_gt c d : then_cmp c d <> Gt <-> c = Lt \/ (c = Eq /\ d <> Gt).
Proof. destruct c, d; cbn; intuition congruence. Qed.

#[export] Instance pair_cmp_total {A B} (cmpA : A -> A -> comparison) (cmpB : B -> B -> comparison) :
  TotalCmp cmpA -> TotalCmp cmpB -> TotalCmp (pair_cmp cmpA cmpB).
Proof.
  intros TA TB. split; unfold pair_cmp.
  - intros [a b]. cbn. by rewrite (cmp_refl cmpA), (cmp_refl cmpB).
  - intros [a b] [a' b']. cbn. rewrite (cmp_sym cmpA a), (cmp_sym cmpB b). by destruct (cmpA a a').
  - intros [a b] [a' b'] [a'' b'']. cbn. rewrite !then_cmp_not_gt. intros [H|[H H']] [G|[G G']].
    + left. eapply cmp_lt_trans; [done|exact H|congruence].
    + left. eapply cmp_lt_trans; [done|exact H|congruence].
    + left. by rewrite (cmp_eq_trans _ a a' a'').
    + right. split; [by rewrite (cmp_eq_trans _ a a' a'')|by eapply (cmp_trans cmpB)].
Qed.

#[export] Instance sum_cmp_total {A B} (cmpA : A -> A -> comparison) (cmpB : B -> B -> comparison) :
  TotalCmp cmpA -> TotalCmp cmpB -> TotalCmp (sum_cmp cmpA cmpB).
Proof.
  intros TA TB. split.
  - intros [a|b]; [apply (cmp_refl cmpA)|apply (cmp_refl cmpB)].
  - intros [a|b] [a'|b']; try done; [apply (cmp_sym cmpA)|apply (cmp_sym cmpB)].
  - intros [a|b] [a'|b'] [a''|b'']; cbn; try done; [apply (cmp_trans cmpA)|apply (cmp_trans cmpB)].
Qed.

#[export] Instance lex_cmp_total {A} (cmp : A -> A -> comparison) : TotalCmp cmp -> TotalCmp (lex_cmp cmp).
Proof.
  intros T. split.
  - intros l. induction l as [|x l IH]; [done|]. cbn. by rewrite (cmp_refl cmp).
  - intros l. induction l as [|x l IH]; intros [|y r]; try done. cbn. rewrite (cmp_sym cmp x y), IH.
    by destruct (cmp x y).
  - intros l. induction l as [|x l IH]; intros [|y r] [|z s]; try done. cbn.
    rewrite !then_cmp_not_gt. intros [H|[H H']] [G|[G G']].
    + left. eapply cmp_lt_trans; [done|exact H|congruence].
    + left. eapply cmp_lt_trans; [done|exact H|congruence].
    + left. by rewrite (cmp_eq_trans _ x y z).
    + right. split; [by rewrite (cmp_eq_trans _ x y z)|by eapply IH].
Qed.

#[export] Instance N_compare_total : TotalCmp N.compare.
Proof.
  split; [apply N.compare_refl|intros; apply N.compare_antisym|].
  intros x y z. rewrite !N.compare_gt_iff. lia.
Qed.

#[export] Instance Q_compare_total : TotalCmp Qcompare.
Proof.
  split.
  - intros x. by apply Qeq_alt.
  - intros x y. unfold Qcompare. apply Z.compare_antisym.
  - intros x y z H G. apply Qle_alt. eapply Qle_trans; by apply Qle_alt.
Qed.

(** A comparison of keys. *)
#[export] Instance key_cmp_total {A K} (key : A -> K) (cmp : K -> K -> comparison) :
  TotalCmp cmp -> TotalCmp (fun x y => cmp (key x) (key y)).
Proof. intros T. split; intros; [apply (cmp_refl cmp)|apply (cmp_sym cmp)|by eapply (cmp_trans cmp)]. Qed.

#[export] Instance opp_cmp_total {A} (cmp : A -> A -> comparison) :
  TotalCmp cmp -> TotalCmp (fun x y => CompOpp (cmp x y)).
Proof.
  intros T. split; intros.
  - by rewrite (cmp_refl cmp).
  - by rewrite (cmp_sym cmp x y).
  - rewrite <- !(cmp_sym cmp) in *. by eapply (cmp_trans cmp z y x).
Qed.

(** ** [sort_by] *)

(** The closure may panic on a pair ([None]).  What the documentation of [sort_by]
    promises: all elements remain in the slice; if the closure compares them by a
    total order, the sort returns, the result is sorted and equal elements keep
    their order; otherwise the order is unspecified and the sort may panic. *)
Class StableSort := {
  sort_by {A} : (A -> A -> option comparison) -> list A -> option (list A);
  sort_by_perm {A} (f : A -> A -> option comparison) (l l' : list A) : sort_by f l = Some l' -> l' ≡ₚ l;
  sort_by_spec {A} (cmp : A -> A -> comparison) (f : A -> A -> option comparison) (l : list A) :
    TotalCmp cmp ->
    (forall x y, x ∈ l -> y ∈ l -> f x y = Some (cmp x y)) ->
    exists l', sort_by f l = Some l' /\ l' ≡ₚ l
      /\ StronglySorted (fun x y => cmp x y <> Gt) l'
      /\ forall x, List.filter (fun y => bool_decide (cmp x y = Eq)) l'
                   = List.filter (fun y => bool_decide (cmp x y = Eq)) l
}.

(** An insertion sort keeps the promise. *)
Section Insertion.
Context {A} (f : A -> A -> option comparison).

Fixpoint insert_by (x : A) (l : list A) : option (list A) :=
  match l with
  | [] => Some [x]
  | y :: l' =>
      match f x y with
      | None => None
      | Some Gt => cons y <$> insert_by x l'
      | Some _ => Some (x :: l)
      end
  end.

Fixpoint insertion_sort (l : list A) : option (list A) :=
  match l with
  | [] => Some []
  | x :: l => match insertion_sort l with Some l' => insert_by x l' | None => None end
  end.

Context (cmp : A -> A -> comparison) {T : TotalCmp cmp}.
Abbreviation eq_to x := (fun y => bool_decide (cmp x y = Eq)).

Lemma insert_by_spec x l :
  (forall y, y ∈ l -> f x y = Some (cmp x y)) ->
  StronglySorted (fun x y => cmp x y <> Gt) l ->
  exists l', insert_by x l = Some l' /\ l' ≡ₚ x :: l
    /\ StronglySorted (fun x y => cmp x y <> Gt) l'
    /\ forall z, List.filter (eq_to z) l' = List.filter (eq_to z) (x :: l).
Proof.
  induction l as [|y l IH]; intros Hf Hs.
  { exists [x]. split_and!; try done. repeat constructor. }
  cbn [insert_by]. rewrite (Hf y) by left. inversion Hs as [|? ? Hl Hy]; subst.
  assert (Hfront : cmp x y <> Gt -> StronglySorted (fun x y => cmp x y <> Gt) (x :: y :: l)).
  { intros Hxy. constructor; [done|]. constructor; [done|].
    eapply Forall_impl; [exact Hy|]. intros z. by apply (cmp_trans cmp). }
  destruct (cmp x y) eqn:Exy; try (exists (x :: y :: l); split_and!; try done; apply Hfront; congruence).
  destruct IH as (l' & E & P & S & F); [intros z Hz; apply Hf; by right|done|].
  exists (y :: l'). rewrite E. split; [done|]. split; [by rewrite P, perm_swap|]. split.
  - constructor; [done|]. apply Forall_forall. intros z Hz. rewrite P in Hz.
    apply elem_of_cons in Hz as [->|Hz]; [|by rewrite Forall_forall in Hy; apply Hy].
    rewrite (cmp_sym cmp x y), Exy. done.
  - intros z. cbn [List.filter]. rewrite F. cbn [List.filter].
    destruct (bool_decide_reflect (cmp z y = Eq)) as [Hzy|], (bool_decide_reflect (cmp z x = Eq)) as [Hzx|]; try done.
    exfalso. apply (cmp_eq_sym cmp) in Hzx. rewrite (cmp_eq_trans cmp x z y Hzx) in Exy. congruence.
Qed.

Lemma insertion_sort_spec l :
  (forall x y, x ∈ l -> y ∈ l -> f x y = Some (cmp x y)) ->
  exists l', insertion_sort l = Some l' /\ l' ≡ₚ l
    /\ StronglySorted (fun x y => cmp x y <> Gt) l'
    /\ forall z, List.filter (eq_to z) l' = List.filter (eq_to z) l.
Proof.
  induction l as [|x l IH]; intros Hf; [exists []; split_and!; try done; constructor|].
  destruct IH as (l1 & E1 & P1 & S1 & F1); [intros; apply Hf; by right|].
  destruct (insert_by_spec x l1) as (l' & E & P & S & F); [|done|].
  { intros y Hy. rewrite P1 in Hy. apply Hf; [by left|by right]. }
  exists l'. cbn [insertion_sort]. rewrite E1. split; [done|]. split; [by rewrite P, P1|]. split; [done|].
  intros z. rewrite F. cbn [List.filter]. by rewrite F1.
Qed.
End Insertion.

Lemma insertion_sort_perm {A} (f : A -> A -> option comparison) l l' : insertion_sort f l = Some l' -> l' ≡ₚ l.
Proof.
  assert (Hins : forall x l l', insert_by f x l = Some l' -> l' ≡ₚ x :: l).
  { clear. intros x l. induction l as [|y l IH]; intros l' H; cbn in H; [by injection H as <-|].
    destruct (f x y) as [[]|]; try done; try by injection H as <-.
    destruct (insert_by f x l) as [l1|]; [|done]. injection H as <-. by rewrite (IH l1 eq_refl), perm_swap. }
  revert l'. induction l as [|x l IH]; intros l' H; cbn in H; [by injection H as <-|].
  destruct (insertion_sort f l) as [l1|]; [|done]. apply Hins in H. by rewrite H, (IH l1 eq_refl).
Qed.

Definition insertion_sort_stable : StableSort :=
  {| sort_by := @insertion_sort;
     sort_by_perm := @insertion_sort_perm;
     sort_by_spec A cmp f l T H := insertion_sort_spec f cmp l H |}.
