(* ===== verification/FindText.v ===== *)
(** * Finding text

    The search of the editor's find bar, and what its matches are. *)
From S2P Require Import Prelude RustStr Utf8.

(** * Find in text

    The one substring search of the program ([find_replace.rs]).  A text is its
    characters; positions are byte offsets, as in the source.  [to_lowercase] is
    the table of the standard library, which maps a character to one or more. *)

(** [text.is_char_boundary(p)], on characters. *)
Definition is_boundary (text : str) (p : nat) : bool := bool_decide (is_Some (str_get_from text p)).

(** [while p > 0 && !text.is_char_boundary(p) { p -= 1; }]. *)
Fixpoint previous_boundary (text : str) (p : nat) : nat :=
  match p with
  | 0 => 0
  | S before => if is_boundary text p then p else previous_boundary text before
  end.

Definition normalize_search_pos (text : str) (pos : Z) : nat :=
  if str_is_empty text then 0
  else
    let p := Nat.min (Z.to_nat (Z.max pos 0)) (utf8_len text) in
    if is_boundary text p then p else previous_boundary text p.

Definition resolve_find_start_pos (text : str) (cursor_pos saved_search_pos : Z) : nat :=
  let normalized_cursor := normalize_search_pos text cursor_pos in
  let normalized_saved := normalize_search_pos text saved_search_pos in
  if negb (normalized_cursor =? normalized_saved) then normalized_cursor else normalized_saved.

Section Lowercase.
Variable to_lowercase : char -> str.

Definition fold_for_case_insensitive (value : str) : str := concat (to_lowercase <$> value).

(** The loop over the end of a match: how long the matching prefix is, in bytes. *)
Fixpoint match_end (folded needle_folded haystack : str) (offset : nat) : option nat :=
  match haystack with
  | [] => None
  | ch :: haystack =>
      let folded := folded ++ to_lowercase ch in
      if (utf8_len folded =? utf8_len needle_folded) && (folded == needle_folded)
      then Some (offset + len_utf8 ch)
      else if utf8_len needle_folded <=? utf8_len folded then None
      else match_end folded needle_folded haystack (offset + len_utf8 ch)
  end.

(** The loop over the start. *)
Fixpoint match_start (needle_folded haystack : str) (start : nat) : option (nat * nat) :=
  match haystack with
  | [] => None
  | ch :: rest =>
      match match_end [] needle_folded haystack 0 with
      | Some len => Some (start, start + len)
      | None => match_start needle_folded rest (start + len_utf8 ch)
      end
  end.

Definition find_unicode_case_insensitive_bounds (haystack needle : str) : option (nat * nat) :=
  let needle_folded := fold_for_case_insensitive needle in
  if str_is_empty needle_folded then None else match_start needle_folded haystack 0.

Definition find_next_match (text search_text : str) (start_pos : Z) (case_sensitive : bool) : option (nat * nat) :=
  if str_is_empty search_text || str_is_empty text then None
  else
    let start_pos := normalize_search_pos text start_pos in
    match str_get_from text start_pos with
    | None => None
    | Some haystack =>
        if case_sensitive then
          match str_find haystack search_text with
          | None => None
          | Some index =>
              let match_start := start_pos + byte_offset haystack index in
              Some (match_start, match_start + utf8_len search_text)
          end
        else
          (fun '(relative_start, relative_end) => (start_pos + relative_start, start_pos + relative_end))
          <$> find_unicode_case_insensitive_bounds haystack search_text
    end.

(** Find, then from the start: what the session's F3 selects. *)
Definition find_wrapping (text search_text : str) (start_pos : Z) (case_sensitive : bool) : option (nat * nat) :=
  match find_next_match text search_text start_pos case_sensitive with
  | Some found => Some found
  | None => if Z.ltb 0 start_pos then find_next_match text search_text 0 case_sensitive else None
  end.
End Lowercase.

Definition ascii_lowercase (c : char) : str := [if is_ascii_uppercase c then (c + 32)%N else c].

Example finds_case_insensitive :
  find_next_match ascii_lowercase (u "select A from DUAL") (u "dual") 1 false = Some (14, 18)
  /\ find_next_match ascii_lowercase (u "abab") (u "ab") 1 true = Some (2, 4).
Proof. vm_compute. done. Qed.

(** * What find promises

    The first occurrence at or behind the place the search starts from, and none
    only when there is none; with and without regard to case. *)

(** ** Byte offsets *)

Lemma utf8_len_cons c s : utf8_len (c :: s) = len_utf8 c + utf8_len s.
Proof. done. Qed.

Lemma utf8_len_0 s : utf8_len s = 0 -> s = [].
Proof. destruct s as [|c s]; [done|]. rewrite utf8_len_cons. pose proof (len_utf8_pos c). lia. Qed.

Lemma get_from_boundary text p s :
  str_get_from text p = Some s -> exists k, k <= length text /\ p = byte_offset text k /\ s = drop k text.
Proof.
  revert p. induction text as [|c text IH]; intros [|p] H; cbn in H.
  - injection H as <-. exists 0. split_and!; [done|done|by rewrite drop_0].
  - done.
  - injection H as <-. exists 0. split_and!; [lia|done|by rewrite drop_0].
  - destruct (Nat.leb_spec (len_utf8 c) (S p)); [|done]. apply IH in H as (k & Hk & Hp & ->).
    exists (S k). split_and!; [cbn; lia| |done]. unfold byte_offset in *. cbn [take].
    rewrite utf8_len_cons. lia.
Qed.

Lemma get_from_offset text k : k <= length text -> str_get_from text (byte_offset text k) = Some (drop k text).
Proof.
  revert k. induction text as [|c text IH]; intros [|k] Hk; try done; try (cbn in Hk; lia).
  unfold byte_offset in *. cbn [take drop]. rewrite utf8_len_cons.
  pose proof (len_utf8_pos c). destruct (len_utf8 c + utf8_len (take k text)) as [|n] eqn:E; [lia|].
  cbn [str_get_from]. destruct (Nat.leb_spec (len_utf8 c) (S n)); [|lia].
  replace (S n - len_utf8 c) with (utf8_len (take k text)) by lia. apply IH. cbn in Hk. lia.
Qed.

Lemma previous_boundary_ok text p : is_boundary text (previous_boundary text p) = true.
Proof.
  induction p as [|p IH].
  - unfold is_boundary. apply bool_decide_true. by destruct text.
  - cbn [previous_boundary]. by destruct (is_boundary text (S p)) eqn:E.
Qed.

(** Where a search starts is the offset of a character, or the end. *)
Lemma normalized_boundary text pos :
  exists k, k <= length text /\ normalize_search_pos text pos = byte_offset text k.
Proof.
  assert (H : is_boundary text (normalize_search_pos text pos) = true).
  { unfold normalize_search_pos. destruct text as [|c text]; [done|]. cbn [str_is_empty].
    set (p := Nat.min _ _). destruct (is_boundary (c :: text) p) eqn:E; [done|apply previous_boundary_ok]. }
  unfold is_boundary in H. apply bool_decide_eq_true in H as [s H].
  apply get_from_boundary in H as (k & Hk & Hp & _). by exists k.
Qed.

(** ** Occurrences *)

Section Occurs.
Context (to_lowercase : char -> str).
Hypothesis lowercase_some : forall c, to_lowercase c <> [].
Abbreviation fold := (fold_for_case_insensitive to_lowercase).

Definition same_text (case_sensitive : bool) (s t : str) : Prop :=
  if case_sensitive then s = t else fold s = fold t.

(** [b] stands at character [i] of the text. *)
Definition occurs (case_sensitive : bool) (text needle : str) (i : nat) (b : str) : Prop :=
  b <> [] /\ same_text case_sensitive b needle /\ exists rest, drop i text = b ++ rest.

Lemma fold_app s t : fold (s ++ t) = fold s ++ fold t.
Proof. unfold fold_for_case_insensitive. by rewrite fmap_app, concat_app. Qed.

Lemma fold_nil s : fold s = [] -> s = [].
Proof.
  destruct s as [|c s]; [done|]. unfold fold_for_case_insensitive. cbn. intros [H _]%app_eq_nil.
  by apply lowercase_some in H.
Qed.

Lemma match_end_found folded needle h off len :
  match_end to_lowercase folded needle h off = Some len ->
  exists b rest, h = b ++ rest /\ b <> [] /\ folded ++ fold b = needle /\ len = off + utf8_len b.
Proof.
  revert folded off. induction h as [|ch h IH]; intros folded off H; [done|]. cbn [match_end] in H.
  destruct (_ && _) eqn:E.
  - injection H as <-. apply andb_true_iff in E as [_ E%bool_decide_eq_true].
    exists [ch], h. split_and!; try done.
    + unfold fold_for_case_insensitive. cbn. by rewrite app_nil_r.
    + rewrite utf8_len_cons. cbn. lia.
  - destruct (_ <=? _); [done|]. apply IH in H as (b & rest & -> & Hb & Hf & Hl).
    exists (ch :: b), rest. split_and!; try done.
    + rewrite <- Hf, <- app_assoc. done.
    + rewrite utf8_len_cons. lia.
Qed.

Lemma match_end_none folded needle h off :
  match_end to_lowercase folded needle h off = None ->
  forall b rest, h = b ++ rest -> b <> [] -> folded ++ fold b <> needle.
Proof.
  revert folded off. induction h as [|ch h IH]; intros folded off H b rest E Hb; [by destruct b|].
  destruct b as [|c b]; [done|]. injection E as <- E. cbn [match_end] in H.
  change (fold (ch :: b)) with (to_lowercase ch ++ fold b). rewrite app_assoc.
  set (folded' := folded ++ to_lowercase ch) in *.
  destruct (_ && _) eqn:Et; [done|]. apply andb_false_iff in Et.
  assert (Hne : folded' <> needle).
  { intros ->. destruct Et as [Et|Et]; [by rewrite Nat.eqb_refl in Et|].
    by apply bool_decide_eq_false in Et. }
  destruct (Nat.leb_spec (utf8_len needle) (utf8_len folded')) as [Hle|Hlt].
  - intros Heq. assert (Hz : utf8_len (fold b) = 0).
    { apply (f_equal utf8_len) in Heq. rewrite utf8_len_app in Heq. lia. }
    apply utf8_len_0 in Hz. rewrite Hz, app_nil_r in Heq. done.
  - destruct b as [|d b]; [by cbn; rewrite app_nil_r|]. by eapply (IH folded').
Qed.

Lemma match_start_spec needle h start :
  match match_start to_lowercase (fold needle) h start with
  | Some (s, e) => exists i b, s = start + byte_offset h i /\ e = s + utf8_len b /\ occurs false h needle i b
      /\ forall j b', occurs false h needle j b' -> i <= j
  | None => forall j b', ~ occurs false h needle j b'
  end.
Proof.
  revert start. induction h as [|ch h IH]; intros start; cbn [match_start].
  { intros j b (Hb & _ & rest & E). rewrite drop_nil in E. by destruct b. }
  destruct (match_end _ _ _ _ _) as [len|] eqn:Em.
  - apply match_end_found in Em as (b & rest & E & Hb & Hf & ->). exists 0, b.
    split; [unfold byte_offset; cbn; lia|]. split; [done|]. split; [|intros; lia].
    split; [done|]. split; [done|]. by exists rest.
  - specialize (IH (start + len_utf8 ch)). pose proof (match_end_none _ _ _ _ Em) as Hno.
    assert (H0 : forall b, ~ occurs false (ch :: h) needle 0 b).
    { intros b (Hb & Hs & rest & E). rewrite drop_0 in E. eapply Hno; [exact E|done|exact Hs]. }
    destruct (match_start _ _ h _) as [[s e]|].
    + destruct IH as (i & b & -> & -> & Ho & Hfirst). exists (S i), b.
      split; [unfold byte_offset; cbn [take]; rewrite utf8_len_cons; lia|]. split; [done|]. split; [done|].
      intros [|j] b' Ho'; [by apply H0 in Ho'|]. apply le_n_S. by eapply Hfirst.
    + intros [|j] b'; [apply H0|apply IH].
Qed.

Lemma starts_with_spec s pat : starts_with s pat = true <-> exists rest, s = pat ++ rest.
Proof.
  revert s. induction pat as [|p pat IH]; intros [|c s]; cbn; try (split; [done|by intros [? ?]]).
  - split; [by exists []|done].
  - split; [by exists (c :: s)|done].
  - rewrite andb_true_iff, N.eqb_eq, IH. split.
    + intros [-> [rest ->]]. by exists rest.
    + intros [rest [= -> ->]]. split; [done|by exists rest].
Qed.

Lemma str_find_spec needle h :
  needle <> [] ->
  match str_find h needle with
  | Some i => i <= length h /\ occurs true h needle i needle /\ forall j b, occurs true h needle j b -> i <= j
  | None => forall j b, ~ occurs true h needle j b
  end.
Proof.
  intros Hn. induction h as [|c h IH].
  - destruct needle; [done|]. cbn. intros j b (Hb & _ & rest & E). rewrite drop_nil in E. by destruct b.
  - cbn [str_find]. destruct (starts_with (c :: h) needle) eqn:E.
    + apply starts_with_spec in E as [rest E]. split; [lia|]. split; [|intros; lia].
      split; [done|]. split; [done|]. by exists rest.
    + assert (H0 : forall b, ~ occurs true (c :: h) needle 0 b).
      { intros b (_ & Hs & rest & E'). cbn in Hs. subst b.
        pose proof (proj2 (starts_with_spec (c :: h) needle) (ex_intro _ rest E')). congruence. }
      destruct (str_find h needle) as [i|]; cbn.
      * destruct IH as (Hi & Ho & Hfirst). split; [lia|]. split; [done|].
        intros [|j] b Hb; [by apply H0 in Hb|]. apply le_n_S. by eapply Hfirst.
      * intros [|j] b; [apply H0|apply IH].
Qed.

Lemma occurs_drop cs text needle k i b : occurs cs (drop k text) needle i b <-> occurs cs text needle (k + i) b.
Proof. unfold occurs. by rewrite drop_drop. Qed.

Lemma byte_offset_drop text k i : byte_offset text k + byte_offset (drop k text) i = byte_offset text (k + i).
Proof. unfold byte_offset. by rewrite <- utf8_len_app, take_take_drop. Qed.

(** Find returns the first occurrence that starts at or behind the place the
    search starts from, which is the given offset or the character it is inside
    of; it returns nothing exactly when there is no such occurrence. *)
Theorem find_returns_the_first text needle pos case_sensitive :
  needle <> [] ->
  exists k, k <= length text /\ normalize_search_pos text pos = byte_offset text k /\
  match find_next_match to_lowercase text needle pos case_sensitive with
  | Some (s, e) =>
      exists i b, k <= i /\ s = byte_offset text i /\ e = s + utf8_len b
      /\ occurs case_sensitive text needle i b
      /\ forall j b', k <= j -> occurs case_sensitive text needle j b' -> i <= j
  | None => forall j b, k <= j -> ~ occurs case_sensitive text needle j b
  end.
Proof.
  intros Hn. destruct (normalized_boundary text pos) as (k & Hk & Ep). exists k. split; [done|]. split; [done|].
  assert (Hshift : forall (P : nat -> Prop), (forall j, P (k + j)) -> forall j, k <= j -> P j).
  { intros P H j Hj. replace j with (k + (j - k)) by lia. apply H. }
  unfold find_next_match.
  destruct text as [|c text].
  { rewrite orb_true_r. intros j b _ (Hb & _ & rest & E). rewrite drop_nil in E. by destruct b. }
  destruct needle as [|nc needle]; [done|]. cbn [str_is_empty orb]. cbn zeta. rewrite Ep, get_from_offset by done.
  set (t := c :: text) in *. set (n := nc :: needle) in *. destruct case_sensitive.
  - pose proof (str_find_spec n (drop k t) Hn) as H. destruct (str_find (drop k t) n) as [i|].
    + destruct H as (Hi & Ho & Hfirst). exists (k + i), n. rewrite byte_offset_drop.
      split; [lia|]. split; [done|]. split; [done|]. split; [by apply occurs_drop|].
      intros j b'. revert j. refine (Hshift (fun j => occurs true t n j b' -> k + i <= j) _).
      intros j Hj%occurs_drop. apply Hfirst in Hj. lia.
    + intros j b. revert j. refine (Hshift (fun j => ~ occurs true t n j b) _).
      intros j Hj%occurs_drop. by apply H in Hj.
  - unfold find_unicode_case_insensitive_bounds.
    destruct (str_is_empty (fold n)) eqn:Ee.
    { destruct (fold n) eqn:Ef; [|done]. by apply fold_nil in Ef. }
    pose proof (match_start_spec n (drop k t) 0) as H.
    destruct (match_start to_lowercase (fold n) (drop k t) 0) as [[s e]|]; cbn [fmap option_fmap option_map].
    + destruct H as (i & b & -> & -> & Ho & Hfirst). exists (k + i), b.
      rewrite Nat.add_0_l, <- byte_offset_drop. split; [lia|]. split; [lia|]. split; [lia|]. split; [by apply occurs_drop|].
      intros j b'. revert j. refine (Hshift (fun j => occurs false t n j b' -> k + i <= j) _).
      intros j Hj%occurs_drop. apply Hfirst in Hj. lia.
    + intros j b. revert j. refine (Hshift (fun j => ~ occurs false t n j b) _).
      intros j Hj%occurs_drop. by apply H in Hj.
Qed.

(** A search from the start finds something exactly in the texts in which the
    needle occurs. *)
Lemma find_from_start text needle case_sensitive :
  needle <> [] ->
  is_Some (find_next_match to_lowercase text needle 0 case_sensitive)
  <-> exists i b, occurs case_sensitive text needle i b.
Proof.
  intros Hn. destruct (find_returns_the_first text needle 0 case_sensitive Hn) as (k & Hk & Ep & Hf).
  assert (k = 0) as ->.
  { destruct text as [|c text]; [cbn in Hk; lia|]. destruct k as [|k]; [done|]. exfalso.
    assert (normalize_search_pos (c :: text) 0 = 0) as E0 by done. rewrite E0 in Ep.
    unfold byte_offset in Ep. cbn in Ep. pose proof (len_utf8_pos c). lia. }
  destruct (find_next_match _ _ _ _ _) as [[s e]|].
  - split; [|by eexists]. intros _. destruct Hf as (i & b & _ & _ & _ & Ho & _). by exists i, b.
  - split; [by intros [? ?]|]. intros (i & b & Ho). by destruct (Hf i b ltac:(lia)).
Qed.
End Occurs.

Lemma find_returns_the_first_witness :
  exists i b, 14 = byte_offset (u "select A from DUAL where dual = 1") i
    /\ occurs ascii_lowercase false (u "select A from DUAL where dual = 1") (u "dual") i b.
Proof.
  assert (Hl : forall c, ascii_lowercase c <> []) by done.
  destruct (find_returns_the_first ascii_lowercase Hl (u "select A from DUAL where dual = 1") (u "dual") 3 false
    ltac:(discriminate)) as (k & _ & _ & H).
  revert H.
  match goal with |- match ?t with _ => _ end -> _ => let v := eval vm_compute in t in change t with v end.
  intros (i & b & _ & Hs & _ & Ho & _). by exists i, b.
Defined.
