(* ===== verification/GridSort.v ===== *)
(** * Local sorting of a result grid

    How two rendered cell values of one column are ordered ([grid_sort.rs]) and
    the header sort that uses it ([result_table.rs]).  A comparison that panics
    is [None]; [sort_by] is the library's, a class with its documented promise.
    The state kept with each row of an edited grid is left abstract. *)
From S2P Require Import Prelude RustStr Utf8 TotalOrder.

(** ** Strings of the standard library *)

(** [s.split_once(p)]. *)
Fixpoint split_once (p : char -> bool) (s : str) : option (str * str) :=
  match s with
  | [] => None
  | c :: s => if p c then Some ([], s) else (fun '(a, b) => (c :: a, b)) <$> split_once p s
  end.

(** [s.split(c)]: never empty. *)
Fixpoint split_on (sep : char) (s : str) : list str :=
  match s with
  | [] => [[]]
  | c :: s =>
      if N.eqb c sep then [] :: split_on sep s
      else match split_on sep s with
           | [] => [[c]]
           | piece :: pieces => (c :: piece) :: pieces
           end
  end.

(** [s.truncate(n)]: a panic when [n] is inside a character. *)
Fixpoint truncate (n : nat) (s : str) : option str :=
  match s with
  | [] => Some []
  | c :: s =>
      if n =? 0 then Some []
      else if len_utf8 c <=? n then cons c <$> truncate (n - len_utf8 c) s
      else None
  end.

(** [&str]s compare by their bytes. *)
Definition str_cmp (l r : str) : comparison := lex_cmp N.compare (encode_str l) (encode_str r).

(** ** Cell values *)

Inductive SqlValueKind := Kind_Unknown | Kind_String | Kind_Number | Kind_Boolean | Kind_Temporal | Kind_Binary.
#[export] Instance SqlValueKind_eq_dec : EqDecision SqlValueKind.
Proof. solve_decision. Defined.

Inductive NullOrdering := LastOnAscending | FirstOnAscending.
Record SortColumn := mkSortColumn { kind : SqlValueKind; nulls : NullOrdering }.

Record Decimal := mkDecimal { negative : bool; integer : str; fraction : str }.

Definition digits_only (text : str) : bool := forallb is_ascii_digit text.
Definition all_zero (text : str) : bool := forallb (N.eqb "0"%ch) text.

Definition is_zero (d : Decimal) : bool := all_zero (integer d) && all_zero (fraction d).

Definition parse_decimal (value : str) : option Decimal :=
  match trim value with
  | [] => None
  | (first :: rest) as trimmed =>
      let '(negative, rest) :=
        if N.eqb first "-"%ch then (true, rest)
        else if N.eqb first "+"%ch then (false, rest) else (false, trimmed) in
      let '(integer, fraction) := default (rest, []) (split_once (N.eqb "."%ch) rest) in
      if str_is_empty integer && str_is_empty fraction then None
      else if negb (digits_only integer) || negb (digits_only fraction) then None
      else Some (mkDecimal negative integer fraction)
  end.

(** [text.trim_start_matches('0')]. *)
Fixpoint trim_start_zeros (text : str) : str :=
  match text with
  | c :: rest => if N.eqb c "0"%ch then trim_start_zeros rest else text
  | [] => []
  end.

(** The loop over the digits behind the point, [width] of them from [index] on. *)
Fixpoint compare_fraction (width index : nat) (left right : bytes) : comparison :=
  match width with
  | 0 => Eq
  | S width =>
      then_cmp (N.compare (default "0"%ch (left !! index)) (default "0"%ch (right !! index)))
        (compare_fraction width (S index) left right)
  end.

Definition compare_magnitude (left right : Decimal) : comparison :=
  let left_integer := trim_start_zeros (integer left) in
  let right_integer := trim_start_zeros (integer right) in
  let left_fraction := encode_str (fraction left) in
  let right_fraction := encode_str (fraction right) in
  then_cmp (Nat.compare (utf8_len left_integer) (utf8_len right_integer))
    (then_cmp (str_cmp left_integer right_integer)
      (compare_fraction (Nat.max (length left_fraction) (length right_fraction)) 0
        left_fraction right_fraction)).

Definition compare_decimal (left right : Decimal) : comparison :=
  if is_zero left && is_zero right then Eq
  else match negative left, negative right with
       | false, true => Gt
       | true, false => Lt
       | _, _ =>
           let magnitude := compare_magnitude left right in
           if negative left then CompOpp magnitude else magnitude
       end.

Definition compare_as_number (left right : str) : comparison :=
  match parse_decimal left, parse_decimal right with
  | Some left_value, Some right_value => compare_decimal left_value right_value
  | Some _, None => Lt
  | None, Some _ => Gt
  | None, None => str_cmp left right
  end.

(** ** Dates *)

(** [value.parse::<u32>()] of digits, read from the left. *)
Definition digits_value (text : str) : N := fold_left (fun v c => v * 10 + (c - "0"%ch))%N text 0%N.

Definition parse_digits (value : str) : option N :=
  if str_is_empty value || negb (digits_only value) then None
  else let n := digits_value value in if N.leb n 4294967295 then Some n else None.

(** Year, month, day, hour, minute, second, fractional second. *)
Abbreviation TemporalKey := (list N) (only parsing).

Definition split_date_and_time (value : str) : str * str :=
  match split_once (fun c => existsb (N.eqb c) (u " Tt")) value with
  | Some (date, time) => (date, trim time)
  | None => (value, [])
  end.

Definition parse_iso_date (value : str) : option (N * N * N) :=
  match split_on "-"%ch value with
  | [year; month; day] =>
      if negb (utf8_len year =? 4) then None
      else match parse_digits year, parse_digits month, parse_digits day with
           | Some y, Some m, Some d => Some (y, m, d)
           | _, _, _ => None
           end
  | _ => None
  end.

Definition MONTHS : list str :=
  u <$> ["JAN"; "FEB"; "MAR"; "APR"; "MAY"; "JUN"; "JUL"; "AUG"; "SEP"; "OCT"; "NOV"; "DEC"].

Fixpoint month_position (upper : str) (months : list str) (index : N) : option N :=
  match months with
  | [] => None
  | month :: months => if starts_with upper month then Some (index + 1)%N
                       else month_position upper months (index + 1)
  end.

Definition month_from_abbreviation (value : str) : option N := month_position (ascii_upper value) MONTHS 0.

Definition parse_dd_mon_date (value : str) : option (N * N * N) :=
  match split_on "-"%ch value with
  | [day; month; year] =>
      match month_from_abbreviation month, parse_digits day, parse_digits year with
      | Some month, Some day, Some year_digits =>
          if utf8_len year =? 4 then Some (year_digits, month, day)
          else if (utf8_len year =? 2) && N.ltb year_digits 50 then Some (2000 + year_digits, month, day)%N
          else if utf8_len year =? 2 then Some (1900 + year_digits, month, day)%N
          else None
      | _, _, _ => None
      end
  | _ => None
  end.

(** The fraction on a scale of nine digits; [None] when cutting it panics. *)
Definition scale_fraction (fraction : str) : option str :=
  (fun scaled => scaled ++ replicate (9 - utf8_len scaled) "0"%ch) <$> truncate 9 fraction.

Definition parse_clock (clock : str) : option (N * N * N) :=
  match split_on ":"%ch clock with
  | [hour; minute] =>
      match parse_digits hour, parse_digits minute with
      | Some h, Some m => Some (h, m, 0%N)
      | _, _ => None
      end
  | [hour; minute; second] =>
      match parse_digits hour, parse_digits minute, parse_digits second with
      | Some h, Some m, Some s => Some (h, m, s)
      | _, _, _ => None
      end
  | _ => None
  end.

(** [None] is a panic, [Some None] a time that is not understood. *)
Definition parse_time (value : str) : option (option (list N)) :=
  if str_is_empty value then Some (Some [0; 0; 0; 0]%N)
  else
    let '(clock, fraction) := default (value, u "0") (split_once (N.eqb "."%ch) value) in
    match parse_clock clock with
    | None => Some None
    | Some (hour, minute, second) =>
        match scale_fraction fraction with
        | None => None
        | Some scaled => Some ((fun f => [hour; minute; second; f]) <$> parse_digits scaled)
        end
    end.

Definition slash_to_dash (s : str) : str := (fun c => if N.eqb c "/"%ch then "-"%ch else c) <$> s.

Definition parse_temporal (value : str) : option (option TemporalKey) :=
  let trimmed := trim value in
  if str_is_empty trimmed then Some None
  else
    let '(date_part, time_part) := split_date_and_time trimmed in
    let date_part := slash_to_dash date_part in
    match (match parse_iso_date date_part with
           | Some date => Some date
           | None => parse_dd_mon_date date_part
           end) with
    | None => Some None
    | Some (year, month, day) =>
        match parse_time time_part with
        | None => None
        | Some time => Some ((fun time => year :: month :: day :: time) <$> time)
        end
    end.

Definition compare_as_temporal (left right : str) : option comparison :=
  match parse_temporal left, parse_temporal right with
  | Some (Some left_key), Some (Some right_key) => Some (lex_cmp N.compare left_key right_key)
  | Some _, Some _ => Some (str_cmp left right)
  | _, _ => None
  end.

Definition compare_cell_values (left : str) (left_null : bool) (right : str) (right_null : bool)
    (column : SortColumn) : option comparison :=
  match left_null, right_null with
  | true, true => Some Eq
  | true, false => Some (match nulls column with LastOnAscending => Gt | FirstOnAscending => Lt end)
  | false, true => Some (match nulls column with LastOnAscending => Lt | FirstOnAscending => Gt end)
  | false, false =>
      match kind column with
      | Kind_Number | Kind_Boolean => Some (compare_as_number left right)
      | Kind_Temporal => compare_as_temporal left right
      | Kind_String | Kind_Binary | Kind_Unknown => Some (compare_as_number left right)
      end
  end.

(** ** The header sort *)

Abbreviation row := (list str) (only parsing).

Definition input_matches_null_text (input null_text : str) : bool :=
  let marker := trim null_text in
  if str_is_empty marker then str_is_empty input
  else if eq_ignore_ascii_case marker (u "NULL") then eq_ignore_ascii_case input (u "NULL")
  else input == marker.

Definition value_represents_null (value null_text : str) : bool :=
  let trimmed := trim value in
  str_is_empty value || eq_ignore_ascii_case trimmed (u "NULL") || input_matches_null_text trimmed null_text.

Inductive SortDirection := Ascending | Descending.

Definition toggled (d : SortDirection) : SortDirection :=
  match d with Ascending => Descending | Descending => Ascending end.

Record ColumnSortState := mkSortState { col_idx : nat; direction : SortDirection }.

Definition next_sort_state (current : option ColumnSortState) (idx : nat) : ColumnSortState :=
  match current with
  | Some state => if col_idx state =? idx then mkSortState idx (toggled (direction state))
                  else mkSortState idx Ascending
  | None => mkSortState idx Ascending
  end.

Definition sort_column_for (column_kinds : list SqlValueKind) (idx : nat) (nulls : NullOrdering) : SortColumn :=
  mkSortColumn (default Kind_Unknown (column_kinds !! idx)) nulls.

Definition compare_row_values_for_sort (left right : row) (idx : nat) (column : SortColumn)
    (null_text : str) : option comparison :=
  let left_value := default [] (left !! idx) in
  let right_value := default [] (right !! idx) in
  compare_cell_values left_value (value_represents_null left_value null_text)
    right_value (value_represents_null right_value null_text) column.

Definition in_direction (d : SortDirection) (c : comparison) : comparison :=
  match d with Ascending => c | Descending => CompOpp c end.

Section Sort.
Context {Sort : StableSort} {EditRowState : Type}.

(** Rows and row states after the sort, and whether it was done. *)
Definition sort_row_entries (rows : list row) (row_states : option (list EditRowState)) (idx : nat)
    (direction : SortDirection) (column : SortColumn) (null_text : str)
    : option (list row * option (list EditRowState) * bool) :=
  let compare left right :=
    in_direction direction <$> compare_row_values_for_sort left right idx column null_text in
  match row_states with
  | Some states =>
      if negb (length states =? length rows) then Some (rows, row_states, false)
      else
        (fun paired : list (row * EditRowState) =>
           ((fun e => e.1) <$> paired, Some ((fun e => e.2) <$> paired), true))
        <$> sort_by (fun l r => compare l.1 r.1) (zip rows states)
  | None => (fun rows => (rows, None, true)) <$> sort_by compare rows
  end.

Definition apply_sort_to_table_data (full_data : list row) (row_states : option (list EditRowState))
    (column_kinds : list SqlValueKind) (null_text : str) (nulls : NullOrdering) (idx : nat)
    (direction : SortDirection) : option (list row * option (list EditRowState) * bool) :=
  sort_row_entries full_data row_states idx direction (sort_column_for column_kinds idx nulls) null_text.
End Sort.

(** ** Concrete values *)

Definition ascending (k : SqlValueKind) (l r : str) : option comparison :=
  compare_cell_values l false r false (mkSortColumn k LastOnAscending).

Example numbers_beyond_f64 :
  ascending Kind_Number (u "12345678901234567890123456789012345678") (u "12345678901234567890123456789012345679") = Some Lt
  /\ ascending Kind_Number (u "-0.00") (u "0") = Some Eq
  /\ ascending Kind_Unknown (u "apple") (u "5") = Some Gt.
Proof. vm_compute. done. Qed.

Example dates :
  parse_temporal (u "17-DEC-80") = Some (Some [1980; 12; 17; 0; 0; 0; 0]%N)
  /\ parse_temporal (u "2024/01/02 03:04:05.5") = Some (Some [2024; 1; 2; 3; 4; 5; 500000000]%N)
  /\ parse_temporal (u "17-OCT-80") = Some None.
Proof. vm_compute. done. Qed.
