(* ===== verification/GridSortSpec.v ===== *)
(** * The order of the grid's cells

    Laws of the numbers and dates a cell can spell, and the order of two cells as a
    comparison: exact on numbers, total where it is, and its sort. *)
From Stdlib Require Import QArith.
From stdpp Require Import sorting.
From S2P Require Import Prelude RustStr Utf8 TotalOrder GridSort.

(** * Exactness of the number order

    Digit strings compare as the numbers they denote; decimals as rationals. *)

#[local] Open Scope N_scope.

Definition is_digits (s : str) : Prop := digits_only s = true.

Lemma is_digits_forall s : is_digits s <-> Forall (fun c => 48 <= c <= 57) s.
Proof.
  unfold is_digits, digits_only. rewrite forallb_forall, Forall_forall.
  setoid_rewrite list_elem_of_In. unfold is_ascii_digit, in_range.
  setoid_rewrite andb_true_iff. setoid_rewrite N.leb_le. done.
Qed.

Lemma is_digits_cons c s : is_digits (c :: s) <-> 48 <= c <= 57 /\ is_digits s.
Proof. by rewrite !is_digits_forall, Forall_cons. Qed.

Lemma is_digits_app s t : is_digits (s ++ t) <-> is_digits s /\ is_digits t.
Proof. by rewrite !is_digits_forall, Forall_app. Qed.

Lemma encode_digits s : is_digits s -> encode_str s = s /\ utf8_len s = length s.
Proof.
  induction s as [|c s IH]; [done|]. intros [Hc Hs]%is_digits_cons. destruct (IH Hs) as [E L].
  change (encode_str (c :: s)) with (utf8_encode c ++ encode_str s).
  change (utf8_len (c :: s)) with (len_utf8 c + utf8_len s)%nat.
  rewrite E, L. unfold utf8_encode, len_utf8. destruct (N.ltb_spec c 128); [done|lia].
Qed.

(** ** Values of digit strings *)

Abbreviation val := digits_value (only parsing).

Lemma cell_digits_value_acc s acc :
  fold_left (fun v c => v * 10 + (c - 48)) s acc = acc * 10 ^ N.of_nat (length s) + val s.
Proof.
  unfold digits_value. change "0"%ch with 48. revert acc.
  induction s as [|c s IH]; intros acc; cbn [fold_left length]; [cbn; lia|].
  rewrite IH, (IH (0 * 10 + _)), Nat2N.inj_succ, N.pow_succ_r'. lia.
Qed.

Lemma cell_digits_value_app s t : val (s ++ t) = val s * 10 ^ N.of_nat (length t) + val t.
Proof. unfold digits_value at 1. change "0"%ch with 48. rewrite fold_left_app, cell_digits_value_acc. done. Qed.

Lemma digits_value_cons c s : val (c :: s) = (c - 48) * 10 ^ N.of_nat (length s) + val s.
Proof. change (c :: s) with ([c] ++ s). rewrite cell_digits_value_app. done. Qed.

Lemma digits_value_bound s : is_digits s -> val s < 10 ^ N.of_nat (length s).
Proof.
  induction s as [|c s IH]; [done|]. intros [Hc Hs]%is_digits_cons. specialize (IH Hs).
  rewrite digits_value_cons. cbn [length]. rewrite Nat2N.inj_succ, N.pow_succ_r'. nia.
Qed.

Lemma cell_digits_value_zeros n : val (replicate n "0"%ch) = 0.
Proof. induction n as [|n IH]; [done|]. cbn [replicate]. rewrite digits_value_cons, IH. done. Qed.

Lemma is_digits_zeros n : is_digits (replicate n "0"%ch).
Proof. apply is_digits_forall, Forall_replicate. lia. Qed.

Lemma mixed_radix a b x y p :
  x < p -> y < p -> then_cmp (N.compare a b) (N.compare x y) = N.compare (a * p + x) (b * p + y).
Proof.
  intros Hx Hy. destruct (N.compare_spec a b) as [->|H|H]; cbn.
  - destruct (N.compare_spec x y) as [->|G|G]; symmetry;
      [apply N.compare_refl|apply N.compare_lt_iff; lia|apply N.compare_gt_iff; lia].
  - symmetry. apply N.compare_lt_iff. nia.
  - symmetry. apply N.compare_gt_iff. nia.
Qed.

Lemma lex_digits s t :
  is_digits s -> is_digits t -> length s = length t -> lex_cmp N.compare s t = N.compare (val s) (val t).
Proof.
  revert t. induction s as [|c s IH]; intros [|d t] Hs Ht Hlen; try done.
  apply is_digits_cons in Hs as [Hc Hs]. apply is_digits_cons in Ht as [Hd Ht].
  injection Hlen as Hlen. cbn [lex_cmp]. rewrite (IH t), !digits_value_cons, Hlen by done.
  pose proof (digits_value_bound s Hs). pose proof (digits_value_bound t Ht). rewrite Hlen in *.
  rewrite <- mixed_radix by done. f_equal.
  destruct (N.compare_spec c d), (N.compare_spec (c - 48) (d - 48)); try done; lia.
Qed.

(** ** The integer part *)

Lemma trim_zeros_digits s :
  is_digits s ->
  is_digits (trim_start_zeros s) /\ val (trim_start_zeros s) = val s
  /\ (trim_start_zeros s = [] \/ 10 ^ N.of_nat (length (trim_start_zeros s) - 1) <= val s).
Proof.
  induction s as [|c s IH]; intros Hs; [by split_and!; [| |left]|].
  pose proof Hs as [Hc Hs']%is_digits_cons. destruct (IH Hs') as (D & V & B). cbn [trim_start_zeros].
  destruct (N.eqb_spec c "0"%ch) as [->|Hne].
  - split; [done|]. rewrite digits_value_cons. change ("0"%ch - 48) with 0. rewrite V. split; [lia|].
    destruct B as [B|B]; [by left|right; lia].
  - split; [done|]. split; [done|]. right. rewrite digits_value_cons. cbn [length].
    replace (S (length s) - 1)%nat with (length s) by lia. nia.
Qed.

Lemma compare_integers s t :
  is_digits s -> is_digits t ->
  then_cmp (Nat.compare (utf8_len (trim_start_zeros s)) (utf8_len (trim_start_zeros t)))
    (str_cmp (trim_start_zeros s) (trim_start_zeros t)) = N.compare (val s) (val t).
Proof.
  intros Hs Ht. destruct (trim_zeros_digits s Hs) as (Ds & Vs & Bs), (trim_zeros_digits t Ht) as (Dt & Vt & Bt).
  unfold str_cmp. destruct (encode_digits _ Ds) as [-> ->], (encode_digits _ Dt) as [-> ->].
  rewrite <- Vs in Bs. rewrite <- Vt in Bt. rewrite <- Vs, <- Vt.
  set (a := trim_start_zeros s) in *. set (b := trim_start_zeros t) in *. clearbody a b.
  assert (Hshort : forall x y, is_digits x -> (y = [] \/ 10 ^ N.of_nat (length y - 1) <= val y) ->
    (length x < length y)%nat -> val x < val y).
  { intros x y Hx Hy Hlen. pose proof (digits_value_bound x Hx). destruct Hy as [->|Hy]; [cbn in Hlen; lia|].
    assert (10 ^ N.of_nat (length x) <= 10 ^ N.of_nat (length y - 1)) by (apply N.pow_le_mono_r; lia). lia. }
  destruct (Nat.compare_spec (length a) (length b)) as [E|E|E]; cbn [then_cmp].
  - by apply lex_digits.
  - symmetry. apply N.compare_lt_iff. by apply Hshort.
  - symmetry. apply N.compare_gt_iff. by apply Hshort.
Qed.

(** ** The fraction *)

Definition pad (w : nat) (s : str) : str := s ++ replicate (w - length s) "0"%ch.

Lemma compare_fraction_drop w i l r :
  compare_fraction w i l r = compare_fraction w 0 (drop i l) (drop i r).
Proof.
  revert i. assert (H : forall w i j l r, compare_fraction w (i + j) l r = compare_fraction w j (drop i l) (drop i r)).
  { clear. induction w as [|w IH]; intros i j l r; [done|]. cbn [compare_fraction].
    rewrite !lookup_drop. f_equal. replace (S (i + j)) with (i + S j)%nat by lia. apply IH. }
  intros i. rewrite <- H. by rewrite Nat.add_0_r.
Qed.

Lemma pad_S w s : pad (S w) s = default "0"%ch (s !! 0%nat) :: pad w (drop 1 s).
Proof. unfold pad. destruct s as [|c s]; cbn; by rewrite ?Nat.sub_0_r, ?drop_0. Qed.

Lemma compare_fraction_pad w l r :
  (length l <= w)%nat -> (length r <= w)%nat ->
  compare_fraction w 0 l r = lex_cmp N.compare (pad w l) (pad w r).
Proof.
  revert l r. induction w as [|w IH]; intros l r Hl Hr.
  { by destruct l, r; cbn in Hl, Hr; try lia. }
  cbn [compare_fraction]. rewrite compare_fraction_drop, IH by (rewrite length_drop; lia).
  by rewrite !pad_S.
Qed.

Lemma pad_digits w s :
  is_digits s -> (length s <= w)%nat ->
  is_digits (pad w s) /\ length (pad w s) = w /\ val (pad w s) = val s * 10 ^ N.of_nat (w - length s).
Proof.
  intros Hs Hw. unfold pad. split_and!.
  - apply is_digits_app. split; [done|apply is_digits_zeros].
  - rewrite length_app, length_replicate. lia.
  - rewrite cell_digits_value_app, cell_digits_value_zeros, length_replicate. lia.
Qed.

(** ** Decimals *)

Definition decimal_ok (d : Decimal) : Prop := is_digits (integer d) /\ is_digits (fraction d).

Lemma parse_decimal_ok s d : parse_decimal s = Some d -> decimal_ok d.
Proof.
  unfold parse_decimal. destruct (trim s) as [|first rest]; [done|].
  destruct (if (first =? _)%N then _ else _) as [sign body].
  destruct (default (body, []) _) as [int frac].
  destruct (str_is_empty int && str_is_empty frac); [done|].
  destruct (digits_only int) eqn:Ei; [|done]. destruct (digits_only frac) eqn:Ef; [|done].
  cbn. intros [= <-]. done.
Qed.

(** All the digits as one number, and the value [digits / 10^places]. *)
Definition digits (d : Decimal) : N := val (integer d ++ fraction d).
Definition places (d : Decimal) : N := N.of_nat (length (fraction d)).
Definition ten_to (n : N) : positive := match n with N0 => 1%positive | Npos p => (10 ^ p)%positive end.
Definition signed (d : Decimal) : Z := if negative d then - Z.of_N (digits d) else Z.of_N (digits d).

Definition decimal_value (d : Decimal) : Q := Qmake (signed d) (ten_to (places d)).

Lemma ten_to_eq n : Npos (ten_to n) = 10 ^ n.
Proof. destruct n; [done|]. cbn [ten_to]. done. Qed.

Lemma then_cmp_assoc a b c : then_cmp a (then_cmp b c) = then_cmp (then_cmp a b) c.
Proof. by destruct a. Qed.

Lemma compare_scale k a b : 0 < k -> N.compare (a * k) (b * k) = N.compare a b.
Proof.
  intros Hk. destruct (N.compare_spec a b) as [->|H|H];
    [apply N.compare_refl|apply N.compare_lt_iff; nia|apply N.compare_gt_iff; nia].
Qed.

Lemma compare_magnitude_exact l r :
  decimal_ok l -> decimal_ok r ->
  compare_magnitude l r = N.compare (digits l * 10 ^ places r) (digits r * 10 ^ places l).
Proof.
  intros [Il Fl] [Ir Fr]. unfold compare_magnitude.
  destruct (encode_digits _ Fl) as [-> _], (encode_digits _ Fr) as [-> _].
  set (w := Nat.max _ _). rewrite compare_fraction_pad by lia.
  destruct (pad_digits w (fraction l) Fl) as (Dl & Ll & Vl); [lia|].
  destruct (pad_digits w (fraction r) Fr) as (Dr & Lr & Vr); [lia|].
  pose proof (digits_value_bound _ Dl) as Bl. pose proof (digits_value_bound _ Dr) as Br.
  rewrite Ll in Bl. rewrite Lr in Br.
  rewrite (lex_digits _ _ Dl Dr) by congruence. rewrite then_cmp_assoc, (compare_integers _ _ Il Ir).
  rewrite (mixed_radix _ _ _ _ _ Bl Br), Vl, Vr. unfold digits, places. rewrite !cell_digits_value_app.
  set (fl := length (fraction l)) in *. set (fr := length (fraction r)) in *.
  assert (E : forall x y f g, (f <= w)%nat ->
    (x * 10 ^ N.of_nat w + y * 10 ^ N.of_nat (w - f)) * 10 ^ N.of_nat (f + g)
    = (x * 10 ^ N.of_nat f + y) * 10 ^ N.of_nat g * 10 ^ N.of_nat w).
  { intros x y f g Hf. rewrite (Nat2N.inj_add f g), N.pow_add_r.
    replace (N.of_nat w) with (N.of_nat (w - f) + N.of_nat f) by lia. rewrite !N.pow_add_r. ring. }
  rewrite <- (compare_scale (10 ^ N.of_nat (fl + fr))) by (apply N.neq_0_lt_0, N.pow_nonzero; done).
  rewrite E by lia. rewrite (Nat.add_comm fl fr), E by lia.
  rewrite compare_scale by (apply N.neq_0_lt_0, N.pow_nonzero; done). done.
Qed.

Lemma all_zero_val s : is_digits s -> all_zero s = true <-> val s = 0.
Proof.
  intros Hs. induction s as [|c s IH]; [done|]. pose proof Hs as [Hc Hs']%is_digits_cons.
  unfold all_zero in *. cbn [forallb]. rewrite andb_true_iff, N.eqb_eq, (IH Hs'), digits_value_cons.
  pose proof (N.pow_nonzero 10 (N.of_nat (length s))). split; [intros [<- ->]; lia|].
  intros H0. destruct (N.eq_dec c 48) as [->|]; [split; [done|lia]|]. nia.
Qed.

Lemma is_zero_digits d : decimal_ok d -> is_zero d = true <-> digits d = 0.
Proof.
  intros [Hi Hf]. unfold is_zero, digits. rewrite andb_true_iff, !all_zero_val, cell_digits_value_app by done.
  pose proof (N.pow_nonzero 10 (N.of_nat (length (fraction d)))). nia.
Qed.

Lemma opp_compare x y : (- x ?= - y)%Z = CompOpp (x ?= y)%Z.
Proof.
  destruct (Z.compare_spec x y) as [->|H|H];
    [apply Z.compare_refl|apply Z.compare_gt_iff; lia|apply Z.compare_lt_iff; lia].
Qed.

Lemma compare_decimal_exact l r :
  decimal_ok l -> decimal_ok r -> compare_decimal l r = Qcompare (decimal_value l) (decimal_value r).
Proof.
  intros Hl Hr. pose proof (is_zero_digits l Hl) as Zl. pose proof (is_zero_digits r Hr) as Zr.
  unfold compare_decimal, Qcompare, decimal_value, signed. cbn [Qnum Qden].
  set (a := ten_to (places l)). set (b := ten_to (places r)).
  assert (Ea : 10 ^ places l = Npos a) by (symmetry; apply ten_to_eq).
  assert (Eb : 10 ^ places r = Npos b) by (symmetry; apply ten_to_eq).
  destruct (is_zero l && is_zero r) eqn:Ez.
  { apply andb_true_iff in Ez as [E1 E2]. apply Zl in E1. apply Zr in E2. rewrite E1, E2.
    by destruct (negative l), (negative r). }
  assert (Hnz : digits l <> 0 \/ digits r <> 0).
  { apply andb_false_iff in Ez as [E|E]; [left; rewrite <- Zl|right; rewrite <- Zr]; congruence. }
  rewrite (compare_magnitude_exact l r Hl Hr), Ea, Eb.
  destruct (negative l), (negative r); symmetry.
  - rewrite !Z.mul_opp_l, opp_compare. f_equal.
    rewrite <- N2Z.inj_compare, !N2Z.inj_mul. done.
  - apply Z.compare_lt_iff. nia.
  - apply Z.compare_gt_iff. nia.
  - rewrite <- N2Z.inj_compare, !N2Z.inj_mul. done.
Qed.

#[local] Close Scope N_scope.

(** * What the grid's sort promises

    Number and text columns are put in one total order, exact on decimals, and
    the sort moves whole rows with their edit state.  A date column is only sorted
    when its cells are all recognised or all not. *)

(** ** The order of a column *)

(** A number by its value, before every text. *)
Definition number_key (s : str) : Q + str :=
  match parse_decimal s with Some d => inl (decimal_value d) | None => inr s end.

#[export] Instance str_cmp_total : TotalCmp str_cmp.
Proof. unfold str_cmp. apply (key_cmp_total encode_str (lex_cmp N.compare)). apply _. Qed.

Lemma compare_by_key l r : compare_as_number l r = sum_cmp Qcompare str_cmp (number_key l) (number_key r).
Proof.
  unfold compare_as_number, number_key.
  destruct (parse_decimal l) as [dl|] eqn:El, (parse_decimal r) as [dr|] eqn:Er; try done.
  apply compare_decimal_exact; by eapply parse_decimal_ok.
Qed.

(** C36. Two cells compare as the rational numbers they denote, exactly, whatever
    their length, sign, leading or trailing zeros; numbers come before texts and
    texts compare by their bytes; and this order of all texts is total. *)
Theorem number_order_is_exact :
  (forall l r, compare_as_number l r = sum_cmp Qcompare str_cmp (number_key l) (number_key r))
  /\ TotalCmp compare_as_number.
Proof.
  split; [apply compare_by_key|].
  pose proof (key_cmp_total number_key (sum_cmp Qcompare str_cmp) _) as T.
  split; intros *; rewrite ?compare_by_key; [apply T|apply T|]. intros. by eapply (@cmp_trans _ _ T).
Qed.

(** A cell, NULL on the side the column says. *)
Definition null_cmp (n : NullOrdering) {K} (cmp : K -> K -> comparison) (l r : option K) : comparison :=
  match l, r with
  | None, None => Eq
  | None, Some _ => match n with LastOnAscending => Gt | FirstOnAscending => Lt end
  | Some _, None => match n with LastOnAscending => Lt | FirstOnAscending => Gt end
  | Some a, Some b => cmp a b
  end.

#[export] Instance null_cmp_total n {K} (cmp : K -> K -> comparison) : TotalCmp cmp -> TotalCmp (null_cmp n cmp).
Proof.
  intros T. split.
  - intros [a|]; [apply (cmp_refl cmp)|done].
  - intros [a|] [b|]; try (by destruct n); apply (cmp_sym cmp).
  - intros [a|] [b|] [c|]; destruct n; cbn; try done; apply (cmp_trans cmp).
Qed.

Definition cell_of (idx : nat) (null_text : str) (r : row) : option str :=
  let value := default [] (r !! idx) in if value_represents_null value null_text then None else Some value.

(** A date column is consistent when all its cells are dates, or none is. *)
Definition consistent (kind : SqlValueKind) (cells : list (option str)) : Prop :=
  kind <> Kind_Temporal
  \/ (forall v, Some v ∈ cells -> exists k, parse_temporal v = Some (Some k))
  \/ (forall v, Some v ∈ cells -> parse_temporal v = Some None).

Lemma compare_row_cells l r idx column null_text :
  compare_row_values_for_sort l r idx column null_text =
  match cell_of idx null_text l, cell_of idx null_text r with
  | Some a, Some b => compare_cell_values a false b false column
  | a, b => Some (null_cmp (nulls column) (fun _ _ => Eq) a b)
  end.
Proof.
  unfold compare_row_values_for_sort, cell_of, compare_cell_values.
  by destruct (value_represents_null _ _), (value_represents_null _ _).
Qed.

(** On a consistent column the comparison is a total order on the rows. *)
Lemma row_order idx column null_text (rows : list row) :
  consistent (kind column) (cell_of idx null_text <$> rows) ->
  exists cmp : row -> row -> comparison, TotalCmp cmp
    /\ forall l r, l ∈ rows -> r ∈ rows -> compare_row_values_for_sort l r idx column null_text = Some (cmp l r).
Proof.
  intros Hc.
  assert (Hlift : forall K (key : str -> K) (cmp : K -> K -> comparison), TotalCmp cmp ->
    (forall a b, Some a ∈ cell_of idx null_text <$> rows -> Some b ∈ cell_of idx null_text <$> rows ->
       compare_cell_values a false b false column = Some (cmp (key a) (key b))) ->
    exists cmp : row -> row -> comparison, TotalCmp cmp
      /\ forall l r, l ∈ rows -> r ∈ rows -> compare_row_values_for_sort l r idx column null_text = Some (cmp l r)).
  { intros K key cmp T Hk.
    exists (fun l r => null_cmp (nulls column) cmp (key <$> cell_of idx null_text l) (key <$> cell_of idx null_text r)).
    split; [apply (key_cmp_total (fun l => key <$> cell_of idx null_text l)); apply _|].
    intros l r Hl Hr. rewrite compare_row_cells.
    apply (list_elem_of_fmap_2 (cell_of idx null_text)) in Hl, Hr.
    destruct (cell_of idx null_text l) as [a|], (cell_of idx null_text r) as [b|]; try done. by apply Hk. }
  destruct (decide (kind column = Kind_Temporal)) as [Ek|Ek].
  - destruct Hc as [Hc|[Hc|Hc]]; [done| |].
    + apply (Hlift _ (fun s => match parse_temporal s with Some (Some k) => k | _ => [] end) (lex_cmp N.compare)); [apply _|].
      intros a b Ha Hb. unfold compare_cell_values, compare_as_temporal. rewrite Ek.
      destruct (Hc a Ha) as [ka ->], (Hc b Hb) as [kb ->]. done.
    + apply (Hlift _ (fun s => s) str_cmp); [apply _|].
      intros a b Ha Hb. unfold compare_cell_values, compare_as_temporal. rewrite Ek.
      by rewrite (Hc a Ha), (Hc b Hb).
  - apply (Hlift _ number_key (sum_cmp Qcompare str_cmp)); [apply _|].
    intros a b Ha Hb. unfold compare_cell_values. rewrite <- compare_by_key. by destruct (kind column).
Qed.

(** ** The sort *)

Section Sort.
Context {Sort : StableSort} {EditRowState : Type}.

(** The order of two rows under the header sort, ties included. *)
Definition row_cmp (idx : nat) (d : SortDirection) (column : SortColumn) (null_text : str) (l r : row)
    : option comparison :=
  in_direction d <$> compare_row_values_for_sort l r idx column null_text.

Lemma direction_total {A} d (cmp : A -> A -> comparison) :
  TotalCmp cmp -> TotalCmp (fun l r => in_direction d (cmp l r)).
Proof. intros T. destruct d; [exact T|by apply opp_cmp_total]. Qed.

(** [sort_by] on entries that carry a row. *)
Lemma sort_entries {E} (row_of : E -> row) (entries : list E) idx d column null_text :
  consistent (kind column) (cell_of idx null_text <$> (row_of <$> entries)) ->
  let compare l r := row_cmp idx d column null_text (row_of l) (row_of r) in
  exists sorted,
    sort_by compare entries = Some sorted /\ sorted ≡ₚ entries
    /\ StronglySorted (fun l r => compare l r = Some Lt \/ compare l r = Some Eq) sorted
    /\ forall e, e ∈ entries ->
        List.filter (fun e' => bool_decide (compare e e' = Some Eq)) sorted
        = List.filter (fun e' => bool_decide (compare e e' = Some Eq)) entries.
Proof.
  intros Hc compare. destruct (row_order idx column null_text _ Hc) as (cmp & T & Hcmp).
  pose proof (direction_total d cmp T) as T'.
  pose proof (key_cmp_total row_of _ T') as TE. cbn in TE.
  assert (Hf : forall l r, l ∈ entries -> r ∈ entries ->
    compare l r = Some (in_direction d (cmp (row_of l) (row_of r)))).
  { intros l r Hl Hr. unfold compare, row_cmp. rewrite Hcmp by (by apply list_elem_of_fmap_2). done. }
  destruct (sort_by_spec _ compare entries TE Hf) as (sorted & E1 & P & S & F).
  exists sorted. split; [done|]. split; [done|].
  assert (Hin : forall e, e ∈ sorted -> e ∈ entries) by (intros e; by rewrite P).
  split.
  - clear F E1. assert (Hsub : forall e, e ∈ sorted -> e ∈ entries) by done. clear P Hin.
    induction S as [|e l Hl IH He]; constructor.
    + apply IH. intros e' He'. apply Hsub. by right.
    + apply Forall_forall. intros e' He'. rewrite Forall_forall in He. specialize (He e' He').
      rewrite Hf by (apply Hsub; (by left) || by right).
      destruct (in_direction d _); [by right|by left|done].
  - intros e He. specialize (F e).
    assert (Hext : forall l, (forall x, x ∈ l -> x ∈ entries) ->
      List.filter (fun e' => bool_decide (compare e e' = Some Eq)) l
      = List.filter (fun e' => bool_decide (in_direction d (cmp (row_of e) (row_of e')) = Eq)) l).
    { intros l Hl. apply filter_ext_in. intros x Hx%list_elem_of_In. rewrite Hf by auto.
      apply bool_decide_ext. split; congruence. }
    rewrite !Hext; auto.
Qed.

(** C31. Sorting a column whose cells compare consistently returns and is done: the
    rows are permuted, each with its edit state, into the order of the column in
    the direction asked for, and rows that compare equal keep their order. *)
Theorem column_sort_is_stable_and_sorted (rows : list row) (states : list EditRowState) idx d column null_text :
  length states = length rows ->
  consistent (kind column) (cell_of idx null_text <$> rows) ->
  let compare l r := row_cmp idx d column null_text l.1 r.1 in
  exists sorted : list (row * EditRowState),
    sort_row_entries rows (Some states) idx d column null_text
      = Some (sorted.*1, Some (sorted.*2), true)
    /\ sorted ≡ₚ zip rows states
    /\ StronglySorted (fun l r => compare l r = Some Lt \/ compare l r = Some Eq) sorted
    /\ (forall e, e ∈ zip rows states ->
         List.filter (fun e' => bool_decide (compare e e' = Some Eq)) sorted
         = List.filter (fun e' => bool_decide (compare e e' = Some Eq)) (zip rows states))
    /\ exists sorted_rows, sort_row_entries (EditRowState := EditRowState) rows None idx d column null_text
         = Some (sorted_rows, None, true) /\ sorted_rows ≡ₚ rows
         /\ StronglySorted (fun l r => row_cmp idx d column null_text l r = Some Lt
                                       \/ row_cmp idx d column null_text l r = Some Eq) sorted_rows.
Proof.
  intros Hlen Hc compare.
  assert (Hzip : (zip rows states).*1 = rows) by (apply fst_zip; lia).
  destruct (sort_entries (E := row * EditRowState) fst (zip rows states) idx d column null_text)
    as (sorted & E1 & P & S & F); [by rewrite Hzip|].
  destruct (sort_entries (E := row) (fun r => r) rows idx d column null_text) as (sorted' & E' & P' & S' & _).
  { by rewrite list_fmap_id. }
  exists sorted. unfold sort_row_entries. rewrite Hlen, Nat.eqb_refl. cbn [negb].
  cbn zeta in E1. unfold row_cmp in E1. rewrite E1. split; [done|]. split; [done|]. split; [done|]. split; [done|].
  exists sorted'. cbn zeta in E'. unfold row_cmp in E'. rewrite E'. done.
Qed.
End Sort.

(** ** Where a date column is not sorted *)

Definition seoul_afternoon : str := u "2024-01-01 10:20:30.123456 " ++ [50724; 54980]%N.

(** Three ordinary dates compare in a circle, since the T of OCT is taken for the
    separator of date and time and the date falls back to text; so no total order
    agrees with the comparison.  And cutting a fraction to nine bytes panics when
    a longer character is in the way. *)
Theorem date_order_is_not_total :
  ascending Kind_Temporal (u "02-APR-81") (u "10-OCT-80") = Some Lt
  /\ ascending Kind_Temporal (u "10-OCT-80") (u "17-DEC-80") = Some Lt
  /\ ascending Kind_Temporal (u "17-DEC-80") (u "02-APR-81") = Some Lt
  /\ (~ exists cmp, TotalCmp cmp /\ forall l r, ascending Kind_Temporal l r <> None ->
         ascending Kind_Temporal l r = Some (cmp l r))
  /\ ascending Kind_Temporal seoul_afternoon (u "2024-01-02") = None.
Proof.
  assert (H1 : ascending Kind_Temporal (u "02-APR-81") (u "10-OCT-80") = Some Lt) by (vm_compute; reflexivity).
  assert (H2 : ascending Kind_Temporal (u "10-OCT-80") (u "17-DEC-80") = Some Lt) by (vm_compute; reflexivity).
  assert (H3 : ascending Kind_Temporal (u "17-DEC-80") (u "02-APR-81") = Some Lt) by (vm_compute; reflexivity).
  do 3 (split; [done|]). split; [|vm_compute; reflexivity].
  intros (cmp & T & H). rewrite H in H1, H2, H3 by congruence.
  injection H1 as H1. injection H2 as H2. injection H3 as H3.
  pose proof (cmp_lt_trans cmp _ _ _ H1 ltac:(by rewrite H2)) as H13.
  apply (cmp_lt_gt cmp) in H13. congruence.
Qed.

(** A nine-digit fraction hides what follows it: the zone is not seen. *)
Example zone_behind_nine_digits :
  parse_temporal (u "2024-01-01 10:00:00.123456789 +09:00") = Some (Some [2024; 1; 1; 10; 0; 0; 123456789]%N)
  /\ parse_temporal (u "2024-01-01 10:00:00.12345678 +09:00") = Some None.
Proof. by vm_compute. Qed.

Lemma column_sort_is_stable_and_sorted_witness :
  exists sorted : list (row * nat),
    sort_row_entries (Sort := insertion_sort_stable)
      [[u "a"; u "10"]; [u "b"; u ""]; [u "c"; u "9.50"]; [u "d"; u "9.5"]] (Some [0; 1; 2; 3]) 1 Descending
      (mkSortColumn Kind_Number LastOnAscending) (u "")
    = Some (sorted.*1, Some (sorted.*2), true)
    /\ sorted.*2 = [1; 0; 2; 3].
Proof.
  destruct (column_sort_is_stable_and_sorted (Sort := insertion_sort_stable)
    [[u "a"; u "10"]; [u "b"; u ""]; [u "c"; u "9.50"]; [u "d"; u "9.5"]] [0; 1; 2; 3] 1 Descending
    (mkSortColumn Kind_Number LastOnAscending) (u "")) as (sorted & E & _); [reflexivity|by left|].
  exists sorted. split; [exact E|]. revert E.
  match goal with |- ?t = _ -> _ => let v := eval vm_compute in t in change t with v end.
  intros [= _ <-]. reflexivity.
Defined.
