(* ===== verification/GridState.v ===== *)
(** * The result grid

    Its column plan, its value filters and its search, and the state that holds
    them: the operations of [ui/result_table.rs] on one tab's grid. *)
From stdpp Require Import gmap sorting.
From stdpp Require Import gmap pretty.
From stdpp Require Import gmap.
From S2P Require Import Prelude RustStr TotalOrder FindText GridSort.

(** * Columns of a result grid

    Which columns are shown and in what order ([column_layout.rs]): the hidden
    set, the plan the Columns dialog edits and the permutation it stands for.
    A position outside a vector is the [Option] or the panic of the source; the
    sentinel [usize::MAX] of an unfilled slot is [None]. *)

(** ** Hidden columns *)

Record HiddenColumns := mkHidden {
  auto : option nat;
  user : gset nat
}.

Definition contains (h : HiddenColumns) (column : nat) : bool :=
  (auto h == Some column) || bool_decide (column ∈ user h).

Definition is_empty (h : HiddenColumns) : bool :=
  negb (bool_decide (is_Some (auto h))) && (user h == ∅).

Definition automatic_column (h : HiddenColumns) : option nat := auto h.

Definition all (h : HiddenColumns) : list nat :=
  merge_sort (≤) (elements (user h)
    ++ match auto h with
       | Some a => if bool_decide (a ∈ user h) then [] else [a]
       | None => []
       end).

(** ** The plan *)

Record ColumnLayoutRow := mkColumn {
  grid_index : nat;
  source_index : nat;
  name : str;
  visible : bool;
  locked : bool
}.

Record ColumnLayoutPlan := mkPlan {
  movable : list ColumnLayoutRow;
  locked_rows : list ColumnLayoutRow
}.
#[export] Instance ColumnLayoutRow_eta : Eta ColumnLayoutRow := fun r =>
  mkColumn (grid_index r) (source_index r) (name r) (visible r) (locked r).

Definition from_rows (rows : list ColumnLayoutRow) : ColumnLayoutPlan :=
  mkPlan (List.filter (fun r => negb (locked r)) rows) (List.filter locked rows).

Definition visible_count (p : ColumnLayoutPlan) : nat := length (List.filter visible (movable p)).

(** [Vec::swap] of two positions in range. *)
Definition swap {A} (i j : nat) (v : list A) : list A :=
  match v !! i, v !! j with
  | Some x, Some y => <[i := y]> (<[j := x]> v)
  | _, _ => v
  end.

Definition move_row (p : ColumnLayoutPlan) (at_ : nat) (forward : bool) : ColumnLayoutPlan * option nat :=
  let len := length (movable p) in
  if len <=? at_ then (p, None)
  else
    let target :=
      if forward then (if at_ + 1 <? len then Some (at_ + 1) else None)
      else match at_ with 0 => None | S before => Some before end in
    match target with
    | None => (p, None)
    | Some target => (mkPlan (swap at_ target (movable p)) (locked_rows p), Some target)
    end.

Inductive LayoutRefusal := ColumnIsGone | LastVisibleColumn | LoadingColumns | EditingColumns | NoColumns
  | ColumnsChanged.

Definition set_visible (p : ColumnLayoutPlan) (at_ : nat) (shown : bool)
    : ColumnLayoutPlan * option LayoutRefusal :=
  match movable p !! at_ with
  | None => (p, Some ColumnIsGone)
  | Some row =>
      if Bool.eqb (visible row) shown then (p, None)
      else if negb shown && (visible_count p <=? 1) then (p, Some LastVisibleColumn)
      else (mkPlan (<[at_ := row <| visible := shown |>]> (movable p)) (locked_rows p), None)
  end.

Section Reset.
Context {Sort : StableSort}.

(** [sort_by_key] compares without panicking, so the fallback is not used. *)
Definition reset (p : ColumnLayoutPlan) : ColumnLayoutPlan :=
  let sorted :=
    default (movable p)
      (sort_by (fun l r => Some (Nat.compare (source_index l) (source_index r))) (movable p)) in
  mkPlan ((fun r => r <| visible := true |>) <$> sorted) (locked_rows p).
End Reset.

Definition column_count (p : ColumnLayoutPlan) : nat := length (movable p) + length (locked_rows p).

Definition hidden_grid_indices (p : ColumnLayoutPlan) : gset nat :=
  list_to_set (grid_index <$> List.filter (fun r => negb (visible r)) (movable p)).

(** The slots that locked columns take. *)
Definition lock_slots (total : nat) (rows : list ColumnLayoutRow) : list (option nat) :=
  fold_left (fun order row =>
      if grid_index row <? total then <[grid_index row := Some (grid_index row)]> order else order)
    rows (replicate total None).

Fixpoint fill_slots (order : list (option nat)) (movable : list ColumnLayoutRow) : list (option nat) :=
  match order with
  | [] => []
  | Some slot :: order => Some slot :: fill_slots order movable
  | None :: order' =>
      match movable with
      | row :: movable => Some (grid_index row) :: fill_slots order' movable
      | [] => order
      end
  end.

Definition order (p : ColumnLayoutPlan) : list nat :=
  imap (fun position slot => default position slot)
    (fill_slots (lock_slots (column_count p) (locked_rows p)) (movable p)).

Definition hidden_positions (p : ColumnLayoutPlan) : gset nat :=
  list_to_set (omap id (imap (fun position grid_index =>
    if bool_decide (grid_index ∈ hidden_grid_indices p) then Some position else None) (order p))).

(** ** Applying a permutation *)

Fixpoint all_new (seen : list bool) (order : list nat) : bool :=
  match order with
  | [] => true
  | source :: order =>
      match seen !! source with
      | Some false => all_new (<[source := true]> seen) order
      | _ => false
      end
  end.

Definition is_permutation (order : list nat) (len : nat) : bool :=
  if negb (length order =? len) then false else all_new (replicate len false) order.

(** Taking the values one by one; what is left of [values] when one is missing. *)
Fixpoint take_in_order {T} (taken : list (option T)) (order : list nat) (values : list T) : list T * bool :=
  match order with
  | [] => (values, true)
  | source :: order =>
      match taken !! source with
      | Some (Some value) => take_in_order (<[source := None]> taken) order (vec_push value values)
      | _ => (values, false)
      end
  end.

Definition permute {T} (values : list T) (order : list nat) : list T * bool :=
  if negb (is_permutation order (length values)) then (values, false)
  else take_in_order (Some <$> values) order [].

Definition restore_missing_widths (widths measured : list Z) (fallback : Z) : list Z :=
  imap (fun index width =>
    if Z.leb width 0 then
      match measured !! index with
      | Some w => if Z.ltb 0 w then w else fallback
      | None => fallback
      end
    else width) widths.

Example widths_come_back : restore_missing_widths [100; 0; 90]%Z [80; 95; 120]%Z 40 = [100; 95; 90]%Z.
Proof. reflexivity. Qed.

(** * Filtering and searching a result grid

    The value filter ([grid_value_filter.rs]): a row is kept when it shows the
    values of a selected row in the selected columns.  The search session
    ([grid_search.rs]): which cells match, and which one the user stands on. *)

(** ** The value filter *)

Inductive CellKey := Key_Null | Key_Value (value : str).
#[export] Instance CellKey_eq_dec : EqDecision CellKey.
Proof. solve_decision. Defined.

Definition key_from_cell (value null_text : str) : CellKey :=
  if value_represents_null value null_text then Key_Null else Key_Value value.

Definition key_matches (key : CellKey) (value null_text : str) : bool :=
  match key with
  | Key_Null => value_represents_null value null_text
  | Key_Value expected => negb (value_represents_null value null_text) && (expected == value)
  end.

Record GridValueFilter := mkFilter {
  columns : list nat;
  keys : list (list CellKey);
  filter_null_text : str;
  negate : bool
}.

Definition cell (r : row) (column : nat) : str := default [] (r !! column).

Definition key_row_matches (f : GridValueFilter) (key_row : list CellKey) (r : row) : bool :=
  forallb (fun '(column, key) => key_matches key (cell r column) (filter_null_text f))
    (zip (columns f) key_row).

Definition matches (f : GridValueFilter) (r : row) : bool :=
  xorb (existsb (fun key_row => key_row_matches f key_row r) (keys f)) (negate f).

Definition retain (f : GridValueFilter) (rows : list row) : list row := List.filter (matches f) rows.

(** ** What the strip above the grid says *)

Definition DESCRIPTION_VALUE_LIMIT : nat := 40.
Definition to_string (n : nat) : str := u (pretty n).

Definition column_name (headers : list str) (column : nat) : str :=
  match headers !! column with
  | Some name => if str_is_empty (trim name) then u "column " ++ to_string (column + 1) else trim name
  | None => u "column " ++ to_string (column + 1)
  end.

Definition abbreviate (value : str) : str :=
  let out := take DESCRIPTION_VALUE_LIMIT value in
  if length out <? length value then out ++ [8230%N] else out.

Definition describe (f : GridValueFilter) (headers : list str) : str :=
  let verb := if negate f then u "Hiding" else u "Showing" in
  let condition :=
    match columns f, length (keys f) with
    | [column], 1 =>
        let name := column_name headers column in
        match head (keys f) ≫= head with
        | Some Key_Null => name ++ u " is NULL"
        | Some (Key_Value value) => name ++ u " = " ++ abbreviate value
        | None => name
        end
    | [column], count => column_name headers column ++ u " is one of " ++ to_string count ++ u " values"
    | columns, 1 => to_string (length columns) ++ u " columns match 1 row"
    | columns, count => to_string (length columns) ++ u " columns match " ++ to_string count ++ u " rows"
    end in
  verb ++ u " rows where " ++ condition.

(** [keys.contains(&key_row)] then [keys.push(key_row)]. *)
Definition push_new (keys : list (list CellKey)) (key_row : list CellKey) : list (list CellKey) :=
  if bool_decide (key_row ∈ keys) then keys else vec_push key_row keys.

Definition build (rows : list row) (bounds : nat * nat * nat * nat) (hidden_col : HiddenColumns)
    (null_text : str) (negate : bool) : option GridValueFilter :=
  let '(row_start, col_start, row_end, col_end) := bounds in
  if (row_end <? row_start) || (col_end <? col_start) then None
  else
    let columns :=
      List.filter (fun column => negb (contains hidden_col column)) (seq col_start (S col_end - col_start)) in
    match columns with
    | [] => None
    | _ =>
        let selected := drop row_start (take (row_end + 1) rows) in
        let key_rows := (fun r => (fun column => key_from_cell (cell r column) null_text) <$> columns) <$> selected in
        match fold_left push_new key_rows [] with
        | [] => None
        | keys => Some (mkFilter columns keys null_text negate)
        end
    end.

(** ** Searching *)

Section Search.
Variable to_lowercase : char -> str.

Definition grid_matches (rows : list row) (needle : str) (case_sensitive : bool) (hidden_col : HiddenColumns)
    : list (nat * nat) :=
  if str_is_empty needle then []
  else
    concat (imap (fun row_index r =>
      omap id (imap (fun col_index value =>
        if contains hidden_col col_index then None
        else match find_next_match to_lowercase value needle 0 case_sensitive with
             | Some _ => Some (row_index, col_index)
             | None => None
             end) r)) rows).
End Search.

(** Reading order of cells: [(usize, usize)] compared as a pair. *)
Definition cell_leb (l r : nat * nat) : bool :=
  (l.1 <? r.1) || ((l.1 =? r.1) && (l.2 <=? r.2)).

Fixpoint position {A} (p : A -> bool) (l : list A) : option nat :=
  match l with
  | [] => None
  | x :: l => if p x then Some 0 else S <$> position p l
  end.

Definition first_match_at_or_after (matches : list (nat * nat)) (origin : option (nat * nat)) : option nat :=
  match matches with
  | [] => None
  | _ =>
      match origin with
      | None => Some 0
      | Some origin => Some (default 0 (position (fun cell => cell_leb origin cell) matches))
      end
  end.

Definition stepped_match (len : nat) (current : option nat) (forward : bool) : option nat :=
  if len =? 0 then None
  else
    match (match current with Some index => if index <? len then Some index else None | None => None end) with
    | None => Some (if forward then 0 else len - 1)
    | Some current => Some (if forward then (current + 1) mod len else (current + len - 1) mod len)
    end.

Record GridSearchSession := mkSession {
  session_matches : list (nat * nat);
  current : option nat;
  origin : option (nat * nat);
  applied : option (str * bool * N)
}.

(** What one step leaves on the grid: the highlighted cells and the focused one. *)
Definition step_search (search_matches : str -> bool -> list (nat * nat)) (data_generation : N)
    (session : GridSearchSession) (needle : str) (case_sensitive forward : bool)
    : GridSearchSession * (list (nat * nat) * option (nat * nat)) :=
  let query := (needle, case_sensitive, data_generation) in
  let '(found, now) :=
    if bool_decide (applied session = Some query)
    then (session_matches session, stepped_match (length (session_matches session)) (current session) forward)
    else let found := search_matches needle case_sensitive in
         (found, first_match_at_or_after found (origin session)) in
  let focused := match now with Some index => found !! index | None => None end in
  (mkSession found now (match focused with Some cell => Some cell | None => origin session end)
     (if bool_decide (applied session = Some query) then applied session else Some query),
   (found, focused)).

Example null_matches_null :
  key_matches Key_Null (u " null ") (u "-") = true /\ key_matches (Key_Value (u "a")) (u "A") (u "-") = false.
Proof. vm_compute. done. Qed.

(** * The state of a result grid

    What [ResultTableWidget] keeps of a result and the operations on it: header
    sort, value filters, the arrangement of columns ([result_table.rs]).  The
    locks of the source guard one field each and are taken one after the other on
    the thread of the user interface; here the fields are one record.  How wide a
    column is measured is a parameter, what the toolkit's table draws is left out. *)

Record Grid (EditRowState : Type) := mkGrid {
  headers : list str;
  column_kinds : list SqlValueKind;
  column_data_types : list str;
  widths : list Z;
  full_data : list row;
  unfiltered_data : option (list row);
  value_filters : list GridValueFilter;
  column_source_order : list nat;
  user_hidden_columns : gset nat;
  hidden_auto_rowid_col : option nat;
  null_text : str;
  sort_null_ordering : NullOrdering;
  sort_state : option ColumnSortState;
  edit_session : option (list EditRowState);
  streaming_in_progress : bool;
  pending_save_request : bool
}.
Arguments mkGrid {_}.
Arguments headers {_}. Arguments column_kinds {_}. Arguments column_data_types {_}. Arguments widths {_}.
Arguments full_data {_}. Arguments unfiltered_data {_}. Arguments value_filters {_}.
Arguments column_source_order {_}. Arguments user_hidden_columns {_}. Arguments hidden_auto_rowid_col {_}.
Arguments null_text {_}. Arguments sort_null_ordering {_}. Arguments sort_state {_}.
Arguments edit_session {_}. Arguments streaming_in_progress {_}. Arguments pending_save_request {_}.
#[export] Instance Grid_eta {S} : Eta (Grid S) := fun g =>
  mkGrid (headers g) (column_kinds g) (column_data_types g) (widths g) (full_data g) (unfiltered_data g)
    (value_filters g) (column_source_order g) (user_hidden_columns g) (hidden_auto_rowid_col g) (null_text g)
    (sort_null_ordering g) (sort_state g) (edit_session g) (streaming_in_progress g) (pending_save_request g).

Section Operations.
Context {Sort : StableSort} {EditRowState : Type}.
Variable compute_column_widths : list str -> list row -> list Z.
Variable min_col_width : Z.
Abbreviation Grid := (Grid EditRowState).
Implicit Types g : Grid.

Definition is_edit_mode_enabled g : bool := bool_decide (is_Some (edit_session g)).

Definition hidden_columns g : HiddenColumns := mkHidden (hidden_auto_rowid_col g) (user_hidden_columns g).

(** ** Sorting *)

(** The rows after a sort of the grid's data, if the sort was done. *)
Definition sort_table_data g (idx : nat) (direction : SortDirection) : option (Grid * bool) :=
  (fun '(rows, states, done_) => (g <| full_data := rows |> <| edit_session := states |>, done_))
  <$> apply_sort_to_table_data (full_data g) (edit_session g) (column_kinds g) (null_text g)
        (sort_null_ordering g) idx direction.

(** [redirected]: the server took the sort ([try_redirect_header_sort]). *)
Definition apply_header_sort_action (redirected : bool) g (idx : nat) : option Grid :=
  let next_state := next_sort_state (sort_state g) idx in
  if redirected then Some g
  else (fun '(g, done_) => if (done_ : bool) then g <| sort_state := Some next_state |> else g)
       <$> sort_table_data g idx (direction next_state).

Definition sort_marker_for_column (sort_state : option ColumnSortState) (idx : nat) : option SortDirection :=
  match sort_state with
  | Some state => if negb (col_idx state =? idx) then None else Some (direction state)
  | None => None
  end.

(** ** Value filters *)

Inductive FilterRefusal := StillLoading | EditIsOn | NothingSelected | NothingToFilterBy.

Definition value_filter_refusal g : option FilterRefusal :=
  if streaming_in_progress g then Some StillLoading
  else if is_edit_mode_enabled g then Some EditIsOn
  else None.

(** [bounds]: the selection, limited to the rows and columns there are. *)
Definition value_filter_from_selection g (bounds : option (nat * nat * nat * nat)) (negate : bool)
    : GridValueFilter + FilterRefusal :=
  match value_filter_refusal g with
  | Some reason => inr reason
  | None =>
      match bounds with
      | None => inr NothingSelected
      | Some bounds =>
          match build (full_data g) bounds (hidden_columns g) (null_text g) negate with
          | Some filter => inl filter
          | None => inr NothingToFilterBy
          end
      end
  end.

(** The grid, and how many rows of how many are kept. *)
Definition install_value_filter g (filter : GridValueFilter) : (Grid * (nat * nat)) + FilterRefusal :=
  match value_filter_refusal g with
  | Some reason => inr reason
  | None =>
      let backup := default (full_data g) (unfiltered_data g) in
      let kept := retain filter (full_data g) in
      inl (g <| unfiltered_data := Some backup |> <| value_filters ::= vec_push filter |>
             <| full_data := kept |>, (length kept, length backup))
  end.

Fixpoint join_with (sep : str) (l : list str) : str :=
  match l with
  | [] => []
  | [s] => s
  | s :: l => s ++ sep ++ join_with sep l
  end.

Definition describe_value_filters g : str :=
  join_with [32; 183; 32]%N ((fun f => describe f (headers g)) <$> value_filters g).

Definition clear_value_filter g : option (Grid * bool) :=
  if is_edit_mode_enabled g then Some (g, false)
  else
    let restored := unfiltered_data g in
    let g := g <| unfiltered_data := None |> <| value_filters := [] |> in
    match restored with
    | None => Some (g, false)
    | Some rows =>
        let g := g <| full_data := rows |> in
        match sort_state g with
        | Some state => (fun '(g, _) => (g, true)) <$> sort_table_data g (col_idx state) (direction state)
        | None => Some (g, true)
        end
    end.

(** ** Columns *)

Definition column_layout_refusal g : option LayoutRefusal :=
  if streaming_in_progress g then Some LoadingColumns
  else if pending_save_request g || is_edit_mode_enabled g then Some EditingColumns
  else None.

Definition column_source_order_snapshot g (len : nat) : Grid :=
  if length (column_source_order g) =? len then g else g <| column_source_order := seq 0 len |>.

Definition column_layout_plan g : (Grid * ColumnLayoutPlan) + LayoutRefusal :=
  match column_layout_refusal g with
  | Some reason => inr reason
  | None =>
      if length (headers g) =? 0 then inr NoColumns
      else
        let hidden := hidden_columns g in
        let g := column_source_order_snapshot g (length (headers g)) in
        let rows := imap (fun index name =>
          mkColumn index (default index (column_source_order g !! index)) name
            (negb (contains hidden index)) (bool_decide (automatic_column hidden = Some index)))
          (headers g) in
        inl (g, from_rows rows)
  end.

(** [permute] for its effect on the vector. *)
Definition permuted {T} (order : list nat) (values : list T) : list T := (permute values order).1.

Definition hide_widths (hidden : HiddenColumns) (widths : list Z) : list Z :=
  fold_left (fun widths column => if column <? length widths then <[column := 0%Z]> widths else widths)
    (all hidden) widths.

Definition apply_column_layout g (plan : ColumnLayoutPlan) : Grid * option LayoutRefusal :=
  match column_layout_refusal g with
  | Some reason => (g, Some reason)
  | None =>
      let order := order plan in
      let column_count := length (headers g) in
      if negb (is_permutation order column_count) then (g, Some ColumnsChanged)
      else
        let widths' := permuted order (widths g) in
        let g := g <| headers ::= permuted order |> <| column_kinds ::= permuted order |>
                   <| column_data_types ::= permuted order |>
                   <| full_data ::= map (permuted order) |>
                   <| unfiltered_data ::= option_map (map (permuted order)) |>
                   <| column_source_order ::= fun source =>
                        if length source =? column_count then permuted order source else source |>
                   <| user_hidden_columns := hidden_positions plan |> in
        let widths' :=
          if existsb (fun w => Z.leb w 0) widths'
          then restore_missing_widths widths' (compute_column_widths (headers g) (full_data g)) min_col_width
          else widths' in
        (g <| widths := hide_widths (hidden_columns g) widths' |>, None)
  end.

(** How an arriving row is rearranged, if it has to be. *)
Definition ingest_column_order g : option (list nat) :=
  let order := column_source_order g in
  if negb (length order =? length (headers g)) || (order == seq 0 (length order)) then None
  else Some order.
End Operations.
