(* ===== verification/GridSpec.v ===== *)
(** * The result grid keeps its cells

    Laws of the column plan, of permuted rows and of the filters, and the invariant
    of the grid under every operation. *)
From stdpp Require Import gmap sorting.
From S2P Require Import Prelude RustStr TotalOrder FindText GridSort GridState.

(** * Laws of the column arrangement

    [is_permutation] decides permutations, [permute] reads by position, and the
    order of a plan is a permutation in which locked columns stay. *)

#[export] Instance filter_perm {A} (f : A -> bool) : Proper (Permutation ==> Permutation) (List.filter f).
Proof.
  induction 1 as [|x l l' _ IH|x y l|l1 l2 l3 _ IH1 _ IH2]; cbn; [done| | |by rewrite IH1].
  - by destruct (f x); rewrite ?IH.
  - destruct (f x), (f y); try done. apply perm_swap.
Qed.

(** ** Permutations of positions *)

Lemma all_new_spec seen order :
  all_new seen order = true <-> NoDup order /\ forall s, s ∈ order -> seen !! s = Some false.
Proof.
  revert seen. induction order as [|s order IH]; intros seen; cbn [all_new].
  { split; [|done]. intros _. split; [constructor|]. by intros s Hs%elem_of_nil. }
  rewrite NoDup_cons. split.
  - intros H. destruct (seen !! s) as [[]|] eqn:Es; try done.
    apply IH in H as [Hn Hs]. split; [split; [|done]|].
    + intros Hin. specialize (Hs s Hin). rewrite list_lookup_insert_eq in Hs by (by eapply lookup_lt_Some). done.
    + intros s' [->|Hs']%elem_of_cons; [done|]. specialize (Hs s' Hs').
      destruct (decide (s = s')) as [->|]; [done|]. by rewrite list_lookup_insert_ne in Hs.
  - intros [[Hnew Hn] Hs]. rewrite (Hs s) by left. apply IH. split; [done|].
    intros s' Hs'. rewrite list_lookup_insert_ne by (by intros ->). apply Hs. by right.
Qed.

Lemma permutation_of_seq order n :
  order ≡ₚ seq 0 n <-> length order = n /\ NoDup order /\ forall s, s ∈ order -> s < n.
Proof.
  split.
  - intros P. split; [by rewrite P, length_seq|]. split; [rewrite P; apply NoDup_seq|].
    intros s Hs. rewrite P in Hs. apply elem_of_seq in Hs. lia.
  - intros (Hl & Hn & Hs). apply submseteq_length_Permutation.
    + apply NoDup_submseteq; [done|]. intros s Hin. apply elem_of_seq. specialize (Hs s Hin). lia.
    + rewrite length_seq. lia.
Qed.

Lemma is_permutation_spec order n : is_permutation order n = true <-> order ≡ₚ seq 0 n.
Proof.
  rewrite permutation_of_seq. unfold is_permutation. destruct (Nat.eqb_spec (length order) n) as [Hl|Hl]; cbn [negb].
  - rewrite all_new_spec. assert (E : forall s, replicate n false !! s = Some false <-> s < n).
    { intros s. rewrite lookup_replicate. tauto. }
    setoid_rewrite E. tauto.
  - split; [done|]. tauto.
Qed.

(** ** Reading by position *)

Definition arrange {T} (order : list nat) (values : list T) : list T := omap (fun s => values !! s) order.

Lemma take_in_order_spec {T} (values : list T) taken order acc :
  NoDup order ->
  (forall s, s ∈ order -> s < length values /\ taken !! s = Some (values !! s)) ->
  take_in_order taken order acc = (acc ++ arrange order values, true).
Proof.
  revert taken acc. induction order as [|s order IH]; intros taken acc Hn Hs; cbn [take_in_order].
  { unfold arrange. cbn. by rewrite app_nil_r. }
  apply NoDup_cons in Hn as [Hnew Hn]. destruct (Hs s) as [Hlt Et]; [by left|]. rewrite Et.
  destruct (values !! s) as [v|] eqn:Ev; [|apply lookup_ge_None in Ev; lia].
  rewrite IH; [|done|].
  - unfold arrange, vec_push. cbn [omap list_omap]. rewrite Ev. by rewrite <- app_assoc.
  - intros s' Hs'. destruct (Hs s') as [Hlt' Et']; [by right|]. split; [done|].
    by rewrite list_lookup_insert_ne by (by intros ->).
Qed.

Lemma permute_spec {T} (values : list T) order :
  order ≡ₚ seq 0 (length values) -> permute values order = (arrange order values, true).
Proof.
  intros P. unfold permute. pose proof (proj2 (is_permutation_spec order (length values)) P) as ->. cbn [negb].
  apply permutation_of_seq in P as (Hl & Hn & Hs).
  rewrite (take_in_order_spec values); [done|done|].
  intros s Hin. specialize (Hs s Hin). split; [done|].
  rewrite list_lookup_fmap. by destruct (lookup_lt_is_Some_2 values s Hs) as [v ->].
Qed.

Lemma permute_refused {T} (values : list T) order :
  ~ order ≡ₚ seq 0 (length values) -> permute values order = (values, false).
Proof.
  intros P. unfold permute. destruct (is_permutation _ _) eqn:E; [|done].
  by apply is_permutation_spec in E.
Qed.

Lemma arrange_lookup {T} order (values : list T) p :
  (forall s, s ∈ order -> s < length values) -> arrange order values !! p = order !! p ≫= (fun s => values !! s).
Proof.
  revert p. induction order as [|s order IH]; intros p Hs; [by destruct p|].
  destruct (lookup_lt_is_Some_2 values s) as [v Ev]; [apply Hs; by left|].
  unfold arrange. cbn [omap list_omap]. rewrite Ev. destruct p as [|p]; [done|].
  cbn [lookup list_lookup]. apply IH. intros s' Hs'. apply Hs. by right.
Qed.

Lemma arrange_length {T} order (values : list T) :
  (forall s, s ∈ order -> s < length values) -> length (arrange order values) = length order.
Proof.
  induction order as [|s order IH]; intros Hs; [done|].
  destruct (lookup_lt_is_Some_2 values s) as [v Ev]; [apply Hs; by left|].
  unfold arrange. cbn [omap list_omap]. rewrite Ev. cbn [length]. f_equal. apply IH. intros s' Hs'. apply Hs. by right.
Qed.

Lemma arrange_seq {T} (values : list T) : arrange (seq 0 (length values)) values = values.
Proof.
  apply list_eq. intros p. rewrite arrange_lookup by (intros s [_ H]%elem_of_seq; lia).
  destruct (decide (p < length values)) as [H|H].
  - by rewrite lookup_seq_lt by done.
  - rewrite lookup_seq_ge by lia. cbn. symmetry. apply lookup_ge_None. lia.
Qed.

(** Arranging twice. *)
Lemma arrange_arrange {T} order (o : list nat) (values : list T) :
  (forall s, s ∈ o -> s < length values) -> (forall s, s ∈ order -> s < length o) ->
  arrange order (arrange o values) = arrange (arrange order o) values.
Proof.
  intros Ho Hord. apply list_eq. intros p.
  assert (Hin : forall s, s ∈ arrange order o -> s < length values).
  { intros s (i & _ & Hi)%list_elem_of_omap. apply Ho. by eapply list_elem_of_lookup_2. }
  rewrite !arrange_lookup; [|done|done|by rewrite arrange_length].
  destruct (order !! p) as [i|] eqn:E; [|done]. cbn. rewrite arrange_lookup by done. done.
Qed.

(** ** The order of a plan *)

Definition indices (rows : list ColumnLayoutRow) : list nat := grid_index <$> rows.

(** The plan holds every column of a grid of [n] columns once. *)
Definition plan_ok (n : nat) (p : ColumnLayoutPlan) : Prop :=
  indices (movable p) ++ indices (locked_rows p) ≡ₚ seq 0 n.

Lemma lock_slots_spec total rows :
  (forall i, i ∈ indices rows -> i < total) ->
  lock_slots total rows = (fun i => if bool_decide (i ∈ indices rows) then Some i else None) <$> seq 0 total.
Proof.
  intros Hr. unfold lock_slots.
  assert (Hacc : forall slots, length slots = total ->
    fold_left (fun order row =>
      if grid_index row <? total then <[grid_index row := Some (grid_index row)]> order else order) rows slots
    = imap (fun i slot => if bool_decide (i ∈ indices rows) then Some i else slot) slots).
  { induction rows as [|r rows IH]; intros slots Hl; cbn [fold_left].
    - apply list_eq. intros i. rewrite list_lookup_imap. cbn. by destruct (slots !! i).
    - assert (Hlt : grid_index r < total) by (apply Hr; by left).
      destruct (Nat.ltb_spec (grid_index r) total); [|lia].
      rewrite IH; [|intros i Hi; apply Hr; by right|by rewrite length_insert].
      apply list_eq. intros i. rewrite !list_lookup_imap.
      destruct (decide (grid_index r = i)) as [<-|Hne].
      + rewrite list_lookup_insert_eq by lia. destruct (lookup_lt_is_Some_2 slots (grid_index r)) as [x ->]; [lia|].
        cbn. rewrite (bool_decide_true (grid_index r ∈ indices (r :: rows))) by (by left).
        by destruct (bool_decide _).
      + rewrite list_lookup_insert_ne by done. destruct (slots !! i); [|done]. cbn. f_equal.
        unfold indices. cbn [fmap list_fmap]. apply bool_decide_ext || idtac.
        destruct (bool_decide_reflect (i ∈ grid_index <$> rows)) as [Hi|Hi],
          (bool_decide_reflect (i ∈ grid_index r :: (grid_index <$> rows))) as [Hj|Hj]; try done.
        * destruct Hj. by right.
        * apply elem_of_cons in Hj as [->|Hj]; done. }
  rewrite Hacc by apply length_replicate. apply list_eq. intros i. rewrite list_lookup_imap, list_lookup_fmap.
  destruct (decide (i < total)) as [Hi|Hi].
  - rewrite lookup_replicate_2, lookup_seq_lt by done. done.
  - rewrite lookup_ge_None_2 by (rewrite length_replicate; lia). by rewrite lookup_seq_ge by lia.
Qed.

Definition open_slots (slots : list (option nat)) : nat :=
  length (List.filter (fun slot => match slot with None => true | Some _ => false end) slots).

Lemma fill_slots_spec slots mov (L : nat -> bool) :
  open_slots slots = length mov ->
  (forall x, Some x ∈ slots -> L x = true) -> (forall x, x ∈ indices mov -> L x = false) ->
  exists res, fill_slots slots mov = Some <$> res /\ res ≡ₚ omap id slots ++ indices mov
    /\ (forall i x, slots !! i = Some (Some x) -> res !! i = Some x)
    /\ List.filter (fun x => negb (L x)) res = indices mov.
Proof.
  revert mov. induction slots as [|[x|] slots IH]; intros mov Hlen HL HM.
  - destruct mov; [|done]. by exists [].
  - destruct (IH mov) as (res & E & P & Hi & F); [done|intros y Hy; apply HL; by right|done|].
    exists (x :: res). cbn [fill_slots]. rewrite E. split; [done|]. split; [cbn; by rewrite P|]. split.
    + intros [|i] y; cbn; [by intros [= ->]|apply Hi].
    + cbn [List.filter]. rewrite (HL x) by left. done.
  - destruct mov as [|r mov]; [done|]. injection Hlen as Hlen.
    destruct (IH mov) as (res & E & P & Hi & F);
      [done|intros y Hy; apply HL; by right|intros y Hy; apply HM; by right|].
    exists (grid_index r :: res). cbn [fill_slots]. rewrite E. split; [done|]. split.
    { cbn [omap list_omap id]. unfold indices in *. cbn [fmap list_fmap]. rewrite P. apply Permutation_middle. }
    split; [intros [|i] y; cbn; [done|apply Hi]|].
    cbn [List.filter]. rewrite (HM (grid_index r)) by (unfold indices; left). cbn [negb]. rewrite F. done.
Qed.

Lemma locked_open_slots n L :
  NoDup L -> (forall i, i ∈ L -> i < n) ->
  let slots := (fun i => if bool_decide (i ∈ L) then Some i else None) <$> seq 0 n in
  open_slots slots + length L = n /\ omap id slots ≡ₚ L.
Proof.
  intros Hn HL slots.
  assert (Hom : forall l, omap id ((fun i => if bool_decide (i ∈ L) then Some i else None) <$> l)
                          = List.filter (fun i => bool_decide (i ∈ L)) l).
  { induction l as [|i l IH]; [done|]. cbn [fmap list_fmap omap list_omap List.filter].
    destruct (bool_decide (i ∈ L)); cbn [id]; by rewrite <- IH. }
  assert (Hcount : forall l, open_slots ((fun i => if bool_decide (i ∈ L) then Some i else None) <$> l)
                    + length (List.filter (fun i => bool_decide (i ∈ L)) l) = length l).
  { unfold open_slots. induction l as [|i l IH]; [done|]. cbn [fmap list_fmap List.filter].
    destruct (bool_decide (i ∈ L)); cbn [length List.filter] in *; lia. }
  assert (P : List.filter (fun i => bool_decide (i ∈ L)) (seq 0 n) ≡ₚ L).
  { apply NoDup_Permutation; [|done|].
    - apply NoDup_ListNoDup, List.NoDup_filter, NoDup_ListNoDup, NoDup_seq.
    - intros i. rewrite list_elem_of_In, List.filter_In, <- list_elem_of_In, bool_decide_eq_true, elem_of_seq.
      split; [tauto|]. intros Hi. specialize (HL i Hi). split; [lia|done]. }
  specialize (Hcount (seq 0 n)). rewrite P, length_seq in Hcount. unfold slots. rewrite Hom. done.
Qed.

(** What a plan arranges: every column once, locked ones where they were, the
    others in the order of the dialog. *)
Lemma order_spec n p :
  plan_ok n p ->
  order p ≡ₚ seq 0 n
  /\ (forall i, i ∈ indices (locked_rows p) -> order p !! i = Some i)
  /\ List.filter (fun i => negb (bool_decide (i ∈ indices (locked_rows p)))) (order p) = indices (movable p).
Proof.
  intros Hp. unfold plan_ok in Hp. pose proof Hp as Hp'. apply permutation_of_seq in Hp' as (Hlen & Hnd & Hlt).
  set (L := indices (locked_rows p)) in *. set (M := indices (movable p)) in *.
  apply NoDup_app in Hnd as (HndM & Hdis & HndL).
  assert (Hcount : column_count p = n).
  { rewrite <- Hlen, length_app. unfold column_count, M, L, indices. by rewrite !length_fmap. }
  assert (HL : forall i, i ∈ L -> i < n) by (intros i Hi; apply Hlt, elem_of_app; by right).
  unfold order. rewrite Hcount, (lock_slots_spec n) by exact HL. fold L.
  destruct (locked_open_slots n L HndL HL) as [Hopen Hom]. cbn zeta in Hopen, Hom.
  set (slots := _ <$> seq 0 n) in *.
  assert (Hslot : forall i, i ∈ L -> slots !! i = Some (Some i)).
  { intros i Hi. unfold slots. rewrite list_lookup_fmap, lookup_seq_lt by (by apply HL). cbn.
    by rewrite bool_decide_true. }
  destruct (fill_slots_spec slots (movable p) (fun x => bool_decide (x ∈ L))) as (res & E & P & Hi & F).
  - assert (length (movable p) + length L = n); [|lia].
    rewrite <- Hcount. unfold column_count, L, indices. by rewrite length_fmap.
  - intros x Hx. unfold slots in Hx. apply list_elem_of_fmap in Hx as (i & Hx & _).
    destruct (bool_decide_reflect (i ∈ L)); [|done]. injection Hx as ->. by apply bool_decide_true.
  - intros x Hx. apply bool_decide_false. by apply Hdis.
  - rewrite E. assert (Eres : imap (fun position slot => default position slot) (Some <$> res) = res).
    { apply list_eq. intros i. rewrite list_lookup_imap, list_lookup_fmap. by destruct (res !! i). }
    rewrite Eres. split; [|split].
    + rewrite P, Hom, <- Hp. apply Permutation_app_comm.
    + intros i HiL. apply Hi. by apply Hslot.
    + exact F.
Qed.

Lemma elem_of_hidden_positions p pos :
  pos ∈ hidden_positions p <-> exists r, r ∈ movable p /\ visible r = false /\ order p !! pos = Some (grid_index r).
Proof.
  unfold hidden_positions. rewrite elem_of_list_to_set, list_elem_of_omap.
  assert (Hset : forall i, i ∈ hidden_grid_indices p <-> exists r, r ∈ movable p /\ visible r = false /\ i = grid_index r).
  { intros i. unfold hidden_grid_indices. rewrite elem_of_list_to_set, list_elem_of_fmap.
    setoid_rewrite list_elem_of_In. setoid_rewrite List.filter_In. setoid_rewrite negb_true_iff. naive_solver. }
  split.
  - intros (x & Hx & Hid). cbn in Hid. subst x. apply list_elem_of_lookup in Hx as [k Hk].
    rewrite list_lookup_imap in Hk. destruct (order p !! k) as [i|] eqn:Ei; [|done]. cbn in Hk.
    destruct (bool_decide_reflect (i ∈ hidden_grid_indices p)) as [Hin|]; [|done].
    injection Hk as ->. apply Hset in Hin as (r & Hr & Hv & ->). by exists r.
  - intros (r & Hr & Hv & Ho). exists (Some pos). split; [|done]. apply list_elem_of_lookup. exists pos.
    rewrite list_lookup_imap, Ho. cbn. rewrite bool_decide_true; [done|]. apply Hset. by exists r.
Qed.

(** ** The dialog keeps plans legal *)

Lemma swap_adjacent {A} k (v : list A) : swap k (S k) v ≡ₚ v /\ swap (S k) k v ≡ₚ v.
Proof.
  destruct (v !! S k) as [y|] eqn:Ey.
  2: { unfold swap. rewrite Ey. by destruct (v !! k). }
  destruct (lookup_lt_is_Some_2 v k) as [x Ex]; [apply lookup_lt_Some in Ey; lia|].
  assert (Ev : v = take k v ++ x :: y :: drop (S (S k)) v).
  { rewrite <- (take_drop k v) at 1. f_equal. by rewrite (drop_S _ x), (drop_S _ y). }
  assert (Hk : length (take k v) = k) by (rewrite length_take; apply lookup_lt_Some in Ex; lia).
  assert (E1 : swap k (S k) v = take k v ++ y :: x :: drop (S (S k)) v).
  { unfold swap. rewrite Ex, Ey. rewrite Ev at 1. rewrite insert_app_r_alt by lia. rewrite Hk.
    replace (S k - k) with 1 by lia. rewrite insert_app_r_alt by lia. rewrite Hk, Nat.sub_diag. done. }
  assert (E2 : swap (S k) k v = swap k (S k) v).
  { unfold swap. rewrite Ex, Ey. by rewrite list_insert_insert_ne by lia. }
  rewrite E2, E1. split; rewrite Ev at 3; apply Permutation_app_head, perm_swap.
Qed.

Inductive plan_step `{StableSort} (p : ColumnLayoutPlan) : ColumnLayoutPlan -> Prop :=
  | step_move at_ forward : plan_step p (move_row p at_ forward).1
  | step_show at_ shown : plan_step p (set_visible p at_ shown).1
  | step_reset : plan_step p (reset p).

Section Steps.
Context {Sort : StableSort}.

Lemma move_row_perm p at_ forward :
  movable (move_row p at_ forward).1 ≡ₚ movable p /\ locked_rows (move_row p at_ forward).1 = locked_rows p.
Proof.
  unfold move_row. destruct (_ <=? at_); [done|]. destruct forward.
  - rewrite Nat.add_1_r. destruct (_ <? _); [|done]. split; [|done]. apply swap_adjacent.
  - destruct at_ as [|k]; [done|]. split; [|done]. apply swap_adjacent.
Qed.

Lemma set_visible_spec p at_ shown :
  let p' := (set_visible p at_ shown).1 in
  indices (movable p') = indices (movable p) /\ locked_rows p' = locked_rows p
  /\ (1 <= visible_count p -> 1 <= visible_count p').
Proof.
  unfold set_visible. destruct (movable p !! at_) as [row|] eqn:E; [|done].
  destruct (Bool.eqb (visible row) shown) eqn:Ev; [done|].
  destruct (negb shown && (visible_count p <=? 1)) eqn:Elast; [done|]. cbn zeta.
  split; [|split; [done|]].
  - unfold indices. cbn [movable fst]. rewrite list_fmap_insert. cbn.
    apply list_insert_id. by rewrite list_lookup_fmap, E.
  - intros Hc. unfold visible_count in *. cbn [movable fst].
    assert (Hcount : forall (l : list ColumnLayoutRow) i r r', l !! i = Some r ->
      length (List.filter visible (<[i := r']> l)) + (if visible r then 1 else 0)
      = length (List.filter visible l) + (if visible r' then 1 else 0)).
    { clear. induction l as [|x l IH]; intros [|i] r r' H; try done; cbn in H.
      - injection H as ->. cbn. destruct (visible r), (visible r'); cbn; lia.
      - specialize (IH i r r' H). change (<[S i := r']> (x :: l)) with (x :: <[i := r']> l).
        cbn [List.filter]. destruct (visible x); cbn [length]; lia. }
    specialize (Hcount (movable p) at_ row (row <| visible := shown |>) E).
    change (visible (row <| visible := shown |>)) with shown in Hcount.
    destruct shown, (visible row); cbn [Bool.eqb negb andb] in *; try done; try lia.
    apply Nat.leb_gt in Elast. lia.
Qed.

Lemma plan_step_ok n p p' :
  plan_step p p' -> plan_ok n p -> 1 <= visible_count p ->
  plan_ok n p' /\ 1 <= visible_count p' /\ locked_rows p' = locked_rows p.
Proof.
  intros Hstep Hok Hv. unfold plan_ok in *. destruct Hstep as [at_ forward|at_ shown|].
  - destruct (move_row_perm p at_ forward) as [P ->]. split; [|split; [|done]].
    + unfold indices. by rewrite P.
    + unfold visible_count. by rewrite P.
  - destruct (set_visible_spec p at_ shown) as (-> & -> & Hv'). split; [done|]. split; [by apply Hv'|done].
  - unfold reset. set (sorted := default _ _). cbn [movable locked_rows].
    assert (P : sorted ≡ₚ movable p).
    { unfold sorted. destruct (sort_by _ (movable p)) as [l|] eqn:E; [by apply sort_by_perm in E|done]. }
    split; [|split; [|done]].
    + unfold indices. rewrite <- list_fmap_compose. change (_ ∘ _) with grid_index. by rewrite P.
    + unfold visible_count in *. cbn [movable].
      assert (Hlen : forall l : list ColumnLayoutRow,
        length (List.filter visible ((fun r => r <| visible := true |>) <$> l)) = length l).
      { clear. induction l as [|r l IH]; [done|]. cbn. by rewrite IH. }
      rewrite Hlen, P. pose proof (List.filter_length_le visible (movable p)). lia.
Qed.

Lemma plan_steps_ok n p p' :
  rtc plan_step p p' -> plan_ok n p -> 1 <= visible_count p ->
  plan_ok n p' /\ 1 <= visible_count p' /\ locked_rows p' = locked_rows p.
Proof.
  induction 1 as [|p1 p2 p3 Hs _ IH]; intros Hok Hv; [done|].
  destruct (plan_step_ok n _ _ Hs Hok Hv) as (Hok' & Hv' & El).
  destruct (IH Hok' Hv') as (? & ? & El'). split_and!; try done. by rewrite El', El.
Qed.

(** Reset lists the columns as they arrived, all shown. *)
Lemma reset_spec p :
  movable (reset p) ≡ₚ (fun r => r <| visible := true |>) <$> movable p
  /\ StronglySorted (fun l r => source_index l <= source_index r) (movable (reset p)).
Proof.
  unfold reset.
  assert (T : TotalCmp (fun l r => Nat.compare (source_index l) (source_index r))).
  { split; intros; [apply Nat.compare_refl|apply Nat.compare_antisym|].
    rewrite Nat.compare_gt_iff in *. lia. }
  destruct (sort_by_spec _ (fun l r => Some (Nat.compare (source_index l) (source_index r))) (movable p) T)
    as (l & -> & P & S & _); [done|].
  cbn [default from_option movable]. split; [by rewrite P|].
  clear P. induction S as [|r l Hl IH Hr]; cbn; constructor; [done|].
  rewrite Forall_fmap. eapply Forall_impl; [exact Hr|]. intros r' H. cbn in *.
  rewrite Nat.compare_gt_iff in H. lia.
Qed.
End Steps.

(** * What the result grid promises

    No cell is lost or moved under another header by sorting, filtering and
    arranging columns in any order; the column dialog always yields a legal
    arrangement; the value filter keeps exactly the rows it says; stepping through
    matches comes to every one of them. *)

(** ** The Columns dialog *)

(** C38. However the dialog is used on a grid of [n] columns with one column visible,
    the arrangement it ends with is a permutation of the columns; a technical
    column keeps its place, the others come in the order of the dialog, applying
    it puts at each position the column the plan names, a position is hidden
    exactly when the column that comes there is unchecked, and at least one
    column is still visible. *)
Theorem column_plan_arranges_columns {Sort : StableSort} n p0 p :
  plan_ok n p0 -> 1 <= visible_count p0 -> rtc plan_step p0 p ->
  is_permutation (order p) n = true
  /\ (forall i, i ∈ indices (locked_rows p0) -> order p !! i = Some i)
  /\ List.filter (fun i => negb (bool_decide (i ∈ indices (locked_rows p0)))) (order p) = indices (movable p)
  /\ (forall T (values : list T), length values = n ->
        exists arranged, permute values (order p) = (arranged, true)
          /\ forall pos, arranged !! pos = order p !! pos ≫= (fun i => values !! i))
  /\ (forall pos, pos ∈ hidden_positions p <->
        exists r, r ∈ movable p /\ visible r = false /\ order p !! pos = Some (grid_index r))
  /\ 1 <= visible_count p.
Proof.
  intros Hok Hv Hsteps. destruct (plan_steps_ok n p0 p Hsteps Hok Hv) as (Hok' & Hv' & El).
  destruct (order_spec n p Hok') as (P & Hlock & Hmov). rewrite El in Hlock, Hmov.
  split; [by apply is_permutation_spec|]. split; [done|]. split; [done|]. split; [|split; [|done]].
  - intros T values Hlen. exists (arrange (order p) values).
    rewrite permute_spec by (by rewrite Hlen). split; [done|].
    intros pos. apply arrange_lookup. intros s Hs. rewrite P in Hs. apply elem_of_seq in Hs. lia.
  - apply elem_of_hidden_positions.
Qed.

(** ** The value filter *)

Definition selected_rows (rows : list row) (bounds : nat * nat * nat * nat) : list row :=
  let '(row_start, _, row_end, _) := bounds in
  if row_end <? row_start then [] else drop row_start (take (row_end + 1) rows).

Definition selected_columns (bounds : nat * nat * nat * nat) (hidden : HiddenColumns) : list nat :=
  let '(_, col_start, _, col_end) := bounds in
  List.filter (fun column => negb (contains hidden column)) (seq col_start (S col_end - col_start)).

(** Two rows show the same in the columns. *)
Definition same_cells (null_text : str) (columns : list nat) (l r : row) : bool :=
  forallb (fun column => bool_decide
    (key_from_cell (cell l column) null_text = key_from_cell (cell r column) null_text)) columns.

Lemma key_matches_same value value' null_text :
  key_matches (key_from_cell value null_text) value' null_text
  = bool_decide (key_from_cell value null_text = key_from_cell value' null_text).
Proof.
  unfold key_from_cell, key_matches.
  destruct (value_represents_null value null_text), (value_represents_null value' null_text); cbn [negb andb];
    symmetry; rewrite ?bool_decide_true, ?bool_decide_false by done; try done.
  apply bool_decide_ext. split; congruence.
Qed.

Lemma key_row_same f s r :
  key_row_matches f ((fun column => key_from_cell (cell s column) (filter_null_text f)) <$> columns f) r
  = same_cells (filter_null_text f) (columns f) s r.
Proof.
  unfold key_row_matches, same_cells. induction (columns f) as [|column columns IH]; [done|].
  cbn [fmap list_fmap zip zip_with forallb]. by rewrite key_matches_same, IH.
Qed.

Lemma push_all_elem keys acc k : k ∈ fold_left push_new keys acc <-> k ∈ acc \/ k ∈ keys.
Proof.
  revert acc. induction keys as [|k' keys IH]; intros acc; cbn [fold_left].
  { split; [by left|]. intros [H|H]; [done|by apply elem_of_nil in H]. }
  rewrite IH, elem_of_cons. unfold push_new. destruct (bool_decide_reflect (k' ∈ acc)) as [H|H].
  - split; [tauto|]. intros [?|[->|?]]; tauto.
  - unfold vec_push. rewrite elem_of_app, list_elem_of_singleton. tauto.
Qed.

(** The filter built from a selection keeps the rows that show, in every selected
    visible column, what some selected row shows there, or hides exactly these;
    with the opposite filter it splits the rows in two.  A selection that covers
    no row or no visible column builds none. *)
Theorem value_filter_keeps_what_it_shows rows bounds hidden null_text negate_ :
  match build rows bounds hidden null_text negate_ with
  | Some f =>
      retain f rows
        = List.filter (fun r => xorb (existsb (fun s => same_cells null_text (selected_columns bounds hidden) s r)
                                 (selected_rows rows bounds)) negate_) rows
      /\ exists f', build rows bounds hidden null_text (negb negate_) = Some f'
           /\ retain f rows ++ retain f' rows ≡ₚ rows
           /\ forall r, r ∈ retain f rows -> r ∉ retain f' rows
  | None => selected_rows rows bounds = [] \/ selected_columns bounds hidden = []
  end.
Proof.
  destruct bounds as [[[row_start col_start] row_end] col_end]. unfold build, selected_rows, selected_columns.
  destruct (Nat.ltb_spec row_end row_start) as [Hr|Hr]; [by left|].
  destruct (Nat.ltb_spec col_end col_start) as [Hc|Hc]; cbn [orb].
  { right. replace (S col_end - col_start) with 0 by lia. done. }
  set (cols := List.filter _ (seq _ _)). destruct cols as [|c cols'] eqn:Ecols; [by right|]. rewrite <- Ecols.
  set (selected := drop row_start (take (row_end + 1) rows)).
  set (key_rows := _ <$> selected).
  assert (Hkeys : forall r neg, matches (mkFilter cols (fold_left push_new key_rows []) null_text neg) r
    = xorb (existsb (fun s => same_cells null_text cols s r) selected) neg).
  { intros r neg. unfold matches. cbn [keys negate]. f_equal.
    apply eq_true_iff_eq. rewrite !existsb_exists. setoid_rewrite <- list_elem_of_In. split.
    - intros (k & Hk & Hm). apply push_all_elem in Hk as [Hk|Hk]; [by apply elem_of_nil in Hk|].
      unfold key_rows in Hk. apply list_elem_of_fmap in Hk as (s & -> & Hs). exists s. split; [done|].
      by rewrite (key_row_same (mkFilter cols _ null_text neg)) in Hm.
    - intros (s & Hs & Hm). eexists. split; [apply push_all_elem; right; unfold key_rows; by apply list_elem_of_fmap_2|].
      by rewrite (key_row_same (mkFilter cols _ null_text neg)). }
  destruct (fold_left push_new key_rows []) as [|k ks] eqn:Ek.
  { left. destruct selected as [|s selected']; [done|]. exfalso.
    assert (H : (fun column => key_from_cell (cell s column) null_text) <$> cols ∈ fold_left push_new key_rows []).
    { apply push_all_elem. right. unfold key_rows. by left. }
    rewrite Ek in H. by apply elem_of_nil in H. }
  split.
  - unfold retain. apply filter_ext. intros r. apply Hkeys.
  - eexists. split; [reflexivity|]. unfold retain.
    assert (Hneg : forall r, matches (mkFilter cols (k :: ks) null_text (negb negate_)) r
                             = negb (matches (mkFilter cols (k :: ks) null_text negate_) r)).
    { intros r. rewrite !Hkeys. by destruct (existsb _ _), negate_. }
    split.
    + clear -Hneg. induction rows as [|r rows IH]; [done|]. cbn [List.filter]. rewrite Hneg.
      destruct (matches (mkFilter cols (k :: ks) null_text negate_) r); cbn [negb app].
      * by rewrite IH.
      * rewrite <- Permutation_middle. by rewrite IH.
    + intros r. rewrite !list_elem_of_In, !filter_In, Hneg. intros [_ ->] [_ H]. done.
Qed.

(** ** The grid over time *)

Section Grid.
Context {Sort : StableSort} {EditRowState : Type}.
Variables (compute_column_widths : list str -> list row -> list Z) (min_col_width : Z).
Abbreviation Grid := (Grid EditRowState).
Abbreviation layout := (apply_column_layout compute_column_widths min_col_width).

Inductive grid_step (g : Grid) : Grid -> Prop :=
  | step_sort redirected idx g' : apply_header_sort_action redirected g idx = Some g' -> grid_step g g'
  | step_filter f g' kept : install_value_filter g f = inl (g', kept) -> grid_step g g'
  | step_clear g' hidden : clear_value_filter g = Some (g', hidden) -> grid_step g g'
  | step_plan g' plan : column_layout_plan g = inl (g', plan) -> grid_step g g'
  | step_layout plan : grid_step g (layout g plan).1.

(** All rows, the filtered ones too. *)
Definition all_data (g : Grid) : list row := default (full_data g) (unfiltered_data g).

(** The grid as a result arrived in it, not being edited. *)
Definition arrived (names : list str) (rows : list row) (g : Grid) : Prop :=
  headers g = names /\ full_data g = rows /\ unfiltered_data g = None
  /\ column_source_order g = seq 0 (length names) /\ edit_session g = None.

(** The grid holds the result that arrived, its columns arranged by the order it
    remembers. *)
Definition holds (names : list str) (rows : list row) (g : Grid) : Prop :=
  column_source_order g ≡ₚ seq 0 (length names)
  /\ headers g = arrange (column_source_order g) names
  /\ all_data g ≡ₚ arrange (column_source_order g) <$> rows
  /\ full_data g ⊆+ all_data g
  /\ edit_session g = None.

Lemma arrange_row_length (names : list str) o (r : row) :
  o ≡ₚ seq 0 (length names) -> length r = length names -> length (arrange o r) = length names.
Proof.
  intros Po Hr. rewrite arrange_length.
  - by rewrite Po, length_seq.
  - intros s Hs. rewrite Po in Hs. apply elem_of_seq in Hs. lia.
Qed.

Lemma sort_holds names rows (g g' : Grid) idx d done_ :
  holds names rows g -> sort_table_data g idx d = Some (g', done_) -> holds names rows g'.
Proof.
  intros (Po & Hh & Hall & Hsub & He) H. unfold sort_table_data, apply_sort_to_table_data, sort_row_entries in H.
  rewrite He in H. destruct (sort_by _ (full_data g)) as [sorted|] eqn:Es; [|done]. cbn in H.
  injection H as <- <-. apply sort_by_perm in Es.
  unfold holds, all_data in *. cbn [column_source_order headers unfiltered_data full_data edit_session upd] in *.
  split; [done|]. split; [done|]. cbn. destruct (unfiltered_data g) as [backup|]; cbn in *.
  - split; [done|]. split; [by rewrite Es|done].
  - split; [by rewrite Es|]. split; [done|done].
Qed.

Lemma permuted_arrange {T} (names : list str) order (values : list T) :
  order ≡ₚ seq 0 (length names) -> length values = length names -> permuted order values = arrange order values.
Proof. intros P Hl. unfold permuted. by rewrite permute_spec by (by rewrite Hl). Qed.

Lemma layout_holds names rows g plan :
  Forall (fun r => length r = length names) rows -> holds names rows g -> holds names rows (layout g plan).1.
Proof.
  intros Hrows (Po & Hh & Hall & Hsub & He). unfold apply_column_layout.
  destruct (column_layout_refusal g); [done|]. destruct (is_permutation _ _) eqn:Ep; [|done].
  cbn [negb fst]. apply is_permutation_spec in Ep.
  pose proof (permutation_of_seq (column_source_order g) (length names)) as Hperm.
  destruct (proj1 Hperm Po) as (Hlen & _ & Hlt).
  assert (Hn : length (headers g) = length names) by (rewrite Hh, arrange_length; done).
  rewrite Hn in Ep. set (ord := order plan) in *.
  destruct (proj1 (permutation_of_seq ord (length names)) Ep) as (Hlo & _ & Hlto).
  assert (Eo : permuted ord (column_source_order g) = arrange ord (column_source_order g))
    by (by eapply permuted_arrange).
  assert (Harr : forall T (values : list T), length values = length names ->
    permuted ord (arrange (column_source_order g) values)
    = arrange (arrange ord (column_source_order g)) values).
  { intros T values Hl. rewrite (permuted_arrange names); [|done|rewrite arrange_length; [done|by rewrite Hl]].
    apply arrange_arrange; [by rewrite Hl|by rewrite Hlen]. }
  assert (Eall : forall l, l ≡ₚ arrange (column_source_order g) <$> rows ->
    permuted ord <$> l ≡ₚ arrange (arrange ord (column_source_order g)) <$> rows).
  { intros l ->. rewrite <- list_fmap_compose.
    erewrite list_fmap_ext; [reflexivity|].
    intros i r Hi. apply Harr. rewrite Forall_lookup in Hrows. by eapply Hrows. }
  match goal with |- holds _ _ ?x => set (g' := x) end.
  assert (F1 : column_source_order g' = if length (column_source_order g) =? length (headers g)
                 then permuted ord (column_source_order g) else column_source_order g) by reflexivity.
  assert (F2 : headers g' = permuted ord (headers g)) by reflexivity.
  assert (F3 : full_data g' = (permuted ord : row -> row) <$> full_data g) by reflexivity.
  assert (F4 : unfiltered_data g' = option_map (fmap (permuted ord : row -> row)) (unfiltered_data g)) by reflexivity.
  assert (F5 : edit_session g' = edit_session g) by reflexivity.
  clearbody g'. rewrite Hn, Hlen, Nat.eqb_refl, Eo in F1.
  assert (Po' : arrange ord (column_source_order g) ≡ₚ seq 0 (length names)).
  { apply permutation_of_seq. split; [rewrite arrange_length by (by rewrite Hlen); done|].
    split; [|intros s (i & _ & Hi)%list_elem_of_omap; apply Hlt; by eapply list_elem_of_lookup_2].
    apply NoDup_alt. intros i j x Hi Hj.
    rewrite arrange_lookup in Hi, Hj by (by rewrite Hlen).
    destruct (ord !! i) as [si|] eqn:Ei; [|done]. destruct (ord !! j) as [sj|] eqn:Ej; [|done]. cbn in Hi, Hj.
    assert (si = sj).
    { eapply NoDup_lookup; [|exact Hi|exact Hj]. rewrite Po. apply NoDup_seq. }
    subst sj. eapply NoDup_lookup; [|exact Ei|exact Ej]. rewrite Ep. apply NoDup_seq. }
  unfold holds, all_data in *. rewrite F1, F2, F3, F4, F5.
  split; [done|]. split; [rewrite Hh; by apply Harr|].
  destruct (unfiltered_data g) as [backup|]; cbn [option_map default from_option id] in *.
  - split; [by apply Eall|]. split; [by apply fmap_submseteq|done].
  - split; [by apply Eall|]. split; [done|done].
Qed.

Lemma clear_holds names rows (g g' : Grid) hidden :
  holds names rows g -> clear_value_filter g = Some (g', hidden) ->
  holds names rows g' /\ full_data g' ≡ₚ arrange (column_source_order g) <$> rows
  /\ column_source_order g' = column_source_order g.
Proof.
  intros (Po & Hh & Hall & Hsub & He) H. unfold clear_value_filter, is_edit_mode_enabled in H. rewrite He in H.
  cbn [bool_decide decide_rel is_Some_dec] in H. unfold all_data in Hall, Hsub.
  destruct (unfiltered_data g) as [backup|] eqn:Eu; cbn [default from_option id] in Hall, Hsub.
  - set (g1 := g <| unfiltered_data := None |> <| value_filters := [] |> <| full_data := backup |>) in *.
    assert (H1 : holds names rows g1) by (split_and!; done).
    assert (Hend : g' = g1 \/ exists idx d done_, sort_table_data g1 idx d = Some (g', done_)).
    { destruct (sort_state g1) as [state|]; [|injection H as <- _; by left].
      destruct (sort_table_data g1 _ _) as [[g2 done_]|] eqn:Es; [|done].
      injection H as <- _. right. by do 3 eexists. }
    destruct Hend as [->|(idx & d & done_ & Es)]; [by split_and!|].
    pose proof (sort_holds _ _ _ _ _ _ _ H1 Es) as H2. split; [done|].
    unfold sort_table_data, apply_sort_to_table_data, sort_row_entries in Es.
    change (edit_session g1) with (edit_session g) in Es. rewrite He in Es.
    destruct (sort_by _ (full_data g1)) as [sorted|] eqn:Esort; [|done]. injection Es as <- _.
    apply sort_by_perm in Esort. split; [|done]. cbn. rewrite Esort. done.
  - injection H as <- _. split_and!; try done.
Qed.

Lemma steps_hold names rows (g g' : Grid) :
  Forall (fun r => length r = length names) rows ->
  rtc grid_step g g' -> holds names rows g -> holds names rows g'.
Proof.
  intros Hrows. induction 1 as [|g g1 g2 Hs _ IH]; [done|]. intros Hg. apply IH. clear IH.
  destruct Hs as [redirected idx g' H|f g' kept H|g' hidden H|g' plan H|plan].
  - unfold apply_header_sort_action in H. destruct redirected; [by injection H as <-|].
    destruct (sort_table_data g _ _) as [[g3 done_]|] eqn:Es; [|done]. pose proof (sort_holds _ _ _ _ _ _ _ Hg Es) as H3.
    injection H as <-. destruct done_; [|done]. destruct H3 as (?&?&?&?&?). by split_and!.
  - destruct Hg as (Po & Hh & Hall & Hsub & He). unfold install_value_filter in H.
    destruct (value_filter_refusal g); [done|]. injection H as <- _. unfold all_data in *.
    assert (Hf : retain f (full_data g) ⊆+ full_data g).
    { unfold retain. clear. induction (full_data g) as [|r l IH]; [done|]. cbn.
      destruct (matches f r); [by apply submseteq_skip|by apply submseteq_cons]. }
    split; [done|]. split; [done|]. split; [exact Hall|]. split; [|done].
    change (retain f (full_data g) ⊆+ default (full_data g) (unfiltered_data g)).
    by transitivity (full_data g).
  - by eapply clear_holds.
  - unfold column_layout_plan in H. destruct (column_layout_refusal g); [done|].
    destruct (length (headers g) =? 0); [done|]. injection H as <- _. unfold column_source_order_snapshot.
    destruct Hg as (Po & Hh & Hall & Hsub & He).
    assert (E : (length (column_source_order g) =? length (headers g)) = true).
    { apply Nat.eqb_eq. rewrite Hh, arrange_length; [done|]. intros s Hs. rewrite Po in Hs.
      apply elem_of_seq in Hs. lia. }
    rewrite E. by split_and!.
  - by apply layout_holds.
Qed.

(** C39. Whatever sorting, filtering and arranging was done since a result arrived,
    every column is there once, each under its header in every row, and the rows
    shown are some of those that arrived; clearing the filters shows them all. *)
Theorem grid_keeps_every_cell names rows (g0 g : Grid) :
  arrived names rows g0 -> Forall (fun r => length r = length names) rows -> rtc grid_step g0 g ->
  exists order, order ≡ₚ seq 0 (length names)
    /\ headers g = arrange order names
    /\ full_data g ⊆+ arrange order <$> rows
    /\ forall g' hidden, clear_value_filter g = Some (g', hidden) ->
         headers g' = headers g /\ full_data g' ≡ₚ arrange order <$> rows.
Proof.
  intros (Eh & Ef & Eu & Eo & Ee) Hrows Hsteps.
  assert (H0 : holds names rows g0).
  { unfold holds, all_data. rewrite Eo, Eu, Ef, Eh, Ee. cbn. rewrite arrange_seq. split_and!; try done.
    assert (E : arrange (seq 0 (length names)) <$> rows = rows).
    { clear -Hrows. induction Hrows as [|r rows Hr _ IH]; [done|]. cbn. by rewrite IH, <- Hr, arrange_seq. }
    by rewrite E. }
  pose proof (steps_hold _ _ _ _ Hrows Hsteps H0) as Hg. pose proof Hg as (Po & Hh & Hall & Hsub & He).
  exists (column_source_order g). split; [done|]. split; [done|]. split; [by rewrite <- Hall|].
  intros g' hidden Hc. destruct (clear_holds _ _ _ _ _ Hg Hc) as ((_ & Hh' & _) & Hf & Eo'). split; [|done].
  by rewrite Hh', Eo', Hh.
Qed.
End Grid.

(** ** Stepping through matches *)

(** The reading order of cells: by rows, each from left to right. *)
Definition reads_before (l r : nat * nat) : Prop := l.1 < r.1 \/ (l.1 = r.1 /\ l.2 < r.2).

#[local] Instance reads_before_trans : Transitive reads_before.
Proof. intros [] [] []. unfold reads_before. cbn. lia. Qed.

Lemma cell_leb_spec origin cell : cell_leb origin cell = true <-> ~ reads_before cell origin.
Proof.
  unfold cell_leb, reads_before. rewrite orb_true_iff, andb_true_iff, Nat.ltb_lt, Nat.eqb_eq, Nat.leb_le. lia.
Qed.

(** One place after the other, each in order: the whole is in order. *)
Lemma sorted_row (f : nat -> str -> option (nat * nat)) (line : nat) r : forall base,
  (forall k v cell, f k v = Some cell -> cell = (line, base + k)) ->
  StronglySorted reads_before (omap id (imap f r))
  /\ Forall (fun cell => cell.1 = line /\ base <= cell.2) (omap id (imap f r)).
Proof.
  revert f. induction r as [|v r IH]; intros f base Hf; [by split; constructor|].
  destruct (IH (f ∘ S) (S base)) as [IH1 IH2]; [intros k v' cell ->%Hf; by rewrite Nat.add_succ_r|].
  rewrite imap_cons. cbn [omap list_omap id]. destruct (f 0 v) as [cell|] eqn:E.
  - apply Hf in E as ->. split; constructor; [done| | |].
    + eapply Forall_impl; [exact IH2|]. intros cell [H1 H2]. right. cbn. lia.
    + cbn. lia.
    + eapply Forall_impl; [exact IH2|]. cbn. intros cell H. lia.
  - split; [done|]. eapply Forall_impl; [exact IH2|]. cbn. intros cell H. lia.
Qed.

Lemma sorted_rows (f : nat -> row -> list (nat * nat)) rows : forall base,
  (forall k r, StronglySorted reads_before (f k r) /\ Forall (fun cell => cell.1 = base + k) (f k r)) ->
  StronglySorted reads_before (concat (imap f rows))
  /\ Forall (fun cell => base <= cell.1) (concat (imap f rows)).
Proof.
  revert f. induction rows as [|r rows IH]; intros f base Hf; [by split; constructor|].
  destruct (IH (f ∘ S) (S base)) as [IH1 IH2].
  { intros k r'. destruct (Hf (S k) r') as [H1 H2]. split; [done|]. eapply Forall_impl; [exact H2|]. intros cell E. rewrite E. lia. }
  rewrite imap_cons. cbn [concat]. destruct (Hf 0 r) as [H1 H2]. rewrite Nat.add_0_r in H2. split.
  - clear Hf. induction H1 as [|cell cells H1 IHc Hc]; [done|]. inversion H2; subst. constructor; [by apply IHc|].
    apply Forall_app. split; [done|]. eapply Forall_impl; [exact IH2|]. intros cell' Hle. left. cbn in Hle. lia.
  - apply Forall_app. split; [eapply Forall_impl; [exact H2|]|eapply Forall_impl; [exact IH2|]];
      intros cell E; cbn in E |- *; lia.
Qed.

Section Stepping.
Context (to_lowercase : char -> str) (lowercase_some : forall c, to_lowercase c <> []).

(** The needle occurs in the cell, and its column is shown. *)
Definition shows (rows : list row) (needle : str) (cs : bool) (hidden : HiddenColumns) (cell : nat * nat) : Prop :=
  exists r value, rows !! cell.1 = Some r /\ r !! cell.2 = Some value /\ contains hidden cell.2 = false
    /\ exists i b, occurs to_lowercase cs value needle i b.

Lemma grid_matches_ordered rows needle cs hidden :
  StronglySorted reads_before (grid_matches to_lowercase rows needle cs hidden).
Proof.
  unfold grid_matches. destruct (str_is_empty needle); [constructor|].
  refine (proj1 (sorted_rows _ rows 0 _)). intros line r. rewrite Nat.add_0_l.
  destruct (sorted_row (fun col_index value =>
    if contains hidden col_index then None
    else match find_next_match to_lowercase value needle 0 cs with
         | Some _ => Some (line, col_index) | None => None end) line r 0) as [H1 H2].
  - intros k v cell. destruct (contains hidden k); [done|]. by destruct (find_next_match _ _ _ _ _); intros [= <-].
  - split; [done|]. eapply Forall_impl; [exact H2|]. by intros cell [? _].
Qed.

Lemma grid_matches_elem rows needle cs hidden cell :
  needle <> [] -> cell ∈ grid_matches to_lowercase rows needle cs hidden <-> shows rows needle cs hidden cell.
Proof.
  intros Hn. unfold grid_matches. destruct needle as [|c needle]; [done|]. cbn [str_is_empty].
  rewrite list_elem_of_In, in_concat. setoid_rewrite <- list_elem_of_In. setoid_rewrite elem_of_lookup_imap. split.
  - intros (cells & (line & r & -> & Hr) & Hc). apply list_elem_of_omap in Hc as (o & Ho & E). unfold id in E. subst o.
    apply elem_of_lookup_imap in Ho as (col & value & E & Hv).
    destruct (contains hidden col) eqn:Hh; [done|].
    destruct (find_next_match _ _ _ _ _) eqn:Hf; [|done]. injection E as ->. exists r, value. cbn.
    split_and!; [done..|]. apply find_from_start; [done|done|]. by eexists.
  - intros (r & value & Hr & Hv & Hh & Ho). eexists. split; [by eexists _, _|].
    apply list_elem_of_omap. exists (Some cell). split; [|done]. apply elem_of_lookup_imap.
    exists cell.2, value. split; [|done]. rewrite Hh. apply find_from_start in Ho as [? ->]; [|done..].
    by destruct cell.
Qed.

(** Where a scan begins: at the first match that is not before the origin, or
    at the first of all when every match is. *)
Definition starts_at (origin : option (nat * nat)) (cells : list (nat * nat)) (i : nat) : Prop :=
  i < length cells
  /\ match origin with
     | None => i = 0
     | Some origin =>
         (i = 0 /\ Forall (fun cell => reads_before cell origin) cells)
         \/ ((exists cell, cells !! i = Some cell /\ ~ reads_before cell origin)
             /\ forall j cell, j < i -> cells !! j = Some cell -> reads_before cell origin)
     end.
Lemma position_spec {A} (p : A -> bool) l :
  match position p l with
  | Some i => (exists x, l !! i = Some x /\ p x = true) /\ forall j x, j < i -> l !! j = Some x -> p x = false
  | None => forall x, x ∈ l -> p x = false
  end.
Proof.
  induction l as [|x l IH]; cbn [position]; [by intros x ?%elem_of_nil|].
  destruct (p x) eqn:Hx; [split; [by exists x|lia]|]. destruct (position p l) as [i|]; cbn.
  - destruct IH as [Hi Hj]. split; [done|]. intros [|j] y Hlt Hy; [by injection Hy as <-|]. apply (Hj j); [lia|done].
  - intros y [->|Hy]%elem_of_cons; [done|by apply IH].
Qed.

Lemma scan_starts cells origin :
  cells <> [] -> exists i, first_match_at_or_after cells origin = Some i /\ starts_at origin cells i.
Proof.
  intros Hne. destruct cells as [|cell cells]; [done|]. unfold first_match_at_or_after, starts_at.
  destruct origin as [o|]; [|exists 0; split; [done|]; cbn; split; [lia|done]].
  pose proof (position_spec (fun cell => cell_leb o cell) (cell :: cells)) as Hp.
  assert (Hleb : forall c, cell_leb o c = false -> reads_before c o).
  { intros c Hc. destruct (decide (reads_before c o)) as [?|Hb]; [done|]. apply cell_leb_spec in Hb. congruence. }
  destruct (position _ _) as [i|]; cbn [default]; eexists; (split; [done|]).
  - destruct Hp as [(c & Hc & Ho) Hj]. split; [by eapply lookup_lt_Some|]. right. split.
    + exists c. split; [done|by apply cell_leb_spec].
    + intros j c' Hlt Hc'. by eapply Hleb, Hj.
  - split; [cbn; lia|]. left. split; [done|]. apply Forall_forall. intros c Hc. by apply Hleb, Hp.
Qed.

Lemma lookup_tail {A} (x : A) l k : (x :: l) !! S k = l !! k.
Proof. done. Qed.

(** The cells focused by a sequence of presses, [true] for Next. *)
Fixpoint presses (search : str -> bool -> list (nat * nat)) (generation : N) (needle : str) (cs : bool)
    (moves : list bool) (session : GridSearchSession) : list (option (nat * nat)) :=
  match moves with
  | [] => []
  | forward :: moves =>
      let '(session, (_, focused)) := step_search search generation session needle cs forward in
      focused :: presses search generation needle cs moves session
  end.

(** How far a sequence of presses moves: a step ahead for Next, one back for Previous. *)
Definition net (moves : list bool) : Z :=
  fold_right (fun (forward : bool) z => ((if forward then 1 else -1) + z)%Z) 0%Z moves.

Definition around (len i : nat) (shift : Z) : nat := Z.to_nat ((Z.of_nat i + shift) mod Z.of_nat len).

Lemma stepped_around len i forward :
  i < len -> stepped_match len (Some i) forward = Some (around len i (if forward then 1 else -1)).
Proof.
  intros Hi. unfold stepped_match, around. destruct (Nat.eqb_spec len 0); [lia|].
  destruct (Nat.ltb_spec i len); [|lia]. f_equal. destruct forward; apply Nat2Z.inj.
  - rewrite Z2Nat.id, Nat2Z.inj_mod by (apply Z.mod_pos_bound; lia). f_equal. lia.
  - rewrite Z2Nat.id, Nat2Z.inj_mod by (apply Z.mod_pos_bound; lia).
    replace (Z.of_nat (i + len - 1)) with (Z.of_nat i + -1 + 1 * Z.of_nat len)%Z by lia. apply Z.mod_add. lia.
Qed.

Lemma around_lt len i z : 0 < len -> around len i z < len.
Proof. intros Hl. unfold around. pose proof (Z.mod_pos_bound (Z.of_nat i + z) (Z.of_nat len)). lia. Qed.

Lemma around_around len i y z : 0 < len -> around len (around len i y) z = around len i (y + z).
Proof.
  intros Hl. unfold around. f_equal. rewrite Z2Nat.id by (apply Z.mod_pos_bound; lia).
  rewrite Z.add_mod_idemp_l by lia. f_equal. lia.
Qed.

(** Presses after the scan: the query still applies and position [i] is focused. *)
Lemma presses_applied search generation needle cs moves : forall session i k,
  applied session = Some (needle, cs, generation) -> current session = Some i ->
  i < length (session_matches session) -> k < length moves ->
  presses search generation needle cs moves session !! k
  = Some (session_matches session
            !! around (length (session_matches session)) i (net (take (S k) moves))).
Proof.
  induction moves as [|forward moves IH]; intros session i k Ha Hc Hi Hk; [cbn in Hk; lia|].
  set (cells := session_matches session) in *. set (i' := around (length cells) i (if forward then 1 else -1)).
  assert (Hi' : i' < length cells) by (apply around_lt; lia).
  assert (Hstep : exists session', step_search search generation session needle cs forward = (session', (cells, cells !! i'))
    /\ applied session' = Some (needle, cs, generation) /\ current session' = Some i' /\ session_matches session' = cells).
  { unfold step_search. rewrite bool_decide_true, Hc by done. fold cells. rewrite stepped_around by done. by eexists. }
  destruct Hstep as (session' & Hs & Ha' & Hc' & Hm'). cbn [presses]. rewrite Hs. destruct k as [|k]; [change (Some (cells !! i') = Some (cells !! around (length cells) i (net [forward])))|].
  - f_equal. cbn [take net fold_right]. by rewrite Z.add_0_r.
  - rewrite lookup_tail. rewrite (IH session' i' k) by (rewrite ?Hm'; cbn in Hk; lia || done).
    rewrite Hm'. unfold i'. rewrite around_around by lia. by destruct forward.
Qed.

(** C30. The first press of either button finds the cells that show the needle,
    in the order they are read in, and focuses the first one at or after the
    place the search starts from, the first of all if there is none.  After any
    further presses the focus is as many matches on as there were more presses of
    Next than of Previous, around the end: so Next goes to the match that is read
    next, Previous back, and a round of Next comes to every match. *)
Theorem next_visits_every_match rows needle cs hidden generation session :
  needle <> [] -> applied session <> Some (needle, cs, generation) ->
  let search needle cs := grid_matches to_lowercase rows needle cs hidden in
  let cells := search needle cs in
  StronglySorted reads_before cells
  /\ (forall cell, cell ∈ cells <-> shows rows needle cs hidden cell)
  /\ (cells <> [] ->
       exists i, starts_at (origin session) cells i
       /\ (forall first moves k, k <= length moves ->
             presses search generation needle cs (first :: moves) session !! k
             = Some (cells !! around (length cells) i (net (take k moves))))
       /\ forall cell, cell ∈ cells ->
             Some cell ∈ presses search generation needle cs (replicate (length cells) true) session).
Proof.
  intros Hn Ha search cells. split; [apply grid_matches_ordered|]. split; [intros cell; by apply grid_matches_elem|].
  intros Hne. destruct (scan_starts cells (origin session) Hne) as (i & Hfirst & Hi). exists i. split; [done|].
  assert (Hlen : i < length cells) by apply Hi.
  assert (Hpresses : forall first moves k, k <= length moves ->
            presses search generation needle cs (first :: moves) session !! k
            = Some (cells !! around (length cells) i (net (take k moves)))).
  { intros first moves k Hk. cbn [presses]. unfold step_search. rewrite !bool_decide_false by done.
    change (search needle cs) with cells. rewrite Hfirst. destruct k as [|k]; [|rewrite lookup_tail].
    - f_equal. unfold around. cbn. rewrite Z.add_0_r, Z.mod_small, Nat2Z.id by lia. done.
    - apply presses_applied; cbn; done || lia. }
  split; [exact Hpresses|]. intros cell (j & Hj)%list_elem_of_lookup_1. pose proof (lookup_lt_Some _ _ _ Hj) as Hlt.
  set (k := around (length cells) j (- Z.of_nat i)). assert (Hk : k < length cells) by (apply around_lt; lia).
  apply (list_elem_of_lookup_2 _ k). destruct (length cells) as [|len] eqn:El; [lia|]. cbn [replicate].
  rewrite Hpresses by (rewrite length_replicate; lia). rewrite take_replicate, Nat.min_l by lia.
  assert (Hnet : forall n, net (replicate n true) = Z.of_nat n) 
    by (intros n; induction n as [|n IH]; [done|]; change (1 + net (replicate n true) = Z.of_nat (S n))%Z; lia).
  rewrite Hnet. unfold k. f_equal. rewrite <- Hj. f_equal. unfold around. rewrite Z2Nat.id by (apply Z.mod_pos_bound; lia).
  rewrite Z.add_mod_idemp_r by lia. rewrite Z.mod_small; lia.
Qed.
End Stepping.

(** ** Concrete runs *)

Definition two_columns : Grid unit :=
  mkGrid [u "a"; u "b"] [Kind_Number; Kind_Number] [] [50; 60]%Z [[u "1"; u "9"]; [u "2"; u "8"]] None [] [0; 1]
    ∅ None (u "") FirstOnAscending None None false false.

Definition plan_of (g : Grid unit) : ColumnLayoutPlan :=
  match column_layout_plan g with inl (_, plan) => plan | inr _ => mkPlan [] [] end.

Definition some_or {A} (a : A) (o : option A) : A := match o with Some x => x | None => a end.

(** Sorted by [a], filtered to the row where [a] is 1, [a] moved behind [b]. *)
Definition sorted_by_a : Grid unit :=
  some_or two_columns (apply_header_sort_action (Sort := insertion_sort_stable) false two_columns 0).
Definition filtered_on_a : Grid unit :=
  match value_filter_from_selection sorted_by_a (Some (0, 0, 0, 0)) false with
  | inl f => match install_value_filter sorted_by_a f with inl (g, _) => g | inr _ => sorted_by_a end
  | inr _ => sorted_by_a
  end.
Definition a_moved_back : Grid unit :=
  (apply_column_layout (fun _ _ => []) 40 filtered_on_a (move_row (plan_of filtered_on_a) 0 true).1).1.
Definition filter_cleared : Grid unit :=
  match clear_value_filter (Sort := insertion_sort_stable) a_moved_back with Some (g, _) => g | None => a_moved_back end.

(** Arranging columns leaves the sort arrow and the filters at the old column
    numbers: the arrow and the description name [b], and clearing the filter sorts
    the rows by [b], which nobody asked for. *)
Example arranging_forgets_the_sorted_column :
  sort_marker_for_column (sort_state sorted_by_a) 0 = Some Ascending
  /\ full_data sorted_by_a = [[u "1"; u "9"]; [u "2"; u "8"]]
  /\ describe_value_filters filtered_on_a = u "Showing rows where a = 1"
  /\ headers a_moved_back = [u "b"; u "a"]
  /\ sort_marker_for_column (sort_state a_moved_back) 0 = Some Ascending
  /\ describe_value_filters a_moved_back = u "Showing rows where b = 1"
  /\ full_data filter_cleared = [[u "8"; u "2"]; [u "9"; u "1"]].
Proof. vm_compute. done. Qed.

Lemma grid_keeps_every_cell_witness :
  exists order, order ≡ₚ [0; 1]
    /\ headers a_moved_back = arrange order [u "a"; u "b"]
    /\ full_data a_moved_back ⊆+ arrange order <$> [[u "1"; u "9"]; [u "2"; u "8"]].
Proof.
  destruct (grid_keeps_every_cell (Sort := insertion_sort_stable) (fun _ _ => []) 40 [u "a"; u "b"]
    [[u "1"; u "9"]; [u "2"; u "8"]] two_columns a_moved_back) as (order & P & H & F & _).
  - unfold arrived. by split_and!.
  - repeat constructor.
  - eapply rtc_l; [apply (step_sort _ _ _ false 0 sorted_by_a); reflexivity|].
    eapply rtc_l; [eapply (step_filter _ _ _ (mkFilter [0] [[Key_Value (u "1")]] (u "") false) filtered_on_a); reflexivity|].
    eapply rtc_l; [apply (step_layout _ _ _ (move_row (plan_of filtered_on_a) 0 true).1)|]. apply rtc_refl.
  - exists order. split; [exact P|]. split; [exact H|exact F].
Defined.

Lemma column_plan_arranges_columns_witness :
  is_permutation (order (move_row (plan_of two_columns) 0 true).1) 2 = true.
Proof.
  refine (proj1 (column_plan_arranges_columns (Sort := insertion_sort_stable) 2 (plan_of two_columns) _ _ _ _)).
  - vm_compute. reflexivity.
  - vm_compute. lia.
  - eapply rtc_l; [apply step_move|apply rtc_refl].
Defined.

(** Three cells show an [a], one of them in a hidden column; the search starts
    behind the last one that is shown, so that the first press comes around. *)
Lemma next_visits_every_match_witness :
  let rows := [[u "a"; u "b"]; [u "A"; u "bar"]; [u "xa"; u "c"]] in
  let search needle cs := grid_matches ascii_lowercase rows needle cs (mkHidden (Some 1) ∅) in
  let session := mkSession [] None (Some (2, 1)) None in
  search (u "a") false = [(0, 0); (1, 0); (2, 0)]
  /\ exists i, starts_at (Some (2, 1)) [(0, 0); (1, 0); (2, 0)] i
       /\ presses search 7 (u "a") false [true; true; true; true; false] session
          = [Some (0, 0); Some (1, 0); Some (2, 0); Some (0, 0); Some (2, 0)].
Proof.
  split; [vm_compute; reflexivity|].
  destruct (next_visits_every_match ascii_lowercase (fun _ => ltac:(done)) [[u "a"; u "b"]; [u "A"; u "bar"]; [u "xa"; u "c"]]
    (u "a") false (mkHidden (Some 1) ∅) 7 (mkSession [] None (Some (2, 1)) None) ltac:(done) ltac:(done)) as (_ & _ & H).
  destruct H as (i & Hi & _); [by vm_compute|]. exists i. split; [exact Hi|vm_compute; reflexivity].
Defined.
