(* ===== verification/ResultFilter.v ===== *)
(** * The re-query gate

    Which filters of a result may be sent to the server, and that the gate is
    exact. *)
From Stdlib Require Import Sorted.
From S2P Require Import Prelude RustStr SqlText Boundary EngineText SplitState Engine EngineInvariant LexicalScan EngineSpec Utf8 SessionPolicy.

(** * Filtering a result by querying it again

    The gates of [result_filter.rs]: which results can be wrapped as a derived
    table, and which clauses may be spliced into the query around it.  What is in
    strings and comments is told by [lexical_spans].  Whether a statement is a
    SELECT and how Unicode upper-cases a name are parameters. *)

Definition is_mysql_or_mariadb (d : DatabaseType) : bool :=
  match d with DatabaseType_MySQL | DatabaseType_MariaDB => true | DatabaseType_Oracle => false end.

(** [s.trim_end_matches(c)]. *)
Definition trim_end_char (c : char) (s : str) : str :=
  reverse ((fix go s := match s with d :: s' => if N.eqb d c then go s' else s | [] => [] end) (reverse s)).

(** The statement without the semicolons behind it. *)
Definition statement_body (sql : str) : str := trim (trim_end_char ";"%ch (trim sql)).

Definition DERIVED_RELATION_ALIAS : str := u "sq_src".

Definition derived_relation_sql (user_sql : str) : str :=
  u "(" ++ [10%N] ++ statement_body user_sql ++ [10%N] ++ u ") " ++ DERIVED_RELATION_ALIAS.

(** ** Walking the code of a statement *)

Definition in_code (spans : list LexicalSpan) (offset : nat) : bool :=
  negb (existsb (fun span => span_contains span offset) spans).

(** [while span_idx < spans.len() && spans[span_idx].end <= idx { span_idx += 1; }]. *)
Fixpoint skip_spans (rest : list LexicalSpan) (idx span_idx : nat) : nat :=
  match rest with
  | span :: rest => if span_end span <=? idx then skip_spans rest idx (S span_idx) else span_idx
  | [] => span_idx
  end.

Definition next_span (spans : list LexicalSpan) (idx span_idx : nat) : nat :=
  skip_spans (drop span_idx spans) idx span_idx.

Definition is_identifier_start_byte (b : byte) : bool :=
  is_ascii_alphabetic b || N.eqb b "_"%ch || N.eqb b "$"%ch || N.eqb b "#"%ch.

Definition is_word_byte (b : byte) : bool :=
  is_ascii_alphanumeric b || N.eqb b "_"%ch || N.eqb b "$"%ch || N.eqb b "#"%ch.

(** The byte at [idx] starts a bind or a substitution variable. *)
Definition placeholder_at (mysql : bool) (bytes : bytes) (idx : nat) : bool :=
  match bytes !! idx with
  | None => false
  | Some byte =>
      (N.eqb byte ":"%ch || (N.eqb byte "&"%ch && negb mysql))
      && is_some_and (bytes !! (idx + 1)) (fun next => is_identifier_start_byte next || is_ascii_digit next)
  end.

Fixpoint placeholder_loop (fuel : nat) (mysql : bool) (bytes : bytes) (spans : list LexicalSpan)
    (idx span_idx : nat) : bool :=
  match fuel with
  | 0 => false
  | S fuel =>
      if length bytes <=? idx then false
      else
        let span_idx := next_span spans idx span_idx in
        match spans !! span_idx with
        | Some span =>
            if span_contains span idx
            then placeholder_loop fuel mysql bytes spans (span_end span) span_idx
            else if placeholder_at mysql bytes idx then true
            else placeholder_loop fuel mysql bytes spans (idx + 1) span_idx
        | None =>
            if placeholder_at mysql bytes idx then true
            else placeholder_loop fuel mysql bytes spans (idx + 1) span_idx
        end
  end.

(** [words.push(take(&mut word))] if there is a word. *)
Definition end_word (words : list str) (word : str) : list str :=
  if str_is_empty word then words else vec_push word words.

(** The word and the words after the byte [b] of code. *)
Definition word_step (words : list str) (word : str) (b : byte) : list str * str :=
  if is_word_byte b then (words, vec_push (to_ascii_uppercase b) word) else (end_word words word, []).

Fixpoint words_loop (fuel : nat) (bytes : bytes) (spans : list LexicalSpan) (idx span_idx : nat)
    (words : list str) (word : str) : list str :=
  match fuel with
  | 0 => words
  | S fuel =>
      if length bytes <=? idx then end_word words word
      else
        let span_idx := next_span spans idx span_idx in
        let step :=
          let '(words, word) := word_step words word (default 0%N (bytes !! idx)) in
          words_loop fuel bytes spans (idx + 1) span_idx words word in
        match spans !! span_idx with
        | Some span =>
            if span_contains span idx
            then words_loop fuel bytes spans (span_end span) span_idx (end_word words word) []
            else step
        | None => step
        end
  end.

(** [words.windows(n).any(|window| window == clause)]. *)
Fixpoint has_window (clause words : list str) : bool :=
  match words with
  | [] => match clause with [] => true | _ => false end
  | _ :: rest => (take (length clause) words == clause) || has_window clause rest
  end.

Definition LOCKING_CLAUSES : list (list str * str) :=
  [([u "FOR"; u "UPDATE"], u "FOR UPDATE");
   ([u "FOR"; u "SHARE"], u "FOR SHARE");
   ([u "FOR"; u "NO"; u "KEY"; u "UPDATE"], u "FOR NO KEY UPDATE");
   ([u "LOCK"; u "IN"; u "SHARE"; u "MODE"], u "LOCK IN SHARE MODE")].

Fixpoint find_clause (clauses : list (list str * str)) (words : list str) : option str :=
  match clauses with
  | [] => None
  | (clause, label) :: clauses => if has_window clause words then Some label else find_clause clauses words
  end.

(** [text.split_inclusive(sep)]. *)
Fixpoint split_inclusive (sep : char) (text : str) : list str :=
  match text with
  | [] => []
  | c :: text =>
      if N.eqb c sep then [c] :: split_inclusive sep text
      else match split_inclusive sep text with
           | [] => [[c]]
           | line :: lines => (c :: line) :: lines
           end
  end.

Fixpoint slash_line (spans : list LexicalSpan) (offset : nat) (lines : list str) : bool :=
  match lines with
  | [] => false
  | line :: lines =>
      let indent := utf8_len line - utf8_len (trim_start line) in
      ((trim line == u "/") && in_code spans (offset + indent)) || slash_line spans (offset + utf8_len line) lines
  end.

(** ** Column names *)

Section Names.
Variable to_uppercase : str -> str.

Definition name_keys (column_names : list str) : list str :=
  to_uppercase <$> List.filter (fun name => negb (str_is_empty name)) (trim <$> column_names).

(** How often a key was counted. *)
Definition count (keys : list str) (key : str) : nat := length (List.filter (fun k => k == key) keys).

(** Trimmed names left, keys already reported, duplicates so far. *)
Fixpoint duplicates_loop (keys : list str) (names reported duplicates : list str) : list str :=
  match names with
  | [] => duplicates
  | trimmed :: names =>
      if str_is_empty trimmed then duplicates_loop keys names reported duplicates
      else
        let key := to_uppercase trimmed in
        if (1 <? count keys key) && negb (bool_decide (key ∈ reported))
        then duplicates_loop keys names (key :: reported) (vec_push trimmed duplicates)
        else duplicates_loop keys names reported duplicates
  end.

Definition duplicate_column_names (column_names : list str) : list str :=
  duplicates_loop (name_keys column_names) (trim <$> column_names) [] [].
End Names.

(** ** The gates *)

Inductive ResultFilterSupport :=
  | FullSupport
  | AmbiguousColumns (names : list str)
  | Blocked (why : BlockReason)
with BlockReason :=
  | NoStatement
  | NotASelect
  | HasPlaceholders
  | LocksRows (clause : str)
  | RepeatsColumns (names : list str).

Section Gates.
Context `{UnicodeTables}.
Variable to_uppercase : str -> str.
Variable is_select_statement : str -> bool.

Definition spans_of (sql : str) (mysql : bool) : list LexicalSpan := default [] (lexical_spans sql mysql).

Definition code_words (sql : str) (mysql : bool) : list str :=
  let bytes := encode_str sql in words_loop (S (length bytes)) bytes (spans_of sql mysql) 0 0 [] [].

Definition has_unreproducible_placeholder (sql : str) (db_type : DatabaseType) : bool :=
  let mysql := is_mysql_or_mariadb db_type in
  let bytes := encode_str sql in
  placeholder_loop (S (length bytes)) mysql bytes (spans_of sql mysql) 0 0.

Definition locking_clause (sql : str) (db_type : DatabaseType) : option str :=
  find_clause LOCKING_CLAUSES (code_words sql (is_mysql_or_mariadb db_type)).

Definition clause_statement_terminator (clause : str) (db_type : DatabaseType) : option str :=
  let mysql := is_mysql_or_mariadb db_type in
  let spans := spans_of clause mysql in
  if existsb (fun '(offset, byte) => N.eqb byte ";"%ch && in_code spans offset)
       (imap (fun offset byte => (offset, byte)) (encode_str clause)) then Some (u ";")
  else if mysql then None
  else if slash_line spans 0 (split_inclusive 10%N clause) then Some (u "/")
  else None.

Definition result_filter_support (sql : str) (column_names : list str) (db_type : DatabaseType)
    : ResultFilterSupport :=
  let trimmed := statement_body sql in
  if str_is_empty trimmed then Blocked NoStatement
  else if negb (is_select_statement trimmed) then Blocked NotASelect
  else if has_unreproducible_placeholder trimmed db_type then Blocked HasPlaceholders
  else
    match locking_clause trimmed db_type with
    | Some clause => Blocked (LocksRows clause)
    | None =>
        match duplicate_column_names to_uppercase column_names with
        | [] => FullSupport
        | duplicates =>
            if is_mysql_or_mariadb db_type then Blocked (RepeatsColumns duplicates)
            else AmbiguousColumns duplicates
        end
    end.
End Gates.

Example gates :
  let support := @result_filter_support sample_tables ascii_upper (fun _ => true) in
  support (u "select 'HH24:MI' from t -- for update") [u "a"; u "b"] DatabaseType_Oracle = FullSupport
  /\ support (u "select * from t where a = :1") [] DatabaseType_Oracle = Blocked HasPlaceholders
  /\ support (u "select * from t for /* x */ update;") [] DatabaseType_MySQL = Blocked (LocksRows (u "FOR UPDATE"))
  /\ support (u "select 1 a, 2 A") [u "a"; u "A"] DatabaseType_Oracle = AmbiguousColumns [u "a"].
Proof. vm_compute. done. Qed.

Example terminators :
  let term := @clause_statement_terminator sample_tables in
  term (u "a = ';'") DatabaseType_Oracle = None /\ term (u "a = 1;") DatabaseType_MySQL = Some (u ";").
Proof. vm_compute. done. Qed.

(** * What the filter gates promise

    The gates look at code only: the walk over the spans visits exactly the bytes
    outside strings and comments, so a result is offered for filtering when, and
    only when, its statement is a SELECT without placeholders, locking clause or
    repeated column names. *)

(** ** The spans of a text *)

Definition spans_fit (spans : list LexicalSpan) (len : nat) : Prop :=
  spans_ok spans /\ spans_below len spans.

Lemma length_encode_str s : length (encode_str s) = utf8_len s.
Proof.
  unfold encode_str. induction s as [|c s IH]; [done|]. cbn [fmap list_fmap concat].
  by rewrite length_app, length_utf8_encode, IH.
Qed.

Lemma spans_of_fit `{UnicodeTables} sql mysql : spans_fit (spans_of sql mysql) (length (encode_str sql)).
Proof.
  unfold spans_of, lexical_spans.
  destruct (lexical_spans_ok sql mysql LexMode_Idle) as (spans & m' & evs & -> & _ & _ & Hok & Hb & _); [done|].
  cbn. rewrite length_encode_str. done.
Qed.

(** What the walk knows at [idx]: the spans before [span_idx] are behind it. *)
Definition passed (spans : list LexicalSpan) (idx span_idx : nat) : Prop :=
  Forall (fun s => span_end s <= idx) (take span_idx spans).

Lemma passed_mono spans idx idx' span_idx : passed spans idx span_idx -> idx <= idx' -> passed spans idx' span_idx.
Proof. intros H Hle. eapply Forall_impl; [exact H|]. intros s Hs. cbn in *. lia. Qed.

Lemma next_span_spec spans idx span_idx :
  passed spans idx span_idx ->
  let j := next_span spans idx span_idx in
  passed spans idx j /\ forall s, spans !! j = Some s -> idx < span_end s.
Proof.
  unfold next_span.
  assert (H : forall rest k, passed spans idx k -> rest = drop k spans ->
    passed spans idx (skip_spans rest idx k)
    /\ forall s, spans !! skip_spans rest idx k = Some s -> idx < span_end s).
  { induction rest as [|s rest IH]; intros k Hk Hr; cbn [skip_spans].
    - split; [done|]. intros s Hs. exfalso.
      assert (length (drop k spans) = 0) by (by rewrite <- Hr). rewrite length_drop in H.
      apply lookup_lt_Some in Hs. lia.
    - assert (Hs : spans !! k = Some s) by (rewrite <- (Nat.add_0_r k), <- lookup_drop, <- Hr; done).
      destruct (Nat.leb_spec (span_end s) idx) as [Hle|Hlt].
      + apply IH.
        * unfold passed. rewrite (take_S_r _ _ s) by done. apply Forall_app. by repeat constructor.
        * replace (S k) with (k + 1) by lia. rewrite <- drop_drop, <- Hr. done.
      + split; [done|]. intros s' Hs'. rewrite Hs in Hs'. by injection Hs' as <-. }
  intros Hp. by apply H.
Qed.

Lemma in_code_spec spans o : in_code spans o = true <-> forall s, s ∈ spans -> ~ span_start s <= o < span_end s.
Proof.
  unfold in_code. rewrite negb_true_iff, <- not_true_iff_false, existsb_exists. split.
  - intros H s Hin [Ha Hb]. apply H. exists s. split; [by apply list_elem_of_In|].
    unfold span_contains. apply andb_true_iff. split; [by apply Nat.leb_le|by apply Nat.ltb_lt].
  - intros H (s & Hin & Hc). unfold span_contains in Hc.
    apply andb_true_iff in Hc as [Ha%Nat.leb_le Hb%Nat.ltb_lt].
    apply (H s); [by apply list_elem_of_In|done].
Qed.

(** The walk's test for being inside a span is the test on all spans. *)
Lemma walk_in_code spans idx j :
  spans_ok spans -> passed spans idx j -> (forall s, spans !! j = Some s -> idx < span_end s) ->
  match spans !! j with
  | Some span => if span_contains span idx
                 then forall o, idx <= o < span_end span -> in_code spans o = false
                 else in_code spans idx = true
  | None => in_code spans idx = true
  end.
Proof.
  intros [Hs Hn] Hp Hj. unfold passed in Hp. rewrite Forall_forall in Hp.
  assert (Hout : forall s, s ∈ spans -> (exists i, i < j /\ spans !! i = Some s) \/ spans !! j = Some s
            \/ exists i, j < i /\ spans !! i = Some s).
  { intros s Hin. apply list_elem_of_lookup in Hin as [i Hi].
    destruct (lt_eq_lt_dec i j) as [[Hlt|Heq]|Hgt]; [left; eauto|right; left; by subst|right; right; eauto]. }
  assert (Hbefore : forall s i, i < j -> spans !! i = Some s -> span_end s <= idx).
  { intros s i Hlt Hi. apply Hp. apply list_elem_of_lookup. exists i. by rewrite lookup_take_lt. }
  destruct (spans !! j) as [span|] eqn:Ej.
  - destruct (span_contains span idx) eqn:Ec.
    + intros o Ho. apply not_true_iff_false. rewrite in_code_spec. intros H.
      apply (H span); [by eapply list_elem_of_lookup_2|].
      unfold span_contains in Ec. apply andb_true_iff in Ec as [Ha%Nat.leb_le _]. lia.
    + apply in_code_spec. intros s Hin Hc. destruct (Hout s Hin) as [(i & Hlt & Hi)|[Hi|(i & Hgt & Hi)]].
      * specialize (Hbefore s i Hlt Hi). lia.
      * injection Hi as <-. unfold span_contains in Ec.
        rewrite (proj2 (Nat.leb_le _ _)), (proj2 (Nat.ltb_lt _ _)) in Ec by lia. done.
      * assert (Hb : span_before span s) by (eapply StronglySorted_lookup; [exact Hs|exact Hgt|done|done]).
        specialize (Hj span eq_refl). unfold span_before in Hb. lia.
  - apply in_code_spec. intros s Hin Hc. destruct (Hout s Hin) as [(i & Hlt & Hi)|[Hi|(i & Hgt & Hi)]].
    + specialize (Hbefore s i Hlt Hi). lia.
    + done.
    + apply lookup_lt_Some in Hi. apply lookup_ge_None in Ej. lia.
Qed.

(** ** Placeholders *)

Lemma placeholder_loop_spec mysql bytes spans fuel idx span_idx :
  spans_ok spans -> passed spans idx span_idx -> length bytes - idx < fuel ->
  placeholder_loop fuel mysql bytes spans idx span_idx = true
  <-> exists o, idx <= o /\ in_code spans o = true /\ placeholder_at mysql bytes o = true.
Proof.
  intros Hok. revert idx span_idx. induction fuel as [|fuel IH]; intros idx span_idx Hp Hfuel; [lia|].
  assert (Hin : forall o, placeholder_at mysql bytes o = true -> o < length bytes).
  { intros o H. unfold placeholder_at in H. destruct (bytes !! o) eqn:E; [by apply lookup_lt_Some in E|done]. }
  cbn [placeholder_loop]. destruct (Nat.leb_spec (length bytes) idx) as [Hend|Hlt].
  { split; [done|]. intros (o & Ho & _ & H). apply Hin in H. lia. }
  destruct (next_span_spec spans idx span_idx Hp) as [Hp' Hj].
  pose proof (walk_in_code spans idx _ Hok Hp' Hj) as Hw.
  set (j := next_span spans idx span_idx) in *.
  assert (Hstep : in_code spans idx = true ->
    (if placeholder_at mysql bytes idx then true else placeholder_loop fuel mysql bytes spans (idx + 1) j) = true
    <-> exists o, idx <= o /\ in_code spans o = true /\ placeholder_at mysql bytes o = true).
  { intros Hc. destruct (placeholder_at mysql bytes idx) eqn:Ea.
    - split; [|done]. intros _. by exists idx.
    - rewrite IH; [|eapply passed_mono; [exact Hp'|lia]|lia]. split; intros (o & Ho & Hco & Hpo).
      + exists o. split; [lia|done].
      + exists o. split; [|done]. destruct (decide (o = idx)) as [->|]; [congruence|lia]. }
  destruct (spans !! j) as [span|] eqn:Ej; [|by apply Hstep].
  specialize (Hj span eq_refl). destruct (span_contains span idx); [|by apply Hstep].
  rewrite IH; [|eapply passed_mono; [exact Hp'|lia]|lia]. split; intros (o & Ho & Hco & Hpo).
  - exists o. split; [lia|done].
  - exists o. split; [|done]. destruct (decide (span_end span <= o)) as [|Hn]; [done|].
    rewrite Hw in Hco by lia. done.
Qed.

(** ** Words *)

(** The bytes with everything outside code blanked. *)
Definition blank_from (spans : list LexicalSpan) (idx : nat) (bytes : list N) : list N :=
  imap (fun i b => if in_code spans (idx + i) then b else 32%N) (drop idx bytes).

Definition code_bytes (spans : list LexicalSpan) (bytes : list N) : list N := blank_from spans 0 bytes.

(** The upper-cased words of a text without strings and comments. *)
Definition words_from (bytes : bytes) (words : list str) (word : str) : list str :=
  let '(words, word) := fold_left (fun '(words, word) b => word_step words word b) bytes (words, word) in
  end_word words word.

Lemma blank_from_S spans idx bytes b :
  bytes !! idx = Some b ->
  blank_from spans idx bytes = (if in_code spans idx then b else 32%N) :: blank_from spans (idx + 1) bytes.
Proof.
  intros E. unfold blank_from. rewrite (drop_S _ b) by done. cbn [imap]. rewrite Nat.add_0_r.
  f_equal. rewrite Nat.add_1_r. apply imap_ext. intros i x _. cbn. by rewrite Nat.add_succ_r.
Qed.

Lemma blank_from_end spans idx bytes : length bytes <= idx -> blank_from spans idx bytes = [].
Proof. intros H. unfold blank_from. by rewrite drop_ge. Qed.

Lemma end_word_nil words : end_word words [] = words.
Proof. done. Qed.

(** A run of bytes outside code ends the word and leaves no other trace. *)
Lemma words_skip spans idx end_ bytes words word :
  idx < end_ -> end_ <= length bytes -> (forall o, idx <= o < end_ -> in_code spans o = false) ->
  words_from (blank_from spans idx bytes) words word
  = words_from (blank_from spans end_ bytes) (end_word words word) [].
Proof.
  intros Hlt Hlen Hno. remember (end_ - idx) as n eqn:En.
  revert idx words word Hlt En Hno. induction n as [|n IH]; intros idx words word Hlt En Hno; [lia|].
  destruct (lookup_lt_is_Some_2 bytes idx) as [b Eb]; [lia|].
  rewrite (blank_from_S _ _ _ _ Eb), (Hno idx) by lia. unfold words_from at 1. cbn [fold_left].
  change (word_step words word 32%N) with (end_word words word, @nil N).
  change (words_from (blank_from spans (idx + 1) bytes) (end_word words word) []
          = words_from (blank_from spans end_ bytes) (end_word words word) []).
  destruct (decide (idx + 1 = end_)) as [->|Hne]; [done|].
  rewrite (IH (idx + 1)); [|lia|lia|intros o Ho; apply Hno; lia]. by rewrite end_word_nil.
Qed.

Lemma words_loop_spec bytes spans fuel idx span_idx words word :
  spans_fit spans (length bytes) -> passed spans idx span_idx -> length bytes - idx < fuel ->
  words_loop fuel bytes spans idx span_idx words word = words_from (blank_from spans idx bytes) words word.
Proof.
  intros [Hok Hbelow]. revert idx span_idx words word.
  induction fuel as [|fuel IH]; intros idx span_idx words word Hp Hfuel; [lia|].
  cbn [words_loop]. destruct (Nat.leb_spec (length bytes) idx) as [Hend|Hlt].
  { by rewrite blank_from_end. }
  destruct (next_span_spec spans idx span_idx Hp) as [Hp' Hj].
  pose proof (walk_in_code spans idx _ Hok Hp' Hj) as Hw.
  set (j := next_span spans idx span_idx) in *.
  destruct (lookup_lt_is_Some_2 bytes idx) as [b Eb]; [lia|].
  assert (Hstep : in_code spans idx = true ->
    (let '(words, word) := word_step words word (default 0%N (bytes !! idx)) in
     words_loop fuel bytes spans (idx + 1) j words word) = words_from (blank_from spans idx bytes) words word).
  { intros Hc. rewrite Eb, (blank_from_S _ _ _ _ Eb), Hc. cbn [default from_option id].
    unfold words_from. cbn [fold_left]. destruct (word_step words word b) as [words' word'].
    rewrite IH; [done|eapply passed_mono; [exact Hp'|lia]|lia]. }
  destruct (spans !! j) as [span|] eqn:Ej; [|by apply Hstep].
  specialize (Hj span eq_refl). destruct (span_contains span idx); [|by apply Hstep].
  assert (Hle : span_end span <= length bytes).
  { unfold spans_below in Hbelow. rewrite Forall_forall in Hbelow. apply Hbelow. by eapply list_elem_of_lookup_2. }
  rewrite (words_skip spans idx (span_end span)) by done.
  apply IH; [eapply passed_mono; [exact Hp'|lia]|lia].
Qed.

(** ** Clauses and names *)

Lemma has_window_spec clause words :
  has_window clause words = true <-> exists before after, words = before ++ clause ++ after.
Proof.
  induction words as [|w words IH]; cbn [has_window].
  - destruct clause as [|c clause]; [split; [by exists [], []|done]|].
    split; [done|]. intros (before & after & H). by destruct before.
  - rewrite orb_true_iff, bool_decide_eq_true, IH. split.
    + intros [Hw|(before & after & ->)]; [|by exists (w :: before), after].
      exists [], (drop (length clause) (w :: words)). cbn [app].
      rewrite <- (take_drop (length clause) (w :: words)) at 1. by rewrite Hw.
    + intros (before & after & Ew). destruct before as [|x before]; cbn [app] in Ew.
      * left. rewrite Ew. by rewrite take_app_length.
      * injection Ew as -> ->. right. by exists before, after.
Qed.

Lemma find_clause_spec clauses words :
  match find_clause clauses words with
  | Some label => exists clause before after, In (clause, label) clauses /\ words = before ++ clause ++ after
  | None => forall clause label before after, In (clause, label) clauses -> words <> before ++ clause ++ after
  end.
Proof.
  induction clauses as [|[clause label] clauses IH]; cbn [find_clause]; [by intros ? ? ? ? []|].
  destruct (has_window clause words) eqn:E.
  - apply has_window_spec in E as (before & after & ->). exists clause, before, after. by split; [left|].
  - destruct (find_clause clauses words) as [l|].
    + destruct IH as (c & before & after & Hin & ->). exists c, before, after. by split; [right|].
    + intros c l before after [[= -> ->]|Hin] Ew; [|by eapply IH].
      assert (has_window c words = true) by (apply has_window_spec; by exists before, after). congruence.
Qed.

Section Names.
Variable to_uppercase : str -> str.
Abbreviation upper := to_uppercase.

Definition has_name (name : str) : bool := negb (str_is_empty name).

Lemma duplicates_loop_spec keys names reported duplicates :
  (forall key, key ∈ reported <-> key ∈ upper <$> duplicates) -> NoDup (upper <$> duplicates) ->
  let all := duplicates_loop upper keys names reported duplicates in
  NoDup (upper <$> all)
  /\ forall key, key ∈ upper <$> all
       <-> key ∈ upper <$> duplicates \/ (1 < count keys key /\ key ∈ upper <$> List.filter has_name names).
Proof.
  revert reported duplicates. induction names as [|name names IH]; intros reported duplicates Hr Hn; cbn [duplicates_loop].
  { split; [done|]. intros key. cbn. split; [by left|]. intros [H|[_ H]]; [done|by apply elem_of_nil in H]. }
  cbn [List.filter]. unfold has_name at 1. destruct (str_is_empty name) eqn:Ee; cbn [negb].
  { by apply IH. }
  destruct ((1 <? count keys (upper name)) && negb (bool_decide (upper name ∈ reported))) eqn:Eg.
  - apply andb_true_iff in Eg as [Hc%Nat.ltb_lt Hnew%negb_true_iff%bool_decide_eq_false].
    destruct (IH (upper name :: reported) (vec_push name duplicates)) as [IHn IHk].
    + intros key. unfold vec_push. rewrite fmap_app, elem_of_app, elem_of_cons, Hr.
      cbn [fmap list_fmap]. rewrite list_elem_of_singleton. tauto.
    + unfold vec_push. rewrite fmap_app. apply NoDup_app. split_and!; [done| |apply NoDup_singleton].
      intros x Hx Hx'. cbn in Hx'. apply list_elem_of_singleton in Hx' as ->. by apply Hnew, Hr.
    + split; [done|]. intros key. rewrite IHk. unfold vec_push. rewrite fmap_app, elem_of_app.
      cbn [fmap list_fmap]. rewrite list_elem_of_singleton, elem_of_cons. naive_solver.
  - destruct (IH reported duplicates Hr Hn) as [IHn IHk]. split; [done|]. intros key. rewrite IHk.
    cbn [fmap list_fmap]. rewrite elem_of_cons. apply andb_false_iff in Eg as [Eg|Eg].
    + apply Nat.ltb_ge in Eg. split; [naive_solver|]. intros [?|[? [->|?]]]; [naive_solver|lia|naive_solver].
    + apply negb_false_iff, bool_decide_eq_true in Eg. apply Hr in Eg. split; [naive_solver|].
      intros [?|[? [->|?]]]; naive_solver.
Qed.

Lemma count_elem keys key : 0 < count keys key <-> key ∈ keys.
Proof.
  unfold count. induction keys as [|k keys IH]; cbn [List.filter]; [cbn; split; [lia|by intros ?%elem_of_nil]|].
  rewrite elem_of_cons. destruct (bool_decide_reflect (k = key)) as [->|Hne]; cbn [length].
  - split; [by left|lia].
  - rewrite IH. naive_solver.
Qed.

Lemma count_nodup keys : NoDup keys <-> forall key, count keys key <= 1.
Proof.
  unfold count. induction keys as [|k keys IH]; [split; [cbn; lia|constructor]|]. rewrite NoDup_cons, IH.
  pose proof (count_elem keys) as Hc. unfold count in Hc. split.
  - intros [Hk H] key. cbn [List.filter]. destruct (bool_decide_reflect (k = key)) as [->|]; cbn [length]; [|done].
    destruct (decide (0 < length (List.filter (fun k => k == key) keys))) as [Hp|]; [|lia]. by apply Hc in Hp.
  - intros H. split.
    + intros Hk%Hc. specialize (H k). cbn [List.filter] in H. rewrite bool_decide_true in H by done. cbn in H. lia.
    + intros key. specialize (H key). cbn [List.filter] in H. destruct (k == key); cbn in H; lia.
Qed.

(** Each repeated name is reported once. *)
Lemma duplicate_names_spec names :
  let dups := duplicate_column_names upper names in
  NoDup (upper <$> dups)
  /\ (forall key, key ∈ upper <$> dups <-> 1 < count (name_keys upper names) key)
  /\ (dups = [] <-> NoDup (name_keys upper names)).
Proof.
  intros dups. destruct (duplicates_loop_spec (name_keys upper names) (trim <$> names) [] []) as [Hn Hk];
    [intros key; reflexivity|constructor|]. fold (duplicate_column_names upper names) in Hn, Hk. fold dups in Hn, Hk.
  assert (Hkeys : forall key, key ∈ upper <$> dups <-> 1 < count (name_keys upper names) key).
  { intros key. rewrite Hk. cbn. rewrite elem_of_nil. split; [tauto|]. intros Hc. right. split; [done|].
    change (key ∈ name_keys upper names). apply count_elem. lia. }
  split; [done|]. split; [done|]. rewrite count_nodup. split.
  - intros E key. destruct (decide (1 < count (name_keys upper names) key)) as [Hc|]; [|lia].
    apply Hkeys in Hc. rewrite E in Hc. by apply elem_of_nil in Hc.
  - intros Hall. destruct dups as [|d dups']; [done|]. exfalso.
    assert (H1 : 1 < count (name_keys upper names) (upper d)) by (apply Hkeys; by left).
    specialize (Hall (upper d)). lia.
Qed.
End Names.

(** ** The gate *)

Section Gate.
Context `{UnicodeTables}.
Variables (to_uppercase : str -> str) (is_select_statement : str -> bool).

(** The statement can be run again without asking for values or taking locks. *)
Definition reproducible (body : str) (mysql : bool) : Prop :=
  body <> [] /\ is_select_statement body = true
  /\ (forall o, in_code (spans_of body mysql) o = true -> placeholder_at mysql (encode_str body) o = false)
  /\ (forall clause label before after, In (clause, label) LOCKING_CLAUSES ->
        words_from (code_bytes (spans_of body mysql) (encode_str body)) [] [] <> before ++ clause ++ after).

Lemma code_words_spec sql mysql :
  code_words sql mysql = words_from (code_bytes (spans_of sql mysql) (encode_str sql)) [] [].
Proof.
  unfold code_words. apply words_loop_spec; [apply spans_of_fit|constructor|lia].
Qed.

Lemma placeholder_spec sql db :
  has_unreproducible_placeholder sql db = true
  <-> exists o, in_code (spans_of sql (is_mysql_or_mariadb db)) o = true
        /\ placeholder_at (is_mysql_or_mariadb db) (encode_str sql) o = true.
Proof.
  unfold has_unreproducible_placeholder. destruct (spans_of_fit sql (is_mysql_or_mariadb db)) as [Hok _].
  rewrite (placeholder_loop_spec _ _ _ _ 0 0 Hok); [|constructor|lia].
  split; intros (o & Ho); exists o; [tauto|]. split; [lia|done].
Qed.

(** A result is offered for filtering exactly when its statement is a SELECT that
    holds, outside strings and comments, no placeholder and no locking clause, and
    its column names do not repeat; Oracle offers it with repeated names too, and
    names each of them once. *)
Theorem filter_gate_is_exact sql names db :
  let body := statement_body sql in
  let mysql := is_mysql_or_mariadb db in
  let support := result_filter_support to_uppercase is_select_statement sql names db in
  let dups := duplicate_column_names to_uppercase names in
  (support = FullSupport <-> reproducible body mysql /\ NoDup (name_keys to_uppercase names))
  /\ (forall l, support = AmbiguousColumns l <->
        reproducible body mysql /\ mysql = false /\ l = dups /\ ~ NoDup (name_keys to_uppercase names))
  /\ NoDup (to_uppercase <$> dups)
  /\ (forall key, key ∈ to_uppercase <$> dups <-> 1 < count (name_keys to_uppercase names) key).
Proof.
  intros body mysql support dups.
  destruct (duplicate_names_spec to_uppercase names) as (Hnd & Hkeys & Hnil). fold dups in Hnd, Hkeys, Hnil.
  enough (Hmain : (support = FullSupport /\ reproducible body mysql /\ dups = [])
    \/ (support = AmbiguousColumns dups /\ reproducible body mysql /\ mysql = false /\ dups <> [])
    \/ ((forall l, support <> AmbiguousColumns l) /\ support <> FullSupport
        /\ (~ reproducible body mysql \/ (mysql = true /\ dups <> [])))).
  { rewrite <- Hnil. split; [|split; [|done]].
    - destruct Hmain as [(-> & ? & ?)|[(-> & ? & ? & ?)|(? & ? & [?|[? ?]])]]; naive_solver.
    - intros l. destruct Hmain as [(-> & ? & ?)|[(-> & ? & ? & ?)|(? & ? & [?|[? ?]])]]; try naive_solver congruence. }
  unfold support, result_filter_support. fold body. unfold reproducible.
  destruct (str_is_empty body) eqn:Ee; [right; right; split_and!; try done; left; by destruct body; intros [? _]|].
  destruct (is_select_statement body) eqn:Es; cbn [negb];
    [|right; right; split_and!; try done; left; by intros (_ & ? & _)].
  pose proof (placeholder_spec body db) as Hp. fold mysql in Hp.
  destruct (has_unreproducible_placeholder body db).
  { right; right; split_and!; try done. left. intros (_ & _ & Hno & _).
    destruct (proj1 Hp eq_refl) as (o & Ho & Hpl). rewrite Hno in Hpl by done. done. }
  assert (Hno : forall o, in_code (spans_of body mysql) o = true -> placeholder_at mysql (encode_str body) o = false).
  { intros o Ho. apply not_true_iff_false. intros Hpl. by discriminate (proj2 Hp (ex_intro _ o (conj Ho Hpl))). }
  unfold locking_clause. fold mysql. rewrite code_words_spec.
  pose proof (find_clause_spec LOCKING_CLAUSES (words_from (code_bytes (spans_of body mysql) (encode_str body)) [] [])) as Hf.
  destruct (find_clause LOCKING_CLAUSES _) as [label|].
  { right; right; split_and!; try done. left. intros (_ & _ & _ & Hl).
    destruct Hf as (clause & before & after & Hin & Ew). by eapply Hl. }
  assert (Hne : body <> []) by (by intros E; rewrite E in Ee).
  fold dups. destruct dups as [|d dups']; [left; by split_and!|].
  destruct mysql eqn:Em; [right; right|right; left]; split_and!; try done. by right.
Qed.

(** A clause is refused for a [;] exactly when one of its code bytes is a [;]. *)
Lemma terminator_spec clause db :
  clause_statement_terminator clause db = Some (u ";")
  <-> exists o, encode_str clause !! o = Some ";"%ch
        /\ in_code (spans_of clause (is_mysql_or_mariadb db)) o = true.
Proof.
  unfold clause_statement_terminator. set (spans := spans_of _ _).
  destruct (existsb _ _) eqn:E.
  - split; [|done]. intros _. apply existsb_exists in E as ([o b] & Hin & Hob).
    apply list_elem_of_In, list_elem_of_lookup in Hin as [k Hk]. rewrite list_lookup_imap in Hk.
    destruct (encode_str clause !! k) as [b'|] eqn:Eb; [|done]. injection Hk as <- <-.
    apply andb_true_iff in Hob as [->%N.eqb_eq Hc]. by exists k.
  - split.
    + destruct (is_mysql_or_mariadb db); [done|]. by destruct (slash_line _ _ _).
    + intros (o & Ho & Hc). exfalso. apply not_true_iff_false in E. apply E, existsb_exists.
      exists (o, ";"%ch). split; [|by rewrite Hc]. apply list_elem_of_In, list_elem_of_lookup. exists o.
      by rewrite list_lookup_imap, Ho.
Qed.
End Gate.
