(* ===== verification/RustParse.v ===== *)
(** * Reading numbers out of text

    [str::parse] for integers and floats, [String::replace], [from_utf8] and
    ASCII lower-casing, as the standard library documents them.  A float is the
    number it stands for: all that [==] and [is_nan] can tell. *)
From Stdlib Require Import QArith.
From stdpp Require Import pretty.
From S2P Require Import Prelude RustStr Utf8 TotalOrder GridSort.

(** ** Strings *)

Definition to_ascii_lowercase (c : char) : char := if is_ascii_uppercase c then (c + 32)%N else c.
Definition ascii_lower (s : str) : str := to_ascii_lowercase <$> s.

(** [s.replace(pat, to)]: from the left, occurrences that do not overlap. *)
Fixpoint replace_from (pat to : str) (skip : nat) (s : str) : str :=
  match s with
  | [] => []
  | c :: s' =>
      match skip with
      | S skip => replace_from pat to skip s'
      | 0 => if starts_with s pat then to ++ replace_from pat to (length pat - 1) s'
             else c :: replace_from pat to 0 s'
      end
  end.
Definition str_replace (pat to s : str) : str := replace_from pat to 0 s.

Lemma starts_with_nil s : starts_with s [] = true.
Proof. by destruct s. Qed.

Lemma replace_char_cons a to c s :
  str_replace [a] to (c :: s) = (if N.eqb c a then to else [c]) ++ str_replace [a] to s.
Proof. unfold str_replace. cbn. rewrite starts_with_nil, andb_true_r, N.eqb_sym. by destruct (N.eqb c a). Qed.

(** [s.strip_suffix(pat)]. *)
Definition strip_suffix (s pat : str) : option str :=
  if ends_with s pat then Some (take (length s - length pat) s) else None.

Lemma trim_end_snoc s c : is_whitespace c = false -> trim_end (s ++ [c]) = s ++ [c].
Proof.
  intros H. unfold trim_end. rewrite reverse_snoc. cbn [trim_start]. rewrite H.
  by rewrite reverse_cons, reverse_involutive.
Qed.

Lemma trim_between c x d : is_whitespace c = false -> is_whitespace d = false -> trim ([c] ++ x ++ [d]) = [c] ++ x ++ [d].
Proof.
  intros Hc Hd. unfold trim. cbn [app trim_start]. rewrite Hc, app_comm_cons. by apply trim_end_snoc.
Qed.

Lemma strip_suffix_snoc s c : strip_suffix (s ++ [c]) [c] = Some s.
Proof.
  unfold strip_suffix, ends_with. rewrite reverse_snoc. change (reverse [c]) with [c]. cbn [starts_with].
  rewrite N.eqb_refl, starts_with_nil, length_app. cbn [andb length]. rewrite Nat.add_sub.
  by rewrite take_app_length.
Qed.

(** [pieces.join(sep)]. *)
Fixpoint join (sep : str) (pieces : list str) : str :=
  match pieces with
  | [] => []
  | [p] => p
  | p :: pieces => p ++ sep ++ join sep pieces
  end.

Lemma u_cons c s : u (String c s) = N_of_ascii c :: u s.
Proof. done. Qed.

(** [n.to_string()] of an unsigned integer. *)
Definition to_decimal (n : nat) : str := u (pretty n).

(** [str::from_utf8]. *)
Definition str_from_utf8 (b : bytes) : option str :=
  let chars := str_chars b in
  if forallb is_scalar chars && (encode_str chars == b) then Some chars else None.

(** Strings compare by their bytes, which order as the characters do. *)
Definition name_cmp (l r : str) : comparison := lex_cmp N.compare l r.

(** [l.sort_by_key(key)]; the comparison of keys is total, so the sort returns. *)
Definition sort_by_key `{StableSort} {A K} (cmp : K -> K -> comparison) (key : A -> K) (l : list A) : list A :=
  default l (sort_by (fun x y => Some (cmp (key x) (key y))) l).

Lemma sort_by_key_spec `{StableSort} {A K} (cmp : K -> K -> comparison) (key : A -> K) (l : list A) :
  TotalCmp cmp ->
  sort_by_key cmp key l ≡ₚ l
  /\ Sorted.StronglySorted (fun x y => cmp (key x) (key y) <> Gt) (sort_by_key cmp key l)
  /\ forall x, List.filter (fun y => bool_decide (cmp (key x) (key y) = Eq)) (sort_by_key cmp key l)
               = List.filter (fun y => bool_decide (cmp (key x) (key y) = Eq)) l.
Proof.
  intros T. unfold sort_by_key.
  destruct (sort_by_spec (fun x y => cmp (key x) (key y)) (fun x y => Some (cmp (key x) (key y))) l)
    as (l' & -> & P & S & F); [apply _|done|]. done.
Qed.

(** ** Integers *)

#[local] Open Scope Z_scope.

Definition U8_MAX : Z := 255.
Definition U16_MAX : Z := 65535.
Definition U32_MAX : Z := 4294967295.
Definition U64_MAX : Z := 18446744073709551615.

(** [s.parse::<uN>()]: a plus sign, if any, and digits of a number up to [max]. *)
Definition parse_unsigned (max : Z) (s : str) : option Z :=
  let digits := match s with c :: rest => if N.eqb c "+"%ch then rest else s | [] => s end in
  if str_is_empty digits || negb (digits_only digits) then None
  else let n := Z.of_N (digits_value digits) in if n <=? max then Some n else None.

(** [s.parse::<i64>()]. *)
Definition parse_i64 (s : str) : option Z :=
  let '(negative, digits) :=
    match s with
    | c :: rest => if N.eqb c "-"%ch then (true, rest) else if N.eqb c "+"%ch then (false, rest) else (false, s)
    | [] => (false, s)
    end in
  if str_is_empty digits || negb (digits_only digits) then None
  else
    let n := Z.of_N (digits_value digits) in
    let n := if negative then - n else n in
    if (- 2 ^ 63 <=? n) && (n <? 2 ^ 63) then Some n else None.

(** ** Floats *)

Inductive float :=
  | NaN
  | Infinity (negative : bool)
  | Finite (value : Q).

Definition pow2 (e : Z) : Q := if 0 <=? e then inject_Z (2 ^ e) else 1 # Z.to_pos (2 ^ (- e)).

(** The number with these bits: [exp_bits] of exponent, [frac_bits] of fraction. *)
Definition float_of_bits (exp_bits frac_bits bits : Z) : float :=
  let frac := bits mod 2 ^ frac_bits in
  let exp := (bits / 2 ^ frac_bits) mod 2 ^ exp_bits in
  let negative := Z.odd (bits / 2 ^ (frac_bits + exp_bits)) in
  let bias := 2 ^ (exp_bits - 1) - 1 in
  if exp =? 2 ^ exp_bits - 1 then if frac =? 0 then Infinity negative else NaN
  else
    let magnitude :=
      (if exp =? 0 then inject_Z frac * pow2 (1 - bias - frac_bits)
       else inject_Z (2 ^ frac_bits + frac) * pow2 (exp - bias - frac_bits))%Q in
    Finite (if negative then - magnitude else magnitude)%Q.

(** [f32::from_bits(b) as f64] is the same number. *)
Definition f32_from_bits (bits : Z) : float := float_of_bits 8 23 bits.
Definition f64_from_bits (bits : Z) : float := float_of_bits 11 52 bits.

Definition round_half_even (n d : Z) : Z :=
  let q := n / d in
  match 2 * (n mod d) ?= d with
  | Lt => q
  | Gt => q + 1
  | Eq => if Z.even q then q else q + 1
  end.

(** The power of two at or below [n / d]. *)
Definition floor_log2 (n d : Z) : Z :=
  let l := Z.log2 n - Z.log2 d in
  if (if 0 <=? l then n <? d * 2 ^ l else n * 2 ^ (- l) <? d) then l - 1 else l.

(** The [f64] nearest to [n / d], a tie to the even one. *)
Definition round_f64 (n d : Z) : float :=
  if n =? 0 then Finite 0
  else
    let e := Z.max (floor_log2 n d - 52) (- 1074) in
    let m := if 0 <=? e then round_half_even n (d * 2 ^ e) else round_half_even (n * 2 ^ (- e)) d in
    if (0 <=? e) && (2 ^ 1024 <=? m * 2 ^ e) then Infinity false
    else Finite (inject_Z m * pow2 e)%Q.

Definition float_opp (f : float) : float :=
  match f with NaN => NaN | Infinity n => Infinity (negb n) | Finite q => Finite (- q)%Q end.

Fixpoint span_digits (s : str) : str * str :=
  match s with
  | c :: s' => if is_ascii_digit c then let '(d, r) := span_digits s' in (c :: d, r) else ([], s)
  | [] => ([], [])
  end.

Definition parse_exponent (s : str) : option Z :=
  match s with
  | [] => Some 0
  | c :: s =>
      if N.eqb c "e"%ch || N.eqb c "E"%ch then
        let '(negative, digits) :=
          match s with
          | c :: rest => if N.eqb c "-"%ch then (true, rest) else if N.eqb c "+"%ch then (false, rest) else (false, s)
          | [] => (false, s)
          end in
        if str_is_empty digits || negb (digits_only digits) then None
        else let n := Z.of_N (digits_value digits) in Some (if negative then - n else n)
      else None
  end.

Definition parse_magnitude (s : str) : option float :=
  if eq_ignore_ascii_case s (u "inf") || eq_ignore_ascii_case s (u "infinity") then Some (Infinity false)
  else if eq_ignore_ascii_case s (u "nan") then Some NaN
  else
    let '(integer, rest) := span_digits s in
    let '(fraction, rest) :=
      match rest with
      | c :: rest' => if N.eqb c "."%ch then span_digits rest' else ([], rest)
      | [] => ([], rest)
      end in
    if str_is_empty integer && str_is_empty fraction then None
    else
      match parse_exponent rest with
      | None => None
      | Some exponent =>
          let digits := Z.of_N (digits_value (integer ++ fraction)) in
          let exponent := exponent - Z.of_nat (length fraction) in
          Some (if 0 <=? exponent then round_f64 (digits * 10 ^ exponent) 1
                else round_f64 digits (10 ^ (- exponent)))
      end.

(** [s.parse::<f64>()]. *)
Definition parse_f64 (s : str) : option float :=
  match s with
  | c :: rest =>
      if N.eqb c "-"%ch then float_opp <$> parse_magnitude rest
      else if N.eqb c "+"%ch then parse_magnitude rest
      else parse_magnitude s
  | [] => None
  end.

(** [left == right] on floats. *)
Definition float_eqb (left right : float) : bool :=
  match left, right with
  | Infinity l, Infinity r => Bool.eqb l r
  | Finite l, Finite r => Qeq_bool l r
  | _, _ => false
  end.

Definition is_nan (f : float) : bool := match f with NaN => true | _ => false end.

(** Known values of the standard library. *)
Example known_floats :
  parse_f64 (u "0.5") = Some (Finite (inject_Z (2 ^ 52) * pow2 (- 53)))
  /\ option_map (fun f => float_eqb f (f64_from_bits 4607632778762754458)) (parse_f64 (u "1.1")) = Some true
  /\ option_map (fun f => float_eqb f (f64_from_bits 1)) (parse_f64 (u "4.9e-324")) = Some true
  /\ option_map (fun f => float_eqb f (Infinity true)) (parse_f64 (u "-1e309")) = Some true
  /\ option_map (fun f => float_eqb f (f64_from_bits 9218868437227405311)) (parse_f64 (u "1.7976931348623157e308")) = Some true
  /\ parse_f64 (u "1e") = None /\ parse_f64 (u ".") = None.
Proof. vm_compute. split_and!; reflexivity. Qed.
