(* ===== verification/SqlScan.v ===== *)
(** * Scanning the top level of a statement

    [TopLevelScanner] of [script.rs]: words and symbols outside parentheses,
    literals, quoted identifiers and comments, on the bytes of the text.  One
    [scan_turn] is one round of the [while] of [next]. *)
From S2P Require Import Prelude RustStr SqlText Utf8.

Inductive ScanToken :=
  | Word (text : bytes) (start : nat)
  | Symbol (byte : byte) (pos : nat).

Record TopLevelScanner := mkScanner { scan_bytes : bytes; pos : nat; depth : nat }.
#[export] Instance TopLevelScanner_eta : Eta TopLevelScanner := fun s => mkScanner (scan_bytes s) (pos s) (depth s).

Definition scanner_new (sql : str) : TopLevelScanner := mkScanner (encode_str sql) 0 0.

(** The bytes from the position on. *)
Definition ahead (s : TopLevelScanner) : bytes := drop (pos s) (scan_bytes s).

Definition is_identifier_start_byte (b : byte) : bool :=
  is_ascii_alphabetic b || N.eqb b "_"%ch || N.eqb b "$"%ch || N.eqb b "#"%ch.

(** [u8::is_ascii_whitespace]. *)
Definition is_ascii_whitespace (b : byte) : bool :=
  N.eqb b 9 || N.eqb b 10 || N.eqb b 12 || N.eqb b 13 || N.eqb b 32.

(** How far the text of a quoted literal reaches, a doubled quote inside it. *)
Fixpoint quoted_len (quote : byte) (l : bytes) : nat :=
  match l with
  | [] => 0
  | b :: l' =>
      if N.eqb b quote then
        match l' with
        | c :: l'' => if N.eqb c quote then 2 + quoted_len quote l'' else 1
        | [] => 1
        end
      else 1 + quoted_len quote l'
  end.

Definition skip_single_quoted (s : TopLevelScanner) : TopLevelScanner :=
  let s := s <| pos ::= fun p => p + 1 |> in s <| pos ::= fun p => p + quoted_len "'"%ch (ahead s) |>.

Definition skip_double_quoted (s : TopLevelScanner) : TopLevelScanner :=
  let s := s <| pos ::= fun p => p + 1 |> in s <| pos ::= fun p => p + quoted_len 34 (ahead s) |>.

(** To behind the first [b] that [c] follows, or to the end. *)
Fixpoint until_pair (b c : byte) (l : bytes) : nat :=
  match l with
  | x :: (y :: _) as l' => if N.eqb x b && N.eqb y c then 2 else 1 + until_pair b c l'
  | _ => length l
  end.

Definition skip_q_quoted (delimiter : byte) (prefix_len : nat) (s : TopLevelScanner) : TopLevelScanner :=
  let s := s <| pos ::= fun p => p + prefix_len |> in
  s <| pos ::= fun p => p + until_pair (q_quote_closing delimiter) "'"%ch (ahead s) |>.

Fixpoint until_newline (l : bytes) : nat :=
  match l with
  | b :: l => if N.eqb b 10 then 0 else 1 + until_newline l
  | [] => 0
  end.

Definition skip_line_comment (prefix_len : nat) (s : TopLevelScanner) : TopLevelScanner :=
  let s := s <| pos ::= fun p => p + prefix_len |> in s <| pos ::= fun p => p + until_newline (ahead s) |>.

Definition skip_block_comment (s : TopLevelScanner) : TopLevelScanner :=
  let s := s <| pos ::= fun p => p + 2 |> in
  s <| pos ::= fun p => p + until_pair "*"%ch "/"%ch (ahead s) |>.

Fixpoint identifier_len (l : bytes) : nat :=
  match l with
  | b :: l => if is_identifier_byte b then 1 + identifier_len l else 0
  | [] => 0
  end.

(** [nq'[..]'] or [q'[..]'] at the position: the delimiter and the length of the
    prefix. *)
Definition q_quote_here (s : TopLevelScanner) (b : byte) : option (byte * nat) :=
  let next i c := at_is (scan_bytes s) (pos s + i) c in
  let delimiter_at i :=
    match scan_bytes s !! (pos s + i) with
    | Some delimiter => if is_valid_q_quote_delimiter delimiter then Some (delimiter, i + 1) else None
    | None => None
    end in
  match (if is_char_of b "nNuU" && (next 1 "q"%ch || next 1 "Q"%ch) && next 2 "'"%ch
         then delimiter_at 3 else None) with
  | Some found => Some found
  | None => if is_char_of b "qQ" && next 1 "'"%ch then delimiter_at 2 else None
  end.

(** [<#>], the inner product of vectors, starts no comment. *)
Definition is_vector_inner_product (s : TopLevelScanner) (b : byte) : bool :=
  N.eqb b "#"%ch && (0 <? pos s) && at_is (scan_bytes s) (pos s - 1) "<"%ch
  && at_is (scan_bytes s) (pos s + 1) ">"%ch.

Definition line_comment_here (s : TopLevelScanner) (b : byte) : option nat :=
  match sql_line_comment_prefix_len (scan_bytes s) (pos s) with
  | Some prefix_len => if is_vector_inner_product s b then None else Some prefix_len
  | None => None
  end.

Definition scan_turn (s : TopLevelScanner) (b : byte) : TopLevelScanner * option ScanToken :=
  match q_quote_here s b with
  | Some (delimiter, prefix_len) => (skip_q_quoted delimiter prefix_len s, None)
  | None =>
  match line_comment_here s b with
  | Some prefix_len => (skip_line_comment prefix_len s, None)
  | None =>
  if N.eqb b "/"%ch && at_is (scan_bytes s) (pos s + 1) "*"%ch then (skip_block_comment s, None)
  else if N.eqb b "'"%ch then (skip_single_quoted s, None)
  else if N.eqb b 34 then (skip_double_quoted s, None)
  else if N.eqb b "("%ch then (s <| depth ::= S |> <| pos ::= fun p => p + 1 |>, None)
  else if N.eqb b ")"%ch then (s <| depth ::= pred |> <| pos ::= fun p => p + 1 |>, None)
  else if is_ascii_whitespace b then (s <| pos ::= fun p => p + 1 |>, None)
  else
    let start := pos s in
    let len := if is_identifier_start_byte b then 1 + identifier_len (drop (start + 1) (scan_bytes s)) else 1 in
    let s' := s <| pos ::= fun p => p + len |> in
    if 0 <? depth s then (s', None)
    else if is_identifier_start_byte b
    then (s', Some (Word (slice start (start + len) (scan_bytes s)) start))
    else (s', Some (Symbol b start))
  end
  end.

(** [next]: the scanner behind the next token, and the token. *)
Fixpoint scan_next (fuel : nat) (s : TopLevelScanner) : TopLevelScanner * option ScanToken :=
  match fuel, scan_bytes s !! pos s with
  | S fuel, Some b =>
      match scan_turn s b with
      | (s, Some token) => (s, Some token)
      | (s, None) => scan_next fuel s
      end
  | _, _ => (s, None)
  end.

Fixpoint scan_tokens (fuel : nat) (s : TopLevelScanner) : list ScanToken :=
  match fuel with
  | 0 => []
  | S fuel =>
      match scan_next (length (scan_bytes s) - pos s) s with
      | (s, Some token) => token :: scan_tokens fuel s
      | (_, None) => []
      end
  end.

Fixpoint first_comma (tokens : list ScanToken) : option nat :=
  match tokens with
  | [] => None
  | Symbol b pos :: tokens => if N.eqb b ","%ch then Some pos else first_comma tokens
  | Word _ _ :: tokens => first_comma tokens
  end.

Definition find_first_top_level_comma (sql : str) : option nat :=
  let s := scanner_new sql in first_comma (scan_tokens (length (scan_bytes s)) s).

Definition result_edit_expression_has_top_level_comma (sql : str) : bool :=
  is_some_and (find_first_top_level_comma sql) (fun _ => true).

Example commas :
  find_first_top_level_comma (u "nvl(a, 'x,y'), b") = Some 13
  /\ result_edit_expression_has_top_level_comma (u "f(q'[,]', 'a''b,')/*,*/") = false.
Proof. split; vm_compute; reflexivity. Qed.

(** The scanner does not know that a backslash escapes a quote in MySQL: what
    the server reads as a literal and a second assignment passes for one
    literal. *)
Example escaped_quote_hides_a_comma :
  result_edit_expression_has_top_level_comma (u "'\'', other = 'x'") = false.
Proof. vm_compute. reflexivity. Qed.
