(* ===== verification/ResultEdit.v ===== *)
(** * Saving grid edits: requests, checks and statements

    The data of a result edit and everything [result_edit.rs] computes without a
    connection: scalars and their comparison, the choice of row locators, the
    validation of requests, quoting, and the text of each statement.  Types of
    the [mysql] crate are given by the accessors the code reads.  Whether a text
    is one statement ([split_script_items_for_db_type]) and JSON are parameters. *)
From stdpp Require Import gmap pretty.
From S2P Require Import Prelude RustStr Utf8 SessionPolicy TotalOrder GridSort RustParse SqlScan.

(** [Result<A, String>]. *)
Abbreviation Result A := (A + str)%type.
Definition and_then {A B E} (r : A + E) (f : A -> B + E) : B + E :=
  match r with inl a => f a | inr e => inr e end.
Notation "'try' x <- r ; k" := (and_then r (fun x => k)) (at level 10, x pattern, r at level 100, k at level 200) : rust_scope.

(** [iter.map(f).collect::<Result<Vec<_>, _>>()]. *)
Fixpoint collect {A B E} (f : A -> B + E) (l : list A) : list B + E :=
  match l with
  | [] => inl []
  | x :: l => try y <- f x; try ys <- collect f l; inl (y :: ys)
  end.

(** A loop that leaves with [?] at the first error. *)
Fixpoint for_each {A S E} (f : A -> S -> S + E) (l : list A) (s : S) : S + E :=
  match l with
  | [] => inl s
  | x :: l => try s' <- f x s; for_each f l s'
  end.

(** ** Backends *)

Record ResultEditBackendPolicy := mkPolicy { structured_requests : bool; hash_starts_line_comment : bool }.

Definition result_edit_backend_policy (db_type : DatabaseType) : ResultEditBackendPolicy :=
  match db_type with
  | DatabaseType_Oracle => mkPolicy false false
  | DatabaseType_MySQL | DatabaseType_MariaDB => mkPolicy true true
  end.

(** ** Scalars *)

(** [mysql::Value]; a float by its bits. *)
Inductive Value :=
  | Value_NULL
  | Value_Bytes (value : bytes)
  | Value_Int (value : Z)
  | Value_UInt (value : Z)
  | Value_Float (bits : Z)
  | Value_Double (bits : Z)
  | Value_Date (year month day hour minute second micros : Z)
  | Value_Time (negative : bool) (days hour minute second micros : Z).

Inductive ResultEditScalar :=
  | Scalar_Null
  | Scalar_Bytes (value : bytes)
  | Scalar_Int (value : Z)
  | Scalar_UInt (value : Z)
  | Scalar_FloatBits (value : Z)
  | Scalar_DoubleBits (value : Z)
  | Scalar_Date (year month day hour minute second micros : Z)
  | Scalar_Time (negative : bool) (days hour minute second micros : Z).
#[export] Instance ResultEditScalar_eq_dec : EqDecision ResultEditScalar.
Proof. solve_decision. Defined.

Definition from_mysql_value (value : Value) : ResultEditScalar :=
  match value with
  | Value_NULL => Scalar_Null
  | Value_Bytes v => Scalar_Bytes v
  | Value_Int v => Scalar_Int v
  | Value_UInt v => Scalar_UInt v
  | Value_Float b => Scalar_FloatBits b
  | Value_Double b => Scalar_DoubleBits b
  | Value_Date y mo d h mi s us => Scalar_Date y mo d h mi s us
  | Value_Time n d h mi s us => Scalar_Time n d h mi s us
  end.

Definition to_mysql_value (value : ResultEditScalar) : Value :=
  match value with
  | Scalar_Null => Value_NULL
  | Scalar_Bytes v => Value_Bytes v
  | Scalar_Int v => Value_Int v
  | Scalar_UInt v => Value_UInt v
  | Scalar_FloatBits b => Value_Float b
  | Scalar_DoubleBits b => Value_Double b
  | Scalar_Date y mo d h mi s us => Value_Date y mo d h mi s us
  | Scalar_Time n d h mi s us => Value_Time n d h mi s us
  end.

Definition is_null (value : ResultEditScalar) : bool := match value with Scalar_Null => true | _ => false end.

(** ** Comparing what was shown with what is stored *)

#[local] Open Scope Z_scope.

Definition mysql_floats_equal (left right : float) : bool :=
  float_eqb left right || (is_nan left && is_nan right).

Definition parse_mysql_second_text (text : str) : option (Z * Z) :=
  let '(seconds, fraction) := default (text, []) (split_once (N.eqb "."%ch) text) in
  seconds ← parse_unsigned U8_MAX seconds;
  if (59 <? seconds) || (6 <? utf8_len fraction)%nat || negb (digits_only fraction) then None
  else if str_is_empty fraction then Some (seconds, 0)
  else
    parsed ← parse_unsigned U32_MAX fraction;
    let micros := parsed * 10 ^ Z.of_nat (6 - length fraction) in
    if micros <=? U32_MAX then Some (seconds, micros) else None.

Definition parse_mysql_clock_text (text : str) : option (Z * Z * Z * Z) :=
  match split_on ":"%ch text with
  | hour :: minute :: second_text :: rest =>
      hour ← parse_unsigned U8_MAX hour;
      minute ← parse_unsigned U8_MAX minute;
      if negb (bool_decide (rest = [])) || (23 <? hour) || (59 <? minute) then None
      else '(second, micros) ← parse_mysql_second_text second_text; Some (hour, minute, second, micros)
  | _ => None
  end.

Definition parse_mysql_date_text (text : str) : option (Z * Z * Z * Z * Z * Z * Z) :=
  let '(date, time) := default (text, []) (split_once (N.eqb " "%ch) text) in
  match split_on "-"%ch date with
  | [year; month; day] =>
      year ← parse_unsigned U16_MAX year;
      month ← parse_unsigned U8_MAX month;
      day ← parse_unsigned U8_MAX day;
      if str_is_empty time then Some (year, month, day, 0, 0, 0, 0)
      else '(hour, minute, second, micros) ← parse_mysql_clock_text time;
           Some (year, month, day, hour, minute, second, micros)
  | _ => None
  end.

(** The days and the hour of a count of hours below 2^32; dividing by 24 does not
    fail. *)
Definition parse_mysql_time_text (text : str) : option (bool * Z * Z * Z * Z * Z) :=
  let '(negative, text) :=
    match strip_prefix text (u "-") with Some text => (true, text) | None => (false, text) end in
  match split_on ":"%ch text with
  | total_hours :: minute :: second_text :: rest =>
      total_hours ← parse_unsigned U32_MAX total_hours;
      minute ← parse_unsigned U8_MAX minute;
      if negb (bool_decide (rest = [])) || (59 <? minute) then None
      else
        '(second, micros) ← parse_mysql_second_text second_text;
        Some (negative, total_hours / 24, total_hours mod 24, minute, second, micros)
  | _ => None
  end.

Definition mysql_text_matches_scalar (value : bytes) (scalar : ResultEditScalar) : bool :=
  match str_from_utf8 value with
  | None => false
  | Some text =>
      match scalar with
      | Scalar_Bytes other => value == other
      | Scalar_Int v => parse_i64 text == Some v
      | Scalar_UInt v => parse_unsigned U64_MAX text == Some v
      | Scalar_FloatBits b => is_some_and (parse_f64 text) (fun f => mysql_floats_equal f (f32_from_bits b))
      | Scalar_DoubleBits b => is_some_and (parse_f64 text) (fun f => mysql_floats_equal f (f64_from_bits b))
      | Scalar_Date y mo d h mi s us => parse_mysql_date_text text == Some (y, mo, d, h, mi, s, us)
      | Scalar_Time n d h mi s us => parse_mysql_time_text text == Some (n, d, h, mi, s, us)
      | Scalar_Null => false
      end
  end.

Definition mysql_scalars_equal (left right : ResultEditScalar) : bool :=
  (left == right)
  || match left, right with
     | Scalar_Int l, Scalar_UInt r | Scalar_UInt r, Scalar_Int l => (0 <=? l) && (l =? r)
     | Scalar_Bytes value, scalar | scalar, Scalar_Bytes value => mysql_text_matches_scalar value scalar
     | Scalar_FloatBits l, Scalar_DoubleBits r | Scalar_DoubleBits r, Scalar_FloatBits l =>
         mysql_floats_equal (f32_from_bits l) (f64_from_bits r)
     | _, _ => false
     end.

#[local] Close Scope Z_scope.

(** ** Requests *)

Record ResultEditColumn := mkEditColumn { result_index : nat; source_name : str }.

Record ResultEditDescriptor := mkDescriptor {
  db_type : DatabaseType;
  schema_name : str;
  table_name : str;
  locator_columns : list str;
  editable_columns : list ResultEditColumn;
  snapshot_column_index : nat
}.

Record ResultEditRowSnapshot := mkSnapshot {
  locator_values : list ResultEditScalar;
  original_values : list ResultEditScalar
}.

Inductive ResultEditValue :=
  | Edit_Text (text : str)
  | Edit_Null
  | Edit_Expression (expression : str).

Record ResultEditAssignment := mkAssignment { assigned_column : str; assigned_value : ResultEditValue }.
Record ResultEditOriginalValue := mkOriginal { original_column : str; original_value : ResultEditScalar }.

Inductive ResultEditMutation :=
  | Mutation_Update (locator : list ResultEditScalar) (originals : list ResultEditOriginalValue)
      (assignments : list ResultEditAssignment)
  | Mutation_Delete (locator : list ResultEditScalar) (originals : list ResultEditOriginalValue)
  | Mutation_Insert (assignments : list ResultEditAssignment).

Record ResultEditRequest := mkRequest {
  request_id : nat;
  descriptor : ResultEditDescriptor;
  mutations : list ResultEditMutation
}.

Definition request_tag (request : ResultEditRequest) : str := u "SQ_SAVE_REQUEST:" ++ to_decimal (request_id request).

(** ** Row locators *)

Record MysqlUniqueIndexColumn := mkIndexColumn {
  index_name : str;
  column_name : str;
  sequence : Z;
  nullable : bool
}.

(** [map.entry(key).or_default().push(value)] on a [BTreeMap], kept in the order
    of its keys. *)
Fixpoint entry_push {V} (key : str) (value : V) (map : list (str * list V)) : list (str * list V) :=
  match map with
  | [] => [(key, [value])]
  | (k, values) :: rest =>
      match name_cmp key k with
      | Lt => (key, [value]) :: map
      | Eq => (k, vec_push value values) :: rest
      | Gt => (k, values) :: entry_push key value rest
      end
  end.

Definition by_index (columns : list MysqlUniqueIndexColumn) : list (str * list MysqlUniqueIndexColumn) :=
  fold_left (fun map column => entry_push (index_name column) column map) columns [].

(** Whether it is not the primary key, the number of columns, the name, and the
    columns. *)
Abbreviation LocatorCandidate := (bool * nat * str * list str)%type.

Definition bool_cmp (l r : bool) : comparison :=
  match l, r with false, true => Lt | true, false => Gt | _, _ => Eq end.

Definition candidate_cmp : (bool * nat * str) -> (bool * nat * str) -> comparison :=
  pair_cmp (pair_cmp bool_cmp Nat.compare) name_cmp.

Section Locators.
Context {Sort : StableSort}.

Definition in_sequence (columns : list MysqlUniqueIndexColumn) : list MysqlUniqueIndexColumn :=
  sort_by_key Z.compare sequence columns.

Definition locator_candidate (group : str * list MysqlUniqueIndexColumn) : option LocatorCandidate :=
  let '(name, columns) := group in
  let columns := in_sequence columns in
  if bool_decide (columns = []) || existsb nullable columns then None
  else Some (negb (eq_ignore_ascii_case name (u "PRIMARY")), length columns, ascii_lower name, column_name <$> columns).

Definition choose_mysql_locator (columns : list MysqlUniqueIndexColumn) : option (list str) :=
  let candidates := omap locator_candidate (by_index columns) in
  snd <$> head (sort_by_key candidate_cmp fst candidates).

Definition mysql_locator_is_unique (columns : list MysqlUniqueIndexColumn) (locator_columns : list str) : bool :=
  existsb (fun '(_, columns) =>
    let columns := in_sequence columns in
    (length columns =? length locator_columns)
    && negb (existsb nullable columns)
    && forallb (fun '(column, locator) => eq_ignore_ascii_case (column_name column) locator)
         (combine columns locator_columns))
  (by_index columns).
End Locators.

(** A row of the index metadata. *)
Definition unique_index_column (row : str * option str * Z * option str) : MysqlUniqueIndexColumn :=
  let '(index_name, column_name, sequence, is_nullable) := row in
  mkIndexColumn index_name (default [] column_name) sequence
    (is_none_or is_nullable (fun value => negb (eq_ignore_ascii_case value (u "NO")))).

(** ** Descriptors and snapshots *)

Record MysqlEditableSelectPlan := mkPlan {
  plan_sql : str;
  plan_schema_name : str;
  plan_table_name : str;
  plan_locator_columns : list str;
  original_column_count : option nat
}.

(** [mysql::Column]. *)
Record Column := mkColumn { schema_str : str; org_table_str : str; org_name_str : str; name_str : str }.

Definition MYSQL_EDIT_KEY_ALIAS_PREFIX : str := u "SQ_INTERNAL_EDIT_KEY_".
Definition mysql_edit_key_alias (index : nat) : str := MYSQL_EDIT_KEY_ALIAS_PREFIX ++ to_decimal index.

Definition mysql_original_column_count (plan : MysqlEditableSelectPlan) (columns : list Column) : option nat :=
  let key_count := length (plan_locator_columns plan) in
  if length columns <? key_count then None
  else
    let visible_count := length columns - key_count in
    if forallb (fun index =>
         is_some_and (columns !! (visible_count + index)) (fun column =>
           eq_ignore_ascii_case (name_str column) (mysql_edit_key_alias index)))
         (seq 0 key_count)
    then Some visible_count else None.

(** The visible column comes from the table of the plan. *)
Definition is_source_column (plan : MysqlEditableSelectPlan) (column : Column) : bool :=
  eq_ignore_ascii_case (schema_str column) (plan_schema_name plan)
  && eq_ignore_ascii_case (org_table_str column) (plan_table_name plan)
  && negb (str_is_empty (org_name_str column)).

Definition count_name (counts : gmap str nat) (name : str) : gmap str nat :=
  <[ascii_lower name := S (default 0 (counts !! ascii_lower name))]> counts.

Definition mysql_descriptor_from_columns (db_type : DatabaseType) (plan : MysqlEditableSelectPlan)
    (columns : list Column) : option ResultEditDescriptor :=
  visible_count ← mysql_original_column_count plan columns;
  let candidates :=
    omap (fun '(result_index, column) =>
      if is_source_column plan column then Some (result_index, org_name_str column) else None)
      (imap pair (take visible_count columns)) in
  let source_name_counts := fold_left count_name (snd <$> candidates) ∅ in
  let editable_columns :=
    (fun '(result_index, source_name) => mkEditColumn result_index source_name) <$>
    List.filter (fun '(_, source_name) => source_name_counts !! ascii_lower source_name == Some 1) candidates in
  if bool_decide (length editable_columns = 0) then None
  else Some (mkDescriptor db_type (plan_schema_name plan) (plan_table_name plan) (plan_locator_columns plan)
               editable_columns visible_count).

(** [mysql::Row]: its values in order. *)
Abbreviation Row := (list Value) (only parsing).

Definition value_at (missing : string) (row : Row) (index : nat) : Result ResultEditScalar :=
  match row !! index with Some value => inl (from_mysql_value value) | None => inr (u missing) end.

Definition mysql_snapshot_for_row (d : ResultEditDescriptor) (row : Row) : Result ResultEditRowSnapshot :=
  let key_count := length (locator_columns d) in
  if negb (length row =? snapshot_column_index d + key_count)
  then inr (u "The editable result row has an unexpected column count.")
  else
    try locators <- collect (value_at "An injected key value is missing from the result row." row)
                      (seq (snapshot_column_index d) key_count);
    if existsb is_null locators then inr (u "An injected edit key unexpectedly contains NULL.")
    else
      try originals <- collect (value_at "An editable source value is missing from the result row." row)
                         (result_index <$> editable_columns d);
      inl (mkSnapshot locators originals).
