(* ===== verification/EditStatements.v ===== *)
(** * Validating result edits and writing their statements

    The checks a request passes before anything is sent, the quoting of MySQL
    names, and the text and parameters of the statements a request becomes. *)
From stdpp Require Import gmap.
From S2P Require Import Prelude RustStr Utf8 SessionPolicy ResultFilter RustParse SqlScan ResultEdit.

(** ** Names *)

Definition quote_mysql_identifier (identifier : str) : str :=
  u "`" ++ str_replace (u "`") (u "``") identifier ++ u "`".

Definition unquote_mysql_segment (segment : str) : str :=
  let trimmed := trim segment in
  match (inner ← strip_prefix trimmed (u "`"); strip_suffix inner (u "`")) with
  | Some inner => str_replace (u "``") (u "`") inner
  | None => trimmed
  end.

(** The loop over the characters of a name: [segment] is what lies between the
    last dot that separated and the character read. *)
Fixpoint segments_loop (in_quotes : bool) (segment : str) (chars : str) : list str :=
  match chars with
  | [] => [segment]
  | ch :: chars =>
      if N.eqb ch "`"%ch then
        if in_quotes then
          match chars with
          | next :: chars' =>
              if N.eqb next "`"%ch then segments_loop true (segment ++ [ch; next]) chars'
              else segments_loop false (vec_push ch segment) chars
          | [] => segments_loop false (vec_push ch segment) chars
          end
        else segments_loop true (vec_push ch segment) chars
      else if N.eqb ch "."%ch && negb in_quotes then segment :: segments_loop false [] chars
      else segments_loop in_quotes (vec_push ch segment) chars
  end.

Definition mysql_qualified_name_segments (name : str) : list str :=
  List.filter (fun segment => negb (str_is_empty (trim segment)))
    (unquote_mysql_segment <$> segments_loop false [] (trim name)).

Definition quote_mysql_qualified_name (name : str) : str :=
  join (u ".") (quote_mysql_identifier <$> mysql_qualified_name_segments name).

Definition quote_mysql_table (d : ResultEditDescriptor) : str :=
  quote_mysql_identifier (schema_name d) ++ u "." ++ quote_mysql_identifier (table_name d).

(** ** Validation *)

Section Validation.
(** The text is one statement for the script splitter, and no tool command. *)
Variable is_one_statement : str -> DatabaseType -> bool.

Definition validate_result_edit_expression (expression : str) (db_type : DatabaseType) : Result str :=
  let normalized := trim expression in
  if str_is_empty normalized then inr (u "SQL expression after '=' cannot be empty.")
  else if str_contains normalized (u ";") || str_contains normalized (u "--")
          || str_contains normalized (u "/*") || str_contains normalized (u "*/")
          || result_edit_expression_has_top_level_comma normalized
          || (hash_starts_line_comment (result_edit_backend_policy db_type) && str_contains normalized (u "#"))
  then inr (u "SQL expression cannot contain statement/comment delimiters or a top-level comma.")
  else if negb (is_one_statement normalized db_type)
  then inr (u "SQL expression must contain exactly one expression.")
  else inl normalized.

Definition validate_locator_count (d : ResultEditDescriptor) (values : list ResultEditScalar) : Result () :=
  if negb (length values =? length (locator_columns d)) || existsb is_null values
  then inr (u "The result edit row locator is invalid.") else inl ().

(** [seen.insert(name)] of a name that is allowed, or the message. *)
Definition see_name (message : string) (allowed : gset str) (name : str) (seen : gset str) : Result (gset str) :=
  let normalized := ascii_lower name in
  if bool_decide (normalized ∈ allowed) && negb (bool_decide (normalized ∈ seen))
  then inl ({[normalized]} ∪ seen) else inr (u message).

Definition validate_named_values (values : list ResultEditOriginalValue) (allowed : gset str) : Result () :=
  try _ <- for_each (fun value =>
             see_name "The result edit contains an invalid original-value column." allowed (original_column value))
             values ∅;
  inl ().

Definition validate_assignments (assignments : list ResultEditAssignment) (allowed : gset str)
    (db_type : DatabaseType) : Result () :=
  try _ <- for_each (fun assignment seen =>
             try seen <- see_name "The result edit contains an invalid assignment column." allowed
                           (assigned_column assignment) seen;
             match assigned_value assignment with
             | Edit_Expression expression =>
                 try _ <- validate_result_edit_expression expression db_type; inl seen
             | _ => inl seen
             end)
             assignments ∅;
  inl ().

Definition lower_names (names : list str) : gset str := list_to_set (ascii_lower <$> names).

(** [seen_locators.insert(..)] or the message. *)
Definition see_locator (values : list ResultEditScalar) (seen : list (list ResultEditScalar))
    : Result (list (list ResultEditScalar)) :=
  if bool_decide (values ∈ seen) then inr (u "A result edit contains the same row locator twice.")
  else inl (values :: seen).

Definition validate_mutation (d : ResultEditDescriptor) (allowed : gset str) (mutation : ResultEditMutation)
    (seen_locators : list (list ResultEditScalar)) : Result (list (list ResultEditScalar)) :=
  match mutation with
  | Mutation_Update locator originals assignments =>
      try _ <- validate_locator_count d locator;
      try _ <- validate_named_values originals allowed;
      try _ <- validate_assignments assignments allowed (db_type d);
      if bool_decide (assignments = []) then inr (u "An UPDATE edit has no assignments.")
      else
        let original_columns := lower_names (original_column <$> originals) in
        if negb (length assignments =? size original_columns)
           || existsb (fun a => negb (bool_decide (ascii_lower (assigned_column a) ∈ original_columns))) assignments
        then inr (u "Every UPDATE assignment requires its exact original value.")
        else see_locator locator seen_locators
  | Mutation_Delete locator originals =>
      try _ <- validate_locator_count d locator;
      try _ <- validate_named_values originals allowed;
      if negb (length originals =? size allowed)
      then inr (u "A DELETE edit must verify every displayed source column.")
      else see_locator locator seen_locators
  | Mutation_Insert assignments =>
      try _ <- validate_assignments assignments allowed (db_type d);
      if bool_decide (assignments = []) then inr (u "An INSERT edit has no assignments.") else inl seen_locators
  end.

Definition validate_request_shape (request : ResultEditRequest) : Result () :=
  let d := descriptor request in
  if str_is_empty (schema_name d) || str_is_empty (table_name d)
     || bool_decide (locator_columns d = []) || bool_decide (length (editable_columns d) = 0)
  then inr (u "The result edit descriptor is incomplete.")
  else if bool_decide (length (mutations request) = 0) then inr (u "The result edit contains no mutations.")
  else
    let allowed_columns := lower_names (source_name <$> editable_columns d) in
    let locators := lower_names (locator_columns d) in
    if negb (size allowed_columns =? length (editable_columns d)) || bool_decide ([] ∈ allowed_columns)
       || negb (size locators =? length (locator_columns d)) || bool_decide ([] ∈ locators)
    then inr (u "The result edit descriptor contains duplicate or empty columns.")
    else
      try _ <- for_each (validate_mutation d allowed_columns) (mutations request) []; inl ().

(** ** Statements *)

Definition mysql_locator_predicate (d : ResultEditDescriptor) : str :=
  join (u " AND ") ((fun column => quote_mysql_identifier column ++ u " <=> ?") <$> locator_columns d).

(** What is written for a value, and its parameter. *)
Definition value_sql (value : ResultEditValue) (db_type : DatabaseType) : Result (str * list Value) :=
  match value with
  | Edit_Text text => inl (u "?", [Value_Bytes (encode_str text)])
  | Edit_Null => inl (u "NULL", [])
  | Edit_Expression expression =>
      try sql <- validate_result_edit_expression expression db_type; inl (sql, [])
  end.

Definition mysql_assignments (assignments : list ResultEditAssignment) (db_type : DatabaseType)
    : Result (str * list Value) :=
  try parts <- collect (fun assignment =>
                 try value <- value_sql (assigned_value assignment) db_type;
                 inl (quote_mysql_identifier (assigned_column assignment) ++ u " = " ++ fst value, snd value))
                 assignments;
  inl (join (u ", ") (fst <$> parts), concat (snd <$> parts)).

(** The statement of a mutation and its parameters. *)
Definition mutation_statement (d : ResultEditDescriptor) (mutation : ResultEditMutation)
    : Result (str * list Value) :=
  match mutation with
  | Mutation_Update locator _ assignments =>
      try set <- mysql_assignments assignments (db_type d);
      inl (u "UPDATE " ++ quote_mysql_table d ++ u " SET " ++ fst set ++ u " WHERE "
             ++ mysql_locator_predicate d ++ u " LIMIT 1",
           snd set ++ (to_mysql_value <$> locator))
  | Mutation_Delete locator _ =>
      inl (u "DELETE FROM " ++ quote_mysql_table d ++ u " WHERE " ++ mysql_locator_predicate d ++ u " LIMIT 1",
           to_mysql_value <$> locator)
  | Mutation_Insert assignments =>
      try parts <- collect (fun assignment => value_sql (assigned_value assignment) (db_type d)) assignments;
      inl (u "INSERT INTO " ++ quote_mysql_table d ++ u " ("
             ++ join (u ", ") ((fun a => quote_mysql_identifier (assigned_column a)) <$> assignments)
             ++ u ") VALUES (" ++ join (u ", ") (fst <$> parts) ++ u ")",
           concat (snd <$> parts))
  end.

(** The locator and the original values of a mutation of an existing row. *)
Definition existing_row (mutation : ResultEditMutation)
    : option (list ResultEditScalar * list ResultEditOriginalValue) :=
  match mutation with
  | Mutation_Update locator originals _ | Mutation_Delete locator originals => Some (locator, originals)
  | Mutation_Insert _ => None
  end.

(** The columns that are read back to be compared; the locator columns of a
    validated request are not empty. *)
Definition projected_columns (d : ResultEditDescriptor) (originals : list ResultEditOriginalValue) : list str :=
  if bool_decide (length originals = 0) then [default [] (locator_columns d !! 0)]
  else original_column <$> originals.

Definition lock_statement (d : ResultEditDescriptor) (originals : list ResultEditOriginalValue) : str :=
  u "SELECT " ++ join (u ", ") (quote_mysql_identifier <$> projected_columns d originals)
  ++ u " FROM " ++ quote_mysql_table d ++ u " WHERE " ++ mysql_locator_predicate d ++ u " LIMIT 2 FOR UPDATE".
End Validation.

(** ** Oracle *)

Definition guarded_statement (statement : str) : str :=
  let statement := trim (trim_end_char ";"%ch (trim statement)) in
  statement ++ u ";" ++ [10%N] ++ u "IF SQL%ROWCOUNT <> 1 THEN" ++ [10%N]
  ++ u "  RAISE_APPLICATION_ERROR(-20001, 'Result edit conflict: expected exactly one row');" ++ [10%N]
  ++ u "END IF;".

Definition compile_oracle_guarded_result_edit (statements : list str) : Result str :=
  if bool_decide (statements = []) then inr (u "The Oracle result edit contains no mutations.")
  else
    inl (u "BEGIN" ++ [10%N] ++ u "SAVEPOINT SQ_RESULT_EDIT;" ++ [10%N]
         ++ join [10%N] (guarded_statement <$> statements) ++ [10%N]
         ++ u "EXCEPTION" ++ [10%N] ++ u "  WHEN OTHERS THEN" ++ [10%N]
         ++ u "    ROLLBACK TO SQ_RESULT_EDIT;" ++ [10%N] ++ u "    RAISE;" ++ [10%N] ++ u "END;").
