(* ===== verification/EditValid.v ===== *)
(** * Result edits: requests and names

    Validation of a request is exactly its specification; quoted names read back and
    the locator is the least usable key. *)
From stdpp Require Import gmap.
From Stdlib Require Import Sorted.
From S2P Require Import Prelude RustStr SessionPolicy TotalOrder RustParse ResultEdit EditStatements.

(** * Which result edits pass validation

    [validate_request_shape] against the statement of what a valid request is. *)

(** ** Loops over names *)

Section Names.
Context {A : Type} (name : A -> str) (good : A -> Prop).
Context (f : A -> gset str -> gset str + str) (allowed : gset str).
Context (Hf : forall x s, (exists s', f x s = inl s') <->
  (ascii_lower (name x) ∈ allowed /\ ascii_lower (name x) ∉ s) /\ good x).
Context (Hn : forall x s s', f x s = inl s' -> s' = {[ascii_lower (name x)]} ∪ s).

Lemma names_loop l :
  (exists s', for_each f l ∅ = inl s') <->
  NoDup ((ascii_lower ∘ name) <$> l) /\ (forall x, x ∈ l -> ascii_lower (name x) ∈ allowed /\ good x).
Proof.
  assert (Hgen : forall s, (exists s', for_each f l s = inl s') <->
    NoDup ((ascii_lower ∘ name) <$> l)
    /\ (forall x, x ∈ l -> (ascii_lower (name x) ∈ allowed /\ ascii_lower (name x) ∉ s) /\ good x)).
  { induction l as [|x l' IH]; intros s; [split; [split; [constructor|by intros ? ?%elem_of_nil]|by eexists]|].
    cbn [for_each fmap list_fmap]. rewrite (NoDup_cons (ascii_lower (name x))).
    assert ((exists s', and_then (f x s) (fun s' => for_each f l' s') = inl s')
            <-> (exists s', f x s = inl s') /\ exists s', for_each f l' ({[ascii_lower (name x)]} ∪ s) = inl s') as ->.
    { destruct (f x s) as [s1|e] eqn:E; cbn.
      - apply Hn in E. subst. split; [by eauto|by intros [_ ?]].
      - split; [by intros [? ?]|by intros [[? ?] _]]. }
    rewrite Hf, IH. split.
    - intros [[[H1 H2] H3] [H4 H5]]. split; [split; [|done]|].
      + intros (y & Hy & Hin)%list_elem_of_fmap. apply H5 in Hin as [[_ Hin] _]. cbn in Hy. set_solver.
      + intros y [->|Hy]%elem_of_cons; [done|]. apply H5 in Hy as [[? ?] ?]. set_solver.
    - intros [[H1 H2] H3]. split; [by apply H3; left|]. split; [done|].
      intros y Hy. destruct (H3 y) as [[? ?] ?]; [by right|]. split; [split; [done|]|done].
      rewrite elem_of_union, elem_of_singleton. intros [Heq|?]; [|done].
      apply H1. rewrite <- Heq. by apply (list_elem_of_fmap_2 (ascii_lower ∘ name)). }
  rewrite Hgen. set_solver.
Qed.
End Names.

Lemma see_name_ok message allowed name seen :
  (exists s', see_name message allowed name seen = inl s')
  <-> ascii_lower name ∈ allowed /\ ascii_lower name ∉ seen.
Proof.
  unfold see_name. repeat case_bool_decide; cbn; split; intros H'; try done; try by eexists.
  all: try (by destruct H'); by destruct H' as [? [=]].
Qed.

Lemma see_name_next message allowed name seen s' :
  see_name message allowed name seen = inl s' -> s' = {[ascii_lower name]} ∪ seen.
Proof. unfold see_name. destruct (_ && _); [by intros [= <-]|done]. Qed.

Lemma and_then_ok {A B E} (r : A + E) (b : B) (P : Prop) :
  ((exists a, r = inl a) <-> P) -> (and_then r (fun _ => inl b) = inl b <-> P).
Proof. intros <-. destruct r; cbn; split; [by eexists|done|done|by intros [? ?]]. Qed.

Lemma lower_names_spec names name : name ∈ lower_names names <-> exists n, name = ascii_lower n /\ n ∈ names.
Proof. unfold lower_names. rewrite elem_of_list_to_set. by rewrite list_elem_of_fmap. Qed.

Lemma lower_names_empty names : [] ∉ lower_names names <-> [] ∉ names.
Proof.
  rewrite lower_names_spec. split; intros H Hin; apply H.
  - by exists [].
  - destruct Hin as (n & En & Hn). by destruct n.
Qed.

Lemma size_lower_names names : size (lower_names names) = length names <-> NoDup (ascii_lower <$> names).
Proof.
  unfold lower_names. rewrite <- (length_fmap ascii_lower names). generalize (ascii_lower <$> names). clear.
  intros l. split; [|apply size_list_to_set].
  induction l as [|x l IH]; intros H; [constructor|]. cbn in H.
  destruct (decide (x ∈ l)) as [Hx|Hx].
  - exfalso. rewrite subseteq_union_1_L in H by set_solver.
    assert (size (list_to_set l : gset str) <= length l); [|lia].
    clear. induction l as [|x l IH]; [done|]. cbn. rewrite size_union_alt.
    assert (size ((list_to_set l : gset str) ∖ {[x]}) <= size (list_to_set l : gset str)) by (apply subseteq_size; set_solver).
    rewrite size_singleton. cbn. lia.
  - constructor; [done|]. apply IH. rewrite size_union, size_singleton in H by set_solver. cbn in H. lia.
Qed.

Lemma fmap_all {A B} (f : A -> B) (l : list A) (P : B -> Prop) : (forall n, n ∈ f <$> l -> P n) <-> forall x, x ∈ l -> P (f x).
Proof.
  split; [intros H x Hx; apply H; by apply list_elem_of_fmap_2|].
  intros H n (x & -> & Hx)%list_elem_of_fmap. by apply H.
Qed.

(** ** Valid requests *)

Section Valid.
Variable is_one_statement : str -> DatabaseType -> bool.

Definition valid_locator (d : ResultEditDescriptor) (values : list ResultEditScalar) : Prop :=
  length values = length (locator_columns d) /\ Scalar_Null ∉ values.

(** An expression the statement can carry. *)
Definition valid_value (d : ResultEditDescriptor) (value : ResultEditValue) : Prop :=
  match value with
  | Edit_Expression expression =>
      exists sql, validate_result_edit_expression is_one_statement expression (db_type d) = inl sql
  | _ => True
  end.

Definition lower_editable (d : ResultEditDescriptor) : list str := (ascii_lower ∘ source_name) <$> editable_columns d.
Definition lower_assigned (l : list ResultEditAssignment) : list str := (ascii_lower ∘ assigned_column) <$> l.
Definition lower_originals (l : list ResultEditOriginalValue) : list str := (ascii_lower ∘ original_column) <$> l.

(** Distinct columns the grid may edit. *)
Definition valid_columns (d : ResultEditDescriptor) (columns : list str) : Prop :=
  NoDup columns /\ columns ⊆ lower_editable d.

Definition valid_assignments (d : ResultEditDescriptor) (l : list ResultEditAssignment) : Prop :=
  l <> [] /\ valid_columns d (lower_assigned l) /\ Forall (fun a => valid_value d (assigned_value a)) l.

(** An update says what was shown in exactly the columns it assigns, a deletion
    in all the columns there are. *)
Definition valid_mutation (d : ResultEditDescriptor) (mutation : ResultEditMutation) : Prop :=
  match mutation with
  | Mutation_Update locator originals assignments =>
      valid_locator d locator /\ valid_assignments d assignments
      /\ lower_originals originals ≡ₚ lower_assigned assignments
  | Mutation_Delete locator originals =>
      valid_locator d locator /\ lower_originals originals ≡ₚ lower_editable d
  | Mutation_Insert assignments => valid_assignments d assignments
  end.

Definition valid_descriptor (d : ResultEditDescriptor) : Prop :=
  schema_name d <> [] /\ table_name d <> []
  /\ locator_columns d <> [] /\ NoDup (ascii_lower <$> locator_columns d) /\ ([] ∉ locator_columns d)
  /\ editable_columns d <> [] /\ NoDup (lower_editable d) /\ ([] ∉ lower_editable d).

Definition valid_request (request : ResultEditRequest) : Prop :=
  let d := descriptor request in
  valid_descriptor d /\ mutations request <> [] /\ Forall (valid_mutation d) (mutations request)
  /\ NoDup (fst <$> (omap existing_row (mutations request))).
Lemma locator_valid d values : validate_locator_count d values = inl () <-> valid_locator d values.
Proof.
  unfold validate_locator_count, valid_locator.
  destruct (Nat.eqb_spec (length values) (length (locator_columns d))); cbn; [|by split; [|intros [? _]]].
  destruct (existsb is_null values) eqn:E; cbn.
  - apply existsb_exists in E as (v & Hv & En). apply list_elem_of_In in Hv. destruct v; try done.
    by split; [|intros [_ ?]].
  - split; [|done]. intros _. split; [done|]. intros Hv%list_elem_of_In.
    assert (existsb is_null values = true); [|congruence]. apply existsb_exists. by exists Scalar_Null.
Qed.

Section Descriptor.
Context (d : ResultEditDescriptor).
Let allowed : gset str := lower_names (source_name <$> editable_columns d).

Lemma allowed_spec name : name ∈ allowed <-> name ∈ lower_editable d.
Proof.
  unfold allowed, lower_names, lower_editable. by rewrite elem_of_list_to_set, list_fmap_compose.
Qed.

Lemma originals_valid originals :
  validate_named_values originals allowed = inl () <-> valid_columns d (lower_originals originals).
Proof.
  unfold validate_named_values. apply and_then_ok.
  rewrite (names_loop original_column (fun _ => True)).
  - unfold valid_columns, lower_originals. unfold subseteq, list_subseteq.
    rewrite fmap_all. setoid_rewrite allowed_spec. split; (intros [? H]; split; [done|]).
    + intros x Hx. by apply H.
    + intros x Hx. split; [by apply H|done].
  - intros x s. rewrite see_name_ok. tauto.
  - intros x s s'. apply see_name_next.
Qed.

Lemma assignments_valid assignments :
  validate_assignments is_one_statement assignments allowed (db_type d) = inl ()
  <-> valid_columns d (lower_assigned assignments) /\ Forall (fun a => valid_value d (assigned_value a)) assignments.
Proof.
  unfold validate_assignments. apply and_then_ok.
  rewrite (names_loop assigned_column (fun a => valid_value d (assigned_value a))).
  - unfold valid_columns, lower_assigned. rewrite Forall_forall. unfold subseteq, list_subseteq.
    rewrite fmap_all. setoid_rewrite allowed_spec. split.
    + intros [? H]. split; [split; [done|]|]; intros x Hx; by apply H.
    + intros [[? H] Hv]. split; [done|]. intros x Hx. split; [by apply H|by apply Hv].
  - intros x s. rewrite <- (see_name_ok "The result edit contains an invalid assignment column.").
    destruct (see_name _ _ _ _) as [s1|]; cbn; [|by split; [intros [? ?]|intros [[? ?] _]]].
    destruct (assigned_value x); cbn; try (split; [by eauto|by eexists]).
    destruct (validate_result_edit_expression _ _ _); cbn; split; eauto; [by intros [? ?]|by intros [_ [? ?]]].
  - intros x s s'. destruct (see_name _ _ _ _) as [s1|] eqn:E; [|done]. apply see_name_next in E as ->.
    cbn. destruct (assigned_value x); try by intros [= <-].
    destruct (validate_result_edit_expression _ _ _); [by intros [= <-]|done].
Qed.
(** Two duplicate-free lists of one length, one inside the other. *)
Lemma inside_perm (l l' : list str) : NoDup l -> NoDup l' -> l ⊆ l' -> length l = length l' -> l ≡ₚ l'.
Proof.
  intros Hl Hl' Hs Hlen. apply submseteq_length_Permutation; [|lia].
  apply NoDup_submseteq; [done|]. intros x. apply Hs.
Qed.

Lemma try_ok {A} (r : () + str) (k : () -> A + str) :
  (exists s, and_then r k = inl s) <-> r = inl () /\ exists s, k () = inl s.
Proof. destruct r as [[]|e]; cbn; split; [by split|by intros [_ ?]|by intros [? ?]|by intros [? _]]. Qed.

Lemma if_ok {A} (b : bool) (e : str) (r : A + str) :
  (exists s, (if b then inr e else r) = inl s) <-> b = false /\ exists s, r = inl s.
Proof. destruct b; split; [by intros [? ?]|by intros [? _]|by split|by intros [_ ?]]. Qed.

Lemma see_locator_ok locator seen (o : list ResultEditOriginalValue) :
  (exists seen', see_locator locator seen = inl seen')
  <-> (forall row, Some (locator, o) = Some row -> fst row ∉ seen).
Proof.
  unfold see_locator. case_bool_decide as Hin; split.
  - by intros [? ?].
  - intros H. by destruct (H _ eq_refl).
  - by intros _ row [= <-].
  - by eexists.
Qed.

(** The names of the originals, as the code counts them. *)
Lemma originals_names originals :
  lower_names (original_column <$> originals) = list_to_set (lower_originals originals)
  /\ (NoDup (lower_originals originals) ->
      size (lower_names (original_column <$> originals)) = length originals).
Proof.
  unfold lower_originals. rewrite list_fmap_compose. split; [done|]. intros H.
  rewrite (proj2 (size_lower_names _)), length_fmap; done.
Qed.

Lemma exact_columns originals assignments :
  valid_columns d (lower_originals originals) -> valid_columns d (lower_assigned assignments) ->
  (length assignments =? size (lower_names (original_column <$> originals))) = true
  /\ existsb (fun a => negb (bool_decide
       (ascii_lower (assigned_column a) ∈ lower_names (original_column <$> originals)))) assignments = false
  <-> lower_originals originals ≡ₚ lower_assigned assignments.
Proof.
  intros [Ho _] [Ha _]. destruct (originals_names originals) as [-> Hs]. rewrite Nat.eqb_eq, Hs by done. split.
  - intros [Hlen Hin]. symmetry. apply inside_perm; [done|done| |by unfold lower_assigned, lower_originals; rewrite !length_fmap].
    intros x (a & -> & Hx)%list_elem_of_fmap.
    destruct (decide (ascii_lower (assigned_column a) ∈ lower_originals originals)) as [?|Hn]; [done|exfalso].
    apply not_true_iff_false in Hin. apply Hin, existsb_exists. exists a. split; [by apply list_elem_of_In|].
    rewrite bool_decide_false; [done|]. by rewrite elem_of_list_to_set.
  - intros Hp. split.
    + apply Permutation_length in Hp. unfold lower_assigned, lower_originals in Hp. by rewrite !length_fmap in Hp.
    + apply not_true_is_false. intros (a & Hx & Hn)%existsb_exists.
      apply list_elem_of_In in Hx. rewrite bool_decide_true in Hn; [done|].
      rewrite elem_of_list_to_set, Hp. by apply (list_elem_of_fmap_2 (ascii_lower ∘ assigned_column)).
Qed.

Lemma mutation_valid mutation seen :
  NoDup (lower_editable d) ->
  (exists seen', validate_mutation is_one_statement d allowed mutation seen = inl seen')
  <-> valid_mutation d mutation /\ (forall row, existing_row mutation = Some row -> fst row ∉ seen).
Proof.
  intros Hd. destruct mutation as [locator originals assignments|locator originals|assignments];
    cbn [validate_mutation existing_row valid_mutation].
  - rewrite !try_ok, !if_ok, locator_valid, originals_valid, assignments_valid, see_locator_ok with (o := originals).
    rewrite bool_decide_eq_false, orb_false_iff, negb_false_iff. unfold valid_assignments. split.
    + intros (Hl & Ho & [Ha Hv] & Hne & Hx & Hs). apply exact_columns in Hx; [by auto|done|done].
    + intros [(Hl & (Hne & Ha & Hv) & Hp) Hs].
      assert (valid_columns d (lower_originals originals)) as Ho.
      { destruct Ha as [Hn Hi]. split; [by rewrite Hp|]. intros x. rewrite Hp. apply Hi. }
      do 4 (split; [by auto|]). split; [by apply exact_columns|done].
  - rewrite !try_ok, !if_ok, locator_valid, originals_valid, see_locator_ok with (o := originals).
    rewrite negb_false_iff, Nat.eqb_eq.
    assert (size allowed = length (lower_editable d)) as ->.
    { unfold allowed, lower_editable. rewrite length_fmap, <- (length_fmap source_name). apply size_lower_names.
      by rewrite <- list_fmap_compose. }
    split.
    + intros (Hl & [Ho Hi] & Hlen & Hs). split; [|done]. split; [done|].
      apply inside_perm; try done. unfold lower_originals. by rewrite length_fmap.
    + intros [[Hl Hp] Hs]. split; [done|]. split.
      * split; [by rewrite Hp|]. intros x. by rewrite Hp.
      * split; [|done]. apply Permutation_length in Hp. unfold lower_originals in Hp. by rewrite length_fmap in Hp.
  - rewrite !try_ok, !if_ok, assignments_valid, bool_decide_eq_false. unfold valid_assignments. split.
    + intros ([Ha Hv] & Hne & _). by split.
    + intros [(Hne & Ha & Hv) _]. split; [done|]. split; [done|by eexists].
Qed.
(** The locators validation has seen. *)
Lemma mutation_seen mutation seen seen' :
  validate_mutation is_one_statement d allowed mutation seen = inl seen' ->
  seen' = match existing_row mutation with Some row => fst row :: seen | None => seen end.
Proof.
  assert (Hs : forall locator, see_locator locator seen = inl seen' -> seen' = locator :: seen).
  { intros locator. unfold see_locator. case_bool_decide; [done|by intros [= <-]]. }
  destruct mutation; cbn;
    repeat match goal with |- context [and_then ?r _] => destruct r; cbn; [|done] end;
    repeat match goal with |- context [if ?b then _ else _] => destruct b; [done|] end;
    by first [apply Hs|intros [= <-]].
Qed.

Let check := validate_mutation is_one_statement d allowed.

Lemma mutations_valid l :
  NoDup (lower_editable d) ->
  (exists seen, for_each check l [] = inl seen)
  <-> Forall (valid_mutation d) l /\ NoDup (fst <$> (omap existing_row l)).
Proof.
  intros Hd.
  assert (Hgen : forall seen,
    (exists s', for_each check l seen = inl s')
    <-> Forall (valid_mutation d) l /\ NoDup (fst <$> (omap existing_row l))
        /\ forall x, x ∈ fst <$> (omap existing_row l) -> x ∉ seen).
  2:{ rewrite Hgen. split; [by intros (? & ? & _)|]. intros [? ?]. split_and!; try done. by intros ? _ ?%elem_of_nil. }
  induction l as [|m l IH]; intros seen.
  { split; [|by eexists]. intros _. split_and!; [constructor|constructor|]. by intros ? ?%elem_of_nil. }
  cbn [for_each]. rewrite Forall_cons.
  set (rest := match existing_row m with Some row => fst row :: seen | None => seen end).
  assert ((exists s', and_then (check m seen)
                        (fun s' => for_each check l s') = inl s')
    <-> (exists s', check m seen = inl s')
        /\ exists s', for_each check l rest = inl s') as ->.
  { destruct (check m seen) as [s1|e] eqn:E; cbn.
    - apply mutation_seen in E. subst s1. fold rest. split; [by eauto|by intros [_ ?]].
    - split; [by intros [? ?]|by intros [[? ?] _]]. }
  unfold check at 1. rewrite mutation_valid, IH by done. subst rest. cbn [omap list_omap].
  destruct (existing_row m) as [row|]; cbn [fmap list_fmap].
  - rewrite NoDup_cons. split.
    + intros [[Hm Hrow] (Hl & Hn & Hx)]. split_and!; try done.
      * intros Hin. apply Hx in Hin. set_solver.
      * intros x [->|Hin]%elem_of_cons; [by apply Hrow|]. apply Hx in Hin. set_solver.
    + intros ([Hm Hl] & [Hr Hn] & Hx). split_and!; try done.
      * intros row' [= <-]. apply Hx. by left.
      * intros x Hin [->|Hs]%elem_of_cons; [done|]. apply (Hx x); [by right|done].
  - split.
    + intros [[Hm _] (Hl & Hn & Hx)]. by split_and!.
    + intros ([Hm Hl] & Hn & Hx). by split_and!.
Qed.

End Descriptor.

(** C13. A request passes validation exactly if its descriptor names its parts without
    repetition, no two mutations are of one row, and every mutation has a complete
    locator, assigns distinct editable columns values that can be written, and says
    what was shown of exactly the columns it assigns, or, to delete, of all. *)
Theorem request_validation_is_exact request :
  validate_request_shape is_one_statement request = inl () <-> valid_request request.
Proof.
  unfold validate_request_shape, valid_request, valid_descriptor.
  set (d := descriptor request).
  assert (Hempty : forall s : str, str_is_empty s = false <-> s <> []) by (by intros []).
  assert (forall r : () + str, r = inl () <-> exists s, r = inl s) as -> by (intros r; split; [by eexists|by intros [[] ?]]).
  rewrite !if_ok, !orb_false_iff, !negb_false_iff, !bool_decide_eq_false, !Nat.eqb_eq, !Hempty.
  assert (Hlen : forall A (l : list A), length l <> 0 <-> l <> []) by (intros A []; cbn; split; congruence).
  assert (Hend : forall (r : list (list ResultEditScalar) + str),
    (exists s : (), and_then r (fun _ => inl ()) = inl s) <-> exists s, r = inl s).
  { intros [s|e]; split; [by eexists|by eexists|by intros [? ?]|by intros [? ?]]. }
  rewrite !Hlen, Hend, (allowed_spec d), lower_names_empty, (size_lower_names (locator_columns d)).
  rewrite <- (length_fmap source_name), size_lower_names, <- list_fmap_compose.
  fold (lower_editable d). pose proof (mutations_valid d (mutations request)). tauto.
Qed.
End Valid.

(** * Names in result edits

    Quoting a qualified name and reading it back; which unique key is chosen to
    find rows again, and that it is accepted when it is checked. *)

(** ** Quoting *)

Abbreviation escape := (str_replace (u "`") (u "``")).

Lemma escape_cons c n : escape (c :: n) = (if N.eqb c "`"%ch then u "``" else [c]) ++ escape n.
Proof. change (u "`") with ["`"%ch]. apply replace_char_cons. Qed.

Lemma escape_back n : str_replace (u "``") (u "`") (escape n) = n.
Proof.
  change (u "``") with ["`"%ch; "`"%ch]. change (u "`") with ["`"%ch]. unfold str_replace in *.
  induction n as [|c n IH]; [done|]. pose proof (escape_cons c n) as E. unfold str_replace in E.
  change (u "``") with ["`"%ch; "`"%ch] in E. change (u "`") with ["`"%ch] in E. rewrite E. clear E.
  destruct (N.eqb_spec c "`"%ch) as [->|Hc]; cbn [app replace_from starts_with length Nat.sub].
  - rewrite starts_with_nil. by f_equal.
  - apply N.eqb_neq in Hc. rewrite (N.eqb_sym "`"%ch c), Hc. cbn. by f_equal.
Qed.

Lemma trim_quoted x : trim (u "`" ++ x ++ u "`") = u "`" ++ x ++ u "`".
Proof. by apply trim_between. Qed.

Lemma unquote_quoted n : unquote_mysql_segment (quote_mysql_identifier n) = n.
Proof.
  unfold unquote_mysql_segment, quote_mysql_identifier. rewrite trim_quoted. unfold strip_prefix.
  change (u "`" ++ escape n ++ u "`") with (["`"%ch] ++ escape n ++ ["`"%ch]).
  change (starts_with _ (u "`")) with (starts_with (escape n ++ ["`"%ch]) []). rewrite starts_with_nil.
  change (drop _ _) with (escape n ++ ["`"%ch]). cbn [mbind option_bind].
  change (u "`") with ["`"%ch] at 2. rewrite strip_suffix_snoc. apply escape_back.
Qed.

(** Inside quotes the loop runs to the quote that closes. *)
Lemma segments_quoted n rest segment :
  rest = [] \/ (exists rest', rest = "."%ch :: rest') ->
  segments_loop true segment (escape n ++ u "`" ++ rest) = segments_loop false (segment ++ escape n ++ u "`") rest.
Proof.
  intros Hrest. revert segment. induction n as [|c n IH]; intros segment.
  - change (u "`") with ["`"%ch]. cbn. destruct Hrest as [->|[rest' ->]]; done.
  - rewrite escape_cons. destruct (N.eqb_spec c "`"%ch) as [->|Hc].
    + change (u "``") with ["`"%ch; "`"%ch]. cbn [app segments_loop].
      rewrite IH. by rewrite <- !app_assoc.
    + cbn [app segments_loop]. apply N.eqb_neq in Hc. rewrite Hc, andb_false_r, IH. unfold vec_push.
      by rewrite <- !app_assoc.
Qed.

Lemma segments_quoted_name n rest :
  rest = [] \/ (exists rest', rest = "."%ch :: rest') ->
  segments_loop false [] (quote_mysql_identifier n ++ rest) = segments_loop false (quote_mysql_identifier n) rest.
Proof.
  intros Hrest. unfold quote_mysql_identifier. rewrite <- !app_assoc.
  change (u "`" ++ escape n ++ u "`" ++ rest) with ("`"%ch :: (escape n ++ u "`" ++ rest)).
  cbn [segments_loop]. change (N.eqb "`"%ch "`"%ch) with true. cbv iota. by rewrite segments_quoted.
Qed.

Lemma segments_joined names :
  names <> [] ->
  segments_loop false [] (join (u ".") (quote_mysql_identifier <$> names)) = quote_mysql_identifier <$> names.
Proof.
  induction names as [|n names IH]; intros H; [done|]. destruct names as [|n' names].
  - cbn [fmap list_fmap join]. rewrite <- (app_nil_r (quote_mysql_identifier n)) at 1.
    rewrite segments_quoted_name by auto. done.
  - change (join (u ".") (quote_mysql_identifier <$> n :: n' :: names))
      with (quote_mysql_identifier n ++ "."%ch :: join (u ".") (quote_mysql_identifier <$> n' :: names)).
    rewrite segments_quoted_name by (right; by eexists). cbn [segments_loop].
    change (N.eqb "."%ch "`"%ch) with false. change (N.eqb "."%ch "."%ch) with true. cbn [andb negb].
    rewrite IH by done. done.
Qed.

Lemma joined_shape names : names <> [] -> exists x, join (u ".") (quote_mysql_identifier <$> names) = u "`" ++ x ++ u "`".
Proof.
  induction names as [|n names IH]; intros H; [done|]. destruct names as [|n' names].
  - by exists (escape n).
  - destruct IH as [x Hx]; [done|]. exists (escape n ++ u "`" ++ u "." ++ u "`" ++ x).
    change (join (u ".") (quote_mysql_identifier <$> n :: n' :: names))
      with (quote_mysql_identifier n ++ u "." ++ join (u ".") (quote_mysql_identifier <$> n' :: names)).
    rewrite Hx. unfold quote_mysql_identifier. by rewrite <- !app_assoc.
Qed.

Definition blank (name : str) : bool := str_is_empty (trim name).

Lemma segments_of_quoted names :
  mysql_qualified_name_segments (join (u ".") (quote_mysql_identifier <$> names))
  = List.filter (fun n => negb (blank n)) names.
Proof.
  unfold mysql_qualified_name_segments. destruct (decide (names = [])) as [->|H]; [done|].
  destruct (joined_shape names H) as [x Hx]. rewrite Hx, trim_quoted, <- Hx, segments_joined by done.
  rewrite <- list_fmap_compose. f_equal. clear. induction names as [|n names IH]; [done|].
  cbn. by rewrite unquote_quoted, IH.
Qed.

Lemma filter_all {A} (p : A -> bool) l : (forall x, x ∈ l -> p x = true) -> List.filter p l = l.
Proof.
  induction l as [|x l IH]; intros H; [done|]. cbn. rewrite (H x) by left. f_equal. apply IH. intros y Hy. apply H. by right.
Qed.

(** C32. Names that are not blank are read back from the path they are quoted into,
    whatever dots and backticks they have; and quoting a name, whatever it is,
    quoted, in part or not, changes neither what it names nor, a second time, the
    text. *)
Theorem quoted_path_reads_back :
  (forall names, (forall n, n ∈ names -> blank n = false) ->
     mysql_qualified_name_segments (join (u ".") (quote_mysql_identifier <$> names)) = names)
  /\ (forall name, mysql_qualified_name_segments (quote_mysql_qualified_name name) = mysql_qualified_name_segments name)
  /\ (forall name, quote_mysql_qualified_name (quote_mysql_qualified_name name) = quote_mysql_qualified_name name).
Proof.
  assert (H1 : forall names, (forall n, n ∈ names -> blank n = false) ->
     mysql_qualified_name_segments (join (u ".") (quote_mysql_identifier <$> names)) = names).
  { intros names H. rewrite segments_of_quoted. apply filter_all. intros n Hn. by rewrite H. }
  assert (H2 : forall name, mysql_qualified_name_segments (quote_mysql_qualified_name name) = mysql_qualified_name_segments name).
  { intros name. apply H1. intros n Hn. unfold mysql_qualified_name_segments in Hn.
    apply list_elem_of_In, filter_In in Hn as [_ Hn]. by apply negb_true_iff in Hn. }
  split; [done|]. split; [done|]. intros name. unfold quote_mysql_qualified_name at 1 3. by rewrite H2.
Qed.

(** ** Locators *)

Lemma name_cmp_eq l r : name_cmp l r = Eq <-> l = r.
Proof.
  unfold name_cmp. revert r. induction l as [|x l IH]; intros [|y r]; cbn; try done.
  destruct (N.compare_spec x y) as [->|H|H]; cbn; [rewrite IH; split; congruence| |];
    (split; [done|]; intros [= -> ->]; lia).
Qed.

#[export] Instance name_cmp_total : TotalCmp name_cmp.
Proof. unfold name_cmp. apply _. Qed.

Definition columns_of (name : str) (columns : list MysqlUniqueIndexColumn) : list MysqlUniqueIndexColumn :=
  List.filter (fun c => bool_decide (index_name c = name)) columns.

(** A [BTreeMap] of vectors: keys in order, no vector empty. *)
Definition entries_ok {V} (map : list (str * list V)) : Prop :=
  StronglySorted (fun x y => name_cmp x.1 y.1 = Lt) map /\ Forall (fun x => x.2 <> []) map.

Fixpoint group {V} (name : str) (map : list (str * list V)) : list V :=
  match map with
  | [] => []
  | (k, g) :: map => if bool_decide (k = name) then g else group name map
  end.

Lemma group_behind {V} name (map : list (str * list V)) :
  Forall (fun x => name_cmp name x.1 = Lt) map -> group name map = [].
Proof.
  induction 1 as [|[k g] map H _ IH]; [done|]. cbn in *. rewrite bool_decide_false; [done|].
  intros ->. by rewrite (cmp_refl name_cmp) in H.
Qed.

Lemma entries_elem {V} name (g : list V) map :
  entries_ok map -> (name, g) ∈ map <-> g = group name map /\ g <> [].
Proof.
  intros [Hs Hne]. induction map as [|[k g'] map IH].
  { split; [by intros ?%elem_of_nil|by intros [-> ?]]. }
  inversion Hs as [|? ? Hs' Hk]; subst. inversion Hne as [|? ? Hg Hne']; subst. specialize (IH Hs' Hne').
  rewrite elem_of_cons. cbn [group]. case_bool_decide as Hkn.
  - subst k. split.
    + intros [[= ->]|Hin]; [done|]. apply IH in Hin as [-> Hin]. by rewrite (group_behind name map Hk) in Hin.
    + intros [-> _]. by left.
  - rewrite <- IH. split; [intros [[= -> _]|?]; done|by right].
Qed.

Lemma entry_push_head {V} key (v : V) map x :
  x ∈ entry_push key v map -> x.1 = key \/ exists y, y ∈ map /\ y.1 = x.1.
Proof.
  induction map as [|[k g] map IH]; cbn; [intros ->%list_elem_of_singleton; by left|].
  destruct (name_cmp key k) eqn:E; rewrite elem_of_cons.
  - apply name_cmp_eq in E as <-. intros [->|H]; [by left|right]. exists x. split; [by right|done].
  - intros [->|H]; [by left|right]. by exists x.
  - intros [->|H]; [right; exists (k, g); split; [by left|done]|].
    destruct (IH H) as [?|(y & Hy & Hxy)]; [by left|right]. exists y. split; [by right|done].
Qed.

Lemma entry_push_ok {V} key (v : V) map : entries_ok map -> entries_ok (entry_push key v map).
Proof.
  intros [Hs Hne]. induction map as [|[k g] map IH]; [split; repeat constructor; done|].
  inversion Hs as [|? ? Hs' Hk]; subst. inversion Hne as [|? ? Hg Hne']; subst. cbn.
  destruct (name_cmp key k) eqn:E.
  - apply name_cmp_eq in E as <-. split; [by constructor|]. constructor; [|done]. by destruct g.
  - split; [|by constructor]. constructor; [done|]. constructor; [done|].
    eapply Forall_impl; [exact Hk|]. intros x Hx. cbn [fst] in Hx. apply (cmp_lt_trans name_cmp _ _ _ E). congruence.
  - destruct (IH Hs' Hne') as [Hs2 Hne2]. split; [|by constructor]. constructor; [done|].
    apply Forall_forall. intros x Hx. apply entry_push_head in Hx as [->|(y & Hy & <-)].
    + by apply (cmp_lt_gt name_cmp).
    + by apply (proj1 (Forall_forall _ _) Hk).
Qed.

Lemma entry_push_group {V} key (v : V) map name : entries_ok map ->
  group name (entry_push key v map) = group name map ++ if bool_decide (key = name) then [v] else [].
Proof.
  intros [Hs _]. induction map as [|[k g] map IH]; cbn; [by case_bool_decide|].
  inversion Hs as [|? ? Hs' Hk]; subst. destruct (name_cmp key k) eqn:E; cbn.
  - apply name_cmp_eq in E as <-. case_bool_decide; [done|]. by rewrite app_nil_r.
  - case_bool_decide as Hn; [|by rewrite app_nil_r]. subst name. rewrite bool_decide_false.
    + rewrite group_behind; [done|]. eapply Forall_impl; [exact Hk|]. intros x Hx.
      cbn [fst] in Hx. apply (cmp_lt_trans name_cmp _ _ _ E). congruence.
    + intros ->. by rewrite (cmp_refl name_cmp) in E.
  - rewrite IH by done. destruct (bool_decide_reflect (k = name)) as [->|]; [|done].
    rewrite bool_decide_false; [by rewrite app_nil_r|].
    intros ->. by rewrite (cmp_refl name_cmp) in E.
Qed.

Lemma by_index_elem columns name g :
  (name, g) ∈ by_index columns <-> g = columns_of name columns /\ g <> [].
Proof.
  unfold by_index.
  assert (Hgen : forall map, entries_ok map ->
    let map' := fold_left (fun m c => entry_push (index_name c) c m) columns map in
    entries_ok map' /\ group name map' = group name map ++ columns_of name columns).
  { induction columns as [|c columns IH]; intros map Hm; cbn; [by rewrite app_nil_r|].
    destruct (IH (entry_push (index_name c) c map)) as [Hok ->]; [by apply entry_push_ok|]. split; [done|].
    rewrite entry_push_group by done. rewrite <- app_assoc. f_equal. by case_bool_decide. }
  destruct (Hgen []) as [Hok Hg]; [split; constructor|]. rewrite entries_elem by done. by rewrite Hg.
Qed.

#[export] Instance bool_cmp_total : TotalCmp bool_cmp.
Proof. split; [by intros []|by intros [] []|by intros [] [] []]. Qed.

#[export] Instance nat_compare_total : TotalCmp Nat.compare.
Proof.
  split; [apply Nat.compare_refl|intros; apply Nat.compare_antisym|].
  intros x y z. rewrite !Nat.compare_gt_iff. lia.
Qed.

#[export] Instance Z_compare_total : TotalCmp Z.compare.
Proof.
  split; [apply Z.compare_refl|intros; apply Z.compare_antisym|].
  intros x y z. rewrite !Z.compare_gt_iff. lia.
Qed.

Section Choice.
Context {Sort : StableSort}.

(** The columns of a unique index without a nullable part, in their sequence. *)
Definition unique_key (columns : list MysqlUniqueIndexColumn) (name : str) (key : list MysqlUniqueIndexColumn) : Prop :=
  key ≡ₚ columns_of name columns
  /\ StronglySorted (fun x y => (sequence x <= sequence y)%Z) key
  /\ key <> [] /\ (forall c, c ∈ key -> nullable c = false).

(** The key of a candidate, as the code computes it. *)
Definition key_rank (name : str) (key : list MysqlUniqueIndexColumn) : bool * nat * str :=
  (negb (eq_ignore_ascii_case name (u "PRIMARY")), length key, ascii_lower name).

Lemma in_sequence_spec columns :
  in_sequence columns ≡ₚ columns
  /\ StronglySorted (fun x y => (sequence x <= sequence y)%Z) (in_sequence columns).
Proof.
  destruct (sort_by_key_spec Z.compare sequence columns) as (P & S & _); [apply _|]. split; [done|].
  clear P. unfold in_sequence. induction S as [|x l _ IH Hx]; constructor; [done|].
  eapply Forall_impl; [exact Hx|]. intros y Hy. cbn in Hy.
  destruct (Z.compare_spec (sequence x) (sequence y)); [lia|lia|done].
Qed.

Lemma not_nullable (l : list MysqlUniqueIndexColumn) :
  existsb nullable l = false <-> forall c, c ∈ l -> nullable c = false.
Proof.
  rewrite <- not_true_iff_false, existsb_exists. setoid_rewrite <- list_elem_of_In. split.
  - intros H c Hc. apply not_true_iff_false. intros Hn. apply H. by exists c.
  - intros H (c & Hc & Hn). by rewrite (H c Hc) in Hn.
Qed.

Lemma sequence_key columns name :
  columns_of name columns <> [] -> existsb nullable (in_sequence (columns_of name columns)) = false ->
  unique_key columns name (in_sequence (columns_of name columns)).
Proof.
  intros Hne Hn. destruct (in_sequence_spec (columns_of name columns)) as [P S].
  split; [done|]. split; [done|]. split; [|by apply not_nullable].
  intros E. rewrite E in P. apply Permutation_nil in P. congruence.
Qed.
Lemma candidate_elem columns candidate :
  candidate ∈ omap locator_candidate (by_index columns) <->
  exists name, let key := in_sequence (columns_of name columns) in
    unique_key columns name key /\ candidate = (key_rank name key, column_name <$> key).
Proof.
  rewrite list_elem_of_omap. split.
  - intros ([name g] & Hg & E). apply by_index_elem in Hg as [-> Hne]. exists name. cbn in *.
    case_bool_decide as Hs; [done|]. destruct (existsb _ _) eqn:Hn; [done|]. injection E as <-.
    split; [by apply sequence_key|done].
  - intros (name & Hk & ->). exists (name, columns_of name columns). destruct Hk as (P & _ & Hne & Hn). split.
    + apply by_index_elem. split; [done|]. intros E. rewrite E in P, Hne. by apply Permutation_nil_r in P.
    + cbn. rewrite bool_decide_false by done. by rewrite (proj2 (not_nullable _) Hn).
Qed.

(** Why one key is preferred to another, without the code's comparison: being
    the primary key decides, then the number of columns, then the name in lower
    case, where a name comes before another if it is a prefix of it or has the
    smaller character where they first differ. *)
Definition is_primary (name : str) : Prop := ascii_upper name = u "PRIMARY".

Definition in_dictionary_order (l r : str) : Prop :=
  l `prefix_of` r \/ exists common x y l' r', l = common ++ x :: l' /\ r = common ++ y :: r' /\ (x < y)%N.

Definition no_later_than (name : str) (columns : nat) (name' : str) (columns' : nat) : Prop :=
  (is_primary name /\ ~ is_primary name')
  \/ ((is_primary name <-> is_primary name')
      /\ (columns < columns'
          \/ columns = columns' /\ in_dictionary_order (ascii_lower name) (ascii_lower name'))).

Lemma name_cmp_dictionary l r : name_cmp l r <> Gt -> in_dictionary_order l r.
Proof.
  revert r. induction l as [|x l IH]; intros r H; [left; apply prefix_nil|].
  destruct r as [|y r]; [done|]. unfold name_cmp in *. cbn [lex_cmp] in H.
  destruct (N.compare_spec x y) as [->|Hlt|]; cbn [then_cmp] in H; [|right; by exists [], x, y, l, r|done].
  destruct (IH r H) as [Hp|(common & x' & y' & l' & r' & -> & -> & Hlt)]; [left; by apply prefix_cons|].
  right. by exists (y :: common), x', y', l', r'.
Qed.

Lemma no_later_than_cmp name key name' key' :
  candidate_cmp (key_rank name key) (key_rank name' key') <> Gt ->
  no_later_than name (length key) name' (length key').
Proof.
  assert (Hp : forall n, eq_ignore_ascii_case n (u "PRIMARY") = true <-> is_primary n).
  { intros n. apply bool_decide_eq_true. }
  unfold candidate_cmp, pair_cmp, key_rank, no_later_than. cbn [fst snd]. rewrite <- !Hp.
  rewrite !then_cmp_not_gt. destruct (eq_ignore_ascii_case name _), (eq_ignore_ascii_case name' _);
    cbn [negb bool_cmp then_cmp]; intros H; [right|by left|by destruct H as [|[]]|right]; (split; [done|]);
    destruct (Nat.compare_spec (length key) (length key')) as [E|E|E];
    destruct H as [H|[H Hn]]; try done; try (by left); right; (split; [done|by apply name_cmp_dictionary]).
Qed.

(** C24. The choice is a unique key without a nullable column that comes before
    every other such key: a primary key before any other, then the one of fewer
    columns, then the name that comes first; there is none only if there is no
    such key; and the key is accepted when it is checked against the same
    metadata. *)
Theorem locator_is_the_least_key columns :
  match choose_mysql_locator columns with
  | Some locator =>
      (exists name key, unique_key columns name key /\ locator = column_name <$> key
         /\ forall name' key', unique_key columns name' key' ->
              no_later_than name (length key) name' (length key'))
      /\ mysql_locator_is_unique columns locator = true
  | None => forall name key, ~ unique_key columns name key
  end.
Proof.
  assert (Hrank : forall name key key', unique_key columns name key -> unique_key columns name key' ->
            key_rank name key = key_rank name key').
  { intros name key key' (P & _) (P' & _). unfold key_rank. by rewrite P, P'. }
  assert (Hin : forall name key, unique_key columns name key ->
            unique_key columns name (in_sequence (columns_of name columns))).
  { intros name key (P & _ & Hne & Hn). apply sequence_key.
    - intros E. rewrite E in P. by apply Permutation_nil_r in P.
    - apply not_nullable. intros c Hc. apply Hn. rewrite P. by rewrite (proj1 (in_sequence_spec _)) in Hc. }
  unfold choose_mysql_locator. set (candidates := omap locator_candidate (by_index columns)).
  destruct (sort_by_key_spec candidate_cmp fst candidates) as (P & S & _); [unfold candidate_cmp; apply _|].
  destruct (sort_by_key candidate_cmp fst candidates) as [|[rank locator] rest]; cbn.
  - intros name key Hk. apply Hin in Hk. apply Permutation_nil in P.
    apply (elem_of_nil (key_rank name (in_sequence (columns_of name columns)),
             column_name <$> in_sequence (columns_of name columns))).
    rewrite <- P. apply candidate_elem. by exists name.
  - assert (Hc : (rank, locator) ∈ candidates) by (rewrite <- P; by left).
    apply candidate_elem in Hc as (name & Hk & [= -> ->]). split.
    + exists name, (in_sequence (columns_of name columns)). split; [done|]. split; [done|].
      intros name' key' Hk'. apply no_later_than_cmp. rewrite (Hrank name' key' _ Hk' (Hin _ _ Hk')). apply Hin in Hk'.
      inversion S as [|? ? _ Hle]; subst.
      assert (Hc' : (key_rank name' (in_sequence (columns_of name' columns)),
                 column_name <$> in_sequence (columns_of name' columns)) ∈ candidates)
        by (apply candidate_elem; by exists name').
      rewrite <- P in Hc'. apply elem_of_cons in Hc' as [E|Hc'].
      * apply (f_equal fst) in E. cbn [fst] in E. rewrite E. by rewrite (cmp_refl candidate_cmp).
      * by apply (proj1 (Forall_forall _ _) Hle) in Hc'.
    + unfold mysql_locator_is_unique. apply existsb_exists. exists (name, columns_of name columns).
      destruct Hk as (Pk & _ & Hne & Hn). split.
      * apply list_elem_of_In, by_index_elem. split; [done|]. intros E. rewrite E in Pk, Hne. by apply Permutation_nil_r in Pk.
      * rewrite length_fmap, Nat.eqb_refl, (proj2 (not_nullable _) Hn). cbn.
        generalize (in_sequence (columns_of name columns)). clear. intros l. induction l as [|c l IH]; [done|].
        cbn. rewrite IH, andb_true_r. unfold eq_ignore_ascii_case. by apply bool_decide_true.
Qed.
End Choice.
