(* ===== verification/EditCompare.v ===== *)
(** * What was shown as text and what is stored

    The grid keeps the text the server sent for a row; an edit compares it with the
    typed values the server sends for the locked row.  [text_form] is how the
    server writes a value of each kind. *)
From Stdlib Require Import QArith.
From S2P Require Import Prelude RustStr Utf8 GridSort GridSortSpec RustParse ResultEdit.

#[local] Open Scope Z_scope.

(** ** Digits *)

(** The [w] last decimal digits of [n]. *)
Fixpoint fixed (w : nat) (n : N) : str :=
  match w with O => [] | S w => fixed w (n / 10) ++ ["0"%ch + n mod 10]%N end.

Definition digits (w : nat) (n : Z) : str := fixed w (Z.to_N n).

Lemma fixed_digits w n : digits_only (fixed w n) = true.
Proof.
  revert n. induction w as [|w IH]; intros n; [done|]. cbn [fixed]. unfold digits_only in *.
  rewrite forallb_app, IH. cbn. rewrite andb_true_r. unfold is_ascii_digit, in_range.
  pose proof (N.mod_lt n 10 ltac:(lia)) as H. revert H. generalize (n mod 10)%N. intros r Hr. apply andb_true_iff. rewrite !N.leb_le.
  change ("0"%ch) with 48%N. change ("9"%ch) with 57%N. lia.
Qed.

Lemma fixed_value w n : digits_value (fixed w n) = (n mod 10 ^ N.of_nat w)%N.
Proof.
  revert n. induction w as [|w IH]; intros n; [by rewrite N.mod_1_r|]. cbn [fixed].
  rewrite cell_digits_value_app, IH. unfold digits_value. cbn [fold_left length].
  change (10 ^ N.of_nat 1)%N with 10%N. rewrite Nat2N.inj_succ, N.pow_succ_r', N.Div0.mod_mul_r.
  change ("0"%ch) with 48%N. generalize (n mod 10)%N, (n / 10 mod 10 ^ N.of_nat w)%N. lia.
Qed.

Lemma length_fixed w n : length (fixed w n) = w.
Proof. revert n. induction w as [|w IH]; intros n; [done|]. cbn [fixed]. rewrite length_app, IH. cbn. lia. Qed.

Lemma digits_read w n : 0 <= n < 10 ^ Z.of_nat w -> Z.of_N (digits_value (digits w n)) = n.
Proof.
  intros H. unfold digits. rewrite fixed_value, N.mod_small; [lia|].
  apply N2Z.inj_lt. rewrite N2Z.inj_pow, nat_N_Z. lia.
Qed.

(** No digit is a sign or a separator. *)
Lemma digits_free w n c : is_ascii_digit c = false -> c ∉ digits w n.
Proof.
  intros Hc Hin. pose proof (fixed_digits w (Z.to_N n)) as H. unfold digits_only in H.
  rewrite forallb_forall in H. apply list_elem_of_In, H in Hin. congruence.
Qed.

Lemma digits_nonempty w n : (0 < w)%nat -> str_is_empty (digits w n) = false.
Proof. intros Hw. pose proof (length_fixed w (Z.to_N n)) as H. unfold digits. destruct (fixed w _); [cbn in H; lia|done]. Qed.

Lemma unsigned_digits max w n :
  (0 < w)%nat -> 0 <= n < 10 ^ Z.of_nat w -> n <= max -> parse_unsigned max (digits w n) = Some n.
Proof.
  intros Hw Hn Hm. unfold parse_unsigned.
  assert (match digits w n with c :: rest => if N.eqb c "+"%ch then rest else digits w n | [] => digits w n end
          = digits w n) as ->.
  { pose proof (digits_free w n "+"%ch eq_refl) as Hf. destruct (digits w n) as [|c rest]; [done|].
    destruct (N.eqb_spec c "+"%ch) as [->|]; [|done]. exfalso. apply Hf. by left. }
  rewrite digits_nonempty by done. unfold digits at 1. rewrite fixed_digits. cbn [negb orb].
  rewrite digits_read by done. by apply Z.leb_le in Hm as ->.
Qed.

(** ** Splitting *)

Lemma split_on_before sep s t : sep ∉ s -> split_on sep (s ++ sep :: t) = s :: split_on sep t.
Proof.
  induction s as [|c s IH]; intros H; cbn; [by rewrite N.eqb_refl|].
  destruct (N.eqb_spec c sep) as [->|_]; [exfalso; apply H; by left|].
  rewrite IH; [done|]. intros Hin. apply H. by right.
Qed.

Lemma split_on_none sep s : sep ∉ s -> split_on sep s = [s].
Proof.
  induction s as [|c s IH]; intros H; cbn; [done|].
  destruct (N.eqb_spec c sep) as [->|_]; [exfalso; apply H; by left|].
  rewrite IH; [done|]. intros Hin. apply H. by right.
Qed.

Lemma split_once_before sep s t : sep ∉ s -> split_once (N.eqb sep) (s ++ sep :: t) = Some (s, t).
Proof.
  induction s as [|c s IH]; intros H; cbn; [by rewrite N.eqb_refl|].
  destruct (N.eqb_spec sep c) as [->|_]; [exfalso; apply H; by left|].
  rewrite IH; [done|]. intros Hin. apply H. by right.
Qed.

Lemma split_once_none sep s : sep ∉ s -> split_once (N.eqb sep) s = None.
Proof.
  induction s as [|c s IH]; intros H; cbn; [done|].
  destruct (N.eqb_spec sep c) as [->|_]; [exfalso; apply H; by left|].
  rewrite IH; [done|]. intros Hin. apply H. by right.
Qed.

(** ** The server's text *)

(** Nothing, or a point and up to six digits. *)
Inductive fraction_form : Z -> str -> Prop :=
  | form_no_fraction : fraction_form 0 []
  | form_fraction k f : (1 <= k <= 6)%nat -> 0 <= f < 10 ^ Z.of_nat k ->
      fraction_form (f * 10 ^ Z.of_nat (6 - k)) ("."%ch :: digits k f).

Definition minute_ok (n : Z) : Prop := 0 <= n < 60.

(** Hours in [w] digits, minutes, seconds and the fraction. *)
Inductive clock_form (w : nat) (hours minute second micros : Z) : str -> Prop :=
  | form_clock fraction : minute_ok minute -> minute_ok second -> fraction_form micros fraction ->
      clock_form w hours minute second micros
        (digits w hours ++ ":"%ch :: digits 2 minute ++ ":"%ch :: digits 2 second ++ fraction).

Definition date_text (y mo d : Z) : str := digits 4 y ++ "-"%ch :: digits 2 mo ++ "-"%ch :: digits 2 d.

Definition date_ok (y mo d : Z) : Prop := 0 <= y <= 9999 /\ 0 <= mo <= 12 /\ 0 <= d <= 31.

Inductive text_form : ResultEditScalar -> str -> Prop :=
  | form_int w v : (0 < w)%nat -> Z.abs v < 10 ^ Z.of_nat w -> - 2 ^ 63 <= v < 2 ^ 63 ->
      text_form (Scalar_Int v) ((if v <? 0 then ["-"%ch] else []) ++ digits w (Z.abs v))
  | form_uint w v : (0 < w)%nat -> 0 <= v < 10 ^ Z.of_nat w -> v <= U64_MAX ->
      text_form (Scalar_UInt v) (digits w v)
  | form_date y mo d : date_ok y mo d -> text_form (Scalar_Date y mo d 0 0 0 0) (date_text y mo d)
  | form_datetime y mo d h mi s us clock : date_ok y mo d -> 0 <= h <= 23 -> clock_form 2 h mi s us clock ->
      text_form (Scalar_Date y mo d h mi s us) (date_text y mo d ++ " "%ch :: clock)
  | form_time negative w days h mi s us clock :
      (0 < w)%nat -> 0 <= days -> 0 <= h <= 23 -> days * 24 + h < 10 ^ Z.of_nat w -> days * 24 + h <= U32_MAX ->
      clock_form w (days * 24 + h) mi s us clock ->
      text_form (Scalar_Time negative days h mi s us) ((if negative then ["-"%ch] else []) ++ clock).

Lemma second_read second micros fraction :
  minute_ok second -> fraction_form micros fraction ->
  parse_mysql_second_text (digits 2 second ++ fraction) = Some (second, micros).
Proof.
  intros Hs Hf. unfold parse_mysql_second_text, minute_ok in *.
  assert (Hsec : parse_unsigned U8_MAX (digits 2 second) = Some second)
    by (apply unsigned_digits; unfold U8_MAX; cbn; lia).
  destruct Hf as [|k f Hk Hf].
  - rewrite app_nil_r, split_once_none by by apply digits_free. cbn [from_option id]. rewrite Hsec. cbn.
    by rewrite (proj2 (Z.ltb_ge _ _)) by lia.
  - rewrite split_once_before by by apply digits_free. cbn [from_option id]. rewrite Hsec. cbn [mbind option_bind].
    rewrite (proj2 (Z.ltb_ge _ _)) by lia.
    destruct (encode_digits (digits k f)) as [_ ->]; [apply fixed_digits|].
    unfold digits at 1. rewrite length_fixed. rewrite (proj2 (Nat.ltb_ge _ _)) by lia.
    unfold digits at 1. rewrite fixed_digits. cbn [orb negb]. rewrite digits_nonempty by lia.
    assert (Hle : f * 10 ^ Z.of_nat (6 - k) <= 10 ^ 6).
    { assert (10 ^ 6 = 10 ^ Z.of_nat k * 10 ^ Z.of_nat (6 - k)) as -> by (rewrite <- Z.pow_add_r by lia; f_equal; lia).
      nia. }
    rewrite unsigned_digits; [|lia|done|].
    + cbn [mbind option_bind]. unfold digits. rewrite length_fixed. by rewrite (proj2 (Z.leb_le _ _)) by (unfold U32_MAX; lia).
    + assert (10 ^ Z.of_nat k <= 10 ^ 6) by (apply Z.pow_le_mono_r; lia). unfold U32_MAX. lia.
Qed.

(** The parts of a clock: no colon is in the digits. *)
Lemma clock_split w hours minute second fraction micros :
  fraction_form micros fraction ->
  split_on ":"%ch (digits w hours ++ ":"%ch :: digits 2 minute ++ ":"%ch :: digits 2 second ++ fraction)
  = [digits w hours; digits 2 minute; digits 2 second ++ fraction].
Proof.
  intros Hf. rewrite split_on_before by by apply digits_free. f_equal.
  rewrite split_on_before by by apply digits_free. f_equal. apply split_on_none.
  rewrite elem_of_app. intros [H|H]; [by apply digits_free in H|].
  destruct Hf; [by apply elem_of_nil in H|]. apply elem_of_cons in H as [H|H]; [done|by apply digits_free in H].
Qed.

Lemma small_read n max : 0 <= n <= 99 -> 99 <= max -> parse_unsigned max (digits 2 n) = Some n.
Proof. intros H Hm. apply unsigned_digits; [lia|cbn; lia|lia]. Qed.

Lemma clock_read h mi s us clock :
  0 <= h <= 23 -> clock_form 2 h mi s us clock -> parse_mysql_clock_text clock = Some (h, mi, s, us).
Proof.
  intros Hh [fraction Hmi Hs Hf]. unfold parse_mysql_clock_text. erewrite clock_split by done.
  unfold minute_ok in Hmi. rewrite !small_read by (unfold U8_MAX; lia). cbn [mbind option_bind].
  rewrite bool_decide_true by done. rewrite !(proj2 (Z.ltb_ge _ _)) by lia. cbn [negb orb].
  by rewrite (second_read s us) by done.
Qed.

Lemma time_read w (negative : bool) days h mi s us clock :
  (0 < w)%nat -> 0 <= days -> 0 <= h <= 23 -> days * 24 + h < 10 ^ Z.of_nat w -> days * 24 + h <= U32_MAX ->
  clock_form w (days * 24 + h) mi s us clock ->
  parse_mysql_time_text ((if negative then ["-"%ch] else []) ++ clock) = Some (negative, days, h, mi, s, us).
Proof.
  intros Hw Hd Hh Hlt Hmax [fraction Hmi Hs Hf]. unfold parse_mysql_time_text.
  set (body := digits w (days * 24 + h) ++ ":"%ch :: digits 2 mi ++ ":"%ch :: digits 2 s ++ fraction).
  assert (match strip_prefix ((if negative then ["-"%ch] else []) ++ body) (u "-") with
          | Some text => (true, text) | None => (false, (if negative then ["-"%ch] else []) ++ body) end
          = (negative, body)) as ->.
  { unfold strip_prefix. change (u "-") with ["-"%ch]. destruct negative.
    - cbn [app starts_with]. rewrite N.eqb_refl, starts_with_nil. done.
    - cbn [app]. pose proof (digits_nonempty w (days * 24 + h) Hw) as Hne.
      pose proof (digits_free w (days * 24 + h) "-"%ch eq_refl) as Hfree. unfold body.
      destruct (digits w (days * 24 + h)) as [|c rest]; [done|]. cbn [app starts_with].
      destruct (N.eqb_spec "-"%ch c) as [<-|]; [|done]. exfalso. apply Hfree. by left. }
  unfold body. erewrite clock_split by done. unfold minute_ok in Hmi.
  rewrite (unsigned_digits U32_MAX w) by lia. rewrite small_read by (unfold U8_MAX; lia). cbn [mbind option_bind].
  rewrite bool_decide_true by done. rewrite (proj2 (Z.ltb_ge _ _)) by lia. cbn [negb orb].
  rewrite (second_read s us) by done. cbn [mbind option_bind].
  rewrite <- (Z.div_unique_pos (days * 24 + h) 24 days h), <- (Z.mod_unique_pos (days * 24 + h) 24 days h) by lia.
  done.
Qed.

Lemma date_split y mo d : split_on "-"%ch (date_text y mo d) = [digits 4 y; digits 2 mo; digits 2 d].
Proof.
  unfold date_text. rewrite split_on_before by by apply digits_free. f_equal.
  rewrite split_on_before by by apply digits_free. f_equal. apply split_on_none. by apply digits_free.
Qed.

Lemma date_read y mo d time h mi s us :
  date_ok y mo d ->
  (time = [] /\ (h, mi, s, us) = (0, 0, 0, 0))
  \/ (exists clock, time = " "%ch :: clock /\ 0 <= h <= 23 /\ clock_form 2 h mi s us clock) ->
  parse_mysql_date_text (date_text y mo d ++ time) = Some (y, mo, d, h, mi, s, us).
Proof.
  intros (Hy & Hmo & Hd) Ht. unfold parse_mysql_date_text.
  assert (Hfree : " "%ch ∉ date_text y mo d).
  { unfold date_text. rewrite elem_of_app, elem_of_cons, elem_of_app, elem_of_cons.
    intros [H|[H|[H|[H|H]]]]; try done; by apply digits_free in H. }
  assert (Hread : parse_unsigned U16_MAX (digits 4 y) = Some y) by (apply unsigned_digits; unfold U16_MAX; cbn; lia).
  destruct Ht as [[-> [= -> -> -> ->]]|(clock & -> & Hh & Hc)].
  - rewrite app_nil_r, split_once_none by done. cbn [from_option id]. rewrite date_split, Hread.
    rewrite !small_read by (unfold U8_MAX; lia). done.
  - rewrite split_once_before by done. cbn [from_option id]. rewrite date_split, Hread.
    rewrite !small_read by (unfold U8_MAX; lia). cbn [mbind option_bind].
    assert (str_is_empty clock = false) as ->.
    { destruct Hc. pose proof (digits_nonempty 2 h ltac:(lia)). by destruct (digits 2 h). }
    by rewrite (clock_read h mi s us clock) by done.
Qed.

(** ** The comparison *)

Lemma int_read w v :
  (0 < w)%nat -> Z.abs v < 10 ^ Z.of_nat w -> - 2 ^ 63 <= v < 2 ^ 63 ->
  parse_i64 ((if v <? 0 then ["-"%ch] else []) ++ digits w (Z.abs v)) = Some v.
Proof.
  intros Hw Ha Hv. unfold parse_i64.
  assert (match (if v <? 0 then ["-"%ch] else []) ++ digits w (Z.abs v) with
          | c :: rest => if N.eqb c "-"%ch then (true, rest) else if N.eqb c "+"%ch then (false, rest)
                         else (false, (if v <? 0 then ["-"%ch] else []) ++ digits w (Z.abs v))
          | [] => (false, (if v <? 0 then ["-"%ch] else []) ++ digits w (Z.abs v))
          end = (v <? 0, digits w (Z.abs v))) as ->.
  { destruct (v <? 0); [done|]. cbn [app].
    pose proof (digits_free w (Z.abs v) "-"%ch eq_refl). pose proof (digits_free w (Z.abs v) "+"%ch eq_refl).
    destruct (digits w (Z.abs v)) as [|c rest]; [done|].
    destruct (N.eqb_spec c "-"%ch) as [->|]; [set_solver|]. destruct (N.eqb_spec c "+"%ch) as [->|]; [set_solver|done]. }
  rewrite digits_nonempty by done. unfold digits at 1. rewrite fixed_digits. cbn [orb negb].
  rewrite digits_read by lia.
  assert ((if v <? 0 then - Z.abs v else Z.abs v) = v) as -> by (destruct (Z.ltb_spec v 0); lia).
  rewrite (proj2 (Z.leb_le _ _)), (proj2 (Z.ltb_lt _ _)) by lia. done.
Qed.

(** Everything the server writes here is ASCII. *)
Lemma digits_ascii w n : Forall (fun c => (c < 128)%N) (digits w n).
Proof.
  apply Forall_forall. intros c Hc. pose proof (fixed_digits w (Z.to_N n)) as H.
  unfold digits_only in H. rewrite forallb_forall in H. apply list_elem_of_In, H in Hc.
  unfold is_ascii_digit, in_range in Hc. apply andb_true_iff in Hc as [_ Hc%N.leb_le]. change ("9"%ch) with 57%N in Hc. lia.
Qed.

Lemma form_ascii scalar text : text_form scalar text -> Forall (fun c => (c < 128)%N) text.
Proof.
  assert (Hf : forall us f, fraction_form us f -> Forall (fun c => (c < 128)%N) f)
    by (intros ? ? [|]; repeat constructor; apply digits_ascii).
  assert (Hc : forall w h mi s us c, clock_form w h mi s us c -> Forall (fun c => (c < 128)%N) c).
  { intros ? ? ? ? ? ? []. repeat (apply digits_ascii || apply Forall_app_2 || apply Forall_cons_2 || done).
    by eapply Hf. }
  assert (Hd : forall y mo d, Forall (fun c => (c < 128)%N) (date_text y mo d)).
  { intros. unfold date_text. repeat (apply digits_ascii || apply Forall_app_2 || apply Forall_cons_2 || done). }
  intros []; [destruct (v <? 0)| | | |destruct negative];
    repeat (apply digits_ascii || apply Hd || (eapply Hc; done) || apply Forall_app_2 || apply Forall_cons_2 || done).
Qed.

Lemma read_ascii s : Forall (fun c => (c < 128)%N) s -> str_from_utf8 (encode_str s) = Some s.
Proof.
  intros H. assert (Hs : Forall (fun c => is_scalar c = true) s).
  { eapply Forall_impl; [exact H|]. intros c Hc. unfold is_scalar. apply orb_true_iff. left. apply N.ltb_lt.
    by apply (N.lt_trans _ 128). }
  unfold str_from_utf8. rewrite str_chars_encode by done. rewrite bool_decide_true by done.
  assert (forallb is_scalar s = true) as ->; [|done].
  apply forallb_forall. intros c Hc. by apply (proj1 (List.Forall_forall _ _) Hs).
Qed.

Definition scalar_kind (s : ResultEditScalar) : nat :=
  match s with
  | Scalar_Null => 0 | Scalar_Bytes _ => 1 | Scalar_Int _ => 2 | Scalar_UInt _ => 3 | Scalar_FloatBits _ => 4
  | Scalar_DoubleBits _ => 5 | Scalar_Date _ _ _ _ _ _ _ => 6 | Scalar_Time _ _ _ _ _ _ => 7
  end.

(** An integer, date or time that was shown as the server writes it is recognised
    in the stored value, on either side, and in no other value of its kind. *)
Theorem stored_text_is_recognised scalar text other :
  text_form scalar text -> scalar_kind other = scalar_kind scalar ->
  mysql_scalars_equal (Scalar_Bytes (encode_str text)) other = bool_decide (other = scalar)
  /\ mysql_scalars_equal other (Scalar_Bytes (encode_str text)) = bool_decide (other = scalar).
Proof.
  intros Hform Hkind.
  assert (Hmatch : mysql_text_matches_scalar (encode_str text) other = bool_decide (other = scalar)).
  { unfold mysql_text_matches_scalar. rewrite (read_ascii text) by by eapply form_ascii.
    destruct Hform, other; try done; apply bool_decide_ext.
    - rewrite int_read by done. split; congruence.
    - rewrite unsigned_digits by (done || lia). split; congruence.
    - rewrite <- (app_nil_r (date_text y mo d)), (date_read y mo d [] 0 0 0 0) by auto. split; congruence.
    - rewrite (date_read y mo d _ h mi s us) by eauto. split; congruence.
    - rewrite (time_read w negative days h mi s us clock) by done. split; congruence. }
  destruct Hform, other; try done; unfold mysql_scalars_equal; by rewrite Hmatch.
Qed.

(** A FLOAT is shown with the digits of a single, read as a double and compared
    with the single: a row that nobody touched passes for changed. *)
Example float_passes_for_changed :
  f32_from_bits 1066192077 = Finite (9227469 # 8388608)
  /\ mysql_scalars_equal (Scalar_FloatBits 1066192077) (Scalar_Bytes (encode_str (u "1.1"))) = false.
Proof. vm_compute. split; reflexivity. Qed.

(** -12:00:00.5, which the server writes for minus half a day and half a second. *)
Lemma stored_text_is_recognised_witness :
  mysql_scalars_equal (Scalar_Bytes (encode_str (u "-12:00:00.5"))) (Scalar_Time true 0 12 0 0 500000) = true
  /\ mysql_scalars_equal (Scalar_Time true 0 12 0 1 500000) (Scalar_Bytes (encode_str (u "-12:00:00.5"))) = false.
Proof.
  assert (Hf : text_form (Scalar_Time true 0 12 0 0 500000) (u "-12:00:00.5")).
  { apply (form_time true 2 0 12 0 0 500000 (u "12:00:00.5")); try (unfold U32_MAX; lia).
    apply (form_clock 2 12 0 0 500000 (u ".5")); try (unfold minute_ok; lia).
    apply (form_fraction 1 5); lia. }
  split.
  - rewrite (proj1 (stored_text_is_recognised _ _ (Scalar_Time true 0 12 0 0 500000) Hf eq_refl)). reflexivity.
  - rewrite (proj2 (stored_text_is_recognised _ _ (Scalar_Time true 0 12 0 1 500000) Hf eq_refl)). reflexivity.
Defined.
