(* ===== verification/MysqlEdit.v ===== *)
(** * Executing a result edit on a connection

    [execute_mysql_result_edit] against the class [MysqlDriver], which is what the
    code sees of the [mysql] crate, of the server behind it and of the flag it
    polls.  A computation returns its result, the world it leaves and the calls it
    made with their answers. *)
From S2P Require Import Prelude RustStr RetainedSession SessionPolicy TotalOrder RustParse ResultEdit EditStatements.

Inductive Call :=
  | Query (sql : str)
  | Exec (sql : str) (params : list Value).
#[export] Instance Value_eq_dec : EqDecision Value.
Proof. solve_decision. Defined.
#[export] Instance Call_eq_dec : EqDecision Call.
Proof. solve_decision. Defined.

Record Answer := mkAnswer { rows : list (list Value); affected_rows : Z }.

Class MysqlDriver := {
  World : Type;
  MysqlError : Type;
  (** [MysqlError::MySqlError], and [to_string]. *)
  mysql_error (state message : str) (code : Z) : MysqlError;
  display : MysqlError -> str;
  call : World -> Call -> (Answer + MysqlError) * World;
  is_cancelled : World -> bool * World;
  (** The rows of the index metadata, read as the tuples the code asks for. *)
  index_rows : Answer -> list (str * option str * Z * option str);
  (** The first row, read as one text that may be NULL. *)
  first_text : Answer -> option (option str)
}.

Section Driver.
Context {Driver : MysqlDriver}.

(** ** Computations on a connection *)

Abbreviation Exchange := (Call * (Answer + MysqlError))%type.
Definition M (A : Type) : Type := World -> (A + MysqlError) * World * list Exchange.

Definition ret {A} (a : A) : M A := fun w => (inl a, w, []).
Definition throw {A} (e : MysqlError) : M A := fun w => (inr e, w, []).
Definition bind {A B} (m : M A) (k : A -> M B) : M B := fun w =>
  match m w with
  | (inl a, w, log) => let '(r, w, log') := k a w in (r, w, log ++ log')
  | (inr e, w, log) => (inr e, w, log)
  end.
Definition send (c : Call) : M Answer := fun w => let '(r, w) := call w c in (r, w, [(c, r)]).
Definition poll : M bool := fun w => let '(b, w) := is_cancelled w in (inl b, w, []).

Fixpoint for_all {A} (f : A -> M ()) (l : list A) : M () :=
  match l with
  | [] => ret ()
  | x :: l => bind (f x) (fun _ => for_all f l)
  end.

Definition mysql_edit_error (message : str) : MysqlError := mysql_error (u "45000") message 1644.
Definition mysql_conflict_error (message : str) : MysqlError :=
  mysql_edit_error (u "Edit conflict: " ++ message).

(** [result.map_err(|message| mysql_edit_error(&message))?]. *)
Definition lift {A} (r : A + str) : M A :=
  match r with inl a => ret a | inr message => throw (mysql_edit_error message) end.

Definition stop_if_cancelled : M () :=
  bind poll (fun cancelled : bool =>
    if cancelled then throw (mysql_edit_error (u "Result edit was cancelled.")) else ret ()).

(** ** Parameters of the code that is not modelled here *)

Context {Sort : StableSort}.
Variable is_one_statement : str -> DatabaseType -> bool.
Variable locator_json : list ResultEditScalar -> str.

(** ** Steps *)

Definition MYSQL_UNIQUE_INDEX_METADATA_SQL : str :=
  [10%N] ++ u "SELECT s.INDEX_NAME, s.COLUMN_NAME, s.SEQ_IN_INDEX, c.IS_NULLABLE" ++ [10%N]
  ++ u "FROM INFORMATION_SCHEMA.STATISTICS s" ++ [10%N]
  ++ u "LEFT JOIN INFORMATION_SCHEMA.COLUMNS c" ++ [10%N]
  ++ u "  ON c.TABLE_SCHEMA = s.TABLE_SCHEMA" ++ [10%N]
  ++ u " AND c.TABLE_NAME = s.TABLE_NAME" ++ [10%N]
  ++ u " AND c.COLUMN_NAME = s.COLUMN_NAME" ++ [10%N]
  ++ u "WHERE s.TABLE_SCHEMA = ?" ++ [10%N]
  ++ u "  AND s.TABLE_NAME = ?" ++ [10%N]
  ++ u "  AND s.NON_UNIQUE = 0" ++ [10%N]
  ++ u "ORDER BY s.INDEX_NAME, s.SEQ_IN_INDEX".

Definition load_mysql_unique_index_columns (schema_name table_name : str) : M (list MysqlUniqueIndexColumn) :=
  bind (send (Exec MYSQL_UNIQUE_INDEX_METADATA_SQL
                [Value_Bytes (Utf8.encode_str schema_name); Value_Bytes (Utf8.encode_str table_name)]))
    (fun answer => ret (unique_index_column <$> index_rows answer)).

Definition mutation_locator_sort_key (mutation : ResultEditMutation) : str :=
  match existing_row mutation with Some (locator, _) => locator_json locator | None => [] end.

(** The loop that compares a locked row with what the grid showed of it. *)
Fixpoint compare_originals (row : list Value) (index : nat) (originals : list ResultEditOriginalValue)
    : () + MysqlError :=
  match originals with
  | [] => inl ()
  | original :: originals =>
      match row !! index with
      | None => inr (mysql_edit_error (u "A locked source value is missing."))
      | Some actual =>
          if mysql_scalars_equal (from_mysql_value actual) (original_value original)
          then compare_originals row (S index) originals
          else inr (mysql_conflict_error
                      (u "The target row changed after it was queried. No edits were applied."))
      end
  end.

(** What [prelock_and_compare_mysql_row] makes of the rows it locked. *)
Definition compare_locked (originals : list ResultEditOriginalValue) (answer : Answer) : () + MysqlError :=
  match rows answer with
  | [row] => compare_originals row 0 originals
  | _ => inr (mysql_conflict_error (u "The target row no longer exists or the edit key is not unique."))
  end.

Definition of_result {A} (r : A + MysqlError) : M A := fun w => (r, w, []).

Definition prelock_and_compare_mysql_row (d : ResultEditDescriptor) (mutation : ResultEditMutation) : M () :=
  match existing_row mutation with
  | None => ret ()
  | Some (locator, originals) =>
      bind (send (Exec (lock_statement d originals) (to_mysql_value <$> locator))) (fun answer =>
        of_result (compare_locked originals answer))
  end.

(** The check on the number of rows a statement changed. *)
Definition check_affected (mutation : ResultEditMutation) (affected : Z) : () + MysqlError :=
  match mutation with
  | Mutation_Update _ _ _ =>
      if (1 <? affected)%Z then inr (mysql_edit_error (u "An UPDATE affected more than one row.")) else inl ()
  | Mutation_Delete _ _ =>
      if negb (affected =? 1)%Z
      then inr (mysql_conflict_error (u "A DELETE did not affect exactly one row. No edits were applied."))
      else inl ()
  | Mutation_Insert _ =>
      if negb (affected =? 1)%Z
      then inr (mysql_edit_error (u "An INSERT did not affect exactly one row.")) else inl ()
  end.

Definition execute_mysql_mutation (d : ResultEditDescriptor) (mutation : ResultEditMutation) : M () :=
  bind (lift (mutation_statement is_one_statement d mutation)) (fun '(sql, params) =>
    bind (send (Exec sql params)) (fun answer =>
      of_result (check_affected mutation (affected_rows answer)))).

(** ** The whole edit *)

Definition is_existing (mutation : ResultEditMutation) : bool :=
  match mutation with Mutation_Insert _ => false | _ => true end.

Definition existing_mutations (request : ResultEditRequest) : list ResultEditMutation :=
  sort_by_key name_cmp mutation_locator_sort_key (List.filter is_existing (mutations request)).

Definition savepoint (request : ResultEditRequest) : str := u "SQ_RESULT_EDIT_" ++ to_decimal (request_id request).

Definition begin_sql (request : ResultEditRequest) (owns : bool) : str :=
  if owns then u "START TRANSACTION" else u "SAVEPOINT " ++ savepoint request.
Definition finish_sql (request : ResultEditRequest) (owns : bool) : str :=
  if owns then u "COMMIT" else u "RELEASE SAVEPOINT " ++ savepoint request.
Definition rollback_sql (request : ResultEditRequest) (owns : bool) : list str :=
  if owns then [u "ROLLBACK"]
  else [u "ROLLBACK TO SAVEPOINT " ++ savepoint request; u "RELEASE SAVEPOINT " ++ savepoint request].

Definition check_locator_is_unique (d : ResultEditDescriptor) : M () :=
  bind (load_mysql_unique_index_columns (schema_name d) (table_name d)) (fun current_indexes =>
    if mysql_locator_is_unique current_indexes (locator_columns d) then ret ()
    else throw (mysql_conflict_error (u "The edit key is no longer protected by a non-null unique index."))).

(** The closure that the outcome of the transaction depends on. *)
Definition edit_body (request : ResultEditRequest) (owns : bool) : M nat :=
  let d := descriptor request in
  let existing := existing_mutations request in
  bind (for_all (fun mutation => bind stop_if_cancelled (fun _ => prelock_and_compare_mysql_row d mutation)) existing)
    (fun _ =>
  bind (if bool_decide (length existing = 0) then ret () else check_locator_is_unique d) (fun _ =>
  bind (for_all (fun mutation => bind stop_if_cancelled (fun _ => execute_mysql_mutation d mutation))
          (mutations request)) (fun _ =>
  bind stop_if_cancelled (fun _ =>
  bind (send (Query (finish_sql request owns))) (fun _ =>
  ret (length (mutations request))))))).

Definition rollback (request : ResultEditRequest) (owns : bool) : M () :=
  for_all (fun sql => bind (send (Query sql)) (fun _ => ret ())) (rollback_sql request owns).

(** [if let Err(error) = execution { .. } execution]. *)
Definition or_roll_back (request : ResultEditRequest) (owns : bool) (body : M nat) : M nat := fun w =>
  match body w with
  | (inl applied, w, log) => (inl applied, w, log)
  | (inr error, w, log) =>
      let '(rolled_back, w, log') := rollback request owns w in
      (inr match rolled_back with
           | inl _ => error
           | inr rollback_error =>
               mysql_edit_error (display error ++ u "; rollback of the result edit also failed: "
                                 ++ display rollback_error)
           end, w, log ++ log')
  end.

Definition execute_mysql_result_edit (request : ResultEditRequest) (scope : AppOperationTransactionScope) : M nat :=
  if negb (structured_requests (result_edit_backend_policy (db_type (descriptor request))))
  then throw (mysql_edit_error (u "The result edit request is not for a MySQL-family database."))
  else
    bind (lift (validate_request_shape is_one_statement request)) (fun _ =>
      let owns := commits_its_own_work scope in
      bind (send (Query (begin_sql request owns))) (fun _ =>
        or_roll_back request owns (edit_body request owns))).
End Driver.
