(* ===== verification/MysqlEditSpec.v ===== *)
(** * What saving a result edit does to the database

    [edit_plan] is the conversation a validated request stands for; the theorems
    say that the code holds it, step by step, and that whatever goes wrong the
    server is asked to undo what was done. *)
From stdpp Require Import gmap.
From S2P Require Import Prelude RustStr RetainedSession SessionPolicy TotalOrder RustParse ResultEdit EditStatements MysqlEdit.

Definition is_ok {A E} (r : A + E) : bool := match r with inl _ => true | inr _ => false end.

Section Spec.
Context {Driver : MysqlDriver} {Sort : StableSort}.
Variable is_one_statement : str -> DatabaseType -> bool.
Variable locator_json : list ResultEditScalar -> str.

Abbreviation Exchange := (Call * (Answer + MysqlError))%type.

(** ** Conversations *)

(** A call, and the answers after which the code goes on. *)
Abbreviation Step := (Call * (Answer -> bool))%type.

Definition answered (step : Step) (exchange : Exchange) : Prop :=
  exists answer, exchange = (fst step, inl answer) /\ snd step answer = true.

Definition refused (step : Step) (exchange : Exchange) : Prop :=
  fst exchange = fst step /\ match snd exchange with inl answer => snd step answer = false | inr _ => True end.

(** The code did not get to the end: it left before some step, or that step was
    refused. *)
Definition cut_short (steps : list Step) (log : list Exchange) : Prop :=
  exists done step rest, steps = done ++ step :: rest
    /\ (Forall2 answered done log
        \/ exists log' last, log = log' ++ [last] /\ Forall2 answered done log' /\ refused step last).

Definition stopped (steps : list Step) (log : list Exchange) : Prop :=
  Forall2 answered steps log \/ cut_short steps log.

(** [m] holds the conversation [steps], and returns a value exactly if it ends. *)
Definition holds {A} (m : M A) (steps : list Step) : Prop := forall w,
  match m w with
  | (inl _, _, log) => Forall2 answered steps log
  | (inr _, _, log) => stopped steps log
  end.

Lemma cut_short_app steps steps' log : cut_short steps log -> cut_short (steps ++ steps') log.
Proof. intros (done & step & rest & -> & H). exists done, step, (rest ++ steps'). by rewrite <- app_assoc. Qed.

Lemma stopped_before steps step rest log : stopped steps log -> cut_short (steps ++ step :: rest) log.
Proof. intros [H|H]; [exists steps, step, rest; by auto|by apply cut_short_app]. Qed.

Lemma stopped_app steps steps' log : stopped steps log -> stopped (steps ++ steps') log.
Proof.
  destruct steps' as [|step rest]; [by rewrite app_nil_r|]. intros H. right. by apply stopped_before.
Qed.

Lemma stopped_after steps steps' log log' :
  Forall2 answered steps log -> stopped steps' log' -> stopped (steps ++ steps') (log ++ log').
Proof.
  intros Hs [H|(done & step & rest & -> & H)]; [left; by apply Forall2_app|right].
  exists (steps ++ done), step, rest. rewrite <- app_assoc. split; [done|].
  destruct H as [H|(l & last & -> & H & Hr)]; [left; by apply Forall2_app|right].
  exists (log ++ l), last. rewrite <- app_assoc. split; [done|]. split; [by apply Forall2_app|done].
Qed.

Lemma holds_ret {A} (a : A) : holds (ret a) [].
Proof. intros w. constructor. Qed.

Lemma holds_bind {A B} (m : M A) (k : A -> M B) steps steps' :
  holds m steps -> (forall a, holds (k a) steps') -> holds (bind m k) (steps ++ steps').
Proof.
  intros Hm Hk w. unfold bind. specialize (Hm w). destruct (m w) as [[[a|e] w1] log].
  - specialize (Hk a w1). destruct (k a w1) as [[[b|e] w2] log'].
    + by apply Forall2_app.
    + by apply stopped_after.
  - by apply stopped_app.
Qed.

Lemma stopped_at step steps last : refused step last -> stopped (step :: steps) [last].
Proof. intros H. right. exists [], step, steps. split; [done|]. right. by exists [], last. Qed.

Lemma holds_step {A} c (f : Answer -> A + MysqlError) :
  holds (bind (send c) (fun answer => of_result (f answer))) [(c, fun answer => is_ok (f answer))].
Proof.
  intros w. unfold bind, send, of_result. destruct (call w c) as [[answer|e] w'].
  - destruct (f answer) as [a|e] eqn:E.
    + constructor; [|constructor]. exists answer. split; [done|]. cbn. by rewrite E.
    + apply stopped_at. split; [done|]. cbn. by rewrite E.
  - by apply stopped_at.
Qed.

Lemma holds_stop : holds stop_if_cancelled [].
Proof.
  intros w. unfold stop_if_cancelled, bind, poll. destruct (is_cancelled w) as [[] w']; [|constructor].
  left. constructor.
Qed.

Lemma holds_for_all {A} (f : A -> M ()) (step : A -> list Step) l :
  (forall x, x ∈ l -> holds (f x) (step x)) -> holds (for_all f l) (concat (step <$> l)).
Proof.
  induction l as [|x l IH]; intros H; [apply holds_ret|]. cbn.
  apply holds_bind; [apply H; by left|]. intros _. apply IH. intros y Hy. apply H. by right.
Qed.

(** ** The plan of a request *)

Definition finish_step (request : ResultEditRequest) (owns : bool) : Step :=
  (Query (finish_sql request owns), fun _ => true).

(** Lock and read an existing row: it must still be what the grid showed. *)
Definition lock_step (d : ResultEditDescriptor) (mutation : ResultEditMutation) : list Step :=
  match existing_row mutation with
  | None => []
  | Some (locator, originals) =>
      [(Exec (lock_statement d originals) (to_mysql_value <$> locator),
        fun answer => is_ok (compare_locked originals answer))]
  end.

(** The locator must still be a key of the table. *)
Definition key_step (d : ResultEditDescriptor) : Step :=
  (Exec MYSQL_UNIQUE_INDEX_METADATA_SQL
     [Value_Bytes (Utf8.encode_str (schema_name d)); Value_Bytes (Utf8.encode_str (table_name d))],
   fun answer => mysql_locator_is_unique (unique_index_column <$> index_rows answer) (locator_columns d)).

Definition mutation_step (d : ResultEditDescriptor) (mutation : ResultEditMutation) : list Step :=
  match mutation_statement is_one_statement d mutation with
  | inl (sql, params) =>
      [(Exec sql params, fun answer => is_ok (check_affected mutation (affected_rows answer)))]
  | inr _ => []
  end.

Definition edit_steps (request : ResultEditRequest) : list Step :=
  let d := descriptor request in
  let existing := existing_mutations locator_json request in
  concat (lock_step d <$> existing)
  ++ (if bool_decide (length existing = 0) then [] else [key_step d])
  ++ concat (mutation_step d <$> mutations request).

Definition edit_plan (request : ResultEditRequest) (owns : bool) : list Step :=
  edit_steps request ++ [finish_step request owns].

(** ** Validated requests write statements *)

Lemma validated_value assignment allowed db seen seen' :
  (try seen <- see_name "The result edit contains an invalid assignment column." allowed
                 (assigned_column assignment) seen;
   match assigned_value assignment with
   | Edit_Expression expression =>
       try _ <- validate_result_edit_expression is_one_statement expression db; inl seen
   | _ => inl seen
   end) = inl seen' ->
  exists v, value_sql is_one_statement (assigned_value assignment) db = inl v.
Proof.
  intros H. destruct (see_name _ _ _ seen) as [s|]; [|done]. cbn in H. destruct (assigned_value assignment); cbn; eauto.
  destruct (validate_result_edit_expression _ _ _); [by eauto|done].
Qed.

Lemma validated_values assignments allowed db :
  validate_assignments is_one_statement assignments allowed db = inl () ->
  forall a, a ∈ assignments -> exists v, value_sql is_one_statement (assigned_value a) db = inl v.
Proof.
  unfold validate_assignments. intros H.
  match goal with H : and_then ?loop _ = _ |- _ => destruct loop as [seen|] eqn:E; [clear H|done] end.
  revert E. generalize (∅ : gset str). induction assignments as [|x l IH]; intros seen0 E a Ha; [by apply elem_of_nil in Ha|].
  cbn [for_each] in E. destruct (and_then (see_name _ _ _ _) _) as [seen1|] eqn:Ex; [|done].
  apply elem_of_cons in Ha as [->|Ha]; [by eapply validated_value|]. by eapply IH.
Qed.

Lemma collect_ok {A B E} (f : A -> B + E) l :
  (forall x, x ∈ l -> exists y, f x = inl y) -> exists ys, collect f l = inl ys.
Proof.
  induction l as [|x l IH]; intros H; [by exists []|]. cbn.
  destruct (H x) as [y ->]; [by left|]. destruct IH as [ys ->]; [intros z Hz; apply H; by right|]. by exists (y :: ys).
Qed.

Lemma mutation_written d allowed mutation seen seen' :
  validate_mutation is_one_statement d allowed mutation seen = inl seen' ->
  exists statement, mutation_statement is_one_statement d mutation = inl statement.
Proof.
  assert (Hset : forall assignments, validate_assignments is_one_statement assignments allowed (db_type d) = inl () ->
    exists parts, collect (fun a => value_sql is_one_statement (assigned_value a) (db_type d)) assignments = inl parts).
  { intros. apply collect_ok. by eapply validated_values. }
  destruct mutation as [locator originals assignments|locator originals|assignments]; cbn; intros H; [| |].
  - destruct (validate_locator_count _ _); [|done]. destruct (validate_named_values _ _); [|done]. cbn in H.
    destruct (validate_assignments _ _ _ _) as [[]|] eqn:E; [|done].
    unfold mysql_assignments. edestruct @collect_ok as [ys ->]; [|by eexists].
    intros a Ha. cbn. destruct (validated_values _ _ _ E a Ha) as [v ->]. by eexists.
  - by eexists.
  - destruct (validate_assignments _ _ _ _) as [[]|] eqn:E; [|done].
    destruct (Hset _ E) as [parts ->]. by eexists.
Qed.

Lemma request_written request :
  validate_request_shape is_one_statement request = inl () ->
  forall m, m ∈ mutations request ->
  exists statement, mutation_statement is_one_statement (descriptor request) m = inl statement.
Proof.
  unfold validate_request_shape. intros H.
  repeat match goal with H : (if ?b then _ else _) = _ |- _ => destruct b; [done|] end.
  destruct (for_each _ _ _) as [seen|] eqn:E in H; [clear H|done].
  revert E. generalize (@nil (list ResultEditScalar)).
  induction (mutations request) as [|x l IH]; intros s E m Hm; [by apply elem_of_nil in Hm|].
  cbn [for_each] in E. destruct (validate_mutation _ _ _ x s) as [s1|] eqn:Ex; [|done].
  apply elem_of_cons in Hm as [->|Hm]; [by eapply mutation_written|]. by eapply IH.
Qed.
(** ** The conversation *)

Lemma lock_holds d mutation :
  holds (bind stop_if_cancelled (fun _ => prelock_and_compare_mysql_row d mutation)) (lock_step d mutation).
Proof.
  apply (holds_bind _ _ [] _ holds_stop). intros _. unfold prelock_and_compare_mysql_row, lock_step.
  destruct (existing_row mutation) as [[locator originals]|]; [|apply holds_ret].
  apply holds_step.
Qed.

Lemma holds_inl {A B} (a : A) (k : A -> M B) steps : holds (k a) steps -> holds (bind (ret a) k) steps.
Proof. intros H w. specialize (H w). unfold bind, ret. by destruct (k a w) as [[[b|e] w'] log]. Qed.

Lemma mutation_holds d mutation :
  (exists statement, mutation_statement is_one_statement d mutation = inl statement) ->
  holds (bind stop_if_cancelled (fun _ => execute_mysql_mutation is_one_statement d mutation))
    (mutation_step d mutation).
Proof.
  intros [[sql params] E]. apply (holds_bind _ _ [] _ holds_stop). intros _.
  unfold execute_mysql_mutation, mutation_step. rewrite E. apply holds_inl. apply holds_step.
Qed.

Lemma key_holds d : holds (check_locator_is_unique d) [key_step d].
Proof.
  intros w. unfold check_locator_is_unique, load_mysql_unique_index_columns, bind, send, ret, throw.
  destruct (call w _) as [[answer|e] w']; [|by apply stopped_at].
  destruct (mysql_locator_is_unique _ _) eqn:E; cbn.
  - constructor; [|constructor]. by exists answer.
  - by apply stopped_at.
Qed.

(** Everything of the body but the end of the transaction. *)
Definition edit_work (request : ResultEditRequest) : M () :=
  let d := descriptor request in
  let existing := existing_mutations locator_json request in
  bind (for_all (fun mutation => bind stop_if_cancelled (fun _ => prelock_and_compare_mysql_row d mutation)) existing)
    (fun _ =>
  bind (if bool_decide (length existing = 0) then ret () else check_locator_is_unique d) (fun _ =>
  bind (for_all (fun mutation => bind stop_if_cancelled (fun _ => execute_mysql_mutation is_one_statement d mutation))
          (mutations request)) (fun _ => stop_if_cancelled))).

Lemma bind_assoc {A B C} (m : M A) (f : A -> M B) (g : B -> M C) w :
  bind (bind m f) g w = bind m (fun a => bind (f a) g) w.
Proof.
  unfold bind. destruct (m w) as [[[a|e] w1] l1]; [|done]. destruct (f a w1) as [[[b|e] w2] l2]; [|done].
  destruct (g b w2) as [[r w3] l3]. by rewrite app_assoc.
Qed.

Lemma bind_ext {A B} (m : M A) (f g : A -> M B) w : (forall a w, f a w = g a w) -> bind m f w = bind m g w.
Proof. intros H. unfold bind. destruct (m w) as [[[a|e] w1] l1]; [|done]. by rewrite H. Qed.

Lemma body_eq request owns w :
  edit_body is_one_statement locator_json request owns w =
  bind (edit_work request) (fun _ => bind (send (Query (finish_sql request owns))) (fun _ =>
    ret (length (mutations request)))) w.
Proof.
  unfold edit_body, edit_work. rewrite bind_assoc. apply bind_ext. intros _ w1.
  rewrite bind_assoc. apply bind_ext. intros _ w2. by rewrite bind_assoc.
Qed.

Lemma work_holds request :
  validate_request_shape is_one_statement request = inl () -> holds (edit_work request) (edit_steps request).
Proof.
  intros Hv. unfold edit_work, edit_steps.
  apply holds_bind; [apply holds_for_all; intros; apply lock_holds|]. intros _.
  apply holds_bind; [destruct (bool_decide _); [apply holds_ret|apply key_holds]|]. intros _.
  rewrite <- (app_nil_r (concat _)).
  apply holds_bind; [apply holds_for_all; intros; apply mutation_holds; by eapply request_written|].
  intros _. apply holds_stop.
Qed.

Lemma body_outcome request owns w :
  validate_request_shape is_one_statement request = inl () ->
  match edit_body is_one_statement locator_json request owns w with
  | (inl n, _, log) => n = length (mutations request) /\ Forall2 answered (edit_plan request owns) log
  | (inr _, _, log) => cut_short (edit_plan request owns) log
  end.
Proof.
  intros Hv. rewrite body_eq. pose proof (work_holds request Hv w) as Hw.
  unfold bind at 1. destruct (edit_work request w) as [[[[]|e] w1] log]; [|by apply stopped_before].
  unfold bind, send, ret. destruct (call w1 _) as [[answer|e] w2].
  - split; [done|]. apply Forall2_app; [done|]. constructor; [by exists answer|constructor].
  - exists (edit_steps request), (finish_step request owns), []. split; [done|]. right.
    by eexists log, _.
Qed.

Lemma concat_single {A B} (f : A -> B) l : concat ((fun x => [f x]) <$> l) = f <$> l.
Proof. induction l as [|x l IH]; [done|]. cbn. by f_equal. Qed.

Lemma existing_perm request :
  existing_mutations locator_json request ≡ₚ List.filter is_existing (mutations request).
Proof. apply sort_by_key_spec. unfold name_cmp. apply _. Qed.

Lemma lock_steps_length d (l : list ResultEditMutation) :
  Forall (fun m => is_existing m = true) l -> length (concat (lock_step d <$> l)) = length l.
Proof. induction 1 as [|m l Hm _ IH]; [done|]. cbn. rewrite length_app, IH. by destruct m. Qed.

Lemma mutation_steps_length d l :
  (forall m, m ∈ l -> exists statement, mutation_statement is_one_statement d m = inl statement) ->
  length (concat (mutation_step d <$> l)) = length l.
Proof.
  induction l as [|m l IH]; intros H; [done|]. cbn. rewrite length_app, IH by (intros; apply H; by right).
  unfold mutation_step. destruct (H m) as [[sql params] ->]; [by left|]. done.
Qed.

(** How many existing rows a request changes. *)
Definition existing_count (request : ResultEditRequest) : nat := length (List.filter is_existing (mutations request)).

Lemma plan_length request owns :
  validate_request_shape is_one_statement request = inl () ->
  length (edit_plan request owns) =
  existing_count request + (if existing_count request =? 0 then 0 else 1) + length (mutations request) + 1.
Proof.
  intros Hv. unfold edit_plan, edit_steps. rewrite !length_app, lock_steps_length.
  2:{ apply Forall_forall. intros m. rewrite existing_perm, list_elem_of_In, filter_In. tauto. }
  rewrite mutation_steps_length by (by eapply request_written).
  assert (length (existing_mutations locator_json request) = existing_count request) as -> by (by rewrite existing_perm).
  destruct (Nat.eqb_spec (existing_count request) 0) as [E|E].
  - rewrite bool_decide_true by done. cbn. lia.
  - rewrite bool_decide_false by done. cbn. lia.
Qed.

(** The undoing is asked for until one call of it fails. *)
Definition rollback_step (sql : str) : Step := (Query sql, fun _ => true).

Lemma rollback_holds request owns :
  holds (rollback request owns) (rollback_step <$> rollback_sql request owns).
Proof.
  unfold rollback. rewrite <- concat_single.
  apply holds_for_all. intros sql _. apply (holds_step _ (fun _ => inl ())).
Qed.

(** C4. For every server and every moment of cancelling: a request that is not valid
    sends nothing.  A valid one opens its transaction or savepoint; then it locks
    every existing row in the order of the locators and finds it as the grid
    showed it, finds the locator still a key, makes each change once and in order
    with the number of rows it must have, and closes; only then it reports
    success.  If it stops between two steps, or one is refused, it sends nothing
    more but the undoing, and reports an error. *)
Theorem edit_conversation request scope w :
  let owns := commits_its_own_work scope in
  let opening := (Query (begin_sql request owns), fun _ => true) in
  match execute_mysql_result_edit is_one_statement locator_json request scope w with
  | (inl n, _, log) =>
      validate_request_shape is_one_statement request = inl () /\ n = length (mutations request)
      /\ Forall2 answered (opening :: edit_plan request owns) log
      /\ length log = existing_count request + (if existing_count request =? 0 then 0 else 1) + n + 2
  | (inr error, _, log) =>
      log = []
      \/ (exists reply, log = [reply] /\ refused opening reply)
      \/ (exists opened body undoing, log = opened :: body ++ undoing /\ answered opening opened
            /\ cut_short (edit_plan request owns) body
            /\ (Forall2 answered (rollback_step <$> rollback_sql request owns) undoing
                \/ cut_short (rollback_step <$> rollback_sql request owns) undoing))
  end.
Proof.
  cbn zeta. unfold execute_mysql_result_edit.
  destruct (negb _); [by left|].
  destruct (validate_request_shape is_one_statement request) as [[]|] eqn:Hv; [|by left].
  unfold bind at 1, lift, ret. unfold bind, send.
  destruct (call w _) as [[answer|e] w1]; [|right; left; by eexists].
  unfold or_roll_back. pose proof (body_outcome request (commits_its_own_work scope) w1 Hv) as Hb.
  destruct (edit_body _ _ _ _ w1) as [[[n|e] w2] body] eqn:Eb.
  - destruct Hb as [-> Hb]. do 2 (split; [done|]). split; [constructor; [by exists answer|done]|].
    cbn. apply Forall2_length in Hb. rewrite <- Hb, plan_length by done. lia.
  - pose proof (rollback_holds request (commits_its_own_work scope) w2) as Hr. unfold stopped in Hr.
    destruct (rollback _ _ w2) as [[[[]|e'] w3] undoing]; right; right;
      (eexists _, body, undoing; split; [done|]; split; [by exists answer|]; auto).
Qed.
(** ** What is stored *)

(** The statements that change rows or read them, and end no transaction. *)
Definition row_statement (sql : str) : bool :=
  existsb (starts_with (trim_start sql)) [u "SELECT "; u "UPDATE "; u "DELETE "; u "INSERT "].

Lemma row_statement_head w s :
  w ∈ [u "SELECT "; u "UPDATE "; u "DELETE "; u "INSERT "] -> row_statement (w ++ s) = true.
Proof. rewrite !elem_of_cons, elem_of_nil. intros [->|[->|[->|[->|[]]]]]; by destruct s. Qed.

(** What the manual says of START TRANSACTION and SAVEPOINT, for one request:
    [stored] is what the session sees of the data, [restorable] what a successful
    undoing would leave. *)
Class Transactions (request : ResultEditRequest) (owns : bool) := {
  Data : Type;
  stored : World -> Data;
  restorable : World -> Data;
  opening_law w reply w' : call w (Query (begin_sql request owns)) = (reply, w') ->
    stored w' = stored w /\ (is_ok reply = true -> restorable w' = stored w);
  statement_law w sql params reply w' : row_statement sql = true ->
    call w (Exec sql params) = (reply, w') -> restorable w' = restorable w;
  polling_law w b w' : is_cancelled w = (b, w') -> stored w' = stored w /\ restorable w' = restorable w;
  undoing_law w answer w' : call w (Query (hd [] (rollback_sql request owns))) = (inl answer, w') ->
    stored w' = restorable w;
  closing_law w answer w' : call w (Query (finish_sql request owns)) = (inl answer, w') -> stored w' = stored w
}.

Section Stored.
Context (request : ResultEditRequest) (owns : bool) {Laws : Transactions request owns}.

(** [m] leaves alone what an undoing would restore. *)
Definition steady {A} (m : M A) : Prop := forall w, restorable (m w).1.2 = restorable w.

Lemma steady_of_result {A} (r : A + MysqlError) : steady (of_result r).
Proof. done. Qed.

Lemma steady_bind {A B} (m : M A) (k : A -> M B) : steady m -> (forall a, steady (k a)) -> steady (bind m k).
Proof.
  intros Hm Hk w. specialize (Hm w). unfold bind. destruct (m w) as [[[a|e] w1] log]; [|done].
  specialize (Hk a w1). destruct (k a w1) as [[r w2] log']. cbn in *. congruence.
Qed.

Lemma steady_inl {A B} (a : A) (k : A -> M B) : steady (k a) -> steady (bind (ret a) k).
Proof. intros H w. specialize (H w). unfold bind, ret. by destruct (k a w) as [[r w'] log]. Qed.

Lemma steady_send sql params : row_statement sql = true -> steady (send (Exec sql params)).
Proof.
  intros H w. unfold send. destruct (call w (Exec sql params)) as [r w'] eqn:E. by eapply statement_law.
Qed.

Lemma steady_stop : steady stop_if_cancelled.
Proof.
  apply steady_bind; [|intros []; apply steady_of_result]. intros w. unfold poll.
  destruct (is_cancelled w) as [b w'] eqn:E. by apply polling_law in E as [_ ?].
Qed.

Lemma steady_for_all {A} (f : A -> M ()) l : (forall x, steady (f x)) -> steady (for_all f l).
Proof. intros H. induction l as [|x l IH]; [apply steady_of_result|]. by apply steady_bind. Qed.

Lemma mutation_row_statement d m sql params :
  mutation_statement is_one_statement d m = inl (sql, params) -> row_statement sql = true.
Proof.
  destruct m; cbn [mutation_statement].
  - destruct (mysql_assignments _ _ _) as [set|]; [|done]. intros [<- _]%(inj inl)%pair_eq.
    apply (row_statement_head (u "UPDATE ")). by right; left.
  - intros [<- _]%(inj inl)%pair_eq. apply (row_statement_head (u "DELETE ")). by right; right; left.
  - destruct (collect _ _) as [parts|]; [|done]. intros [<- _]%(inj inl)%pair_eq.
    apply (row_statement_head (u "INSERT ")). by right; right; right; left.
Qed.

Lemma steady_work : steady (edit_work request).
Proof.
  unfold edit_work. apply steady_bind; [|intros _; apply steady_bind; [|intros _; apply steady_bind]].
  - apply steady_for_all. intros m. apply steady_bind; [apply steady_stop|]. intros _.
    unfold prelock_and_compare_mysql_row. destruct (existing_row m) as [[locator originals]|]; [|done].
    apply steady_bind; [apply steady_send, row_statement_head; by left|]. intros answer. apply steady_of_result.
  - destruct (bool_decide _); [done|]. apply steady_bind; [|intros columns; by destruct (mysql_locator_is_unique _ _)].
    apply steady_bind; [|done]. apply steady_send. reflexivity.
  - apply steady_for_all. intros m.
    apply steady_bind; [apply steady_stop|]. intros _.
    unfold execute_mysql_mutation. destruct (mutation_statement _ _ _) as [[sql params]|] eqn:E; [|done].
    cbn [lift]. apply steady_inl. apply steady_bind; [by eapply steady_send, mutation_row_statement|].
    intros answer. apply steady_of_result.
  - intros _. apply steady_stop.
Qed.

(** C5. Unless the end of the transaction or the undoing itself fails, an edit that
    reports an error leaves the data as it found it; one that reports success made
    every call of its plan and every call was answered. *)
Theorem edit_is_all_or_nothing scope w :
  owns = commits_its_own_work scope ->
  match execute_mysql_result_edit is_one_statement locator_json request scope w with
  | (inl _, _, log) =>
      log.*1 = Query (begin_sql request owns) :: (edit_plan request owns).*1
      /\ Forall (fun exchange => is_ok (snd exchange) = true) log
  | (inr error, w', log) =>
      stored w' = stored w
      \/ (exists e, (Query (finish_sql request owns), inr e) ∈ log)
      \/ (exists sql e, sql ∈ rollback_sql request owns /\ (Query sql, inr e) ∈ log)
  end.
Proof.
  cbn zeta. intros Hown. unfold execute_mysql_result_edit. rewrite <- Hown.
  destruct (negb _); [by left|].
  destruct (validate_request_shape is_one_statement request) as [[]|] eqn:Hv; [|by left].
  unfold bind at 1, lift, ret. unfold bind at 1, send.
  destruct (call w (Query (begin_sql request owns))) as [opened w1] eqn:E1.
  apply opening_law in E1 as [Hs1 Hr1]. destruct opened as [opened|e]; [|by left].
  unfold or_roll_back. rewrite body_eq. unfold bind at 1.
  pose proof (steady_work w1) as Hsteady. pose proof (work_holds request Hv w1) as Hw.
  destruct (edit_work request w1) as [[[[]|e] w2] body]; cbn in Hsteady.
  - unfold bind, send, ret. destruct (call w2 (Query (finish_sql request owns))) as [[answer|e] w3] eqn:E2.
    + assert (body.*1 = (edit_steps request).*1 /\ Forall (fun x => is_ok (snd x) = true) body) as [Hc Ho].
      { clear -Hw. induction Hw as [|s x steps l (a & -> & _) _ [IH IH']]; [done|]. cbn. rewrite IH. by repeat constructor. }
      split; [cbn; unfold edit_plan; by rewrite !fmap_app, Hc|].
      cbn. constructor; [done|]. apply Forall_app. split; [done|]. by repeat constructor.
    + destruct (rollback _ _ w3) as [[r w4] undoing]. right; left. exists e. set_solver.
  - unfold rollback, rollback_sql. pose proof undoing_law as Hundo. pose proof closing_law as Hclose.
    rewrite <- (Hr1 eq_refl), <- Hsteady. clear Hown. destruct owns; cbn [for_all]; unfold bind, send, ret.
    + destruct (call w2 (Query _)) as [[answer|e'] w3] eqn:E3; [left; by eapply Hundo|].
      right; right. eexists _, e'. split; [by left|]. set_solver.
    + destruct (call w2 (Query _)) as [[answer|e'] w3] eqn:E3.
      2:{ right; right. eexists _, e'. split; [by left|]. set_solver. }
      destruct (call w3 (Query _)) as [[answer'|e'] w4] eqn:E4.
      * left. apply Hclose in E4. rewrite E4. by eapply Hundo.
      * right; right. eexists _, e'. split; [by right; left|]. set_solver.
Qed.
End Stored.
End Spec.

(** ** A server to try it on *)

(** It keeps the statements that changed it, and those it had when a transaction
    was opened; every row it is asked for is the text 'old', and a DELETE finds
    none. *)
Record Bench := mkBench { executed : list Call; opened_with : list Call }.

Definition bench_answer (w : Bench) (c : Call) : (Answer + str) * Bench :=
  match c with
  | Query sql =>
      (inl (mkAnswer [] 0),
       if sql == u "START TRANSACTION" then mkBench (executed w) (executed w)
       else if sql == u "ROLLBACK" then mkBench (opened_with w) (opened_with w) else w)
  | Exec sql _ =>
      if starts_with (trim_start sql) (u "SELECT ") then (inl (mkAnswer [[Value_Bytes (u "old")]] 0), w)
      else (inl (mkAnswer [] (if starts_with sql (u "DELETE ") then 0 else 1)),
            mkBench (vec_push c (executed w)) (opened_with w))
  end.

Definition bench : MysqlDriver :=
  {| World := Bench;
     MysqlError := str;
     mysql_error _ message _ := message;
     display e := e;
     call := bench_answer;
     is_cancelled w := (false, w);
     index_rows _ := [(u "PRIMARY", Some (u "id"), 1%Z, Some (u "NO"))];
     first_text _ := None |}.

Definition bench_descriptor : ResultEditDescriptor :=
  mkDescriptor DatabaseType_MySQL (u "shop") (u "item") [u "id"] [mkEditColumn 0 (u "name")] 1.

(** A row is added and another deleted. *)
Definition bench_request : ResultEditRequest :=
  mkRequest 7 bench_descriptor
    [Mutation_Insert [mkAssignment (u "name") (Edit_Text (u "new"))];
     Mutation_Delete [Scalar_Int 3] [mkOriginal (u "name") (Scalar_Bytes (u "old"))]].

Definition bench_transactions : @Transactions bench bench_request true.
Proof.
  refine {| Data := list Call; stored := executed : @World bench -> _; restorable := opened_with : @World bench -> _ |}.
  - intros w reply w'. cbn. intros [= <- <-]. done.
  - intros w sql params reply w' _. cbn. destruct (starts_with _ _); by intros [= <- <-].
  - by intros w b w' [= <- <-].
  - intros w answer w'. cbn. by intros [= <- <-].
  - intros w answer w'. cbn. by intros [= <- <-].
Defined.

Definition bench_run (w : Bench) :=
  execute_mysql_result_edit (Driver := bench) (Sort := insertion_sort_stable) (fun _ _ => true) (fun _ => [])
    bench_request AppOperationTransactionScope_OwnTransaction w.

(** The DELETE finds nothing; what the INSERT did is undone. *)
Lemma edit_is_all_or_nothing_witness :
  length (bench_run (mkBench [Query []] [])).2 = 6
  /\ match bench_run (mkBench [Query []] []) with
     | (inl _, _, _) => False
     | (inr _, w', log) =>
         executed w' = [Query []]
         \/ (exists e, (Query (finish_sql bench_request true), inr e) ∈ log)
         \/ (exists sql e, sql ∈ rollback_sql bench_request true /\ (Query sql, inr e) ∈ log)
     end.
Proof.
  split; [vm_compute; reflexivity|].
  pose proof (@edit_is_all_or_nothing bench insertion_sort_stable (fun _ _ => true) (fun _ => []) bench_request true
                bench_transactions AppOperationTransactionScope_OwnTransaction (mkBench [Query []] []) eq_refl) as H.
  fold (bench_run (mkBench [Query []] [])) in H.
  assert (E : is_ok (bench_run (mkBench [Query []] [])).1.1 = false) by (vm_compute; reflexivity).
  destruct (bench_run (mkBench [Query []] [])) as [[[n|e] w'] log]; [discriminate E|exact H].
Defined.
