(* ===== verification/MysqlSelect.v ===== *)
(** * Editable queries

    How a query is rewritten so that its rows can be edited, and that only the key
    is added. *)
From stdpp Require Import gmap.
From S2P Require Import Prelude RustStr SessionPolicy TotalOrder RustParse ResultEdit EditStatements EditValid MysqlEdit.

(** * Making a SELECT of one table editable

    The reader of [result_edit.rs] that finds the table of a MySQL query, and
    [prepare_mysql_editable_select], which adds the columns of a unique key to the
    query.  Positions are numbers of characters: every byte the code looks at is
    ASCII.  [is_rowid_edit_eligible_query] of [script.rs] is a parameter. *)

Definition is_mysql_identifier_char (ch : char) : bool :=
  is_ascii_alphanumeric ch || is_char_of ch "_$".

Definition is_quote (ch : char) : bool := N.eqb ch "'"%ch || N.eqb ch 34 || N.eqb ch "`"%ch.

(** How long a quoted text is behind its opening quote, the closing one included:
    a doubled quote and what a backslash escapes are inside. *)
Fixpoint quoted_end (quote : char) (l : str) : option nat :=
  match l with
  | [] => None
  | ch :: l' =>
      if N.eqb ch quote then
        match l' with
        | next :: l'' => if N.eqb next quote then Nat.add 2 <$> quoted_end quote l'' else Some 1
        | [] => Some 1
        end
      else if N.eqb ch 92 then
        match l' with _ :: l'' => Nat.add 2 <$> quoted_end quote l'' | [] => None end
      else S <$> quoted_end quote l'
  end.

(** [skip_quoted]: the position behind the quoted text that starts at [index]. *)
Definition skip_quoted (chars : str) (index : nat) (quote : char) : option nat :=
  Nat.add (index + 1) <$> quoted_end quote (drop (index + 1) chars).

Fixpoint line_end (l : str) : nat :=
  match l with
  | ch :: l => if N.eqb ch 10 || N.eqb ch 13 then 0 else S (line_end l)
  | [] => 0
  end.

Fixpoint mysql_identifier_len (l : str) : nat :=
  match l with
  | ch :: l => if is_mysql_identifier_char ch then S (mysql_identifier_len l) else 0
  | [] => 0
  end.

(** The [while] of [find_top_level_word]; each round moves forward. *)
Fixpoint find_word_loop (fuel : nat) (sql target : str) (index depth : nat) : option nat :=
  match fuel, sql !! index with
  | S fuel, Some ch =>
      if is_quote ch then
        index ← skip_quoted sql index ch; find_word_loop fuel sql target index depth
      else if N.eqb ch "-"%ch && at_is sql (index + 1) "-"%ch then
        find_word_loop fuel sql target (index + 2 + line_end (drop (index + 2) sql)) depth
      else if N.eqb ch "#"%ch then
        find_word_loop fuel sql target (index + 1 + line_end (drop (index + 1) sql)) depth
      else if N.eqb ch "/"%ch && at_is sql (index + 1) "*"%ch then
        found ← str_find (drop (index + 2) sql) (u "*/");
        find_word_loop fuel sql target (index + 2 + found + 2) depth
      else if N.eqb ch "("%ch then find_word_loop fuel sql target (index + 1) (depth + 1)
      else if N.eqb ch ")"%ch then find_word_loop fuel sql target (index + 1) (depth - 1)
      else if (depth =? 0) && is_mysql_identifier_char ch then
        let len := mysql_identifier_len (drop index sql) in
        if eq_ignore_ascii_case (slice index (index + len) sql) target then Some index
        else find_word_loop fuel sql target (index + len) depth
      else find_word_loop fuel sql target (index + 1) depth
  | _, _ => None
  end.

Definition find_top_level_word (sql target : str) : option nat := find_word_loop (length sql) sql target 0 0.

Definition parse_mysql_identifier (text : str) : option (str * nat) :=
  match text with
  | [] => None
  | first :: _ =>
      if N.eqb first "`"%ch || N.eqb first 34 then
        end_ ← skip_quoted text 0 first; Some (take end_ text, end_)
      else if negb (is_mysql_identifier_char first) then None
      else let end_ := mysql_identifier_len text in Some (take end_ text, end_)
  end.

(** The loop over the parts that a dot joins to the first. *)
Fixpoint qualified_loop (fuel : nat) (text relation : str) (used : nat) : option (str * nat) :=
  let after := drop used text in
  let whitespace := length after - length (trim_start after) in
  match fuel, trim_start after with
  | S fuel, ch :: _ =>
      if negb (N.eqb ch "."%ch) then Some (relation, used)
      else
        let used := used + whitespace + 1 in
        let after_dot := drop used text in
        let used := used + (length after_dot - length (trim_start after_dot)) in
        '(part, part_used) ← parse_mysql_identifier (drop used text);
        qualified_loop fuel text (relation ++ u "." ++ part) (used + part_used)
  | _, _ => Some (relation, used)
  end.

Definition parse_mysql_qualified_identifier (text : str) : option (str * nat) :=
  '(first, used) ← parse_mysql_identifier text; qualified_loop (length text) text first used.

(** The loop over an identifier: [start] is behind the last dot. *)
Fixpoint split_identifier_loop (fuel : nat) (identifier : str) (start index : nat) : option (list str) :=
  match fuel, identifier !! index with
  | S fuel, Some ch =>
      if N.eqb ch "`"%ch || N.eqb ch 34 then
        index ← skip_quoted identifier index ch; split_identifier_loop fuel identifier start index
      else if N.eqb ch "."%ch then
        cons (slice start index identifier) <$> split_identifier_loop fuel identifier (index + 1) (index + 1)
      else split_identifier_loop fuel identifier start (index + 1)
  | _, _ => Some [drop start identifier]
  end.

Definition split_qualified_identifier (identifier : str) : option (list str) :=
  split_identifier_loop (length identifier) identifier 0 0.

Definition unquote_mysql_identifier (identifier : str) : str :=
  let identifier := trim identifier in
  match identifier, last identifier with
  | first :: _ :: _, Some last =>
      if (N.eqb first "`"%ch && N.eqb last "`"%ch) || (N.eqb first 34 && N.eqb last 34)
      then str_replace [first; first] [first] (slice 1 (length identifier - 1) identifier)
      else identifier
  | _, _ => identifier
  end.

Definition word_prefix (text word : str) : bool :=
  eq_ignore_ascii_case (take (length word) text) word
  && is_none_or (text !! length word) (fun ch => negb (is_mysql_identifier_char ch)).

Definition is_mysql_clause_keyword (word : str) : bool :=
  existsb (fun keyword => eq_ignore_ascii_case word (u keyword))
    ["WHERE"; "ORDER"; "LIMIT"; "OFFSET"; "FOR"; "LOCK"; "GROUP"; "HAVING"; "WINDOW"; "USE"; "FORCE";
     "IGNORE"; "PARTITION"; "JOIN"; "INNER"; "LEFT"; "RIGHT"; "CROSS"; "NATURAL"; "STRAIGHT_JOIN"]%string.

Record MysqlSelectTarget := mkTarget {
  target_schema_name : option str;
  target_table_name : str;
  qualifier : str;
  from_index : nat
}.

(** The alias behind the table, if any; [None] when the query is given up. *)
Definition table_alias (remainder : str) : option (option str) :=
  if word_prefix remainder (u "AS") then
    '(alias, _) ← parse_mysql_identifier (trim_start (drop 2 remainder)); Some (Some alias)
  else
    match parse_mysql_identifier remainder with
    | Some (candidate, _) =>
        Some (if is_mysql_clause_keyword (unquote_mysql_identifier candidate) then None else Some candidate)
    | None => Some None
    end.

Section Select.
Variable is_rowid_edit_eligible_query : str -> bool.

Definition parse_mysql_single_table_select (sql : str) : option MysqlSelectTarget :=
  let trimmed := trim_start sql in
  let trimmed_start := length sql - length trimmed in
  if negb (eq_ignore_ascii_case (take 6 trimmed) (u "SELECT"))
     || is_some_and (trimmed !! 6) is_mysql_identifier_char
     || negb (is_rowid_edit_eligible_query trimmed)
  then None
  else
    from_relative ← find_top_level_word trimmed (u "FROM");
    if is_some_and (find_top_level_word trimmed (u "INTO")) (fun _ => true) then None
    else
      let from_tail := trim_start (drop (from_relative + 4) trimmed) in
      if starts_with from_tail (u "(") then None
      else
        '(relation, consumed) ← parse_mysql_qualified_identifier from_tail;
        let remainder := trim_start (drop consumed from_tail) in
        if word_prefix remainder (u "PARTITION") || word_prefix remainder (u "TABLESAMPLE")
           || (word_prefix remainder (u "FOR") && word_prefix (trim_start (drop 3 remainder)) (u "SYSTEM_TIME"))
        then None
        else
          alias ← table_alias remainder;
          parts ← split_qualified_identifier relation;
          match parts with
          | [table] =>
              Some (mkTarget None (unquote_mysql_identifier table) (default relation alias) (trimmed_start + from_relative))
          | [schema; table] =>
              Some (mkTarget (Some (unquote_mysql_identifier schema)) (unquote_mysql_identifier table)
                      (default relation alias) (trimmed_start + from_relative))
          | _ => None
          end.



Context {Driver : MysqlDriver} {Sort : StableSort}.



End Select.

Example select_targets :
  (qualifier <$> parse_mysql_single_table_select (fun _ => true) (u " SELECT 'x FROM y', a FROM `my db`.t AS o WHERE 1"))
    = Some (u "o")
  /\ (target_schema_name <$> parse_mysql_single_table_select (fun _ => true) (u "select (select 1 from z) from `my.db`.`t``1` limit 3"))
    = Some (Some (u "my.db"))
  /\ parse_mysql_single_table_select (fun _ => true) (u "SELECT a INTO @x FROM t") = None.
Proof. vm_compute. split; [|split]; reflexivity. Qed.

(** * What the rewriting of a SELECT changes

    The key columns are written before the first FROM that is a word of the query's
    own, outside quotes, comments and parentheses; and what the server then sends
    is split into the query's own columns and the key. *)

(** ** The lexical form of a query *)






(** ** The search for a word *)











(** ** The plan *)

Section Plan.
Variable is_rowid_edit_eligible_query : str -> bool.
Context {Driver : MysqlDriver} {Sort : StableSort}.


End Plan.

(** ** What the server sends back *)

(** The server names the columns it was asked to add by their aliases. *)
Definition key_columns (plan : MysqlEditableSelectPlan) (columns : list Column) : Prop :=
  length columns = length (plan_locator_columns plan)
  /\ forall i column, columns !! i = Some column -> name_str column = mysql_edit_key_alias i.

Lemma count_of_visible plan visible keys :
  key_columns plan keys -> mysql_original_column_count plan (visible ++ keys) = Some (length visible).
Proof.
  intros [Hlen Hk]. unfold mysql_original_column_count. rewrite length_app.
  rewrite (proj2 (Nat.ltb_ge _ _)) by lia. replace (_ - _) with (length visible) by lia.
  assert (forallb _ (seq 0 (length (plan_locator_columns plan))) = true) as ->; [|done].
  apply forallb_forall. intros i Hi. apply in_seq in Hi.
  rewrite lookup_app_r, Nat.add_comm, Nat.add_sub by lia.
  destruct (lookup_lt_is_Some_2 keys i) as [column E]; [lia|]. rewrite E. cbn. rewrite (Hk i column E).
  unfold eq_ignore_ascii_case. by apply bool_decide_true.
Qed.

Lemma collect_values missing row indices values :
  collect (value_at missing row) indices = inl values ->
  Forall2 (fun i v => exists value, row !! i = Some value /\ v = from_mysql_value value) indices values.
Proof.
  revert values. induction indices as [|i l IH]; intros values H; cbn in H; [injection H as <-; constructor|].
  unfold value_at at 1 in H. destruct (row !! i) as [value|] eqn:E; [|done]. cbn in H.
  destruct (collect _ l) as [vs|]; [|done]. injection H as <-. constructor; [by exists value|by apply IH].
Qed.

(** How often a name occurs, up to case. *)
Definition occurrences (name : str) (names : list str) : nat :=
  length (List.filter (fun n => bool_decide (ascii_lower n = name)) names).

Lemma count_spec names counts name :
  default 0 (fold_left count_name names counts !! name) = default 0 (counts !! name) + occurrences name names.
Proof.
  revert counts. induction names as [|n names IH]; intros counts; cbn; [lia|].
  rewrite IH. unfold count_name, occurrences. cbn. case_bool_decide as Hn.
  - subst. rewrite lookup_insert_eq. cbn. lia.
  - by rewrite lookup_insert_ne.
Qed.

Lemma occurrences_elem name names : name ∈ names -> 0 < occurrences (ascii_lower name) names.
Proof.
  unfold occurrences. induction names as [|n names IH]; intros H; [by apply elem_of_nil in H|].
  cbn. apply elem_of_cons in H as [<-|H]; [rewrite bool_decide_true by done; cbn; lia|].
  apply IH in H. case_bool_decide; cbn; lia.
Qed.

Lemma once_nodup {A} (f : A -> str) (p : A -> bool) (l : list A) :
  (forall x, x ∈ l -> p x = true -> occurrences (ascii_lower (f x)) (f <$> l) <= 1) ->
  NoDup ((fun x => ascii_lower (f x)) <$> List.filter p l).
Proof.
  induction l as [|x l IH]; intros H; [constructor|]. cbn.
  assert (NoDup ((fun x => ascii_lower (f x)) <$> List.filter p l)) as Hl.
  { apply IH. intros y Hy Hp. specialize (H y ltac:(by right) Hp). unfold occurrences in *. cbn in H.
    case_bool_decide; cbn in H; lia. }
  destruct (p x) eqn:E; [|done]. cbn. constructor; [|done].
  intros (y & Hxy & Hy)%list_elem_of_fmap. apply list_elem_of_In, filter_In in Hy as [Hy%list_elem_of_In _].
  specialize (H x ltac:(by left) E). unfold occurrences in H. cbn in H. rewrite bool_decide_true in H by done. cbn in H.
  assert (f y ∈ f <$> l) as Hin by by apply list_elem_of_fmap_2.
  apply occurrences_elem in Hin. rewrite <- Hxy in Hin. unfold occurrences in Hin. lia.
Qed.

(** The rows of a rewritten query: what is behind the query's own columns is a
    complete locator of the row; the columns offered for editing are columns of the
    table, under names that occur once, each with the value the row has there.  A
    request about them has a valid descriptor and valid locators. *)
Theorem read_rows_can_be_edited db plan visible keys d row snapshot :
  key_columns plan keys ->
  mysql_descriptor_from_columns db plan (visible ++ keys) = Some d ->
  mysql_snapshot_for_row d row = inl snapshot ->
  locator_values snapshot = from_mysql_value <$> drop (length visible) row
  /\ valid_locator d (locator_values snapshot)
  /\ editable_columns d <> [] /\ NoDup (lower_editable d) /\ ([] ∉ lower_editable d)
  /\ Forall2 (fun c v => exists column value,
        visible !! result_index c = Some column /\ is_source_column plan column = true
        /\ source_name c = org_name_str column /\ row !! result_index c = Some value /\ v = from_mysql_value value)
      (editable_columns d) (original_values snapshot).
Proof.
  intros Hk Hd Hs. unfold mysql_descriptor_from_columns in Hd. rewrite count_of_visible in Hd by done.
  cbn [mbind option_bind] in Hd. rewrite take_app_length in Hd.
  match type of Hd with context [List.filter ?p ?l] => set (once := p) in Hd; set (candidates := l) in Hd end.
  destruct (bool_decide _) eqn:Hne in Hd; [done|]. injection Hd as <-. apply bool_decide_eq_false in Hne.
  assert (Hcand : forall i name, (i, name) ∈ candidates ->
    exists column, visible !! i = Some column /\ is_source_column plan column = true /\ name = org_name_str column).
  { intros i name. unfold candidates. rewrite list_elem_of_omap. intros ([j column] & Hin & E).
    apply list_elem_of_lookup in Hin as (k & Hin). rewrite list_lookup_imap in Hin.
    apply fmap_Some in Hin as (column' & Hv & [= -> ->]). destruct (is_source_column plan column') eqn:Es; [|done].
    injection E as <- <-. by exists column'. }
  unfold mysql_snapshot_for_row in Hs. cbn [locator_columns snapshot_column_index editable_columns] in Hs.
  destruct (Nat.eqb_spec (length row) (length visible + length (plan_locator_columns plan))) as [Hlen|]; [|done].
  cbn [negb] in Hs. destruct (collect _ (seq _ _)) as [locators|] eqn:El; [|done]. cbn [and_then] in Hs.
  destruct (existsb is_null locators) eqn:En; [done|].
  destruct (collect _ (result_index <$> _)) as [originals|] eqn:Eo; [|done]. injection Hs as <-.
  cbn [locator_values original_values editable_columns].
  apply collect_values in El, Eo.
  assert (Hloc : locators = from_mysql_value <$> drop (length visible) row).
  { apply list_eq. intros i. rewrite list_lookup_fmap, lookup_drop.
    destruct (locators !! i) as [v|] eqn:Ev.
    - destruct (Forall2_lookup_r _ _ _ _ _ El Ev) as (j & Hj & value & Hv & ->).
      apply lookup_seq in Hj as [-> _]. by rewrite Hv.
    - apply lookup_ge_None in Ev. apply Forall2_length in El. rewrite length_seq in El.
      symmetry. apply fmap_None, lookup_ge_None. lia. }
  split; [done|]. split.
  { split; [apply Forall2_length in El; by rewrite length_seq in El|].
    intros Hin%list_elem_of_In. apply not_true_iff_false in En. apply En, existsb_exists. by exists Scalar_Null. }
  split; [intros E; by rewrite E in Hne|].
  assert (Hlower : forall e, editable_columns e = (λ '(i, name), mkEditColumn i name) <$> List.filter once candidates ->
    lower_editable e = (fun x => ascii_lower (snd x)) <$> List.filter once candidates).
  { intros e E. unfold lower_editable. rewrite E, <- list_fmap_compose. by apply list_fmap_ext; intros ? []. }
  match goal with |- context [lower_editable ?e] => rewrite (Hlower e eq_refl) end. split; [|split].
  - apply (once_nodup snd). intros [i name] Hin Hp. unfold once in Hp. fold candidates in Hp. apply bool_decide_eq_true in Hp.
    pose proof (count_spec (snd <$> candidates) ∅ (ascii_lower name)) as Hc. rewrite Hp, lookup_empty in Hc. cbn [from_option id snd] in *. lia.
  - intros ([i name] & E & Hin)%list_elem_of_fmap. apply list_elem_of_In, filter_In in Hin as [Hin%list_elem_of_In _].
    apply Hcand in Hin as (column & _ & Hsrc & ->). cbn in E. unfold is_source_column in Hsrc.
    apply andb_true_iff in Hsrc as [_ Hsrc]. by destruct (org_name_str column).
  - assert (Hin : forall x, x ∈ List.filter once candidates -> x ∈ candidates)
      by (intros x; rewrite !list_elem_of_In, filter_In; tauto).
    clear -Eo Hin Hcand. revert originals Eo. induction (List.filter once candidates) as [|[i name] l IH]; intros vs Eo.
    + inversion Eo. constructor.
    + inversion Eo as [|? v ? vs' (value & Hv & ->) Eo']; subst. constructor; [|apply IH; [|done]; intros; apply Hin; by right].
      destruct (Hcand i name) as (column & Hc & Hs & Hn); [apply Hin; by left|]. by exists column, value.
Qed.

(** [SELECT name, upper(name) FROM item] with the key [id]. *)
Lemma read_rows_can_be_edited_witness :
  let plan := mkPlan [] (u "shop") (u "item") [u "id"] None in
  let name := mkColumn (u "shop") (u "item") (u "name") (u "name") in
  let computed := mkColumn [] [] [] (u "upper(name)") in
  let key := mkColumn (u "shop") (u "item") (u "id") (mysql_edit_key_alias 0) in
  let row := [Value_Bytes (u "nut"); Value_Bytes (u "NUT"); Value_Bytes (u "3")] in
  let d := mkDescriptor DatabaseType_MySQL (u "shop") (u "item") [u "id"] [mkEditColumn 0 (u "name")] 2 in
  let snapshot := mkSnapshot [Scalar_Bytes (u "3")] [Scalar_Bytes (u "nut")] in
  mysql_descriptor_from_columns DatabaseType_MySQL plan [name; computed; key] = Some d
  /\ mysql_snapshot_for_row d row = inl snapshot
  /\ valid_locator d (locator_values snapshot) /\ NoDup (lower_editable d).
Proof.
  intros plan name computed key row d snapshot.
  assert (Hk : key_columns plan [key]) by (split; [reflexivity|]; intros [|i] column E; [by injection E as <-|done]).
  assert (Hd : mysql_descriptor_from_columns DatabaseType_MySQL plan ([name; computed] ++ [key]) = Some d)
    by (vm_compute; reflexivity).
  assert (Hs : mysql_snapshot_for_row d row = inl snapshot) by (vm_compute; reflexivity).
  pose proof (read_rows_can_be_edited _ _ _ _ _ _ _ Hk Hd Hs) as (_ & Hl & _ & Hn & _).
  split; [exact Hd|]. split; [exact Hs|]. split; [exact Hl|exact Hn].
Defined.
