(* ===== verification/ResultExport.v ===== *)
(** * Writing a result grid to a file

    [result_export.rs]: the formats, the grid that is exported and the text each
    format makes of it.  JSON strings are written by serde_json and are a
    parameter, as are the two formats the file routes elsewhere: the SQL of
    [grid_sql_export.rs] and the bytes of [parquet_export.rs]. *)
From stdpp Require Import gmap pretty.
From S2P Require Import Prelude RustStr Utf8 TotalOrder GridSort RustParse.

(** ** Formats *)

Inductive ExportFormat := Csv | Tsv | Json | Xml | Html | Markdown | Parquet | SqlInserts.
#[export] Instance ExportFormat_eq_dec : EqDecision ExportFormat.
Proof. solve_decision. Defined.

Definition ALL_FORMATS : list ExportFormat := [Csv; Tsv; Json; Xml; Html; Markdown; Parquet; SqlInserts].

Definition label (f : ExportFormat) : str :=
  u match f with
    | Csv => "CSV" | Tsv => "TSV" | Json => "JSON" | Xml => "XML" | Html => "HTML"
    | Markdown => "Markdown" | Parquet => "Parquet" | SqlInserts => "SQL Inserts"
    end.

Definition extension (f : ExportFormat) : str :=
  u match f with
    | Csv => "csv" | Tsv => "tsv" | Json => "json" | Xml => "xml" | Html => "html"
    | Markdown => "md" | Parquet => "parquet" | SqlInserts => "sql"
    end.

Definition writes_text (f : ExportFormat) : bool :=
  match f with Parquet => false | _ => true end.

Definition clipboard_refusal (f : ExportFormat) : option str :=
  if writes_text f then None
  else Some (label f ++ u " is a binary format, so it can only be exported to a file.").

Definition file_filter (f : ExportFormat) : str := label f ++ u " Files" ++ [9%N] ++ u "*." ++ extension f.

Definition file_byte_order_mark (f : ExportFormat) : str :=
  match f with Csv | Tsv => [65279%N] | _ => [] end.

(** ** What a build produced *)

Inductive ExportContent (B : Type) :=
  | Written (body : B) (rows : nat)
  | Refused (reason : str).
Arguments Written {B}.
Arguments Refused {B}.

Definition content_rows {B} (c : ExportContent B) : nat :=
  match c with Written _ rows => rows | Refused _ => 0 end.

Definition refusal {B} (c : ExportContent B) : option str :=
  match c with Written _ _ => None | Refused reason => Some reason end.

Definition map_body {B C} (wrap : B -> C) (c : ExportContent B) : ExportContent C :=
  match c with Written body rows => Written (wrap body) rows | Refused reason => Refused reason end.

Definition into_parts {B} (c : ExportContent B) : B * nat + str :=
  match c with Written body rows => inl (body, rows) | Refused reason => inr reason end.

Definition nothing : ExportContent str := Written [] 0.

Definition content_text (c : ExportContent str) : str :=
  match c with Written body _ => body | Refused _ => [] end.

Inductive ExportBody := Body_Text (text : str) | Body_Binary (bytes : bytes).

Definition as_bytes (b : ExportBody) : bytes :=
  match b with Body_Text text => encode_str text | Body_Binary bytes => bytes end.

Definition as_text (b : ExportBody) : option str :=
  match b with Body_Text text => Some text | Body_Binary _ => None end.

(** [map_text] of an [ExportContent<ExportBody>]. *)
Definition map_body_text (rewrite : str -> str) (c : ExportContent ExportBody) : ExportContent ExportBody :=
  map_body (fun body =>
    match body with
    | Body_Text text => Body_Text (rewrite text)
    | Body_Binary bytes => Body_Binary bytes
    end) c.

Inductive ExportDestination := Destination_File | Destination_Clipboard.

Definition with_destination_prelude (f : ExportFormat) (destination : ExportDestination) (text : str) : str :=
  match destination with
  | Destination_File => file_byte_order_mark f
  | Destination_Clipboard => []
  end ++ text.

(** ** The grid *)

Abbreviation ExportCell := (option str).

Record ExportGrid := mkExportGrid {
  columns : list str;
  column_kinds : list SqlValueKind;
  rows : list (list ExportCell);
  null_text : str
}.

(** A column the row does not reach is NULL. *)
Definition grid_cell (row : list ExportCell) (index : nat) : ExportCell := default None (row !! index).

Definition display_cell (g : ExportGrid) (row : list ExportCell) (index : nat) : str * bool :=
  match grid_cell row index with
  | Some value => (value, str_is_empty value || (value == null_text g))
  | None => (null_text g, false)
  end.

Definition column_kind (g : ExportGrid) (index : nat) : SqlValueKind :=
  default Kind_Unknown (column_kinds g !! index).

(** ** Delimited text *)

Definition LF : char := 10%N.
Definition CR : char := 13%N.
Definition QUOTE : char := 34%N.

(** [cfg!(windows)] is an argument. *)
Definition csv_line_ending (windows : bool) : str := if windows then [CR; LF] else [LF].

Definition delimited_field_needs_quotes (field : str) (separator : char) : bool :=
  existsb (fun ch => N.eqb ch separator || N.eqb ch QUOTE || N.eqb ch LF || N.eqb ch CR) field.

Definition escape_delimited_field (field : str) (separator : char) (force_quotes : bool) : str :=
  if force_quotes || delimited_field_needs_quotes field separator
  then [QUOTE] ++ str_replace [QUOTE] [QUOTE; QUOTE] field ++ [QUOTE]
  else field.

Definition escape_tab_separated_field (field : str) : str := escape_delimited_field field 9 false.

Definition delimited_row (g : ExportGrid) (separator : char) (row : list ExportCell) : str :=
  join [separator]
    ((fun index => let '(text, force_quotes) := display_cell g row index in
                   escape_delimited_field text separator force_quotes) <$> seq 0 (length (columns g))).

Definition render_separated (windows : bool) (g : ExportGrid) (separator : char) : str :=
  join [separator] ((fun column => escape_delimited_field column separator false) <$> columns g)
  ++ csv_line_ending windows
  ++ concat ((fun row => delimited_row g separator row ++ csv_line_ending windows) <$> rows g).

(** ** Unique names *)

(** The first free name of [name_2], [name_3], .. *)
Fixpoint free_name (fuel : nat) (taken : gset str) (name : str) (suffix : nat) : option str :=
  match fuel with
  | 0 => None
  | S fuel =>
      let candidate := name ++ u "_" ++ to_decimal suffix in
      if bool_decide (candidate ∈ taken) then free_name fuel taken name (suffix + 1) else Some candidate
  end.

(** [None] is a search that does not end. *)
Fixpoint unique_loop (taken : gset str) (names : list str) : option (list str) :=
  match names with
  | [] => Some []
  | name :: names =>
      unique ← if bool_decide (name ∈ taken) then free_name (S (size taken)) taken name 2 else Some name;
      cons unique <$> unique_loop ({[unique]} ∪ taken) names
  end.

Definition unique_field_names (names : list str) : option (list str) := unique_loop ∅ names.

(** ** JSON *)

(** The states of the number grammar are the code's successive [peek]s. *)
Fixpoint skip_digits (chars : str) : str :=
  match chars with
  | ch :: rest => if is_ascii_digit ch then skip_digits rest else chars
  | [] => []
  end.

Definition starts_with_digit (chars : str) : bool :=
  match chars with ch :: _ => is_ascii_digit ch | [] => false end.

(** A group of digits that must not be empty. *)
Definition some_digits (chars : str) : option str :=
  if starts_with_digit chars then Some (skip_digits chars) else None.

Definition json_integer (chars : str) : option str :=
  match chars with
  | ch :: rest => if N.eqb ch "0"%ch then Some rest else some_digits chars
  | [] => None
  end.

Definition json_fraction (chars : str) : option str :=
  match chars with
  | ch :: rest => if N.eqb ch "."%ch then some_digits rest else Some chars
  | [] => Some []
  end.

Definition json_exponent (chars : str) : option str :=
  match chars with
  | ch :: rest =>
      if is_char_of ch "eE" then
        some_digits match rest with
                    | sign :: rest' => if is_char_of sign "+-" then rest' else rest
                    | [] => rest
                    end
      else Some chars
  | [] => Some []
  end.

Definition is_json_number (value : str) : bool :=
  let chars := match value with ch :: rest => if N.eqb ch "-"%ch then rest else value | [] => value end in
  is_some_and (chars ← json_integer chars; chars ← json_fraction chars; json_exponent chars) str_is_empty.

Section Json.
(** [serde_json::to_string] of a string. *)
Variable json_string : str -> str.

Definition json_value (g : ExportGrid) (row : list ExportCell) (index : nat) : str :=
  match grid_cell row index with
  | None => u "null"
  | Some value =>
      let trimmed := trim value in
      match column_kind g index with
      | Kind_Boolean =>
          if eq_ignore_ascii_case trimmed (u "true") then u "true"
          else if eq_ignore_ascii_case trimmed (u "false") then u "false"
          else if is_json_number trimmed then trimmed
          else json_string value
      | Kind_Number => if is_json_number trimmed then trimmed else json_string value
      | _ => json_string value
      end
  end.

(** One member of an object; [last] leaves the comma out. *)
Definition json_member (g : ExportGrid) (names : list str) (row : list ExportCell) (index : nat) (column : str) : str :=
  u "    " ++ json_string column ++ u ": " ++ json_value g row index
  ++ (if index + 1 <? length names then u "," else []) ++ [LF].

Definition json_row (g : ExportGrid) (names : list str) (row_index : nat) (row : list ExportCell) : str :=
  u "  {" ++ [LF] ++ concat (imap (json_member g names row) names) ++ u "  }"
  ++ (if row_index + 1 <? length (rows g) then u "," else []) ++ [LF].

Definition render_json (g : ExportGrid) : option str :=
  if bool_decide (rows g = []) then Some (u "[]" ++ [LF])
  else
    names ← unique_field_names (columns g);
    Some (u "[" ++ [LF] ++ concat (imap (json_row g names) (rows g)) ++ u "]" ++ [LF]).
End Json.

(** ** Markup *)

Definition escape_markup (value : str) (html : bool) : str :=
  concat ((fun ch =>
    if N.eqb ch "&"%ch then u "&amp;"
    else if N.eqb ch "<"%ch then u "&lt;"
    else if N.eqb ch ">"%ch then u "&gt;"
    else if N.eqb ch QUOTE && html then u "&quot;"
    else if N.eqb ch CR then u "&#13;"
    else if N.eqb ch 9 || N.eqb ch LF then [ch]
    else if N.ltb ch 32 || N.eqb ch 65534 || N.eqb ch 65535 then [65533%N]
    else [ch]) <$> value).

Definition escape_xml_text (value : str) : str := escape_markup value false.
Definition escape_html_text (value : str) : str := escape_markup value true.

Section Names.
Context {Tables : UnicodeTables}.

Definition xml_name_char (ch : char) : bool := is_alphanumeric ch || is_char_of ch "_-.".

Definition xml_element_name (column : str) (index : nat) : str :=
  let name := (fun ch => if xml_name_char ch then ch else "_"%ch) <$> trim column in
  let starts_legally := is_some_and (head name) (fun ch => is_alphabetic ch || N.eqb ch "_"%ch) in
  if negb starts_legally || starts_with (ascii_lower name) (u "xml")
  then u "column_" ++ to_decimal (index + 1)
  else name.

Definition xml_cell (cell : ExportCell) (name : str) : str :=
  match cell with
  | None => u "    <" ++ name ++ u "/>" ++ [LF]
  | Some value => u "    <" ++ name ++ u ">" ++ escape_xml_text value ++ u "</" ++ name ++ u ">" ++ [LF]
  end.

Definition xml_row (names : list str) (row : list ExportCell) : str :=
  u "  <row>" ++ [LF] ++ concat (imap (fun index name => xml_cell (grid_cell row index) name) names)
  ++ u "  </row>" ++ [LF].

Definition xml_prolog : str :=
  u "<?xml version=" ++ [QUOTE] ++ u "1.0" ++ [QUOTE] ++ u " encoding=" ++ [QUOTE] ++ u "UTF-8" ++ [QUOTE] ++ u "?>"
  ++ [LF] ++ u "<results>" ++ [LF].

Definition render_xml (g : ExportGrid) : option str :=
  names ← unique_field_names (imap (fun index column => xml_element_name column index) (columns g));
  Some (xml_prolog ++ concat (xml_row names <$> rows g) ++ u "</results>" ++ [LF]).
End Names.

Definition html_prolog : str :=
  u "<!DOCTYPE html>" ++ [LF] ++ u "<html>" ++ [LF] ++ u "<head>" ++ [LF]
  ++ u "<meta charset=" ++ [QUOTE] ++ u "utf-8" ++ [QUOTE] ++ u ">" ++ [LF]
  ++ u "<title>Query Result</title>" ++ [LF] ++ u "<style>" ++ [LF]
  ++ u "table { border-collapse: collapse; font-family: sans-serif; font-size: 13px; }" ++ [LF]
  ++ u "th, td { border: 1px solid #999; padding: 4px 8px; text-align: left; }" ++ [LF]
  ++ u "th { background: #eee; }" ++ [LF]
  ++ u "</style>" ++ [LF] ++ u "</head>" ++ [LF] ++ u "<body>" ++ [LF] ++ u "<table>" ++ [LF] ++ u "<thead>" ++ [LF]
  ++ u "<tr>".

Definition html_heading (column : str) : str := u "<th>" ++ escape_html_text column ++ u "</th>".

Definition html_cell (cell : ExportCell) : str :=
  u "<td>" ++ match cell with None => [] | Some value => escape_html_text value end ++ u "</td>".

Definition html_row (g : ExportGrid) (row : list ExportCell) : str :=
  u "<tr>" ++ concat ((fun index => html_cell (grid_cell row index)) <$> seq 0 (length (columns g)))
  ++ u "</tr>" ++ [LF].

Definition html_epilog : str :=
  u "</tbody>" ++ [LF] ++ u "</table>" ++ [LF] ++ u "</body>" ++ [LF] ++ u "</html>" ++ [LF].

Definition render_html (g : ExportGrid) : str :=
  html_prolog ++ concat (html_heading <$> columns g)
  ++ u "</tr>" ++ [LF] ++ u "</thead>" ++ [LF] ++ u "<tbody>" ++ [LF]
  ++ concat (html_row g <$> rows g) ++ html_epilog.

(** ** Markdown *)

(** [value.replace(['\n', '\r'], "<br>")]. *)
Definition replace_line_breaks (value : str) : str :=
  concat ((fun ch => if N.eqb ch LF || N.eqb ch CR then u "<br>" else [ch]) <$> value).

Definition escape_markdown_cell (value : str) : str :=
  replace_line_breaks
    (str_replace [CR; LF] (u "<br>")
      (str_replace (u "<") (u "\<")
        (str_replace (u "|") (u "\|")
          (str_replace (u "\") (u "\\") value)))).

Definition markdown_row (g : ExportGrid) (row : list ExportCell) : str :=
  u "| "
  ++ join (u " | ") ((fun index => match grid_cell row index with
                                   | None => []
                                   | Some value => escape_markdown_cell value
                                   end) <$> seq 0 (length (columns g)))
  ++ u " |" ++ [LF].

Definition render_markdown (g : ExportGrid) : str :=
  u "| " ++ join (u " | ") (escape_markdown_cell <$> columns g) ++ u " |" ++ [LF]
  ++ u "| " ++ join (u " | ") (replicate (length (columns g)) (u "---")) ++ u " |" ++ [LF]
  ++ concat (markdown_row g <$> rows g).

(** ** All formats *)

Section Render.
Context {Tables : UnicodeTables}.
Variable windows : bool.
Variable json_string : str -> str.

(** The two formats that are not rendered here give an empty text. *)
Definition render (f : ExportFormat) (g : ExportGrid) : option str :=
  match f with
  | Csv => Some (render_separated windows g ","%ch)
  | Tsv => Some (render_separated windows g 9)
  | Json => render_json json_string g
  | Xml => render_xml g
  | Html => Some (render_html g)
  | Markdown => Some (render_markdown g)
  | SqlInserts | Parquet => Some []
  end.

Variable GridSqlSelection : Type.
Variable build_sql_inserts : GridSqlSelection -> ExportContent str.
Variable parquet_render : ExportGrid -> ExportContent bytes.

Definition render_export_content (f : ExportFormat) (g : ExportGrid) (sql_selection : option GridSqlSelection)
    : option (ExportContent ExportBody) :=
  match f with
  | SqlInserts =>
      Some (map_body Body_Text match sql_selection with
                               | Some selection => build_sql_inserts selection
                               | None => nothing
                               end)
  | Parquet => Some (map_body Body_Binary (parquet_render g))
  | _ => text ← render f g; Some (Written (Body_Text text) (length (rows g)))
  end.
End Render.
