(* ===== verification/ImportDelimited.v ===== *)
(** * Delimited text

    The CSV and TSV reader, and that it reads what the writer wrote. *)
From S2P Require Import Prelude RustStr RustParse ResultExport.

(** * Reading delimited files

    The part of [result_import.rs] every format shares (the table that is read,
    the options, the last check) and the reader of CSV and TSV. *)

Abbreviation ImportCell := (option str).

Record ImportedTable := mkTable {
  table_columns : list str;
  table_rows : list (list ImportCell);
  file_named_the_columns : bool
}.
#[export] Instance ImportedTable_eta : Eta ImportedTable :=
  fun t => mkTable (table_columns t) (table_rows t) (file_named_the_columns t).

Definition of_named_columns (columns : list str) (rows : list (list ImportCell)) : ImportedTable :=
  mkTable columns rows true.

Definition of_records (first : list ImportCell) (rest : list (list ImportCell)) (first_record_names_the_columns : bool)
    : ImportedTable :=
  if first_record_names_the_columns then mkTable (default [] <$> first) rest true
  else mkTable ((fun index => u "COLUMN_" ++ to_decimal index) <$> seq 1 (length first)) (first :: rest) false.

Record ImportOptions := mkOptions {
  import_format : ExportFormat;
  has_header : bool;
  import_null_text : str
}.

Definition header_choice_applies (f : ExportFormat) : bool :=
  match f with Csv | Tsv | Html => true | _ => false end.
Definition null_text_choice_applies (f : ExportFormat) : bool :=
  match f with Csv | Tsv => true | _ => false end.

Definition import_formats : list ExportFormat := List.filter writes_text ALL_FORMATS.

(** From the extension of the path, if it has one that is text. *)
Definition detect_format (path_extension : option str) : option ExportFormat :=
  path_extension ← path_extension;
  let lower := ascii_lower path_extension in
  match List.find (fun f => extension f == lower) import_formats with
  | Some f => Some f
  | None =>
      if is_one_of lower ["txt"; "text"]%string then Some Csv
      else if is_word lower "markdown" then Some Markdown
      else if is_word lower "htm" then Some Html
      else None
  end.

(** [row.resize(width, None)] of a row that is not longer. *)
Definition pad (width : nat) (row : list ImportCell) : list ImportCell := row ++ replicate (width - length row) None.

Fixpoint pad_rows (width : nat) (rows : list (list ImportCell)) : list (list ImportCell) + str :=
  match rows with
  | [] => inl []
  | row :: rows =>
      if width <? length row then
        inr (u "A row has " ++ to_decimal (length row) ++ u " values but the file declares " ++ to_decimal width
             ++ u " columns.")
      else match pad_rows width rows with inl rows => inl (pad width row :: rows) | inr e => inr e end
  end.

Definition validate (table : ImportedTable) : ImportedTable + str :=
  if bool_decide (table_columns table = []) then inr (u "The file has no columns to import.")
  else if existsb (fun column => str_is_empty (trim column)) (table_columns table)
  then inr (u "The file has a column with no name.")
  else
    match pad_rows (length (table_columns table)) (table_rows table) with
    | inl rows => inl (table <| table_rows := rows |>)
    | inr e => inr e
    end.

(** ** CSV and TSV *)

Record DelimitedField := mkField { field_text : str; quoted : bool }.
#[export] Instance DelimitedField_eq_dec : EqDecision DelimitedField.
Proof. solve_decision. Defined.

(** The variables of the scan. *)
Record ReadState := mkRead {
  records : list (list DelimitedField);
  record : list DelimitedField;
  field : str;
  field_quoted : bool;
  in_quotes : bool;
  field_started : bool;
  record_started : bool
}.
#[export] Instance ReadState_eta : Eta ReadState :=
  fun s => mkRead (records s) (record s) (field s) (field_quoted s) (in_quotes s) (field_started s) (record_started s).

Definition read_start : ReadState := mkRead [] [] [] false false false false.

(** [record.push(DelimitedField { text: take(field), quoted: take(field_quoted) })]. *)
Definition take_field (s : ReadState) : ReadState :=
  s <| record ::= vec_push (mkField (field s) (field_quoted s)) |> <| field := [] |> <| field_quoted := false |>.

Definition take_record (s : ReadState) : ReadState :=
  if record_started s then
    let s := take_field s in s <| records ::= vec_push (record s) |> <| record := [] |>
  else s.

Definition end_line (s : ReadState) : ReadState :=
  take_record s <| field_started := false |> <| record_started := false |>.

Fixpoint read_loop (separator : char) (chars : str) (s : ReadState) : ReadState :=
  match chars with
  | [] => s
  | ch :: chars =>
      if in_quotes s then
        if N.eqb ch QUOTE then
          match chars with
          | next :: chars' =>
              if N.eqb next QUOTE then read_loop separator chars' (s <| field ::= vec_push QUOTE |>)
              else read_loop separator chars (s <| in_quotes := false |>)
          | [] => s <| in_quotes := false |>
          end
        else read_loop separator chars (s <| field ::= vec_push ch |>)
      else if N.eqb ch QUOTE && negb (field_started s) then
        read_loop separator chars
          (s <| field_started := true |> <| record_started := true |> <| field_quoted := true |> <| in_quotes := true |>)
      else if N.eqb ch separator then
        read_loop separator chars (take_field s <| field_started := false |> <| record_started := true |>)
      else if N.eqb ch CR then
        match chars with
        | next :: chars' => if N.eqb next LF then read_loop separator chars' (end_line s)
                            else read_loop separator chars (end_line s)
        | [] => end_line s
        end
      else if N.eqb ch LF then read_loop separator chars (end_line s)
      else
        read_loop separator chars
          (s <| field_started := true |> <| record_started := true |> <| field ::= vec_push ch |>)
  end.

Definition split_delimited_records (text : str) (separator : char) : list (list DelimitedField) :=
  records (take_record (read_loop separator text read_start)).

Definition null_text_quoting_is_a_signal (null_text : str) (separator : char) : bool :=
  negb (delimited_field_needs_quotes null_text separator).

Definition to_cell (options : ImportOptions) (quoting_is_a_signal : bool) (f : DelimitedField) : ImportCell :=
  if (field_text f == import_null_text options) && (negb (quoted f) || negb quoting_is_a_signal)
  then None else Some (field_text f).

Definition parse_separated (text : str) (separator : char) (options : ImportOptions) : ImportedTable + str :=
  match split_delimited_records text separator with
  | [] => inr (u "The file is empty.")
  | first :: rest =>
      let to_cells := fmap (to_cell options (null_text_quoting_is_a_signal (import_null_text options) separator)) in
      let first_cells := if has_header options then (fun f => Some (field_text f)) <$> first else to_cells first in
      inl (of_records first_cells (to_cells <$> rest) (has_header options))
  end.

(** The byte-order mark that [parse] takes off every file. *)
Definition strip_byte_order_mark (text : str) : str := default text (strip_prefix text [65279%N]).

Example delimited_records :
  split_delimited_records
    (u "a,b" ++ [CR; LF] ++ [QUOTE] ++ u "x," ++ [QUOTE; QUOTE; LF] ++ u "z" ++ [QUOTE] ++ u "," ++ [LF; LF]
     ++ u "q" ++ [QUOTE]) ","%ch
  = [[mkField (u "a") false; mkField (u "b") false];
     [mkField (u "x," ++ [QUOTE; LF] ++ u "z") true; mkField [] false]; [mkField (u "q" ++ [QUOTE]) false]].
Proof. vm_compute. reflexivity. Qed.

(** * Delimited files read back

    What the reader of [ImportDelimited] makes of a field, a line and a file that
    [ResultExport] wrote. *)

#[local] Arguments str_replace : simpl never.
#[local] Arguments upd {R T} proj {_} _ _ /.

Section Separator.
Variable separator : char.
Hypothesis separator_plain : separator <> QUOTE /\ separator <> LF /\ separator <> CR.

(** The field that is read where [text] was written. *)
Definition written_field (text : str) (force_quotes : bool) : DelimitedField :=
  mkField text (force_quotes || delimited_field_needs_quotes text separator).

(** What may stand behind a field. *)
Definition field_ends (rest : str) : Prop :=
  match rest with [] => True | ch :: _ => ch = separator \/ ch = CR \/ ch = LF end.

Lemma field_ends_plain rest : field_ends rest -> rest !! 0 <> Some QUOTE.
Proof. destruct rest; cbn; intros H; [done|]. intros [= ->]. unfold QUOTE, CR, LF in *. naive_solver lia. Qed.

Lemma read_quoted text acc rest recs rec :
  rest !! 0 <> Some QUOTE ->
  read_loop separator (str_replace [QUOTE] [QUOTE; QUOTE] text ++ QUOTE :: rest) (mkRead recs rec acc true true true true)
  = read_loop separator rest (mkRead recs rec (acc ++ text) true false true true).
Proof.
  intros Hrest. revert acc. induction text as [|ch text IH]; intros acc.
  - rewrite app_nil_r. change (str_replace _ _ []) with (@nil N). destruct rest as [|next rest]; [done|].
    assert (next <> QUOTE) as Hn by (intros ->; by apply Hrest). apply N.eqb_neq in Hn.
    cbn [app read_loop in_quotes]. by rewrite N.eqb_refl, Hn.
  - rewrite replace_char_cons. destruct (N.eqb_spec ch QUOTE) as [->|Hq].
    + cbn. unfold vec_push. rewrite IH. by rewrite <- app_assoc.
    + cbn -[read_loop]. cbn. apply N.eqb_neq in Hq. rewrite Hq. cbn. unfold vec_push. rewrite IH. by rewrite <- app_assoc.
Qed.

Lemma read_bare text acc rest recs rec fs rs :
  delimited_field_needs_quotes text separator = false ->
  read_loop separator (text ++ rest) (mkRead recs rec acc false false fs rs)
  = read_loop separator rest (mkRead recs rec (acc ++ text) false false
      (fs || negb (str_is_empty text)) (rs || negb (str_is_empty text))).
Proof.
  revert acc fs rs. induction text as [|ch text IH]; intros acc fs rs H.
  - by rewrite app_nil_r, !orb_false_r.
  - cbn in H. rewrite !orb_false_iff in H. destruct H as [[[[Hs Hq] Hl] Hr] H].
    cbn -[QUOTE CR LF]. rewrite Hs, Hq, Hl, Hr. cbn. unfold vec_push. rewrite IH by done.
    rewrite <- app_assoc. cbn. by rewrite !orb_true_r.
Qed.

(** A field that starts nothing is an empty one without quotes. *)
Definition shows (f : DelimitedField) : bool := quoted f || negb (str_is_empty (field_text f)).

Lemma read_field text force rest recs rec started :
  field_ends rest ->
  let f := written_field text force in
  read_loop separator (escape_delimited_field text separator force ++ rest) (mkRead recs rec [] false false false started)
  = read_loop separator rest (mkRead recs rec text (quoted f) false (shows f) (started || shows f)).
Proof.
  cbv zeta. intros Hrest. unfold escape_delimited_field, written_field, shows. cbn [quoted field_text].
  destruct (force || _) eqn:E; cbn [orb].
  - rewrite <- !app_assoc. cbn [app read_loop in_quotes field_started].
    rewrite N.eqb_refl. cbn. by rewrite read_quoted, orb_true_r by by apply field_ends_plain.
  - apply orb_false_iff in E as [_ E]. by apply read_bare.
Qed.

Definition row_text (fields : list (str * bool)) : str :=
  join [separator] ((fun '(text, force) => escape_delimited_field text separator force) <$> fields).

Definition row_fields (fields : list (str * bool)) : list DelimitedField :=
  (fun '(text, force) => written_field text force) <$> fields.

(** An empty line, which no reader takes for a record. *)
Definition blank_line (fields : list DelimitedField) : bool :=
  match fields with [] => true | [f] => negb (shows f) | _ => false end.

Lemma read_separator rest recs rec text q fs rs :
  read_loop separator (separator :: rest) (mkRead recs rec text q false fs rs)
  = read_loop separator rest (mkRead recs (rec ++ [mkField text q]) [] false false false true).
Proof.
  cbn -[QUOTE]. destruct separator_plain as (H & _). apply N.eqb_neq in H. by rewrite H, N.eqb_refl.
Qed.

Lemma row_text_cons text force next fields :
  row_text ((text, force) :: next :: fields)
  = escape_delimited_field text separator force ++ separator :: row_text (next :: fields).
Proof. done. Qed.

Lemma read_fields fields rest recs rec started :
  fields <> [] -> field_ends rest ->
  exists text q fs,
    read_loop separator (row_text fields ++ rest) (mkRead recs rec [] false false false started)
    = read_loop separator rest (mkRead recs (rec ++ removelast (row_fields fields)) text q false fs
        (started || negb (blank_line (row_fields fields))))
    /\ last (row_fields fields) = Some (mkField text q).
Proof.
  revert rec started. induction fields as [|[text force] fields IH]; intros rec started Hne Hrest; [done|].
  destruct fields as [|next fields].
  - exists text, (quoted (written_field text force)), (shows (written_field text force)).
    cbn [row_text row_fields fmap list_fmap join removelast blank_line last]. rewrite app_nil_r, negb_involutive.
    by rewrite read_field.
  - rewrite row_text_cons, <- app_assoc, read_field by by left. cbn [app]. rewrite read_separator.
    edestruct (IH (rec ++ [mkField text (quoted (written_field text force))]) true) as (t & q & fs & E & L); [done..|].
    exists t, q, fs. rewrite E. clear E IH.
    split; [|by rewrite <- L]. f_equal. f_equal.
    + by rewrite <- app_assoc.
    + cbn. by rewrite orb_true_r.
Qed.

Lemma read_line_end windows rest recs rec text q fs rs :
  read_loop separator (csv_line_ending windows ++ rest) (mkRead recs rec text q false fs rs)
  = read_loop separator rest
      (mkRead (if rs then recs ++ [rec ++ [mkField text q]] else recs) (if rs then [] else rec)
         (if rs then [] else text) (if rs then false else q) false false false).
Proof.
  destruct separator_plain as (_ & Hl & Hr). apply N.eqb_neq in Hl, Hr. rewrite N.eqb_sym in Hl, Hr.
  destruct windows; cbn [csv_line_ending app read_loop in_quotes]; rewrite ?Hl, ?Hr; by destruct rs.
Qed.

(** A line adds the record of its fields, unless it is blank. *)
Lemma read_line windows fields rest recs :
  read_loop separator (row_text fields ++ csv_line_ending windows ++ rest) (mkRead recs [] [] false false false false)
  = read_loop separator rest
      (mkRead (recs ++ (if blank_line (row_fields fields) then [] else [row_fields fields])) [] [] false false false false).
Proof.
  destruct (decide (fields = [])) as [->|Hne].
  { cbn [row_text fmap list_fmap join app]. rewrite read_line_end. by rewrite app_nil_r. }
  destruct (read_fields fields (csv_line_ending windows ++ rest) recs [] false) as (text & q & fs & E & L); [done| |].
  { by destruct windows; cbn; auto. }
  rewrite E, read_line_end. cbn [orb app]. destruct (blank_line (row_fields fields)) eqn:B; cbn [negb].
  - rewrite app_nil_r. destruct fields as [|[t f] [|]]; [done| |done]. cbn in L, B |- *.
    apply negb_true_iff, orb_false_iff in B as [Hq Ht]. injection L as <- <-. cbn in *. rewrite Hq. by destruct t.
  - f_equal. f_equal. f_equal. f_equal. apply last_Some in L as [l ->]. by rewrite removelast_last.
Qed.

Lemma read_lines windows lines recs :
  read_loop separator (concat ((fun fields => row_text fields ++ csv_line_ending windows) <$> lines))
    (mkRead recs [] [] false false false false)
  = mkRead (recs ++ List.filter (fun fields => negb (blank_line fields)) (row_fields <$> lines))
      [] [] false false false false.
Proof.
  revert recs. induction lines as [|fields lines IH]; intros recs; cbn [fmap list_fmap concat List.filter].
  - by rewrite app_nil_r.
  - rewrite <- app_assoc, read_line. fold (@fmap list _). rewrite IH. f_equal. rewrite <- app_assoc. f_equal.
    by destruct (blank_line (row_fields fields)).
Qed.

(** ** A grid *)

Variable g : ExportGrid.

Definition shown_row (row : list ExportCell) : list (str * bool) := display_cell g row <$> seq 0 (length (columns g)).

Lemma render_lines windows :
  render_separated windows g separator
  = concat ((fun fields => row_text fields ++ csv_line_ending windows)
      <$> (((., false) <$> columns g) :: (shown_row <$> rows g))).
Proof.
  unfold render_separated. cbn [fmap list_fmap concat]. rewrite <- app_assoc. f_equal; [|f_equal].
  - unfold row_text. f_equal. by rewrite <- list_fmap_compose.
  - f_equal. fold (@fmap list _). rewrite <- list_fmap_compose. apply list_fmap_ext. intros _ row _. cbn.
    f_equal. unfold row_text, delimited_row, shown_row. f_equal. by rewrite <- list_fmap_compose.
Qed.

(** What comes back of a cell: a value that spells a NULL text that must itself
    be quoted reads as NULL. *)
Definition delimited_back (cell : ExportCell) : ImportCell :=
  match cell with
  | Some value =>
      if (value == null_text g) && delimited_field_needs_quotes (null_text g) separator then None else Some value
  | None => None
  end.

(** A row whose line is empty: one column that is NULL, shown as the empty text. *)
Definition lost_row (row : list ExportCell) : bool :=
  (length (columns g) =? 0) || ((length (columns g) =? 1) && (grid_cell row 0 == None) && str_is_empty (null_text g)).

Lemma blank_shown_row row : blank_line (row_fields (shown_row row)) = lost_row row.
Proof.
  unfold lost_row, shown_row. destruct (length (columns g)) as [|[|n]]; [done| |].
  - cbn. unfold display_cell, shows. destruct (grid_cell row 0) as [value|]; cbn.
    + destruct value; cbn; [done|]. by rewrite !orb_true_r.
    + destruct (null_text g) as [|ch l]; cbn -[orb]; [done|]. by rewrite !orb_true_r.
  - cbn. by destruct (display_cell g row 0), (display_cell g row 1).
Qed.

Lemma shown_cell options row index : import_null_text options = null_text g ->
  to_cell options (null_text_quoting_is_a_signal (import_null_text options) separator)
    (let '(text, force) := display_cell g row index in written_field text force)
  = delimited_back (grid_cell row index).
Proof.
  intros Ho. unfold to_cell, display_cell, null_text_quoting_is_a_signal, delimited_back. rewrite Ho.
  destruct (grid_cell row index) as [value|]; cbn.
  - destruct (bool_decide_reflect (value = null_text g)) as [->|]; [|done]. cbn. rewrite orb_true_r. cbn.
    by rewrite negb_involutive.
  - rewrite bool_decide_true by done. by destruct (delimited_field_needs_quotes _ _).
Qed.
End Separator.
