(* ===== verification/ImportMarkup.v ===== *)
(** * Reading XML and HTML files

    The tolerant tree of [result_import.rs], the entities in it, and the two
    readers over the tree.  The stack of open elements has the innermost first;
    a position in the text is what is left of it. *)
From S2P Require Import Prelude RustStr Utf8 GridSort RustParse ResultExport ImportDelimited.

(** ** Entities *)

Definition MAX_ENTITY_BODY : nat := 10.

Fixpoint position (p : char -> bool) (chars : str) : option nat :=
  match chars with
  | [] => None
  | ch :: chars => if p ch then Some 0 else S <$> position p chars
  end.

(** How many characters are before the [;], which must be at byte 10 or before. *)
Definition entity_terminator (text : str) : option nat :=
  end_ ← position (N.eqb ";"%ch) (take (MAX_ENTITY_BODY + 1) text);
  if utf8_len (take end_ text) <=? MAX_ENTITY_BODY then Some end_ else None.

Definition hex_digit (ch : char) : option Z :=
  if is_ascii_digit ch then Some (Z.of_N ch - 48)%Z
  else if in_range "a"%ch "f"%ch ch then Some (Z.of_N ch - 87)%Z
  else if in_range "A"%ch "F"%ch ch then Some (Z.of_N ch - 55)%Z
  else None.

(** [u32::from_str_radix(s, 16)]. *)
Definition parse_hex (s : str) : option Z :=
  let digits := match s with ch :: rest => if N.eqb ch "+"%ch then rest else s | [] => s end in
  if str_is_empty digits then None
  else
    value ← foldl (fun value ch => v ← value; d ← hex_digit ch; Some (v * 16 + d)%Z) (Some 0%Z) digits;
    if (value <=? U32_MAX)%Z then Some value else None.

(** [char::from_u32]. *)
Definition from_u32 (n : Z) : option char :=
  let ch := Z.to_N n in if is_scalar ch then Some ch else None.

Definition numeric_entity (number : str) : option char :=
  n ← match number with
      | ch :: hex => if is_char_of ch "xX" then parse_hex hex else parse_unsigned U32_MAX number
      | [] => None
      end;
  from_u32 n.

Definition resolve_entity (entity : str) : option char :=
  if is_word entity "amp" then Some "&"%ch
  else if is_word entity "lt" then Some "<"%ch
  else if is_word entity "gt" then Some ">"%ch
  else if is_word entity "quot" then Some QUOTE
  else if is_word entity "apos" then Some "'"%ch
  else if is_word entity "nbsp" then Some 160%N
  else number ← strip_prefix entity (u "#"); numeric_entity number.

(** The character an entity at the start of [text] stands for, and its length. *)
Definition entity_here (text : str) : option (char * nat) :=
  end_ ← entity_terminator text;
  ch ← resolve_entity (slice 1 end_ text);
  Some (ch, end_ + 1).

Fixpoint decode_loop (fuel : nat) (text : str) : str :=
  match fuel, text with
  | S fuel, ch :: rest =>
      if N.eqb ch "&"%ch then
        match entity_here text with
        | Some (ch, len) => ch :: decode_loop fuel (drop len text)
        | None => "&"%ch :: decode_loop fuel rest
        end
      else ch :: decode_loop fuel rest
  | _, _ => []
  end.

Definition decode_entities (text : str) : str := decode_loop (length text) text.

(** ** The tree *)

Inductive MarkupNode := mkNode
    (name : str) (attributes : str) (self_closing : bool) (content : list MarkupContent)
with MarkupContent :=
  | Content_Text (text : str)
  | Content_Element (node : MarkupNode).

Definition node_name (n : MarkupNode) : str := let '(mkNode name _ _ _) := n in name.
Definition node_attributes (n : MarkupNode) : str := let '(mkNode _ attributes _ _) := n in attributes.
Definition self_closing (n : MarkupNode) : bool := let '(mkNode _ _ self_closing _) := n in self_closing.
Definition content (n : MarkupNode) : list MarkupContent := let '(mkNode _ _ _ content) := n in content.

Definition is_tag (n : MarkupNode) (name : str) : bool := eq_ignore_ascii_case (node_name n) name.

Definition elements_of (content : list MarkupContent) : list MarkupNode :=
  omap (fun item => match item with Content_Element n => Some n | Content_Text _ => None end) content.
Definition elements (n : MarkupNode) : list MarkupNode := elements_of (content n).

Fixpoint all_text (n : MarkupNode) : str :=
  match n with mkNode _ _ _ content => concat (map content_text content) end
with content_text (item : MarkupContent) : str :=
  match item with
  | Content_Text text => text
  | Content_Element child => (if is_tag child (u "br") then [LF] else []) ++ all_text child
  end.

Definition push_text (text : str) (n : MarkupNode) : MarkupNode :=
  if str_is_empty text then n
  else
    let '(mkNode name attributes closing content) := n in
    mkNode name attributes closing
      match last content with
      | Some (Content_Text existing) => removelast content ++ [Content_Text (existing ++ text)]
      | _ => content ++ [Content_Text text]
      end.

Definition push_element (child n : MarkupNode) : MarkupNode :=
  let '(mkNode name attributes closing content) := n in
  mkNode name attributes closing (content ++ [Content_Element child]).

Definition children_named (n : MarkupNode) (name : str) : list MarkupNode :=
  List.filter (fun child => is_tag child name) (elements n).

(** ** Attributes *)

(** The text behind a whole attribute name at [at], if [=] follows it. *)
Definition attribute_at (attributes name : str) (at_ : nat) : option str :=
  let before := at_ - 1 in
  if (0 <? at_) && is_some_and (attributes !! before) (fun ch => is_ascii_alphanumeric ch || is_char_of ch "-_")
  then None
  else
    match trim_start (drop (at_ + length name) attributes) with
    | ch :: value => if N.eqb ch "="%ch then Some (trim_start value) else None
    | [] => None
    end.

Definition until (p : char -> bool) (chars : str) : str := take (default (length chars) (position p chars)) chars.

Definition attribute_text (value : str) : str :=
  match value with
  | ch :: inner =>
      if N.eqb ch QUOTE || N.eqb ch "'"%ch then until (N.eqb ch) inner
      else until (fun ch => is_whitespace ch || is_char_of ch "/>") value
  | [] => []
  end.

Fixpoint attribute_loop (fuel : nat) (attributes name : str) (from : nat) : option str :=
  match fuel with
  | 0 => None
  | S fuel =>
      offset ← str_find (drop from (ascii_lower attributes)) name;
      let at_ := from + offset in
      match attribute_at attributes name at_ with
      | Some value => Some (attribute_text value)
      | None => attribute_loop fuel attributes name (at_ + length name)
      end
  end.

Definition attribute_value (attributes name : str) : option str :=
  attribute_loop (S (length attributes)) attributes name 0.

Definition span_attribute (n : MarkupNode) (name : str) (limit : Z) : Z :=
  let value := value ← attribute_value (node_attributes n) name; parse_unsigned U64_MAX (trim value) in
  Z.min limit (Z.max 1 (default 1%Z value)).

(** ** Tags *)

Definition VOID_ELEMENTS : list str :=
  [u "br"; u "hr"; u "img"; u "input"; u "meta"; u "link"; u "col"; u "source"].

Definition IMPLICITLY_CLOSED : list (str * list str) :=
  [(u "td", [u "td"; u "th"]); (u "th", [u "td"; u "th"]); (u "tr", [u "tr"])].

Fixpoint tag_end (quote : option char) (chars : str) : option nat :=
  match chars with
  | [] => None
  | ch :: chars =>
      match quote with
      | Some open => S <$> tag_end (if N.eqb ch open then None else quote) chars
      | None =>
          if N.eqb ch QUOTE || N.eqb ch "'"%ch then S <$> tag_end (Some ch) chars
          else if N.eqb ch ">"%ch then Some 0
          else S <$> tag_end None chars
      end
  end.

(** [find_tag_end], over the text behind the [<]. *)
Definition find_tag_end (chars : str) : option nat := tag_end None chars.

Fixpoint trim_start_char (c : char) (s : str) : str :=
  match s with ch :: rest => if N.eqb ch c then trim_start_char c rest else s | [] => [] end.
Definition trim_end_char (c : char) (s : str) : str := reverse (trim_start_char c (reverse s)).

Definition ends_name (ch : char) : bool := is_whitespace ch || is_char_of ch "/>".

Definition tag_name (inner : str) : str := until ends_name (trim_start_char "/"%ch (trim_start inner)).

Definition tag_attributes (inner : str) : str :=
  let inner := trim_start_char "/"%ch (trim_start inner) in
  trim_end_char "/"%ch (trim (drop (length (until ends_name inner)) inner)).

(** ** The parser *)

Record Forest := mkForest { stack : list MarkupNode; roots : list MarkupNode }.

Definition on_top (f : MarkupNode -> MarkupNode) (s : Forest) : Forest :=
  match stack s with [] => s | top :: below => mkForest (f top :: below) (roots s) end.

Definition finish (node : MarkupNode) (s : Forest) : Forest :=
  match stack s with
  | parent :: below => mkForest (push_element node parent :: below) (roots s)
  | [] => mkForest [] (roots s ++ [node])
  end.

(** [close_to], for the [count] innermost elements. *)
Fixpoint close (count : nat) (s : Forest) : Forest :=
  match count, stack s with
  | S count, node :: below => close count (finish node (mkForest below (roots s)))
  | _, _ => s
  end.

Definition nearest (p : MarkupNode -> bool) (stack : list MarkupNode) : option nat :=
  fst <$> list_find p stack.

(** [find(needle, from)]: how much of [chars] is up to and with the needle. *)
Definition past (needle : str) (skip : nat) (chars : str) : nat :=
  match str_find (drop skip chars) needle with
  | Some at_ => skip + at_ + length needle
  | None => length chars
  end.

(** What starts at the [<] of [chars] and is not an element: how long it is. *)
Definition skip_non_element (chars : str) (s : Forest) : option (nat * Forest) :=
  if starts_with chars (u "<!--") then Some (past (u "-->") 4 chars, s)
  else if starts_with chars (u "<![CDATA[") then
    let raw := match str_find (drop 9 chars) (u "]]>") with Some at_ => slice 9 (9 + at_) chars | None => drop 9 chars end in
    Some (Nat.min (9 + length raw + 3) (length chars), on_top (push_text raw) s)
  else if starts_with chars (u "<!") || starts_with chars (u "<?") then Some (past (u ">") 0 chars, s)
  else None.

(** A closing tag: everything in the nearest element of that name is closed. *)
Definition close_tag (name : str) (s : Forest) : Forest :=
  match nearest (fun node => is_tag node name) (stack s) with
  | Some below => close (S below) s
  | None => s
  end.

(** What an opening tag closes implicitly, inside the nearest table. *)
Definition close_siblings (name : str) (s : Forest) : Forest :=
  match List.find (fun '(tag, _) => eq_ignore_ascii_case name tag) IMPLICITLY_CLOSED with
  | None => s
  | Some (_, closes) =>
      let scope := take (default (length (stack s)) (nearest (fun node => is_tag node (u "table")) (stack s))) (stack s) in
      match nearest (fun node => existsb (is_tag node) closes) scope with
      | Some below => close (S below) s
      | None => s
      end
  end.

Definition open_tag (inner : str) (s : Forest) : Forest :=
  let closing := ends_with (trim_end inner) (u "/") in
  let name := tag_name inner in
  if str_is_empty name then s
  else
    let s := close_siblings name s in
    let node := mkNode name (tag_attributes inner) closing [] in
    if closing || existsb (is_tag node) VOID_ELEMENTS then finish node s
    else mkForest (node :: stack s) (roots s).

Definition read_tag (inner : str) (s : Forest) : Forest :=
  match strip_prefix inner (u "/") with
  | Some name => close_tag (tag_name name) s
  | None => open_tag inner s
  end.

Fixpoint markup_loop (fuel : nat) (chars : str) (s : Forest) : Forest :=
  match fuel, chars with
  | S fuel, ch :: rest =>
      if negb (N.eqb ch "<"%ch) then
        let raw := until (N.eqb "<"%ch) chars in
        markup_loop fuel (drop (length raw) chars) (on_top (push_text (decode_entities raw)) s)
      else
        match skip_non_element chars s with
        | Some (len, s) => markup_loop fuel (drop len chars) s
        | None =>
            match find_tag_end rest with
            | None => on_top (push_text (decode_entities chars)) s
            | Some end_ => markup_loop fuel (drop (S end_) rest) (read_tag (take end_ rest) s)
            end
        end
  | _, _ => s
  end.

Definition parse_markup (text : str) : list MarkupNode :=
  let s := markup_loop (length text) text (mkForest [] []) in
  roots (close (length (stack s)) s).

(** ** XML *)

Definition named (n : MarkupNode) : bool := negb (str_is_empty (node_name n)).

(** [columns] with the names of a row's cells that are not in it yet. *)
Definition note_columns (columns : list str) (row : MarkupNode) : list str :=
  foldl (fun columns cell => if bool_decide (node_name cell ∈ columns) then columns else columns ++ [node_name cell])
    columns (elements row).

Definition xml_import_cell (row : MarkupNode) (column : str) : ImportCell :=
  cell ← head (children_named row column);
  if self_closing cell then None else Some (all_text cell).

Definition parse_xml (text : str) : ImportedTable + str :=
  match List.find named (parse_markup text) with
  | None => inr (u "The XML has no elements.")
  | Some document =>
      let row_nodes := List.filter named (elements document) in
      if bool_decide (length row_nodes = 0) then inr (u "The XML has no row elements.")
      else
        let columns := foldl note_columns [] row_nodes in
        if bool_decide (columns = []) then inr (u "The XML rows have no column elements.")
        else inl (of_named_columns columns ((fun row => xml_import_cell row <$> columns) <$> row_nodes))
  end.

(** ** HTML *)

Fixpoint find_html_table (n : MarkupNode) : option MarkupNode :=
  match n with
  | mkNode _ _ _ content =>
      if is_tag n (u "table") then Some n
      else
        (fix search (content : list MarkupContent) : option MarkupNode :=
           match content with
           | [] => None
           | Content_Text _ :: content => search content
           | Content_Element child :: content =>
               match find_html_table child with Some found => Some found | None => search content end
           end) content
  end.

Definition find_html_table_in (nodes : list MarkupNode) : option MarkupNode :=
  head (omap find_html_table nodes).

Definition MAX_COLSPAN : Z := 1000.
Definition MAX_ROWSPAN : Z := 65534.

(** Per column, a value that is owed to later rows and how many. *)
Abbreviation Carry := (list (option (Z * ImportCell))).

Definition take_carried (column : nat) (carry : Carry) : option (ImportCell * Carry) :=
  match carry !! column with
  | Some (Some (remaining, value)) =>
      Some (value, <[column := if (remaining - 1 =? 0)%Z then None else Some ((remaining - 1)%Z, value)]> carry)
  | _ => None
  end.

(** The row so far: what is owed, the column, the cells. *)
Record RowState := mkRow { carry : Carry; column : nat; out : list ImportCell }.

Fixpoint carried_run (fuel : nat) (s : RowState) : RowState :=
  match fuel, take_carried (column s) (carry s) with
  | S fuel, Some (value, carry) => carried_run fuel (mkRow carry (S (column s)) (vec_push value (out s)))
  | _, _ => s
  end.

Definition resize_to (len : nat) (carry : Carry) : Carry := carry ++ replicate (len - length carry) None.

(** One of the columns a cell fills. *)
Definition fill_column (rowspan : Z) (value : ImportCell) (s : RowState) : RowState :=
  let owed := if (1 <? rowspan)%Z then Some ((rowspan - 1)%Z, value) else None in
  mkRow (<[column s := owed]> (resize_to (S (column s)) (carry s))) (S (column s)) (vec_push value (out s)).

Definition html_import_cell (cell : MarkupNode) : ImportCell :=
  let text := all_text cell in if str_is_empty text then None else Some text.

Definition fill_cell (cell : MarkupNode) (s : RowState) : RowState :=
  let rowspan := span_attribute cell (u "rowspan") MAX_ROWSPAN in
  Nat.iter (Z.to_nat (span_attribute cell (u "colspan") MAX_COLSPAN)) (fill_column rowspan (html_import_cell cell)) s.

Fixpoint row_loop (cells : list MarkupNode) (s : RowState) : RowState :=
  let s := carried_run (length (carry s)) s in
  match cells with
  | [] => carried_run (length (carry s)) s
  | cell :: cells => row_loop cells (fill_cell cell s)
  end.

Definition html_row_of (tr : MarkupNode) (carry_in : Carry) : option (bool * list ImportCell) * Carry :=
  let cells := List.filter (fun cell => is_tag cell (u "td") || is_tag cell (u "th")) (elements tr) in
  let s := row_loop cells (mkRow carry_in 0 []) in
  (if negb (bool_decide (length cells = 0)) || negb (bool_decide (out s = []))
   then Some (existsb (fun cell => is_tag cell (u "th")) cells, out s) else None, carry s).

Fixpoint collect_html_rows (n : MarkupNode) (s : Carry * list (bool * list ImportCell))
    : Carry * list (bool * list ImportCell) :=
  match n with
  | mkNode _ _ _ content =>
      (fix collect (content : list MarkupContent) s :=
         match content with
         | [] => s
         | Content_Text _ :: content => collect content s
         | Content_Element child :: content =>
             collect content
               (if is_tag child (u "tr") then
                  let '(row, carry) := html_row_of child (fst s) in
                  (carry, match row with Some row => vec_push row (snd s) | None => snd s end)
                else if is_tag child (u "table") then s
                else collect_html_rows child s)
         end) content s
  end.

Definition parse_html (text : str) (has_header : bool) : ImportedTable + str :=
  match find_html_table_in (parse_markup text) with
  | None => inr (u "The HTML has no <table>.")
  | Some table =>
      match snd (collect_html_rows table ([], [])) with
      | [] => inr (u "The HTML table has no rows.")
      | (header, first) :: rest => inl (of_records first (snd <$> rest) (header || has_header))
      end
  end.
