(* ===== verification/ResultImport.v ===== *)
(** * Reading an exported file back

    [parse] of [result_import.rs]: the Markdown reader and the fork over the
    formats.  The readers of JSON (over serde_json) and of SQL are parameters. *)
From S2P Require Import Prelude RustStr ResultFilter RustParse ResultExport ImportDelimited ImportMarkup.

(** ** Markdown *)

Definition MARKDOWN_LINE_BREAK : str := u "<br>".

(** [text.lines()]. *)
Definition lines (text : str) : list str :=
  (fun line =>
     match strip_suffix line [LF] with
     | Some line => default line (strip_suffix line [CR])
     | None => line
     end) <$> split_inclusive LF text.

Fixpoint markdown_cells (chars : str) (cell : str) : list str :=
  match chars with
  | [] => [cell]
  | ch :: rest =>
      if N.eqb ch "\"%ch then
        match rest with
        | [] => [vec_push "\"%ch cell]
        | next :: rest =>
            if is_char_of next "\|<" then markdown_cells rest (vec_push next cell)
            else markdown_cells rest (cell ++ ["\"%ch; next])
        end
      else if N.eqb ch "|"%ch then cell :: markdown_cells rest []
      else if starts_with chars MARKDOWN_LINE_BREAK then
        match rest with
        | _ :: _ :: _ :: rest => markdown_cells rest (vec_push LF cell)
        | _ => [cell]
        end
      else markdown_cells rest (vec_push ch cell)
  end.

Definition split_markdown_row (line : str) : list ImportCell :=
  let line := trim line in
  let inner := default line (strip_prefix line (u "|")) in
  let inner := default inner (strip_suffix inner (u "|")) in
  (fun cell => let cell := trim cell in if str_is_empty cell then None else Some cell) <$> markdown_cells inner [].

Definition is_markdown_separator (line : str) : bool :=
  let cells := split_markdown_row line in
  negb (bool_decide (cells = []))
  && forallb (fun cell =>
       let cell := trim (default [] cell) in
       negb (str_is_empty cell)
       && forallb (N.eqb "-"%ch) (ImportMarkup.trim_end_char ":"%ch (trim_start_char ":"%ch cell))) cells.

Definition parse_markdown (text : str) : ImportedTable + str :=
  match List.filter (fun line => starts_with line (u "|")) (trim <$> lines text) with
  | [] => inr (u "The file has no Markdown table.")
  | header :: rest =>
      let body := match rest with
                  | line :: body => if is_markdown_separator line then body else rest
                  | [] => []
                  end in
      inl (of_named_columns (default [] <$> split_markdown_row header) (split_markdown_row <$> body))
  end.

(** ** All formats *)

Section Parse.
Variable parse_json : str -> ImportedTable + str.
Variable parse_sql_inserts : str -> ImportedTable + str.

Definition parse_table (text : str) (options : ImportOptions) : ImportedTable + str :=
  match import_format options with
  | Csv => parse_separated text ","%ch options
  | Tsv => parse_separated text 9 options
  | Json => parse_json text
  | Xml => parse_xml text
  | Html => parse_html text (has_header options)
  | Markdown => parse_markdown text
  | SqlInserts => parse_sql_inserts text
  | Parquet => inr (label (import_format options) ++ u " files cannot be imported.")
  end.

Definition parse (text : str) (options : ImportOptions) : ImportedTable + str :=
  match parse_table (strip_byte_order_mark text) options with
  | inl table => validate table
  | inr e => inr e
  end.
End Parse.

#[local] Instance ascii_tables : UnicodeTables := { alphabetic_table _ := false; numeric_table _ := false }.

Definition no_reader (text : str) : ImportedTable + str := inr [].

(** A grid of one row through a format and back. *)
Definition there_and_back (f : ExportFormat) (g : ExportGrid) : option (ImportedTable + str) :=
  text ← render false (fun s => s) f g;
  Some (parse no_reader no_reader (with_destination_prelude f Destination_File text) (mkOptions f true (null_text g))).

Example round_trips :
  let g := mkExportGrid [u "ID"; u "A"] [] [[Some (u "a<b|&\"); None]; [Some (u "NULL"); Some [QUOTE; LF]]] (u "NULL") in
  (fun f => there_and_back f g) <$> [Csv; Tsv; Xml; Html] = replicate 4 (Some (inl (mkTable (columns g) (rows g) true)))
  /\ there_and_back Markdown g
     = Some (inl (mkTable (columns g) [[Some (u "a<b|&\"); None]; [Some (u "NULL"); Some [QUOTE]]] true)).
Proof. vm_compute. split; reflexivity. Qed.

(** Columns that go by the name of an HTML element without content come back
    empty, and columns that differ in case only as one of them. *)
Example xml_columns_lost :
  there_and_back Xml (mkExportGrid [u "SOURCE"; u "id"; u "ID"] [] [[Some (u "a"); Some (u "1"); Some (u "2")]] [])
  = Some (inl (mkTable [u "SOURCE"; u "id"; u "ID"] [[Some []; Some (u "1"); Some (u "1")]] true)).
Proof. vm_compute. reflexivity. Qed.

(** A single column without a name is taken for a blank line, and the first row
    for the names. *)
Example blank_heading_lost :
  there_and_back Csv (mkExportGrid [[]] [] [[Some (u "a")]; [Some (u "b")]] (u "NULL"))
  = Some (inl (mkTable [u "a"] [[Some (u "b")]] true)).
Proof. vm_compute. reflexivity. Qed.
