(* ===== verification/MarkdownLaws.v ===== *)
(** * Markdown tables read back

    What the Markdown reader makes of a cell, a line and a table that
    [ResultExport] wrote. *)
From S2P Require Import Prelude RustStr ResultFilter RustParse ResultExport ImportDelimited ImportMarkup ResultImport.

#[local] Arguments str_replace : simpl never.

(** ** Cells *)

(** A value with every line break as one line feed. *)
Fixpoint fold_breaks (value : str) : str :=
  match value with
  | [] => []
  | ch :: rest =>
      if N.eqb ch CR then
        match rest with
        | next :: rest' => if N.eqb next LF then LF :: fold_breaks rest' else LF :: fold_breaks rest
        | [] => [LF]
        end
      else ch :: fold_breaks rest
  end.

Definition escape_char (ch : char) : str :=
  if N.eqb ch "\"%ch then u "\\" else if N.eqb ch "|"%ch then u "\|" else if N.eqb ch "<"%ch then u "\<" else [ch].

Definition markdown_char (ch : char) : str := if N.eqb ch LF then u "<br>" else escape_char ch.

Lemma replace_char a to s : str_replace [a] to s = concat ((fun c => if N.eqb c a then to else [c]) <$> s).
Proof. induction s as [|c s IH]; [done|]. rewrite replace_char_cons, IH. done. Qed.

Lemma concat_bind (f g : char -> str) s : concat (f <$> concat (g <$> s)) = concat ((fun c => concat (f <$> g c)) <$> s).
Proof. induction s as [|c s IH]; [done|]. cbn. rewrite fmap_app, concat_app. by rewrite <- IH. Qed.

Lemma escape_chars s :
  str_replace (u "<") (u "\<") (str_replace (u "|") (u "\|") (str_replace (u "\") (u "\\") s)) = concat (escape_char <$> s).
Proof.
  change (u "<") with ["<"%ch]. change (u "|") with ["|"%ch]. change (u "\") with ["\"%ch].
  rewrite !replace_char, !concat_bind. f_equal. apply list_fmap_ext. intros _ c _. unfold escape_char.
  destruct (N.eqb_spec c "\"%ch) as [->|]; [done|]. cbn.
  destruct (N.eqb_spec c "|"%ch) as [->|]; [done|]. cbn. by destruct (N.eqb c "<"%ch).
Qed.

(** The rule that is left: no character of an escape is part of a line break. *)
Definition break_lines (s : str) : str := replace_line_breaks (str_replace [CR; LF] (u "<br>") s).

Lemma break_lines_plain c s : c <> CR -> break_lines (c :: s) = (if N.eqb c LF then u "<br>" else [c]) ++ break_lines s.
Proof.
  intros Hc. unfold break_lines, str_replace, replace_line_breaks. cbn [replace_from starts_with].
  apply N.eqb_neq in Hc. rewrite N.eqb_sym, Hc. cbn. by rewrite Hc, orb_false_r.
Qed.

Lemma break_lines_cr_lf s : break_lines (CR :: LF :: s) = u "<br>" ++ break_lines s.
Proof.
  unfold break_lines, str_replace, replace_line_breaks. cbn [replace_from starts_with].
  rewrite starts_with_nil, !N.eqb_refl. cbn [andb length Nat.sub].
  change (u "<br>" ++ replace_from [CR; LF] (u "<br>") 0 s) with (u "<br>" ++ replace_from [CR; LF] (u "<br>") 0 s).
  by rewrite fmap_app, concat_app.
Qed.

Lemma break_lines_cr s : s !! 0 <> Some LF -> break_lines (CR :: s) = u "<br>" ++ break_lines s.
Proof.
  intros Hs. unfold break_lines, str_replace, replace_line_breaks. cbn [replace_from starts_with].
  destruct s as [|c s]; [done|]. assert (c <> LF) as Hc by (intros ->; by apply Hs).
  apply N.eqb_neq in Hc. rewrite N.eqb_sym in Hc.
  cbn [starts_with]. by rewrite Hc, andb_false_r.
Qed.

Lemma break_lines_escape c s : c <> CR -> break_lines (escape_char c ++ s) = markdown_char c ++ break_lines s.
Proof.
  intros Hc. unfold markdown_char, escape_char.
  destruct (N.eqb_spec c "\"%ch) as [->|]; [by change (u "\\") with ["\"%ch; "\"%ch]; cbn [app]; rewrite !break_lines_plain|].
  destruct (N.eqb_spec c "|"%ch) as [->|]; [by change (u "\|") with ["\"%ch; "|"%ch]; cbn [app]; rewrite !break_lines_plain|].
  destruct (N.eqb_spec c "<"%ch) as [->|]; [by change (u "\<") with ["\"%ch; "<"%ch]; cbn [app]; rewrite !break_lines_plain|].
  cbn [app]. rewrite break_lines_plain by done. by destruct (N.eqb c LF).
Qed.

Lemma escape_markdown_text value : escape_markdown_cell value = concat (markdown_char <$> fold_breaks value).
Proof.
  unfold escape_markdown_cell. rewrite escape_chars. change (break_lines (concat (escape_char <$> value)) = concat (markdown_char <$> fold_breaks value)).
  remember (length value) as n eqn:Hn. assert (length value <= n) as Hle by lia. clear Hn. revert value Hle.
  induction n as [|n IH]; intros [|c value] Hle; cbn in Hle; [done|lia|done|].
  cbn [fold_breaks]. destruct (N.eqb_spec c CR) as [->|Hc].
  - destruct value as [|next value]; [done|]. cbn in Hle. destruct (N.eqb_spec next LF) as [->|Hnext].
    + change (concat (escape_char <$> CR :: LF :: value)) with (CR :: LF :: concat (escape_char <$> value)).
      rewrite break_lines_cr_lf, IH by lia. done.
    + change (concat (escape_char <$> CR :: next :: value)) with (CR :: concat (escape_char <$> next :: value)).
      rewrite break_lines_cr; [by rewrite IH by (cbn; lia)|].
      cbn [fmap list_fmap concat]. unfold escape_char.
      destruct (N.eqb next _); [done|]. destruct (N.eqb next _); [done|]. destruct (N.eqb next _); [done|]. cbn. congruence.
  - cbn [fmap list_fmap concat]. rewrite break_lines_escape, IH by (done || lia). done.
Qed.

(** ** A line *)

Lemma read_markdown_char ch rest cell :
  markdown_cells (markdown_char ch ++ rest) cell = markdown_cells rest (vec_push ch cell).
Proof.
  unfold markdown_char, escape_char. destruct (N.eqb_spec ch LF) as [->|Hl].
  { assert (starts_with (u "<br>" ++ rest) MARKDOWN_LINE_BREAK = true) as H by exact (starts_with_nil rest).
    change (u "<br>") with ["<"; "b"; "r"; ">"]%ch in *. cbn [app markdown_cells] in *. by rewrite H. }
  destruct (N.eqb_spec ch "\"%ch) as [->|Hb]; [done|]. destruct (N.eqb_spec ch "|"%ch) as [->|Hp]; [done|].
  destruct (N.eqb_spec ch "<"%ch) as [->|Ha]; [done|].
  cbn [app markdown_cells starts_with]. apply N.eqb_neq in Hb, Hp, Ha. rewrite Hb, Hp.
  unfold MARKDOWN_LINE_BREAK. change (u "<br>") with ["<"; "b"; "r"; ">"]%ch. cbn [starts_with].
  by rewrite N.eqb_sym, Ha.
Qed.

Lemma read_markdown_text text rest cell :
  markdown_cells (concat (markdown_char <$> text) ++ rest) cell = markdown_cells rest (cell ++ text).
Proof.
  revert cell. induction text as [|ch text IH]; intros cell; [by rewrite app_nil_r|].
  cbn [fmap list_fmap concat]. rewrite <- app_assoc, read_markdown_char, IH. unfold vec_push. by rewrite <- app_assoc.
Qed.

Lemma read_bar rest cell : markdown_cells (u " | " ++ rest) cell = (cell ++ u " ") :: markdown_cells rest (u " ").
Proof.
  change (u " | " ++ rest) with (concat (markdown_char <$> u " ") ++ "|"%ch :: concat (markdown_char <$> u " ") ++ rest).
  rewrite read_markdown_text.
  change (markdown_cells ("|"%ch :: ?r) ?c) with (c :: markdown_cells r []). by rewrite read_markdown_text.
Qed.

Abbreviation spaced text := (u " " ++ text ++ u " ").

Lemma read_markdown_texts (text : str) (texts : list str) cell :
  markdown_cells (join (u " | ") ((fun text => concat (markdown_char <$> text)) <$> (text :: texts)) ++ u " ") cell
  = (cell ++ text ++ u " ") :: ((fun text => spaced text) <$> texts).
Proof.
  revert text cell. induction texts as [|next texts IH]; intros text cell.
  - cbn [fmap list_fmap join]. rewrite read_markdown_text.
    change (u " ") with (concat (markdown_char <$> u " ") ++ []) at 1. rewrite read_markdown_text.
    by rewrite <- app_assoc.
  - change (join (u " | ") ?l) with (concat (markdown_char <$> text) ++ u " | " ++ join (u " | ") (drop 1 l)).
    rewrite <- !app_assoc, read_markdown_text, read_bar. cbn [drop fmap list_fmap].
    change (_ :: (_ <$> texts)) with ((fun text => concat (markdown_char <$> text)) <$> (next :: texts)) at 1.
    rewrite IH. by rewrite <- app_assoc.
Qed.

Lemma ink_space s : ink (u " " ++ s) = ink s.
Proof. done. Qed.

Lemma trim_spaced text : trim (spaced text) = trim text.
Proof.
  unfold trim. change (trim_start (spaced text)) with (trim_start (text ++ u " ")).
  assert (forall t, trim_end (t ++ u " ") = trim_end t) as Hend.
  { intros t. unfold trim_end. change (u " ") with [" "%ch]. by rewrite reverse_snoc. }
  induction text as [|ch text IH]; [done|]. cbn [app trim_start].
  destruct (is_whitespace ch); [done|]. by rewrite app_comm_cons, Hend.
Qed.

(** What comes back of a cell's text. *)
Definition markdown_cell_back (text : str) : ImportCell :=
  let text := trim (fold_breaks text) in if str_is_empty text then None else Some text.

Definition table_line (texts : list str) : str := u "| " ++ join (u " | ") (escape_markdown_cell <$> texts) ++ u " |".

Lemma trim_table_line texts : trim (table_line texts) = table_line texts.
Proof.
  unfold table_line. change (u "| " ++ ?x ++ u " |") with (["|"%ch] ++ ((" "%ch :: x) ++ [" "%ch] ++ ["|"%ch])).
  rewrite (app_assoc _ [" "%ch]). by apply trim_between.
Qed.

Lemma split_table_line texts : texts <> [] -> split_markdown_row (table_line texts) = markdown_cell_back <$> texts.
Proof.
  intros Hne. unfold split_markdown_row. rewrite trim_table_line.
  assert (strip_prefix (table_line texts) (u "|")
          = Some ((u " " ++ join (u " | ") (escape_markdown_cell <$> texts) ++ u " ") ++ u "|")) as ->.
  { unfold strip_prefix, table_line. change (starts_with (u "| " ++ ?x) (u "|")) with (starts_with (u " " ++ x) []).
    rewrite starts_with_nil. rewrite <- !app_assoc. done. }
  cbn [default]. unfold id. change (u "|") with ["|"%ch]. rewrite strip_suffix_snoc. cbn [default]. unfold id.
  destruct texts as [|text texts]; [done|].
  assert (escape_markdown_cell <$> (text :: texts)
          = (fun text => concat (markdown_char <$> text)) <$> (fold_breaks text :: (fold_breaks <$> texts))) as ->.
  { change (fold_breaks text :: (fold_breaks <$> texts)) with (fold_breaks <$> (text :: texts)).
    rewrite <- list_fmap_compose. apply list_fmap_ext. intros _ t _. apply escape_markdown_text. }
  change (u " " ++ ?r) with (concat (markdown_char <$> u " ") ++ r) at 1. rewrite read_markdown_text.
  rewrite read_markdown_texts. cbn [app]. rewrite <- list_fmap_compose.
  change (?x :: ((fun text => _) ∘ fold_breaks <$> texts))
    with ((fun text => u " " ++ fold_breaks text ++ u " ") <$> (text :: texts)).
  rewrite <- list_fmap_compose. apply list_fmap_ext. intros _ t _. cbn beta. unfold compose, markdown_cell_back.
  by rewrite trim_spaced.
Qed.

(** ** A table *)

Definition no_break (s : str) : Prop := Forall (fun ch => ch <> LF) s.

Lemma no_break_join sep pieces : no_break sep -> Forall no_break pieces -> no_break (join sep pieces).
Proof.
  intros Hsep. induction 1 as [|p pieces Hp Hpieces IH]; [constructor|].
  destruct pieces as [|next pieces]; [done|]. cbn [join]. by repeat apply Forall_app_2.
Qed.

Lemma no_break_escape text : no_break (escape_markdown_cell text).
Proof.
  rewrite escape_markdown_text. induction (fold_breaks text) as [|ch s IH]; [constructor|].
  cbn [fmap list_fmap concat]. apply Forall_app_2; [|done]. unfold markdown_char, escape_char.
  destruct (N.eqb_spec ch LF) as [|Hl]; [by repeat constructor|]. repeat case_match; by repeat constructor.
Qed.

Lemma no_break_table_line texts : no_break (table_line texts).
Proof.
  unfold table_line. apply Forall_app_2; [by repeat constructor|]. apply Forall_app_2; [|by repeat constructor].
  apply no_break_join; [by repeat constructor|]. apply Forall_fmap, Forall_true. intros text. apply no_break_escape.
Qed.

Lemma split_inclusive_line line rest : no_break line ->
  split_inclusive LF (line ++ LF :: rest) = (line ++ [LF]) :: split_inclusive LF rest.
Proof.
  induction 1 as [|ch line Hch _ IH]; [done|]. cbn [app split_inclusive]. apply N.eqb_neq in Hch.
  by rewrite Hch, IH.
Qed.

Lemma strip_suffix_other s c d : c <> d -> strip_suffix (s ++ [c]) [d] = None.
Proof.
  intros H. unfold strip_suffix, ends_with. rewrite reverse_snoc. change (reverse [d]) with [d]. cbn [starts_with].
  apply N.eqb_neq in H. by rewrite N.eqb_sym, H.
Qed.

Definition table_text (tables : list (list str)) : str := concat ((fun texts => table_line texts ++ [LF]) <$> tables).

Lemma lines_of_table tables : lines (table_text tables) = table_line <$> tables.
Proof.
  induction tables as [|texts tables IH]; [done|]. unfold lines, table_text in *. cbn [fmap list_fmap concat].
  rewrite <- app_assoc. cbn [app]. rewrite split_inclusive_line by apply no_break_table_line.
  cbn [fmap list_fmap]. f_equal; [|exact IH]. rewrite strip_suffix_snoc.
  unfold table_line. change (u " |") with ([" "%ch] ++ ["|"%ch]). rewrite !app_assoc.
  by rewrite strip_suffix_other.
Qed.

Definition dashes (n : nat) : list str := replicate n (u "---").

Lemma separator_line n : 0 < n -> is_markdown_separator (table_line (dashes n)) = true.
Proof.
  intros Hn. unfold is_markdown_separator, dashes. rewrite split_table_line by (by destruct n; [lia|]).
  rewrite fmap_replicate. change (markdown_cell_back (u "---")) with (Some (u "---")).
  rewrite andb_true_iff. split; [by destruct n; [lia|]|].
  apply forallb_forall. intros cell Hcell. apply list_elem_of_In, elem_of_replicate_inv in Hcell as ->. done.
Qed.

Lemma parse_table_lines header n (body : list (list str)) :
  header <> [] -> 0 < n -> Forall (fun texts => texts <> []) body ->
  parse_markdown (table_text (header :: dashes n :: body))
  = inl (mkTable ((fun text : str => trim (fold_breaks text)) <$> header)
           ((fun texts : list str => markdown_cell_back <$> texts) <$> body) true).
Proof.
  intros Hheader Hn Hbody. unfold parse_markdown. rewrite lines_of_table.
  replace (trim <$> (table_line <$> _)) with (table_line <$> (header :: dashes n :: body)).
  2: { rewrite <- list_fmap_compose. apply list_fmap_ext. intros _ texts _. symmetry. apply trim_table_line. }
  rewrite forallb_filter_id.
  2: { apply forallb_forall. intros line Hline. apply list_elem_of_In, list_elem_of_fmap in Hline as (texts & -> & _).
       exact (starts_with_nil (u " " ++ join (u " | ") (escape_markdown_cell <$> texts) ++ u " |")). }
  cbn [fmap list_fmap]. rewrite separator_line, split_table_line by done. unfold of_named_columns. f_equal. f_equal.
  { rewrite <- list_fmap_compose. apply list_fmap_ext. intros _ text _. unfold compose, markdown_cell_back.
    by destruct (trim (fold_breaks text)). }
  change (split_markdown_row <$> (table_line <$> body) = (fun texts : list str => markdown_cell_back <$> texts) <$> body).
  rewrite <- list_fmap_compose. apply list_fmap_ext. intros i texts Hi. apply split_table_line.
  by apply (proj1 (Forall_lookup _ _) Hbody i).
Qed.

(** ** A grid *)

Definition shown_texts (g : ExportGrid) (row : list ExportCell) : list str :=
  (fun index => default [] (grid_cell row index)) <$> seq 0 (length (columns g)).

Lemma render_markdown_table g :
  render_markdown g = table_text (columns g :: dashes (length (columns g)) :: (shown_texts g <$> rows g)).
Proof.
  unfold render_markdown, table_text. cbn [fmap list_fmap concat]. unfold table_line. rewrite <- !app_assoc.
  do 4 f_equal. unfold dashes. rewrite fmap_replicate. change (escape_markdown_cell (u "---")) with (u "---").
  do 4 f_equal. change (List.map ?f ?l) with (f <$> l). rewrite <- list_fmap_compose. f_equal.
  apply list_fmap_ext. intros _ row _. unfold markdown_row, compose, table_line, shown_texts.
  rewrite <- !app_assoc. do 2 f_equal. rewrite <- list_fmap_compose. f_equal. apply list_fmap_ext. intros _ index _.
  unfold compose. by destruct (grid_cell row index).
Qed.
