(* ===== verification/MarkupLaws.v ===== *)
(** * Markup read back

    What the tolerant parser makes of the texts and tags that [ResultExport]
    writes, piece by piece. *)
From S2P Require Import Prelude RustStr Utf8 RustParse ResultExport ImportDelimited ImportMarkup.

(** ** Entities *)

(** The characters a document may hold; the others are replaced. *)
Definition markup_char (ch : char) : char :=
  if negb (N.eqb ch CR || N.eqb ch 9 || N.eqb ch LF) && (N.ltb ch 32 || N.eqb ch 65534 || N.eqb ch 65535)
  then 65533%N else ch.

Definition markup_text (value : str) : str := markup_char <$> value.

Lemma decode_fuel fuel fuel' text : length text <= fuel -> length text <= fuel' -> decode_loop fuel text = decode_loop fuel' text.
Proof.
  revert fuel' text. induction fuel as [|fuel IH]; intros [|fuel'] [|ch text] H H'; cbn in H, H'; try done; try lia.
  cbn [decode_loop]. destruct (N.eqb ch "&"%ch); [|f_equal; apply IH; lia].
  destruct (entity_here (ch :: text)) as [[c len]|] eqn:E; [|f_equal; apply IH; lia].
  f_equal. unfold entity_here in E. destruct (entity_terminator _) as [end_|]; [|done]. cbn in E.
  destruct (resolve_entity _); [|done]. injection E as <- <-. apply IH; rewrite length_drop; cbn; lia.
Qed.

Lemma decode_nil : decode_entities [] = [].
Proof. done. Qed.

Lemma decode_plain ch text : N.eqb ch "&"%ch = false -> decode_entities (ch :: text) = ch :: decode_entities text.
Proof. intros H. unfold decode_entities. cbn [length decode_loop]. by rewrite H. Qed.

Lemma decode_entity ch entity rest :
  entity_here (u "&" ++ entity ++ rest) = Some (ch, S (length entity)) ->
  decode_entities (u "&" ++ entity ++ rest) = ch :: decode_entities rest.
Proof.
  intros E. unfold decode_entities. change (u "&" ++ entity ++ rest) with ("&"%ch :: entity ++ rest) in *.
  cbn [length decode_loop]. rewrite N.eqb_refl, E. cbn [drop]. f_equal. rewrite drop_app_length.
  apply decode_fuel; rewrite ?length_app; lia.
Qed.

(** An escaped character is decoded by itself, whatever is behind it. *)
Lemma decode_escape_char ch html rest :
  decode_entities (escape_markup [ch] html ++ rest) = markup_char ch :: decode_entities rest.
Proof.
  unfold escape_markup, markup_char. cbn [fmap list_fmap concat]. rewrite app_nil_r.
  destruct (N.eqb_spec ch "&"%ch) as [->|Ha]; [by apply (decode_entity _ (u "amp;"))|].
  destruct (N.eqb_spec ch "<"%ch) as [->|Hl]; [by apply (decode_entity _ (u "lt;"))|].
  destruct (N.eqb_spec ch ">"%ch) as [->|Hg]; [by apply (decode_entity _ (u "gt;"))|].
  destruct (N.eqb ch QUOTE && html) eqn:Hq.
  { apply andb_true_iff in Hq as [->%N.eqb_eq _]. by apply (decode_entity _ (u "quot;")). }
  destruct (N.eqb_spec ch CR) as [->|Hr]; [by apply (decode_entity _ (u "#13;"))|].
  cbn [orb]. destruct (N.eqb ch 9 || N.eqb ch LF) eqn:Hb; cbn [negb andb].
  - cbn [app]. apply decode_plain. by apply N.eqb_neq.
  - destruct (N.ltb ch 32 || _ || _); cbn [app]; [by apply decode_plain|]. apply decode_plain. by apply N.eqb_neq.
Qed.

Lemma escape_markup_cons ch value html : escape_markup (ch :: value) html = escape_markup [ch] html ++ escape_markup value html.
Proof. unfold escape_markup. cbn. by rewrite app_nil_r. Qed.

Lemma decode_escaped value html rest :
  decode_entities (escape_markup value html ++ rest) = markup_text value ++ decode_entities rest.
Proof.
  induction value as [|ch value IH]; [done|]. rewrite escape_markup_cons, <- app_assoc, decode_escape_char, IH. done.
Qed.

Definition no_tag (text : str) : Prop := Forall (fun ch => N.eqb "<"%ch ch = false) text.

Lemma escaped_no_tag value html : no_tag (escape_markup value html).
Proof.
  induction value as [|ch value IH]; [constructor|]. rewrite escape_markup_cons. apply Forall_app_2; [|done].
  unfold escape_markup. cbn [fmap list_fmap concat]. rewrite app_nil_r.
  destruct (N.eqb ch "&"%ch); [by repeat constructor|]. destruct (N.eqb ch "<"%ch) eqn:E; [by repeat constructor|].
  rewrite N.eqb_sym in E. repeat case_match; by repeat constructor.
Qed.

(** ** Steps of the parser *)

Definition run (chars : str) (s : Forest) : Forest := markup_loop (length chars) chars s.

Lemma past_pos needle skip chars : 0 < length chars -> needle <> [] -> 0 < past needle skip chars.
Proof. intros H Hn. unfold past. destruct (str_find _ _); [|done]. destruct needle; [done|]. cbn. lia. Qed.

Lemma skip_pos chars s len s' : skip_non_element chars s = Some (len, s') -> 0 < len.
Proof.
  unfold skip_non_element. destruct chars as [|ch chars]; [done|].
  assert (0 < length (ch :: chars)) as Hpos by (cbn; lia).
  repeat case_match; intros [= <- _]; try (by apply past_pos); lia.
Qed.

Lemma markup_fuel fuel fuel' chars s :
  length chars <= fuel -> length chars <= fuel' -> markup_loop fuel chars s = markup_loop fuel' chars s.
Proof.
  revert fuel' chars s. induction fuel as [|fuel IH]; intros [|fuel'] [|ch rest] s H H'; cbn in H, H'; try done; try lia.
  cbn [markup_loop]. destruct (negb (N.eqb ch "<"%ch)) eqn:E.
  - assert (0 < length (until (N.eqb "<"%ch) (ch :: rest))) as Hpos.
    { unfold until. cbn [position]. rewrite N.eqb_sym. apply negb_true_iff in E. rewrite E.
      destruct (position _ rest); cbn; lia. }
    apply IH; rewrite length_drop; cbn [length]; lia.
  - destruct (skip_non_element (ch :: rest) s) as [[len s']|] eqn:Es.
    + apply skip_pos in Es. apply IH; rewrite length_drop; cbn [length]; lia.
    + destruct (find_tag_end rest) as [end_|]; [|done]. apply IH; rewrite length_drop; lia.
Qed.

Lemma run_fuel fuel chars s : length chars <= fuel -> markup_loop fuel chars s = run chars s.
Proof. intros H. by apply markup_fuel. Qed.

Lemma on_top_on_top f g s : on_top f (on_top g s) = on_top (fun n => f (g n)) s.
Proof. unfold on_top. destruct s as [[|top below] roots]; done. Qed.

Lemma on_top_ext f g s : (forall n, f n = g n) -> on_top f s = on_top g s.
Proof. intros H. unfold on_top. destruct (stack s); [done|]. by rewrite H. Qed.

Lemma push_text_app a b n : push_text b (push_text a n) = push_text (a ++ b) n.
Proof.
  destruct n as [name attributes closing content]. unfold push_text at 2 3.
  destruct a as [|x a]; [done|]. cbn [app str_is_empty].
  destruct b as [|y b].
  - by rewrite app_nil_r.
  - unfold push_text. cbn [str_is_empty]. f_equal. destruct (last content) as [[existing|child]|] eqn:L.
    + rewrite last_snoc. rewrite removelast_last. by rewrite <- app_assoc.
    + by rewrite last_snoc, removelast_last.
    + by rewrite last_snoc, removelast_last.
Qed.

Lemma push_text_nil s : on_top (push_text []) s = s.
Proof. destruct s as [[|top below] roots]; [done|]. by destruct top. Qed.

Lemma until_split p chars : exists rest, chars = until p chars ++ rest
  /\ Forall (fun ch => p ch = false) (until p chars) /\ match rest with [] => True | ch :: _ => p ch = true end.
Proof.
  induction chars as [|ch chars (rest & E & F & R)]; [by exists []|]. unfold until in *. cbn [position].
  destruct (p ch) eqn:Hp; [by exists (ch :: chars)|]. exists rest.
  destruct (position p chars); cbn in *; (split; [by f_equal|]; split; [by constructor|done]).
Qed.

Lemma until_app p text rest :
  Forall (fun ch => p ch = false) text -> match rest with [] => True | ch :: _ => p ch = true end ->
  until p (text ++ rest) = text.
Proof.
  intros Ht Hr. unfold until. induction Ht as [|ch text Hch _ IH]; cbn [app position].
  - destruct rest; [done|]. cbn. by rewrite Hr.
  - rewrite Hch. revert IH. destruct (position p (text ++ rest)); cbn; intros IH; by rewrite IH.
Qed.

(** A run of text up to a tag or the end. *)
Lemma run_raw text rest s :
  no_tag text -> match rest with [] => True | ch :: _ => N.eqb "<"%ch ch = true end ->
  run (text ++ rest) s = run rest (on_top (push_text (decode_entities text)) s).
Proof.
  intros Ht Hr. destruct text as [|ch text]; [by rewrite push_text_nil|].
  unfold run. cbn [app length markup_loop]. inversion Ht as [|? ? Hch ?]; subst.
  rewrite N.eqb_sym, Hch. cbn [negb]. rewrite app_comm_cons, until_app by done.
  rewrite drop_app_length. apply run_fuel. rewrite length_app. lia.
Qed.

(** Text that is decoded by itself may be followed by more text. *)
Lemma run_text text decoded rest s :
  no_tag text -> (forall more, decode_entities (text ++ more) = decoded ++ decode_entities more) ->
  run (text ++ rest) s = run rest (on_top (push_text decoded) s).
Proof.
  intros Ht Hd. destruct (until_split (N.eqb "<"%ch) rest) as (tags & E & F & R). set (raw := until _ rest) in *.
  rewrite E, app_assoc, !run_raw by (done || by apply Forall_app_2).
  rewrite Hd, on_top_on_top. f_equal. apply on_top_ext. intros n. by rewrite push_text_app.
Qed.

Lemma run_value value html rest s :
  run (escape_markup value html ++ rest) s = run rest (on_top (push_text (markup_text value)) s).
Proof. apply run_text; [apply escaped_no_tag|]. intros more. apply decode_escaped. Qed.

(** Text without tags and entities. *)
Definition plain (text : str) : bool := forallb (fun ch => negb (N.eqb "<"%ch ch) && negb (N.eqb ch "&"%ch)) text.

Lemma run_plain text rest s : plain text = true -> run (text ++ rest) s = run rest (on_top (push_text text) s).
Proof.
  intros H. unfold plain in H. rewrite forallb_True in H || rewrite forallb_forall in H.
  assert (Forall (fun ch => N.eqb "<"%ch ch = false /\ N.eqb ch "&"%ch = false) text) as F.
  { apply Forall_forall. intros ch Hch. apply list_elem_of_In in Hch. apply H in Hch.
    by apply andb_true_iff in Hch as [?%negb_true_iff ?%negb_true_iff]. }
  apply run_text; [eapply Forall_impl; [exact F|]; by intros ? []|]. intros more.
  induction F as [|ch text [_ Hch] _ IH]; [done|]. cbn [app]. rewrite decode_plain by done. f_equal. apply IH.
  intros x Hx. apply H. by right.
Qed.

(** What may be between the brackets of a tag. *)
Definition tag_body (inner : str) : bool :=
  (find_tag_end (inner ++ u ">") == Some (length inner))
  && negb (starts_with inner (u "!") || starts_with inner (u "?")).

Lemma tag_end_app quote s rest n : tag_end quote s = Some n -> tag_end quote (s ++ rest) = Some n.
Proof.
  revert quote n. induction s as [|ch s IH]; intros quote n; [done|]. cbn [app tag_end].
  assert (forall q, S <$> tag_end q s = Some n -> S <$> tag_end q (s ++ rest) = Some n) as Hstep.
  { intros q. destruct (tag_end q s) as [m|] eqn:E; [|done]. by rewrite (IH q m). }
  destruct quote; [apply Hstep|]. destruct (_ || _); [apply Hstep|]. destruct (N.eqb ch ">"%ch); [done|apply Hstep].
Qed.

Lemma find_tag_end_plain inner :
  forallb (fun ch => negb (N.eqb ch QUOTE || N.eqb ch "'"%ch || N.eqb ch ">"%ch)) inner = true ->
  find_tag_end (inner ++ u ">") = Some (length inner).
Proof.
  unfold find_tag_end. induction inner as [|ch inner IH]; [done|]. cbn [forallb app tag_end length].
  rewrite andb_true_iff, negb_true_iff, !orb_false_iff. intros [[[Hq Ha] Hg] H].
  by rewrite Hq, Ha, Hg, IH.
Qed.

Lemma starts_with_cons c s pat : starts_with (c :: s) (c :: pat) = starts_with s pat.
Proof. cbn. by rewrite N.eqb_refl. Qed.

Lemma run_tag inner rest s : tag_body inner = true ->
  run (u "<" ++ inner ++ u ">" ++ rest) s = run rest (read_tag inner s).
Proof.
  unfold tag_body. rewrite andb_true_iff, negb_true_iff, orb_false_iff, bool_decide_eq_true. intros [Hbody [Hbang Hask]].
  unfold run. change (u "<" ++ inner ++ u ">" ++ rest) with ("<"%ch :: inner ++ ">"%ch :: rest).
  cbn [length markup_loop]. rewrite N.eqb_refl. cbn [negb].
  assert (skip_non_element ("<"%ch :: inner ++ ">"%ch :: rest) s = None) as ->.
  { unfold skip_non_element.
    assert (forall c pat, starts_with inner [c] = false -> c <> ">"%ch ->
              starts_with ("<"%ch :: inner ++ ">"%ch :: rest) ("<"%ch :: c :: pat) = false) as Hno.
    { intros c pat Hc Hg. rewrite starts_with_cons. destruct inner as [|x inner]; cbn in *.
      - apply N.eqb_neq in Hg. by rewrite Hg.
      - rewrite starts_with_nil, andb_true_r in Hc. by rewrite Hc. }
    change (u "<!--") with ("<"%ch :: "!"%ch :: u "--"). change (u "<![CDATA[") with ("<"%ch :: "!"%ch :: u "[CDATA[").
    change (u "<!") with ("<"%ch :: "!"%ch :: []). change (u "<?") with ("<"%ch :: "?"%ch :: []). by rewrite !Hno. }
  apply (tag_end_app _ _ rest) in Hbody. rewrite <- app_assoc in Hbody. unfold find_tag_end.
  change (u ">" ++ rest) with (">"%ch :: rest) in Hbody. rewrite Hbody, take_app_length.
  change (drop (S (length inner)) (inner ++ ">"%ch :: rest)) with (drop 1 (drop (length inner) (inner ++ ">"%ch :: rest))) ||
    (replace (S (length inner)) with (length inner + 1) by lia; rewrite <- drop_drop).
  rewrite drop_app_length. change (drop 1 (">"%ch :: rest)) with (drop 0 rest).
  rewrite drop_0. apply run_fuel. rewrite length_app. cbn. lia.
Qed.

(** ** Tags *)

Definition name_char (ch : char) : bool :=
  negb (is_whitespace ch || is_char_of ch "/>'" || N.eqb ch QUOTE).

(** A name the exporter writes, as opposed to markup. *)
Definition good_name (name : str) : bool :=
  negb (str_is_empty name) && forallb name_char name && negb (starts_with name (u "!") || starts_with name (u "?")).

Lemma name_char_spec ch : name_char ch = true ->
  is_whitespace ch = false /\ ends_name ch = false /\ N.eqb ch "/"%ch = false /\ N.eqb ch ">"%ch = false
  /\ N.eqb ch "'"%ch = false /\ N.eqb ch QUOTE = false.
Proof.
  unfold name_char, ends_name, is_char_of. change (u "/>'") with ["/"; ">"; "'"]%ch. change (u "/>") with ["/"; ">"]%ch.
  cbn [existsb]. rewrite negb_true_iff, !orb_false_iff. naive_solver.
Qed.

Lemma trim_start_word s rest : Forall (fun ch => is_whitespace ch = false) s -> s <> [] -> trim_start (s ++ rest) = s ++ rest.
Proof. destruct 1 as [|ch s Hch]; [done|]. intros _. cbn. by rewrite Hch. Qed.

Lemma trim_start_char_other c s : s !! 0 <> Some c -> trim_start_char c s = s.
Proof.
  destruct s as [|ch s]; [done|]. cbn. intros H. destruct (N.eqb_spec ch c) as [->|]; [|done]. by destruct H.
Qed.

Section Name.
Variable name : str.
Hypothesis Hname : good_name name = true.

Lemma good_name_chars : name <> [] /\ Forall (fun ch => name_char ch = true) name
  /\ starts_with name (u "!") = false /\ starts_with name (u "?") = false.
Proof.
  unfold good_name in Hname. rewrite !andb_true_iff, negb_true_iff, negb_true_iff, orb_false_iff in Hname.
  destruct Hname as [[Hne Hall] [Hb Ha]]. split; [by intros ->|]. split; [|done].
  apply Forall_forall. intros ch Hch. apply list_elem_of_In in Hch. by eapply forallb_forall in Hall.
Qed.

Lemma good_name_ne : name <> [].
Proof. apply good_name_chars. Qed.

Lemma good_name_all (P : char -> Prop) : (forall ch, name_char ch = true -> P ch) -> Forall P name.
Proof. intros H. destruct good_name_chars as (_ & F & _). by eapply Forall_impl. Qed.

Lemma name_words : Forall (fun ch => is_whitespace ch = false) name.
Proof. apply good_name_all. intros ch H. by apply name_char_spec in H as (? & _). Qed.

Lemma name_slash rest : trim_start_char "/"%ch (name ++ rest) = name ++ rest.
Proof.
  apply trim_start_char_other. destruct good_name_chars as (Hne & F & _). destruct F as [|ch l Hch]; [done|].
  cbn. intros [= ->]. by apply name_char_spec in Hch.
Qed.

Lemma tag_name_of rest : match rest with [] => True | ch :: _ => ends_name ch = true end -> tag_name (name ++ rest) = name.
Proof.
  intros Hr. unfold tag_name. rewrite trim_start_word by (apply name_words || apply good_name_ne).
  rewrite name_slash, until_app; [done| |done]. apply good_name_all. intros ch H. by apply name_char_spec in H as (_ & ? & _).
Qed.

Lemma tag_attributes_of rest : match rest with [] => True | ch :: _ => ends_name ch = true end ->
  tag_attributes (name ++ rest) = trim_end_char "/"%ch (trim rest).
Proof.
  intros Hr. unfold tag_attributes. rewrite trim_start_word by (apply name_words || apply good_name_ne).
  rewrite name_slash, until_app; [by rewrite drop_app_length| |done].
  apply good_name_all. intros ch H. by apply name_char_spec in H as (_ & ? & _).
Qed.

Lemma not_closing : strip_prefix name (u "/") = None.
Proof.
  unfold strip_prefix. destruct good_name_chars as (Hne & F & _). destruct F as [|ch l Hch]; [done|].
  change (u "/") with ["/"%ch]. cbn [starts_with]. apply name_char_spec in Hch as (_ & _ & Hs & _). by rewrite N.eqb_sym, Hs.
Qed.

Lemma not_closing_slash : strip_prefix (name ++ u "/") (u "/") = None.
Proof.
  pose proof not_closing as H. unfold strip_prefix in *. destruct good_name_chars as (Hne & _).
  change (u "/") with ["/"%ch] in *. destruct name as [|ch l]; [done|]. cbn [starts_with app] in *.
  destruct (N.eqb "/"%ch ch); [|done]. by rewrite starts_with_nil in H.
Qed.

Lemma not_self_closing : ends_with (trim_end name) (u "/") = false.
Proof.
  unfold ends_with. change (reverse (u "/")) with ["/"%ch]. destruct good_name_chars as (Hne & F & _).
  destruct name as [|ch l _] using rev_ind; [done|].
  apply Forall_app in F as [_ F]. inversion F as [|? ? Hch _]; subst.
  apply name_char_spec in Hch as (Hw & _ & Hs & _). rewrite trim_end_snoc, reverse_snoc by done.
  cbn [starts_with]. by rewrite N.eqb_sym, Hs.
Qed.

Lemma self_closing_slash : ends_with (trim_end (name ++ u "/")) (u "/") = true.
Proof.
  change (u "/") with ["/"%ch]. rewrite trim_end_snoc by done. unfold ends_with. rewrite reverse_snoc.
  change (reverse ["/"%ch]) with ["/"%ch]. cbn. by rewrite starts_with_nil.
Qed.

(** The tag is not void. *)
Definition opens (s : Forest) : Forest :=
  let s := close_siblings name s in mkForest (mkNode name [] false [] :: stack s) (roots s).

Lemma read_open s : existsb (eq_ignore_ascii_case name) VOID_ELEMENTS = false -> read_tag name s = opens s.
Proof.
  intros Hv. unfold read_tag, open_tag, opens. rewrite not_closing, not_self_closing.
  pose proof (tag_name_of []) as Hn. pose proof (tag_attributes_of []) as Ha. rewrite app_nil_r in Hn, Ha.
  rewrite Hn, Ha by done. destruct good_name_chars as (Hne & _).
  assert (str_is_empty name = false) as -> by by destruct name. cbn [orb].
  change (trim_end_char "/"%ch (trim [])) with (@nil N).
  change (is_tag (mkNode name [] false [])) with (eq_ignore_ascii_case name). by rewrite Hv.
Qed.

Lemma read_empty s : read_tag (name ++ u "/") s = finish (mkNode name [] true []) (close_siblings name s).
Proof.
  unfold read_tag, open_tag. rewrite not_closing_slash, self_closing_slash, tag_name_of, tag_attributes_of by done.
  destruct good_name_chars as (Hne & _). by assert (str_is_empty name = false) as -> by by destruct name.
Qed.

Lemma read_close s : read_tag (u "/" ++ name) s = close_tag name s.
Proof.
  unfold read_tag, strip_prefix. change (u "/" ++ name) with ("/"%ch :: name). change (u "/") with ["/"%ch].
  cbn. rewrite starts_with_nil. cbn. rewrite drop_0. by pose proof (tag_name_of []) as Hn; rewrite app_nil_r in Hn; rewrite Hn.
Qed.

Lemma name_body : tag_body name = true /\ tag_body (name ++ u "/") = true /\ tag_body (u "/" ++ name) = true.
Proof.
  destruct good_name_chars as (Hne & F & Hb & Ha). unfold tag_body.
  assert (forallb (fun ch => negb (N.eqb ch QUOTE || N.eqb ch "'"%ch || N.eqb ch ">"%ch)) name = true) as Hall.
  { apply forallb_forall. intros ch Hch. apply list_elem_of_In in Hch. rewrite Forall_forall in F.
    apply F, name_char_spec in Hch as (_ & _ & _ & Hg & Hq & Hd). by rewrite Hg, Hq, Hd. }
  assert (starts_with (name ++ u "/") (u "!") = false /\ starts_with (name ++ u "/") (u "?") = false) as [Hb' Ha'].
  { destruct name as [|ch l]; [done|]. change (u "!") with ["!"%ch] in *. change (u "?") with ["?"%ch] in *. cbn in *.
    rewrite starts_with_nil, andb_true_r in Hb, Ha. by rewrite Hb, Ha. }
  rewrite !find_tag_end_plain by by rewrite ?forallb_app, ?Hall.
  rewrite !bool_decide_true by done. by rewrite Hb, Ha, Hb', Ha'.
Qed.
End Name.

(** ** A document as a sequence of pieces *)

Inductive Piece :=
  | Piece_Tag (inner : str)
  | Piece_Plain (text : str)
  | Piece_Value (value : str) (html : bool)
  | Piece_Other (text : str).

Definition piece_text (p : Piece) : str :=
  match p with
  | Piece_Tag inner => u "<" ++ inner ++ u ">"
  | Piece_Plain text => text
  | Piece_Value value html => escape_markup value html
  | Piece_Other text => text
  end.

Definition piece_ok (p : Piece) : bool :=
  match p with
  | Piece_Tag inner => tag_body inner
  | Piece_Plain text => plain text
  | Piece_Value _ _ => true
  | Piece_Other text =>
      (9 <=? length text) && negb (starts_with text (u "<!--")) && negb (starts_with text (u "<![CDATA["))
      && (starts_with text (u "<!") || starts_with text (u "<?"))
      && (str_find text (u ">") == Some (length text - 1))
  end.

Definition piece_effect (p : Piece) (s : Forest) : Forest :=
  match p with
  | Piece_Tag inner => read_tag inner s
  | Piece_Plain text => on_top (push_text text) s
  | Piece_Value value _ => on_top (push_text (markup_text value)) s
  | Piece_Other _ => s
  end.

Definition pieces_text (ps : list Piece) : str := concat (piece_text <$> ps).
Definition pieces_effect (ps : list Piece) (s : Forest) : Forest := foldl (fun s p => piece_effect p s) s ps.

Lemma starts_with_of_app s rest pat : length pat <= length s -> starts_with (s ++ rest) pat = starts_with s pat.
Proof.
  revert s. induction pat as [|p pat IH]; intros s H; [by rewrite !starts_with_nil|].
  destruct s as [|c s]; cbn in H; [lia|]. cbn [app starts_with]. by rewrite IH by lia.
Qed.

Lemma str_find_app_char s rest c i : str_find s [c] = Some i -> str_find (s ++ rest) [c] = Some i.
Proof.
  revert i. induction s as [|ch s IH]; intros i; [done|]. cbn [app str_find starts_with].
  rewrite !starts_with_nil. destruct (N.eqb c ch && true); [done|].
  destruct (str_find s [c]) as [j|]; [|done]. intros [= <-]. by rewrite (IH j).
Qed.

Lemma run_other text rest s : piece_ok (Piece_Other text) = true -> run (text ++ rest) s = run rest s.
Proof.
  cbn [piece_ok]. rewrite !andb_true_iff, !negb_true_iff, bool_decide_eq_true, Nat.leb_le.
  intros [[[[Hlen Hc] Hd] Ho] Hf].
  assert (starts_with text (u "<") = true) as Hlt.
  { destruct text as [|ch text]; [cbn in Hlen; lia|]. change (u "<!") with ["<"; "!"]%ch in Ho.
    change (u "<?") with ["<"; "?"]%ch in Ho. change (u "<") with ["<"%ch]. cbn [starts_with] in *.
    rewrite starts_with_nil. destruct (N.eqb "<"%ch ch); [done|]. by destruct Ho. }
  assert (skip_non_element (text ++ rest) s = Some (length text, s)) as Hskip.
  { unfold skip_non_element. rewrite !starts_with_of_app by (refine (Nat.le_trans _ 9 _ _ Hlen); apply Nat.leb_le; reflexivity).
    rewrite Hc, Hd.
    rewrite Ho.
    unfold past. rewrite drop_0. change (u ">") with [">"%ch] in *. rewrite (str_find_app_char _ _ _ _ Hf). cbn.
    f_equal. f_equal. lia. }
  unfold run at 1. destruct text as [|ch text]; [cbn in Hlen; lia|].
  change (u "<") with ["<"%ch] in Hlt. cbn [starts_with] in Hlt. rewrite starts_with_nil, andb_true_r, N.eqb_sym in Hlt.
  cbn [app length markup_loop]. rewrite Hlt. cbn [negb]. rewrite app_comm_cons, Hskip, drop_app_length.
  apply run_fuel. rewrite length_app. lia.
Qed.

Lemma run_piece p rest s : piece_ok p = true -> run (piece_text p ++ rest) s = run rest (piece_effect p s).
Proof.
  destruct p; cbn [piece_text piece_effect]; intros H.
  - rewrite <- !app_assoc. by apply run_tag.
  - by apply run_plain.
  - apply run_value.
  - by apply run_other.
Qed.

Lemma run_pieces ps rest s : forallb piece_ok ps = true -> run (pieces_text ps ++ rest) s = run rest (pieces_effect ps s).
Proof.
  unfold pieces_text, pieces_effect. revert s. induction ps as [|p ps IH]; intros s H; [done|].
  cbn [forallb] in H. apply andb_true_iff in H as [Hp H]. cbn [fmap list_fmap concat foldl].
  rewrite <- app_assoc, run_piece by done. by apply IH.
Qed.

Lemma parse_pieces ps : forallb piece_ok ps = true ->
  parse_markup (pieces_text ps)
  = roots (let s := pieces_effect ps (mkForest [] []) in close (length (stack s)) s).
Proof.
  intros H. unfold parse_markup. change (markup_loop _ _ ?s) with (run (pieces_text ps) s).
  rewrite <- (app_nil_r (pieces_text ps)). by rewrite run_pieces.
Qed.
