(* ===== verification/XmlHtmlLaws.v ===== *)
(** * Unique names, XML and HTML tables

    The column names an XML document can carry, and the documents that are written, element by element as the reader sees them. *)
From stdpp Require Import gmap pretty.
From stdpp Require Import gmap.
From S2P Require Import Prelude RustStr RustParse ResultExport ImportDelimited ImportMarkup MarkupLaws.

(** * Names in an exported file

    That [unique_field_names] returns and makes names unique, and that every name
    [render_xml] writes is one. *)

(** ** Decimals *)

#[local] Instance N_of_ascii_inj : Inj (=) (=) N_of_ascii.
Proof. intros c d H. by rewrite <- (ascii_N_embedding c), <- (ascii_N_embedding d), H. Qed.

#[export] Instance u_inj : Inj (=) (=) u.
Proof.
  intros s t H. unfold u in H. apply (inj (fmap N_of_ascii)) in H.
  rewrite <- (string_of_list_ascii_of_string s), <- (string_of_list_ascii_of_string t). by f_equal.
Qed.

#[export] Instance to_decimal_inj : Inj (=) (=) to_decimal.
Proof. intros n m H. unfold to_decimal in H. by apply (inj u), (inj pretty) in H. Qed.

Lemma to_decimal_digits n : Forall (fun ch => is_ascii_digit ch = true) (to_decimal n).
Proof.
  unfold to_decimal. change (pretty n) with (pretty (N.of_nat n)). generalize (N.of_nat n) as x. intros x.
  change (pretty x) with (if decide (x = 0)%N then "0"%string else pretty_N_go x "").
  destruct (decide (x = 0)%N); [by repeat constructor|].
  assert (forall s, Forall (fun ch => is_ascii_digit ch = true) (u s) -> Forall (fun ch => is_ascii_digit ch = true) (u (pretty_N_go x s))) as H.
  { clear. induction (N.lt_wf_0 x) as [x _ IH]. intros s Hs. destruct (decide (0 < x)%N) as [Hx|Hx].
    - rewrite pretty_N_go_step by done. apply IH; [by apply N.div_lt|]. rewrite u_cons. constructor; [|done].
      unfold pretty_N_char. by repeat case_match.
    - assert (x = 0%N) as -> by lia. by rewrite pretty_N_go_0. }
  apply H. constructor.
Qed.

(** ** Unique names *)

Definition candidate (name : str) (suffix : nat) : str := name ++ u "_" ++ to_decimal suffix.

#[export] Instance candidate_inj name : Inj (=) (=) (candidate name).
Proof. intros n m H. unfold candidate in H. by apply app_inv_head, app_inv_head, (inj to_decimal) in H. Qed.

Lemma free_name_some fuel taken name suffix unique :
  free_name fuel taken name suffix = Some unique ->
  (unique ∉ taken) /\ exists k, suffix <= k /\ unique = candidate name k.
Proof.
  revert suffix. induction fuel as [|fuel IH]; intros suffix; [done|]. cbn [free_name].
  destruct (bool_decide_reflect (name ++ u "_" ++ to_decimal suffix ∈ taken)).
  - intros H. apply IH in H as (Hn & k & Hk & ->). split; [done|]. exists k. split; [lia|done].
  - intros [= <-]. split; [done|]. exists suffix. by split.
Qed.

Lemma free_name_none fuel taken name suffix :
  free_name fuel taken name suffix = None -> forall k, k < fuel -> candidate name (suffix + k) ∈ taken.
Proof.
  revert suffix. induction fuel as [|fuel IH]; intros suffix H k Hk; [lia|]. cbn [free_name] in H.
  destruct (bool_decide_reflect (name ++ u "_" ++ to_decimal suffix ∈ taken)) as [Hin|]; [|done].
  destruct k as [|k]; [by rewrite Nat.add_0_r|]. replace (suffix + S k) with (suffix + 1 + k) by lia.
  apply IH; [done|lia].
Qed.

(** More candidates than names are taken: one of them is free. *)
Lemma free_name_returns taken name suffix : free_name (S (size taken)) taken name suffix <> None.
Proof.
  intros H. pose proof (free_name_none _ _ _ _ H) as Hin. clear H.
  set (l := (fun k => candidate name (suffix + k)) <$> seq 0 (S (size taken))).
  assert (list_to_set l ⊆ taken) as Hsub.
  { intros x Hx. apply elem_of_list_to_set, list_elem_of_fmap in Hx as (k & -> & Hk%elem_of_seq). apply Hin. lia. }
  assert (NoDup l) as Hl.
  { apply NoDup_fmap_2; [|apply NoDup_seq]. intros i j H%(inj (candidate name)). lia. }
  apply subseteq_size in Hsub. rewrite size_list_to_set in Hsub by done. unfold l in Hsub.
  rewrite length_fmap, length_seq in Hsub. lia.
Qed.

(** What a name may become. *)
Definition renamed (name unique : str) : Prop := unique = name \/ exists k, 2 <= k /\ unique = candidate name k.

Lemma unique_loop_spec names taken :
  exists out, unique_loop taken names = Some out
  /\ NoDup out /\ (forall name, name ∈ out -> name ∉ taken) /\ Forall2 renamed names out
  /\ (NoDup names -> (forall name, name ∈ names -> name ∉ taken) -> out = names).
Proof.
  revert taken. induction names as [|name names IH]; intros taken.
  - exists []. split_and!; [done|by constructor|set_solver|by constructor|done].
  - cbn [unique_loop].
    assert (exists unique, (if bool_decide (name ∈ taken) then free_name (S (size taken)) taken name 2 else Some name) = Some unique
            /\ (unique ∉ taken) /\ renamed name unique /\ (name ∉ taken -> unique = name)) as (unique & -> & Hu & Hr & Hk).
    { destruct (bool_decide_reflect (name ∈ taken)); [|exists name; split_and!; [done..|by left|done]].
      pose proof (free_name_returns taken name 2). destruct (free_name _ _ _ _) as [unique|] eqn:E; [|done].
      apply free_name_some in E as (? & k & ? & ->). eexists. split_and!; [done..| |done]. right. by exists k. }
    cbn [mbind option_bind]. destruct (IH ({[unique]} ∪ taken)) as (out & -> & Hnd & Hout & Hf & Hid).
    exists (unique :: out). cbn. split_and!; [done| | | |].
    + constructor; [|done]. intros Hin. apply Hout in Hin. set_solver.
    + intros n [->|Hn]%elem_of_cons; [done|]. apply Hout in Hn. set_solver.
    + by constructor.
    + intros Hnd' Ht. apply NoDup_cons in Hnd' as [Hnn Hnd']. rewrite Hk by (apply Ht; by left).
      f_equal. apply Hid; [done|]. intros n Hn. rewrite Hk by (apply Ht; by left).
      assert (n ∉ taken) by (apply Ht; by right). set_solver.
Qed.

(** C35. The search for free names ends; the names it gives are different, each the
    given one or that one with a number, and names that differ stay. *)
Theorem unique_names_are_unique names :
  exists out, unique_field_names names = Some out
  /\ NoDup out /\ Forall2 renamed names out /\ (NoDup names -> out = names).
Proof.
  destruct (unique_loop_spec names ∅) as (out & E & Hnd & _ & Hf & Hid). exists out. split_and!; [done..|].
  intros H. apply Hid; [done|set_solver].
Qed.

(** The first use of a name does not keep it when an earlier repetition took it. *)
Example first_use_renamed : unique_field_names [u "a"; u "a"; u "a_2"] = Some [u "a"; u "a_2"; u "a_2_2"].
Proof. vm_compute. reflexivity. Qed.

(** * XML files read back

    The document [render_xml] writes as a sequence of pieces, and the table the
    reader makes of it. *)

(** ** Names of elements *)

Section Tables.
Context {Tables : UnicodeTables}.

(** What Unicode promises: letters and digits are not white space. *)
Definition tables_ok : Prop :=
  forall ch, alphabetic_table ch || numeric_table ch = true -> is_whitespace ch = false.

Hypothesis Htables : tables_ok.

Lemma alphanumeric_name_char ch : is_alphanumeric ch = true -> name_char ch = true.
Proof.
  intros H. unfold is_alphanumeric in H. destruct (is_ascii ch) eqn:E.
  - assert (forallb (fun n => negb (is_ascii_alphanumeric n) || name_char n) (N.of_nat <$> seq 0 128) = true) as Hall
      by (vm_compute; reflexivity).
    rewrite forallb_forall in Hall. specialize (Hall ch). rewrite H in Hall. apply Hall.
    apply list_elem_of_In, list_elem_of_fmap. exists (N.to_nat ch). unfold is_ascii in E. apply N.ltb_lt in E.
    rewrite N2Nat.id, elem_of_seq. split; [done|lia].
  - unfold is_ascii in E. apply N.ltb_ge in E. unfold name_char. rewrite (Htables ch H). cbn [orb].
    unfold is_char_of. change (u "/>'") with ["/"; ">"; "'"]%ch. cbn [existsb].
    assert (forall c, (c < 128)%N -> N.eqb ch c = false) as Hne by (intros c Hc; apply N.eqb_neq; lia).
    by rewrite !Hne.
Qed.

Lemma xml_name_char_ok ch : xml_name_char ch = true -> name_char ch = true.
Proof.
  unfold xml_name_char. rewrite orb_true_iff. intros [H|H]; [by apply alphanumeric_name_char|].
  unfold is_char_of in H. change (u "_-.") with ["_"; "-"; "."]%ch in H. cbn [existsb] in H.
  rewrite !orb_true_iff, !N.eqb_eq in H. by destruct H as [->|[->|[->|]]].
Qed.

Lemma digits_name_chars n : forallb name_char (to_decimal n) = true.
Proof.
  apply forallb_forall. intros ch Hch. apply list_elem_of_In in Hch.
  pose proof (to_decimal_digits n) as F. rewrite Forall_forall in F. apply F in Hch.
  apply alphanumeric_name_char. unfold is_alphanumeric, is_ascii_alphanumeric.
  rewrite Hch, orb_true_r. unfold is_ascii. unfold is_ascii_digit, in_range in Hch.
  apply andb_true_iff in Hch as [_ Hch]. apply N.leb_le in Hch. destruct (N.ltb_spec ch 128); [done|]. lia.
Qed.

Lemma good_name_app name suffix : good_name name = true -> forallb name_char suffix = true -> good_name (name ++ suffix) = true.
Proof.
  intros Hn Hs. pose proof (good_name_chars name Hn) as (Hne & _ & Hb & Ha).
  unfold good_name in *. rewrite !andb_true_iff in Hn. destruct Hn as [[_ Hall] _].
  rewrite forallb_app, Hall, Hs. destruct name as [|ch name]; [done|]. cbn [app str_is_empty negb andb].
  change (u "!") with ["!"%ch] in *. change (u "?") with ["?"%ch] in *. cbn [starts_with] in *.
  rewrite !starts_with_nil in *. by rewrite Hb, Ha.
Qed.

Lemma xml_element_name_good column index : good_name (xml_element_name column index) = true.
Proof.
  unfold xml_element_name. set (name := _ <$> trim column).
  destruct (negb _ || _) eqn:E.
  - apply good_name_app; [done|apply digits_name_chars].
  - apply orb_false_iff in E as [E%negb_false_iff _]. destruct name as [|ch rest] eqn:En; [done|]. cbn in E.
    assert (forallb name_char (ch :: rest) = true) as Hall.
    { rewrite <- En. unfold name. apply forallb_forall. intros c Hc. apply list_elem_of_In, list_elem_of_fmap in Hc as (c' & -> & _).
      destruct (xml_name_char c') eqn:H; [by apply xml_name_char_ok|done]. }
    unfold good_name. rewrite Hall. cbn [str_is_empty negb andb].
    change (u "!") with ["!"%ch]. change (u "?") with ["?"%ch]. cbn [starts_with]. rewrite !starts_with_nil, !andb_true_r.
    destruct (N.eqb_spec "!"%ch ch) as [<-|]; [done|]. destruct (N.eqb_spec "?"%ch ch) as [<-|]; [done|]. done.
Qed.

Lemma xml_names_good columns names :
  unique_field_names (imap (fun index column => xml_element_name column index) columns) = Some names ->
  Forall (fun name => good_name name = true) names /\ NoDup names /\ length names = length columns.
Proof.
  intros E. destruct (unique_loop_spec (imap (fun index column => xml_element_name column index) columns) ∅)
    as (out & E' & Hnd & _ & Hf & _). unfold unique_field_names in E. rewrite E in E'. injection E' as <-.
  split_and!; [|done|by rewrite <- (Forall2_length _ _ _ Hf), length_imap].
  apply Forall_forall. intros unique Hu. apply list_elem_of_lookup in Hu as (i & Hi).
  eapply Forall2_lookup_r in Hf as (name & Hn & Hr); [|exact Hi].
  rewrite list_lookup_imap in Hn. destruct (columns !! i); [|done]. injection Hn as <-.
  destruct Hr as [->|(k & _ & ->)]; [apply xml_element_name_good|].
  apply good_name_app; [apply xml_element_name_good|]. rewrite forallb_app, digits_name_chars. done.
Qed.
End Tables.

(** ** The tree that is built *)

Lemma node_name_push_text text n : node_name (push_text text n) = node_name n.
Proof. destruct n. unfold push_text. by destruct (str_is_empty text). Qed.

Lemma node_name_push_element c n : node_name (push_element c n) = node_name n.
Proof. by destruct n. Qed.

Lemma self_closing_push_text text n : self_closing (push_text text n) = self_closing n.
Proof. destruct n. unfold push_text. by destruct (str_is_empty text). Qed.

Lemma elements_push_text text n : elements (push_text text n) = elements n.
Proof.
  destruct n as [name attributes closing content]. unfold push_text, elements, elements_of.
  destruct (str_is_empty text); [done|]. cbn [ImportMarkup.content].
  destruct (last content) as [[existing|child]|] eqn:L.
  - apply last_Some in L as [l ->]. rewrite removelast_last, !omap_app. done.
  - rewrite omap_app. cbn. by rewrite app_nil_r.
  - rewrite omap_app. cbn. by rewrite app_nil_r.
Qed.

Lemma elements_push_element c n : elements (push_element c n) = elements n ++ [c].
Proof. destruct n. unfold elements, elements_of. cbn. by rewrite omap_app. Qed.

Lemma is_tag_refl n : is_tag n (node_name n) = true.
Proof. unfold is_tag, eq_ignore_ascii_case. by rewrite bool_decide_true. Qed.

(** An element that no opening tag closes. *)
Definition no_sibling (n : MarkupNode) : Prop := Forall (fun tag => is_tag n tag = false) [u "td"; u "th"; u "tr"].

Lemma close_siblings_none name s : Forall no_sibling (stack s) -> close_siblings name s = s.
Proof.
  intros H. unfold close_siblings.
  destruct (List.find _ _) as [[tag closes]|] eqn:E; [|done].
  assert (closes ⊆ [u "td"; u "th"; u "tr"]) as Hsub.
  { apply find_some in E as [E _]. destruct E as [[= <- <-]|[[= <- <-]|[[= <- <-]|[]]]]; set_solver. }
  set (scope := take _ _). unfold nearest. replace (list_find _ scope) with (@None (nat * MarkupNode)); [done|].
  symmetry. apply list_find_None. subst scope. apply Forall_take. eapply Forall_impl; [exact H|]. intros n Hn.
  intros Hex. apply Is_true_true, existsb_exists in Hex as (t & Ht & Ht'). apply list_elem_of_In, Hsub in Ht.
  unfold no_sibling in Hn. rewrite Forall_forall in Hn. specialize (Hn t Ht). congruence.
Qed.

(** Closing the innermost element. *)
Lemma close_innermost name n below rs :
  node_name n = name -> close_tag name (mkForest (n :: below) rs) = finish n (mkForest below rs).
Proof.
  intros <-. unfold close_tag, nearest. cbn [stack list_find].
  rewrite decide_True by by rewrite is_tag_refl. done.
Qed.

(** ** Cells *)

(** The name is taken for an element without content. *)
Definition is_void (name : str) : bool := existsb (eq_ignore_ascii_case name) VOID_ELEMENTS.

Definition cell_node (cell : ExportCell) (name : str) : MarkupNode :=
  match cell with
  | None => mkNode name [] true []
  | Some value => push_text (markup_text value) (mkNode name [] false [])
  end.

Definition cell_pieces (cell : ExportCell) (name : str) : list Piece :=
  [Piece_Plain (u "    ")]
  ++ match cell with
     | None => [Piece_Tag (name ++ u "/")]
     | Some value => [Piece_Tag name; Piece_Value value false; Piece_Tag (u "/" ++ name)]
     end ++ [Piece_Plain [LF]].

Lemma cell_pieces_text cell name : pieces_text (cell_pieces cell name) = xml_cell cell name.
Proof.
  unfold pieces_text, cell_pieces, xml_cell. change (u "    <") with (u "    " ++ u "<").
  change (u "/>") with (u "/" ++ u ">"). change (u "</") with (u "<" ++ u "/").
  destruct cell; cbn [app fmap list_fmap piece_text concat]; by rewrite <- ?app_assoc.
Qed.

Lemma cell_pieces_ok cell name : good_name name = true -> forallb piece_ok (cell_pieces cell name) = true.
Proof.
  intros H. pose proof (name_body name H) as (H1 & H2 & H3).
  unfold cell_pieces. destruct cell; cbn [app forallb piece_ok]; by rewrite ?H1, ?H2, ?H3.
Qed.

Definition cell_step (row : MarkupNode) (cell : ExportCell * str) : MarkupNode :=
  push_text [LF] (push_element (cell_node (fst cell) (snd cell)) (push_text (u "    ") row)).

Definition place_cell (cell : ExportCell) (name : str) : Prop :=
  good_name name = true /\ (is_Some cell -> is_void name = false).

Lemma cell_effect cell name row below rs :
  place_cell cell name -> Forall no_sibling (row :: below) ->
  pieces_effect (cell_pieces cell name) (mkForest (row :: below) rs)
  = mkForest (cell_step row (cell, name) :: below) rs.
Proof.
  intros [Hname Hvoid] Hs.
  assert (Forall no_sibling (push_text (u "    ") row :: below)) as Hs'.
  { inversion Hs as [|? ? H1 H2]; subst. constructor; [|done]. unfold no_sibling, is_tag in *. by rewrite node_name_push_text. }
  unfold pieces_effect, cell_pieces, cell_step. destruct cell as [value|]; cbn [app foldl piece_effect fst snd cell_node].
  - unfold on_top at 3. cbn [stack roots]. rewrite (read_open name) by (done || by apply Hvoid).
    unfold opens. rewrite close_siblings_none by done. cbn [stack roots].
    unfold on_top at 2. cbn [stack roots]. rewrite read_close, close_innermost by (done || apply node_name_push_text).
    done.
  - unfold on_top at 2. cbn [stack roots]. rewrite read_empty, close_siblings_none by done. done.
Qed.

(** ** Rows *)

Definition row_node (cells : list (ExportCell * str)) : MarkupNode :=
  push_text (u "  ") (foldl cell_step (push_text [LF] (mkNode (u "row") [] false [])) cells).

Definition row_pieces (cells : list (ExportCell * str)) : list Piece :=
  [Piece_Plain (u "  "); Piece_Tag (u "row"); Piece_Plain [LF]]
  ++ concat ((fun '(cell, name) => cell_pieces cell name) <$> cells)
  ++ [Piece_Plain (u "  "); Piece_Tag (u "/row"); Piece_Plain [LF]].

Lemma pieces_text_app ps qs : pieces_text (ps ++ qs) = pieces_text ps ++ pieces_text qs.
Proof. unfold pieces_text. by rewrite fmap_app, concat_app. Qed.

Lemma pieces_effect_app ps qs s : pieces_effect (ps ++ qs) s = pieces_effect qs (pieces_effect ps s).
Proof. unfold pieces_effect. by rewrite foldl_app. Qed.

Lemma cells_effect cells row below rs :
  Forall (fun '(cell, name) => place_cell cell name) cells -> Forall no_sibling (row :: below) ->
  pieces_effect (concat ((fun '(cell, name) => cell_pieces cell name) <$> cells)) (mkForest (row :: below) rs)
  = mkForest (foldl cell_step row cells :: below) rs
  /\ node_name (foldl cell_step row cells) = node_name row.
Proof.
  intros H. revert row. induction H as [|[cell name] cells Hc _ IH]; intros row Hs; [done|].
  cbn [fmap list_fmap concat foldl]. rewrite pieces_effect_app, cell_effect by done.
  assert (node_name (cell_step row (cell, name)) = node_name row) as E.
  { unfold cell_step. by rewrite node_name_push_text, node_name_push_element, node_name_push_text. }
  destruct (IH (cell_step row (cell, name))) as [-> ->]; [|done].
  inversion Hs; subst. constructor; [|done]. unfold no_sibling, is_tag in *. by rewrite E.
Qed.

Definition row_step (document : MarkupNode) (cells : list (ExportCell * str)) : MarkupNode :=
  push_text [LF] (push_element (row_node cells) (push_text (u "  ") document)).

Lemma row_effect cells document :
  Forall (fun '(cell, name) => place_cell cell name) cells -> node_name document = u "results" ->
  pieces_effect (row_pieces cells) (mkForest [document] []) = mkForest [row_step document cells] [].
Proof.
  intros Hc Hd. unfold row_pieces. rewrite !pieces_effect_app.
  assert (Forall no_sibling [push_text (u "  ") document]) as Hs.
  { repeat constructor; unfold is_tag; by rewrite node_name_push_text, Hd. }
  assert (pieces_effect [Piece_Plain (u "  "); Piece_Tag (u "row"); Piece_Plain [LF]] (mkForest [document] [])
          = mkForest [push_text [LF] (mkNode (u "row") [] false []); push_text (u "  ") document] []) as ->.
  { unfold pieces_effect. cbn [foldl piece_effect]. unfold on_top at 2. cbn [stack roots].
    rewrite (read_open (u "row")) by done. unfold opens. by rewrite close_siblings_none. }
  destruct (cells_effect cells (push_text [LF] (mkNode (u "row") [] false [])) [push_text (u "  ") document] [])
    as [-> Hname]; [done|by constructor; [repeat constructor|]|].
  unfold pieces_effect. cbn [foldl piece_effect]. unfold on_top at 2. cbn [stack roots].
  change (u "/row") with (u "/" ++ u "row"). rewrite read_close by done.
  rewrite close_innermost by (rewrite node_name_push_text, Hname; done). done.
Qed.

(** ** The document *)

Definition prolog_text : str :=
  u "<?xml version=" ++ [QUOTE] ++ u "1.0" ++ [QUOTE] ++ u " encoding=" ++ [QUOTE] ++ u "UTF-8" ++ [QUOTE] ++ u "?>".

Definition document_pieces (rows : list (list (ExportCell * str))) : list Piece :=
  [Piece_Other prolog_text; Piece_Plain [LF]; Piece_Tag (u "results"); Piece_Plain [LF]]
  ++ concat (row_pieces <$> rows) ++ [Piece_Tag (u "/results"); Piece_Plain [LF]].

Definition document_node (rows : list (list (ExportCell * str))) : MarkupNode :=
  foldl row_step (push_text [LF] (mkNode (u "results") [] false [])) rows.

Definition placed (row : list (ExportCell * str)) : Prop := Forall (fun '(cell, name) => place_cell cell name) row.

Lemma row_pieces_ok row : placed row -> forallb piece_ok (row_pieces row) = true.
Proof.
  intros H. unfold row_pieces. rewrite !forallb_app. cbn [forallb].
  assert (forallb piece_ok (concat ((fun '(cell, name) => cell_pieces cell name) <$> row)) = true) as ->; [|done].
  induction H as [|[cell name] row [Hname _] _ IH]; [done|]. cbn [fmap list_fmap concat].
  by rewrite forallb_app, cell_pieces_ok, IH.
Qed.

Lemma node_name_row_step document row : node_name (row_step document row) = node_name document.
Proof. unfold row_step. by rewrite node_name_push_text, node_name_push_element, node_name_push_text. Qed.

Lemma rows_effect rows document :
  Forall placed rows -> node_name document = u "results" ->
  pieces_effect (concat (row_pieces <$> rows)) (mkForest [document] []) = mkForest [foldl row_step document rows] []
  /\ node_name (foldl row_step document rows) = u "results".
Proof.
  intros H. revert document. induction H as [|row rows Hrow _ IH]; intros document Hd; [done|].
  cbn [fmap list_fmap concat foldl]. rewrite pieces_effect_app, row_effect by done.
  apply IH. by rewrite node_name_row_step.
Qed.

Lemma parse_document rows : Forall placed rows ->
  parse_markup (pieces_text (document_pieces rows)) = [document_node rows]
  /\ node_name (document_node rows) = u "results".
Proof.
  intros H. destruct (rows_effect rows (push_text [LF] (mkNode (u "results") [] false [])) H) as [E Hname]; [done|].
  split; [|done]. rewrite parse_pieces.
  - unfold document_pieces. rewrite !pieces_effect_app.
    assert (pieces_effect [Piece_Other prolog_text; Piece_Plain [LF]; Piece_Tag (u "results"); Piece_Plain [LF]] (mkForest [] [])
            = mkForest [push_text [LF] (mkNode (u "results") [] false [])] []) as -> by (vm_compute; reflexivity).
    rewrite E. unfold pieces_effect. cbn [foldl piece_effect].
    change (u "/results") with (u "/" ++ u "results"). rewrite read_close by done. by rewrite close_innermost.
  - unfold document_pieces. rewrite !forallb_app.
    assert (forallb piece_ok (concat (row_pieces <$> rows)) = true) as ->; [|by vm_compute].
    clear E Hname. induction H as [|row rows Hrow _ IH]; [done|]. cbn [fmap list_fmap concat].
    by rewrite forallb_app, row_pieces_ok, IH.
Qed.

Lemma elements_rows rows document : elements (foldl row_step document rows) = elements document ++ (row_node <$> rows).
Proof.
  revert document. induction rows as [|row rows IH]; intros document; cbn [foldl fmap list_fmap]; [by rewrite app_nil_r|].
  rewrite IH. unfold row_step. by rewrite elements_push_text, elements_push_element, elements_push_text, <- app_assoc.
Qed.

Definition cell_nodes (row : list (ExportCell * str)) : list MarkupNode := (fun '(cell, name) => cell_node cell name) <$> row.

Lemma elements_row row : elements (row_node row) = cell_nodes row.
Proof.
  unfold row_node. rewrite elements_push_text.
  assert (forall n, elements (foldl cell_step n row) = elements n ++ cell_nodes row) as E; [|by rewrite E].
  induction row as [|[cell name] row IH]; intros n; cbn [foldl]; [by rewrite app_nil_r|].
  rewrite IH. unfold cell_step. by rewrite elements_push_text, elements_push_element, elements_push_text, <- app_assoc.
Qed.

Lemma node_name_row row : node_name (row_node row) = u "row".
Proof.
  unfold row_node. rewrite node_name_push_text.
  assert (forall n, node_name (foldl cell_step n row) = node_name n) as E; [|by rewrite E].
  induction row as [|cell row IH]; intros n; [done|]. cbn [foldl]. rewrite IH.
  unfold cell_step. by rewrite node_name_push_text, node_name_push_element, node_name_push_text.
Qed.

(** ** The table *)

Lemma node_name_cell cell name : node_name (cell_node cell name) = name.
Proof. destruct cell; [|done]. cbn [cell_node]. by rewrite node_name_push_text. Qed.

Lemma all_text_pushed text name : all_text (push_text text (mkNode name [] false [])) = text.
Proof. destruct text; [done|]. cbn. by rewrite app_nil_r. Qed.

Definition xml_back (cell : ExportCell) : ImportCell := markup_text <$> cell.

Lemma read_cell_node cell name :
  (if self_closing (cell_node cell name) then None else Some (all_text (cell_node cell name))) = xml_back cell.
Proof.
  destruct cell as [value|]; [|done]. cbn [cell_node]. rewrite self_closing_push_text. cbn [self_closing].
  by rewrite all_text_pushed.
Qed.

Lemma note_new columns row : NoDup (columns ++ row.*2) -> foldl
  (fun columns cell => if bool_decide (node_name cell ∈ columns) then columns else columns ++ [node_name cell]) columns (cell_nodes row)
  = columns ++ row.*2.
Proof.
  revert columns. induction row as [|[cell name] row IH]; intros columns H; cbn [fmap list_fmap foldl cell_nodes]; [by rewrite app_nil_r|].
  rewrite node_name_cell. cbn [fmap list_fmap] in H. rewrite bool_decide_false.
  - rewrite IH; [by rewrite <- app_assoc|]. by rewrite <- app_assoc.
  - apply NoDup_app in H as (_ & H & _). intros Hin. apply (H name Hin). by left.
Qed.

Lemma note_old columns row : (forall name, name ∈ row.*2 -> name ∈ columns) -> foldl
  (fun columns cell => if bool_decide (node_name cell ∈ columns) then columns else columns ++ [node_name cell]) columns (cell_nodes row)
  = columns.
Proof.
  induction row as [|[cell name] row IH]; intros H; [done|]. cbn [fmap list_fmap foldl cell_nodes].
  rewrite node_name_cell, bool_decide_true by (apply H; by left). apply IH. intros n Hn. apply H. by right.
Qed.

(** Names that differ by more than case. *)
Lemma cell_lookup row i cell name :
  NoDup (ascii_upper <$> row.*2) -> row !! i = Some (cell, name) ->
  head (List.filter (fun child => is_tag child name) (cell_nodes row)) = Some (cell_node cell name).
Proof.
  revert i. induction row as [|[cell' name'] row IH]; intros i H Hi; [done|].
  cbn [fmap list_fmap] in H. apply NoDup_cons in H as [Hn H]. cbn [cell_nodes fmap list_fmap List.filter].
  destruct i as [|i].
  - injection Hi as -> ->. unfold is_tag at 1. rewrite node_name_cell. unfold eq_ignore_ascii_case at 1.
    by rewrite bool_decide_true.
  - unfold is_tag at 1. rewrite node_name_cell. unfold eq_ignore_ascii_case at 1. rewrite bool_decide_false; [by eapply IH|].
    intros E. apply Hn. cbn [snd]. rewrite E. apply list_elem_of_fmap. exists name. split; [done|].
    apply list_elem_of_fmap. exists (cell, name). split; [done|]. by eapply list_elem_of_lookup_2.
Qed.

Definition row_cells (names : list str) (row : list ExportCell) : list (ExportCell * str) :=
  imap (fun index name => (grid_cell row index, name)) names.

Lemma row_cells_names names row : (row_cells names row).*2 = names.
Proof. unfold row_cells. rewrite fmap_imap. apply list_eq. intros i. rewrite list_lookup_imap. by destruct (names !! i). Qed.

Lemma row_pieces_text names row : pieces_text (row_pieces (row_cells names row)) = xml_row names row.
Proof.
  unfold row_pieces, xml_row. rewrite !pieces_text_app.
  change (pieces_text [Piece_Plain (u "  "); Piece_Tag (u "row"); Piece_Plain [LF]]) with (u "  <row>" ++ [LF]).
  change (pieces_text [Piece_Plain (u "  "); Piece_Tag (u "/row"); Piece_Plain [LF]]) with (u "  </row>" ++ [LF]).
  rewrite <- app_assoc. do 3 f_equal. unfold row_cells.
  rewrite fmap_imap. unfold pieces_text.
  assert (forall (l : list (list Piece)), concat (piece_text <$> concat l) = concat ((fun ps => pieces_text ps) <$> l)) as Hconcat.
  { induction l as [|ps l IH]; [done|]. cbn [fmap list_fmap concat]. by rewrite fmap_app, concat_app, IH. }
  rewrite Hconcat, fmap_imap. f_equal. apply imap_ext. intros i name _. cbn. apply cell_pieces_text.
Qed.

Lemma document_text names rows :
  pieces_text (document_pieces (row_cells names <$> rows)) = xml_prolog ++ concat (xml_row names <$> rows) ++ u "</results>" ++ [LF].
Proof.
  unfold document_pieces. rewrite !pieces_text_app.
  change (pieces_text [Piece_Other _; _; _; _]) with xml_prolog. f_equal. f_equal.
  induction rows as [|row rows IH]; [done|]. cbn [fmap list_fmap concat].
  rewrite pieces_text_app, row_pieces_text. by f_equal.
Qed.

(** The document of no rows. *)
Lemma parse_empty_document :
  parse_xml (xml_prolog ++ u "</results>" ++ [LF]) = inr (u "The XML has no row elements.").
Proof. vm_compute. reflexivity. Qed.

Section Document.
Variables (names : list str) (rows : list (list ExportCell)).
Hypothesis Hgood : Forall (fun name => good_name name = true) names.
Hypothesis Hcase : NoDup (ascii_upper <$> names).
Hypothesis Hvoid : Forall (fun name => is_void name = false) names.
Hypothesis Hnames : names <> [].
Hypothesis Hrows : rows <> [].

Lemma rows_placed : Forall placed (row_cells names <$> rows).
Proof.
  apply Forall_fmap, Forall_true. intros row. unfold compose, placed, row_cells. apply Forall_lookup.
  intros i [cell name] Hi. rewrite list_lookup_imap in Hi. destruct (names !! i) as [n|] eqn:E; [|done].
  injection Hi as <- <-. rewrite Forall_lookup in Hgood, Hvoid. split; [by eapply Hgood|]. intros _. by eapply Hvoid.
Qed.

Lemma columns_noted : foldl note_columns [] (row_node <$> (row_cells names <$> rows)) = names.
Proof.
  assert (NoDup names) as Hnd by by eapply NoDup_fmap_1.
  destruct rows as [|row rest]; [done|]. cbn [fmap list_fmap foldl]. unfold note_columns at 2. rewrite elements_row.
  rewrite note_new by by rewrite row_cells_names. cbn [app]. rewrite row_cells_names.
  induction rest as [|next rest IH]; [done|]. cbn [fmap list_fmap foldl]. unfold note_columns at 2.
  rewrite elements_row, note_old; [by apply IH|]. intros name. by rewrite row_cells_names.
Qed.

Lemma parse_xml_document :
  parse_xml (xml_prolog ++ concat (xml_row names <$> rows) ++ u "</results>" ++ [LF])
  = inl (mkTable names ((fun row => imap (fun index _ => xml_back (grid_cell row index)) names) <$> rows) true).
Proof.
  rewrite <- document_text. unfold parse_xml. destruct (parse_document (row_cells names <$> rows)) as [-> Hdoc]; [apply rows_placed|].
  cbn [List.find]. unfold named at 1. rewrite Hdoc. cbn [str_is_empty negb].
  change (negb (str_is_empty (u "results"))) with true. cbn iota.
  unfold document_node. rewrite elements_rows, elements_push_text. change (elements (mkNode _ _ _ [])) with (@nil MarkupNode).
  cbn [app]. rewrite forallb_filter_id.
  2: { apply forallb_forall. intros n Hn. apply list_elem_of_In, list_elem_of_fmap in Hn as (row & -> & _).
       unfold named. by rewrite node_name_row. }
  rewrite bool_decide_false by (rewrite !length_fmap; by destruct rows). rewrite columns_noted.
  rewrite bool_decide_false by done. unfold of_named_columns. f_equal. f_equal.
  rewrite <- !list_fmap_compose. apply list_fmap_ext. intros _ row _. unfold compose.
  apply list_eq. intros i. rewrite list_lookup_imap, list_lookup_fmap. destruct (names !! i) as [name|] eqn:Hi; [|done].
  cbn [fmap option_fmap option_map]. f_equal. unfold xml_import_cell, children_named. rewrite elements_row.
  rewrite (cell_lookup _ i (grid_cell row i)); [apply read_cell_node|by rewrite row_cells_names|].
  unfold row_cells. by rewrite list_lookup_imap, Hi.
Qed.
End Document.

(** * HTML files read back

    The document [render_html] writes as a sequence of pieces, the tree it is
    read into, and the rows of its table. *)

(** ** Walks over the tree *)

Lemma find_html_table_unfold n :
  find_html_table n = if is_tag n (u "table") then Some n else find_html_table_in (elements n).
Proof.
  destruct n as [name attributes closing content]. cbn [find_html_table]. destruct (is_tag _ _); [done|].
  unfold find_html_table_in, elements, elements_of. cbn [ImportMarkup.content].
  induction content as [|[text|child] content IH]; [done|exact IH|]. cbn [omap list_omap].
  destruct (find_html_table child); [done|exact IH].
Qed.

Definition collect_element (s : Carry * list (bool * list ImportCell)) (child : MarkupNode) : Carry * list (bool * list ImportCell) :=
  if is_tag child (u "tr") then
    let '(row, carry) := html_row_of child (fst s) in
    (carry, match row with Some row => vec_push row (snd s) | None => snd s end)
  else if is_tag child (u "table") then s
  else collect_html_rows child s.

Lemma collect_unfold n s : collect_html_rows n s = foldl collect_element s (elements n).
Proof.
  destruct n as [name attributes closing content]. unfold elements, elements_of. cbn [collect_html_rows ImportMarkup.content].
  revert s. induction content as [|[text|child] content IH]; intros s; [done|exact (IH s)|].
  cbn [omap list_omap foldl]. exact (IH (collect_element s child)).
Qed.

(** ** Rows *)

Definition nothing_owed (carry : Carry) : Prop := Forall (fun slot => slot = None) carry.

Lemma carried_none fuel s : nothing_owed (carry s) -> carried_run fuel s = s.
Proof.
  intros H. destruct fuel; [done|]. cbn [carried_run]. unfold take_carried.
  destruct (carry s !! column s) as [[|]|] eqn:E; [|done|done].
  unfold nothing_owed in H. rewrite Forall_lookup in H. by apply H in E.
Qed.

(** A cell of the exporter fills its own column. *)
Definition simple_cell (cell : MarkupNode) : Prop := node_attributes cell = [].

Lemma fill_simple cell s : simple_cell cell -> nothing_owed (carry s) ->
  nothing_owed (carry (fill_cell cell s)) /\ out (fill_cell cell s) = out s ++ [html_import_cell cell].
Proof.
  intros Hc Hs. unfold fill_cell, span_attribute. rewrite Hc.
  change (Z.min MAX_COLSPAN _) with 1%Z. change (Z.min MAX_ROWSPAN _) with 1%Z. cbn. split; [|done].
  unfold nothing_owed in *. apply Forall_insert; [|done]. unfold resize_to. apply Forall_app_2; [done|].
  by apply Forall_replicate.
Qed.

Lemma row_loop_simple cells s : Forall simple_cell cells -> nothing_owed (carry s) ->
  nothing_owed (carry (row_loop cells s)) /\ out (row_loop cells s) = out s ++ (html_import_cell <$> cells).
Proof.
  intros Hc. revert s. induction Hc as [|cell cells Hcell _ IH]; intros s Hs.
  - cbn [row_loop fmap list_fmap]. by rewrite app_nil_r, (carried_none _ s Hs), (carried_none _ s Hs).
  - cbn [row_loop fmap list_fmap]. rewrite (carried_none _ s Hs).
    destruct (fill_simple cell s Hcell Hs) as [Hf Ho]. destruct (IH _ Hf) as [Hout Hrest].
    split; [exact Hout|]. rewrite Hrest, Ho, <- app_assoc. done.
Qed.

(** ** Marks: the cells of a row *)

Definition mark_node (name value : str) : MarkupNode := push_text (markup_text value) (mkNode name [] false []).

Definition record_node (name : str) (values : list str) : MarkupNode :=
  foldl (fun tr value => push_element (mark_node name value) tr) (mkNode (u "tr") [] false []) values.

Definition cell_name (name : str) : Prop := name = u "td" \/ name = u "th".

Lemma elements_marks name values tr :
  elements (foldl (fun tr value => push_element (mark_node name value) tr) tr values) = elements tr ++ (mark_node name <$> values).
Proof.
  revert tr. induction values as [|value values IH]; intros tr; cbn [foldl fmap list_fmap]; [by rewrite app_nil_r|].
  rewrite IH, elements_push_element, <- app_assoc. done.
Qed.

Lemma node_name_marks name values tr :
  node_name (foldl (fun tr value => push_element (mark_node name value) tr) tr values) = node_name tr.
Proof. revert tr. induction values as [|value values IH]; intros tr; [done|]. cbn [foldl]. by rewrite IH, node_name_push_element. Qed.

Lemma node_name_mark name value : node_name (mark_node name value) = name.
Proof. unfold mark_node. by rewrite node_name_push_text. Qed.

Lemma mark_simple name value : simple_cell (mark_node name value).
Proof. unfold simple_cell, mark_node, push_text. by destruct (str_is_empty _). Qed.

(** What is read of an exported value. *)
Definition html_back (value : str) : ImportCell := if str_is_empty value then None else Some (markup_text value).

Lemma import_mark name value : html_import_cell (mark_node name value) = html_back value.
Proof. unfold html_import_cell, html_back, mark_node. rewrite all_text_pushed. by destruct value. Qed.

Lemma is_mark name other value : is_tag (mark_node name value) other = eq_ignore_ascii_case name other.
Proof. unfold is_tag. by rewrite node_name_mark. Qed.

Lemma record_row name values carry : cell_name name -> values <> [] -> nothing_owed carry ->
  exists carry', nothing_owed carry'
  /\ html_row_of (record_node name values) carry = (Some (eq_ignore_ascii_case name (u "th"), html_back <$> values), carry').
Proof.
  intros Hn Hv Hc. unfold html_row_of, record_node. rewrite elements_marks. change (elements (mkNode _ _ _ [])) with (@nil MarkupNode).
  cbn [app]. rewrite forallb_filter_id.
  2: { apply forallb_forall. intros n Hin. apply list_elem_of_In, list_elem_of_fmap in Hin as (v & -> & _).
       rewrite !is_mark. by destruct Hn as [->| ->]. }
  set (s := mkRow carry 0 []). assert (Forall simple_cell (mark_node name <$> values)) as Hsimple.
  { apply Forall_fmap, Forall_true. intros v. apply mark_simple. }
  destruct (row_loop_simple _ s Hsimple Hc) as [Ho ->]. eexists. split; [exact Ho|]. f_equal.
  rewrite bool_decide_false by (rewrite length_fmap; by destruct values). cbn [negb orb]. f_equal. f_equal.
  - destruct values as [|v values]; [done|]. clear. cbn [fmap list_fmap existsb]. rewrite is_mark.
    destruct (eq_ignore_ascii_case name (u "th")) eqn:E; [done|]. cbn [orb].
    induction values as [|v' values IH]; [done|]. cbn [fmap list_fmap existsb]. by rewrite is_mark, E.
  - cbn [out app]. rewrite <- list_fmap_compose. apply list_fmap_ext. intros _ v _. apply import_mark.
Qed.

(** ** Siblings *)

(** Which open element an opening tag closes is told by the names alone. *)
Definition sibling_depth (name : str) (names : list str) : option nat :=
  match List.find (fun '(tag, _) => eq_ignore_ascii_case name tag) IMPLICITLY_CLOSED with
  | None => None
  | Some (_, closes) =>
      let scope := take (default (length names) (fst <$> list_find (fun n => eq_ignore_ascii_case n (u "table")) names)) names in
      fst <$> list_find (fun n => existsb (eq_ignore_ascii_case n) closes) scope
  end.

Lemma nearest_names (q : str -> bool) (p : MarkupNode -> bool) nodes : (forall n, p n = q (node_name n)) ->
  nearest p nodes = fst <$> list_find q (node_name <$> nodes).
Proof.
  intros Hp. unfold nearest. induction nodes as [|n nodes IH]; [done|]. cbn [fmap list_fmap list_find].
  rewrite (Hp n). destruct (decide (q (node_name n))); [done|]. revert IH.
  destruct (list_find p nodes) as [[i x]|], (list_find q (node_name <$> nodes)) as [[j y]|]; cbn; intros [=]; by subst.
Qed.

Lemma close_siblings_names name s :
  close_siblings name s = match sibling_depth name (node_name <$> stack s) with Some below => close (S below) s | None => s end.
Proof.
  unfold close_siblings, sibling_depth. destruct (List.find _ _) as [[tag closes]|]; [|done].
  rewrite (nearest_names (fun n => eq_ignore_ascii_case n (u "table")) _ (stack s)) by done.
  rewrite (nearest_names (fun n => existsb (eq_ignore_ascii_case n) closes)) by done.
  by rewrite length_fmap, fmap_take.
Qed.

(** ** The effect of a row *)

Definition in_table (below : list MarkupNode) : Prop :=
  node_name <$> below = [u "thead"; u "table"; u "body"; u "html"]
  \/ node_name <$> below = [u "tbody"; u "table"; u "body"; u "html"].

Definition mark_pieces (name value : str) : list Piece := [Piece_Tag name; Piece_Value value true; Piece_Tag (u "/" ++ name)].

Lemma mark_effect name value tr below rs :
  cell_name name -> node_name tr = u "tr" -> in_table below ->
  pieces_effect (mark_pieces name value) (mkForest (tr :: below) rs) = mkForest (push_element (mark_node name value) tr :: below) rs.
Proof.
  intros Hn Htr Hb. assert (good_name name = true) as Hg by by destruct Hn as [->| ->].
  unfold pieces_effect, mark_pieces. cbn [foldl piece_effect].
  rewrite (read_open name Hg) by by destruct Hn as [->| ->].
  unfold opens. rewrite close_siblings_names. cbn [stack fmap list_fmap].
  assert (sibling_depth name (node_name tr :: (node_name <$> below)) = None) as Hd.
  { rewrite Htr. by destruct Hn as [->| ->], Hb as [->| ->]. }
  change (list_fmap _ _ node_name below) with (node_name <$> below) || idtac.
  rewrite Hd. cbn [on_top stack roots]. unfold on_top. cbn [stack roots].
  rewrite read_close by done. by rewrite close_innermost by apply node_name_mark.
Qed.

Lemma marks_effect name values tr below rs :
  cell_name name -> node_name tr = u "tr" -> in_table below ->
  pieces_effect (concat (mark_pieces name <$> values)) (mkForest (tr :: below) rs)
  = mkForest (foldl (fun tr value => push_element (mark_node name value) tr) tr values :: below) rs.
Proof.
  intros Hn Htr Hb. revert tr Htr. induction values as [|value values IH]; intros tr Htr; [done|].
  cbn [fmap list_fmap concat foldl]. rewrite pieces_effect_app, mark_effect by done.
  apply IH. by rewrite node_name_push_element.
Qed.

Definition record_pieces (values : list str) : list Piece :=
  [Piece_Tag (u "tr")] ++ concat (mark_pieces (u "td") <$> values) ++ [Piece_Tag (u "/" ++ u "tr"); Piece_Plain [LF]].

Definition record_step (tbody : MarkupNode) (values : list str) : MarkupNode :=
  push_text [LF] (push_element (record_node (u "td") values) tbody).

Lemma record_effect values tbody below rs :
  node_name tbody = u "tbody" -> node_name <$> below = [u "table"; u "body"; u "html"] ->
  pieces_effect (record_pieces values) (mkForest (tbody :: below) rs) = mkForest (record_step tbody values :: below) rs.
Proof.
  intros Ht Hb. unfold record_pieces. rewrite !pieces_effect_app.
  assert (pieces_effect [Piece_Tag (u "tr")] (mkForest (tbody :: below) rs)
          = mkForest (mkNode (u "tr") [] false [] :: tbody :: below) rs) as ->.
  { unfold pieces_effect. cbn [foldl piece_effect]. rewrite (read_open (u "tr")) by done.
    unfold opens. rewrite close_siblings_names. cbn [stack]. rewrite fmap_cons, Ht, Hb. done. }
  rewrite marks_effect; [|by left|done|right; by rewrite fmap_cons, Ht, Hb].
  unfold pieces_effect. cbn [foldl piece_effect]. rewrite read_close by done.
  rewrite close_innermost by by rewrite node_name_marks. done.
Qed.

Lemma node_name_records rows tbody : node_name (foldl record_step tbody rows) = node_name tbody.
Proof.
  revert tbody. induction rows as [|row rows IH]; intros tbody; [done|]. cbn [foldl]. rewrite IH.
  unfold record_step. by rewrite node_name_push_text, node_name_push_element.
Qed.

Lemma elements_records rows tbody :
  elements (foldl record_step tbody rows) = elements tbody ++ (record_node (u "td") <$> rows).
Proof.
  revert tbody. induction rows as [|row rows IH]; intros tbody; cbn [foldl fmap list_fmap]; [by rewrite app_nil_r|].
  rewrite IH. unfold record_step. by rewrite elements_push_text, elements_push_element, <- app_assoc.
Qed.

Lemma records_effect rows tbody below rs :
  node_name tbody = u "tbody" -> node_name <$> below = [u "table"; u "body"; u "html"] ->
  pieces_effect (concat (record_pieces <$> rows)) (mkForest (tbody :: below) rs) = mkForest (foldl record_step tbody rows :: below) rs.
Proof.
  intros Ht Hb. revert tbody Ht. induction rows as [|row rows IH]; intros tbody Ht; [done|].
  cbn [fmap list_fmap concat foldl]. rewrite pieces_effect_app, record_effect by done. apply IH.
  unfold record_step. by rewrite node_name_push_text, node_name_push_element.
Qed.

(** ** The document *)

Definition html_start : list Piece :=
  [Piece_Other (u "<!DOCTYPE html>"); Piece_Plain [LF]; Piece_Tag (u "html"); Piece_Plain [LF]; Piece_Tag (u "head");
   Piece_Plain [LF]; Piece_Tag (u "meta charset=" ++ [QUOTE] ++ u "utf-8" ++ [QUOTE]); Piece_Plain [LF];
   Piece_Tag (u "title"); Piece_Plain (u "Query Result"); Piece_Tag (u "/title"); Piece_Plain [LF]; Piece_Tag (u "style");
   Piece_Plain ([LF]
     ++ u "table { border-collapse: collapse; font-family: sans-serif; font-size: 13px; }" ++ [LF]
     ++ u "th, td { border: 1px solid #999; padding: 4px 8px; text-align: left; }" ++ [LF]
     ++ u "th { background: #eee; }" ++ [LF]);
   Piece_Tag (u "/style"); Piece_Plain [LF]; Piece_Tag (u "/head"); Piece_Plain [LF]; Piece_Tag (u "body");
   Piece_Plain [LF]; Piece_Tag (u "table"); Piece_Plain [LF]; Piece_Tag (u "thead"); Piece_Plain [LF]; Piece_Tag (u "tr")].

Definition html_middle : list Piece :=
  [Piece_Tag (u "/tr"); Piece_Plain [LF]; Piece_Tag (u "/thead"); Piece_Plain [LF]; Piece_Tag (u "tbody"); Piece_Plain [LF]].

Definition html_end : list Piece :=
  [Piece_Tag (u "/tbody"); Piece_Plain [LF]; Piece_Tag (u "/table"); Piece_Plain [LF]; Piece_Tag (u "/body");
   Piece_Plain [LF]; Piece_Tag (u "/html"); Piece_Plain [LF]].

Definition html_pieces (names : list str) (rows : list (list str)) : list Piece :=
  html_start ++ concat (mark_pieces (u "th") <$> names) ++ html_middle ++ concat (record_pieces <$> rows) ++ html_end.

Lemma pieces_concat (l : list (list Piece)) : pieces_text (concat l) = concat (pieces_text <$> l).
Proof. induction l as [|ps l IH]; [done|]. cbn [concat fmap list_fmap]. by rewrite pieces_text_app, IH. Qed.

Lemma pieces_ok_concat (l : list (list Piece)) : Forall (fun ps => forallb piece_ok ps = true) l -> forallb piece_ok (concat l) = true.
Proof. induction 1 as [|ps l H _ IH]; [done|]. cbn [concat]. by rewrite forallb_app, H, IH. Qed.

(** The values of a row; NULL is written as nothing. *)
Definition html_values (g : ExportGrid) (row : list ExportCell) : list str :=
  (fun index => default [] (grid_cell row index)) <$> seq 0 (length (columns g)).

Lemma html_text g : pieces_text (html_pieces (columns g) (html_values g <$> rows g)) = render_html g.
Proof.
  unfold html_pieces, render_html. rewrite !pieces_text_app, !pieces_concat.
  change (pieces_text html_start) with html_prolog. apply (f_equal2 app); [reflexivity|].
  rewrite <- !list_fmap_compose. apply (f_equal2 app).
  - reflexivity.
  - change (pieces_text html_middle) with (u "</tr>" ++ [LF] ++ u "</thead>" ++ [LF] ++ u "<tbody>" ++ [LF]).
    rewrite <- !app_assoc. repeat (apply (f_equal2 app); [reflexivity|]).
    apply (f_equal2 app); [|reflexivity]. f_equal. apply list_fmap_ext. intros _ row _. unfold compose, record_pieces, html_row.
    rewrite !pieces_text_app, pieces_concat. f_equal. f_equal. unfold html_values. rewrite <- !list_fmap_compose. f_equal.
    apply list_fmap_ext. intros _ i _. unfold compose, pieces_text, mark_pieces, html_cell.
    cbn [fmap list_fmap piece_text concat]. rewrite app_nil_r, <- !app_assoc. by destruct (grid_cell row i).
Qed.

Lemma marks_ok name values : cell_name name -> forallb piece_ok (concat (mark_pieces name <$> values)) = true.
Proof. intros H. apply pieces_ok_concat, Forall_fmap, Forall_true. intros v. by destruct H as [->| ->]. Qed.

Lemma html_pieces_ok names rows : forallb piece_ok (html_pieces names rows) = true.
Proof.
  unfold html_pieces. rewrite !forallb_app, marks_ok by by right. rewrite pieces_ok_concat; [by vm_compute|].
  apply Forall_fmap, Forall_true. intros row. unfold compose, record_pieces. rewrite !forallb_app, marks_ok by by left. done.
Qed.

(** The elements that are open behind the start of the document. *)
Lemma start_effect : exists thead table body html head,
  pieces_effect html_start (mkForest [] []) = mkForest [mkNode (u "tr") [] false []; thead; table; body; html] []
  /\ (node_name <$> [thead; table; body; html]) = [u "thead"; u "table"; u "body"; u "html"]
  /\ elements <$> [thead; table; body; html] = [[]; []; []; [head]] /\ find_html_table head = None.
Proof. do 5 eexists. split; [vm_compute; reflexivity|]. split; [reflexivity|]. split; reflexivity. Qed.

(** The table that is found. *)
Lemma html_tree names rows : exists table thead tbody,
  find_html_table_in (parse_markup (pieces_text (html_pieces names rows))) = Some table
  /\ elements table = [thead; tbody] /\ is_tag thead (u "tr") = false /\ is_tag thead (u "table") = false
  /\ is_tag tbody (u "tr") = false /\ is_tag tbody (u "table") = false
  /\ elements thead = [record_node (u "th") names] /\ elements tbody = record_node (u "td") <$> rows.
Proof.
  rewrite parse_pieces by apply html_pieces_ok. unfold html_pieces. rewrite !pieces_effect_app.
  destruct start_effect as (thead & table & body & html & head & -> & Hn & He & Hhead).
  injection Hn as Hthead Htable Hbody Hhtml. injection He as Ethead Etable Ebody Ehtml.
  rewrite marks_effect; [|by right|done|left; by rewrite !fmap_cons, Hthead, Htable, Hbody, Hhtml].
  set (thead' := push_text [LF] (push_element (record_node (u "th") names) thead)).
  set (table' := push_text [LF] (push_element thead' table)).
  assert (node_name table' = u "table") as Htable' by (unfold table'; by rewrite node_name_push_text, node_name_push_element).
  assert (pieces_effect html_middle (mkForest (foldl (fun tr value => push_element (mark_node (u "th") value) tr)
            (mkNode (u "tr") [] false []) names :: [thead; table; body; html]) [])
          = mkForest (push_text [LF] (mkNode (u "tbody") [] false []) :: [table'; body; html]) []) as ->.
  { unfold pieces_effect, html_middle. cbn [foldl piece_effect]. change (u "/tr") with (u "/" ++ u "tr").
    rewrite read_close, close_innermost by (done || by rewrite node_name_marks).
    change (u "/thead") with (u "/" ++ u "thead"). unfold on_top at 3. cbn [finish stack roots].
    rewrite read_close, close_innermost by (done || by rewrite node_name_push_text, node_name_push_element).
    unfold on_top at 2. cbn [finish stack roots]. by rewrite (read_open (u "tbody")). }
  rewrite records_effect; [|done|].
  2: { by rewrite !fmap_cons, Hbody, Hhtml, Htable'. }
  set (tbody := foldl record_step _ rows).
  assert (node_name tbody = u "tbody") as Htbody by (unfold tbody; by rewrite node_name_records).
  set (table'' := push_text [LF] (push_element tbody table')).
  set (body' := push_text [LF] (push_element table'' body)).
  set (html' := push_text [LF] (push_element body' html)).
  assert (pieces_effect html_end (mkForest (tbody :: [table'; body; html]) []) = mkForest [] [html']) as ->.
  { unfold pieces_effect, html_end. cbn [foldl piece_effect].
    change (u "/tbody") with (u "/" ++ u "tbody"). rewrite read_close, close_innermost by done.
    change (u "/table") with (u "/" ++ u "table"). unfold on_top at 4. cbn [finish stack roots].
    rewrite read_close, close_innermost by (done || by rewrite node_name_push_text, node_name_push_element).
    change (u "/body") with (u "/" ++ u "body"). unfold on_top at 3. cbn [finish stack roots].
    rewrite read_close, close_innermost by (done || by rewrite node_name_push_text, node_name_push_element).
    change (u "/html") with (u "/" ++ u "html"). unfold on_top at 2. cbn [finish stack roots].
    by rewrite read_close, close_innermost by (done || by rewrite node_name_push_text, node_name_push_element). }
  assert (node_name table'' = u "table") as Htable'' by (unfold table''; by rewrite node_name_push_text, node_name_push_element).
  assert (node_name body' = u "body") as Hbody' by (unfold body'; by rewrite node_name_push_text, node_name_push_element).
  assert (node_name html' = u "html") as Hhtml' by (unfold html'; by rewrite node_name_push_text, node_name_push_element).
  assert (node_name thead' = u "thead") as Hthead' by (unfold thead'; by rewrite node_name_push_text, node_name_push_element).
  exists table'', thead', tbody. cbn [stack length close roots]. unfold is_tag. rewrite Hthead', Htbody.
  assert (forall n els child, node_name n = u "body" \/ node_name n = u "html" -> elements n = els ++ [child] ->
            find_html_table_in els = None -> find_html_table n = find_html_table child) as Hdown.
  { intros n els child Hn He Hels. rewrite find_html_table_unfold, He. unfold is_tag.
    assert (eq_ignore_ascii_case (node_name n) (u "table") = false) as -> by by destruct Hn as [->| ->].
    unfold find_html_table_in in *. rewrite omap_app. cbn [omap list_omap].
    destruct (omap find_html_table els); [|done]. cbn [app]. by destruct (find_html_table child). }
  split_and!; try done.
  - unfold find_html_table_in. cbn [omap list_omap].
    rewrite (Hdown html' [head] body'); [|by right| |unfold find_html_table_in; cbn; by rewrite Hhead].
    2: { unfold html'. by rewrite elements_push_text, elements_push_element, Ehtml. }
    rewrite (Hdown body' [] table''); [|by left| |done].
    2: { unfold body'. by rewrite elements_push_text, elements_push_element, Ebody. }
    rewrite find_html_table_unfold. unfold is_tag. by rewrite Htable''.
  - unfold table'', table'. by rewrite !elements_push_text, !elements_push_element, elements_push_text, elements_push_element, Etable.
  - unfold thead'. by rewrite elements_push_text, elements_push_element, Ethead.
  - unfold tbody. by rewrite elements_records.
Qed.

(** ** The table *)

Definition read_row (name : str) (values : list str) : bool * list ImportCell :=
  (eq_ignore_ascii_case name (u "th"), html_back <$> values).

Lemma collect_records name (rows : list (list str)) s :
  cell_name name -> Forall (fun row => row <> []) rows -> nothing_owed (fst s) ->
  exists carry, nothing_owed carry
  /\ foldl collect_element s (record_node name <$> rows) = (carry, snd s ++ (read_row name <$> rows)).
Proof.
  intros Hn Hrows. revert s. induction Hrows as [|row rows Hrow _ IH]; intros [carry out] Hc; cbn [fst snd] in *.
  - exists carry. by rewrite app_nil_r.
  - destruct (record_row name row carry Hn Hrow Hc) as (carry' & Hc' & E). cbn [fmap list_fmap foldl].
    unfold collect_element at 2. unfold is_tag, record_node at 1. rewrite node_name_marks.
    change (eq_ignore_ascii_case (node_name _) (u "tr")) with true. cbn iota. cbn [fst snd]. rewrite E.
    destruct (IH (carry', vec_push (read_row name row) out) Hc') as (last & Hlast & Hfold).
    exists last. split; [done|]. unfold read_row at 1 in Hfold. rewrite Hfold. cbn [snd]. unfold vec_push.
    by rewrite <- app_assoc.
Qed.

Lemma parse_html_document g has_header : columns g <> [] ->
  parse_html (render_html g) has_header
  = inl (of_records (html_back <$> columns g) ((fun row => html_back <$> html_values g row) <$> rows g) true).
Proof.
  intros Hne. rewrite <- html_text. unfold parse_html.
  destruct (html_tree (columns g) (html_values g <$> rows g)) as (table & thead & tbody & -> & Et & H1 & H2 & H3 & H4 & Eh & Eb).
  rewrite collect_unfold, Et. cbn [foldl]. unfold collect_element. rewrite H1, H2, H3, H4, !collect_unfold, Eh, Eb.
  destruct (collect_records (u "th") [columns g] ([], [])) as (carry & Hc & E);
    [by right|by repeat constructor|constructor|].
  change [record_node (u "th") (columns g)] with (record_node (u "th") <$> [columns g]). rewrite E.
  destruct (collect_records (u "td") (html_values g <$> rows g) (carry, [read_row (u "th") (columns g)])) as (carry' & _ & E');
    [by left| |done|].
  { apply Forall_fmap, Forall_true. intros row. unfold compose, html_values. by destruct (columns g). }
  cbn [snd app fmap list_fmap]. change (list_fmap _ _ (html_values g) (rows g)) with (html_values g <$> rows g).
  rewrite E'. cbn [snd app]. unfold read_row at 1. change (eq_ignore_ascii_case (u "th") (u "th")) with true. cbn [orb].
  f_equal. f_equal. rewrite <- !list_fmap_compose. done.
Qed.
