(* ===== verification/ImportSpec.v ===== *)
(** * What comes back of an exported grid

    The theorems on [ResultExport] and [ResultImport] together: a grid written in
    a format and read again. *)
From S2P Require Import Prelude RustStr Utf8 RustParse ResultExport ImportDelimited ImportMarkup ResultImport MarkdownLaws MarkupLaws XmlHtmlLaws.

(** The rows of a grid as wide as its columns, their cells seen through [back]. *)
Definition rows_back {A} (back : ExportCell -> A) (g : ExportGrid) (row : list ExportCell) : list A :=
  (fun index => back (grid_cell row index)) <$> seq 0 (length (columns g)).

Lemma length_rows_back {A} (back : ExportCell -> A) g row : length (rows_back back g row) = length (columns g).
Proof. unfold rows_back. by rewrite length_fmap, length_seq. Qed.

(** ** The last check *)

Lemma pad_rows_full width rows : Forall (fun row => length row = width) rows -> pad_rows width rows = inl rows.
Proof.
  induction 1 as [|row rows Hrow _ IH]; [done|].
  cbn [pad_rows]. rewrite Hrow, IH, Nat.ltb_irrefl. unfold pad. by rewrite Hrow, Nat.sub_diag, app_nil_r.
Qed.

Lemma validate_full t :
  table_columns t <> [] -> Forall (fun c => trim c <> []) (table_columns t) ->
  Forall (fun row => length row = length (table_columns t)) (table_rows t) -> validate t = inl t.
Proof.
  intros Hne Hnames Hrows. unfold validate. rewrite bool_decide_false by done.
  replace (existsb _ _) with false; [rewrite pad_rows_full by done; by destruct t|].
  symmetry. apply not_true_iff_false. rewrite existsb_exists. intros (c & Hc & E).
  rewrite Forall_forall in Hnames. apply list_elem_of_In in Hc. specialize (Hnames c Hc). by destruct (trim c).
Qed.

(** ** CSV and TSV *)

Definition separator_of (f : ExportFormat) : char := match f with Csv => ","%ch | _ => 9%N end.

Lemma separator_of_plain f : separator_of f <> QUOTE /\ separator_of f <> LF /\ separator_of f <> CR.
Proof. by destruct f. Qed.

Lemma filter_fmap_rows {A B} (p : B -> bool) (f : A -> B) (l : list A) :
  List.filter p (f <$> l) = f <$> List.filter (fun x => p (f x)) l.
Proof. induction l as [|x l IH]; [done|]. cbn. change (List.map f l) with (f <$> l).
  rewrite IH. by destruct (p (f x)). Qed.

Section ImportResult.
Context {Tables : UnicodeTables}.
Variables (parse_json parse_sql_inserts : str -> ImportedTable + str).

Abbreviation parse := (parse parse_json parse_sql_inserts).

Lemma parse_rendered_separated f windows (g : ExportGrid) options :
  f = Csv \/ f = Tsv -> columns g <> [] -> columns g <> [[]] ->
  has_header options = true -> import_null_text options = null_text g ->
  parse_separated (render_separated windows g (separator_of f)) (separator_of f) options
  = inl (mkTable (columns g)
           (rows_back (delimited_back (separator_of f) g) g <$> List.filter (fun row => negb (lost_row g row)) (rows g))
           true).
Proof.
  intros Hf Hne Hblank Hheader Hnull. pose proof (separator_of_plain f) as Hs. set (sep := separator_of f) in *.
  unfold parse_separated, split_delimited_records, read_start. rewrite render_lines. rewrite read_lines by done. cbn [app].
  unfold take_record. cbn [record_started records fmap list_fmap List.filter]. fold (@fmap list _).
  replace (blank_line _) with false.
  2: { destruct (columns g) as [|c [|c' l]]; [done| |done]. destruct c; [done|].
       cbn -[delimited_field_needs_quotes]. unfold shows. cbn -[orb delimited_field_needs_quotes]. by rewrite orb_true_r. }
  cbn [negb]. rewrite Hheader. unfold of_records. f_equal. f_equal.
  - unfold row_fields. rewrite <- !list_fmap_compose. rewrite <- (list_fmap_id (columns g)) at 2. by apply list_fmap_ext.
  - rewrite !filter_fmap_rows, <- !list_fmap_compose.
    rewrite (List.filter_ext _ (fun row => negb (lost_row g row))) by (intros row; cbn; by rewrite blank_shown_row).
    apply list_fmap_ext. intros _ row _. cbn. unfold row_fields, shown_row, rows_back.
    rewrite <- !list_fmap_compose. apply list_fmap_ext. intros _ index _. cbn.
    by apply shown_cell.
Qed.

Lemma file_text f text : strip_byte_order_mark (with_destination_prelude f Destination_File text)
  = match f with Csv | Tsv => text | _ => strip_byte_order_mark text end.
Proof. destruct f; try done; unfold strip_byte_order_mark, strip_prefix; cbn; by rewrite starts_with_nil. Qed.

Lemma trimmed_names (names : list str) :
  names <> [] -> Forall (fun c => trim c <> []) names -> names <> [[]].
Proof. intros _ H ->. by inversion H. Qed.

(** C12. A grid whose columns have names comes back of a CSV or TSV file with its
    columns, its rows and every cell, except that a value that spells the NULL
    text is NULL when that text must be quoted itself, and that a row of one NULL
    that shows as nothing is a blank line. *)
Theorem delimited_round_trip f windows json_string g :
  f = Csv \/ f = Tsv -> columns g <> [] -> Forall (fun c => trim c <> []) (columns g) ->
  exists text, render windows json_string f g = Some text
  /\ parse (with_destination_prelude f Destination_File text) (mkOptions f true (null_text g))
     = inl (mkTable (columns g)
              (rows_back (delimited_back (separator_of f) g) g <$> List.filter (fun row => negb (lost_row g row)) (rows g))
              true).
Proof.
  intros Hf Hne Hnames. exists (render_separated windows g (separator_of f)). split; [by destruct Hf; subst|].
  unfold ResultImport.parse. rewrite file_text. set (o := mkOptions f true (null_text g)).
  assert (parse_table parse_json parse_sql_inserts (render_separated windows g (separator_of f)) o
          = parse_separated (render_separated windows g (separator_of f)) (separator_of f) o) as E by by destruct Hf; subst.
  assert (match f with Csv | Tsv => render_separated windows g (separator_of f)
          | _ => strip_byte_order_mark (render_separated windows g (separator_of f)) end
          = render_separated windows g (separator_of f)) as -> by by destruct Hf; subst.
  rewrite E, parse_rendered_separated by eauto using trimmed_names. apply validate_full; cbn; [done..|].
  apply Forall_fmap, Forall_true. intros row. apply length_rows_back.
Qed.

(** C34. A grid whose columns have names comes back of a Markdown file with its
    columns and its rows, each text trimmed and with every line break as one line
    feed, and NULL where that is nothing; whatever backslashes, bars and tags the
    texts hold. *)
Theorem markdown_round_trip windows json_string g options :
  columns g <> [] -> Forall (fun c => trim (fold_breaks c) <> []) (columns g) ->
  import_format options = Markdown ->
  exists text, render windows json_string Markdown g = Some text
  /\ parse (with_destination_prelude Markdown Destination_File text) options
     = inl (mkTable ((fun c => trim (fold_breaks c)) <$> columns g)
              (rows_back (fun cell => markdown_cell_back (default [] cell)) g <$> rows g) true).
Proof.
  intros Hne Hnames Hf. exists (render_markdown g). split; [done|]. unfold ResultImport.parse, parse_table.
  rewrite Hf. change (strip_byte_order_mark _) with (render_markdown g). rewrite render_markdown_table, parse_table_lines.
  - rewrite validate_full; cbn [table_columns table_rows].
    + f_equal. f_equal. rewrite <- list_fmap_compose. apply list_fmap_ext. intros _ row _.
      unfold compose, shown_texts, rows_back. by rewrite <- list_fmap_compose.
    + by destruct (columns g).
    + apply Forall_fmap. eapply Forall_impl; [exact Hnames|]. intros c. unfold compose. by rewrite trim_idemp.
    + rewrite <- list_fmap_compose. apply Forall_fmap, Forall_true. intros row. cbn.
      unfold compose, shown_texts. by rewrite !length_fmap, length_seq.
  - done.
  - destruct (columns g); cbn; [done|lia].
  - apply Forall_fmap, Forall_true. intros row. unfold compose, shown_texts. by destruct (columns g).
Qed.

Lemma good_name_trim name : good_name name = true -> trim name <> [].
Proof.
  intros H. rewrite trim_nil, ink_nil. pose proof (name_words name H) as Hw.
  pose proof (good_name_ne name H) as Hne. intros Hi. destruct Hw; [done|]. inversion Hi. congruence.
Qed.

(** C18. A grid with rows comes back of an XML file under the names its columns
    were given: every row with a value for every column, NULL where the cell is
    NULL or the row too short, and else the text of the cell, in which only the
    characters XML has no place for are replaced by U+FFFD ([markup_char]: control
    characters other than tab and line ends, U+FFFE and U+FFFF).  The names have to
    differ by more than case and none may be the name of an HTML element without
    content ([xml_columns_lost] is what happens otherwise).  A grid without rows
    does not come back: the file is refused, with this message. *)
Theorem xml_round_trip windows json_string g options names :
  tables_ok -> import_format options = Xml -> columns g <> [] ->
  unique_field_names (imap (fun index column => xml_element_name column index) (columns g)) = Some names ->
  NoDup (ascii_upper <$> names) -> Forall (fun name => is_void name = false) names ->
  exists text, render windows json_string Xml g = Some text
  /\ parse (with_destination_prelude Xml Destination_File text) options
     = match rows g with
       | [] => inr (u "The XML has no row elements.")
       | _ => inl (mkTable names (rows_back xml_back g <$> rows g) true)
       end.
Proof.
  intros Htables Hf Hne Hnames Hcase Hvoid.
  destruct (xml_names_good Htables _ _ Hnames) as (Hgood & _ & Hlen).
  assert (names <> []) as Hn by (intros ->; by destruct (columns g)).
  eexists. split; [cbn [render]; unfold render_xml; rewrite Hnames; done|].
  unfold ResultImport.parse, parse_table. rewrite Hf. change (strip_byte_order_mark ?x) with (drop 0 x). rewrite drop_0.
  cbn [with_destination_prelude file_byte_order_mark app].
  destruct (decide (rows g = [])) as [Er|Hrows].
  { rewrite Er. change (concat (_ <$> [])) with ([] : str). cbn [app]. by rewrite parse_empty_document. }
  rewrite parse_xml_document by done.
  replace (match rows g with [] => _ | _ :: _ => _ end)
    with (inl (mkTable names (rows_back xml_back g <$> rows g) true) : ImportedTable + str) by by destruct (rows g).
  assert ((fun row => imap (fun index _ => xml_back (grid_cell row index)) names) <$> rows g = rows_back xml_back g <$> rows g) as ->.
  { apply list_fmap_ext. intros _ row _. unfold rows_back. rewrite <- Hlen. apply list_eq. intros i.
    rewrite list_lookup_imap, list_lookup_fmap. destruct (decide (i < length names)) as [Hi|Hi].
    - rewrite lookup_seq_lt by done. by destruct (lookup_lt_is_Some_2 names i Hi) as [? ->].
    - rewrite lookup_seq_ge by lia. by rewrite lookup_ge_None_2 by lia. }
  apply validate_full; cbn [table_columns table_rows]; [done| |].
  - eapply Forall_impl; [exact Hgood|]. intros name. apply good_name_trim.
  - apply Forall_fmap, Forall_true. intros row. unfold compose. by rewrite length_rows_back.
Qed.

(** C29. A grid comes back of an HTML file with its columns, its rows and every cell, the
    characters a document has no place for replaced; NULL and the empty text are
    both an empty cell and come back as NULL. *)
Theorem html_round_trip windows json_string g options :
  columns g <> [] -> Forall (fun c => trim (markup_text c) <> []) (columns g) -> import_format options = Html ->
  exists text, render windows json_string Html g = Some text
  /\ parse (with_destination_prelude Html Destination_File text) options
     = inl (mkTable (markup_text <$> columns g) (rows_back (fun cell => html_back (default [] cell)) g <$> rows g) true).
Proof.
  intros Hne Hnames Hf. exists (render_html g). split; [done|]. unfold ResultImport.parse, parse_table.
  rewrite Hf. change (strip_byte_order_mark _) with (render_html g). rewrite parse_html_document by done.
  unfold of_records.
  assert (default [] <$> (html_back <$> columns g) = markup_text <$> columns g) as ->.
  { rewrite <- list_fmap_compose. apply list_fmap_ext. intros _ c _. unfold compose, html_back. by destruct c. }
  assert ((fun row => html_back <$> html_values g row) <$> rows g
          = rows_back (fun cell => html_back (default [] cell)) g <$> rows g) as ->.
  { apply list_fmap_ext. intros _ row _. unfold html_values, rows_back. by rewrite <- list_fmap_compose. }
  apply validate_full; cbn [table_columns table_rows].
  - by destruct (columns g).
  - by apply Forall_fmap.
  - apply Forall_fmap, Forall_true. intros row. unfold compose. by rewrite length_rows_back, length_fmap.
Qed.

Lemma pad_rows_width width rows out : pad_rows width rows = inl out -> Forall (fun row => length row = width) out.
Proof.
  revert out. induction rows as [|row rows IH]; intros out; cbn [pad_rows]; [intros [= <-]; constructor|].
  destruct (Nat.ltb_spec width (length row)); [done|]. destruct (pad_rows width rows) as [rest|]; [|done].
  intros [= <-]. constructor; [|by apply IH]. unfold pad. rewrite length_app, length_replicate. lia.
Qed.

(** Whatever a file holds and whichever reader takes it, a table that is accepted
    has columns, each with a name, and every row is exactly as wide as they are. *)
Theorem accepted_tables_are_rectangular text options t :
  parse text options = inl t ->
  table_columns t <> [] /\ Forall (fun c => trim c <> []) (table_columns t)
  /\ Forall (fun row => length row = length (table_columns t)) (table_rows t).
Proof.
  unfold ResultImport.parse. destruct (parse_table _ _ _ _) as [raw|]; [|done]. unfold validate.
  destruct (bool_decide_reflect (table_columns raw = [])) as [|Hne]; [done|].
  destruct (existsb _ _) eqn:Hnames; [done|]. destruct (pad_rows _ _) as [out|] eqn:E; [|done].
  intros [= <-]. cbn. split_and!; [done| |by eapply pad_rows_width]. apply Forall_forall. intros c Hc Ht.
  apply not_true_iff_false in Hnames. apply Hnames, existsb_exists. exists c. split; [by apply list_elem_of_In|].
  by rewrite Ht.
Qed.
End ImportResult.

(** ** Concrete grids *)

#[local] Instance ascii_only : UnicodeTables := { alphabetic_table _ := false; numeric_table _ := false }.

(** Cells with separators, quotes, line breaks, brackets and entities, an empty
    text, the NULL text, a NULL and a short row. *)
Definition sample_grid : ExportGrid :=
  mkExportGrid [u "ID"; u "SIZE | X"] []
    [[Some (u "a,b<c>&amp;"); Some ([QUOTE; LF] ++ u "\|")]; [Some (u "NULL"); Some []]; [None; None]; [Some (u " x ")]]
    (u "NULL").

Lemma delimited_round_trip_witness :
  exists text, render false (fun s => s) Csv sample_grid = Some text
  /\ parse no_reader no_reader (with_destination_prelude Csv Destination_File text) (mkOptions Csv true (u "NULL"))
     = inl (mkTable (columns sample_grid)
              [[Some (u "a,b<c>&amp;"); Some ([QUOTE; LF] ++ u "\|")]; [Some (u "NULL"); Some []]; [None; None]; [Some (u " x "); None]]
              true).
Proof.
  apply (delimited_round_trip no_reader no_reader Csv false (fun s => s) sample_grid); [by left|done|].
  repeat constructor; vm_compute; discriminate.
Defined.

Lemma markdown_round_trip_witness :
  exists text, render false (fun s => s) Markdown sample_grid = Some text
  /\ parse no_reader no_reader (with_destination_prelude Markdown Destination_File text) (mkOptions Markdown true (u "NULL"))
     = inl (mkTable (columns sample_grid)
              [[Some (u "a,b<c>&amp;"); Some ([QUOTE; LF] ++ u "\|")]; [Some (u "NULL"); None]; [None; None]; [Some (u "x"); None]]
              true).
Proof.
  apply (markdown_round_trip no_reader no_reader false (fun s => s) sample_grid (mkOptions Markdown true (u "NULL")));
    [done| |done]. repeat constructor; vm_compute; discriminate.
Defined.

Lemma html_round_trip_witness :
  exists text, render false (fun s => s) Html sample_grid = Some text
  /\ parse no_reader no_reader (with_destination_prelude Html Destination_File text) (mkOptions Html true (u "NULL"))
     = inl (mkTable (columns sample_grid)
              [[Some (u "a,b<c>&amp;"); Some ([QUOTE; LF] ++ u "\|")]; [Some (u "NULL"); None]; [None; None]; [Some (u " x "); None]]
              true).
Proof.
  apply (html_round_trip no_reader no_reader false (fun s => s) sample_grid (mkOptions Html true (u "NULL")));
    [done| |done]. repeat constructor; vm_compute; discriminate.
Defined.

Lemma xml_round_trip_witness :
  exists text, render false (fun s => s) Xml sample_grid = Some text
  /\ parse no_reader no_reader (with_destination_prelude Xml Destination_File text) (mkOptions Xml true (u "NULL"))
     = inl (mkTable [u "ID"; u "SIZE___X"]
              [[Some (u "a,b<c>&amp;"); Some ([QUOTE; LF] ++ u "\|")]; [Some (u "NULL"); Some []]; [None; None]; [Some (u " x "); None]]
              true).
Proof.
  apply (xml_round_trip no_reader no_reader false (fun s => s) sample_grid (mkOptions Xml true (u "NULL")) [u "ID"; u "SIZE___X"]);
    try done; [|by repeat constructor].
  change (ascii_upper <$> [u "ID"; u "SIZE___X"]) with [u "ID"; u "SIZE___X"]. apply NoDup_cons. split; [by intros [=]%list_elem_of_singleton|apply NoDup_singleton].
Defined.

(** A row that is too short is filled up with NULL. *)
Lemma accepted_tables_are_rectangular_witness :
  let t := mkTable [u "a"; u "b"] [[Some (u "1"); None]] true in
  table_columns t <> [] /\ Forall (fun c => trim c <> []) (table_columns t)
  /\ Forall (fun row => length row = length (table_columns t)) (table_rows t).
Proof.
  apply (accepted_tables_are_rectangular no_reader no_reader (u "a,b" ++ [LF] ++ u "1") (mkOptions Csv true [])).
  vm_compute. reflexivity.
Defined.
