(* ===== verification/ThinPool.v ===== *)
(** * The session pool

    The pool of [tns-thin] as a step relation whose steps are its critical
    sections, and its invariants: its size, its waiters and its progress. *)
From stdpp Require Import relations.
From S2P Require Import Prelude RustStr.

(** * The pool of Oracle thin sessions

    [crates/tns-thin/src/pool.rs].  The pool is shared by threads, so the model is
    a step relation: a step is what one thread does while it holds the mutex, or
    the end of something it does without it.  What the sessions answer (is it
    healthy, does a request begin, does the reset work) comes with the steps. *)

(** ** Options *)

(** Durations and instants in nanoseconds. *)
Record PoolOptions := mkPoolOptions { max_size : nat; acquire_timeout : Z }.

Definition PoolOptions_default : PoolOptions := mkPoolOptions 4 5000000000.

(** The last instant the platform's clock has is an argument. *)
Definition pool_acquire_deadline (last_instant now timeout : Z) : Z + str :=
  if (now + timeout <=? last_instant)%Z then inl (now + timeout)%Z
  else inr (u "Oracle thin pool acquire timeout exceeds the supported range").

(** ** What the mutex guards *)

(** A session is known by the number it was opened under. *)
Abbreviation Conn := nat.

Record PoolState := mkPoolState { idle : list Conn; open_count : nat; closed : bool }.
#[export] Instance PoolState_eta : Eta PoolState := fun p => mkPoolState (idle p) (open_count p) (closed p).

Definition pool_state_new : PoolState := mkPoolState [] 0 false.

Definition pop_back (l : list Conn) : option (Conn * list Conn) :=
  conn ← last l; Some (conn, removelast l).

(** [open_count.saturating_sub(n)]. *)
Definition forget (n : nat) (p : PoolState) : PoolState := p <| open_count ::= fun open => open - n |>.

(** What a thread does next when it gives the mutex back. *)
Inductive Next :=
  | Next_Refuse (error : str)
  | Next_Check (conn : Conn)
  | Next_Connect
  | Next_Wait.

Definition CLOSED : str := u "Oracle thin pool is closed".
Definition TIMED_OUT : str := u "timed out waiting for a pooled Oracle thin connection".

(** [acquire] from its [while let] on. *)
Definition scan_idle (max_size : nat) (now deadline : Z) (p : PoolState) : Next * PoolState :=
  match pop_back (idle p) with
  | Some (conn, rest) => (Next_Check conn, p <| idle := rest |>)
  | None =>
      if open_count p <? max_size then (Next_Connect, p <| open_count ::= S |>)
      else if (deadline <=? now)%Z then (Next_Refuse TIMED_OUT, p)
      else (Next_Wait, p)
  end.

(** The top of the loop. *)
Definition acquire_turn (max_size : nat) (now deadline : Z) (p : PoolState) : Next * PoolState :=
  if closed p then (Next_Refuse CLOSED, p) else scan_idle max_size now deadline p.

(** A session from [idle] that could not be used: the scan goes on. *)
Definition check_failed (max_size : nat) (now deadline : Z) (p : PoolState) : Next * PoolState :=
  scan_idle max_size now deadline (forget 1 p).

(** A session that is fit for reuse, unless the pool was closed. *)
Definition give_back (conn : Conn) (p : PoolState) : option PoolState :=
  if closed p then None else Some (p <| idle ::= vec_push conn |>).

Definition close_state (p : PoolState) : PoolState :=
  forget (length (idle p)) (p <| closed := true |> <| idle := [] |>).

(** ** The threads *)

(** One call of [acquire] and the session it gives, up to the end of its drop. *)
Inductive Client :=
  | Acquiring (deadline : Z)
  | Checking (deadline : Z) (conn : Conn)
  | Connecting
  | Asleep (deadline : Z)
  | Notified (deadline : Z)
  | Holding (conn : Conn)
  | GivingBack (conn : Conn)
  | Dropping
  | Done (error : option str).

(** The pool with everything that uses it; the next session gets [opened]. *)
Record Pool := mkPool { pool_max : nat; pool_state : PoolState; clients : list Client; opened : nat }.
#[export] Instance Pool_eta : Eta Pool := fun p => mkPool (pool_max p) (pool_state p) (clients p) (opened p).

(** [OracleThinSessionPool::new]: a pool has room for one session at least. *)
Definition pool_new (options : PoolOptions) : Pool := mkPool (Nat.max (max_size options) 1) pool_state_new [] 0.

(** [acquire] is called. *)
Definition arrive (last_instant now timeout : Z) : Client :=
  match pool_acquire_deadline last_instant now timeout with
  | inl deadline => Acquiring deadline
  | inr error => Done (Some error)
  end.

Definition after_turn (deadline : Z) (next : Next) : Client :=
  match next with
  | Next_Refuse error => Done (Some error)
  | Next_Check conn => Checking deadline conn
  | Next_Connect => Connecting
  | Next_Wait => Asleep deadline
  end.

(** The drop of a session: what [discard] set, what the session answers. *)
Definition let_go (discard_on_drop healthy reset : bool) (conn : Conn) : Client :=
  if negb discard_on_drop && healthy && reset then GivingBack conn else Dropping.

Definition is_asleep (c : Client) : bool := match c with Asleep _ => true | _ => false end.
Definition wake (c : Client) : Client := match c with Asleep deadline => Notified deadline | _ => c end.

(** [notify_one] wakes some sleeper, if there is one. *)
Inductive notify_one (cs : list Client) : list Client -> Prop :=
  | Notify_Someone j c : cs !! j = Some c -> is_asleep c = true -> notify_one cs (<[j := wake c]> cs)
  | Notify_Nobody : Forall (fun c => is_asleep c = false) cs -> notify_one cs cs.

Definition notify_all (cs : list Client) : list Client := wake <$> cs.

(** The thread that is next to take the mutex at the top of the loop: it has just
    arrived, was notified, or wakes without a notification. *)
Definition at_top (c : Client) : option Z :=
  match c with Acquiring deadline | Notified deadline | Asleep deadline => Some deadline | _ => None end.

Definition become (i : nat) (c : Client) (p : Pool) : Pool := p <| clients ::= <[i := c]> |>.

(** A thread goes on as [next], with the state it leaves. *)
Definition turn (i : nat) (deadline : Z) (result : Next * PoolState) (p : Pool) : Pool :=
  become i (after_turn deadline (fst result)) (p <| pool_state := snd result |>).

Inductive pool_step (p : Pool) : Pool -> Prop :=
  | Step_Arrive last_instant now timeout :
      pool_step p (p <| clients ::= vec_push (arrive last_instant now timeout) |>)
  | Step_Turn i c deadline now :
      clients p !! i = Some c -> at_top c = Some deadline ->
      pool_step p (turn i deadline (acquire_turn (pool_max p) now deadline (pool_state p)) p)
  | Step_TimedOut i deadline :
      clients p !! i = Some (Asleep deadline) -> pool_step p (become i (Done (Some TIMED_OUT)) p)
  | Step_Checked i deadline conn :
      clients p !! i = Some (Checking deadline conn) -> pool_step p (become i (Holding conn) p)
  | Step_CheckFailed i deadline conn now :
      clients p !! i = Some (Checking deadline conn) ->
      pool_step p (turn i deadline (check_failed (pool_max p) now deadline (pool_state p)) p)
  | Step_Connected i :
      clients p !! i = Some Connecting ->
      pool_step p (become i (Holding (opened p)) p <| opened ::= S |>)
  | Step_ConnectFailed i error cs :
      clients p !! i = Some Connecting -> notify_one (<[i := Done (Some error)]> (clients p)) cs ->
      pool_step p (p <| pool_state ::= forget 1 |> <| clients := cs |>)
  | Step_LetGo i conn discard_on_drop healthy reset :
      clients p !! i = Some (Holding conn) -> pool_step p (become i (let_go discard_on_drop healthy reset conn) p)
  | Step_GiveBack i conn state cs :
      clients p !! i = Some (GivingBack conn) -> give_back conn (pool_state p) = Some state ->
      notify_one (<[i := Done None]> (clients p)) cs ->
      pool_step p (p <| pool_state := state |> <| clients := cs |>)
  | Step_TooLate i conn :
      clients p !! i = Some (GivingBack conn) -> give_back conn (pool_state p) = None ->
      pool_step p (become i Dropping p)
  | Step_Dropped i cs :
      clients p !! i = Some Dropping -> notify_one (<[i := Done None]> (clients p)) cs ->
      pool_step p (p <| pool_state ::= forget 1 |> <| clients := cs |>)
  | Step_Close :
      pool_step p (p <| pool_state ::= close_state |> <| clients ::= notify_all |>).

Definition pool_reachable (options : PoolOptions) (p : Pool) : Prop := rtc pool_step (pool_new options) p.

(** * What the session pool guarantees

    Whatever the threads do, in whatever order: the count is the number of
    sessions there are or are about to be, it never exceeds the maximum, every
    session has one owner, and no thread sleeps while there is something for it
    that nobody was woken for. *)

#[local] Arguments upd {R T} proj {_} _ _ /.

(** ** Counting over the clients *)

Section Count.
Variable weight : Client -> nat.

Definition count (cs : list Client) : nat := sum_list_with weight cs.

Lemma count_insert cs i c c' : cs !! i = Some c -> count (<[i := c']> cs) + weight c = count cs + weight c'.
Proof.
  revert i. unfold count. induction cs as [|d cs IH]; intros [|i] H; [done..| |].
  - injection H as ->. cbn. lia.
  - specialize (IH i H). change (<[S i := c']> (d :: cs)) with (d :: <[i := c']> cs). cbn [sum_list_with]. lia.
Qed.

Lemma count_push cs c : count (vec_push c cs) = count cs + weight c.
Proof. unfold count, vec_push. rewrite sum_list_with_app. cbn. lia. Qed.

Lemma count_lookup cs i c : cs !! i = Some c -> weight c <= count cs.
Proof. intros H. by apply sum_list_with_in, list_elem_of_lookup_2 with i. Qed.

Lemma count_zero cs : count cs = 0 <-> Forall (fun c => weight c = 0) cs.
Proof.
  unfold count. split.
  - induction cs as [|c cs IH]; [constructor|]. cbn. intros H. constructor; [lia|apply IH; lia].
  - induction 1 as [|c cs Hc _ IH]; [done|]. cbn. lia.
Qed.

Lemma count_pos cs : 0 < count cs -> exists i c, cs !! i = Some c /\ 0 < weight c.
Proof.
  unfold count. induction cs as [|c cs IH]; cbn; [lia|]. intros H. destruct (decide (0 < weight c)); [by exists 0, c|].
  destruct IH as (i & d & Hd & Hw); [lia|]. by exists (S i), d.
Qed.
End Count.
#[local] Arguments count : simpl never.

(** Slots of the pool a client uses, sessions it has, and where it sleeps. *)
Definition slots (c : Client) : nat :=
  match c with Checking _ _ | Connecting | Holding _ | GivingBack _ | Dropping => 1 | _ => 0 end.
Definition sleeping (c : Client) : nat := match c with Asleep _ => 1 | _ => 0 end.
Definition woken (c : Client) : nat := match c with Notified _ => 1 | _ => 0 end.
Definition session_of (c : Client) : list Conn :=
  match c with Checking _ conn | Holding conn | GivingBack conn => [conn] | _ => [] end.

Definition sessions (p : Pool) : list Conn := idle (pool_state p) ++ (clients p ≫= session_of).

(** ** Notification *)

Lemma slots_wake c : slots (wake c) = slots c.
Proof. by destruct c. Qed.
Lemma session_wake c : session_of (wake c) = session_of c.
Proof. by destruct c. Qed.

Lemma notify_slots cs cs' : notify_one cs cs' -> count slots cs' = count slots cs.
Proof.
  intros [j c Hj _|_]; [|done]. pose proof (count_insert slots cs j c (wake c) Hj). rewrite slots_wake in H. lia.
Qed.

(** A notification reaches a sleeper, unless there is none. *)
Lemma notify_sleepers cs cs' : notify_one cs cs' ->
  (count sleeping cs = S (count sleeping cs') /\ count woken cs' = S (count woken cs))
  \/ (count sleeping cs' = 0 /\ cs' = cs).
Proof.
  intros [j c Hj Hc|Hc].
  - left. destruct c; try done. pose proof (count_insert sleeping cs j _ (wake (Asleep deadline)) Hj).
    pose proof (count_insert woken cs j _ (wake (Asleep deadline)) Hj). cbn in *. lia.
  - right. split; [|done]. apply count_zero. eapply Forall_impl; [exact Hc|]. by intros [].
Qed.

Lemma notify_all_counts cs : count slots (notify_all cs) = count slots cs /\ count sleeping (notify_all cs) = 0.
Proof.
  unfold notify_all. split.
  - unfold count. induction cs as [|c cs IH]; [done|]. cbn. rewrite slots_wake. by f_equal.
  - apply count_zero, Forall_fmap, Forall_true. by intros [].
Qed.

(** ** The counters *)

(** Sessions and slots that are there for the next thread. *)
Definition available (p : Pool) : nat := length (idle (pool_state p)) + (pool_max p - open_count (pool_state p)).

Record counted (p : Pool) : Prop := mkCounted {
  counted_open : open_count (pool_state p) = length (idle (pool_state p)) + count slots (clients p);
  counted_max : open_count (pool_state p) <= pool_max p;
  counted_closed : closed (pool_state p) = true -> idle (pool_state p) = [] /\ count sleeping (clients p) = 0;
  counted_woken : count sleeping (clients p) = 0 \/ available p <= count woken (clients p)
}.

Lemma pop_back_spec l conn rest : pop_back l = Some (conn, rest) -> l = rest ++ [conn].
Proof.
  unfold pop_back. destruct (last l) as [c|] eqn:E; [|done]. intros [= <- <-].
  apply last_Some in E as [l' ->]. by rewrite removelast_last.
Qed.

Lemma pop_back_none l : pop_back l = None -> l = [].
Proof. unfold pop_back. destruct (last l) eqn:E; [done|]. intros _. by apply last_None. Qed.

(** What a scan takes is paid for: a session from the idle ones, a slot, or
    nothing because there is nothing. *)
Lemma scan_idle_spec max now deadline state :
  let '(next, state') := scan_idle max now deadline state in
  closed state' = closed state /\
  match next with
  | Next_Check conn => idle state = idle state' ++ [conn] /\ open_count state' = open_count state
  | Next_Connect => idle state = [] /\ idle state' = [] /\ open_count state < max /\ open_count state' = S (open_count state)
  | Next_Wait | Next_Refuse _ => state' = state /\ idle state = [] /\ max <= open_count state
  end.
Proof.
  unfold scan_idle. destruct (pop_back (idle state)) as [[conn rest]|] eqn:E.
  - apply pop_back_spec in E. by rewrite E.
  - apply pop_back_none in E. destruct (Nat.ltb_spec (open_count state) max); [done|].
    destruct (deadline <=? now)%Z; done.
Qed.

(** A thread that scans a state with one slot less than it had, and goes on. *)
Lemma counted_scan p i c now deadline state :
  counted p -> clients p !! i = Some c ->
  idle state = idle (pool_state p) -> closed state = closed (pool_state p) ->
  open_count state + slots c = open_count (pool_state p) ->
  (closed (pool_state p) = true -> open_count state < pool_max p) ->
  counted (turn i deadline (scan_idle (pool_max p) now deadline state) p).
Proof.
  intros [Ho Hm Hc Hw] Hi Hidle Hclosed Hopen Hroom. pose proof (scan_idle_spec (pool_max p) now deadline state) as Hs.
  destruct (scan_idle _ _ _ _) as [next state']. destruct Hs as [Hcl Hs].
  unfold turn, become, available in *. cbn [fst snd].
  pose proof (count_insert slots _ i c (after_turn deadline next) Hi) as Cs.
  pose proof (count_insert sleeping _ i c (after_turn deadline next) Hi) as Ca.
  pose proof (count_insert woken _ i c (after_turn deadline next) Hi) as Cw.
  assert (woken c <= 1 /\ sleeping c <= 1 /\ slots c <= 1 /\ woken c + slots c <= 1) as Hle by by destruct c; cbn; lia.
  pose proof (f_equal length Hidle) as Hlen.
  destruct next as [error|conn| |]; cbn [after_turn slots sleeping woken] in *.
  - destruct Hs as (-> & E & Hfull). rewrite E in Hlen. cbn in Hlen.
    split; cbn; unfold available; cbn; rewrite ?Hidle; [lia..| |lia].
    rewrite Hclosed. intros H. specialize (Hroom H). lia.
  - destruct Hs as (E & Hsame). rewrite E, length_app in Hlen. cbn in Hlen.
    split; cbn; unfold available; cbn; [lia..| |lia].
    rewrite Hcl, Hclosed. intros H. apply Hc in H as [H _]. rewrite H in Hlen. cbn in Hlen. lia.
  - destruct Hs as (E & E' & Hlt & Hsucc). rewrite E in Hlen. cbn in Hlen. rewrite <- Hidle, E in *.
    split; cbn; unfold available; cbn; rewrite ?E'; cbn; [lia..| |lia].
    rewrite Hcl, Hclosed. intros H. apply Hc in H as [_ H]. split; [done|lia].
  - destruct Hs as (-> & E & Hfull). rewrite E in Hlen. cbn in Hlen.
    split; cbn; unfold available; cbn; rewrite ?Hidle; [lia..| |lia].
    rewrite Hclosed. intros H. specialize (Hroom H). lia.
Qed.

(** A slot that becomes free, with the one notification that goes with it. *)
Lemma counted_freed p i c c' cs :
  counted p -> clients p !! i = Some c -> slots c = 1 -> slots c' = 0 -> sleeping c' = 0 -> woken c' = 0 ->
  notify_one (<[i := c']> (clients p)) cs ->
  counted (p <| pool_state ::= forget 1 |> <| clients := cs |>).
Proof.
  intros [Ho Hm Hc Hw] Hi Hs Hs' Ha' Hw' Hn. unfold available in *.
  pose proof (count_insert slots _ i c c' Hi) as Cs. pose proof (count_insert sleeping _ i c c' Hi) as Ca.
  pose proof (count_insert woken _ i c c' Hi) as Cw.
  assert (sleeping c = 0 /\ woken c = 0) as [] by by destruct c.
  pose proof (notify_slots _ _ Hn) as Ns. pose proof (notify_sleepers _ _ Hn) as Na.
  split; cbn; unfold available; cbn; [lia..| |].
  - intros E. apply Hc in E as [E Hz]. split; [done|]. destruct Na as [[]|[? ->]]; lia.
  - destruct Na as [[]|[? ->]]; lia.
Qed.

(** A step that leaves the counters and every slot as they are. *)
Lemma counted_same p i c c' :
  counted p -> clients p !! i = Some c -> slots c' = slots c -> sleeping c' = 0 -> woken c = 0 -> woken c' = 0 ->
  counted (become i c' p).
Proof.
  intros [Ho Hm Hc Hw] Hi Hs Ha Hwo Hw'. unfold available in *.
  pose proof (count_insert slots _ i c c' Hi) as Cs. pose proof (count_insert sleeping _ i c c' Hi) as Ca.
  pose proof (count_insert woken _ i c c' Hi) as Cw.
  unfold become. split; cbn; unfold available; cbn; [lia..| |lia].
  intros E; apply Hc in E as [E Hz]; split; [done|lia].
Qed.

Lemma counted_opened p n : counted p -> counted (p <| opened ::= n |>).
Proof. by intros []. Qed.

Lemma counted_step p p' : pool_step p p' -> counted p -> counted p'.
Proof.
  intros Hstep Hp. pose proof Hp as [Ho Hm Hc Hw]. destruct Hstep.
  - unfold arrive. destruct (pool_acquire_deadline _ _ _).
    all: split; cbn; unfold available in *; cbn; rewrite ?count_push; cbn; [lia..| |lia].
    all: intros H'; apply Hc in H' as [? ?]; split; [done|lia].
  - unfold acquire_turn. destruct (closed (pool_state p)) eqn:E.
    + destruct Hc as [Hidle Hz]; [done|].
      assert (counted (become i (Done (Some CLOSED)) p)) as Hd; [|by destruct p].
      pose proof (count_insert slots _ i c (Done (Some CLOSED)) H) as Cs.
      pose proof (count_insert sleeping _ i c (Done (Some CLOSED)) H) as Ca.
      assert (slots c = 0) by by destruct c. cbn [slots sleeping] in *.
      split; cbn; unfold available; cbn; [lia..| |lia]. intros _. split; [done|lia].
    + assert (slots c = 0) by by destruct c. eapply counted_scan; [done..|lia|]. congruence.
  - eapply counted_same; done.
  - eapply counted_same; done.
  - pose proof (count_lookup slots _ _ _ H) as Hle. cbn in Hle.
    eapply counted_scan; [done|done|done|done| |]; cbn; lia.
  - apply counted_opened. eapply counted_same; done.
  - eapply counted_freed; [exact Hp|exact H|..|exact H0]; done.
  - eapply counted_same; [done|exact H|..]; try done; unfold let_go; by destruct (_ && _).
  - unfold give_back in H0. destruct (closed (pool_state p)) eqn:E; [done|]. injection H0 as <-.
    pose proof (count_insert slots _ i _ (Done None) H) as Cs. pose proof (count_insert sleeping _ i _ (Done None) H) as Ca.
    pose proof (count_insert woken _ i _ (Done None) H) as Cw. cbn [slots sleeping woken] in *.
    pose proof (notify_slots _ _ H1) as Ns. pose proof (notify_sleepers _ _ H1) as Na. unfold available in *.
    split; cbn; unfold available, vec_push; cbn; rewrite ?length_app; cbn; [lia..|congruence|].
    destruct Na as [[]|[? ->]]; lia.
  - eapply counted_same; done.
  - eapply counted_freed; [exact Hp|exact H|..|exact H0]; done.
  - destruct (notify_all_counts (clients p)) as [Ns Na]. set (cs := notify_all (clients p)) in *.
    change (p <| pool_state ::= close_state |> <| clients ::= notify_all |>)
      with (p <| pool_state ::= close_state |> <| clients := cs |>).
    clearbody cs. split; cbn; unfold available; cbn; [lia..|by intros _|by left].
Qed.

(** An invariant of the steps holds in every pool that is reached. *)
Lemma reachable_ind_inv (P : Pool -> Prop) options p :
  P (pool_new options) -> (forall p p', pool_step p p' -> P p -> P p') -> pool_reachable options p -> P p.
Proof. intros H0 Hs H. unfold pool_reachable in H. revert H0. induction H; [done|]. eauto. Qed.

Lemma counted_reachable options p : pool_reachable options p -> counted p.
Proof.
  apply reachable_ind_inv; [|intros ??; apply counted_step].
  split; cbn; unfold available; cbn; [done|lia|by intros|by left].
Qed.

Lemma pool_max_reachable options p : pool_reachable options p -> pool_max p = Nat.max (max_size options) 1.
Proof. apply (reachable_ind_inv (fun p => pool_max p = Nat.max (max_size options) 1)); [done|]. by intros p1 p2 []. Qed.

(** ** The sessions *)

Lemma bind_insert (cs : list Client) i c c' : cs !! i = Some c -> exists rest,
  cs ≫= session_of ≡ₚ session_of c ++ rest /\ <[i := c']> cs ≫= session_of ≡ₚ session_of c' ++ rest.
Proof.
  intros H. pose proof (lookup_lt_Some _ _ _ H) as Hlt. apply take_drop_middle in H as E.
  exists ((take i cs ≫= session_of) ++ (drop (S i) cs ≫= session_of)). split.
  - rewrite <- E at 1. rewrite bind_app. cbn. solve_Permutation.
  - rewrite insert_take_drop by done. rewrite bind_app. cbn. solve_Permutation.
Qed.

Lemma notify_sessions cs cs' : notify_one cs cs' -> cs' ≫= session_of ≡ₚ cs ≫= session_of.
Proof.
  intros [j c Hj _|_]; [|done]. destruct (bind_insert cs j c (wake c) Hj) as (rest & -> & ->). by rewrite session_wake.
Qed.

(** Every session has one owner, and the next one is new. *)
Definition owned_once (p : Pool) : Prop := NoDup (sessions p) /\ Forall (fun conn => conn < opened p) (sessions p).

Lemma owned_perm p p' : owned_once p -> opened p' = opened p -> sessions p' ≡ₚ sessions p -> owned_once p'.
Proof. unfold owned_once. intros [Hn Hf] -> ->. done. Qed.

Lemma owned_less p p' gone : owned_once p -> opened p' = opened p -> sessions p ≡ₚ gone ++ sessions p' -> owned_once p'.
Proof.
  unfold owned_once. intros [Hn Hf] -> E. rewrite E in Hn, Hf. apply NoDup_app in Hn as (_ & _ & Hn).
  apply Forall_app in Hf as [_ Hf]. done.
Qed.

Lemma sessions_become p i c c' : clients p !! i = Some c -> exists rest,
  sessions p ≡ₚ session_of c ++ rest /\ sessions (become i c' p) ≡ₚ session_of c' ++ rest.
Proof.
  intros H. destruct (bind_insert _ i c c' H) as (rest & E & E'). exists (idle (pool_state p) ++ rest).
  unfold sessions, become. cbn -[mbind]. rewrite E, E'. split; solve_Permutation.
Qed.

(** A thread that scans: the session it takes was idle. *)
Lemma owned_scan p i c now deadline state :
  owned_once p -> clients p !! i = Some c -> idle state = idle (pool_state p) ->
  owned_once (turn i deadline (scan_idle (pool_max p) now deadline state) p).
Proof.
  intros Ho Hi Hidle. pose proof (scan_idle_spec (pool_max p) now deadline state) as Hs.
  destruct (scan_idle _ _ _ _) as [next state']. destruct Hs as [_ Hs].
  destruct (bind_insert _ i c (after_turn deadline next) Hi) as (rest & E & E').
  eapply (owned_less _ _ (session_of c)); [exact Ho|done|]. unfold turn, become, sessions. cbn -[mbind].
  rewrite E, E', <- Hidle. destruct next; cbn [after_turn session_of].
  - destruct Hs as (-> & _). solve_Permutation.
  - destruct Hs as (-> & _). solve_Permutation.
  - destruct Hs as (-> & -> & _). solve_Permutation.
  - destruct Hs as (-> & _). solve_Permutation.
Qed.

Lemma owned_become p i c c' : owned_once p -> clients p !! i = Some c ->
  session_of c' = session_of c \/ session_of c' = [] -> owned_once (become i c' p).
Proof.
  intros Ho Hi Hs. destruct (sessions_become p i c c' Hi) as (rest & E & E').
  destruct Hs as [Hs|Hs]; rewrite Hs in E'.
  - eapply owned_perm; [exact Ho|done|]. by rewrite E, E'.
  - eapply (owned_less _ _ (session_of c)); [exact Ho|done|]. by rewrite E, E'.
Qed.

Lemma owned_finished p i c error cs state : owned_once p -> clients p !! i = Some c ->
  notify_one (<[i := Done error]> (clients p)) cs -> idle state ≡ₚ idle (pool_state p) \/ idle state = [] ->
  owned_once (p <| pool_state := state |> <| clients := cs |>).
Proof.
  intros Ho Hi Hn Hs. destruct (bind_insert _ i c (Done error) Hi) as (rest & E & E').
  pose proof (notify_sessions _ _ Hn) as En. destruct Hs as [Hs|Hs].
  - eapply (owned_less _ _ (session_of c)); [exact Ho|done|]. unfold sessions. cbn -[mbind].
    rewrite En, E, E', Hs. cbn. solve_Permutation.
  - eapply (owned_less _ _ (session_of c ++ idle (pool_state p))); [exact Ho|done|]. unfold sessions. cbn -[mbind].
    rewrite En, E, E', Hs. cbn. solve_Permutation.
Qed.

Lemma owned_step p p' : pool_step p p' -> owned_once p -> owned_once p'.
Proof.
  intros Hstep Ho. destruct Hstep.
  - eapply owned_perm; [exact Ho|done|]. unfold sessions, vec_push. cbn -[mbind].
    rewrite bind_app. unfold arrive. destruct (pool_acquire_deadline _ _ _); cbn; by rewrite !app_nil_r.
  - unfold acquire_turn. destruct (closed (pool_state p)); [|by eapply owned_scan].
    assert (owned_once (become i (Done (Some CLOSED)) p)) as Hd; [|by destruct p].
    eapply owned_become; [done..|by right].
  - eapply owned_become; [done..|by right].
  - eapply owned_become; [done..|by left].
  - by eapply owned_scan.
  - destruct (sessions_become p i _ (Holding (opened p)) H) as (rest & E & E').
    destruct Ho as [Hn Hf]. rewrite E in Hn, Hf. cbn [session_of app] in *.
    change (sessions (become i (Holding (opened p)) p <| opened ::= S |>)) with (sessions (become i (Holding (opened p)) p)).
    split; change (opened (become i (Holding (opened p)) p <| opened ::= S |>)) with (S (opened p));
      change (sessions (become i (Holding (opened p)) p <| opened ::= S |>)) with (sessions (become i (Holding (opened p)) p));
      rewrite E'.
    + constructor; [|done]. intros Hin. rewrite Forall_forall in Hf. apply Hf in Hin. lia.
    + constructor; [lia|]. eapply Forall_impl; [exact Hf|]. cbn. lia.
  - eapply owned_finished; [done..|by left].
  - eapply owned_become; [done..|]. unfold let_go. destruct (_ && _); [by left|by right].
  - unfold give_back in H0. destruct (closed (pool_state p)); [done|]. injection H0 as <-.
    destruct (bind_insert _ i _ (Done None) H) as (rest & E & E'). pose proof (notify_sessions _ _ H1) as En.
    eapply owned_perm; [exact Ho|done|]. unfold sessions, vec_push. cbn -[mbind]. rewrite En, E, E'. cbn. solve_Permutation.
  - eapply owned_become; [done..|by right].
  - eapply owned_finished; [done..|by left].
  - eapply (owned_less _ _ (idle (pool_state p))); [exact Ho|done|]. unfold sessions, notify_all. cbn -[mbind fmap].
    assert ((wake <$> clients p) ≫= session_of = clients p ≫= session_of) as ->; [|done].
    induction (clients p) as [|c cs IH]; [done|]. cbn. rewrite session_wake. by f_equal.
Qed.

Lemma owned_reachable options p : pool_reachable options p -> owned_once p.
Proof. apply reachable_ind_inv; [split; cbn; constructor|intros ??; apply owned_step]. Qed.

Lemma sessions_slots p : length (sessions p) <= length (idle (pool_state p)) + count slots (clients p).
Proof.
  unfold sessions, count. rewrite length_app. apply Nat.add_le_mono_l.
  induction (clients p) as [|c cs IH]; [done|]. cbn. rewrite length_app.
  assert (length (session_of c) <= slots c) by (destruct c; cbn; lia).
    change (list_bind _ _ session_of cs) with (cs ≫= session_of). lia.
Qed.

Lemma scan_closed max now deadline state : closed (snd (scan_idle max now deadline state)) = closed state.
Proof. pose proof (scan_idle_spec max now deadline state). destruct (scan_idle _ _ _ _). tauto. Qed.

(** ** Theorems *)

(** C19. However many threads use the pool and however their calls interleave, the
    count is exactly the idle sessions and the slots threads have taken, so the
    saturating subtractions never saturate, and it is at most the maximum, which
    is one at least; nor are there ever more sessions than that. *)
Theorem pool_keeps_its_size options p :
  pool_reachable options p ->
  open_count (pool_state p) = length (idle (pool_state p)) + count slots (clients p)
  /\ open_count (pool_state p) <= Nat.max (max_size options) 1
  /\ length (sessions p) <= Nat.max (max_size options) 1.
Proof.
  intros H. pose proof (counted_reachable _ _ H) as [Ho Hm _ _]. pose proof (sessions_slots p).
  rewrite <- (pool_max_reachable _ _ H). split_and!; [done..|lia].
Qed.

(** No session is in two hands, or in the pool and in someone's hands. *)
Theorem sessions_have_one_owner options p :
  pool_reachable options p -> NoDup (sessions p).
Proof. intros H. apply (owned_reachable _ _ H). Qed.

(** C7. No notification is lost: while a thread sleeps the pool is open, and there are
    at least as many threads on their way from a notification as there are idle
    sessions and free slots.  So when nobody is on the way, nothing is idle, no
    slot is free, and some other thread has a slot it will give back. *)
Theorem no_wakeup_is_lost options p i deadline :
  pool_reachable options p -> clients p !! i = Some (Asleep deadline) ->
  closed (pool_state p) = false
  /\ available p <= count woken (clients p)
  /\ (Forall (fun c => woken c = 0) (clients p) ->
      idle (pool_state p) = [] /\ open_count (pool_state p) = pool_max p
      /\ exists j c, clients p !! j = Some c /\ slots c = 1).
Proof.
  intros H Hi. pose proof (counted_reachable _ _ H) as [Ho Hm Hc Hw]. pose proof (pool_max_reachable _ _ H) as Hmax.
  pose proof (count_lookup sleeping _ _ _ Hi) as Hs. cbn in Hs. destruct Hw as [Hw|Hw]; [lia|].
  split_and!; [|done|].
  - destruct (closed (pool_state p)); [|done]. destruct Hc as [_ Hz]; [done|lia].
  - intros Hn. apply count_zero in Hn. unfold available in Hw.
    assert (idle (pool_state p) = []) as Hidle by (apply nil_length_inv; lia). rewrite Hidle in *. cbn in *.
    split_and!; [done|lia|]. destruct (count_pos slots (clients p)) as (j & c & Hj & Hpos); [lia|].
    exists j, c. split; [done|]. destruct c; cbn in *; lia.
Qed.

(** Closing is final: a closed pool stays closed, keeps no session, nobody sleeps
    in it, and whoever comes to the top of the loop is refused. *)
Theorem closing_is_final options p p' :
  pool_reachable options p -> closed (pool_state p) = true -> rtc pool_step p p' ->
  closed (pool_state p') = true /\ idle (pool_state p') = [] /\ count sleeping (clients p') = 0
  /\ forall now deadline, fst (acquire_turn (pool_max p') now deadline (pool_state p')) = Next_Refuse CLOSED.
Proof.
  intros H Hcl Hs. assert (closed (pool_state p') = true) as Hcl'.
  { clear H. induction Hs as [|p1 p2 p3 Hstep _ IH]; [done|]. apply IH. clear IH.
    destruct Hstep; try done.
    - unfold acquire_turn. by rewrite Hcl.
    - etransitivity; [apply scan_closed|exact Hcl].
    - unfold give_back in *. by rewrite Hcl in *. }
  assert (pool_reachable options p') as H' by (unfold pool_reachable in *; by etransitivity).
  pose proof (counted_reachable _ _ H') as [_ _ Hc _]. destruct (Hc Hcl') as [Hi Hz].
  split_and!; [done..|]. intros now deadline. unfold acquire_turn. by rewrite Hcl'.
Qed.

(** ** Concrete pools *)

Definition one_session : PoolOptions := mkPoolOptions 0 5.

(** Two threads and room for one session: the second sleeps. *)
Definition second_sleeps : Pool := mkPool 1 (mkPoolState [] 1 false) [Holding 0; Asleep 5] 1.

Lemma second_sleeps_reached : pool_reachable one_session second_sleeps.
Proof.
  eapply rtc_l; [apply (Step_Arrive _ 100 0 5)|]. eapply rtc_l; [by apply (Step_Turn _ 0 (Acquiring 5) 5 0)|].
  eapply rtc_l; [by apply (Step_Connected _ 0)|]. eapply rtc_l; [apply (Step_Arrive _ 100 0 5)|].
  eapply rtc_l; [by apply (Step_Turn _ 1 (Acquiring 5) 5 0)|]. apply rtc_refl.
Defined.

Lemma pool_keeps_its_size_witness :
  open_count (pool_state second_sleeps) = length (idle (pool_state second_sleeps)) + count slots (clients second_sleeps)
  /\ open_count (pool_state second_sleeps) <= 1 /\ length (sessions second_sleeps) <= 1.
Proof. apply (pool_keeps_its_size one_session second_sleeps), second_sleeps_reached. Defined.

Lemma sessions_have_one_owner_witness : NoDup (sessions second_sleeps).
Proof. apply (sessions_have_one_owner one_session second_sleeps), second_sleeps_reached. Defined.

Lemma no_wakeup_is_lost_witness :
  closed (pool_state second_sleeps) = false
  /\ available second_sleeps <= count woken (clients second_sleeps)
  /\ (Forall (fun c => woken c = 0) (clients second_sleeps) ->
      idle (pool_state second_sleeps) = [] /\ open_count (pool_state second_sleeps) = pool_max second_sleeps
      /\ exists j c, clients second_sleeps !! j = Some c /\ slots c = 1).
Proof. apply (no_wakeup_is_lost one_session second_sleeps 1 5); [apply second_sleeps_reached|reflexivity]. Defined.

(** The pool is closed while a session from it is being checked. *)
Definition closed_while_checking : Pool := mkPool 1 (mkPoolState [] 1 true) [Done None; Checking 5 0] 1.

Lemma closed_while_checking_reached : pool_reachable one_session closed_while_checking.
Proof.
  eapply rtc_l; [apply (Step_Arrive _ 100 0 5)|]. eapply rtc_l; [by apply (Step_Turn _ 0 (Acquiring 5) 5 0)|].
  eapply rtc_l; [by apply (Step_Connected _ 0)|]. eapply rtc_l; [by apply (Step_LetGo _ 0 0 false true true)|].
  eapply rtc_l; [eapply (Step_GiveBack _ 0 0); [done..|apply Notify_Nobody; by repeat constructor]|].
  eapply rtc_l; [apply (Step_Arrive _ 100 0 5)|]. eapply rtc_l; [by apply (Step_Turn _ 1 (Acquiring 5) 5 0)|].
  eapply rtc_l; [apply Step_Close|]. apply rtc_refl.
Defined.

(** When that session turns out to be dead, the closed pool opens another one and
    [acquire] gives it out. *)
Example closed_pool_connects :
  exists p, rtc pool_step closed_while_checking p
  /\ closed (pool_state p) = true /\ clients p = [Done None; Holding 1].
Proof.
  eexists. split; [|split].
  - eapply rtc_l; [by apply (Step_CheckFailed _ 1 5 0 0)|]. eapply rtc_l; [by apply (Step_Connected _ 1)|]. apply rtc_refl.
  - reflexivity.
  - reflexivity.
Qed.

Lemma closing_is_final_witness :
  let p := mkPool 1 (mkPoolState [] 1 true) [Done None; Holding 1] 2 in
  closed (pool_state p) = true /\ idle (pool_state p) = [] /\ count sleeping (clients p) = 0
  /\ forall now deadline, fst (acquire_turn (pool_max p) now deadline (pool_state p)) = Next_Refuse CLOSED.
Proof.
  apply (closing_is_final one_session closed_while_checking); [apply closed_while_checking_reached|reflexivity|].
  eapply rtc_l; [by apply (Step_CheckFailed _ 1 5 0 0)|]. eapply rtc_l; [by apply (Step_Connected _ 1)|]. apply rtc_refl.
Defined.
