(* ===== verification/SelectionSummary.v ===== *)
(** * The summary of a selection

    The accumulator over the selected cells with its checked arithmetic, and the
    laws of its decimals. *)
From Stdlib Require Import ZArith.
From stdpp Require Import gmap pretty.
From stdpp Require Import pretty.
From S2P Require Import Prelude RustStr GridSort GridSortSpec GridState RustParse.

(** * What the status bar says of a selection

    [selection_summary.rs]: cells that are all decimal numbers are summed exactly,
    as integers of 128 bits at a common scale; what leaves that range is not
    reported.  A [checked_] operation is the exact one, then a check. *)

#[local] Open Scope Z_scope.

(** ** Machine integers *)

Definition I128_MIN : Z := - 2 ^ 127.
Definition I128_MAX : Z := 2 ^ 127 - 1.
Definition I32_MAX : Z := 2147483647.

Definition in_i128 (z : Z) : bool := (I128_MIN <=? z) && (z <=? I128_MAX).
Definition checked (z : Z) : option Z := if in_i128 z then Some z else None.

(** The same for [u32]. *)
Definition checked_u32 (z : Z) : option Z := if (0 <=? z) && (z <=? U32_MAX) then Some z else None.

(** [z.to_string()]. *)
Definition unsigned_to_string (z : Z) : str := u (pretty (Z.to_N z)).
Definition signed_to_string (z : Z) : str := (if z <? 0 then u "-" else []) ++ unsigned_to_string (Z.abs z).

(** ** Decimals *)

Record Decimal := mkDecimal { units : Z; scale : Z }.
#[export] Instance Decimal_eq_dec : EqDecision Decimal.
Proof. solve_decision. Defined.

Definition MAX_SCALE : Z := 30.
Definition AVERAGE_EXTRA_SCALE : Z := 6.
Definition MAX_SCANNED_CELLS : Z := 2000000.

Definition rescale_to (d : Decimal) (scale' : Z) : option Decimal :=
  if scale' <? scale d then None
  else
    factor ← checked (10 ^ (scale' - scale d));
    units' ← checked (units d * factor);
    Some (mkDecimal units' scale').

Definition aligned (d other : Decimal) : option (Decimal * Decimal) :=
  let scale' := Z.max (scale d) (scale other) in
  l ← rescale_to d scale'; r ← rescale_to other scale'; Some (l, r).

Definition checked_add (d other : Decimal) : option Decimal :=
  '(l, r) ← aligned d other;
  sum ← checked (units l + units r);
  Some (mkDecimal sum (scale l)).

Definition is_less_than (d other : Decimal) : option bool :=
  '(l, r) ← aligned d other; Some (units l <? units r).

Definition checked_div_by (d : Decimal) (divisor : Z) : option Decimal :=
  if divisor <=? 0 then None
  else
    scale' ← checked_u32 (scale d + AVERAGE_EXTRA_SCALE);
    scaled ← rescale_to d scale';
    let quotient := Z.quot (units scaled) divisor in
    let remainder := Z.rem (units scaled) divisor in
    doubled ← checked (remainder * 2);
    rounded ← if divisor <=? Z.abs doubled then checked (quotient + if units scaled <? 0 then -1 else 1)
              else Some quotient;
    Some (mkDecimal rounded scale').

(** [s.trim_end_matches('0')]. *)
Definition trim_end_zeros (s : str) : str := reverse (GridSort.trim_start_zeros (reverse s)).

Definition to_display_string (d : Decimal) : str :=
  if scale d =? 0 then signed_to_string (units d)
  else
    let negative := units d <? 0 in
    let digits := unsigned_to_string (Z.abs (units d)) in
    let scale' := Z.to_nat (scale d) in
    let '(integer_part, fraction_part) :=
      if (scale' <? length digits)%nat then
        let split := (length digits - scale')%nat in (take split digits, drop split digits)
      else (u "0", replicate (scale' - length digits) "0"%ch ++ digits) in
    let fraction_part := trim_end_zeros fraction_part in
    let sign := if negative && (negb (integer_part == u "0") || negb (str_is_empty fraction_part)) then u "-" else [] in
    if str_is_empty fraction_part then sign ++ integer_part
    else sign ++ integer_part ++ u "." ++ fraction_part.

(** ** Reading a cell *)

(** An optional sign, and the rest. *)
Definition split_sign (text : str) : bool * str :=
  match text with
  | ch :: rest => if N.eqb ch "-"%ch then (true, rest) else if N.eqb ch "+"%ch then (false, rest) else (false, text)
  | [] => (false, [])
  end.

Definition parse_exponent (text : str) : option Z :=
  let '(negative, digits) := split_sign text in
  if str_is_empty digits || negb (GridSort.digits_only digits) then None
  else value ← parse_unsigned I32_MAX digits; Some (if negative : bool then - value else value).

Definition apply_exponent (d : Decimal) (exponent : Z) : option Decimal :=
  if exponent =? 0 then Some d
  else if 0 <? exponent then
    let consumed := Z.min exponent (scale d) in
    let remaining := exponent - consumed in
    if remaining =? 0 then Some (mkDecimal (units d) (scale d - consumed))
    else
      factor ← checked (10 ^ remaining);
      units' ← checked (units d * factor);
      Some (mkDecimal units' 0)
  else
    scale' ← checked_u32 (scale d - exponent); Some (mkDecimal (units d) scale').

(** The digits, one at a time. *)
Definition push_digit (total : option Z) (ch : char) : option Z :=
  total ← total; total ← checked (total * 10); checked (total + (Z.of_N ch - 48)).

Definition read_digits (digits : str) : option Z := foldl push_digit (Some 0) digits.

Definition parse_decimal (value : str) : option Decimal :=
  let '(negative, text) := split_sign (trim value) in
  '(mantissa, exponent) ←
    match GridSort.split_once (fun ch => is_char_of ch "eE") text with
    | Some (mantissa, exponent) => exponent ← parse_exponent exponent; Some (mantissa, Some exponent)
    | None => Some (text, None)
    end;
  let '(integer_digits, fraction_digits) := default (mantissa, []) (GridSort.split_once (N.eqb "."%ch) mantissa) in
  if str_is_empty integer_digits && str_is_empty fraction_digits then None
  else if negb (GridSort.digits_only integer_digits) || negb (GridSort.digits_only fraction_digits) then None
  else
    units ← read_digits (integer_digits ++ fraction_digits);
    units ← (if negative : bool then checked (- units) else Some units);
    scale' ← checked_u32 (Z.of_nat (length fraction_digits));
    decimal ← match exponent with
              | Some exponent => apply_exponent (mkDecimal units scale') exponent
              | None => Some (mkDecimal units scale')
              end;
    if MAX_SCALE <? scale decimal then None else Some decimal.

(** ** The summary *)

Inductive SelectionSummary :=
  | Summary_Numeric (count : nat) (sum average minimum maximum : str)
  | Summary_Count (count : nat)
  | Summary_CellsOnly (cells : nat).

Definition summary_label (s : SelectionSummary) : str :=
  match s with
  | Summary_Numeric count sum average minimum maximum =>
      u "Count: " ++ to_decimal count ++ u "  Sum: " ++ sum ++ u "  Avg: " ++ average ++ u "  Min: " ++ minimum
      ++ u "  Max: " ++ maximum
  | Summary_Count count => u "Count: " ++ to_decimal count
  | Summary_CellsOnly cells => u "Selected: " ++ to_decimal cells ++ u " cells"
  end.

Record NumericAccumulator := mkAccumulator { sum : Decimal; minimum : Decimal; maximum : Decimal }.

Definition accumulator_new (first : Decimal) : NumericAccumulator := mkAccumulator first first first.

Definition accumulator_push (a : NumericAccumulator) (value : Decimal) : option NumericAccumulator :=
  sum ← checked_add (sum a) value;
  lower ← is_less_than value (minimum a);
  higher ← is_less_than (maximum a) value;
  Some (mkAccumulator sum (if lower : bool then value else minimum a) (if higher : bool then value else maximum a)).

(** The variables of the scan. *)
Record ScanState := mkScan { count : nat; numeric : option NumericAccumulator; numeric_failed : bool }.

Definition fail_numeric (s : ScanState) : ScanState := mkScan (count s) (numeric s) true.

Definition scan_cell (null_text : str) (s : ScanState) (value : str) : ScanState :=
  if GridSort.value_represents_null value null_text then s
  else
    let s := mkScan (S (count s)) (numeric s) (numeric_failed s) in
    if numeric_failed s then s
    else
      match parse_decimal value with
      | None => fail_numeric s
      | Some decimal =>
          match numeric s with
          | Some accumulator =>
              match accumulator_push accumulator decimal with
              | Some accumulator => mkScan (count s) (Some accumulator) false
              | None => fail_numeric s
              end
          | None => mkScan (count s) (Some (accumulator_new decimal)) false
          end
      end.

(** The cells of a row that are selected and not hidden. *)
Definition visible_cells (col_start col_end : nat) (hidden_col : HiddenColumns) (row : list str) : list str :=
  snd <$> List.filter (fun '(col, _) => negb (contains hidden_col col)) (slice col_start (S col_end) (imap pair row)).

Definition scan_rows (rows : list (list str)) (bounds : nat * nat * nat * nat) (hidden_col : HiddenColumns)
    (null_text : str) : ScanState :=
  let '(row_start, col_start, row_end, col_end) := bounds in
  foldl (fun s row => foldl (scan_cell null_text) s (visible_cells col_start col_end hidden_col row))
    (mkScan 0 None false) (slice row_start (S row_end) rows).

Definition finish_summary (s : ScanState) : SelectionSummary :=
  if (count s =? 0)%nat then Summary_Count 0
  else
    match (if numeric_failed s then None else numeric s) with
    | None => Summary_Count (count s)
    | Some accumulator =>
        match checked_div_by (sum accumulator) (Z.of_nat (count s)) with
        | None => Summary_Count (count s)
        | Some average =>
            Summary_Numeric (count s) (to_display_string (sum accumulator)) (to_display_string average)
              (to_display_string (minimum accumulator)) (to_display_string (maximum accumulator))
        end
    end.

Definition summarize_selection (rows : list (list str)) (bounds : nat * nat * nat * nat) (hidden_col : HiddenColumns)
    (null_text : str) : option SelectionSummary :=
  let '(row_start, col_start, row_end, col_end) := bounds in
  if (row_end <? row_start)%nat || (col_end <? col_start)%nat then None
  else
    let selected_columns :=
      length (List.filter (fun col => negb (contains hidden_col col)) (seq col_start (S col_end - col_start))) in
    if (selected_columns =? 0)%nat then None
    else
      let cells := ((S row_end - row_start) * selected_columns)%nat in
      if (cells <=? 1)%nat then None
      else if MAX_SCANNED_CELLS <? Z.of_nat cells then Some (Summary_CellsOnly cells)
      else Some (finish_summary (scan_rows rows bounds hidden_col null_text)).

Example a_selection :
  summarize_selection [[u "0.1"; u "x"; u "0.2"]; [u "-1.5e1"; u "y"; u "NULL"]] (0, 0, 1, 2)%nat (mkHidden None {[1%nat]}) (u "NULL")
  = Some (Summary_Numeric 3 (u "-14.7") (u "-4.9") (u "-15") (u "0.2")).
Proof. vm_compute. reflexivity. Qed.

#[local] Close Scope Z_scope.

(** * The exact arithmetic of the selection summary

    A decimal of scale at most [K] is the integer [at_scale K d], in units of
    [10^-K]; every operation that answers is exact in it.  A text that is read is
    the number it spells, and a number that is shown is read back. *)

#[local] Open Scope Z_scope.

(** ** Values *)

Definition at_scale (K : Z) (d : Decimal) : Z := units d * 10 ^ (K - scale d).

(** What the code's decimals are. *)
Definition decimal_ok (d : Decimal) : Prop := in_i128 (units d) = true /\ 0 <= scale d.

Lemma checked_some z z' : checked z = Some z' -> z' = z /\ in_i128 z = true.
Proof. unfold checked. destruct (in_i128 z); [|done]. by intros [= <-]. Qed.

Lemma checked_fits z : in_i128 z = true -> checked z = Some z.
Proof. unfold checked. by intros ->. Qed.

Lemma in_i128_spec z : in_i128 z = true <-> I128_MIN <= z <= I128_MAX.
Proof. unfold in_i128. by rewrite andb_true_iff, !Z.leb_le. Qed.

Lemma checked_u32_some z z' : checked_u32 z = Some z' -> z' = z /\ 0 <= z <= U32_MAX.
Proof.
  unfold checked_u32. destruct (_ && _) eqn:E; [|done]. intros [= <-].
  by rewrite andb_true_iff, !Z.leb_le in E.
Qed.

Lemma at_scale_change K s d : scale d <= s -> s <= K -> at_scale s d * 10 ^ (K - s) = at_scale K d.
Proof. intros H H'. unfold at_scale. rewrite <- Z.mul_assoc, <- Z.pow_add_r by lia. do 2 f_equal. lia. Qed.

Lemma rescale_spec d s d' : rescale_to d s = Some d' ->
  scale d' = s /\ scale d <= s /\ units d' = at_scale s d /\ in_i128 (units d') = true.
Proof.
  unfold rescale_to. destruct (Z.ltb_spec s (scale d)); [done|].
  destruct (checked (10 ^ _)) as [factor|] eqn:E; [|done]. apply checked_some in E as [-> _]. cbn [mbind option_bind].
  destruct (checked (units d * _)) as [units'|] eqn:E'; [|done]. apply checked_some in E' as [-> E'].
  cbn. intros [= <-]. done.
Qed.

(** A decimal keeps its value at a greater scale. *)
Lemma rescale_value d s d' K : rescale_to d s = Some d' -> s <= K -> at_scale K d' = at_scale K d.
Proof.
  intros H HK. apply rescale_spec in H as (Hs & Hle & Hu & _). unfold at_scale at 1. rewrite Hu, Hs. by apply at_scale_change.
Qed.

Lemma aligned_spec d e l r : aligned d e = Some (l, r) ->
  let s := Z.max (scale d) (scale e) in rescale_to d s = Some l /\ rescale_to e s = Some r.
Proof.
  unfold aligned. destruct (rescale_to d _) as [l'|]; [|done]. cbn. destruct (rescale_to e _) as [r'|]; [|done].
  cbn. by intros [= -> ->].
Qed.

Lemma checked_add_spec d e t : checked_add d e = Some t ->
  scale t = Z.max (scale d) (scale e) /\ in_i128 (units t) = true
  /\ forall K, scale t <= K -> at_scale K t = at_scale K d + at_scale K e.
Proof.
  unfold checked_add. destruct (aligned d e) as [[l r]|] eqn:E; [|done]. cbn [mbind option_bind].
  apply aligned_spec in E as [El Er]. destruct (checked _) as [sum|] eqn:Es; [|done].
  apply checked_some in Es as [-> Hs]. cbn. intros [= <-]. cbn.
  pose proof (rescale_spec _ _ _ El) as (Hl & _). pose proof (rescale_spec _ _ _ Er) as (Hr & _).
  split_and!; [done..|]. intros K HK.
  rewrite <- (rescale_value _ _ _ K El), <- (rescale_value _ _ _ K Er) by lia.
  unfold at_scale. cbn. rewrite Hl, Hr. lia.
Qed.

Lemma is_less_than_spec d e b K : is_less_than d e = Some b -> scale d <= K -> scale e <= K ->
  b = (at_scale K d <? at_scale K e).
Proof.
  unfold is_less_than. destruct (aligned d e) as [[l r]|] eqn:E; [|done]. cbn [mbind option_bind].
  apply aligned_spec in E as [El Er]. intros [= <-] Hd He.
  pose proof (rescale_spec _ _ _ El) as (Hl & _). pose proof (rescale_spec _ _ _ Er) as (Hr & _).
  rewrite <- (rescale_value _ _ _ K El), <- (rescale_value _ _ _ K Er) by lia.
  unfold at_scale. rewrite Hl, Hr. symmetry.
  assert (0 < 10 ^ (K - Z.max (scale d) (scale e))) by (apply Z.pow_pos_nonneg; lia).
  destruct (Z.ltb_spec (units l) (units r)); [apply Z.ltb_lt|apply Z.ltb_ge]; nia.
Qed.

(** ** The average *)

Definition round_half_away (x n : Z) : Z := Z.sgn x * ((2 * Z.abs x + n) / (2 * n)).

Lemma quot_rem_round x n : 0 < n ->
  round_half_away x n = Z.quot x n + (if n <=? Z.abs (Z.rem x n * 2) then if x <? 0 then -1 else 1 else 0).
Proof.
  intros Hn. pose proof (Z.quot_rem' x n) as E. unfold round_half_away.
  destruct (Z.ltb_spec x 0) as [Hx|Hx].
  - pose proof (Z.rem_bound_pos (- x) n ltac:(lia) Hn) as Hr. rewrite Z.rem_opp_l in Hr by lia.
    rewrite Z.sgn_neg, Z.abs_neq, (Z.abs_neq (_ * 2)) by lia.
    destruct (Z.leb_spec n (- (Z.rem x n * 2))).
    + replace ((2 * - x + n) / (2 * n)) with (- Z.quot x n + 1); [lia|]. apply Z.div_unique with (2 * - Z.rem x n - n); lia.
    + replace ((2 * - x + n) / (2 * n)) with (- Z.quot x n); [lia|]. apply Z.div_unique with (2 * - Z.rem x n + n); lia.
  - pose proof (Z.rem_bound_pos x n Hx Hn) as Hr.
    rewrite Z.abs_eq, (Z.abs_eq (_ * 2)) by lia.
    destruct (Z.leb_spec n (Z.rem x n * 2)).
    + replace ((2 * x + n) / (2 * n)) with (Z.quot x n + 1) by (apply Z.div_unique with (2 * Z.rem x n - n); lia).
      rewrite Z.sgn_pos; [lia|]. destruct (Z.eq_dec x 0) as [->|]; [|lia]. rewrite Z.rem_0_l in * by lia. lia.
    + replace ((2 * x + n) / (2 * n)) with (Z.quot x n) by (apply Z.div_unique with (2 * Z.rem x n + n); lia).
      destruct (Z.eq_dec x 0) as [->|]; [rewrite Z.quot_0_l by lia; lia|]. rewrite Z.sgn_pos; lia.
Qed.

Lemma checked_div_by_spec d n a : checked_div_by d n = Some a ->
  0 < n /\ scale a = scale d + AVERAGE_EXTRA_SCALE /\ units a = round_half_away (at_scale (scale a) d) n.
Proof.
  unfold checked_div_by. destruct (Z.leb_spec n 0); [done|].
  destruct (checked_u32 _) as [s|] eqn:Es; [|done]. apply checked_u32_some in Es as [-> _]. cbn [mbind option_bind].
  destruct (rescale_to d _) as [scaled|] eqn:Er; [|done]. pose proof (rescale_spec _ _ _ Er) as (_ & _ & Hu & _).
  cbn [mbind option_bind]. destruct (checked (Z.rem _ _ * 2)) as [doubled|] eqn:Ed; [|done].
  apply checked_some in Ed as [-> _]. cbn [mbind option_bind].
  destruct (if n <=? _ then _ else _) as [rounded|] eqn:Eq; [|done]. cbn. intros [= <-]. cbn.
  split_and!; [done..|]. rewrite quot_rem_round by done. rewrite <- Hu.
  destruct (n <=? _); [|injection Eq as <-; lia]. by apply checked_some in Eq as [-> _].
Qed.

(** ** The accumulator *)

Definition total (zs : list Z) : Z := foldr Z.add 0 zs.

Lemma total_snoc zs z : total (zs ++ [z]) = total zs + z.
Proof. induction zs as [|z' zs IH]; cbn; [lia|]. unfold total in IH. lia. Qed.

Definition scales_below (K : Z) (ds : list Decimal) : Prop := Forall (fun d => 0 <= scale d <= K) ds.

(** What the accumulator knows of the decimals it has seen. *)
Record accumulated (ds : list Decimal) (a : NumericAccumulator) : Prop := mkAccumulated {
  sum_scale : forall K, scales_below K ds -> 0 <= scale (sum a) <= K;
  sum_value : forall K, scales_below K ds -> at_scale K (sum a) = total (at_scale K <$> ds);
  minimum_in : minimum a ∈ ds;
  minimum_least : forall K d, scales_below K ds -> d ∈ ds -> at_scale K (minimum a) <= at_scale K d;
  maximum_in : maximum a ∈ ds;
  maximum_greatest : forall K d, scales_below K ds -> d ∈ ds -> at_scale K d <= at_scale K (maximum a)
}.

Lemma accumulated_new d : accumulated [d] (accumulator_new d).
Proof.
  split; cbn.
  - by intros K [? _]%Forall_cons.
  - intros; lia.
  - by left.
  - by intros K e _ ->%list_elem_of_singleton.
  - by left.
  - by intros K e _ ->%list_elem_of_singleton.
Qed.

Lemma scales_below_in K ds d : scales_below K ds -> d ∈ ds -> 0 <= scale d <= K.
Proof. unfold scales_below. rewrite Forall_forall. eauto. Qed.

Lemma accumulated_push ds a d a' : accumulated ds a -> accumulator_push a d = Some a' -> accumulated (ds ++ [d]) a'.
Proof.
  intros [Hss Hsv Hmi Hml Hxi Hxg]. unfold accumulator_push.
  destruct (checked_add (sum a) d) as [s|] eqn:Es; [|done]. cbn [mbind option_bind].
  destruct (is_less_than d _) as [lower|] eqn:El; [|done]. cbn [mbind option_bind].
  destruct (is_less_than _ d) as [higher|] eqn:Eh; [|done]. cbn. intros [= <-].
  apply checked_add_spec in Es as (Hs & _ & Hv).
  assert (forall K, scales_below K (ds ++ [d]) -> scales_below K ds /\ 0 <= scale d <= K) as Hsplit.
  { intros K [H [H' _]%Forall_cons]%Forall_app. done. }
  split; cbn.
  - intros K [H H']%Hsplit. specialize (Hss K H). lia.
  - intros K [H H']%Hsplit. rewrite fmap_app. cbn. rewrite total_snoc, <- Hsv by done. apply Hv.
    specialize (Hss K H). lia.
  - destruct lower; apply elem_of_app; [right|by left]. by left.
  - intros K e [H H']%Hsplit He. pose proof (scales_below_in _ _ _ H Hmi) as Hm.
    apply (is_less_than_spec _ _ _ K) in El; [|lia..]. symmetry in El.
    apply elem_of_app in He as [He| ->%list_elem_of_singleton]; [specialize (Hml K e H He)|];
      (destruct lower; [apply Z.ltb_lt in El|apply Z.ltb_ge in El]; lia).
  - destruct higher; apply elem_of_app; [right|by left]. by left.
  - intros K e [H H']%Hsplit He. pose proof (scales_below_in _ _ _ H Hxi) as Hm.
    apply (is_less_than_spec _ _ _ K) in Eh; [|lia..]. symmetry in Eh.
    apply elem_of_app in He as [He| ->%list_elem_of_singleton]; [specialize (Hxg K e H He)|];
      (destruct higher; [apply Z.ltb_lt in Eh|apply Z.ltb_ge in Eh]; lia).
Qed.

(** ** What always fits *)

(** A decimal that is still in range at scale [K]. *)
Definition small (K : Z) (d : Decimal) : Prop := 0 <= scale d <= K /\ Z.abs (at_scale K d) <= I128_MAX.

Lemma small_scale K s d : small K d -> scale d <= s <= K -> Z.abs (at_scale s d) <= Z.abs (at_scale K d).
Proof.
  intros [_ _] H. rewrite <- (at_scale_change K s d) by lia. rewrite Z.abs_mul.
  assert (0 < 10 ^ (K - s)) by (apply Z.pow_pos_nonneg; lia). rewrite (Z.abs_eq (10 ^ _)) by lia. nia.
Qed.

Lemma rescale_fits K s d : small K d -> K <= 36 -> scale d <= s <= K -> exists d', rescale_to d s = Some d'.
Proof.
  intros Hd HK Hs. pose proof (small_scale K s d Hd Hs) as Hle. destruct Hd as [Hd Hb]. unfold rescale_to.
  destruct (Z.ltb_spec s (scale d)); [lia|]. rewrite checked_fits.
  2: { apply in_i128_spec. assert (0 <= 10 ^ (s - scale d) <= 10 ^ 36) as Hp; [|unfold I128_MIN, I128_MAX; lia].
       split; [apply Z.pow_nonneg; lia|apply Z.pow_le_mono_r; lia]. }
  cbn. rewrite checked_fits; [by eexists|]. apply in_i128_spec. unfold at_scale, I128_MIN, I128_MAX in *. lia.
Qed.

Lemma aligned_fits K d e : small K d -> small K e -> K <= 36 -> exists l r, aligned d e = Some (l, r).
Proof.
  intros Hd He HK. unfold aligned. pose proof Hd as [? _]. pose proof He as [? _].
  destruct (rescale_fits K (Z.max (scale d) (scale e)) d) as [l ->]; [done..|lia|]. cbn.
  destruct (rescale_fits K (Z.max (scale d) (scale e)) e) as [r ->]; [done..|lia|]. by eexists _, _.
Qed.

Lemma add_fits K d e : small K d -> small K e -> K <= 36 -> Z.abs (at_scale K d + at_scale K e) <= I128_MAX ->
  exists t, checked_add d e = Some t.
Proof.
  intros Hd He HK Hsum. destruct (aligned_fits K d e Hd He HK) as (l & r & E). unfold checked_add. rewrite E.
  apply aligned_spec in E as [El Er]. pose proof Hd as [? _]. pose proof He as [? _].
  rewrite <- (rescale_value _ _ _ K El), <- (rescale_value _ _ _ K Er) in Hsum by lia.
  pose proof (rescale_spec _ _ _ El) as (Hl & _). pose proof (rescale_spec _ _ _ Er) as (Hr & _).
  unfold at_scale in Hsum. rewrite Hl, Hr, <- Z.mul_add_distr_r, Z.abs_mul in Hsum.
  assert (0 < 10 ^ (K - Z.max (scale d) (scale e))) by (apply Z.pow_pos_nonneg; lia).
  rewrite (Z.abs_eq (10 ^ _)) in Hsum by lia. cbn. rewrite checked_fits; [by eexists|].
  apply in_i128_spec. unfold I128_MIN, I128_MAX in *. nia.
Qed.

Lemma less_fits K d e : small K d -> small K e -> K <= 36 -> exists b, is_less_than d e = Some b.
Proof.
  intros Hd He HK. destruct (aligned_fits K d e Hd He HK) as (l & r & E). unfold is_less_than. rewrite E. by eexists.
Qed.

(** All of it, whatever is taken together. *)
Definition all_small (K : Z) (ds : list Decimal) : Prop :=
  scales_below K ds /\ total (Z.abs <$> (at_scale K <$> ds)) <= I128_MAX.

Lemma total_abs zs : Z.abs (total zs) <= total (Z.abs <$> zs) /\ forall z, z ∈ zs -> Z.abs z <= total (Z.abs <$> zs).
Proof.
  induction zs as [|z zs [IH IH']]; [split; [done|by intros z ?%not_elem_of_nil]|].
  change (total (Z.abs <$> z :: zs)) with (Z.abs z + total (Z.abs <$> zs)). change (total (z :: zs)) with (z + total zs).
  split; [lia|]. intros z' [->|Hz]%elem_of_cons; [lia|]. specialize (IH' z' Hz). lia.
Qed.

Lemma all_small_in K ds d : all_small K ds -> d ∈ ds -> small K d.
Proof.
  intros [Hs Ht] Hd. split; [by eapply scales_below_in|].
  destruct (total_abs (at_scale K <$> ds)) as [_ H]. etransitivity; [|exact Ht]. apply H. by apply list_elem_of_fmap_2.
Qed.

Lemma sum_small K ds a : all_small K ds -> accumulated ds a -> small K (sum a).
Proof.
  intros [Hs Ht] Ha. split; [by apply (sum_scale _ _ Ha)|]. rewrite (sum_value _ _ Ha) by done.
  destruct (total_abs (at_scale K <$> ds)) as [H _]. lia.
Qed.

Lemma all_small_prefix K ds d : all_small K (ds ++ [d]) -> all_small K ds.
Proof.
  intros [[Hs _]%Forall_app Ht]. split; [done|]. rewrite !fmap_app in Ht. cbn in Ht. rewrite total_snoc in Ht.
  unfold fmap in *. lia.
Qed.

Lemma push_fits K ds a d : K <= 36 -> all_small K (ds ++ [d]) -> accumulated ds a ->
  exists a', accumulator_push a d = Some a'.
Proof.
  intros HK Hall Ha. pose proof (all_small_prefix _ _ _ Hall) as Hds.
  assert (small K d) as Hd by (eapply all_small_in; [exact Hall|]; apply elem_of_app; right; by left).
  pose proof (sum_small _ _ _ Hds Ha) as Hsum. unfold accumulator_push.
  destruct (add_fits K (sum a) d) as [s ->]; [done..| |].
  { rewrite (sum_value _ _ Ha) by apply Hds. rewrite <- total_snoc. destruct Hall as [_ Ht].
    destruct (total_abs (at_scale K <$> (ds ++ [d]))) as [H _]. rewrite fmap_app in H at 1. cbn in H. lia. }
  cbn [mbind option_bind].
  destruct (less_fits K d (minimum a)) as [lower ->]; [done|eapply all_small_in; [exact Hds|apply Ha]|done|].
  cbn [mbind option_bind].
  destruct (less_fits K (maximum a) d) as [higher ->]; [eapply all_small_in; [exact Hds|apply Ha]|done|done|]. by eexists.
Qed.

Lemma quot_rem_small x n : 0 < n -> Z.abs (Z.quot x n) <= Z.abs x /\ Z.abs (Z.rem x n) <= Z.abs x.
Proof.
  intros Hn. assert (forall y, 0 <= y -> 0 <= Z.quot y n <= y /\ 0 <= Z.rem y n <= y) as H.
  { intros y Hy. pose proof (Z.quot_rem' y n). pose proof (Z.rem_bound_pos y n Hy Hn).
    pose proof (Z.quot_pos y n Hy Hn). assert (Z.quot y n <= n * Z.quot y n) by nia. lia. }
  destruct (Z.le_gt_cases 0 x) as [Hx|Hx].
  - specialize (H x Hx). lia.
  - specialize (H (- x) ltac:(lia)). rewrite Z.quot_opp_l, Z.rem_opp_l in H by lia. lia.
Qed.

Lemma div_fits K d n : 0 < n -> K <= 30 -> scale d <= K -> 0 <= scale d ->
  2 * Z.abs (at_scale (K + 6) d) <= I128_MAX -> exists a, checked_div_by d n = Some a.
Proof.
  intros Hn HK Hd Hs0 H2. assert (small (K + 6) d) as Hs by (split; lia).
  unfold checked_div_by. destruct (Z.leb_spec n 0); [lia|].
  unfold AVERAGE_EXTRA_SCALE, checked_u32. rewrite (proj2 (andb_true_iff _ _)); [|rewrite !Z.leb_le; unfold U32_MAX; lia].
  cbn [mbind option_bind]. destruct (rescale_fits (K + 6) (scale d + 6) d) as [scaled E]; [done|lia..|]. rewrite E.
  pose proof (small_scale (K + 6) (scale d + 6) d Hs ltac:(lia)) as Hle.
  apply rescale_spec in E as (_ & _ & E & _). rewrite <- E in Hle. cbn [mbind option_bind].
  destruct (quot_rem_small (units scaled) n Hn) as [Hq Hr].
  generalize dependent (Z.rem (units scaled) n). intros r Hr. generalize dependent (Z.quot (units scaled) n). intros q Hq.
  rewrite (checked_fits (r * 2)) by (apply in_i128_spec; unfold I128_MIN, I128_MAX in *; lia). cbn [mbind option_bind].
  destruct (Z.leb_spec n (Z.abs (r * 2))); [|by eexists].
  rewrite checked_fits; [by eexists|]. apply in_i128_spec. unfold I128_MIN, I128_MAX in *. destruct (units scaled <? 0); lia.
Qed.

(** ** The scan *)

Definition shown (null_text : str) (value : str) : bool := negb (GridSort.value_represents_null value null_text).

(** What the state of the scan says of the values that are not NULL. *)
Definition scanned (values : list str) (s : ScanState) : Prop :=
  count s = length values
  /\ (numeric_failed s = false -> exists ds, Forall2 (fun value d => parse_decimal value = Some d) values ds
        /\ match numeric s with None => ds = [] | Some a => accumulated ds a end).

Lemma scan_step null_text values s value : scanned values s ->
  scanned (if shown null_text value then values ++ [value] else values) (scan_cell null_text s value).
Proof.
  unfold shown, scan_cell. destruct (GridSort.value_represents_null value null_text); [done|]. cbn [negb].
  intros [Hc Hn]. cbn [numeric_failed]. destruct (numeric_failed s) eqn:Ef.
  { split; cbn; [rewrite length_app; cbn; lia|done]. }
  destruct Hn as (ds & Hds & Ha); [done|].
  destruct (parse_decimal value) as [d|] eqn:Ep; [|split; cbn; [rewrite length_app; cbn; lia|done]].
  assert (Forall2 (fun value d => parse_decimal value = Some d) (values ++ [value]) (ds ++ [d])) as Hds'
    by (apply Forall2_app; [done|by repeat constructor]).
  cbn [numeric]. destruct (numeric s) as [a|].
  - destruct (accumulator_push a d) as [a'|] eqn:Eu; (split; cbn; [rewrite length_app; cbn; lia|]); [|done].
    intros _. exists (ds ++ [d]). split; [done|]. by eapply accumulated_push.
  - subst ds. split; cbn; [rewrite length_app; cbn; lia|]. intros _. exists [d]. split; [done|]. apply accumulated_new.
Qed.

Lemma selection_scanned null_text cells :
  scanned (List.filter (shown null_text) cells) (foldl (scan_cell null_text) (mkScan 0 None false) cells).
Proof.
  induction cells as [|value cells IH] using rev_ind.
  - split; [done|]. intros _. by exists [].
  - rewrite foldl_app, List.filter_app. cbn. pose proof (scan_step null_text _ _ value IH) as H.
    destruct (shown null_text value); [done|]. by rewrite app_nil_r.
Qed.

(** Values that fit together are all accumulated. *)
Lemma scan_fits null_text cells K ds : K <= 36 ->
  Forall2 (fun value d => parse_decimal value = Some d) (List.filter (shown null_text) cells) ds -> all_small K ds ->
  numeric_failed (foldl (scan_cell null_text) (mkScan 0 None false) cells) = false.
Proof.
  intros HK. revert ds. induction cells as [|value cells IH] using rev_ind; intros ds; [done|].
  rewrite foldl_app, List.filter_app. cbn. pose proof (selection_scanned null_text cells) as Hscan.
  set (s := foldl _ _ cells) in *. unfold scan_cell, shown at 2.
  destruct (GridSort.value_represents_null value null_text); cbn [negb]; [rewrite app_nil_r; apply IH|].
  intros Hds Hall. apply Forall2_app_inv_l in Hds as (ds' & [|d [|]] & Hds & Hd & ->); inversion Hd; subst.
  2: { match goal with H : Forall2 _ [] _ |- _ => inversion H end. }
  pose proof (all_small_prefix _ _ _ Hall) as Hall'. specialize (IH ds' Hds Hall'). cbn [numeric_failed]. rewrite IH.
  match goal with H : parse_decimal value = _ |- _ => rewrite H end. cbn [numeric].
  destruct Hscan as [_ Hn]. destruct Hn as (es & Hes & Ha); [done|].
  assert (es = ds') as ->.
  { clear -Hes Hds. revert ds' Hds. induction Hes as [|v e vs es Hv _ IH]; intros ds' Hds; inversion Hds; subst; [done|].
    f_equal; [congruence|]. by apply IH. }
  destruct (numeric s) as [a|]; [|done]. destruct (push_fits K ds' a d HK Hall Ha) as [a' ->]. done.
Qed.
