(* ===== verification/SelectionText.v ===== *)
(** * The summary of a selection as text

    The decimal texts of the summary, and that it reports exactly what the selected
    cells add up to. *)
From Stdlib Require Import ZArith.
From stdpp Require Import pretty.
From stdpp Require Import gmap.
From S2P Require Import Prelude RustStr GridSort GridSortSpec GridState RustParse SelectionSummary.

(** * Decimals as the summary reads and shows them

    What the digits of a cell say, that [parse_decimal] reads exactly that, and
    that what is shown is read back as the same number. *)

#[local] Open Scope Z_scope.

Abbreviation value_of s := (Z.of_N (digits_value s)).

(** ** Integers as text *)

Lemma pretty_go_digits x s : is_digits (u s) ->
  is_digits (u (pretty_N_go x s))
  /\ digits_value (u (pretty_N_go x s)) = (x * 10 ^ N.of_nat (length (u s)) + digits_value (u s))%N
  /\ (length (u s) + (if (0 <? x)%N then 1 else 0) <= length (u (pretty_N_go x s)))%nat.
Proof.
  revert s. induction (N.lt_wf_0 x) as [x _ IH]. intros s Hs. destruct (decide (0 < x)%N) as [Hx|Hx].
  - rewrite pretty_N_go_step by done. set (c := pretty_N_char (x `mod` 10)).
    assert (N_of_ascii c = 48 + x `mod` 10)%N as Hc.
    { subst c. pose proof (N.mod_lt x 10 ltac:(lia)) as H. clear -H. unfold pretty_N_char.
      revert H. generalize (x `mod` 10)%N. intros r Hr.
      assert (r = 0 \/ r = 1 \/ r = 2 \/ r = 3 \/ r = 4 \/ r = 5 \/ r = 6 \/ r = 7 \/ r = 8 \/ r = 9)%N as Hcases by lia.
      repeat destruct Hcases as [->|Hcases]; try rewrite Hcases; reflexivity. }
    destruct (IH (x `div` 10)%N) with (s := String c s) as (Hd & Hv & Hl); [by apply N.div_lt| |].
    { rewrite u_cons. apply is_digits_cons. split; [|done]. rewrite Hc.
      pose proof (N.mod_lt x 10 ltac:(lia)) as Hm. clear -Hm. revert Hm. generalize (x `mod` 10)%N. lia. }
    rewrite u_cons in Hv, Hl. rewrite digits_value_cons, Hc in Hv. cbn [length] in Hv, Hl.
    split_and!; [done| |].
    + rewrite Hv, Nat2N.inj_succ, N.pow_succ_r'. pose proof (N.div_mod x 10 ltac:(lia)) as E. rewrite E at 3. clear.
      generalize (x `div` 10)%N (x `mod` 10)%N (10 ^ N.of_nat (length (u s)))%N (digits_value (u s)). intros q r p v.
      replace (48 + r - 48)%N with r by lia. ring.
    + destruct (0 <? x)%N, (0 <? x `div` 10)%N; lia.
  - assert (x = 0%N) as -> by lia. rewrite pretty_N_go_0. split_and!; [done|lia|cbn; lia].
Qed.

Lemma unsigned_text_digits z : 0 <= z ->
  is_digits (unsigned_to_string z) /\ value_of (unsigned_to_string z) = z /\ unsigned_to_string z <> [].
Proof.
  intros Hz. unfold unsigned_to_string. set (x := Z.to_N z).
  change (pretty x) with (if decide (x = 0)%N then "0"%string else pretty_N_go x "").
  destruct (decide (x = 0)%N) as [Hx|Hx]; [split_and!; [done| |done]; change (value_of _) with 0; lia|].
  destruct (pretty_go_digits x "") as (Hd & Hv & Hl); [done|]. split_and!; [done|rewrite Hv; change (u "") with (@nil N); cbn; lia|].
  intros E. rewrite E in Hl. destruct (N.ltb_spec 0 x); cbn in Hl; lia.
Qed.

(** ** Splitting *)

Lemma cell_split_none p s : Forall (fun c => p c = false) s -> split_once p s = None.
Proof. induction 1 as [|c s Hc _ IH]; [done|]. cbn. by rewrite Hc, IH. Qed.

Lemma split_once_at p a c b : Forall (fun c => p c = false) a -> p c = true -> split_once p (a ++ c :: b) = Some (a, b).
Proof. intros Ha Hc. induction Ha as [|x a Hx _ IH]; cbn; [by rewrite Hc|]. by rewrite Hx, IH. Qed.

Lemma split_once_inv p s : match split_once p s with
  | Some (a, b) => exists c, s = a ++ c :: b /\ p c = true
  | None => Forall (fun c => p c = false) s
  end.
Proof.
  induction s as [|c s IH]; [constructor|]. cbn. destruct (p c) eqn:E; [by exists c|].
  destruct (split_once p s) as [[a b]|]; cbn; [|by constructor]. destruct IH as (x & -> & Hx). by exists x.
Qed.

Lemma digits_not (P : char -> bool) s : is_digits s -> (forall c, (48 <= c <= 57)%N -> P c = false) -> Forall (fun c => P c = false) s.
Proof. intros Hs H. apply is_digits_forall in Hs. eapply Forall_impl; [exact Hs|]. exact H. Qed.

Lemma digit_cases c : (48 <= c <= 57)%N -> exists k, (k < 10)%nat /\ c = N.of_nat (48 + k).
Proof. intros H. exists (N.to_nat c - 48)%nat. lia. Qed.

Lemma digits_plain s : is_digits s ->
  Forall (fun c => is_char_of c "eE" = false) s /\ Forall (fun c => N.eqb "."%ch c = false) s
  /\ Forall (fun c => is_whitespace c = false) s.
Proof.
  intros Hs. split_and!; (apply digits_not; [done|]); intros c (k & Hk & ->)%digit_cases;
    do 10 (destruct k as [|k]; [reflexivity|]); lia.
Qed.

(** ** Reading digits *)

Lemma checked_le z : 0 <= z -> checked z = if z <=? I128_MAX then Some z else None.
Proof. intros Hz. unfold checked, in_i128. destruct (Z.leb_spec I128_MIN z); [done|]. unfold I128_MIN in *. lia. Qed.

Lemma read_digits_value s : is_digits s ->
  read_digits s = if value_of s <=? I128_MAX then Some (value_of s) else None.
Proof.
  unfold read_digits. induction s as [|c s IH] using rev_ind; [done|]. intros [Hs Hc]%is_digits_app.
  apply is_digits_cons in Hc as [Hc _]. rewrite foldl_app. cbn [foldl]. rewrite IH by done.
  assert (value_of (s ++ [c]) = value_of s * 10 + (Z.of_N c - 48)) as ->.
  { rewrite cell_digits_value_app, digits_value_cons. change (digits_value []) with 0%N. cbn. lia. }
  unfold push_digit. pose proof (N2Z.is_nonneg (digits_value s)) as Hpos.
  destruct (Z.leb_spec (value_of s) I128_MAX) as [Hle|Hgt]; cbn [mbind option_bind].
  - rewrite (checked_le (_ * 10)) by lia. destruct (Z.leb_spec (value_of s * 10) I128_MAX); cbn [mbind option_bind].
    + rewrite checked_le by lia. done.
    + destruct (Z.leb_spec (value_of s * 10 + (Z.of_N c - 48)) I128_MAX); [lia|done].
  - destruct (Z.leb_spec (value_of s * 10 + (Z.of_N c - 48)) I128_MAX); [|done]. unfold I128_MAX in *. lia.
Qed.

(** ** A plain spelling *)

Definition sign_text (negative : bool) : str := if negative then u "-" else [].

Definition apply_sign (negative : bool) (n : Z) : Z := if negative then - n else n.

Definition plain_text (negative : bool) (integer fraction : str) : str :=
  sign_text negative ++ integer ++ (if str_is_empty fraction then [] else u "." ++ fraction).

Lemma split_sign_text negative digit rest : (48 <= digit <= 57)%N ->
  split_sign (sign_text negative ++ digit :: rest) = (negative, digit :: rest).
Proof.
  intros (k & Hk & ->)%digit_cases. destruct negative; [done|]. cbn [sign_text app].
  do 10 (destruct k as [|k]; [reflexivity|]). lia.
Qed.

Lemma digits_only_of s : is_digits s -> digits_only s = true.
Proof. done. Qed.

Lemma parse_plain negative integer fraction :
  is_digits integer -> is_digits fraction -> integer <> [] -> (length fraction <= 30)%nat ->
  value_of (integer ++ fraction) <= I128_MAX ->
  parse_decimal (plain_text negative integer fraction)
  = Some (mkDecimal (apply_sign negative (value_of (integer ++ fraction))) (Z.of_nat (length fraction))).
Proof.
  intros Hi Hf Hne Hlen Hv. pose proof (digits_plain _ Hi) as (Ei & Pi & Wi). pose proof (digits_plain _ Hf) as (Ef & Pf & Wf).
  unfold parse_decimal, plain_text. set (body := integer ++ _).
  assert (trim (sign_text negative ++ body) = sign_text negative ++ body) as ->.
  { apply trim_plain, Forall_app. split; [by destruct negative; repeat constructor|]. apply Forall_app. split; [done|].
    destruct (str_is_empty fraction); [constructor|]. by constructor. }
  assert (split_sign (sign_text negative ++ body) = (negative, body)) as ->.
  { unfold body. destruct integer as [|digit rest]; [done|]. apply is_digits_cons in Hi as [Hd _]. by apply split_sign_text. }
  rewrite cell_split_none.
  2: { apply Forall_app. split; [done|]. destruct (str_is_empty fraction); [constructor|]. by constructor. }
  cbn [mbind option_bind].
  assert (default (body, []) (split_once (N.eqb "."%ch) body) = (integer, fraction)) as ->.
  { unfold body. destruct fraction as [|f fraction]; cbn [str_is_empty].
    - by rewrite app_nil_r, cell_split_none.
    - change (u "." ++ f :: fraction) with ("."%ch :: f :: fraction). by rewrite split_once_at. }
  assert (str_is_empty integer = false) as -> by by destruct integer. cbn [andb].
  rewrite (digits_only_of _ Hi), (digits_only_of _ Hf). cbn [negb orb].
  rewrite read_digits_value by by apply is_digits_app. apply Z.leb_le in Hv as Hv'. rewrite Hv'. cbn [mbind option_bind].
  pose proof (N2Z.is_nonneg (digits_value (integer ++ fraction))) as Hpos. unfold apply_sign.
  assert ((if negative then checked (- value_of (integer ++ fraction)) else Some (value_of (integer ++ fraction)))
          = Some (if negative then - value_of (integer ++ fraction) else value_of (integer ++ fraction))) as ->.
  { destruct negative; [|done]. apply checked_fits, in_i128_spec. unfold I128_MIN, I128_MAX in *. lia. }
  cbn [mbind option_bind]. unfold checked_u32. rewrite (proj2 (andb_true_iff _ _)) by (rewrite !Z.leb_le; unfold U32_MAX; lia).
  cbn [mbind option_bind scale]. destruct (Z.ltb_spec MAX_SCALE (Z.of_nat (length fraction))); [unfold MAX_SCALE in *; lia|done].
Qed.

(** ** What is shown *)

Lemma trim_end_zeros_spec s : exists k, s = trim_end_zeros s ++ replicate k "0"%ch.
Proof.
  unfold trim_end_zeros. assert (forall t, exists k, t = replicate k "0"%ch ++ trim_start_zeros t) as H.
  { induction t as [|c t [k IH]]; [by exists 0%nat|]. cbn [trim_start_zeros]. destruct (N.eqb_spec c "0"%ch) as [->|_].
    - exists (S k). cbn. by f_equal.
    - by exists 0%nat. }
  destruct (H (reverse s)) as [k E]. exists k.
  apply (f_equal reverse) in E. by rewrite reverse_involutive, reverse_app, reverse_replicate in E.
Qed.

Lemma display_plain d : decimal_ok d -> exists integer fraction k,
  to_display_string d = plain_text (units d <? 0) integer fraction
  /\ is_digits integer /\ is_digits fraction /\ integer <> []
  /\ Z.of_nat (length fraction + k) = scale d
  /\ value_of (integer ++ fraction) * 10 ^ Z.of_nat k = Z.abs (units d).
Proof.
  intros [Hrange Hscale]. unfold to_display_string, plain_text.
  destruct (unsigned_text_digits (Z.abs (units d)) ltac:(lia)) as (Hd & Hv & Hne). set (digits := unsigned_to_string _) in *.
  destruct (Z.eqb_spec (scale d) 0) as [Hz|Hz].
  { exists digits, [], 0%nat. unfold signed_to_string. fold digits. rewrite !app_nil_r.
    split_and!; [by destruct (units d <? 0)|done..|cbn; lia|rewrite Hv; cbn; lia]. }
  set (s := Z.to_nat (scale d)). set (parts := if (s <? length digits)%nat then _ else _).
  assert (exists ip fp, parts = (ip, fp) /\ is_digits ip /\ is_digits fp /\ ip <> [] /\ length fp = s
          /\ value_of (ip ++ fp) = Z.abs (units d)) as (ip & fp & -> & Hip & Hfp & Hipne & Hlen & Hval).
  { unfold parts. destruct (Nat.ltb_spec s (length digits)) as [Hlt|Hge].
    - eexists _, _. split; [done|]. rewrite <- (take_drop (length digits - s) digits) in Hd at 1.
      apply is_digits_app in Hd as [? ?]. split_and!; [done..| | |by rewrite take_drop].
      + intros E. apply (f_equal length) in E. rewrite length_take in E. cbn in E. lia.
      + rewrite length_drop. lia.
    - eexists _, _. split; [done|]. split_and!; [done| |done| |].
      + apply is_digits_app. split; [apply is_digits_zeros|done].
      + rewrite length_app, length_replicate. lia.
      + rewrite <- Hv. f_equal. rewrite app_assoc.
        change (u "0" ++ replicate (s - length digits) "0"%ch) with (replicate (S (s - length digits)) "0"%ch).
        rewrite cell_digits_value_app, cell_digits_value_zeros. lia. }
  destruct (trim_end_zeros_spec fp) as [k Ek]. set (t := trim_end_zeros fp) in *. exists ip, t, k.
  assert (is_digits t) as Ht by (rewrite Ek in Hfp; by apply is_digits_app in Hfp as [? _]).
  assert (value_of (ip ++ t) * 10 ^ Z.of_nat k = Z.abs (units d)) as Hexact.
  { rewrite <- Hval, Ek, app_assoc, (cell_digits_value_app (ip ++ t)), cell_digits_value_zeros, length_replicate.
    rewrite N.add_0_r, N2Z.inj_mul, N2Z.inj_pow, nat_N_Z. done. }
  split_and!; [|done..| |done].
  2: { rewrite Ek, length_app, length_replicate in Hlen. unfold s in Hlen. lia. }
  assert ((if (units d <? 0) && (negb (ip == u "0") || negb (str_is_empty t)) then u "-" else []) = sign_text (units d <? 0)) as ->.
  { destruct (Z.ltb_spec (units d) 0) as [Hneg|]; [|done]. cbn [andb]. destruct (bool_decide_reflect (ip = u "0")) as [->|]; [|done].
    destruct t as [|c t]; [|done]. change (value_of (u "0" ++ [])) with 0 in Hexact. lia. }
  destruct (str_is_empty t); [by rewrite app_nil_r|done].
Qed.

(** ** What is read *)

Definition sign_spelled (sign : str) (negative : bool) : Prop :=
  (sign = u "-" /\ negative = true) \/ ((sign = u "+" \/ sign = []) /\ negative = false).

Definition exponent_spelled (tail : str) (e : Z) : Prop :=
  (tail = [] /\ e = 0)
  \/ exists mark sign digits negative, tail = mark :: sign ++ digits /\ is_char_of mark "eE" = true
     /\ sign_spelled sign negative /\ is_digits digits /\ digits <> [] /\ e = apply_sign negative (value_of digits).

(** A sign, digits with a point among them, and an exponent. *)
Definition spells (text : str) (negative : bool) (integer fraction : str) (e : Z) : Prop :=
  exists sign point tail, text = sign ++ integer ++ point ++ fraction ++ tail
  /\ sign_spelled sign negative /\ (point = u "." \/ (point = [] /\ fraction = []))
  /\ exponent_spelled tail e.

Lemma split_sign_spelled text negative rest : split_sign text = (negative, rest) ->
  exists sign, text = sign ++ rest /\ sign_spelled sign negative.
Proof.
  unfold split_sign, sign_spelled. destruct text as [|ch text]; [intros [= <- <-]; exists []; by auto|].
  destruct (N.eqb_spec ch "-"%ch) as [->|]; [intros [= <- <-]; exists (u "-"); by auto|].
  destruct (N.eqb_spec ch "+"%ch) as [->|]; [intros [= <- <-]; exists (u "+"); by auto|].
  intros [= <- <-]. exists []. by auto.
Qed.

Lemma parse_exponent_spelled mark text e : is_char_of mark "eE" = true -> parse_exponent text = Some e ->
  exponent_spelled (mark :: text) e /\ Z.abs e <= I32_MAX.
Proof.
  intros Hmark. unfold parse_exponent. destruct (split_sign text) as [negative digits] eqn:E.
  apply split_sign_spelled in E as (sign & -> & Hs). destruct (str_is_empty digits) eqn:Hne; [done|].
  destruct (digits_only digits) eqn:Hd; [|done]. cbn [negb orb]. unfold parse_unsigned.
  assert (match digits with c :: rest => if N.eqb c "+"%ch then rest else digits | [] => digits end = digits) as ->.
  { destruct digits as [|c digits]; [done|]. apply is_digits_cons in Hd as [Hc _].
    destruct (N.eqb_spec c "+"%ch) as [->|]; [|done]. lia. }
  rewrite Hne, Hd. cbn [negb orb]. destruct (Z.leb_spec (value_of digits) I32_MAX); [|done]. cbn. intros [= <-].
  split; [|destruct negative; lia]. right. exists mark, sign, digits, negative.
  split_and!; [done..| |by destruct negative]. intros ->. done.
Qed.

Lemma apply_exponent_spec d e d' : decimal_ok d -> apply_exponent d e = Some d' ->
  decimal_ok d' /\ scale d' = Z.max 0 (scale d - e)
  /\ forall K, scale d' <= K -> at_scale K d' = units d * 10 ^ (K + e - scale d).
Proof.
  intros [Hr Hs]. unfold apply_exponent, at_scale. destruct (Z.eqb_spec e 0) as [->|He].
  { intros [= <-]. split_and!; [done..|lia|]. intros K _. do 2 f_equal. lia. }
  destruct (Z.ltb_spec 0 e) as [Hp|Hn].
  - destruct (Z.eqb_spec (e - Z.min e (scale d)) 0).
    + intros [= <-]. cbn. split_and!; [split; [done|cbn; lia]|lia|]. intros K _. do 2 f_equal. lia.
    + destruct (checked (10 ^ _)) as [f|] eqn:Ef; [|done]. apply checked_some in Ef as [-> _]. cbn [mbind option_bind].
      destruct (checked (units d * _)) as [x|] eqn:Ex; [|done]. apply checked_some in Ex as [-> Hx]. cbn.
      intros [= <-]. cbn. split_and!; [split; [done|cbn; lia]|lia|]. intros K HK.
      rewrite <- Z.mul_assoc, <- Z.pow_add_r by lia. do 2 f_equal. lia.
  - destruct (checked_u32 _) as [s|] eqn:Es; [|done]. apply checked_u32_some in Es as [-> Hb]. cbn. intros [= <-]. cbn.
    split_and!; [split; [done|cbn; lia]|lia|]. intros K HK. do 2 f_equal. lia.
Qed.

(** A text that is read as a decimal spells one, and the decimal is exactly what
    it spells. *)
Lemma parse_decimal_spec value d : parse_decimal value = Some d ->
  decimal_ok d /\ scale d <= MAX_SCALE
  /\ exists negative integer fraction e, spells (trim value) negative integer fraction e
  /\ is_digits (integer ++ fraction) /\ integer ++ fraction <> []
  /\ scale d = Z.max 0 (Z.of_nat (length fraction) - e)
  /\ at_scale MAX_SCALE d = apply_sign negative (value_of (integer ++ fraction)) * 10 ^ (MAX_SCALE + e - Z.of_nat (length fraction)).
Proof.
  unfold parse_decimal. destruct (split_sign (trim value)) as [negative text] eqn:Esign.
  apply split_sign_spelled in Esign as (sign & -> & Hsign).
  set (halves := match split_once _ text with Some _ => _ | None => _ end).
  destruct halves as [[mantissa exponent]|] eqn:Eh; [|done]. cbn [mbind option_bind].
  assert (exists tail, text = mantissa ++ tail /\ exponent_spelled tail (default 0 exponent)
          /\ Z.abs (default 0 exponent) <= I32_MAX) as (tail & -> & Htail & Hsmall).
  { unfold halves in Eh. pose proof (split_once_inv (fun ch => is_char_of ch "eE") text) as Hinv.
    destruct (split_once _ text) as [[a b]|].
    - destruct Hinv as (mark & -> & Hmark). destruct (parse_exponent b) as [e|] eqn:Ee; [|done]. injection Eh as <- <-.
      destruct (parse_exponent_spelled mark b e Hmark Ee). by exists (mark :: b).
    - injection Eh as <- <-. exists []. rewrite app_nil_r. split_and!; [done|by left|done]. }
  clear halves Eh. set (parts := default _ _). destruct parts as [integer fraction] eqn:Ep.
  assert (exists point, mantissa = integer ++ point ++ fraction /\ (point = u "." \/ (point = [] /\ fraction = [])))
    as (point & -> & Hpoint).
  { unfold parts in Ep. pose proof (split_once_inv (N.eqb "."%ch) mantissa) as Hinv.
    destruct (split_once _ mantissa) as [[a b]|]; cbn in Ep; injection Ep as <- <-.
    - destruct Hinv as (c & -> & <-%N.eqb_eq). exists (u "."). by auto.
    - exists []. rewrite !app_nil_r. by auto. }
  clear parts Ep. destruct (str_is_empty integer && str_is_empty fraction) eqn:Hne; [done|].
  destruct (digits_only integer) eqn:Hi; [|done]. destruct (digits_only fraction) eqn:Hf; [|done]. cbn [negb orb].
  assert (is_digits (integer ++ fraction)) as Hd by by apply is_digits_app. rewrite read_digits_value by done.
  destruct (Z.leb_spec (value_of (integer ++ fraction)) I128_MAX) as [Hv|]; [|done]. cbn [mbind option_bind].
  destruct (if negative then _ else _) as [n|] eqn:En; [|done].
  assert (n = apply_sign negative (value_of (integer ++ fraction)) /\ in_i128 n = true) as [-> Hn].
  { pose proof (N2Z.is_nonneg (digits_value (integer ++ fraction))). destruct negative; [by apply checked_some in En as [-> ?]|].
    injection En as <-. split; [done|]. apply in_i128_spec. unfold I128_MIN in *. lia. }
  cbn [mbind option_bind]. destruct (checked_u32 _) as [s|] eqn:Es; [|done]. apply checked_u32_some in Es as [-> _].
  cbn [mbind option_bind]. set (d0 := mkDecimal _ _). assert (decimal_ok d0) as Hd0 by (split; [done|cbn; lia]).
  destruct (match exponent with Some _ => _ | None => _ end) as [d'|] eqn:Ed; [|done]. cbn [mbind option_bind].
  destruct (Z.ltb_spec MAX_SCALE (scale d')) as [|Hmax]; [done|]. intros [= <-].
  assert (apply_exponent d0 (default 0 exponent) = Some d') as Ed'.
  { destruct exponent; [done|]. injection Ed as <-. done. }
  apply apply_exponent_spec in Ed' as (Hok & Hscale & Hvalue); [|done]. split; [exact Hok|]. split; [exact Hmax|].
  exists negative, integer, fraction, (default 0 exponent). split_and!; [|done| |done|by apply Hvalue].
  - exists sign, point, tail. by rewrite <- !app_assoc.
  - intros E%app_eq_nil. destruct E as [-> ->]. done.
Qed.

#[local] Close Scope Z_scope.

(** * What the selection summary promises

    The theorems on [SelectionSummary]: what is reported is exact, it is reported
    whenever it fits in the range, a cell counts as the number it spells, and a
    number that is shown is read back. *)

#[local] Open Scope Z_scope.

(** ** The cells of a selection *)

Definition shown_columns (col_start col_end : nat) (hidden_col : HiddenColumns) : list nat :=
  List.filter (fun col => negb (contains hidden_col col)) (seq col_start (S col_end - col_start)).

(** Row by row, the columns that are not hidden, where there is a cell. *)
Definition selected_cells (rows : list (list str)) (bounds : nat * nat * nat * nat) (hidden_col : HiddenColumns) : list str :=
  let '(row_start, col_start, row_end, col_end) := bounds in
  r ← seq row_start (S row_end - row_start);
  omap (fun c => row ← rows !! r; row !! c) (shown_columns col_start col_end hidden_col).

Definition selected_size (bounds : nat * nat * nat * nat) (hidden_col : HiddenColumns) : nat :=
  let '(row_start, col_start, row_end, col_end) := bounds in
  ((S row_end - row_start) * length (shown_columns col_start col_end hidden_col))%nat.

Lemma slice_omap {A} i j (l : list A) : slice i j l = omap (fun k => l !! k) (seq i (j - i)).
Proof.
  remember (j - i)%nat as n eqn:En. revert i j En. induction n as [|n IH]; intros i j En.
  - apply slice_nil. lia.
  - cbn [seq omap list_omap]. change (list_omap _ _ (fun k => l !! k) (seq (S i) n)) with (omap (fun k => l !! k) (seq (S i) n)).
    rewrite <- (IH (S i) j) by lia. destruct (l !! i) as [x|] eqn:Ex.
    + unfold slice. rewrite (drop_S _ x); [done|]. rewrite lookup_take_lt by lia. done.
    + apply lookup_ge_None in Ex. by rewrite !slice_nil by lia.
Qed.

Lemma visible_cells_spec col_start col_end hidden_col row :
  visible_cells col_start col_end hidden_col row = omap (fun c => row !! c) (shown_columns col_start col_end hidden_col).
Proof.
  unfold visible_cells, shown_columns. rewrite slice_omap.
  induction (seq col_start _) as [|c cols IH]; [done|]. cbn [omap list_omap].
  rewrite list_lookup_imap. destruct (row !! c) as [x|] eqn:Ex; cbn.
  - destruct (contains hidden_col c); cbn; [exact IH|]. rewrite Ex. f_equal. exact IH.
  - destruct (contains hidden_col c); cbn; [exact IH|]. rewrite Ex. exact IH.
Qed.

Lemma scan_rows_cells rows bounds hidden_col null_text :
  scan_rows rows bounds hidden_col null_text = foldl (scan_cell null_text) (mkScan 0 None false) (selected_cells rows bounds hidden_col).
Proof.
  destruct bounds as [[[row_start col_start] row_end] col_end]. unfold scan_rows, selected_cells. rewrite slice_omap.
  generalize (mkScan 0 None false). induction (seq row_start _) as [|r rs IH]; intros s; [done|]. cbn [omap list_omap mbind list_bind].
  rewrite foldl_app. destruct (rows !! r) as [row|] eqn:Er; cbn [foldl mbind option_bind].
  - rewrite visible_cells_spec. apply IH.
  - assert (omap (fun _ => @None str) (shown_columns col_start col_end hidden_col) = []) as ->; [|apply IH].
    clear. induction (shown_columns _ _ _) as [|c cs IHc]; [done|exact IHc].
Qed.

(** ** Theorems *)

Definition reads (value : str) (d : Decimal) : Prop := parse_decimal value = Some d.

(** In units of [10^-36] every decimal of a summary is an integer. *)
Abbreviation fixed := (at_scale 36).

Lemma reads_scales values ds : Forall2 reads values ds -> scales_below MAX_SCALE ds.
Proof.
  induction 1 as [|value d values ds H _ IH]; [constructor|]. constructor; [|done].
  apply parse_decimal_spec in H as ([_ ?] & ? & _). done.
Qed.

Lemma scales_below_le K K' ds : K <= K' -> scales_below K ds -> scales_below K' ds.
Proof. intros H Hds. eapply Forall_impl; [exact Hds|]. cbn. lia. Qed.

(** C15. The summary is exact.  A count is the number of selected cells that are shown
    and not NULL; when numbers are reported all of these are decimals, the sum is
    theirs, the minimum and the maximum are the least and the greatest of them, and
    the average is the sum over the count, rounded at six more digits than the sum
    has, halves away from zero. *)
Theorem summary_is_exact rows bounds hidden_col null_text summary :
  summarize_selection rows bounds hidden_col null_text = Some summary ->
  let values := List.filter (shown null_text) (selected_cells rows bounds hidden_col) in
  match summary with
  | Summary_CellsOnly cells => cells = selected_size bounds hidden_col /\ MAX_SCANNED_CELLS < Z.of_nat cells
  | Summary_Count count => count = length values
  | Summary_Numeric count sum average minimum maximum =>
      count = length values /\ exists ds total_d average_d least greatest,
      Forall2 reads values ds
      /\ sum = to_display_string total_d /\ fixed total_d = total (fixed <$> ds)
      /\ minimum = to_display_string least /\ least ∈ ds /\ (forall d, d ∈ ds -> fixed least <= fixed d)
      /\ maximum = to_display_string greatest /\ greatest ∈ ds /\ (forall d, d ∈ ds -> fixed d <= fixed greatest)
      /\ average = to_display_string average_d /\ scale average_d = scale total_d + AVERAGE_EXTRA_SCALE
      /\ units average_d = round_half_away (at_scale (scale average_d) total_d) (Z.of_nat count)
  end.
Proof.
  destruct bounds as [[[row_start col_start] row_end] col_end]. unfold summarize_selection.
  destruct (_ || _); [done|]. fold (shown_columns col_start col_end hidden_col).
  destruct (length _ =? 0)%nat; [done|]. destruct (_ * _ <=? 1)%nat; [done|].
  destruct (Z.ltb_spec MAX_SCANNED_CELLS (Z.of_nat ((S row_end - row_start) * length (shown_columns col_start col_end hidden_col)))).
  { intros [= <-]. done. }
  rewrite scan_rows_cells. set (cells := selected_cells _ _ _). intros [= <-].
  set (values := List.filter (shown null_text) cells).
  destruct (selection_scanned null_text cells) as [Hc Hn]. fold values in Hc, Hn. set (s := foldl _ _ cells) in *.
  unfold finish_summary. destruct (Nat.eqb_spec (count s) 0); [congruence|].
  destruct (numeric_failed s) eqn:Ef; [done|]. destruct Hn as (ds & Hds & Ha); [done|].
  destruct (numeric s) as [a|]; [|done].
  destruct (checked_div_by _ _) as [average|] eqn:Eavg; [|done]. apply checked_div_by_spec in Eavg as (_ & Hs & Hu).
  split; [done|]. exists ds, (sum a), average, (minimum a), (maximum a).
  assert (scales_below 36 ds) as Hb by (eapply scales_below_le; [|by eapply reads_scales]; unfold MAX_SCALE; lia).
  split_and!; [done|done|by apply (sum_value _ _ Ha)|done|apply Ha|..].
  - intros d Hd. by apply (minimum_least _ _ Ha).
  - done.
  - apply Ha.
  - intros d Hd. by apply (maximum_greatest _ _ Ha).
  - done.
  - done.
  - done.
Qed.

(** C27. Nothing is left out without need: when every shown value is a decimal of at
    most [K] digits behind the point and all of them together, in units of
    [10^-(K+6)], stay below half of the range, the numbers are reported. *)
Theorem summary_reports_what_fits rows bounds hidden_col null_text ds K :
  let '(row_start, col_start, row_end, col_end) := bounds in
  (row_start <= row_end)%nat -> (col_start <= col_end)%nat ->
  (1 < selected_size bounds hidden_col)%nat -> Z.of_nat (selected_size bounds hidden_col) <= MAX_SCANNED_CELLS ->
  let values := List.filter (shown null_text) (selected_cells rows bounds hidden_col) in
  values <> [] -> Forall2 reads values ds ->
  K <= MAX_SCALE -> scales_below K ds -> 2 * 10 ^ 6 * total (Z.abs <$> (at_scale K <$> ds)) <= I128_MAX ->
  exists sum average minimum maximum,
    summarize_selection rows bounds hidden_col null_text = Some (Summary_Numeric (length values) sum average minimum maximum).
Proof.
  destruct bounds as [[[row_start col_start] row_end] col_end].
  intros Hrow Hcol Hsize Hmax values Hne Hds HK Hscales Htotal.
  assert (0 <= total (Z.abs <$> (at_scale K <$> ds))) as Hpos.
  { destruct (total_abs (at_scale K <$> ds)) as [H _]. lia. }
  assert (all_small K ds) as Hsmall by (split; [done|lia]).
  unfold summarize_selection. fold (shown_columns col_start col_end hidden_col). unfold selected_size in *.
  destruct (Nat.ltb_spec row_end row_start); [lia|]. destruct (Nat.ltb_spec col_end col_start); [lia|]. cbn [orb].
  destruct (Nat.eqb_spec (length (shown_columns col_start col_end hidden_col)) 0); [lia|].
  destruct (Nat.leb_spec ((S row_end - row_start) * length (shown_columns col_start col_end hidden_col)) 1); [lia|].
  destruct (Z.ltb_spec MAX_SCANNED_CELLS (Z.of_nat ((S row_end - row_start) * length (shown_columns col_start col_end hidden_col)))); [lia|].
  rewrite scan_rows_cells. set (cells := selected_cells _ _ _) in *.
  assert (K <= 36) as HK' by (unfold MAX_SCALE in *; lia).
  pose proof (scan_fits null_text cells K ds HK' Hds Hsmall) as Hok. destruct (selection_scanned null_text cells) as [Hc Hn].
  fold values in Hc, Hn. set (s := foldl _ _ cells) in *. destruct (Hn Hok) as (es & Hes & Ha).
  assert (es = ds) as ->.
  { clear -Hes Hds. unfold reads in Hds. fold values in Hds. revert ds Hds. induction Hes as [|v e vs es Hv _ IH]; intros ds Hds;
      inversion Hds; subst; [done|]. f_equal; [congruence|by apply IH]. }
  unfold finish_summary. rewrite Hok, Hc. destruct (Nat.eqb_spec (length values) 0) as [E|_]; [by destruct values|].
  destruct (numeric s) as [a|]; [|subst ds; by inversion Hds].
  destruct (div_fits K (sum a) (Z.of_nat (length values))) as [average ->]; [by destruct values; cbn; [|lia]|done| | | |by eexists _, _, _, _].
  - by apply (sum_scale _ _ Ha).
  - by apply (sum_scale _ _ Ha K).
  - pose proof (sum_scale _ _ Ha K Hscales) as Hss.
    rewrite <- (at_scale_change (K + 6) K) by lia. rewrite (sum_value _ _ Ha) by done.
    replace (K + 6 - K) with 6 by lia. rewrite Z.abs_mul. destruct (total_abs (at_scale K <$> ds)) as [H' _]. lia.
Qed.

(** A cell that is read as a number spells one, sign, digits around a point and an
    exponent, and the decimal is exactly the number it spells. *)
Theorem cell_is_the_number_it_spells value d :
  parse_decimal value = Some d ->
  exists negative integer fraction e, spells (trim value) negative integer fraction e
  /\ is_digits (integer ++ fraction) /\ integer ++ fraction <> []
  /\ in_i128 (units d) = true /\ 0 <= scale d <= MAX_SCALE
  /\ at_scale MAX_SCALE d = apply_sign negative (value_of (integer ++ fraction)) * 10 ^ (MAX_SCALE + e - Z.of_nat (length fraction)).
Proof.
  intros H. apply parse_decimal_spec in H as ([Hr Hs] & Hm & negative & integer & fraction & e & ? & ? & ? & _ & ?).
  exists negative, integer, fraction, e. by split_and!.
Qed.

(** A number the summary shows is read back by it as the same number, in no more
    digits behind the point, unless it is the least integer of 128 bits, whose
    digits are out of range. *)
Theorem shown_number_reads_back d :
  decimal_ok d -> scale d <= MAX_SCALE -> units d <> I128_MIN ->
  exists d', parse_decimal (to_display_string d) = Some d' /\ scale d' <= scale d /\ at_scale (scale d) d' = units d.
Proof.
  intros Hok Hscale Hmin. destruct (display_plain d Hok) as (integer & fraction & k & -> & Hi & Hf & Hne & Hlen & Hval).
  destruct Hok as [Hr%in_i128_spec Hs]. assert (1 <= 10 ^ Z.of_nat k) as Hk by (pose proof (Z.pow_pos_nonneg 10 (Z.of_nat k)); lia).
  pose proof (N2Z.is_nonneg (GridSort.digits_value (integer ++ fraction))) as Hpos.
  rewrite parse_plain; [|done|done|done|unfold MAX_SCALE in *; lia|].
  2: { unfold I128_MIN, I128_MAX in *. nia. }
  eexists. split; [done|]. cbn [scale units]. split; [lia|]. unfold at_scale. cbn [scale units].
  replace (scale d - Z.of_nat (length fraction)) with (Z.of_nat k) by lia. unfold apply_sign.
  destruct (Z.ltb_spec (units d) 0); nia.
Qed.

(** ** Concrete selections *)

Definition sample_rows : list (list str) := [[u "0.1"; u "x"; u "0.2"]; [u "-1.5e1"; u "y"; u "NULL"]].
Definition sample_hidden : HiddenColumns := mkHidden None {[1%nat]}.
Definition sample_bounds : nat * nat * nat * nat := (0, 0, 1, 2)%nat.
Definition sample_decimals : list Decimal := [mkDecimal 1 1; mkDecimal 2 1; mkDecimal (-15) 0].

Lemma sample_values : List.filter (shown (u "NULL")) (selected_cells sample_rows sample_bounds sample_hidden)
  = [u "0.1"; u "0.2"; u "-1.5e1"].
Proof. vm_compute. reflexivity. Defined.

Lemma summary_is_exact_witness :
  3%nat = length (List.filter (shown (u "NULL")) (selected_cells sample_rows sample_bounds sample_hidden))
  /\ exists ds total_d average_d least greatest,
  Forall2 reads (List.filter (shown (u "NULL")) (selected_cells sample_rows sample_bounds sample_hidden)) ds
  /\ u "-14.7" = to_display_string total_d /\ fixed total_d = total (fixed <$> ds)
  /\ u "-15" = to_display_string least /\ least ∈ ds /\ (forall d, d ∈ ds -> fixed least <= fixed d)
  /\ u "0.2" = to_display_string greatest /\ greatest ∈ ds /\ (forall d, d ∈ ds -> fixed d <= fixed greatest)
  /\ u "-4.9" = to_display_string average_d /\ scale average_d = scale total_d + AVERAGE_EXTRA_SCALE
  /\ units average_d = round_half_away (at_scale (scale average_d) total_d) 3.
Proof.
  apply (summary_is_exact sample_rows sample_bounds sample_hidden (u "NULL")
           (Summary_Numeric 3 (u "-14.7") (u "-4.9") (u "-15") (u "0.2"))).
  vm_compute. reflexivity.
Defined.

Lemma summary_reports_what_fits_witness :
  exists sum average minimum maximum,
    summarize_selection sample_rows sample_bounds sample_hidden (u "NULL")
    = Some (Summary_Numeric (length (List.filter (shown (u "NULL")) (selected_cells sample_rows sample_bounds sample_hidden)))
              sum average minimum maximum).
Proof.
  apply (summary_reports_what_fits sample_rows sample_bounds sample_hidden (u "NULL") sample_decimals 1).
  - lia.
  - lia.
  - vm_compute. lia.
  - vm_compute. discriminate.
  - by rewrite sample_values.
  - rewrite sample_values. repeat constructor.
  - vm_compute. discriminate.
  - repeat constructor; vm_compute; discriminate.
  - vm_compute. discriminate.
Defined.

Lemma cell_is_the_number_it_spells_witness :
  exists negative integer fraction e, spells (trim (u " -1.25E3 ")) negative integer fraction e
  /\ is_digits (integer ++ fraction) /\ integer ++ fraction <> []
  /\ in_i128 (-1250) = true /\ 0 <= 0 <= MAX_SCALE
  /\ at_scale MAX_SCALE (mkDecimal (-1250) 0)
     = apply_sign negative (value_of (integer ++ fraction)) * 10 ^ (MAX_SCALE + e - Z.of_nat (length fraction)).
Proof. apply (cell_is_the_number_it_spells (u " -1.25E3 ") (mkDecimal (-1250) 0)). vm_compute. reflexivity. Defined.

Lemma shown_number_reads_back_witness :
  exists d', parse_decimal (u "-12.3") = Some d' /\ scale d' <= 3 /\ at_scale 3 d' = -12300.
Proof.
  apply (shown_number_reads_back (mkDecimal (-12300) 3)).
  - split; vm_compute; [reflexivity|discriminate].
  - vm_compute. discriminate.
  - vm_compute. discriminate.
Defined.
