(* ===== verification/FsAtomic.v ===== *)
(** * Atomic file writes

    [utils/fs_atomic.rs] over a model of a directory: what a reader finds after a
    write, a failure or a crash. *)
From stdpp Require Import gmap.
From S2P Require Import Prelude RustStr Utf8 FindText GridSort RustParse.

(** * Writing a file without destroying what was there

    [utils/fs_atomic.rs].  The calls to [std::fs] are functions on a directory that
    may each succeed or fail; a crash loses what was not synced and may come before
    the directory's last changes were written.  Links are not modelled: a name
    stands for a file. *)

(** ** Names *)

Definition MAX_FILE_NAME_BYTES : nat := 255.

(** A directory and, unless the path ends in [..] or is a root, a file name. *)
Record Path := mkPath { dir : str; file_name : option str }.

Definition with_file_name (path : Path) (name : str) : Path := mkPath (dir path) (Some name).

(** [truncate] of a position that was looked for cannot panic. *)
Definition temporary_name (stem suffix : str) : str :=
  let room := MAX_FILE_NAME_BYTES - utf8_len suffix in
  let stem := if room <? utf8_len stem then default stem (truncate (previous_boundary stem room) stem) else stem in
  stem ++ suffix.

(** The process id and the nanoseconds of the clock are arguments. *)
Definition temporary_path_for (process_id unique : nat) (path : Path) : Path :=
  let suffix := u ".tmp." ++ to_decimal process_id ++ u "." ++ to_decimal unique in
  with_file_name path (temporary_name (default (u "export") (file_name path)) suffix).

(** ** The file system *)

(** [synced]: the bytes are on the disk. *)
Record File := mkFile { file_bytes : list N; synced : bool; permissions : nat }.

Abbreviation Directory := (gmap str File).

(** What became of a call; a write that fails may have written something. *)
Inductive Outcome := Fine | Failed (error : str) (written : nat).

Record Outcomes := mkOutcomes {
  create_outcome : Outcome; write_outcome : Outcome; flush_outcome : Outcome; sync_outcome : Outcome;
  metadata_outcome : Outcome; permissions_outcome : Outcome; rename_outcome : Outcome; remove_outcome : Outcome
}.

(** A program over the directory: its result, and the directories it went
    through, the last one first. *)
Definition Io (A : Type) : Type := list Directory -> (A + str) * list Directory.

Definition now (visited : list Directory) : Directory := default ∅ (head visited).

Definition io_bind {A B} (m : Io A) (k : A -> Io B) : Io B := fun visited =>
  match m visited with (inl x, visited) => k x visited | (inr e, visited) => (inr e, visited) end.
Definition io_ret {A} (x : A) : Io A := fun visited => (inl x, visited).

(** A call that changes the directory if it succeeds. *)
Definition call (outcome : Outcome) (effect partial : Directory -> Directory) : Io unit := fun visited =>
  match outcome with
  | Fine => (inl (), effect (now visited) :: visited)
  | Failed error _ => (inr error, partial (now visited) :: visited)
  end.

Definition alter_file (name : str) (f : File -> File) (d : Directory) : Directory := alter f name d.

(** [File::create]: an existing file is truncated. *)
Definition create (outcome : Outcome) (umask : nat) (name : str) : Io unit :=
  call outcome (fun d => <[name := mkFile [] false (match d !! name with Some f => permissions f | None => umask end)]> d) id.

(** [write_all] on the file that was just created. *)
Definition write_all (outcome : Outcome) (name : str) (contents : list N) : Io unit :=
  call outcome (alter_file name (fun f => mkFile (file_bytes f ++ contents) false (permissions f)))
    (alter_file name (fun f => mkFile (file_bytes f ++ take match outcome with Failed _ n => n | Fine => 0 end contents) false (permissions f))).

Definition flush (outcome : Outcome) : Io unit := call outcome id id.

Definition sync_all (outcome : Outcome) (name : str) : Io unit :=
  call outcome (alter_file name (fun f => mkFile (file_bytes f) true (permissions f))) id.

Definition remove_file (outcome : Outcome) (name : str) : Io unit := call outcome (delete name) id.

Definition rename (outcome : Outcome) (from to : str) : Io unit :=
  call outcome (fun d => match d !! from with Some f => <[to := f]> (delete from d) | None => d end) id.

(** [fs::metadata], for the permissions. *)
Definition metadata (outcome : Outcome) (name : str) : Io nat := fun visited =>
  match outcome, now visited !! name with
  | Fine, Some f => (inl (permissions f), visited)
  | Fine, None => (inr (u "No such file or directory"), visited)
  | Failed error _, _ => (inr error, visited)
  end.

Definition set_permissions (outcome : Outcome) (name : str) (mode : nat) : Io unit :=
  call outcome (alter_file name (fun f => mkFile (file_bytes f) (synced f) mode)) id.

(** [let _ = m]. *)
Definition ignore {A} (m : Io A) : Io unit := fun visited => (inl (), snd (m visited)).

(** [if let Ok(x) = m { k }]. *)
Definition if_ok {A} (m : Io A) (k : A -> Io unit) : Io unit := fun visited =>
  match m visited with (inl x, visited) => k x visited | (inr _, visited) => (inl (), visited) end.

(** On an error, [undo], and the error is returned. *)
Definition or_else {A} (m : Io A) (undo : Io unit) : Io A := fun visited =>
  match m visited with
  | (inl x, visited) => (inl x, visited)
  | (inr e, visited) => (inr e, snd (undo visited))
  end.

(** ** The write *)

Definition write_temporary (o : Outcomes) (umask : nat) (tmp : str) (contents : list N) : Io unit :=
  io_bind (create (create_outcome o) umask tmp) (fun _ =>
  io_bind (write_all (write_outcome o) tmp contents) (fun _ =>
  io_bind (flush (flush_outcome o)) (fun _ => sync_all (sync_outcome o) tmp))).

Definition write_file_atomically (o : Outcomes) (umask : nat) (tmp path : str) (contents : list N) : Io unit :=
  io_bind (or_else (write_temporary o umask tmp contents) (ignore (remove_file (remove_outcome o) tmp))) (fun _ =>
  io_bind (if_ok (metadata (metadata_outcome o) path) (fun mode =>
             ignore (set_permissions (permissions_outcome o) tmp mode))) (fun _ =>
  or_else (rename (rename_outcome o) tmp path) (ignore (remove_file (remove_outcome o) tmp)))).

(** ** Crashes *)

(** What may be found after a crash: some directory that was there, its files
    whole if they were synced. *)
Definition found_after (visited : list Directory) (d' : Directory) : Prop :=
  exists d, d ∈ visited /\ forall name,
    match d !! name with
    | Some f => if synced f then d' !! name = Some f else True
    | None => d' !! name = None
    end.

(** * What writing a file leaves behind

    Whichever calls fail, and whenever a crash comes, the target is the old file
    or the whole new one; the name of the temporary file fits and is the app's
    own. *)

Section Write.
Variables (tmp path : str) (contents : list N) (d0 : Directory).
Hypothesis Hne : tmp <> path.

(** Only the temporary file is touched. *)
Definition elsewhere (d : Directory) : Prop := forall name, name <> tmp -> d !! name = d0 !! name.

Lemma elsewhere_insert d f : elsewhere d -> elsewhere (<[tmp := f]> d).
Proof. intros H name Hn. rewrite lookup_insert_ne by congruence. by apply H. Qed.

Lemma elsewhere_alter d f : elsewhere d -> elsewhere (alter_file tmp f d).
Proof. intros H name Hn. unfold alter_file. rewrite lookup_alter_ne by congruence. by apply H. Qed.

Lemma elsewhere_delete d : elsewhere d -> elsewhere (delete tmp d).
Proof. intros H name Hn. rewrite lookup_delete_ne by congruence. by apply H. Qed.

(** The new file, whole and on the disk. *)
Definition complete (d : Directory) : Prop := exists mode, d !! tmp = Some (mkFile contents true mode).

(** A part of the program that stays away from the target. *)
Definition careful {A} (m : Io A) (pre post : Directory -> Prop) : Prop := forall visited,
  Forall elsewhere visited -> visited <> [] -> pre (now visited) ->
  let '(result, visited') := m visited in
  Forall elsewhere visited' /\ visited' <> [] /\ match result with inl _ => post (now visited') | inr _ => True end.

Lemma careful_bind {A B} (m : Io A) (k : A -> Io B) pre mid post :
  careful m pre mid -> (forall x, careful (k x) mid post) -> careful (io_bind m k) pre post.
Proof.
  intros Hm Hk visited Hv Hn Hp. specialize (Hm visited Hv Hn Hp). unfold io_bind. destruct (m visited) as [[x|e] visited'].
  - destruct Hm as (Hv' & Hn' & Hp'). by apply Hk.
  - tauto.
Qed.

Lemma careful_call outcome effect partial pre post :
  (forall d, elsewhere d -> elsewhere (effect d)) -> (forall d, elsewhere d -> elsewhere (partial d)) ->
  (forall d, pre d -> post (effect d)) -> careful (call outcome effect partial) pre post.
Proof.
  intros He Hp Hpost visited Hv Hn Hpre. unfold call. assert (elsewhere (now visited)) as H.
  { destruct Hv; [done|]. done. }
  destruct outcome; (split; [constructor; [by eauto|done]|]; split; [done|]); [by apply Hpost|done].
Qed.

Lemma temporary_written o umask : careful (write_temporary o umask tmp contents) (fun _ => True) complete.
Proof.
  unfold write_temporary.
  apply (careful_bind _ _ _ (fun d => exists mode, d !! tmp = Some (mkFile [] false mode))).
  { apply careful_call; [intros; by apply elsewhere_insert|done|]. intros d _. eexists. by rewrite lookup_insert_eq. }
  intros _. apply (careful_bind _ _ _ (fun d => exists mode, d !! tmp = Some (mkFile contents false mode))).
  { apply careful_call; [intros; by apply elsewhere_alter|intros; by apply elsewhere_alter|].
    intros d [mode E]. exists mode. unfold alter_file. by rewrite lookup_alter_eq, E. }
  intros _. apply (careful_bind _ _ _ (fun d => exists mode, d !! tmp = Some (mkFile contents false mode))).
  { by apply careful_call. }
  intros _. apply careful_call; [intros; by apply elsewhere_alter|done|].
  intros d [mode E]. exists mode. unfold alter_file. by rewrite lookup_alter_eq, E.
Qed.

Lemma now_elsewhere visited : Forall elsewhere visited -> visited <> [] -> elsewhere (now visited).
Proof. by destruct 1. Qed.

(** The temporary file is taken away again, if that works. *)
Lemma removed outcome visited : Forall elsewhere visited -> visited <> [] ->
  let visited' := snd (ignore (remove_file outcome tmp) visited) in
  Forall elsewhere visited' /\ visited' <> [] /\ (outcome = Fine -> now visited' !! tmp = None).
Proof.
  intros Hv Hn. pose proof (now_elsewhere _ Hv Hn) as Hnow. unfold ignore, remove_file, call.
  destruct outcome; cbn; (split; [constructor; [|done]|]; [|split; [done|]]).
  - by apply elsewhere_delete.
  - intros _. apply lookup_delete_eq.
  - done.
  - done.
Qed.

(** The permissions of the old file, if they can be read and set. *)
Lemma permissions_kept o visited : Forall elsewhere visited -> visited <> [] -> complete (now visited) ->
  let '(result, visited') := if_ok (metadata (metadata_outcome o) path)
    (fun mode => ignore (set_permissions (permissions_outcome o) tmp mode)) visited in
  result = inl () /\ Forall elsewhere visited' /\ visited' <> []
  /\ exists mode, now visited' !! tmp = Some (mkFile contents true mode)
     /\ (metadata_outcome o = Fine -> permissions_outcome o = Fine -> forall f, d0 !! path = Some f -> mode = permissions f).
Proof.
  intros Hv Hn [mode E]. pose proof (now_elsewhere _ Hv Hn) as Hnow. unfold if_ok, metadata.
  assert (now visited !! path = d0 !! path) as -> by (apply Hnow; congruence).
  destruct (metadata_outcome o); [|split_and!; [done..|by exists mode]].
  destruct (d0 !! path) as [f|] eqn:Ef; [|split_and!; [done..|by exists mode]].
  unfold ignore, set_permissions, call. destruct (permissions_outcome o); cbn.
  - split_and!; [done|constructor; [by apply elsewhere_alter|done]|done|]. exists (permissions f).
    unfold alter_file. rewrite lookup_alter_eq, E. split; [done|]. by intros _ _ f' [= <-].
  - split_and!; [done|by constructor|done|]. by exists mode.
Qed.

(** What is found of the target among directories that did not touch it. *)
Lemma found_old visited d' : (forall f, d0 !! path = Some f -> synced f = true) ->
  Forall elsewhere visited -> found_after visited d' -> d' !! path = d0 !! path.
Proof.
  intros Hs Hv (d & Hd & Hf). rewrite Forall_forall in Hv. specialize (Hv d Hd path ltac:(congruence)). specialize (Hf path).
  rewrite Hv in Hf. destruct (d0 !! path) as [f|] eqn:E; [|done]. by rewrite (Hs f eq_refl) in Hf.
Qed.

(** The target holds the old file, or the contents. *)
Definition old_or_new (d : Directory) : Prop :=
  d !! path = d0 !! path \/ exists f, d !! path = Some f /\ file_bytes f = contents.

Lemma found_new visited last mode d' : (forall f, d0 !! path = Some f -> synced f = true) ->
  Forall elsewhere visited -> last !! path = Some (mkFile contents true mode) ->
  found_after (last :: visited) d' -> old_or_new d'.
Proof.
  intros Hs Hv Hl (d & [->|Hd]%elem_of_cons & Hf).
  - right. specialize (Hf path). rewrite Hl in Hf. cbn in Hf. by eexists.
  - left. eapply found_old; [done|exact Hv|by exists d].
Qed.
End Write.

(** ** Theorems *)

(** C16. Whatever calls fail, a write that succeeds leaves the whole contents at the
    target, on the disk, with the old file's permissions if they could be carried,
    and no temporary file; one that fails leaves the target as it was, and no
    temporary file unless removing it failed too.  Nothing else changes, and a crash
    at any moment leaves the target the old file or the whole new one. *)
Theorem write_is_all_or_nothing o umask tmp path contents d0 :
  tmp <> path -> (forall f, d0 !! path = Some f -> synced f = true) ->
  let '(result, visited) := write_file_atomically o umask tmp path contents [d0] in
  let after := now visited in
  (forall d', found_after visited d' -> old_or_new path contents d0 d')
  /\ (forall name, name <> tmp -> name <> path -> after !! name = d0 !! name)
  /\ match result with
     | inl _ => after !! tmp = None /\ exists mode, after !! path = Some (mkFile contents true mode)
                /\ (metadata_outcome o = Fine -> permissions_outcome o = Fine -> forall f, d0 !! path = Some f -> mode = permissions f)
     | inr _ => after !! path = d0 !! path /\ (remove_outcome o = Fine -> after !! tmp = None)
     end.
Proof.
  intros Hne Hs. assert (forall visited, Forall (elsewhere tmp d0) visited -> visited <> [] ->
    (forall d', found_after visited d' -> old_or_new path contents d0 d')
    /\ (forall name, name <> tmp -> name <> path -> now visited !! name = d0 !! name) /\ now visited !! path = d0 !! path) as Hkept.
  { intros visited Hv Hn. pose proof (now_elsewhere tmp d0 visited Hv Hn) as Hnow.
    split_and!; [|intros; by apply Hnow|apply Hnow; congruence]. intros d' Hd'. left. by eapply found_old. }
  unfold write_file_atomically, io_bind at 1, or_else at 1.
  pose proof (temporary_written tmp contents d0 o umask [d0]) as H1.
  destruct (write_temporary o umask tmp contents [d0]) as [[[]|e] v1].
  2: { destruct H1 as (Hv & Hn & _); [by repeat constructor|done..|].
       destruct (removed tmp d0 (remove_outcome o) v1 Hv Hn) as (Hv' & Hn' & Hr).
       destruct (Hkept _ Hv' Hn') as (? & ? & ?). by split_and!. }
  destruct H1 as (Hv & Hn & Hc); [by repeat constructor|done..|].
  unfold io_bind at 1. pose proof (permissions_kept tmp path contents d0 Hne o v1 Hv Hn Hc) as H2.
  destruct (if_ok _ _ v1) as [r2 v2]. destruct H2 as (-> & Hv2 & Hn2 & mode & E & Hmode).
  unfold or_else, rename, call. destruct (rename_outcome o); cbn [fst snd].
  - rewrite E. cbn [now head default]. pose proof (now_elsewhere tmp d0 v2 Hv2 Hn2) as Hnow.
    split_and!.
    + intros d' Hd'. eapply found_new; [exact Hne|done|exact Hv2|apply lookup_insert_eq|exact Hd'].
    + intros name H1 H2. change (<[path:=mkFile contents true mode]> (delete tmp (now v2)) !! name = d0 !! name).
      rewrite lookup_insert_ne, lookup_delete_ne by congruence. by apply Hnow.
    + change (<[path:=mkFile contents true mode]> (delete tmp (now v2)) !! tmp = None).
      rewrite lookup_insert_ne by congruence. apply lookup_delete_eq.
    + exists mode. split; [apply lookup_insert_eq|done].
  - destruct (removed tmp d0 (remove_outcome o) (id (now v2) :: v2)) as (Hv' & Hn' & Hr); [|done|].
    { constructor; [by apply (now_elsewhere tmp d0 v2)|done]. }
    destruct (Hkept _ Hv' Hn') as (? & ? & ?). by split_and!.
Qed.

Lemma truncate_at_boundary n s : is_boundary s n = true ->
  exists kept rest, truncate n s = Some kept /\ s = kept ++ rest /\ utf8_len kept <= n.
Proof.
  unfold is_boundary. rewrite bool_decide_eq_true. revert n. induction s as [|c s IH]; intros [|n] [t Ht].
  - by exists [], [].
  - by exists [], [].
  - by exists [], (c :: s).
  - cbn in Ht. cbn [truncate Nat.eqb]. destruct (Nat.leb_spec (len_utf8 c) (S n)); [|done].
    destruct (IH (S n - len_utf8 c)) as (kept & rest & -> & -> & Hl); [by eexists|].
    exists (c :: kept), rest. split_and!; [done..|]. change (utf8_len (c :: kept)) with (len_utf8 c + utf8_len kept). lia.
Qed.

Lemma previous_boundary_le text p : previous_boundary text p <= p /\ is_boundary text (previous_boundary text p) = true.
Proof.
  induction p as [|p [IHl IHb]]; [split; [done|]|].
  - unfold is_boundary. apply bool_decide_true. by destruct text.
  - cbn [previous_boundary]. destruct (is_boundary text (S p)) eqn:E; [done|]. split; [lia|done].
Qed.

(** The name of the temporary file fits on the file system and ends in the whole
    suffix, which makes it the app's own; of the target's name it keeps a prefix of
    whole characters, all of it if there is room.  It is not the target's name,
    unless that ends in the suffix too. *)
Theorem temporary_name_fits stem suffix :
  utf8_len suffix <= MAX_FILE_NAME_BYTES ->
  utf8_len (temporary_name stem suffix) <= MAX_FILE_NAME_BYTES
  /\ exists kept rest, stem = kept ++ rest /\ temporary_name stem suffix = kept ++ suffix
  /\ (utf8_len stem + utf8_len suffix <= MAX_FILE_NAME_BYTES -> rest = [])
  /\ (temporary_name stem suffix = stem -> rest = suffix).
Proof.
  intros Hsuffix. unfold temporary_name. set (room := MAX_FILE_NAME_BYTES - utf8_len suffix).
  destruct (Nat.ltb_spec room (utf8_len stem)) as [Hlong|Hshort].
  - destruct (previous_boundary_le stem room) as [Hle Hb].
    destruct (truncate_at_boundary _ _ Hb) as (kept & rest & -> & E & Hl). change (default stem (Some kept)) with kept.
    split; [rewrite utf8_len_app; unfold room in *; lia|]. exists kept, rest.
    split_and!; [done..|intros; unfold room in *; lia|].
    intros H. rewrite E in H. by apply app_inv_head in H.
  - split; [rewrite utf8_len_app; unfold room in *; lia|]. exists stem, []. rewrite app_nil_r.
    split_and!; [done..|]. intros H. rewrite <- (app_nil_r stem) in H at 2. by apply app_inv_head in H.
Qed.

(** ** Concrete writes *)

Definition all_fine : Outcomes := mkOutcomes Fine Fine Fine Fine Fine Fine Fine Fine.

(** The disk is full after two bytes. *)
Definition disk_full : Outcomes := mkOutcomes Fine (Failed (u "No space left on device") 2) Fine Fine Fine Fine Fine Fine.

Definition an_export : Directory := {[u "a.csv" := mkFile [1; 2; 3]%N true 384]}.

Example a_write_that_fails :
  let '(result, visited) := write_file_atomically disk_full 420 (u "a.csv.tmp.1.2") (u "a.csv") [7; 8; 9]%N [an_export] in
  result = inr (u "No space left on device") /\ now visited = an_export.
Proof. vm_compute. split; reflexivity. Qed.

Lemma write_is_all_or_nothing_witness :
  let '(result, visited) := write_file_atomically all_fine 420 (u "a.csv.tmp.1.2") (u "a.csv") [7; 8; 9]%N [an_export] in
  let after := now visited in
  (forall d', found_after visited d' -> old_or_new (u "a.csv") [7; 8; 9]%N an_export d')
  /\ (forall name, name <> u "a.csv.tmp.1.2" -> name <> u "a.csv" -> after !! name = an_export !! name)
  /\ match result with
     | inl _ => after !! u "a.csv.tmp.1.2" = None /\ exists mode, after !! u "a.csv" = Some (mkFile [7; 8; 9]%N true mode)
                /\ (Fine = Fine -> Fine = Fine -> forall f, an_export !! u "a.csv" = Some f -> mode = permissions f)
     | inr _ => after !! u "a.csv" = an_export !! u "a.csv" /\ (Fine = Fine -> after !! u "a.csv.tmp.1.2" = None)
     end.
Proof.
  apply (write_is_all_or_nothing all_fine 420 (u "a.csv.tmp.1.2") (u "a.csv") [7; 8; 9]%N an_export).
  - vm_compute. discriminate.
  - intros f [= <-]. reflexivity.
Defined.

Lemma temporary_name_fits_witness :
  utf8_len (temporary_name (u "a.csv") (u ".tmp.1.2")) <= 255
  /\ exists kept rest, u "a.csv" = kept ++ rest /\ temporary_name (u "a.csv") (u ".tmp.1.2") = kept ++ u ".tmp.1.2"
  /\ (utf8_len (u "a.csv") + utf8_len (u ".tmp.1.2") <= 255 -> rest = [])
  /\ (temporary_name (u "a.csv") (u ".tmp.1.2") = u "a.csv" -> rest = u ".tmp.1.2").
Proof. apply (temporary_name_fits (u "a.csv") (u ".tmp.1.2")). vm_compute. lia. Defined.
