(* ===== verification/Hangul.v ===== *)
(** * Recomposing Hangul

    [ui/sql_editor/hangul_repair.rs]: the first Hangul key after an input source
    is switched lands in the editor as a lone jamo; the jamos behind it are
    recomposed into syllables.  Characters are written by their code points.  A
    [u8] index is an [N]; an index into a table may panic, which is [None]. *)
From S2P Require Import Prelude RustStr Utf8.

#[local] Open Scope N_scope.

(** ** Tables *)

Definition compat_choseong (ch : char) : option N :=
  match ch with
  | 0x3131 => Some 0 | 0x3132 => Some 1 | 0x3134 => Some 2 | 0x3137 => Some 3 | 0x3138 => Some 4
  | 0x3139 => Some 5 | 0x3141 => Some 6 | 0x3142 => Some 7 | 0x3143 => Some 8 | 0x3145 => Some 9
  | 0x3146 => Some 10 | 0x3147 => Some 11 | 0x3148 => Some 12 | 0x3149 => Some 13 | 0x314A => Some 14
  | 0x314B => Some 15 | 0x314C => Some 16 | 0x314D => Some 17 | 0x314E => Some 18
  | _ => None
  end.

Definition compat_jongseong (ch : char) : option N :=
  match ch with
  | 0x3131 => Some 1 | 0x3132 => Some 2 | 0x3133 => Some 3 | 0x3134 => Some 4 | 0x3135 => Some 5
  | 0x3136 => Some 6 | 0x3137 => Some 7 | 0x3139 => Some 8 | 0x313A => Some 9 | 0x313B => Some 10
  | 0x313C => Some 11 | 0x313D => Some 12 | 0x313E => Some 13 | 0x313F => Some 14 | 0x3140 => Some 15
  | 0x3141 => Some 16 | 0x3142 => Some 17 | 0x3144 => Some 18 | 0x3145 => Some 19 | 0x3146 => Some 20
  | 0x3147 => Some 21 | 0x3148 => Some 22 | 0x314A => Some 23 | 0x314B => Some 24 | 0x314C => Some 25
  | 0x314D => Some 26 | 0x314E => Some 27
  | _ => None
  end.

Definition CHOSEONG_COMPAT : list char :=
  [0x3131; 0x3132; 0x3134; 0x3137; 0x3138; 0x3139; 0x3141; 0x3142; 0x3143; 0x3145; 0x3146; 0x3147; 0x3148;
   0x3149; 0x314A; 0x314B; 0x314C; 0x314D; 0x314E].

Definition COMPOUND_JUNGSEONG : list (N * N * N) :=
  [(8, 0, 9); (8, 1, 10); (8, 20, 11); (13, 4, 14); (13, 5, 15); (13, 20, 16); (18, 20, 19)].

Definition DOUBLE_JONGSEONG : list (N * N * N) :=
  [(1, 19, 3); (4, 22, 5); (4, 27, 6); (8, 1, 9); (8, 16, 10); (8, 17, 11); (8, 19, 12); (8, 25, 13); (8, 26, 14);
   (8, 27, 15); (17, 19, 18)].

(** [table.iter().find(|(a, b, _)| *a == existing && *b == typed).map(|(_, _, c)| *c)]. *)
Definition combined (table : list (N * N * N)) (existing typed : N) : option N :=
  snd <$> List.find (fun '(a, b, _) => (a =? existing) && (b =? typed)) table.

Definition jongseong_to_choseong (t : N) : option N :=
  match t with
  | 1 => Some 0 | 2 => Some 1 | 4 => Some 2 | 7 => Some 3 | 8 => Some 5 | 16 => Some 6 | 17 => Some 7 | 19 => Some 9
  | 20 => Some 10 | 21 => Some 11 | 22 => Some 12 | 23 => Some 14 | 24 => Some 15 | 25 => Some 16 | 26 => Some 17
  | 27 => Some 18
  | _ => None
  end.

Definition split_double_jongseong (t : N) : option (N * N) :=
  match t with
  | 3 => Some (1, 9) | 5 => Some (4, 12) | 6 => Some (4, 18) | 9 => Some (8, 0) | 10 => Some (8, 6) | 11 => Some (8, 7)
  | 12 => Some (8, 9) | 13 => Some (8, 16) | 14 => Some (8, 17) | 15 => Some (8, 18) | 18 => Some (17, 9)
  | _ => None
  end.

(** ** Characters *)

Inductive Unit :=
  | Consonant (choseong jongseong : option N) (raw : char)
  | Vowel (jungseong : N) (raw : char)
  | Syllable (l v t : N).

(** [u32 as u8]. *)
Definition as_u8 (n : N) : N := n mod 256.

Definition char_from_u32 (code : N) : option char := if is_scalar code then Some code else None.

(** The outer [option] is the panic of [CHOSEONG_COMPAT[l as usize]]. *)
Definition classify (ch : char) : option (option Unit) :=
  let code := ch in
  if in_range 0xAC00 0xD7A3 code then
    let offset := code - 0xAC00 in
    Some (Some (Syllable (as_u8 (offset / 588)) (as_u8 (offset mod 588 / 28)) (as_u8 (offset mod 28))))
  else if in_range 0x3131 0x314E code then Some (Some (Consonant (compat_choseong ch) (compat_jongseong ch) ch))
  else if in_range 0x314F 0x3163 code then Some (Some (Vowel (as_u8 (code - 0x314F)) ch))
  else if in_range 0x1100 0x1112 code then
    let l := as_u8 (code - 0x1100) in
    raw ← CHOSEONG_COMPAT !! N.to_nat l;
    Some (Some (Consonant (Some l) None raw))
  else if in_range 0x1161 0x1175 code then
    let v := as_u8 (code - 0x1161) in
    Some (Some (Vowel v (default ch (char_from_u32 (0x314F + v)))))
  else if in_range 0x11A8 0x11C2 code then Some (Some (Consonant None (Some (as_u8 (code - 0x11A8 + 1))) ch))
  else Some None.

Definition unit_is_vowel (unit : option Unit) : bool := match unit with Some (Vowel _ _) => true | _ => false end.

(** ** The automaton *)

Record Automaton := mkAutomaton {
  output : str; choseong : option N; jungseong : option N; jongseong : option N
}.

Definition Automaton_default : Automaton := mkAutomaton [] None None None.

Definition push (c : char) (a : Automaton) : Automaton :=
  mkAutomaton (output a ++ [c]) (choseong a) (jungseong a) (jongseong a).

Definition flush (a : Automaton) : option Automaton :=
  let taken := mkAutomaton (output a) None None None in
  match choseong a, jungseong a, jongseong a with
  | Some l, Some v, t =>
      let code := 0xAC00 + (l * 21 + v) * 28 + default 0 t in
      Some match char_from_u32 code with Some ch => push ch taken | None => taken end
  | Some l, None, _ => c ← CHOSEONG_COMPAT !! N.to_nat l; Some (push c taken)
  | None, _, _ => Some taken
  end.

(** The arm of [consonant] for no syllable in progress. *)
Definition start_consonant (l : option N) (raw : char) (a : Automaton) : option Automaton :=
  match l with
  | Some l => Some (mkAutomaton (output a) (Some l) (jungseong a) (jongseong a))
  | None => a ← flush a; Some (push raw a)
  end.

(** Nothing is in progress after [flush], so the call that follows it takes the
    first arm. *)
Definition flush_and_start (l : option N) (raw : char) (a : Automaton) : option Automaton :=
  a ← flush a; start_consonant l raw a.

Definition set_jongseong (t : option N) (a : Automaton) : Automaton :=
  mkAutomaton (output a) (choseong a) (jungseong a) t.
Definition set_jungseong (v : N) (a : Automaton) : Automaton :=
  mkAutomaton (output a) (choseong a) (Some v) (jongseong a).

Definition consonant (l t : option N) (raw : char) (next_is_vowel : bool) (a : Automaton) : option Automaton :=
  match choseong a, jungseong a, jongseong a with
  | None, _, _ => start_consonant l raw a
  | Some _, None, _ => flush_and_start l raw a
  | Some _, Some _, None =>
      match t with
      | Some t => if negb next_is_vowel then Some (set_jongseong (Some t) a) else flush_and_start l raw a
      | None => flush_and_start l raw a
      end
  | Some _, Some _, Some existing =>
      match t ≫= combined DOUBLE_JONGSEONG existing with
      | Some d => if negb next_is_vowel then Some (set_jongseong (Some d) a) else flush_and_start l raw a
      | None => flush_and_start l raw a
      end
  end.

Definition flush_and_push (raw : char) (a : Automaton) : option Automaton := a ← flush a; Some (push raw a).

(** What a final consonant leaves behind, and the initial consonant it becomes. *)
Definition moved_jongseong (t : N) : option (option N * N) :=
  match jongseong_to_choseong t with
  | Some l => Some (None, l)
  | None => (fun '(remaining, l) => (Some remaining, l)) <$> split_double_jongseong t
  end.

Definition vowel (v : N) (raw : char) (a : Automaton) : option Automaton :=
  match choseong a, jungseong a, jongseong a with
  | Some _, None, _ => Some (set_jungseong v a)
  | Some _, Some existing, None =>
      match combined COMPOUND_JUNGSEONG existing v with
      | Some c => Some (set_jungseong c a)
      | None => flush_and_push raw a
      end
  | Some _, Some _, Some t =>
      match moved_jongseong t with
      | Some (remaining, l) =>
          a ← flush (set_jongseong remaining a);
          Some (mkAutomaton (output a) (Some l) (Some v) (jongseong a))
      | None => flush_and_push raw a
      end
  | None, _, _ => flush_and_push raw a
  end.

(** The body of the loop. *)
Definition feed (unit : Unit) (next_is_vowel : bool) (a : Automaton) : option Automaton :=
  match unit with
  | Consonant l t raw => consonant l t raw next_is_vowel a
  | Vowel v raw => vowel v raw a
  | Syllable l v t =>
      a ← flush a;
      Some (mkAutomaton (output a) (Some l) (Some v) (if t =? 0 then None else Some t))
  end.

Fixpoint feed_all (units : list Unit) (a : Automaton) : option Automaton :=
  match units with
  | [] => Some a
  | unit :: rest => a ← feed unit (unit_is_vowel (head rest)) a; feed_all rest a
  end.

(** [run.chars().map(classify).collect()]: it stops at the first [None]. *)
Fixpoint classify_all (run : str) : option (option (list Unit)) :=
  match run with
  | [] => Some (Some [])
  | ch :: run =>
      unit ← classify ch;
      match unit with
      | None => Some None
      | Some unit => units ← classify_all run; Some (fmap (M:=option) (cons unit) units)
      end
  end.

Definition recompose_hangul_run (run : str) : option str :=
  units ← classify_all run;
  match units with
  | None => Some run
  | Some units => a ← feed_all units Automaton_default; output <$> flush a
  end.

Definition is_lone_hangul_jamo (text : str) : bool :=
  match text with
  | [ch] => in_range 0x3131 0x3163 ch || in_range 0x1100 0x11FF ch
  | _ => false
  end.

Definition is_hangul_char (ch : char) : bool :=
  in_range 0xAC00 0xD7A3 ch || in_range 0x3131 0x3163 ch || in_range 0x1100 0x11FF ch.

Fixpoint leading_hangul_run (text : str) : str :=
  match text with
  | ch :: text => if is_hangul_char ch then ch :: leading_hangul_run text else []
  | [] => []
  end.

(** ** The repair

    [text_range] reads the bytes of the buffer. *)

#[local] Open Scope nat_scope.

Record RepairEdit := mkRepairEdit { edit_start : nat; edit_end : nat; replacement : str }.

(** [stranded_pos]. *)
Abbreviation FirstKeyRepairState := (option nat) (only parsing).

Definition reset (_ : FirstKeyRepairState) : FirstKeyRepairState := None.

Section Repair.
Variable text_range : nat -> nat -> option str.

(** The outer [option] is a panic. *)
Definition merge (pos end_ : nat) : option (option RepairEdit) :=
  if end_ <=? pos then Some None
  else
    match text_range pos end_ with
    | None => Some None
    | Some committed =>
        let run := leading_hangul_run committed in
        if str_is_empty run then Some None
        else
          merged ← recompose_hangul_run run;
          if merged == run then Some None
          else Some (Some (mkRepairEdit pos (pos + utf8_len run) merged))
    end.

(** The second half of [on_key_event]: may this event arm? *)
Definition arm (event_text : str) (has_command_modifiers : bool) (compose_state caret : nat)
    (s : FirstKeyRepairState) : FirstKeyRepairState :=
  if (compose_state =? 0) && negb has_command_modifiers && is_lone_hangul_jamo event_text
     && (utf8_len event_text <=? caret)
     && is_some_and (text_range (caret - utf8_len event_text) caret) (fun t => t == event_text)
  then Some (caret - utf8_len event_text)
  else s.

Definition on_key_event (event_text : str) (has_command_modifiers : bool) (compose_state caret : nat)
    (s : FirstKeyRepairState) : option (FirstKeyRepairState * option RepairEdit) :=
  let arm := arm event_text has_command_modifiers compose_state caret in
  match s with
  | Some pos =>
      if 0 <? compose_state then
        if (compose_state <=? caret) && (pos <? caret - compose_state)
        then edit ← merge pos (caret - compose_state); Some (s, edit)
        else Some (s, None)
      else
        edit ← merge pos caret;
        match edit with
        | Some edit => Some (None, Some edit)
        | None => Some (arm None, None)
        end
  | None => Some (arm None, None)
  end.

Definition flush_repair (caret : nat) (s : FirstKeyRepairState) : option (FirstKeyRepairState * option RepairEdit) :=
  match s with
  | None => Some (None, None)
  | Some pos => edit ← merge pos caret; Some (None, edit)
  end.
End Repair.

(** ** The inputs of the program's tests *)

Definition jang : char := 0xC7A5%N.

Example a_run_is_merged : recompose_hangul_run [0x3148; 0x314F; 0x3147]%N = Some [jang].
Proof. vm_compute. reflexivity. Qed.

Example a_final_moves : recompose_hangul_run [0x3131; 0x314F; 0x3145; 0x314F]%N = Some [0xAC00; 0xC0AC]%N.
Proof. vm_compute. reflexivity. Qed.

Example a_double_final : recompose_hangul_run [0x3147; 0x314F; 0x3134; 0x3148]%N = Some [0xC549]%N.
Proof. vm_compute. reflexivity. Qed.
