(* ===== verification/HangulSpec.v ===== *)
(** * Hangul syllables recompose

    Laws of the jamo tables and of the automaton, and the theorem that syllables
    spelled out in jamo are put together again. *)
From S2P Require Import Prelude RustStr Utf8 GridSort Hangul.

(** * The states of the Hangul automaton

    A state is its output and what is in progress; what each unit does to it, and
    that no index leaves its table. *)

#[local] Open Scope N_scope.

(** ** What is in progress *)

Inductive Pending := Nothing | Lead (l : N) | Open (l v : N) | Closed (l v t : N).

Definition state (out : str) (p : Pending) : Automaton :=
  match p with
  | Nothing => mkAutomaton out None None None
  | Lead l => mkAutomaton out (Some l) None None
  | Open l v => mkAutomaton out (Some l) (Some v) None
  | Closed l v t => mkAutomaton out (Some l) (Some v) (Some t)
  end.

Definition lead_char (l : N) : char := List.nth (N.to_nat l) CHOSEONG_COMPAT 0.
Definition syllable_char (l v t : N) : char := 0xAC00 + (l * 21 + v) * 28 + t.

(** What a flush writes. *)
Definition pending_text (p : Pending) : str :=
  match p with
  | Nothing => []
  | Lead l => [lead_char l]
  | Open l v => [syllable_char l v 0]
  | Closed l v t => [syllable_char l v t]
  end.

Definition is_final (t : N) : Prop := 1 <= t <= 27.

Definition pending_ok (p : Pending) : Prop :=
  match p with
  | Nothing => True
  | Lead l => l < 19
  | Open l v => l < 19 /\ v < 21
  | Closed l v t => l < 19 /\ v < 21 /\ is_final t
  end.

Definition unit_ok (unit : Unit) : Prop :=
  match unit with
  | Consonant l t raw =>
      (forall l', l = Some l' -> l' < 19) /\ (forall t', t = Some t' -> is_final t') /\ is_hangul_char raw = true
  | Vowel v raw => v < 21 /\ is_hangul_char raw = true
  | Syllable l v t => l < 19 /\ v < 21 /\ t <= 27
  end.

(** ** Tables *)

Lemma below (n : nat) (P : N -> bool) : forallb P (N.of_nat <$> seq 0 n) = true -> forall k, k < N.of_nat n -> P k = true.
Proof.
  rewrite forallb_forall. intros H k Hk. apply H, list_elem_of_In, list_elem_of_fmap.
  exists (N.to_nat k). rewrite N2Nat.id, elem_of_seq. split; [done|lia].
Qed.

Lemma in_range_spec lo hi c : in_range lo hi c = true <-> lo <= c <= hi.
Proof. unfold in_range. rewrite andb_true_iff, !N.leb_le. done. Qed.

Lemma lead_lookup l : l < 19 -> CHOSEONG_COMPAT !! N.to_nat l = Some (lead_char l).
Proof.
  intros H. unfold lead_char. assert (Hl : (N.to_nat l < length CHOSEONG_COMPAT)%nat) by (vm_compute length; lia).
  destruct (lookup_lt_is_Some_2 _ _ Hl) as [c Hc]. rewrite Hc. f_equal.
  symmetry. by apply nth_lookup_Some.
Qed.

Lemma syllable_range l v t : l < 19 -> v < 21 -> t <= 27 -> 0xAC00 <= syllable_char l v t <= 0xD7A3.
Proof. unfold syllable_char. lia. Qed.

Lemma classify_syllable l v t : l < 19 -> v < 21 -> t <= 27 -> classify (syllable_char l v t) = Some (Some (Syllable l v t)).
Proof.
  intros Hl Hv Ht. pose proof (syllable_range l v t Hl Hv Ht) as Hr. unfold classify.
  rewrite (proj2 (in_range_spec _ _ _) Hr). unfold syllable_char, as_u8.
  replace (44032 + (l * 21 + v) * 28 + t - 44032) with (l * 588 + v * 28 + t) by lia.
  assert ((l * 588 + v * 28 + t) / 588 = l) as -> by (symmetry; apply (N.div_unique _ _ _ (v * 28 + t)); lia).
  assert ((l * 588 + v * 28 + t) mod 588 = v * 28 + t) as -> by (symmetry; apply (N.mod_unique _ _ l); lia).
  assert ((v * 28 + t) / 28 = v) as -> by (symmetry; apply (N.div_unique _ _ _ t); lia).
  assert ((l * 588 + v * 28 + t) mod 28 = t) as -> by (symmetry; apply (N.mod_unique _ _ (l * 21 + v)); lia).
  rewrite !N.mod_small by lia. done.
Qed.

Lemma classify_lead l : l < 19 ->
  classify (lead_char l) = Some (Some (Consonant (Some l) (compat_jongseong (lead_char l)) (lead_char l))).
Proof.
  intros H. pose (P l := match classify (lead_char l) with
    | Some (Some (Consonant (Some l') t raw)) =>
        (l' =? l) && (raw =? lead_char l) && bool_decide (t = compat_jongseong (lead_char l))
    | _ => false end).
  assert (HP : P l = true) by (apply (below 19); [vm_compute; reflexivity | lia]). revert HP. unfold P.
  destruct (classify (lead_char l)) as [[[[l'|] t raw| |]|]|]; try done.
  rewrite !andb_true_iff, !N.eqb_eq, bool_decide_eq_true. intros [[-> ->] ->]. done.
Qed.

(** A keyboard's consonants agree on both their places. *)
Lemma lead_final l t : l < 19 -> compat_jongseong (lead_char l) = Some t -> is_final t /\ jongseong_to_choseong t = Some l.
Proof.
  intros H. pose (P l := match compat_jongseong (lead_char l) with
    | Some t => (1 <=? t) && (t <=? 27) && bool_decide (jongseong_to_choseong t = Some l) | None => true end).
  assert (HP : P l = true) by (apply (below 19); [vm_compute; reflexivity | lia]). revert HP. unfold P.
  intros HP Ht. rewrite Ht in HP. rewrite !andb_true_iff, !N.leb_le, bool_decide_eq_true in HP.
  unfold is_final. tauto.
Qed.

Lemma combined_In table a b c : combined table a b = Some c -> (a, b, c) ∈ table.
Proof.
  unfold combined. rewrite fmap_Some. intros ([[a' b'] c'] & Hf & ->).
  apply find_some in Hf as [Hin Heq]. rewrite andb_true_iff, !N.eqb_eq in Heq. destruct Heq as [-> ->].
  by apply list_elem_of_In.
Qed.

(** A fact of a table's rows is a fact of what is found in it. *)
Lemma combined_ind (P : N -> N -> N -> bool) table : forallb (fun '(a, b, c) => P a b c) table = true ->
  forall a b c, combined table a b = Some c -> P a b c = true.
Proof. rewrite forallb_forall. intros H a b c Hc. apply (H (a, b, c)), list_elem_of_In, (combined_In _ _ _ _ Hc). Qed.

Lemma compound_ok a b c : combined COMPOUND_JUNGSEONG a b = Some c -> c < 21.
Proof. intros H. apply N.ltb_lt. revert a b c H. apply combined_ind. vm_compute. reflexivity. Qed.

(** A double final splits into the final it was and the consonant it took. *)
Lemma double_ok a b d : combined DOUBLE_JONGSEONG a b = Some d ->
  is_final d /\ exists l, jongseong_to_choseong b = Some l /\ moved_jongseong d = Some (Some a, l).
Proof.
  intros H.
  assert (HP : (1 <=? d) && (d <=? 27) && match jongseong_to_choseong b with
    | Some l => bool_decide (moved_jongseong d = Some (Some a, l)) | None => false end = true).
  { revert a b d H. apply (combined_ind (fun a b d => (1 <=? d) && (d <=? 27) && match jongseong_to_choseong b with
      | Some l => bool_decide (moved_jongseong d = Some (Some a, l)) | None => false end)). vm_compute. reflexivity. }
  rewrite !andb_true_iff, !N.leb_le in HP. destruct HP as [Hd Hl].
  destruct (jongseong_to_choseong b) as [l|]; [|done]. rewrite bool_decide_eq_true in Hl.
  split; [exact Hd | by exists l].
Qed.

Lemma moved_ok t r l : is_final t -> moved_jongseong t = Some (r, l) ->
  l < 19 /\ forall r', r = Some r' -> is_final r'.
Proof.
  intros Ht H. pose (P t := match moved_jongseong t with
    | Some (r, l) => (l <? 19) && match r with Some r => (1 <=? r) && (r <=? 27) | None => true end | None => true end).
  assert (HP : P t = true) by (apply (below 28); [vm_compute; reflexivity | unfold is_final in Ht; lia]).
  revert HP. unfold P. rewrite H, andb_true_iff, N.ltb_lt. intros [Hl Hr]. split; [exact Hl|].
  intros r' ->. rewrite andb_true_iff, !N.leb_le in Hr. exact Hr.
Qed.

Lemma hangul_syllable l v t : l < 19 -> v < 21 -> t <= 27 -> is_hangul_char (syllable_char l v t) = true.
Proof.
  intros Hl Hv Ht. unfold is_hangul_char. rewrite (proj2 (in_range_spec _ _ _) (syllable_range l v t Hl Hv Ht)). done.
Qed.

Lemma hangul_lead l : l < 19 -> is_hangul_char (lead_char l) = true.
Proof. apply (below 19 (fun l => is_hangul_char (lead_char l))). vm_compute. reflexivity. Qed.

(** ** Steps *)

Lemma flush_state out p : pending_ok p -> flush (state out p) = Some (state (out ++ pending_text p) Nothing).
Proof.
  destruct p as [|l|l v|l v t]; simpl; unfold flush, push; simpl.
  - rewrite app_nil_r. done.
  - intros H. rewrite lead_lookup by done. done.
  - intros [Hl Hv]. rewrite <- (N.add_0_r (44032 + (l * 21 + v) * 28)) at 1. fold (syllable_char l v 0).
    pose proof (syllable_range l v 0 Hl Hv ltac:(lia)). unfold char_from_u32, is_scalar.
    rewrite (proj2 (N.ltb_lt _ 55296)) by (unfold syllable_char in *; lia). unfold syllable_char. rewrite N.add_0_r. done.
  - intros (Hl & Hv & Ht). unfold is_final in Ht. fold (syllable_char l v t).
    pose proof (syllable_range l v t Hl Hv ltac:(lia)). unfold char_from_u32, is_scalar.
    rewrite (proj2 (N.ltb_lt _ 55296)) by (unfold syllable_char in *; lia). done.
Qed.

Lemma start_state l raw out : start_consonant (Some l) raw (state out Nothing) = Some (state out (Lead l)).
Proof. done. Qed.

(** What a consonant does to what is in progress. *)
Definition attaches (t : option N) (next_is_vowel : bool) (p : Pending) : option Pending :=
  if next_is_vowel then None
  else
    match p with
    | Open l v => Closed l v <$> t
    | Closed l v existing => Closed l v <$> (t ≫= combined DOUBLE_JONGSEONG existing)
    | _ => None
    end.

Lemma consonant_state l t raw next p out : pending_ok p ->
  consonant l t raw next (state out p) =
    Some match attaches t next p, l with
         | Some p', _ => state out p'
         | None, Some l => state (out ++ pending_text p) (Lead l)
         | None, None => state (out ++ pending_text p ++ [raw]) Nothing
         end.
Proof.
  intros Hp. unfold attaches. assert (Hflush : forall q, q = p -> flush_and_start l raw (state out q) = Some
    match l with Some l => state (out ++ pending_text q) (Lead l) | None => state (out ++ pending_text q ++ [raw]) Nothing end).
  { intros q ->. unfold flush_and_start. rewrite flush_state by done. destruct l; simpl; [done|].
    unfold flush, push. simpl. rewrite app_assoc. done. }
  destruct p as [|l'|l' v'|l' v' t']; unfold consonant; simpl.
  - destruct l; simpl; [rewrite app_nil_r; by destruct next|]. unfold flush, push. simpl. by destruct next.
  - specialize (Hflush (Lead l') eq_refl). simpl in Hflush. rewrite Hflush. by destruct next, l.
  - specialize (Hflush (Open l' v') eq_refl). simpl in Hflush. destruct t as [t|], next; simpl; done || (by destruct l) || exact Hflush.
  - specialize (Hflush (Closed l' v' t') eq_refl). simpl in Hflush.
    destruct t as [t|]; simpl; [destruct (combined DOUBLE_JONGSEONG t' t) as [d|]; simpl|];
      destruct next; simpl; done || exact Hflush.
Qed.

(** The syllable that stays behind and the one a vowel goes on with. *)
Definition takes_vowel (v : N) (p : Pending) : option (str * Pending) :=
  match p with
  | Nothing => None
  | Lead l => Some ([], Open l v)
  | Open l v' => (fun c => ([], Open l c)) <$> combined COMPOUND_JUNGSEONG v' v
  | Closed l v' t =>
      (fun '(r, l') => (pending_text match r with Some r => Closed l v' r | None => Open l v' end, Open l' v)) <$> moved_jongseong t
  end.

Lemma vowel_state v raw p out : pending_ok p ->
  vowel v raw (state out p) =
    Some match takes_vowel v p with
         | Some (w, p') => state (out ++ w) p'
         | None => state (out ++ pending_text p ++ [raw]) Nothing
         end.
Proof.
  intros Hp. assert (Hflush : forall q, q = p -> flush_and_push raw (state out q) = Some (state (out ++ pending_text q ++ [raw]) Nothing)).
  { intros q ->. unfold flush_and_push. rewrite flush_state by done. unfold push. simpl. rewrite app_assoc. done. }
  destruct p as [|l'|l' v'|l' v' t']; unfold vowel; cbn [state choseong jungseong jongseong takes_vowel].
  - exact (Hflush Nothing eq_refl).
  - by rewrite app_nil_r.
  - destruct (combined COMPOUND_JUNGSEONG v' v) as [c|]; simpl; [by rewrite app_nil_r | exact (Hflush (Open l' v') eq_refl)].
  - destruct (moved_jongseong t') as [[r l]|] eqn:Hm; [|exact (Hflush (Closed l' v' t') eq_refl)].
    destruct Hp as (Hl & Hv & Ht). destruct (moved_ok _ _ _ Ht Hm) as [_ Hr].
    assert (set_jongseong r (mkAutomaton out (Some l') (Some v') (Some t'))
            = state out match r with Some r => Closed l' v' r | None => Open l' v' end) as -> by by destruct r.
    rewrite flush_state by (destruct r; simpl; auto). done.
Qed.

Definition composed (l v t : N) : Pending := if t =? 0 then Open l v else Closed l v t.

Lemma syllable_state l v t next p out : pending_ok p ->
  feed (Syllable l v t) next (state out p) = Some (state (out ++ pending_text p) (composed l v t)).
Proof. intros Hp. simpl. rewrite flush_state by done. unfold composed. simpl. destruct (t =? 0); done. Qed.

Lemma composed_ok l v t : l < 19 -> v < 21 -> t <= 27 -> pending_ok (composed l v t).
Proof. unfold composed. intros. destruct (N.eqb_spec t 0); simpl; unfold is_final; lia. Qed.

Lemma composed_text l v t : pending_text (composed l v t) = [syllable_char l v t].
Proof. unfold composed. destruct (N.eqb_spec t 0) as [->|]; done. Qed.

(** ** Every unit leaves a good state *)

Lemma attaches_ok t next p p' : pending_ok p -> (forall t', t = Some t' -> is_final t') ->
  attaches t next p = Some p' -> pending_ok p'.
Proof.
  intros Hp Ht. unfold attaches. destruct next; [done|]. destruct p as [|l|l v|l v existing]; try done.
  - destruct t as [t|]; [|done]. intros [= <-]. simpl in *. naive_solver.
  - intros Hd. apply fmap_Some in Hd as (d & Hd & ->). apply bind_Some in Hd as (t' & -> & Hd).
    apply double_ok in Hd as [Hd _]. simpl in *. tauto.
Qed.

Lemma takes_vowel_ok v p w p' : pending_ok p -> v < 21 -> takes_vowel v p = Some (w, p') ->
  pending_ok p' /\ forallb is_hangul_char w = true.
Proof.
  intros Hp Hv. destruct p as [|l|l v'|l v' t]; simpl in *; [done| | |].
  - intros [= <- <-]. done.
  - rewrite fmap_Some. intros (c & Hc & [= -> ->]). split; [|done]. split; [apply Hp | exact (compound_ok _ _ _ Hc)].
  - rewrite fmap_Some. intros ([r l'] & Hm & [= -> ->]). destruct Hp as (Hl & Hv' & Ht).
    destruct (moved_ok _ _ _ Ht Hm) as [Hl' Hr]. split; [done|].
    destruct r as [r|]; simpl; rewrite hangul_syllable; auto; [|lia].
    specialize (Hr r eq_refl). unfold is_final in Hr. lia.
Qed.

Lemma pending_text_hangul p : pending_ok p -> forallb is_hangul_char (pending_text p) = true.
Proof.
  destruct p as [|l|l v|l v t]; simpl; [done|..]; intros Hp.
  - by rewrite hangul_lead.
  - rewrite hangul_syllable by lia. done.
  - unfold is_final in Hp. rewrite hangul_syllable by lia. done.
Qed.

Lemma feed_ok unit next out p : pending_ok p -> unit_ok unit ->
  exists w p', feed unit next (state out p) = Some (state (out ++ w) p') /\ pending_ok p' /\ forallb is_hangul_char w = true.
Proof.
  intros Hp Hu. pose proof (pending_text_hangul p Hp) as Ht. destruct unit as [l t raw|v raw|l v t]; simpl in Hu.
  - destruct Hu as (Hl & Hf & Hraw). simpl. rewrite consonant_state by done.
    destruct (attaches t next p) as [p'|] eqn:Ha.
    + exists [], p'. rewrite app_nil_r. split; [done|]. split; [exact (attaches_ok _ _ _ _ Hp Hf Ha)|done].
    + destruct l as [l|].
      * exists (pending_text p), (Lead l). split; [done|]. split; [by apply Hl|done].
      * exists (pending_text p ++ [raw]), Nothing. rewrite forallb_app, Ht. simpl. by rewrite Hraw.
  - destruct Hu as [Hv Hraw]. simpl. rewrite vowel_state by done. destruct (takes_vowel v p) as [[w p']|] eqn:Hw.
    + exists w, p'. split; [done|]. exact (takes_vowel_ok _ _ _ _ Hp Hv Hw).
    + exists (pending_text p ++ [raw]), Nothing. rewrite forallb_app, Ht. simpl. by rewrite Hraw.
  - exists (pending_text p), (composed l v t). rewrite syllable_state by done.
    split; [done|]. split; [apply composed_ok; tauto|done].
Qed.

Lemma feed_all_ok units out p : pending_ok p -> Forall unit_ok units ->
  exists w p', feed_all units (state out p) = Some (state (out ++ w) p') /\ pending_ok p' /\ forallb is_hangul_char w = true.
Proof.
  intros Hp Hu. revert out p Hp. induction Hu as [|unit units Hunit _ IH]; intros out p Hp.
  - exists [], p. rewrite app_nil_r. done.
  - destruct (feed_ok unit (unit_is_vowel (head units)) out p Hp Hunit) as (w & p1 & Hf & Hp1 & Hw).
    destruct (IH (out ++ w) p1 Hp1) as (w' & p2 & Hf' & Hp2 & Hw').
    exists (w ++ w'), p2. simpl. rewrite Hf. simpl. rewrite Hf', app_assoc, forallb_app, Hw, Hw'. done.
Qed.

(** ** Every character is classified *)

Lemma compat_choseong_ok ch l : compat_choseong ch = Some l -> l < 19 /\ ch = lead_char l.
Proof.
  intros H. assert (Hr : 0x3131 <= ch <= 0x314E \/ ~ (0x3131 <= ch <= 0x314E)) by lia. destruct Hr as [Hr|Hr].
  - pose (P k := match compat_choseong (0x3131 + k) with Some l => (l <? 19) && (0x3131 + k =? lead_char l) | None => true end).
    assert (HP : P (ch - 0x3131) = true) by (apply (below 30); [vm_compute; reflexivity | lia]). revert HP. unfold P.
    replace (12593 + (ch - 12593)) with ch by lia. rewrite H, andb_true_iff, N.ltb_lt, N.eqb_eq. done.
  - exfalso. apply Hr. revert H. unfold compat_choseong. repeat (case_match; try done; try (intros _; lia)).
Qed.

#[local] Close Scope N_scope.

(** * Texts as units of the Hangul automaton

    Every character is classified, a text is fed in parts, and the spellings of a
    syllable are the units they should be. *)

#[local] Open Scope N_scope.

(** ** Characters *)

Definition unit_okb (unit : Unit) : bool :=
  match unit with
  | Consonant l t raw =>
      match l with Some l => l <? 19 | None => true end
      && match t with Some t => (1 <=? t) && (t <=? 27) | None => true end && is_hangul_char raw
  | Vowel v raw => (v <? 21) && is_hangul_char raw
  | Syllable l v t => (l <? 19) && (v <? 21) && (t <=? 27)
  end.

Lemma unit_okb_spec unit : unit_okb unit = true -> unit_ok unit.
Proof.
  destruct unit as [l t raw|v raw|l v t]; simpl; rewrite !andb_true_iff, ?N.ltb_lt, ?N.leb_le; [|tauto..].
  intros [[Hl Ht] Hraw]. split; [|split; [|done]].
  - intros l' ->. by apply N.ltb_lt.
  - intros t' ->. unfold is_final. by rewrite andb_true_iff, !N.leb_le in Ht.
Qed.

Definition classified (ch : char) : bool :=
  match classify ch with Some (Some unit) => unit_okb unit | _ => false end.

Lemma classified_range (lo : N) (n : nat) ch :
  forallb (fun k => classified (lo + k)) (N.of_nat <$> seq 0 n) = true -> lo <= ch < lo + N.of_nat n -> classified ch = true.
Proof.
  intros H Hr. replace ch with (lo + (ch - lo)) by lia. apply (below n (fun k => classified (lo + k)) H). lia.
Qed.

Lemma syllable_parts ch : 0xAC00 <= ch <= 0xD7A3 ->
  exists l v t, l < 19 /\ v < 21 /\ t <= 27 /\ ch = syllable_char l v t.
Proof.
  intros Hr. set (o := ch - 0xAC00). exists (o / 588), (o mod 588 / 28), (o mod 28).
  pose proof (N.div_mod o 588 ltac:(lia)) as H1. pose proof (N.mod_lt o 588 ltac:(lia)) as H2.
  pose proof (N.div_mod (o mod 588) 28 ltac:(lia)) as H3. pose proof (N.mod_lt (o mod 588) 28 ltac:(lia)) as H4.
  assert (H5 : o mod 588 mod 28 = o mod 28).
  { change 588 with (28 * 21). rewrite N.Div0.mod_mul_r, N.mul_comm, N.Div0.mod_add. apply N.Div0.mod_mod. }
  rewrite H5 in H3, H4. clear H5. assert (Ho : ch = 0xAC00 + o) by (subst o; lia). clearbody o. unfold syllable_char.
  generalize dependent (o / 588). generalize dependent (o mod 588 / 28). generalize dependent (o mod 28).
  generalize dependent (o mod 588). lia.
Qed.

(** Every character is a unit that keeps to the tables, or no unit. *)
Lemma classify_total ch : exists unit, classify ch = Some unit /\ forall u, unit = Some u -> unit_ok u.
Proof.
  assert (Hc : classified ch = true -> exists unit, classify ch = Some unit /\ forall u, unit = Some u -> unit_ok u).
  { unfold classified. destruct (classify ch) as [[u|]|]; try done. intros Hu. exists (Some u). split; [done|].
    intros ? [= <-]. by apply unit_okb_spec. }
  destruct (in_range 0xAC00 0xD7A3 ch) eqn:H1.
  { apply in_range_spec, syllable_parts in H1 as (l & v & t & Hl & Hv & Ht & ->).
    exists (Some (Syllable l v t)). split; [by apply classify_syllable|]. intros ? [= <-]. done. }
  destruct (in_range 0x3131 0x314E ch) eqn:H2; [apply Hc, (classified_range 0x3131 30); [by vm_compute|apply in_range_spec in H2; lia]|].
  destruct (in_range 0x314F 0x3163 ch) eqn:H3; [apply Hc, (classified_range 0x314F 21); [by vm_compute|apply in_range_spec in H3; lia]|].
  destruct (in_range 0x1100 0x1112 ch) eqn:H4; [apply Hc, (classified_range 0x1100 19); [by vm_compute|apply in_range_spec in H4; lia]|].
  destruct (in_range 0x1161 0x1175 ch) eqn:H5; [apply Hc, (classified_range 0x1161 21); [by vm_compute|apply in_range_spec in H5; lia]|].
  destruct (in_range 0x11A8 0x11C2 ch) eqn:H6; [apply Hc, (classified_range 0x11A8 27); [by vm_compute|apply in_range_spec in H6; lia]|].
  exists None. unfold classify. rewrite H1, H2, H3, H4, H5, H6. done.
Qed.

(** [classified run units]: every character is its unit. *)
Abbreviation reads := (Forall2 (fun ch unit => classify ch = Some (Some unit))).

Lemma classify_all_reads run units : reads run units -> classify_all run = Some (Some units).
Proof. induction 1 as [|ch unit run units Hc _ IH]; simpl; [done|]. by rewrite Hc; simpl; rewrite IH. Qed.

Lemma classify_all_cases run :
  (exists units, reads run units /\ Forall unit_ok units /\ classify_all run = Some (Some units)) \/ classify_all run = Some None.
Proof.
  induction run as [|ch run IH]; [left; by exists []|]. simpl.
  destruct (classify_total ch) as ([u|] & Hc & Hu); rewrite Hc; simpl; [|by right].
  destruct IH as [(units & Hr & Hok & ->)| ->]; simpl; [left|by right].
  exists (u :: units). split; [by constructor|]. split; [constructor; auto|done].
Qed.

Lemma default_state : Automaton_default = state [] Nothing.
Proof. done. Qed.

(** No index leaves its table, and Hangul becomes Hangul. *)
Lemma recompose_is_total run : exists merged, recompose_hangul_run run = Some merged
  /\ (forallb is_hangul_char run = true -> forallb is_hangul_char merged = true).
Proof.
  unfold recompose_hangul_run. destruct (classify_all_cases run) as [(units & _ & Hok & ->)| ->]; simpl; [|by exists run].
  rewrite default_state. destruct (feed_all_ok units [] Nothing I Hok) as (w & p & -> & Hp & Hw). simpl.
  rewrite flush_state by done. simpl. exists (w ++ pending_text p). split; [done|]. intros _.
  by rewrite forallb_app, Hw, pending_text_hangul.
Qed.

(** ** Feeding a text in parts *)

Definition next_of (next : bool) (units : list Unit) : bool :=
  match units with [] => next | unit :: _ => unit_is_vowel (Some unit) end.

(** The loop over units that something follows. *)
Fixpoint feed_before (units : list Unit) (next : bool) (a : Automaton) : option Automaton :=
  match units with
  | [] => Some a
  | unit :: rest => a ← feed unit (next_of next rest) a; feed_before rest next a
  end.

Lemma feed_all_before units a : feed_all units a = feed_before units false a.
Proof.
  revert a. induction units as [|unit units IH]; intros a; simpl; [done|].
  destruct units; simpl; (destruct (feed _ _ a); simpl; [apply IH|done]).
Qed.

Lemma feed_before_app units1 units2 next a :
  feed_before (units1 ++ units2) next a = a ← feed_before units1 (next_of next units2) a; feed_before units2 next a.
Proof.
  revert a. induction units1 as [|unit units1 IH]; intros a; simpl; [done|].
  assert (next_of next (units1 ++ units2) = next_of (next_of next units2) units1) as -> by by destruct units1.
  destruct (feed unit _ a); simpl; [apply IH|done].
Qed.

Lemma feed_one unit next a : feed_before [unit] next a = feed unit next a.
Proof. simpl. by destruct (feed unit next a). Qed.

Lemma feed_cons unit units next a :
  feed_before (unit :: units) next a = a ← feed unit (next_of next units) a; feed_before units next a.
Proof. done. Qed.

Lemma feed_vowel v raw next out p : pending_ok p -> feed (Vowel v raw) next (state out p) =
  Some match takes_vowel v p with
       | Some (w, p') => state (out ++ w) p'
       | None => state (out ++ pending_text p ++ [raw]) Nothing
       end.
Proof. apply vowel_state. Qed.

Lemma recompose_reads run units : reads run units ->
  recompose_hangul_run run = (a ← feed_before units false (state [] Nothing); output <$> flush a).
Proof. intros H. unfold recompose_hangul_run. rewrite (classify_all_reads _ _ H). simpl. by rewrite feed_all_before. Qed.

(** ** Spellings *)

Definition spells_lead (l : N) (ch : char) : Prop := ch = 0x1100 + l \/ CHOSEONG_COMPAT !! N.to_nat l = Some ch.
Definition spells_vowel (v : N) (ch : char) : Prop := ch = 0x1161 + v \/ ch = 0x314F + v.
Definition spells_final (t : N) (ch : char) : Prop := ch = 0x11A7 + t \/ compat_jongseong ch = Some t.

Inductive vowel_spelling (v : N) : str -> Prop :=
  | One_vowel ch : spells_vowel v ch -> vowel_spelling v [ch]
  | Two_vowels a b x y : combined COMPOUND_JUNGSEONG a b = Some v -> spells_vowel a x -> spells_vowel b y -> vowel_spelling v [x; y].

Inductive final_spelling (t : N) : str -> Prop :=
  | No_final : t = 0 -> final_spelling t []
  | One_final ch : is_final t -> spells_final t ch -> final_spelling t [ch]
  | Two_finals a b x y : combined DOUBLE_JONGSEONG a b = Some t -> spells_final a x -> spells_final b y -> final_spelling t [x; y].

(** A syllable as one character, or by the keys that make it, each as a key of
    the keyboard or as a conjoining jamo. *)
Inductive spelling (l v t : N) : str -> Prop :=
  | Whole : spelling l v t [syllable_char l v t]
  | Keys ch vowels finals : spells_lead l ch -> vowel_spelling v vowels -> final_spelling t finals ->
      spelling l v t (ch :: vowels ++ finals).

Definition syllable_ok (s : N * N * N) : Prop := let '(l, v, t) := s in l < 19 /\ v < 21 /\ t <= 27.

Lemma classify_check (lo : N) (n : nat) (P : N -> option (option Unit) -> bool) k :
  forallb (fun k => P k (classify (lo + k))) (N.of_nat <$> seq 0 n) = true -> k < N.of_nat n -> P k (classify (lo + k)) = true.
Proof. intros H. apply (below n (fun k => P k (classify (lo + k))) H). Qed.

Lemma read_lead l ch : l < 19 -> spells_lead l ch -> exists t raw, classify ch = Some (Some (Consonant (Some l) t raw)).
Proof.
  intros Hl [-> | Hc].
  - assert (H : match classify (0x1100 + l) with Some (Some (Consonant (Some l') _ _)) => l' =? l | _ => false end = true).
    { apply (classify_check 0x1100 19 (fun l c => match c with Some (Some (Consonant (Some l') _ _)) => l' =? l | _ => false end));
        [by vm_compute|lia]. }
    destruct (classify _) as [[[[l'|] t raw| |]|]|]; try done. apply N.eqb_eq in H as ->. by exists t, raw.
  - rewrite lead_lookup in Hc by done. injection Hc as <-. rewrite classify_lead by done. eauto.
Qed.

Lemma read_vowel v ch : v < 21 -> spells_vowel v ch -> exists raw, classify ch = Some (Some (Vowel v raw)).
Proof.
  intros Hv Hs.
  assert (H : match classify ch with Some (Some (Vowel v' _)) => v' =? v | _ => false end = true).
  { destruct Hs as [-> | ->].
    - apply (classify_check 0x1161 21 (fun v c => match c with Some (Some (Vowel v' _)) => v' =? v | _ => false end)); [by vm_compute|lia].
    - apply (classify_check 0x314F 21 (fun v c => match c with Some (Some (Vowel v' _)) => v' =? v | _ => false end)); [by vm_compute|lia]. }
  destruct (classify _) as [[[|v' raw|]|]|]; try done. apply N.eqb_eq in H as ->. by exists raw.
Qed.

Lemma compat_jongseong_range ch t : compat_jongseong ch = Some t -> 0x3131 <= ch <= 0x314E.
Proof. unfold compat_jongseong. repeat (case_match; try done; try (intros _; lia)). Qed.

Lemma read_final t ch : is_final t -> spells_final t ch -> exists l raw, classify ch = Some (Some (Consonant l (Some t) raw)).
Proof.
  intros Ht [-> | Hc].
  - unfold is_final in Ht. replace (0x11A7 + t) with (0x11A8 + (t - 1)) by lia.
    assert (H : match classify (0x11A8 + (t - 1)) with Some (Some (Consonant _ (Some t') _)) => t' =? (t - 1) + 1 | _ => false end = true).
    { apply (classify_check 0x11A8 27 (fun k c => match c with Some (Some (Consonant _ (Some t') _)) => t' =? k + 1 | _ => false end));
        [by vm_compute|lia]. }
    destruct (classify _) as [[[l' [t'|] raw| |]|]|]; try done. apply N.eqb_eq in H. exists l', raw. by replace t with t' by lia.
  - pose proof (compat_jongseong_range _ _ Hc) as Hr. unfold classify.
    assert (in_range 0xAC00 0xD7A3 ch = false) as -> by (apply not_true_iff_false; rewrite in_range_spec; lia).
    rewrite (proj2 (in_range_spec _ _ _) Hr), Hc. eauto.
Qed.

Lemma table_vowels a b c : combined COMPOUND_JUNGSEONG a b = Some c -> a < 21 /\ b < 21.
Proof.
  intros H. rewrite <- !N.ltb_lt, <- andb_true_iff. revert a b c H.
  apply (combined_ind (fun a b _ => (a <? 21) && (b <? 21))). by vm_compute.
Qed.

Lemma table_finals a b c : combined DOUBLE_JONGSEONG a b = Some c -> is_final a /\ is_final b.
Proof.
  unfold is_final. intros H. rewrite <- !N.leb_le, <- !andb_true_iff. revert a b c H.
  apply (combined_ind (fun a b _ => ((1 <=? a) && (a <=? 27)) && ((1 <=? b) && (b <=? 27)))). by vm_compute.
Qed.

#[local] Close Scope N_scope.

(** * Recomposed syllables

    Any spelling of a text's syllables is recomposed into them. *)

#[local] Open Scope N_scope.

(** ** Spelled syllables *)

Lemma feed_lead l t raw out p : pending_ok p ->
  feed (Consonant (Some l) t raw) true (state out p) = Some (state (out ++ pending_text p) (Lead l)).
Proof. intros Hp. simpl. by rewrite consonant_state. Qed.

Lemma feed_vowels v vowels : v < 21 -> vowel_spelling v vowels ->
  exists units, reads vowels units /\ next_of false units = true
  /\ forall l next out, l < 19 -> feed_before units next (state out (Lead l)) = Some (state out (Open l v)).
Proof.
  intros Hv [ch Hs | a b x y Hc Ha Hb].
  - destruct (read_vowel v ch Hv Hs) as [raw Hr]. exists [Vowel v raw]. split; [by repeat constructor|]. split; [done|].
    intros l next out Hl. rewrite feed_one, feed_vowel by done. simpl takes_vowel. cbv beta iota. by rewrite app_nil_r.
  - destruct (table_vowels _ _ _ Hc) as [Hva Hvb].
    destruct (read_vowel a x Hva Ha) as [rx Hx], (read_vowel b y Hvb Hb) as [ry Hy].
    exists [Vowel a rx; Vowel b ry]. split; [by repeat constructor|]. split; [done|].
    intros l next out Hl. rewrite feed_cons, feed_vowel by done.
    simpl takes_vowel. cbn [mbind option_bind]. rewrite app_nil_r, feed_one, feed_vowel by done. simpl takes_vowel. rewrite Hc. cbn. by rewrite !app_nil_r.
Qed.

Lemma feed_final l t raw lv v out p : pending_ok p -> attaches (Some t) false p = Some (Closed lv v raw) ->
  forall c, feed (Consonant l (Some t) c) false (state out p) = Some (state out (Closed lv v raw)).
Proof. intros Hp Ha c. simpl. by rewrite consonant_state, Ha. Qed.

Lemma feed_finals t finals : t <= 27 -> final_spelling t finals ->
  exists units, reads finals units /\ next_of false units = false
  /\ forall l v out, l < 19 -> v < 21 -> feed_before units false (state out (Open l v)) = Some (state out (composed l v t)).
Proof.
  intros Ht [-> | ch Hf Hs | a b x y Hd Ha Hb].
  - exists []. done.
  - destruct (read_final t ch Hf Hs) as (l' & raw & Hr). exists [Consonant l' (Some t) raw].
    split; [by repeat constructor|]. split; [done|]. intros l v out Hl Hv. rewrite feed_one.
    rewrite (feed_final _ _ t l v) by done. unfold composed. destruct (N.eqb_spec t 0); [unfold is_final in Hf; lia|done].
  - destruct (table_finals _ _ _ Hd) as [Hfa Hfb]. destruct (double_ok _ _ _ Hd) as [Hft _].
    destruct (read_final a x Hfa Ha) as (lx & rx & Hx), (read_final b y Hfb Hb) as (ly & ry & Hy).
    exists [Consonant lx (Some a) rx; Consonant ly (Some b) ry]. split; [by repeat constructor|]. split; [done|].
    intros l v out Hl Hv. rewrite feed_cons. change (next_of false [Consonant ly (Some b) ry]) with false.
    rewrite (feed_final _ _ a l v) by done. cbn [mbind option_bind].
    rewrite feed_one, (feed_final _ _ t l v) by (simpl; rewrite ?Hd; done).
    unfold composed. destruct (N.eqb_spec t 0); [unfold is_final in Hft; lia|done].
Qed.

(** A spelling ends what was in progress and leaves its syllable in progress. *)
Lemma feed_spelling l v t piece : syllable_ok (l, v, t) -> spelling l v t piece ->
  exists units, reads piece units /\ (forall next, next_of next units = false)
  /\ forall out p, pending_ok p -> feed_before units false (state out p) = Some (state (out ++ pending_text p) (composed l v t)).
Proof.
  intros (Hl & Hv & Ht) [|ch vowels finals Hlead Hvow Hfin].
  - exists [Syllable l v t]. split; [constructor; [by apply classify_syllable|constructor]|]. split; [done|].
    intros out p Hp. rewrite feed_one. by apply syllable_state.
  - destruct (read_lead l ch Hl Hlead) as (t' & raw & Hr), (feed_vowels v vowels Hv Hvow) as (uv & Hrv & Hnv & Hfv),
      (feed_finals t finals Ht Hfin) as (uf & Hrf & Hnf & Hff).
    exists (Consonant (Some l) t' raw :: uv ++ uf). split; [constructor; [done|by apply Forall2_app]|]. split; [done|].
    intros out p Hp. rewrite feed_cons.
    assert (next_of false (uv ++ uf) = true) as -> by (destruct uv; [done|exact Hnv]).
    rewrite feed_lead by done. cbn [mbind option_bind]. rewrite feed_before_app, Hfv by done. simpl mbind. by apply Hff.
Qed.

Lemma feed_syllables syllables pieces : Forall syllable_ok syllables ->
  Forall2 (fun '(l, v, t) piece => spelling l v t piece) syllables pieces ->
  exists units, reads (concat pieces) units /\ next_of false units = false
  /\ forall out p, pending_ok p -> exists out' p', feed_before units false (state out p) = Some (state out' p') /\ pending_ok p'
     /\ out' ++ pending_text p' = out ++ pending_text p ++ ((fun '(l, v, t) => syllable_char l v t) <$> syllables).
Proof.
  intros Hok H. induction H as [|[[l v] t] piece syllables pieces Hs _ IH].
  - exists []. split; [constructor|]. split; [done|]. intros out p Hp. exists out, p. by rewrite app_nil_r.
  - inversion Hok as [|? ? H1 H2]; subst. destruct (IH H2) as (units' & Hr' & Hn' & Hf'),
      (feed_spelling l v t piece H1 Hs) as (units & Hr & Hn & Hf).
    exists (units ++ units'). split; [by apply Forall2_app|].
    assert (next_of false (units ++ units') = false) as Hnn by (destruct units; [done|exact (Hn false)]).
    split; [done|]. intros out p Hp. rewrite feed_before_app, Hn', Hf by done. cbn [mbind option_bind].
    destruct H1 as (Hl & Hv & Ht).
    destruct (Hf' (out ++ pending_text p) (composed l v t) (composed_ok l v t Hl Hv Ht)) as (out' & p' & Hf1 & Hp' & Ht').
    exists out', p'. split; [done|]. split; [done|]. by rewrite Ht', composed_text, <- app_assoc.
Qed.

(** C33. However the syllables of a text were put in, as characters, key by key or as
    conjoining jamo, the automaton recomposes exactly them: no key is taken by
    the syllable before or behind. *)
Theorem spelled_syllables_recompose syllables pieces :
  Forall syllable_ok syllables ->
  Forall2 (fun '(l, v, t) piece => spelling l v t piece) syllables pieces ->
  recompose_hangul_run (concat pieces) = Some ((fun '(l, v, t) => syllable_char l v t) <$> syllables).
Proof.
  intros Hok H. destruct (feed_syllables _ _ Hok H) as (units & Hr & _ & Hf).
  rewrite (recompose_reads _ _ Hr). destruct (Hf [] Nothing I) as (out & p & -> & Hp & Ht).
  cbn [mbind option_bind]. rewrite flush_state by done. simpl. by rewrite Ht.
Qed.

(** ** A concrete text *)

(** The program's trace, its first syllable key by key, the second conjoining,
    the third a character. *)
Lemma spelled_syllables_recompose_witness :
  recompose_hangul_run [0x3148; 0x314F; 0x3147; 0x110B; 0x1167; 0x11BC; 0xD658] = Some [0xC7A5; 0xC601; 0xD658].
Proof.
  apply (spelled_syllables_recompose [(12, 0, 21); (11, 6, 21); (18, 9, 4)]
           [[0x3148; 0x314F; 0x3147]; [0x110B; 0x1167; 0x11BC]; [0xD658]]); [repeat constructor; lia|].
  repeat constructor.
  - apply (Keys 12 0 21 0x3148 [0x314F] [0x3147]); [by right|constructor; by right|].
    apply One_final; [unfold is_final; lia | by right].
  - apply (Keys 11 6 21 0x110B [0x1167] [0x11BC]); [by left|constructor; by left|].
    apply One_final; [unfold is_final; lia | by left].
Defined.
