(* ===== verification/HangulRepair.v ===== *)
(** * Repairs as a text is typed

    A repair that is repeated while the text grows ends where one repair of the
    whole text does, and an edit stays within the Hangul between the stranded
    jamo and what is being composed. *)
From S2P Require Import Prelude RustStr Utf8 Hangul HangulSpec.

#[local] Open Scope N_scope.

(** ** Repeated repairs *)

(** What a keyboard types, and syllables: not a conjoining jamo. *)
Definition typed (ch : char) : bool :=
  in_range 0xAC00 0xD7A3 ch || in_range 0x314F 0x3163 ch || is_some_and (compat_choseong ch) (fun _ => true).

(** It reads as a unit that is written the same. *)
Definition typed_unit (unit : Unit) : Prop :=
  match unit with
  | Consonant l t raw => exists l', l = Some l' /\ l' < 19 /\ raw = lead_char l' /\ t = compat_jongseong raw
  | Vowel v raw => v < 21 /\ raw = 0x314F + v
  | Syllable l v t => syllable_ok (l, v, t)
  end.

Lemma typed_reads ch : typed ch = true -> exists unit, classify ch = Some (Some unit) /\ typed_unit unit.
Proof.
  unfold typed. rewrite !orb_true_iff. intros [[H|H]|H].
  - apply in_range_spec, syllable_parts in H as (l & v & t & Hl & Hv & Ht & ->).
    exists (Syllable l v t). split; [by apply classify_syllable|done].
  - apply in_range_spec in H. exists (Vowel (ch - 0x314F) ch). split; [|simpl; lia].
    unfold classify.
    assert (in_range 0xAC00 0xD7A3 ch = false) as -> by (apply not_true_iff_false; rewrite in_range_spec; lia).
    assert (in_range 0x3131 0x314E ch = false) as -> by (apply not_true_iff_false; rewrite in_range_spec; lia).
    rewrite (proj2 (in_range_spec _ _ _)) by lia. unfold as_u8. rewrite N.mod_small by lia. done.
  - destruct (compat_choseong ch) as [l|] eqn:Hc; [|done]. apply compat_choseong_ok in Hc as [Hl ->].
    exists (Consonant (Some l) (compat_jongseong (lead_char l)) (lead_char l)).
    split; [by apply classify_lead|]. by exists l.
Qed.

Lemma typed_units a : forallb typed a = true -> exists units, reads a units /\ Forall typed_unit units.
Proof.
  induction a as [|ch a IH]; simpl; [by exists []|]. rewrite andb_true_iff. intros [Hch Ha].
  destruct (typed_reads ch Hch) as (u & Hr & Hu), (IH Ha) as (us & Hrs & Hus). exists (u :: us). by split; constructor.
Qed.

(** The automaton is in state [a] behind the text. *)
Definition fed (text : str) (next : bool) (a : Automaton) : Prop :=
  exists units, reads text units /\ feed_before units next (state [] Nothing) = Some a.

Lemma fed_snoc text ch unit next a a' : fed text (unit_is_vowel (Some unit)) a -> classify ch = Some (Some unit) ->
  feed unit next a = Some a' -> fed (text ++ [ch]) next a'.
Proof.
  intros (units & Hr & Hf) Hc Ha. exists (units ++ [unit]). split; [apply Forall2_app; [done|by constructor]|].
  rewrite feed_before_app. change (next_of next [unit]) with (unit_is_vowel (Some unit)). rewrite Hf. cbn [mbind option_bind]. by rewrite feed_one.
Qed.

(** What is written leads back to a state that will write it. *)
Definition written (out : str) : Prop :=
  exists out' p, pending_ok p /\ fed out false (state out' p) /\ out' ++ pending_text p = out.

(** The state is the one its own text leads to; a consonant that waits for its
    vowel needs the vowel. *)
Definition good (out : str) (p : Pending) (next : bool) : Prop :=
  pending_ok p /\ written out /\ forall next', (next = true -> next' = true) -> fed (out ++ pending_text p) next' (state out p).

Lemma rebuild out l v t next : syllable_ok (l, v, t) -> written out ->
  fed (out ++ [syllable_char l v t]) next (state out (composed l v t)).
Proof.
  intros (Hl & Hv & Ht) (out' & p & Hp & Hf & Ho). apply (fed_snoc _ _ (Syllable l v t) _ (state out' p)).
  - done.
  - by apply classify_syllable.
  - by rewrite syllable_state, Ho.
Qed.

Lemma good_syllable out l v t next : syllable_ok (l, v, t) -> written out -> good out (composed l v t) next.
Proof.
  intros H Hw. destruct H as (Hl & Hv & Ht). split; [by apply composed_ok|]. split; [done|].
  intros next' _. rewrite composed_text. by apply rebuild.
Qed.

Lemma closed_composed l v t : is_final t -> Closed l v t = composed l v t.
Proof. intros Ht. unfold composed. destruct (N.eqb_spec t 0); [unfold is_final in Ht; lia|done]. Qed.

Lemma good_written out p : good out p false -> written (out ++ pending_text p).
Proof. intros (Hp & _ & Hf). exists out, p. split; [done|]. split; [by apply Hf|done]. Qed.

Lemma good_open out l v next : l < 19 -> v < 21 -> written out -> good out (Open l v) next.
Proof. intros Hl Hv Hw. apply (good_syllable out l v 0 next); [|done]. split; [done|]. split; [done|lia]. Qed.

Lemma good_closed out l v t next : l < 19 -> v < 21 -> is_final t -> written out -> good out (Closed l v t) next.
Proof.
  intros Hl Hv Ht Hw. rewrite closed_composed by done. apply good_syllable; [|done].
  unfold is_final in Ht. split; [done|]. split; [done|lia].
Qed.

Lemma feed_consonant l t raw next out p : pending_ok p -> feed (Consonant (Some l) t raw) next (state out p) =
  Some match attaches t next p with
       | Some p' => state out p'
       | None => state (out ++ pending_text p) (Lead l)
       end.
Proof. intros Hp. simpl. rewrite consonant_state by done. by destruct (attaches t next p). Qed.

Lemma consonant_good l next out p : l < 19 -> good out p false ->
  exists out' p', feed (Consonant (Some l) (compat_jongseong (lead_char l)) (lead_char l)) next (state out p) = Some (state out' p')
  /\ good out' p' next.
Proof.
  intros Hl HG. pose proof (good_written out p HG) as Hw. destruct HG as (Hp & Ho & HA).
  assert (Ht : forall t, compat_jongseong (lead_char l) = Some t -> is_final t) by (intros t Ht; by apply (lead_final l t Hl)).
  rewrite feed_consonant by done. destruct (attaches _ next p) as [p'|] eqn:Ha.
  - exists out, p'. split; [done|]. pose proof (attaches_ok _ _ _ _ Hp Ht Ha) as Hp'. revert Ha. unfold attaches.
    destruct next; [done|]. destruct p as [|l0|l0 v|l0 v e]; try done; rewrite fmap_Some; intros (t & _ & ->);
      simpl in Hp'; apply good_closed; tauto.
  - exists (out ++ pending_text p), (Lead l). split; [done|]. split; [done|]. split; [done|]. intros next' Hn.
    apply (fed_snoc _ _ (Consonant (Some l) (compat_jongseong (lead_char l)) (lead_char l)) _ (state out p)).
    + apply HA. done.
    + by apply classify_lead.
    + rewrite feed_consonant by done. assert (attaches (compat_jongseong (lead_char l)) next' p = None) as ->; [|done].
      destruct next'; [done|]. destruct next; [specialize (Hn eq_refl); done|done].
Qed.

Lemma vowel_good v next out p : v < 21 -> good out p true ->
  exists out' p', feed (Vowel v (0x314F + v)) next (state out p) = Some (state out' p') /\ good out' p' next.
Proof.
  intros Hv (Hp & Ho & HA).
  assert (Hc : classify (0x314F + v) = Some (Some (Vowel v (0x314F + v)))).
  { destruct (typed_reads (0x314F + v)) as (u & Hu & Ht); [unfold typed; rewrite (proj2 (in_range_spec 0x314F 0x3163 _)) by lia; by rewrite orb_true_r|].
    destruct (read_vowel v (0x314F + v) Hv (or_intror eq_refl)) as [raw Hr]. rewrite Hr in Hu. injection Hu as <-.
    simpl in Ht. destruct Ht as [_ ->]. done. }
  rewrite feed_vowel by done. destruct (takes_vowel v p) as [[w p']|] eqn:Hw.
  - exists (out ++ w), p'. split; [done|]. destruct (takes_vowel_ok _ _ _ _ Hp Hv Hw) as [Hp' _]. revert Hw.
    destruct p as [|l|l v'|l v' t]; simpl; [done| | |].
    + intros [= <- <-]. rewrite app_nil_r. simpl in Hp'. by apply good_open.
    + rewrite fmap_Some. intros (c & _ & [= -> ->]). rewrite app_nil_r. simpl in Hp'. apply good_open; tauto.
    + rewrite fmap_Some. intros ([r l'] & Hm & [= -> ->]). simpl in Hp'. destruct Hp as (Hl & Hv' & Ht).
      destruct (moved_ok _ _ _ Ht Hm) as [_ Hr]. apply good_open; [tauto..|].
      destruct r as [r|]; apply good_written; [apply good_closed|apply good_open]; auto.
  - exists (out ++ pending_text p ++ [0x314F + v]), Nothing. split; [done|].
    assert (HA' : forall next', fed (out ++ pending_text p ++ [0x314F + v]) next' (state (out ++ pending_text p ++ [0x314F + v]) Nothing)).
    { intros next'. rewrite app_assoc at 1. apply (fed_snoc _ _ (Vowel v (0x314F + v)) _ (state out p)); [by apply HA|done|].
      rewrite feed_vowel by done. by rewrite Hw. }
    split; [done|]. split; [|intros next' _; simpl pending_text; rewrite app_nil_r; apply HA'].
    exists (out ++ pending_text p ++ [0x314F + v]), Nothing. split; [done|]. split; [apply HA'|]. simpl. by rewrite app_nil_r.
Qed.

Lemma unit_good unit next out p : typed_unit unit -> good out p (unit_is_vowel (Some unit)) ->
  exists out' p', feed unit next (state out p) = Some (state out' p') /\ good out' p' next.
Proof.
  destruct unit as [l t raw|v raw|l v t].
  - intros (l' & -> & Hl & -> & ->). by apply consonant_good.
  - intros [Hv ->]. by apply vowel_good.
  - intros H HG. exists (out ++ pending_text p), (composed l v t). split; [by apply syllable_state, HG|].
    apply good_syllable; [done|]. by apply good_written.
Qed.

Lemma units_good units next out p : Forall typed_unit units -> good out p (next_of next units) ->
  exists out' p', feed_before units next (state out p) = Some (state out' p') /\ good out' p' next.
Proof.
  intros H. revert out p. induction H as [|unit units Hu _ IH]; intros out p HG; [by exists out, p|].
  destruct (unit_good unit (next_of next units) out p Hu HG) as (out' & p' & Hf & HG').
  rewrite feed_cons, Hf. by apply IH.
Qed.

Lemma good_start next : good [] Nothing next.
Proof.
  assert (H : forall next', fed [] next' (state [] Nothing)) by (intros; by exists []).
  split; [done|]. split; [by exists [], Nothing|]. intros next' _. apply H.
Qed.

(** A final consonant that a vowel takes back is the one it would have been with
    the vowel in sight. *)
Lemma taken_back l v raw next out p : l < 19 -> pending_ok p ->
  let c := Consonant (Some l) (compat_jongseong (lead_char l)) (lead_char l) in
  (a ← feed c false (state out p); feed (Vowel v raw) next a) = (a ← feed c true (state out p); feed (Vowel v raw) next a).
Proof.
  intros Hl Hp c. unfold c. rewrite !feed_consonant by done. destruct (attaches _ false p) as [p'|] eqn:Ha; [|done].
  change (attaches _ true p) with (@None Pending). cbn [mbind option_bind].
  assert (Hf : forall t, compat_jongseong (lead_char l) = Some t -> is_final t) by (intros t Ht; by apply (lead_final l t Hl)).
  pose proof (attaches_ok _ _ _ _ Hp Hf Ha) as Hp'. rewrite !feed_vowel by done.
  revert Ha. unfold attaches. destruct p as [|l0|l0 v0|l0 v0 e]; try done.
  - rewrite fmap_Some. intros (t & Ht & ->). destruct (lead_final l t Hl Ht) as [_ Hm].
    simpl takes_vowel. unfold moved_jongseong. rewrite Hm. cbn. by rewrite app_nil_r.
  - rewrite fmap_Some. intros (d & Hd & ->). apply bind_Some in Hd as (t & Ht & Hd).
    destruct (lead_final l t Hl Ht) as [_ Hm]. destruct (double_ok _ _ _ Hd) as [_ (l' & Hl' & Hs)].
    simpl takes_vowel. rewrite Hs. rewrite Hm in Hl'. injection Hl' as <-. cbn. by rewrite app_nil_r.
Qed.

(** A text's last unit may be read without the vowel behind it. *)
Lemma feed_ahead units v raw rest next out p : Forall typed_unit units -> good out p (next_of true units) ->
  (a ← feed_before units false (state out p); feed_before (Vowel v raw :: rest) next a)
  = (a ← feed_before units true (state out p); feed_before (Vowel v raw :: rest) next a).
Proof.
  intros H. revert out p. induction H as [|unit units Hu Hus IH]; intros out p HG; [done|].
  destruct units as [|unit' units].
  - rewrite !feed_one. destruct unit as [l t raw'|v' raw'|l v' t]; try done.
    destruct Hu as (l' & -> & Hl & -> & ->).
    pose proof (taken_back l' v raw (next_of next rest) out p Hl (proj1 HG)) as E. cbv zeta in E. revert E.
    destruct (feed _ false _) as [a|], (feed _ true _) as [a'|]; cbn [mbind option_bind]; rewrite ?feed_cons; intros E; try done; (by rewrite E) || (by rewrite <- E).
  - rewrite !(feed_cons unit). change (next_of false (unit' :: units)) with (next_of true (unit' :: units)).
    destruct (unit_good unit (next_of true (unit' :: units)) out p Hu HG) as (out' & p' & -> & HG').
    cbn [mbind option_bind]. by apply IH.
Qed.

(** C17. A repair of a text that is then typed on, and repaired again, is the repair
    of the whole: the editor may repair at every key, and no key is lost or moved
    by the repairs before it.  It holds from the first key on, whatever Hangul
    follows. *)
Theorem repeated_repair_is_one_repair typed_first rest :
  forallb typed typed_first = true -> (exists units, classify_all rest = Some (Some units)) ->
  exists merged, recompose_hangul_run typed_first = Some merged
  /\ recompose_hangul_run (merged ++ rest) = recompose_hangul_run (typed_first ++ rest).
Proof.
  intros Ha Hb. destruct (typed_units _ Ha) as (ua & Hra & Hua).
  destruct (classify_all_cases rest) as [(ub & Hrb & _)|Hn]; [|destruct Hb as [us Hus]; congruence].
  destruct (units_good ua false [] Nothing Hua (good_start _)) as (out & p & Hf & HG).
  exists (out ++ pending_text p). pose proof HG as (Hp & _ & HA). split.
  { rewrite (recompose_reads _ _ Hra), Hf. cbn [mbind option_bind]. by rewrite flush_state. }
  destruct (HA (next_of false ub)) as (um & Hrm & Hfm); [done|].
  rewrite (recompose_reads (_ ++ rest) (um ++ ub)) by by apply Forall2_app.
  rewrite (recompose_reads (typed_first ++ rest) (ua ++ ub)) by by apply Forall2_app.
  f_equal. rewrite !feed_before_app, Hfm. destruct ub as [|[l t raw|v raw|l v t] ub];
    try (simpl next_of; rewrite Hf; done).
  pose proof (feed_ahead ua v raw ub false [] Nothing Hua (good_start _)) as E. rewrite Hf in E. exact E.
Qed.

(** ** The edit *)

#[local] Open Scope nat_scope.

(** The first [n] bytes, if they end at a character boundary. *)
Fixpoint str_prefix (n : nat) (s : str) : option str :=
  match n with
  | 0 => Some []
  | _ => match s with
         | [] => None
         | c :: s => if len_utf8 c <=? n then cons c <$> str_prefix (n - len_utf8 c) s else None
         end
  end.

(** [text.get(start..end)]. *)
Definition buffer_range (text : str) (start end_ : nat) : option str :=
  if end_ <? start then None else rest ← str_get_from text start; str_prefix (end_ - start) rest.

Lemma get_from_split s n rest : str_get_from s n = Some rest -> exists before, s = before ++ rest /\ utf8_len before = n.
Proof.
  revert n. induction s as [|c s IH]; intros [|n]; simpl; try (intros [= <-]; by exists []).
  destruct (Nat.leb_spec (len_utf8 c) (S n)) as [Hc|]; [|done]. intros H.
  destruct (IH _ H) as (before & -> & Hb). exists (c :: before). split; [done|].
  change (utf8_len (c :: before)) with (len_utf8 c + utf8_len before). lia.
Qed.

Lemma prefix_split n s w : str_prefix n s = Some w -> exists after, s = w ++ after /\ utf8_len w = n.
Proof.
  revert n w. induction s as [|c s IH]; intros [|n] w; simpl; try (intros [= <-]; by eexists).
  destruct (Nat.leb_spec (len_utf8 c) (S n)) as [Hc|]; [|done]. rewrite fmap_Some. intros (w' & H & ->).
  destruct (IH _ _ H) as (after & -> & Hw). exists after. split; [done|].
  change (utf8_len (c :: w')) with (len_utf8 c + utf8_len w'). lia.
Qed.

Lemma buffer_range_split text start end_ w : buffer_range text start end_ = Some w ->
  exists before after, text = before ++ w ++ after /\ utf8_len before = start /\ utf8_len (before ++ w) = end_.
Proof.
  unfold buffer_range. destruct (Nat.ltb_spec end_ start) as [|Hle]; [done|].
  rewrite bind_Some. intros (rest & Hr & Hp). apply get_from_split in Hr as (before & -> & Hb).
  apply prefix_split in Hp as (after & -> & Hw). exists before, after. split; [done|]. split; [done|].
  unfold utf8_len in *. rewrite sum_list_with_app. lia.
Qed.

Lemma leading_run text : exists after, text = leading_hangul_run text ++ after /\ forallb is_hangul_char (leading_hangul_run text) = true.
Proof.
  induction text as [|ch text (after & IH & Hh)]; [by exists []|]. simpl.
  destruct (is_hangul_char ch) eqn:Hc; [|by exists (ch :: text)]. exists after. simpl. by rewrite Hc, <- IH.
Qed.

(** The edit replaces a Hangul run that ends at or before [limit]. *)
Definition repairs (text : str) (limit : nat) (e : RepairEdit) : Prop :=
  exists before run after, text = before ++ run ++ after
  /\ utf8_len before = edit_start e /\ utf8_len (before ++ run) = edit_end e /\ edit_end e <= limit
  /\ forallb is_hangul_char run = true /\ recompose_hangul_run run = Some (replacement e)
  /\ replacement e <> run /\ forallb is_hangul_char (replacement e) = true.

Lemma merge_spec text pos limit : exists edit, merge (buffer_range text) pos limit = Some edit
  /\ forall e, edit = Some e -> edit_start e = pos /\ repairs text limit e.
Proof.
  unfold merge. destruct (limit <=? pos); [by exists None|].
  destruct (buffer_range text pos limit) as [committed|] eqn:Hr; [|by exists None].
  apply buffer_range_split in Hr as (before & after & -> & Hb & Hl).
  destruct (leading_run committed) as (tail & Hc & Hh). set (run := leading_hangul_run committed) in *.
  destruct (str_is_empty run); [by exists None|].
  destruct (recompose_is_total run) as (merged & Hm & Hmh). rewrite Hm. cbn [mbind option_bind].
  destruct (bool_decide_reflect (merged = run)) as [|Hne]; [by exists None|].
  eexists. split; [done|]. intros e [= <-]. split; [done|]. exists before, run, (tail ++ after). simpl.
  unfold utf8_len in *. rewrite Hc in Hl. rewrite !sum_list_with_app in *.
  split; [by rewrite Hc, <- app_assoc|]. split; [done|]. split; [lia|]. split; [lia|]. auto.
Qed.

(** The state is armed by a lone jamo just typed before the caret, and by
    nothing else. *)
Definition armed_by (text event_text : str) (has_command_modifiers : bool) (compose_state caret pos : nat) : Prop :=
  compose_state = 0 /\ has_command_modifiers = false /\ is_lone_hangul_jamo event_text = true
  /\ pos + utf8_len event_text = caret /\ buffer_range text pos caret = Some event_text.

Lemma arm_spec text event_text modifiers compose_state caret s pos :
  arm (buffer_range text) event_text modifiers compose_state caret s = Some pos ->
  s = Some pos \/ armed_by text event_text modifiers compose_state caret pos.
Proof.
  unfold arm. destruct (_ && _) eqn:H; [|by left].
  rewrite !andb_true_iff, Nat.eqb_eq, negb_true_iff, Nat.leb_le in H. destruct H as [[[[Hc Hm] Hj] Hle] Ht].
  intros [= <-]. right. split; [done|]. split; [done|]. split; [done|]. split; [lia|].
  destruct (buffer_range text _ caret) as [t|]; [|done]. simpl in Ht. apply bool_decide_eq_true in Ht. by rewrite Ht.
Qed.

(** Whatever the event and the buffer, a key is handled without a panic.  An edit
    replaces a Hangul run that starts at the stranded jamo and ends before what is
    being composed, or the caret, by its recomposition, which is Hangul again; the
    jamo stays stranded only while a composition goes on, and a position is only
    armed by a lone jamo that the key just put there. *)
Theorem key_event_repairs_its_run text event_text modifiers compose_state caret s :
  exists s' edit, on_key_event (buffer_range text) event_text modifiers compose_state caret s = Some (s', edit)
  /\ match edit with
     | Some e => s = Some (edit_start e) /\ repairs text (caret - compose_state) e
                 /\ s' = (if 0 <? compose_state then s else None)
     | None => forall pos, s' = Some pos ->
         (0 < compose_state /\ s = Some pos) \/ armed_by text event_text modifiers compose_state caret pos
     end.
Proof.
  unfold on_key_event. destruct s as [pos|].
  - destruct (Nat.ltb_spec 0 compose_state) as [Hc|Hc].
    + destruct (_ && _).
      * destruct (merge_spec text pos (caret - compose_state)) as (edit & -> & He). cbn [mbind option_bind].
        exists (Some pos), edit. split; [done|]. destruct edit as [e|]; [|by left].
        destruct (He e eq_refl) as [<- Hr]. done.
      * exists (Some pos), None. split; [done|]. by left.
    + destruct (merge_spec text pos caret) as (edit & -> & He). cbn [mbind option_bind]. destruct edit as [e|].
      * exists None, (Some e). split; [done|]. destruct (He e eq_refl) as [<- Hr].
        by replace (caret - compose_state) with caret by lia.
      * eexists _, None. split; [done|]. intros pos' H. apply arm_spec in H as [H|H]; [done|by right].
  - eexists _, None. split; [done|]. intros pos' H. apply arm_spec in H as [H|H]; [done|by right].
Qed.

(** ** Concrete texts *)

(** The trace of the program's test: the third key repairs, the fourth finds
    nothing to do. *)
Example a_trace :
  on_key_event (buffer_range [0x3148%N]) [0x3148%N] false 0 3 None = Some (Some 0, None)
  /\ on_key_event (buffer_range [0x3148; 0x314F; 0x3147; 0x3147]%N) [0x314F; 0x3147]%N false 3 12 (Some 0)
     = Some (Some 0, Some (mkRepairEdit 0 9 [jang]))
  /\ on_key_event (buffer_range [0xC7A5; 0xC5EC]%N) [0xC5EC%N] false 3 6 (Some 0) = Some (Some 0, None).
Proof. split; [|split]; vm_compute; reflexivity. Qed.

(** A conjoining jamo is written as a key, which a second repair reads
    differently. *)
Example conjoining_jamo_are_not_stable :
  recompose_hangul_run [0xAC00; 0x1100]%N = Some [0xAC00; 0x3131]%N
  /\ recompose_hangul_run [0xAC00; 0x3131]%N = Some [0xAC01%N].
Proof. split; vm_compute; reflexivity. Qed.

Lemma repeated_repair_is_one_repair_witness : exists merged, recompose_hangul_run [0x3148; 0x314F; 0x3147]%N = Some merged
  /\ recompose_hangul_run (merged ++ [0x314F; 0xD658]%N) = recompose_hangul_run [0x3148; 0x314F; 0x3147; 0x314F; 0xD658]%N.
Proof.
  apply (repeated_repair_is_one_repair [0x3148; 0x314F; 0x3147]%N [0x314F; 0xD658]%N); [vm_compute; reflexivity|].
  eexists. vm_compute. reflexivity.
Defined.
