(* ===== verification/SqlLiteral.v ===== *)
(** * Writing a value as SQL text

    The literals of [ui/grid_sql_export.rs]: what a cell becomes inside a generated
    statement, per backend and per session rule for the backslash, and which values
    cannot be written.  [SessionBackslashRule] is of [db/transaction.rs]. *)
From S2P Require Import Prelude RustStr SessionPolicy GridSort ResultFilter RustParse.

(** ** Dialects *)

Inductive SessionBackslashRule := Rule_Escapes | Rule_Literal | Rule_Unknown.

Definition rule_doubles_a_backslash (r : SessionBackslashRule) : option bool :=
  match r with Rule_Escapes => Some true | Rule_Literal => Some false | Rule_Unknown => None end.

Definition session_backslash_rule_for_sql_mode (sql_mode : str) : SessionBackslashRule :=
  if existsb (fun mode => eq_ignore_ascii_case (trim mode) (u "NO_BACKSLASH_ESCAPES")) (split_on ","%ch sql_mode)
  then Rule_Literal else Rule_Escapes.

Record SqlWriteDialect := mkDialect { db_type : DatabaseType; backslash : SessionBackslashRule }.

Definition dialect_is_mysql (d : SqlWriteDialect) : bool := is_mysql_or_mariadb (db_type d).

Definition doubles_a_backslash (d : SqlWriteDialect) : option bool := rule_doubles_a_backslash (backslash d).

(** What it reads of the [ConnectionInfo] are its arguments. *)
Definition for_connection (db : DatabaseType) (mysql_sql_mode : str) : SqlWriteDialect :=
  mkDialect db (if is_mysql_or_mariadb db then session_backslash_rule_for_sql_mode mysql_sql_mode else Rule_Literal).

Definition with_observed_backslash_rule (observed : option SessionBackslashRule) (d : SqlWriteDialect) : SqlWriteDialect :=
  if negb (dialect_is_mysql d) then d
  else match observed with Some rule => mkDialect (db_type d) rule | None => d end.

Definition for_session (db : DatabaseType) (mysql_sql_mode : str) (observed : option SessionBackslashRule) : SqlWriteDialect :=
  with_observed_backslash_rule observed (for_connection db mysql_sql_mode).

Definition family_default (db : DatabaseType) : SqlWriteDialect :=
  mkDialect db (if is_mysql_or_mariadb db then Rule_Escapes else Rule_Literal).

(** ** Quoted text *)

Definition ORACLE_MAX_LITERAL_BYTES : nat := 4000.

Inductive ValueCannotBeWritten := TooLongForOneLiteral (literal_bytes : nat) | UnknownBackslashRule.

Abbreviation Writing A := (A + ValueCannotBeWritten)%type.

Definition BACKSLASH : char := "\"%ch.

Definition double_quotes (value : str) : str := str_replace (u "'") (u "''") value.

Definition quoted_string (value : str) (d : SqlWriteDialect) : Writing str :=
  let finish (escaped : str) :=
    if negb (dialect_is_mysql d) && (ORACLE_MAX_LITERAL_BYTES <? utf8_len escaped)
    then inr (TooLongForOneLiteral (utf8_len escaped))
    else inl (u "'" ++ escaped ++ u "'") in
  match doubles_a_backslash d with
  | Some true => finish (double_quotes (str_replace [BACKSLASH] [BACKSLASH; BACKSLASH] value))
  | Some false => finish (double_quotes value)
  | None => if str_contains value [BACKSLASH] then inr UnknownBackslashRule else finish (double_quotes value)
  end.

Definition spliced_literal_content (text : str) : Writing str :=
  if ORACLE_MAX_LITERAL_BYTES <? utf8_len text then inr (TooLongForOneLiteral (utf8_len text)) else inl text.

(** ** Shapes *)

Definition is_all_digits (text : str) : bool := negb (str_is_empty text) && forallb is_ascii_digit text.

Definition is_ascii_hexdigit (c : char) : bool :=
  is_ascii_digit c || in_range "A"%ch "F"%ch c || in_range "a"%ch "f"%ch c.

Definition is_plain_hex_literal (text : str) : bool :=
  negb (str_is_empty text) && Nat.even (utf8_len text) && forallb is_ascii_hexdigit text.

Definition is_sign (c : char) : bool := N.eqb c "+"%ch || N.eqb c "-"%ch.

(** A sign, if there is one, is passed. *)
Definition skip_sign (s : str) : str :=
  match s with c :: s' => if is_sign c then s' else s | [] => [] end.

Definition is_plain_numeric_literal (text : str) : bool :=
  let '(integer, rest) := span_digits (skip_sign text) in
  let '(fraction, rest) :=
    match rest with
    | c :: rest' => if N.eqb c "."%ch then span_digits rest' else ([], rest)
    | [] => ([], [])
    end in
  if length integer + length fraction =? 0 then false
  else
    match rest with
    | c :: rest' =>
        if N.eqb c "e"%ch || N.eqb c "E"%ch then
          let '(exponent, rest) := span_digits (skip_sign rest') in
          if length exponent =? 0 then false else str_is_empty rest
        else false
    | [] => true
    end.

Definition is_iso_date (text : str) : bool :=
  match split_on "-"%ch text with
  | [year; month; day] =>
      (utf8_len year =? 4) && (utf8_len month =? 2) && (utf8_len day =? 2)
      && is_all_digits year && is_all_digits month && is_all_digits day
  | _ => false
  end.

Definition is_clock_time (text : str) : bool :=
  match split_on ":"%ch text with
  | [hour; minute; second] =>
      (utf8_len hour =? 2) && (utf8_len minute =? 2) && (utf8_len second =? 2)
      && is_all_digits hour && is_all_digits minute && is_all_digits second
  | _ => false
  end.

(** [text.rfind(p)]. *)
Fixpoint rfind_char (p : char -> bool) (text : str) : option nat :=
  match text with
  | [] => None
  | c :: text =>
      match rfind_char p text with
      | Some i => Some (S i)
      | None => if p c then Some 0 else None
      end
  end.

Definition split_timezone_suffix (text : str) : str * option str :=
  match rfind_char is_sign text with
  | None => (text, None)
  | Some position =>
      if (position =? 0) || negb (str_contains (take position text) (u ":")) then (text, None)
      else
        let head := take position text in
        let offset := drop position text in
        match split_once (N.eqb ":"%ch) (drop 1 offset) with
        | Some (hours, minutes) =>
            if (utf8_len hours =? 2) && (utf8_len minutes =? 2) && is_all_digits hours && is_all_digits minutes
            then (trim_end head, Some offset) else (text, None)
        | None => (text, None)
        end
  end.

(** ** Literals *)

Definition SqlValueKind_is_boolean (k : SqlValueKind) : bool := match k with Kind_Boolean => true | _ => false end.

Definition numeric_literal_or_quoted (value : str) (kind : SqlValueKind) (d : SqlWriteDialect) : Writing str :=
  let trimmed := trim value in
  if is_plain_numeric_literal trimmed
     || (SqlValueKind_is_boolean kind
         && (eq_ignore_ascii_case trimmed (u "TRUE") || eq_ignore_ascii_case trimmed (u "FALSE")))
  then inl trimmed
  else quoted_string value d.

(** [HEXTORAW('...')] and its like, around text that was proved. *)
Definition spliced (before : str) (content after : str) : Writing str :=
  match spliced_literal_content content with
  | inl content => inl (before ++ content ++ after)
  | inr e => inr e
  end.

Definition oracle_binary_literal (value : str) (d : SqlWriteDialect) : Writing str :=
  let text := trim value in
  if is_plain_hex_literal text then spliced (u "HEXTORAW('") text (u "')") else quoted_string value d.

Definition oracle_temporal_literal (value : str) (d : SqlWriteDialect) : Writing str :=
  let text := trim value in
  let '(datetime, zone) := split_timezone_suffix text in
  let '(date_part, time_part) :=
    match split_once (N.eqb " "%ch) datetime with
    | Some (date, time) => (date, Some time)
    | None => (datetime, None)
    end in
  if negb (is_iso_date date_part) then quoted_string value d
  else
    match time_part with
    | None => spliced (u "TO_DATE('") text (u "','YYYY-MM-DD')")
    | Some time_part =>
        let '(clock, fraction) :=
          match split_once (N.eqb "."%ch) time_part with
          | Some (clock, fraction) => (clock, Some fraction)
          | None => (time_part, None)
          end in
        if negb (is_clock_time clock) then quoted_string value d
        else
          match fraction, zone with
          | None, None => spliced (u "TO_DATE('") text (u "','YYYY-MM-DD HH24:MI:SS')")
          | Some fraction, None =>
              if is_all_digits fraction then spliced (u "TO_TIMESTAMP('") text (u "','YYYY-MM-DD HH24:MI:SS.FF')")
              else quoted_string value d
          | Some fraction, Some zone =>
              if is_all_digits fraction
              then spliced (u "TO_TIMESTAMP_TZ('") (datetime ++ u " " ++ zone) (u "','YYYY-MM-DD HH24:MI:SS.FF TZH:TZM')")
              else quoted_string value d
          | None, Some zone =>
              spliced (u "TO_TIMESTAMP_TZ('") (datetime ++ u " " ++ zone) (u "','YYYY-MM-DD HH24:MI:SS TZH:TZM')")
          end
    end.

(** The pieces around the ampersands, and [CHR(38)] between them. *)
Fixpoint defused_parts (index : nat) (pieces : list str) : list str :=
  match pieces with
  | [] => []
  | piece :: pieces =>
      (if 0 <? index then [u "CHR(38)"] else [])
      ++ (if negb (str_is_empty piece) then [u "'" ++ piece ++ u "'"] else [])
      ++ defused_parts (S index) pieces
  end.

Definition defuse_substitution (d : SqlWriteDialect) (literal : str) : str :=
  if dialect_is_mysql d || negb (str_contains literal (u "&")) then literal
  else
    match (rest ← strip_prefix literal (u "'"); strip_suffix rest (u "'")) with
    | None => literal
    | Some inner => join (u "||") (defused_parts 0 (split_on "&"%ch inner))
    end.

(** ** Text of any length *)

(** What one character costs inside a literal. *)
Definition literal_cost (ch : char) : nat := if N.eqb ch "'"%ch then 2 * len_utf8 ch else len_utf8 ch.

(** [parts.push(defuse_substitution(dialect, &quoted_string(&piece, dialect)?))]. *)
Definition push_part (d : SqlWriteDialect) (piece : str) (parts : list str) : Writing (list str) :=
  match quoted_string piece d with
  | inl literal => inl (vec_push (defuse_substitution d literal) parts)
  | inr e => inr e
  end.

(** The loop over the characters, and the piece left behind it. *)
Fixpoint clob_parts (d : SqlWriteDialect) (chars piece : str) (piece_bytes : nat) (parts : list str) : Writing (list str) :=
  match chars with
  | [] => if negb (str_is_empty piece) then push_part d piece parts else inl parts
  | ch :: chars =>
      let cost := literal_cost ch in
      if negb (str_is_empty piece) && (ORACLE_MAX_LITERAL_BYTES <? piece_bytes + cost) then
        match push_part d piece parts with
        | inl parts => clob_parts d chars [ch] cost parts
        | inr e => inr e
        end
      else clob_parts d chars (vec_push ch piece) (piece_bytes + cost) parts
  end.

Definition oracle_text_literal (value : str) (d : SqlWriteDialect) : Writing str :=
  if dialect_is_mysql d then quoted_string value d
  else
    match quoted_string value d with
    | inl single => inl single
    | inr _ =>
        match clob_parts d value [] 0 [] with
        | inl parts => inl (join (u "||") ((fun part => u "TO_CLOB(" ++ part ++ u ")") <$> parts))
        | inr e => inr e
        end
    end.

Definition sql_literal_for_value (d : SqlWriteDialect) (kind : SqlValueKind) (value : str) : Writing str :=
  let mysql_family := dialect_is_mysql d in
  let literal :=
    match kind with
    | Kind_Number | Kind_Boolean => numeric_literal_or_quoted value kind d
    | Kind_Temporal => if mysql_family then quoted_string value d else oracle_temporal_literal value d
    | Kind_Binary => if mysql_family then quoted_string value d else oracle_binary_literal value d
    | Kind_String => oracle_text_literal value d
    | Kind_Unknown => quoted_string value d
    end in
  match literal with inl literal => inl (defuse_substitution d literal) | inr e => inr e end.

Definition sql_literal_for_cell (d : SqlWriteDialect) (kind : SqlValueKind) (cell : option str) : Writing str :=
  match cell with
  | None => inl (u "NULL")
  | Some value => sql_literal_for_value d kind value
  end.

(** The assertion of a debug build does not fail: a MySQL session of the family's
    default rule refuses nothing. *)
Definition mysql_family_literal (kind : SqlValueKind) (value : str) : str :=
  match sql_literal_for_value (family_default DatabaseType_MySQL) kind value with
  | inl literal => literal
  | inr _ => u "'" ++ double_quotes (str_replace [BACKSLASH] [BACKSLASH; BACKSLASH] value) ++ u "'"
  end.

(** ** The inputs of the program's tests *)

Definition oracle : SqlWriteDialect := family_default DatabaseType_Oracle.

Example oracle_literals :
  sql_literal_for_value oracle Kind_String (u "AT&T's") = inl (u "'AT'||CHR(38)||'T''s'")
  /\ sql_literal_for_value oracle Kind_Temporal (u "2024-01-02 03:04:05-05:30")
     = inl (u "TO_TIMESTAMP_TZ('2024-01-02 03:04:05 -05:30','YYYY-MM-DD HH24:MI:SS TZH:TZM')")
  /\ sql_literal_for_value oracle Kind_Binary (u "DEADBEEF") = inl (u "HEXTORAW('DEADBEEF')")
  /\ sql_literal_for_value oracle Kind_Number (u "1); DROP TABLE x; --") = inl (u "'1); DROP TABLE x; --'")
  /\ sql_literal_for_value oracle Kind_Number (u " -1.5e3 ") = inl (u "-1.5e3").
Proof. vm_compute. repeat split. Qed.
