(* ===== verification/SqlImport.v ===== *)
(** * Reading a file of INSERT statements

    The SQL reader of [ui/result_import.rs].  The loops walk the characters with a
    count of those that were read ahead; positions are characters, and every
    position the reader takes is the boundary of one.  [i32] depths do not
    overflow for want of text. *)
From S2P Require Import Prelude RustStr GridSort RustParse ResultExport ImportDelimited SqlLiteral.

(** ** Strings *)

(** [text.split_whitespace()]. *)
Fixpoint words_from (word : str) (text : str) : list str :=
  match text with
  | [] => if str_is_empty word then [] else [word]
  | c :: text =>
      if is_whitespace c then (if str_is_empty word then [] else [word]) ++ words_from [] text
      else words_from (vec_push c word) text
  end.
Definition split_whitespace (text : str) : list str := words_from [] text.

Definition is_str (text : str) (pattern : str) : bool := eq_ignore_ascii_case text pattern.

(** [text.find('(')]. *)
Definition find_char (c : char) (text : str) : option nat := str_find text [c].

(** ** Dialects *)

Inductive SqlFileDialect := File_Oracle | File_MysqlFamily (backslash_escapes : bool).

Definition backslash_escapes (d : SqlFileDialect) : bool :=
  match d with File_MysqlFamily escapes => escapes | File_Oracle => false end.

Definition file_is_oracle (d : SqlFileDialect) : bool := match d with File_Oracle => true | _ => false end.

Definition SQL_MODE_DECLARATION : str := u "sql_mode:".
Definition NO_BACKSLASH_ESCAPES_MARK : str := u "NO_BACKSLASH_ESCAPES".

(** [text.split(p)]. *)
Fixpoint split_where (p : char -> bool) (piece : str) (text : str) : list str :=
  match text with
  | [] => [piece]
  | c :: text => if p c then piece :: split_where p [] text else split_where p (vec_push c piece) text
  end.

Definition declares_no_backslash_escapes (comment : str) : bool :=
  let trimmed := trim_start comment in
  let head := take (length SQL_MODE_DECLARATION) trimmed in
  if is_str head SQL_MODE_DECLARATION then
    existsb (fun word => is_str word NO_BACKSLASH_ESCAPES_MARK)
      (split_where (fun ch => negb (is_ascii_alphanumeric ch) && negb (N.eqb ch "_"%ch)) [] (drop (length SQL_MODE_DECLARATION) trimmed))
  else false.

(** [body.split_once(pattern).unwrap_or((body, ''))]. *)
Definition split_at_str (pattern : str) (body : str) : str * str :=
  match str_find body pattern with
  | Some at_ => (take at_ body, drop (at_ + length pattern) body)
  | None => (body, [])
  end.

(** Each comment is at least its opening long. *)
Fixpoint declaration_loop (fuel : nat) (rest : str) : bool :=
  match fuel with
  | 0 => false
  | S fuel =>
      let rest := trim_start rest in
      match strip_prefix rest (u "--") with
      | Some body =>
          let '(comment, tail) := split_at_str [LF] body in
          declares_no_backslash_escapes comment || declaration_loop fuel tail
      | None =>
          match strip_prefix rest (u "/*") with
          | Some body =>
              let '(comment, tail) := split_at_str (u "*/") body in
              declares_no_backslash_escapes comment || declaration_loop fuel tail
          | None => false
          end
      end
  end.

Definition sql_file_declares_no_backslash_escapes (text : str) : bool := declaration_loop (S (length text)) text.

(** ** Where a literal, a name and a comment end *)

(** How much of the text behind the opening quote is the literal's. *)
Fixpoint literal_len (escapes : bool) (text : str) : nat :=
  match text with
  | [] => 0
  | ch :: rest =>
      if N.eqb ch BACKSLASH && escapes then
        match rest with
        | [] => 1
        | _ :: rest => 2 + literal_len escapes rest
        end
      else if N.eqb ch "'"%ch then
        match rest with
        | ch' :: rest' => if N.eqb ch' "'"%ch then 2 + literal_len escapes rest' else 1
        | [] => 1
        end
      else 1 + literal_len escapes rest
  end.

Definition string_literal_end (text : str) (open : nat) (d : SqlFileDialect) : nat :=
  open + 1 + literal_len (backslash_escapes d) (drop (open + 1) text).

Fixpoint identifier_len (quote : char) (text : str) : nat :=
  match text with
  | [] => 0
  | ch :: rest =>
      if N.eqb ch quote then
        match rest with
        | ch' :: rest' => if N.eqb ch' quote then 2 + identifier_len quote rest' else 1
        | [] => 1
        end
      else 1 + identifier_len quote rest
  end.

(** A comment from its opening on. *)
Definition line_comment_len (text : str) : nat :=
  match str_find text [LF] with Some at_ => at_ + 1 | None => length text end.

Definition block_comment_len (text : str) : nat :=
  match str_find (drop 2 text) (u "*/") with Some at_ => 2 + at_ + 2 | None => length text end.

(** How far a quote that [ch] opens reaches behind it. *)
Definition quoted_len (d : SqlFileDialect) (ch : char) (rest : str) : option nat :=
  if N.eqb ch "'"%ch then Some (literal_len (backslash_escapes d) rest)
  else if N.eqb ch QUOTE || N.eqb ch "`"%ch then Some (identifier_len ch rest)
  else None.

Fixpoint detect_loop (escapes : bool) (ahead : nat) (text : str) : SqlFileDialect :=
  match text with
  | [] => File_Oracle
  | ch :: rest =>
      match ahead with
      | S ahead => detect_loop escapes ahead rest
      | 0 =>
          if N.eqb ch "'"%ch then detect_loop escapes (literal_len false rest) rest
          else if N.eqb ch QUOTE then detect_loop escapes (identifier_len QUOTE rest) rest
          else if N.eqb ch "`"%ch then File_MysqlFamily escapes
          else if starts_with text (u "--") then detect_loop escapes (line_comment_len text - 1) rest
          else if starts_with text (u "/*") then detect_loop escapes (block_comment_len text - 1) rest
          else detect_loop escapes 0 rest
      end
  end.

Definition detect_sql_file_dialect (text : str) : SqlFileDialect :=
  detect_loop (negb (sql_file_declares_no_backslash_escapes text)) 0 text.

(** ** Statements *)

(** [ahead] characters belong to a quote and are kept, [skip] to a comment. *)
Fixpoint statements_loop (d : SqlFileDialect) (ahead skip : nat) (depth : Z) (current : str) (text : str) : list str :=
  match text with
  | [] => if str_is_empty (trim current) then [] else [current]
  | ch :: rest =>
      match ahead, skip with
      | S ahead, _ => statements_loop d ahead skip depth (vec_push ch current) rest
      | 0, S skip => statements_loop d 0 skip depth current rest
      | 0, 0 =>
          match quoted_len d ch rest with
          | Some len => statements_loop d len 0 depth (vec_push ch current) rest
          | None =>
              if starts_with text (u "--") then statements_loop d 0 (line_comment_len text - 1) depth (vec_push LF current) rest
              else if starts_with text (u "/*") then statements_loop d 0 (block_comment_len text - 1) depth (vec_push " "%ch current) rest
              else if N.eqb ch "("%ch then statements_loop d 0 0 (depth + 1) (vec_push ch current) rest
              else if N.eqb ch ")"%ch then statements_loop d 0 0 (depth - 1) (vec_push ch current) rest
              else if N.eqb ch ";"%ch && (depth <=? 0)%Z then current :: statements_loop d 0 0 depth [] rest
              else statements_loop d 0 0 depth (vec_push ch current) rest
          end
      end
  end.

Definition split_sql_statements (text : str) (d : SqlFileDialect) : list str :=
  List.filter (fun statement => negb (str_is_empty (trim statement))) (statements_loop d 0 0 0 [] text).

(** ** Parts of a statement *)

Fixpoint open_paren_loop (d : SqlFileDialect) (ahead index : nat) (text : str) : option nat :=
  match text with
  | [] => None
  | ch :: rest =>
      match ahead with
      | S ahead => open_paren_loop d ahead (S index) rest
      | 0 =>
          match quoted_len d ch rest with
          | Some len => open_paren_loop d len (S index) rest
          | None => if N.eqb ch "("%ch then Some index else open_paren_loop d 0 (S index) rest
          end
      end
  end.

Definition find_open_paren (text : str) (d : SqlFileDialect) : option nat := open_paren_loop d 0 0 text.

Fixpoint matching_loop (d : SqlFileDialect) (ahead : nat) (depth : Z) (index : nat) (text : str) : option nat :=
  match text with
  | [] => None
  | ch :: rest =>
      match ahead with
      | S ahead => matching_loop d ahead depth (S index) rest
      | 0 =>
          match quoted_len d ch rest with
          | Some len => matching_loop d len depth (S index) rest
          | None =>
              if N.eqb ch "("%ch then matching_loop d 0 (depth + 1) (S index) rest
              else if N.eqb ch ")"%ch then
                if (depth - 1 =? 0)%Z then Some index else matching_loop d 0 (depth - 1) (S index) rest
              else matching_loop d 0 depth (S index) rest
          end
      end
  end.

Definition matching_paren (text : str) (open : nat) (d : SqlFileDialect) : option nat :=
  matching_loop d 0 0 open (drop open text).

Fixpoint top_level_loop (d : SqlFileDialect) (ahead : nat) (depth : Z) (part : str) (text : str) : list str :=
  match text with
  | [] => [part]
  | ch :: rest =>
      match ahead with
      | S ahead => top_level_loop d ahead depth (vec_push ch part) rest
      | 0 =>
          match quoted_len d ch rest with
          | Some len => top_level_loop d len depth (vec_push ch part) rest
          | None =>
              if N.eqb ch "("%ch then top_level_loop d 0 (depth + 1) (vec_push ch part) rest
              else if N.eqb ch ")"%ch then top_level_loop d 0 (depth - 1) (vec_push ch part) rest
              else if N.eqb ch ","%ch && (depth =? 0)%Z then part :: top_level_loop d 0 depth [] rest
              else top_level_loop d 0 depth (vec_push ch part) rest
          end
      end
  end.

Definition split_top_level (text : str) (d : SqlFileDialect) : list str := top_level_loop d 0 0 [] text.

(** Quoted names are not passed over here; [skip] is the second bar. *)
Fixpoint concatenation_loop (d : SqlFileDialect) (ahead skip : nat) (depth : Z) (part : str) (text : str) : list str :=
  match text with
  | [] => [part]
  | ch :: rest =>
      match ahead, skip with
      | S ahead, _ => concatenation_loop d ahead skip depth (vec_push ch part) rest
      | 0, S skip => concatenation_loop d 0 skip depth part rest
      | 0, 0 =>
          if N.eqb ch "'"%ch then concatenation_loop d (literal_len (backslash_escapes d) rest) 0 depth (vec_push ch part) rest
          else if N.eqb ch "("%ch then concatenation_loop d 0 0 (depth + 1) (vec_push ch part) rest
          else if N.eqb ch ")"%ch then concatenation_loop d 0 0 (depth - 1) (vec_push ch part) rest
          else if (depth =? 0)%Z && starts_with text (u "||") then part :: concatenation_loop d 0 1 depth [] rest
          else concatenation_loop d 0 0 depth (vec_push ch part) rest
      end
  end.

Definition split_concatenation (text : str) (d : SqlFileDialect) : list str := concatenation_loop d 0 0 0 [] text.

Definition ends_word (ch : option char) : bool :=
  match ch with
  | Some ch => negb (is_ascii_alphanumeric ch) && negb (N.eqb ch "_"%ch)
  | None => true
  end.

Fixpoint keyword_loop (d : SqlFileDialect) (keyword : str) (ahead index : nat) (before : option char) (text : str) : option nat :=
  match text with
  | [] => None
  | ch :: rest =>
      match ahead with
      | S ahead => keyword_loop d keyword ahead (S index) (Some ch) rest
      | 0 =>
          match quoted_len d ch rest with
          | Some len => keyword_loop d keyword len (S index) (Some ch) rest
          | None =>
              if is_str (take (length keyword) text) keyword && ends_word before && ends_word (head (drop (length keyword) text))
              then Some index
              else keyword_loop d keyword 0 (S index) (Some ch) rest
          end
      end
  end.

Definition find_keyword (text keyword : str) (d : SqlFileDialect) : option nat := keyword_loop d keyword 0 0 None text.

Definition unquote_identifier (name : str) : str :=
  let name := trim name in
  let unquoted (quote : char) : option str :=
    if (2 <=? utf8_len name) && starts_with name [quote] && ends_with name [quote]
    then Some (str_replace [quote; quote] [quote] (take (length name - 2) (drop 1 name))) else None in
  match unquoted QUOTE with
  | Some name => name
  | None => default name (unquoted "`"%ch)
  end.

Definition read_column_list (text : str) (d : SqlFileDialect) : list str :=
  (fun column => unquote_identifier (trim column)) <$> split_top_level text d.

(** The first candidate that is not taken and goes by the name. *)
Fixpoint free_column (name : str) (taken : list bool) (columns : list str) : option nat :=
  match taken, columns with
  | t :: taken, candidate :: columns =>
      if negb t && eq_ignore_ascii_case candidate name then Some 0 else S <$> free_column name taken columns
  | _, _ => None
  end.

Fixpoint order_loop (wanted : list str) (taken : list bool) (columns : list str) : option (list nat) :=
  match wanted with
  | [] => Some []
  | name :: wanted =>
      found ← free_column name taken columns;
      order ← order_loop wanted (<[found := true]> taken) columns;
      Some (found :: order)
  end.

Definition column_order_against (wanted columns : list str) : option (list nat) :=
  if negb (length wanted =? length columns) then None
  else order_loop wanted (replicate (length columns) false) columns.

(** ** Values *)

Definition sql_string_literal_body (escapes : bool) : str -> option str :=
  fix body (text : str) : option str :=
    match text with
    | [] => Some []
    | ch :: rest =>
        if N.eqb ch "'"%ch then
          match rest with [] => None | _ :: rest => cons "'"%ch <$> body rest end
        else if N.eqb ch BACKSLASH && escapes then
          match rest with
          | [] => None
          | next :: rest =>
              (if N.eqb next "n"%ch then cons LF
               else if N.eqb next "r"%ch then cons CR
               else if N.eqb next "t"%ch then cons 9%N
               else if N.eqb next "0"%ch then cons 0%N
               else if N.eqb next "b"%ch then cons 8%N
               else if N.eqb next "Z"%ch then cons 26%N
               else if N.eqb next "%"%ch || N.eqb next "_"%ch then fun out => BACKSLASH :: next :: out
               else cons next) <$> body rest
          end
        else cons ch <$> body rest
    end.

Definition sql_string_literal_text (value : str) (d : SqlFileDialect) : option str :=
  if (utf8_len value <? 2) || negb (starts_with value (u "'")) || negb (ends_with value (u "'")) then None
  else if negb (string_literal_end value 0 d =? length value) then None
  else
    inner ← (rest ← strip_prefix value (u "'"); strip_suffix rest (u "'"));
    sql_string_literal_body (backslash_escapes d) inner.

(** [value.split_once(['e', 'E'])]. *)
Definition is_exponent_char (c : char) : bool := N.eqb c "e"%ch || N.eqb c "E"%ch.

Definition is_sql_numeric_literal (value : str) : bool :=
  let value := skip_sign value in
  if str_is_empty value then false
  else
    match
      match split_once is_exponent_char value with
      | Some (head, exponent) =>
          let exponent := skip_sign exponent in
          if str_is_empty exponent || negb (forallb is_ascii_digit exponent) then None else Some head
      | None => Some value
      end
    with
    | None => false
    | Some mantissa =>
        let digits := split_on "."%ch mantissa in
        (length digits <=? 2) && existsb (fun part => negb (str_is_empty part)) digits
        && forallb (forallb is_ascii_digit) digits
    end.

(** [text.get(..4)] is not taken when its fourth byte is inside a character,
    which no call has. *)
Definition chr_call_character (text : str) : option char :=
  if negb (is_str (take 4 text) (u "CHR(")) then None
  else
    digits ← strip_suffix (drop 4 text) (u ")");
    code ← parse_unsigned U32_MAX (trim digits);
    let code := Z.to_N code in
    if (N.ltb code 55296 || in_range 57344 1114111 code) then Some code else None.

Definition to_clob_argument (text : str) : option str :=
  open ← find_char "("%ch text;
  if negb (is_str (trim (take open text)) (u "TO_CLOB")) then None
  else rest ← strip_suffix text (u ")"); Some (drop (open + 1) rest).

Definition concatenation_piece_text (part : str) (d : SqlFileDialect) : option str :=
  match sql_string_literal_text part d with
  | Some text => Some text
  | None => (fun c => [c]) <$> chr_call_character part
  end.

(** [pieces.map(read).collect::<Option<Vec<_>>>().concat()]. *)
Fixpoint read_pieces (read : str -> option str) (pieces : list str) : option str :=
  match pieces with
  | [] => Some []
  | piece :: pieces => text ← read piece; rest ← read_pieces read pieces; Some (text ++ rest)
  end.

Definition simple_concatenation_text (value : str) (d : SqlFileDialect) : option str :=
  read_pieces (fun part => concatenation_piece_text (trim part) d) (split_concatenation value d).

Definition concatenated_literal_text (value : str) (d : SqlFileDialect) : option str :=
  if negb (file_is_oracle d) then None
  else
    read_pieces (fun part =>
      let part := trim part in
      match to_clob_argument part with
      | Some inner => simple_concatenation_text inner d
      | None => concatenation_piece_text part d
      end) (split_concatenation value d).

Definition cannot_read (value : str) : str := u "The SQL file has a value this import cannot read: " ++ value.

Definition unwrap_conversion_call (value : str) (d : SqlFileDialect) : option str + str :=
  match find_char "("%ch value with
  | None => inl None
  | Some open =>
      let name := trim (take open value) in
      if negb (existsb (is_str name) [u "to_date"; u "to_timestamp"; u "to_timestamp_tz"; u "hextoraw"; u "to_clob"]) then inl None
      else
        match matching_paren value open d with
        | None => inr (u "A conversion call is not closed: " ++ value)
        | Some close =>
            let first :=
              if str_is_empty (trim (drop (close + 1) value)) then
                first ← head (split_top_level (take (close - (open + 1)) (drop (open + 1) value)) d);
                sql_string_literal_text (trim first) d
              else None in
            match first with
            | Some text => inl (Some text)
            | None => inr (cannot_read value)
            end
        end
  end.

Definition sql_value_text (value : str) (d : SqlFileDialect) : ImportCell + str :=
  let value := trim value in
  if is_str value (u "null") then inl None
  else
    match sql_string_literal_text value d with
    | Some text => inl (Some text)
    | None =>
        if is_sql_numeric_literal value then inl (Some value)
        else if is_str value (u "true") || is_str value (u "false") then inl (Some value)
        else
          match concatenated_literal_text value d with
          | Some text => inl (Some text)
          | None =>
              match unwrap_conversion_call value d with
              | inr e => inr e
              | inl (Some text) => inl (Some text)
              | inl None => inr (cannot_read value)
              end
          end
    end.

(** ** INSERT statements *)

Record InsertRows := mkInsertRows { insert_columns : list str; insert_rows : list (list str) }.

Definition last_word (text : str) : option str := last (split_whitespace text).

(** The characters of whitespace a text begins with. *)
Definition leading_space (text : str) : nat := length text - length (trim_start text).

(** The loop over the groups, from [index] on; each group has its parentheses. *)
Fixpoint value_groups (fuel : nat) (d : SqlFileDialect) (text : str) (index : nat) (rows : list (list str))
    : list (list str) * nat + str :=
  match fuel with
  | 0 => inl (rows, index)
  | S fuel =>
      let after_space := index + leading_space (drop index text) in
      if negb (starts_with (drop after_space text) (u "(")) then
        match rows with
        | [] => inr (u "An INSERT VALUES list is missing.")
        | _ => inl (rows, index)
        end
      else
        match matching_paren text after_space d with
        | None => inr (u "An INSERT VALUES list is not closed.")
        | Some close =>
            let group := take (close - (after_space + 1)) (drop (after_space + 1) text) in
            if str_is_empty (trim group) then inr (u "An INSERT VALUES list holds no values.")
            else
              let rows := vec_push (trim <$> split_top_level group d) rows in
              let index := close + 1 in
              let rest := trim_start (drop index text) in
              if negb (starts_with rest (u ",")) then inl (rows, index)
              else
                let comma_at := index + length (drop index text) - length rest in
                if negb (starts_with (trim_start (drop (comma_at + 1) text)) (u "("))
                then inr (u "An INSERT VALUES list has a comma that is not followed by another row.")
                else value_groups fuel d text (comma_at + 1) rows
        end
  end.

Definition read_value_groups (text : str) (from : nat) (d : SqlFileDialect) : list (list str) * nat + str :=
  value_groups (S (length text)) d text from [].

(** [&text[from..to]]. *)
Definition text_range (text : str) (from to : nat) : str := take (to - from) (drop from text).

Definition is_values (word : option str) : bool := is_some_and word (fun word => is_str word (u "values")).

Definition split_single_target_insert (trimmed : str) (d : SqlFileDialect) : InsertRows + str :=
  match find_open_paren trimmed d with
  | None => inr (u "An INSERT statement has no column list.")
  | Some columns_open =>
      if is_values (last_word (take columns_open trimmed))
      then inr (u "An INSERT statement has no column list, so its values cannot be mapped to columns.")
      else
        match matching_paren trimmed columns_open d with
        | None => inr (u "An INSERT column list is not closed.")
        | Some columns_close =>
            let columns := read_column_list (text_range trimmed (columns_open + 1) columns_close) d in
            let tail := drop (columns_close + 1) trimmed in
            match find_keyword tail (u "values") d with
            | None => inr (u "An INSERT statement has no VALUES list.")
            | Some values_at =>
                match read_value_groups tail (values_at + 6) d with
                | inr e => inr e
                | inl (rows, _) => inl (mkInsertRows columns rows)
                end
            end
        end
  end.

(** [order.iter().map(|source| values[*source])]: the sources of an order are
    positions of the columns the values were counted against. *)
Definition reordered (order : list nat) (values : list str) : list str := (fun source => default [] (values !! source)) <$> order.

(** Rows of one target of an INSERT ALL. *)
Fixpoint target_rows (columns : nat) (order : list nat) (groups rows : list (list str)) : list (list str) + str :=
  match groups with
  | [] => inl rows
  | values :: groups =>
      if negb (length values =? columns)
      then inr (u "An INSERT ALL target lists " ++ to_decimal columns ++ u " columns but " ++ to_decimal (length values) ++ u " values.")
      else target_rows columns order groups (vec_push (reordered order values) rows)
  end.

(** The loop over the targets: the columns and rows so far, and what is behind
    the last target. *)
Fixpoint targets_loop (fuel : nat) (d : SqlFileDialect) (rest : str) (columns : option (list str)) (rows : list (list str))
    : option (list str) * list (list str) * str + str :=
  match fuel with
  | 0 => inl (columns, rows, rest)
  | S fuel =>
      match find_keyword rest (u "into") d with
      | None => inl (columns, rows, rest)
      | Some offset =>
          let target := drop offset rest in
          match find_open_paren target d with
          | None => inr (u "An INSERT ALL target has no column list.")
          | Some columns_open =>
              if is_values (last_word (take columns_open target))
              then inr (u "An INSERT ALL target has no column list, so its values cannot be mapped to columns.")
              else
                match matching_paren target columns_open d with
                | None => inr (u "An INSERT ALL column list is not closed.")
                | Some columns_close =>
                    let target_columns := read_column_list (text_range target (columns_open + 1) columns_close) d in
                    let first_columns := default target_columns columns in
                    match column_order_against first_columns target_columns with
                    | None => inr (u "The targets of one INSERT ALL do not all use the same column list.")
                    | Some order =>
                        match find_keyword (drop (columns_close + 1) target) (u "values") d with
                        | None => inr (u "An INSERT ALL target has no VALUES list, so it carries no row to read.")
                        | Some values_at =>
                            match read_value_groups target (columns_close + 1 + values_at + 6) d with
                            | inr e => inr e
                            | inl (groups, consumed) =>
                                match target_rows (length target_columns) order groups rows with
                                | inr e => inr e
                                | inl rows => targets_loop fuel d (drop consumed target) (Some first_columns) rows
                                end
                            end
                        end
                    end
                end
          end
      end
  end.

Definition ORACLE_MULTI_INSERT_DRIVER : str := u "SELECT * FROM DUAL".

Definition collapse_whitespace (text : str) : str := join (u " ") (split_whitespace text).

Definition split_oracle_multi_insert (trimmed : str) (d : SqlFileDialect) : InsertRows + str :=
  match targets_loop (S (length trimmed)) d trimmed None [] with
  | inr e => inr e
  | inl (None, _, _) => inr (u "An INSERT ALL statement names no target to read rows from.")
  | inl (Some columns, rows, rest) =>
      let driver := collapse_whitespace rest in
      if str_is_empty driver
      then inr (u "An INSERT ALL statement has no driving query, so it is not a statement this import can read rows from.")
      else if negb (is_str driver ORACLE_MULTI_INSERT_DRIVER)
      then inr (u "An INSERT ALL is driven by a query this import cannot count rows for: " ++ driver)
      else inl (mkInsertRows columns rows)
  end.

Definition split_insert_statement (statement : str) (d : SqlFileDialect) : option InsertRows + str :=
  let trimmed := trim statement in
  match split_whitespace trimmed with
  | first :: words =>
      if negb (is_str first (u "insert")) then inl None
      else
        let single :=
          match split_single_target_insert trimmed d with inl rows => inl (Some rows) | inr e => inr e end in
        match words with
        | word :: _ =>
            if is_str word (u "first")
            then inr (u "An INSERT FIRST statement sends its rows to different targets, so this import cannot read them as one table.")
            else if is_str word (u "all") then
              match split_oracle_multi_insert trimmed d with inl rows => inl (Some rows) | inr e => inr e end
            else single
        | [] => single
        end
  | [] => inl None
  end.

(** [iter.map(read).collect::<Result<Vec<_>, _>>()]. *)
Fixpoint collect {A B} (read : A -> B + str) (l : list A) : list B + str :=
  match l with
  | [] => inl []
  | x :: l =>
      match read x with
      | inr e => inr e
      | inl y => match collect read l with inl ys => inl (y :: ys) | inr e => inr e end
      end
  end.

(** The rows of one statement, behind [rows]. *)
Fixpoint statement_rows (d : SqlFileDialect) (columns : nat) (order : list nat) (groups : list (list str)) (rows : list (list ImportCell))
    : list (list ImportCell) + str :=
  match groups with
  | [] => inl rows
  | values :: groups =>
      if negb (length values =? columns)
      then inr (u "An INSERT lists " ++ to_decimal columns ++ u " columns but " ++ to_decimal (length values) ++ u " values.")
      else
        match collect (fun value => sql_value_text value d) (reordered order values) with
        | inr e => inr e
        | inl row => statement_rows d columns order groups (vec_push row rows)
        end
  end.

Fixpoint inserts_loop (d : SqlFileDialect) (statements : list str) (columns : list str) (rows : list (list ImportCell))
    : list str * list (list ImportCell) + str :=
  match statements with
  | [] => inl (columns, rows)
  | statement :: statements =>
      match split_insert_statement statement d with
      | inr e => inr e
      | inl None => inserts_loop d statements columns rows
      | inl (Some insert) =>
          let columns := match columns with [] => insert_columns insert | _ => columns end in
          match column_order_against columns (insert_columns insert) with
          | None => inr (u "The INSERT statements do not all use the same column list.")
          | Some order =>
              match statement_rows d (length (insert_columns insert)) order (insert_rows insert) rows with
              | inr e => inr e
              | inl rows => inserts_loop d statements columns rows
              end
          end
      end
  end.

Definition parse_sql_inserts (text : str) : ImportedTable + str :=
  let d := detect_sql_file_dialect text in
  match inserts_loop d (split_sql_statements text d) [] [] with
  | inr e => inr e
  | inl ([], _) => inr (u "The file has no INSERT statement with a column list.")
  | inl (columns, rows) => inl (of_named_columns columns rows)
  end.

(** ** The inputs of the program's tests *)

Example oracle_conversions :
  parse_sql_inserts (u "INSERT INTO EMP (ID, HIRED, RAW1) VALUES (1, TO_DATE('1980-12-17 09:30:00','YYYY-MM-DD HH24:MI:SS'), HEXTORAW('DEADBEEF'));")
  = inl (mkTable [u "ID"; u "HIRED"; u "RAW1"] [[Some (u "1"); Some (u "1980-12-17 09:30:00"); Some (u "DEADBEEF")]] true).
Proof. vm_compute. reflexivity. Qed.

Example insert_all :
  parse_sql_inserts (u "INSERT ALL INTO T (A, B) VALUES (1, 'x;y') INTO T (b, a) VALUES ('z'||CHR(38), NULL) SELECT * FROM dual; commit;")
  = inl (mkTable [u "A"; u "B"] [[Some (u "1"); Some (u "x;y")]; [None; Some (u "z&")]] true).
Proof. vm_compute. reflexivity. Qed.

Example mysql_escapes :
  parse_sql_inserts (u "insert into `t` (`a``b`) values ('it''s \n'), ('c:\\');")
  = inl (mkTable [u "a`b"] [[Some (u "it's " ++ [LF])]; [Some (u "c:\")]] true).
Proof. vm_compute. reflexivity. Qed.
