(* ===== verification/GridSqlExport.v ===== *)
(** * Generated SQL

    How names are spelled for each backend, and the INSERT, UPDATE and WHERE
    builders over a selection of the grid. *)
From stdpp Require Import gmap.
From S2P Require Import Prelude RustStr SessionPolicy GridSort ResultFilter RustParse EditStatements ResultExport SqlLiteral SqlImport.

(** * Names in generated SQL

    How the name of a column or a table is spelled for the backend that will read
    it: the quoted identifiers of [sql_text.rs], the Oracle quoting of
    [db/connection.rs], and the quoting of a dotted name of [ui/result_table.rs]. *)

(** ** Quoted identifiers *)

Fixpoint quoted_identifier_inner_is_well_formed (delimiter : char) (inner : str) : bool :=
  match inner with
  | [] => true
  | ch :: rest =>
      if negb (N.eqb ch delimiter) then quoted_identifier_inner_is_well_formed delimiter rest
      else
        match rest with
        | next :: rest => if N.eqb next delimiter then quoted_identifier_inner_is_well_formed delimiter rest else false
        | [] => false
        end
  end.

Definition quoted_identifier_delimiter (value : str) : option char :=
  let trimmed := trim value in
  if utf8_len trimmed <? 2 then None
  else
    first ← head trimmed;
    last ← last trimmed;
    closing ← (if (N.eqb first QUOTE || N.eqb first "`"%ch) && N.eqb first last then Some first
               else if N.eqb first "["%ch && N.eqb last "]"%ch then Some "]"%ch else None);
    rest ← strip_prefix trimmed [first];
    inner ← strip_suffix rest [closing];
    if quoted_identifier_inner_is_well_formed closing inner then Some first else None.

Definition is_quoted_identifier (value : str) : bool := is_some_and (quoted_identifier_delimiter value) (fun _ => true).

Definition strip_identifier_quotes (value : str) : str :=
  let trimmed := trim value in
  match quoted_identifier_delimiter trimmed with
  | None => trimmed
  | Some delimiter =>
      let closing := if N.eqb delimiter "["%ch then "]"%ch else delimiter in
      match (rest ← strip_prefix trimmed [delimiter]; strip_suffix rest [closing]) with
      | None => trimmed
      | Some inner => str_replace [closing; closing] [closing] inner
      end
  end.

(** ** Oracle names *)

Definition ORACLE_IDENTIFIER_RESERVED_WORDS : list str :=
  u <$> [
    "ACCESS"; "ADD"; "ALL"; "ALTER"; "AND"; "ANY"; "AS"; "ASC"; "AT"; "AUDIT"; "BEGIN"; "BETWEEN"; "BY";
    "CASE"; "CHAR"; "CHECK"; "CLOSE"; "CLUSTER"; "COLUMN"; "COLUMNS"; "COMMENT"; "COMPRESS"; "CONNECT";
    "CRASH"; "CREATE"; "CURRENT"; "DATE"; "DECIMAL"; "DECLARE"; "DEFAULT"; "DELETE"; "DESC"; "DISTINCT";
    "DROP"; "ELSE"; "END"; "EXCEPT"; "EXCLUSIVE"; "EXISTS"; "FALSE"; "FETCH"; "FILE"; "FLOAT"; "FOR"; "FROM";
    "GRANT"; "GROUP"; "HAVING"; "IDENTIFIED"; "IF"; "IMMEDIATE"; "IN"; "INCREMENT"; "INDEX"; "INDEXES";
    "INITIAL"; "INSERT"; "INTEGER"; "INTERSECT"; "INTO"; "IS"; "JSON_OBJECT"; "LEVEL"; "LIKE"; "LOCK"; "LONG";
    "MAXEXTENTS"; "MINUS"; "MLSLABEL"; "MOD"; "MODE"; "MODIFY"; "NOAUDIT"; "NOCOMPRESS"; "NOT"; "NOWAIT";
    "NULL"; "NUMBER"; "OF"; "OFFLINE"; "ON"; "ONLINE"; "OPEN"; "OPTION"; "OR"; "ORDER"; "OVERLAPS"; "PCTFREE";
    "PRIOR"; "PROCEDURE"; "PUBLIC"; "RAW"; "RENAME"; "RESOURCE"; "RETURN"; "REVOKE"; "ROW"; "ROWNUM"; "ROWS";
    "SELECT"; "SESSION"; "SET"; "SHARE"; "SIZE"; "SMALLINT"; "SQL"; "START"; "SUCCESSFUL"; "SYNONYM";
    "SYSDATE"; "TABLE"; "THEN"; "TO"; "TRIGGER"; "TRUE"; "UID"; "UNION"; "UNIQUE"; "UPDATE"; "USER";
    "VALIDATE"; "VALUES"; "VARCHAR"; "VARCHAR2"; "VIEW"; "WHEN"; "WHENEVER"; "WHERE"; "WITH" ]%string.

Definition is_oracle_reserved_identifier (identifier : str) : bool :=
  existsb (fun word => ascii_upper identifier == word) ORACLE_IDENTIFIER_RESERVED_WORDS.

Definition is_name_start (c : char) : bool :=
  is_ascii_alphabetic c || N.eqb c "_"%ch || N.eqb c "$"%ch || N.eqb c "#"%ch.
Definition is_name_char (c : char) : bool :=
  is_ascii_alphanumeric c || N.eqb c "_"%ch || N.eqb c "$"%ch || N.eqb c "#"%ch.

Definition oracle_identifier_needs_quotes (identifier : str) : bool :=
  match identifier with
  | [] => true
  | first :: rest =>
      if negb (is_name_start first) then true
      else if existsb is_ascii_lowercase identifier then true
      else if negb (forallb is_name_char rest) then true
      else is_oracle_reserved_identifier identifier
  end.

(** [identifier] between double quotes, its own doubled. *)
Definition double_quoted (identifier : str) : str := [QUOTE] ++ str_replace [QUOTE] [QUOTE; QUOTE] identifier ++ [QUOTE].

Definition quote_oracle_identifier (identifier : str) : str :=
  let trimmed := trim identifier in
  if str_is_empty trimmed then [QUOTE; QUOTE]
  else if is_quoted_identifier trimmed then trimmed
  else if oracle_identifier_needs_quotes trimmed then double_quoted trimmed
  else trimmed.

(** ** Dotted names *)

Definition is_unquoted_identifier (text : str) : bool :=
  match text with
  | [] => false
  | first :: rest => if negb (is_name_start first) then false else forallb is_name_char rest
  end.

Definition quote_identifier_segment (text : str) : str :=
  let trimmed := trim text in
  if str_is_empty trimmed then [QUOTE; QUOTE]
  else if is_quoted_identifier trimmed then double_quoted (strip_identifier_quotes trimmed)
  else if is_unquoted_identifier trimmed then trimmed
  else double_quoted trimmed.

(** What closes the quote a character opens. *)
Definition opens_quote (ch : char) : option char :=
  if N.eqb ch QUOTE || N.eqb ch "`"%ch then Some ch else if N.eqb ch "["%ch then Some "]"%ch else None.

Definition push_segment (segment : str) (segments : list str) : list str :=
  let segment := trim segment in if str_is_empty segment then segments else vec_push segment segments.

Fixpoint qualified_loop (active_quote : option char) (segment : str) (chars : str) (segments : list str) : list str :=
  match chars with
  | [] => push_segment segment segments
  | ch :: rest =>
      match active_quote with
      | Some delimiter =>
          if N.eqb ch delimiter then
            match rest with
            | next :: rest' =>
                if N.eqb next delimiter then qualified_loop active_quote (segment ++ [ch; next]) rest' segments
                else qualified_loop None (vec_push ch segment) rest segments
            | [] => qualified_loop None (vec_push ch segment) rest segments
            end
          else qualified_loop active_quote (vec_push ch segment) rest segments
      | None =>
          if N.eqb ch "."%ch then qualified_loop None [] rest (push_segment segment segments)
          else qualified_loop (opens_quote ch) (vec_push ch segment) rest segments
      end
  end.

Definition split_qualified_identifier (name : str) : list str :=
  let trimmed := trim name in
  if str_is_empty trimmed then [] else qualified_loop None [] trimmed [].

Definition quote_qualified_identifier (name : str) : str :=
  match split_qualified_identifier name with
  | [] => quote_identifier_segment name
  | segments => join (u ".") (quote_identifier_segment <$> segments)
  end.

(** ** Names by backend *)

Definition quote_qualified_name (db : DatabaseType) (name : str) : str :=
  if is_mysql_or_mariadb db then quote_mysql_qualified_name name else quote_qualified_identifier name.

Definition quote_reported_name (db : DatabaseType) (name : str) : str :=
  if is_mysql_or_mariadb db then quote_mysql_identifier (trim name) else quote_oracle_identifier name.

Definition quote_column_name (db : DatabaseType) (name : str) : str := quote_reported_name db name.

Example oracle_names :
  (fun name => quote_oracle_identifier (u name)) <$> ["EMP"; "emp"; "LEVEL"; "A B"]%string
  = [u "EMP"; [QUOTE] ++ u "emp" ++ [QUOTE]; [QUOTE] ++ u "LEVEL" ++ [QUOTE]; [QUOTE] ++ u "A B" ++ [QUOTE]]
  /\ quote_qualified_identifier (u "scott.emp") = u "scott.emp"
  /\ quote_qualified_identifier ([QUOTE] ++ u "a.b" ++ [QUOTE] ++ u ".`c`") = [QUOTE] ++ u "a.b" ++ [QUOTE] ++ u "." ++ [QUOTE] ++ u "c" ++ [QUOTE].
Proof. vm_compute. repeat split. Qed.

(** * Generated INSERT, UPDATE and WHERE

    The builders of [ui/grid_sql_export.rs] over a selection of the grid.  The
    table a statement's text names, when no descriptor does, is a parameter of
    [resolve_export_table] (the parser of [query_text.rs]). *)

Definition UNKNOWN_TABLE_NAME : str := u "MY_TABLE".

Record GridSqlSelection := mkSelection {
  dialect : SqlWriteDialect;
  table : option str;
  all_columns : list str;
  selected_kinds : list SqlValueKind;
  selected_columns : list nat;
  selected_rows : list (list ExportCell)
}.

Definition table_name_of (s : GridSqlSelection) : str :=
  match trim <$> table s with
  | Some table => if negb (str_is_empty table) then quote_qualified_name (db_type (dialect s)) table else UNKNOWN_TABLE_NAME
  | None => UNKNOWN_TABLE_NAME
  end.

Definition quote_column (s : GridSqlSelection) (index : nat) : str :=
  quote_column_name (db_type (dialect s)) (default [] (all_columns s !! index)).

Definition kind_of (s : GridSqlSelection) (index : nat) : SqlValueKind := default Kind_Unknown (selected_kinds s !! index).

Definition cell_of (row : list ExportCell) (index : nat) : ExportCell := default None (row !! index).

Definition is_null (row : list ExportCell) (index : nat) : bool :=
  match cell_of row index with None => true | Some _ => false end.

Definition value_too_long_message (column : str) (row_number : nat) (refusal : ValueCannotBeWritten) : str :=
  match refusal with
  | TooLongForOneLiteral literal_bytes =>
      u "Row " ++ to_decimal row_number ++ u ", column " ++ column ++ u ": this value needs " ++ to_decimal literal_bytes
      ++ u " bytes as a SQL literal and Oracle accepts at most " ++ to_decimal ORACLE_MAX_LITERAL_BYTES
      ++ u " in one. Only text can be written as a concatenation, and this value is not text, so no statement can carry it."
  | UnknownBackslashRule =>
      u "Row " ++ to_decimal row_number ++ u ", column " ++ column
      ++ u ": this value contains a backslash, and this tab's session was moved by a sql_mode of its own "
      ++ [0x2014%N]
      ++ u " so this app can no longer tell whether the server will store one backslash or two, and it will not guess. Reconnect the tab, or close and reopen it, to get a session it can answer for."
  end.

Definition literal (s : GridSqlSelection) (row_number : nat) (row : list ExportCell) (index : nat) : str + str :=
  match sql_literal_for_cell (dialect s) (kind_of s index) (cell_of row index) with
  | inl literal => inl literal
  | inr refusal => inr (value_too_long_message (default (u "?") (all_columns s !! index)) row_number refusal)
  end.

(** ** Names that occur twice *)

Fixpoint repeated_loop (seen names : list str) : option str :=
  match names with
  | [] => None
  | name :: names =>
      let name := trim name in
      if existsb (fun taken => eq_ignore_ascii_case taken name) seen then Some name
      else repeated_loop (vec_push name seen) names
  end.

Definition first_repeated_column_name (names : list str) : option str := repeated_loop [] names.

Definition ambiguous_column_message (name : str) : str :=
  u "More than one column of this result is named " ++ name
  ++ u ". Generated SQL addresses a column by name, so it cannot tell them apart " ++ [0x2014%N]
  ++ u " give them different aliases in the query, or select just one of them.".

Definition no_writable_column_message : str := u "This result has no column that can be written into an INSERT.".

Definition missing_key_message (missing : list str) : str :=
  let names := join (u ", ") missing in
  u "This result does not carry " ++ names
  ++ u ", which is how a generated UPDATE finds the row each value came from. Without it the statement would change every row it cannot narrow, so nothing was written "
  ++ [0x2014%N] ++ u " add " ++ names ++ u " to the query (or unhide it in the Columns dialog), or copy a Where Clause instead.".

Definition left_out_generated_columns_note (left_out : list str) : str :=
  match left_out with
  | [] => []
  | _ => u " (" ++ join (u ", ") left_out ++ u " left out: computed by the server)"
  end.

(** [column.trim().eq_ignore_ascii_case(wanted)]. *)
Definition goes_by (wanted column : str) : bool := eq_ignore_ascii_case (trim column) wanted.

Fixpoint ambiguous_key (columns key_columns : list str) : option str :=
  match key_columns with
  | [] => None
  | key :: keys =>
      let wanted := trim key in
      if 1 <? length (List.filter (goes_by wanted) columns) then Some wanted else ambiguous_key columns keys
  end.

Definition selected_names (s : GridSqlSelection) : list str := omap (fun index => all_columns s !! index) (selected_columns s).

Definition ambiguous_column_refusal (s : GridSqlSelection) (key_columns : list str) : option str :=
  match first_repeated_column_name (selected_names s) with
  | Some name => Some (ambiguous_column_message name)
  | None => ambiguous_column_message <$> ambiguous_key (all_columns s) key_columns
  end.

(** ** Columns a statement may name *)

Definition writable_column_indices (columns generated : list str) : list nat :=
  List.filter (fun index =>
    let name := trim (default [] (columns !! index)) in
    negb (existsb (fun skipped => eq_ignore_ascii_case (trim skipped) name) generated)) (seq 0 (length columns)).

(** The selection, and the names that were left out. *)
Definition restrict_to_writable_columns (generated : list str) (s : GridSqlSelection) : GridSqlSelection * list str :=
  match generated with
  | [] => (s, [])
  | _ =>
      let writable := writable_column_indices (all_columns s) generated in
      let keep index := existsb (Nat.eqb index) writable in
      (mkSelection (dialect s) (table s) (all_columns s) (selected_kinds s) (List.filter keep (selected_columns s)) (selected_rows s),
       omap (fun index => if keep index then None else all_columns s !! index) (selected_columns s))
  end.

Fixpoint position_of (p : str -> bool) (columns : list str) : option nat :=
  match columns with
  | [] => None
  | column :: columns => if p column then Some 0 else S <$> position_of p columns
  end.

Definition column_index (s : GridSqlSelection) (name : str) : option nat := position_of (goes_by (trim name)) (all_columns s).

Definition resolve_export_table (resolve_edit_target_table : str -> option str) (db : DatabaseType)
    (descriptor_table : option (str * str)) (source_sql : str) : option str :=
  let named :=
    match descriptor_table with
    | Some (schema, table) =>
        if str_is_empty (trim table) then None
        else
          let table := quote_reported_name db table in
          Some (if str_is_empty (trim schema) then table else quote_reported_name db schema ++ u "." ++ table)
    | None => None
    end in
  match (match named with Some table => Some table | None => resolve_edit_target_table source_sql end) with
  | Some table => if str_is_empty (trim table) then None else Some table
  | None => None
  end.

(** ** INSERT *)

Definition sql_inserts_dialect_preamble (d : SqlWriteDialect) : str :=
  if dialect_is_mysql d && bool_decide (doubles_a_backslash d = Some false)
  then u "-- sql_mode: NO_BACKSLASH_ESCAPES (a backslash in a literal below is one character, not an escape)" ++ [LF]
  else [].

Definition insert_statement (table columns values : str) : str :=
  u "INSERT INTO " ++ table ++ u " (" ++ columns ++ u ") VALUES (" ++ values ++ u ");" ++ [LF].

(** The rows from number [row_number] on: one statement each. *)
Fixpoint insert_rows_loop (s : GridSqlSelection) (table columns : str) (row_number : nat) (rows : list (list ExportCell)) : str + str :=
  match rows with
  | [] => inl []
  | row :: rows =>
      match collect (literal s row_number row) (selected_columns s) with
      | inr reason => inr reason
      | inl values =>
          match insert_rows_loop s table columns (S row_number) rows with
          | inr reason => inr reason
          | inl text => inl (insert_statement table columns (join (u ", ") values) ++ text)
          end
      end
  end.

Definition build_sql_inserts (s : GridSqlSelection) : ExportContent str :=
  match ambiguous_column_refusal s [] with
  | Some reason => Refused reason
  | None =>
      match selected_columns s, selected_rows s with
      | [], _ => Refused no_writable_column_message
      | _, [] => nothing
      | _, _ =>
          let columns := join (u ", ") (quote_column s <$> selected_columns s) in
          match insert_rows_loop s (table_name_of s) columns 1 (selected_rows s) with
          | inr reason => Refused reason
          | inl text => Written (sql_inserts_dialect_preamble (dialect s) ++ text) (length (selected_rows s))
          end
      end
  end.

(** ** UPDATE *)

Definition equality_predicate (s : GridSqlSelection) (row_number : nat) (row : list ExportCell) (index : nat) : str + str :=
  if is_null row index then inl (quote_column s index ++ u " IS NULL")
  else match literal s row_number row index with
       | inl literal => inl (quote_column s index ++ u " = " ++ literal)
       | inr reason => inr reason
       end.

Definition assignment_of (s : GridSqlSelection) (row_number : nat) (row : list ExportCell) (index : nat) : str + str :=
  match literal s row_number row index with
  | inl literal => inl (quote_column s index ++ u " = " ++ literal)
  | inr reason => inr reason
  end.

(** The keys' columns, and the names no column goes by. *)
Fixpoint resolve_keys (s : GridSqlSelection) (key_columns : list str) : list nat * list str :=
  match key_columns with
  | [] => ([], [])
  | name :: names =>
      let '(keys, missing) := resolve_keys s names in
      match column_index s name with
      | Some index => (index :: keys, missing)
      | None => (keys, trim name :: missing)
      end
  end.

Definition update_statement (s : GridSqlSelection) (assigned keys : list nat) (row_number : nat) (row : list ExportCell) : str + str :=
  match collect (assignment_of s row_number row) assigned with
  | inr reason => inr reason
  | inl parts =>
      let statement := u "UPDATE " ++ table_name_of s ++ u " SET " ++ join (u ", ") parts in
      match keys with
      | [] => inl (statement ++ u ";" ++ [LF])
      | _ =>
          match collect (equality_predicate s row_number row) keys with
          | inr reason => inr reason
          | inl parts => inl (statement ++ u " WHERE " ++ join (u " AND ") parts ++ u ";" ++ [LF])
          end
      end
  end.

Fixpoint update_rows_loop (s : GridSqlSelection) (assigned keys : list nat) (row_number : nat) (rows : list (list ExportCell)) : str + str :=
  match rows with
  | [] => inl []
  | row :: rows =>
      match update_statement s assigned keys row_number row with
      | inr reason => inr reason
      | inl statement =>
          match update_rows_loop s assigned keys (S row_number) rows with
          | inr reason => inr reason
          | inl text => inl (statement ++ text)
          end
      end
  end.

Definition build_sql_updates (s : GridSqlSelection) (key_columns : list str) : ExportContent str :=
  match ambiguous_column_refusal s key_columns with
  | Some reason => Refused reason
  | None =>
      match selected_columns s, selected_rows s with
      | [], _ => Refused (u "This selection covers no column an UPDATE could assign.")
      | _, [] => nothing
      | _, _ =>
          match resolve_keys s key_columns with
          | (_, (_ :: _) as missing) => Refused (missing_key_message missing)
          | (keys, []) =>
              let others := List.filter (fun index => negb (existsb (Nat.eqb index) keys)) (selected_columns s) in
              let assigned := match others with [] => selected_columns s | _ => others end in
              match update_rows_loop s assigned keys 1 (selected_rows s) with
              | inr reason => Refused reason
              | inl text => Written text (length (selected_rows s))
              end
          end
      end
  end.

(** ** WHERE *)

(** The distinct values of a column, and whether a NULL is among them. *)
Fixpoint single_column_loop (s : GridSqlSelection) (column row_number : nat) (rows : list (list ExportCell))
    (seen : gset str) (values : list str) (has_null : bool) : list str * bool + str :=
  match rows with
  | [] => inl (values, has_null)
  | row :: rows =>
      if is_null row column then single_column_loop s column (S row_number) rows seen values true
      else
        match literal s row_number row column with
        | inr reason => inr reason
        | inl literal =>
            if bool_decide (literal ∈ seen) then single_column_loop s column (S row_number) rows seen values has_null
            else single_column_loop s column (S row_number) rows ({[literal]} ∪ seen) (vec_push literal values) has_null
        end
  end.

Definition single_column_where (s : GridSqlSelection) (column : nat) : ExportContent str :=
  let name := quote_column s column in
  match single_column_loop s column 1 (selected_rows s) ∅ [] false with
  | inr reason => Refused reason
  | inl (values, has_null) =>
      let clause :=
        match values with
        | [] => []
        | [value] => name ++ u " = " ++ value
        | _ => name ++ u " IN (" ++ join (u ", ") values ++ u ")"
        end in
      let null_test := name ++ u " IS NULL" in
      let clause :=
        if has_null then if str_is_empty clause then null_test else clause ++ u " OR " ++ null_test else clause in
      Written clause (length (selected_rows s))
  end.

Fixpoint groups_loop (s : GridSqlSelection) (row_number : nat) (rows : list (list ExportCell)) (seen : gset str) (groups : list str)
    : list str + str :=
  match rows with
  | [] => inl groups
  | row :: rows =>
      match collect (equality_predicate s row_number row) (selected_columns s) with
      | inr reason => inr reason
      | inl parts =>
          let group := join (u " AND ") parts in
          if negb (str_is_empty group) && negb (bool_decide (group ∈ seen))
          then groups_loop s (S row_number) rows ({[group]} ∪ seen) (vec_push group groups)
          else groups_loop s (S row_number) rows seen groups
      end
  end.

Definition build_where_clause (s : GridSqlSelection) : ExportContent str :=
  match ambiguous_column_refusal s [] with
  | Some reason => Refused reason
  | None =>
      match selected_columns s, selected_rows s with
      | [], _ => Refused (u "This selection covers no column a WHERE clause could compare.")
      | _, [] => nothing
      | [column], _ => single_column_where s column
      | _, _ =>
          match groups_loop s 1 (selected_rows s) ∅ [] with
          | inr reason => Refused reason
          | inl [] => nothing
          | inl [group] => Written group (length (selected_rows s))
          | inl groups => Written (join (u " OR ") ((fun group => u "(" ++ group ++ u ")") <$> groups)) (length (selected_rows s))
          end
      end
  end.

(** ** The inputs of the program's tests *)

Definition sample_selection : GridSqlSelection :=
  mkSelection (family_default DatabaseType_Oracle) (Some (u "SCOTT.EMP")) [u "ID"; u "NAME"] [Kind_Number; Kind_String] [0; 1]
    [[Some (u "1"); Some (u "O'Hara")]; [Some (u "2"); None]].

Example generated_sql :
  build_sql_inserts sample_selection
  = Written (u "INSERT INTO SCOTT.EMP (ID, NAME) VALUES (1, 'O''Hara');" ++ [LF] ++ u "INSERT INTO SCOTT.EMP (ID, NAME) VALUES (2, NULL);" ++ [LF]) 2
  /\ build_sql_updates sample_selection [u "id"]
     = Written (u "UPDATE SCOTT.EMP SET NAME = 'O''Hara' WHERE ID = 1;" ++ [LF] ++ u "UPDATE SCOTT.EMP SET NAME = NULL WHERE ID = 2;" ++ [LF]) 2
  /\ build_where_clause sample_selection = Written (u "(ID = 1 AND NAME = 'O''Hara') OR (ID = 2 AND NAME IS NULL)") 2.
Proof. vm_compute. repeat split. Qed.

(** A name that only looks quoted to another backend is not quoted for Oracle. *)
Example bracketed_name_is_passed_through :
  quote_column_name DatabaseType_Oracle (u "[a(b]") = u "[a(b]" /\ quote_column_name DatabaseType_Oracle (u "`a b`") = u "`a b`".
Proof. vm_compute. done. Qed.
