(* ===== verification/SqlTokens.v ===== *)
(** * SQL text as tokens

    The loops of the file reader as functions of a list of tokens, and the laws of
    quoted literals and balanced text. *)
From S2P Require Import Prelude RustStr SessionPolicy GridSort ResultFilter RustParse ResultExport MarkdownLaws SqlLiteral SqlImport.

(** * SQL text as tokens

    The loops of the reader pass a quoted part as one step; here a text is a list
    of characters and quoted parts, and each loop is its effect on that list. *)

Inductive tok := Ch (c : char) | Quoted (q : char) (body : str).

Definition tok_text (t : tok) : str := match t with Ch c => [c] | Quoted q body => q :: body ++ [q] end.

Definition text_of (ts : list tok) : str := concat (tok_text <$> ts).

Definition chars (s : str) : list tok := Ch <$> s.

Definition is_quote (c : char) : bool := N.eqb c "'"%ch || N.eqb c QUOTE || N.eqb c "`"%ch.

(** A quoted part ends where it should, whatever else than its quote follows. *)
Definition body_ok (d : SqlFileDialect) (q : char) (body : str) : Prop :=
  is_quote q = true /\ forall rest, head rest <> Some q -> quoted_len d q (body ++ q :: rest) = Some (length body + 1).

(** No quote begins or ends elsewhere than at a quoted part, and no comment. *)
Inductive wf (d : SqlFileDialect) : list tok -> Prop :=
  | wf_nil : wf d []
  | wf_ch c ts : is_quote c = false -> c <> "/"%ch -> (c = "-"%ch -> head (text_of ts) <> Some "-"%ch) -> wf d ts -> wf d (Ch c :: ts)
  | wf_quoted q body ts : body_ok d q body -> head (text_of ts) <> Some q -> wf d ts -> wf d (Quoted q body :: ts).

Lemma text_of_app ts ts' : text_of (ts ++ ts') = text_of ts ++ text_of ts'.
Proof. unfold text_of. by rewrite fmap_app, concat_app. Qed.

Lemma text_of_chars s : text_of (chars s) = s.
Proof. induction s as [|c s IH]; [done|]. cbn. by rewrite <- IH at 2. Qed.

Lemma text_of_cons t ts : text_of (t :: ts) = tok_text t ++ text_of ts.
Proof. done. Qed.

Lemma not_quote d c rest : is_quote c = false -> quoted_len d c rest = None.
Proof. unfold is_quote, quoted_len. rewrite !orb_false_iff. intros [[-> ->] ->]. done. Qed.

Lemma push_app (part w : str) c : vec_push c part ++ w = part ++ c :: w.
Proof. unfold vec_push. by rewrite <- app_assoc. Qed.

(** ** Splitting a list at commas *)

Fixpoint top_level (depth : Z) (part : str) (ts : list tok) : list str :=
  match ts with
  | [] => [part]
  | Quoted q body :: ts => top_level depth (part ++ q :: body ++ [q]) ts
  | Ch ch :: ts =>
      if N.eqb ch "("%ch then top_level (depth + 1) (vec_push ch part) ts
      else if N.eqb ch ")"%ch then top_level (depth - 1) (vec_push ch part) ts
      else if N.eqb ch ","%ch && (depth =? 0)%Z then part :: top_level depth [] ts
      else top_level depth (vec_push ch part) ts
  end.

Lemma top_level_ahead d w depth part rest :
  top_level_loop d (length w) depth part (w ++ rest) = top_level_loop d 0 depth (part ++ w) rest.
Proof. revert part. induction w as [|c w IH]; intros part; [by rewrite app_nil_r|]. cbn. by rewrite IH, push_app. Qed.

(** A quoted part is passed by reading ahead. *)
Lemma quoted_ahead (q : char) (body rest : str) : body ++ [q] ++ rest = (body ++ [q]) ++ rest /\ length (body ++ [q]) = length body + 1.
Proof. rewrite length_app. split; [by rewrite <- app_assoc|done]. Qed.

Lemma top_level_toks d ts depth part : wf d ts -> top_level_loop d 0 depth part (text_of ts) = top_level depth part ts.
Proof.
  intros H. revert depth part. induction H as [|c ts Hc _ _ _ IH|q body ts Hb Hh _ IH]; intros depth part; [done| |].
  - cbn. rewrite not_quote by done. fold (text_of ts). repeat case_match; rewrite ?IH; done.
  - rewrite text_of_cons. cbn [tok_text app top_level_loop top_level]. rewrite <- app_assoc. cbn [app].
    rewrite (proj2 Hb) by done. rewrite <- (proj2 (quoted_ahead q body [])).
    change (q :: text_of ts) with ([q] ++ text_of ts). rewrite (proj1 (quoted_ahead q body _)), top_level_ahead.
    rewrite IH. f_equal. by rewrite push_app.
Qed.

(** ** The parenthesis that closes *)

Fixpoint matching (depth : Z) (index : nat) (ts : list tok) : option nat :=
  match ts with
  | [] => None
  | Quoted q body :: ts => matching depth (index + (length body + 2)) ts
  | Ch ch :: ts =>
      if N.eqb ch "("%ch then matching (depth + 1) (S index) ts
      else if N.eqb ch ")"%ch then
        if (depth - 1 =? 0)%Z then Some index else matching (depth - 1) (S index) ts
      else matching depth (S index) ts
  end.

Lemma matching_ahead d w depth index rest :
  matching_loop d (length w) depth index (w ++ rest) = matching_loop d 0 depth (index + length w) rest.
Proof. revert index. induction w as [|c w IH]; intros index; [by rewrite Nat.add_0_r|]. cbn. rewrite IH. f_equal. lia. Qed.

Lemma matching_toks d ts depth index : wf d ts -> matching_loop d 0 depth index (text_of ts) = matching depth index ts.
Proof.
  intros H. revert depth index. induction H as [|c ts Hc _ _ _ IH|q body ts Hb Hh _ IH]; intros depth index; [done| |].
  - cbn. rewrite not_quote by done. fold (text_of ts). repeat case_match; rewrite ?IH; done.
  - rewrite text_of_cons. cbn [tok_text app matching_loop matching]. rewrite <- app_assoc. cbn [app].
    rewrite (proj2 Hb) by done. rewrite <- (proj2 (quoted_ahead q body [])).
    change (q :: text_of ts) with ([q] ++ text_of ts). rewrite (proj1 (quoted_ahead q body _)), matching_ahead.
    rewrite IH. f_equal. rewrite length_app. cbn. lia.
Qed.

(** ** The first opening parenthesis *)

Fixpoint open_paren (index : nat) (ts : list tok) : option nat :=
  match ts with
  | [] => None
  | Quoted q body :: ts => open_paren (index + (length body + 2)) ts
  | Ch ch :: ts => if N.eqb ch "("%ch then Some index else open_paren (S index) ts
  end.

Lemma open_paren_ahead d w index rest : open_paren_loop d (length w) index (w ++ rest) = open_paren_loop d 0 (index + length w) rest.
Proof. revert index. induction w as [|c w IH]; intros index; [by rewrite Nat.add_0_r|]. cbn. rewrite IH. f_equal. lia. Qed.

Lemma open_paren_toks d ts index : wf d ts -> open_paren_loop d 0 index (text_of ts) = open_paren index ts.
Proof.
  intros H. revert index. induction H as [|c ts Hc _ _ _ IH|q body ts Hb Hh _ IH]; intros index; [done| |].
  - cbn. rewrite not_quote by done. fold (text_of ts). case_match; rewrite ?IH; done.
  - rewrite text_of_cons. cbn [tok_text app open_paren_loop open_paren]. rewrite <- app_assoc. cbn [app].
    rewrite (proj2 Hb) by done. rewrite <- (proj2 (quoted_ahead q body [])).
    change (q :: text_of ts) with ([q] ++ text_of ts). rewrite (proj1 (quoted_ahead q body _)), open_paren_ahead.
    rewrite IH. f_equal. rewrite length_app. cbn. lia.
Qed.

(** ** Statements *)

Fixpoint statements (depth : Z) (current : str) (ts : list tok) : list str :=
  match ts with
  | [] => if str_is_empty (trim current) then [] else [current]
  | Quoted q body :: ts => statements depth (current ++ q :: body ++ [q]) ts
  | Ch ch :: ts =>
      if N.eqb ch "("%ch then statements (depth + 1) (vec_push ch current) ts
      else if N.eqb ch ")"%ch then statements (depth - 1) (vec_push ch current) ts
      else if N.eqb ch ";"%ch && (depth <=? 0)%Z then current :: statements depth [] ts
      else statements depth (vec_push ch current) ts
  end.

Lemma statements_ahead d w depth current rest :
  statements_loop d (length w) 0 depth current (w ++ rest) = statements_loop d 0 0 depth (current ++ w) rest.
Proof. revert current. induction w as [|c w IH]; intros current; [by rewrite app_nil_r|]. cbn. by rewrite IH, push_app. Qed.

Lemma no_comment c (rest : str) : c <> "/"%ch -> (c = "-"%ch -> head rest <> Some "-"%ch) ->
  starts_with (c :: rest) (u "--") = false /\ starts_with (c :: rest) (u "/*") = false.
Proof.
  intros Hs Hd. change (u "--") with ["-"%ch; "-"%ch]. change (u "/*") with ["/"%ch; "*"%ch]. cbn [starts_with]. split.
  - destruct (N.eqb_spec "-"%ch c) as [<-|]; [|done]. destruct rest as [|c' rest]; [done|]. cbn [starts_with andb].
    destruct (N.eqb_spec "-"%ch c') as [<-|]; [|done]. exfalso. by apply (Hd eq_refl).
  - destruct (N.eqb_spec "/"%ch c) as [<-|]; done.
Qed.

Lemma statements_toks d ts depth current : wf d ts -> statements_loop d 0 0 depth current (text_of ts) = statements depth current ts.
Proof.
  intros H. revert depth current. induction H as [|c ts Hc Hs Hd _ IH|q body ts Hb Hh _ IH]; intros depth current; [done| |].
  - rewrite text_of_cons. cbn [tok_text app]. cbn [statements_loop statements].
    destruct (no_comment c (text_of ts) Hs Hd) as [-> ->]. rewrite not_quote by done.
    repeat case_match; rewrite ?IH; done.
  - rewrite text_of_cons. cbn [tok_text app statements_loop statements]. rewrite <- app_assoc. cbn [app].
    rewrite (proj2 Hb) by done. rewrite <- (proj2 (quoted_ahead q body [])).
    change (q :: text_of ts) with ([q] ++ text_of ts). rewrite (proj1 (quoted_ahead q body _)), statements_ahead.
    rewrite IH. f_equal. by rewrite push_app.
Qed.

(** ** Concatenations

    Without a quoted name; two bars at depth 0 part the pieces. *)

Fixpoint pieces_of (skip : nat) (depth : Z) (part : str) (ts : list tok) : list str :=
  match ts with
  | [] => [part]
  | Quoted q body :: ts => pieces_of skip depth (part ++ q :: body ++ [q]) ts
  | Ch ch :: ts =>
      match skip with
      | S skip => pieces_of skip depth part ts
      | 0 =>
          if N.eqb ch "("%ch then pieces_of 0 (depth + 1) (vec_push ch part) ts
          else if N.eqb ch ")"%ch then pieces_of 0 (depth - 1) (vec_push ch part) ts
          else if (depth =? 0)%Z && starts_with (ch :: text_of ts) (u "||") then part :: pieces_of 1 depth [] ts
          else pieces_of 0 depth (vec_push ch part) ts
      end
  end.

Definition only_literals (ts : list tok) : Prop := Forall (fun t => match t with Quoted q _ => q = "'"%ch | Ch _ => True end) ts.

Lemma concatenation_ahead d w depth part rest :
  concatenation_loop d (length w) 0 depth part (w ++ rest) = concatenation_loop d 0 0 depth (part ++ w) rest.
Proof. revert part. induction w as [|c w IH]; intros part; [by rewrite app_nil_r|]. cbn. by rewrite IH, push_app. Qed.

Lemma starts_two c rest : starts_with (c :: rest) (u "||") = true -> head rest = Some "|"%ch.
Proof.
  change (u "||") with ["|"%ch; "|"%ch]. cbn [starts_with]. rewrite andb_true_iff. intros [_ H].
  destruct rest as [|c' rest]; [done|]. cbn [starts_with] in H. apply andb_true_iff in H as [H _].
  by apply N.eqb_eq in H as <-.
Qed.

Lemma quote_eqb c : is_quote c = false -> N.eqb c "'"%ch = false.
Proof. unfold is_quote. rewrite !orb_false_iff. tauto. Qed.

(** [skip] is only set before the bar it skips. *)
Lemma concatenation_toks d ts skip depth part : wf d ts -> only_literals ts ->
  (skip = 0 \/ (skip = 1 /\ head ts = Some (Ch "|"%ch))) ->
  concatenation_loop d 0 skip depth part (text_of ts) = pieces_of skip depth part ts.
Proof.
  intros H. revert skip depth part. induction H as [|c ts Hc _ _ _ IH|q body ts Hb Hh _ IH]; intros skip depth part Hl Hk; [done| |];
    apply Forall_cons in Hl as [Hq Hl'].
  - destruct Hk as [->|[-> [= ->]]].
    + rewrite text_of_cons. cbn [tok_text app concatenation_loop pieces_of]. rewrite quote_eqb by done.
      case_match; [apply IH; auto|]. case_match; [apply IH; auto|].
      destruct (_ && _) eqn:Hs; [|apply IH; auto]. f_equal. apply IH; [done|]. right. split; [done|].
      apply andb_true_iff in Hs as [_ Hs]. apply starts_two in Hs. destruct ts as [|[c'|q body] ts]; [done| |].
      * cbn in Hs. by injection Hs as ->.
      * apply Forall_cons in Hl' as [-> _]. done.
    + rewrite text_of_cons. cbn. apply IH; auto.
  - destruct Hk as [->|[_ [=]]]. simpl in Hq. subst q.
    rewrite text_of_cons. cbn [tok_text app concatenation_loop pieces_of]. rewrite <- app_assoc. cbn [app].
    pose proof (proj2 Hb (text_of ts) Hh) as Hlen. unfold quoted_len in Hlen. rewrite N.eqb_refl in Hlen. injection Hlen as Hlen.
    rewrite N.eqb_refl, Hlen. rewrite <- (proj2 (quoted_ahead "'"%ch body [])).
    change ("'"%ch :: text_of ts) with (["'"%ch] ++ text_of ts). rewrite (proj1 (quoted_ahead _ body _)), concatenation_ahead.
    rewrite IH by auto. f_equal. by rewrite push_app.
Qed.

(** * Laws of SQL literals

    A quoted literal is its value character by character, and ends where the
    reader says; text made of literals, calls and names is balanced, and every
    loop of the reader passes balanced text. *)

(** ** Quoted text *)

(** What a character is between quotes. *)
Definition enc (escapes : bool) (c : char) : str :=
  if N.eqb c "'"%ch then ["'"%ch; "'"%ch] else if N.eqb c BACKSLASH && escapes then [BACKSLASH; BACKSLASH] else [c].

Definition encoded (escapes : bool) (value : str) : str := concat (enc escapes <$> value).

Lemma encoded_cons escapes c value : encoded escapes (c :: value) = enc escapes c ++ encoded escapes value.
Proof. done. Qed.

Lemma encoded_app escapes v w : encoded escapes (v ++ w) = encoded escapes v ++ encoded escapes w.
Proof. unfold encoded. by rewrite fmap_app, concat_app. Qed.

Lemma double_quotes_encoded value : double_quotes value = encoded false value.
Proof.
  unfold double_quotes. change (u "'") with ["'"%ch]. rewrite replace_char. unfold encoded. f_equal.
  apply list_fmap_ext. intros _ c _. unfold enc. by rewrite andb_false_r.
Qed.

Lemma doubled_backslashes_encoded value : double_quotes (str_replace [BACKSLASH] [BACKSLASH; BACKSLASH] value) = encoded true value.
Proof.
  rewrite double_quotes_encoded, replace_char. unfold encoded. rewrite concat_bind. f_equal.
  apply list_fmap_ext. intros _ c _. unfold enc. rewrite andb_true_r.
  destruct (N.eqb_spec c BACKSLASH) as [->|]; [done|]. cbn. rewrite andb_false_r. by rewrite app_nil_r.
Qed.

Lemma encoded_plain value escapes : ~ BACKSLASH ∈ value -> encoded escapes value = encoded false value.
Proof.
  intros H. unfold encoded. f_equal. apply list_fmap_ext. intros i c Hc. unfold enc.
  destruct (N.eqb_spec c BACKSLASH) as [->|]; [|done]. destruct H. by apply list_elem_of_lookup_2 in Hc.
Qed.

Lemma literal_len_encoded escapes value rest : head rest <> Some "'"%ch ->
  literal_len escapes (encoded escapes value ++ "'"%ch :: rest) = length (encoded escapes value) + 1.
Proof.
  intros Hr. change ("'"%ch) with 39%N in *. induction value as [|c value IH].
  - cbn. destruct rest as [|c rest]; [done|]. destruct (N.eqb_spec c 39) as [->|]; [by destruct Hr|done].
  - rewrite encoded_cons. unfold enc. change ("'"%ch) with 39%N. change BACKSLASH with 92%N.
    destruct (N.eqb_spec c 39) as [->|Hq].
    + cbn -[encoded]. by rewrite IH.
    + destruct (N.eqb_spec c 92) as [->|Hb]; cbn [andb].
      * destruct escapes; cbn -[encoded]; by rewrite IH.
      * cbn -[encoded]. change BACKSLASH with 92%N. rewrite (proj2 (N.eqb_neq _ _) Hb), (proj2 (N.eqb_neq _ _) Hq).
        cbn [andb]. by rewrite IH.
Qed.

Lemma quoted_body_ok d value : body_ok d "'"%ch (encoded (backslash_escapes d) value).
Proof. split; [done|]. intros rest Hr. unfold quoted_len. rewrite N.eqb_refl. by rewrite literal_len_encoded. Qed.

Lemma read_encoded escapes value : sql_string_literal_body escapes (encoded escapes value) = Some value.
Proof.
  induction value as [|c value IH]; [done|]. rewrite encoded_cons. unfold enc.
  change ("'"%ch) with 39%N. change BACKSLASH with 92%N. destruct (N.eqb_spec c 39) as [->|Hq].
  - cbn -[encoded]. by rewrite IH.
  - destruct (N.eqb_spec c 92) as [->|Hb]; cbn [andb].
    + destruct escapes; cbn -[encoded]; by rewrite IH.
    + cbn -[encoded]. change BACKSLASH with 92%N. rewrite (proj2 (N.eqb_neq _ _) Hb), (proj2 (N.eqb_neq _ _) Hq).
      cbn [andb]. by rewrite IH.
Qed.

Definition single_quoted (body : str) : str := "'"%ch :: body ++ ["'"%ch].

Lemma single_quoted_eq body : u "'" ++ body ++ u "'" = single_quoted body.
Proof. done. Qed.

Lemma strip_single_quoted body : (rest ← strip_prefix (single_quoted body) (u "'"); strip_suffix rest (u "'")) = Some body.
Proof. unfold strip_prefix, single_quoted. cbn [starts_with u]. change (u "'") with ["'"%ch]. cbn. rewrite starts_with_nil. cbn. apply strip_suffix_snoc. Qed.

Lemma single_quoted_ends body : starts_with (single_quoted body) (u "'") = true /\ ends_with (single_quoted body) (u "'") = true.
Proof.
  change (u "'") with ["'"%ch]. unfold ends_with, single_quoted. rewrite app_comm_cons, reverse_snoc.
  change (reverse ["'"%ch]) with ["'"%ch]. split; cbn; by rewrite starts_with_nil.
Qed.

Lemma read_single_quoted d value : sql_string_literal_text (single_quoted (encoded (backslash_escapes d) value)) d = Some value.
Proof.
  unfold sql_string_literal_text. destruct (single_quoted_ends (encoded (backslash_escapes d) value)) as [-> ->].
  cbn [negb orb]. rewrite orb_false_r.
  assert ((utf8_len (single_quoted (encoded (backslash_escapes d) value)) <? 2) = false) as ->.
  { apply Nat.ltb_ge. unfold single_quoted, utf8_len. cbn. rewrite sum_list_with_app. cbn. lia. }
  assert (string_literal_end (single_quoted (encoded (backslash_escapes d) value)) 0 d
          = length (single_quoted (encoded (backslash_escapes d) value))) as ->.
  { unfold string_literal_end.
    assert (drop (0 + 1) (single_quoted (encoded (backslash_escapes d) value)) = encoded (backslash_escapes d) value ++ ["'"%ch]) as -> by done.
    rewrite literal_len_encoded by done. unfold single_quoted. cbn [length]. rewrite length_app. cbn. lia. }
  rewrite Nat.eqb_refl. cbn [negb]. rewrite strip_single_quoted. cbn. apply read_encoded.
Qed.

(** ** Which file reads what a dialect writes *)

Definition dialect_ok (d : SqlWriteDialect) : Prop := dialect_is_mysql d = false -> backslash d = Rule_Literal.

(** Every dialect the program makes is one. *)
Lemma for_session_ok db sql_mode observed : dialect_ok (for_session db sql_mode observed).
Proof.
  unfold dialect_ok, for_session, with_observed_backslash_rule, for_connection, dialect_is_mysql. cbn.
  destruct (is_mysql_or_mariadb db) eqn:Hm; cbn; [destruct observed; cbn; congruence|done].
Qed.

Definition reads (file : SqlFileDialect) (d : SqlWriteDialect) : Prop :=
  if dialect_is_mysql d then
    match doubles_a_backslash d with
    | Some escapes => file = File_MysqlFamily escapes
    | None => exists escapes, file = File_MysqlFamily escapes
    end
  else file = File_Oracle.

Lemma find_char_In c value : str_contains value [c] = true <-> c ∈ value.
Proof.
  unfold str_contains. induction value as [|x value IH]; [split; [done|set_solver]|].
  cbn [str_find starts_with]. rewrite starts_with_nil, andb_true_r, elem_of_cons.
  destruct (N.eqb_spec c x) as [->|Hx]; [cbn; tauto|]. rewrite <- IH.
  destruct (str_find value [c]); cbn; [tauto|]. split; [done|]. intros [?|?]; done.
Qed.

Lemma contains_false c value : str_contains value [c] = false -> ~ c ∈ value.
Proof. intros H Hc. apply find_char_In in Hc. congruence. Qed.

Lemma quoted_string_spec d file value literal : dialect_ok d -> reads file d -> quoted_string value d = inl literal ->
  literal = single_quoted (encoded (backslash_escapes file) value).
Proof.
  unfold reads, quoted_string, doubles_a_backslash. intros Hd Hr H. rewrite <- single_quoted_eq.
  destruct (dialect_is_mysql d) eqn:Hm; cbn [negb andb] in H.
  - destruct (backslash d); cbn [rule_doubles_a_backslash] in *.
    + subst file. injection H as <-. by rewrite doubled_backslashes_encoded.
    + subst file. injection H as <-. by rewrite double_quotes_encoded.
    + destruct Hr as [escapes ->]. destruct (str_contains _ _) eqn:Hc; [done|]. injection H as <-.
      rewrite double_quotes_encoded. cbn [backslash_escapes]. by rewrite (encoded_plain _ escapes (contains_false _ _ Hc)).
  - subst file. rewrite (Hd Hm) in H. cbn [rule_doubles_a_backslash] in H.
    destruct (_ <? _); [done|]. injection H as <-. by rewrite double_quotes_encoded.
Qed.

(** ** Balanced text *)

(** Parentheses match, no comma lies outside them, and no semicolon anywhere. *)
Fixpoint balanced (depth : nat) (ts : list tok) : bool :=
  match ts with
  | [] => depth =? 0
  | Quoted _ _ :: ts => balanced depth ts
  | Ch ch :: ts =>
      if N.eqb ch "("%ch then balanced (S depth) ts
      else if N.eqb ch ")"%ch then match depth with 0 => false | S depth => balanced depth ts end
      else if N.eqb ch ";"%ch then false
      else if N.eqb ch ","%ch then negb (depth =? 0) && balanced depth ts
      else balanced depth ts
  end.

Lemma text_of_snoc (part : str) t ts : (part ++ tok_text t) ++ text_of ts = part ++ text_of (t :: ts).
Proof. by rewrite text_of_cons, app_assoc. Qed.

Lemma top_level_balanced ts depth part rest : balanced depth ts = true ->
  top_level (Z.of_nat depth) part (ts ++ rest) = top_level 0 (part ++ text_of ts) rest.
Proof.
  revert depth part. induction ts as [|[c|q body] ts IH]; intros depth part H; cbn [balanced] in H.
  - apply Nat.eqb_eq in H as ->. by rewrite app_nil_r.
  - rewrite <- text_of_snoc. cbn [app top_level tok_text]. unfold vec_push.
    destruct (N.eqb_spec c "("%ch); [rewrite <- (IH (S depth)) by done; f_equal; lia|].
    destruct (N.eqb_spec c ")"%ch); [destruct depth as [|depth]; [done|]; rewrite <- (IH depth) by done; f_equal; lia|].
    destruct (N.eqb_spec c ";"%ch); [done|]. destruct (N.eqb_spec c ","%ch); [|cbn [andb]; by apply IH].
    apply andb_true_iff in H as [Hd H]. apply negb_true_iff, Nat.eqb_neq in Hd.
    rewrite (proj2 (Z.eqb_neq _ 0)) by lia. cbn [andb]. by apply IH.
  - rewrite <- text_of_snoc. cbn [app top_level tok_text]. by apply IH.
Qed.

Lemma matching_balanced ts depth (k : Z) index rest : balanced depth ts = true -> (0 < k)%Z ->
  matching (Z.of_nat depth + k) index (ts ++ rest) = matching k (index + length (text_of ts)) rest.
Proof.
  intros H Hk. revert depth index H. induction ts as [|[c|q body] ts IH]; intros depth index H; cbn [balanced] in H.
  - apply Nat.eqb_eq in H as ->. cbn. f_equal. lia.
  - rewrite text_of_cons, length_app. cbn [app matching tok_text length].
    replace (index + (1 + length (text_of ts))) with (S index + length (text_of ts)) by lia.
    destruct (N.eqb_spec c "("%ch); [rewrite <- (IH (S depth)) by done; f_equal; lia|].
    destruct (N.eqb_spec c ")"%ch).
    + destruct depth as [|depth]; [done|]. rewrite (proj2 (Z.eqb_neq _ 0)) by lia. rewrite <- (IH depth) by done. f_equal; lia.
    + destruct (N.eqb_spec c ";"%ch); [done|]. destruct (N.eqb_spec c ","%ch); [|by apply IH].
      apply andb_true_iff in H as [_ H]. by apply IH.
  - rewrite text_of_cons, length_app. cbn [app matching tok_text].
    rewrite (IH depth) by done. f_equal. cbn. rewrite length_app. cbn. lia.
Qed.

Lemma statements_balanced ts depth (k : Z) current rest : balanced depth ts = true -> (0 <= k)%Z ->
  statements (Z.of_nat depth + k) current (ts ++ rest) = statements k (current ++ text_of ts) rest.
Proof.
  intros H Hk. revert depth current H. induction ts as [|[c|q body] ts IH]; intros depth current H; cbn [balanced] in H.
  - apply Nat.eqb_eq in H as ->. by rewrite app_nil_r.
  - rewrite <- text_of_snoc. cbn [app statements tok_text]. unfold vec_push.
    destruct (N.eqb_spec c "("%ch); [rewrite <- (IH (S depth)) by done; f_equal; lia|].
    destruct (N.eqb_spec c ")"%ch); [destruct depth as [|depth]; [done|]; rewrite <- (IH depth) by done; f_equal; lia|].
    destruct (N.eqb_spec c ";"%ch); [done|]. cbn [andb]. destruct (N.eqb_spec c ","%ch); [|by apply IH].
    apply andb_true_iff in H as [_ H]. by apply IH.
  - rewrite <- text_of_snoc. cbn [app statements tok_text]. by apply IH.
Qed.

Lemma balanced_app ts ts' depth : balanced depth ts = true -> balanced 0 ts' = true -> balanced depth (ts ++ ts') = true.
Proof.
  intros H H'. revert depth H. induction ts as [|[c|q body] ts IH]; intros depth H; cbn [balanced app] in *.
  - by apply Nat.eqb_eq in H as ->.
  - repeat case_match; try done; auto. apply andb_true_iff in H as [-> H]. by apply IH.
  - by apply IH.
Qed.

(** Characters without meaning to the loops. *)
Definition inert (c : char) : bool :=
  negb (is_quote c) && negb (existsb (N.eqb c) (u "/-(),;|")).

Lemma inert_balanced s depth : forallb inert s = true -> balanced depth (chars s) = (depth =? 0).
Proof.
  induction s as [|c s IH]; [done|]. cbn [forallb chars fmap list_fmap balanced]. rewrite andb_true_iff. intros [Hc Hs].
  unfold inert in Hc. apply andb_true_iff in Hc as [_ Hc]. change (u "/-(),;|") with ["/"%ch; "-"%ch; "("%ch; ")"%ch; ","%ch; ";"%ch; "|"%ch] in Hc.
  cbn [existsb] in Hc. rewrite negb_true_iff, !orb_false_iff in Hc. destruct Hc as (_ & _ & -> & -> & -> & -> & _ & _). by apply IH.
Qed.

Lemma inert_facts c : inert c = true -> is_quote c = false /\ c <> "/"%ch /\ c <> "-"%ch.
Proof.
  unfold inert. change (u "/-(),;|") with ["/"%ch; "-"%ch; "("%ch; ")"%ch; ","%ch; ";"%ch; "|"%ch].
  cbn [existsb]. rewrite andb_true_iff, !negb_true_iff, !orb_false_iff, !N.eqb_neq. tauto.
Qed.

(** ** Well-formed text *)

(** Text that may follow a quoted part or a minus. *)
Definition soft (rest : str) : Prop := match head rest with Some c => is_quote c = false /\ c <> "-"%ch | None => True end.

Lemma soft_head rest q : is_quote q = true -> soft rest -> head rest <> Some q.
Proof. unfold soft. destruct (head rest) as [c|]; [|done]. intros Hq [Hc _] [= ->]. congruence. Qed.

Lemma wf_app d ts ts' : wf d ts -> wf d ts' -> soft (text_of ts') -> wf d (ts ++ ts').
Proof.
  intros H H' Hs. induction H as [|c ts Hc Hsl Hd _ IH|q body ts Hb Hh _ IH]; [done| |].
  - apply wf_ch; [done|done| |done]. intros ->. rewrite text_of_app. destruct (text_of ts) as [|c' t]; [|by apply Hd].
    unfold soft in Hs. cbn. destruct (head (text_of ts')) as [c'|]; [|done]. destruct Hs as [_ Hs]. congruence.
  - apply wf_quoted; [done| |done]. rewrite text_of_app. destruct (text_of ts) as [|c' t]; [|done]. cbn. apply soft_head; [|done]. apply Hb.
Qed.

Lemma wf_inert d s : forallb inert s = true -> wf d (chars s).
Proof.
  induction s as [|c s IH]; [constructor|]. cbn [forallb chars fmap list_fmap]. rewrite andb_true_iff. intros [Hc Hs].
  apply inert_facts in Hc as (Hq & Hsl & Hm). apply wf_ch; [done|done|intros ->; done|by apply IH].
Qed.

(** One character and what follows it. *)
Lemma wf_one d c ts : is_quote c = false -> c <> "/"%ch -> c <> "-"%ch -> wf d ts -> wf d (Ch c :: ts).
Proof. intros Hq Hs Hm H. apply wf_ch; [done|done|intros ->; done|done]. Qed.

Lemma soft_inert c s : inert c = true -> soft (c :: s).
Proof. intros Hc. apply inert_facts in Hc. unfold soft. cbn. tauto. Qed.

Lemma soft_ends (rest : str) : head rest = Some ","%ch \/ head rest = Some ")"%ch \/ head rest = Some "|"%ch -> soft rest.
Proof. unfold soft. intros [->|[->| ->]]; done. Qed.
