(* ===== verification/SqlAtoms.v ===== *)
(** * Literals are read back

    Each shape the writer gives a value - quoted, numeric, boolean, a chain of
    pieces, a conversion call - is balanced text that the reader takes back. *)
From S2P Require Import Prelude RustStr SessionPolicy GridSort ResultFilter RustParse ResultExport ImportDelimited SqlLiteral SqlImport SqlTokens.

(** The text is a value in a list of values, and reads as [back]. *)
Definition atom (file : SqlFileDialect) (literal : str) (back : ImportCell) : Prop :=
  literal <> [] /\ trim literal = literal
  /\ (exists ts, literal = text_of ts /\ wf file ts /\ balanced 0 ts = true /\ only_literals ts)
  /\ sql_value_text literal file = inl back.

Lemma only_chars s : only_literals (chars s).
Proof. apply Forall_fmap, Forall_forall. done. Qed.

(** ** What a literal is not *)

Lemma is_str_head c s p q : to_ascii_uppercase c <> to_ascii_uppercase p -> is_str (c :: s) (p :: q) = false.
Proof. intros H. unfold is_str, eq_ignore_ascii_case. apply bool_decide_eq_false. cbn. intros [= E _]. done. Qed.

Lemma not_string c s file : c <> "'"%ch -> sql_string_literal_text (c :: s) file = None.
Proof.
  intros H. unfold sql_string_literal_text. assert (starts_with (c :: s) (u "'") = false) as ->.
  { change (u "'") with ["'"%ch]. cbn [starts_with]. rewrite (proj2 (N.eqb_neq _ _)) by congruence. done. }
  cbn [negb]. by rewrite orb_true_r.
Qed.

Lemma split_on_head c s sep : c <> sep -> exists piece pieces, split_on sep (c :: s) = (c :: piece) :: pieces.
Proof.
  intros H. cbn. rewrite (proj2 (N.eqb_neq _ _) H). destruct (split_on sep s) as [|piece pieces]; eauto.
Qed.

(** A number begins with a sign, a digit or a point. *)
Lemma not_numeric c s : is_sign c = false -> is_exponent_char c = false -> is_ascii_digit c = false -> c <> "."%ch ->
  is_sql_numeric_literal (c :: s) = false.
Proof.
  intros Hs He Hd Hp. unfold is_sql_numeric_literal. cbn [skip_sign]. rewrite Hs. cbn [str_is_empty].
  assert (Hf : forall m, (length (split_on "."%ch (c :: m)) <=? 2) = true -> forallb (forallb is_ascii_digit) (split_on "."%ch (c :: m)) = false).
  { intros m _. destruct (split_on_head c m "."%ch Hp) as (piece & pieces & ->). cbn. by rewrite Hd. }
  assert (Hm : forall m, (length (split_on "."%ch (c :: m)) <=? 2) && existsb (fun part => negb (str_is_empty part)) (split_on "."%ch (c :: m))
    && forallb (forallb is_ascii_digit) (split_on "."%ch (c :: m)) = false).
  { intros m. destruct (length _ <=? 2) eqn:Hl; [|done]. rewrite (Hf m Hl). by rewrite andb_false_r. }
  cbn [split_once]. rewrite He. destruct (split_once is_exponent_char s) as [[a b]|]; cbn -[split_on]; [|apply Hm].
  destruct (_ || _); [done|]. apply Hm.
Qed.

(** ** Quoted text *)

Lemma quoted_atom file value : atom file (single_quoted (encoded (backslash_escapes file) value)) (Some value).
Proof.
  set (body := encoded (backslash_escapes file) value). assert (Ht : trim (single_quoted body) = single_quoted body).
  { by apply (trim_between "'"%ch body "'"%ch). }
  split; [done|]. split; [done|]. split.
  - exists [Quoted "'"%ch body]. split; [by rewrite text_of_cons, app_nil_r|]. split; [|by repeat constructor].
    apply wf_quoted; [apply quoted_body_ok|done|constructor].
  - unfold sql_value_text. rewrite Ht. assert (is_str (single_quoted body) (u "null") = false) as -> by by apply is_str_head.
    unfold body. by rewrite read_single_quoted.
Qed.

(** ** Numbers *)

Lemma span_digits_spec s d r : span_digits s = (d, r) -> s = d ++ r /\ forallb is_ascii_digit d = true.
Proof.
  revert d r. induction s as [|c s IH]; intros d r; cbn; [intros [= <- <-]; done|].
  destruct (is_ascii_digit c) eqn:Hc; [|intros [= <- <-]; done]. destruct (span_digits s) as [d' r'].
  intros [= <- <-]. destruct (IH d' r' eq_refl) as [-> Hd]. cbn. by rewrite Hc.
Qed.

Definition sign_text (s : str) : Prop := s = [] \/ exists c, s = [c] /\ is_sign c = true.

Lemma skip_sign_spec s : exists sg, s = sg ++ skip_sign s /\ sign_text sg.
Proof.
  destruct s as [|c s]; [exists []; split; [done|by left]|]. cbn. destruct (is_sign c) eqn:Hc; [exists [c]|exists []]; split; try done; [right; eauto|by left].
Qed.

(** The mantissa and the exponent of a numeral. *)
Definition mantissa_text (i f : str) : Prop :=
  forallb is_ascii_digit i = true /\ i ++ f <> [] /\ i ++ f <> u "."
  /\ (f = [] \/ exists fd, f = "."%ch :: fd /\ forallb is_ascii_digit fd = true).

Definition exponent_text (e : str) : Prop :=
  e = [] \/ exists c sg x, e = c :: sg ++ x /\ is_exponent_char c = true /\ sign_text sg /\ x <> [] /\ forallb is_ascii_digit x = true.

Lemma numeric_parts t : is_plain_numeric_literal t = true ->
  exists sg i f e, t = sg ++ i ++ f ++ e /\ sign_text sg /\ mantissa_text i f /\ exponent_text e.
Proof.
  unfold is_plain_numeric_literal. destruct (skip_sign_spec t) as (sg & Ht & Hsg). revert Ht. generalize (skip_sign t). intros t' ->.
  destruct (span_digits t') as [i rest] eqn:Hi. apply span_digits_spec in Hi as [-> Hi]. intros H.
  assert (Hf : exists f rest', rest = f ++ rest' /\ (f = [] \/ exists fd, f = "."%ch :: fd /\ forallb is_ascii_digit fd = true)
    /\ i ++ f <> [] /\ i ++ f <> u "."
    /\ match rest' with
       | c :: rest' => if N.eqb c "e"%ch || N.eqb c "E"%ch then
           let '(exponent, rest) := span_digits (skip_sign rest') in if length exponent =? 0 then false else str_is_empty rest
           else false
       | [] => true end = true).
  { destruct rest as [|c rest].
    - exists [], []. rewrite (app_nil_r i). cbn in H. rewrite Nat.add_0_r in H. destruct i as [|a i]; [done|].
      split; [done|]. split; [by left|]. split; [done|]. split; [|done]. intros [= -> ->]. done.
    - destruct (N.eqb_spec c "."%ch) as [->|Hc].
      + destruct (span_digits rest) as [fd rest'] eqn:Hfd. apply span_digits_spec in Hfd as [-> Hfd].
        exists ("."%ch :: fd), rest'. split; [done|]. split; [right; eauto|].
        destruct (length i + length fd =? 0) eqn:Hl; [done|]. apply Nat.eqb_neq in Hl.
        split; [by destruct i|]. split; [|done]. destruct i as [|a i]; cbn; [intros [= ->]; done|].
        intros [= -> E]. by apply app_eq_nil in E as [_ E].
      + exists [], (c :: rest). rewrite (app_nil_r i). cbn -[N.eqb] in H. rewrite Nat.add_0_r in H. destruct i as [|a i]; [done|].
        split; [done|]. split; [by left|]. split; [done|]. split; [|done]. intros [= -> ->]. done. }
  destruct Hf as (f & rest' & -> & Hf & Hne & Hnp & He). exists sg, i, f, rest'. split; [done|]. split; [done|]. split; [done|].
  destruct rest' as [|c rest']; [by left|]. right. fold (is_exponent_char c) in He. destruct (is_exponent_char c) eqn:Hc; [|done].
  destruct (skip_sign_spec rest') as (sg' & Hs & Hsg'). destruct (span_digits (skip_sign rest')) as [x r] eqn:Hx.
  apply span_digits_spec in Hx as [Hx1 Hx2]. destruct x as [|a x]; [done|]. cbn in He. destruct r; [|done].
  rewrite app_nil_r in Hx1. exists c, sg', (a :: x). rewrite Hs, Hx1. done.
Qed.

Lemma digit_code_points c : is_ascii_digit c = true -> c ∈ N.of_nat <$> seq 48 10.
Proof.
  unfold is_ascii_digit, in_range. rewrite andb_true_iff, !N.leb_le. change ("0"%ch) with 48%N. change ("9"%ch) with 57%N. intros H.
  apply list_elem_of_fmap. exists (N.to_nat c). rewrite N2Nat.id, elem_of_seq. split; [done|lia].
Qed.

(** A fact of a digit is a fact of ten. *)
Lemma digit_forall (p : char -> bool) c : forallb p (N.of_nat <$> seq 48 10) = true -> is_ascii_digit c = true -> p c = true.
Proof. rewrite forallb_forall. intros H Hc. apply H, list_elem_of_In, digit_code_points, Hc. Qed.

Lemma digit_facts c : is_ascii_digit c = true ->
  is_sign c = false /\ is_exponent_char c = false /\ c <> "."%ch /\ inert c = true /\ is_whitespace c = false.
Proof.
  intros H. assert (Hp : negb (is_sign c) && negb (is_exponent_char c) && negb (N.eqb c "."%ch) && inert c && negb (is_whitespace c) = true)
    by (apply (digit_forall (fun c => negb (is_sign c) && negb (is_exponent_char c) && negb (N.eqb c "."%ch) && inert c && negb (is_whitespace c))); [by vm_compute|done]).
  rewrite !andb_true_iff, !negb_true_iff, N.eqb_neq in Hp. tauto.
Qed.

Lemma split_once_absent p s : forallb (fun c => negb (p c)) s = true -> split_once p s = None.
Proof. induction s as [|c s IH]; [done|]. cbn. rewrite andb_true_iff, negb_true_iff. intros [-> Hs]. by rewrite IH. Qed.

Lemma split_once_present p s c rest : forallb (fun c => negb (p c)) s = true -> p c = true -> split_once p (s ++ c :: rest) = Some (s, rest).
Proof. intros Hs Hc. induction s as [|x s IH]; cbn in *; [by rewrite Hc|]. apply andb_true_iff in Hs as [Hx Hs]. apply negb_true_iff in Hx. by rewrite Hx, IH. Qed.

Lemma split_on_absent sep s : forallb (fun c => negb (N.eqb c sep)) s = true -> split_on sep s = [s].
Proof. induction s as [|c s IH]; [done|]. cbn. rewrite andb_true_iff, negb_true_iff. intros [-> Hs]. by rewrite IH. Qed.

Lemma split_on_at sep s rest : forallb (fun c => negb (N.eqb c sep)) s = true -> split_on sep (s ++ sep :: rest) = s :: split_on sep rest.
Proof.
  intros Hs. induction s as [|c s IH]; cbn in *; [by rewrite N.eqb_refl|].
  apply andb_true_iff in Hs as [Hc Hs]. apply negb_true_iff in Hc. by rewrite Hc, IH.
Qed.

Lemma forallb_impl (p q : char -> bool) s : (forall c, p c = true -> q c = true) -> forallb p s = true -> forallb q s = true.
Proof. intros H. rewrite !forallb_forall. auto. Qed.

Lemma digits_no_point s : forallb is_ascii_digit s = true -> forallb (fun c => negb (N.eqb c "."%ch)) s = true.
Proof. apply forallb_impl. intros c Hc. apply digit_facts in Hc as (_ & _ & Hc & _). by rewrite (proj2 (N.eqb_neq _ _) Hc). Qed.

Lemma mantissa_no_exponent i f : mantissa_text i f -> forallb (fun c => negb (is_exponent_char c)) (i ++ f) = true.
Proof.
  intros (Hi & _ & _ & Hf). assert (Hd : forall s, forallb is_ascii_digit s = true -> forallb (fun c => negb (is_exponent_char c)) s = true).
  { intros s. apply forallb_impl. intros c Hc. apply digit_facts in Hc as (_ & -> & _). done. }
  rewrite forallb_app, (Hd i Hi). destruct Hf as [->|(fd & -> & Hfd)]; [done|]. cbn. by apply Hd.
Qed.

Lemma mantissa_reads i f : mantissa_text i f ->
  let digits := split_on "."%ch (i ++ f) in
  (length digits <=? 2) && existsb (fun part => negb (str_is_empty part)) digits && forallb (forallb is_ascii_digit) digits = true.
Proof.
  intros (Hi & Hne & Hnp & Hf). pose proof (digits_no_point i Hi) as Hip. destruct Hf as [->|(fd & -> & Hfd)]; cbv zeta.
  - rewrite app_nil_r in *. rewrite split_on_absent by done. cbn. rewrite Hi. by destruct i.
  - rewrite split_on_at, (split_on_absent _ fd) by (done || by apply digits_no_point). cbn. rewrite Hi, Hfd. destruct i; [|done].
    by destruct fd.
Qed.

Lemma mantissa_head i f rest : mantissa_text i f -> exists c t, i ++ f ++ rest = c :: t /\ (is_ascii_digit c = true \/ c = "."%ch).
Proof.
  intros (Hi & Hne & _ & Hf). destruct i as [|c i]; cbn in *.
  - destruct Hf as [->|(fd & -> & _)]; [done|]. cbn. eauto.
  - apply andb_true_iff in Hi as [Hc _]. eauto.
Qed.

Lemma skip_sign_digits x : x <> [] -> forallb is_ascii_digit x = true -> skip_sign x = x.
Proof. destruct x as [|c x]; [done|]. cbn. rewrite andb_true_iff. intros _ [Hc _]. apply digit_facts in Hc as (-> & _). done. Qed.

Lemma skip_sign_after sg rest : sign_text sg -> skip_sign rest = rest -> skip_sign (sg ++ rest) = rest.
Proof. intros [->|(c & -> & Hc)] H; [done|]. cbn. by rewrite Hc. Qed.

Lemma numeral_reads sg i f e : sign_text sg -> mantissa_text i f -> exponent_text e -> is_sql_numeric_literal (sg ++ i ++ f ++ e) = true.
Proof.
  intros Hsg Hm He. unfold is_sql_numeric_literal. destruct (mantissa_head i f e Hm) as (c & t & Ht & Hc).
  rewrite skip_sign_after; [|done|rewrite Ht; cbn; destruct Hc as [Hc| ->]; [apply digit_facts in Hc as (-> & _); done|done]].
  rewrite Ht at 1. cbn [str_is_empty]. pose proof (mantissa_no_exponent i f Hm) as Hn. pose proof (mantissa_reads i f Hm) as Hr.
  destruct He as [->|(x & sg' & ds & -> & Hx & Hsg' & Hne & Hds)].
  - rewrite app_nil_r. rewrite split_once_absent by done. exact Hr.
  - rewrite app_assoc, split_once_present by done.
    rewrite skip_sign_after by (done || by apply skip_sign_digits). destruct ds as [|y ds]; [done|].
    rewrite Hds. exact Hr.
Qed.

Lemma inert_digits s : forallb is_ascii_digit s = true -> forallb inert s = true.
Proof. apply forallb_impl. intros c Hc. by apply digit_facts in Hc as (_ & _ & _ & -> & _). Qed.

Lemma soft_app s rest : forallb inert s = true -> s <> [] -> soft (s ++ rest).
Proof. destruct s as [|c s]; [done|]. cbn [forallb app]. rewrite andb_true_iff. intros [Hc _] _. by apply soft_inert. Qed.

Lemma wf_sign d sg ts : sign_text sg -> wf d ts -> soft (text_of ts) -> wf d (chars sg ++ ts).
Proof.
  intros [->|(c & -> & Hc)] Ht Hs; [done|]. apply (wf_app d [Ch c]); [|done|done].
  unfold is_sign in Hc. apply orb_true_iff in Hc as [Hc|Hc]; apply N.eqb_eq in Hc as ->; apply wf_ch; (done || constructor).
Qed.

Lemma exponent_inert c : is_exponent_char c = true -> inert c = true.
Proof. unfold is_exponent_char. rewrite orb_true_iff, !N.eqb_eq. by intros [->| ->]. Qed.

Lemma wf_exponent d e : exponent_text e -> wf d (chars e) /\ soft e.
Proof.
  intros [->|(x & sg & ds & -> & Hx & Hsg & Hne & Hds)]; [split; [constructor|done]|]. apply exponent_inert in Hx.
  split; [|by apply soft_inert]. unfold chars. cbn [fmap list_fmap]. fold (chars (sg ++ ds)). unfold chars. rewrite fmap_app.
  pose proof (inert_digits ds Hds) as Hi. assert (Hw : wf d (chars sg ++ chars ds)).
  { apply wf_sign; [done|by apply wf_inert|]. rewrite text_of_chars. rewrite <- (app_nil_r ds). by apply soft_app. }
  apply inert_facts in Hx as (Hq & Hsl & Hm). by apply wf_one.
Qed.

Lemma mantissa_inert i f : mantissa_text i f -> forallb inert (i ++ f) = true.
Proof.
  intros (Hi & _ & _ & Hf). rewrite forallb_app, (inert_digits i Hi). destruct Hf as [->|(fd & -> & Hfd)]; [done|]. cbn [forallb andb].
  by rewrite inert_digits.
Qed.

Lemma no_space_trim s : forallb (fun c => negb (is_whitespace c)) s = true -> trim s = s.
Proof.
  intros H. apply trim_plain. apply Forall_forall. intros c Hc. rewrite forallb_forall in H.
  apply negb_true_iff, H. by apply list_elem_of_In.
Qed.

(** Characters that a list of values passes. *)
Definition quiet (c : char) : bool := negb (existsb (N.eqb c) (u "(),;")).

Lemma quiet_balanced s depth : forallb quiet s = true -> balanced depth (chars s) = (depth =? 0).
Proof.
  induction s as [|c s IH]; [done|]. cbn [forallb chars fmap list_fmap balanced]. rewrite andb_true_iff. intros [Hc Hs].
  unfold quiet in Hc. change (u "(),;") with ["("%ch; ")"%ch; ","%ch; ";"%ch] in Hc.
  cbn [existsb] in Hc. rewrite negb_true_iff, !orb_false_iff in Hc. destruct Hc as (-> & -> & -> & -> & _). by apply IH.
Qed.

Lemma numeral_chars sg i f e : sign_text sg -> mantissa_text i f -> exponent_text e ->
  forallb (fun c => quiet c && negb (is_whitespace c)) (sg ++ i ++ f ++ e) = true.
Proof.
  intros Hsg (Hi & _ & _ & Hf) He.
  assert (Hd : forall s, forallb is_ascii_digit s = true -> forallb (fun c => quiet c && negb (is_whitespace c)) s = true).
  { intros s. apply forallb_impl. intros c. by apply (digit_forall (fun c => quiet c && negb (is_whitespace c))). }
  assert (Hs : forall s, sign_text s -> forallb (fun c => quiet c && negb (is_whitespace c)) s = true).
  { intros s [->|(c & -> & Hc)]; [done|]. unfold is_sign in Hc. apply orb_true_iff in Hc as [Hc|Hc]; apply N.eqb_eq in Hc as ->; done. }
  rewrite !forallb_app, (Hs sg Hsg), (Hd i Hi).
  assert (forallb (fun c => quiet c && negb (is_whitespace c)) f = true) as ->.
  { destruct Hf as [->|(fd & -> & Hfd)]; [done|]. cbn. by apply Hd. }
  destruct He as [->|(x & sg' & ds & -> & Hx & Hsg' & _ & Hds)]; [done|]. cbn [forallb]. rewrite forallb_app, (Hs sg' Hsg'), (Hd ds Hds).
  unfold is_exponent_char in Hx. apply orb_true_iff in Hx as [Hx|Hx]; apply N.eqb_eq in Hx as ->; done.
Qed.

Lemma numeral_head sg i f e : sign_text sg -> mantissa_text i f ->
  exists c t, sg ++ i ++ f ++ e = c :: t /\ (is_sign c = true \/ is_ascii_digit c = true \/ c = "."%ch).
Proof.
  intros [->|(c & -> & Hc)] Hm; [|eexists _, _; split; [done|auto]].
  destruct (mantissa_head i f e Hm) as (c & t & Ht & Hc). rewrite app_nil_l, Ht. eauto.
Qed.

Lemma numeral_atom file t : is_plain_numeric_literal t = true -> atom file t (Some t).
Proof.
  intros H. destruct (numeric_parts t H) as (sg & i & f & e & -> & Hsg & Hm & He).
  pose proof (numeral_chars sg i f e Hsg Hm He) as Hc. destruct (numeral_head sg i f e Hsg Hm) as (c & s & Hh & Hhc).
  assert (Hq : negb (N.eqb c "'"%ch) && negb (N.eqb (to_ascii_uppercase c) (to_ascii_uppercase "n"%ch)) = true).
  { destruct Hhc as [Hs|[Hd| ->]]; [|revert Hd; by apply (digit_forall (fun c => negb (N.eqb c "'"%ch) && negb (N.eqb (to_ascii_uppercase c) (to_ascii_uppercase "n"%ch))))|done].
    unfold is_sign in Hs. apply orb_true_iff in Hs as [Hs|Hs]; apply N.eqb_eq in Hs as ->; done. }
  rewrite andb_true_iff, !negb_true_iff, !N.eqb_neq in Hq. destruct Hq as [Hq Hn].
  assert (Ht : trim (sg ++ i ++ f ++ e) = sg ++ i ++ f ++ e).
  { apply no_space_trim. revert Hc. apply forallb_impl. intros x Hx. by apply andb_true_iff in Hx as [_ Hx]. }
  split; [by rewrite Hh|]. split; [done|]. split.
  - exists (chars (sg ++ i ++ f ++ e)). split; [by rewrite text_of_chars|]. split.
    + destruct (wf_exponent file e He) as [Hw Hse]. unfold chars. rewrite !fmap_app. apply wf_sign; [done| |].
      * rewrite app_assoc. rewrite <- fmap_app. apply wf_app; [by apply wf_inert, mantissa_inert|done|by rewrite text_of_chars].
      * rewrite <- !fmap_app, text_of_chars, app_assoc. apply soft_app; [by apply mantissa_inert|]. by destruct Hm as (_ & Hne & _).
    + split; [|apply only_chars]. rewrite quiet_balanced; [done|]. revert Hc. apply forallb_impl. intros x Hx. by apply andb_true_iff in Hx as [Hx _].
  - unfold sql_value_text. rewrite Ht, (numeral_reads sg i f e) by done. rewrite Hh.
    assert (is_str (c :: s) (u "null") = false) as -> by by apply is_str_head. by rewrite not_string.
Qed.

(** ** Booleans *)

(** The spellings of an upper-case word. *)
Fixpoint variants (w : str) : list str :=
  match w with
  | [] => [[]]
  | c :: w => (cons c <$> variants w) ++ (cons (c + 32)%N <$> variants w)
  end.

Lemma variants_all w t : forallb is_ascii_uppercase w = true -> is_str t w = true -> t ∈ variants w.
Proof.
  unfold is_str, eq_ignore_ascii_case. intros Hw H. apply bool_decide_eq_true in H. revert t H.
  induction w as [|c w IH]; intros [|x t] H; cbn in H; try done; [by apply list_elem_of_singleton|].
  cbn [forallb] in Hw. apply andb_true_iff in Hw as [Hc Hw]. injection H as Hx Ht.
  assert (Hcc : to_ascii_uppercase c = c).
  { unfold to_ascii_uppercase. unfold is_ascii_uppercase, in_range in Hc. rewrite andb_true_iff, !N.leb_le in Hc.
    unfold is_ascii_lowercase, in_range. destruct (N.leb_spec "a"%ch c) as [Hl|]; [|done].
    change ("a"%ch) with 97%N in Hl. change ("Z"%ch) with 90%N in Hc. lia. }
  rewrite Hcc in Hx. assert (Hin : t ∈ variants w) by (by apply IH). cbn [variants]. apply elem_of_app.
  unfold to_ascii_uppercase in Hx. destruct (is_ascii_lowercase x) eqn:Hl.
  - right. apply list_elem_of_fmap. exists t. split; [|done]. f_equal. unfold is_ascii_lowercase, in_range in Hl.
    rewrite andb_true_iff, !N.leb_le in Hl. change ("a"%ch) with 97%N in Hl. lia.
  - left. apply list_elem_of_fmap. exists t. by subst.
Qed.

Definition boolean_check (t : str) : bool :=
  forallb inert t && forallb quiet t && (trim t == t) && negb (is_str t (u "null"))
  && match t with c :: _ => negb (N.eqb c "'"%ch) | [] => false end
  && (is_str t (u "true") || is_str t (u "false")).

Lemma boolean_atom file t : is_str t (u "TRUE") = true \/ is_str t (u "FALSE") = true -> atom file t (Some t).
Proof.
  intros H. assert (Hc : boolean_check t = true).
  { assert (Hf : forallb boolean_check (variants (u "TRUE") ++ variants (u "FALSE")) = true) by by vm_compute.
    rewrite forallb_forall in Hf. apply Hf, list_elem_of_In, elem_of_app. destruct H; [left|right]; by apply variants_all. }
  unfold boolean_check in Hc. rewrite !andb_true_iff, bool_decide_eq_true, negb_true_iff in Hc.
  destruct Hc as [[[[[Hi Hq] Ht] Hn] Hh] Hb]. split; [by destruct t|]. split; [done|]. split.
  - exists (chars t). rewrite text_of_chars, quiet_balanced by done. split; [done|]. split; [by apply wf_inert|]. split; [done|apply only_chars].
  - unfold sql_value_text. rewrite Ht, Hn. destruct t as [|c t]; [done|]. apply negb_true_iff, N.eqb_neq in Hh.
    rewrite not_string by done. rewrite Hb. by destruct (is_sql_numeric_literal _).
Qed.

(** ** Chains *)

(** A piece of a chain: a literal, or [CHR(38)]. *)
Abbreviation piece := (option str).

Definition piece_toks (p : piece) : list tok :=
  match p with Some v => [Quoted "'"%ch (encoded false v)] | None => chars (u "CHR(38)") end.
Definition piece_value (p : piece) : str := match p with Some v => v | None => u "&" end.

Fixpoint joined (sep : list tok) (pieces : list (list tok)) : list tok :=
  match pieces with
  | [] => []
  | [p] => p
  | p :: pieces => p ++ sep ++ joined sep pieces
  end.

Definition bars : list tok := chars (u "||").

Lemma text_joined sep pieces : text_of (joined sep pieces) = join (text_of sep) (text_of <$> pieces).
Proof.
  induction pieces as [|p [|p' pieces] IH]; [done|done|]. change (joined sep (p :: p' :: pieces)) with (p ++ sep ++ joined sep (p' :: pieces)).
  rewrite !text_of_app, IH. done.
Qed.

(** No bar lies outside parentheses. *)
Fixpoint solid (depth : nat) (ts : list tok) : bool :=
  match ts with
  | [] => depth =? 0
  | Quoted _ _ :: ts => solid depth ts
  | Ch ch :: ts =>
      if N.eqb ch "("%ch then solid (S depth) ts
      else if N.eqb ch ")"%ch then match depth with 0 => false | S depth => solid depth ts end
      else if N.eqb ch "|"%ch then negb (depth =? 0) && solid depth ts
      else solid depth ts
  end.

Lemma solid_app ts ts' n m : solid n ts = true -> solid (n + m) (ts ++ ts') = solid m ts'.
Proof.
  revert n. induction ts as [|[c|q body] ts IH]; intros n H; cbn [solid app] in *.
  - by apply Nat.eqb_eq in H as ->.
  - destruct (N.eqb c "("%ch); [exact (IH (S n) H)|]. destruct (N.eqb c ")"%ch); [destruct n; [done|exact (IH n H)]|].
    destruct (N.eqb c "|"%ch); [|exact (IH n H)]. apply andb_true_iff in H as [Hn H]. destruct n; [done|]. exact (IH _ H).
  - exact (IH n H).
Qed.

Lemma balanced_shift ts ts' n m : balanced n ts = true -> balanced (n + m) (ts ++ ts') = balanced m ts'.
Proof.
  revert n. induction ts as [|[c|q body] ts IH]; intros n H; cbn [balanced app] in *.
  - by apply Nat.eqb_eq in H as ->.
  - destruct (N.eqb c "("%ch); [exact (IH (S n) H)|]. destruct (N.eqb c ")"%ch); [destruct n; [done|exact (IH n H)]|].
    destruct (N.eqb c ";"%ch); [done|]. destruct (N.eqb c ","%ch); [|exact (IH n H)].
    apply andb_true_iff in H as [Hn H]. destruct n; [done|]. exact (IH _ H).
  - exact (IH n H).
Qed.

Lemma pieces_solid ts depth part rest : solid depth ts = true ->
  pieces_of 0 (Z.of_nat depth) part (ts ++ rest) = pieces_of 0 0 (part ++ text_of ts) rest.
Proof.
  revert depth part. induction ts as [|[c|q body] ts IH]; intros depth part H; cbn [solid] in H.
  - apply Nat.eqb_eq in H as ->. by rewrite app_nil_r.
  - rewrite <- text_of_snoc. cbn [app pieces_of tok_text]. unfold vec_push.
    destruct (N.eqb_spec c "("%ch); [rewrite <- (IH (S depth)) by done; f_equal; lia|].
    destruct (N.eqb_spec c ")"%ch); [destruct depth as [|depth]; [done|]; rewrite <- (IH depth) by done; f_equal; lia|].
    destruct (N.eqb_spec c "|"%ch) as [->|Hb].
    + apply andb_true_iff in H as [Hd H]. apply negb_true_iff, Nat.eqb_neq in Hd.
      rewrite (proj2 (Z.eqb_neq _ 0)) by lia. cbn [andb]. by apply IH.
    + assert (starts_with (c :: text_of (ts ++ rest)) (u "||") = false) as ->; [|rewrite andb_false_r; by apply IH].
      change (u "||") with ["|"%ch; "|"%ch]. cbn [starts_with]. by rewrite (proj2 (N.eqb_neq _ _)) by congruence.
  - rewrite <- text_of_snoc. cbn [app pieces_of tok_text]. by apply IH.
Qed.

Lemma pieces_joined p ps part : Forall (fun p => solid 0 p = true) (p :: ps) ->
  pieces_of 0 0 part (joined bars (p :: ps)) = (part ++ text_of p) :: (text_of <$> ps).
Proof.
  revert p part. induction ps as [|p' ps IH]; intros p part H; apply Forall_cons in H as [Hp Hps].
  - cbn [joined]. rewrite <- (app_nil_r p) at 1. rewrite (pieces_solid p 0) by done. done.
  - change (joined bars (p :: p' :: ps)) with (p ++ bars ++ joined bars (p' :: ps)). rewrite (pieces_solid p 0) by done.
    change (bars ++ joined bars (p' :: ps)) with (Ch "|"%ch :: Ch "|"%ch :: joined bars (p' :: ps)).
    assert (Hbars : forall t, pieces_of 0 0 (part ++ text_of p) (Ch "|"%ch :: Ch "|"%ch :: t) = (part ++ text_of p) :: pieces_of 0 0 [] t).
    { intros t. cbn [pieces_of]. rewrite !text_of_cons. change (u "||") with ["|"%ch; "|"%ch]. cbn. by rewrite starts_with_nil. }
    rewrite Hbars.
    by rewrite IH.
Qed.

Lemma wf_joined d p ps : Forall (wf d) (p :: ps) -> wf d (joined bars (p :: ps)).
Proof.
  revert p. induction ps as [|p' ps IH]; intros p H; apply Forall_cons in H as [Hp Hps]; [done|].
  change (joined bars (p :: p' :: ps)) with (p ++ Ch "|"%ch :: Ch "|"%ch :: joined bars (p' :: ps)).
  apply wf_app; [done| |done]. repeat (apply wf_one; [done|done|done|]). by apply IH.
Qed.

Lemma only_literals_joined p ps : Forall only_literals (p :: ps) -> only_literals (joined bars (p :: ps)).
Proof.
  revert p. induction ps as [|p' ps IH]; intros p H; apply Forall_cons in H as [Hp Hps]; [done|].
  change (joined bars (p :: p' :: ps)) with (p ++ Ch "|"%ch :: Ch "|"%ch :: joined bars (p' :: ps)).
  apply Forall_app. split; [done|]. repeat (constructor; [done|]). by apply IH.
Qed.

Lemma balanced_joined p ps n : Forall (fun p => balanced 0 p = true) (p :: ps) -> balanced n (joined bars (p :: ps)) = (n =? 0).
Proof.
  revert p. induction ps as [|p' ps IH]; intros p H; apply Forall_cons in H as [Hp Hps].
  - cbn [joined]. rewrite <- (app_nil_r p). exact (balanced_shift p [] 0 n Hp).
  - change (joined bars (p :: p' :: ps)) with (p ++ Ch "|"%ch :: Ch "|"%ch :: joined bars (p' :: ps)).
    rewrite (balanced_shift p _ 0 n Hp). cbn [balanced]. exact (IH p' Hps).
Qed.

(** Inside parentheses the bars are passed. *)
Lemma solid_inside p ps rest n : Forall (fun p => solid 0 p = true) (p :: ps) ->
  solid (S n) (joined bars (p :: ps) ++ rest) = solid (S n) rest.
Proof.
  revert p. induction ps as [|p' ps IH]; intros p H; apply Forall_cons in H as [Hp Hps].
  - exact (solid_app p rest 0 (S n) Hp).
  - change (joined bars (p :: p' :: ps) ++ rest) with ((p ++ Ch "|"%ch :: Ch "|"%ch :: joined bars (p' :: ps)) ++ rest).
    rewrite <- app_assoc. rewrite (solid_app p _ 0 (S n) Hp). exact (IH p' Hps).
Qed.

(** ** Pieces *)

Lemma piece_ok p : wf File_Oracle (piece_toks p) /\ only_literals (piece_toks p)
  /\ balanced 0 (piece_toks p) = true /\ solid 0 (piece_toks p) = true.
Proof.
  destruct p as [v|].
  - split; [|by repeat split; repeat constructor]. apply wf_quoted; [exact (quoted_body_ok File_Oracle v)|done|constructor].
  - split; [|by repeat split; repeat constructor]. repeat (apply wf_one; [done|done|done|]). constructor.
Qed.

Lemma pieces_all (q : list tok -> Prop) ps : (forall p, q (piece_toks p)) -> Forall q (piece_toks <$> ps).
Proof. intros H. apply Forall_fmap, Forall_forall. intros p _. apply H. Qed.

Definition chain (ps : list piece) : list tok := joined bars (piece_toks <$> ps).

Lemma piece_text_some v : text_of (piece_toks (Some v)) = single_quoted (encoded false v).
Proof. cbn [piece_toks]. by rewrite text_of_cons, app_nil_r. Qed.

Lemma piece_trim p : trim (text_of (piece_toks p)) = text_of (piece_toks p).
Proof. destruct p as [v|]; [|done]. rewrite piece_text_some. by apply (trim_between "'"%ch _ "'"%ch). Qed.

Lemma piece_reads p : concatenation_piece_text (text_of (piece_toks p)) File_Oracle = Some (piece_value p).
Proof. destruct p as [v|]; [|done]. rewrite piece_text_some. unfold concatenation_piece_text. by rewrite (read_single_quoted File_Oracle). Qed.

Lemma split_chain ps : ps <> [] -> split_concatenation (text_of (chain ps)) File_Oracle = (fun p => text_of (piece_toks p)) <$> ps.
Proof.
  destruct ps as [|p ps]; [done|]. intros _. unfold split_concatenation, chain. cbn [fmap list_fmap].
  pose proof (pieces_all (fun ts => wf File_Oracle ts) (p :: ps) (fun p => proj1 (piece_ok p))) as Hw.
  pose proof (pieces_all only_literals (p :: ps) (fun p => proj1 (proj2 (piece_ok p)))) as Hl.
  pose proof (pieces_all (fun ts => solid 0 ts = true) (p :: ps) (fun p => proj2 (proj2 (proj2 (piece_ok p))))) as Hs.
  rewrite concatenation_toks; [|by apply wf_joined|by apply only_literals_joined|by left].
  rewrite pieces_joined by done. cbn. f_equal. by rewrite <- list_fmap_compose.
Qed.

Lemma read_pieces_all {A} (read : str -> option str) (text value : A -> str) l :
  Forall (fun x => read (text x) = Some (value x)) l -> read_pieces read (text <$> l) = Some (concat (value <$> l)).
Proof. induction 1 as [|x l Hx _ IH]; [done|]. cbn [fmap list_fmap read_pieces]. rewrite Hx. cbn [mbind option_bind]. by rewrite IH. Qed.

Lemma read_chain ps : ps <> [] -> simple_concatenation_text (text_of (chain ps)) File_Oracle = Some (concat (piece_value <$> ps)).
Proof.
  intros Hne. unfold simple_concatenation_text. rewrite split_chain by done. apply read_pieces_all, Forall_forall.
  intros p _. by rewrite piece_trim, piece_reads.
Qed.

(** ** Ends of a text *)

(** It begins and ends with ink. *)
Definition neat (s : str) : Prop := exists c x d, s = [c] ++ x ++ [d] /\ is_whitespace c = false /\ is_whitespace d = false.

Lemma neat_trim s : neat s -> trim s = s /\ s <> [].
Proof. intros (c & x & d & -> & Hc & Hd). split; [by apply trim_between|done]. Qed.

Lemma neat_app s w t : neat s -> neat t -> neat (s ++ w ++ t).
Proof.
  intros (c & x & d & -> & Hc & _) (c' & x' & d' & -> & _ & Hd). exists c, (x ++ [d] ++ w ++ [c'] ++ x'), d'.
  split; [|done]. by rewrite <- !app_assoc.
Qed.

Lemma neat_join sep p ps : Forall neat (p :: ps) -> neat (join sep (p :: ps)).
Proof.
  revert p. induction ps as [|p' ps IH]; intros p H; apply Forall_cons in H as [Hp Hps]; [done|].
  change (join sep (p :: p' :: ps)) with (p ++ sep ++ join sep (p' :: ps)). by apply neat_app; [|apply IH].
Qed.

Lemma neat_quoted body : neat (single_quoted body).
Proof. by exists "'"%ch, body, "'"%ch. Qed.

Lemma neat_piece p : neat (text_of (piece_toks p)).
Proof. destruct p as [v|]; [rewrite piece_text_some; apply neat_quoted|]. by exists "C"%ch, (u "HR(38"), ")"%ch. Qed.

Lemma trim_head c s : is_whitespace c = false -> exists t, trim (c :: s) = c :: t.
Proof.
  intros Hc. unfold trim. cbn [trim_start]. rewrite Hc. unfold trim_end.
  assert (H : forall l, exists t, reverse (trim_start (l ++ [c])) = c :: t).
  { induction l as [|x l IH]; cbn [app trim_start].
    - rewrite Hc. by exists [].
    - destruct (is_whitespace x); [exact IH|]. exists (reverse (x :: l)). by rewrite app_comm_cons, reverse_snoc. }
  rewrite reverse_cons. apply H.
Qed.

Lemma not_to_clob c s : is_whitespace c = false -> c <> "("%ch -> to_ascii_uppercase c <> "T"%ch -> to_clob_argument (c :: s) = None.
Proof.
  intros Hw Hp Hc. unfold to_clob_argument, find_char. cbn [str_find starts_with].
  rewrite (proj2 (N.eqb_neq _ _)) by congruence. cbn [andb]. destruct (str_find s ["("%ch]) as [n|]; [|done].
  cbn -[trim is_str]. destruct (trim_head c (take n s) Hw) as [t ->].
  change (u "TO_CLOB") with ("T"%ch :: u "O_CLOB"). by rewrite is_str_head.
Qed.

Lemma quoted_and_more body rest : body_ok File_Oracle "'"%ch body -> head rest = Some "|"%ch ->
  sql_string_literal_text (single_quoted body ++ rest) File_Oracle = None.
Proof.
  intros [_ Hb] Hr. unfold sql_string_literal_text. destruct (_ || _ || _); [done|].
  assert ((string_literal_end (single_quoted body ++ rest) 0 File_Oracle =? length (single_quoted body ++ rest)) = false) as ->; [|done].
  apply Nat.eqb_neq. unfold string_literal_end.
  assert (drop (0 + 1) (single_quoted body ++ rest) = body ++ "'"%ch :: rest) as ->.
  { unfold single_quoted. cbn [app]. rewrite <- app_assoc. done. }
  assert (Hl : head rest <> Some "'"%ch) by (rewrite Hr; done). specialize (Hb rest Hl). unfold quoted_len in Hb.
  rewrite N.eqb_refl in Hb. injection Hb as Hb. cbn [backslash_escapes] in *. rewrite Hb. unfold single_quoted. rewrite length_app. cbn [length]. rewrite length_app. cbn [length].
  destruct rest; [done|]. cbn. lia.
Qed.

(** ** The atoms of Oracle *)

Lemma chain_neat ps : ps <> [] -> neat (text_of (chain ps)).
Proof.
  destruct ps as [|p ps]; [done|]. intros _. unfold chain. rewrite text_joined, <- list_fmap_compose. cbn [fmap list_fmap].
  apply neat_join. constructor; [apply neat_piece|]. apply Forall_fmap, Forall_forall. intros x _. apply neat_piece.
Qed.

Lemma chain_toks ps : ps <> [] -> wf File_Oracle (chain ps) /\ forall n, balanced n (chain ps) = (n =? 0).
Proof.
  destruct ps as [|p ps]; [done|]. intros _. split.
  - apply wf_joined, (pieces_all (fun ts => wf File_Oracle ts) (p :: ps)). intros q. apply piece_ok.
  - intros n. apply balanced_joined, (pieces_all (fun ts => balanced 0 ts = true) (p :: ps)). intros q. apply piece_ok.
Qed.

Lemma piece_no_clob p : to_clob_argument (text_of (piece_toks p)) = None.
Proof. destruct p as [v|]; [|done]. rewrite piece_text_some. by apply not_to_clob. Qed.

Lemma chain_concatenated ps : ps <> [] -> concatenated_literal_text (text_of (chain ps)) File_Oracle = Some (concat (piece_value <$> ps)).
Proof.
  intros Hne. unfold concatenated_literal_text. cbn [file_is_oracle negb]. rewrite split_chain by done.
  apply read_pieces_all, Forall_forall. intros p _. by rewrite piece_trim, piece_no_clob, piece_reads.
Qed.

(** The values that are tried before a concatenation. *)
Definition no_simple_value (t : str) : Prop :=
  is_str t (u "null") = false /\ is_sql_numeric_literal t = false /\ is_str t (u "true") = false /\ is_str t (u "false") = false.

Lemma chain_head ps : ps <> [] -> exists c s, text_of (chain ps) = c :: s /\ (c = "'"%ch \/ c = "C"%ch).
Proof.
  destruct ps as [|p ps]; [done|]. intros _. unfold chain. rewrite text_joined. cbn [fmap list_fmap].
  assert (Hj : forall l, exists s, join (text_of bars) (text_of (piece_toks p) :: l) = text_of (piece_toks p) ++ s).
  { intros [|x l]; [exists []; by rewrite app_nil_r|]. eexists. done. }
  destruct (Hj (text_of <$> (piece_toks <$> ps))) as [s ->]. destruct p; eexists _, _; (split; [done|auto]).
Qed.

Lemma chain_not_simple ps : ps <> [] -> no_simple_value (text_of (chain ps)).
Proof.
  intros Hne. destruct (chain_head ps Hne) as (c & s & -> & [-> | ->]); (split; [by apply is_str_head|]; split; [by apply not_numeric|];
    split; by apply is_str_head).
Qed.

Lemma chain_not_string p p' ps : sql_string_literal_text (text_of (chain (p :: p' :: ps))) File_Oracle = None.
Proof.
  unfold chain. rewrite text_joined. cbn [fmap list_fmap].
  change (join (text_of bars) (text_of (piece_toks p) :: text_of (piece_toks p') :: ?l)) with
    (text_of (piece_toks p) ++ text_of bars ++ join (text_of bars) (text_of (piece_toks p') :: l)).
  destruct p as [v|]; [|by apply not_string]. rewrite piece_text_some.
  apply quoted_and_more; [exact (quoted_body_ok File_Oracle v)|done].
Qed.

Lemma chain_literals ps : only_literals (chain ps).
Proof.
  destruct ps as [|p ps]; [constructor|]. apply only_literals_joined, (pieces_all only_literals (p :: ps)). intros q. apply piece_ok.
Qed.

Lemma chain_atom ps : ps <> [] -> atom File_Oracle (text_of (chain ps)) (Some (concat (piece_value <$> ps))).
Proof.
  intros Hne. destruct (neat_trim _ (chain_neat ps Hne)) as [Ht Hn]. destruct (chain_toks ps Hne) as [Hw Hb].
  split; [done|]. split; [done|]. split; [exists (chain ps); rewrite Hb; repeat split; [done|apply chain_literals]|].
  unfold sql_value_text. rewrite Ht. destruct (chain_not_simple ps Hne) as (-> & -> & -> & ->).
  destruct ps as [|p [|p' ps]]; [done| |].
  - unfold chain. cbn [fmap list_fmap joined concat]. rewrite app_nil_r. destruct p as [v|]; [|done].
    rewrite piece_text_some. by rewrite (read_single_quoted File_Oracle).
  - rewrite chain_not_string. by rewrite chain_concatenated.
Qed.

Definition clob_toks (ps : list piece) : list tok := chars (u "TO_CLOB(") ++ chain ps ++ [Ch ")"%ch].

Lemma clob_text ps : text_of (clob_toks ps) = u "TO_CLOB(" ++ text_of (chain ps) ++ u ")".
Proof. unfold clob_toks. by rewrite !text_of_app, text_of_chars. Qed.

Lemma clob_ok ps : ps <> [] -> wf File_Oracle (clob_toks ps) /\ only_literals (clob_toks ps)
  /\ balanced 0 (clob_toks ps) = true /\ solid 0 (clob_toks ps) = true.
Proof.
  intros Hne. destruct (chain_toks ps Hne) as [Hw Hb]. split; [|split; [|split]].
  - unfold clob_toks. repeat (apply wf_one; [done|done|done|]). apply wf_app; [done| |done].
    apply wf_one; [done|done|done|constructor].
  - apply Forall_app. split; [repeat constructor|]. apply Forall_app. split; [apply chain_literals|repeat constructor].
  - unfold clob_toks. change (balanced 0 (chars (u "TO_CLOB(") ++ chain ps ++ [Ch ")"%ch])) with (balanced (0 + 1) (chain ps ++ [Ch ")"%ch])).
    by rewrite balanced_shift by by rewrite Hb.
  - unfold clob_toks. change (solid 0 (chars (u "TO_CLOB(") ++ chain ps ++ [Ch ")"%ch])) with (solid 1 (chain ps ++ [Ch ")"%ch])).
    destruct ps as [|p ps]; [done|]. unfold chain. cbn [fmap list_fmap]. rewrite solid_inside; [done|].
    apply (pieces_all (fun ts => solid 0 ts = true) (p :: ps)). intros q. apply piece_ok.
Qed.

Lemma find_char_at c pre rest : forallb (fun x => negb (N.eqb c x)) pre = true -> find_char c (pre ++ c :: rest) = Some (length pre).
Proof.
  intros H. unfold find_char. induction pre as [|x pre IH]; cbn [app str_find starts_with].
  - by rewrite N.eqb_refl, starts_with_nil.
  - cbn [forallb] in H. apply andb_true_iff in H as [Hx H]. apply negb_true_iff in Hx. rewrite Hx. cbn [andb length]. by rewrite IH.
Qed.

Lemma clob_argument ps : to_clob_argument (text_of (clob_toks ps)) = Some (text_of (chain ps)).
Proof.
  rewrite clob_text. unfold to_clob_argument.
  assert (find_char "("%ch (u "TO_CLOB(" ++ text_of (chain ps) ++ u ")") = Some 7) as ->.
  { change (u "TO_CLOB(" ++ text_of (chain ps) ++ u ")") with (u "TO_CLOB" ++ "("%ch :: text_of (chain ps) ++ u ")"). by rewrite find_char_at. }
  cbn [mbind option_bind].
  assert (negb (is_str (trim (take 7 (u "TO_CLOB(" ++ text_of (chain ps) ++ u ")"))) (u "TO_CLOB")) = false) as -> by done.
  rewrite app_assoc. change (u ")") with [")"%ch]. rewrite strip_suffix_snoc. done.
Qed.

Lemma clob_neat ps : neat (text_of (clob_toks ps)).
Proof.
  rewrite clob_text. exists "T"%ch, (u "O_CLOB(" ++ text_of (chain ps)), ")"%ch. split; [|done]. by rewrite <- app_assoc.
Qed.

Lemma second_char c d s p q r : to_ascii_uppercase d <> to_ascii_uppercase q -> is_str (c :: d :: s) (p :: q :: r) = false.
Proof. intros H. unfold is_str, eq_ignore_ascii_case. apply bool_decide_eq_false. cbn. intros [= _ E _]. done. Qed.

Lemma clobs_atom ps parts : Forall (fun ps => ps <> []) (ps :: parts) ->
  atom File_Oracle (text_of (joined bars (clob_toks <$> ps :: parts)))
    (Some (concat ((fun ps => concat (piece_value <$> ps)) <$> ps :: parts))).
Proof.
  intros Hne. assert (HF : forall q : list tok -> Prop, (forall ps, ps <> [] -> q (clob_toks ps)) -> Forall q (clob_toks <$> ps :: parts)).
  { intros q Hq. apply Forall_fmap. eapply Forall_impl; [exact Hne|]. intros x. apply Hq. }
  assert (Hn : neat (text_of (joined bars (clob_toks <$> ps :: parts)))).
  { rewrite text_joined, <- list_fmap_compose. cbn [fmap list_fmap]. apply neat_join.
    constructor; [apply clob_neat|]. apply Forall_fmap, Forall_forall. intros x _. apply clob_neat. }
  destruct (neat_trim _ Hn) as [Ht Hn']. split; [done|]. split; [done|].
  assert (Hw : wf File_Oracle (joined bars (clob_toks <$> ps :: parts))) by (apply wf_joined, HF; intros; by apply clob_ok).
  split.
  { exists (joined bars (clob_toks <$> ps :: parts)). split; [done|]. split; [done|]. split.
    - apply balanced_joined, (HF (fun ts => balanced 0 ts = true)). intros. by apply clob_ok.
    - apply only_literals_joined, HF. intros. by apply clob_ok. }
  assert (Hh : exists s, text_of (joined bars (clob_toks <$> ps :: parts)) = "T"%ch :: "O"%ch :: s).
  { rewrite text_joined. cbn [fmap list_fmap]. destruct (text_of <$> (clob_toks <$> parts)); eexists; done. }
  unfold sql_value_text. rewrite Ht. destruct Hh as [s Hs].
  assert (is_str (text_of (joined bars (clob_toks <$> ps :: parts))) (u "null") = false) as -> by by rewrite Hs; apply is_str_head.
  assert (sql_string_literal_text (text_of (joined bars (clob_toks <$> ps :: parts))) File_Oracle = None) as -> by by rewrite Hs; apply not_string.
  assert (is_sql_numeric_literal (text_of (joined bars (clob_toks <$> ps :: parts))) = false) as -> by by rewrite Hs; apply not_numeric.
  assert (is_str (text_of (joined bars (clob_toks <$> ps :: parts))) (u "true") = false) as -> by by rewrite Hs; apply second_char.
  assert (is_str (text_of (joined bars (clob_toks <$> ps :: parts))) (u "false") = false) as -> by by rewrite Hs; apply is_str_head.
  cbn [orb].
  assert (concatenated_literal_text (text_of (joined bars (clob_toks <$> ps :: parts))) File_Oracle
          = Some (concat ((fun ps => concat (piece_value <$> ps)) <$> ps :: parts))) as ->; [|done].
  unfold concatenated_literal_text, split_concatenation. cbn [file_is_oracle negb].
  rewrite concatenation_toks; [|done|apply only_literals_joined, HF; intros; by apply clob_ok|by left].
  cbn [fmap list_fmap]. rewrite pieces_joined by (apply (HF (fun ts => solid 0 ts = true)); intros; by apply clob_ok).
  rewrite app_nil_l, <- list_fmap_compose.
  apply (read_pieces_all _ (fun ps => text_of (clob_toks ps)) (fun ps => concat (piece_value <$> ps)) (ps :: parts)).
  eapply Forall_impl; [exact Hne|]. intros x Hx. destruct (neat_trim _ (clob_neat x)) as [-> _]. by rewrite clob_argument, read_chain.
Qed.
