(* ===== verification/SqlLiteralSpec.v ===== *)
(** * A value survives its literal

    Conversion calls, defused ampersands and long text; whatever the backend and
    the kind, a value that is written is read back. *)
From S2P Require Import Prelude RustStr Utf8 SessionPolicy GridSort ResultFilter RustParse ResultExport ImportDelimited SqlLiteral SqlImport SqlTokens SqlAtoms.

(** * Conversion calls and long text

    [HEXTORAW], [TO_DATE] and their like are read back as the text they hold, and
    what the writer makes of ampersands and of long text are the chains the reader
    takes apart. *)

(** ** Calls *)

Definition call_names : list str := [u "HEXTORAW"; u "TO_DATE"; u "TO_TIMESTAMP"; u "TO_TIMESTAMP_TZ"].

Definition format_toks (format : option str) : list tok :=
  match format with
  | Some format => [Ch ","%ch; Quoted "'"%ch (encoded false format)]
  | None => []
  end.

Definition call_toks (name content : str) (format : option str) : list tok :=
  chars name ++ Ch "("%ch :: Quoted "'"%ch (encoded false content) :: format_toks format ++ [Ch ")"%ch].

Lemma encoded_no_quote content : ~ "'"%ch ∈ content -> encoded false content = content.
Proof.
  induction content as [|c content IH]; [done|]. intros H. rewrite encoded_cons, IH by set_solver. unfold enc.
  rewrite (proj2 (N.eqb_neq _ _)) by set_solver. by rewrite andb_false_r.
Qed.

(** What the reader asks of a call's name. *)
Definition call_name_check (name : str) : bool :=
  forallb inert name && forallb quiet name && forallb (fun c => negb (N.eqb c "|"%ch) && negb (is_whitespace c)) name
  && existsb (is_str name) [u "to_date"; u "to_timestamp"; u "to_timestamp_tz"; u "hextoraw"; u "to_clob"]
  && negb (is_str name (u "TO_CLOB"))
  && match name with
     | c :: d :: _ => (N.eqb c "H"%ch || N.eqb c "T"%ch) && (N.eqb d "E"%ch || N.eqb d "O"%ch)
     | _ => false
     end.

Lemma call_name_ok name : name ∈ call_names -> call_name_check name = true.
Proof.
  intros H. assert (Hf : forallb call_name_check call_names = true) by by vm_compute.
  rewrite forallb_forall in Hf. by apply Hf, list_elem_of_In.
Qed.

Lemma solid_name s ts n : forallb quiet s = true -> forallb (fun c => negb (N.eqb c "|"%ch) && negb (is_whitespace c)) s = true ->
  solid n (chars s ++ ts) = solid n ts.
Proof.
  induction s as [|c s IH]; [done|]. cbn [forallb]. rewrite !andb_true_iff. intros [Hc Hs] [[Hb _] Hs'].
  cbn [chars fmap list_fmap app solid]. unfold quiet in Hc. change (u "(),;") with ["("%ch; ")"%ch; ","%ch; ";"%ch] in Hc.
  cbn [existsb] in Hc. rewrite negb_true_iff, !orb_false_iff in Hc. destruct Hc as (-> & -> & _).
  apply negb_true_iff in Hb as ->. by apply IH.
Qed.

Section Call.
Variables (name content : str) (format : option str).
Hypothesis Hname : name ∈ call_names.
Hypothesis Hcontent : ~ "'"%ch ∈ content.

Let literal : str := text_of (call_toks name content format).

Lemma format_wf : wf File_Oracle (format_toks format ++ [Ch ")"%ch]) /\ soft (text_of (format_toks format ++ [Ch ")"%ch])).
Proof.
  assert (H1 : wf File_Oracle [Ch ")"%ch]) by (apply wf_one; [done|done|done|constructor]).
  destruct format as [f|]; [|by split]. split; [|done]. apply wf_one; [done|done|done|].
  apply wf_quoted; [exact (quoted_body_ok File_Oracle f)|done|done].
Qed.

Lemma inside_wf : wf File_Oracle (Quoted "'"%ch (encoded false content) :: format_toks format ++ [Ch ")"%ch]).
Proof. destruct format_wf as [Hf Hs]. apply wf_quoted; [exact (quoted_body_ok File_Oracle content)|by apply soft_head|done]. Qed.

Lemma call_wf : wf File_Oracle (call_toks name content format).
Proof.
  pose proof (call_name_ok _ Hname) as Hc. unfold call_name_check in Hc. rewrite !andb_true_iff in Hc.
  apply wf_app; [by apply wf_inert; tauto| |done]. apply wf_one; [done|done|done|]. apply inside_wf.
Qed.

Lemma call_balanced : balanced 0 (call_toks name content format) = true.
Proof.
  pose proof (call_name_ok _ Hname) as Hc. unfold call_name_check in Hc. rewrite !andb_true_iff in Hc.
  unfold call_toks. rewrite (balanced_shift (chars name) _ 0 0) by (by rewrite quiet_balanced by tauto). by destruct format.
Qed.

Lemma call_solid : solid 0 (call_toks name content format) = true.
Proof.
  pose proof (call_name_ok _ Hname) as Hc. unfold call_name_check in Hc. rewrite !andb_true_iff in Hc.
  unfold call_toks. rewrite solid_name by tauto. by destruct format.
Qed.

Lemma call_head : exists c d s, literal = c :: d :: s /\ (c = "H"%ch \/ c = "T"%ch) /\ (d = "E"%ch \/ d = "O"%ch).
Proof.
  pose proof (call_name_ok _ Hname) as Hc. unfold call_name_check in Hc. rewrite !andb_true_iff in Hc. destruct Hc as [_ Hh].
  unfold literal, call_toks. rewrite text_of_app, text_of_chars. destruct name as [|c [|d s]]; try done.
  rewrite andb_true_iff, !orb_true_iff, !N.eqb_eq in Hh. eexists c, d, _. split; [done|tauto].
Qed.

Lemma call_neat : neat literal.
Proof.
  destruct call_head as (c & d & s & Hl & Hc & _). unfold literal, call_toks in *.
  assert (He : exists w, text_of (chars name ++ Ch "("%ch :: Quoted "'"%ch (encoded false content) :: format_toks format ++ [Ch ")"%ch]) = w ++ [")"%ch]).
  { exists (text_of (chars name ++ Ch "("%ch :: Quoted "'"%ch (encoded false content) :: format_toks format)).
    change ([")"%ch]) with (text_of [Ch ")"%ch]). rewrite <- text_of_app. f_equal. by rewrite <- app_assoc. }
  destruct He as [w Hw]. rewrite Hw. rewrite Hw in Hl. destruct w as [|c' w]; [done|]. injection Hl as -> _.
  exists c, w, ")"%ch. split; [done|]. by destruct Hc as [-> | ->].
Qed.

Lemma call_text : literal = name ++ "("%ch :: text_of (Quoted "'"%ch (encoded false content) :: format_toks format ++ [Ch ")"%ch]).
Proof. unfold literal, call_toks. by rewrite text_of_app, text_of_chars. Qed.

Lemma call_open : find_char "("%ch literal = Some (length name).
Proof.
  rewrite call_text. apply find_char_at. pose proof (call_name_ok _ Hname) as Hc. unfold call_name_check in Hc. rewrite !andb_true_iff in Hc.
  destruct Hc as [[[[[_ Hq] _] _] _] _]. revert Hq. apply forallb_impl. intros c. unfold quiet.
  change (u "(),;") with ["("%ch; ")"%ch; ","%ch; ";"%ch]. cbn [existsb]. rewrite !negb_true_iff, !orb_false_iff, N.eqb_sym. tauto.
Qed.

Lemma call_name_trim : trim (take (length name) literal) = name.
Proof.
  rewrite call_text, take_app_length. pose proof (call_name_ok _ Hname) as Hc. unfold call_name_check in Hc. rewrite !andb_true_iff in Hc.
  destruct Hc as [[[[_ Hq] _] _] _]. apply no_space_trim. revert Hq. apply forallb_impl. intros c Hc. by apply andb_true_iff in Hc as [_ Hc].
Qed.

Lemma call_not_clob : to_clob_argument literal = None.
Proof.
  unfold to_clob_argument. rewrite call_open. cbn [mbind option_bind]. rewrite call_name_trim.
  pose proof (call_name_ok _ Hname) as Hc. unfold call_name_check in Hc. rewrite !andb_true_iff in Hc. destruct Hc as [[_ ->] _]. done.
Qed.

Lemma call_not_piece : concatenation_piece_text literal File_Oracle = None.
Proof.
  destruct call_head as (c & d & s & Hl & Hc & _). rewrite Hl. unfold concatenation_piece_text, chr_call_character.
  rewrite not_string by (destruct Hc as [-> | ->]; done).
  change (take 4 (c :: d :: s)) with (c :: take 3 (d :: s)). change (u "CHR(") with ("C"%ch :: u "HR(").
  rewrite is_str_head; [done|]. by destruct Hc as [-> | ->].
Qed.

Lemma call_not_concatenated : concatenated_literal_text literal File_Oracle = None.
Proof.
  unfold concatenated_literal_text, split_concatenation. cbn [file_is_oracle negb]. unfold literal at 1.
  rewrite concatenation_toks; [|apply call_wf| |by left].
  - rewrite <- (app_nil_r (call_toks name content format)). rewrite (pieces_solid _ 0) by apply call_solid.
    rewrite app_nil_l. fold literal. cbn [pieces_of read_pieces]. destruct (neat_trim _ call_neat) as [-> _].
    by rewrite call_not_clob, call_not_piece.
  - apply Forall_app. split; [apply Forall_fmap, Forall_forall; done|]. destruct format; repeat constructor.
Qed.

Lemma call_unwraps : unwrap_conversion_call literal File_Oracle = inl (Some content).
Proof.
  unfold unwrap_conversion_call. rewrite call_open, call_name_trim.
  pose proof (call_name_ok _ Hname) as Hc. unfold call_name_check in Hc. rewrite !andb_true_iff in Hc. destruct Hc as [[[_ ->] _] _].
  cbn [negb]. set (inside := text_of (Quoted "'"%ch (encoded false content) :: format_toks format)).
  assert (Hl : literal = name ++ "("%ch :: inside ++ [")"%ch]).
  { rewrite call_text. rewrite app_comm_cons, text_of_app. done. }
  assert (matching_paren literal (length name) File_Oracle = Some (length name + 1 + length inside)) as ->.
  { unfold matching_paren. rewrite Hl, drop_app_length.
    change ("("%ch :: inside ++ [")"%ch]) with (text_of [Ch "("%ch] ++ inside ++ text_of [Ch ")"%ch]).
    unfold inside. rewrite <- !text_of_app. rewrite matching_toks.
    - assert (Hopen : forall i ts, matching 0 i ([Ch "("%ch] ++ ts) = matching 1 (S i) ts) by done. rewrite Hopen.
      assert (Hin : forall i, matching 1 i ((Quoted "'"%ch (encoded false content) :: format_toks format) ++ [Ch ")"%ch])
        = Some (i + length (text_of (Quoted "'"%ch (encoded false content) :: format_toks format)))).
      { intros i. destruct format as [f|]; cbn -[Nat.add]; f_equal; rewrite ?length_app; cbn; rewrite ?length_app; cbn; lia. }
      rewrite Hin. f_equal. lia.
    - cbn [app]. apply wf_one; [done|done|done|]. apply inside_wf. }
  assert (drop (length name + 1 + length inside + 1) literal = []) as ->.
  { rewrite Hl. apply drop_ge. rewrite length_app. cbn. rewrite length_app. cbn. lia. }
  assert (take (length name + 1 + length inside - (length name + 1)) (drop (length name + 1) literal) = inside) as ->.
  { rewrite Hl. rewrite cons_middle, app_assoc. replace (length name + 1) with (length (name ++ ["("%ch])) by (rewrite length_app; done).
    rewrite drop_app_length. replace (_ - _) with (length inside) by lia. apply take_app_length. }
  cbn [str_is_empty trim]. change (trim []) with (@nil char). cbn [str_is_empty].
  assert (Hw : wf File_Oracle (Quoted "'"%ch (encoded false content) :: format_toks format)).
  { destruct format as [f|]; [|apply wf_quoted; [exact (quoted_body_ok File_Oracle content)|done|constructor]].
    apply wf_quoted; [exact (quoted_body_ok File_Oracle content)|done|]. apply wf_one; [done|done|done|].
    apply wf_quoted; [exact (quoted_body_ok File_Oracle f)|done|constructor]. }
  unfold split_top_level, inside. rewrite top_level_toks by done.
  assert (head (top_level 0 [] (Quoted "'"%ch (encoded false content) :: format_toks format)) = Some (single_quoted (encoded false content))) as ->
    by by destruct format.
  cbn [mbind option_bind]. destruct (neat_trim _ (neat_quoted (encoded false content))) as [-> _]. by rewrite (read_single_quoted File_Oracle).
Qed.

Lemma call_atom : atom File_Oracle literal (Some content).
Proof.
  destruct (neat_trim _ call_neat) as [Ht Hn]. split; [done|]. split; [done|]. split.
  - exists (call_toks name content format). split; [done|]. split; [apply call_wf|]. split; [apply call_balanced|].
    apply Forall_app. split; [apply only_chars|]. by destruct format; repeat constructor.
  - unfold sql_value_text. rewrite Ht, call_not_concatenated, call_unwraps. destruct call_head as (c & d & s & -> & Hc & Hd).
    rewrite not_string by (destruct Hc as [-> | ->]; done). rewrite not_numeric by (destruct Hc as [-> | ->]; done).
    assert (is_str (c :: d :: s) (u "null") = false) as -> by (apply is_str_head; destruct Hc as [-> | ->]; done).
    assert (is_str (c :: d :: s) (u "true") = false) as -> by (apply second_char; destruct Hd as [-> | ->]; done).
    assert (is_str (c :: d :: s) (u "false") = false) as -> by (apply is_str_head; destruct Hc as [-> | ->]; done). done.
Qed.
End Call.

(** ** Ampersands *)

Lemma split_on_cons sep s : exists p ps, split_on sep s = p :: ps.
Proof. destruct s as [|c s]; cbn; [eauto|]. destruct (N.eqb c sep); [eauto|]. destruct (split_on sep s); eauto. Qed.

Lemma split_on_join sep s : join [sep] (split_on sep s) = s.
Proof.
  induction s as [|c s IH]; [done|]. cbn [split_on]. destruct (split_on_cons sep s) as (p & ps & E). rewrite E in *.
  destruct (N.eqb_spec c sep) as [->|Hc].
  - change (join [sep] ([] :: p :: ps)) with (sep :: join [sep] (p :: ps)). by rewrite IH.
  - rewrite <- IH. by destruct ps.
Qed.

Lemma encoded_split v : split_on "&"%ch (encoded false v) = encoded false <$> split_on "&"%ch v.
Proof.
  induction v as [|c v IH]; [done|]. rewrite encoded_cons. cbn [split_on].
  destruct (N.eqb_spec c "&"%ch) as [->|Hc].
  - change (enc false "&"%ch) with ["&"%ch]. cbn [app split_on fmap list_fmap]. rewrite N.eqb_refl. by rewrite IH.
  - assert (Hpass : forall w l, forallb (fun x => negb (N.eqb x "&"%ch)) w = true ->
      split_on "&"%ch (w ++ l) = match split_on "&"%ch l with p :: ps => (w ++ p) :: ps | [] => [w] end).
    { intros w l. induction w as [|x w IHw]; [intros _; cbn [app]; by destruct (split_on_cons "&"%ch l) as (p & ps & ->)|].
      cbn [forallb app split_on]. rewrite andb_true_iff, negb_true_iff. intros [-> Hw]. rewrite IHw by done.
      by destruct (split_on_cons "&"%ch l) as (p & ps & ->). }
    rewrite Hpass, IH.
    + destruct (split_on_cons "&"%ch v) as (p & ps & ->). done.
    + unfold enc. rewrite andb_false_r. destruct (N.eqb c "'"%ch); [done|]. cbn. by rewrite (proj2 (N.eqb_neq _ _) Hc).
Qed.

Fixpoint ampersand_pieces (index : nat) (pieces : list str) : list piece :=
  match pieces with
  | [] => []
  | piece :: pieces =>
      (if 0 <? index then [None] else []) ++ (if negb (str_is_empty piece) then [Some piece] else []) ++ ampersand_pieces (S index) pieces
  end.

Lemma encoded_empty v : str_is_empty (encoded false v) = str_is_empty v.
Proof. destruct v as [|c v]; [done|]. rewrite encoded_cons. unfold enc. rewrite andb_false_r. by destruct (N.eqb c "'"%ch). Qed.

Lemma defused_pieces index pieces :
  defused_parts index (encoded false <$> pieces) = (fun p => text_of (piece_toks p)) <$> ampersand_pieces index pieces.
Proof.
  revert index. induction pieces as [|p pieces IH]; intros index; [done|]. cbn [fmap list_fmap defused_parts ampersand_pieces].
  fold (@fmap list _). rewrite !fmap_app, IH, encoded_empty. f_equal; [by destruct (0 <? index)|]. f_equal.
  destruct (str_is_empty p); [done|]. cbn [negb fmap list_fmap]. by rewrite piece_text_some.
Qed.

Lemma ampersand_value index p pieces :
  concat (piece_value <$> ampersand_pieces index (p :: pieces)) = (if 0 <? index then u "&" else []) ++ join (u "&") (p :: pieces).
Proof.
  revert index p. induction pieces as [|p' pieces IH]; intros index p.
  - cbn [ampersand_pieces join]. rewrite !fmap_app, !concat_app. f_equal; [by destruct (0 <? index)|]. destruct p; [done|].
    cbn. by rewrite !app_nil_r.
  - change (join (u "&") (p :: p' :: pieces)) with (p ++ u "&" ++ join (u "&") (p' :: pieces)).
    change (ampersand_pieces index (p :: p' :: pieces)) with ((if 0 <? index then [None] else [])
      ++ (if negb (str_is_empty p) then [Some p] else []) ++ ampersand_pieces (S index) (p' :: pieces)).
    rewrite !fmap_app, !concat_app, IH. f_equal; [by destruct (0 <? index)|]. destruct p; [done|]. cbn. by rewrite !app_nil_r.
Qed.

Lemma encoded_contains v : "&"%ch ∈ encoded false v <-> "&"%ch ∈ v.
Proof.
  induction v as [|c v IH]; [done|]. rewrite encoded_cons, elem_of_app, elem_of_cons, IH.
  assert ("&"%ch ∈ enc false c <-> "&"%ch = c) as ->; [|done]. unfold enc. rewrite andb_false_r.
  destruct (N.eqb_spec c "'"%ch) as [->|]; set_solver by done.
Qed.

(** What is written of a quoted value for Oracle. *)
Lemma defuse_chain d v : dialect_is_mysql d = false ->
  exists ps, ps <> [] /\ defuse_substitution d (single_quoted (encoded false v)) = text_of (chain ps) /\ concat (piece_value <$> ps) = v.
Proof.
  intros Hd. unfold defuse_substitution. rewrite Hd. cbn [orb]. destruct (str_contains _ (u "&")) eqn:Hc; cbn [negb].
  - rewrite strip_single_quoted, encoded_split. destruct (split_on_cons "&"%ch v) as (p & ps & Hs).
    exists (ampersand_pieces 0 (p :: ps)). rewrite Hs, defused_pieces, ampersand_value. cbn [app]. rewrite <- Hs.
    change (u "&") with ["&"%ch]. rewrite split_on_join. split; [|split; [|done]].
    + intros He. pose proof (ampersand_value 0 p ps) as Hv. rewrite <- Hs, He in Hv. change (u "&") with ["&"%ch] in Hv.
      rewrite split_on_join in Hv. cbn in Hv. subst v. done.
    + unfold chain. rewrite text_joined, Hs. by rewrite <- list_fmap_compose.
  - exists [Some v]. split; [done|]. split; [|cbn; by rewrite app_nil_r].
    unfold chain. cbn [fmap list_fmap joined]. by rewrite piece_text_some.
Qed.

Lemma defuse_other d c s : c <> "'"%ch -> defuse_substitution d (c :: s) = c :: s.
Proof.
  intros Hc. unfold defuse_substitution. destruct (_ || _); [done|]. unfold strip_prefix. change (u "'") with ["'"%ch].
  cbn [starts_with]. by rewrite (proj2 (N.eqb_neq _ _)) by congruence.
Qed.

(** A value that is quoted and defused is one value of the list. *)
Lemma quoted_defused_atom d file value literal : dialect_ok d -> reads file d -> quoted_string value d = inl literal ->
  atom file (defuse_substitution d literal) (Some value).
Proof.
  intros Hd Hr H. pose proof (quoted_string_spec d file value literal Hd Hr H) as ->. destruct (dialect_is_mysql d) eqn:Hm.
  - unfold defuse_substitution. rewrite Hm. cbn [orb]. apply quoted_atom.
  - unfold reads in Hr. rewrite Hm in Hr. subst file. destruct (defuse_chain d value Hm) as (ps & Hne & Ht & Hv).
    cbn [backslash_escapes]. rewrite Ht, <- Hv. by apply chain_atom.
Qed.

(** * A value survives its literal

    Whatever the backend, the session's rule and the kind of the column, a value
    that is written is read back, no character of it leaves its literal, and the
    values that cannot be written are refused. *)

(** ** Long text *)

Lemma push_part_chain d piece parts parts' : dialect_is_mysql d = false -> dialect_ok d -> push_part d piece parts = inl parts' ->
  exists ps, ps <> [] /\ parts' = parts ++ [text_of (chain ps)] /\ concat (piece_value <$> ps) = piece.
Proof.
  intros Hm Hd. unfold push_part. destruct (quoted_string piece d) as [l|] eqn:Hq; [|done]. intros [= <-].
  apply (quoted_string_spec d File_Oracle) in Hq; [|done|unfold reads; by rewrite Hm]. subst l.
  cbn [backslash_escapes]. destruct (defuse_chain d piece Hm) as (ps & Hne & -> & Hv). by exists ps.
Qed.

(** The parts are chains, of the text that went into them. *)
Lemma clob_parts_chains d chars piece bytes parts parts' : dialect_is_mysql d = false -> dialect_ok d ->
  clob_parts d chars piece bytes parts = inl parts' ->
  exists chains, parts' = parts ++ ((fun ps => text_of (chain ps)) <$> chains) /\ Forall (fun ps => ps <> []) chains
    /\ concat ((fun ps => concat (piece_value <$> ps)) <$> chains) = piece ++ chars.
Proof.
  intros Hm Hd. revert piece bytes parts. induction chars as [|ch chars IH]; intros piece bytes parts; cbn [clob_parts].
  - rewrite app_nil_r. destruct piece as [|c piece].
    + intros [= <-]. exists []. by rewrite app_nil_r.
    + cbn [str_is_empty negb]. intros H. destruct (push_part_chain d _ _ _ Hm Hd H) as (ps & Hne & -> & Hv).
      exists [ps]. split; [done|]. split; [by constructor|]. cbn. by rewrite app_nil_r.
  - destruct (_ && _).
    + destruct (push_part d piece parts) as [parts1|] eqn:Hp; [|done]. intros H.
      destruct (push_part_chain d _ _ _ Hm Hd Hp) as (ps & Hne & -> & Hv). destruct (IH _ _ _ H) as (chains & -> & Hall & Hc).
      exists (ps :: chains). split; [by rewrite <- app_assoc|]. split; [by constructor|]. cbn. by rewrite Hv, Hc.
    + intros H. destruct (IH _ _ _ H) as (chains & -> & Hall & Hc). exists chains. split; [done|]. split; [done|].
      rewrite Hc. unfold vec_push. by rewrite <- app_assoc.
Qed.

Lemma clob_chains d value parts : dialect_is_mysql d = false -> dialect_ok d -> clob_parts d value [] 0 [] = inl parts ->
  exists chains, parts = (fun ps => text_of (chain ps)) <$> chains /\ Forall (fun ps => ps <> []) chains
    /\ concat ((fun ps => concat (piece_value <$> ps)) <$> chains) = value.
Proof. intros Hm Hd H. exact (clob_parts_chains d value [] 0 [] parts Hm Hd H). Qed.

(** The concatenation of a long text, as tokens. *)
Lemma clob_join chains : join (u "||") ((fun part => u "TO_CLOB(" ++ part ++ u ")") <$> ((fun ps => text_of (chain ps)) <$> chains))
  = text_of (joined bars (clob_toks <$> chains)).
Proof. rewrite text_joined, <- !list_fmap_compose. f_equal. apply list_fmap_ext. intros _ x _. cbn. by rewrite clob_text. Qed.

Lemma defuse_clobs d ps chains : defuse_substitution d (text_of (joined bars (clob_toks <$> ps :: chains))) = text_of (joined bars (clob_toks <$> ps :: chains)).
Proof.
  assert (Hh : exists s, text_of (joined bars (clob_toks <$> ps :: chains)) = "T"%ch :: s).
  { rewrite text_joined. cbn [fmap list_fmap]. destruct (text_of <$> (clob_toks <$> chains)); eexists; done. }
  destruct Hh as [s ->]. by apply defuse_other.
Qed.

Lemma text_literal_atom d file value literal : dialect_ok d -> reads file d -> oracle_text_literal value d = inl literal ->
  atom file (defuse_substitution d literal) (Some value).
Proof.
  intros Hd Hr. unfold oracle_text_literal. destruct (dialect_is_mysql d) eqn:Hm; [by apply quoted_defused_atom|].
  destruct (quoted_string value d) as [single|] eqn:Hq; [intros [= <-]; by apply (quoted_defused_atom d)|].
  destruct (clob_parts d value [] 0 []) as [parts|] eqn:Hp; [|done]. intros Hl.
  assert (literal = join (u "||") ((fun part => u "TO_CLOB(" ++ part ++ u ")") <$> parts)) as -> by congruence. clear Hl.
  destruct (clob_chains d _ _ Hm Hd Hp) as (chains & -> & Hall & Hc).
  destruct chains as [|ps chains].
  { cbn in Hc. subst value. unfold quoted_string, doubles_a_backslash in Hq. rewrite (Hd Hm) in Hq. cbn in Hq. by rewrite andb_false_r in Hq. }
  unfold reads in Hr. rewrite Hm in Hr. subst file. rewrite <- Hc.
  rewrite clob_join, defuse_clobs. by apply clobs_atom.
Qed.

(** ** Dates and bytes *)

Lemma split_once_text p s a b : split_once p s = Some (a, b) -> exists c, s = a ++ c :: b /\ p c = true.
Proof.
  revert a b. induction s as [|c s IH]; intros a b; cbn; [done|]. destruct (p c) eqn:Hc; [intros [= <- <-]; by exists c|].
  rewrite fmap_Some. intros ([a' b'] & H & [= -> ->]). destruct (IH _ _ H) as (x & -> & Hx). by exists x.
Qed.

(** A fact of the pieces and of the separator. *)
Lemma split_on_forall p sep s : forallb (forallb p) (split_on sep s) = true -> p sep = true -> forallb p s = true.
Proof.
  intros H Hs. rewrite <- (split_on_join sep s). induction (split_on sep s) as [|x [|y l] IH]; [done|cbn in *; by rewrite andb_true_r in H|].
  change (join [sep] (x :: y :: l)) with (x ++ [sep] ++ join [sep] (y :: l)). cbn [forallb] in H. apply andb_true_iff in H as [Hx H].
  rewrite forallb_app, Hx. cbn. rewrite Hs. by apply IH.
Qed.

Definition no_quote (c : char) : bool := negb (N.eqb c "'"%ch).

Lemma no_quote_In s : forallb no_quote s = true -> ~ "'"%ch ∈ s.
Proof. rewrite forallb_forall. intros H Hin. apply list_elem_of_In, H in Hin. done. Qed.

Lemma digits_no_quote s : is_all_digits s = true -> forallb no_quote s = true.
Proof. unfold is_all_digits. rewrite andb_true_iff. intros [_ H]. revert H. apply forallb_impl. intros c. by apply (digit_forall no_quote). Qed.

Lemma date_no_quote s : is_iso_date s = true -> forallb no_quote s = true.
Proof.
  unfold is_iso_date. intros H. apply (split_on_forall no_quote "-"%ch); [|done]. destruct (split_on _ s) as [|y [|m [|dd [|]]]]; try done.
  rewrite !andb_true_iff in H. destruct H as [[[_ Hy] Hm] Hd]. cbn. by rewrite !digits_no_quote.
Qed.

Lemma clock_no_quote s : is_clock_time s = true -> forallb no_quote s = true.
Proof.
  unfold is_clock_time. intros H. apply (split_on_forall no_quote ":"%ch); [|done]. destruct (split_on _ s) as [|y [|m [|dd [|]]]]; try done.
  rewrite !andb_true_iff in H. destruct H as [[[_ Hy] Hm] Hd]. cbn. by rewrite !digits_no_quote.
Qed.

Lemma ink_trim_end s : ink (trim_end s) = ink s.
Proof. unfold trim_end. by rewrite ink_reverse, ink_trim_start, ink_reverse, reverse_involutive. Qed.

Lemma no_quote_ink s : forallb no_quote (ink s) = forallb no_quote s.
Proof.
  induction s as [|c s IH]; [done|]. cbn [ink List.filter]. destruct (is_whitespace c) eqn:Hc; cbn [negb forallb]; fold (ink s); rewrite IH; [|done].
  unfold no_quote. destruct (N.eqb_spec c "'"%ch) as [->|]; [by vm_compute in Hc|done].
Qed.

Lemma rfind_char_spec p s n : rfind_char p s = Some n -> exists c rest, drop n s = c :: rest /\ p c = true.
Proof.
  revert n. induction s as [|c s IH]; intros n; cbn; [done|]. destruct (rfind_char p s) as [i|].
  - intros [= <-]. cbn. by apply IH.
  - destruct (p c) eqn:Hc; [|done]. intros [= <-]. by exists c, s.
Qed.

Lemma zone_spec text datetime zone : split_timezone_suffix text = (datetime, zone) ->
  match zone with
  | None => datetime = text
  | Some zone => ink datetime ++ ink zone = ink text /\ forallb no_quote zone = true
  end.
Proof.
  unfold split_timezone_suffix. destruct (rfind_char is_sign text) as [n|] eqn:Hn; [|intros [= <- <-]; done].
  destruct (_ || _); [intros [= <- <-]; done|]. destruct (split_once _ _) as [[hours minutes]|] eqn:Hs; [|intros [= <- <-]; done].
  destruct (_ && _ && _ && _) eqn:Hd; [|intros [= <- <-]; done]. intros [= <- <-].
  rewrite ink_trim_end, <- ink_app, take_drop. split; [done|]. destruct (rfind_char_spec _ _ _ Hn) as (c & rest & Hr & Hc).
  rewrite Hr in *. change (drop 1 (c :: rest)) with (drop 0 rest) in Hs. rewrite drop_0 in Hs.
  apply split_once_text in Hs as (x & -> & Hx). apply N.eqb_eq in Hx as <-. rewrite !andb_true_iff in Hd. destruct Hd as [[_ Hh] Hm].
  cbn. rewrite forallb_app, digits_no_quote by done. cbn. rewrite digits_no_quote by done. rewrite andb_true_r.
  unfold is_sign in Hc. apply orb_true_iff in Hc as [Hc|Hc]; by apply N.eqb_eq in Hc as ->.
Qed.

(** The text is that of a call around something that has the value's ink. *)
Definition is_call (value literal : str) : Prop :=
  exists name content format, name ∈ call_names /\ ~ "'"%ch ∈ content /\ ink content = ink value
  /\ literal = text_of (call_toks name content format).

Lemma call_written name content format before after : ~ "'"%ch ∈ content ->
  before = name ++ u "('" -> after = "'"%ch :: text_of (format_toks format ++ [Ch ")"%ch]) ->
  before ++ content ++ after = text_of (call_toks name content format).
Proof.
  intros Hc -> ->. unfold call_toks. rewrite (text_of_app (chars name)), text_of_chars, <- app_assoc. f_equal.
  rewrite !text_of_cons. cbn [tok_text app]. rewrite encoded_no_quote by done. cbn. by rewrite <- app_assoc.
Qed.

Lemma spliced_call name content format value literal before after :
  spliced before content after = inl literal -> name ∈ call_names -> forallb no_quote content = true -> ink content = ink value ->
  before = name ++ u "('" -> after = "'"%ch :: text_of (format_toks format ++ [Ch ")"%ch]) -> is_call value literal.
Proof.
  unfold spliced, spliced_literal_content. destruct (_ <? _); [done|]. intros [= <-] Hn Hq Hi Hb Ha.
  apply no_quote_In in Hq. exists name, content, format. split; [done|]. split; [done|]. split; [done|]. by apply call_written.
Qed.

Lemma hex_no_quote s : is_plain_hex_literal s = true -> forallb no_quote s = true.
Proof.
  unfold is_plain_hex_literal. rewrite !andb_true_iff. intros [_ H]. revert H. apply forallb_impl. intros c. unfold is_ascii_hexdigit, no_quote.
  destruct (N.eqb_spec c "'"%ch) as [->|]; [by vm_compute|done].
Qed.

Lemma binary_literal_call d value literal : oracle_binary_literal value d = inl literal ->
  quoted_string value d = inl literal \/ is_call value literal.
Proof.
  unfold oracle_binary_literal. destruct (is_plain_hex_literal (trim value)) eqn:Hh; [|by left]. intros H. right.
  apply (spliced_call (u "HEXTORAW") (trim value) None value) in H; [done| |by apply hex_no_quote|apply ink_trim|done|done].
  unfold call_names. set_solver.
Qed.

Lemma temporal_literal_call d value literal : oracle_temporal_literal value d = inl literal ->
  quoted_string value d = inl literal \/ is_call value literal.
Proof.
  unfold oracle_temporal_literal. destruct (split_timezone_suffix (trim value)) as [datetime zone] eqn:Hz. apply zone_spec in Hz.
  assert (Hdate : forall date_part time_part, match split_once (N.eqb " "%ch) datetime with Some (date, time) => (date, Some time) | None => (datetime, None) end
            = (date_part, time_part) -> datetime = match time_part with Some time => date_part ++ " "%ch :: time | None => date_part end).
  { intros d1 t1. destruct (split_once _ datetime) as [[a b]|] eqn:Hs; intros [= <- <-]; [|done].
    apply split_once_text in Hs as (c & -> & Hc). by apply N.eqb_eq in Hc as <-. }
  destruct (match split_once (N.eqb " "%ch) datetime with Some (date, time) => (date, Some time) | None => (datetime, None) end)
    as [date_part time_part] eqn:Hs. specialize (Hdate _ _ eq_refl).
  destruct (is_iso_date date_part) eqn:Hd; cbn [negb]; [|by left]. apply date_no_quote in Hd.
  assert (Hcall : forall name, name ∈ [u "TO_DATE"; u "TO_TIMESTAMP"; u "TO_TIMESTAMP_TZ"] -> name ∈ call_names) by (unfold call_names; set_solver).
  destruct time_part as [time_part|].
  - assert (Hclock : forall clock fraction, match split_once (N.eqb "."%ch) time_part with Some (clock, fraction) => (clock, Some fraction) | None => (time_part, None) end
              = (clock, fraction) -> time_part = match fraction with Some f => clock ++ "."%ch :: f | None => clock end).
    { intros c1 f1. destruct (split_once _ time_part) as [[a b]|] eqn:Ht; intros [= <- <-]; [|done].
      apply split_once_text in Ht as (c & -> & Hc). by apply N.eqb_eq in Hc as <-. }
    destruct (match split_once (N.eqb "."%ch) time_part with Some (clock, fraction) => (clock, Some fraction) | None => (time_part, None) end)
      as [clock fraction] eqn:Ht. specialize (Hclock _ _ eq_refl).
    destruct (is_clock_time clock) eqn:Hc; cbn [negb]; [|by left]. apply clock_no_quote in Hc.
    assert (Hq : match fraction with Some f => is_all_digits f = true | None => True end -> forallb no_quote datetime = true).
    { intros Hf. subst datetime time_part. rewrite forallb_app, Hd. destruct fraction as [f|]; cbn; [|done]. rewrite forallb_app, Hc. cbn. by apply digits_no_quote. }
    assert (Hzone : forall z, ink datetime ++ ink z = ink (trim value) /\ forallb no_quote z = true -> forallb no_quote datetime = true ->
              forallb no_quote (datetime ++ u " " ++ z) = true /\ ink (datetime ++ u " " ++ z) = ink value).
    { intros z [Hi Hzq] Hdq. rewrite !forallb_app, Hdq, Hzq, !ink_app. split; [done|]. change (ink (u " ")) with (@nil char). by rewrite app_nil_l, Hi, ink_trim. }
    destruct fraction as [fraction|], zone as [zone|].
    + destruct (is_all_digits fraction); [|by left]. intros H. right. destruct (Hzone zone Hz (Hq eq_refl)) as [Hzq Hi].
      apply (spliced_call (u "TO_TIMESTAMP_TZ") _ (Some (u "YYYY-MM-DD HH24:MI:SS.FF TZH:TZM")) value) in H; [done|apply Hcall; set_solver|done..].
    + destruct (is_all_digits fraction); [|by left]. intros H. right. rewrite <- Hz in *.
      apply (spliced_call (u "TO_TIMESTAMP") _ (Some (u "YYYY-MM-DD HH24:MI:SS.FF")) value) in H; [done|apply Hcall; set_solver|by apply Hq|by rewrite Hz, ink_trim|done|done].
    + intros H. right. destruct (Hzone zone Hz (Hq I)) as [Hzq Hi].
      apply (spliced_call (u "TO_TIMESTAMP_TZ") _ (Some (u "YYYY-MM-DD HH24:MI:SS TZH:TZM")) value) in H; [done|apply Hcall; set_solver|done..].
    + intros H. right. rewrite <- Hz in *.
      apply (spliced_call (u "TO_DATE") _ (Some (u "YYYY-MM-DD HH24:MI:SS")) value) in H; [done|apply Hcall; set_solver|by apply Hq|by rewrite Hz, ink_trim|done|done].
  - intros H. right.
    assert (Ht : forallb no_quote (trim value) = true).
    { destruct zone as [zone|]; [|by rewrite <- Hz, Hdate]. destruct Hz as [Hi Hzq].
      rewrite <- no_quote_ink, <- Hi, forallb_app, !no_quote_ink, Hdate, Hd. done. }
    apply (spliced_call (u "TO_DATE") (trim value) (Some (u "YYYY-MM-DD")) value) in H; [done|apply Hcall; set_solver|done|apply ink_trim|done|done].
Qed.

(** ** Every value *)

Lemma defuse_call d value literal : is_call value literal -> defuse_substitution d literal = literal.
Proof.
  intros (name & content & format & Hn & _ & _ & ->). destruct (call_head name content format Hn) as (c & e & s & Hl & Hc & _).
  rewrite Hl. apply defuse_other. by destruct Hc as [-> | ->].
Qed.

Lemma call_is_atom value literal : is_call value literal -> exists back, atom File_Oracle literal (Some back) /\ ink back = ink value.
Proof. intros (name & content & format & Hn & Hq & Hi & ->). exists content. split; [by apply call_atom|done]. Qed.

Lemma reads_oracle d file : reads file d -> dialect_is_mysql d = false -> file = File_Oracle.
Proof. unfold reads. intros H Hm. by rewrite Hm in H. Qed.

(** A value that is written is one value of a list, and is read back. *)
Lemma literal_atom d file kind value literal : dialect_ok d -> reads file d -> sql_literal_for_value d kind value = inl literal ->
  exists back, atom file literal (Some back) /\ ink back = ink value /\ (kind = Kind_String \/ kind = Kind_Unknown -> back = value).
Proof.
  intros Hd Hr. unfold sql_literal_for_value.
  assert (Hquoted : forall l, quoted_string value d = inl l -> exists back,
    atom file (defuse_substitution d l) (Some back) /\ ink back = ink value /\ (kind = Kind_String \/ kind = Kind_Unknown -> back = value)).
  { intros l Hl. exists value. split; [by apply quoted_defused_atom|done]. }
  assert (Hnumber : kind <> Kind_String -> kind <> Kind_Unknown -> forall l, numeric_literal_or_quoted value kind d = inl l -> exists back,
    atom file (defuse_substitution d l) (Some back) /\ ink back = ink value /\ (kind = Kind_String \/ kind = Kind_Unknown -> back = value)).
  { intros Hk1 Hk2 l. unfold numeric_literal_or_quoted. destruct (_ || _) eqn:Hp; [|apply Hquoted]. intros [= <-].
    assert (Ha : atom file (trim value) (Some (trim value))).
    { apply orb_true_iff in Hp as [Hp|Hp]; [by apply numeral_atom|]. apply andb_true_iff in Hp as [_ Hp]. apply orb_true_iff in Hp. by apply boolean_atom. }
    exists (trim value). split; [|split; [apply ink_trim|tauto]].
    assert (defuse_substitution d (trim value) = trim value) as ->; [|done]. destruct (trim value) as [|c s] eqn:Ht; [by destruct Ha|].
    apply defuse_other. intros ->. apply orb_true_iff in Hp as [Hp|Hp].
    - destruct (numeric_parts _ Hp) as (sg & i & f & e & He & Hsg & Hm & _). destruct (numeral_head sg i f e Hsg Hm) as (c & t & Hh & Hc).
      rewrite <- He in Hh. injection Hh as <- _. by destruct Hc as [Hc|[Hc|Hc]].
    - apply andb_true_iff in Hp as [_ Hp]. apply orb_true_iff in Hp as [Hp|Hp]; unfold eq_ignore_ascii_case in Hp; apply bool_decide_eq_true in Hp; by cbn in Hp. }
  assert (Hcall : forall l, dialect_is_mysql d = false -> kind <> Kind_String -> kind <> Kind_Unknown -> (quoted_string value d = inl l \/ is_call value l) ->
    exists back, atom file (defuse_substitution d l) (Some back) /\ ink back = ink value /\ (kind = Kind_String \/ kind = Kind_Unknown -> back = value)).
  { intros l Hm Hk1 Hk2 [H|H]; [by apply Hquoted|]. rewrite (defuse_call d value l H), (reads_oracle d file Hr Hm).
    destruct (call_is_atom value l H) as (back & Ha & Hi). exists back. tauto. }
  destruct kind.
  - destruct (quoted_string value d) as [l|] eqn:Hq; [|done]. intros [= <-]. by apply Hquoted.
  - destruct (oracle_text_literal value d) as [l|] eqn:Ho; [|done]. intros [= <-]. exists value. split; [by apply text_literal_atom|done].
  - destruct (numeric_literal_or_quoted value Kind_Number d) as [l|] eqn:Hq; [|done]. intros [= <-]. by apply Hnumber.
  - destruct (numeric_literal_or_quoted value Kind_Boolean d) as [l|] eqn:Hq; [|done]. intros [= <-]. by apply Hnumber.
  - destruct (dialect_is_mysql d) eqn:Hm.
    + destruct (quoted_string value d) as [l|] eqn:Hq; [|done]. intros [= <-]. by apply Hquoted.
    + destruct (oracle_temporal_literal value d) as [l|] eqn:Ho; [|done]. intros [= <-]. by apply Hcall, temporal_literal_call.
  - destruct (dialect_is_mysql d) eqn:Hm.
    + destruct (quoted_string value d) as [l|] eqn:Hq; [|done]. intros [= <-]. by apply Hquoted.
    + destruct (oracle_binary_literal value d) as [l|] eqn:Ho; [|done]. intros [= <-]. by apply Hcall, binary_literal_call.
Qed.

(** ** Sizes *)

(** Every quoted part fits into one Oracle literal. *)
Definition parts_fit (ts : list tok) : Prop :=
  Forall (fun t => match t with Quoted _ body => utf8_len body <= ORACLE_MAX_LITERAL_BYTES | Ch _ => True end) ts.

Lemma parts_fit_joined ps : Forall parts_fit ps -> parts_fit (joined bars ps).
Proof.
  induction 1 as [|p ps Hp Hps IH]; [constructor|]. destruct ps as [|p' ps]; [done|].
  change (joined bars (p :: p' :: ps)) with (p ++ bars ++ joined bars (p' :: ps)). apply Forall_app. split; [done|].
  apply Forall_app. split; [repeat constructor|done].
Qed.

Lemma chain_fits ps : utf8_len (encoded false (concat (piece_value <$> ps))) <= ORACLE_MAX_LITERAL_BYTES -> parts_fit (chain ps).
Proof.
  intros H. apply parts_fit_joined. revert H. induction ps as [|p ps IH]; [constructor|].
  cbn [fmap list_fmap concat]. rewrite encoded_app, utf8_len_app. intros H. constructor; [|apply IH; lia].
  destruct p as [v|]; [|repeat constructor]. constructor; [|constructor]. cbn [piece_value] in H. lia.
Qed.

Lemma fitting_quoted d value : dialect_is_mysql d = false -> dialect_ok d ->
  quoted_string value d = if ORACLE_MAX_LITERAL_BYTES <? utf8_len (encoded false value)
    then inr (TooLongForOneLiteral (utf8_len (encoded false value))) else inl (single_quoted (encoded false value)).
Proof.
  intros Hm Hd. unfold quoted_string, doubles_a_backslash. rewrite (Hd Hm), Hm. cbn [rule_doubles_a_backslash negb andb].
  rewrite double_quotes_encoded. done.
Qed.

Lemma cost_encoded ch : literal_cost ch = utf8_len (enc false ch).
Proof.
  unfold literal_cost, enc. rewrite andb_false_r. destruct (N.eqb_spec ch "'"%ch) as [->|]; [done|]. cbn. lia.
Qed.

Lemma cost_small ch : literal_cost ch <= 8.
Proof. unfold literal_cost, len_utf8. repeat case_match; lia. Qed.

Lemma clob_parts_total d chars piece parts : dialect_is_mysql d = false -> dialect_ok d ->
  utf8_len (encoded false piece) <= ORACLE_MAX_LITERAL_BYTES ->
  exists chains, clob_parts d chars piece (utf8_len (encoded false piece)) parts = inl (parts ++ ((fun ps => text_of (chain ps)) <$> chains))
    /\ Forall (fun ps => ps <> []) chains /\ Forall (fun ps => parts_fit (chain ps)) chains
    /\ concat ((fun ps => concat (piece_value <$> ps)) <$> chains) = piece ++ chars.
Proof.
  intros Hm Hd. revert piece parts.
  assert (Hpush : forall piece parts, utf8_len (encoded false piece) <= ORACLE_MAX_LITERAL_BYTES -> exists ps, ps <> []
    /\ push_part d piece parts = inl (parts ++ [text_of (chain ps)]) /\ parts_fit (chain ps) /\ concat (piece_value <$> ps) = piece).
  { intros piece parts H. unfold push_part. rewrite fitting_quoted by done. rewrite (proj2 (Nat.ltb_ge _ _) H).
    destruct (defuse_chain d piece Hm) as (ps & Hne & -> & Hv). exists ps. split; [done|]. split; [done|]. split; [|done].
    apply chain_fits. by rewrite Hv. }
  induction chars as [|ch chars IH]; intros piece parts H; cbn [clob_parts].
  - rewrite app_nil_r. destruct piece as [|c piece].
    + exists []. cbn. by rewrite app_nil_r.
    + cbn [str_is_empty negb]. destruct (Hpush _ parts H) as (ps & Hne & -> & Hf & Hv). exists [ps]. split; [done|].
      split; [by constructor|]. split; [by constructor|]. cbn. by rewrite app_nil_r.
  - rewrite cost_encoded. assert (He : encoded false [ch] = enc false ch) by (cbn; by rewrite app_nil_r).
    destruct (negb (str_is_empty piece) && (ORACLE_MAX_LITERAL_BYTES <? utf8_len (encoded false piece) + utf8_len (enc false ch))) eqn:Hc.
    + destruct (Hpush _ parts H) as (ps & Hne & -> & Hf & Hv). rewrite <- He.
      destruct (IH [ch] (parts ++ [text_of (chain ps)])) as (chains & -> & H1 & H2 & H3).
      { rewrite He, <- cost_encoded. pose proof (cost_small ch). unfold ORACLE_MAX_LITERAL_BYTES. lia. }
      exists (ps :: chains). split; [by rewrite <- app_assoc|]. split; [by constructor|]. split; [by constructor|]. cbn. by rewrite Hv, H3.
    + assert (utf8_len (encoded false piece) + utf8_len (enc false ch) = utf8_len (encoded false (vec_push ch piece))) as ->.
      { unfold vec_push. by rewrite encoded_app, utf8_len_app, He. }
      destruct (IH (vec_push ch piece) parts) as (chains & -> & H1 & H2 & H3).
      { unfold vec_push. rewrite encoded_app, utf8_len_app, He. apply andb_false_iff in Hc as [Hc|Hc].
        - destruct piece; [|done]. rewrite <- cost_encoded. pose proof (cost_small ch). unfold ORACLE_MAX_LITERAL_BYTES. cbn. lia.
        - by apply Nat.ltb_ge in Hc. }
      exists chains. split; [done|]. split; [done|]. split; [done|]. rewrite H3. unfold vec_push. by rewrite <- app_assoc.
Qed.

Lemma fits_quoted d value : dialect_is_mysql d = false -> utf8_len (encoded false value) <= ORACLE_MAX_LITERAL_BYTES ->
  exists ts, defuse_substitution d (single_quoted (encoded false value)) = text_of ts /\ wf File_Oracle ts /\ parts_fit ts.
Proof.
  intros Hm H. destruct (defuse_chain d value Hm) as (ps & Hne & Hd & Hv). exists (chain ps). split; [done|].
  split; [by apply chain_toks|]. apply chain_fits. by rewrite Hv.
Qed.

Lemma fits_clobs ps chains : Forall (fun ps => ps <> []) (ps :: chains) -> Forall (fun ps => parts_fit (chain ps)) (ps :: chains) ->
  wf File_Oracle (joined bars (clob_toks <$> ps :: chains)) /\ parts_fit (joined bars (clob_toks <$> ps :: chains)).
Proof.
  intros Hne Hf. split.
  - apply wf_joined. change (clob_toks ps :: _) with (clob_toks <$> ps :: chains). apply Forall_fmap.
    apply (Forall_impl _ _ _ Hne). intros x Hx. by apply clob_ok.
  - apply parts_fit_joined, Forall_fmap. apply (Forall_impl _ _ _ Hf). intros x Hx. unfold clob_toks. cbn.
    apply Forall_app. split; [repeat constructor|]. apply Forall_app. split; [done|repeat constructor].
Qed.

(** C28. Text is never refused for Oracle: however long it is and whatever it
    holds, it is written, and no literal of what is written is longer than the
    4000 bytes Oracle accepts in one, quotes doubled. *)
Theorem long_text_is_written d value : dialect_is_mysql d = false -> dialect_ok d ->
  exists ts, sql_literal_for_value d Kind_String value = inl (text_of ts) /\ wf File_Oracle ts /\ parts_fit ts.
Proof.
  intros Hm Hd. unfold sql_literal_for_value, oracle_text_literal. cbv zeta. rewrite Hm, fitting_quoted by done.
  destruct (Nat.ltb_spec ORACLE_MAX_LITERAL_BYTES (utf8_len (encoded false value))) as [Hlong|Hfit].
  - destruct (clob_parts_total d value [] [] Hm Hd) as (chains & Hp & Hne & Hf & Hv); [apply Nat.le_0_l|].
    change (utf8_len (encoded false [])) with 0 in Hp. rewrite Hp, app_nil_l. destruct chains as [|ps chains]; [cbn in Hv; subst value; destruct (Nat.nlt_0_r _ Hlong)|].
    destruct (fits_clobs ps chains Hne Hf) as [Hw Hfits]. exists (joined bars (clob_toks <$> ps :: chains)). split; [|done].
    rewrite clob_join. f_equal. apply defuse_clobs.
  - destruct (fits_quoted d value Hm Hfit) as (ts & -> & H). by exists ts.
Qed.

Lemma long_text_is_written_witness :
  let d := family_default DatabaseType_Oracle in
  let value := replicate 9000 "'"%ch in
  exists ts, sql_literal_for_value d Kind_String value = inl (text_of ts) /\ wf File_Oracle ts /\ parts_fit ts.
Proof. apply long_text_is_written; [reflexivity|by intros _]. Defined.

(** A time with a zone comes back with a space the grid did not show. *)
Example zone_comes_back_apart :
  sql_literal_for_value (family_default DatabaseType_Oracle) Kind_Temporal (u "2024-01-02 03:04:05-05:30")
    = inl (u "TO_TIMESTAMP_TZ('2024-01-02 03:04:05 -05:30','YYYY-MM-DD HH24:MI:SS TZH:TZM')")
  /\ sql_value_text (u "TO_TIMESTAMP_TZ('2024-01-02 03:04:05 -05:30','YYYY-MM-DD HH24:MI:SS TZH:TZM')") File_Oracle
    = inl (Some (u "2024-01-02 03:04:05 -05:30")).
Proof. vm_compute. done. Qed.
