(* ===== verification/SqlFile.v ===== *)
(** * Statements of a generated file

    Rows of literals, names and whole INSERT statements as the file reader sees
    them. *)
From S2P Require Import Prelude RustStr SessionPolicy GridSort ResultFilter RustParse EditStatements ResultExport ImportDelimited MarkdownLaws SqlLiteral SqlImport GridSqlExport SqlTokens SqlAtoms SqlLiteralSpec.

(** * Rows of literals, and names, as tokens

    What the writer puts between parentheses is a list of tokens joined by commas;
    the reader's loops pass it and split it where the writer joined it. *)

(** ** Lists between commas *)

Definition comma : list tok := chars (u ", ").

Lemma joined_cons sep p p' ps : joined sep (p :: p' :: ps) = p ++ sep ++ joined sep (p' :: ps).
Proof. done. Qed.

Lemma comma_cons p p' ps : joined comma (p :: p' :: ps) = p ++ Ch ","%ch :: Ch " "%ch :: joined comma (p' :: ps).
Proof. done. Qed.

(** A text that lies between two commas. *)
Record listed (d : SqlFileDialect) (ts : list tok) : Prop := {
  listed_wf : wf d ts;
  listed_balanced : balanced 0 ts = true;
  listed_trim : trim (text_of ts) = text_of ts;
  listed_ne : text_of ts <> []
}.

Lemma split_joined part p ps : Forall (fun p => balanced 0 p = true) (p :: ps) ->
  top_level 0 part (joined comma (p :: ps)) = (part ++ text_of p) :: ((fun p => " "%ch :: text_of p) <$> ps).
Proof.
  revert p part. induction ps as [|p' ps IH]; intros p part H; apply Forall_cons in H as [Hp Hps].
  - cbn [joined]. rewrite <- (app_nil_r p) at 1. by rewrite (top_level_balanced p 0).
  - rewrite comma_cons, (top_level_balanced p 0) by done. cbn [fmap list_fmap].
    change (top_level 0 ?part (Ch ","%ch :: Ch " "%ch :: ?ts)) with (part :: top_level 0 (u " ") ts). by rewrite IH.
Qed.

Lemma wf_commas d p ps : Forall (wf d) (p :: ps) -> wf d (joined comma (p :: ps)).
Proof.
  revert p. induction ps as [|p' ps IH]; intros p H; apply Forall_cons in H as [Hp Hps]; [done|].
  rewrite comma_cons. apply wf_app; [done| |done]. repeat (apply wf_one; [done|done|done|]). by apply IH.
Qed.

Lemma trim_space s : trim (" "%ch :: s) = trim s.
Proof. done. Qed.

(** What was joined is split again. *)
Lemma split_listed d tss : tss <> [] -> Forall (listed d) tss ->
  trim <$> split_top_level (text_of (joined comma tss)) d = text_of <$> tss.
Proof.
  destruct tss as [|ts tss]; [done|]. intros _ H. unfold split_top_level.
  rewrite top_level_toks by (apply wf_commas, (Forall_impl _ _ _ H); intros ? []; done).
  rewrite split_joined by (apply (Forall_impl _ _ _ H); intros ? []; done).
  apply Forall_cons in H as [Ht Hts]. cbn [fmap list_fmap app]. rewrite (listed_trim _ _ Ht). f_equal.
  rewrite <- list_fmap_compose. induction Hts as [|t' tss Ht' _ IH]; [done|]. cbn [fmap list_fmap compose]. f_equal; [|done].
  rewrite trim_space. by apply (listed_trim d).
Qed.

(** ** Parentheses around them *)

Definition paren (tss : list (list tok)) : list tok := Ch "("%ch :: joined comma tss ++ [Ch ")"%ch].

Lemma matching_joined p ps index rest : Forall (fun p => balanced 0 p = true) (p :: ps) ->
  matching 1 index (joined comma (p :: ps) ++ rest) = matching 1 (index + length (text_of (joined comma (p :: ps)))) rest.
Proof.
  revert p index. induction ps as [|p' ps IH]; intros p index H; apply Forall_cons in H as [Hp Hps].
  - cbn [joined]. by rewrite (matching_balanced p 0 1).
  - rewrite comma_cons, text_of_app, <- app_assoc. rewrite (matching_balanced p 0 1) by done. cbn [app].
    change (matching 1 ?i (Ch ","%ch :: Ch " "%ch :: ?ts)) with (matching 1 (S (S i)) ts).
    rewrite IH by done. apply (f_equal (fun i => matching 1 i rest)). rewrite length_app, !text_of_cons. cbn [tok_text app length]. lia.
Qed.

Lemma matching_paren_group tss index rest : tss <> [] -> Forall (fun p => balanced 0 p = true) tss ->
  matching 0 index (paren tss ++ rest) = Some (index + 1 + length (text_of (joined comma tss))).
Proof.
  destruct tss as [|p ps]; [done|]. intros _ H. unfold paren. cbn [app]. rewrite <- app_assoc.
  change (matching 0 ?i (Ch "("%ch :: ?ts)) with (matching 1 (S i) ts). rewrite matching_joined by done. cbn. f_equal. lia.
Qed.

Lemma balanced_group tss n : tss <> [] -> Forall (fun p => balanced 0 p = true) tss -> balanced n (paren tss) = (n =? 0).
Proof.
  destruct tss as [|p ps]; [done|]. intros _ H. unfold paren. change (balanced n (Ch "("%ch :: ?ts)) with (balanced (S n) ts).
  revert p H. induction ps as [|p' ps IH]; intros p H; apply Forall_cons in H as [Hp Hps].
  - cbn [joined]. rewrite (balanced_shift p _ 0 (S n) Hp). done.
  - rewrite comma_cons, <- app_assoc, (balanced_shift p _ 0 (S n) Hp). cbn [app balanced]. exact (IH p' Hps).
Qed.

Lemma wf_group d tss : tss <> [] -> Forall (wf d) tss -> wf d (paren tss).
Proof.
  destruct tss as [|p ps]; [done|]. intros _ H. unfold paren. apply wf_one; [done|done|done|]. apply wf_app; [by apply wf_commas| |done].
  apply wf_one; [done|done|done|constructor].
Qed.

(** The group, and what is behind it, as text. *)
Lemma group_text tss rest : text_of (paren tss) ++ rest = "("%ch :: text_of (joined comma tss) ++ ")"%ch :: rest.
Proof. unfold paren. rewrite text_of_cons, text_of_app, <- app_assoc, <- app_assoc. done. Qed.

(** ** Rows of values *)

(** A cell as its own literal reads it. *)
Definition same_cell (kind : SqlValueKind) (cell : option str) (back : ImportCell) : Prop :=
  match cell, back with
  | None, None => True
  | Some value, Some back => ink back = ink value /\ (kind = Kind_String \/ kind = Kind_Unknown -> back = value)
  | _, _ => False
  end.

Lemma null_atom file : atom file (u "NULL") None.
Proof.
  split; [done|]. split; [done|]. split; [|done]. exists (chars (u "NULL")). split; [done|]. split; [by apply wf_inert|]. split; [done|apply only_chars].
Qed.

Lemma cell_atom d file kind cell literal : dialect_ok d -> reads file d -> sql_literal_for_cell d kind cell = inl literal ->
  exists back, atom file literal back /\ same_cell kind cell back.
Proof.
  intros Hd Hr. destruct cell as [value|]; cbn [sql_literal_for_cell].
  - intros H. destruct (literal_atom d file kind value literal Hd Hr H) as (back & Ha & Hs). by exists (Some back).
  - intros [= <-]. exists None. split; [apply null_atom|done].
Qed.

(** A row's literals as tokens, and what is read back. *)
Lemma row_atoms d file row literals : dialect_ok d -> reads file d ->
  Forall2 (fun cell literal => sql_literal_for_cell d (fst cell) (snd cell) = inl literal) row literals ->
  exists tss backs, literals = text_of <$> tss /\ Forall (listed file) tss /\ Forall only_literals tss
    /\ collect (fun value => sql_value_text value file) literals = inl backs
    /\ Forall2 (fun cell back => same_cell (fst cell) (snd cell) back) row backs.
Proof.
  intros Hd Hr H. induction H as [|[kind cell] literal row literals Hc _ (tss & backs & -> & Hl & Ho & Hb & Hs)].
  - by exists [], [].
  - destruct (cell_atom d file kind cell literal Hd Hr Hc) as (back & (Hne & Ht & (ts & -> & Hw & Hbal & Hlit) & Hv) & Hsame).
    exists (ts :: tss), (back :: backs). split; [done|]. split; [by constructor; [constructor|]|]. split; [by constructor|]. split; [|by constructor].
    cbn [collect fmap list_fmap]. by rewrite Hv, Hb.
Qed.

Lemma join_literals tss : join (u ", ") (text_of <$> tss) = text_of (joined comma tss).
Proof. by rewrite text_joined. Qed.

(** ** Names *)

Definition doubled (q : char) (s : str) : str := str_replace [q] [q; q] s.

Lemma doubled_cons q c s : doubled q (c :: s) = (if N.eqb c q then [q; q] else [c]) ++ doubled q s.
Proof. apply replace_char_cons. Qed.

Lemma doubled_back q s : str_replace [q; q] [q] (doubled q s) = s.
Proof.
  unfold doubled, str_replace in *. induction s as [|c s IH]; [done|].
  pose proof (replace_char_cons q [q; q] c s) as E. unfold str_replace in E. rewrite E. clear E.
  destruct (N.eqb_spec c q) as [->|Hc]; cbn [app replace_from starts_with length Nat.sub].
  - rewrite N.eqb_refl, starts_with_nil. cbn. by f_equal.
  - apply N.eqb_neq in Hc. rewrite (N.eqb_sym q c), Hc. cbn. by f_equal.
Qed.

Lemma doubled_len q s rest : head rest <> Some q -> identifier_len q (doubled q s ++ q :: rest) = length (doubled q s) + 1.
Proof.
  intros Hr. induction s as [|c s IH].
  - cbn. rewrite N.eqb_refl. destruct rest as [|c rest]; [done|]. destruct (N.eqb_spec c q) as [->|]; [done|]. done.
  - rewrite doubled_cons. destruct (N.eqb_spec c q) as [->|Hc]; cbn [app identifier_len length].
    + rewrite !N.eqb_refl, IH. lia.
    + apply N.eqb_neq in Hc. rewrite Hc, IH. lia.
Qed.

Definition name_quote (q : char) : Prop := q = QUOTE \/ q = "`"%ch.

Lemma doubled_ok d q s : name_quote q -> body_ok d q (doubled q s).
Proof. intros Hq. split; [by destruct Hq as [-> | ->]|]. intros rest Hr. unfold quoted_len. rewrite doubled_len by done. by destruct Hq as [-> | ->]. Qed.

Definition enclosed (q : char) (s : str) : str := [q] ++ doubled q s ++ [q].

Lemma trim_enclosed q s : name_quote q -> trim (enclosed q s) = enclosed q s.
Proof. intros Hq. apply (trim_between q _ q); by destruct Hq as [-> | ->]. Qed.

(** A part of a name: between quotes, or of characters without meaning. *)
Definition spelled (q : char) (text : str) : Prop :=
  (text <> [] /\ forallb inert text = true /\ trim text = text) \/ exists s, text = enclosed q s.

(** What a name is as tokens: no parenthesis, and no other quote. *)
Definition name_tok (q : char) (t : tok) : Prop := match t with Ch c => c <> "("%ch | Quoted q' _ => q' = q end.

Lemma inert_name_toks q s : forallb inert s = true -> Forall (name_tok q) (chars s).
Proof.
  induction s as [|c s IH]; [constructor|]. cbn [forallb]. rewrite andb_true_iff. intros [Hc Hs]. constructor; [|by apply IH].
  intros ->. by vm_compute in Hc.
Qed.

Lemma spelled_toks d q text : name_quote q -> spelled q text -> exists ts, text = text_of ts /\ listed d ts /\ Forall (name_tok q) ts.
Proof.
  intros Hq [(Hne & Hi & Ht)|[s ->]].
  - exists (chars text). rewrite text_of_chars. split; [done|]. split; [|by apply inert_name_toks].
    split; rewrite ?text_of_chars; [by apply wf_inert|by rewrite inert_balanced|done..].
  - exists [Quoted q (doubled q s)]. assert (E : enclosed q s = text_of [Quoted q (doubled q s)]) by (cbn; by rewrite app_nil_r).
    split; [done|]. split; [|by repeat constructor].
    split; rewrite <- ?E; [by apply wf_quoted; [apply doubled_ok|..|constructor]|done|by apply trim_enclosed|done].
Qed.

(** Names joined by dots. *)
Lemma dotted_toks d q texts : name_quote q -> texts <> [] -> Forall (spelled q) texts ->
  exists ts, join (u ".") texts = text_of ts /\ wf d ts /\ balanced 0 ts = true /\ Forall (name_tok q) ts.
Proof.
  intros Hq Hne H. induction H as [|text texts Ht Hts IH]; [done|]. destruct (spelled_toks d q text Hq Ht) as (ts & -> & Hl & Hn).
  destruct texts as [|text' texts].
  - exists ts. destruct Hl. done.
  - destruct IH as (ts' & E & Hw & Hb & Hn'); [done|]. exists (ts ++ Ch "."%ch :: ts').
    change (join (u ".") (text_of ts :: text' :: texts)) with (text_of ts ++ u "." ++ join (u ".") (text' :: texts)).
    rewrite E, text_of_app. split; [done|]. split.
    + apply wf_app; [apply Hl|by apply wf_one|done].
    + split; [by apply balanced_app; [apply Hl|]|]. apply Forall_app. split; [done|]. by constructor.
Qed.

Lemma mysql_spelled n : spelled "`"%ch (quote_mysql_identifier n).
Proof. right. by exists n. Qed.

Lemma name_char_inert c : is_name_char c = true -> inert c = true /\ is_whitespace c = false.
Proof.
  unfold is_name_char, is_ascii_alphanumeric, is_ascii_alphabetic, is_ascii_uppercase, is_ascii_lowercase, is_ascii_digit, in_range.
  intros H. assert (Hc : (c < 128)%N).
  { repeat (apply orb_true_iff in H as [H|H]); rewrite ?andb_true_iff, ?N.leb_le, ?N.eqb_eq in H; try lia; subst c; vm_compute; done. }
  assert (Hall : forallb (fun c => implb (is_name_char c) (inert c && negb (is_whitespace c))) (N.of_nat <$> seq 0 128) = true) by by vm_compute.
  rewrite forallb_forall in Hall.
  assert (Hin : List.In c (N.of_nat <$> seq 0 128)).
  { apply list_elem_of_In, list_elem_of_fmap. exists (N.to_nat c). split; [lia|]. apply elem_of_seq. lia. }
  specialize (Hall c Hin).
  unfold implb, is_name_char, is_ascii_alphanumeric, is_ascii_alphabetic, is_ascii_uppercase, is_ascii_lowercase, is_ascii_digit, in_range in Hall.
  rewrite H in Hall. apply andb_true_iff in Hall as [? Hw]. by apply negb_true_iff in Hw.
Qed.

Lemma name_spelled q first rest : is_name_start first = true -> forallb is_name_char rest = true -> spelled q (first :: rest).
Proof.
  intros Hf Hr. assert (Hall : forallb is_name_char (first :: rest) = true).
  { cbn. rewrite Hr, andb_true_r. unfold is_name_start in Hf. unfold is_name_char, is_ascii_alphanumeric.
    rewrite !orb_true_iff in *. tauto. }
  left. split; [done|]. split.
  - revert Hall. apply forallb_impl. intros c Hc. by apply name_char_inert.
  - apply trim_plain, Forall_forall. intros c Hc. rewrite forallb_forall in Hall. by apply name_char_inert, Hall, list_elem_of_In.
Qed.

(** * A file of generated INSERT statements

    The names and the statements of the writer, as the reader of files sees
    them. *)

(** ** Names *)

(** The quote of a backend's names. *)
Definition quote_of (d : SqlWriteDialect) : char := if dialect_is_mysql d then "`"%ch else QUOTE.

Lemma quote_of_ok d : name_quote (quote_of d).
Proof. unfold quote_of. destruct (dialect_is_mysql d); [by right|by left]. Qed.

Lemma oracle_identifier_spelled name : quoted_identifier_delimiter (trim name) = None ->
  (exists x, trim name = x /\ quote_oracle_identifier name = enclosed QUOTE x)
  \/ (quote_oracle_identifier name = trim name /\ spelled QUOTE (trim name) /\ head (trim name) <> Some QUOTE /\ head (trim name) <> Some "`"%ch).
Proof.
  intros Hq. unfold quote_oracle_identifier. destruct (trim name) as [|c t] eqn:Ht.
  - left. by exists [].
  - cbn [str_is_empty]. unfold is_quoted_identifier. rewrite Hq. cbn [is_some_and].
    destruct (oracle_identifier_needs_quotes (c :: t)) eqn:Hn; [left; by exists (c :: t)|]. right. split; [done|].
    unfold oracle_identifier_needs_quotes in Hn. destruct (is_name_start c) eqn:Hc; [|done]. cbn [negb] in Hn.
    destruct (existsb _ _); [done|]. destruct (forallb is_name_char t) eqn:Hr; [|done]. split; [by apply name_spelled|].
    split; intros [= ->]; by vm_compute in Hc.
Qed.

Lemma utf8_len_pos c s : 1 <= utf8_len (c :: s).
Proof. unfold utf8_len. cbn. unfold len_utf8. repeat case_match; lia. Qed.

Lemma unquoted_enclosed q x : name_quote q -> unquote_identifier (enclosed q x) = x.
Proof.
  intros Hq. pose proof (trim_enclosed q x Hq) as Ht.
  assert (Hl : (2 <=? utf8_len (enclosed q x)) = true).
  { apply Nat.leb_le. unfold enclosed. rewrite !utf8_len_app. pose proof (utf8_len_pos q []). lia. }
  assert (Hs : forall p, starts_with (enclosed q x) [p] = N.eqb p q) by (intros p; cbn; by rewrite starts_with_nil, andb_true_r).
  assert (He : ends_with (enclosed q x) [q] = true).
  { unfold ends_with, enclosed. rewrite app_assoc, reverse_snoc. change (reverse [q]) with [q]. cbn. by rewrite N.eqb_refl, starts_with_nil. }
  assert (Hi : take (length (enclosed q x) - 2) (drop 1 (enclosed q x)) = doubled q x).
  { change (drop 1 (enclosed q x)) with (doubled q x ++ [q]). replace (length (enclosed q x) - 2) with (length (doubled q x));
      [by rewrite take_app_length|]. unfold enclosed. rewrite !length_app. cbn. lia. }
  unfold unquote_identifier. rewrite Ht, Hl, !Hs. destruct Hq as [-> | ->].
  - rewrite N.eqb_refl, He. cbn [andb]. rewrite Hi. apply doubled_back.
  - change (N.eqb QUOTE "`"%ch) with false. rewrite N.eqb_refl, He. cbn [andb]. rewrite Hi. cbn [default]. apply doubled_back.
Qed.

Lemma unquoted_plain x : trim x = x -> head x <> Some QUOTE -> head x <> Some "`"%ch -> unquote_identifier x = x.
Proof.
  intros Ht H1 H2. unfold unquote_identifier. rewrite Ht.
  assert (Hs : forall p, head x <> Some p -> starts_with x [p] = false).
  { intros p Hp. destruct x as [|c x]; [done|]. cbn. destruct (N.eqb_spec p c) as [->|]; [done|done]. }
  rewrite !Hs by done. by rewrite !andb_false_r.
Qed.

(** A column is spelled for its backend, and read back by its name. *)
Lemma column_name_read d name : (dialect_is_mysql d = false -> quoted_identifier_delimiter (trim name) = None) ->
  spelled (quote_of d) (quote_column_name (db_type d) name) /\ unquote_identifier (quote_column_name (db_type d) name) = trim name.
Proof.
  intros H. unfold quote_column_name, quote_reported_name, quote_of. change (is_mysql_or_mariadb (db_type d)) with (dialect_is_mysql d).
  destruct (dialect_is_mysql d).
  - split; [apply mysql_spelled|]. change (quote_mysql_identifier (trim name)) with (enclosed "`"%ch (trim name)).
    apply unquoted_enclosed. by right.
  - destruct (oracle_identifier_spelled name (H eq_refl)) as [(x & <- & ->)|(-> & Hs & H1 & H2)].
    + split; [right; by exists (trim name)|]. apply unquoted_enclosed. by left.
    + split; [done|]. apply unquoted_plain; [apply trim_idemp|done|done].
Qed.

Lemma segment_spelled text : spelled QUOTE (quote_identifier_segment text).
Proof.
  unfold quote_identifier_segment. destruct (str_is_empty _); [right; by exists []|]. destruct (is_quoted_identifier _); [right; by eexists|].
  destruct (is_unquoted_identifier (trim text)) eqn:Hu; [|right; by eexists]. destruct (trim text) as [|first rest]; [done|].
  cbn in Hu. destruct (is_name_start first) eqn:Hf; [|done]. by apply name_spelled.
Qed.

Lemma segments_spelled {A} (f : A -> str) q l : (forall x, spelled q (f x)) -> Forall (spelled q) (f <$> l).
Proof. intros H. apply Forall_fmap, Forall_forall. intros x _. apply H. Qed.

(** How the table's name is spelled, and with what it begins for MySQL. *)
Lemma table_name_toks s file : exists ts, table_name_of s = text_of ts /\ wf file ts /\ balanced 0 ts = true
  /\ Forall (name_tok (quote_of (dialect s))) ts
  /\ (dialect_is_mysql (dialect s) = true -> (exists rest, table_name_of s = "`"%ch :: rest) \/ forallb inert (table_name_of s) = true).
Proof.
  pose proof (quote_of_ok (dialect s)) as Hq.
  assert (Hu : exists ts, UNKNOWN_TABLE_NAME = text_of ts /\ wf file ts /\ balanced 0 ts = true /\ Forall (name_tok (quote_of (dialect s))) ts
    /\ (dialect_is_mysql (dialect s) = true -> (exists rest, UNKNOWN_TABLE_NAME = "`"%ch :: rest) \/ forallb inert UNKNOWN_TABLE_NAME = true)).
  { exists (chars UNKNOWN_TABLE_NAME). rewrite text_of_chars. split; [done|]. split; [by apply wf_inert|]. split; [done|].
    split; [by apply inert_name_toks|by right]. }
  unfold table_name_of. destruct (trim <$> table s) as [table|]; [|done]. destruct (negb (str_is_empty table)); [|done]. clear Hu.
  unfold quote_qualified_name. change (is_mysql_or_mariadb (db_type (dialect s))) with (dialect_is_mysql (dialect s)).
  destruct (dialect_is_mysql (dialect s)) eqn:Hm; unfold quote_of in *; rewrite Hm in *.
  - unfold quote_mysql_qualified_name. destruct (mysql_qualified_name_segments table) as [|segment segments].
    { exists []. split; [done|]. split; [constructor|]. split; [done|]. split; [constructor|by right]. }
    destruct (dotted_toks file "`"%ch (quote_mysql_identifier <$> segment :: segments) Hq) as (ts & E & Hw & Hb & Hn); [done|by apply segments_spelled, mysql_spelled|].
    exists ts. split; [done|]. split; [done|]. split; [done|]. split; [done|]. intros _. left.
    cbn [fmap list_fmap]. destruct (quote_mysql_identifier <$> segments); by eexists.
  - unfold quote_qualified_identifier. destruct (split_qualified_identifier table) as [|segment segments].
    + destruct (spelled_toks file QUOTE _ Hq (segment_spelled table)) as (ts & -> & Hl & Hn). exists ts. destruct Hl. done.
    + destruct (dotted_toks file QUOTE (quote_identifier_segment <$> segment :: segments) Hq) as (ts & E & Hw & Hb & Hn);
        [done|by apply segments_spelled, segment_spelled|]. by exists ts.
Qed.

(** The columns as tokens. *)
Lemma columns_toks d file (names : list str) :
  (dialect_is_mysql d = false -> Forall (fun name => quoted_identifier_delimiter (trim name) = None) names) ->
  exists tss, (quote_column_name (db_type d) <$> names) = text_of <$> tss /\ Forall (listed file) tss
    /\ Forall (Forall (name_tok (quote_of d))) tss
    /\ unquote_identifier <$> (text_of <$> tss) = trim <$> names.
Proof.
  intros H. induction names as [|name names IH]; [by exists []|].
  destruct IH as (tss & Hs & Hl & Hn & Hu). { intros Hm. specialize (H Hm). by apply Forall_cons in H as [_ H]. }
  destruct (column_name_read d name) as [Hsp Hun]. { intros Hm. specialize (H Hm). by apply Forall_cons in H as [H _]. }
  destruct (spelled_toks file (quote_of d) _ (quote_of_ok d) Hsp) as (ts & E & Hts & Hname).
  exists (ts :: tss). cbn [fmap list_fmap] in *. rewrite E, Hs. split; [done|]. split; [by constructor|]. split; [by constructor|].
  rewrite <- E, Hun. by f_equal.
Qed.

(** ** One statement *)

Lemma words_space w a c b : is_whitespace c = true -> words_from w (a ++ c :: b) = words_from w a ++ words_from [] b.
Proof.
  intros Hc. revert w. induction a as [|x a IH]; intros w; cbn [app words_from].
  - by rewrite Hc.
  - destruct (is_whitespace x); [by rewrite IH, app_assoc|apply IH].
Qed.

Lemma insert_words t rest : split_whitespace (u "INSERT INTO " ++ t ++ " "%ch :: rest) = u "INSERT" :: u "INTO" :: split_whitespace t ++ split_whitespace rest.
Proof.
  unfold split_whitespace.
  change (u "INSERT INTO " ++ t ++ " "%ch :: rest) with (u "INSERT" ++ " "%ch :: u "INTO" ++ " "%ch :: t ++ " "%ch :: rest).
  by rewrite !words_space.
Qed.

Lemma last_cons_cons {A} (x y : A) l : last (x :: y :: l) = last (y :: l).
Proof. done. Qed.

Lemma not_values_before t : is_values (last_word t) = false -> is_values (last_word (u "INSERT INTO " ++ t ++ [" "%ch])) = false.
Proof.
  intros H. unfold last_word in *. rewrite (insert_words t []). change (split_whitespace []) with (@nil str). rewrite app_nil_r.
  destruct (split_whitespace t) as [|w ws]; [done|]. exact H.
Qed.

Lemma blank_before p s : ink p = [] -> trim (p ++ s) = trim s.
Proof.
  rewrite ink_nil. intros H. unfold trim. f_equal. induction H as [|c p Hc _ IH]; [done|]. cbn. by rewrite Hc.
Qed.

Lemma open_paren_past ts index rest : Forall (fun t => t <> Ch "("%ch) ts -> open_paren index (ts ++ rest) = open_paren (index + length (text_of ts)) rest.
Proof.
  intros H. revert index. induction H as [|[c|q body] ts Ht _ IH]; intros index.
  - by rewrite Nat.add_0_r.
  - cbn [app open_paren]. destruct (N.eqb_spec c "("%ch) as [->|]; [done|]. rewrite IH. apply (f_equal (fun i => open_paren i rest)). rewrite text_of_cons. cbn [tok_text app length]. lia.
  - cbn [app open_paren]. rewrite IH. apply (f_equal (fun i => open_paren i rest)). rewrite text_of_cons. cbn [tok_text app length].
    rewrite !length_app. cbn [length]. lia.
Qed.

(** The parts of a text around a pair of parentheses. *)
Lemma around (b j r : str) : let text := b ++ "("%ch :: j ++ ")"%ch :: r in let n := length b in
  take n text = b /\ drop n text = "("%ch :: j ++ ")"%ch :: r /\ text_range text (n + 1) (n + 1 + length j) = j
  /\ drop (n + 1 + length j + 1) text = r.
Proof.
  cbn zeta. split; [by rewrite take_app_length|]. split; [by rewrite drop_app_length|].
  assert (H : drop (length b + 1) (b ++ "("%ch :: j ++ ")"%ch :: r) = j ++ ")"%ch :: r) by by rewrite <- drop_drop, drop_app_length.
  split.
  - unfold text_range. rewrite H. replace (length b + 1 + length j - (length b + 1)) with (length j) by lia. by rewrite take_app_length.
  - rewrite <- (drop_drop _ 1 (length b + 1 + length j)), <- (drop_drop _ (length j) (length b + 1)), H, drop_app_length. done.
Qed.

Section Statement.
Context (file : SqlFileDialect) (table : list tok) (cols : list (list tok)) (q : char).
Context (table_wf : wf file table) (table_balanced : balanced 0 table = true) (table_names : Forall (name_tok q) table).
Context (table_read : is_values (last_word (text_of table)) = false).
Context (cols_ne : cols <> []) (cols_listed : Forall (listed file) cols).

Definition before_columns : list tok := chars (u "INSERT INTO ") ++ table ++ [Ch " "%ch].
Definition behind_columns (tss : list (list tok)) : list tok := chars (u " VALUES ") ++ paren tss.
Definition insert_toks (tss : list (list tok)) : list tok := before_columns ++ paren cols ++ behind_columns tss.

Lemma listed_all tss : Forall (listed file) tss -> Forall (wf file) tss /\ Forall (fun ts => balanced 0 ts = true) tss.
Proof. intros H. split; apply (Forall_impl _ _ _ H); by intros ? []. Qed.

Lemma wf_chars s ts : forallb inert s = true -> wf file ts -> wf file (chars s ++ ts).
Proof.
  intros H Hw. induction s as [|c s IH]; [done|]. cbn [forallb] in H. apply andb_true_iff in H as [Hc Hs].
  apply inert_facts in Hc as (Hq & Hsl & Hm). cbn. apply wf_one; [done|done|done|by apply IH].
Qed.

Lemma insert_wf tss rest : tss <> [] -> Forall (listed file) tss -> wf file rest -> soft (text_of rest) ->
  wf file (insert_toks tss ++ rest).
Proof.
  intros Hne Hl Hr Hh. destruct (listed_all cols cols_listed) as [Hcw _]. destruct (listed_all tss Hl) as [Htw _].
  unfold insert_toks, before_columns, behind_columns. rewrite <- !app_assoc. apply wf_chars; [done|].
  apply wf_app; [done| |done]. apply wf_one; [done|done|done|]. apply wf_app; [by apply wf_group| |done].
  apply wf_chars; [done|]. apply wf_app; [by apply wf_group|done|done].
Qed.

Lemma insert_balanced tss : tss <> [] -> Forall (listed file) tss -> balanced 0 (insert_toks tss) = true.
Proof.
  intros Hne Hl. destruct (listed_all cols cols_listed) as [_ Hcb]. destruct (listed_all tss Hl) as [_ Htb].
  unfold insert_toks, before_columns, behind_columns. rewrite <- !app_assoc.
  apply balanced_app; [done|]. apply balanced_app; [done|]. apply (balanced_app [Ch " "%ch]); [done|].
  apply balanced_app; [by rewrite balanced_group|]. apply balanced_app; [done|]. by rewrite balanced_group.
Qed.

(** The statement, up to where its parentheses open. *)
Lemma insert_text tss : text_of (insert_toks tss)
  = text_of before_columns ++ "("%ch :: text_of (joined comma cols) ++ ")"%ch :: u " VALUES " ++ "("%ch :: text_of (joined comma tss) ++ [")"%ch].
Proof.
  unfold insert_toks, behind_columns. rewrite !text_of_app, group_text. do 4 f_equal. rewrite <- (app_nil_r (text_of (paren tss))), group_text.
  by rewrite text_of_chars.
Qed.

Lemma insert_trim p tss : ink p = [] -> trim (p ++ text_of (insert_toks tss)) = text_of (insert_toks tss) /\ text_of (insert_toks tss) <> [].
Proof.
  intros Hp. rewrite blank_before by done. apply neat_trim. rewrite insert_text. unfold before_columns. rewrite text_of_app.
  exists "I"%ch, (u "NSERT INTO " ++ text_of (table ++ [Ch " "%ch]) ++ "("%ch :: text_of (joined comma cols) ++ ")"%ch :: u " VALUES " ++ "("%ch :: text_of (joined comma tss)), ")"%ch.
  split; [|done]. rewrite text_of_chars. repeat (rewrite <- ?app_assoc; cbn [app]). done.
Qed.

Lemma joined_ink tss : tss <> [] -> Forall (listed file) tss -> str_is_empty (trim (text_of (joined comma tss))) = false.
Proof.
  destruct tss as [|ts tss]; [done|]. intros _ H. apply Forall_cons in H as [[_ _ Ht Hne] _].
  assert (Hi : ink (text_of ts) <> []) by by rewrite <- trim_nil, Ht.
  assert (Hj : trim (text_of (joined comma (ts :: tss))) <> []).
  { rewrite trim_nil. destruct tss as [|ts' tss]; [done|]. rewrite comma_cons, text_of_app, ink_app. by destruct (ink (text_of ts)). }
  by destruct (trim (text_of (joined comma (ts :: tss)))).
Qed.

(** The group of values, behind the word. *)
Lemma read_group tss : tss <> [] -> Forall (listed file) tss ->
  read_value_groups (text_of (behind_columns tss)) 7 file = inl ([text_of <$> tss], length (text_of (behind_columns tss))).
Proof.
  intros Hne Hl. destruct (listed_all tss Hl) as [Hw Hb].
  assert (Ht : text_of (behind_columns tss) = u " VALUES " ++ "("%ch :: text_of (joined comma tss) ++ ")"%ch :: []).
  { unfold behind_columns. rewrite text_of_app, text_of_chars. by rewrite <- (app_nil_r (text_of (paren tss))), group_text. }
  unfold read_value_groups. cbn [value_groups]. rewrite Ht.
  destruct (around (u " VALUES ") (text_of (joined comma tss)) []) as (_ & Hd & Hr & Hbehind).
  set (text := u " VALUES " ++ "("%ch :: text_of (joined comma tss) ++ ")"%ch :: []) in *. change (length (u " VALUES ")) with 8 in *.
  assert (Hspace : 7 + leading_space (drop 7 text) = 8).
  { unfold leading_space. change (drop 7 text) with (" "%ch :: "("%ch :: text_of (joined comma tss) ++ ")"%ch :: []).
    cbn [trim_start]. change (is_whitespace " "%ch) with true. change (is_whitespace "("%ch) with false. cbv iota. cbn [length]. lia. }
  rewrite Hspace, Hd.
  assert (starts_with ("("%ch :: text_of (joined comma tss) ++ ")"%ch :: []) (u "(") = true) as ->.
  { change (u "(") with ["("%ch]. cbn. by rewrite starts_with_nil. }
  cbn [negb]. unfold matching_paren. rewrite Hd.
  assert (Hp : "("%ch :: text_of (joined comma tss) ++ ")"%ch :: [] = text_of (paren tss)) by by rewrite <- (app_nil_r (text_of (paren tss))), group_text.
  rewrite Hp, matching_toks by by apply wf_group. rewrite <- (app_nil_r (paren tss)), matching_paren_group by done.
  unfold text_range in Hr. rewrite Hr, joined_ink by done. rewrite Hbehind. cbn [trim_start]. 
  change (starts_with [] (u ",")) with false. cbn [negb]. rewrite split_listed by done. f_equal. f_equal.
  unfold text. rewrite length_app. cbn. rewrite length_app. cbn. change (length (u " VALUES ")) with 8. lia.
Qed.

(** A statement is read as the names of its columns and its literals. *)
Lemma read_insert tss statement : tss <> [] -> Forall (listed file) tss -> trim statement = text_of (insert_toks tss) ->
  split_insert_statement statement file = inl (Some (mkInsertRows (unquote_identifier <$> (text_of <$> cols)) [text_of <$> tss])).
Proof.
  intros Hne Hl Ht. destruct (listed_all cols cols_listed) as [Hcw Hcb].
  assert (Hw : wf file (insert_toks tss)).
  { rewrite <- (app_nil_r (insert_toks tss)). by apply insert_wf; [..|constructor|]. }
  assert (Htext : text_of (insert_toks tss) = text_of before_columns ++ "("%ch :: text_of (joined comma cols) ++ ")"%ch :: text_of (behind_columns tss)).
  { unfold insert_toks. by rewrite !text_of_app, group_text. }
  assert (Hbefore : text_of before_columns = u "INSERT INTO " ++ text_of table ++ [" "%ch]).
  { unfold before_columns. by rewrite !text_of_app, text_of_chars. }
  assert (Hsingle : split_single_target_insert (text_of (insert_toks tss)) file
            = inl (mkInsertRows (unquote_identifier <$> (text_of <$> cols)) [text_of <$> tss])).
  { unfold split_single_target_insert, find_open_paren. rewrite open_paren_toks by done. unfold insert_toks at 1.
    rewrite open_paren_past; cycle 1.
    { unfold before_columns. apply Forall_app. split; [repeat (constructor; [done|]); constructor|]. apply Forall_app. split; [|by repeat constructor].
      apply (Forall_impl _ _ _ table_names). by intros [c|] Hc [= ->]. }
    cbn [open_paren paren app]. change (N.eqb "("%ch "("%ch) with true. cbv iota. rewrite Nat.add_0_l. rewrite Htext.
    destruct (around (text_of before_columns) (text_of (joined comma cols)) (text_of (behind_columns tss))) as (Htake & Hdrop & Hrange & Hbehind).
    rewrite Htake, Hbefore, (not_values_before (text_of table)) by done. rewrite <- Hbefore.
    assert (matching_paren (text_of before_columns ++ "("%ch :: text_of (joined comma cols) ++ ")"%ch :: text_of (behind_columns tss))
              (length (text_of before_columns)) file = Some (length (text_of before_columns) + 1 + length (text_of (joined comma cols)))) as ->.
    { unfold matching_paren. rewrite Hdrop, <- group_text, <- text_of_app. rewrite matching_toks.
      - by apply matching_paren_group.
      - apply wf_app; [by apply wf_group| |done]. apply wf_chars; [done|]. apply wf_group; [done|by apply listed_all]. }
    rewrite Hrange, Hbehind.
    assert (find_keyword (text_of (behind_columns tss)) (u "values") file = Some 1) as ->.
    { unfold behind_columns. rewrite text_of_app, text_of_chars. done. }
    change (1 + 6) with 7. rewrite read_group by done. unfold read_column_list.
    assert ((fun column => unquote_identifier (trim column)) <$> split_top_level (text_of (joined comma cols)) file = unquote_identifier <$> (text_of <$> cols)) as ->; [|done].
    rewrite <- (split_listed file cols), <- list_fmap_compose by done. done. }
  unfold split_insert_statement. rewrite Ht, Hsingle. rewrite Htext, Hbefore, <- !app_assoc. cbn [app].
  rewrite insert_words. done.
Qed.
End Statement.
