(* ===== verification/SqlFileSpec.v ===== *)
(** * A generated file reads back

    The INSERT file that is written for a selection is read as a table of the
    same columns and cells, whatever the cells hold; the reader finds out by
    itself which backend wrote it. *)
From S2P Require Import Prelude RustStr SessionPolicy GridSort ResultFilter RustParse EditStatements ResultExport ImportDelimited MarkdownLaws SqlLiteral SqlImport GridSqlExport SqlTokens SqlAtoms SqlLiteralSpec SqlFile.

(** ** Columns in order *)

Lemma free_column_next name pre wanted taken :
  free_column name (replicate (length pre) true ++ false :: taken) (pre ++ name :: wanted) = Some (length pre).
Proof.
  induction pre as [|x pre IH]; cbn.
  - unfold eq_ignore_ascii_case. by rewrite bool_decide_eq_true_2.
  - by rewrite IH.
Qed.

Lemma order_in_order pre wanted :
  order_loop wanted (replicate (length pre) true ++ replicate (length wanted) false) (pre ++ wanted) = Some (seq (length pre) (length wanted)).
Proof.
  revert pre. induction wanted as [|name wanted IH]; intros pre; [done|]. cbn [order_loop length replicate seq].
  rewrite free_column_next. cbn [mbind option_bind].
  assert (<[length pre := true]> (replicate (length pre) true ++ false :: replicate (length wanted) false)
          = replicate (length (pre ++ [name])) true ++ replicate (length wanted) false) as ->.
  { rewrite length_app, Nat.add_1_r, insert_app_r_alt by by rewrite length_replicate. rewrite length_replicate, Nat.sub_diag. cbn [list_insert].
    rewrite replicate_S_end, <- app_assoc. done. }
  rewrite (cons_middle name pre wanted), app_assoc, IH. rewrite length_app, Nat.add_1_r. done.
Qed.

Lemma same_columns names : column_order_against names names = Some (seq 0 (length names)).
Proof. unfold column_order_against. rewrite Nat.eqb_refl. exact (order_in_order [] names). Qed.

Lemma reordered_seq values : reordered (seq 0 (length values)) values = values.
Proof.
  unfold reordered. induction values as [|v values IH]; [done|]. cbn [length seq fmap list_fmap]. f_equal.
  rewrite <- fmap_S_seq, <- list_fmap_compose. exact IH.
Qed.

(** ** Statements of a file *)

Section File.
Context (file : SqlFileDialect) (table : list tok) (cols : list (list tok)) (q : char).
Context (table_wf : wf file table) (table_balanced : balanced 0 table = true) (table_names : Forall (name_tok q) table).
Context (table_read : is_values (last_word (text_of table)) = false).
Context (cols_ne : cols <> []) (cols_listed : Forall (listed file) cols).

Definition row_ok (tss : list (list tok)) : Prop := tss <> [] /\ Forall (listed file) tss.

Definition body_toks (rows : list (list (list tok))) : list tok :=
  concat ((fun tss => insert_toks table cols tss ++ [Ch ";"%ch; Ch LF]) <$> rows).

Lemma body_cons tss rows : body_toks (tss :: rows) = insert_toks table cols tss ++ Ch ";"%ch :: Ch LF :: body_toks rows.
Proof. unfold body_toks. cbn [fmap list_fmap concat]. by rewrite <- app_assoc. Qed.

Lemma body_wf rows : Forall row_ok rows -> wf file (body_toks rows).
Proof.
  induction 1 as [|tss rows [Hne Hl] _ IH]; [constructor|]. rewrite body_cons. apply (insert_wf file table cols); [done..| |done].
  repeat (apply wf_one; [done|done|done|]). done.
Qed.

Lemma body_statements current rows : ink current = [] -> Forall row_ok rows ->
  Forall2 (fun statement tss => trim statement = text_of (insert_toks table cols tss))
    (List.filter (fun statement => negb (str_is_empty (trim statement))) (statements 0 current (body_toks rows))) rows.
Proof.
  intros Hc H. revert current Hc. induction H as [|tss rows [Hne Hl] _ IH]; intros current Hc.
  - cbn [body_toks fmap list_fmap concat statements]. rewrite (proj2 (trim_nil current) Hc). constructor.
  - rewrite body_cons, (statements_balanced (insert_toks table cols tss) 0 0) by (try done; by apply (insert_balanced file table cols)).
    change (statements 0 ?c (Ch ";"%ch :: Ch LF :: ?ts)) with (c :: statements 0 [LF] ts). cbn [List.filter].
    destruct (insert_trim table cols current tss Hc) as [Ht Hn]. rewrite Ht. destruct (text_of (insert_toks table cols tss)) eqn:E; [done|].
    cbn [str_is_empty negb]. constructor; [by rewrite Ht, E|by apply IH].
Qed.

(** The values of one row, read. *)
Definition row_reads (tss : list (list tok)) (back : list ImportCell) : Prop :=
  length tss = length cols /\ collect (fun value => sql_value_text value file) (text_of <$> tss) = inl back.

Lemma read_statements statements_ rows backs columns rows_before :
  Forall2 (fun statement tss => trim statement = text_of (insert_toks table cols tss)) statements_ rows ->
  Forall row_ok rows -> Forall2 row_reads rows backs ->
  (columns = [] \/ columns = unquote_identifier <$> (text_of <$> cols)) ->
  inserts_loop file statements_ columns rows_before
  = inl (match rows with [] => columns | _ => unquote_identifier <$> (text_of <$> cols) end, rows_before ++ backs).
Proof.
  set (names := unquote_identifier <$> (text_of <$> cols)). intros Hs. revert backs columns rows_before.
  induction Hs as [|statement tss statements_ rows Hst _ IH]; intros backs columns rows_before Hok Hr Hc.
  - inversion Hr; subst. by rewrite app_nil_r.
  - apply Forall_cons in Hok as [[Hne Hl] Hok]. inversion Hr as [|? back ? backs' [Hlen Hread] Hr']; subst. cbn [inserts_loop].
    rewrite (read_insert file table cols q table_wf table_names table_read cols_ne cols_listed tss statement Hne Hl Hst).
    cbn [insert_columns insert_rows]. fold names.
    assert (match columns with [] => names | _ => columns end = names) as -> by (by destruct Hc as [-> | ->]; destruct names).
    assert (Hn : length names = length (text_of <$> tss)) by by unfold names; rewrite !length_fmap.
    rewrite same_columns. cbn [statement_rows]. rewrite Hn, Nat.eqb_refl. cbn [negb]. rewrite reordered_seq, Hread.
    rewrite (IH backs' names) by auto. unfold vec_push. rewrite <- app_assoc. destruct rows; [|done]. done.
Qed.
End File.

(** ** Which backend wrote it *)

(** Text without a quote and without a comment. *)
Definition unmarked (c : char) : bool := negb (is_quote c) && negb (N.eqb c "-"%ch) && negb (N.eqb c "/"%ch).

Lemma detect_unmarked escapes s rest : forallb unmarked s = true -> detect_loop escapes 0 (s ++ rest) = detect_loop escapes 0 rest.
Proof.
  induction s as [|c s IH]; [done|]. cbn [forallb]. rewrite andb_true_iff. intros [Hc Hs]. cbn [app detect_loop].
  unfold unmarked, is_quote in Hc. rewrite !andb_true_iff, !negb_true_iff, !orb_false_iff, !N.eqb_neq in Hc.
  destruct Hc as [[[[H1 H2] H3] Hd] Hs']. rewrite !(proj2 (N.eqb_neq _ _)) by done.
  destruct (no_comment c (s ++ rest)) as [-> ->]; [done|done|by apply IH].
Qed.

Lemma detect_ahead escapes w rest : detect_loop escapes (length w) (w ++ rest) = detect_loop escapes 0 rest.
Proof. induction w as [|c w IH]; [done|]. cbn. apply IH. Qed.

(** Without a backtick it is Oracle's. *)
Definition oracle_tok (t : tok) : Prop := match t with Ch _ => True | Quoted q _ => q = "'"%ch \/ q = QUOTE end.

Lemma detect_oracle escapes ts : wf File_Oracle ts -> Forall oracle_tok ts -> detect_loop escapes 0 (text_of ts) = File_Oracle.
Proof.
  intros H. induction H as [|c ts Hc Hs Hd _ IH|q body ts Hb Hh _ IH]; intros Ho; [done| |]; apply Forall_cons in Ho as [Hq Ho].
  - rewrite text_of_cons. cbn [tok_text app detect_loop]. destruct (no_comment c (text_of ts) Hs Hd) as [-> ->].
    unfold is_quote in Hc. rewrite !orb_false_iff in Hc. destruct Hc as [[-> ->] ->]. by apply IH.
  - pose proof (proj2 Hb (text_of ts) Hh) as Hlen. rewrite text_of_cons. cbn [tok_text app detect_loop]. rewrite <- app_assoc. cbn [app].
    assert (Hl : detect_loop escapes (length body + 1) (body ++ q :: text_of ts) = File_Oracle).
    { change (q :: text_of ts) with ([q] ++ text_of ts). rewrite (proj1 (quoted_ahead q body _)), <- (proj2 (quoted_ahead q body [])), detect_ahead. by apply IH. }
    unfold quoted_len in Hlen. destruct Hq as [-> | ->].
    + rewrite N.eqb_refl in *. injection Hlen as Hlen. cbn [backslash_escapes] in Hlen. by rewrite Hlen.
    + change (N.eqb QUOTE "'"%ch) with false in *. rewrite N.eqb_refl in *. cbn [orb] in Hlen. injection Hlen as ->. done.
Qed.

(** ** The line that names the session's rule *)

Definition rule_comment : str := u " sql_mode: NO_BACKSLASH_ESCAPES (a backslash in a literal below is one character, not an escape)".
Lemma one_line (line rest : str) : forallb (fun x => negb (N.eqb LF x)) line = true -> split_at_str [LF] (line ++ LF :: rest) = (line, rest).
Proof.
  intros H. unfold split_at_str. pose proof (find_char_at LF line rest H) as E. unfold find_char in E. rewrite E, take_app_length.
  by rewrite <- drop_drop, drop_app_length.
Qed.

Lemma rule_comment_one_line : forallb (fun x => negb (N.eqb LF x)) rule_comment = true.
Proof. by vm_compute. Qed.

Lemma rule_comment_declares : declares_no_backslash_escapes rule_comment = true.
Proof. by vm_compute. Qed.

Lemma declares_at_once fuel line rest : forallb (fun x => negb (N.eqb LF x)) line = true -> declares_no_backslash_escapes line = true ->
  declaration_loop (S fuel) ("-"%ch :: "-"%ch :: line ++ LF :: rest) = true.
Proof.
  intros Hl Hd. cbn [declaration_loop]. assert (trim_start ("-"%ch :: "-"%ch :: line ++ LF :: rest) = "-"%ch :: "-"%ch :: line ++ LF :: rest) as -> by done.
  assert (strip_prefix ("-"%ch :: "-"%ch :: line ++ LF :: rest) (u "--") = Some (line ++ LF :: rest)) as ->.
  { unfold strip_prefix. change (u "--") with ["-"%ch; "-"%ch]. cbn [starts_with]. by rewrite starts_with_nil. }
  rewrite one_line by done. by rewrite Hd.
Qed.

Lemma line_declares rest : sql_file_declares_no_backslash_escapes ("-"%ch :: "-"%ch :: rule_comment ++ LF :: rest) = true.
Proof.
  unfold sql_file_declares_no_backslash_escapes. apply declares_at_once; [apply rule_comment_one_line|apply rule_comment_declares].
Qed.

Lemma statements_skip d w depth current rest :
  statements_loop d 0 (length w) depth current (w ++ rest) = statements_loop d 0 0 depth current rest.
Proof. induction w as [|c w IH]; [done|]. cbn. apply IH. Qed.

Lemma statements_dashes d c current rest : is_quote c = false -> starts_with (c :: rest) (u "--") = true ->
  statements_loop d 0 0 0 current (c :: rest) = statements_loop d 0 (line_comment_len (c :: rest) - 1) 0 (vec_push LF current) rest.
Proof. intros Hq H. cbn [statements_loop]. by rewrite not_quote, H. Qed.

Lemma detect_dashes escapes c rest : is_quote c = false -> starts_with (c :: rest) (u "--") = true ->
  detect_loop escapes 0 (c :: rest) = detect_loop escapes (line_comment_len (c :: rest) - 1) rest.
Proof.
  intros Hq H. cbn [detect_loop]. rewrite H. unfold is_quote in Hq. rewrite !orb_false_iff in Hq. by destruct Hq as [[-> ->] ->].
Qed.

(** A comment up to the end of its line is passed. *)
Section Comment.
Context (line : str) (line_ends : forallb (fun x => negb (N.eqb LF x)) line = true).

Lemma comment_starts rest : starts_with ("-"%ch :: "-"%ch :: line ++ LF :: rest) (u "--") = true.
Proof. change (u "--") with ["-"%ch; "-"%ch]. cbn [starts_with]. by rewrite starts_with_nil. Qed.

Lemma comment_len rest : line_comment_len ("-"%ch :: "-"%ch :: line ++ LF :: rest) - 1 = length (["-"%ch] ++ line ++ [LF]).
Proof.
  assert (Hl : forallb (fun x => negb (N.eqb LF x)) ("-"%ch :: "-"%ch :: line) = true) by done.
  pose proof (find_char_at LF ("-"%ch :: "-"%ch :: line) rest Hl) as E. unfold find_char in E. cbn [app] in E.
  unfold line_comment_len. rewrite E. rewrite !length_app. cbn [length]. lia.
Qed.

Lemma comment_rest rest : "-"%ch :: line ++ LF :: rest = (["-"%ch] ++ line ++ [LF]) ++ rest.
Proof. rewrite <- !app_assoc. done. Qed.

Lemma statements_comment d rest : statements_loop d 0 0 0 [] ("-"%ch :: "-"%ch :: line ++ LF :: rest) = statements_loop d 0 0 0 [LF] rest.
Proof. rewrite statements_dashes by (done || apply comment_starts). rewrite comment_len, comment_rest. apply statements_skip. Qed.

Lemma detect_comment escapes rest : detect_loop escapes 0 ("-"%ch :: "-"%ch :: line ++ LF :: rest) = detect_loop escapes 0 rest.
Proof. rewrite detect_dashes by (done || apply comment_starts). rewrite comment_len, comment_rest. apply detect_ahead. Qed.
End Comment.

Lemma preamble_cases d rest : sql_inserts_dialect_preamble d ++ rest
  = if dialect_is_mysql d && bool_decide (doubles_a_backslash d = Some false) then "-"%ch :: "-"%ch :: rule_comment ++ LF :: rest else rest.
Proof. unfold sql_inserts_dialect_preamble. by destruct (_ && _). Qed.

(** ** The rows of a selection *)

Definition column_of (s : GridSqlSelection) (index : nat) : str := default [] (all_columns s !! index).

Lemma collect_all {A B} (f : A -> B + str) l ys : collect f l = inl ys -> Forall2 (fun x y => f x = inl y) l ys.
Proof.
  revert ys. induction l as [|x l IH]; intros ys; cbn [collect]; [by intros [= <-]|]. destruct (f x) as [y|] eqn:Hx; [|done].
  destruct (collect f l) as [ys'|]; [|done]. intros [= <-]. constructor; auto.
Qed.

Lemma rows_written s t columns k rows text : insert_rows_loop s t columns k rows = inl text ->
  exists literals, text = concat ((fun values => insert_statement t columns (join (u ", ") values)) <$> literals)
    /\ Forall2 (fun row values => Forall2 (fun index value => sql_literal_for_cell (dialect s) (kind_of s index) (cell_of row index) = inl value)
                 (selected_columns s) values) rows literals.
Proof.
  revert k text. induction rows as [|row rows IH]; intros k text; cbn [insert_rows_loop]; [intros [= <-]; by exists []|].
  destruct (collect _ _) as [values|] eqn:Hv; [|done]. destruct (insert_rows_loop _ _ _ _ _) as [text'|] eqn:Ht; [|done]. intros [= <-].
  destruct (IH _ _ Ht) as (literals & -> & H). exists (values :: literals). split; [done|]. constructor; [|done].
  apply collect_all in Hv. apply (Forall2_impl _ _ _ _ Hv). intros index value. unfold literal.
  destruct (sql_literal_for_cell _ _ _); [congruence|done].
Qed.

Definition row_texts (tss : list (list tok)) : list str := text_of <$> tss.

Lemma rows_atoms s file rows literals : dialect_ok (dialect s) -> reads file (dialect s) -> selected_columns s <> [] ->
  Forall2 (fun row values => Forall2 (fun index value => sql_literal_for_cell (dialect s) (kind_of s index) (cell_of row index) = inl value)
    (selected_columns s) values) rows literals ->
  exists (tsss : list (list (list tok))) backs, literals = List.map row_texts tsss /\ Forall (fun tss => row_ok file tss /\ Forall only_literals tss) tsss
    /\ Forall2 (fun tss back => length tss = length (selected_columns s) /\ collect (fun value => sql_value_text value file) (row_texts tss) = inl back) tsss backs
    /\ Forall2 (fun row back => Forall2 (fun index cell => same_cell (kind_of s index) (cell_of row index) cell) (selected_columns s) back) rows backs.
Proof.
  intros Hd Hr Hne H. induction H as [|row values rows literals Hrow _ (tsss & backs & -> & Hok & Hread & Hsame)]; [by exists [], []|].
  pose proof (Forall2_length _ _ _ Hrow) as Hlen.
  destruct (row_atoms (dialect s) file ((fun index => (kind_of s index, cell_of row index)) <$> selected_columns s) values Hd Hr) as (tss & back & -> & Hl & Ho & Hb & Hs).
  { by apply Forall2_fmap_l. }
  rewrite length_fmap in Hlen. exists (tss :: tsss), (back :: backs). split; [done|]. split.
  { constructor; [|done]. split; [|done]. split; [|done]. intros ->. by destruct (selected_columns s). }
  split; [by constructor|]. constructor; [by apply Forall2_fmap_l in Hs|done].
Qed.

(** ** The file *)

Section Written.
Context (s : GridSqlSelection) (ok : dialect_ok (dialect s)).
Context (names_ok : dialect_is_mysql (dialect s) = false -> Forall (fun column => quoted_identifier_delimiter (trim column) = None) (all_columns s)).
Context (table_read : is_values (last_word (table_name_of s)) = false).
Context (columns_ne : selected_columns s <> []).

Lemma selected_names_ok : dialect_is_mysql (dialect s) = false ->
  Forall (fun column => quoted_identifier_delimiter (trim column) = None) (column_of s <$> selected_columns s).
Proof.
  intros Hm. specialize (names_ok Hm). apply Forall_fmap, Forall_forall. intros index _. unfold column_of. cbn.
  destruct (all_columns s !! index) as [column|] eqn:Hc; [|done]. cbn. by apply (Forall_lookup_1 _ _ _ _ names_ok Hc).
Qed.

(** What the reader takes the file for. *)
Definition file_of (text : str) : SqlFileDialect := detect_sql_file_dialect (sql_inserts_dialect_preamble (dialect s) ++ text).

Lemma detect_preamble text : (exists rest, text = "I"%ch :: rest) ->
  file_of text = detect_loop (negb (dialect_is_mysql (dialect s) && bool_decide (doubles_a_backslash (dialect s) = Some false))) 0 text.
Proof.
  intros [rest ->]. unfold file_of, detect_sql_file_dialect. rewrite preamble_cases. destruct (_ && _).
  - rewrite line_declares. apply detect_comment, rule_comment_one_line.
  - assert (sql_file_declares_no_backslash_escapes ("I"%ch :: rest) = false) as ->; [|done].
    unfold sql_file_declares_no_backslash_escapes. cbn [declaration_loop]. done.
Qed.

Definition columns_text : str := join (u ", ") (quote_column s <$> selected_columns s).
Definition statements_text (literals : list (list str)) : str :=
  concat ((fun values => insert_statement (table_name_of s) columns_text (join (u ", ") values)) <$> literals).

(** What was written, as tokens a reader of [file] passes. *)
Record written (file : SqlFileDialect) (literals : list (list str)) (backs : list (list ImportCell)) (t : list tok) (cols : list (list tok))
    (tsss : list (list (list tok))) : Prop := {
  w_text : statements_text literals = text_of (body_toks t cols tsss);
  w_table : text_of t = table_name_of s;
  w_table_wf : wf file t;
  w_table_balanced : balanced 0 t = true;
  w_table_names : Forall (name_tok (quote_of (dialect s))) t;
  w_cols_ne : cols <> [];
  w_cols : Forall (listed file) cols;
  w_cols_names : Forall (Forall (name_tok (quote_of (dialect s)))) cols;
  w_names : unquote_identifier <$> (text_of <$> cols) = trim <$> (column_of s <$> selected_columns s);
  w_rows : Forall (row_ok file) tsss;
  w_literals : Forall (Forall only_literals) tsss;
  w_reads : Forall2 (row_reads file cols) tsss backs
}.

Lemma statement_text t cols tss : table_name_of s = text_of t -> quote_column s <$> selected_columns s = text_of <$> cols ->
  insert_statement (table_name_of s) columns_text (join (u ", ") (row_texts tss)) = text_of (insert_toks t cols tss ++ [Ch ";"%ch; Ch LF]).
Proof.
  intros Ht Hc. unfold insert_statement, columns_text, row_texts. rewrite Ht, Hc, !join_literals.
  rewrite text_of_app. unfold insert_toks, before_columns, behind_columns. rewrite !text_of_app, !text_of_chars. rewrite <- !app_assoc.
  rewrite !group_text. cbn [text_of fmap list_fmap tok_text concat app]. repeat (rewrite <- ?app_assoc; cbn [app]). done.
Qed.

Lemma written_toks file rows literals : reads file (dialect s) ->
  Forall2 (fun row values => Forall2 (fun index value => sql_literal_for_cell (dialect s) (kind_of s index) (cell_of row index) = inl value)
    (selected_columns s) values) rows literals ->
  exists backs t cols tsss, written file literals backs t cols tsss
    /\ Forall2 (fun row back => Forall2 (fun index cell => same_cell (kind_of s index) (cell_of row index) cell) (selected_columns s) back) rows backs.
Proof.
  intros Hr H. destruct (table_name_toks s file) as (t & Ht & Htw & Htb & Htn & _).
  destruct (columns_toks (dialect s) file _ selected_names_ok) as (cols & Hc & Hcl & Hcn & Hcu).
  destruct (rows_atoms s file rows literals ok Hr columns_ne H) as (tsss & backs & -> & Hok & Hread & Hsame).
  assert (Hcols : quote_column s <$> selected_columns s = text_of <$> cols) by by rewrite <- Hc, <- list_fmap_compose.
  assert (Hlen : length cols = length (selected_columns s)) by (apply (f_equal length) in Hcols; by rewrite !length_fmap in Hcols).
  exists backs, t, cols, tsss. split; [|done]. split; try done.
  - unfold statements_text, body_toks. clear -Ht Hcols. induction tsss as [|tss tsss IH]; [done|].
    cbn [List.map fmap list_fmap concat]. rewrite (text_of_app (insert_toks t cols tss ++ [Ch ";"%ch; Ch LF])). f_equal; [by apply statement_text|exact IH].
  - intros ->. by destruct (selected_columns s).
  - apply (Forall_impl _ _ _ Hok). by intros ? [].
  - apply (Forall_impl _ _ _ Hok). by intros ? [].
  - apply (Forall2_impl _ _ _ _ Hread). intros tss back [Hl Hb]. split; [by rewrite Hlen|done].
Qed.

(** Read as the file it is, it is the table. *)
Lemma parse_written file literals backs t cols tsss : written file literals backs t cols tsss -> tsss <> [] ->
  file_of (statements_text literals) = file ->
  parse_sql_inserts (sql_inserts_dialect_preamble (dialect s) ++ statements_text literals)
  = inl (mkTable (trim <$> (column_of s <$> selected_columns s)) backs true).
Proof.
  intros [Htext Ht Htw Htb Htn Hcne Hcl Hcn Hnames Hrows Hlit Hreads] Hne Hfile. unfold file_of in Hfile.
  unfold parse_sql_inserts. rewrite Hfile. unfold split_sql_statements. rewrite preamble_cases.
  assert (Hbody : exists current, ink current = [] /\
    statements_loop file 0 0 0 [] (if dialect_is_mysql (dialect s) && bool_decide (doubles_a_backslash (dialect s) = Some false)
      then "-"%ch :: "-"%ch :: rule_comment ++ LF :: statements_text literals else statements_text literals)
    = statements 0 current (body_toks t cols tsss)).
  { rewrite Htext. pose proof (body_wf file t cols Htw Hcne Hcl tsss Hrows) as Hw. destruct (_ && _).
    - exists [LF]. split; [done|]. rewrite (statements_comment rule_comment rule_comment_one_line). by apply statements_toks.
    - exists []. split; [done|]. by apply statements_toks. }
  destruct Hbody as (current & Hcur & ->).
  pose proof (body_statements file t cols Htb Hcne Hcl current tsss Hcur Hrows) as Hs.
  rewrite (read_statements file t cols (quote_of (dialect s))) with (rows := tsss) (backs := backs); try done; [|by rewrite Ht|by left].
  destruct tsss as [|tss tsss]; [done|]. rewrite Hnames. destruct (selected_columns s); [done|]. done.
Qed.

(** *** The backend that is found *)

Lemma mysql_found literals : dialect_is_mysql (dialect s) = true -> literals <> [] -> reads (file_of (statements_text literals)) (dialect s).
Proof.
  intros Hm Hne. destruct literals as [|values literals]; [done|].
  assert (Hcol : exists rest, columns_text = "`"%ch :: rest).
  { unfold columns_text. destruct (selected_columns s) as [|index indices]; [done|]. cbn [fmap list_fmap].
    assert (Hq : exists rest, quote_column s index = "`"%ch :: rest).
    { unfold quote_column, quote_column_name, quote_reported_name. change (is_mysql_or_mariadb (db_type (dialect s))) with (dialect_is_mysql (dialect s)).
      rewrite Hm. by eexists. }
    destruct Hq as [rest Hq]. cbn [join]. destruct (quote_column s <$> indices); rewrite Hq; by eexists. }
  destruct Hcol as [cols Hcol].
  assert (Htext : exists pre rest, forallb unmarked pre = true /\ statements_text (values :: literals) = "I"%ch :: pre ++ "`"%ch :: rest).
  { unfold statements_text. cbn [fmap list_fmap concat]. unfold insert_statement. rewrite Hcol.
    destruct (table_name_toks s File_Oracle) as (_ & _ & _ & _ & _ & Hshape). destruct (Hshape Hm) as [[rest ->]|Hinert].
    - exists (u "NSERT INTO "). eexists. split; [done|]. change (u "INSERT INTO ") with ("I"%ch :: u "NSERT INTO "). rewrite <- !app_assoc. reflexivity.
    - exists (u "NSERT INTO " ++ table_name_of s ++ u " ("). eexists. split.
      + rewrite !forallb_app. apply andb_true_iff. split; [done|]. rewrite andb_true_r. revert Hinert. apply forallb_impl. intros c Hc.
        destruct (inert_facts c Hc) as (Hq & Hs & Hd). unfold unmarked. rewrite Hq. by rewrite !(proj2 (N.eqb_neq _ _)).
      + change (u "INSERT INTO ") with ("I"%ch :: u "NSERT INTO "). repeat (rewrite <- ?app_assoc; cbn [app]). reflexivity. }
  destruct Htext as (pre & rest & Hpre & Htext). rewrite detect_preamble by by rewrite Htext; eexists.
  assert (Hd : forall escapes, detect_loop escapes 0 (statements_text (values :: literals)) = File_MysqlFamily escapes).
  { intros escapes. rewrite Htext. change ("I"%ch :: pre ++ "`"%ch :: rest) with (("I"%ch :: pre) ++ "`"%ch :: rest). by rewrite detect_unmarked. }
  rewrite Hd. unfold reads. rewrite Hm. cbn [andb]. destruct (doubles_a_backslash (dialect s)) as [[]|]; [done|done|by eexists].
Qed.

Lemma oracle_found literals backs t cols tsss : dialect_is_mysql (dialect s) = false -> tsss <> [] ->
  written File_Oracle literals backs t cols tsss -> file_of (statements_text literals) = File_Oracle.
Proof.
  intros Hm Hne [Htext Ht Htw Htb Htn Hcne Hcl Hcn Hnames Hrows Hlit Hreads].
  assert (Hbegin : exists rest, statements_text literals = "I"%ch :: rest).
  { rewrite Htext. destruct tsss as [|tss tsss]; [done|]. rewrite body_cons. unfold insert_toks, before_columns.
    rewrite <- !app_assoc, text_of_app, text_of_chars. by eexists. }
  rewrite detect_preamble by done. rewrite Htext. apply detect_oracle; [by apply body_wf|].
  unfold quote_of in *. rewrite Hm in *.
  assert (Hname : forall ts, Forall (name_tok QUOTE) ts -> Forall oracle_tok ts).
  { intros ts H. apply (Forall_impl _ _ _ H). intros [c|q body]; cbn; auto. }
  assert (Hliteral : forall ts, only_literals ts -> Forall oracle_tok ts).
  { intros ts H. apply (Forall_impl _ _ _ H). intros [c|q body]; cbn; auto. }
  assert (Hchars : forall text, Forall oracle_tok (chars text)) by (intros text; apply Forall_fmap, Forall_forall; done).
  assert (Hgroup : forall tss, Forall (Forall oracle_tok) tss -> Forall oracle_tok (paren tss)).
  { intros tss H. unfold paren. constructor; [done|]. apply Forall_app. split; [|by repeat constructor].
    induction H as [|ts tss Hts Htss IH]; [constructor|]. destruct tss as [|ts' tss]; [done|]. rewrite comma_cons.
    apply Forall_app. split; [done|]. by repeat constructor. }
  clear -Htn Hcn Hlit Hname Hliteral Hchars Hgroup. unfold body_toks. induction Hlit as [|tss tsss Htss _ IH]; [constructor|].
  cbn [fmap list_fmap concat]. apply Forall_app. split; [|exact IH]. apply Forall_app. split; [|by repeat constructor].
  unfold insert_toks, before_columns, behind_columns. rewrite !Forall_app. split; [split; [done|]; split; [by apply Hname|by repeat constructor]|].
  split; [apply Hgroup|split; [done|apply Hgroup]].
  - apply (Forall_impl _ _ _ Hcn). exact Hname.
  - apply (Forall_impl _ _ _ Htss). exact Hliteral.
Qed.
End Written.

(** C6. The INSERT file written for a selection is read back, by a reader that is
    told nothing of its backend, as a table of the selected columns with one row
    for each selected row, in order; every NULL is a NULL again, every text is
    its own text character for character whatever it holds (quotes, backslashes,
    ampersands, semicolons, more than 4000 bytes), and every other value keeps
    its characters up to white space.  Asked of the names are a table not called
    VALUES and, for Oracle, columns that do not look quoted already. *)
Theorem inserts_file_round_trip s text n :
  dialect_ok (dialect s) ->
  (dialect_is_mysql (dialect s) = false -> Forall (fun column => quoted_identifier_delimiter (trim column) = None) (all_columns s)) ->
  is_values (last_word (table_name_of s)) = false -> selected_rows s <> [] ->
  build_sql_inserts s = Written text n ->
  exists rows, parse_sql_inserts text = inl (mkTable (trim <$> (column_of s <$> selected_columns s)) rows true)
    /\ n = length rows
    /\ Forall2 (fun row back => Forall2 (fun index cell => same_cell (kind_of s index) (cell_of row index) cell) (selected_columns s) back)
         (selected_rows s) rows.
Proof.
  intros Hok Hnames Htable Hrows. unfold build_sql_inserts. destruct (ambiguous_column_refusal s []); [done|].
  destruct (selected_columns s) as [|index indices] eqn:Hcols; [done|]. rewrite <- Hcols.
  assert (Hc : selected_columns s <> []) by by rewrite Hcols.
  destruct (selected_rows s) as [|row rows] eqn:Hr; [done|]. rewrite <- Hr in *. change (join (u ", ") (quote_column s <$> selected_columns s)) with (columns_text s).
  destruct (insert_rows_loop _ _ _ _ _) as [body|] eqn:Hbody; [|done]. intros [= <- <-].
  destruct (rows_written _ _ _ _ _ _ Hbody) as (literals & -> & Hlit). change (concat _) with (statements_text s literals).
  assert (Hl : literals <> []) by (intros ->; inversion Hlit; congruence).
  assert (Hfile : exists file, reads file (dialect s) /\ (dialect_is_mysql (dialect s) = true -> file_of s (statements_text s literals) = file)).
  { destruct (dialect_is_mysql (dialect s)) eqn:Hm.
    - exists (file_of s (statements_text s literals)). split; [by apply mysql_found|done].
    - exists File_Oracle. unfold reads. by rewrite Hm. }
  destruct Hfile as (file & Hreads & Hfound).
  destruct (written_toks s Hok Hnames Hc file _ literals Hreads Hlit) as (backs & t & cols & tsss & Hw & Hsame).
  assert (Hne : tsss <> []).
  { intros ->. pose proof (Forall2_length _ _ _ (w_reads _ _ _ _ _ _ _ Hw)) as H1. pose proof (Forall2_length _ _ _ Hsame) as H2.
    rewrite Hr in H2. cbn in H1, H2. lia. }
  exists backs. split.
  - apply (parse_written s Htable Hc file literals backs t cols tsss Hw Hne). destruct (dialect_is_mysql (dialect s)) eqn:Hm; [by apply Hfound|].
    unfold reads in Hreads. rewrite Hm in Hreads. subst file. eapply oracle_found; eauto.
  - split; [by rewrite (Forall2_length _ _ _ Hsame)|done].
Qed.

(** A MySQL session that keeps backslashes, and an Oracle session with a name in
    lower case, a NULL, and text with every character that could end a literal. *)
Definition awkward_text : str := u "O'Hara); DROP -- &x /* \ `y`" ++ [QUOTE; LF].

Definition awkward_selection (d : SqlWriteDialect) : GridSqlSelection :=
  mkSelection d (Some (u "scott.Emp")) [u "id"; u "a(b"] [Kind_Number; Kind_String] [0; 1]
    [[Some (u "-1.5e3"); Some awkward_text]; [None; Some []]].

Lemma inserts_file_round_trip_witness :
  (exists rows text, build_sql_inserts (awkward_selection (mkDialect DatabaseType_MySQL Rule_Literal)) = Written text 2
    /\ parse_sql_inserts text = inl (mkTable [u "id"; u "a(b"] rows true) /\ 2 = length rows)
  /\ (exists rows text, build_sql_inserts (awkward_selection (mkDialect DatabaseType_Oracle Rule_Literal)) = Written text 2
    /\ parse_sql_inserts text = inl (mkTable [u "id"; u "a(b"] rows true) /\ 2 = length rows).
Proof.
  split.
  - destruct (inserts_file_round_trip (awkward_selection (mkDialect DatabaseType_MySQL Rule_Literal))
      (match build_sql_inserts (awkward_selection (mkDialect DatabaseType_MySQL Rule_Literal)) with Written text _ => text | _ => [] end) 2)
      as (rows & Hparse & Hn & _); [done|done|by vm_compute|done|by vm_compute|]. eexists rows, _. split; [by vm_compute|]. split; [exact Hparse|done].
  - destruct (inserts_file_round_trip (awkward_selection (mkDialect DatabaseType_Oracle Rule_Literal))
      (match build_sql_inserts (awkward_selection (mkDialect DatabaseType_Oracle Rule_Literal)) with Written text _ => text | _ => [] end) 2)
      as (rows & Hparse & Hn & _); [done| |by vm_compute|done|by vm_compute|].
    { intros _. repeat constructor. }
    eexists rows, _. split; [by vm_compute|]. split; [exact Hparse|done].
Defined.
